(* ===== verification/_CoqProject ===== *)
-Q . S2P
Prelude.v
Utf8.v
Text.v
Ports.v
Uuid.v
Identity.v
Post.v
Timeline.v
Limits.v
PostCodec.v
FrameCodec.v
Fragmenter.v
Reassembler.v
InboundQueue.v
DedupeWindow.v
HistoryRecord.v
MessengerState.v
TransmissionScheduler.v
TokenBudget.v
Japan920Policy.v
LanPolicy.v
Transports.v
LinuxRadio.v
RadioTrace.v
RadioSafety.v
RadioPromises.v
SimulatedBus.v
BusDelivery.v
Decimal.v
Json.v
SettingsJson.v
AppScript.v
SettingsStore.v
PersistentSession.v
DurableSession.v
HistorySchema.v
HistoryStore.v
HistoryLaws.v
HistoryTheory.v
HistoryRoundtrip.v
HistoryLoad.v
HistoryMigration.v
HistoryImage.v
HistoryFiles.v
HistoryContract.v
HistoryReturns.v
HistoryMemory.v
HistoryOpen.v
HistoryConstraints.v
HistoryPromises.v
RadioRuntime.v
TextEditor.v
I18n.v
ViewText.v
ViewModel.v
ViewModelTheory.v
ViewSnapshots.v
App.v
AppTheory.v
UdpSocket.v
ScriptRunner.v
KeyInput.v
Startup.v
