(* ===== verification/Prelude.v ===== *)
(** * LoRa Messenger: a verification library

    A model of the messenger of src/src (C++), translated function by function,
    and the theorems that make it correct.  This file is the root: it documents
    the whole and holds the notations, tactics and lemmas the parts share.

    ** The program

    The messenger lets people near each other exchange short posts over LoRa
    radio or over UDP broadcasts on a LAN.  A post is a validated value
    (src/src/core, src/src/model); the timeline keeps the latest posts; the
    commands of src/src/application change identity and timeline, after a commit
    port has made the change durable.  Outbound, the scheduler encodes a post,
    cuts it into frames and offers one frame at a time to the transport when the
    radio policy allows it; inbound, datagrams go through a bounded queue to a
    reassembler, and a completed post is offered to the session
    (src/src/protocol, src/src/adapters).  The session owns the settings file,
    the history database and the window that recognises posts already seen, and
    keeps memory and disk equal (src/src/app/persistent_session.cpp).  The view
    model is the state machine of the user interface (src/src/viewmodel); the
    application loop joins session, radio runtime and view model
    (src/src/app/app.cpp).

    ** The files

    Values and text: [Prelude] (src/src/core/result.h, bytes and machine
    integers), [Utf8] and [Text] (core/text.cpp), [Ports] (src/src/ports, as type
    classes), [Uuid], [Identity], [Post], [Timeline] (core/uuid.cpp, model/).

    The wire: [Limits], [PostCodec], [FrameCodec], [Fragmenter], [Reassembler],
    [InboundQueue], [DedupeWindow] (protocol/); [SimulatedBus]
    (adapters/transport) and [BusDelivery], the queue at the end of such a bus.

    Commands and sending: [MessengerState], [TransmissionScheduler]
    (application/), [TokenBudget] (the contract of a token-bucket policy),
    [Japan920Policy], [LanPolicy], [Transports] (adapters/radio,
    adapters/network); [LinuxRadio] (adapters/radio/linux_cap_lora_1262_radio.cpp,
    the driver of the SX1262 chip), [RadioTrace] (the messages an action of the
    driver sends), [RadioSafety] (what they mean for the antenna and the channel)
    and [RadioPromises] (that the calls return, and the theorems); [UdpSocket]
    (adapters/network/posix_udp_broadcast_socket.cpp).

    Files and input: [Decimal], [Json], [SettingsJson], [SettingsStore]
    (adapters/storage), [AppScript] (platform/app_script_parser.cpp).

    The history (adapters/storage/sqlite_history_store.cpp): [HistoryRecord]
    (what is kept), [HistorySchema] (the
    schema checks, migrations and configuration), [HistoryStore] (loading and
    saving), [HistoryLaws] (the laws of SQLite, the meaning of the SQL texts and
    the constraints of the schema), [HistoryTheory] (a save), [HistoryRoundtrip]
    (a load of what was saved), [HistoryLoad] (a load of anything),
    [HistoryConstraints] (the schema accepts what the program accepts),
    [HistoryPromises] (the theorems about saves and loads), [HistoryMigration]
    (opening an older schema), [HistoryImage] (the snapshot that the contents stand
    for), [HistoryFiles] (the files: inspection, probe copy and the two ways to
    open), [HistoryContract] (what these functions do in any world that keeps the
    laws of its files and of SQLite), [HistoryReturns] (that they end),
    [HistoryMemory] (such a world in memory) and [HistoryOpen] (the theorems, and
    the store as the interface of the session).

    The session and the station: [PersistentSession] and [DurableSession]
    (app/persistent_session.cpp), [RadioRuntime] (app/radio_runtime.cpp).

    The user interface: [TextEditor], [I18n], [ViewText], [ViewModel],
    [ViewModelTheory], [ViewSnapshots] (viewmodel/).

    The program: [App] and [AppTheory] (app/app.cpp), [Startup] (the choice of the
    radio in app/app.cpp, and app/demo_scenario.cpp); [ScriptRunner]
    (platform/app_script.cpp) and [KeyInput] (platform/linux_input.cpp,
    platform/key_codec.h), where its keys come from.

    ** How code becomes definitions

    Definitions keep the names of the source.  A struct is a [Record], an enum or
    a variant an [Inductive], an operation a function that returns the changed
    object, a handler the whole handler with its guards in the order of the
    code.  [std::uint8_t] buffers and strings are lists of bytes, unsigned
    integers are [Z] with the reduction modulo 2^w written out ([u8], [u16],
    [u32], [u64]), [std::size_t] that counts elements in memory is [nat].
    [core::Result] is [Result].  [None] is reserved for what C++ leaves
    undefined (an index outside an array, a null dereference) or for an exception
    that the callers never provoke; that no reachable state gets there is part of
    the theorems.

    The world outside - randomness, clocks, system calls, transports, the
    database, the screen - is a type with one method per call the code makes,
    given by a type class in [Ports], [SettingsStore], [PersistentSession] or
    [App]; what the code relies on is a second class of laws ([IRandomBytesLaws],
    [IPosixLaws], [IHistoryStoreLaws], [ISqliteLaws], [BudgetedPolicy],
    [IMessengerLaws]), and every such class has a concrete instance the witnesses
    run on; SQLite's, [Engine], is a small database that can fail at any call.  The modelled
    components discharge the laws they promise to each other: the atomic settings
    store is an [ISettingsStore], the SQLite store with its files is an
    [IHistoryStore] that keeps [IHistoryStoreLaws], the two policies are
    [BudgetedPolicy]s, the radio driver is an [ICapLora1262Radio], the durable
    session is an [IMessenger] and an [IUiSettingsCommit].

    ** What the theorems show

    The program (AppTheory): every run is defined and is a run of the station
    with a use of the view model, so that the invariants of both hold of it; the
    local data is deleted only on a confirmed request, made on the settings screen
    or by the notice of a session that needs recovery.  The loop tests its
    condition on its own ([App_test]), and its body runs to the end.  What is
    started transmits only where the environment said it may (Startup,
    [started_radio_lawful]).

    From post to post (Fragmenter, Reassembler, InboundQueue, RadioRuntime,
    FrameCodec, PostCodec): codecs are exact inverses, corruption of a byte is
    detected, fragments in any order rebuild exactly the post that was sent.  In
    any life of a station every entry that came to be shown as broadcast had all
    the fragments of its own post accepted by the transport, and a post whose
    fragments are heard over any number of calls is offered to the session.

    Durability (DurableSession, SettingsStore, SettingsJson, MessengerState): an
    open session holds what the disk holds, a restart restores it, a save is
    atomic under every failure and loss of power, sequence numbers are never
    reused, and the settings file is read and written by one grammar.

    The history (HistoryPromises, HistoryLoad): a save is all or nothing at every
    failure of SQLite, a load returns what was saved and never lets anything
    invalid in, what a healthy save answers is decided by the checks of the
    program alone, and neither the identity nor an order of a database goes back.

    Its files (HistoryMigration, HistoryOpen): opening upgrades an older schema and
    loses nothing; a database is opened for an identity only after an exact copy
    was found to be that identity's, and nothing else is touched before; store and
    files together are an abstract store of one snapshot; no operation runs for
    ever.

    The test bench (SimulatedBus, BusDelivery): every copy on the simulated bus is
    accounted for, without faults it is a pair of queues, and whatever it does a
    receiver completes no post but those the other end sent.

    Sending (TransmissionScheduler, Japan920Policy): one outcome for every post,
    the airtime budget, termination of the queue.

    The radio (RadioPromises): whatever the devices answer, the chip is told to
    transmit only with the antenna confirmed and switched on, on a channel of the
    band, into a quiet channel, and only what was asked for; what the driver
    answers is what the chip said; every call returns.  A false preamble keeps it
    from transmitting ([false_preamble_blocks]).

    The LAN (UdpSocket): what is handed out came from the subnet of the selected
    interface, what is accepted was broadcast there.

    The scripted input (ScriptRunner, AppScript) is an interpreter of the script
    that always comes to a verdict; the keyboard (KeyInput) loses no stroke and
    every character that is typed arrives.

    The user interface (ViewModelTheory, TextEditor, ViewText, ViewSnapshots):
    the draft is never lost, what is sent is what was written, the editor is a
    code-point editor, the screens show everything and only valid text, and
    nothing irrevocable happens without a confirmation.

    ** Bounds and fuel

    Recursion follows the data wherever the loop of the source does.  Fuel is
    used where it does not: [Json.parse_value] (linear in the length of the input,
    enough because every call consumes a byte), [ViewText.wrap_loop] (twice the
    length of the body, enough because a row is broken at most once between two
    characters taken), [HistorySchema.probe_loop] (the length of the text, enough
    because a statement takes at least a byte), the retries after EINTR of
    [SettingsStore] (any fuel; the theorems say what holds when the retries end)
    the copies and retries of [HistoryFiles] (any fuel; without interruptions a
    fuel above the length of the files is enough) and the waits of [LinuxRadio]
    ([kWaitPolls], one poll for every 100 us of the 100 ms a wait lasts).

    ** Not modelled

    The drawing of the screens and themes (view/), the set-up of the LVGL display
    and input devices (app.cpp, platform/linux_input.cpp), screenshots, fonts and
    assets, logging, and main.cpp: they are input and output with no decision the theorems would be
    about. *)
From Stdlib Require Export ZArith Lia.
From Stdlib Require Export Strings.Byte.
From Stdlib Require Strings.String.
Export String.StringSyntax.
From stdpp Require Export prelude list gmap.

#[global] Open Scope Z_scope.

(** ** Bytes *)

Abbreviation byte := Byte.byte.
Abbreviation bytes := (list Byte.byte).

#[global] Instance byte_eq_decision : EqDecision byte := Byte.byte_eq_dec.

(** The value of a [std::uint8_t]. *)
Definition bval (b : byte) : Z := Z.of_N (Byte.to_N b).

(** [static_cast<std::uint8_t>(z)]: truncation modulo 2^8. *)
Definition to_u8 (z : Z) : byte :=
  match Byte.of_N (Z.to_N (z mod 256)) with
  | Some b => b
  | None => x00
  end.

(** A C string literal. *)
Definition str (s : String.string) : bytes := String.list_byte_of_string s.
Arguments str _%_string_scope.

(** ** Fixed-width unsigned integers, as Z with the wrap written out *)

Definition u8 (z : Z) : Z := z mod 256.
Definition u16 (z : Z) : Z := z mod 65536.
Definition u32 (z : Z) : Z := z mod 4294967296.
Definition u64 (z : Z) : Z := z mod 18446744073709551616.

Definition UINT16_MAX : Z := 65535.
Definition UINT64_MAX : Z := 18446744073709551615.
Definition INT64_MAX : Z := 9223372036854775807.
Definition INT64_MIN : Z := -9223372036854775808.

Definition is_u8 (z : Z) : Prop := 0 <= z <= 255.
Definition is_u16 (z : Z) : Prop := 0 <= z <= UINT16_MAX.
Definition is_u64 (z : Z) : Prop := 0 <= z <= UINT64_MAX.
Definition is_i64 (z : Z) : Prop := INT64_MIN <= z <= INT64_MAX.

(** ** Result, the sum type of src/core/result.h *)

Inductive Result (T E : Type) : Type :=
| success (value : T)
| failure (error : E).
Arguments success {T E} _.
Arguments failure {T E} _.

Definition has_value {T E} (r : Result T E) : bool :=
  match r with
  | success _ => true
  | failure _ => false
  end.

Declare Scope result_scope.
Delimit Scope result_scope with result.
Notation "'let!' x ':=' r 'else' e 'in' k" :=
  (match r with success x => k | failure _ => e end)
  (at level 10, x name, r at level 100, e at level 100, k at level 200)
  : result_scope.
#[global] Open Scope result_scope.

(** ** Big-endian words: the reference functions the codecs are compared with *)

(** The [n] low bytes of [v], most significant first. *)
Fixpoint be_bytes (n : nat) (v : Z) : bytes :=
  match n with
  | O => []
  | S n => be_bytes n (v / 256) ++ [to_u8 v]
  end.

(** The value of a big-endian byte string. *)
Definition be_value (bs : bytes) : Z :=
  foldl (fun acc b => acc * 256 + bval b) 0 bs.

(** ** Reading a byte array *)

(** [data[index]]; every use in the code is guarded by the size. *)
Definition byte_at (data : bytes) (index : nat) : byte := nth index data x00.

(** The [n] bytes at [data + off]. *)
Definition sub_bytes (off n : nat) (data : bytes) : bytes := take n (drop off data).

(** ** Writing into a byte array: [std::copy] to [dst + off] *)

Definition splice {A} (off : nat) (src dst : list A) : list A :=
  take off dst ++ src ++ drop (off + length src) dst.

(** ** Automation *)

Create HintDb lora.
Create Rewrite HintDb lora.

Ltac destruct_result :=
  match goal with
  | |- context [match ?r with success _ => _ | failure _ => _ end] =>
      destruct r eqn:?
  | H : context [match ?r with success _ => _ | failure _ => _ end] |- _ =>
      destruct r eqn:?
  end.

(** Split one [if] of the goal or of a hypothesis, keeping its equation. *)
Ltac split_if :=
  match goal with
  | |- context [if ?b then _ else _] => destruct b eqn:?
  | H : context [if ?b then _ else _] |- _ => destruct b eqn:?
  end.

(** Turn boolean comparisons into propositions [lia] reads. *)
Ltac reflect_bools :=
  repeat match goal with
  | H : (_ && _)%bool = true |- _ => apply andb_true_iff in H; destruct H
  | H : (_ || _)%bool = false |- _ => apply orb_false_iff in H; destruct H
  | H : (_ && _)%bool = false |- _ => apply andb_false_iff in H
  | H : (_ || _)%bool = true |- _ => apply orb_true_iff in H
  | H : negb _ = true |- _ => apply negb_true_iff in H
  | H : negb _ = false |- _ => apply negb_false_iff in H
  | H : bool_decide _ = true |- _ => apply bool_decide_eq_true in H
  | H : bool_decide _ = false |- _ => apply bool_decide_eq_false in H
  | H : Z.eqb _ _ = true |- _ => apply Z.eqb_eq in H
  | H : Z.eqb _ _ = false |- _ => apply Z.eqb_neq in H
  | H : Z.leb _ _ = true |- _ => apply Z.leb_le in H
  | H : Z.leb _ _ = false |- _ => apply Z.leb_gt in H
  | H : Z.ltb _ _ = true |- _ => apply Z.ltb_lt in H
  | H : Z.ltb _ _ = false |- _ => apply Z.ltb_ge in H
  | H : Nat.eqb _ _ = true |- _ => apply Nat.eqb_eq in H
  | H : Nat.eqb _ _ = false |- _ => apply Nat.eqb_neq in H
  | H : Nat.leb _ _ = true |- _ => apply Nat.leb_le in H
  | H : Nat.leb _ _ = false |- _ => apply Nat.leb_gt in H
  | H : Nat.ltb _ _ = true |- _ => apply Nat.ltb_lt in H
  | H : Nat.ltb _ _ = false |- _ => apply Nat.ltb_ge in H
  end.

(** [lia] after eliminating division and modulo by constants. *)
Ltac zdiv_lia := Z.div_mod_to_equations; lia.

(** ** Lemmas on bytes *)

Lemma bval_range b : 0 <= bval b <= 255.
Proof.
  unfold bval. pose proof (Byte.to_N_bounded b). lia.
Qed.

Lemma bval_to_u8 z : bval (to_u8 z) = z mod 256.
Proof.
  unfold to_u8, bval.
  pose proof (Z.mod_pos_bound z 256 ltac:(lia)) as Hz.
  destruct (Byte.of_N (Z.to_N (z mod 256))) as [b|] eqn:E.
  - apply Byte.to_of_N in E. lia.
  - apply Byte.of_N_None_iff in E. lia.
Qed.

Lemma bval_inj a b : bval a = bval b -> a = b.
Proof.
  unfold bval. intros H%N2Z.inj.
  pose proof (Byte.of_to_N a). pose proof (Byte.of_to_N b). congruence.
Qed.

#[export] Instance bval_Inj : Inj (=) (=) bval.
Proof. exact bval_inj. Qed.

(** Byte strings are equal when their values are. *)
Lemma bytes_inj (l l' : bytes) : map bval l = map bval l' -> l = l'.
Proof. apply (inj (fmap bval)). Qed.

Lemma to_u8_bval b : to_u8 (bval b) = b.
Proof.
  apply bval_inj. rewrite bval_to_u8. pose proof (bval_range b).
  apply Z.mod_small. lia.
Qed.

Lemma to_u8_eq z z' : z mod 256 = z' mod 256 -> to_u8 z = to_u8 z'.
Proof. unfold to_u8. by intros ->. Qed.

Lemma bval_to_u8_small z : 0 <= z <= 255 -> bval (to_u8 z) = z.
Proof. intros. rewrite bval_to_u8. apply Z.mod_small. lia. Qed.

#[export] Hint Rewrite bval_to_u8 to_u8_bval : lora.

(** Pose the range of every byte value in sight. *)
Ltac byte_ranges :=
  repeat match goal with
  | |- context [bval ?b] =>
      lazymatch goal with
      | _ : 0 <= bval b <= 255 |- _ => fail
      | _ => pose proof (bval_range b)
      end
  | _ : context [bval ?b] |- _ =>
      lazymatch goal with
      | _ : 0 <= bval b <= 255 |- _ => fail
      | _ => pose proof (bval_range b)
      end
  end.

(** ** Bit operations as arithmetic *)

Lemma land_ones_mod a n : 0 <= n -> Z.land a (Z.ones n) = a mod 2 ^ n.
Proof. apply Z.land_ones. Qed.

Lemma land_255 a : Z.land a 255 = a mod 256.
Proof. exact (Z.land_ones a 8 ltac:(lia)). Qed.

Lemma land_63 a : Z.land a 63 = a mod 64.
Proof. exact (Z.land_ones a 6 ltac:(lia)). Qed.

Lemma land_31 a : Z.land a 31 = a mod 32.
Proof. exact (Z.land_ones a 5 ltac:(lia)). Qed.

Lemma land_15 a : Z.land a 15 = a mod 16.
Proof. exact (Z.land_ones a 4 ltac:(lia)). Qed.

Lemma land_7 a : Z.land a 7 = a mod 8.
Proof. exact (Z.land_ones a 3 ltac:(lia)). Qed.

(** Disjoint bits: [hi * 2^n | lo] is a sum. *)
Lemma lor_disjoint hi lo n :
  0 <= n -> 0 <= lo < 2 ^ n -> Z.lor (hi * 2 ^ n) lo = hi * 2 ^ n + lo.
Proof.
  intros Hn Hlo. symmetry. apply Z.add_nocarry_lor.
  apply Z.bits_inj'. intros i Hi. rewrite Z.land_spec, Z.bits_0.
  destruct (Z.ltb_spec i n).
  - by rewrite Z.mul_pow2_bits_low.
  - rewrite <- (Z.mod_small lo (2 ^ n)) by lia.
    rewrite Z.mod_pow2_bits_high by lia. apply andb_false_r.
Qed.

Lemma shiftl_lor_add hi lo n :
  0 <= n -> 0 <= lo < 2 ^ n -> Z.lor (Z.shiftl hi n) lo = hi * 2 ^ n + lo.
Proof. intros. rewrite Z.shiftl_mul_pow2 by lia. by apply lor_disjoint. Qed.

(** ** Big-endian words *)

Lemma length_be_bytes n v : length (be_bytes n v) = n.
Proof.
  revert v. induction n; intros; simpl; [done|].
  rewrite length_app, IHn. simpl. lia.
Qed.

#[export] Hint Rewrite length_be_bytes : lora.

Lemma be_value_snoc bs b : be_value (bs ++ [b]) = be_value bs * 256 + bval b.
Proof. unfold be_value. by rewrite foldl_app. Qed.

Lemma be_value_be_bytes n v : be_value (be_bytes n v) = v mod 256 ^ Z.of_nat n.
Proof.
  revert v. induction n as [|n IH]; intros v.
  - by rewrite Z.mod_1_r.
  - cbn [be_bytes]. rewrite be_value_snoc, IH, bval_to_u8.
    rewrite Nat2Z.inj_succ, Z.pow_succ_r by lia.
    rewrite Z.rem_mul_r by lia. ring.
Qed.

Lemma be_value_range bs : 0 <= be_value bs < 256 ^ Z.of_nat (length bs).
Proof.
  induction bs as [|b bs IH] using rev_ind; [done|].
  rewrite be_value_snoc, length_app, Nat.add_comm. cbn [length Nat.add].
  rewrite Nat2Z.inj_succ, Z.pow_succ_r by lia. byte_ranges. lia.
Qed.

Lemma be_bytes_be_value bs : be_bytes (length bs) (be_value bs) = bs.
Proof.
  induction bs as [|b bs IH] using rev_ind; [done|].
  rewrite length_app, Nat.add_comm. cbn [length Nat.add be_bytes].
  rewrite be_value_snoc. byte_ranges. f_equal.
  - replace ((be_value bs * 256 + bval b) / 256) with (be_value bs) by zdiv_lia.
    apply IH.
  - f_equal. apply bval_inj. rewrite bval_to_u8. zdiv_lia.
Qed.

Lemma be_bytes_value n bs : length bs = n -> be_bytes n (be_value bs) = bs.
Proof. intros <-. apply be_bytes_be_value. Qed.

(** ** Lists *)

Lemma length_splice {A} off (src dst : list A) :
  (off + length src <= length dst)%nat -> length (splice off src dst) = length dst.
Proof.
  intros. unfold splice. rewrite !length_app, length_take, length_drop. lia.
Qed.

Lemma splice_app {A} (pre src mid post : list A) :
  length mid = length src ->
  splice (length pre) src (pre ++ mid ++ post) = pre ++ src ++ post.
Proof.
  intros Hm. unfold splice.
  rewrite take_app_length, drop_app_ge by lia.
  rewrite drop_app_ge by lia.
  replace (length pre + length src - length pre - length mid)%nat with 0%nat by lia.
  by rewrite drop_0.
Qed.

Lemma existsb_false_Forall {A} (f : A -> bool) l :
  existsb f l = false <-> Forall (fun x => f x = false) l.
Proof.
  induction l as [|x l IH]; simpl; [by split|].
  by rewrite orb_false_iff, IH, Forall_cons.
Qed.

Lemma forallb_false_Exists {A} (f : A -> bool) l :
  forallb f l = false <-> Exists (fun x => f x = false) l.
Proof.
  induction l as [|x l IH]; simpl; [by rewrite Exists_nil|].
  by rewrite andb_false_iff, IH, Exists_cons.
Qed.

Lemma existsb_Exists {A} (f : A -> bool) l :
  existsb f l = true <-> Exists (fun x => f x = true) l.
Proof.
  induction l as [|x l IH]; simpl; [by rewrite Exists_nil|].
  by rewrite orb_true_iff, IH, Exists_cons.
Qed.

Lemma forallb_Forall {A} (f : A -> bool) l :
  forallb f l = true <-> Forall (fun x => f x = true) l.
Proof.
  induction l as [|x l IH]; simpl; [by split|].
  by rewrite andb_true_iff, IH, Forall_cons.
Qed.

(** ** [std::find_if] as an index *)

Fixpoint find_index {A} (f : A -> bool) (l : list A) : option nat :=
  match l with
  | [] => None
  | x :: l => if f x then Some 0%nat else S <$> find_index f l
  end.

Lemma find_index_Some {A} (f : A -> bool) l i :
  find_index f l = Some i <->
  exists x, l !! i = Some x /\ f x = true /\
            forall j y, (j < i)%nat -> l !! j = Some y -> f y = false.
Proof.
  revert i. induction l as [|x l IH]; intros i; simpl.
  { split; [done|]. intros (y & Hy & _). done. }
  destruct (f x) eqn:Hf.
  - split.
    + intros [= <-]. exists x. split_and!; [done..|]. intros. lia.
    + intros (y & Hy & Hfy & Hlt). destruct i as [|i]; [done|].
      specialize (Hlt 0%nat x ltac:(lia) eq_refl). congruence.
  - rewrite fmap_Some. setoid_rewrite IH. split.
    + intros (k & (y & Hy & Hfy & Hlt) & ->). exists y. split_and!; [done..|].
      intros [|j] z Hj Hz; [by injection Hz as <-|]. apply (Hlt j); [lia|done].
    + intros (y & Hy & Hfy & Hlt). destruct i as [|i]; [injection Hy as ->; congruence|].
      exists i. split; [|done]. exists y. split_and!; [done..|].
      intros j z Hj Hz. apply (Hlt (S j)); [lia|done].
Qed.

Lemma find_index_None {A} (f : A -> bool) l :
  find_index f l = None <-> Forall (fun x => f x = false) l.
Proof.
  induction l as [|x l IH]; simpl; [by split|].
  rewrite Forall_cons, <- IH. destruct (f x); [by split; [|intros []]|].
  rewrite fmap_None. tauto.
Qed.

Lemma find_index_Exists {A} (f : A -> bool) l :
  find_index f l <> None <-> Exists (fun x => f x = true) l.
Proof.
  rewrite find_index_None, <- existsb_false_Forall, <- existsb_Exists.
  by destruct (existsb f l).
Qed.

(** [std::find_if] as an element. *)
Lemma find_Some_iff {A} (f : A -> bool) l x :
  List.find f l = Some x <->
  exists i, find_index f l = Some i /\ l !! i = Some x.
Proof.
  induction l as [|y l IH]; simpl; [naive_solver|].
  destruct (f y) eqn:Hf.
  - split; [intros [= ->]; by exists 0%nat|]. intros (i & [= <-] & Hi). done.
  - rewrite IH. split.
    + intros (i & -> & Hi). by exists (S i).
    + intros (i & Hi & Hl). apply fmap_Some in Hi as (k & Hk & ->). by exists k.
Qed.

Lemma find_None_iff {A} (f : A -> bool) l :
  List.find f l = None <-> Forall (fun x => f x = false) l.
Proof.
  induction l as [|y l IH]; simpl; [by split|].
  rewrite Forall_cons. destruct (f y); [by split; [|intros []]|]. rewrite IH. tauto.
Qed.

(** [std::count_if]. *)
Definition count_if {A} (f : A -> bool) (l : list A) : nat := length (List.filter f l).

Lemma count_if_app {A} (f : A -> bool) l l' :
  count_if f (l ++ l') = (count_if f l + count_if f l')%nat.
Proof. unfold count_if. by rewrite List.filter_app, length_app. Qed.

Lemma count_if_length {A} (f : A -> bool) l : (count_if f l <= length l)%nat.
Proof. unfold count_if. apply filter_length_le. Qed.

Lemma count_if_cons {A} (f : A -> bool) x l :
  count_if f (x :: l) = ((if f x then 1 else 0) + count_if f l)%nat.
Proof. unfold count_if. simpl. by destruct (f x). Qed.

Lemma count_if_delete {A} (f : A -> bool) l i x :
  l !! i = Some x ->
  count_if f l = ((if f x then 1 else 0) + count_if f (delete i l))%nat.
Proof.
  intros Hi. rewrite <- (take_drop_middle l i x Hi) at 1.
  rewrite delete_take_drop, !count_if_app, count_if_cons. lia.
Qed.

Lemma count_if_insert {A} (f : A -> bool) l i x y :
  l !! i = Some x ->
  (count_if f (<[i := y]> l) + (if f x then 1 else 0) =
   count_if f l + (if f y then 1 else 0))%nat.
Proof.
  intros Hi. rewrite <- (take_drop_middle l i x Hi) at 2.
  rewrite insert_take_drop by (by eapply lookup_lt_Some).
  rewrite !count_if_app, !count_if_cons. lia.
Qed.

Lemma count_if_all {A} (f : A -> bool) l :
  Forall (fun x => f x = true) l -> count_if f l = length l.
Proof.
  induction 1 as [|x l Hx _ IH]; [done|].
  rewrite count_if_cons, Hx, IH. done.
Qed.

Lemma sublist_map {A B} (f : A -> B) l l' :
  l `sublist_of` l' -> map f l `sublist_of` map f l'.
Proof. induction 1; simpl; by constructor. Qed.

(** ** Finite step sequences *)

Lemma rtc_invariant {A} (R : A -> A -> Prop) (P : A -> Prop) :
  (forall x y, P x -> R x y -> P y) -> forall x y, rtc R x y -> P x -> P y.
Proof. intros Hstep x y Hxy. induction Hxy; eauto. Qed.

(** ** Byte arrays *)

Lemma byte_at_insert (bs : bytes) k b :
  (k < length bs)%nat -> byte_at (<[k := b]> bs) k = b.
Proof.
  intros. unfold byte_at. apply nth_lookup_Some.
  by apply list_lookup_insert_eq.
Qed.

Lemma byte_at_insert_ne (bs : bytes) i j b :
  i <> j -> byte_at (<[i := b]> bs) j = byte_at bs j.
Proof.
  intros. unfold byte_at. rewrite !nth_lookup.
  by rewrite list_lookup_insert_ne.
Qed.

Lemma bytes_byte_at (s : bytes) : s = map (byte_at s) (seq 0 (length s)).
Proof.
  induction s as [|c s IH]; [done|]. simpl. f_equal.
  rewrite <- seq_shift, map_map. exact IH.
Qed.

Lemma sub_bytes_skip (pre bs : bytes) k off n :
  length pre = k -> sub_bytes (k + off) n (pre ++ bs) = sub_bytes off n bs.
Proof. intros <-. unfold sub_bytes. by rewrite drop_app_add. Qed.

Lemma sub_bytes_here (x rest : bytes) n :
  length x = n -> sub_bytes 0 n (x ++ rest) = x.
Proof. intros <-. unfold sub_bytes. by rewrite drop_0, take_app_length. Qed.

Lemma sub_bytes_at (pre x rest bs : bytes) k n :
  bs = pre ++ x ++ rest -> k = length pre -> length x = n -> sub_bytes k n bs = x.
Proof.
  intros -> -> Hn. rewrite <- (Nat.add_0_r (length pre)), sub_bytes_skip by done.
  by apply sub_bytes_here.
Qed.

Lemma sub_bytes_app off n m (bs : bytes) :
  sub_bytes off n bs ++ sub_bytes (off + n) m bs = sub_bytes off (n + m) bs.
Proof.
  unfold sub_bytes. rewrite <- drop_drop, <- (take_drop n (take (n + m) (drop off bs))).
  rewrite take_take, Nat.min_l by lia. f_equal.
  rewrite skipn_firstn_comm. f_equal. lia.
Qed.

Lemma sub_bytes_all (bs : bytes) n : n = length bs -> sub_bytes 0 n bs = bs.
Proof. intros ->. unfold sub_bytes. by rewrite drop_0, firstn_all. Qed.

Lemma length_sub_bytes off n (bs : bytes) :
  (off + n <= length bs)%nat -> length (sub_bytes off n bs) = n.
Proof. intros. unfold sub_bytes. rewrite length_take, length_drop. lia. Qed.

Lemma sub_bytes_1 off (bs : bytes) :
  (off < length bs)%nat -> sub_bytes off 1 bs = [byte_at bs off].
Proof.
  intros Hlt. apply lookup_lt_is_Some in Hlt as [b Hb].
  unfold sub_bytes, byte_at. rewrite (drop_S _ b) by done. cbn [take].
  by rewrite take_0, (nth_lookup_Some _ _ _ _ Hb).
Qed.

Lemma byte_at_sub (bs : bytes) off : sub_bytes off 1 bs = [byte_at bs off] \/
  (length bs <= off)%nat.
Proof. destruct (decide (off < length bs)%nat); [left; by apply sub_bytes_1|right; lia]. Qed.

Lemma byte_at_app_r (pre bs : bytes) k i :
  length pre = k -> byte_at (pre ++ bs) (k + i) = byte_at bs i.
Proof. intros <-. unfold byte_at. apply app_nth2_plus. Qed.

Lemma byte_at_app_l (pre bs : bytes) i :
  (i < length pre)%nat -> byte_at (pre ++ bs) i = byte_at pre i.
Proof. intros. unfold byte_at. by apply app_nth1. Qed.

(** ** Words read and written by shifting *)

(** [(value >> shift) & 0xff] for descending shifts is the big-endian word. *)
Lemma be_bytes_shifts n v :
  be_bytes n v =
  map (fun shift => to_u8 (Z.land (Z.shiftr v shift) 0xff))
      (map (fun i => 8 * Z.of_nat i) (rev (seq 0 n))).
Proof.
  revert v. induction n as [|n IH]; intros v; [done|].
  cbn [be_bytes seq rev]. rewrite <- (seq_shift n 0), !map_app. f_equal.
  - rewrite IH, <- map_rev, !map_map. apply map_ext_in. intros i Hi.
    change 256 with (2 ^ 8). rewrite <- (Z.shiftr_div_pow2 v 8) by lia.
    rewrite Z.shiftr_shiftr by lia. do 3 f_equal. lia.
  - cbn [map]. rewrite Z.shiftr_0_r, land_255. f_equal. apply to_u8_eq.
    by rewrite Z.mod_mod.
Qed.

(** The accumulation [value = (value << 8) | byte] in a word of [w] bits. *)
Lemma shift_accumulate (wrap : Z -> Z) (bs : bytes) m :
  (forall z, 0 <= z < 256 ^ Z.of_nat m -> wrap z = z) -> (length bs <= m)%nat ->
  foldl (fun value b => Z.lor (wrap (Z.shiftl value 8)) (bval b)) 0 bs = be_value bs.
Proof.
  intros Hwrap. induction bs as [|b bs IH] using rev_ind; intros Hlen; [done|].
  rewrite length_app in Hlen. simpl in Hlen.
  rewrite foldl_app. cbn [foldl]. rewrite IH by lia.
  pose proof (be_value_range bs) as Hr.
  assert (256 * 256 ^ Z.of_nat (length bs) <= 256 ^ Z.of_nat m) as Hp.
  { rewrite <- Z.pow_succ_r by lia. apply Z.pow_le_mono_r; lia. }
  rewrite Hwrap by (rewrite Z.shiftl_mul_pow2 by lia; change (2 ^ 8) with 256; lia).
  byte_ranges. rewrite shiftl_lor_add by lia. by rewrite be_value_snoc.
Qed.
