(* ===== verification/Utf8.v ===== *)
(** * Utf8: the UTF-8 decoder and encoder

    [visit_utf8] is the validating decoder of src/core/text.cpp; every text
    entering the program (user identifiers, post bodies, editor insertions)
    goes through it.  [encode_utf8] is the encoder of
    src/viewmodel/text_editor.cpp.  The theory shows that the two are inverse:
    the decoder accepts exactly the concatenations of encodings of Unicode
    scalar values, and hands the visitor exactly those values in order. *)
From S2P Require Import Prelude.

(** ** Definitions *)

(** The lead byte: initial code point bits and sequence length. *)
Definition utf8_lead (first : byte) : option (Z * nat) :=
  let f := bval first in
  if f <=? 0x7f then Some (f, 1%nat)
  else if (0xc2 <=? f) && (f <=? 0xdf) then Some (Z.land f 0x1f, 2%nat)
  else if (0xe0 <=? f) && (f <=? 0xef) then Some (Z.land f 0x0f, 3%nat)
  else if (0xf0 <=? f) && (f <=? 0xf4) then Some (Z.land f 0x07, 4%nat)
  else None.

(** The inner loop over continuation bytes. *)
Fixpoint utf8_continuation (codepoint : Z) (rest : bytes) : option Z :=
  match rest with
  | [] => Some codepoint
  | continuation :: rest =>
      if Z.land (bval continuation) 0xc0 =? 0x80
      then utf8_continuation
             (Z.lor (u32 (Z.shiftl codepoint 6))
                    (Z.land (bval continuation) 0x3f)) rest
      else None
  end.

(** Overlong forms, surrogates and values above U+10FFFF. *)
Definition utf8_rejected (count : nat) (codepoint : Z) : bool :=
  ((count =? 2)%nat && (codepoint <? 0x80)) ||
  ((count =? 3)%nat && (codepoint <? 0x800)) ||
  ((count =? 4)%nat && (codepoint <? 0x10000)) ||
  ((0xd800 <=? codepoint) && (codepoint <=? 0xdfff)) ||
  (0x10ffff <? codepoint).

(** One iteration of the outer loop: the code point at the head of [value]
    and the number of bytes it takes, or [None] where the code returns false. *)
Definition utf8_decode_one (value : bytes) : option (Z * nat) :=
  match value with
  | [] => None
  | first :: rest =>
      match utf8_lead first with
      | None => None
      | Some (initial, count) =>
          if (length value <? count)%nat then None
          else
            match utf8_continuation initial (take (count - 1) rest) with
            | None => None
            | Some codepoint =>
                if utf8_rejected count codepoint then None
                else Some (codepoint, count)
            end
      end
  end.

(** The outer loop; the visitor's captured variables are the state [S]. *)
Fixpoint visit_utf8_loop {St} (visitor : St -> Z -> St) (fuel : nat)
    (value : bytes) (st : St) : bool * St :=
  match value with
  | [] => (true, st)
  | _ :: _ =>
      match fuel with
      | O => (false, st)
      | S fuel =>
          match utf8_decode_one value with
          | None => (false, st)
          | Some (codepoint, count) =>
              visit_utf8_loop visitor fuel (drop count value)
                (visitor st codepoint)
          end
      end
  end.

Definition visit_utf8 {St} (visitor : St -> Z -> St) (value : bytes) (st : St)
  : bool * St :=
  visit_utf8_loop visitor (length value) value st.

Definition is_valid_utf8 (value : bytes) : bool :=
  fst (visit_utf8 (fun (st : unit) (_ : Z) => st) value tt).

(** The encoder; the empty list is its size-0 failure. *)
Definition encode_utf8 (codepoint : Z) : bytes :=
  if codepoint <=? 0x7f then [to_u8 codepoint]
  else if codepoint <=? 0x7ff then
    [to_u8 (Z.lor 0xc0 (Z.shiftr codepoint 6));
     to_u8 (Z.lor 0x80 (Z.land codepoint 0x3f))]
  else if (0xd800 <=? codepoint) && (codepoint <=? 0xdfff) then []
  else if codepoint <=? 0xffff then
    [to_u8 (Z.lor 0xe0 (Z.shiftr codepoint 12));
     to_u8 (Z.lor 0x80 (Z.land (Z.shiftr codepoint 6) 0x3f));
     to_u8 (Z.lor 0x80 (Z.land codepoint 0x3f))]
  else if codepoint <=? 0x10ffff then
    [to_u8 (Z.lor 0xf0 (Z.shiftr codepoint 18));
     to_u8 (Z.lor 0x80 (Z.land (Z.shiftr codepoint 12) 0x3f));
     to_u8 (Z.lor 0x80 (Z.land (Z.shiftr codepoint 6) 0x3f));
     to_u8 (Z.lor 0x80 (Z.land codepoint 0x3f))]
  else [].

(** ** Specification: Unicode scalar values and their encodings *)

Definition is_scalar (cp : Z) : Prop :=
  0 <= cp <= 0x10ffff /\ ~ (0xd800 <= cp <= 0xdfff).

Definition utf8_text (cps : list Z) : bytes := concat (map encode_utf8 cps).

Definition is_continuation_byte (b : byte) : Prop := 128 <= bval b < 192.

(** ** Bytes of an encoding *)

Lemma continuation_test b :
  (Z.land (bval b) 0xc0 =? 0x80) = ((128 <=? bval b) && (bval b <? 192)).
Proof. by destruct b. Qed.

Lemma continuation_testP b :
  reflect (is_continuation_byte b) (Z.land (bval b) 0xc0 =? 0x80).
Proof.
  rewrite continuation_test. apply iff_reflect.
  unfold is_continuation_byte. rewrite andb_true_iff. lia.
Qed.

Lemma bval_cont x :
  bval (to_u8 (Z.lor 0x80 (Z.land x 0x3f))) = 128 + x mod 64.
Proof.
  rewrite land_63. change 0x80 with (2 * 2 ^ 6).
  rewrite lor_disjoint by (pose proof (Z.mod_pos_bound x 64); lia).
  apply bval_to_u8_small. pose proof (Z.mod_pos_bound x 64). lia.
Qed.

Lemma bval_lead c h k x n :
  c = h * 2 ^ k -> 0 <= k -> 0 <= n ->
  0 <= x / 2 ^ n < 2 ^ k -> 0 <= h * 2 ^ k -> c + x / 2 ^ n <= 255 ->
  bval (to_u8 (Z.lor c (Z.shiftr x n))) = c + x / 2 ^ n.
Proof.
  intros -> ? ? ? ? ?. rewrite Z.shiftr_div_pow2 by lia.
  rewrite lor_disjoint by lia. apply bval_to_u8_small. lia.
Qed.

(** The decoder's accumulation step is multiplication by 64. *)
Lemma continuation_step cp b rest :
  0 <= cp < 2 ^ 26 -> is_continuation_byte b ->
  utf8_continuation cp (b :: rest) =
  utf8_continuation (cp * 64 + (bval b - 128)) rest.
Proof.
  intros Hcp Hb. cbn [utf8_continuation].
  destruct (continuation_testP b) as [_|]; [|done].
  f_equal. unfold is_continuation_byte in Hb.
  rewrite land_63. unfold u32.
  rewrite (Z.mod_small (Z.shiftl cp 6)) by (rewrite Z.shiftl_mul_pow2; lia).
  rewrite shiftl_lor_add by (pose proof (Z.mod_pos_bound (bval b) 64); lia).
  change (2 ^ 6) with 64. zdiv_lia.
Qed.

Lemma lead_cases b cp n :
  utf8_lead b = Some (cp, n) ->
  (n = 1%nat /\ 0 <= bval b <= 127 /\ cp = bval b) \/
  (n = 2%nat /\ 194 <= bval b <= 223 /\ cp = bval b - 192) \/
  (n = 3%nat /\ 224 <= bval b <= 239 /\ cp = bval b - 224) \/
  (n = 4%nat /\ 240 <= bval b <= 244 /\ cp = bval b - 240).
Proof.
  unfold utf8_lead. rewrite land_31, land_15, land_7. byte_ranges.
  repeat split_if; intros [= <- <-]; reflect_bools.
  - left. lia.
  - right; left. repeat split; try lia. zdiv_lia.
  - right; right; left. repeat split; try lia. zdiv_lia.
  - right; right; right. repeat split; try lia. zdiv_lia.
Qed.

Lemma lead_1 b : 0 <= bval b <= 127 -> utf8_lead b = Some (bval b, 1%nat).
Proof. intros. unfold utf8_lead. destruct (Z.leb_spec (bval b) 127); [done|lia]. Qed.

Ltac solve_lead :=
  intros; unfold utf8_lead; rewrite ?land_31, ?land_15, ?land_7;
  repeat split_if; reflect_bools; try lia; repeat f_equal; zdiv_lia.

Lemma lead_2 b : 194 <= bval b <= 223 -> utf8_lead b = Some (bval b - 192, 2%nat).
Proof. solve_lead. Qed.

Lemma lead_3 b : 224 <= bval b <= 239 -> utf8_lead b = Some (bval b - 224, 3%nat).
Proof. solve_lead. Qed.

Lemma lead_4 b : 240 <= bval b <= 244 -> utf8_lead b = Some (bval b - 240, 4%nat).
Proof. solve_lead. Qed.

(** ** The encoder's output, byte by byte *)

Lemma encode_1 cp : 0 <= cp <= 0x7f -> map bval (encode_utf8 cp) = [cp].
Proof.
  intros. unfold encode_utf8. destruct (Z.leb_spec cp 0x7f); [|lia].
  simpl. by rewrite bval_to_u8_small by lia.
Qed.

Lemma encode_2 cp : 0x80 <= cp <= 0x7ff ->
  map bval (encode_utf8 cp) = [192 + cp / 64; 128 + cp mod 64].
Proof.
  intros. unfold encode_utf8.
  destruct (Z.leb_spec cp 0x7f); [lia|]. destruct (Z.leb_spec cp 0x7ff); [|lia].
  cbn [map]. rewrite bval_cont.
  by rewrite (bval_lead 0xc0 6 5) by (rewrite ?Z.shiftr_div_pow2; zdiv_lia).
Qed.

Lemma encode_3 cp : 0x800 <= cp <= 0xffff -> ~ (0xd800 <= cp <= 0xdfff) ->
  map bval (encode_utf8 cp) =
  [224 + cp / 4096; 128 + cp / 64 mod 64; 128 + cp mod 64].
Proof.
  intros. unfold encode_utf8.
  repeat split_if; reflect_bools; try lia.
  all: cbn [map]; rewrite !bval_cont;
    by rewrite (bval_lead 0xe0 7 5), Z.shiftr_div_pow2 by zdiv_lia.
Qed.

Lemma encode_4 cp : 0x10000 <= cp <= 0x10ffff ->
  map bval (encode_utf8 cp) =
  [240 + cp / 262144; 128 + cp / 4096 mod 64; 128 + cp / 64 mod 64;
   128 + cp mod 64].
Proof.
  intros. unfold encode_utf8.
  repeat split_if; reflect_bools; try lia.
  all: cbn [map]; rewrite !bval_cont;
    by rewrite (bval_lead 0xf0 15 4), !Z.shiftr_div_pow2 by zdiv_lia.
Qed.

(** ** Decoding one code point *)

Lemma continuation_inv cp b rest r :
  utf8_continuation cp (b :: rest) = Some r -> is_continuation_byte b.
Proof.
  cbn [utf8_continuation]. by destruct (continuation_testP b).
Qed.

Ltac inv_map_bval H :=
  repeat match type of H with
  | map bval ?l = _ :: _ =>
      let b := fresh "b" in let Hb := fresh "Hb" in
      destruct l as [|b l]; [discriminate H|];
      cbn [map] in H; injection H as Hb H
  | map bval ?l = [] => destruct l; [clear H|discriminate H]
  end.

Lemma rejected_false n cp :
  utf8_rejected n cp = false <->
  ~ (n = 2%nat /\ cp < 0x80) /\ ~ (n = 3%nat /\ cp < 0x800) /\
  ~ (n = 4%nat /\ cp < 0x10000) /\ ~ (0xd800 <= cp <= 0xdfff) /\
  cp <= 0x10ffff.
Proof.
  unfold utf8_rejected.
  rewrite !orb_false_iff, !andb_false_iff, !Nat.eqb_neq, !Z.ltb_ge, !Z.leb_gt.
  lia.
Qed.

(** The shape of a decoding step on explicit bytes. *)
Lemma decode_one_1 b rest :
  0 <= bval b <= 127 -> utf8_decode_one (b :: rest) = Some (bval b, 1%nat).
Proof.
  intros. unfold utf8_decode_one. rewrite lead_1 by done. simpl.
  replace (utf8_rejected 1 (bval b)) with false; [done|].
  symmetry. apply rejected_false. lia.
Qed.

Lemma decode_one_2 b b1 rest cp :
  194 <= bval b <= 223 -> is_continuation_byte b1 ->
  cp = (bval b - 192) * 64 + (bval b1 - 128) ->
  utf8_decode_one (b :: b1 :: rest) =
  if utf8_rejected 2 cp then None else Some (cp, 2%nat).
Proof.
  intros ? Hb1 ->. unfold utf8_decode_one.
  rewrite lead_2 by lia. cbn -[utf8_continuation].
  rewrite take_0, continuation_step by (done || lia). done.
Qed.

Lemma decode_one_3 b b1 b2 rest cp :
  224 <= bval b <= 239 -> is_continuation_byte b1 -> is_continuation_byte b2 ->
  cp = ((bval b - 224) * 64 + (bval b1 - 128)) * 64 + (bval b2 - 128) ->
  utf8_decode_one (b :: b1 :: b2 :: rest) =
  if utf8_rejected 3 cp then None else Some (cp, 3%nat).
Proof.
  intros ? Hb1 Hb2 ->. unfold utf8_decode_one, is_continuation_byte in *.
  rewrite lead_3 by lia. cbn -[utf8_continuation].
  rewrite take_0, !continuation_step by (unfold is_continuation_byte; lia). done.
Qed.

Lemma decode_one_4 b b1 b2 b3 rest cp :
  240 <= bval b <= 244 -> is_continuation_byte b1 -> is_continuation_byte b2 ->
  is_continuation_byte b3 ->
  cp = (((bval b - 240) * 64 + (bval b1 - 128)) * 64 + (bval b2 - 128)) * 64
       + (bval b3 - 128) ->
  utf8_decode_one (b :: b1 :: b2 :: b3 :: rest) =
  if utf8_rejected 4 cp then None else Some (cp, 4%nat).
Proof.
  intros ? Hb1 Hb2 Hb3 ->. unfold utf8_decode_one, is_continuation_byte in *.
  rewrite lead_4 by lia. cbn -[utf8_continuation].
  rewrite take_0, !continuation_step by (unfold is_continuation_byte; lia). done.
Qed.

(** Replace an encoding by explicit bytes with known values. *)
Ltac open_encoding E :=
  let He := fresh "He" in
  pose proof E as He; revert He;
  match goal with |- context [encode_utf8 ?cp] => generalize (encode_utf8 cp) end;
  intros ? He; inv_map_bval He.

(** Decoding undoes encoding, whatever follows. *)
Lemma decode_one_encode cp rest :
  is_scalar cp ->
  utf8_decode_one (encode_utf8 cp ++ rest) =
  Some (cp, length (encode_utf8 cp)).
Proof.
  intros [Hr Hs].
  assert (0 <= cp <= 0x7f \/ 0x80 <= cp <= 0x7ff \/ 0x800 <= cp <= 0xffff \/
          0x10000 <= cp <= 0x10ffff) as Hcases by lia.
  destruct Hcases as [H|[H|[H|H]]].
  - open_encoding (encode_1 cp H). subst cp.
    by apply decode_one_1.
  - open_encoding (encode_2 cp H). cbn [app length].
    rewrite (decode_one_2 _ _ _ cp);
      try (unfold is_continuation_byte; rewrite ?Hb, ?Hb0; zdiv_lia).
    by replace (utf8_rejected 2 cp) with false by (symmetry; apply rejected_false; lia).
  - open_encoding (encode_3 cp H Hs). cbn [app length].
    rewrite (decode_one_3 _ _ _ _ cp);
      try (unfold is_continuation_byte; rewrite ?Hb, ?Hb0, ?Hb1; zdiv_lia).
    by replace (utf8_rejected 3 cp) with false by (symmetry; apply rejected_false; lia).
  - open_encoding (encode_4 cp H). cbn [app length].
    rewrite (decode_one_4 _ _ _ _ _ cp);
      try (unfold is_continuation_byte; rewrite ?Hb, ?Hb0, ?Hb1, ?Hb2; zdiv_lia).
    by replace (utf8_rejected 4 cp) with false by (symmetry; apply rejected_false; lia).
Qed.

(** What a successful decoding step says about the bytes it read. *)
Lemma decode_one_parts value cp n :
  utf8_decode_one value = Some (cp, n) ->
  exists b rest initial,
    value = b :: rest /\ utf8_lead b = Some (initial, n) /\
    (n <= length value)%nat /\
    utf8_continuation initial (take (n - 1) rest) = Some cp /\
    utf8_rejected n cp = false.
Proof.
  unfold utf8_decode_one. destruct value as [|b rest]; [done|].
  destruct (utf8_lead b) as [[initial count]|] eqn:El; [|done].
  destruct (length (b :: rest) <? count)%nat eqn:Hlen; [done|].
  destruct (utf8_continuation _ _) as [codepoint|] eqn:Ec; [|done].
  destruct (utf8_rejected _ _) eqn:Er; [done|]. intros [= <- <-].
  reflect_bools. eauto 10.
Qed.

Ltac step_continuation H :=
  let Hc := fresh "Hc" in
  pose proof (continuation_inv _ _ _ _ H) as Hc;
  rewrite continuation_step in H by (done || (unfold is_continuation_byte in *; lia)).

Ltac solve_sound enc :=
  unfold is_continuation_byte, is_scalar in *;
  split; [lia|]; split; [|by rewrite <- (length_map bval), enc by lia];
  apply bytes_inj; rewrite enc by lia; cbn [map take]; rewrite ?take_0; simpl;
  repeat f_equal; zdiv_lia.

Lemma decode_one_sound value cp n :
  utf8_decode_one value = Some (cp, n) ->
  is_scalar cp /\ take n value = encode_utf8 cp /\ length (encode_utf8 cp) = n.
Proof.
  intros (b & rest & initial & -> & El & Hlen & Hc & Hrej)%decode_one_parts.
  apply rejected_false in Hrej. apply lead_cases in El.
  destruct El as [(-> & Hb & ->)|[(-> & Hb & ->)|[(-> & Hb & ->)|(-> & Hb & ->)]]].
  - injection Hc as <-. solve_sound encode_1.
  - destruct rest as [|b1 rest]; [simpl in Hlen; lia|].
    cbn -[utf8_continuation] in Hc. rewrite take_0 in Hc.
    step_continuation Hc. injection Hc as <-. solve_sound encode_2.
  - destruct rest as [|b1 [|b2 rest]]; [simpl in Hlen; lia..|].
    cbn -[utf8_continuation] in Hc. rewrite take_0 in Hc.
    step_continuation Hc. step_continuation Hc. injection Hc as <-.
    solve_sound encode_3.
  - destruct rest as [|b1 [|b2 [|b3 rest]]]; [simpl in Hlen; lia..|].
    cbn -[utf8_continuation] in Hc. rewrite take_0 in Hc.
    step_continuation Hc. step_continuation Hc. step_continuation Hc.
    injection Hc as <-. solve_sound encode_4.
Qed.

Lemma encode_nonempty cp : is_scalar cp -> (0 < length (encode_utf8 cp))%nat.
Proof.
  intros H. pose proof (decode_one_encode cp [] H) as Hd.
  destruct (encode_utf8 cp); [done|simpl; lia].
Qed.

(** ** The whole visit *)

Section Visit.
Context {St : Type} (visitor : St -> Z -> St).

Lemma visit_loop_complete cps fuel st :
  Forall is_scalar cps -> (length (utf8_text cps) <= fuel)%nat ->
  visit_utf8_loop visitor fuel (utf8_text cps) st = (true, foldl visitor st cps).
Proof.
  intros Hs. revert fuel st. induction Hs as [|cp cps Hcp Hs IH]; intros fuel st Hf.
  { by destruct fuel. }
  pose proof (encode_nonempty cp Hcp) as Hne.
  pose proof (decode_one_encode cp (utf8_text cps) Hcp) as Hd.
  change (utf8_text (cp :: cps)) with (encode_utf8 cp ++ utf8_text cps) in *.
  rewrite length_app in Hf.
  destruct fuel as [|fuel]; [lia|].
  destruct (encode_utf8 cp ++ utf8_text cps) as [|b rest] eqn:E.
  { apply (f_equal length) in E. rewrite length_app in E. simpl in E. lia. }
  cbn [visit_utf8_loop]. rewrite Hd, <- E, drop_app_length. apply IH. lia.
Qed.

Lemma visit_loop_sound fuel value st st' :
  (length value <= fuel)%nat ->
  visit_utf8_loop visitor fuel value st = (true, st') ->
  exists cps, Forall is_scalar cps /\ value = utf8_text cps /\
              st' = foldl visitor st cps.
Proof.
  revert value st. induction fuel as [|fuel IH]; intros value st Hf H.
  { destruct value; [|simpl in Hf; lia]. injection H as <-. by exists []. }
  destruct value as [|b rest]; [injection H as <-; by exists []|].
  cbn [visit_utf8_loop] in H.
  destruct (utf8_decode_one (b :: rest)) as [[cp n]|] eqn:Hd; [|done].
  apply decode_one_sound in Hd. destruct Hd as (Hcp & Htake & Hn).
  pose proof (encode_nonempty cp Hcp).
  apply IH in H as (cps & Hs & Hrest & ->).
  - exists (cp :: cps). split; [by constructor|]. split; [|done].
    unfold utf8_text in *. cbn [map concat].
    rewrite <- Htake, <- Hrest. symmetry. apply take_drop.
  - rewrite length_drop. simpl in *. lia.
Qed.

Lemma visit_utf8_spec value st st' :
  visit_utf8 visitor value st = (true, st') <->
  exists cps, Forall is_scalar cps /\ value = utf8_text cps /\
              st' = foldl visitor st cps.
Proof.
  split.
  - apply visit_loop_sound. done.
  - intros (cps & Hs & -> & ->). by apply visit_loop_complete.
Qed.
End Visit.

(** A byte string is valid UTF-8. *)
Definition utf8_valid (value : bytes) : Prop :=
  exists cps, Forall is_scalar cps /\ value = utf8_text cps.

Lemma is_valid_utf8_valid value : is_valid_utf8 value = true <-> utf8_valid value.
Proof.
  unfold is_valid_utf8, utf8_valid.
  destruct (visit_utf8 (fun (st : unit) (_ : Z) => st) value tt) as [ok []] eqn:E.
  simpl. split.
  - intros ->. apply visit_utf8_spec in E as (cps & ? & ? & _). eauto.
  - intros (cps & Hs & ->). unfold visit_utf8 in E.
    rewrite (visit_loop_complete _ cps) in E by done. by injection E as <-.
Qed.

(** The code points of a byte string, as the decoder reports them. *)
Definition utf8_decode (value : bytes) : option (list Z) :=
  match visit_utf8 (fun acc cp => acc ++ [cp]) value [] with
  | (true, cps) => Some cps
  | (false, _) => None
  end.

Lemma foldl_snoc_app (cps acc : list Z) :
  foldl (fun acc cp => acc ++ [cp]) acc cps = acc ++ cps.
Proof.
  revert acc. induction cps as [|cp cps IH]; intros acc; simpl.
  - by rewrite app_nil_r.
  - by rewrite IH, <- app_assoc.
Qed.

Lemma utf8_decode_Some value cps :
  utf8_decode value = Some cps <-> Forall is_scalar cps /\ value = utf8_text cps.
Proof.
  unfold utf8_decode.
  destruct (visit_utf8 _ value []) as [[] st] eqn:E.
  - pose proof E as (cps' & Hs & -> & ->)%visit_utf8_spec.
    rewrite foldl_snoc_app. split; [by intros [= <-]|].
    intros [Hs' Hv]. f_equal. simpl.
    assert (visit_utf8 (fun acc cp => acc ++ [cp]) (utf8_text cps) [] = (true, cps))
      as E' by (apply visit_utf8_spec; exists cps; by rewrite foldl_snoc_app).
    rewrite foldl_snoc_app in E. simpl in E. congruence.
  - split; [done|]. intros [Hs ->].
    assert (visit_utf8 (fun acc cp => acc ++ [cp]) (utf8_text cps) [] = (true, cps))
      as E' by (apply visit_utf8_spec; exists cps; by rewrite foldl_snoc_app).
    congruence.
Qed.

(** Any visitor sees exactly the decoded code points. *)
Lemma visit_utf8_decode {St} (visitor : St -> Z -> St) value st :
  visit_utf8 visitor value st =
  match utf8_decode value with
  | Some cps => (true, foldl visitor st cps)
  | None => (false, snd (visit_utf8 visitor value st))
  end.
Proof.
  destruct (utf8_decode value) as [cps|] eqn:Ed.
  - apply utf8_decode_Some in Ed as [Hs ->]. apply visit_utf8_spec. eauto.
  - destruct (visit_utf8 visitor value st) as [[] st'] eqn:E; [|done].
    apply visit_utf8_spec in E as (cps & Hs & Hv & _).
    rewrite (proj2 (utf8_decode_Some value cps)) in Ed; done.
Qed.

Lemma utf8_text_app cps cps' : utf8_text (cps ++ cps') = utf8_text cps ++ utf8_text cps'.
Proof. unfold utf8_text. by rewrite map_app, concat_app. Qed.

(** ** Property theorems *)

(** The decoder of core/text.cpp and the encoder of text_editor.cpp are
    inverse.  Collecting the code points [visit_utf8] reports succeeds with
    [cps] exactly when the input is the concatenation of the encodings of
    [cps] and every one of them is a Unicode scalar value; so overlong forms,
    surrogates, truncated and out-of-range sequences are all rejected, and no
    valid text is. *)
Theorem visit_utf8_inverts_encode_utf8 value cps :
  visit_utf8 (fun acc cp => acc ++ [cp]) value [] = (true, cps) <->
  Forall is_scalar cps /\ value = concat (map encode_utf8 cps).
Proof.
  rewrite <- (utf8_decode_Some value cps). unfold utf8_decode.
  destruct (visit_utf8 _ value []) as [[] st]; naive_solver.
Qed.
