(* ===== verification/Text.v ===== *)
(** * Text: validated user identifiers and post bodies

    src/core/limits.h and src/core/text.cpp.  [validate_text] runs one visitor
    over the UTF-8 decoder of [Utf8]; [UserId_create] and [PostBody_create]
    are its two clients.  The theory gives the one-pass visitor a reference
    definition over the decoded code points and reads off it what an accepted
    text looks like. *)
From S2P Require Import Prelude Utf8.

(** ** Limits (src/core/limits.h) *)

Definition kMaxUserIdBytes : nat := 24.
Definition kMaxPostBodyBytes : nat := 160.
Definition kMaxMentions : nat := 4.
Definition kMaxQueuedLocalPosts : nat := 16.
Definition kMaxTimelineEntries : nat := 256.

(** ** Definitions *)

Inductive TextError :=
| TextError_None
| TextError_Empty
| TextError_TooLong
| TextError_InvalidUtf8
| TextError_ForbiddenCharacter
| TextError_EdgeWhitespace.

#[global] Instance TextError_eq_decision : EqDecision TextError.
Proof. solve_decision. Defined.

Definition is_whitespace (codepoint : Z) : bool :=
  existsb (Z.eqb codepoint)
    [0x0009; 0x000a; 0x000b; 0x000c; 0x000d; 0x0020; 0x0085; 0x00a0; 0x1680;
     0x2000; 0x2001; 0x2002; 0x2003; 0x2004; 0x2005; 0x2006; 0x2007; 0x2008;
     0x2009; 0x200a; 0x2028; 0x2029; 0x202f; 0x205f; 0x3000].

Definition is_bidi_format (codepoint : Z) : bool :=
  (codepoint =? 0x061c) || (codepoint =? 0x200e) || (codepoint =? 0x200f) ||
  ((0x202a <=? codepoint) && (codepoint <=? 0x202e)) ||
  ((0x2066 <=? codepoint) && (codepoint <=? 0x2069)).

Definition is_unicode_line_separator (codepoint : Z) : bool :=
  (codepoint =? 0x2028) || (codepoint =? 0x2029).

Definition is_noncharacter (codepoint : Z) : bool :=
  ((0xfdd0 <=? codepoint) && (codepoint <=? 0xfdef)) ||
  (Z.land codepoint 0xffff =? 0xfffe) || (Z.land codepoint 0xffff =? 0xffff).

Definition is_control (codepoint : Z) : bool :=
  (codepoint <=? 0x1f) || ((0x7f <=? codepoint) && (codepoint <=? 0x9f)).

(** The locals the visitor lambda captures by reference. *)
Record TextScan := mkTextScan {
  forbidden : bool;
  has_non_whitespace : bool;
  has_codepoint : bool;
  first_codepoint : Z;
  last_codepoint : Z
}.

Definition is_forbidden (user_id : bool) (codepoint : Z) : bool :=
  let allowed_line_feed := negb user_id && (codepoint =? 0x000a) in
  (is_control codepoint && negb allowed_line_feed) ||
  is_unicode_line_separator codepoint || is_bidi_format codepoint ||
  is_noncharacter codepoint.

Definition scan_codepoint (user_id : bool) (s : TextScan) (codepoint : Z)
  : TextScan :=
  {| first_codepoint :=
       if negb s.(has_codepoint) then codepoint else s.(first_codepoint);
     has_codepoint := true;
     last_codepoint := codepoint;
     has_non_whitespace :=
       s.(has_non_whitespace) || negb (is_whitespace codepoint);
     forbidden := if is_forbidden user_id codepoint then true else s.(forbidden)
  |}.

Definition validate_text (value : bytes) (maximum_bytes : nat) (user_id : bool)
  : TextError :=
  if bool_decide (value = []) then TextError_Empty
  else if (maximum_bytes <? length value)%nat then TextError_TooLong
  else
    let '(valid, s) :=
      visit_utf8 (scan_codepoint user_id) value
        {| forbidden := false; has_non_whitespace := false;
           has_codepoint := false; first_codepoint := 0; last_codepoint := 0 |} in
    if negb valid then TextError_InvalidUtf8
    else if s.(forbidden) then TextError_ForbiddenCharacter
    else if negb s.(has_non_whitespace) then TextError_Empty
    else if user_id && (is_whitespace s.(first_codepoint) ||
                        is_whitespace s.(last_codepoint))
    then TextError_EdgeWhitespace
    else TextError_None.

Definition is_success (error : TextError) : bool :=
  bool_decide (error = TextError_None).

(** [class UserId] and [class PostBody]: an owned string, built by [create]. *)
Record UserId := mkUserId { UserId_value : bytes }.
Record PostBody := mkPostBody { PostBody_value : bytes }.

#[global] Instance UserId_eq_decision : EqDecision UserId.
Proof. solve_decision. Defined.
#[global] Instance PostBody_eq_decision : EqDecision PostBody.
Proof. solve_decision. Defined.

Definition UserId_create (value : bytes) : Result UserId TextError :=
  let error := validate_text value kMaxUserIdBytes true in
  if negb (is_success error) then failure error
  else success (mkUserId value).

Definition PostBody_create (value : bytes) : Result PostBody TextError :=
  let error := validate_text value kMaxPostBodyBytes false in
  if negb (is_success error) then failure error
  else success (mkPostBody value).

(** The class invariants: only [create] makes these values. *)
Definition UserId_wf (u : UserId) : Prop :=
  validate_text u.(UserId_value) kMaxUserIdBytes true = TextError_None.
Definition PostBody_wf (b : PostBody) : Prop :=
  validate_text b.(PostBody_value) kMaxPostBodyBytes false = TextError_None.

(** ** Reference definition over the decoded code points *)

Definition text_verdict (user_id : bool) (cps : list Z) : TextError :=
  if existsb (is_forbidden user_id) cps then TextError_ForbiddenCharacter
  else if forallb is_whitespace cps then TextError_Empty
  else if user_id && (is_whitespace (hd 0 cps) || is_whitespace (List.last cps 0))
  then TextError_EdgeWhitespace
  else TextError_None.

Definition text_reference (value : bytes) (maximum_bytes : nat) (user_id : bool)
  : TextError :=
  if (length value =? 0)%nat then TextError_Empty
  else if (maximum_bytes <? length value)%nat then TextError_TooLong
  else match utf8_decode value with
       | None => TextError_InvalidUtf8
       | Some cps => text_verdict user_id cps
       end.

(** ** The visitor against the reference *)

Lemma last_cons (c d : Z) cps : List.last (c :: cps) d = List.last cps c.
Proof.
  revert c d. induction cps as [|c' cps IH]; intros c d; [done|].
  change (List.last (c' :: cps) d = List.last (c' :: cps) c).
  by rewrite !IH.
Qed.

Lemma scan_fold user_id cps s :
  s.(has_codepoint) = true ->
  foldl (scan_codepoint user_id) s cps =
  {| forbidden := existsb (is_forbidden user_id) cps || s.(forbidden);
     has_non_whitespace := s.(has_non_whitespace) || negb (forallb is_whitespace cps);
     has_codepoint := true;
     first_codepoint := s.(first_codepoint);
     last_codepoint := List.last cps s.(last_codepoint) |}.
Proof.
  revert s. induction cps as [|cp cps IH]; intros s Hs.
  - destruct s; simpl in *. by rewrite Hs, orb_false_r.
  - cbn [foldl]. rewrite IH by done. unfold scan_codepoint at 1 2 3 4. simpl.
    rewrite Hs. f_equal.
    + destruct (is_forbidden user_id cp), (existsb _ cps); done.
    + destruct (has_non_whitespace s), (is_whitespace cp); done.
    + symmetry. apply last_cons.
Qed.

Lemma validate_text_reference value maximum_bytes user_id :
  validate_text value maximum_bytes user_id =
  text_reference value maximum_bytes user_id.
Proof.
  unfold validate_text, text_reference.
  destruct value as [|b value]; [done|].
  rewrite bool_decide_eq_false_2 by done. cbn [length Nat.eqb].
  split_if; [done|]. rewrite visit_utf8_decode.
  destruct (utf8_decode (b :: value)) as [cps|] eqn:E; [|done].
  apply utf8_decode_Some in E as [_ Hv].
  destruct cps as [|cp cps]; [by apply (f_equal length) in Hv|].
  cbn [foldl]. rewrite scan_fold by done.
  unfold text_verdict, scan_codepoint. cbn -[is_forbidden is_whitespace].
  rewrite orb_comm.
  replace (if is_forbidden user_id cp then true else false)
    with (is_forbidden user_id cp) by (by destruct (is_forbidden _ _)).
  rewrite negb_orb, !negb_involutive.
  change (match cps with [] => cp | _ :: _ => List.last cps 0 end)
    with (List.last (cp :: cps) 0).
  rewrite last_cons. done.
Qed.

(** ** Accepted texts *)

Lemma text_verdict_None user_id cps :
  text_verdict user_id cps = TextError_None <->
  Forall (fun cp => is_forbidden user_id cp = false) cps /\
  Exists (fun cp => is_whitespace cp = false) cps /\
  (user_id = true ->
   is_whitespace (hd 0 cps) = false /\ is_whitespace (List.last cps 0) = false).
Proof.
  unfold text_verdict. rewrite <- existsb_false_Forall, <- forallb_false_Exists.
  destruct (existsb _ _), (forallb _ _), user_id, (is_whitespace (hd 0 cps)),
    (is_whitespace (List.last cps 0)); simpl; intuition congruence.
Qed.

Lemma validate_text_None value n user_id :
  validate_text value n user_id = TextError_None <->
  (1 <= length value <= n)%nat /\
  exists cps, utf8_decode value = Some cps /\
              text_verdict user_id cps = TextError_None.
Proof.
  rewrite validate_text_reference. unfold text_reference.
  destruct (Nat.eqb_spec (length value) 0); [split; [done|lia]|].
  destruct (Nat.ltb_spec n (length value)); [split; [done|lia]|].
  destruct (utf8_decode value) as [cps|]; [|naive_solver].
  split; [|naive_solver]. split; [lia|eauto].
Qed.

Lemma UserId_create_success value u :
  UserId_create value = success u <-> u = mkUserId value /\ UserId_wf u.
Proof.
  unfold UserId_create, is_success, UserId_wf. case_bool_decide; simpl; naive_solver.
Qed.

Lemma PostBody_create_success value b :
  PostBody_create value = success b <-> b = mkPostBody value /\ PostBody_wf b.
Proof.
  unfold PostBody_create, is_success, PostBody_wf. case_bool_decide; simpl; naive_solver.
Qed.

(** A well-formed value passes [create] again. *)
Lemma UserId_create_wf u : UserId_wf u -> UserId_create u.(UserId_value) = success u.
Proof. intros. apply UserId_create_success. by destruct u. Qed.

Lemma PostBody_create_wf b :
  PostBody_wf b -> PostBody_create b.(PostBody_value) = success b.
Proof. intros. apply PostBody_create_success. by destruct b. Qed.

Lemma UserId_wf_length u : UserId_wf u -> (1 <= length u.(UserId_value) <= 24)%nat.
Proof. intros H. by apply validate_text_None in H as [? _]. Qed.

Lemma PostBody_wf_length b :
  PostBody_wf b -> (1 <= length b.(PostBody_value) <= 160)%nat.
Proof. intros H. by apply validate_text_None in H as [? _]. Qed.

#[export] Hint Resolve UserId_create_wf PostBody_create_wf : lora.

(** ** Property theorems *)

(** What the two text constructors accept.  [UserId_create] succeeds
    exactly on 1 to 24 bytes of valid UTF-8 whose code points are all allowed
    and whose first and last code points are not whitespace;
    [PostBody_create] exactly on 1 to 160 bytes of valid UTF-8 whose code
    points are all allowed (line feed included) and not all whitespace.  The
    accepted text is stored unchanged. *)
Theorem text_create_accepts value :
  (UserId_create value = success (mkUserId value) <->
   (1 <= length value <= 24)%nat /\
   exists cps, Forall is_scalar cps /\ value = utf8_text cps /\
     Forall (fun cp => is_forbidden true cp = false) cps /\
     is_whitespace (hd 0 cps) = false /\
     is_whitespace (List.last cps 0) = false) /\
  (PostBody_create value = success (mkPostBody value) <->
   (1 <= length value <= 160)%nat /\
   exists cps, Forall is_scalar cps /\ value = utf8_text cps /\
     Forall (fun cp => is_forbidden false cp = false) cps /\
     Exists (fun cp => is_whitespace cp = false) cps).
Proof.
  rewrite UserId_create_success, PostBody_create_success.
  unfold UserId_wf, PostBody_wf. rewrite !validate_text_None.
  setoid_rewrite text_verdict_None. setoid_rewrite utf8_decode_Some.
  split; [|naive_solver].
  split; [naive_solver|].
  intros (Hlen & cps & Hs & Hv & Hf & Hhd & Hlast).
  split; [done|]. split; [done|]. exists cps. split_and!; try done.
  destruct cps as [|cp cps]; [subst; simpl in Hlen; lia|]. by apply Exists_cons_hd.
Qed.
