(* ===== verification/Ports.v ===== *)
(** * Ports: the interfaces the core is written against

    src/ports/.  Each abstract C++ class is a type class over the type of the
    object (or of the world) the port reads and changes; a method that changes
    it returns the new value.  The implementations live in the adapters or in
    the platform; the laws state only what the port comments promise. *)
From S2P Require Import Prelude.

(** ** ports/random.h *)

(** [fill(destination, size)]: [Some bs] is [true] with [bs] written. *)
Class IRandomBytes (W : Type) := {
  fill : W -> nat -> option bytes * W
}.

Class IRandomBytesLaws (W : Type) `{IRandomBytes W} := {
  fill_length w n bs w' : fill w n = (Some bs, w') -> length bs = n
}.

(** ** ports/clock.h *)

Class IWallClock (W : Type) := {
  now_unix_seconds : W -> option Z * W
}.

Class IWallClockLaws (W : Type) `{IWallClock W} := {
  now_unix_seconds_range w t w' : now_unix_seconds w = (Some t, w') -> is_i64 t
}.

(** ** ports/datagram_transport.h *)

Definition kMinimumDatagramMtu : nat := 48.
Definition kMaximumDatagramBytes : nat := 255.

Inductive DatagramSendStatus :=
| SendStatus_Accepted
| SendStatus_WouldBlock
| SendStatus_Disconnected
| SendStatus_Closed
| SendStatus_Invalid.

#[global] Instance DatagramSendStatus_eq_decision : EqDecision DatagramSendStatus.
Proof. solve_decision. Defined.

Inductive DatagramReceiveStatus :=
| ReceiveStatus_Received
| ReceiveStatus_WouldBlock
| ReceiveStatus_Disconnected
| ReceiveStatus_Closed
| ReceiveStatus_Invalid.

#[global] Instance DatagramReceiveStatus_eq_decision :
  EqDecision DatagramReceiveStatus.
Proof. solve_decision. Defined.

(** The datagram read comes with the status; its length is the C++ [size]. *)
Record DatagramReceiveResult := mkDatagramReceiveResult {
  receive_status : DatagramReceiveStatus;
  received_bytes : bytes
}.

Class IDatagramTransport (T : Type) := {
  maximum_datagram_size : T -> nat;
  try_send : T -> bytes -> DatagramSendStatus * T;
  try_receive : T -> nat -> DatagramReceiveResult * T;
  connected : T -> bool;
  closed : T -> bool;
  close : T -> T
}.

(** The exposed size is the fixed size of the link; a closed adapter may expose
    none. *)
Definition keeps_link {T} `{IDatagramTransport T} (t t' : T) : Prop :=
  maximum_datagram_size t' = maximum_datagram_size t \/ maximum_datagram_size t' = 0%nat.

Class IFixedLink (T : Type) `{IDatagramTransport T} := {
  link_send t data status t' : try_send t data = (status, t') -> keeps_link t t';
  link_receive t capacity result t' : try_receive t capacity = (result, t') -> keeps_link t t';
  link_close t : keeps_link t (close t)
}.

(** ** ports/radio_policy.h *)

Inductive RadioTransmitStatus :=
| TransmitStatus_Allowed
| TransmitStatus_Deferred
| TransmitStatus_Locked
| TransmitStatus_Invalid.

#[global] Instance RadioTransmitStatus_eq_decision :
  EqDecision RadioTransmitStatus.
Proof. solve_decision. Defined.

Record RadioTransmitDecision := mkRadioTransmitDecision {
  transmit_status : RadioTransmitStatus;
  not_before_tick : Z
}.

Class IRadioPolicy (P : Type) := {
  evaluate_transmit : P -> Z -> nat -> RadioTransmitDecision * P;
  record_transmit : P -> Z -> nat -> P
}.
