(* ===== verification/Uuid.v ===== *)
(** * Uuid: UUIDs, installation and message identifiers

    src/core/uuid.cpp.  A [Uuid] is a 16-byte array; [InstallId] and
    [MessageId] wrap one that is a version-4 UUID, an invariant their
    [from_uuid] and [generate] establish.  Randomness comes from the
    [IRandomBytes] port. *)
From S2P Require Import Prelude Ports.

(** ** Definitions *)

Record Uuid := mkUuid { Uuid_bytes : bytes }.

#[global] Instance Uuid_eq_decision : EqDecision Uuid.
Proof. solve_decision. Defined.

(** The array length, which C++ has in the type. *)
Definition Uuid_wf (u : Uuid) : Prop := length u.(Uuid_bytes) = 16%nat.

Definition Uuid_from_bytes (bs : bytes) : Uuid := mkUuid bs.

Definition hex_value (value : byte) : Z :=
  let v := bval value in
  if (bval "0" <=? v) && (v <=? bval "9") then v - bval "0"
  else if (bval "a" <=? v) && (v <=? bval "f") then v - bval "a" + 10
  else if (bval "A" <=? v) && (v <=? bval "F") then v - bval "A" + 10
  else -1.

Definition is_hyphen_index (index : nat) : bool :=
  (index =? 8)%nat || (index =? 13)%nat || (index =? 18)%nat || (index =? 23)%nat.

(** The loop over the 36 characters; the state is [(bytes, nibble_index)]. *)
Fixpoint Uuid_parse_loop (value : bytes) (indices : list nat) (st : bytes * nat)
  : option (bytes * nat) :=
  match indices with
  | [] => Some st
  | index :: indices =>
      if is_hyphen_index index then Uuid_parse_loop value indices st
      else
        let '(bs, nibble_index) := st in
        let nibble := hex_value (byte_at value index) in
        if nibble <? 0 then None
        else
          let byte_index := (nibble_index / 2)%nat in
          let b :=
            if (nibble_index mod 2 =? 0)%nat
            then to_u8 (Z.shiftl nibble 4)
            else to_u8 (Z.lor (bval (byte_at bs byte_index)) nibble) in
          Uuid_parse_loop value indices
            (<[byte_index := b]> bs, (nibble_index + 1)%nat)
  end.

Definition Uuid_parse (value : bytes) : option Uuid :=
  if negb (length value =? 36)%nat ||
     bool_decide (byte_at value 8 <> "-"%byte) ||
     bool_decide (byte_at value 13 <> "-"%byte) ||
     bool_decide (byte_at value 18 <> "-"%byte) ||
     bool_decide (byte_at value 23 <> "-"%byte)
  then None
  else
    match Uuid_parse_loop value (seq 0 (length value)) (replicate 16 x00, 0%nat) with
    | None => None
    | Some (bs, nibble_index) =>
        if negb (nibble_index =? 32)%nat then None else Some (mkUuid bs)
    end.

Definition Uuid_generate_v4 {W} `{IRandomBytes W} (w : W) : option Uuid * W :=
  match fill w 16 with
  | (None, w) => (None, w)
  | (Some bs, w) =>
      let bs := <[6%nat := to_u8 (Z.lor (Z.land (bval (byte_at bs 6)) 0x0f) 0x40)]> bs in
      let bs := <[8%nat := to_u8 (Z.lor (Z.land (bval (byte_at bs 8)) 0x3f) 0x80)]> bs in
      (Some (mkUuid bs), w)
  end.

Definition kHex : bytes := str "0123456789abcdef".

Definition hex_high (b : byte) : byte :=
  byte_at kHex (Z.to_nat (Z.land (Z.shiftr (bval b) 4) 0x0f)).
Definition hex_low (b : byte) : byte :=
  byte_at kHex (Z.to_nat (Z.land (bval b) 0x0f)).

Fixpoint Uuid_to_string_loop (index : nat) (bs : bytes) (output : bytes) : bytes :=
  match bs with
  | [] => output
  | b :: bs =>
      let output :=
        if (index =? 4)%nat || (index =? 6)%nat || (index =? 8)%nat ||
           (index =? 10)%nat
        then output ++ ["-"%byte] else output in
      Uuid_to_string_loop (S index) bs ((output ++ [hex_high b]) ++ [hex_low b])
  end.

Definition Uuid_to_string (u : Uuid) : bytes :=
  Uuid_to_string_loop 0 u.(Uuid_bytes) [].

Definition Uuid_is_nil (u : Uuid) : bool :=
  forallb (fun value => bval value =? 0) u.(Uuid_bytes).

Definition Uuid_is_v4 (u : Uuid) : bool :=
  negb (Uuid_is_nil u) &&
  (Z.land (bval (byte_at u.(Uuid_bytes) 6)) 0xf0 =? 0x40) &&
  (Z.land (bval (byte_at u.(Uuid_bytes) 8)) 0xc0 =? 0x80).

(** [operator<]: the lexicographic order of [std::array]. *)
Fixpoint bytes_ltb (l r : bytes) : bool :=
  match l, r with
  | _, [] => false
  | [], _ :: _ => true
  | a :: l, b :: r =>
      if bval a <? bval b then true
      else if bval b <? bval a then false
      else bytes_ltb l r
  end.

Definition Uuid_ltb (l r : Uuid) : bool :=
  bytes_ltb l.(Uuid_bytes) r.(Uuid_bytes).

(** [UuidHash] with a 64-bit [std::size_t] (FNV-1a). *)
Definition UuidHash (value : Uuid) : Z :=
  foldl (fun hash b => u64 (Z.lxor hash (bval b) * 1099511628211))
        14695981039346656037 value.(Uuid_bytes).

Inductive IdError :=
| IdError_InvalidUuidV4
| IdError_RandomUnavailable.

Record InstallId := mkInstallId { InstallId_uuid : Uuid }.
Record MessageId := mkMessageId { MessageId_uuid : Uuid }.

#[global] Instance InstallId_eq_decision : EqDecision InstallId.
Proof. solve_decision. Defined.
#[global] Instance MessageId_eq_decision : EqDecision MessageId.
Proof. solve_decision. Defined.

Definition InstallId_from_uuid (value : Uuid) : Result InstallId IdError :=
  if negb (Uuid_is_v4 value) then failure IdError_InvalidUuidV4
  else success (mkInstallId value).

Definition InstallId_generate {W} `{IRandomBytes W} (w : W)
  : Result InstallId IdError * W :=
  match Uuid_generate_v4 w with
  | (None, w) => (failure IdError_RandomUnavailable, w)
  | (Some value, w) => (InstallId_from_uuid value, w)
  end.

Definition MessageId_from_uuid (value : Uuid) : Result MessageId IdError :=
  if negb (Uuid_is_v4 value) then failure IdError_InvalidUuidV4
  else success (mkMessageId value).

Definition MessageId_generate {W} `{IRandomBytes W} (w : W)
  : Result MessageId IdError * W :=
  match Uuid_generate_v4 w with
  | (None, w) => (failure IdError_RandomUnavailable, w)
  | (Some value, w) => (MessageId_from_uuid value, w)
  end.

(** The class invariants of the two identifier types. *)
Definition InstallId_wf (i : InstallId) : Prop :=
  Uuid_wf i.(InstallId_uuid) /\ Uuid_is_v4 i.(InstallId_uuid) = true.
Definition MessageId_wf (m : MessageId) : Prop :=
  Uuid_wf m.(MessageId_uuid) /\ Uuid_is_v4 m.(MessageId_uuid) = true.

(** ** Specification vocabulary *)

(** ASCII lower case. *)
Definition to_lower (c : byte) : byte :=
  if (bval "A" <=? bval c) && (bval c <=? bval "Z") then to_u8 (bval c + 32) else c.

(** ** Hexadecimal digits *)

Lemma hex_high_lower b : to_lower (hex_high b) = hex_high b.
Proof. by destruct b. Qed.

Lemma hex_low_lower b : to_lower (hex_low b) = hex_low b.
Proof. by destruct b. Qed.

Lemma to_lower_hyphen c : to_lower c = "-"%byte <-> c = "-"%byte.
Proof. by destruct c. Qed.

(** A character names a nibble exactly when its lower case is that digit. *)
Lemma hex_value_digit c :
  hex_value c = -1 \/
  (0 <= hex_value c < 16 /\ to_lower c = byte_at kHex (Z.to_nat (hex_value c))).
Proof. destruct c; vm_compute; (by left) || (right; split; [done|reflexivity]). Qed.

Lemma digit_hex_value c n :
  0 <= n < 16 -> to_lower c = byte_at kHex (Z.to_nat n) -> hex_value c = n.
Proof.
  intros Hn Hc.
  assert (Z.to_nat n < 16)%nat as Hk by lia.
  rewrite <- (Z2Nat.id n) by lia. revert Hk Hc. generalize (Z.to_nat n) as k.
  intros k. do 16 (destruct k as [|k]; [destruct c; vm_compute; congruence|]). lia.
Qed.

Lemma hex_high_value c b : to_lower c = hex_high b -> hex_value c = bval b / 16.
Proof.
  unfold hex_high. rewrite land_15, Z.shiftr_div_pow2 by lia.
  change (2 ^ 4) with 16. intros H. byte_ranges.
  rewrite Z.mod_small in H by zdiv_lia. apply digit_hex_value; [zdiv_lia|done].
Qed.

Lemma hex_low_value c b : to_lower c = hex_low b -> hex_value c = bval b mod 16.
Proof.
  unfold hex_low. rewrite land_15. intros H.
  apply digit_hex_value; [zdiv_lia|done].
Qed.

(** The two assignments of a byte put its nibbles together. *)
Lemma nibbles_join h l :
  0 <= h < 16 -> 0 <= l < 16 ->
  to_u8 (Z.lor (bval (to_u8 (Z.shiftl h 4))) l) = to_u8 (h * 16 + l).
Proof.
  intros. rewrite Z.shiftl_mul_pow2 by lia.
  rewrite bval_to_u8_small by (change (2 ^ 4) with 16; lia).
  rewrite lor_disjoint by (change (2 ^ 4) with 16; lia). done.
Qed.

Lemma hex_high_join h l :
  0 <= h < 16 -> 0 <= l < 16 -> hex_high (to_u8 (h * 16 + l)) = byte_at kHex (Z.to_nat h).
Proof.
  intros. unfold hex_high. rewrite land_15, Z.shiftr_div_pow2 by lia.
  rewrite bval_to_u8_small by lia. do 2 f_equal. change (2 ^ 4) with 16. zdiv_lia.
Qed.

Lemma hex_low_join h l :
  0 <= h < 16 -> 0 <= l < 16 -> hex_low (to_u8 (h * 16 + l)) = byte_at kHex (Z.to_nat l).
Proof.
  intros. unfold hex_low. rewrite land_15.
  rewrite bval_to_u8_small by lia. do 2 f_equal. zdiv_lia.
Qed.

(** ** Parsing, two characters at a time *)

Lemma parse_pair value i j rest bs k r :
  is_hyphen_index i = false -> is_hyphen_index j = false -> (k < length bs)%nat ->
  Uuid_parse_loop value (i :: j :: rest) (bs, (2 * k)%nat) = Some r <->
  exists b, to_lower (byte_at value i) = hex_high b /\
            to_lower (byte_at value j) = hex_low b /\
            Uuid_parse_loop value rest (<[k := b]> bs, (2 * S k)%nat) = Some r.
Proof.
  intros Hi Hj Hk. cbn [Uuid_parse_loop]. rewrite Hi, Hj.
  replace (2 * k / 2)%nat with k by (rewrite Nat.mul_comm, Nat.div_mul; lia).
  replace ((2 * k) mod 2 =? 0)%nat with true
    by (symmetry; apply Nat.eqb_eq; rewrite Nat.mul_comm; apply Nat.Div0.mod_mul).
  replace ((2 * k + 1) / 2)%nat with k
    by (rewrite Nat.mul_comm, Nat.div_add_l by lia; simpl; lia).
  replace ((2 * k + 1) mod 2 =? 0)%nat with false
    by (symmetry; apply Nat.eqb_neq; rewrite Nat.mul_comm, Nat.add_comm, Nat.Div0.mod_add; done).
  replace (2 * k + 1 + 1)%nat with (2 * S k)%nat by lia.
  rewrite byte_at_insert by done. rewrite list_insert_insert_eq.
  split.
  - intros H.
    destruct (hex_value_digit (byte_at value i)) as [E|[Hvi Hli]]; [by rewrite E in H|].
    destruct (Z.ltb_spec (hex_value (byte_at value i)) 0); [lia|].
    destruct (hex_value_digit (byte_at value j)) as [E|[Hvj Hlj]]; [by rewrite E in H|].
    destruct (Z.ltb_spec (hex_value (byte_at value j)) 0); [lia|].
    rewrite nibbles_join in H by done.
    exists (to_u8 (hex_value (byte_at value i) * 16 + hex_value (byte_at value j))).
    by rewrite hex_high_join, hex_low_join.
  - intros (b & Hb1 & Hb2 & H). pose proof (bval_range b).
    apply hex_high_value in Hb1. apply hex_low_value in Hb2. rewrite Hb1, Hb2.
    destruct (Z.ltb_spec (bval b / 16) 0); [zdiv_lia|].
    destruct (Z.ltb_spec (bval b mod 16) 0); [zdiv_lia|].
    rewrite nibbles_join by zdiv_lia.
    replace (bval b / 16 * 16 + bval b mod 16) with (bval b) by zdiv_lia.
    by rewrite to_u8_bval.
Qed.

Lemma parse_skip value i rest st :
  is_hyphen_index i = true ->
  Uuid_parse_loop value (i :: rest) st = Uuid_parse_loop value rest st.
Proof. intros Hi. cbn [Uuid_parse_loop]. by rewrite Hi. Qed.

Lemma to_lower_byte_at s i t c :
  map to_lower s = t -> t !! i = Some c -> to_lower (byte_at s i) = c.
Proof.
  intros <- H. apply list_lookup_fmap_Some in H as (c' & -> & Hc).
  unfold byte_at. by rewrite (nth_lookup_Some _ _ _ _ Hc).
Qed.

Ltac parse_forward H :=
  repeat first
    [ rewrite parse_skip in H by reflexivity
    | match type of H with
      | Uuid_parse_loop _ (?i :: ?j :: ?rest) (?bs, (2 * ?k)%nat) = Some _ =>
          let b := fresh "b" in
          apply (parse_pair _ i j rest bs k) in H as (b & ? & ? & H);
          [|reflexivity|reflexivity|simpl; lia]
      end ].

Ltac parse_backward :=
  repeat first
    [ rewrite parse_skip by reflexivity
    | match goal with
      | |- Uuid_parse_loop _ (?i :: ?j :: ?rest) (?bs, (2 * ?k)%nat) = Some _ =>
          apply (parse_pair _ i j rest bs k);
          [reflexivity|reflexivity|simpl; lia|];
          eexists; split; [eapply to_lower_byte_at; [eassumption|reflexivity]|];
          split; [eapply to_lower_byte_at; [eassumption|reflexivity]|]
      end ].

Lemma Uuid_parse_Some s u :
  Uuid_parse s = Some u ->
  Uuid_wf u /\ map to_lower s = Uuid_to_string u.
Proof.
  unfold Uuid_parse. destruct (Nat.eqb_spec (length s) 36) as [Hlen|]; [|done].
  repeat (case_bool_decide; [done|]). cbn [orb negb].
  repeat match goal with H : ¬ (_ <> _) |- _ => apply dec_stable in H end.
  destruct (Uuid_parse_loop _ _ _) as [[bs n]|] eqn:Hloop; [|done].
  split_if; [done|]. intros [= <-].
  rewrite Hlen in Hloop. cbn [seq] in Hloop.
  change (replicate 16 x00, 0%nat) with (replicate 16 x00, (2 * 0)%nat) in Hloop.
  parse_forward Hloop. injection Hloop as <- <-. split; [done|].
  rewrite (bytes_byte_at s), map_map, Hlen. cbn [seq map].
  repeat match goal with H : ?c = _ |- context [?c] => rewrite H; clear H end.
  reflexivity.
Qed.

(** Sixteen explicit bytes. *)
Ltac destruct_uuid u H :=
  destruct u as [bs]; unfold Uuid_wf in H; cbn [Uuid_bytes] in H;
  do 16 (destruct bs as [|? bs]; [discriminate H|]); destruct bs; [|discriminate H].

Lemma Uuid_parse_lower s u :
  Uuid_wf u -> map to_lower s = Uuid_to_string u -> Uuid_parse s = Some u.
Proof.
  intros Hu Hs. destruct_uuid u Hu.
  assert (length s = 36%nat) as Hlen
    by (rewrite <- (length_map to_lower), Hs; reflexivity).
  assert (forall i, is_hyphen_index i = true -> byte_at s i = "-"%byte) as Hh.
  { intros i Hi. apply to_lower_hyphen. unfold is_hyphen_index in Hi.
    rewrite !orb_true_iff, !Nat.eqb_eq in Hi.
    destruct Hi as [[[->| ->]| ->]| ->];
      (eapply to_lower_byte_at; [exact Hs|reflexivity]). }
  unfold Uuid_parse. rewrite Hlen, !Hh by reflexivity.
  rewrite !bool_decide_eq_false_2 by (intros []; done). cbn -[Uuid_parse_loop].
  match goal with |- context [Uuid_parse_loop ?v ?l ?st] =>
    assert (exists bs, Uuid_parse_loop v l st = Some (bs, (2 * 16)%nat) /\
      mkUuid bs = mkUuid [b; b0; b1; b2; b3; b4; b5; b6; b7; b8; b9; b10; b11;
                          b12; b13; b14]) as (bs & Hloop & Hbs) end.
  { eexists. split.
    - change (x00 :: ?l, 0%nat) with (x00 :: l, (2 * 0)%nat). parse_backward.
      reflexivity.
    - reflexivity. }
  rewrite Hloop. by rewrite Hbs.
Qed.

(** ** Version-4 identifiers *)

Lemma v4_version_byte b :
  let c := to_u8 (Z.lor (Z.land (bval b) 0x0f) 0x40) in
  Z.land (bval c) 0xf0 = 0x40 /\ Z.land (bval c) 0x0f = Z.land (bval b) 0x0f /\
  bval c <> 0.
Proof. by destruct b. Qed.

Lemma v4_variant_byte b :
  let c := to_u8 (Z.lor (Z.land (bval b) 0x3f) 0x80) in
  Z.land (bval c) 0xc0 = 0x80 /\ Z.land (bval c) 0x3f = Z.land (bval b) 0x3f.
Proof. by destruct b. Qed.

(** The bytes [generate_v4] makes of the sixteen random ones. *)
Definition stamp_v4 (bs : bytes) : bytes :=
  <[8%nat := to_u8 (Z.lor (Z.land (bval (byte_at bs 8)) 0x3f) 0x80)]>
    (<[6%nat := to_u8 (Z.lor (Z.land (bval (byte_at bs 6)) 0x0f) 0x40)]> bs).

Lemma Uuid_generate_v4_eq {W} `{IRandomBytes W} (w : W) :
  Uuid_generate_v4 w =
  match fill w 16 with
  | (None, w) => (None, w)
  | (Some bs, w) => (Some (mkUuid (stamp_v4 bs)), w)
  end.
Proof.
  unfold Uuid_generate_v4. destruct (fill w 16) as [[bs|] w']; [|done].
  by rewrite byte_at_insert_ne by done.
Qed.

Lemma stamp_v4_spec bs :
  length bs = 16%nat ->
  Uuid_wf (mkUuid (stamp_v4 bs)) /\ Uuid_is_v4 (mkUuid (stamp_v4 bs)) = true.
Proof.
  intros Hbs. unfold Uuid_wf, stamp_v4. cbn [Uuid_bytes].
  split; [by rewrite !length_insert|]. unfold Uuid_is_v4. cbn [Uuid_bytes].
  rewrite byte_at_insert by (rewrite length_insert; lia).
  rewrite byte_at_insert_ne, byte_at_insert by lia.
  destruct (v4_version_byte (byte_at bs 6)) as (-> & _ & Hnz).
  destruct (v4_variant_byte (byte_at bs 8)) as (-> & _).
  rewrite !andb_true_r. apply negb_true_iff. unfold Uuid_is_nil. cbn [Uuid_bytes].
  apply forallb_false_Exists, Exists_exists. eexists. split; [|by apply Z.eqb_neq].
  apply list_elem_of_lookup. exists 6%nat.
  rewrite list_lookup_insert_ne by done. apply list_lookup_insert_eq. lia.
Qed.

Lemma InstallId_from_uuid_success u i :
  InstallId_from_uuid u = success i <-> i = mkInstallId u /\ Uuid_is_v4 u = true.
Proof. unfold InstallId_from_uuid. destruct (Uuid_is_v4 u); naive_solver. Qed.

Lemma MessageId_from_uuid_success u m :
  MessageId_from_uuid u = success m <-> m = mkMessageId u /\ Uuid_is_v4 u = true.
Proof. unfold MessageId_from_uuid. destruct (Uuid_is_v4 u); naive_solver. Qed.

Lemma InstallId_from_uuid_wf i :
  InstallId_wf i -> InstallId_from_uuid i.(InstallId_uuid) = success i.
Proof. intros [_ ?]. apply InstallId_from_uuid_success. by destruct i. Qed.

Lemma MessageId_from_uuid_wf m :
  MessageId_wf m -> MessageId_from_uuid m.(MessageId_uuid) = success m.
Proof. intros [_ ?]. apply MessageId_from_uuid_success. by destruct m. Qed.

#[export] Hint Resolve InstallId_from_uuid_wf MessageId_from_uuid_wf : lora.

Section Generate.
Context {W : Type} `{IRandomBytesLaws W}.

Lemma MessageId_generate_spec (w : W) :
  match fill w 16 with
  | (None, w') => MessageId_generate w = (failure IdError_RandomUnavailable, w')
  | (Some bs, w') =>
      MessageId_generate w = (success (mkMessageId (mkUuid (stamp_v4 bs))), w') /\
      MessageId_wf (mkMessageId (mkUuid (stamp_v4 bs)))
  end.
Proof.
  unfold MessageId_generate. rewrite Uuid_generate_v4_eq.
  destruct (fill w 16) as [[bs|] w'] eqn:E; [|done].
  apply fill_length in E. apply stamp_v4_spec in E as [Hw Hv].
  unfold MessageId_from_uuid. by rewrite Hv.
Qed.

Lemma InstallId_generate_spec (w : W) :
  match fill w 16 with
  | (None, w') => InstallId_generate w = (failure IdError_RandomUnavailable, w')
  | (Some bs, w') =>
      InstallId_generate w = (success (mkInstallId (mkUuid (stamp_v4 bs))), w') /\
      InstallId_wf (mkInstallId (mkUuid (stamp_v4 bs)))
  end.
Proof.
  unfold InstallId_generate. rewrite Uuid_generate_v4_eq.
  destruct (fill w 16) as [[bs|] w'] eqn:E; [|done].
  apply fill_length in E. apply stamp_v4_spec in E as [Hw Hv].
  unfold InstallId_from_uuid. by rewrite Hv.
Qed.
End Generate.

Lemma Uuid_to_string_loop_lower index bs output :
  map to_lower output = output ->
  map to_lower (Uuid_to_string_loop index bs output) =
  Uuid_to_string_loop index bs output.
Proof.
  revert index output. induction bs as [|b bs IH]; intros index output Ho; [done|].
  cbn [Uuid_to_string_loop]. apply IH. rewrite !map_app.
  split_if; rewrite ?map_app, Ho; cbn [map]; by rewrite hex_high_lower, hex_low_lower.
Qed.

(** ** Property theorems *)

(** Parsing and printing of UUIDs are inverse.  [parse] accepts a string
    exactly when its lower case is the canonical 8-4-4-4-12 rendering of the
    sixteen bytes it returns, so printing a parsed UUID gives back the input up
    to letter case; and the rendering of [u] parses to [u] exactly when [u] has
    its sixteen bytes. *)
Theorem Uuid_parse_prints s u :
  (Uuid_parse s = Some u <-> Uuid_wf u /\ map to_lower s = Uuid_to_string u) /\
  (Uuid_parse (Uuid_to_string u) = Some u <-> Uuid_wf u).
Proof.
  split; split.
  - apply Uuid_parse_Some.
  - intros [? ?]. by apply Uuid_parse_lower.
  - by intros [? _]%Uuid_parse_Some.
  - intros. apply Uuid_parse_lower; [done|]. by apply Uuid_to_string_loop_lower.
Qed.
