(* ===== verification/Identity.v ===== *)
(** * Identity: the installation's identity and sender-sequence counter

    src/model/identity.cpp. *)
From S2P Require Import Prelude Text Uuid.

Record Identity := mkIdentity {
  Identity_install_id : InstallId;
  Identity_user_id : UserId;
  last_issued_sender_sequence : Z
}.

#[global] Instance Identity_eq_decision : EqDecision Identity.
Proof. solve_decision. Defined.

Definition Identity_restore (install_id : InstallId) (user_id : UserId)
    (last_issued : Z) : Identity :=
  mkIdentity install_id user_id last_issued.

Definition next_sender_sequence (i : Identity) : option Z :=
  if i.(last_issued_sender_sequence) =? UINT64_MAX then None
  else Some (u64 (i.(last_issued_sender_sequence) + 1)).

Definition commit_sender_sequence (i : Identity) (sequence : Z) : bool * Identity :=
  match next_sender_sequence i with
  | None => (false, i)
  | Some expected =>
      if negb (sequence =? expected) then (false, i)
      else (true, mkIdentity i.(Identity_install_id) i.(Identity_user_id) sequence)
  end.

Definition Identity_rename (i : Identity) (user_id : UserId) : Identity :=
  mkIdentity i.(Identity_install_id) user_id i.(last_issued_sender_sequence).

Definition Identity_wf (i : Identity) : Prop :=
  InstallId_wf i.(Identity_install_id) /\ UserId_wf i.(Identity_user_id) /\
  is_u64 i.(last_issued_sender_sequence).

Lemma next_sender_sequence_Some i n :
  is_u64 i.(last_issued_sender_sequence) ->
  next_sender_sequence i = Some n <->
  i.(last_issued_sender_sequence) < UINT64_MAX /\
  n = i.(last_issued_sender_sequence) + 1.
Proof.
  unfold next_sender_sequence, is_u64, UINT64_MAX, u64. intros.
  split_if; reflect_bools; [split; [done|lia]|].
  rewrite Z.mod_small by lia. split; [intros [= <-]; lia|intros [_ ->]; done].
Qed.

Lemma commit_sender_sequence_true i n i' :
  commit_sender_sequence i n = (true, i') <->
  next_sender_sequence i = Some n /\
  i' = mkIdentity i.(Identity_install_id) i.(Identity_user_id) n.
Proof.
  unfold commit_sender_sequence. destruct (next_sender_sequence i) as [m|];
    [|naive_solver]. destruct (Z.eqb_spec n m); simpl; naive_solver.
Qed.

Lemma commit_sender_sequence_false i n i' :
  commit_sender_sequence i n = (false, i') -> i' = i.
Proof.
  unfold commit_sender_sequence. destruct (next_sender_sequence i) as [m|];
    [destruct (negb (n =? m))|]; naive_solver.
Qed.

(** The counter after a successful commit is exactly one higher, so sequences
    issued through [next_sender_sequence]/[commit_sender_sequence] are never
    repeated and the counter never wraps. *)
Lemma commit_sender_sequence_wf i n i' :
  Identity_wf i -> commit_sender_sequence i n = (true, i') ->
  Identity_wf i' /\
  i'.(last_issued_sender_sequence) = i.(last_issued_sender_sequence) + 1.
Proof.
  intros (? & ? & Hseq) [Hn ->]%commit_sender_sequence_true.
  apply next_sender_sequence_Some in Hn as [? ->]; [|done].
  unfold Identity_wf, is_u64 in *. simpl. split_and!; (done || lia).
Qed.
