(* ===== verification/Post.v ===== *)
(** * Post: the immutable validated post

    src/model/post.cpp.  [PostPayload_create] is the only way to make a
    [PostPayload]; [PostPayload_wf] is the class invariant it establishes. *)
From S2P Require Import Prelude Text Uuid.

(** ** Definitions *)

Inductive PostError :=
| PostError_None
| PostError_InvalidMessageId
| PostError_InvalidSenderId
| PostError_InvalidSenderSequence
| PostError_InvalidSenderUserId
| PostError_InvalidBody
| PostError_TooManyMentions
| PostError_InvalidMentionId
| PostError_DuplicateMention
| PostError_InvalidReplyId
| PostError_SelfReply.

#[global] Instance PostError_eq_decision : EqDecision PostError.
Proof. solve_decision. Defined.

Record PostPayloadInput := mkPostPayloadInput {
  input_message_id : Uuid;
  input_sender_id : Uuid;
  input_sender_sequence : Z;
  input_sender_user_id : bytes;
  input_body : bytes;
  input_mentions : list Uuid;
  input_reply_to : option Uuid;
  input_sender_time : option Z
}.

Record PostPayload := mkPostPayload {
  message_id : MessageId;
  sender_id : InstallId;
  sender_sequence : Z;
  sender_user_id : UserId;
  body : PostBody;
  mentions : list InstallId;
  reply_to : option MessageId;
  sender_time : option Z
}.

(** [operator==] compares every field. *)
#[global] Instance PostPayload_eq_decision : EqDecision PostPayload.
Proof. solve_decision. Defined.

(** The loop over [input.mentions]; [mentions] is the vector built so far. *)
Fixpoint create_mentions (raw_mentions : list Uuid) (mentions : list InstallId)
  : Result (list InstallId) PostError :=
  match raw_mentions with
  | [] => success mentions
  | raw_mention :: raw_mentions =>
      let! mention := InstallId_from_uuid raw_mention
        else failure PostError_InvalidMentionId in
      if bool_decide (mention ∈ mentions) then failure PostError_DuplicateMention
      else create_mentions raw_mentions (mentions ++ [mention])
  end.

Definition create_reply (message_id : MessageId) (input_reply_to : option Uuid)
  : Result (option MessageId) PostError :=
  match input_reply_to with
  | None => success None
  | Some raw =>
      let! reply := MessageId_from_uuid raw else failure PostError_InvalidReplyId in
      if bool_decide (reply = message_id) then failure PostError_SelfReply
      else success (Some reply)
  end.

Definition PostPayload_create (input : PostPayloadInput)
  : Result PostPayload PostError :=
  let! message_id := MessageId_from_uuid input.(input_message_id)
    else failure PostError_InvalidMessageId in
  let! sender_id := InstallId_from_uuid input.(input_sender_id)
    else failure PostError_InvalidSenderId in
  if input.(input_sender_sequence) =? 0
  then failure PostError_InvalidSenderSequence else
  let! sender_user_id := UserId_create input.(input_sender_user_id)
    else failure PostError_InvalidSenderUserId in
  let! body := PostBody_create input.(input_body)
    else failure PostError_InvalidBody in
  if (kMaxMentions <? length input.(input_mentions))%nat
  then failure PostError_TooManyMentions else
  match create_mentions input.(input_mentions) [] with
  | failure error => failure error
  | success mentions =>
      match create_reply message_id input.(input_reply_to) with
      | failure error => failure error
      | success reply_to =>
          success (mkPostPayload message_id sender_id
            input.(input_sender_sequence) sender_user_id body mentions reply_to
            input.(input_sender_time))
      end
  end.

Record PostDraft := mkPostDraft {
  draft_body : bytes;
  draft_mentions : list InstallId;
  draft_reply_to : option MessageId
}.

(** ** Invariant *)

Record PostPayload_wf (p : PostPayload) : Prop := {
  wf_message_id : MessageId_wf p.(message_id);
  wf_sender_id : InstallId_wf p.(sender_id);
  wf_sender_sequence : 1 <= p.(sender_sequence) <= UINT64_MAX;
  wf_sender_user_id : UserId_wf p.(sender_user_id);
  wf_body : PostBody_wf p.(body);
  wf_mentions_length : (length p.(mentions) <= kMaxMentions)%nat;
  wf_mentions : Forall InstallId_wf p.(mentions);
  wf_mentions_NoDup : NoDup p.(mentions);
  wf_reply_to : forall r, p.(reply_to) = Some r ->
    MessageId_wf r /\ r <> p.(message_id);
  wf_sender_time : forall t, p.(sender_time) = Some t -> is_i64 t
}.

(** What the C++ types of the input fields already say. *)
Record PostPayloadInput_typed (i : PostPayloadInput) : Prop := {
  typed_message_id : Uuid_wf i.(input_message_id);
  typed_sender_id : Uuid_wf i.(input_sender_id);
  typed_sender_sequence : is_u64 i.(input_sender_sequence);
  typed_mentions : Forall Uuid_wf i.(input_mentions);
  typed_reply_to : forall r, i.(input_reply_to) = Some r -> Uuid_wf r;
  typed_sender_time : forall t, i.(input_sender_time) = Some t -> is_i64 t
}.

(** The input that describes a post. *)
Definition PostPayload_input (p : PostPayload) : PostPayloadInput := {|
  input_message_id := p.(message_id).(MessageId_uuid);
  input_sender_id := p.(sender_id).(InstallId_uuid);
  input_sender_sequence := p.(sender_sequence);
  input_sender_user_id := p.(sender_user_id).(UserId_value);
  input_body := p.(body).(PostBody_value);
  input_mentions := map InstallId_uuid p.(mentions);
  input_reply_to := MessageId_uuid <$> p.(reply_to);
  input_sender_time := p.(sender_time)
|}.

(** ** Lemmas *)

Lemma create_mentions_success raw acc ms :
  create_mentions raw acc = success ms <->
  exists new, ms = acc ++ new /\ raw = map InstallId_uuid new /\
    Forall (fun i => Uuid_is_v4 i.(InstallId_uuid) = true) new /\
    (forall i, i ∈ new -> i ∉ acc) /\ NoDup new.
Proof.
  revert acc ms. induction raw as [|u raw IH]; intros acc ms; cbn [create_mentions].
  { split.
    - intros [= <-]. exists []. rewrite app_nil_r. split_and!; auto using NoDup_nil_2.
      set_solver.
    - intros (new & -> & Hnil & _). destruct new; [|done]. by rewrite app_nil_r. }
  unfold InstallId_from_uuid. destruct (Uuid_is_v4 u) eqn:Hv4; cbn [negb].
  - case_bool_decide as Hin.
    + split; [done|]. intros (new & -> & Hraw & _ & Hacc & _).
      destruct new as [|[v] new]; [done|]. injection Hraw as -> _.
      by destruct (Hacc (mkInstallId v)); [left|].
    + rewrite IH. split.
      * intros (new & -> & -> & Hf & Hdisj & Hnew).
        exists (mkInstallId u :: new). rewrite <- app_assoc. split_and!; auto.
        -- set_solver.
        -- apply NoDup_cons. split; [|done]. intros Hu. apply (Hdisj _ Hu). set_solver.
      * intros (new & -> & Hraw & Hf & Hdisj & Hnew).
        destruct new as [|[v] new]; [done|]. injection Hraw as -> Hraw.
        apply Forall_cons in Hf as [_ Hf]. apply NoDup_cons in Hnew as [Hi Hnew].
        exists new. cbn [InstallId_uuid] in *.
        rewrite <- app_assoc. split_and!; try done.
        intros i Hin'. specialize (Hdisj i). set_solver.
  - split; [done|]. intros (new & -> & Hraw & Hf & _).
    destruct new as [|[v] new]; [done|]. injection Hraw as -> _.
    apply Forall_cons in Hf as [Hv _]. cbn in Hv. congruence.
Qed.

Lemma create_mentions_nil raw ms :
  create_mentions raw [] = success ms <->
  raw = map InstallId_uuid ms /\
  Forall (fun i => Uuid_is_v4 i.(InstallId_uuid) = true) ms /\ NoDup ms.
Proof.
  rewrite create_mentions_success. split.
  - intros (new & -> & ? & ? & _ & ?). done.
  - intros (? & ? & ?). exists ms. split_and!; try done. set_solver.
Qed.

Lemma create_reply_success m raw r :
  create_reply m raw = success r <->
  raw = MessageId_uuid <$> r /\
  (forall x, r = Some x -> Uuid_is_v4 x.(MessageId_uuid) = true /\ x <> m).
Proof.
  unfold create_reply. destruct raw as [u|].
  - destruct (MessageId_from_uuid u) as [x|e] eqn:E.
    + apply MessageId_from_uuid_success in E as [-> Hv4]. case_bool_decide as Hm.
      * split; [done|]. intros [Hr Hx]. destruct r as [[v]|]; [|done].
        injection Hr as <-. by destruct (Hx _ eq_refl).
      * split.
        -- intros [= <-]. split; [done|]. by intros x [= <-].
        -- intros [Hr _]. destruct r as [[v]|]; [|done]. by injection Hr as <-.
    + split; [done|]. intros [Hr Hx]. destruct r as [[v]|]; [|done].
      injection Hr as <-. destruct (Hx _ eq_refl) as [Hv4 _].
      unfold MessageId_from_uuid in E. simpl in Hv4. by rewrite Hv4 in E.
  - split.
    + by intros [= <-].
    + intros [Hr _]. by destruct r.
Qed.

Lemma PostPayload_create_success input p :
  PostPayload_create input = success p ->
  input = PostPayload_input p /\
  Uuid_is_v4 input.(input_message_id) = true /\
  Uuid_is_v4 input.(input_sender_id) = true /\
  input.(input_sender_sequence) <> 0 /\
  UserId_wf p.(sender_user_id) /\ PostBody_wf p.(body) /\
  (length p.(mentions) <= kMaxMentions)%nat /\
  Forall (fun i => Uuid_is_v4 i.(InstallId_uuid) = true) p.(mentions) /\
  NoDup p.(mentions) /\
  (forall r, p.(reply_to) = Some r ->
     Uuid_is_v4 r.(MessageId_uuid) = true /\ r <> p.(message_id)).
Proof.
  unfold PostPayload_create. destruct input as [mid sid seq uid bd ms rep tm]. simpl.
  destruct (MessageId_from_uuid mid) as [m|] eqn:Em; [|done].
  destruct (InstallId_from_uuid sid) as [s|] eqn:Es; [|done].
  apply MessageId_from_uuid_success in Em as [-> Hm].
  apply InstallId_from_uuid_success in Es as [-> Hs].
  destruct (Z.eqb_spec seq 0); [done|].
  destruct (UserId_create uid) as [u|] eqn:Eu; [|done].
  destruct (PostBody_create bd) as [b|] eqn:Eb; [|done].
  apply UserId_create_success in Eu as [-> Hu].
  apply PostBody_create_success in Eb as [-> Hb].
  destruct (Nat.ltb_spec kMaxMentions (length ms)); [done|].
  destruct (create_mentions ms []) as [ments|] eqn:Ement; [|done].
  apply create_mentions_nil in Ement as (-> & Hments & Hnd).
  destruct (create_reply _ rep) as [r|] eqn:Er; [|done].
  apply create_reply_success in Er as (-> & Hr).
  intros [= <-]. cbn. rewrite length_map in *. split_and!; done.
Qed.

Lemma PostPayload_wf_typed p :
  PostPayload_wf p -> PostPayloadInput_typed (PostPayload_input p).
Proof.
  intros [[? ?] [? ?] Hseq ? ? ? Hm ? Hr Ht]. split; cbn; try done.
  - unfold is_u64. lia.
  - rewrite Forall_map. eapply Forall_impl; [exact Hm|]. by intros ? [? ?].
  - intros r Hre. apply fmap_Some in Hre as (x & Hx & ->). by destruct (Hr _ Hx) as [[? ?] ?].
Qed.

Lemma PostPayload_create_wf input p :
  PostPayloadInput_typed input -> PostPayload_create input = success p ->
  PostPayload_wf p.
Proof.
  intros Htyped Hp%PostPayload_create_success.
  destruct Hp as (-> & Hm & Hs & Hseq & Hu & Hb & Hlen & Hments & Hnd & Hr).
  destruct Htyped as [Tm Ts Tseq Tments Tr Tt]. cbn in *.
  split; cbn; try done.
  - unfold is_u64 in Tseq. lia.
  - rewrite Forall_map in Tments. rewrite Forall_forall in *. by split; auto.
  - intros r Hre. destruct (Hr _ Hre) as [? ?].
    split; [split; [|done]|done]. apply Tr. by rewrite Hre.
Qed.

Lemma PostPayload_create_input p :
  PostPayload_wf p -> PostPayload_create (PostPayload_input p) = success p.
Proof.
  intros [Hm Hs Hseq Hu Hb Hlen Hments Hnd Hr Ht].
  unfold PostPayload_create. destruct p as [m s seq u b ments r t].
  cbn -[Nat.ltb kMaxMentions] in *.
  rewrite MessageId_from_uuid_wf, InstallId_from_uuid_wf by done.
  destruct (Z.eqb_spec seq 0); [lia|].
  rewrite UserId_create_wf, PostBody_create_wf by done.
  rewrite length_map. destruct (Nat.ltb_spec kMaxMentions (length ments)); [lia|].
  rewrite (proj2 (create_mentions_nil _ ments)).
  - rewrite (proj2 (create_reply_success _ _ r)); [done|].
    split; [done|]. intros x Hx. by destruct (Hr _ Hx) as [[? ?] ?].
  - split_and!; try done. eapply Forall_impl; [exact Hments|]. by intros ? [? ?].
Qed.

#[export] Hint Resolve PostPayload_wf_typed PostPayload_create_input : lora.

(** ** Concrete posts *)

(** The post of the codec golden tests (tests/unit/post_codec_test.cpp), used
    as the concrete post of the witnesses. *)
Definition golden_uuid : Uuid :=
  mkUuid [x00; x11; x22; x33; x44; x55; x46; x77; x88; x99; xaa; xbb; xcc; xdd; xee; xff].
Definition golden_sender : Uuid :=
  mkUuid [x10; x21; x32; x43; x54; x65; x47; x67; x98; xa9; xba; xcb; xdc; xed; xfe; x0f].
Definition golden_post : PostPayload :=
  mkPostPayload (mkMessageId golden_uuid) (mkInstallId golden_sender) 1
    (mkUserId (str "A")) (mkPostBody (str "B")) [] None None.

(** A second post, a reply to the first, with every optional field. *)
Definition reply_uuid : Uuid :=
  mkUuid [xf0; x11; x22; x33; x44; x55; x46; x77; x88; x99; xaa; xbb; xcc; xdd; xee; xff].
Definition reply_post : PostPayload :=
  mkPostPayload (mkMessageId reply_uuid) (mkInstallId golden_sender) 2
    (mkUserId (str "A")) (mkPostBody (str "hello"))
    [mkInstallId golden_sender] (Some (mkMessageId golden_uuid)) (Some (-1)).

Lemma golden_post_create :
  PostPayload_create (PostPayload_input golden_post) = success golden_post.
Proof. vm_compute. reflexivity. Qed.

Lemma golden_post_wf : PostPayload_wf golden_post.
Proof.
  apply (PostPayload_create_wf (PostPayload_input golden_post));
    [|exact golden_post_create].
  by split.
Qed.

Lemma reply_post_create :
  PostPayload_create (PostPayload_input reply_post) = success reply_post.
Proof. vm_compute. reflexivity. Qed.

Lemma reply_post_wf : PostPayload_wf reply_post.
Proof.
  apply (PostPayload_create_wf (PostPayload_input reply_post));
    [|exact reply_post_create].
  split; try done.
  - by repeat constructor.
  - by intros r [= <-].
  - by intros t [= <-].
Qed.

(** ** Property theorems *)

(** [PostPayload::create] accepts exactly the inputs that describe a
    well-formed post and returns that post: version-4 message, sender, mention
    and reply identifiers, a nonzero sequence, valid user identifier and body,
    at most four pairwise different mentions, and no reply to itself.  Nothing
    of the input is altered on the way. *)
Theorem PostPayload_create_exactly input p :
  PostPayloadInput_typed input /\ PostPayload_create input = success p <->
  PostPayload_wf p /\ input = PostPayload_input p.
Proof.
  split.
  - intros [Ht Hp]. split; [eauto using PostPayload_create_wf|].
    by apply PostPayload_create_success in Hp as [? _].
  - intros [Hwf ->]. auto with lora.
Qed.
