(* ===== verification/Timeline.v ===== *)
(** * Timeline: the bounded local history

    src/model/timeline.cpp.  The timeline is a vector of posts in local receive
    order with a capacity, an order counter and, for local posts, a delivery
    state machine Queued -> Broadcast | Failed.  [Timeline_inv] is the class
    invariant; [Timeline_step] is the relation of its public mutators. *)
From S2P Require Import Prelude Text Uuid Post.

(** ** Definitions *)

Inductive LocalDeliveryState :=
| Delivery_Queued
| Delivery_Broadcast
| Delivery_Failed
| Delivery_Unknown.

#[global] Instance LocalDeliveryState_eq_decision : EqDecision LocalDeliveryState.
Proof. solve_decision. Defined.

Inductive EntryOrigin :=
| ReceivedOrigin
| LocalDelivery (state : LocalDeliveryState).

#[global] Instance EntryOrigin_eq_decision : EqDecision EntryOrigin.
Proof. solve_decision. Defined.

Record TimelineEntry := mkTimelineEntry {
  entry_post : PostPayload;
  received_order : Z;
  entry_origin : EntryOrigin
}.

#[global] Instance TimelineEntry_eq_decision : EqDecision TimelineEntry.
Proof. solve_decision. Defined.

Inductive TimelineInsertError :=
| InsertError_None
| InsertError_Duplicate
| InsertError_Conflict
| InsertError_QueueFull
| InsertError_Full
| InsertError_OrderExhausted.

#[global] Instance TimelineInsertError_eq_decision :
  EqDecision TimelineInsertError.
Proof. solve_decision. Defined.

Record TimelineInsertResult := mkTimelineInsertResult {
  insert_error : TimelineInsertError;
  insert_evicted_message_id : option MessageId;
  insert_received_order : option Z
}.

Inductive TransitionError :=
| TransitionError_None
| TransitionError_NotFound
| TransitionError_NotLocal
| TransitionError_InvalidState.

Inductive ReplyState :=
| ReplyState_NotReply
| ReplyState_ParentAvailable
| ReplyState_ParentUnavailable.

Inductive TimelineRestoreError :=
| RestoreError_InvalidCapacity
| RestoreError_TooManyEntries
| RestoreError_InvalidOrder
| RestoreError_DuplicateMessageId
| RestoreError_TooManyQueuedEntries.

Record Timeline := mkTimeline {
  capacity : nat;
  last_assigned_order : Z;
  entries : list TimelineEntry
}.

(** The lambda of [queued_count]. *)
Definition is_queued (e : TimelineEntry) : bool :=
  bool_decide (e.(entry_origin) = LocalDelivery Delivery_Queued).

Definition has_message_id (m : MessageId) (e : TimelineEntry) : bool :=
  bool_decide (message_id e.(entry_post) = m).

(** The constructor; [None] is its [std::invalid_argument]. *)
Definition Timeline_make (cap : nat) (last : Z) : option Timeline :=
  if (cap =? 0)%nat || (kMaxTimelineEntries <? cap)%nat then None
  else Some (mkTimeline cap last []).

(** The loop of [restore]: [before] holds [entries[0..index)], and the result
    is [queued_count]. *)
Fixpoint restore_scan (last : Z) (before rest : list TimelineEntry)
    (previous_order : Z) (queued_count : nat) : Result nat TimelineRestoreError :=
  match rest with
  | [] => success queued_count
  | entry :: rest =>
      if (entry.(received_order) =? 0) || (last <? entry.(received_order)) ||
         (negb (length before =? 0)%nat &&
          (entry.(received_order) <=? previous_order))
      then failure RestoreError_InvalidOrder
      else if existsb (has_message_id (message_id entry.(entry_post))) before
      then failure RestoreError_DuplicateMessageId
      else
        restore_scan last (before ++ [entry]) rest entry.(received_order)
          (if is_queued entry then S queued_count else queued_count)
  end.

Definition Timeline_restore (cap : nat) (last : Z) (es : list TimelineEntry)
  : Result Timeline TimelineRestoreError :=
  if (cap =? 0)%nat || (kMaxTimelineEntries <? cap)%nat
  then failure RestoreError_InvalidCapacity
  else if (cap <? length es)%nat then failure RestoreError_TooManyEntries
  else
    match restore_scan last [] es 0 0 with
    | failure error => failure error
    | success queued_count =>
        if (Nat.min kMaxQueuedLocalPosts (cap - 1) <? queued_count)%nat
        then failure RestoreError_TooManyQueuedEntries
        else success (mkTimeline cap last es)
    end.

Definition queued_capacity (t : Timeline) : nat :=
  Nat.min kMaxQueuedLocalPosts (t.(capacity) - 1).

Definition queued_count (t : Timeline) : nat := count_if is_queued t.(entries).

Definition Timeline_find (t : Timeline) (m : MessageId) : option TimelineEntry :=
  List.find (has_message_id m) t.(entries).

(** [find_mutable]: the position the returned pointer points to. *)
Definition find_mutable (t : Timeline) (m : MessageId) : option nat :=
  find_index (has_message_id m) t.(entries).

Definition newest_at (t : Timeline) (index : nat) : option TimelineEntry :=
  if (length t.(entries) <=? index)%nat then None
  else t.(entries) !! (length t.(entries) - 1 - index)%nat.

Definition reply_state (t : Timeline) (entry : TimelineEntry) : ReplyState :=
  match reply_to entry.(entry_post) with
  | None => ReplyState_NotReply
  | Some m =>
      match Timeline_find t m with
      | Some _ => ReplyState_ParentAvailable
      | None => ReplyState_ParentUnavailable
      end
  end.

Definition Timeline_mentions (entry : TimelineEntry) (install_id : InstallId) : bool :=
  bool_decide (install_id ∈ mentions entry.(entry_post)).

Definition is_protected_entry (protected : option MessageId) (e : TimelineEntry)
  : bool :=
  match protected with
  | None => false
  | Some m => bool_decide (message_id e.(entry_post) = m)
  end.

(** The first entry that is neither protected nor queued. *)
Definition eviction_index (t : Timeline) (protected : option MessageId)
  : option nat :=
  find_index (fun e => negb (is_protected_entry protected e) && negb (is_queued e))
    t.(entries).

Definition insertion_availability (t : Timeline) (protected : option MessageId)
  : TimelineInsertError :=
  if t.(last_assigned_order) =? UINT64_MAX then InsertError_OrderExhausted
  else if (length t.(entries) <? t.(capacity))%nat ||
          bool_decide (is_Some (eviction_index t protected))
  then InsertError_None
  else InsertError_Full.

(** The part of [insert] after the checks. *)
Definition insert_commit (t : Timeline) (post : PostPayload) (origin : EntryOrigin)
    (protected : option MessageId) : TimelineInsertResult * Timeline :=
  let next_order := u64 (t.(last_assigned_order) + 1) in
  let candidate := mkTimelineEntry post next_order origin in
  let '(evicted, es) :=
    if (length t.(entries) =? t.(capacity))%nat
    then
      (* [*eviction_index(...)]: the availability check has found one *)
      match eviction_index t protected with
      | Some index =>
          ((fun e => message_id e.(entry_post)) <$> t.(entries) !! index,
           delete index t.(entries))
      | None => (None, t.(entries))
      end
    else (None, t.(entries)) in
  (mkTimelineInsertResult InsertError_None evicted (Some next_order),
   mkTimeline t.(capacity) next_order (es ++ [candidate])).

Definition Timeline_insert (t : Timeline) (post : PostPayload)
    (origin : EntryOrigin) (protected : option MessageId)
  : TimelineInsertResult * Timeline :=
  match Timeline_find t (message_id post) with
  | Some existing =>
      (mkTimelineInsertResult
         (if bool_decide (existing.(entry_post) = post)
          then InsertError_Duplicate else InsertError_Conflict) None None, t)
  | None =>
      if bool_decide (origin = LocalDelivery Delivery_Queued) &&
         (queued_capacity t <=? queued_count t)%nat
      then (mkTimelineInsertResult InsertError_QueueFull None None, t)
      else
        let availability := insertion_availability t protected in
        if negb (bool_decide (availability = InsertError_None))
        then (mkTimelineInsertResult availability None None, t)
        else insert_commit t post origin protected
  end.

Definition insert_received (t : Timeline) (post : PostPayload)
  : TimelineInsertResult * Timeline :=
  Timeline_insert t post ReceivedOrigin None.

Definition insert_local (t : Timeline) (post : PostPayload)
    (initial_state : LocalDeliveryState) : TimelineInsertResult * Timeline :=
  let protected_message_id := reply_to post in
  Timeline_insert t post (LocalDelivery initial_state) protected_message_id.

Definition Timeline_transition (t : Timeline) (m : MessageId)
    (target : LocalDeliveryState) : TransitionError * Timeline :=
  match find_mutable t m with
  | None => (TransitionError_NotFound, t)
  | Some index =>
      match t.(entries) !! index with
      | None => (TransitionError_NotFound, t)
      | Some e =>
          match e.(entry_origin) with
          | ReceivedOrigin => (TransitionError_NotLocal, t)
          | LocalDelivery state =>
              if bool_decide (state = target) then (TransitionError_None, t)
              else if negb (bool_decide (state = Delivery_Queued))
              then (TransitionError_InvalidState, t)
              else
                (TransitionError_None,
                 mkTimeline t.(capacity) t.(last_assigned_order)
                   (<[index := mkTimelineEntry e.(entry_post) e.(received_order)
                                 (LocalDelivery target)]> t.(entries)))
          end
      end
  end.

Definition mark_broadcast (t : Timeline) (m : MessageId) :=
  Timeline_transition t m Delivery_Broadcast.
Definition mark_failed (t : Timeline) (m : MessageId) :=
  Timeline_transition t m Delivery_Failed.

(** ** Invariant and steps *)

Definition entry_id (e : TimelineEntry) : MessageId := message_id e.(entry_post).

(** Orders increase strictly along the list, start above [lo] and end at or
    below [hi]. *)
Fixpoint orders_between (lo hi : Z) (es : list TimelineEntry) : Prop :=
  match es with
  | [] => True
  | e :: es => lo < e.(received_order) <= hi /\ orders_between e.(received_order) hi es
  end.

Record Timeline_inv (t : Timeline) : Prop := {
  inv_capacity : (1 <= t.(capacity) <= kMaxTimelineEntries)%nat;
  inv_size : (length t.(entries) <= t.(capacity))%nat;
  inv_last : 0 <= t.(last_assigned_order) <= UINT64_MAX;
  inv_orders : orders_between 0 t.(last_assigned_order) t.(entries);
  inv_ids : NoDup (map entry_id t.(entries));
  inv_queued : (queued_count t <= queued_capacity t)%nat
}.

(** The public mutators. *)
Inductive Timeline_step : Timeline -> Timeline -> Prop :=
| step_received t post :
    Timeline_step t (snd (insert_received t post))
| step_local t post state :
    Timeline_step t (snd (insert_local t post state))
| step_broadcast t m :
    Timeline_step t (snd (mark_broadcast t m))
| step_failed t m :
    Timeline_step t (snd (mark_failed t m)).

(** The two ways to get a timeline. *)
Inductive Timeline_start : Timeline -> Prop :=
| start_make cap last t :
    is_u64 last -> Timeline_make cap last = Some t -> Timeline_start t
| start_restore cap last es t :
    is_u64 last -> Forall (fun e => is_u64 e.(received_order)) es ->
    Timeline_restore cap last es = success t -> Timeline_start t.

Definition Timeline_reachable (t : Timeline) : Prop :=
  exists t0, Timeline_start t0 /\ rtc Timeline_step t0 t.

(** ** Order bounds *)

Lemma orders_between_weaken lo lo' hi es :
  lo' <= lo -> orders_between lo hi es -> orders_between lo' hi es.
Proof. destruct es; simpl; [done|]. intros ? [? ?]. split; [lia|done]. Qed.

Lemma orders_between_snoc lo hi es e :
  lo <= hi -> orders_between lo hi es -> hi < e.(received_order) ->
  orders_between lo e.(received_order) (es ++ [e]).
Proof.
  revert lo. induction es as [|x es IH]; intros lo Hlo Hes He; simpl in *.
  - split; [lia|done].
  - destruct Hes as [? Hes]. split; [lia|]. apply IH; [lia|done|done].
Qed.

Lemma orders_between_sublist lo hi es es' :
  es' `sublist_of` es -> orders_between lo hi es -> orders_between lo hi es'.
Proof.
  intros Hs. revert lo. induction Hs as [|x l l' Hs IH|x l l' Hs IH]; intros lo; simpl.
  - done.
  - intros [? ?]. split; [done|]. by apply IH.
  - intros [? Hl]. apply IH. eapply orders_between_weaken; [|exact Hl]. lia.
Qed.

Lemma orders_between_bounds lo hi es :
  orders_between lo hi es -> Forall (fun e => lo < e.(received_order) <= hi) es.
Proof.
  revert lo. induction es as [|x es IH]; intros lo; simpl; [done|].
  intros [Hx Hes]. constructor; [lia|].
  eapply Forall_impl; [by apply IH|]. simpl. intros. lia.
Qed.

Lemma orders_between_map lo hi es es' :
  map received_order es = map received_order es' ->
  orders_between lo hi es -> orders_between lo hi es'.
Proof.
  revert lo es'. induction es as [|x es IH]; intros lo [|y es'] Hm; try done.
  injection Hm as Hxy Hm. simpl. rewrite Hxy. intros [? ?]. split; [done|by apply IH].
Qed.

(** ** Lookups by identifier *)

Lemma find_None_ids t m :
  Timeline_find t m = None <-> m ∉ map entry_id t.(entries).
Proof.
  unfold Timeline_find. rewrite find_None_iff, Forall_forall, list_elem_of_fmap.
  unfold has_message_id. split.
  - intros H (e & -> & He). specialize (H e He). by case_bool_decide.
  - intros H e He. apply bool_decide_eq_false. intros <-. naive_solver.
Qed.

Lemma find_Some_ids t m e :
  Timeline_find t m = Some e -> e ∈ t.(entries) /\ entry_id e = m.
Proof.
  unfold Timeline_find, has_message_id. intros H. apply List.find_some in H as [Hin Hm].
  apply list_elem_of_In in Hin. by apply bool_decide_eq_true in Hm.
Qed.

Lemma find_mutable_Some t m i :
  find_mutable t m = Some i ->
  exists e, t.(entries) !! i = Some e /\ entry_id e = m.
Proof.
  intros (e & He & Hm & _)%find_index_Some. exists e.
  unfold has_message_id in Hm. by apply bool_decide_eq_true in Hm.
Qed.

Lemma find_mutable_None t m :
  find_mutable t m = None <-> Timeline_find t m = None.
Proof. unfold find_mutable, Timeline_find. by rewrite find_index_None, find_None_iff. Qed.

Lemma eviction_index_Some t protected i :
  eviction_index t protected = Some i <->
  exists e, t.(entries) !! i = Some e /\ is_queued e = false /\
    is_protected_entry protected e = false /\
    forall j e', (j < i)%nat -> t.(entries) !! j = Some e' ->
      is_queued e' = true \/ is_protected_entry protected e' = true.
Proof.
  unfold eviction_index. rewrite find_index_Some.
  setoid_rewrite andb_true_iff. setoid_rewrite negb_true_iff.
  setoid_rewrite andb_false_iff. setoid_rewrite negb_false_iff. naive_solver.
Qed.

(** ** Restoring *)

Lemma restore_scan_success last before rest prev q n :
  Forall (fun e => is_u64 e.(received_order)) rest -> 0 <= prev ->
  restore_scan last before rest prev q = success n <->
  orders_between (if decide (before = []) then 0 else prev) last rest /\
  NoDup (map entry_id rest) /\
  Forall (fun e => entry_id e ∉ map entry_id before) rest /\
  n = (q + count_if is_queued rest)%nat.
Proof.
  intros Hu. revert before prev q. induction Hu as [|e rest He Hu IH];
    intros before prev q Hprev; cbn [restore_scan orders_between map].
  { rewrite Nat.add_0_r. split; [intros [= <-]; by repeat constructor|].
    by intros (_ & _ & _ & ->). }
  set (lo := if decide (before = []) then 0 else prev).
  destruct ((received_order e =? 0) || (last <? received_order e) || _) eqn:Hord.
  { split; [done|]. intros ([Hlo _] & _). exfalso.
    apply not_false_iff_true in Hord. apply Hord.
    rewrite !orb_false_iff, andb_false_iff, negb_false_iff, Nat.eqb_eq.
    rewrite Z.eqb_neq, Z.ltb_ge, Z.leb_gt. unfold lo, is_u64 in *.
    destruct (decide (before = [])) as [->|]; simpl; lia. }
  rewrite !orb_false_iff, andb_false_iff, negb_false_iff, Nat.eqb_eq,
    Z.eqb_neq, Z.ltb_ge, Z.leb_gt in Hord.
  assert (lo < received_order e <= last) as Hlo.
  { unfold lo, is_u64 in *. destruct (decide (before = [])) as [->|Hne]; [lia|].
    destruct before; [done|]. simpl in Hord. lia. }
  replace (existsb _ before)
    with (bool_decide (entry_id e ∈ map entry_id before)).
  2:{ apply Bool.eq_iff_eq_true. rewrite bool_decide_eq_true, existsb_Exists, Exists_exists.
      unfold has_message_id. setoid_rewrite bool_decide_eq_true.
      rewrite list_elem_of_fmap. unfold entry_id. naive_solver. }
  case_bool_decide as Hdup.
  { split; [done|]. intros (_ & _ & Hb & _). by apply Forall_cons in Hb as [? _]. }
  rewrite IH by (unfold is_u64 in *; lia).
  rewrite decide_False by (by destruct before).
  rewrite count_if_cons, NoDup_cons, Forall_cons, map_app.
  setoid_rewrite not_elem_of_app. setoid_rewrite list_elem_of_singleton.
  rewrite Forall_and, list_elem_of_fmap.
  assert (Forall (fun e' => entry_id e' <> entry_id e) rest <->
          ~ exists y, entry_id e = entry_id y /\ y ∈ rest) as Hnew.
  { rewrite Forall_forall. naive_solver. }
  cbn [map]. rewrite Hnew.
  destruct (is_queued e); intuition lia.
Qed.

Lemma Timeline_restore_success cap last es t :
  is_u64 last -> Forall (fun e => is_u64 e.(received_order)) es ->
  Timeline_restore cap last es = success t <->
  Timeline_inv t /\ t = mkTimeline cap last es.
Proof.
  intros Hlast Hes. unfold Timeline_restore. split.
  - destruct ((cap =? 0)%nat || (kMaxTimelineEntries <? cap)%nat) eqn:Hcap; [done|].
    destruct (cap <? length es)%nat eqn:Hlen; [done|]. reflect_bools.
    destruct (restore_scan _ _ _ _ _) as [q|] eqn:Hscan; [|done].
    split_if; [done|]. intros [= <-]. reflect_bools. split; [|done].
    apply restore_scan_success in Hscan as (Ho & Hnd & _ & ->); [|done|lia].
    rewrite decide_True in Ho by done. unfold is_u64, UINT64_MAX in *.
    split; simpl; try done; try lia;
      unfold queued_count, queued_capacity; simpl; lia.
  - intros [[Hcap Hsize Hl Ho Hnd Hq] ->].
    cbn [capacity entries last_assigned_order] in *.
    destruct ((cap =? 0)%nat || (kMaxTimelineEntries <? cap)%nat) eqn:Hc.
    { rewrite orb_true_iff, Nat.eqb_eq, Nat.ltb_lt in Hc. lia. }
    destruct (Nat.ltb_spec cap (length es)); [lia|].
    rewrite (proj2 (restore_scan_success last [] es 0 0 (count_if is_queued es)
                      Hes ltac:(lia)));
      [|rewrite decide_True by done; split_and!; [done|done| |reflexivity];
        apply Forall_forall; intros; apply not_elem_of_nil].
    unfold queued_count, queued_capacity in Hq. cbn [capacity entries] in Hq.
    destruct (Nat.ltb_spec (Nat.min kMaxQueuedLocalPosts (cap - 1))
                (count_if is_queued es)); [lia|done].
Qed.

Lemma Timeline_make_inv cap last t :
  is_u64 last -> Timeline_make cap last = Some t -> Timeline_inv t.
Proof.
  unfold Timeline_make. split_if; [done|]. intros ? [= <-]. reflect_bools.
  unfold is_u64 in *. split; simpl; try done; try lia.
  - apply NoDup_nil_2.
  - apply Nat.le_0_l.
Qed.

(** ** Inserting *)

(** How a successful insertion made room: [kept] are the surviving entries. *)
Definition made_room (t : Timeline) (protected : option MessageId)
    (evicted : option MessageId) (kept : list TimelineEntry) : Prop :=
  ((length t.(entries) < t.(capacity))%nat /\ evicted = None /\ kept = t.(entries)) \/
  (length t.(entries) = t.(capacity) /\
   exists i e, eviction_index t protected = Some i /\ t.(entries) !! i = Some e /\
     evicted = Some (entry_id e) /\ kept = delete i t.(entries)).

Lemma insertion_availability_None t protected :
  insertion_availability t protected = InsertError_None <->
  t.(last_assigned_order) <> UINT64_MAX /\
  ((length t.(entries) < t.(capacity))%nat \/ is_Some (eviction_index t protected)).
Proof.
  unfold insertion_availability.
  destruct (Z.eqb_spec (last_assigned_order t) UINT64_MAX); [naive_solver|].
  destruct (Nat.ltb_spec (length (entries t)) (capacity t)); simpl; [naive_solver|].
  case_bool_decide; split; try done; [naive_solver|].
  intros [_ [?|?]]; [lia|done].
Qed.

Lemma insert_commit_spec t post origin protected :
  Timeline_inv t -> insertion_availability t protected = InsertError_None ->
  exists evicted kept,
    made_room t protected evicted kept /\
    insert_commit t post origin protected =
    (mkTimelineInsertResult InsertError_None evicted
       (Some (t.(last_assigned_order) + 1)),
     mkTimeline t.(capacity) (t.(last_assigned_order) + 1)
       (kept ++ [mkTimelineEntry post (t.(last_assigned_order) + 1) origin])).
Proof.
  intros Hinv [Hlast Hav]%insertion_availability_None.
  pose proof (inv_last t Hinv) as Hl. pose proof (inv_size t Hinv) as Hsize.
  unfold insert_commit, u64. rewrite Z.mod_small by (unfold UINT64_MAX in *; lia).
  destruct (Nat.eqb_spec (length (entries t)) (capacity t)) as [Hfull|Hroom].
  - destruct Hav as [?|[i Hi]]; [lia|]. rewrite Hi.
    pose proof Hi as (e & He & _)%eviction_index_Some. rewrite He.
    exists (Some (entry_id e)), (delete i (entries t)). split; [|done].
    right. split; [done|]. by exists i, e.
  - exists None, (entries t). split; [|done]. left. split_and!; [lia|done..].
Qed.

(** Every branch of [insert]. *)
Lemma Timeline_insert_cases t post origin protected :
  Timeline_inv t ->
  (exists e err, Timeline_find t (message_id post) = Some e /\
     err = (if decide (e.(entry_post) = post)
            then InsertError_Duplicate else InsertError_Conflict) /\
     Timeline_insert t post origin protected =
       (mkTimelineInsertResult err None None, t)) \/
  (Timeline_find t (message_id post) = None /\
   origin = LocalDelivery Delivery_Queued /\ (queued_capacity t <= queued_count t)%nat /\
   Timeline_insert t post origin protected =
     (mkTimelineInsertResult InsertError_QueueFull None None, t)) \/
  (Timeline_find t (message_id post) = None /\
   (origin = LocalDelivery Delivery_Queued -> (queued_count t < queued_capacity t)%nat) /\
   t.(last_assigned_order) = UINT64_MAX /\
   Timeline_insert t post origin protected =
     (mkTimelineInsertResult InsertError_OrderExhausted None None, t)) \/
  (Timeline_find t (message_id post) = None /\
   (origin = LocalDelivery Delivery_Queued -> (queued_count t < queued_capacity t)%nat) /\
   t.(last_assigned_order) < UINT64_MAX /\
   length t.(entries) = t.(capacity) /\ eviction_index t protected = None /\
   Timeline_insert t post origin protected =
     (mkTimelineInsertResult InsertError_Full None None, t)) \/
  (Timeline_find t (message_id post) = None /\
   (origin = LocalDelivery Delivery_Queued -> (queued_count t < queued_capacity t)%nat) /\
   t.(last_assigned_order) < UINT64_MAX /\
   exists evicted kept, made_room t protected evicted kept /\
     Timeline_insert t post origin protected =
     (mkTimelineInsertResult InsertError_None evicted
        (Some (t.(last_assigned_order) + 1)),
      mkTimeline t.(capacity) (t.(last_assigned_order) + 1)
        (kept ++ [mkTimelineEntry post (t.(last_assigned_order) + 1) origin]))).
Proof.
  intros Hinv. unfold Timeline_insert.
  destruct (Timeline_find t (message_id post)) as [e|] eqn:Hfind.
  { left. exists e. eexists. split; [done|]. split; [reflexivity|].
    by case_decide; case_bool_decide. }
  right.
  destruct (bool_decide (origin = LocalDelivery Delivery_Queued) && _) eqn:Hq.
  { left. reflect_bools. done. }
  right.
  assert (origin = LocalDelivery Delivery_Queued ->
          (queued_count t < queued_capacity t)%nat) as Hq'.
  { intros ->. rewrite bool_decide_eq_true_2 in Hq by done. simpl in Hq.
    by apply Nat.leb_gt in Hq. }
  pose proof (inv_last t Hinv) as Hl. pose proof (inv_size t Hinv) as Hsize.
  destruct (bool_decide (insertion_availability t protected = InsertError_None))
    eqn:Hav; reflect_bools; simpl.
  - right; right. pose proof Hav as [Hne _]%insertion_availability_None.
    split; [done|]. split; [done|]. split; [lia|]. by apply insert_commit_spec.
  - destruct (Z.eqb_spec (last_assigned_order t) UINT64_MAX) as [Hmax|Hmax].
    + left. split_and!; try done. unfold insertion_availability.
      by rewrite (proj2 (Z.eqb_eq _ _) Hmax).
    + right; left. rewrite insertion_availability_None in Hav.
      destruct (eviction_index t protected) eqn:Hev; [exfalso; apply Hav; eauto|].
      destruct (decide (length (entries t) < capacity t)%nat); [exfalso; naive_solver|].
      split_and!; try done; try lia. unfold insertion_availability.
      rewrite (proj2 (Z.eqb_neq _ _) Hmax), Hev.
      by rewrite (proj2 (Nat.ltb_ge _ _)) by lia.
Qed.

Lemma made_room_kept t protected evicted kept :
  Timeline_inv t -> made_room t protected evicted kept ->
  kept `sublist_of` t.(entries) /\ (length kept < t.(capacity))%nat /\
  count_if is_queued kept = queued_count t.
Proof.
  intros Hinv [(Hlt & _ & ->)|(Heq & i & e & Hi & He & _ & ->)].
  - split_and!; [done|done|done].
  - split_and!; [apply sublist_delete| |].
    + rewrite length_delete by eauto. pose proof (inv_capacity t Hinv). lia.
    + apply eviction_index_Some in Hi as (e' & He' & Hq & _).
      rewrite He in He'. injection He' as <-. unfold queued_count.
      by rewrite (count_if_delete _ _ _ _ He), Hq.
Qed.

Lemma Timeline_insert_inv t post origin protected :
  Timeline_inv t -> Timeline_inv (snd (Timeline_insert t post origin protected)).
Proof.
  intros Hinv.
  destruct (Timeline_insert_cases t post origin protected Hinv)
    as [(e & err & _ & _ & ->)|[(_ & _ & _ & ->)|[(_ & _ & _ & ->)|
        [(_ & _ & _ & _ & _ & ->)|(Hnew & Hq & Hlast & evicted & kept & Hroom & ->)]]]];
    try done.
  pose proof (made_room_kept _ _ _ _ Hinv Hroom) as (Hsub & Hlen & Hcount).
  destruct Hinv as [Hc Hs Hl Ho Hids Hqc]. split; cbn [snd capacity entries last_assigned_order].
  - done.
  - rewrite length_app. simpl. lia.
  - lia.
  - apply (orders_between_snoc 0 (last_assigned_order t) kept
             (mkTimelineEntry post (last_assigned_order t + 1) origin));
      [lia|by eapply orders_between_sublist|simpl; lia].
  - rewrite map_app. apply NoDup_app. split_and!.
    + eapply sublist_NoDup; [exact Hids|]. by apply sublist_map.
    + apply find_None_ids in Hnew. intros m Hm [->|Hnil]%elem_of_cons;
        [|by apply elem_of_nil in Hnil].
      apply Hnew. eapply elem_of_sublist; [exact Hm|]. by apply sublist_map.
    + apply NoDup_singleton.
  - unfold queued_count. cbn [entries]. rewrite count_if_app, Hcount, count_if_cons.
    change (queued_capacity (mkTimeline _ _ _)) with (queued_capacity t).
    unfold is_queued at 1. cbn [entry_origin]. case_bool_decide as Horig.
    + specialize (Hq Horig). cbn -[queued_capacity queued_count]. lia.
    + cbn -[queued_capacity queued_count]. lia.
Qed.

(** ** Delivery transitions *)

Definition with_origin (e : TimelineEntry) (o : EntryOrigin) : TimelineEntry :=
  mkTimelineEntry e.(entry_post) e.(received_order) o.

(** Every branch of [transition]. *)
Lemma Timeline_transition_cases t m target :
  (Timeline_find t m = None /\
   Timeline_transition t m target = (TransitionError_NotFound, t)) \/
  exists i e, find_mutable t m = Some i /\ t.(entries) !! i = Some e /\
    entry_id e = m /\
    ((e.(entry_origin) = ReceivedOrigin /\
      Timeline_transition t m target = (TransitionError_NotLocal, t)) \/
     (e.(entry_origin) = LocalDelivery target /\
      Timeline_transition t m target = (TransitionError_None, t)) \/
     (exists s, e.(entry_origin) = LocalDelivery s /\ s <> target /\
        s <> Delivery_Queued /\
        Timeline_transition t m target = (TransitionError_InvalidState, t)) \/
     (e.(entry_origin) = LocalDelivery Delivery_Queued /\ target <> Delivery_Queued /\
      Timeline_transition t m target =
        (TransitionError_None,
         mkTimeline t.(capacity) t.(last_assigned_order)
           (<[i := with_origin e (LocalDelivery target)]> t.(entries))))).
Proof.
  unfold Timeline_transition.
  destruct (find_mutable t m) as [i|] eqn:Hi;
    [|left; by apply find_mutable_None in Hi].
  right. pose proof Hi as (e & He & Hm)%find_mutable_Some. rewrite He.
  exists i, e. split_and!; [done..|].
  destruct (entry_origin e) as [|s] eqn:Ho; [by left|right].
  case_bool_decide as Hs; [left; by subst|right].
  case_bool_decide as Hq; cbn [negb].
  - right. subst s. done.
  - left. by exists s.
Qed.

Lemma Timeline_transition_inv t m target :
  Timeline_inv t -> Timeline_inv (snd (Timeline_transition t m target)).
Proof.
  intros Hinv.
  destruct (Timeline_transition_cases t m target)
    as [[_ ->]|(i & e & _ & He & _ & [[_ ->]|[[_ ->]|[(s & _ & _ & _ & ->)|
         (Ho & Ht & ->)]]])]; try done.
  assert (forall A (f : TimelineEntry -> A), f (with_origin e (LocalDelivery target)) = f e ->
    map f (<[i := with_origin e (LocalDelivery target)]> (entries t)) = map f (entries t))
    as Hmap.
  { intros A f Hf. change (f <$> <[i := with_origin e (LocalDelivery target)]> (entries t)
                           = f <$> entries t).
    rewrite list_fmap_insert, Hf. apply list_insert_id. by rewrite list_lookup_fmap, He. }
  destruct Hinv as [Hc Hs Hl Ho' Hids Hqc].
  split; cbn [snd capacity entries last_assigned_order]; try done.
  - by rewrite length_insert.
  - eapply orders_between_map; [|exact Ho']. symmetry. by apply Hmap.
  - by rewrite Hmap.
  - change (queued_capacity (mkTimeline _ _ _)) with (queued_capacity t).
    unfold queued_count in *. cbn [entries].
    pose proof (count_if_insert is_queued _ _ _ (with_origin e (LocalDelivery target)) He)
      as Hcount.
    unfold is_queued at 2 4 in Hcount. cbn [with_origin entry_origin] in Hcount.
    rewrite Ho, (bool_decide_eq_true_2 (_ = _) eq_refl), bool_decide_eq_false_2 in Hcount
      by congruence.
    lia.
Qed.

Lemma Timeline_step_inv t t' : Timeline_inv t -> Timeline_step t t' -> Timeline_inv t'.
Proof.
  intros Hinv Hstep. destruct Hstep;
    eauto using Timeline_insert_inv, Timeline_transition_inv.
Qed.

Lemma Timeline_start_inv t : Timeline_start t -> Timeline_inv t.
Proof.
  intros [cap last t' Hl Hm|cap last es t' Hl Hes Hr]; [by eapply Timeline_make_inv|].
  by apply (Timeline_restore_success cap last es t' Hl Hes) in Hr as [? _].
Qed.

(** The capacity never changes. *)
Lemma Timeline_insert_capacity t post origin protected :
  (Timeline_insert t post origin protected).2.(capacity) = t.(capacity).
Proof. unfold Timeline_insert, insert_commit. repeat case_match; done. Qed.

Lemma Timeline_transition_capacity t m target :
  (Timeline_transition t m target).2.(capacity) = t.(capacity).
Proof. unfold Timeline_transition. repeat case_match; done. Qed.

#[export] Hint Resolve Timeline_insert_inv Timeline_transition_inv Timeline_step_inv
  Timeline_start_inv : lora.

(** ** Insertion, summarised *)

(** The entry an eviction removes is the oldest one that may go. *)
Definition evicts_oldest (t : Timeline) (protected : option MessageId)
    (e : TimelineEntry) (kept : list TimelineEntry) : Prop :=
  exists pre suf, t.(entries) = pre ++ e :: suf /\ kept = pre ++ suf /\
    is_queued e = false /\ is_protected_entry protected e = false /\
    Forall (fun x => is_queued x = true \/ is_protected_entry protected x = true) pre.

Lemma eviction_index_oldest t protected i :
  eviction_index t protected = Some i ->
  exists e, t.(entries) !! i = Some e /\
            evicts_oldest t protected e (delete i t.(entries)).
Proof.
  intros (e & He & Hq & Hp & Hpre)%eviction_index_Some. exists e. split; [done|].
  exists (take i (entries t)), (drop (S i) (entries t)). split_and!; try done.
  - by rewrite take_drop_middle.
  - apply delete_take_drop.
  - apply Forall_lookup. intros j x Hj. pose proof (lookup_lt_Some _ _ _ Hj) as Hlt.
    rewrite length_take in Hlt. rewrite lookup_take_lt in Hj by lia.
    eapply Hpre; [|exact Hj]. lia.
Qed.

Lemma eviction_index_None_all t protected :
  eviction_index t protected = None <->
  Forall (fun x => is_queued x = true \/ is_protected_entry protected x = true)
    t.(entries).
Proof.
  unfold eviction_index. rewrite find_index_None. apply Forall_proper; [|done].
  intros x. rewrite andb_false_iff, !negb_false_iff. tauto.
Qed.

Lemma full_has_unqueued t :
  Timeline_inv t -> length t.(entries) = t.(capacity) -> eviction_index t None <> None.
Proof.
  intros Hinv Hfull Hnone%eviction_index_None_all.
  assert (count_if is_queued (entries t) = length (entries t)) as Hall.
  { apply count_if_all. eapply Forall_impl; [exact Hnone|]. by intros x [?|?]. }
  pose proof (inv_queued t Hinv). pose proof (inv_capacity t Hinv).
  unfold queued_count, queued_capacity in *. lia.
Qed.

(** ** Stability of the history along steps *)

(** What one step does to the entries. *)
Definition entry_evolves (e e' : TimelineEntry) : Prop :=
  e'.(entry_post) = e.(entry_post) /\ e'.(received_order) = e.(received_order) /\
  (is_queued e = false -> e' = e) /\
  (is_queued e = true -> exists s, e'.(entry_origin) = LocalDelivery s /\
     (s = Delivery_Queued \/ s = Delivery_Broadcast \/ s = Delivery_Failed)).

Lemma entry_evolves_refl e : entry_evolves e e.
Proof.
  split_and!; try done. unfold is_queued. intros Hq%bool_decide_eq_true.
  exists Delivery_Queued. auto.
Qed.

Lemma insert_history t post origin protected e' :
  Timeline_inv t ->
  let t' := snd (Timeline_insert t post origin protected) in
  t.(last_assigned_order) <= t'.(last_assigned_order) /\
  (e' ∈ t'.(entries) -> e'.(received_order) <= t.(last_assigned_order) ->
   e' ∈ t.(entries)) /\
  (e' ∈ t.(entries) -> is_queued e' = true -> e' ∈ t'.(entries)).
Proof.
  intros Hinv.
  destruct (Timeline_insert_cases t post origin protected Hinv)
    as [(e & err & _ & _ & ->)|[(_ & _ & _ & ->)|[(_ & _ & _ & ->)|
        [(_ & _ & _ & _ & _ & ->)|(_ & _ & _ & evicted & kept & Hroom & ->)]]]];
    try (split_and!; [done|done|done]).
  pose proof (made_room_kept _ _ _ _ Hinv Hroom) as (Hsub & _ & _).
  cbn. split_and!; [lia| |].
  - intros [He'|[->|[]%elem_of_nil]%elem_of_cons]%elem_of_app Hle; [|simpl in Hle; lia].
    by eapply elem_of_sublist.
  - intros He' Hq. apply elem_of_app. left.
    destruct Hroom as [(_ & _ & ->)|(_ & i & e & Hi & He & _ & ->)]; [done|].
    apply eviction_index_oldest in Hi
      as (e0 & He0 & pre & suf & Hes & Hdel & Hnq & _). rewrite He in He0.
    injection He0 as <-. rewrite Hes in He'. rewrite Hdel.
    apply elem_of_app in He' as [?|[->|?]%elem_of_cons]; [set_solver|congruence|set_solver].
Qed.

Lemma transition_history t m target :
  target <> Delivery_Queued -> target <> Delivery_Unknown ->
  let t' := snd (Timeline_transition t m target) in
  t'.(last_assigned_order) = t.(last_assigned_order) /\
  Forall2 entry_evolves t.(entries) t'.(entries).
Proof.
  intros Hq Hu.
  assert (Forall2 entry_evolves (entries t) (entries t)) as Hrefl.
  { apply Forall_Forall2_diag, Forall_forall. intros. apply entry_evolves_refl. }
  destruct (Timeline_transition_cases t m target)
    as [[_ ->]|(i & e & _ & He & _ & [[_ ->]|[[_ ->]|[(s & _ & _ & _ & ->)|
         (Ho & Ht & ->)]]])]; try done.
  split; [done|]. cbn [snd entries].
  rewrite <- (list_insert_id (entries t) i e He) at 1.
  apply Forall2_insert; [done|]. split_and!; try done.
  - unfold is_queued. by rewrite Ho, bool_decide_eq_true_2.
  - intros _. exists target. split; [done|]. destruct target; auto; done.
Qed.

Lemma step_history t t' e' :
  Timeline_inv t -> Timeline_step t t' ->
  t.(last_assigned_order) <= t'.(last_assigned_order) /\
  (e' ∈ t'.(entries) -> e'.(received_order) <= t.(last_assigned_order) ->
   exists e, e ∈ t.(entries) /\ entry_evolves e e') /\
  (e' ∈ t.(entries) -> is_queued e' = true ->
   exists e, e ∈ t'.(entries) /\ entry_evolves e' e).
Proof.
  intros Hinv Hstep.
  assert (forall post origin protected, t' = snd (Timeline_insert t post origin protected) ->
    t.(last_assigned_order) <= t'.(last_assigned_order) /\
    (e' ∈ t'.(entries) -> e'.(received_order) <= t.(last_assigned_order) ->
     exists e, e ∈ t.(entries) /\ entry_evolves e e') /\
    (e' ∈ t.(entries) -> is_queued e' = true ->
     exists e, e ∈ t'.(entries) /\ entry_evolves e' e)) as Hins.
  { intros post origin protected ->.
    destruct (insert_history t post origin protected e' Hinv) as (? & ? & ?).
    split_and!; [done| |]; intros ??; exists e'; split; auto using entry_evolves_refl. }
  assert (forall m target, target <> Delivery_Queued -> target <> Delivery_Unknown ->
    t' = snd (Timeline_transition t m target) ->
    t.(last_assigned_order) <= t'.(last_assigned_order) /\
    (e' ∈ t'.(entries) -> e'.(received_order) <= t.(last_assigned_order) ->
     exists e, e ∈ t.(entries) /\ entry_evolves e e') /\
    (e' ∈ t.(entries) -> is_queued e' = true ->
     exists e, e ∈ t'.(entries) /\ entry_evolves e' e)) as Htr.
  { intros m target Hq Hu ->.
    destruct (transition_history t m target Hq Hu) as [-> HF]. split_and!; [done| |].
    - intros [i Hi]%list_elem_of_lookup _.
      destruct (Forall2_lookup_r _ _ _ _ _ HF Hi) as (e & He & Hev).
      exists e. split; [|done]. by apply list_elem_of_lookup_2 in He.
    - intros [i Hi]%list_elem_of_lookup _.
      destruct (Forall2_lookup_l _ _ _ _ _ HF Hi) as (e & He & Hev).
      exists e. split; [|done]. by apply list_elem_of_lookup_2 in He. }
  destruct Hstep as [? post|? post st|? m|? m].
  - by eapply Hins.
  - by eapply Hins.
  - by apply (Htr m Delivery_Broadcast).
  - by apply (Htr m Delivery_Failed).
Qed.

(** ** Property theorems *)

(** every timeline the program can get to - from the constructor or a
    successful [restore], through any sequence of insertions and delivery
    notifications - satisfies the class invariant: the size is within a
    capacity of 1..256, receive orders are positive, strictly increasing and at
    most the counter, message identifiers are pairwise different, and at most
    min(16, capacity - 1) entries are queued. *)
Theorem Timeline_reachable_inv t : Timeline_reachable t -> Timeline_inv t.
Proof.
  intros (t0 & Hstart & Hsteps). eapply rtc_invariant; [|exact Hsteps|];
    eauto with lora.
Qed.

Lemma Timeline_reachable_inv_witness :
  Timeline_inv (snd (insert_local (mkTimeline 2 7 []) golden_post Delivery_Queued)).
Proof.
  apply Timeline_reachable_inv. exists (mkTimeline 2 7 []). split.
  - apply (start_make 2 7); [by split|reflexivity].
  - eapply rtc_once. apply step_local.
Defined.

(** [Timeline::restore] accepts exactly the saved histories that satisfy
    the invariant, and adopts them unchanged. *)
Theorem Timeline_restore_accepts cap last es t :
  is_u64 last -> Forall (fun e => is_u64 e.(received_order)) es ->
  Timeline_restore cap last es = success t <->
  Timeline_inv t /\ t.(capacity) = cap /\ t.(last_assigned_order) = last /\
  t.(entries) = es.
Proof.
  intros Hlast Hes. rewrite Timeline_restore_success by done.
  split; [by intros [? ->]|]. destruct t. simpl. by intros (? & -> & -> & ->).
Qed.

Lemma Timeline_restore_accepts_witness :
  Timeline_inv (mkTimeline 4 9 [mkTimelineEntry golden_post 3 ReceivedOrigin]).
Proof.
  apply (Timeline_restore_accepts 4 9 [mkTimelineEntry golden_post 3 ReceivedOrigin]).
  - by split.
  - repeat constructor; done.
  - vm_compute. reflexivity.
Defined.

(** What an insertion does.  It fails without touching the timeline unless
    the identifier is new, the queue has room for a queued local post, the
    order counter can advance, and there is a free slot or an entry that is
    neither queued nor the protected reply parent.  When it succeeds the post is
    appended under the next order, and if the timeline was full exactly one
    entry goes, the oldest one that is neither queued nor protected. *)
Theorem Timeline_insert_spec t post origin protected r t' :
  Timeline_inv t -> Timeline_insert t post origin protected = (r, t') ->
  (r.(insert_error) <> InsertError_None -> t' = t) /\
  (r.(insert_error) = InsertError_None <->
   (message_id post ∉ map entry_id t.(entries)) /\
   (origin = LocalDelivery Delivery_Queued ->
    (queued_count t < queued_capacity t)%nat) /\
   t.(last_assigned_order) < UINT64_MAX /\
   ((length t.(entries) < t.(capacity))%nat \/
    Exists (fun e => is_queued e = false /\ is_protected_entry protected e = false)
      t.(entries))) /\
  (r.(insert_error) = InsertError_None ->
   r.(insert_received_order) = Some (t.(last_assigned_order) + 1) /\
   exists kept,
     t' = mkTimeline t.(capacity) (t.(last_assigned_order) + 1)
            (kept ++ [mkTimelineEntry post (t.(last_assigned_order) + 1) origin]) /\
     (((length t.(entries) < t.(capacity))%nat /\ kept = t.(entries) /\
       r.(insert_evicted_message_id) = None) \/
      (length t.(entries) = t.(capacity) /\
       exists e, evicts_oldest t protected e kept /\
         r.(insert_evicted_message_id) = Some (entry_id e)))).
Proof.
  intros Hinv.
  assert (Exists (fun e => is_queued e = false /\
      is_protected_entry protected e = false) (entries t) <->
    eviction_index t protected <> None) as Hex.
  { unfold eviction_index. rewrite find_index_Exists. apply Exists_proper; [|done].
    intros x. rewrite andb_true_iff, !negb_true_iff. tauto. }
  rewrite Hex, <- find_None_ids.
  destruct (Timeline_insert_cases t post origin protected Hinv)
    as [(e & err & Hf & -> & ->)|[(Hf & Ho & Hq & ->)|[(Hf & Hq & Hl & ->)|
        [(Hf & Hq & Hl & Hlen & Hev & ->)|(Hf & Hq & Hl & evicted & kept & Hroom & ->)]]]];
    intros [= <- <-]; simpl.
  1: by case_decide; split_and!; rewrite ?Hf; naive_solver.
  1: split_and!; try done; rewrite Hf; intuition (congruence || lia).
  1: split_and!; try done; rewrite Hl; intuition (congruence || lia).
  1: split_and!; try done; rewrite Hev, Hlen; intuition (congruence || lia).
  split_and!; [done| |].
  - split; [|done]. intros _. split_and!; try done.
    destruct Hroom as [(? & _)|(_ & i & e & -> & _)]; [by left|by right].
  - intros _. split; [done|]. exists kept. split; [done|].
    destruct Hroom as [(? & -> & ->)|(? & i & e & Hi & He & -> & ->)]; [by left|right].
    split; [done|]. apply eviction_index_oldest in Hi as (e0 & He0 & Hold).
    rewrite He in He0. injection He0 as <-. by exists e.
Qed.

Lemma Timeline_insert_spec_witness :
  let t := mkTimeline 4 9 [mkTimelineEntry golden_post 3 ReceivedOrigin] in
  fst (insert_received t golden_post) =
    mkTimelineInsertResult InsertError_Duplicate None None /\
  snd (insert_received t golden_post) = t.
Proof.
  split; [vm_compute; reflexivity|].
  eapply (Timeline_insert_spec (mkTimeline 4 9 [mkTimelineEntry golden_post 3 ReceivedOrigin])
            golden_post ReceivedOrigin None).
  - eapply (Timeline_restore_success 4 9 [mkTimelineEntry golden_post 3 ReceivedOrigin]
             (mkTimeline 4 9 [mkTimelineEntry golden_post 3 ReceivedOrigin])).
    + by split.
    + repeat constructor; done.
    + vm_compute; reflexivity.
  - apply surjective_pairing.
  - vm_compute. discriminate.
Defined.

(** A received post is never refused for lack of room: with the invariant,
    [insert_received] only reports a duplicate, a conflict or an exhausted
    order counter, because the queue bound leaves an entry to evict. *)
Theorem insert_received_never_full t post :
  Timeline_inv t ->
  let error := (fst (insert_received t post)).(insert_error) in
  error = InsertError_None \/ error = InsertError_Duplicate \/
  error = InsertError_Conflict \/
  (error = InsertError_OrderExhausted /\ t.(last_assigned_order) = UINT64_MAX).
Proof.
  intros Hinv. unfold insert_received.
  destruct (Timeline_insert_cases t post ReceivedOrigin None Hinv)
    as [(e & err & _ & -> & ->)|[(_ & ? & _)|[(_ & _ & Hl & ->)|
        [(_ & _ & _ & Hlen & Hev & _)|(_ & _ & _ & evicted & kept & _ & ->)]]]]; simpl.
  - case_decide; auto.
  - done.
  - auto.
  - by destruct (full_has_unqueued t Hinv Hlen).
  - auto.
Qed.

Lemma insert_received_never_full_witness :
  let t := mkTimeline 1 7 [mkTimelineEntry golden_post 7 (LocalDelivery Delivery_Failed)] in
  (fst (insert_received t reply_post)).(insert_error) = InsertError_None.
Proof.
  destruct (insert_received_never_full
    (mkTimeline 1 7 [mkTimelineEntry golden_post 7 (LocalDelivery Delivery_Failed)])
    reply_post) as [H|[H|[H|[H _]]]].
  - eapply (Timeline_restore_success 1 7
      [mkTimelineEntry golden_post 7 (LocalDelivery Delivery_Failed)]); [by split| |].
    + repeat constructor; done.
    + vm_compute; reflexivity.
  - exact H.
  - vm_compute in H. discriminate H.
  - vm_compute in H. discriminate H.
  - vm_compute in H. discriminate H.
Defined.

(** The history is stable.  Along any sequence of operations the order
    counter never goes back; an entry whose order had been assigned before is
    one of the earlier entries, with the same post and the same order, and
    with the same origin unless it was queued; so orders are never reused and
    received or finished entries are never rewritten. *)
Theorem Timeline_history_stable t t' :
  Timeline_inv t -> rtc Timeline_step t t' ->
  t.(last_assigned_order) <= t'.(last_assigned_order) /\
  forall e', e' ∈ t'.(entries) -> e'.(received_order) <= t.(last_assigned_order) ->
    exists e, e ∈ t.(entries) /\ e'.(entry_post) = e.(entry_post) /\
      e'.(received_order) = e.(received_order) /\ (is_queued e = false -> e' = e).
Proof.
  intros Hinv Hsteps. induction Hsteps as [t|t t1 t' Hstep Hsteps IH].
  { split; [done|]. intros e' He' _. by exists e'. }
  pose proof (fun e => step_history t t1 e Hinv Hstep) as H1.
  destruct (IH (Timeline_step_inv _ _ Hinv Hstep)) as [Hle IHe].
  split; [destruct (H1 (mkTimelineEntry golden_post 0 ReceivedOrigin)); lia|].
  intros e' He' Hord.
  destruct (H1 e') as [Hle1 _].
  destruct (IHe e' He' ltac:(lia)) as (e1 & He1 & Hp1 & Ho1 & Hq1).
  destruct (H1 e1) as (_ & Hback & _).
  destruct (Hback He1 ltac:(lia)) as (e & He & Hp & Ho & Hq & _).
  exists e. split_and!; [done|congruence|congruence|].
  intros Hnq. specialize (Hq Hnq). subst e1. auto.
Qed.

Lemma Timeline_history_stable_witness :
  let t := mkTimeline 2 7 [mkTimelineEntry golden_post 7 ReceivedOrigin] in
  t.(last_assigned_order) <=
  (snd (insert_received t reply_post)).(last_assigned_order).
Proof.
  apply (Timeline_history_stable (mkTimeline 2 7 [mkTimelineEntry golden_post 7 ReceivedOrigin])).
  - eapply (Timeline_restore_success 2 7 [mkTimelineEntry golden_post 7 ReceivedOrigin]);
      [by split| |].
    + repeat constructor; done.
    + vm_compute; reflexivity.
  - eapply rtc_once. apply step_received.
Defined.

(** Pending local posts are never lost.  Whatever operation runs, a queued
    entry is still in the history afterwards, with its post and order, and its
    state is Queued, Broadcast or Failed. *)
Theorem queued_never_evicted t t' e :
  Timeline_inv t -> Timeline_step t t' -> e ∈ t.(entries) -> is_queued e = true ->
  exists e', e' ∈ t'.(entries) /\ e'.(entry_post) = e.(entry_post) /\
    e'.(received_order) = e.(received_order) /\
    exists s, e'.(entry_origin) = LocalDelivery s /\
      (s = Delivery_Queued \/ s = Delivery_Broadcast \/ s = Delivery_Failed).
Proof.
  intros Hinv Hstep He Hq.
  destruct (step_history t t' e Hinv Hstep) as (_ & _ & Hkeep).
  destruct (Hkeep He Hq) as (e' & He' & Hp & Ho & _ & Hs). eauto 10.
Qed.

Lemma queued_never_evicted_witness :
  let t := mkTimeline 2 8 [mkTimelineEntry golden_post 7 (LocalDelivery Delivery_Queued);
                           mkTimelineEntry reply_post 8 ReceivedOrigin] in
  exists e', e' ∈ (snd (mark_broadcast t (message_id golden_post))).(entries) /\
             e'.(entry_post) = golden_post.
Proof.
  destruct (queued_never_evicted
    (mkTimeline 2 8 [mkTimelineEntry golden_post 7 (LocalDelivery Delivery_Queued);
                     mkTimelineEntry reply_post 8 ReceivedOrigin])
    (snd (mark_broadcast
       (mkTimeline 2 8 [mkTimelineEntry golden_post 7 (LocalDelivery Delivery_Queued);
                        mkTimelineEntry reply_post 8 ReceivedOrigin])
       (message_id golden_post)))
    (mkTimelineEntry golden_post 7 (LocalDelivery Delivery_Queued)))
    as (e' & He' & Hp & _).
  - eapply (Timeline_restore_success 2 8
      [mkTimelineEntry golden_post 7 (LocalDelivery Delivery_Queued);
       mkTimelineEntry reply_post 8 ReceivedOrigin]); [by split| |].
    + repeat constructor; done.
    + vm_compute; reflexivity.
  - apply step_broadcast.
  - left.
  - reflexivity.
  - exists e'. by split.
Defined.

(** The delivery state machine.  A notification changes the timeline only
    when it moves a queued local entry to Broadcast or Failed; then exactly the
    origin of that entry changes.  Repeating the same notification reports
    success and changes nothing, a contradicting one is InvalidState, and the
    four error values say which case held. *)
Theorem delivery_transition_spec t m target r t' :
  Timeline_inv t -> (target = Delivery_Broadcast \/ target = Delivery_Failed) ->
  Timeline_transition t m target = (r, t') ->
  match r with
  | TransitionError_NotFound => t' = t /\ m ∉ map entry_id t.(entries)
  | TransitionError_NotLocal =>
      t' = t /\ exists e, e ∈ t.(entries) /\ entry_id e = m /\
        e.(entry_origin) = ReceivedOrigin
  | TransitionError_InvalidState =>
      t' = t /\ exists e s, e ∈ t.(entries) /\ entry_id e = m /\
        e.(entry_origin) = LocalDelivery s /\ s <> target /\ s <> Delivery_Queued
  | TransitionError_None =>
      exists pre e suf, t.(entries) = pre ++ e :: suf /\ entry_id e = m /\
        (e.(entry_origin) = LocalDelivery target \/ is_queued e = true) /\
        t' = mkTimeline t.(capacity) t.(last_assigned_order)
               (pre ++ with_origin e (LocalDelivery target) :: suf)
  end /\
  (r = TransitionError_None ->
   Timeline_transition t' m target = (TransitionError_None, t')).
Proof.
  intros Hinv Htarget Ht.
  destruct (Timeline_transition_cases t m target)
    as [[Hf Heq]|(i & e & Hi & He & Hm & [[Ho Heq]|[[Ho Heq]|[(s & Ho & Hs & Hq & Heq)|
         (Ho & Hq & Heq)]]])]; rewrite Heq in Ht; injection Ht as <- <-.
  - split; [|done]. by rewrite <- find_None_ids.
  - split; [|done]. split; [done|]. exists e. apply list_elem_of_lookup_2 in He. auto.
  - split; [|done]. exists (take i (entries t)), e, (drop (S i) (entries t)).
    rewrite take_drop_middle by done. split_and!; auto.
    destruct e as [p o g], t as [c l es]. simpl in *. subst g. f_equal.
    unfold with_origin. simpl. by rewrite take_drop_middle.
  - split; [|done]. split; [done|]. exists e, s. apply list_elem_of_lookup_2 in He. auto.
  - split.
    + exists (take i (entries t)), e, (drop (S i) (entries t)).
      rewrite take_drop_middle by done. split_and!; auto.
      * right. unfold is_queued. by rewrite Ho, bool_decide_eq_true_2.
      * f_equal. by rewrite <- insert_take_drop by (by eapply lookup_lt_Some).
    + intros _. set (t1 := mkTimeline _ _ _).
      assert (find_mutable t1 m = Some i) as Hi1.
      { unfold find_mutable, t1. cbn [entries]. apply find_index_Some in Hi as (e0 & He0 & Hm0 & Hlt).
        rewrite He in He0. injection He0 as <-. apply find_index_Some.
        exists (with_origin e (LocalDelivery target)). split_and!.
        - apply list_lookup_insert_eq. by eapply lookup_lt_Some.
        - done.
        - intros j y Hj Hy. rewrite list_lookup_insert_ne in Hy by lia. eauto. }
      unfold Timeline_transition. rewrite Hi1. cbn [t1 entries].
      rewrite list_lookup_insert_eq by (by eapply lookup_lt_Some).
      cbn. by rewrite bool_decide_eq_true_2.
Qed.

Lemma delivery_transition_spec_witness :
  let t := mkTimeline 2 7 [mkTimelineEntry golden_post 7 (LocalDelivery Delivery_Queued)] in
  let t' := mkTimeline 2 7 [mkTimelineEntry golden_post 7 (LocalDelivery Delivery_Broadcast)] in
  Timeline_transition t' (message_id golden_post) Delivery_Broadcast =
    (TransitionError_None, t').
Proof.
  eapply (delivery_transition_spec
    (mkTimeline 2 7 [mkTimelineEntry golden_post 7 (LocalDelivery Delivery_Queued)])
    (message_id golden_post) Delivery_Broadcast TransitionError_None).
  - eapply (Timeline_restore_success 2 7
      [mkTimelineEntry golden_post 7 (LocalDelivery Delivery_Queued)]); [by split| |].
    + repeat constructor; done.
    + vm_compute; reflexivity.
  - by left.
  - vm_compute. reflexivity.
  - reflexivity.
Defined.
