(* ===== verification/Limits.v ===== *)
(** * Limits: the constants of the wire protocol

    src/protocol/limits.h. *)
From S2P Require Import Prelude Ports.

Definition kProtocolVersion : Z := 1.
Definition kDataFrameType : Z := 0.
Definition kFrameMagicFirst : Z := 0x4c.
Definition kFrameMagicSecond : Z := 0x4d.

Definition kFrameHeaderBytes : nat := 28.
Definition kMinimumTransportMtu : nat := kMinimumDatagramMtu.
Definition kMaximumTransportMtu : nat := kMaximumDatagramBytes.
Definition kMaximumFramePayloadBytes : nat :=
  kMaximumTransportMtu - kFrameHeaderBytes.

Definition kMinimumEncodedPostBytes : nat := 46.
Definition kMaximumEncodedPostBytes : nat := 316.
Definition kMaximumFragments : nat := 16.

Definition is_supported_mtu (mtu : nat) : bool :=
  (kMinimumTransportMtu <=? mtu)%nat && (mtu <=? kMaximumTransportMtu)%nat.

Definition frame_payload_capacity (mtu : nat) : nat :=
  if is_supported_mtu mtu then mtu - kFrameHeaderBytes else 0.

(** The two [static_assert]s of the header. *)
Example limits_fit_in_sixteen_frames :
  (kMaximumEncodedPostBytes <=
   kMaximumFragments * (kMinimumTransportMtu - kFrameHeaderBytes))%nat.
Proof. cbv. lia. Qed.

Example payload_length_fits_one_byte : (kMaximumFramePayloadBytes <= 255)%nat.
Proof. cbv. lia. Qed.

Lemma is_supported_mtu_true mtu :
  is_supported_mtu mtu = true <-> (48 <= mtu <= 255)%nat.
Proof.
  unfold is_supported_mtu. rewrite andb_true_iff, !Nat.leb_le. done.
Qed.

Lemma frame_payload_capacity_supported mtu :
  is_supported_mtu mtu = true -> frame_payload_capacity mtu = (mtu - 28)%nat.
Proof. unfold frame_payload_capacity. by intros ->. Qed.
