(* ===== verification/PostCodec.v ===== *)
(** * PostCodec: the canonical binary form of a post

    src/protocol/post_codec.cpp.  [encode_post] lays a post out as
    flags, message id, sender id, sequence, three length bytes, user id, body,
    mentions, and the optional reply id and sender time; [decode_post] parses
    and validates it.  [post_bytes] is the layout as one concatenation; the
    theory shows that the encoder produces it and that the decoder accepts
    exactly the layouts of well-formed posts. *)
From S2P Require Import Prelude Text Ports Uuid Post Limits.

(** ** Definitions *)

Inductive PostCodecError :=
| PostCodecError_None
| PostCodecError_NullData
| PostCodecError_SizeOutOfRange
| PostCodecError_ReservedFlags
| PostCodecError_LengthMismatch
| PostCodecError_InvalidPost.

#[global] Instance PostCodecError_eq_decision : EqDecision PostCodecError.
Proof. solve_decision. Defined.

Definition kReplyPresent : Z := 0x01.
Definition kSenderTimePresent : Z := 0x02.
Definition kKnownFlags : Z := Z.lor kReplyPresent kSenderTimePresent.
Definition kFixedPostBytes : nat := 44.

(** [MessageTag], an 8-byte array. *)
Abbreviation MessageTag := bytes (only parsing).

Definition append_uint64 (output : bytes) (value : Z) : bytes :=
  output ++ map (fun shift => to_u8 (Z.land (Z.shiftr value shift) 0xff))
              [56; 48; 40; 32; 24; 16; 8; 0].

Definition read_uint64 (data : bytes) (offset : nat) : Z :=
  foldl (fun value b => Z.lor (u64 (Z.shiftl value 8)) (bval b)) 0
    (sub_bytes offset 8 data).

(** Two's complement by arithmetic that stays in range. *)
Definition encode_signed (value : Z) : Z :=
  if 0 <=? value then value else UINT64_MAX - (- (value + 1)).

Definition decode_signed (value : Z) : Z :=
  if value <=? INT64_MAX then value else -1 - (UINT64_MAX - value).

Definition append_uuid (output : bytes) (u : Uuid) : bytes :=
  output ++ u.(Uuid_bytes).

Definition read_uuid (data : bytes) (offset : nat) : Uuid :=
  Uuid_from_bytes (sub_bytes offset 16 data).

Definition post_flags (p : PostPayload) : Z :=
  let flags := 0 in
  let flags := if p.(reply_to) is Some _ then Z.lor flags kReplyPresent else flags in
  if p.(sender_time) is Some _ then Z.lor flags kSenderTimePresent else flags.

Definition encoded_size (p : PostPayload) : nat :=
  kFixedPostBytes + length p.(sender_user_id).(UserId_value) +
  length p.(body).(PostBody_value) + length p.(mentions) * 16 +
  (if p.(reply_to) is Some _ then 16 else 0) + (if p.(sender_time) is Some _ then 8 else 0).

Definition encode_post (p : PostPayload) : Result bytes PostCodecError :=
  let user_id := p.(sender_user_id).(UserId_value) in
  let body := p.(body).(PostBody_value) in
  if (kMaxUserIdBytes <? length user_id)%nat ||
     (kMaxPostBodyBytes <? length body)%nat ||
     (kMaxMentions <? length p.(mentions))%nat ||
     (encoded_size p <? kMinimumEncodedPostBytes)%nat ||
     (kMaximumEncodedPostBytes <? encoded_size p)%nat
  then failure PostCodecError_SizeOutOfRange
  else
    let output := [to_u8 (post_flags p)] in
    let output := append_uuid output p.(message_id).(MessageId_uuid) in
    let output := append_uuid output p.(sender_id).(InstallId_uuid) in
    let output := append_uint64 output p.(sender_sequence) in
    let output := output ++ [to_u8 (Z.of_nat (length user_id))] in
    let output := output ++ [to_u8 (Z.of_nat (length body))] in
    let output := output ++ [to_u8 (Z.of_nat (length p.(mentions)))] in
    let output := output ++ user_id in
    let output := output ++ body in
    let output :=
      foldl (fun output mention => append_uuid output mention.(InstallId_uuid))
            output p.(mentions) in
    let output :=
      match p.(reply_to) with
      | Some reply => append_uuid output reply.(MessageId_uuid)
      | None => output
      end in
    let output :=
      match p.(sender_time) with
      | Some time => append_uint64 output (encode_signed time)
      | None => output
      end in
    if negb (length output =? encoded_size p)%nat
    then failure PostCodecError_LengthMismatch
    else success output.

(** The mention loop: the identifiers read and the offset after them. *)
Fixpoint read_mentions (data : bytes) (mention_count offset : nat)
  : list Uuid * nat :=
  match mention_count with
  | O => ([], offset)
  | S count =>
      let mention := read_uuid data offset in
      let '(mentions, offset) := read_mentions data count (offset + 16) in
      (mention :: mentions, offset)
  end.

(** [decode_post(data, size)]; [None] is the null pointer and [size] is the
    length of the array it points to. *)
Definition decode_post (data : option bytes)
  : Result PostPayload PostCodecError :=
  match data with
  | None => failure PostCodecError_NullData
  | Some data =>
      let size := length data in
      if (size <? kMinimumEncodedPostBytes)%nat ||
         (kMaximumEncodedPostBytes <? size)%nat
      then failure PostCodecError_SizeOutOfRange
      else
        let flags := bval (byte_at data 0) in
        if negb (Z.land flags (bval (to_u8 (Z.lnot kKnownFlags))) =? 0)
        then failure PostCodecError_ReservedFlags
        else
          let user_id_size := Z.to_nat (bval (byte_at data 41)) in
          let body_size := Z.to_nat (bval (byte_at data 42)) in
          let mention_count := Z.to_nat (bval (byte_at data 43)) in
          if (kMaxUserIdBytes <? user_id_size)%nat ||
             (kMaxPostBodyBytes <? body_size)%nat ||
             (kMaxMentions <? mention_count)%nat
          then failure PostCodecError_LengthMismatch
          else
            let has_reply := negb (Z.land flags kReplyPresent =? 0) in
            let has_time := negb (Z.land flags kSenderTimePresent =? 0) in
            let expected_size :=
              (kFixedPostBytes + user_id_size + body_size + mention_count * 16 +
               (if has_reply then 16 else 0) + (if has_time then 8 else 0))%nat in
            if negb (expected_size =? size)%nat
            then failure PostCodecError_LengthMismatch
            else
              let offset := kFixedPostBytes in
              let input_user_id := sub_bytes offset user_id_size data in
              let offset := (offset + user_id_size)%nat in
              let input_body := sub_bytes offset body_size data in
              let offset := (offset + body_size)%nat in
              let '(input_mentions, offset) :=
                read_mentions data mention_count offset in
              let '(input_reply, offset) :=
                if has_reply then (Some (read_uuid data offset), (offset + 16)%nat)
                else (None, offset) in
              let '(input_time, offset) :=
                if has_time
                then (Some (decode_signed (read_uint64 data offset)), (offset + 8)%nat)
                else (None, offset) in
              if negb (offset =? size)%nat
              then failure PostCodecError_LengthMismatch
              else
                let! post := PostPayload_create
                  {| input_message_id := read_uuid data 1;
                     input_sender_id := read_uuid data 17;
                     input_sender_sequence := read_uint64 data 33;
                     input_sender_user_id := input_user_id;
                     input_body := input_body;
                     input_mentions := input_mentions;
                     input_reply_to := input_reply;
                     input_sender_time := input_time |}
                  else failure PostCodecError_InvalidPost in
                success post
  end.

(** The inline overload on a vector.  For an empty vector [data()] may be null;
    both readings are rejected. *)
Definition decode_post_bytes (data : bytes) : Result PostPayload PostCodecError :=
  decode_post (Some data).

Definition message_tag (m : MessageId) : MessageTag :=
  take 8 m.(MessageId_uuid).(Uuid_bytes).

(** ** The layout *)

Definition optional_bytes {A} (f : A -> bytes) (o : option A) : bytes :=
  match o with Some a => f a | None => [] end.

Definition mention_bytes (ms : list InstallId) : bytes :=
  concat (map (fun i => i.(InstallId_uuid).(Uuid_bytes)) ms).

Definition post_tail (p : PostPayload) : bytes :=
  p.(sender_user_id).(UserId_value) ++ p.(body).(PostBody_value) ++
  mention_bytes p.(mentions) ++
  optional_bytes (fun r => r.(MessageId_uuid).(Uuid_bytes)) p.(reply_to) ++
  optional_bytes (fun t => be_bytes 8 (encode_signed t)) p.(sender_time).

Definition post_bytes (p : PostPayload) : bytes :=
  [to_u8 (post_flags p)] ++ p.(message_id).(MessageId_uuid).(Uuid_bytes) ++
  p.(sender_id).(InstallId_uuid).(Uuid_bytes) ++ be_bytes 8 p.(sender_sequence) ++
  [to_u8 (Z.of_nat (length p.(sender_user_id).(UserId_value)))] ++
  [to_u8 (Z.of_nat (length p.(body).(PostBody_value)))] ++
  [to_u8 (Z.of_nat (length p.(mentions)))] ++ post_tail p.

(** ** Words *)

Lemma append_uint64_be output v : append_uint64 output v = output ++ be_bytes 8 v.
Proof. unfold append_uint64. by rewrite be_bytes_shifts. Qed.

Lemma read_uint64_be data off :
  read_uint64 data off = be_value (sub_bytes off 8 data).
Proof.
  apply (shift_accumulate _ _ 8).
  - intros z Hz. unfold u64. apply Z.mod_small. lia.
  - unfold sub_bytes. rewrite length_take. lia.
Qed.

Lemma decode_encode_signed v : is_i64 v -> decode_signed (encode_signed v) = v.
Proof.
  unfold is_i64, decode_signed, encode_signed, INT64_MIN, INT64_MAX, UINT64_MAX.
  intros. destruct (Z.leb_spec 0 v); split_if; reflect_bools; lia.
Qed.

Lemma encode_decode_signed v :
  is_u64 v -> encode_signed (decode_signed v) = v /\ is_i64 (decode_signed v).
Proof.
  unfold is_u64, is_i64, decode_signed, encode_signed, INT64_MIN, INT64_MAX, UINT64_MAX.
  intros. destruct (Z.leb_spec v 9223372036854775807); split_if; reflect_bools; lia.
Qed.

Lemma encode_signed_u64 v : is_i64 v -> is_u64 (encode_signed v).
Proof.
  unfold is_u64, is_i64, encode_signed, INT64_MIN, INT64_MAX, UINT64_MAX.
  intros. split_if; reflect_bools; lia.
Qed.

(** ** Encoding *)

Lemma foldl_append_uuid ms output :
  foldl (fun output mention => append_uuid output mention.(InstallId_uuid)) output ms =
  output ++ mention_bytes ms.
Proof.
  revert output. induction ms as [|m ms IH]; intros output; simpl.
  - by rewrite app_nil_r.
  - rewrite IH. unfold append_uuid, mention_bytes. simpl. by rewrite <- app_assoc.
Qed.

Lemma length_mention_bytes ms :
  Forall InstallId_wf ms -> length (mention_bytes ms) = (length ms * 16)%nat.
Proof.
  induction 1 as [|m ms [Hm _] _ IH]; [done|].
  unfold mention_bytes in *. simpl. rewrite length_app, IH, Hm. done.
Qed.

Lemma length_post_bytes p : PostPayload_wf p -> length (post_bytes p) = encoded_size p.
Proof.
  intros [[Hm _] [Hs _] _ _ _ _ Hments _ Hr _].
  unfold post_bytes, post_tail, encoded_size. unfold Uuid_wf in *.
  rewrite !length_app, !length_be_bytes, Hm, Hs, length_mention_bytes by done.
  simpl. destruct (reply_to p) as [r|]; simpl.
  - destruct (Hr _ eq_refl) as [[Hrl _] _]. unfold Uuid_wf in Hrl. rewrite Hrl.
    destruct (sender_time p); simpl; rewrite ?length_be_bytes; lia.
  - destruct (sender_time p); simpl; rewrite ?length_be_bytes; lia.
Qed.

Lemma encoded_size_range p :
  PostPayload_wf p -> (46 <= encoded_size p <= 316)%nat.
Proof.
  intros [_ _ _ Hu Hb Hm _ _ _ _]. apply UserId_wf_length in Hu.
  apply PostBody_wf_length in Hb. unfold encoded_size, kFixedPostBytes, kMaxMentions in *.
  destruct (reply_to p), (sender_time p); lia.
Qed.

Lemma encode_post_layout p : PostPayload_wf p -> encode_post p = success (post_bytes p).
Proof.
  intros Hwf. pose proof (encoded_size_range p Hwf) as Hsize.
  pose proof (length_post_bytes p Hwf) as Hlen.
  pose proof Hwf as [_ _ _ Hu Hb Hm _ _ _ _]. apply UserId_wf_length in Hu.
  apply PostBody_wf_length in Hb.
  unfold encode_post.
  rewrite (proj2 (Nat.ltb_ge _ _)) by (unfold kMaxUserIdBytes; lia).
  rewrite (proj2 (Nat.ltb_ge _ _)) by (unfold kMaxPostBodyBytes; lia).
  rewrite (proj2 (Nat.ltb_ge _ _)) by done.
  rewrite (proj2 (Nat.ltb_ge (encoded_size p) _)) by (unfold kMinimumEncodedPostBytes; lia).
  rewrite (proj2 (Nat.ltb_ge _ (encoded_size p))) by (unfold kMaximumEncodedPostBytes; lia).
  cbn [orb]. rewrite foldl_append_uuid. unfold append_uuid. rewrite !append_uint64_be.
  replace (match sender_time p with Some time => _ | None => _ end) with (post_bytes p).
  - by rewrite Hlen, Nat.eqb_refl.
  - unfold post_bytes, post_tail. rewrite <- !app_assoc.
    destruct (reply_to p), (sender_time p); cbn [optional_bytes];
      rewrite ?append_uint64_be, ?app_nil_r, <- ?app_assoc; done.
Qed.

(** ** Decoding *)

Definition has_reply_flag (data : bytes) : bool :=
  negb (Z.land (bval (byte_at data 0)) kReplyPresent =? 0).
Definition has_time_flag (data : bytes) : bool :=
  negb (Z.land (bval (byte_at data 0)) kSenderTimePresent =? 0).

(** The length bytes, and the offsets of the variable fields they fix. *)
Definition user_id_size (data : bytes) : nat := Z.to_nat (bval (byte_at data 41)).
Definition body_size (data : bytes) : nat := Z.to_nat (bval (byte_at data 42)).
Definition mention_count (data : bytes) : nat := Z.to_nat (bval (byte_at data 43)).
Definition mentions_offset (data : bytes) : nat :=
  44 + user_id_size data + body_size data.
Definition reply_offset (data : bytes) : nat :=
  mentions_offset data + mention_count data * 16.
Definition time_offset (data : bytes) : nat :=
  reply_offset data + (if has_reply_flag data then 16 else 0).

Record decode_shape (data : bytes) : Prop := {
  shape_size : (46 <= length data <= 316)%nat;
  shape_flags : bval (byte_at data 0) < 4;
  shape_user_id : (user_id_size data <= 24)%nat;
  shape_body : (body_size data <= 160)%nat;
  shape_mentions : (mention_count data <= 4)%nat;
  shape_total : length data =
    (time_offset data + (if has_time_flag data then 8 else 0))%nat
}.

Definition decoded_input (data : bytes) : PostPayloadInput := {|
  input_message_id := read_uuid data 1;
  input_sender_id := read_uuid data 17;
  input_sender_sequence := read_uint64 data 33;
  input_sender_user_id := sub_bytes 44 (user_id_size data) data;
  input_body := sub_bytes (44 + user_id_size data) (body_size data) data;
  input_mentions :=
    map (fun i => read_uuid data (mentions_offset data + i * 16))
        (seq 0 (mention_count data));
  input_reply_to :=
    if has_reply_flag data then Some (read_uuid data (reply_offset data)) else None;
  input_sender_time :=
    if has_time_flag data
    then Some (decode_signed (read_uint64 data (time_offset data))) else None
|}.

Lemma reserved_flags_test b :
  (Z.land (bval b) (bval (to_u8 (Z.lnot kKnownFlags))) =? 0) = (bval b <? 4).
Proof. by destruct b. Qed.

Lemma read_mentions_eq data n off :
  read_mentions data n off =
  (map (fun i => read_uuid data (off + i * 16)) (seq 0 n), (off + n * 16)%nat).
Proof.
  revert off. induction n as [|n IH]; intros off.
  - simpl. by rewrite Nat.add_0_r.
  - cbn [read_mentions seq map]. rewrite IH. f_equal; [|lia].
    rewrite Nat.add_0_r. f_equal. rewrite <- seq_shift, map_map.
    apply map_ext. intros i. f_equal. lia.
Qed.

Lemma decode_post_success data p :
  decode_post (Some data) = success p <->
  decode_shape data /\ PostPayload_create (decoded_input data) = success p.
Proof.
  unfold decode_post. rewrite reserved_flags_test, read_mentions_eq.
  fold (user_id_size data) (body_size data) (mention_count data).
  fold (has_reply_flag data) (has_time_flag data).
  set (total := (kFixedPostBytes + user_id_size data + body_size data +
                 mention_count data * 16 + _ + _)%nat).
  assert (total = (time_offset data + (if has_time_flag data then 8 else 0))%nat) as Ht.
  { unfold total, time_offset, reply_offset, mentions_offset, kFixedPostBytes. lia. }
  split.
  - destruct (_ || _) eqn:Hs; [done|]. destruct (negb (_ <? _)) eqn:Hf; [done|].
    destruct (_ || _) eqn:Hl in |- *; [done|]. destruct (negb (_ =? _)%nat) eqn:Htot; [done|].
    reflect_bools. intros Hdec.
    assert (PostPayload_create (decoded_input data) = success p) as Hc.
    { revert Hdec. unfold decoded_input, time_offset, reply_offset, mentions_offset.
      change kFixedPostBytes with 44%nat.
      destruct (has_reply_flag data), (has_time_flag data);
        (destruct (negb _); [done|]); rewrite ?Nat.add_0_r;
        destruct (PostPayload_create _); by intros [= <-]. }
    split; [|done]. unfold kMinimumEncodedPostBytes, kMaximumEncodedPostBytes,
      kMaxUserIdBytes, kMaxPostBodyBytes, kMaxMentions in *.
    split; lia.
  - intros [[Hsz Hf Hu Hb Hm Htot] Hc].
    rewrite (proj2 (Nat.ltb_ge (length data) _)) by (unfold kMinimumEncodedPostBytes; lia).
    rewrite (proj2 (Nat.ltb_ge _ (length data))) by (unfold kMaximumEncodedPostBytes; lia).
    rewrite (proj2 (Z.ltb_lt _ _) Hf).
    rewrite (proj2 (Nat.ltb_ge _ (user_id_size data))) by (unfold kMaxUserIdBytes; lia).
    rewrite (proj2 (Nat.ltb_ge _ (body_size data))) by (unfold kMaxPostBodyBytes; lia).
    rewrite (proj2 (Nat.ltb_ge _ (mention_count data))) by (unfold kMaxMentions; lia).
    rewrite Ht, <- Htot, Nat.eqb_refl. cbn [orb negb].
    revert Hc Htot. unfold decoded_input, time_offset, reply_offset, mentions_offset.
    change kFixedPostBytes with 44%nat.
    destruct (has_reply_flag data), (has_time_flag data); rewrite ?Nat.add_0_r;
      intros -> <-; by rewrite Nat.eqb_refl.
Qed.

(** ** Reading a layout back *)

Definition post_header (p : PostPayload) : bytes :=
  [to_u8 (post_flags p)] ++ p.(message_id).(MessageId_uuid).(Uuid_bytes) ++
  p.(sender_id).(InstallId_uuid).(Uuid_bytes) ++ be_bytes 8 p.(sender_sequence) ++
  [to_u8 (Z.of_nat (length p.(sender_user_id).(UserId_value)))] ++
  [to_u8 (Z.of_nat (length p.(body).(PostBody_value)))] ++
  [to_u8 (Z.of_nat (length p.(mentions)))].

Lemma post_bytes_header p : post_bytes p = post_header p ++ post_tail p.
Proof. unfold post_bytes, post_header. by rewrite <- !app_assoc. Qed.

Lemma length_post_header p : PostPayload_wf p -> length (post_header p) = 44%nat.
Proof.
  intros [[Hm _] [Hs _] _ _ _ _ _ _ _ _]. unfold post_header, Uuid_wf in *.
  rewrite !length_app, Hm, Hs, length_be_bytes. done.
Qed.

(** The fixed fields of the header, for any field values of the right length. *)
Lemma header_fields (f u b c : byte) (m s q tail : bytes) :
  length m = 16%nat -> length s = 16%nat -> length q = 8%nat ->
  let data := ([f] ++ m ++ s ++ q ++ [u] ++ [b] ++ [c]) ++ tail in
  byte_at data 0 = f /\ sub_bytes 1 16 data = m /\ sub_bytes 17 16 data = s /\
  sub_bytes 33 8 data = q /\ byte_at data 41 = u /\ byte_at data 42 = b /\
  byte_at data 43 = c.
Proof.
  intros Hm Hs Hq.
  do 16 (destruct m as [|? m]; [discriminate Hm|]); destruct m; [|discriminate Hm].
  do 16 (destruct s as [|? s]; [discriminate Hs|]); destruct s; [|discriminate Hs].
  do 8 (destruct q as [|? q]; [discriminate Hq|]); destruct q; [|discriminate Hq].
  split_and!; reflexivity.
Qed.

Lemma post_bytes_fields p :
  PostPayload_wf p ->
  let data := post_bytes p in
  byte_at data 0 = to_u8 (post_flags p) /\
  read_uuid data 1 = p.(message_id).(MessageId_uuid) /\
  read_uuid data 17 = p.(sender_id).(InstallId_uuid) /\
  read_uint64 data 33 = p.(sender_sequence) /\
  user_id_size data = length p.(sender_user_id).(UserId_value) /\
  body_size data = length p.(body).(PostBody_value) /\
  mention_count data = length p.(mentions).
Proof.
  intros [[Hm _] [Hs _] Hseq Hu Hb Hments _ _ _ _]. apply UserId_wf_length in Hu.
  apply PostBody_wf_length in Hb. unfold kMaxMentions in Hments. unfold Uuid_wf in *.
  cbn zeta. rewrite post_bytes_header. unfold post_header.
  match goal with |- context [([?f] ++ ?m ++ ?s ++ ?q ++ [?u] ++ [?b] ++ [?c]) ++ ?t] =>
    pose proof (header_fields f u b c m s q t Hm Hs (length_be_bytes 8 _))
      as (E0 & E1 & E2 & E3 & E4 & E5 & E6) end.
  unfold read_uuid, user_id_size, body_size, mention_count, Uuid_from_bytes.
  rewrite read_uint64_be, E0, E1, E2, E3, E4, E5, E6, be_value_be_bytes.
  rewrite !bval_to_u8_small, !Nat2Z.id by lia.
  split_and!; try done.
  - by destruct (message_id p) as [[?]].
  - by destruct (sender_id p) as [[?]].
  - apply Z.mod_small. unfold UINT64_MAX in Hseq. lia.
Qed.

Lemma flags_of_post p :
  has_reply_flag (to_u8 (post_flags p) :: []) = bool_decide (is_Some p.(reply_to)) /\
  has_time_flag (to_u8 (post_flags p) :: []) = bool_decide (is_Some p.(sender_time)) /\
  bval (to_u8 (post_flags p)) < 4.
Proof.
  unfold post_flags. destruct (reply_to p), (sender_time p); by vm_compute.
Qed.

Lemma post_bytes_flags p :
  PostPayload_wf p ->
  has_reply_flag (post_bytes p) = bool_decide (is_Some p.(reply_to)) /\
  has_time_flag (post_bytes p) = bool_decide (is_Some p.(sender_time)).
Proof.
  intros Hwf. destruct (post_bytes_fields p Hwf) as [E0 _].
  unfold has_reply_flag, has_time_flag. rewrite E0.
  destruct (flags_of_post p) as (? & ? & _). done.
Qed.

Lemma mention_slices ms rest pre k :
  Forall InstallId_wf ms -> length pre = k ->
  map (fun i => read_uuid (pre ++ mention_bytes ms ++ rest) (k + i * 16))
      (seq 0 (length ms)) = map InstallId_uuid ms.
Proof.
  intros Hms. revert pre k. induction Hms as [|m ms [Hm _] Hms IH]; intros pre k Hk; [done|].
  unfold mention_bytes. cbn [map concat length seq]. fold (mention_bytes ms).
  rewrite <- app_assoc. f_equal.
  - unfold read_uuid. rewrite sub_bytes_skip, sub_bytes_here by done.
    by destruct m as [[?]].
  - rewrite <- seq_shift, map_map.
    rewrite <- (IH (pre ++ Uuid_bytes (InstallId_uuid m)) (k + 16)%nat).
    + apply map_ext. intros i. rewrite <- app_assoc. f_equal. lia.
    + rewrite length_app, Hk. unfold Uuid_wf in Hm. lia.
Qed.

Lemma post_bytes_offsets p :
  PostPayload_wf p ->
  mentions_offset (post_bytes p) =
    (44 + length p.(sender_user_id).(UserId_value) +
     length p.(body).(PostBody_value))%nat /\
  reply_offset (post_bytes p) =
    (44 + length p.(sender_user_id).(UserId_value) +
     length p.(body).(PostBody_value) + length p.(mentions) * 16)%nat /\
  time_offset (post_bytes p) =
    (44 + length p.(sender_user_id).(UserId_value) +
     length p.(body).(PostBody_value) + length p.(mentions) * 16 +
     if p.(reply_to) is Some _ then 16 else 0)%nat.
Proof.
  intros Hwf. destruct (post_bytes_fields p Hwf) as (_ & _ & _ & _ & Hu & Hb & Hm).
  destruct (post_bytes_flags p Hwf) as [Hr _].
  unfold time_offset, reply_offset, mentions_offset. rewrite Hu, Hb, Hm, Hr.
  by destruct (reply_to p).
Qed.

Lemma post_bytes_shape p : PostPayload_wf p -> decode_shape (post_bytes p).
Proof.
  intros Hwf. pose proof (encoded_size_range p Hwf).
  pose proof (length_post_bytes p Hwf) as Hlen.
  destruct (post_bytes_fields p Hwf) as (H0 & _ & _ & _ & Hu & Hb & Hm).
  destruct (post_bytes_flags p Hwf) as [_ Ht].
  destruct (post_bytes_offsets p Hwf) as (_ & _ & Hoff).
  pose proof Hwf as [_ _ _ Hu' Hb' Hm' _ _ _ _].
  apply UserId_wf_length in Hu'. apply PostBody_wf_length in Hb'.
  unfold kMaxMentions in Hm'. split.
  - lia.
  - rewrite H0. apply flags_of_post.
  - lia.
  - lia.
  - lia.
  - rewrite Hlen, Hoff, Ht. unfold encoded_size, kFixedPostBytes.
    destruct (reply_to p), (sender_time p); cbn; lia.
Qed.

Lemma post_bytes_input p :
  PostPayload_wf p -> decoded_input (post_bytes p) = PostPayload_input p.
Proof.
  intros Hwf. unfold decoded_input, PostPayload_input.
  destruct (post_bytes_fields p Hwf) as (_ & -> & -> & -> & -> & -> & ->).
  destruct (post_bytes_flags p Hwf) as [-> ->].
  destruct (post_bytes_offsets p Hwf) as (-> & -> & ->).
  pose proof (length_post_header p Hwf) as Hh.
  pose proof Hwf as [_ _ _ _ _ _ Hments _ Hr Ht].
  set (m := mention_bytes (mentions p)).
  assert (length m = length (mentions p) * 16)%nat as Hmb by by apply length_mention_bytes.
  rewrite post_bytes_header. unfold post_tail. revert Hh Hmb. fold m.
  generalize (post_header p) as h. intros h Hh Hmb. f_equal.
  - by apply (sub_bytes_at h _ (PostBody_value (body p) ++ m ++
      optional_bytes (fun r => Uuid_bytes (MessageId_uuid r)) (reply_to p) ++
      optional_bytes (fun t => be_bytes 8 (encode_signed t)) (sender_time p))).
  - rewrite <- Hh, <- length_app, app_assoc. by eapply sub_bytes_at.
  - rewrite (app_assoc (UserId_value _)), (app_assoc h).
    apply mention_slices; [done|]. rewrite !length_app, Hh. lia.
  - destruct (reply_to p) as [r|] eqn:Er; [|done].
    rewrite bool_decide_true by done. cbn [optional_bytes]. f_equal.
    destruct (Hr r eq_refl) as [[Hrl _] _]. unfold read_uuid.
    rewrite (sub_bytes_at
      (h ++ UserId_value (sender_user_id p) ++ PostBody_value (body p) ++ m)
      (Uuid_bytes (MessageId_uuid r))
      (optional_bytes (fun t => be_bytes 8 (encode_signed t)) (sender_time p)));
      [|by rewrite <- !app_assoc|rewrite !length_app, Hmb; lia|apply Hrl].
    by destruct r as [[?]].
  - destruct (sender_time p) as [t|] eqn:Et; [|done].
    rewrite bool_decide_true by done. cbn [optional_bytes]. f_equal.
    rewrite read_uint64_be.
    rewrite (sub_bytes_at
      (h ++ UserId_value (sender_user_id p) ++ PostBody_value (body p) ++ m ++
       optional_bytes (fun r => Uuid_bytes (MessageId_uuid r)) (reply_to p))
      (be_bytes 8 (encode_signed t)) []);
      [|by rewrite app_nil_r, <- !app_assoc| |apply length_be_bytes].
    + rewrite be_value_be_bytes.
      pose proof (encode_signed_u64 t (Ht t eq_refl)) as Hu. unfold is_u64, UINT64_MAX in Hu.
      rewrite Z.mod_small by lia. apply decode_encode_signed. by apply Ht.
    + rewrite !length_app, Hmb.
      destruct (reply_to p) as [r|] eqn:Er; cbn; [|lia].
      destruct (Hr r eq_refl) as [[Hrl _] _]. unfold Uuid_wf in Hrl. lia.
Qed.

(** ** The layout is the only reading *)

Lemma drop_peel off n (data x rest : bytes) :
  x = sub_bytes off n data -> rest = drop (off + n) data -> x ++ rest = drop off data.
Proof. intros -> ->. unfold sub_bytes. by rewrite <- drop_drop, take_drop. Qed.

Lemma mention_bytes_read data off n :
  (off + n * 16 <= length data)%nat ->
  concat (map Uuid_bytes (map (fun i => read_uuid data (off + i * 16)) (seq 0 n))) =
  sub_bytes off (n * 16) data.
Proof.
  revert off. induction n as [|n IH]; intros off Hlen; [done|].
  cbn [seq map concat]. rewrite <- seq_shift, !map_map, Nat.add_0_r.
  change (S n * 16)%nat with (16 + n * 16)%nat. rewrite <- sub_bytes_app. f_equal.
  rewrite <- IH, map_map by lia. f_equal. apply map_ext. intros i. do 2 f_equal. lia.
Qed.

Lemma shape_flags_byte data p :
  decode_shape data ->
  has_reply_flag data = bool_decide (is_Some p.(reply_to)) ->
  has_time_flag data = bool_decide (is_Some p.(sender_time)) ->
  to_u8 (post_flags p) = byte_at data 0.
Proof.
  unfold has_reply_flag, has_time_flag, post_flags. intros [_ Hf _ _ _ _] Hr Ht.
  rewrite <- (to_u8_bval (byte_at data 0)). revert Hr Ht.
  pose proof (bval_range (byte_at data 0)).
  destruct (reply_to p), (sender_time p); rewrite ?bool_decide_true, ?bool_decide_false
    by (done || by intros []);
  (assert (bval (byte_at data 0) = 0 \/ bval (byte_at data 0) = 1 \/
     bval (byte_at data 0) = 2 \/ bval (byte_at data 0) = 3) as Hc by lia);
  destruct Hc as [-> | [-> | [-> | ->]]]; by vm_compute.
Qed.

Lemma length_byte_field (data : bytes) off n :
  Z.to_nat (bval (byte_at data off)) = n -> to_u8 (Z.of_nat n) = byte_at data off.
Proof. intros <-. byte_ranges. rewrite Z2Nat.id by lia. apply to_u8_bval. Qed.

Lemma read_uint64_u64 data off : (off + 8 <= length data)%nat -> is_u64 (read_uint64 data off).
Proof.
  intros Hoff. rewrite read_uint64_be. pose proof (be_value_range (sub_bytes off 8 data)) as Hr.
  rewrite length_sub_bytes in Hr by done. unfold is_u64, UINT64_MAX. lia.
Qed.

Lemma signed_slice data off :
  (off + 8 <= length data)%nat ->
  be_bytes 8 (encode_signed (decode_signed (read_uint64 data off))) = sub_bytes off 8 data.
Proof.
  intros Hoff. rewrite (proj1 (encode_decode_signed _ (read_uint64_u64 _ _ Hoff))).
  rewrite read_uint64_be. apply be_bytes_value. by apply length_sub_bytes.
Qed.

Lemma decoded_input_layout data p :
  decode_shape data -> decoded_input data = PostPayload_input p -> post_bytes p = data.
Proof.
  intros Hs Hp. pose proof Hs as [Hsize _ _ _ _ Htot]. 
  pose proof (f_equal input_message_id Hp) as Hm.
  pose proof (f_equal input_sender_id Hp) as Hsd.
  pose proof (f_equal input_sender_sequence Hp) as Hseq.
  pose proof (f_equal input_sender_user_id Hp) as Huid.
  pose proof (f_equal input_body Hp) as Hbody.
  pose proof (f_equal input_mentions Hp) as Hments.
  pose proof (f_equal input_reply_to Hp) as Hreply.
  pose proof (f_equal input_sender_time Hp) as Htime.
  unfold decoded_input, PostPayload_input in Hm, Hsd, Hseq, Huid, Hbody, Hments, Hreply, Htime.
  cbn [input_message_id input_sender_id input_sender_sequence input_sender_user_id
    input_body input_mentions input_reply_to input_sender_time]
    in Hm, Hsd, Hseq, Huid, Hbody, Hments, Hreply, Htime. clear Hp.
  unfold time_offset, reply_offset, mentions_offset in *.
  assert (has_reply_flag data = bool_decide (is_Some p.(reply_to))) as Hr.
  { by destruct (has_reply_flag data), (reply_to p). }
  assert (has_time_flag data = bool_decide (is_Some p.(sender_time))) as Ht.
  { by destruct (has_time_flag data), (sender_time p). }
  assert (length (UserId_value (sender_user_id p)) = user_id_size data) as Hul.
  { rewrite <- Huid. apply length_sub_bytes. lia. }
  assert (length (PostBody_value (body p)) = body_size data) as Hbl.
  { rewrite <- Hbody. apply length_sub_bytes. lia. }
  assert (length (mentions p) = mention_count data) as Hml.
  { rewrite <- (length_map InstallId_uuid), <- Hments, length_map. apply length_seq. }
  assert (mention_bytes (mentions p) =
    sub_bytes (44 + user_id_size data + body_size data) (mention_count data * 16) data) as Hmb.
  { rewrite <- mention_bytes_read by lia. rewrite Hments. unfold mention_bytes.
    by rewrite map_map. }
  unfold post_bytes, post_tail.
  rewrite (shape_flags_byte data p), Hul, Hbl, Hml by done.
  rewrite (length_byte_field data 41), (length_byte_field data 42),
    (length_byte_field data 43) by done.
  rewrite <- Hm, <- Hsd, <- Huid, <- Hbody, Hmb, <- Hseq, read_uint64_be.
  rewrite be_bytes_value by (apply length_sub_bytes; lia).
  assert (optional_bytes (fun r => Uuid_bytes (MessageId_uuid r)) (reply_to p) =
    sub_bytes (44 + user_id_size data + body_size data + mention_count data * 16)
      (if has_reply_flag data then 16 else 0) data) as ->.
  { rewrite Hr in Hreply |- *. destruct (reply_to p) as [r|]; [|done].
    rewrite bool_decide_true in Hreply |- * by done. 
    change (MessageId_uuid <$> Some r) with (Some (MessageId_uuid r)) in Hreply.
    apply (inj Some) in Hreply. cbn [optional_bytes]. by rewrite <- Hreply. }
  assert (optional_bytes (fun t => be_bytes 8 (encode_signed t)) (sender_time p) =
    sub_bytes (44 + user_id_size data + body_size data + mention_count data * 16 +
       if has_reply_flag data then 16 else 0)
      (if has_time_flag data then 8 else 0) data) as ->.
  { rewrite Ht in Htime, Htot |- *. destruct (sender_time p) as [t|]; [|done].
    rewrite bool_decide_true in Htime, Htot |- * by done. 
    apply (inj Some) in Htime. cbn [optional_bytes].
    rewrite <- Htime. apply signed_slice. lia. }
  rewrite <- !sub_bytes_1 by lia. transitivity (drop 0 data); [|apply drop_0].
  apply (drop_peel 0 1); [done|]. do 2 (apply (drop_peel _ 16); [done|]).
  apply (drop_peel 33 8); [done|]. do 3 (apply (drop_peel _ 1); [done|]).
  do 4 (eapply drop_peel; [done|]).
  rewrite <- (app_nil_r (sub_bytes _ _ _)). eapply drop_peel; [done|].
  symmetry. apply drop_ge. lia.
Qed.

Lemma decoded_input_typed data : decode_shape data -> PostPayloadInput_typed (decoded_input data).
Proof.
  intros [Hsize _ _ _ _ Htot]. unfold time_offset, reply_offset, mentions_offset in Htot.
  assert (forall off, (off + 16 <= length data)%nat -> Uuid_wf (read_uuid data off)) as Hu.
  { intros off Hoff. by apply length_sub_bytes. }
  assert (forall off, (off + 8 <= length data)%nat -> is_u64 (read_uint64 data off)) as Hw.
  { apply read_uint64_u64. }
  split; unfold decoded_input, mentions_offset, reply_offset;
    cbn [input_message_id input_sender_id input_sender_sequence input_mentions
         input_reply_to input_sender_time].
  - apply Hu. lia.
  - apply Hu. lia.
  - apply Hw. lia.
  - rewrite Forall_map, Forall_seq. intros i Hi. apply Hu. lia.
  - intros r. destruct (has_reply_flag data) in Htot |- *; intros [= <-]. apply Hu.
    unfold mentions_offset. lia.
  - intros t. destruct (has_time_flag data) in Htot |- *; intros [= <-].
    apply encode_decode_signed, Hw. unfold time_offset, reply_offset, mentions_offset. lia.
Qed.

Lemma decode_post_layout data p :
  decode_post (Some data) = success p <-> PostPayload_wf p /\ data = post_bytes p.
Proof.
  rewrite decode_post_success. split.
  - intros [Hs Hc]. split.
    + by eapply PostPayload_create_wf, Hc; apply decoded_input_typed.
    + symmetry. apply decoded_input_layout; [done|].
      by apply PostPayload_create_success in Hc as [? _].
  - intros [Hwf ->]. split; [by apply post_bytes_shape|].
    rewrite post_bytes_input by done. by apply PostPayload_create_input.
Qed.

Lemma post_bytes_inj p q :
  PostPayload_wf p -> PostPayload_wf q -> post_bytes p = post_bytes q -> p = q.
Proof.
  intros Hp Hq He. assert (decode_post (Some (post_bytes p)) = success p) as H1
    by by apply decode_post_layout.
  assert (decode_post (Some (post_bytes p)) = success q) as H2 by by apply decode_post_layout.
  congruence.
Qed.

(** ** Golden vectors of tests/unit/post_codec_test.cpp *)

Definition golden_bytes : bytes :=
  [x00] ++ golden_uuid.(Uuid_bytes) ++ golden_sender.(Uuid_bytes) ++
  [x00; x00; x00; x00; x00; x00; x00; x01; x01; x01; x00; x41; x42].

Example golden_encoding : encode_post golden_post = success golden_bytes.
Proof. vm_compute. reflexivity. Qed.

Example golden_tag :
  message_tag golden_post.(message_id) = [x00; x11; x22; x33; x44; x55; x46; x77].
Proof. reflexivity. Qed.

#[export] Hint Resolve decoded_input_typed post_bytes_shape : lora.

(** ** Property theorems *)

(** C28: the post codec is canonical in both directions.  For every byte string
    and every post, the decoder yields that post exactly when the post is well
    formed and the encoder yields that byte string: decoding inverts encoding,
    no two byte strings decode to the same post, and whatever the decoder
    accepts satisfies every invariant of [PostPayload::create]. *)
Theorem decode_post_inverts_encode_post data p :
  decode_post (Some data) = success p <->
  PostPayload_wf p /\ encode_post p = success data.
Proof.
  rewrite decode_post_layout. split; intros [Hwf Hdata]; split; try done.
  - by rewrite Hdata, encode_post_layout.
  - rewrite encode_post_layout in Hdata by done. by injection Hdata.
Qed.

(** Every well-formed post is encoded: the encoder never reports an error
    on one, and the encoding is the documented concatenation of fields, between
    46 and 316 bytes long, beginning with the flag byte. *)
Theorem encode_post_total p :
  PostPayload_wf p ->
  exists data, encode_post p = success data /\ data = post_bytes p /\
    (kMinimumEncodedPostBytes <= length data <= kMaximumEncodedPostBytes)%nat.
Proof.
  intros Hwf. exists (post_bytes p). split_and!; [by apply encode_post_layout|done|..];
    rewrite length_post_bytes by done; pose proof (encoded_size_range p Hwf) as [? ?]; done.
Qed.

Lemma encode_post_total_witness :
  PostPayload_wf reply_post /\
  exists data, encode_post reply_post = success data /\ data = post_bytes reply_post /\
    (kMinimumEncodedPostBytes <= length data <= kMaximumEncodedPostBytes)%nat.
Proof. split; [exact reply_post_wf|]. exact (encode_post_total reply_post reply_post_wf). Defined.
