(* ===== verification/FrameCodec.v ===== *)
(** * FrameCodec: the 28-byte frame header and its checksum

    src/protocol/frame_codec.h and frame_codec.cpp.  [encode_frame] fills a
    zeroed buffer field by field and stamps a CRC-32/ISO-HDLC over everything
    but the checksum field; [decode_frame] checks and parses a datagram.
    [frame_bytes] is the layout as one concatenation. *)
From S2P Require Import Prelude Ports Limits PostCodec.

(** ** Definitions *)

Record DataFrame := mkDataFrame {
  tag : MessageTag;
  frame_sequence : Z;
  fragment_index : Z;
  fragment_count : Z;
  total_length : Z;
  payload : bytes
}.

Inductive FrameCodecError :=
| FrameCodecError_None
| FrameCodecError_InvalidMtu
| FrameCodecError_NullData
| FrameCodecError_DatagramTooShort
| FrameCodecError_DatagramTooLarge
| FrameCodecError_BadMagic
| FrameCodecError_UnsupportedVersion
| FrameCodecError_UnsupportedType
| FrameCodecError_LengthMismatch
| FrameCodecError_ChecksumMismatch
| FrameCodecError_InvalidSenderSequence
| FrameCodecError_InvalidTotalLength
| FrameCodecError_InvalidFragment
| FrameCodecError_NonCanonicalFragment.

#[global] Instance DataFrame_eq_decision : EqDecision DataFrame.
Proof. solve_decision. Defined.

#[global] Instance FrameCodecError_eq_decision : EqDecision FrameCodecError.
Proof. solve_decision. Defined.

Definition kControlOffset : nat := 2.
Definition kTagOffset : nat := 3.
Definition kSequenceOffset : nat := 11.
Definition kFragmentIndexOffset : nat := 19.
Definition kFragmentCountOffset : nat := 20.
Definition kTotalLengthOffset : nat := 21.
Definition kPayloadLengthOffset : nat := 23.
Definition kChecksumOffset : nat := 24.

(** The writers return the buffer they wrote into at [offset]. *)
Definition write_uint16 (destination : bytes) (offset : nat) (value : Z) : bytes :=
  <[(offset + 1)%nat := to_u8 (Z.land value 0xff)]>
    (<[offset := to_u8 (Z.land (Z.shiftr value 8) 0xff)]> destination).

Definition write_uint32 (destination : bytes) (offset : nat) (value : Z) : bytes :=
  foldl (fun destination index =>
           let shift := 24 - Z.of_nat index * 8 in
           <[(offset + index)%nat := to_u8 (Z.land (Z.shiftr value shift) 0xff)]> destination)
        destination (seq 0 4).

Definition write_uint64 (destination : bytes) (offset : nat) (value : Z) : bytes :=
  foldl (fun destination index =>
           let shift := 56 - Z.of_nat index * 8 in
           <[(offset + index)%nat := to_u8 (Z.land (Z.shiftr value shift) 0xff)]> destination)
        destination (seq 0 8).

Definition read_uint16 (source : bytes) (offset : nat) : Z :=
  u16 (Z.lor (Z.shiftl (bval (byte_at source offset)) 8)
             (bval (byte_at source (offset + 1)))).

Definition read_uint32 (source : bytes) (offset : nat) : Z :=
  foldl (fun value index =>
           Z.lor (u32 (Z.shiftl value 8)) (bval (byte_at source (offset + index))))
        0 (seq 0 4).

Definition frame_read_uint64 (source : bytes) (offset : nat) : Z :=
  foldl (fun value index =>
           Z.lor (u64 (Z.shiftl value 8)) (bval (byte_at source (offset + index))))
        0 (seq 0 8).

(** One bit of the reflected CRC: [mask = 0U - (crc & 1U)]. *)
Definition crc_bit (crc : Z) : Z :=
  let mask := u32 (0 - Z.land crc 1) in
  Z.lxor (Z.shiftr crc 1) (Z.land 0xedb88320 mask).

Definition crc_byte (crc : Z) (b : byte) : Z :=
  Nat.iter 8 crc_bit (Z.lxor crc (bval b)).

(** [update_crc(crc, data, size)]; [None] is the null pointer, which the code
    reads as no bytes whatever the size. *)
Definition update_crc (crc : Z) (data : option bytes) : Z :=
  match data with
  | None => crc
  | Some data => foldl crc_byte crc data
  end.

Definition crc32_iso_hdlc (first second : option bytes) : Z :=
  let crc := 0xffffffff in
  let crc := update_crc crc first in
  let crc := update_crc crc second in
  Z.lxor crc 0xffffffff.

Definition validate_frame_fields
    (sender_sequence fragment_index fragment_count total_length : Z)
    (payload_size mtu : nat) : FrameCodecError :=
  if sender_sequence =? 0 then FrameCodecError_InvalidSenderSequence
  else if (total_length <? Z.of_nat kMinimumEncodedPostBytes) ||
          (Z.of_nat kMaximumEncodedPostBytes <? total_length)
  then FrameCodecError_InvalidTotalLength
  else if (fragment_count =? 0) ||
          (Z.of_nat kMaximumFragments <? fragment_count) ||
          (fragment_count <=? fragment_index) ||
          (payload_size =? 0)%nat ||
          (kMaximumFramePayloadBytes <? payload_size)%nat
  then FrameCodecError_InvalidFragment
  else
    let capacity := Z.of_nat (frame_payload_capacity mtu) in
    let expected_count := u64 (total_length + capacity - 1) / capacity in
    if (expected_count =? 0) || (Z.of_nat kMaximumFragments <? expected_count) ||
       negb (fragment_count =? expected_count)
    then FrameCodecError_NonCanonicalFragment
    else
      let expected_payload_size :=
        if fragment_index + 1 <? fragment_count then capacity
        else u64 (total_length - capacity * (fragment_count - 1)) in
      if negb (Z.of_nat payload_size =? expected_payload_size)
      then FrameCodecError_NonCanonicalFragment
      else FrameCodecError_None.

Definition encode_frame (frame : DataFrame) (mtu : nat)
  : Result bytes FrameCodecError :=
  if negb (is_supported_mtu mtu) then failure FrameCodecError_InvalidMtu
  else
    let validation :=
      validate_frame_fields frame.(frame_sequence) frame.(fragment_index)
        frame.(fragment_count) frame.(total_length) (length frame.(payload)) mtu in
    if negb (bool_decide (validation = FrameCodecError_None)) then failure validation
    else
      let encoded := replicate (kFrameHeaderBytes + length frame.(payload)) x00 in
      let encoded := <[0%nat := to_u8 kFrameMagicFirst]> encoded in
      let encoded := <[1%nat := to_u8 kFrameMagicSecond]> encoded in
      let encoded :=
        <[kControlOffset := to_u8 (Z.lor (Z.shiftl kProtocolVersion 4) kDataFrameType)]>
          encoded in
      let encoded := splice kTagOffset frame.(tag) encoded in
      let encoded := write_uint64 encoded kSequenceOffset frame.(frame_sequence) in
      let encoded := <[kFragmentIndexOffset := to_u8 frame.(fragment_index)]> encoded in
      let encoded := <[kFragmentCountOffset := to_u8 frame.(fragment_count)]> encoded in
      let encoded := write_uint16 encoded kTotalLengthOffset frame.(total_length) in
      let encoded :=
        <[kPayloadLengthOffset := to_u8 (Z.of_nat (length frame.(payload)))]> encoded in
      let encoded := splice kFrameHeaderBytes frame.(payload) encoded in
      let checksum :=
        crc32_iso_hdlc (Some (sub_bytes 0 kChecksumOffset encoded))
          (Some (sub_bytes kFrameHeaderBytes (length frame.(payload)) encoded)) in
      success (write_uint32 encoded kChecksumOffset checksum).

(** [decode_frame(data, size, mtu)]; [None] is the null pointer. *)
Definition decode_frame (data : option bytes) (mtu : nat)
  : Result DataFrame FrameCodecError :=
  if negb (is_supported_mtu mtu) then failure FrameCodecError_InvalidMtu
  else match data with
  | None => failure FrameCodecError_NullData
  | Some data =>
    let size := length data in
    if (size <? kFrameHeaderBytes + 1)%nat then failure FrameCodecError_DatagramTooShort
    else if (mtu <? size)%nat || (kMaximumTransportMtu <? size)%nat
    then failure FrameCodecError_DatagramTooLarge
    else if negb (bval (byte_at data 0) =? kFrameMagicFirst) ||
            negb (bval (byte_at data 1) =? kFrameMagicSecond)
    then failure FrameCodecError_BadMagic
    else
      let control := bval (byte_at data kControlOffset) in
      if negb (Z.shiftr control 4 =? kProtocolVersion)
      then failure FrameCodecError_UnsupportedVersion
      else if negb (Z.land control 0x0f =? kDataFrameType)
      then failure FrameCodecError_UnsupportedType
      else
        let payload_size := Z.to_nat (bval (byte_at data kPayloadLengthOffset)) in
        if (payload_size =? 0)%nat || negb (size =? kFrameHeaderBytes + payload_size)%nat
        then failure FrameCodecError_LengthMismatch
        else
          let expected_checksum := read_uint32 data kChecksumOffset in
          let actual_checksum :=
            crc32_iso_hdlc (Some (sub_bytes 0 kChecksumOffset data))
              (Some (sub_bytes kFrameHeaderBytes payload_size data)) in
          if negb (expected_checksum =? actual_checksum)
          then failure FrameCodecError_ChecksumMismatch
          else
            let frame := {|
              tag := sub_bytes kTagOffset 8 data;
              frame_sequence := frame_read_uint64 data kSequenceOffset;
              fragment_index := bval (byte_at data kFragmentIndexOffset);
              fragment_count := bval (byte_at data kFragmentCountOffset);
              total_length := read_uint16 data kTotalLengthOffset;
              payload := drop kFrameHeaderBytes data |} in
            let validation :=
              validate_frame_fields frame.(frame_sequence) frame.(fragment_index)
                frame.(fragment_count) frame.(total_length) payload_size mtu in
            if negb (bool_decide (validation = FrameCodecError_None))
            then failure validation
            else success frame
  end.

(** ** Golden vectors of tests/unit/frame_codec_test.cpp *)

Example crc_check_value :
  crc32_iso_hdlc (Some (str "123456789")) None = 0xcbf43926 /\
  crc32_iso_hdlc (Some (str "1234")) (Some (str "56789")) = 0xcbf43926.
Proof. vm_compute. done. Qed.

Definition golden_frame (index : Z) : DataFrame := {|
  tag := [x00; x11; x22; x33; x44; x55; x46; x77];
  frame_sequence := 1;
  fragment_index := index;
  fragment_count := 2;
  total_length := 46;
  payload := if index =? 0 then take 36 golden_bytes else drop 36 golden_bytes |}.

Definition golden_second_bytes : bytes :=
  [x4c; x4d; x10; x00; x11; x22; x33; x44; x55; x46; x77; x00; x00; x00; x00; x00; x00; x00;
   x01; x01; x02; x00; x2e; x0a; x78; xda; x91; x32;
   x00; x00; x00; x00; x01; x01; x01; x00; x41; x42].

Example golden_second_frame :
  encode_frame (golden_frame 1) 64 = success golden_second_bytes.
Proof. vm_compute. reflexivity. Qed.

Example golden_first_frame :
  exists data, encode_frame (golden_frame 0) 64 = success data /\
    sub_bytes 24 4 data = [x9f; x54; x48; x65] /\ length data = 64%nat.
Proof. eexists. split; [vm_compute; reflexivity|]. done. Qed.

(** ** Well-formed frames *)

(** The ranges the field types give. *)
Record DataFrame_typed (f : DataFrame) : Prop := {
  typed_tag : length f.(tag) = 8%nat;
  typed_sequence : is_u64 f.(frame_sequence);
  typed_index : is_u8 f.(fragment_index);
  typed_count : is_u8 f.(fragment_count);
  typed_total : is_u16 f.(total_length)
}.

(** The canonical division of [total] bytes into [count] fragments of
    [capacity] bytes, of which the last may be shorter. *)
Record frame_canonical (capacity sequence index count total size : Z) : Prop := {
  canonical_sequence : sequence <> 0;
  canonical_total : 46 <= total <= 316;
  canonical_index : 0 <= index < count;
  canonical_count : capacity * (count - 1) < total <= capacity * count;
  canonical_size : size = Z.min capacity (total - capacity * index)
}.

Definition capacity_of (mtu : nat) : Z := Z.of_nat mtu - 28.

Lemma ceil_div total capacity count :
  0 < capacity -> 0 < total ->
  (total + capacity - 1) / capacity = count <->
  capacity * (count - 1) < total <= capacity * count.
Proof.
  intros Hc Ht. split.
  - intros <-. pose proof (Z.div_mod (total + capacity - 1) capacity ltac:(lia)).
    pose proof (Z.mod_pos_bound (total + capacity - 1) capacity Hc). lia.
  - intros Hb. symmetry.
    apply (Z.div_unique _ _ _ (total + capacity - 1 - capacity * count)); lia.
Qed.

Lemma canonical_sizes capacity sequence index count total size :
  20 <= capacity ->
  frame_canonical capacity sequence index count total size ->
  1 <= count <= 16 /\ 1 <= size <= capacity /\
  capacity * index + size <= total.
Proof.
  intros Hc [_ Ht Hi Hn Hs].
  assert (count <= 16) by nia.
  assert (capacity * index <= capacity * (count - 1)) by nia. lia.
Qed.

Lemma validate_frame_fields_None sequence index count total size mtu :
  is_supported_mtu mtu = true -> 0 <= index ->
  validate_frame_fields sequence index count total size mtu = FrameCodecError_None <->
  frame_canonical (capacity_of mtu) sequence index count total (Z.of_nat size).
Proof.
  intros Hmtu Hi. pose proof Hmtu as Hr%is_supported_mtu_true.
  unfold validate_frame_fields. rewrite frame_payload_capacity_supported by done.
  replace (Z.of_nat (mtu - 28)) with (capacity_of mtu) by (unfold capacity_of; lia).
  assert (20 <= capacity_of mtu <= 227) as Hc by (unfold capacity_of; lia).
  generalize dependent (capacity_of mtu). intros capacity Hc.
  change (Z.of_nat kMinimumEncodedPostBytes) with 46.
  change (Z.of_nat kMaximumEncodedPostBytes) with 316.
  change (Z.of_nat kMaximumFragments) with 16.
  change kMaximumFramePayloadBytes with 227%nat.
  split.
  - do 5 (split_if; [done|]). intros _. reflect_bools. unfold u64 in *.
    rewrite (Z.mod_small (total + _ - 1)) in * by lia.
    match goal with H : count = _ / _ |- _ => symmetry in H; apply ceil_div in H; [|lia..] end.
    split; [done|lia..|].
    destruct (Z.ltb_spec (index + 1) count) as [Hlt|Hge].
    + assert (capacity * (index + 1) <= capacity * (count - 1)) by nia. lia.
    + assert (index = count - 1) as -> by lia. rewrite Z.mod_small in * by lia. lia.
  - intros Hcan. pose proof (canonical_sizes _ _ _ _ _ _ (proj1 Hc) Hcan) as (Hn & Hp & _).
    destruct Hcan as [Hs Ht Hix Hcount Hsize]. unfold u64.
    rewrite (Z.mod_small (total + _ - 1)) by lia.
    rewrite (proj2 (ceil_div total capacity count ltac:(lia) ltac:(lia)) Hcount).
    rewrite (proj2 (Z.eqb_neq _ _) Hs).
    rewrite (proj2 (Z.ltb_ge total 46)), (proj2 (Z.ltb_ge 316 total)) by lia.
    rewrite (proj2 (Z.eqb_neq count 0)), (proj2 (Z.ltb_ge 16 count)),
      (proj2 (Z.leb_gt count index)), (proj2 (Nat.eqb_neq size 0)),
      (proj2 (Nat.ltb_ge 227 size)), Z.eqb_refl by lia.
    cbn [orb negb]. rewrite (proj2 (Z.eqb_eq _ _)); [done|].
    destruct (Z.ltb_spec (index + 1) count) as [Hlt|Hge].
    + assert (capacity * (index + 1) <= capacity * (count - 1)) by nia. lia.
    + assert (index = count - 1) as -> by lia. rewrite Z.mod_small by lia. lia.
Qed.

(** ** The layout *)

Definition frame_prefix (f : DataFrame) : bytes :=
  [x4c; x4d; x10] ++ f.(tag) ++ be_bytes 8 f.(frame_sequence) ++
  [to_u8 f.(fragment_index); to_u8 f.(fragment_count)] ++
  be_bytes 2 f.(total_length) ++ [to_u8 (Z.of_nat (length f.(payload)))].

Definition frame_bytes (f : DataFrame) : bytes :=
  frame_prefix f ++
  be_bytes 4 (crc32_iso_hdlc (Some (frame_prefix f)) (Some f.(payload))) ++ f.(payload).

Lemma length_frame_prefix f : DataFrame_typed f -> length (frame_prefix f) = 24%nat.
Proof.
  intros [Ht _ _ _ _]. unfold frame_prefix. by rewrite !length_app, !length_be_bytes, Ht.
Qed.

Lemma length_frame_bytes f :
  DataFrame_typed f -> length (frame_bytes f) = (28 + length f.(payload))%nat.
Proof.
  intros Hf. unfold frame_bytes.
  by rewrite !length_app, length_be_bytes, length_frame_prefix.
Qed.

(** The fields of the layout, for any field values of the right length. *)
Lemma frame_fields (a b c i n l : byte) (t q m s pl : bytes) :
  length t = 8%nat -> length q = 8%nat -> length m = 2%nat -> length s = 4%nat ->
  let prefix := [a; b; c] ++ t ++ q ++ [i; n] ++ m ++ [l] in
  let data := prefix ++ s ++ pl in
  (byte_at data 0 = a /\ byte_at data 1 = b /\ byte_at data 2 = c /\
   byte_at data 19 = i /\ byte_at data 20 = n /\ byte_at data 23 = l) /\
  sub_bytes 3 8 data = t /\ sub_bytes 11 8 data = q /\ sub_bytes 21 2 data = m /\
  sub_bytes 0 24 data = prefix /\ sub_bytes 24 4 data = s /\ drop 28 data = pl /\
  length data = (28 + length pl)%nat.
Proof.
  intros Ht Hq Hm Hs.
  do 8 (destruct t as [|? t]; [discriminate Ht|]); destruct t; [|discriminate Ht].
  do 8 (destruct q as [|? q]; [discriminate Hq|]); destruct q; [|discriminate Hq].
  do 2 (destruct m as [|? m]; [discriminate Hm|]); destruct m; [|discriminate Hm].
  do 4 (destruct s as [|? s]; [discriminate Hs|]); destruct s; [|discriminate Hs].
  split_and!; reflexivity.
Qed.

(** ** Words *)

Lemma sub_bytes_bytes_at off n (data : bytes) :
  (off + n <= length data)%nat ->
  sub_bytes off n data = map (fun i => byte_at data (off + i)) (seq 0 n).
Proof.
  revert off. induction n as [|n IH]; intros off Hlen; [done|].
  change (S n) with (1 + n)%nat. rewrite <- sub_bytes_app, sub_bytes_1 by lia.
  cbn [seq map Nat.add app]. rewrite Nat.add_0_r. f_equal.
  rewrite IH, <- seq_shift, map_map by lia. apply map_ext. intros i. f_equal. lia.
Qed.

Lemma foldl_map_fold {A B C} (f : C -> B -> C) (g : A -> B) l c :
  foldl (fun c a => f c (g a)) c l = foldl f c (map g l).
Proof. revert c. induction l; simpl; auto. Qed.

Lemma read_word_be (wrap : Z -> Z) (n : nat) source offset :
  (forall z, 0 <= z < 256 ^ Z.of_nat n -> wrap z = z) ->
  (offset + n <= length source)%nat ->
  foldl (fun value index =>
           Z.lor (wrap (Z.shiftl value 8)) (bval (byte_at source (offset + index))))
        0 (seq 0 n) = be_value (sub_bytes offset n source).
Proof.
  intros Hw Hlen.
  rewrite (foldl_map_fold (fun value b => Z.lor (wrap (Z.shiftl value 8)) (bval b))).
  rewrite <- sub_bytes_bytes_at by done. apply (shift_accumulate wrap _ n Hw).
  by rewrite length_sub_bytes.
Qed.

Lemma read_uint32_be source offset :
  (offset + 4 <= length source)%nat ->
  read_uint32 source offset = be_value (sub_bytes offset 4 source).
Proof. apply read_word_be. intros z Hz. unfold u32. apply Z.mod_small. lia. Qed.

Lemma frame_read_uint64_be source offset :
  (offset + 8 <= length source)%nat ->
  frame_read_uint64 source offset = be_value (sub_bytes offset 8 source).
Proof. apply read_word_be. intros z Hz. unfold u64. apply Z.mod_small. lia. Qed.

Lemma read_uint16_be source offset :
  (offset + 2 <= length source)%nat ->
  read_uint16 source offset = be_value (sub_bytes offset 2 source).
Proof.
  intros Hlen. rewrite sub_bytes_bytes_at by done. unfold read_uint16, be_value.
  cbn [seq map foldl]. rewrite Nat.add_0_r. byte_ranges.
  rewrite shiftl_lor_add by lia. unfold u16. rewrite Z.mod_small; lia.
Qed.

(** ** The encoder builds the layout *)

Lemma write_checksum (prefix pl : bytes) checksum :
  length prefix = 24%nat ->
  write_uint32 (prefix ++ [x00; x00; x00; x00] ++ pl) 24 checksum =
  prefix ++ be_bytes 4 checksum ++ pl.
Proof.
  intros Hp. rewrite (be_bytes_shifts 4).
  do 24 (destruct prefix as [|? prefix]; [discriminate Hp|]).
  destruct prefix; [|discriminate Hp]. reflexivity.
Qed.

Lemma write_prefix (f : DataFrame) (zs : bytes) :
  length f.(tag) = 8%nat ->
  <[kPayloadLengthOffset := to_u8 (Z.of_nat (length f.(payload)))]>
   (write_uint16
     (<[kFragmentCountOffset := to_u8 f.(fragment_count)]>
       (<[kFragmentIndexOffset := to_u8 f.(fragment_index)]>
         (write_uint64
           (splice kTagOffset f.(tag)
             (<[kControlOffset := to_u8 (Z.lor (Z.shiftl kProtocolVersion 4) kDataFrameType)]>
               (<[1%nat := to_u8 kFrameMagicSecond]>
                 (<[0%nat := to_u8 kFrameMagicFirst]> (replicate 28 x00 ++ zs)))))
           kSequenceOffset f.(frame_sequence))))
     kTotalLengthOffset f.(total_length)) =
  frame_prefix f ++ [x00; x00; x00; x00] ++ zs.
Proof.
  intros Ht. unfold frame_prefix. rewrite (be_bytes_shifts 8), (be_bytes_shifts 2).
  destruct f as [t q i n m pl]. cbn [tag frame_sequence fragment_index fragment_count
    total_length payload] in *.
  do 8 (destruct t as [|? t]; [discriminate Ht|]); destruct t; [|discriminate Ht].
  reflexivity.
Qed.

Lemma encode_frame_layout f mtu data :
  DataFrame_typed f ->
  encode_frame f mtu = success data <->
  is_supported_mtu mtu = true /\
  validate_frame_fields f.(frame_sequence) f.(fragment_index) f.(fragment_count)
    f.(total_length) (length f.(payload)) mtu = FrameCodecError_None /\
  data = frame_bytes f.
Proof.
  intros Hf. pose proof (length_frame_prefix f Hf) as Hl. unfold encode_frame.
  destruct (is_supported_mtu mtu); cbn [negb]; [|by split; [|intros []]].
  case_bool_decide as Hv; cbn [negb]; [|split; [done|by intros (_ & ? & _)]].
  change (kFrameHeaderBytes + length (payload f))%nat with (28 + length (payload f))%nat.
  rewrite replicate_add, write_prefix by apply Hf. set (pl := payload f).
  replace (splice kFrameHeaderBytes pl _) with (frame_prefix f ++ [x00; x00; x00; x00] ++ pl).
  - change kChecksumOffset with 24%nat. rewrite write_checksum by done.
    rewrite sub_bytes_here by done.
    rewrite (sub_bytes_at (frame_prefix f ++ [x00; x00; x00; x00]) pl []);
      [|by rewrite app_nil_r, <- app_assoc|by rewrite length_app, Hl|done].
    unfold frame_bytes. fold pl. fold pl in Hv. split.
    + by intros [= <-].
    + by intros (_ & _ & ->).
  - rewrite !(app_assoc (frame_prefix f)).
    set (h := frame_prefix f ++ _).
    assert (kFrameHeaderBytes = length h) as -> by (unfold h; by rewrite length_app, Hl).
    rewrite <- (app_nil_r (replicate _ _)), <- (app_nil_r pl) at 1. symmetry.
    apply splice_app. by rewrite length_replicate.
Qed.

(** ** The decoder accepts exactly the layouts *)

Lemma control_byte b :
  Z.shiftr (bval b) 4 = kProtocolVersion -> Z.land (bval b) 0x0f = kDataFrameType ->
  b = x10.
Proof. by destruct b. Qed.

(** The frame a datagram's fields describe. *)
Definition read_frame (data : bytes) : DataFrame := {|
  tag := sub_bytes kTagOffset 8 data;
  frame_sequence := frame_read_uint64 data kSequenceOffset;
  fragment_index := bval (byte_at data kFragmentIndexOffset);
  fragment_count := bval (byte_at data kFragmentCountOffset);
  total_length := read_uint16 data kTotalLengthOffset;
  payload := drop kFrameHeaderBytes data |}.

Lemma read_frame_typed data : (28 <= length data)%nat -> DataFrame_typed (read_frame data).
Proof.
  intros Hlen. split; cbn [read_frame tag frame_sequence fragment_index fragment_count total_length].
  - apply length_sub_bytes. cbn. lia.
  - rewrite frame_read_uint64_be by (cbn; lia).
    pose proof (be_value_range (sub_bytes kSequenceOffset 8 data)) as Hr.
    rewrite length_sub_bytes in Hr by (cbn; lia). unfold is_u64, UINT64_MAX. lia.
  - apply bval_range.
  - apply bval_range.
  - rewrite read_uint16_be by (cbn; lia).
    pose proof (be_value_range (sub_bytes kTotalLengthOffset 2 data)) as Hr.
    rewrite length_sub_bytes in Hr by (cbn; lia). unfold is_u16, UINT16_MAX. lia.
Qed.

Definition frame_shape (data : bytes) : Prop :=
  byte_at data 0 = x4c /\ byte_at data 1 = x4d /\ byte_at data 2 = x10 /\
  length data = (28 + Z.to_nat (bval (byte_at data 23)))%nat /\ (28 < length data)%nat /\
  read_uint32 data 24 = crc32_iso_hdlc (Some (sub_bytes 0 24 data)) (Some (drop 28 data)).

Lemma decode_frame_success data mtu f :
  decode_frame (Some data) mtu = success f <->
  is_supported_mtu mtu = true /\ (length data <= mtu)%nat /\
  frame_shape data /\ f = read_frame data /\
  validate_frame_fields f.(frame_sequence) f.(fragment_index) f.(fragment_count)
    f.(total_length) (length f.(payload)) mtu = FrameCodecError_None.
Proof.
  unfold decode_frame, frame_shape. fold (read_frame data).
  destruct (is_supported_mtu mtu) eqn:Hmtu; cbn [negb]; [|by split; [|intros []]].
  apply is_supported_mtu_true in Hmtu.
  set (n := Z.to_nat (bval (byte_at data 23))).
  change kChecksumOffset with 24%nat. change kFrameHeaderBytes with 28%nat.
  change kPayloadLengthOffset with 23%nat. fold n. change kControlOffset with 2%nat.
  change kMaximumTransportMtu with 255%nat.
  assert (length data = (28 + n)%nat -> sub_bytes 28 n data = drop 28 data /\
    length (payload (read_frame data)) = n) as Hp.
  { intros Hlen. assert (length (drop 28 data) = n) by (rewrite length_drop; lia).
    split; [|done]. unfold sub_bytes. by apply take_ge, Nat.eq_le_incl. }
  split.
  - do 8 (split_if; [done|]). intros [= <-]. reflect_bools.
    destruct Hp as [Hsub Hpl]; [lia|]. rewrite Hpl. rewrite Hsub in *. split_and!; try done; try lia.
    + by apply bval_inj.
    + by apply bval_inj.
    + by apply control_byte.
  - intros (_ & Hlen & (E0 & E1 & E2 & Hn & Hmin & Hcrc) & -> & Hv).
    destruct Hp as [Hsub Hpl]; [lia|]. rewrite Hpl in Hv. rewrite E0, E1, E2, Hsub, Hcrc.
    rewrite (proj2 (Nat.ltb_ge (length data) _)), (proj2 (Nat.ltb_ge mtu _)),
      (proj2 (Nat.ltb_ge 255 _)), (proj2 (Nat.eqb_neq n 0)), (proj2 (Nat.eqb_eq (length data) _)),
      (Z.eqb_refl (crc32_iso_hdlc _ _)), Hv by lia.
    done.
Qed.

(** ** The checksum sees every single-byte change *)

Lemma lxor_range a b n :
  0 <= n -> 0 <= a < 2 ^ n -> 0 <= b < 2 ^ n -> 0 <= Z.lxor a b < 2 ^ n.
Proof.
  intros Hn Ha Hb. assert (Z.lxor a b = Z.lxor a b mod 2 ^ n) as ->.
  { apply Z.bits_inj'. intros i Hi. destruct (Z.lt_ge_cases i n) as [Hlt|Hge].
    - by rewrite Z.mod_pow2_bits_low by lia.
    - rewrite Z.mod_pow2_bits_high by lia. rewrite Z.lxor_spec.
      rewrite <- (Z.mod_small a (2 ^ n)), <- (Z.mod_small b (2 ^ n)) by lia.
      by rewrite !Z.mod_pow2_bits_high by lia. }
  apply Z.mod_pos_bound. lia.
Qed.

Lemma crc_bit_eq c :
  crc_bit c = Z.lxor (c / 2) (if Z.odd c then 0xedb88320 else 0).
Proof.
  unfold crc_bit. rewrite Z.shiftr_div_pow2 by lia. change (2 ^ 1) with 2.
  change (Z.land c 1) with (Z.land c (Z.ones 1)). rewrite Z.land_ones by lia.
  change (2 ^ 1) with 2. rewrite Zmod_odd. by destruct (Z.odd c).
Qed.

Lemma crc_bit_range c : 0 <= c < 2 ^ 32 -> 0 <= crc_bit c < 2 ^ 32.
Proof.
  intros Hc. rewrite crc_bit_eq. apply lxor_range; [lia| |destruct (Z.odd c); lia].
  zdiv_lia.
Qed.

(** The polynomial has bit 31 set, so the bit shifted out is still visible. *)
Lemma crc_bit_top c : 0 <= c < 2 ^ 32 -> Z.testbit (crc_bit c) 31 = Z.odd c.
Proof.
  intros Hc. rewrite crc_bit_eq, Z.lxor_spec.
  assert (Z.testbit (c / 2) 31 = false) as ->.
  { assert (0 <= c / 2 < 2 ^ 31) by zdiv_lia.
    rewrite <- (Z.mod_small (c / 2) (2 ^ 31)) by lia. by rewrite Z.mod_pow2_bits_high by lia. }
  by destruct (Z.odd c).
Qed.

Lemma crc_bit_inj c c' :
  0 <= c < 2 ^ 32 -> 0 <= c' < 2 ^ 32 -> crc_bit c = crc_bit c' -> c = c'.
Proof.
  intros Hc Hc' Heq. pose proof (crc_bit_top c Hc) as Ho. rewrite Heq, crc_bit_top in Ho by done.
  rewrite !crc_bit_eq, <- Ho in Heq.
  assert (c / 2 = c' / 2) as Hd.
  { apply (f_equal (fun z => Z.lxor z (if Z.odd c' then 0xedb88320 else 0))) in Heq.
    by rewrite !Z.lxor_assoc, !Z.lxor_nilpotent, !Z.lxor_0_r in Heq. }
  rewrite (Z.div_mod c 2), (Z.div_mod c' 2), Hd, !Zmod_odd, Ho by lia. done.
Qed.

Lemma crc_iter_range n c : 0 <= c < 2 ^ 32 -> 0 <= Nat.iter n crc_bit c < 2 ^ 32.
Proof. intros Hc. induction n as [|n IH]; [done|]. by apply crc_bit_range. Qed.

Lemma crc_iter_inj n c c' :
  0 <= c < 2 ^ 32 -> 0 <= c' < 2 ^ 32 ->
  Nat.iter n crc_bit c = Nat.iter n crc_bit c' -> c = c'.
Proof.
  intros Hc Hc'. induction n as [|n IH]; [done|].
  intros Heq. apply IH. by apply crc_bit_inj; [apply crc_iter_range..|].
Qed.

Lemma crc_xor_range c b : 0 <= c < 2 ^ 32 -> 0 <= Z.lxor c (bval b) < 2 ^ 32.
Proof. intros. byte_ranges. apply lxor_range; lia. Qed.

Lemma crc_byte_range c b : 0 <= c < 2 ^ 32 -> 0 <= crc_byte c b < 2 ^ 32.
Proof. intros. by apply crc_iter_range, crc_xor_range. Qed.

Lemma update_crc_range c data : 0 <= c < 2 ^ 32 -> 0 <= update_crc c data < 2 ^ 32.
Proof.
  destruct data as [data|]; [|done]. cbn [update_crc]. revert c.
  induction data as [|b data IH]; intros c Hc; [done|]. by apply IH, crc_byte_range.
Qed.

Lemma lxor_cancel_r a b c : Z.lxor a c = Z.lxor b c -> a = b.
Proof.
  intros H%(f_equal (fun z => Z.lxor z c)).
  by rewrite !Z.lxor_assoc, !Z.lxor_nilpotent, !Z.lxor_0_r in H.
Qed.

Lemma lxor_cancel_l a b c : Z.lxor c a = Z.lxor c b -> a = b.
Proof. rewrite !(Z.lxor_comm c). apply lxor_cancel_r. Qed.

(** Equal bytes keep distinct states distinct; distinct bytes separate a state. *)
Lemma crc_byte_inj c c' b :
  0 <= c < 2 ^ 32 -> 0 <= c' < 2 ^ 32 -> crc_byte c b = crc_byte c' b -> c = c'.
Proof.
  unfold crc_byte. intros Hc Hc' Heq.
  apply (crc_iter_inj 8) in Heq; [|by apply crc_xor_range..].
  by apply lxor_cancel_r in Heq.
Qed.

Lemma foldl_cons_eq {A B} (f : A -> B -> A) a b l : foldl f a (b :: l) = foldl f (f a b) l.
Proof. done. Qed.

Lemma foldl_crc_inj data c c' :
  0 <= c < 2 ^ 32 -> 0 <= c' < 2 ^ 32 ->
  foldl crc_byte c data = foldl crc_byte c' data -> c = c'.
Proof.
  revert c c'. induction data as [|b data IH]; intros c c' Hc Hc' Heq; [done|].
  rewrite !foldl_cons_eq in Heq. apply IH in Heq; [|by apply crc_byte_range..].
  by eapply crc_byte_inj.
Qed.

Lemma crc_byte_separates c b b' :
  0 <= c < 2 ^ 32 -> crc_byte c b = crc_byte c b' -> b = b'.
Proof.
  unfold crc_byte. intros Hc Heq.
  apply (crc_iter_inj 8) in Heq; [|by apply crc_xor_range..].
  by apply lxor_cancel_l, bval_inj in Heq.
Qed.

Lemma foldl_crc_change data c i b :
  0 <= c < 2 ^ 32 -> (i < length data)%nat ->
  foldl crc_byte c (<[i := b]> data) = foldl crc_byte c data -> b = byte_at data i.
Proof.
  intros Hc Hi. apply lookup_lt_is_Some in Hi as [x Hx].
  unfold byte_at. rewrite (nth_lookup_Some _ _ _ _ Hx).
  rewrite <- (take_drop_middle data i x Hx), insert_app_r_alt, !foldl_app
    by (rewrite length_take; lia).
  rewrite length_take_le by (apply lookup_lt_Some in Hx; lia). rewrite Nat.sub_diag.
  pose proof (update_crc_range c (Some (take i data)) Hc) as Hr. cbn [update_crc] in Hr.
  cbn [foldl insert list_insert]. intros Heq.
  apply foldl_crc_inj in Heq; [|by apply crc_byte_range..].
  by eapply crc_byte_separates.
Qed.

Lemma crc32_foldl a b :
  crc32_iso_hdlc (Some a) (Some b) = Z.lxor (foldl crc_byte 0xffffffff (a ++ b)) 0xffffffff.
Proof. unfold crc32_iso_hdlc. cbn [update_crc]. by rewrite foldl_app. Qed.

Lemma crc32_range a b : 0 <= crc32_iso_hdlc a b < 2 ^ 32.
Proof.
  unfold crc32_iso_hdlc. apply lxor_range; [lia| |lia].
  do 2 apply update_crc_range. lia.
Qed.

(** ** Layout and decoder *)

Lemma read_frame_layout f :
  DataFrame_typed f -> (1 <= length f.(payload) <= 227)%nat ->
  frame_shape (frame_bytes f) /\ read_frame (frame_bytes f) = f.
Proof.
  intros [Ht Hq Hi Hn Hm] Hp. unfold frame_shape, frame_bytes.
  set (crc := crc32_iso_hdlc _ _). pose proof (crc32_range (Some (frame_prefix f)) (Some (payload f))) as Hcrc.
  unfold frame_prefix in *. unfold is_u8, is_u16, is_u64, UINT16_MAX, UINT64_MAX in *.
  match goal with |- context [byte_at ?d 0] => set (data := d) end.
  pose proof (frame_fields x4c x4d x10 (to_u8 (fragment_index f)) (to_u8 (fragment_count f))
    (to_u8 (Z.of_nat (length (payload f)))) (tag f) (be_bytes 8 (frame_sequence f))
    (be_bytes 2 (total_length f)) (be_bytes 4 crc) (payload f) Ht
    (length_be_bytes 8 _) (length_be_bytes 2 _) (length_be_bytes 4 _)) as Hd.
  cbn zeta in Hd. fold data in Hd.
  destruct Hd as ((E0 & E1 & E2 & Ei & En & El) & Et & Eq & Em & Ep & Es & Epl & Elen).
  split.
  - rewrite E0, E1, E2, El, Elen, Ep, Epl, bval_to_u8_small, Nat2Z.id by lia.
    rewrite read_uint32_be, Es, be_value_be_bytes by lia.
    split_and!; try done; [lia|]. apply Z.mod_small. unfold crc. lia.
  - unfold read_frame. rewrite frame_read_uint64_be, read_uint16_be by (rewrite Elen; cbn; lia).
    change kTagOffset with 3%nat. change kSequenceOffset with 11%nat.
    change kFragmentIndexOffset with 19%nat. change kFragmentCountOffset with 20%nat.
    change kTotalLengthOffset with 21%nat. change kFrameHeaderBytes with 28%nat.
    rewrite Et, Eq, Em, Ei, En, Epl, !be_value_be_bytes, !bval_to_u8_small by lia.
    rewrite !Z.mod_small by lia. by destruct f.
Qed.

Lemma layout_of_shape data :
  frame_shape data -> frame_bytes (read_frame data) = data.
Proof.
  intros (E0 & E1 & E2 & Hlen & Hmin & Hcrc).
  assert (length (drop 28 data) = Z.to_nat (bval (byte_at data 23))) as Hpl
    by (rewrite length_drop; lia).
  assert (frame_prefix (read_frame data) = sub_bytes 0 24 data) as Hpre.
  { unfold frame_prefix, read_frame.
    cbn [tag frame_sequence fragment_index fragment_count total_length payload].
    rewrite frame_read_uint64_be, read_uint16_be by (cbn; lia).
    change kTagOffset with 3%nat. change kSequenceOffset with 11%nat.
    change kFragmentIndexOffset with 19%nat. change kFragmentCountOffset with 20%nat.
    change kTotalLengthOffset with 21%nat. change kFrameHeaderBytes with 28%nat.
    rewrite !be_bytes_value by (apply length_sub_bytes; lia).
    rewrite Hpl, (length_byte_field data 23), !to_u8_bval by done.
    assert ([x4c; x4d; x10] = sub_bytes 0 3 data) as ->.
    { rewrite sub_bytes_bytes_at by lia. cbn [seq map Nat.add]. by rewrite E0, E1, E2. }
    assert ([byte_at data 19; byte_at data 20] = sub_bytes 19 2 data) as ->.
    { by rewrite sub_bytes_bytes_at by lia. }
    rewrite <- sub_bytes_1 by lia.
    rewrite (sub_bytes_app 21 2 1), (sub_bytes_app 19 2 3), (sub_bytes_app 11 8 5),
      (sub_bytes_app 3 8 13). apply (sub_bytes_app 0 3 21). }
  unfold frame_bytes. rewrite Hpre.
  change (payload (read_frame data)) with (drop 28 data).
  rewrite <- Hcrc, read_uint32_be, be_bytes_value by (lia || (apply length_sub_bytes; lia)).
  transitivity (drop 0 data); [|apply drop_0].
  apply (drop_peel 0 24); [done|]. by apply (drop_peel 24 4).
Qed.

Lemma decode_frame_layout data mtu f :
  decode_frame (Some data) mtu = success f <->
  DataFrame_typed f /\ is_supported_mtu mtu = true /\
  validate_frame_fields f.(frame_sequence) f.(fragment_index) f.(fragment_count)
    f.(total_length) (length f.(payload)) mtu = FrameCodecError_None /\
  data = frame_bytes f.
Proof.
  rewrite decode_frame_success. split.
  - intros (Hm & Hlen & Hs & -> & Hv). split_and!; try done.
    + apply read_frame_typed. destruct Hs as (_ & _ & _ & _ & ? & _). lia.
    + symmetry. by apply layout_of_shape.
  - intros (Hf & Hm & Hv & ->). pose proof Hv as Hv'.
    pose proof Hm as Hr%is_supported_mtu_true.
    apply validate_frame_fields_None in Hv'; [|done|apply Hf].
    apply canonical_sizes in Hv' as (_ & Hsz & _); [|unfold capacity_of; lia].
    unfold capacity_of in Hsz. destruct (read_frame_layout f Hf) as [Hs Hrd]; [lia|].
    rewrite Hrd, length_frame_bytes by done. split_and!; try done. lia.
Qed.

(** ** Corrupted datagrams *)

Lemma frame_shape_parts (pre cs pl : bytes) :
  length pre = 24%nat -> length cs = 4%nat -> frame_shape (pre ++ cs ++ pl) ->
  be_value cs = Z.lxor (foldl crc_byte 0xffffffff (pre ++ pl)) 0xffffffff.
Proof.
  intros Hp Hc (_ & _ & _ & _ & _ & Hcrc).
  rewrite read_uint32_be in Hcrc by (rewrite !length_app; lia).
  rewrite sub_bytes_here, crc32_foldl in Hcrc by done.
  rewrite (sub_bytes_at pre cs pl) in Hcrc by done.
  by rewrite drop_app_ge, Hp, drop_app_ge, Hc, drop_0 in Hcrc by lia.
Qed.

Lemma be_value_inj bs bs' : length bs = length bs' -> be_value bs = be_value bs' -> bs = bs'.
Proof. intros Hl Hv. by rewrite <- (be_bytes_be_value bs), Hv, Hl, be_bytes_be_value. Qed.

Lemma byte_at_app_ge (pre bs : bytes) i :
  (length pre <= i)%nat -> byte_at (pre ++ bs) i = byte_at bs (i - length pre).
Proof. intros. unfold byte_at. by apply app_nth2. Qed.

Lemma byte_at_insert_same (l : bytes) i b :
  (i < length l)%nat -> <[i := b]> l = l -> b = byte_at l i.
Proof. intros Hi Hl. rewrite <- Hl. by rewrite byte_at_insert. Qed.

Lemma frame_shape_change data i b :
  frame_shape data -> (i < length data)%nat -> b <> byte_at data i ->
  ~ frame_shape (<[i := b]> data).
Proof.
  intros Hs Hi Hb Hs'. pose proof Hs as (_ & _ & _ & Hlen & Hmin & _).
  assert (exists pre cs pl, data = pre ++ cs ++ pl /\ length pre = 24%nat /\ length cs = 4%nat)
    as (pre & cs & pl & -> & Hp & Hc).
  { exists (sub_bytes 0 24 data), (sub_bytes 24 4 data), (drop 28 data).
    split_and!; [|by apply length_sub_bytes; lia..].
    symmetry. transitivity (drop 0 data); [|apply drop_0].
    apply (drop_peel 0 24); [done|]. by apply (drop_peel 24 4). }
  pose proof (frame_shape_parts _ _ _ Hp Hc Hs) as Hcrc.
  rewrite !length_app in Hi.
  assert (0 <= 0xffffffff < 2 ^ 32) as Hinit by lia.
  destruct (decide (i < 24)%nat) as [Hpre|]; [|destruct (decide (i < 28)%nat) as [Hcs|]].
  - rewrite insert_app_l in Hs' by lia.
    apply frame_shape_parts in Hs'; [|by rewrite ?length_insert..].
    rewrite Hcrc in Hs'. apply lxor_cancel_r in Hs'. symmetry in Hs'.
    rewrite <- insert_app_l in Hs' by lia.
    apply foldl_crc_change in Hs'; [|done|rewrite length_app; lia].
    apply Hb. rewrite Hs', !byte_at_app_l by lia. done.
  - rewrite insert_app_r_alt, insert_app_l in Hs' by lia.
    apply frame_shape_parts in Hs'; [|by rewrite ?length_insert..].
    rewrite <- Hcrc in Hs'. apply be_value_inj in Hs'; [|by rewrite length_insert].
    apply byte_at_insert_same in Hs'; [|lia].
    apply Hb. by rewrite Hs', byte_at_app_ge, byte_at_app_l by lia.
  - rewrite insert_app_r_alt, insert_app_r_alt in Hs' by lia.
    apply frame_shape_parts in Hs'; [|by rewrite ?length_insert..].
    rewrite Hcrc in Hs'. apply lxor_cancel_r in Hs'. symmetry in Hs'.
    replace (i - length pre - length cs)%nat with (i - 28)%nat in Hs' by lia.
    replace (i - 28)%nat with (i - 4 - length pre)%nat in Hs' by lia.
    rewrite <- insert_app_r_alt in Hs' by lia.
    apply foldl_crc_change in Hs'; [|done|rewrite length_app; lia].
    apply Hb. rewrite Hs', !byte_at_app_ge by lia. f_equal. lia.
Qed.

#[export] Hint Resolve read_frame_typed lxor_range crc32_range : lora.

(** ** Property theorems *)

(** C25: the frame codec is canonical in both directions, at every MTU.  A
    datagram decodes to a frame exactly when the frame's fields are in the
    range of their types and encoding it at that MTU gives that datagram; so
    decoding inverts encoding, and no two datagrams decode to the same frame. *)
Theorem decode_frame_inverts_encode_frame data mtu f :
  decode_frame (Some data) mtu = success f <->
  DataFrame_typed f /\ encode_frame f mtu = success data.
Proof.
  rewrite decode_frame_layout. split.
  - intros (Hf & ? & ? & ?). split; [done|]. by rewrite encode_frame_layout.
  - intros [Hf He]. split; [done|]. by rewrite encode_frame_layout in He.
Qed.

(** The encoder accepts exactly the canonical fragments.  For a frame whose
    fields are in range, encoding at an MTU succeeds exactly when the MTU is
    supported (48 to 255) and the frame is one of the canonical fragments of a
    post: sequence not zero, total length 46 to 316, fragment count the ceiling
    of total over capacity, index below it and payload length what that index
    carries.  The datagram then fits the MTU. *)
Theorem encode_frame_accepts f mtu :
  DataFrame_typed f ->
  ((exists data, encode_frame f mtu = success data /\ (28 < length data <= mtu)%nat) <->
   is_supported_mtu mtu = true /\
   frame_canonical (capacity_of mtu) f.(frame_sequence) f.(fragment_index)
     f.(fragment_count) f.(total_length) (Z.of_nat (length f.(payload)))).
Proof.
  intros Hf. pose proof (proj1 (typed_index _ Hf)) as Hi. split.
  - intros (data & He & _). apply encode_frame_layout in He as (Hm & Hv & _); [|done].
    split; [done|]. by apply validate_frame_fields_None in Hv.
  - intros [Hm Hc]. exists (frame_bytes f). rewrite encode_frame_layout by done.
    rewrite validate_frame_fields_None by done. rewrite length_frame_bytes by done.
    pose proof Hm as Hr%is_supported_mtu_true.
    apply canonical_sizes in Hc as Hs; [|unfold capacity_of; lia].
    unfold capacity_of in Hs. split_and!; try done; lia.
Qed.

Lemma encode_frame_accepts_witness :
  DataFrame_typed (golden_frame 1) /\
  ((exists data, encode_frame (golden_frame 1) 64 = success data /\
      (28 < length data <= 64)%nat) <->
   is_supported_mtu 64 = true /\ frame_canonical (capacity_of 64) 1 1 2 46 10).
Proof.
  assert (DataFrame_typed (golden_frame 1)) as Hf by (by split).
  split; [exact Hf|]. exact (encode_frame_accepts (golden_frame 1) 64 Hf).
Defined.

(** C26: a single corrupted byte is always detected.  Overwriting any one byte
    of an accepted datagram, header, checksum or payload, with a different
    value makes the decoder reject it. *)
Theorem decode_frame_detects_corruption data mtu f i b :
  decode_frame (Some data) mtu = success f ->
  (i < length data)%nat -> b <> byte_at data i ->
  exists e, decode_frame (Some (<[i := b]> data)) mtu = failure e.
Proof.
  intros Hd Hi Hb. destruct (decode_frame (Some (<[i := b]> data)) mtu) as [f'|e] eqn:Hd';
    [|by eauto]. exfalso.
  apply decode_frame_success in Hd as (_ & _ & Hs & _).
  apply decode_frame_success in Hd' as (_ & _ & Hs' & _).
  by destruct (frame_shape_change data i b Hs Hi Hb).
Qed.

Lemma decode_frame_detects_corruption_witness :
  decode_frame (Some golden_second_bytes) 64 = success (golden_frame 1) /\
  exists e, decode_frame (Some (<[30%nat := x01]> golden_second_bytes)) 64 = failure e.
Proof.
  assert (decode_frame (Some golden_second_bytes) 64 = success (golden_frame 1)) as Hd
    by (vm_compute; reflexivity).
  split; [exact Hd|].
  apply (decode_frame_detects_corruption _ 64 _ 30 x01 Hd); [cbn; lia|done].
Defined.
