(* ===== verification/Fragmenter.v ===== *)
(** * Fragmenter: a post as a sequence of frames

    src/protocol/fragmenter.h and fragmenter.cpp.  [fragment_post] encodes a
    post, divides the encoding into payloads of the MTU's capacity and frames
    each of them. *)
From S2P Require Import Prelude Text Ports Uuid Post Limits PostCodec FrameCodec.

(** ** Definitions *)

Inductive FragmentError :=
| FragmentError_None
| FragmentError_InvalidMtu
| FragmentError_PostEncodeFailed
| FragmentError_TooManyFragments
| FragmentError_FrameEncodeFailed.

#[global] Instance FragmentError_eq_decision : EqDecision FragmentError.
Proof. solve_decision. Defined.

(** The frame built for one index; the offset is below the size, since the
    index is below the fragment count. *)
Definition fragment_frame (post : PostPayload) (logical : bytes)
    (capacity fragment_count index : nat) : DataFrame :=
  let offset := (index * capacity)%nat in
  let payload_size := Nat.min capacity (length logical - offset) in
  {| tag := message_tag post.(message_id);
     frame_sequence := post.(sender_sequence);
     fragment_index := u8 (Z.of_nat index);
     fragment_count := u8 (Z.of_nat fragment_count);
     total_length := u16 (Z.of_nat (length logical));
     payload := sub_bytes offset payload_size logical |}.

(** The loop from [index], with the fragments still to build as its measure. *)
Fixpoint fragment_loop (post : PostPayload) (logical : bytes) (mtu capacity
    fragment_count index remaining : nat) (frames : list bytes)
  : Result (list bytes) FragmentError :=
  match remaining with
  | O => success frames
  | S remaining =>
      let! encoded_frame :=
        encode_frame (fragment_frame post logical capacity fragment_count index) mtu
        else failure FragmentError_FrameEncodeFailed in
      fragment_loop post logical mtu capacity fragment_count (index + 1) remaining
        (frames ++ [encoded_frame])
  end.

Definition fragment_post (post : PostPayload) (mtu : nat)
  : Result (list bytes) FragmentError :=
  if negb (is_supported_mtu mtu) then failure FragmentError_InvalidMtu
  else
    let! logical := encode_post post else failure FragmentError_PostEncodeFailed in
    let capacity := frame_payload_capacity mtu in
    let fragment_count := ((length logical + capacity - 1) / capacity)%nat in
    if (fragment_count =? 0)%nat || (kMaximumFragments <? fragment_count)%nat
    then failure FragmentError_TooManyFragments
    else fragment_loop post logical mtu capacity fragment_count 0 fragment_count [].

(** ** The fragments of a post *)

Definition fragment_capacity (mtu : nat) : nat := mtu - 28.

Definition fragments_of (p : PostPayload) (mtu : nat) : nat :=
  ((encoded_size p + fragment_capacity mtu - 1) / fragment_capacity mtu)%nat.

(** The [i]th fragment. *)
Definition fragment (p : PostPayload) (mtu i : nat) : DataFrame :=
  fragment_frame p (post_bytes p) (fragment_capacity mtu) (fragments_of p mtu) i.

Lemma fragments_of_bounds p mtu :
  PostPayload_wf p -> is_supported_mtu mtu = true ->
  (1 <= fragments_of p mtu <= 16)%nat /\
  (fragment_capacity mtu * (fragments_of p mtu - 1) < encoded_size p <=
   fragment_capacity mtu * fragments_of p mtu)%nat.
Proof.
  intros Hwf Hm%is_supported_mtu_true. pose proof (encoded_size_range p Hwf) as Hs.
  unfold fragments_of. assert (20 <= fragment_capacity mtu <= 227)%nat as Hc
    by (unfold fragment_capacity; lia).
  revert Hc Hs. generalize (fragment_capacity mtu) as c, (encoded_size p) as n. intros c n Hc Hn.
  pose proof (Nat.div_mod (n + c - 1) c ltac:(lia)) as Hd.
  pose proof (Nat.mod_upper_bound (n + c - 1) c ltac:(lia)) as Hr.
  set (q := ((n + c - 1) / c)%nat) in *.
  assert (1 <= q)%nat by nia. assert (q <= 16)%nat by nia. nia.
Qed.

Lemma fragment_fields p mtu i :
  PostPayload_wf p -> is_supported_mtu mtu = true -> (i < fragments_of p mtu)%nat ->
  let f := fragment p mtu i in
  f.(tag) = message_tag p.(message_id) /\ f.(frame_sequence) = p.(sender_sequence) /\
  f.(fragment_index) = Z.of_nat i /\ f.(fragment_count) = Z.of_nat (fragments_of p mtu) /\
  f.(total_length) = Z.of_nat (encoded_size p) /\
  f.(payload) = sub_bytes (i * fragment_capacity mtu) (fragment_capacity mtu) (post_bytes p).
Proof.
  intros Hwf Hm Hi. destruct (fragments_of_bounds p mtu Hwf Hm) as [Hn Hb].
  pose proof (encoded_size_range p Hwf) as Hs. pose proof (length_post_bytes p Hwf) as Hl.
  unfold fragment, fragment_frame.
  cbn [tag frame_sequence fragment_index fragment_count total_length payload]. rewrite Hl. unfold u8, u16.
  rewrite !Z.mod_small by lia. split_and!; try done.
  unfold sub_bytes. rewrite <- take_take, (take_ge (drop _ (post_bytes p)) (_ - _)); [done|].
  rewrite length_drop, Hl. lia.
Qed.

Lemma length_fragment_payload p mtu i :
  PostPayload_wf p -> is_supported_mtu mtu = true -> (i < fragments_of p mtu)%nat ->
  length (fragment p mtu i).(payload) =
  Nat.min (fragment_capacity mtu) (encoded_size p - i * fragment_capacity mtu).
Proof.
  intros Hwf Hm Hi. destruct (fragment_fields p mtu i Hwf Hm Hi) as (_ & _ & _ & _ & _ & ->).
  unfold sub_bytes. by rewrite length_take, length_drop, length_post_bytes.
Qed.

Lemma fragment_wf p mtu i :
  PostPayload_wf p -> is_supported_mtu mtu = true -> (i < fragments_of p mtu)%nat ->
  let f := fragment p mtu i in
  DataFrame_typed f /\
  frame_canonical (capacity_of mtu) f.(frame_sequence) f.(fragment_index)
    f.(fragment_count) f.(total_length) (Z.of_nat (length f.(payload))).
Proof.
  intros Hwf Hm Hi. cbn zeta. rewrite length_fragment_payload by done.
  destruct (fragment_fields p mtu i Hwf Hm Hi) as (Et & Es & Ei & En & El & _).
  destruct (fragments_of_bounds p mtu Hwf Hm) as [Hn Hb].
  pose proof (encoded_size_range p Hwf) as Hs. pose proof (wf_sender_sequence p Hwf) as Hseq.
  pose proof Hm as Hr%is_supported_mtu_true.
  assert (fragment_capacity mtu * i <= fragment_capacity mtu * (fragments_of p mtu - 1))%nat
    by (apply Nat.mul_le_mono_l; lia).
  split; split; rewrite ?Et, ?Es, ?Ei, ?En, ?El;
    unfold is_u8, is_u16, is_u64, UINT16_MAX, capacity_of; try lia.
  - destruct (wf_message_id p Hwf) as [Hu _]. unfold Uuid_wf in Hu.
    unfold message_tag. rewrite length_take. lia.
  - replace (Z.of_nat mtu - 28) with (Z.of_nat (fragment_capacity mtu))
      by (unfold fragment_capacity; lia).
    revert Hn Hb. generalize (fragment_capacity mtu) as c, (fragments_of p mtu) as n. nia.
  - replace (Z.of_nat mtu - 28) with (Z.of_nat (fragment_capacity mtu))
      by (unfold fragment_capacity; lia). lia.
Qed.

Lemma encode_fragment p mtu i :
  PostPayload_wf p -> is_supported_mtu mtu = true -> (i < fragments_of p mtu)%nat ->
  encode_frame (fragment p mtu i) mtu = success (frame_bytes (fragment p mtu i)).
Proof.
  intros Hwf Hm Hi. destruct (fragment_wf p mtu i Hwf Hm Hi) as [Ht Hc].
  apply encode_frame_layout; [done|]. split_and!; [done| |done].
  apply validate_frame_fields_None; [done|apply Ht|done].
Qed.

Lemma fragment_loop_success p mtu index remaining frames :
  PostPayload_wf p -> is_supported_mtu mtu = true ->
  (index + remaining <= fragments_of p mtu)%nat ->
  fragment_loop p (post_bytes p) mtu (fragment_capacity mtu) (fragments_of p mtu)
    index remaining frames =
  success (frames ++ map (fun i => frame_bytes (fragment p mtu i)) (seq index remaining)).
Proof.
  intros Hwf Hm. revert index frames. induction remaining as [|k IH]; intros index frames Hle.
  { cbn. by rewrite app_nil_r. }
  cbn [fragment_loop seq map]. fold (fragment p mtu index). rewrite encode_fragment by (done || lia).
  rewrite IH by lia. rewrite <- app_assoc, Nat.add_1_r. done.
Qed.

(** What [fragment_post] returns for a well-formed post. *)
Definition canonical_frames_of (p : PostPayload) (mtu : nat) : list bytes :=
  map (fun i => frame_bytes (fragment p mtu i)) (seq 0 (fragments_of p mtu)).

Lemma fragment_post_success p mtu :
  PostPayload_wf p -> is_supported_mtu mtu = true ->
  fragment_post p mtu = success (canonical_frames_of p mtu).
Proof.
  intros Hwf Hm. destruct (fragments_of_bounds p mtu Hwf Hm) as [Hn _].
  unfold fragment_post. rewrite Hm, encode_post_layout by done. cbn [negb].
  rewrite frame_payload_capacity_supported by done. rewrite length_post_bytes by done.
  fold (fragment_capacity mtu). fold (fragments_of p mtu).
  rewrite (proj2 (Nat.eqb_neq _ _)), (proj2 (Nat.ltb_ge _ _))
    by (unfold kMaximumFragments; lia).
  by apply fragment_loop_success.
Qed.

Lemma concat_slices (data : bytes) c n :
  concat (map (fun i => sub_bytes (i * c) c data) (seq 0 n)) = take (n * c) data.
Proof.
  induction n as [|n IH]; [done|]. rewrite seq_S, map_app, concat_app, IH. cbn.
  rewrite app_nil_r, Nat.add_comm. symmetry.
  pose proof (sub_bytes_app 0 (n * c) c data) as Ha. unfold sub_bytes in *.
  by rewrite drop_0, Nat.add_0_l in Ha.
Qed.

Lemma fragment_payloads p mtu :
  PostPayload_wf p -> is_supported_mtu mtu = true ->
  concat (map (fun i => (fragment p mtu i).(payload)) (seq 0 (fragments_of p mtu))) =
  post_bytes p.
Proof.
  intros Hwf Hm. destruct (fragments_of_bounds p mtu Hwf Hm) as [_ Hb].
  transitivity (concat (map (fun i =>
    sub_bytes (i * fragment_capacity mtu) (fragment_capacity mtu) (post_bytes p))
    (seq 0 (fragments_of p mtu)))).
  - f_equal. apply map_ext_in. intros i [_ Hi]%in_seq. by apply fragment_fields.
  - rewrite concat_slices. apply take_ge. rewrite length_post_bytes by done. lia.
Qed.

Lemma decode_fragment p mtu i :
  PostPayload_wf p -> is_supported_mtu mtu = true -> (i < fragments_of p mtu)%nat ->
  decode_frame (Some (frame_bytes (fragment p mtu i))) mtu = success (fragment p mtu i).
Proof.
  intros Hwf Hm Hi. destruct (fragment_wf p mtu i Hwf Hm Hi) as [Ht Hc].
  apply decode_frame_layout. split_and!; [done..| |done].
  apply validate_frame_fields_None; [done|apply Ht|done].
Qed.

#[export] Hint Resolve encode_fragment decode_fragment fragment_post_success : lora.

(** ** Property theorems *)

(** Fragmenting never fails on a well-formed post at a supported MTU, and
    loses nothing.  The result is at most 16 datagrams, none longer than the
    MTU; the [i]th decodes, at that MTU, to the frame of index [i] carrying the
    post's tag and sequence number; and the payloads, concatenated in order,
    are the encoding of the post. *)
Theorem fragment_post_complete p mtu logical :
  PostPayload_wf p -> is_supported_mtu mtu = true -> encode_post p = success logical ->
  exists frames fs, fragment_post p mtu = success frames /\
    (1 <= length frames <= kMaximumFragments)%nat /\
    Forall (fun d => length d <= mtu)%nat frames /\
    map (fun d => decode_frame (Some d) mtu) frames = map success fs /\
    (forall i f, fs !! i = Some f ->
       f.(tag) = message_tag p.(message_id) /\ f.(frame_sequence) = p.(sender_sequence) /\
       f.(fragment_index) = Z.of_nat i /\ f.(fragment_count) = Z.of_nat (length frames) /\
       f.(total_length) = Z.of_nat (length logical)) /\
    concat (map payload fs) = logical.
Proof.
  intros Hwf Hm He. rewrite encode_post_layout in He by done. injection He as <-.
  destruct (fragments_of_bounds p mtu Hwf Hm) as [Hn Hb].
  exists (canonical_frames_of p mtu), (map (fragment p mtu) (seq 0 (fragments_of p mtu))).
  assert (length (canonical_frames_of p mtu) = fragments_of p mtu) as Hlen
    by (unfold canonical_frames_of; by rewrite length_map, length_seq).
  rewrite Hlen, length_post_bytes by done. split_and!; [by apply fragment_post_success|lia|
    unfold kMaximumFragments; lia| | | |].
  - apply Forall_map, Forall_seq. intros i Hi.
    destruct (fragment_wf p mtu i Hwf Hm) as [Ht Hc]; [lia|].
    rewrite length_frame_bytes by done. apply is_supported_mtu_true in Hm.
    apply canonical_sizes in Hc; unfold capacity_of in *; lia.
  - unfold canonical_frames_of. rewrite !map_map. apply map_ext_in. intros i [_ Hi]%in_seq.
    by apply decode_fragment.
  - intros i f Hf. apply list_lookup_fmap_Some in Hf as (j & -> & Hj).
    apply lookup_seq in Hj as [-> Hj]. rewrite Nat.add_0_l.
    by destruct (fragment_fields p mtu i Hwf Hm Hj) as (? & ? & ? & ? & ? & _).
  - rewrite map_map. by apply fragment_payloads.
Qed.

Lemma fragment_post_complete_witness :
  encode_post golden_post = success golden_bytes /\
  exists frames fs, fragment_post golden_post 64 = success frames /\
    (1 <= length frames <= kMaximumFragments)%nat /\
    Forall (fun d => length d <= 64)%nat frames /\
    map (fun d => decode_frame (Some d) 64) frames = map success fs /\
    (forall i f, fs !! i = Some f ->
       f.(tag) = message_tag golden_post.(message_id) /\
       f.(frame_sequence) = golden_post.(sender_sequence) /\
       f.(fragment_index) = Z.of_nat i /\ f.(fragment_count) = Z.of_nat (length frames) /\
       f.(total_length) = Z.of_nat (length golden_bytes)) /\
    concat (map payload fs) = golden_bytes.
Proof.
  assert (encode_post golden_post = success golden_bytes) as He by (vm_compute; reflexivity).
  split; [exact He|].
  exact (fragment_post_complete golden_post 64 golden_bytes golden_post_wf eq_refl He).
Defined.
