(* ===== verification/Reassembler.v ===== *)
(** * Reassembler: fragments back to posts

    src/protocol/reassembler.h and reassembler.cpp (lines 1-284).  Eight slots
    collect the fragments of eight (tag, sequence) keys; a bitmap records which
    have arrived, a conflicting fragment quarantines its key, and a slot or a
    quarantined key disappears at its deadline.  [Reassembler_accept] returns
    [None] where the code would read or write outside its fixed arrays; the
    theory shows that this never happens. *)
From S2P Require Import Prelude Text Ports Uuid Post Limits PostCodec FrameCodec Fragmenter.

(** ** Definitions *)

Definition kMaximumInboundFrames : nat := 64.
Definition kMaximumReassemblies : nat := 8.
Definition kMaximumRecentFrames : nat := 128.
Definition kMaximumQuarantinedKeys : nat := 32.
Definition kReassemblyTimeoutTicks : Z := 60000.

Inductive ReassemblyStatus :=
| ReassemblyStatus_FragmentAccepted
| ReassemblyStatus_DuplicateFragment
| ReassemblyStatus_Complete
| ReassemblyStatus_CapacityExceeded
| ReassemblyStatus_Conflict
| ReassemblyStatus_Quarantined
| ReassemblyStatus_InvalidPost.

#[global] Instance ReassemblyStatus_eq_decision : EqDecision ReassemblyStatus.
Proof. solve_decision. Defined.

Record CompletedPost := mkCompletedPost {
  completed_post : PostPayload;
  canonical_post : bytes;
  canonical_frames : list bytes
}.

Record ReassemblyResult := mkReassemblyResult {
  reassembly_status : ReassemblyStatus;
  reassembly_completed : option CompletedPost
}.

Record Slot := mkSlot {
  slot_used : bool;
  slot_tag : MessageTag;
  slot_sequence : Z;
  slot_total_length : Z;
  slot_fragment_count : Z;
  slot_received_bitmap : Z;
  slot_deadline : Z;
  slot_bytes : bytes;
  slot_fragment_lengths : list Z
}.

(** [Slot{}]. *)
Definition empty_slot : Slot := {|
  slot_used := false;
  slot_tag := replicate 8 x00;
  slot_sequence := 0;
  slot_total_length := 0;
  slot_fragment_count := 0;
  slot_received_bitmap := 0;
  slot_deadline := 0;
  slot_bytes := replicate kMaximumEncodedPostBytes x00;
  slot_fragment_lengths := replicate kMaximumFragments 0
|}.

Record QuarantinedKey := mkQuarantinedKey {
  quarantined_tag : MessageTag;
  quarantined_sequence : Z;
  quarantined_deadline : Z
}.

Record Reassembler := mkReassembler {
  mtu_ : nat;
  fragment_capacity_ : nat;
  slots_ : list Slot;
  quarantine_ : list QuarantinedKey;
  high_water_count_ : nat
}.

Definition saturating_deadline (start duration : Z) : Z :=
  if UINT64_MAX - duration <? start then UINT64_MAX else start + duration.

Definition deadline_reached (now deadline : Z) : bool := deadline <=? now.

Definition same_key (left_tag : MessageTag) (left_sequence : Z)
    (right_tag : MessageTag) (right_sequence : Z) : bool :=
  bool_decide (left_tag = right_tag) && (left_sequence =? right_sequence).

Definition Reassembler_make (mtu : nat) : Reassembler := {|
  mtu_ := mtu;
  fragment_capacity_ := if (kFrameHeaderBytes <=? mtu)%nat then mtu - kFrameHeaderBytes else 0;
  slots_ := replicate kMaximumReassemblies empty_slot;
  quarantine_ := [];
  high_water_count_ := 0
|}.

Definition set_slots (r : Reassembler) (slots : list Slot) : Reassembler := {|
  mtu_ := r.(mtu_); fragment_capacity_ := r.(fragment_capacity_); slots_ := slots;
  quarantine_ := r.(quarantine_); high_water_count_ := r.(high_water_count_) |}.

Definition set_quarantine (r : Reassembler) (q : list QuarantinedKey) : Reassembler := {|
  mtu_ := r.(mtu_); fragment_capacity_ := r.(fragment_capacity_); slots_ := r.(slots_);
  quarantine_ := q; high_water_count_ := r.(high_water_count_) |}.

Definition quarantined_as (tag : MessageTag) (sequence : Z) (key : QuarantinedKey) : bool :=
  same_key key.(quarantined_tag) key.(quarantined_sequence) tag sequence.

Definition quarantine (r : Reassembler) (tag : MessageTag) (sender_sequence deadline : Z)
  : Reassembler :=
  if existsb (quarantined_as tag sender_sequence) r.(quarantine_) then r
  else
    let kept :=
      if (kMaximumQuarantinedKeys <=? length r.(quarantine_))%nat
      then tail r.(quarantine_) else r.(quarantine_) in
    set_quarantine r (kept ++ [mkQuarantinedKey tag sender_sequence deadline]).

Definition live_keys (now : Z) (keys : list QuarantinedKey) : list QuarantinedKey :=
  List.filter (fun key => negb (deadline_reached now key.(quarantined_deadline))) keys.

Definition is_quarantined (r : Reassembler) (tag : MessageTag) (sender_sequence now : Z)
  : bool * Reassembler :=
  let r := set_quarantine r (live_keys now r.(quarantine_)) in
  (existsb (quarantined_as tag sender_sequence) r.(quarantine_), r).

Definition slot_expired (now : Z) (slot : Slot) : bool :=
  slot.(slot_used) && deadline_reached now slot.(slot_deadline).

(** [expire]: the number of slots freed, and the state after. *)
Definition Reassembler_expire (r : Reassembler) (now : Z) : nat * Reassembler :=
  (count_if (slot_expired now) r.(slots_),
   set_quarantine
     (set_slots r (map (fun slot => if slot_expired now slot then empty_slot else slot)
                       r.(slots_)))
     (live_keys now r.(quarantine_))).

Definition active_count (r : Reassembler) : nat := count_if slot_used r.(slots_).

Definition no_post (status : ReassemblyStatus) : ReassemblyResult :=
  mkReassemblyResult status None.

(** Free a slot and quarantine its key until the slot's deadline. *)
Definition drop_slot (r : Reassembler) (i : nat) (tag : MessageTag) (sequence deadline : Z)
  : Reassembler :=
  quarantine (set_slots r (<[i := empty_slot]> r.(slots_))) tag sequence deadline.

(** The range checks of [accept], through line 135. *)
Definition accept_valid (r : Reassembler) (frame : DataFrame) : bool :=
  if negb (is_supported_mtu r.(mtu_)) || (frame.(frame_sequence) =? 0) ||
     (frame.(fragment_count) =? 0) ||
     (Z.of_nat kMaximumFragments <? frame.(fragment_count)) ||
     (frame.(fragment_count) <=? frame.(fragment_index)) ||
     (frame.(total_length) <? Z.of_nat kMinimumEncodedPostBytes) ||
     (Z.of_nat kMaximumEncodedPostBytes <? frame.(total_length)) ||
     (r.(fragment_capacity_) =? 0)%nat
  then false
  else
    let capacity := Z.of_nat r.(fragment_capacity_) in
    let expected_count := u64 (frame.(total_length) + capacity - 1) / capacity in
    let expected_payload :=
      if frame.(fragment_index) + 1 <? frame.(fragment_count) then capacity
      else u64 (frame.(total_length) - capacity * (frame.(fragment_count) - 1)) in
    (expected_count =? frame.(fragment_count)) &&
    (Z.of_nat (length frame.(payload)) =? expected_payload).

(** A free slot taken for a frame's key. *)
Definition claim_slot (slot : Slot) (frame : DataFrame) (received_tick : Z) : Slot := {|
  slot_used := true;
  slot_tag := frame.(tag);
  slot_sequence := frame.(frame_sequence);
  slot_total_length := frame.(total_length);
  slot_fragment_count := frame.(fragment_count);
  slot_received_bitmap := slot.(slot_received_bitmap);
  slot_deadline := saturating_deadline received_tick kReassemblyTimeoutTicks;
  slot_bytes := slot.(slot_bytes);
  slot_fragment_lengths := slot.(slot_fragment_lengths)
|}.

(** Lines 196-202, where the copy is inside the arrays. *)
Definition store_fragment (slot : Slot) (frame : DataFrame) (offset : nat) (bit : Z)
  : option Slot :=
  let index := Z.to_nat frame.(fragment_index) in
  if (offset + length frame.(payload) <=? length slot.(slot_bytes))%nat &&
     (index <? length slot.(slot_fragment_lengths))%nat
  then Some {|
    slot_used := slot.(slot_used);
    slot_tag := slot.(slot_tag);
    slot_sequence := slot.(slot_sequence);
    slot_total_length := slot.(slot_total_length);
    slot_fragment_count := slot.(slot_fragment_count);
    slot_received_bitmap := u16 (Z.lor slot.(slot_received_bitmap) bit);
    slot_deadline := slot.(slot_deadline);
    slot_bytes := splice offset frame.(payload) slot.(slot_bytes);
    slot_fragment_lengths :=
      <[index := u16 (Z.of_nat (length frame.(payload)))]> slot.(slot_fragment_lengths) |}
  else None.

(** Lines 179-185: the stored fragment and the new one are the same bytes. *)
Definition identical_fragment (slot : Slot) (frame : DataFrame) (offset : nat)
  : option bool :=
  stored ← slot.(slot_fragment_lengths) !! Z.to_nat frame.(fragment_index);
  if stored =? Z.of_nat (length frame.(payload)) then
    if (offset + length frame.(payload) <=? length slot.(slot_bytes))%nat
    then Some (bool_decide
           (sub_bytes offset (length frame.(payload)) slot.(slot_bytes) = frame.(payload)))
    else None
  else Some false.

Definition complete_mask (fragment_count : Z) : Z :=
  if fragment_count =? Z.of_nat kMaximumFragments then UINT16_MAX
  else u16 (u32 (Z.shiftl 1 fragment_count) - 1).

(** The frame rebuilt from a slot for one index. *)
Definition canonical_frame (r : Reassembler) (slot : Slot) (index : nat) : option DataFrame :=
  let fragment_offset := (index * r.(fragment_capacity_))%nat in
  fragment_length ← slot.(slot_fragment_lengths) !! index;
  if (fragment_offset + Z.to_nat fragment_length <=? length slot.(slot_bytes))%nat
  then Some {|
    tag := slot.(slot_tag);
    frame_sequence := slot.(slot_sequence);
    fragment_index := u8 (Z.of_nat index);
    fragment_count := slot.(slot_fragment_count);
    total_length := slot.(slot_total_length);
    payload := sub_bytes fragment_offset (Z.to_nat fragment_length) slot.(slot_bytes) |}
  else None.

(** The loop of lines 229-260; the inner [None] is an encoding error. *)
Fixpoint canonical_loop (r : Reassembler) (slot : Slot) (index remaining : nat)
    (frames : list bytes) : option (option (list bytes)) :=
  match remaining with
  | O => Some (Some frames)
  | S remaining =>
      frame ← canonical_frame r slot index;
      match encode_frame frame r.(mtu_) with
      | failure _ => Some None
      | success encoded =>
          canonical_loop r slot (index + 1) remaining (frames ++ [encoded])
      end
  end.

(** Lines 213-266: the slot at [i], stored in [r], has every fragment. *)
Definition complete_slot (r : Reassembler) (i : nat) (slot : Slot)
  : option (ReassemblyResult * Reassembler) :=
  let total := Z.to_nat slot.(slot_total_length) in
  if negb (total <=? length slot.(slot_bytes))%nat then None
  else
    let canonical := sub_bytes 0 total slot.(slot_bytes) in
    let invalid :=
      (no_post ReassemblyStatus_InvalidPost,
       drop_slot r i slot.(slot_tag) slot.(slot_sequence) slot.(slot_deadline)) in
    match decode_post (Some canonical) with
    | failure _ => Some invalid
    | success decoded =>
        if negb (bool_decide (message_tag decoded.(message_id) = slot.(slot_tag))) ||
           negb (decoded.(sender_sequence) =? slot.(slot_sequence))
        then Some invalid
        else
          frames ← canonical_loop r slot 0 (Z.to_nat slot.(slot_fragment_count)) [];
          match frames with
          | None => Some invalid
          | Some frames =>
              Some (mkReassemblyResult ReassemblyStatus_Complete
                      (Some (mkCompletedPost decoded canonical frames)),
                    set_slots r (<[i := empty_slot]> r.(slots_)))
          end
    end.

(** Lines 173-266, on the slot at [i] that holds the frame's key. *)
Definition accept_into (r : Reassembler) (i : nat) (slot : Slot) (frame : DataFrame)
  : option (ReassemblyResult * Reassembler) :=
  let offset := (Z.to_nat frame.(fragment_index) * r.(fragment_capacity_))%nat in
  let bit := u16 (Z.shiftl 1 frame.(fragment_index)) in
  if negb (Z.land slot.(slot_received_bitmap) bit =? 0) then
    identical ← identical_fragment slot frame offset;
    if (identical : bool) then Some (no_post ReassemblyStatus_DuplicateFragment, r)
    else Some (no_post ReassemblyStatus_Conflict,
               drop_slot r i frame.(tag) frame.(frame_sequence) slot.(slot_deadline))
  else
    slot ← store_fragment slot frame offset bit;
    let r := set_slots r (<[i := slot]> r.(slots_)) in
    if negb (slot.(slot_received_bitmap) =? complete_mask frame.(fragment_count))
    then Some (no_post ReassemblyStatus_FragmentAccepted, r)
    else complete_slot r i slot.

Definition holds_key (frame : DataFrame) (slot : Slot) : bool :=
  slot.(slot_used) &&
  same_key slot.(slot_tag) slot.(slot_sequence) frame.(tag) frame.(frame_sequence).

(** Lines 155-164: claim the free slot at [i]. *)
Definition claim (r : Reassembler) (i : nat) (slot : Slot) : Reassembler :=
  let r := set_slots r (<[i := slot]> r.(slots_)) in
  {| mtu_ := r.(mtu_); fragment_capacity_ := r.(fragment_capacity_); slots_ := r.(slots_);
     quarantine_ := r.(quarantine_);
     high_water_count_ := Nat.max r.(high_water_count_) (active_count r) |}.

Definition Reassembler_accept (r : Reassembler) (frame : DataFrame) (received_tick : Z)
  : option (ReassemblyResult * Reassembler) :=
  let r := (Reassembler_expire r received_tick).2 in
  if negb (accept_valid r frame)
  then Some (no_post ReassemblyStatus_InvalidPost, r)
  else
    let '(quarantined, r) :=
      is_quarantined r frame.(tag) frame.(frame_sequence) received_tick in
    if quarantined then Some (no_post ReassemblyStatus_Quarantined, r)
    else
      match find_index (holds_key frame) r.(slots_) with
      | Some i =>
          slot ← r.(slots_) !! i;
          if negb (slot.(slot_total_length) =? frame.(total_length)) ||
             negb (slot.(slot_fragment_count) =? frame.(fragment_count))
          then Some (no_post ReassemblyStatus_Conflict,
                     drop_slot r i frame.(tag) frame.(frame_sequence) slot.(slot_deadline))
          else accept_into r i slot frame
      | None =>
          match find_index (fun slot => negb slot.(slot_used)) r.(slots_) with
          | None => Some (no_post ReassemblyStatus_CapacityExceeded, r)
          | Some i =>
              free ← r.(slots_) !! i;
              let slot := claim_slot free frame received_tick in
              accept_into (claim r i slot) i slot frame
          end
      end.

Definition Reassembler_clear (r : Reassembler) : Reassembler :=
  set_quarantine (set_slots r (map (fun _ => empty_slot) r.(slots_))) [].

(** ** Bitmaps *)

Lemma fragment_bit i : 0 <= i < 16 -> u16 (Z.shiftl 1 i) = 2 ^ i.
Proof.
  intros Hi. rewrite Z.shiftl_mul_pow2, Z.mul_1_l by lia. unfold u16. apply Z.mod_small.
  change 65536 with (2 ^ 16). split; [lia|]. apply Z.pow_lt_mono_r; lia.
Qed.

Lemma land_pow2 a n : 0 <= n -> Z.land a (2 ^ n) = if Z.testbit a n then 2 ^ n else 0.
Proof.
  intros Hn. apply Z.bits_inj'. intros k Hk. rewrite Z.land_spec, Z.pow2_bits_eqb by lia.
  destruct (Z.eqb_spec n k) as [->|Hne].
  - destruct (Z.testbit a k); [by rewrite Z.pow2_bits_true|by rewrite Z.bits_0].
  - rewrite andb_false_r. destruct (Z.testbit a n); [by rewrite Z.pow2_bits_false|by rewrite Z.bits_0].
Qed.

Lemma complete_mask_ones n : 1 <= n <= 16 -> complete_mask n = Z.ones n.
Proof.
  intros Hn. unfold complete_mask. change (Z.of_nat kMaximumFragments) with 16.
  destruct (Z.eqb_spec n 16) as [->|Hne]; [done|].
  assert (2 ^ n <= 2 ^ 15) by (apply Z.pow_le_mono_r; lia).
  pose proof (Z.pow_pos_nonneg 2 n ltac:(lia) ltac:(lia)) as Hp.
  rewrite Z.ones_equiv, Z.shiftl_mul_pow2, Z.mul_1_l by lia. unfold u16, u32.
  change (2 ^ 15) with 32768 in *. rewrite (Z.mod_small (2 ^ n)) by lia.
  rewrite Z.mod_small; lia.
Qed.

Lemma testbit_lor_pow2 a n k :
  0 <= n -> Z.testbit (Z.lor a (2 ^ n)) k = Z.testbit a k || (n =? k).
Proof. intros. by rewrite Z.lor_spec, Z.pow2_bits_eqb. Qed.

Lemma testbit_above a n k : 0 <= a < 2 ^ n -> n <= k -> 0 <= n -> Z.testbit a k = false.
Proof.
  intros Ha Hk Hn. rewrite <- (Z.mod_small a (2 ^ n)) by lia.
  by apply Z.mod_pow2_bits_high.
Qed.

Lemma lor_pow2_range a n k : 0 <= a < 2 ^ n -> 0 <= k < n -> 0 <= Z.lor a (2 ^ k) < 2 ^ n.
Proof.
  intros Ha Hk. pose proof (Z.pow_lt_mono_r 2 k n ltac:(lia) ltac:(lia) ltac:(lia)).
  assert (Z.lor a (2 ^ k) = Z.lor a (2 ^ k) mod 2 ^ n) as ->; [|apply Z.mod_pos_bound; lia].
  apply Z.bits_inj'. intros i Hi. destruct (Z.lt_ge_cases i n).
  - by rewrite Z.mod_pow2_bits_low by lia.
  - rewrite Z.mod_pow2_bits_high, testbit_lor_pow2 by lia.
    rewrite (testbit_above a n i) by lia. apply Z.eqb_neq. lia.
Qed.

(** A bitmap below [2^n] is full exactly when every bit below [n] is set. *)
Lemma full_bitmap a n :
  0 <= a < 2 ^ n -> 0 <= n ->
  a = Z.ones n <-> (forall k, 0 <= k < n -> Z.testbit a k = true).
Proof.
  intros Ha Hn. split.
  - intros -> k Hk. by apply Z.ones_spec_low.
  - intros Hall. apply Z.bits_inj'. intros k Hk. destruct (Z.lt_ge_cases k n).
    + rewrite Hall, Z.ones_spec_low by lia. done.
    + rewrite (testbit_above a n k), Z.ones_spec_high by lia. done.
Qed.

(** ** Slices under [std::copy] *)

Lemma sub_bytes_splice_eq off (src dst : bytes) :
  (off + length src <= length dst)%nat -> sub_bytes off (length src) (splice off src dst) = src.
Proof.
  intros Hl. unfold splice. apply (sub_bytes_at (take off dst) src (drop (off + length src) dst));
    [done|rewrite length_take; lia|done].
Qed.

Lemma sub_bytes_splice_ne off (src dst : bytes) k n :
  (off + length src <= length dst)%nat ->
  (k + n <= off \/ off + length src <= k)%nat ->
  sub_bytes k n (splice off src dst) = sub_bytes k n dst.
Proof.
  intros Hl Hd. apply list_eq. intros i. unfold sub_bytes, splice.
  destruct (decide (i < n)%nat) as [Hi|]; [|by rewrite !lookup_take_ge by lia].
  rewrite !lookup_take_lt, !lookup_drop by lia.
  destruct Hd as [Hd|Hd].
  - rewrite lookup_app_l by (rewrite length_take; lia). apply lookup_take_lt. lia.
  - rewrite lookup_app_r by (rewrite length_take; lia).
    rewrite lookup_app_r by (rewrite length_take; lia).
    rewrite lookup_drop. f_equal. rewrite length_take. lia.
Qed.

(** ** Invariant *)

Abbreviation message_key := (MessageTag * Z)%type (only parsing).

Definition slot_key (s : Slot) : message_key := (s.(slot_tag), s.(slot_sequence)).
Definition frame_key (f : DataFrame) : message_key := (f.(tag), f.(frame_sequence)).
Definition quarantined_key (k : QuarantinedKey) : message_key :=
  (k.(quarantined_tag), k.(quarantined_sequence)).

(** The payload length of a fragment. *)
Definition fragment_length (capacity total index : Z) : Z :=
  Z.min capacity (total - capacity * index).

(** A slot in use holds a division of a post of admissible length, its bitmap
    stays inside the fragment count, and every fragment it has recorded has
    the canonical length. *)
Record slot_holds (capacity : Z) (s : Slot) : Prop := {
  holds_bytes : length s.(slot_bytes) = 316%nat;
  holds_lengths : length s.(slot_fragment_lengths) = 16%nat;
  holds_tag : length s.(slot_tag) = 8%nat;
  holds_sequence : 1 <= s.(slot_sequence) <= UINT64_MAX;
  holds_total : 46 <= s.(slot_total_length) <= 316;
  holds_count : capacity * (s.(slot_fragment_count) - 1) < s.(slot_total_length) <=
                capacity * s.(slot_fragment_count);
  holds_bitmap : 0 <= s.(slot_received_bitmap) < 2 ^ s.(slot_fragment_count);
  holds_recorded : forall i, 0 <= i < s.(slot_fragment_count) ->
    Z.testbit s.(slot_received_bitmap) i = true ->
    s.(slot_fragment_lengths) !! Z.to_nat i =
      Some (fragment_length capacity s.(slot_total_length) i)
}.

(** A stored slot is free and empty, or in use and incomplete. *)
Definition slot_wf (capacity : Z) (s : Slot) : Prop :=
  (s.(slot_used) = false /\ s = empty_slot) \/
  (s.(slot_used) = true /\ slot_holds capacity s /\
   s.(slot_received_bitmap) <> Z.ones s.(slot_fragment_count)).

Definition distinct_keys (slots : list Slot) : Prop :=
  forall i j s t, slots !! i = Some s -> slots !! j = Some t ->
    s.(slot_used) = true -> t.(slot_used) = true -> slot_key s = slot_key t -> i = j.

Record Reassembler_inv (r : Reassembler) : Prop := {
  inv_capacity : r.(fragment_capacity_) = (r.(mtu_) - 28)%nat;
  inv_slots : length r.(slots_) = 8%nat;
  inv_slot_wf : Forall (slot_wf (capacity_of r.(mtu_))) r.(slots_);
  inv_supported : forall s, s ∈ r.(slots_) -> s.(slot_used) = true ->
    is_supported_mtu r.(mtu_) = true;
  inv_distinct : distinct_keys r.(slots_);
  inv_quarantine : (length r.(quarantine_) <= 32)%nat;
  inv_quarantine_distinct : NoDup (map quarantined_key r.(quarantine_));
  inv_high_water : (active_count r <= r.(high_water_count_) <= 8)%nat
}.

Lemma same_key_iff t s t' s' : same_key t s t' s' = true <-> (t, s) = (t', s').
Proof.
  unfold same_key. rewrite andb_true_iff, bool_decide_eq_true, Z.eqb_eq.
  split; [by intros [-> ->]|by intros [= -> ->]].
Qed.

Lemma holds_key_iff f s :
  holds_key f s = true <-> s.(slot_used) = true /\ slot_key s = frame_key f.
Proof. unfold holds_key. rewrite andb_true_iff, same_key_iff. done. Qed.

Definition key_quarantined (k : message_key) (keys : list QuarantinedKey) : Prop :=
  k ∈ map quarantined_key keys.

Lemma quarantined_as_iff t s keys :
  existsb (quarantined_as t s) keys = true <-> key_quarantined (t, s) keys.
Proof.
  unfold key_quarantined. rewrite existsb_exists, list_elem_of_fmap.
  setoid_rewrite <- list_elem_of_In. unfold quarantined_as, quarantined_key.
  setoid_rewrite same_key_iff. naive_solver.
Qed.

Lemma Reassembler_make_inv mtu : Reassembler_inv (Reassembler_make mtu).
Proof.
  split; cbn [Reassembler_make mtu_ fragment_capacity_ slots_ quarantine_ high_water_count_].
  - change kFrameHeaderBytes with 28%nat. destruct (Nat.leb_spec 28 mtu); lia.
  - done.
  - apply Forall_replicate. by left.
  - intros s [-> _]%elem_of_replicate. done.
  - intros i j s t [-> _]%lookup_replicate Ht. done.
  - cbn. lia.
  - constructor.
  - cbn. lia.
Qed.

Lemma live_keys_sublist now keys : live_keys now keys `sublist_of` keys.
Proof.
  induction keys as [|k keys IH]; cbn; [done|].
  destruct (deadline_reached _ _); cbn; by constructor.
Qed.

Lemma live_keys_idem now keys : live_keys now (live_keys now keys) = live_keys now keys.
Proof.
  unfold live_keys. induction keys as [|k keys IH]; cbn; [done|].
  destruct (deadline_reached now _) eqn:E; cbn; [done|]. by rewrite E, IH.
Qed.

Lemma inv_with_quarantine r q :
  Reassembler_inv r -> q `sublist_of` r.(quarantine_) -> Reassembler_inv (set_quarantine r q).
Proof.
  intros [] Hq. split; try done; cbn -[active_count].
  - apply sublist_length in Hq. lia.
  - eapply sublist_NoDup; [exact inv_quarantine_distinct0|by apply sublist_map].
Qed.

Lemma quarantine_inv r t s d : Reassembler_inv r -> Reassembler_inv (quarantine r t s d).
Proof.
  intros []. unfold quarantine. destruct (existsb _ _) eqn:E; [by split|].
  set (kept := if (kMaximumQuarantinedKeys <=? length (quarantine_ r))%nat
    then tail (quarantine_ r) else quarantine_ r).
  assert (kept `sublist_of` quarantine_ r) as Hk.
  { unfold kept. split_if; [|done]. destruct (quarantine_ r); [done|by constructor]. }
  split; try done; cbn -[active_count].
  - rewrite length_app. unfold kept. split_if; reflect_bools; unfold kMaximumQuarantinedKeys in *; cbn.
    + destruct (quarantine_ r); cbn in *; lia.
    + lia.
  - rewrite map_app. apply NoDup_app. split_and!.
    + eapply sublist_NoDup; [exact inv_quarantine_distinct0|by apply sublist_map].
    + intros k Hin ->%list_elem_of_singleton.
      assert (key_quarantined (t, s) (quarantine_ r)) as Hq.
      { eapply elem_of_sublist; [exact Hin|by apply sublist_map]. }
      apply quarantined_as_iff in Hq. congruence.
    + apply NoDup_singleton.
Qed.

(** Replacing a slot by one that is free or keeps a key in use. *)
Lemma inv_set_slot r i s s' :
  Reassembler_inv r -> r.(slots_) !! i = Some s -> slot_wf (capacity_of r.(mtu_)) s' ->
  (s'.(slot_used) = true -> s.(slot_used) = true /\ slot_key s' = slot_key s) ->
  Reassembler_inv (set_slots r (<[i := s']> r.(slots_))).
Proof.
  intros [] Hi Hwf Hs'. split; try done; cbn -[active_count].
  - by rewrite length_insert.
  - by apply Forall_insert.
  - intros x Hx Hu. apply list_elem_of_lookup in Hx as [j Hj].
    apply list_lookup_insert_Some in Hj as [(-> & -> & _)|[_ Hj]].
    + apply (inv_supported0 s); [by eapply list_elem_of_lookup_2|]. by apply Hs'.
    + apply (inv_supported0 x); [by eapply list_elem_of_lookup_2|done].
  - intros j k x y Hj Hk Hx Hy Hxy.
    apply list_lookup_insert_Some in Hj as [(<- & -> & _)|[Hij Hj]];
      apply list_lookup_insert_Some in Hk as [(<- & <- & _)|[Hik Hk]]; [done|..].
    + destruct (Hs' Hx) as [Hu Hkey]. apply (inv_distinct0 i k s y); congruence.
    + destruct (Hs' Hy) as [Hu Hkey]. apply (inv_distinct0 j i x s); congruence.
    + by apply (inv_distinct0 j k x y).
  - pose proof (count_if_insert slot_used _ _ _ s' Hi) as Hc. unfold active_count in *. cbn [set_slots set_quarantine slots_ high_water_count_] in *.
    destruct (slot_used s') eqn:E; [|destruct (slot_used s); lia].
    destruct (Hs' eq_refl) as [Hu _]. rewrite Hu in Hc. lia.
Qed.

Lemma inv_free_slot r i s :
  Reassembler_inv r -> r.(slots_) !! i = Some s ->
  Reassembler_inv (set_slots r (<[i := empty_slot]> r.(slots_))).
Proof. intros Hr Hi. eapply inv_set_slot; [done..|by left|done]. Qed.

Lemma drop_slot_inv r i s t q d :
  Reassembler_inv r -> r.(slots_) !! i = Some s -> Reassembler_inv (drop_slot r i t q d).
Proof. intros Hr Hi. by eapply quarantine_inv, inv_free_slot. Qed.

Lemma map_expired_lookup (slots : list Slot) now i s :
  map (fun s => if slot_expired now s then empty_slot else s) slots !! i = Some s ->
  (s = empty_slot \/ slots !! i = Some s).
Proof.
  intros (x & Hx & Hi)%list_lookup_fmap_Some. destruct (slot_expired now x); naive_solver.
Qed.

Lemma count_if_map_le {A} (f : A -> bool) (g : A -> A) l :
  (forall x, f (g x) = true -> f x = true) -> (count_if f (map g l) <= count_if f l)%nat.
Proof.
  intros Hg. induction l as [|x l IH]; [done|]. cbn [map]. rewrite !count_if_cons.
  specialize (Hg x). destruct (f (g x)), (f x); (lia || (by discriminate Hg)).
Qed.

Lemma expire_inv r now : Reassembler_inv r -> Reassembler_inv (Reassembler_expire r now).2.
Proof.
  intros Hr. unfold Reassembler_expire. cbn [snd].
  apply inv_with_quarantine; [|apply live_keys_sublist].
  destruct Hr. split; try done; cbn -[active_count].
  - by rewrite length_map.
  - apply Forall_map. eapply Forall_impl; [done|]. intros s Hs. by destruct (slot_expired _ _); [left|].
  - intros s (i & Hi)%list_elem_of_lookup Hu.
    apply map_expired_lookup in Hi as [->|Hi]; [done|].
    apply (inv_supported0 s); [by eapply list_elem_of_lookup_2|done].
  - intros i j s t Hi Hj Hs Ht Hk. apply map_expired_lookup in Hi as [->|Hi]; [done|].
    apply map_expired_lookup in Hj as [->|Hj]; [done|]. by apply (inv_distinct0 i j s t).
  - assert (forall l, count_if slot_used
      (map (fun s => if slot_expired now s then empty_slot else s) l) <= count_if slot_used l)%nat as Hle.
    { intros l. apply count_if_map_le. intros s. by destruct (slot_expired now s). }
    unfold active_count in *. cbn [set_slots set_quarantine slots_ high_water_count_] in *.
    specialize (Hle (slots_ r)). lia.
Qed.

#[export] Hint Resolve expire_inv quarantine_inv Reassembler_make_inv : lora.

(** ** Accepting a fragment *)

Lemma capacity_of_inv r :
  Reassembler_inv r -> is_supported_mtu r.(mtu_) = true ->
  Z.of_nat r.(fragment_capacity_) = capacity_of r.(mtu_) /\ 20 <= capacity_of r.(mtu_) <= 227.
Proof.
  intros Hr Hm%is_supported_mtu_true. rewrite (inv_capacity r Hr). unfold capacity_of. lia.
Qed.

Lemma expected_payload_length capacity total count index :
  20 <= capacity <= 227 -> 46 <= total <= 316 -> 0 <= index < count ->
  capacity * (count - 1) < total <= capacity * count ->
  (if index + 1 <? count then capacity else u64 (total - capacity * (count - 1))) =
  fragment_length capacity total index.
Proof.
  intros Hc Ht Hi Hn. unfold fragment_length, u64.
  destruct (Z.ltb_spec (index + 1) count) as [Hlt|Hge].
  - assert (capacity * (index + 1) <= capacity * (count - 1)) by nia. lia.
  - assert (index = count - 1) as -> by lia. rewrite Z.mod_small; lia.
Qed.

Lemma accept_valid_iff r f :
  Reassembler_inv r -> DataFrame_typed f ->
  accept_valid r f = true <->
  is_supported_mtu r.(mtu_) = true /\
  frame_canonical (capacity_of r.(mtu_)) f.(frame_sequence) f.(fragment_index)
    f.(fragment_count) f.(total_length) (Z.of_nat (length f.(payload))).
Proof.
  intros Hr Hf. pose proof (proj1 (typed_index _ Hf)) as Hi. unfold accept_valid.
  destruct (is_supported_mtu (mtu_ r)) eqn:Hm; [|by split; [|intros []]].
  destruct (capacity_of_inv r Hr Hm) as [Hcap Hc]. rewrite Hcap.
  change (Z.of_nat kMinimumEncodedPostBytes) with 46.
  change (Z.of_nat kMaximumEncodedPostBytes) with 316.
  change (Z.of_nat kMaximumFragments) with 16. cbn [negb orb].
  assert (46 <= total_length f <= 316 -> u64 (total_length f + capacity_of (mtu_ r) - 1) =
    total_length f + capacity_of (mtu_ r) - 1) as Hu
    by (intros; unfold u64; rewrite Z.mod_small; lia).
  split.
  - split_if; [done|]. intros Hexp. reflect_bools. rewrite Hu in * by lia.
    match goal with H : _ / _ = _ |- _ => apply ceil_div in H; [|lia..] end.
    split; [done|]. rewrite expected_payload_length in * by lia. by split; [done|lia|lia|lia|].
  - intros [_ Hcan]. pose proof (canonical_sizes _ _ _ _ _ _ (proj1 Hc) Hcan) as (Hn & Hp & _).
    destruct Hcan as [Hs Ht Hix Hcount Hsize].
    rewrite Hu, expected_payload_length by lia.
    rewrite (proj2 (ceil_div (total_length f) (capacity_of (mtu_ r)) (fragment_count f)
      ltac:(lia) ltac:(lia)) Hcount).
    rewrite (proj2 (Z.eqb_neq _ _) Hs), (proj2 (Z.eqb_neq (fragment_count f) 0)),
      (proj2 (Z.ltb_ge 16 _)), (proj2 (Z.leb_gt (fragment_count f) _)),
      (proj2 (Z.ltb_ge (total_length f) 46)), (proj2 (Z.ltb_ge 316 _)),
      (proj2 (Nat.eqb_neq (fragment_capacity_ r) 0)), Z.eqb_refl by lia.
    cbn [orb andb]. apply Z.eqb_eq. done.
Qed.

(** The slot at hand holds the frame's key and division. *)
Record slot_for (capacity : Z) (f : DataFrame) (s : Slot) : Prop := {
  for_used : s.(slot_used) = true;
  for_holds : slot_holds capacity s;
  for_key : slot_key s = frame_key f;
  for_total : s.(slot_total_length) = f.(total_length);
  for_count : s.(slot_fragment_count) = f.(fragment_count)
}.

(** [store_fragment] where it is defined. *)
Definition stored_slot (s : Slot) (f : DataFrame) (offset : nat) : Slot := {|
  slot_used := s.(slot_used);
  slot_tag := s.(slot_tag);
  slot_sequence := s.(slot_sequence);
  slot_total_length := s.(slot_total_length);
  slot_fragment_count := s.(slot_fragment_count);
  slot_received_bitmap := Z.lor s.(slot_received_bitmap) (2 ^ f.(fragment_index));
  slot_deadline := s.(slot_deadline);
  slot_bytes := splice offset f.(payload) s.(slot_bytes);
  slot_fragment_lengths :=
    <[Z.to_nat f.(fragment_index) := Z.of_nat (length f.(payload))]>
      s.(slot_fragment_lengths) |}.

Definition frame_valid (mtu : nat) (f : DataFrame) : Prop :=
  frame_canonical (capacity_of mtu) f.(frame_sequence) f.(fragment_index)
    f.(fragment_count) f.(total_length) (Z.of_nat (length f.(payload))).

(** The offset of a frame's payload, and its bounds. *)
Definition frame_offset (mtu : nat) (f : DataFrame) : nat :=
  Z.to_nat f.(fragment_index) * (mtu - 28).

Lemma frame_offset_bounds mtu f :
  is_supported_mtu mtu = true -> frame_valid mtu f ->
  (frame_offset mtu f + length f.(payload) <= Z.to_nat f.(total_length) <= 316)%nat /\
  Z.of_nat (frame_offset mtu f) = capacity_of mtu * f.(fragment_index) /\
  0 <= f.(fragment_index) < 16 /\ 1 <= f.(fragment_count) <= 16 /\
  Z.of_nat (length f.(payload)) =
    fragment_length (capacity_of mtu) f.(total_length) f.(fragment_index).
Proof.
  intros Hm%is_supported_mtu_true Hv.
  assert (20 <= capacity_of mtu) as Hc by (unfold capacity_of; lia).
  pose proof (canonical_sizes _ _ _ _ _ _ Hc Hv) as (Hn & Hp & Hb).
  destruct Hv as [_ Ht Hi Hcount Hsize].
  assert (Z.of_nat (frame_offset mtu f) = capacity_of mtu * fragment_index f) as Ho.
  { unfold frame_offset, capacity_of. rewrite Nat2Z.inj_mul, Z2Nat.id by lia. lia. }
  split_and!; try done; lia.
Qed.

Lemma stored_slot_for mtu f s :
  is_supported_mtu mtu = true -> frame_valid mtu f -> slot_for (capacity_of mtu) f s ->
  slot_for (capacity_of mtu) f (stored_slot s f (frame_offset mtu f)).
Proof.
  intros Hm Hv [Hu Hh Hk Ht Hn].
  destruct (frame_offset_bounds mtu f Hm Hv) as (Hb & Ho & Hi & Hc & Hl).
  destruct Hh as [Hby Hle Htag Hsq Htot Hcnt Hbm Hrec].
  split; try done. split; cbn [stored_slot slot_bytes slot_fragment_lengths slot_tag
    slot_sequence slot_total_length slot_fragment_count slot_received_bitmap]; try done.
  - by rewrite length_splice by lia.
  - by rewrite length_insert.
  - apply lor_pow2_range; [done|]. rewrite Hn. apply Hv.
  - intros i Hir. rewrite testbit_lor_pow2 by lia. intros Hbit.
    destruct (Z.eqb_spec (fragment_index f) i) as [<-|Hne].
    + rewrite list_lookup_insert_eq by lia. by rewrite Hl, Ht.
    + rewrite list_lookup_insert_ne by lia. apply Hrec; [done|]. by rewrite orb_false_r in Hbit.
Qed.

Lemma accept_into_cases r i s f :
  Reassembler_inv r -> is_supported_mtu r.(mtu_) = true -> frame_valid r.(mtu_) f ->
  slot_for (capacity_of r.(mtu_)) f s ->
  let offset := frame_offset r.(mtu_) f in
  let s' := stored_slot s f offset in
  let r' := set_slots r (<[i := s']> r.(slots_)) in
  accept_into r i s f =
  if Z.testbit s.(slot_received_bitmap) f.(fragment_index) then
    if bool_decide (sub_bytes offset (length f.(payload)) s.(slot_bytes) = f.(payload))
    then Some (no_post ReassemblyStatus_DuplicateFragment, r)
    else Some (no_post ReassemblyStatus_Conflict,
               drop_slot r i f.(tag) f.(frame_sequence) s.(slot_deadline))
  else if s'.(slot_received_bitmap) =? Z.ones s.(slot_fragment_count)
  then complete_slot r' i s'
  else Some (no_post ReassemblyStatus_FragmentAccepted, r').
Proof.
  intros Hr Hm Hv Hs. cbn zeta.
  destruct (frame_offset_bounds _ f Hm Hv) as (Hb & Ho & Hi & Hc & Hl).
  pose proof Hs as [Hu [Hby Hle Htag Hsq Htot Hcnt Hbm Hrec] Hk Ht Hn].
  unfold accept_into. rewrite fragment_bit, land_pow2 by lia.
  rewrite (inv_capacity r Hr). fold (frame_offset (mtu_ r) f).
  pose proof (Z.pow_pos_nonneg 2 (fragment_index f) ltac:(lia) ltac:(lia)).
  destruct (Z.testbit (slot_received_bitmap s) (fragment_index f)) eqn:Hbit.
  - rewrite (proj2 (Z.eqb_neq _ _)) by lia. cbn [negb].
    unfold identical_fragment.
    assert (0 <= fragment_index f < slot_fragment_count s) as Hidx
      by (rewrite Hn; apply (canonical_index _ _ _ _ _ _ Hv)).
    rewrite (Hrec _ Hidx Hbit), Ht, <- Hl. cbn [mbind option_bind].
    rewrite Z.eqb_refl, (proj2 (Nat.leb_le _ _)) by lia. done.
  - rewrite Z.eqb_refl. cbn [negb]. unfold store_fragment.
    rewrite (proj2 (Nat.leb_le _ _)), (proj2 (Nat.ltb_lt _ _)) by lia. cbn [andb mbind option_bind].
    pose proof (stored_slot_for (mtu_ r) f s Hm Hv Hs) as [_ [_ _ _ _ _ _ Hbm' _] _ _ _].
    cbn [stored_slot slot_received_bitmap slot_fragment_count] in Hbm'.
    assert (2 ^ slot_fragment_count s <= 2 ^ 16) by (apply Z.pow_le_mono_r; lia).
    change (2 ^ 16) with 65536 in *. unfold u16.
    rewrite (Z.mod_small (Z.lor _ _)), (Z.mod_small (Z.of_nat (length _))) by lia.
    cbn [slot_received_bitmap]. rewrite complete_mask_ones by lia. rewrite <- Hn.
    fold (stored_slot s f (frame_offset (mtu_ r) f)).
    cbn [stored_slot slot_received_bitmap]. by destruct (_ =? _).
Qed.

(** ** Completing a slot *)

Lemma DataFrame_ext f g :
  f.(tag) = g.(tag) -> f.(frame_sequence) = g.(frame_sequence) ->
  f.(fragment_index) = g.(fragment_index) -> f.(fragment_count) = g.(fragment_count) ->
  f.(total_length) = g.(total_length) -> f.(payload) = g.(payload) -> f = g.
Proof. destruct f, g. cbn. by intros -> -> -> -> -> ->. Qed.

(** The slot's bytes are the encoding of [p], whose fragments it holds. *)
Definition slot_spells (mtu : nat) (p : PostPayload) (s : Slot) : Prop :=
  PostPayload_wf p /\ sub_bytes 0 (Z.to_nat s.(slot_total_length)) s.(slot_bytes) = post_bytes p /\
  slot_key s = (message_tag p.(message_id), p.(sender_sequence)).

Lemma slot_spells_count mtu p s :
  is_supported_mtu mtu = true -> slot_holds (capacity_of mtu) s -> slot_spells mtu p s ->
  s.(slot_total_length) = Z.of_nat (encoded_size p) /\
  s.(slot_fragment_count) = Z.of_nat (fragments_of p mtu).
Proof.
  intros Hm Hs (Hwf & Hb & _). pose proof (length_post_bytes p Hwf) as Hl.
  rewrite <- Hb, length_sub_bytes in Hl by (rewrite (holds_bytes _ _ Hs); pose proof (holds_total _ _ Hs); lia).
  pose proof (holds_total _ _ Hs) as Ht. split; [lia|].
  destruct (fragments_of_bounds p mtu Hwf Hm) as [Hn Hc]. pose proof (holds_count _ _ Hs) as Hc'.
  rewrite <- Hl in Hc. apply is_supported_mtu_true in Hm.
  assert (capacity_of mtu = Z.of_nat (fragment_capacity mtu)) as Hcap
    by (unfold capacity_of, fragment_capacity; lia).
  rewrite Hcap in Hc'. assert (20 <= Z.of_nat (fragment_capacity mtu)) by (unfold fragment_capacity; lia).
  rewrite <- (proj2 (ceil_div (slot_total_length s) (Z.of_nat (fragment_capacity mtu))
    (slot_fragment_count s) ltac:(lia) ltac:(lia)) Hc').
  apply ceil_div; [lia|lia|nia].
Qed.

Lemma sub_bytes_of_prefix off n total (data : bytes) :
  (off <= total)%nat ->
  sub_bytes off n (sub_bytes 0 total data) = sub_bytes off (Nat.min n (total - off)) data.
Proof.
  intros Hle. unfold sub_bytes. rewrite drop_0.
  by rewrite skipn_firstn_comm, take_take.
Qed.

Lemma canonical_frame_fragment r s p i :
  r.(fragment_capacity_) = (r.(mtu_) - 28)%nat -> is_supported_mtu r.(mtu_) = true ->
  slot_holds (capacity_of r.(mtu_)) s -> slot_spells r.(mtu_) p s ->
  s.(slot_received_bitmap) = Z.ones s.(slot_fragment_count) ->
  (i < fragments_of p r.(mtu_))%nat ->
  canonical_frame r s i = Some (fragment p r.(mtu_) i).
Proof.
  intros Hcap Hm Hs Hsp Hfull Hi.
  destruct (slot_spells_count _ p s Hm Hs Hsp) as [Ht Hn]. destruct Hsp as (Hwf & Hb & Hk).
  destruct (fragments_of_bounds p _ Hwf Hm) as [Hcnt Hle].
  pose proof Hm as Hr%is_supported_mtu_true.
  assert (0 <= Z.of_nat i < slot_fragment_count s) as Hi' by lia.
  pose proof (holds_recorded _ _ Hs _ Hi') as Hrec.
  rewrite Nat2Z.id in Hrec. unfold canonical_frame. rewrite Hrec by
    (rewrite Hfull; apply Z.ones_spec_low; lia). cbn [mbind option_bind].
  rewrite Hcap. fold (fragment_capacity (mtu_ r)).
  assert (i * fragment_capacity (mtu_ r) < encoded_size p)%nat as Hoff.
  { assert (i * fragment_capacity (mtu_ r) <=
      fragment_capacity (mtu_ r) * (fragments_of p (mtu_ r) - 1))%nat by nia. lia. }
  assert (Z.to_nat (fragment_length (capacity_of (mtu_ r)) (slot_total_length s) (Z.of_nat i)) =
    Nat.min (fragment_capacity (mtu_ r)) (encoded_size p - i * fragment_capacity (mtu_ r)))
    as Hlen.
  { unfold fragment_length. rewrite Ht. unfold capacity_of, fragment_capacity in *. nia. }
  rewrite Hlen, (holds_bytes _ _ Hs). pose proof (encoded_size_range p Hwf).
  rewrite (proj2 (Nat.leb_le _ _)) by lia. f_equal.
  destruct (fragment_fields p _ i Hwf Hm Hi) as (Et & Es & Ei & En & El & Ep).
  apply DataFrame_ext; cbn [tag frame_sequence fragment_index fragment_count total_length payload];
    rewrite ?Et, ?Es, ?Ei, ?En, ?El, ?Ep; try congruence.
  - by injection Hk.
  - by injection Hk.
  - unfold u8. apply Z.mod_small. lia.
  - rewrite <- Hb, sub_bytes_of_prefix by lia. by rewrite Ht, Nat2Z.id.
Qed.

Lemma canonical_loop_fragments r s p i n frames :
  r.(fragment_capacity_) = (r.(mtu_) - 28)%nat -> is_supported_mtu r.(mtu_) = true ->
  slot_holds (capacity_of r.(mtu_)) s -> slot_spells r.(mtu_) p s ->
  s.(slot_received_bitmap) = Z.ones s.(slot_fragment_count) ->
  (i + n <= fragments_of p r.(mtu_))%nat ->
  canonical_loop r s i n frames =
  Some (Some (frames ++ map (fun j => frame_bytes (fragment p r.(mtu_) j)) (seq i n))).
Proof.
  intros Hcap Hm Hs Hsp Hfull. revert i frames.
  induction n as [|n IH]; intros i frames Hle; cbn [canonical_loop seq map];
    [by rewrite app_nil_r|].
  erewrite canonical_frame_fragment by (done || lia). cbn [mbind option_bind].
  rewrite encode_fragment by (done || lia || apply Hsp).
  rewrite IH by lia. by rewrite <- app_assoc, Nat.add_1_r.
Qed.

(** What a complete slot becomes: the post it spells, or a quarantined key. *)
Lemma complete_slot_cases r i s :
  r.(fragment_capacity_) = (r.(mtu_) - 28)%nat -> is_supported_mtu r.(mtu_) = true ->
  slot_holds (capacity_of r.(mtu_)) s ->
  s.(slot_received_bitmap) = Z.ones s.(slot_fragment_count) ->
  (exists p, slot_spells r.(mtu_) p s /\
     complete_slot r i s =
     Some (mkReassemblyResult ReassemblyStatus_Complete
             (Some (mkCompletedPost p (post_bytes p) (canonical_frames_of p r.(mtu_)))),
           set_slots r (<[i := empty_slot]> r.(slots_)))) \/
  (~ (exists p, slot_spells r.(mtu_) p s) /\
   complete_slot r i s =
   Some (no_post ReassemblyStatus_InvalidPost,
         drop_slot r i s.(slot_tag) s.(slot_sequence) s.(slot_deadline))).
Proof.
  intros Hcap Hm Hs Hfull. pose proof (holds_total _ _ Hs) as Ht.
  unfold complete_slot. rewrite (holds_bytes _ _ Hs), (proj2 (Nat.leb_le _ _)) by lia. cbn [negb].
  set (canonical := sub_bytes _ _ _).
  destruct (decode_post (Some canonical)) as [p|e] eqn:Hd.
  - apply decode_post_layout in Hd as [Hwf Hcan].
    case_bool_decide as Htag; cbn [negb orb].
    + destruct (Z.eqb_spec (sender_sequence p) (slot_sequence s)) as [Hseq|Hseq]; cbn [negb].
      * left. exists p. assert (slot_spells (mtu_ r) p s) as Hsp.
        { split_and!; try done. unfold slot_key. congruence. }
        split; [done|]. destruct (slot_spells_count _ p s Hm Hs Hsp) as [_ ->].
        rewrite Nat2Z.id. erewrite canonical_loop_fragments by (done || lia).
        cbn [mbind option_bind app]. by rewrite Hcan.
      * right. split; [|done]. intros (q & Hq & Hb & Hk). unfold canonical in Hcan.
        rewrite Hcan in Hb. assert (p = q) as -> by by apply post_bytes_inj. injection Hk. congruence.
    + right. split; [|done]. intros (q & Hq & Hb & Hk). unfold canonical in Hcan.
      rewrite Hcan in Hb. assert (p = q) as -> by by apply post_bytes_inj. injection Hk. congruence.
  - right. split; [|done]. intros (q & Hq & Hb & Hk).
    assert (decode_post (Some canonical) = success q) as Hq'
      by (apply decode_post_layout; split; done). congruence.
Qed.

(** ** The outcomes of [accept] *)

Definition refresh (r : Reassembler) (now : Z) : Reassembler := (Reassembler_expire r now).2.

(** The slot a fragment goes to: the holder of its key, or a newly claimed one. *)
Inductive target (r : Reassembler) (f : DataFrame) (tick : Z) : Reassembler -> nat -> Slot -> Prop :=
| target_held i s :
    r.(slots_) !! i = Some s -> slot_for (capacity_of r.(mtu_)) f s -> target r f tick r i s
| target_claimed i :
    Forall (fun s => holds_key f s = false) r.(slots_) ->
    r.(slots_) !! i = Some empty_slot ->
    let s := claim_slot empty_slot f tick in
    target r f tick (claim r i s) i s.

Definition recorded (f : DataFrame) (s : Slot) : Prop :=
  Z.testbit s.(slot_received_bitmap) f.(fragment_index) = true.

(** Every way [accept] can end, on the state [r] its expiry leaves. *)
Inductive accept_outcome (r : Reassembler) (f : DataFrame) (tick : Z)
  : ReassemblyResult -> Reassembler -> Prop :=
| outcome_rejected :
    ~ (is_supported_mtu r.(mtu_) = true /\ frame_valid r.(mtu_) f) ->
    accept_outcome r f tick (no_post ReassemblyStatus_InvalidPost) r
| outcome_quarantined :
    is_supported_mtu r.(mtu_) = true -> frame_valid r.(mtu_) f ->
    key_quarantined (frame_key f) r.(quarantine_) ->
    accept_outcome r f tick (no_post ReassemblyStatus_Quarantined) r
| outcome_mismatch i s :
    r.(slots_) !! i = Some s -> s.(slot_used) = true -> slot_key s = frame_key f ->
    s.(slot_total_length) <> f.(total_length) \/ s.(slot_fragment_count) <> f.(fragment_count) ->
    ~ key_quarantined (frame_key f) r.(quarantine_) ->
    accept_outcome r f tick (no_post ReassemblyStatus_Conflict)
      (drop_slot r i f.(tag) f.(frame_sequence) s.(slot_deadline))
| outcome_full :
    Forall (fun s => holds_key f s = false) r.(slots_) ->
    Forall (fun s => s.(slot_used) = true) r.(slots_) ->
    accept_outcome r f tick (no_post ReassemblyStatus_CapacityExceeded) r
| outcome_duplicate i s :
    target r f tick r i s -> recorded f s ->
    sub_bytes (frame_offset r.(mtu_) f) (length f.(payload)) s.(slot_bytes) = f.(payload) ->
    accept_outcome r f tick (no_post ReassemblyStatus_DuplicateFragment) r
| outcome_conflict i s :
    target r f tick r i s -> recorded f s ->
    sub_bytes (frame_offset r.(mtu_) f) (length f.(payload)) s.(slot_bytes) <> f.(payload) ->
    ~ key_quarantined (frame_key f) r.(quarantine_) ->
    accept_outcome r f tick (no_post ReassemblyStatus_Conflict)
      (drop_slot r i f.(tag) f.(frame_sequence) s.(slot_deadline))
| outcome_stored r1 i s :
    is_supported_mtu r.(mtu_) = true -> frame_valid r.(mtu_) f ->
    target r f tick r1 i s -> ~ recorded f s ->
    let s' := stored_slot s f (frame_offset r.(mtu_) f) in
    s'.(slot_received_bitmap) <> Z.ones s'.(slot_fragment_count) ->
    accept_outcome r f tick (no_post ReassemblyStatus_FragmentAccepted)
      (set_slots r1 (<[i := s']> r1.(slots_)))
| outcome_complete r1 i s p :
    is_supported_mtu r.(mtu_) = true -> frame_valid r.(mtu_) f ->
    target r f tick r1 i s -> ~ recorded f s ->
    let s' := stored_slot s f (frame_offset r.(mtu_) f) in
    s'.(slot_received_bitmap) = Z.ones s'.(slot_fragment_count) -> slot_spells r.(mtu_) p s' ->
    accept_outcome r f tick
      (mkReassemblyResult ReassemblyStatus_Complete
         (Some (mkCompletedPost p (post_bytes p) (canonical_frames_of p r.(mtu_)))))
      (set_slots r1 (<[i := empty_slot]> (<[i := s']> r1.(slots_))))
| outcome_garbled r1 i s :
    is_supported_mtu r.(mtu_) = true -> frame_valid r.(mtu_) f ->
    target r f tick r1 i s -> ~ recorded f s ->
    let s' := stored_slot s f (frame_offset r.(mtu_) f) in
    s'.(slot_received_bitmap) = Z.ones s'.(slot_fragment_count) ->
    ~ (exists p, slot_spells r.(mtu_) p s') ->
    accept_outcome r f tick (no_post ReassemblyStatus_InvalidPost)
      (drop_slot (set_slots r1 (<[i := s']> r1.(slots_))) i
         s'.(slot_tag) s'.(slot_sequence) s'.(slot_deadline)).

Lemma slot_wf_used capacity s : slot_wf capacity s -> s.(slot_used) = true -> slot_holds capacity s.
Proof. intros [[Hu _]|(_ & Hs & _)] Hu'; [congruence|done]. Qed.

Lemma slot_wf_free capacity s : slot_wf capacity s -> s.(slot_used) = false -> s = empty_slot.
Proof. intros [[_ ->]|(Hu & _)] Hu'; [done|congruence]. Qed.

Lemma claim_slot_for mtu f tick :
  DataFrame_typed f -> is_supported_mtu mtu = true -> frame_valid mtu f ->
  slot_for (capacity_of mtu) f (claim_slot empty_slot f tick).
Proof.
  intros Hf Hm Hv. destruct (frame_offset_bounds mtu f Hm Hv) as (_ & _ & _ & Hn & _).
  pose proof (typed_sequence _ Hf) as Hs. unfold is_u64 in Hs. pose proof Hv as [Hs0 Ht _ Hc _].
  split; try done. split; cbn; try done; try lia.
  - apply Hf.
  - intros i _. by rewrite Z.testbit_0_l.
Qed.

Lemma ones_positive n : 1 <= n -> 0 < Z.ones n.
Proof.
  intros Hn. rewrite Z.ones_equiv. pose proof (Z.pow_lt_mono_r 2 0 n ltac:(lia) ltac:(lia) ltac:(lia)). lia.
Qed.

Lemma claim_inv r f tick i :
  Reassembler_inv r -> DataFrame_typed f -> is_supported_mtu r.(mtu_) = true ->
  frame_valid r.(mtu_) f -> Forall (fun s => holds_key f s = false) r.(slots_) ->
  r.(slots_) !! i = Some empty_slot ->
  Reassembler_inv (claim r i (claim_slot empty_slot f tick)).
Proof.
  intros Hr Hf Hm Hv Hno Hi.
  destruct (frame_offset_bounds _ f Hm Hv) as (_ & _ & _ & Hn & _).
  pose proof (claim_slot_for (mtu_ r) f tick Hf Hm Hv) as Hs.
  set (s := claim_slot empty_slot f tick) in *.
  assert (forall j t, slots_ r !! j = Some t -> slot_used t = true -> slot_key t <> slot_key s) as Hne.
  { intros j t Hj Hu Hk. rewrite Forall_lookup in Hno. specialize (Hno j t Hj).
    rewrite (proj2 (holds_key_iff f t)) in Hno; [done|]. split; [done|]. rewrite Hk. apply Hs. }
  assert (i < length (slots_ r))%nat as Hlt by (by eapply lookup_lt_Some).
  destruct Hr. split; try done; cbn -[active_count].
  - by rewrite length_insert.
  - apply Forall_insert; [done|]. right. split_and!; [apply Hs|apply Hs|].
    pose proof (ones_positive (fragment_count f) ltac:(lia)). cbn. lia.
  - intros j k x y Hj Hk Hx Hy Hxy.
    apply list_lookup_insert_Some in Hj as [(<- & -> & _)|[Hij Hj]];
      apply list_lookup_insert_Some in Hk as [(<- & <- & _)|[Hik Hk]]; [done|..].
    + by destruct (Hne k y Hk Hy).
    + by destruct (Hne j x Hj Hx).
    + by apply (inv_distinct0 j k x y).
  - pose proof (count_if_insert slot_used _ _ _ s Hi) as Hc. cbn in Hc.
    assert (count_if slot_used (<[i:=s]> (slots_ r)) <= 8)%nat.
    { rewrite <- inv_slots0, <- (length_insert (slots_ r) i s). apply count_if_length. }
    unfold active_count in *. cbn [claim set_slots slots_]. lia.
Qed.

Lemma target_spec r f tick r1 i s :
  Reassembler_inv r -> DataFrame_typed f -> is_supported_mtu r.(mtu_) = true ->
  frame_valid r.(mtu_) f -> target r f tick r1 i s ->
  Reassembler_inv r1 /\ r1.(mtu_) = r.(mtu_) /\ r1.(slots_) !! i = Some s /\
  slot_for (capacity_of r.(mtu_)) f s.
Proof.
  intros Hr Hf Hm Hv [j t Hj Ht|j Hno Hj u].
  - done.
  - split_and!; [by apply claim_inv|done| |by apply claim_slot_for].
    cbn. apply list_lookup_insert_eq. by eapply lookup_lt_Some.
Qed.

(** A fragment recorded already has a slot already. *)
Lemma target_recorded r f tick r1 i s :
  target r f tick r1 i s -> recorded f s -> r1 = r /\ r.(slots_) !! i = Some s.
Proof.
  intros [j t Hj _|j _ Hj u] Hrec; [done|].
  unfold recorded in Hrec. cbn in Hrec. by rewrite Z.testbit_0_l in Hrec.
Qed.

Lemma accept_into_outcome r f tick r1 i s :
  Reassembler_inv r -> DataFrame_typed f -> is_supported_mtu r.(mtu_) = true ->
  frame_valid r.(mtu_) f -> ~ key_quarantined (frame_key f) r.(quarantine_) ->
  target r f tick r1 i s ->
  exists res r', accept_into r1 i s f = Some (res, r') /\ accept_outcome r f tick res r'.
Proof.
  intros Hr Hf Hm Hv Hnq Ht.
  destruct (target_spec r f tick r1 i s Hr Hf Hm Hv Ht) as (Hr1 & Hmtu & Hi & Hs).
  rewrite <- Hmtu in Hm, Hv, Hs. pose proof (accept_into_cases r1 i s f Hr1 Hm Hv Hs) as Hc.
  cbn zeta in Hc. rewrite Hc. rewrite Hmtu in *.
  destruct (Z.testbit _ _) eqn:Hbit.
  - assert (r1 = r) as ->.
    { by apply target_recorded in Ht as [-> _]. }
    case_bool_decide as Hsame; do 2 eexists; (split; [done|]).
    + by eapply outcome_duplicate.
    + by eapply outcome_conflict.
  - assert (~ recorded f s) as Hrec by (unfold recorded; congruence).
    pose proof (stored_slot_for _ f s Hm Hv Hs) as Hs'. set (s' := stored_slot _ _ _) in *.
    destruct (Z.eqb_spec (slot_received_bitmap s') (Z.ones (slot_fragment_count s))) as [Hfull|Hopen].
    + destruct (complete_slot_cases (set_slots r1 (<[i:=s']> (slots_ r1))) i s') as [(p & Hp & He)|[Hp He]];
        cbn [set_slots fragment_capacity_ mtu_]; rewrite ?Hmtu; try done.
      * rewrite <- Hmtu. apply Hr1.
      * apply Hs'.
      * rewrite He. cbn [set_slots mtu_] in Hp. rewrite Hmtu in Hp.
        do 2 eexists. split; [done|]. cbn [set_slots mtu_ slots_]. rewrite Hmtu.
        exact (outcome_complete r f tick r1 i s p Hm Hv Ht Hrec Hfull Hp).
      * rewrite He. cbn [set_slots mtu_] in Hp. rewrite Hmtu in Hp.
        do 2 eexists. split; [done|].
        exact (outcome_garbled r f tick r1 i s Hm Hv Ht Hrec Hfull Hp).
    + do 2 eexists. split; [done|]. by eapply outcome_stored.
Qed.

Lemma refresh_inv r now : Reassembler_inv r -> Reassembler_inv (refresh r now).
Proof. apply expire_inv. Qed.

Lemma is_quarantined_refresh r t s now :
  is_quarantined (refresh r now) t s now =
  (existsb (quarantined_as t s) (refresh r now).(quarantine_), refresh r now).
Proof.
  unfold is_quarantined, refresh, Reassembler_expire, set_quarantine.
  cbn [snd mtu_ fragment_capacity_ slots_ quarantine_ high_water_count_]. by rewrite live_keys_idem.
Qed.

Lemma accept_has_outcome r f tick :
  Reassembler_inv r -> DataFrame_typed f ->
  exists res r', Reassembler_accept r f tick = Some (res, r') /\
    accept_outcome (refresh r tick) f tick res r'.
Proof.
  intros Hr0 Hf. pose proof (refresh_inv r tick Hr0) as Hr.
  unfold Reassembler_accept. fold (refresh r tick). rewrite is_quarantined_refresh.
  generalize dependent (refresh r tick). clear r Hr0. intros r Hr.
  destruct (accept_valid r f) eqn:Hvalid; cbn [negb].
  2:{ do 2 eexists. split; [done|]. apply outcome_rejected. intros Hno.
      apply accept_valid_iff in Hno; [|done..]. congruence. }
  apply accept_valid_iff in Hvalid as [Hm Hv]; [|done..].
  destruct (existsb _ _) eqn:Hq.
  { do 2 eexists. split; [done|]. apply outcome_quarantined; [done..|].
    by apply quarantined_as_iff. }
  assert (~ key_quarantined (frame_key f) (quarantine_ r)) as Hnq
    by (intros Hin; apply quarantined_as_iff in Hin; congruence).
  destruct (find_index (holds_key f) (slots_ r)) as [i|] eqn:Hfind.
  - apply find_index_Some in Hfind as (s & Hi & Hk & _). rewrite Hi. cbn [mbind option_bind].
    apply holds_key_iff in Hk as [Hu Hk].
    destruct (_ || _) eqn:Hdiv.
    + do 2 eexists. split; [done|]. eapply outcome_mismatch; [done..| |done].
      reflect_bools. destruct Hdiv; reflect_bools; auto.
    + reflect_bools. apply (accept_into_outcome r f tick r i s); try done.
      apply target_held; [done|]. split; try done. eapply slot_wf_used; [|done].
      by eapply Forall_lookup_1, Hi; apply inv_slot_wf.
  - apply find_index_None in Hfind.
    destruct (find_index _ (slots_ r)) as [i|] eqn:Hfree.
    + apply find_index_Some in Hfree as (s & Hi & Hu & _). apply negb_true_iff in Hu.
      rewrite Hi. cbn [mbind option_bind].
      assert (s = empty_slot) as ->.
      { eapply slot_wf_free, Hu. by eapply Forall_lookup_1, Hi; apply inv_slot_wf. }
      apply (accept_into_outcome r f tick (claim r i (claim_slot empty_slot f tick)) i
               (claim_slot empty_slot f tick)); try done.
      by apply target_claimed.
    + apply find_index_None in Hfree. do 2 eexists. split; [done|]. apply outcome_full; [done|].
      eapply Forall_impl; [done|]. intros s Hs. by apply negb_false_iff in Hs.
Qed.

Lemma slot_for_wf capacity f s :
  slot_for capacity f s -> s.(slot_received_bitmap) <> Z.ones s.(slot_fragment_count) ->
  slot_wf capacity s.
Proof. intros [Hu Hh _ _ _] Ho. by right. Qed.

Lemma accept_outcome_inv r f tick res r' :
  Reassembler_inv r -> DataFrame_typed f -> accept_outcome r f tick res r' -> Reassembler_inv r'.
Proof.
  intros Hr Hf Ho. destruct Ho as [|?? |i s Hi|?|i s Ht|i s Ht|r1 i s Hm Hv Ht Hrec s' Hopen
    |r1 i s p Hm Hv Ht Hrec s' Hfull Hsp|r1 i s Hm Hv Ht Hrec s' Hfull Hsp]; try done.
  - by eapply drop_slot_inv.
  - apply target_recorded in Ht as [_ Hi]; [by eapply drop_slot_inv|done].
  - destruct (target_spec r f tick r1 i s Hr Hf Hm Hv Ht) as (Hr1 & Hmtu & Hi & Hs).
    eapply inv_set_slot; [done..| |].
    + rewrite Hmtu. eapply slot_for_wf, Hopen. by apply stored_slot_for.
    + intros _. split; [apply Hs|done].
  - destruct (target_spec r f tick r1 i s Hr Hf Hm Hv Ht) as (Hr1 & Hmtu & Hi & Hs).
    rewrite list_insert_insert_eq. by eapply inv_free_slot.
  - destruct (target_spec r f tick r1 i s Hr Hf Hm Hv Ht) as (Hr1 & Hmtu & Hi & Hs).
    unfold drop_slot. cbn [set_slots slots_]. rewrite list_insert_insert_eq.
    apply quarantine_inv. by apply (inv_free_slot r1 i s).
Qed.

#[export] Hint Resolve accept_outcome_inv refresh_inv : lora.

(** ** Gathering the fragments of one post *)

Definition post_key (p : PostPayload) : message_key :=
  (message_tag p.(message_id), p.(sender_sequence)).

(** The slot's bytes agree with the [k]th fragment of [p]. *)
Definition has_fragment (mtu : nat) (p : PostPayload) (s : Slot) (k : nat) : Prop :=
  let f := fragment p mtu k in
  sub_bytes (k * fragment_capacity mtu) (length f.(payload)) s.(slot_bytes) = f.(payload).

(** The slot holds exactly the fragments [got] of [p]. *)
Record slot_gathers (mtu : nat) (p : PostPayload) (got : list nat) (s : Slot) : Prop := {
  gathers_for : slot_for (capacity_of mtu) (fragment p mtu 0) s;
  gathers_bits : forall k, (k < fragments_of p mtu)%nat ->
    Z.testbit s.(slot_received_bitmap) (Z.of_nat k) = bool_decide (k ∈ got);
  gathers_bytes : forall k, (k < fragments_of p mtu)%nat -> k ∈ got -> has_fragment mtu p s k
}.

(** [r] is gathering [p] until [deadline], and has the fragments [got]. *)
Definition gathering (p : PostPayload) (deadline : Z) (got : list nat) (r : Reassembler) : Prop :=
  (exists i s, r.(slots_) !! i = Some s /\ s.(slot_deadline) = deadline /\
     slot_gathers r.(mtu_) p got s) /\
  ~ key_quarantined (post_key p) r.(quarantine_).

(** [r] could start gathering [p]: no slot or quarantine holds its key, and a
    slot is free. *)
Definition ready_for (p : PostPayload) (r : Reassembler) : Prop :=
  Forall (fun s => s.(slot_used) = true -> slot_key s <> post_key p) r.(slots_) /\
  Exists (fun s => s.(slot_used) = false) r.(slots_) /\
  ~ key_quarantined (post_key p) r.(quarantine_).

Section Gathering.

Context (p : PostPayload) (mtu : nat).
Hypothesis Hwf : PostPayload_wf p.
Hypothesis Hmtu : is_supported_mtu mtu = true.

Lemma fragment_typed j : (j < fragments_of p mtu)%nat -> DataFrame_typed (fragment p mtu j).
Proof. intros Hj. by apply fragment_wf. Qed.

Lemma fragment_valid j : (j < fragments_of p mtu)%nat -> frame_valid mtu (fragment p mtu j).
Proof. intros Hj. by apply fragment_wf. Qed.

Lemma fragment_key j : (j < fragments_of p mtu)%nat -> frame_key (fragment p mtu j) = post_key p.
Proof.
  intros Hj. destruct (fragment_fields p mtu j Hwf Hmtu Hj) as (Et & Es & _).
  unfold frame_key, post_key. by rewrite Et, Es.
Qed.

Lemma fragment_offset j :
  (j < fragments_of p mtu)%nat -> frame_offset mtu (fragment p mtu j) = (j * fragment_capacity mtu)%nat.
Proof.
  intros Hj. destruct (fragment_fields p mtu j Hwf Hmtu Hj) as (_ & _ & Ei & _).
  unfold frame_offset. by rewrite Ei, Nat2Z.id.
Qed.

Lemma fragments_positive : (0 < fragments_of p mtu)%nat.
Proof. destruct (fragments_of_bounds p mtu Hwf Hmtu). lia. Qed.

(** All fragments of a post agree on what identifies its slot. *)
Lemma slot_for_fragment i j s :
  slot_for (capacity_of mtu) (fragment p mtu i) s -> slot_for (capacity_of mtu) (fragment p mtu j) s.
Proof.
  intros [Hu Hh Hk Ht Hc]. by split.
Qed.

Lemma fragment_slices_disjoint j k :
  j <> k ->
  (k * fragment_capacity mtu + length (fragment p mtu k).(payload) <= j * fragment_capacity mtu \/
   j * fragment_capacity mtu + length (fragment p mtu j).(payload) <= k * fragment_capacity mtu)%nat.
Proof.
  intros Hne.
  assert (forall i, length (fragment p mtu i).(payload) <= fragment_capacity mtu)%nat as Hl.
  { intros i. unfold fragment, fragment_frame. cbn [payload].
    unfold sub_bytes. rewrite length_take. lia. }
  pose proof (Hl j). pose proof (Hl k). destruct (Nat.lt_total j k) as [?|[?|?]]; [right|done|left]; nia.
Qed.

(** Storing a fragment of [p] adds it to what is gathered. *)
Lemma stored_gathers got j s :
  slot_gathers mtu p got s -> (j < fragments_of p mtu)%nat ->
  slot_gathers mtu p (j :: got)
    (stored_slot s (fragment p mtu j) (frame_offset mtu (fragment p mtu j))).
Proof.
  intros [Hf Hbits Hbytes] Hj. pose proof fragments_positive as H0.
  pose proof (slot_for_fragment 0 j s Hf) as Hf'.
  pose proof (stored_slot_for mtu _ s Hmtu (fragment_valid j Hj) Hf') as Hs'.
  destruct (frame_offset_bounds mtu _ Hmtu (fragment_valid j Hj)) as (Hb & _).
  destruct (fragment_fields p mtu j Hwf Hmtu Hj) as (_ & _ & Ei & _).
  pose proof (holds_bytes _ _ (for_holds _ _ _ Hf)) as Hby.
  split.
  - by apply (slot_for_fragment j 0).
  - intros k Hk. cbn [stored_slot slot_received_bitmap]. rewrite Ei, testbit_lor_pow2 by lia.
    rewrite Hbits by done. destruct (Z.eqb_spec (Z.of_nat j) (Z.of_nat k)) as [->%Nat2Z.inj|Hne].
    + rewrite orb_true_r. symmetry. apply bool_decide_eq_true. by left.
    + rewrite orb_false_r. apply bool_decide_ext. rewrite elem_of_cons. naive_solver.
  - intros k Hk Hin. unfold has_fragment. cbn [stored_slot slot_bytes].
    rewrite fragment_offset in Hb |- * by done.
    destruct (decide (k = j)) as [->|Hne].
    + apply sub_bytes_splice_eq. lia.
    + rewrite sub_bytes_splice_ne by (lia || by apply fragment_slices_disjoint).
      apply Hbytes; [done|]. apply elem_of_cons in Hin as [->|Hin]; done.
Qed.

(** A newly claimed slot has gathered nothing. *)
Lemma claimed_gathers j tick :
  (j < fragments_of p mtu)%nat ->
  slot_gathers mtu p [] (claim_slot empty_slot (fragment p mtu j) tick).
Proof.
  intros Hj. split.
  - apply (slot_for_fragment j 0).
    apply claim_slot_for; [by apply fragment_typed|done|by apply fragment_valid].
  - intros k _. cbn. by rewrite Z.testbit_0_l.
  - intros k _ Hin. by apply elem_of_nil in Hin.
Qed.

Lemma gathers_full got s :
  slot_gathers mtu p got s ->
  s.(slot_received_bitmap) = Z.ones s.(slot_fragment_count) <->
  (forall k, (k < fragments_of p mtu)%nat -> k ∈ got).
Proof.
  intros [Hf Hbits _]. pose proof fragments_positive as H0.
  destruct (fragment_fields p mtu 0 Hwf Hmtu H0) as (_ & _ & _ & En & _).
  pose proof (holds_bitmap _ _ (for_holds _ _ _ Hf)) as Hb.
  pose proof (for_count _ _ _ Hf) as Hn. rewrite En in Hn. rewrite Hn in Hb |- *.
  rewrite full_bitmap by (done || lia). split.
  - intros Hall k Hk. apply (bool_decide_eq_true (k ∈ got)). rewrite <- Hbits by done. apply Hall. lia.
  - intros Hall k Hk. rewrite <- (Z2Nat.id k) by lia.
    rewrite Hbits by lia. apply bool_decide_eq_true, Hall. lia.
Qed.

(** A slot that has gathered everything spells the post. *)
Lemma gathers_spells got s :
  slot_gathers mtu p got s -> (forall k, (k < fragments_of p mtu)%nat -> k ∈ got) ->
  slot_spells mtu p s.
Proof.
  intros [Hf _ Hbytes] Hall. pose proof fragments_positive as H0.
  destruct (fragment_fields p mtu 0 Hwf Hmtu H0) as (_ & _ & _ & _ & Et & _).
  pose proof (for_total _ _ _ Hf) as Ht. rewrite Et in Ht.
  split_and!; [done| |rewrite (for_key _ _ _ Hf); by apply fragment_key].
  rewrite Ht, Nat2Z.id. destruct (fragments_of_bounds p mtu Hwf Hmtu) as [_ Hb].
  rewrite <- (fragment_payloads p mtu) by done.
  transitivity (take (fragments_of p mtu * fragment_capacity mtu)
    (sub_bytes 0 (encoded_size p) (slot_bytes s))).
  - symmetry. apply take_ge. unfold sub_bytes. rewrite length_take. lia.
  - rewrite <- concat_slices. f_equal. apply map_ext_in. intros k [_ Hk]%in_seq.
    rewrite <- (Hbytes k Hk (Hall k Hk)).
    rewrite length_fragment_payload by done. apply sub_bytes_of_prefix.
    assert (k * fragment_capacity mtu <= fragment_capacity mtu * (fragments_of p mtu - 1))%nat
      by nia. lia.
Qed.

End Gathering.

(** ** Frames of other keys leave a slot alone *)

Lemma quarantine_slots r t s d : (quarantine r t s d).(slots_) = r.(slots_).
Proof. unfold quarantine. by destruct (existsb _ _). Qed.

Lemma quarantine_mtu r t s d : (quarantine r t s d).(mtu_) = r.(mtu_).
Proof. unfold quarantine. by destruct (existsb _ _). Qed.

Lemma quarantine_other k r t s d :
  k <> (t, s) -> key_quarantined k (quarantine r t s d).(quarantine_) ->
  key_quarantined k r.(quarantine_).
Proof.
  intros Hne. unfold quarantine. destruct (existsb _ _); [done|]. cbn.
  unfold key_quarantined. rewrite map_app, elem_of_app. intros [Hin|Hin].
  - split_if; [|done]. destruct (quarantine_ r); [done|]. cbn in *. by right.
  - apply list_elem_of_singleton in Hin. done.
Qed.

Lemma outcome_other r f tick res r' i s :
  Reassembler_inv r -> DataFrame_typed f -> accept_outcome r f tick res r' ->
  r.(slots_) !! i = Some s -> s.(slot_used) = true -> slot_key s <> frame_key f ->
  r'.(slots_) !! i = Some s /\ r'.(mtu_) = r.(mtu_).
Proof.
  intros Hr Hf Ho Hi Hu Hne.
  assert (forall j t, r.(slots_) !! j = Some t -> (t = empty_slot \/ slot_key t = frame_key f) -> j <> i) as Hij.
  { intros j t Hj Ht ->. assert (t = s) as -> by congruence. destruct Ht as [->|Ht]; [|done].
    unfold empty_slot in Hu. done. }
  assert (forall r1 j t, target r f tick r1 j t -> j <> i /\ r1.(mtu_) = r.(mtu_) /\
    (r1.(slots_) = r.(slots_) \/ r1.(slots_) = <[j := t]> r.(slots_))) as Ht.
  { intros r1 j t [k u Hk [_ _ Hku _ _]|k Hno Hk u]; (split; [|split]); try done.
    - eapply Hij; [done|]. by right.
    - by left.
    - eapply Hij; [done|]. by left.
    - by right. }
  destruct Ho as [|?? |j t Hj Htu Hk ? _|?|j t Hjt|j t Hjt|r1 j t Hm Hv Hjt Hrec s' Hopen
    |r1 j t p Hm Hv Hjt Hrec s' Hfull Hsp|r1 j t Hm Hv Hjt Hrec s' Hfull Hsp]; try done;
    unfold drop_slot; rewrite ?quarantine_slots, ?quarantine_mtu; cbn [set_slots slots_ mtu_].
  - split; [|done]. rewrite list_lookup_insert_ne; [done|]. eapply Hij; [done|]. by right.
  - split; [|done]. rewrite list_lookup_insert_ne; [done|]. by eapply Ht.
  - destruct (Ht _ _ _ Hjt) as (Hji & Hmt & [He|He]); rewrite He, !list_lookup_insert_ne by done; done.
  - destruct (Ht _ _ _ Hjt) as (Hji & Hmt & [He|He]); rewrite He, !list_lookup_insert_ne by done; done.
  - destruct (Ht _ _ _ Hjt) as (Hji & Hmt & [He|He]); rewrite He, !list_lookup_insert_ne by done; done.
Qed.

Lemma outcome_other_quarantine r f tick res r' k :
  accept_outcome r f tick res r' -> k <> frame_key f ->
  key_quarantined k r'.(quarantine_) -> key_quarantined k r.(quarantine_).
Proof.
  intros Ho Hne.
  assert (forall r1 j t, target r f tick r1 j t ->
    r1.(quarantine_) = r.(quarantine_) /\ slot_key t = frame_key f) as Ht.
  { by intros r1 j t [? ? ? [_ _ ? _ _]|? ? ? u]. }
  destruct Ho as [|?? |j t Hj Htu Hk ? _|?|j t Hjt|j t Hjt|r1 j t Hm Hv Hjt Hrec s' Hopen
    |r1 j t p Hm Hv Hjt Hrec s' Hfull Hsp|r1 j t Hm Hv Hjt Hrec s' Hfull Hsp]; try done;
    cbn [set_slots quarantine_].
  - by apply quarantine_other.
  - by apply quarantine_other.
  - by destruct (Ht _ _ _ Hjt) as [-> _].
  - by destruct (Ht _ _ _ Hjt) as [-> _].
  - destruct (Ht _ _ _ Hjt) as [Hq Hk]. intros Hin. rewrite <- Hq.
    apply quarantine_other in Hin; [done|]. unfold slot_key in Hk. cbn. congruence.
Qed.

(** ** Steps while gathering *)

Lemma refresh_slot r now i s :
  r.(slots_) !! i = Some s -> slot_expired now s = false ->
  (refresh r now).(slots_) !! i = Some s.
Proof. intros Hi He. unfold refresh. cbn. rewrite list_lookup_fmap, Hi. cbn. by rewrite He. Qed.

Lemma refresh_quarantine r now k :
  key_quarantined k (refresh r now).(quarantine_) -> key_quarantined k r.(quarantine_).
Proof.
  intros Hin. unfold key_quarantined in *.
  eapply elem_of_sublist; [exact Hin|]. apply sublist_map, live_keys_sublist.
Qed.

Lemma refresh_gathering p deadline got r now :
  gathering p deadline got r -> now < deadline -> gathering p deadline got (refresh r now).
Proof.
  intros [(i & s & Hi & Hd & Hs) Hq] Hnow. split.
  - exists i, s. split_and!; [|done|done]. apply refresh_slot; [done|].
    unfold slot_expired, deadline_reached. rewrite Hd, (proj2 (Z.leb_gt _ _)) by lia. by rewrite andb_false_r.
  - intros Hin. by apply refresh_quarantine in Hin.
Qed.

Section Steps.

Context (p : PostPayload) (deadline : Z) (got : list nat) (r : Reassembler).
Hypothesis Hwf : PostPayload_wf p.
Hypothesis Hr : Reassembler_inv r.
Hypothesis Hmtu : is_supported_mtu r.(mtu_) = true.

Lemma gathering_other f tick :
  DataFrame_typed f -> frame_key f <> post_key p -> tick < deadline ->
  gathering p deadline got r ->
  exists res r', Reassembler_accept r f tick = Some (res, r') /\
    gathering p deadline got r' /\ Reassembler_inv r' /\ r'.(mtu_) = r.(mtu_).
Proof.
  intros Hf Hne Ht Hg. apply (refresh_gathering _ _ _ _ tick) in Hg; [|done].
  destruct (accept_has_outcome r f tick Hr Hf) as (res & r' & He & Ho).
  exists res, r'. split; [done|]. destruct Hg as [(i & s & Hi & Hd & Hs) Hq].
  pose proof (for_used _ _ _ (gathers_for _ _ _ _ Hs)) as Hu.
  assert (slot_key s = post_key p) as Hk.
  { rewrite (for_key _ _ _ (gathers_for _ _ _ _ Hs)). apply fragment_key; [done..|].
    by apply fragments_positive. }
  destruct (outcome_other _ f tick res r' i s (refresh_inv r tick Hr) Hf Ho Hi Hu) as [Hi' Hm'];
    [congruence|].
  split_and!.
  - split.
    + exists i, s. split_and!; [done|done|]. by rewrite Hm'.
    + intros Hin. apply Hq. eapply outcome_other_quarantine; [done|congruence|done].
  - by eapply accept_outcome_inv, Ho; [apply refresh_inv|].
  - done.
Qed.

(** The slot a fragment of [p] goes to is the one that gathers it. *)
Lemma gathering_target r0 j tick i s r1 i' s' :
  Reassembler_inv r0 -> r0.(mtu_) = r.(mtu_) -> (j < fragments_of p r.(mtu_))%nat ->
  r0.(slots_) !! i = Some s -> slot_gathers r.(mtu_) p got s ->
  target r0 (fragment p r.(mtu_) j) tick r1 i' s' -> r1 = r0 /\ i' = i /\ s' = s.
Proof.
  intros Hr0 Hm0 Hj Hi Hs Ht.
  pose proof (gathers_for _ _ _ _ Hs) as Hf. apply (slot_for_fragment p _ 0 j) in Hf.
  destruct Ht as [k u Hk Hu|k Hno Hk u].
  - assert (k = i) as ->.
    { apply (inv_distinct r0 Hr0 k i u s); [done..|apply Hu|apply Hf|].
      by rewrite (for_key _ _ _ Hu), (for_key _ _ _ Hf). }
    split_and!; congruence.
  - exfalso. rewrite Forall_lookup in Hno. specialize (Hno i s Hi).
    rewrite (proj2 (holds_key_iff _ s)) in Hno; [done|]. split; apply Hf.
Qed.

End Steps.

Lemma slot_spells_inj mtu p q s : slot_spells mtu p s -> slot_spells mtu q s -> p = q.
Proof. intros (Hp & Hb & _) (Hq & Hb' & _). apply post_bytes_inj; congruence. Qed.

Lemma recorded_gathered p mtu got j s :
  PostPayload_wf p -> is_supported_mtu mtu = true -> (j < fragments_of p mtu)%nat ->
  slot_gathers mtu p got s -> recorded (fragment p mtu j) s <-> (j ∈ got).
Proof.
  intros Hwf Hm Hj Hs. unfold recorded.
  destruct (fragment_fields p mtu j Hwf Hm Hj) as (_ & _ & -> & _).
  rewrite (gathers_bits _ _ _ _ Hs) by done. apply bool_decide_eq_true.
Qed.

(** What a fragment of the gathered post can lead to. *)
Definition gathering_result (p : PostPayload) (mtu : nat) (deadline : Z) (got : list nat)
    (j : nat) (res : ReassemblyResult) (r' : Reassembler) : Prop :=
  let all := forall k, (k < fragments_of p mtu)%nat -> (k ∈ j :: got) in
  ((j ∈ got) /\ res = no_post ReassemblyStatus_DuplicateFragment /\
     gathering p deadline got r') \/
  ((j ∉ got) /\ ~ all /\ res = no_post ReassemblyStatus_FragmentAccepted /\
     gathering p deadline (j :: got) r') \/
  ((j ∉ got) /\ all /\ res = mkReassemblyResult ReassemblyStatus_Complete
     (Some (mkCompletedPost p (post_bytes p) (canonical_frames_of p mtu)))).

Lemma gathering_outcome p deadline got r j tick res r' :
  PostPayload_wf p -> Reassembler_inv r -> is_supported_mtu r.(mtu_) = true ->
  (j < fragments_of p r.(mtu_))%nat -> gathering p deadline got r ->
  accept_outcome r (fragment p r.(mtu_) j) tick res r' ->
  r'.(mtu_) = r.(mtu_) /\ gathering_result p r.(mtu_) deadline got j res r'.
Proof.
  intros Hwf Hr Hm Hj Hg Ho. pose proof Hg as [(i & s & Hi & Hd & Hs) Hq].
  pose proof (gathers_for _ _ _ _ Hs) as Hf. apply (slot_for_fragment p _ 0 j) in Hf.
  pose proof (fragment_key p _ Hwf Hm j Hj) as Hkey.
  pose proof (recorded_gathered p _ got j s Hwf Hm Hj Hs) as Hrec.
  assert (holds_key (fragment p (mtu_ r) j) s = true) as Hhold
    by (apply holds_key_iff; split; apply Hf).
  pose proof (stored_gathers p _ Hwf Hm got j s Hs Hj) as Hs'.
  pose proof (gathers_full p _ Hwf Hm _ _ Hs') as Hfull.
  assert (forall r1 i' s', target r (fragment p (mtu_ r) j) tick r1 i' s' ->
    r1 = r /\ i' = i /\ s' = s) as Htarget.
  { intros r1 i' s' Ht. by eapply gathering_target. }
  unfold gathering_result. destruct Ho as [Hno|? ? Hin|i' s' Hi' Hu' Hk' Hdiv _|Hnone Hall
    |i' s' Ht Hr'|i' s' Ht Hr' Hne _|r1 i' s' ? ? Ht Hr' s'' Hopen
    |r1 i' s' q ? ? Ht Hr' s'' Hful Hsp|r1 i' s' ? ? Ht Hr' s'' Hful Hsp].
  - destruct Hno. split; [done|]. by apply fragment_valid.
  - rewrite Hkey in Hin. done.
  - assert (i' = i) as ->.
    { apply (inv_distinct r Hr i' i s' s); [done..|apply Hf|]. by rewrite Hk', (for_key _ _ _ Hf). }
    assert (s' = s) as -> by congruence. destruct Hf as [_ _ _ Ht Hc]. by destruct Hdiv.
  - rewrite Forall_lookup in Hnone. specialize (Hnone i s Hi). congruence.
  - destruct (Htarget _ _ _ Ht) as (_ & -> & ->). split; [done|]. left. by rewrite <- Hrec.
  - destruct (Htarget _ _ _ Ht) as (_ & -> & ->). destruct Hne.
    rewrite fragment_offset by done. apply (gathers_bytes _ _ _ _ Hs); [done|]. by apply Hrec.
  - destruct (Htarget _ _ _ Ht) as (-> & -> & ->). split; [done|]. right. left.
    rewrite <- Hfull, <- Hrec. split_and!; [done..|]. split; [|done].
    exists i, s''. split_and!; [|done|done].
    apply list_lookup_insert_eq. by eapply lookup_lt_Some.
  - destruct (Htarget _ _ _ Ht) as (-> & -> & ->). split; [done|]. right. right.
    pose proof (proj1 Hfull Hful) as Hall'. rewrite <- Hrec. split_and!; [done..|].
    by rewrite (slot_spells_inj _ _ _ _ Hsp (gathers_spells p _ Hwf Hm _ _ Hs' Hall')).
  - destruct (Htarget _ _ _ Ht) as (-> & -> & ->). destruct Hsp. exists p.
    exact (gathers_spells p _ Hwf Hm _ _ Hs' (proj1 Hfull Hful)).
Qed.

(** Starting to gather: the first fragment of a post the reassembler is ready for. *)
Lemma ready_outcome p r j tick res r' :
  PostPayload_wf p -> Reassembler_inv r -> is_supported_mtu r.(mtu_) = true ->
  (j < fragments_of p r.(mtu_))%nat -> ready_for p r ->
  accept_outcome r (fragment p r.(mtu_) j) tick res r' ->
  r'.(mtu_) = r.(mtu_) /\
  gathering_result p r.(mtu_) (saturating_deadline tick kReassemblyTimeoutTicks) [] j res r'.
Proof.
  intros Hwf Hr Hm Hj (Hnone & Hfree & Hq) Ho.
  pose proof (fragment_key p _ Hwf Hm j Hj) as Hkey.
  pose proof (claimed_gathers p _ Hwf Hm j tick Hj) as Hs.
  pose proof (stored_gathers p _ Hwf Hm [] j _ Hs Hj) as Hs'.
  pose proof (gathers_full p _ Hwf Hm _ _ Hs') as Hfull.
  rewrite Forall_lookup in Hnone.
  assert (forall r1 i s, target r (fragment p (mtu_ r) j) tick r1 i s ->
    s = claim_slot empty_slot (fragment p (mtu_ r) j) tick /\ r1 = claim r i s /\
    (i < length r.(slots_))%nat) as Htarget.
  { intros r1 i s [k u Hk Hu|k _ Hk u]; [|split_and!; [done|done|by eapply lookup_lt_Some]].
    destruct (Hnone k u Hk (for_used _ _ _ Hu)). by rewrite (for_key _ _ _ Hu). }
  unfold gathering_result. destruct Ho as [Hno|? ? Hin|i' s' Hi' Hu' Hk' Hdiv _|_ Hall
    |i' s' Ht Hr'|i' s' Ht Hr' Hne _|r1 i' s' ? ? Ht Hr' s'' Hopen
    |r1 i' s' q ? ? Ht Hr' s'' Hful Hsp|r1 i' s' ? ? Ht Hr' s'' Hful Hsp].
  - destruct Hno. split; [done|]. by apply fragment_valid.
  - rewrite Hkey in Hin. done.
  - destruct (Hnone i' s' Hi' Hu'). congruence.
  - apply Exists_exists in Hfree as (u & Hu & Hf). rewrite Forall_forall in Hall.
    specialize (Hall u Hu). congruence.
  - destruct (Htarget _ _ _ Ht) as (-> & _ & _). unfold recorded in Hr'. cbn in Hr'.
    by rewrite Z.testbit_0_l in Hr'.
  - destruct (Htarget _ _ _ Ht) as (-> & _ & _). unfold recorded in Hr'. cbn in Hr'.
    by rewrite Z.testbit_0_l in Hr'.
  - destruct (Htarget _ _ _ Ht) as (-> & -> & Hlt). split; [done|]. right. left.
    rewrite <- Hfull. split_and!; [by apply not_elem_of_nil|done|done|]. split; [|done].
    exists i', s''. split_and!; [|done|done].
    cbn. apply list_lookup_insert_eq. by rewrite length_insert.
  - destruct (Htarget _ _ _ Ht) as (-> & -> & Hlt). split; [done|]. right. right.
    pose proof (proj1 Hfull Hful) as Hall'. split_and!; [by apply not_elem_of_nil|done|].
    by rewrite (slot_spells_inj _ _ _ _ Hsp (gathers_spells p _ Hwf Hm _ _ Hs' Hall')).
  - destruct (Htarget _ _ _ Ht) as (-> & -> & Hlt). destruct Hsp. exists p.
    exact (gathers_spells p _ Hwf Hm _ _ Hs' (proj1 Hfull Hful)).
Qed.

(** ** Whole sequences of frames *)

(** Accept frames, each with its arrival tick, in order. *)
Fixpoint accept_all (r : Reassembler) (events : list (DataFrame * Z))
  : option (list ReassemblyResult * Reassembler) :=
  match events with
  | [] => Some ([], r)
  | (frame, tick) :: events =>
      '(result, r) ← Reassembler_accept r frame tick;
      '(results, r) ← accept_all r events;
      Some (result :: results, r)
  end.

(** The indices of the frames of [p]'s key. *)
Definition received (p : PostPayload) (events : list (DataFrame * Z)) : list nat :=
  omap (fun e => if bool_decide (frame_key e.1 = post_key p)
                 then Some (Z.to_nat e.1.(fragment_index)) else None) events.

(** A frame of another message, or a fragment of [p]. *)
Definition fragment_or_other (p : PostPayload) (mtu : nat) (f : DataFrame) : Prop :=
  DataFrame_typed f /\
  (frame_key f <> post_key p \/
   exists j, (j < fragments_of p mtu)%nat /\ f = fragment p mtu j).

Lemma gathering_same p d got got' r :
  (forall k, k ∈ got <-> k ∈ got') -> gathering p d got r -> gathering p d got' r.
Proof.
  intros Hsame [(i & s & Hi & Hd & [Hf Hbits Hbytes]) Hq]. split; [|done].
  exists i, s. split_and!; [done..|]. split; [done| |].
  - intros k Hk. rewrite Hbits by done. by apply bool_decide_ext.
  - intros k Hk Hin. apply Hbytes; [done|]. by apply Hsame.
Qed.

Lemma accept_all_app r es es' :
  accept_all r (es ++ es') =
  ('(results, r) ← accept_all r es; '(results', r) ← accept_all r es';
   Some (results ++ results', r)).
Proof.
  revert r. induction es as [|[f t] es IH]; intros r; cbn [accept_all app].
  - cbn. by destruct (accept_all r es') as [[]|].
  - destruct (Reassembler_accept r f t) as [[res r1]|]; cbn; [|done]. rewrite IH.
    destruct (accept_all r1 es) as [[ress r2]|]; cbn; [|done].
    by destruct (accept_all r2 es') as [[]|].
Qed.

Lemma received_fragment p mtu j t events :
  PostPayload_wf p -> is_supported_mtu mtu = true -> (j < fragments_of p mtu)%nat ->
  received p ((fragment p mtu j, t) :: events) = j :: received p events.
Proof.
  intros Hwf Hm Hj. unfold received. cbn. rewrite bool_decide_true by by apply fragment_key.
  destruct (fragment_fields p mtu j Hwf Hm Hj) as (_ & _ & Ei & _).
  cbn in Ei. by rewrite Ei, Nat2Z.id.
Qed.

Lemma received_other p f t events :
  frame_key f <> post_key p -> received p ((f, t) :: events) = received p events.
Proof. intros Hne. unfold received. cbn. by rewrite bool_decide_false. Qed.

(** While some fragment is missing, everything that arrives is gathered. *)
Lemma gathering_run p deadline got r events :
  PostPayload_wf p -> Reassembler_inv r -> is_supported_mtu r.(mtu_) = true ->
  Forall (fun e => e.2 < deadline /\ fragment_or_other p r.(mtu_) e.1) events ->
  ~ (forall k, (k < fragments_of p r.(mtu_))%nat -> (k ∈ received p events ++ got)) ->
  gathering p deadline got r ->
  exists results r', accept_all r events = Some (results, r') /\ Reassembler_inv r' /\
    r'.(mtu_) = r.(mtu_) /\ gathering p deadline (received p events ++ got) r'.
Proof.
  intros Hwf Hr Hm Hev. revert got r Hr Hm Hev.
  induction events as [|[f t] events IH]; intros got r Hr Hm Hev Hopen Hg; [by exists [], r|].
  apply Forall_cons in Hev as [[Ht [Hf Hkind]] Hev]. cbn [fst snd] in *.
  cbn [accept_all]. destruct Hkind as [Hne|(j & Hj & ->)].
  - rewrite received_other in Hopen |- * by done.
    destruct (gathering_other p deadline got r Hwf Hr Hm f t Hf Hne Ht Hg)
      as (res & r1 & -> & Hg1 & Hr1 & Hm1). cbn [mbind option_bind].
    rewrite <- Hm1 in Hm, Hev, Hopen.
    destruct (IH got r1 Hr1 Hm Hev Hopen Hg1) as (results & r2 & -> & Hr2 & Hm2 & Hg2).
    do 2 eexists. split_and!; [done|done|congruence|done].
  - rewrite received_fragment in Hopen |- * by done.
    destruct (accept_has_outcome r _ t Hr Hf) as (res & r1 & -> & Ho). cbn [mbind option_bind].
    pose proof (refresh_gathering _ _ _ _ t Hg Ht) as Hg0.
    destruct (gathering_outcome p deadline got (refresh r t) j t res r1 Hwf (refresh_inv r t Hr)
      Hm Hj Hg0 Ho) as [Hm1 Hres].
    assert (Reassembler_inv r1) as Hr1 by (by eapply accept_outcome_inv, Ho; [apply refresh_inv|]).
    assert (gathering p deadline (j :: got) r1) as Hg1.
    { destruct Hres as [(Hin & _ & Hg1)|[(_ & _ & _ & Hg1)|(_ & Hall & _)]]; [|done|].
      - eapply gathering_same, Hg1. intros k. rewrite elem_of_cons. naive_solver.
      - destruct Hopen. intros k Hk. specialize (Hall k Hk). set_solver. }
    assert (forall k, k ∈ received p events ++ j :: got <-> k ∈ (j :: received p events) ++ got) as Hsame
      by set_solver.
    change (mtu_ (refresh r t)) with (mtu_ r) in *. rewrite <- Hm1 in Hm, Hev, Hopen.
    destruct (IH (j :: got) r1 Hr1 Hm Hev) as (results & r2 & -> & Hr2 & Hm2 & Hg2); [|done|].
    { intros Hall. apply Hopen. intros k Hk. by apply Hsame, Hall. }
    do 2 eexists. split_and!; [done|done|congruence|]. by eapply gathering_same, Hg2.
Qed.

(** The operations of a reassembler. *)
Inductive Reassembler_step : Reassembler -> Reassembler -> Prop :=
| step_accept r f tick res r' :
    DataFrame_typed f -> Reassembler_accept r f tick = Some (res, r') -> Reassembler_step r r'
| step_expire r now : Reassembler_step r (Reassembler_expire r now).2
| step_clear r : Reassembler_step r (Reassembler_clear r).

Definition Reassembler_reachable (r : Reassembler) : Prop :=
  exists mtu, rtc Reassembler_step (Reassembler_make mtu) r.

Lemma accept_inv r f tick res r' :
  Reassembler_inv r -> DataFrame_typed f -> Reassembler_accept r f tick = Some (res, r') ->
  Reassembler_inv r'.
Proof.
  intros Hr Hf He. destruct (accept_has_outcome r f tick Hr Hf) as (res1 & r1 & He1 & Ho).
  rewrite He in He1. injection He1 as <- <-. by eapply accept_outcome_inv, Ho; [apply refresh_inv|].
Qed.

Lemma clear_inv r : Reassembler_inv r -> Reassembler_inv (Reassembler_clear r).
Proof.
  intros Hr. unfold Reassembler_clear. destruct Hr. split; try done; cbn -[active_count].
  - by rewrite length_map.
  - apply Forall_map. apply Forall_true. by left.
  - intros s (x & -> & _)%list_elem_of_fmap. done.
  - intros i j s t (x & -> & _)%list_lookup_fmap_Some _. done.
  - lia.
  - constructor.
  - assert (forall l : list Slot, count_if slot_used (map (fun _ => empty_slot) l) = 0%nat) as H0.
    { intros l. by induction l. }
    unfold active_count at 1. cbn [set_quarantine set_slots slots_]. rewrite H0. lia.
Qed.

Lemma reachable_inv r : Reassembler_reachable r -> Reassembler_inv r.
Proof.
  intros [mtu Hsteps].
  refine (rtc_invariant Reassembler_step Reassembler_inv _ _ r Hsteps (Reassembler_make_inv mtu)).
  intros x y Hx Hxy. destruct Hxy; [by eapply accept_inv|by apply expire_inv|by apply clear_inv].
Qed.

(** The last missing fragment completes the post. *)
Definition accept_all_completes (p : PostPayload) (r : Reassembler)
    (events : list (DataFrame * Z)) (j : nat) (t : Z) : Prop :=
  exists results r',
    accept_all r (events ++ [(fragment p r.(mtu_) j, t)]) =
      Some (results ++ [mkReassemblyResult ReassemblyStatus_Complete
              (Some (mkCompletedPost p (post_bytes p) (canonical_frames_of p r.(mtu_))))], r').

Lemma accept_last p d got r j t :
  PostPayload_wf p -> Reassembler_inv r -> is_supported_mtu r.(mtu_) = true ->
  (j < fragments_of p r.(mtu_))%nat -> gathering p d got r -> t < d -> (j ∉ got) ->
  (forall k, (k < fragments_of p r.(mtu_))%nat -> (k ∈ j :: got)) ->
  accept_all_completes p r [] j t.
Proof.
  intros Hwf Hr Hm Hj Hg Ht Hnew Hall. unfold accept_all_completes. cbn [app accept_all].
  destruct (accept_has_outcome r _ t Hr (fragment_typed p _ Hwf Hm j Hj)) as (res & r1 & He & Ho).
  rewrite He. cbn [mbind option_bind].
  pose proof (refresh_gathering _ _ _ _ t Hg Ht) as Hg0.
  destruct (gathering_outcome p d got (refresh r t) j t res r1 Hwf (refresh_inv r t Hr) Hm Hj Hg0 Ho)
    as [_ [(Hin & _)|[(_ & Hno & _)|(_ & _ & ->)]]]; [done|done|].
  by exists [], r1.
Qed.

Lemma completes_app p r events j t r1 results :
  accept_all r events = Some (results, r1) -> r1.(mtu_) = r.(mtu_) ->
  accept_all_completes p r1 [] j t -> accept_all_completes p r events j t.
Proof.
  unfold accept_all_completes. intros He Hm (results' & r' & Hl). rewrite Hm in Hl.
  cbn [app] in Hl. rewrite accept_all_app, He. cbn [mbind option_bind]. rewrite Hl.
  cbn [mbind option_bind]. rewrite app_assoc. eauto.
Qed.

Lemma gather_all p r events j t j0 t0 :
  PostPayload_wf p -> Reassembler_inv r -> is_supported_mtu r.(mtu_) = true ->
  ready_for p (refresh r t0) ->
  head (events ++ [(fragment p r.(mtu_) j, t)]) = Some (fragment p r.(mtu_) j0, t0) ->
  (j0 < fragments_of p r.(mtu_))%nat -> (j < fragments_of p r.(mtu_))%nat ->
  Forall (fun e => e.2 < saturating_deadline t0 kReassemblyTimeoutTicks /\
                   fragment_or_other p r.(mtu_) e.1)
    (events ++ [(fragment p r.(mtu_) j, t)]) ->
  (j ∉ received p events) ->
  (forall k, (k < fragments_of p r.(mtu_))%nat -> k = j \/ (k ∈ received p events)) ->
  accept_all_completes p r events j t.
Proof.
  intros Hwf Hr Hm Hready Hhead Hj0 Hj Hev Hnew Hall.
  apply Forall_app in Hev as [Hev [[Ht _] _]%Forall_cons].
  assert (forall j t r1 res, (j < fragments_of p r.(mtu_))%nat ->
    Reassembler_accept r (fragment p r.(mtu_) j) t = Some (res, r1) -> t = t0 ->
    Reassembler_inv r1 /\ r1.(mtu_) = r.(mtu_) /\
    gathering_result p r.(mtu_) (saturating_deadline t0 kReassemblyTimeoutTicks) [] j res r1)
    as Hfirst.
  { intros i t' r1 res Hi He ->. pose proof (fragment_typed p _ Hwf Hm i Hi) as Hf.
    destruct (accept_has_outcome r _ t0 Hr Hf) as (res1 & r2 & He2 & Ho).
    rewrite He in He2. injection He2 as <- <-. split; [by eapply accept_inv|].
    by apply (ready_outcome p (refresh r t0) i t0 res r1 Hwf (refresh_inv r t0 Hr)). }
  destruct events as [|e events]; cbn [app head] in Hhead.
  - unfold accept_all_completes. cbn [app accept_all].
    destruct (accept_has_outcome r _ t Hr (fragment_typed p _ Hwf Hm j Hj)) as (res & r1 & He & _).
    assert (t = t0) as Htt by congruence.
    destruct (Hfirst j t r1 res Hj He Htt) as (_ & _ & [(Hin & _)|[(_ & Hno & _)|(_ & _ & ->)]]).
    + by apply elem_of_nil in Hin.
    + destruct Hno. intros k Hk. destruct (Hall k Hk) as [->|Hin]; [by left|by apply elem_of_nil in Hin].
    + rewrite He. cbn. by exists [], r1.
  - assert (e = (fragment p (mtu_ r) j0, t0)) as -> by congruence.
    destruct (accept_has_outcome r _ t0 Hr (fragment_typed p _ Hwf Hm j0 Hj0)) as (res & r1 & He & _).
    destruct (Hfirst j0 t0 r1 res Hj0 He eq_refl) as (Hr1 & Hm1 & Hres).
    rewrite received_fragment in Hnew, Hall by done.
    assert (j <> j0) as Hjj by set_solver.
    assert (gathering p (saturating_deadline t0 kReassemblyTimeoutTicks) [j0] r1) as Hg1.
    { destruct Hres as [(Hin & _)|[(_ & _ & _ & Hg)|(_ & Hall1 & _)]];
        [by apply elem_of_nil in Hin|done|].
      specialize (Hall1 j Hj). set_solver. }
    apply Forall_cons in Hev as [_ Hev]. rewrite <- Hm1 in Hm, Hev.
    destruct (gathering_run p _ [j0] r1 events Hwf Hr1 Hm Hev) as (results & r2 & He2 & Hr2 & Hm2 & Hg2);
      [|done|].
    { intros Hfull. specialize (Hfull j). rewrite Hm1 in Hfull. specialize (Hfull Hj). set_solver. }
    eapply (completes_app p r _ j t r2); [cbn [accept_all]; rewrite He; cbn [mbind option_bind];
      rewrite He2; done|congruence|].
    rewrite <- Hm2 in Hm. rewrite <- Hm1, <- Hm2 in Hj, Hall.
    eapply accept_last; [done..| | |].
    + exact Ht.
    + set_solver.
    + intros k Hk. destruct (Hall k Hk); set_solver.
Qed.

(** ** Quarantine *)

Lemma quarantined_until r k d now :
  mkQuarantinedKey k.1 k.2 d ∈ r.(quarantine_) -> now < d ->
  key_quarantined k (refresh r now).(quarantine_).
Proof.
  intros Hin Hnow. unfold key_quarantined. apply list_elem_of_fmap.
  exists (mkQuarantinedKey k.1 k.2 d). split; [by destruct k|].
  apply list_elem_of_In, List.filter_In. split; [by apply list_elem_of_In|].
  unfold deadline_reached. cbn. apply negb_true_iff, Z.leb_gt. lia.
Qed.

Lemma quarantine_adds r t s d :
  ~ key_quarantined (t, s) r.(quarantine_) ->
  mkQuarantinedKey t s d ∈ (quarantine r t s d).(quarantine_).
Proof.
  intros Hno. unfold quarantine. destruct (existsb _ _) eqn:E.
  - by apply quarantined_as_iff in E.
  - cbn. apply elem_of_app. right. by apply list_elem_of_singleton.
Qed.

Lemma refresh_deadline r now i s :
  (refresh r now).(slots_) !! i = Some s -> s.(slot_used) = true -> now < s.(slot_deadline).
Proof.
  unfold refresh. cbn. rewrite list_lookup_fmap. intros (x & Hx & ->)%fmap_Some Hu.
  destruct (slot_expired now x) eqn:E; [done|]. unfold slot_expired, deadline_reached in E.
  rewrite Hu in E. cbn in E. by apply Z.leb_gt in E.
Qed.

(** A valid frame of a quarantined key has one outcome, provided no slot holds
    the key of a quarantined one: [accept] checks the quarantine first. *)
Lemma accept_quarantined r f tick :
  Reassembler_inv r -> DataFrame_typed f -> is_supported_mtu r.(mtu_) = true ->
  frame_valid r.(mtu_) f -> key_quarantined (frame_key f) (refresh r tick).(quarantine_) ->
  Reassembler_accept r f tick = Some (no_post ReassemblyStatus_Quarantined, refresh r tick).
Proof.
  intros Hr Hf Hm Hv Hq. unfold Reassembler_accept. fold (refresh r tick).
  rewrite (proj2 (accept_valid_iff (refresh r tick) f (refresh_inv r tick Hr) Hf)) by done.
  cbn [negb]. rewrite is_quarantined_refresh.
  by rewrite (proj2 (quarantined_as_iff _ _ _) Hq).
Qed.

(** ** Property theorems *)

(** C3: reassembly survives reordering, duplication and interleaving.  From any
    state that is ready for a post, feed a sequence of frames that begins with
    a fragment of the post and contains, in any order and with any repetitions,
    its other fragments, mixed with arbitrary frames of other messages, all
    arriving before the deadline the first one sets.  The fragment that
    completes the set is answered with [Complete], carrying exactly the post
    that was fragmented, its encoding, and the frames the fragmenter produced. *)
Theorem reassembly_in_any_order p r events j t j0 t0 :
  PostPayload_wf p -> Reassembler_inv r -> is_supported_mtu r.(mtu_) = true ->
  ready_for p (refresh r t0) ->
  head (events ++ [(fragment p r.(mtu_) j, t)]) = Some (fragment p r.(mtu_) j0, t0) ->
  (j0 < fragments_of p r.(mtu_))%nat -> (j < fragments_of p r.(mtu_))%nat ->
  Forall (fun e => e.2 < saturating_deadline t0 kReassemblyTimeoutTicks /\
                   fragment_or_other p r.(mtu_) e.1)
    (events ++ [(fragment p r.(mtu_) j, t)]) ->
  (j ∉ received p events) ->
  (forall k, (k < fragments_of p r.(mtu_))%nat -> k = j \/ (k ∈ received p events)) ->
  exists results r' frames,
    accept_all r (events ++ [(fragment p r.(mtu_) j, t)]) =
      Some (results ++ [mkReassemblyResult ReassemblyStatus_Complete
                          (Some (mkCompletedPost p (post_bytes p) frames))], r') /\
    fragment_post p r.(mtu_) = success frames.
Proof.
  intros Hwf Hr Hm Hready Hhead Hj0 Hj Hev Hnew Hall.
  assert (accept_all_completes p r events j t) as (results & r' & He).
  { by eapply gather_all. }
  exists results, r', (canonical_frames_of p (mtu_ r)).
  split; [exact He|]. by apply fragment_post_success.
Qed.

(** The witness of [reassembly_in_any_order]: two fragments in reverse order,
    the second arriving twice, with a frame of another post between them. *)
Definition other_frame : DataFrame := fragment reply_post 64 0.

Definition witness_events : list (DataFrame * Z) :=
  [(fragment golden_post 64 1, 10); (other_frame, 11); (fragment golden_post 64 1, 12)].

Lemma other_frame_kind : fragment_or_other golden_post 64 other_frame.
Proof.
  split; [|by left]. apply (fragment_typed reply_post 64 reply_post_wf eq_refl 0).
  apply Nat.ltb_lt. reflexivity.
Qed.

Lemma golden_fragment_kind j : (j < 2)%nat -> fragment_or_other golden_post 64 (fragment golden_post 64 j).
Proof.
  intros Hj. split; [by apply (fragment_typed golden_post 64 golden_post_wf eq_refl)|].
  right. by exists j.
Qed.

Lemma make_ready p mtu now : ready_for p (refresh (Reassembler_make mtu) now).
Proof.
  split_and!.
  - by repeat constructor.
  - by constructor.
  - by intros Hin%elem_of_nil.
Qed.

Lemma reassembly_in_any_order_witness :
  exists results r' frames,
    accept_all (Reassembler_make 64) (witness_events ++ [(fragment golden_post 64 0, 13)]) =
      Some (results ++ [mkReassemblyResult ReassemblyStatus_Complete
              (Some (mkCompletedPost golden_post (post_bytes golden_post) frames))], r') /\
    fragment_post golden_post 64 = success frames.
Proof.
  apply (reassembly_in_any_order golden_post (Reassembler_make 64) witness_events 0 13 1 10).
  - exact golden_post_wf.
  - apply Reassembler_make_inv.
  - reflexivity.
  - apply make_ready.
  - reflexivity.
  - apply Nat.lt_1_2.
  - apply Nat.lt_0_2.
  - unfold witness_events. cbn [app].
    do 4 (apply List.Forall_cons; [split; [reflexivity|];
      first [apply other_frame_kind | apply golden_fragment_kind; lia]|]).
    apply List.Forall_nil.
  - change (received golden_post witness_events) with [1; 1]%nat. by apply (bool_decide_eq_true (0%nat ∉ [1; 1]%nat)).
  - change (received golden_post witness_events) with [1; 1]%nat.
    change (fragments_of golden_post (mtu_ (Reassembler_make 64))) with 2%nat.
    intros [|[|k]] Hk; [by left|right; by left|lia].
Defined.

(** The reassembler never leaves its arrays and always answers.  In every
    reachable state, [accept] on any frame whose fields have their types is
    defined (no copy or read is out of bounds), ends in one of the specified
    outcomes, and keeps the invariant: at most eight slots, distinct keys, at
    most 32 quarantined keys. *)
Theorem Reassembler_accept_defined r f tick :
  Reassembler_reachable r -> DataFrame_typed f ->
  exists res r', Reassembler_accept r f tick = Some (res, r') /\
    accept_outcome (refresh r tick) f tick res r' /\ Reassembler_inv r'.
Proof.
  intros Hr%reachable_inv Hf. destruct (accept_has_outcome r f tick Hr Hf) as (res & r' & He & Ho).
  exists res, r'. split_and!; [done|done|]. by eapply accept_inv.
Qed.

Lemma Reassembler_accept_defined_witness :
  exists res r', Reassembler_accept (Reassembler_make 64) (golden_frame 1) 5 = Some (res, r') /\
    accept_outcome (refresh (Reassembler_make 64) 5) (golden_frame 1) 5 res r' /\
    Reassembler_inv r'.
Proof.
  apply Reassembler_accept_defined; [by exists 64%nat|by split].
Defined.

(** C24: a completed post is genuine and canonical.  Whenever [accept] reports
    [Complete] in a reachable state, it carries a post that is well formed,
    whose encoding is the returned byte string, whose canonical frames are
    exactly what the fragmenter makes of it at this MTU, and whose tag and
    sequence number are those of the frame that completed it. *)
Theorem completed_post_canonical r f tick c r' :
  Reassembler_reachable r -> DataFrame_typed f ->
  Reassembler_accept r f tick =
    Some (mkReassemblyResult ReassemblyStatus_Complete c, r') ->
  exists done_post, c = Some done_post /\
    PostPayload_wf done_post.(completed_post) /\
    encode_post done_post.(completed_post) = success done_post.(canonical_post) /\
    fragment_post done_post.(completed_post) r.(mtu_) = success done_post.(canonical_frames) /\
    frame_key f = post_key done_post.(completed_post).
Proof.
  intros Hr%reachable_inv Hf He.
  destruct (accept_has_outcome r f tick Hr Hf) as (res & r1 & He1 & Ho).
  rewrite He in He1. injection He1 as <- <-.
  inversion Ho as [| | | | | | |r1 i s p Hm Hv Ht Hrec s' Hfull Hsp|]; subst.
  eexists. split; [done|]. cbn [completed_post canonical_post canonical_frames].
  destruct (target_spec _ f tick r1 i s (refresh_inv r tick Hr) Hf Hm Hv Ht) as (_ & _ & _ & Hs).
  destruct Hsp as (Hwf & _ & Hk). change (mtu_ (refresh r tick)) with (mtu_ r) in *.
  split_and!; [done|by apply encode_post_layout|by apply fragment_post_success|].
  rewrite <- (for_key _ _ _ Hs). exact Hk.
Qed.

(** The golden post at an MTU that takes it in one frame. *)
Definition single_frame : DataFrame := fragment golden_post 128 0.

Lemma completed_post_canonical_witness :
  exists c r', Reassembler_accept (Reassembler_make 128) single_frame 5 =
    Some (mkReassemblyResult ReassemblyStatus_Complete c, r') /\
  exists done_post, c = Some done_post /\
    PostPayload_wf done_post.(completed_post) /\
    encode_post done_post.(completed_post) = success done_post.(canonical_post) /\
    fragment_post done_post.(completed_post) 128 = success done_post.(canonical_frames) /\
    frame_key single_frame = post_key done_post.(completed_post).
Proof.
  destruct (Reassembler_accept (Reassembler_make 128) single_frame 5)
    as [[[status c] r']|] eqn:He; [|vm_compute in He; discriminate He].
  assert (status = ReassemblyStatus_Complete) as ->.
  { assert ((p ← Reassembler_accept (Reassembler_make 128) single_frame 5;
      Some p.1.(reassembly_status)) = Some ReassemblyStatus_Complete) as Hs
      by (vm_compute; reflexivity).
    rewrite He in Hs. by injection Hs. }
  exists c, r'. split; [reflexivity|].
  apply (completed_post_canonical (Reassembler_make 128) single_frame 5 c r');
    [by exists 128%nat|by split|exact He].
Defined.

(** A conflict poisons its key.  When two fragments of one key disagree (in
    the division of the post or in the bytes of a fragment), [accept] reports
    [Conflict], discards the partial post, and every further valid fragment of
    that key is refused as [Quarantined] until the discarded slot's deadline,
    which is still ahead. *)
Theorem conflict_quarantines r f tick r' :
  Reassembler_reachable r -> DataFrame_typed f ->
  Reassembler_accept r f tick = Some (no_post ReassemblyStatus_Conflict, r') ->
  exists deadline, tick < deadline /\
    Forall (fun s => s.(slot_used) = true -> slot_key s <> frame_key f) r'.(slots_) /\
    forall f' tick', DataFrame_typed f' -> frame_key f' = frame_key f ->
      is_supported_mtu r.(mtu_) = true -> frame_valid r.(mtu_) f' -> tick' < deadline ->
      exists r'', Reassembler_accept r' f' tick' =
        Some (no_post ReassemblyStatus_Quarantined, r'').
Proof.
  intros Hr%reachable_inv Hf He.
  destruct (accept_has_outcome r f tick Hr Hf) as (res & r1 & He1 & Ho).
  rewrite He in He1. injection He1 as <- <-. pose proof (refresh_inv r tick Hr) as Hr0.
  assert (exists i s, (refresh r tick).(slots_) !! i = Some s /\ s.(slot_used) = true /\
    slot_key s = frame_key f /\ ~ key_quarantined (frame_key f) (refresh r tick).(quarantine_) /\
    r' = drop_slot (refresh r tick) i f.(tag) f.(frame_sequence) s.(slot_deadline))
    as (i & s & Hi & Hu & Hk & Hnq & ->).
  { inversion Ho as [| |i s Hi Hu Hk _ Hnq| | |i s Ht Hrec _ Hnq| | |]; subst.
    - by exists i, s.
    - pose proof (target_recorded _ _ _ _ _ _ Ht Hrec) as [_ Hi]. exists i, s.
      destruct Ht as [j u Hj [? _ ? _ _]|]; [done|]. unfold recorded in Hrec. cbn in Hrec.
      by rewrite Z.testbit_0_l in Hrec. }
  exists s.(slot_deadline). split; [by eapply refresh_deadline|]. split.
  - unfold drop_slot. rewrite quarantine_slots. cbn [set_slots slots_]. apply Forall_lookup.
    intros j x Hj Hx Hkx. apply list_lookup_insert_Some in Hj as [(_ & <- & _)|[Hij Hj]]; [done|].
    apply Hij. apply (inv_distinct _ Hr0 i j s x); congruence.
  - intros f' t' Hf' Hk' Hm Hv' Ht'. set (r' := drop_slot _ _ _ _ _) in *.
    assert (Reassembler_inv r') as Hr' by by eapply drop_slot_inv.
    assert (mtu_ r' = mtu_ r) as Hmr by (unfold r', drop_slot; by rewrite quarantine_mtu).
    exists (refresh r' t'). apply accept_quarantined; try done; try by rewrite Hmr.
    rewrite Hk'. apply (quarantined_until r' _ (slot_deadline s)); [|done].
    unfold r', drop_slot. by apply quarantine_adds.
Qed.

(** The second golden fragment with one payload byte changed. *)
Definition forged_frame : DataFrame :=
  let f := fragment golden_post 64 1 in
  mkDataFrame f.(tag) f.(frame_sequence) f.(fragment_index) f.(fragment_count)
    f.(total_length) (<[0%nat := xff]> f.(payload)).

Definition after_fragment : Reassembler :=
  match Reassembler_accept (Reassembler_make 64) (fragment golden_post 64 1) 10 with
  | Some (_, r) => r
  | None => Reassembler_make 64
  end.

Lemma conflict_quarantines_witness :
  exists r', Reassembler_accept after_fragment forged_frame 20 =
    Some (no_post ReassemblyStatus_Conflict, r') /\
  exists deadline, 20 < deadline /\
    Forall (fun s => s.(slot_used) = true -> slot_key s <> frame_key forged_frame) r'.(slots_) /\
    forall f' tick', DataFrame_typed f' -> frame_key f' = frame_key forged_frame ->
      is_supported_mtu after_fragment.(mtu_) = true -> frame_valid after_fragment.(mtu_) f' ->
      tick' < deadline ->
      exists r'', Reassembler_accept r' f' tick' =
        Some (no_post ReassemblyStatus_Quarantined, r'').
Proof.
  destruct (Reassembler_accept after_fragment forged_frame 20)
    as [[[status c] r']|] eqn:He; [|vm_compute in He; discriminate He].
  assert (mkReassemblyResult status c = no_post ReassemblyStatus_Conflict) as Hres.
  { assert ((p ← Reassembler_accept after_fragment forged_frame 20; Some p.1) =
      Some (no_post ReassemblyStatus_Conflict)) as Hs by (vm_compute; reflexivity).
    rewrite He in Hs. by injection Hs as -> ->. }
  rewrite Hres in He |- *. exists r'. split; [reflexivity|].
  apply (conflict_quarantines after_fragment forged_frame 20 r'); [|by split|exact He].
  exists 64%nat. apply rtc_once.
  destruct (Reassembler_accept (Reassembler_make 64) (fragment golden_post 64 1) 10)
    as [[res r1]|] eqn:Hfirst; [|vm_compute in Hfirst; discriminate Hfirst].
  assert (after_fragment = r1) as -> by (unfold after_fragment; by rewrite Hfirst).
  by eapply step_accept, Hfirst.
Defined.
