(* ===== verification/InboundQueue.v ===== *)
(** * InboundQueue: the bounded ingress in front of the reassembler

    The [InboundFrameQueue] of src/protocol/reassembler.h and reassembler.cpp
    (lines 286-453): a queue of at most 64 datagrams, a list of at most 128
    recently committed datagrams that suppresses repeats, and counters. *)
From S2P Require Import Prelude Text Ports Uuid Post Limits PostCodec FrameCodec Fragmenter Reassembler.

(** ** Definitions *)

Inductive IngressEnqueueStatus :=
| IngressEnqueueStatus_Accepted
| IngressEnqueueStatus_QueueFull
| IngressEnqueueStatus_Invalid
| IngressEnqueueStatus_Closed.

Inductive IngressProcessStatus :=
| IngressProcessStatus_Empty
| IngressProcessStatus_Stale
| IngressProcessStatus_Malformed
| IngressProcessStatus_RecentDuplicate
| IngressProcessStatus_FragmentAccepted
| IngressProcessStatus_DuplicateFragment
| IngressProcessStatus_Complete
| IngressProcessStatus_CapacityExceeded
| IngressProcessStatus_Conflict
| IngressProcessStatus_Quarantined
| IngressProcessStatus_InvalidPost
| IngressProcessStatus_Closed.

Record IngressProcessResult := mkIngressProcessResult {
  ingress_status : IngressProcessStatus;
  ingress_completed : option CompletedPost
}.

Record IngressMetrics := mkIngressMetrics {
  queued_frames : nat;
  queue_high_water : nat;
  active_reassemblies : nat;
  reassembly_high_water : nat;
  malformed_frames : Z;
  stale_frames : Z;
  duplicate_frames : Z;
  capacity_rejections : Z;
  expired_reassemblies : Z;
  completed_posts : Z
}.

Record QueuedFrame := mkQueuedFrame { queued_datagram : bytes; queued_tick : Z }.
Record RecentFrame := mkRecentFrame { recent_datagram : bytes; recent_deadline : Z }.

Record InboundFrameQueue := mkInboundFrameQueue {
  inbound_mtu : nat;
  queue_ : list QueuedFrame;
  recent_ : list RecentFrame;
  reassembler_ : Reassembler;
  metrics_ : IngressMetrics;
  stopped_ : bool
}.

Definition zero_metrics : IngressMetrics := mkIngressMetrics 0 0 0 0 0 0 0 0 0 0.

Definition InboundFrameQueue_make (mtu : nat) : InboundFrameQueue :=
  mkInboundFrameQueue mtu [] [] (Reassembler_make mtu) zero_metrics false.

Definition with_queue (q : InboundFrameQueue) (queue : list QueuedFrame) : InboundFrameQueue :=
  mkInboundFrameQueue q.(inbound_mtu) queue q.(recent_) q.(reassembler_) q.(metrics_) q.(stopped_).
Definition with_recent (q : InboundFrameQueue) (recent : list RecentFrame) : InboundFrameQueue :=
  mkInboundFrameQueue q.(inbound_mtu) q.(queue_) recent q.(reassembler_) q.(metrics_) q.(stopped_).
Definition with_reassembler (q : InboundFrameQueue) (r : Reassembler) : InboundFrameQueue :=
  mkInboundFrameQueue q.(inbound_mtu) q.(queue_) q.(recent_) r q.(metrics_) q.(stopped_).
Definition with_metrics (q : InboundFrameQueue) (m : IngressMetrics) : InboundFrameQueue :=
  mkInboundFrameQueue q.(inbound_mtu) q.(queue_) q.(recent_) q.(reassembler_) m q.(stopped_).

Definition update_metrics (q : InboundFrameQueue) : InboundFrameQueue :=
  let m := q.(metrics_) in
  with_metrics q {|
    queued_frames := length q.(queue_);
    queue_high_water := Nat.max m.(queue_high_water) (length q.(queue_));
    active_reassemblies := active_count q.(reassembler_);
    reassembly_high_water :=
      Nat.max m.(reassembly_high_water) q.(reassembler_).(high_water_count_);
    malformed_frames := m.(malformed_frames);
    stale_frames := m.(stale_frames);
    duplicate_frames := m.(duplicate_frames);
    capacity_rejections := m.(capacity_rejections);
    expired_reassemblies := m.(expired_reassemblies);
    completed_posts := m.(completed_posts) |}.

(** The counters are 64-bit and wrap. *)
Definition count_malformed (m : IngressMetrics) : IngressMetrics :=
  let '(mkIngressMetrics a b c d e f g h i j) := m in
  mkIngressMetrics a b c d (u64 (e + 1)) f g h i j.
Definition count_stale (m : IngressMetrics) : IngressMetrics :=
  let '(mkIngressMetrics a b c d e f g h i j) := m in
  mkIngressMetrics a b c d e (u64 (f + 1)) g h i j.
Definition count_duplicate (m : IngressMetrics) : IngressMetrics :=
  let '(mkIngressMetrics a b c d e f g h i j) := m in
  mkIngressMetrics a b c d e f (u64 (g + 1)) h i j.
Definition count_capacity (m : IngressMetrics) : IngressMetrics :=
  let '(mkIngressMetrics a b c d e f g h i j) := m in
  mkIngressMetrics a b c d e f g (u64 (h + 1)) i j.
Definition count_expired (n : nat) (m : IngressMetrics) : IngressMetrics :=
  let '(mkIngressMetrics a b c d e f g h i j) := m in
  mkIngressMetrics a b c d e f g h (u64 (i + Z.of_nat n)) j.
Definition count_completed (m : IngressMetrics) : IngressMetrics :=
  let '(mkIngressMetrics a b c d e f g h i j) := m in
  mkIngressMetrics a b c d e f g h i (u64 (j + 1)).

Definition count (f : IngressMetrics -> IngressMetrics) (q : InboundFrameQueue)
  : InboundFrameQueue := with_metrics q (f q.(metrics_)).

(** [enqueue(data, size, received_tick)]; [None] is the null pointer. *)
Definition enqueue (q : InboundFrameQueue) (data : option bytes) (received_tick : Z)
  : IngressEnqueueStatus * InboundFrameQueue :=
  if q.(stopped_) then (IngressEnqueueStatus_Closed, q)
  else match data with
  | None => (IngressEnqueueStatus_Invalid, q)
  | Some data =>
      if (length data <? kFrameHeaderBytes)%nat || (q.(inbound_mtu) <? length data)%nat ||
         (kMaximumTransportMtu <? length data)%nat
      then (IngressEnqueueStatus_Invalid, q)
      else if (kMaximumInboundFrames <=? length q.(queue_))%nat
      then (IngressEnqueueStatus_QueueFull, q)
      else (IngressEnqueueStatus_Accepted,
            update_metrics (with_queue q (q.(queue_) ++ [mkQueuedFrame data received_tick])))
  end.

Definition expire_recent (q : InboundFrameQueue) (now : Z) : InboundFrameQueue :=
  with_recent q
    (List.filter (fun f => negb (deadline_reached now f.(recent_deadline))) q.(recent_)).

Definition is_datagram (datagram : bytes) (f : RecentFrame) : bool :=
  bool_decide (f.(recent_datagram) = datagram).

(** Whether the datagram is recent; a hit moves to the back, its deadline kept. *)
Definition recently_committed (q : InboundFrameQueue) (datagram : bytes) (now : Z)
  : bool * InboundFrameQueue :=
  let q := expire_recent q now in
  match find_index (is_datagram datagram) q.(recent_) with
  | None => (false, q)
  | Some i =>
      match q.(recent_) !! i with
      | None => (false, q)
      | Some retained => (true, with_recent q (delete i q.(recent_) ++ [retained]))
      end
  end.

Definition ingress (status : IngressProcessStatus) : IngressProcessResult :=
  mkIngressProcessResult status None.

(** The switch on the reassembler's answer. *)
Definition ingress_of (reassembled : ReassemblyResult) (q : InboundFrameQueue)
  : IngressProcessResult * InboundFrameQueue :=
  match reassembled.(reassembly_status) with
  | ReassemblyStatus_FragmentAccepted => (ingress IngressProcessStatus_FragmentAccepted, q)
  | ReassemblyStatus_DuplicateFragment =>
      (ingress IngressProcessStatus_DuplicateFragment, count count_duplicate q)
  | ReassemblyStatus_CapacityExceeded =>
      (ingress IngressProcessStatus_CapacityExceeded, count count_capacity q)
  | ReassemblyStatus_Conflict => (ingress IngressProcessStatus_Conflict, q)
  | ReassemblyStatus_Quarantined => (ingress IngressProcessStatus_Quarantined, q)
  | ReassemblyStatus_InvalidPost => (ingress IngressProcessStatus_InvalidPost, q)
  | ReassemblyStatus_Complete =>
      (mkIngressProcessResult IngressProcessStatus_Complete reassembled.(reassembly_completed),
       count count_completed q)
  end.

(** [None] where the reassembler would leave its arrays. *)
Definition process_next (q : InboundFrameQueue) (now : Z)
  : option (IngressProcessResult * InboundFrameQueue) :=
  if q.(stopped_) then Some (ingress IngressProcessStatus_Closed, q)
  else
    let '(expired, r) := Reassembler_expire q.(reassembler_) now in
    let q := count (count_expired expired) (with_reassembler q r) in
    match q.(queue_) with
    | [] => Some (ingress IngressProcessStatus_Empty, update_metrics q)
    | queued :: rest =>
        let q := update_metrics (with_queue q rest) in
        if (now <? queued.(queued_tick)) ||
           (kReassemblyTimeoutTicks <=? now - queued.(queued_tick))
        then Some (ingress IngressProcessStatus_Stale, count count_stale q)
        else
          let '(recent, q) := recently_committed q queued.(queued_datagram) now in
          if (recent : bool)
          then Some (ingress IngressProcessStatus_RecentDuplicate, count count_duplicate q)
          else
            match decode_frame (Some queued.(queued_datagram)) q.(inbound_mtu) with
            | failure _ =>
                Some (ingress IngressProcessStatus_Malformed, count count_malformed q)
            | success frame =>
                '(reassembled, r) ←
                  Reassembler_accept q.(reassembler_) frame queued.(queued_tick);
                Some (ingress_of reassembled (update_metrics (with_reassembler q r)))
            end
    end.

Definition commit_frame (deadline : Z) (q : InboundFrameQueue) (datagram : bytes)
  : InboundFrameQueue :=
  if (length datagram <? kFrameHeaderBytes)%nat || (q.(inbound_mtu) <? length datagram)%nat
  then q
  else if existsb (is_datagram datagram) q.(recent_) then q
  else
    let kept := if (kMaximumRecentFrames <=? length q.(recent_))%nat
                then tail q.(recent_) else q.(recent_) in
    with_recent q (kept ++ [mkRecentFrame datagram deadline]).

Definition mark_committed (q : InboundFrameQueue) (canonical_frames : list bytes)
    (committed_tick : Z) : InboundFrameQueue :=
  let q := expire_recent q committed_tick in
  let deadline := saturating_deadline committed_tick kReassemblyTimeoutTicks in
  foldl (commit_frame deadline) q canonical_frames.

Definition stop (q : InboundFrameQueue) : InboundFrameQueue :=
  update_metrics
    (mkInboundFrameQueue q.(inbound_mtu) [] [] (Reassembler_clear q.(reassembler_))
       q.(metrics_) true).

(** ** Invariant *)

Definition datagram_fits (mtu : nat) (d : bytes) : Prop := (28 <= length d <= mtu)%nat.

(** Bounds on both lists, and counters that tell the truth. *)
Record queue_inv (q : InboundFrameQueue) : Prop := {
  qi_reassembler : Reassembler_inv q.(reassembler_);
  qi_mtu : q.(reassembler_).(mtu_) = q.(inbound_mtu);
  qi_queue : (length q.(queue_) <= 64)%nat;
  qi_queued : Forall (fun f => datagram_fits q.(inbound_mtu) f.(queued_datagram)) q.(queue_);
  qi_recent : (length q.(recent_) <= 128)%nat;
  qi_recent_fits : Forall (fun f => datagram_fits q.(inbound_mtu) f.(recent_datagram)) q.(recent_);
  qi_recent_distinct : NoDup (map recent_datagram q.(recent_));
  qi_stopped : q.(stopped_) = true -> q.(queue_) = [];
  qi_queued_frames : q.(metrics_).(queued_frames) = length q.(queue_);
  qi_active : q.(metrics_).(active_reassemblies) = active_count q.(reassembler_);
  qi_high_water : (length q.(queue_) <= q.(metrics_).(queue_high_water) <= 64)%nat
}.

(** The parts of the invariant that do not speak of the counters. *)
Record queue_core (q : InboundFrameQueue) : Prop := {
  qc_reassembler : Reassembler_inv q.(reassembler_);
  qc_mtu : q.(reassembler_).(mtu_) = q.(inbound_mtu);
  qc_queue : (length q.(queue_) <= 64)%nat;
  qc_queued : Forall (fun f => datagram_fits q.(inbound_mtu) f.(queued_datagram)) q.(queue_);
  qc_recent : (length q.(recent_) <= 128)%nat;
  qc_recent_fits : Forall (fun f => datagram_fits q.(inbound_mtu) f.(recent_datagram)) q.(recent_);
  qc_recent_distinct : NoDup (map recent_datagram q.(recent_));
  qc_stopped : q.(stopped_) = true -> q.(queue_) = [];
  qc_high_water : (q.(metrics_).(queue_high_water) <= 64)%nat
}.

Lemma queue_inv_core q : queue_inv q -> queue_core q.
Proof. intros []. split; try done. lia. Qed.

Lemma update_metrics_inv q : queue_core q -> queue_inv (update_metrics q).
Proof. intros []. split; try done; cbn -[active_count]; lia. Qed.

(** The event counters are outside the invariant. *)
Lemma count_inv f q :
  (forall m, (f m).(queued_frames) = m.(queued_frames) /\
             (f m).(active_reassemblies) = m.(active_reassemblies) /\
             (f m).(queue_high_water) = m.(queue_high_water)) ->
  queue_inv q -> queue_inv (count f q).
Proof.
  intros Hf []. destruct (Hf q.(metrics_)) as (E1 & E2 & E3).
  split; try done; cbn -[active_count]; by rewrite ?E1, ?E2, ?E3.
Qed.

Lemma count_core f q :
  (forall m, (f m).(queue_high_water) = m.(queue_high_water)) ->
  queue_core q -> queue_core (count f q).
Proof. intros Hf []. split; try done. cbn. by rewrite Hf. Qed.

Lemma with_reassembler_core q r :
  queue_core q -> Reassembler_inv r -> r.(mtu_) = q.(inbound_mtu) -> queue_core (with_reassembler q r).
Proof. intros []. by split. Qed.

Lemma with_recent_inv q recent :
  queue_inv q -> (length recent <= 128)%nat ->
  Forall (fun f => datagram_fits q.(inbound_mtu) f.(recent_datagram)) recent ->
  NoDup (map recent_datagram recent) ->
  queue_inv (with_recent q recent).
Proof. intros [] ? ? ?. by split. Qed.

Lemma filter_sublist {A} (f : A -> bool) l : List.filter f l `sublist_of` l.
Proof. induction l as [|x l IH]; cbn; [done|]. destruct (f x); by constructor. Qed.

Lemma Forall_sublist {A} (P : A -> Prop) l l' : l `sublist_of` l' -> Forall P l' -> Forall P l.
Proof.
  rewrite !Forall_forall. intros Hs Hall x Hx. apply Hall. by eapply elem_of_sublist.
Qed.

Lemma expire_recent_inv q now : queue_inv q -> queue_inv (expire_recent q now).
Proof.
  intros Hq. pose proof Hq as []. unfold expire_recent.
  set (kept := List.filter _ _). pose proof (filter_sublist (fun f =>
    negb (deadline_reached now (recent_deadline f))) (recent_ q)) as Hs. fold kept in Hs.
  apply with_recent_inv; [done|apply sublist_length in Hs; lia|by eapply Forall_sublist|].
  eapply sublist_NoDup; [exact qi_recent_distinct0|by apply sublist_map].
Qed.

Lemma recently_committed_inv q d now :
  queue_inv q -> queue_inv (recently_committed q d now).2.
Proof.
  intros Hq%(expire_recent_inv _ now). unfold recently_committed.
  destruct (find_index _ _) as [i|] eqn:Hfind; [|done].
  destruct (_ !! i) as [x|] eqn:Hi; [|done]. cbn [snd].
  pose proof Hq as []. pose proof (delete_Permutation _ _ _ Hi) as Hp.
  assert (delete i (recent_ (expire_recent q now)) ++ [x] ≡ₚ recent_ (expire_recent q now)) as Hp'.
  { etransitivity; [symmetry; apply Permutation_cons_append|by symmetry]. }
  apply with_recent_inv; [done|by rewrite Hp'..].
Qed.

Lemma commit_frame_inv d q x :
  queue_inv q -> queue_inv (commit_frame d q x).
Proof.
  intros Hq. unfold commit_frame. split_if; [done|].
  destruct (existsb _ _) eqn:Hin; [done|]. pose proof Hq as []. reflect_bools.
  set (kept := if (kMaximumRecentFrames <=? length (recent_ q))%nat
    then tail (recent_ q) else recent_ q).
  assert (kept `sublist_of` recent_ q) as Hk.
  { unfold kept. split_if; [|done]. destruct (recent_ q); [done|by constructor]. }
  assert (length kept <= 127)%nat as Hlen.
  { unfold kept. unfold kMaximumRecentFrames. split_if; reflect_bools; [|lia].
    destruct (recent_ q); cbn in *; lia. }
  apply with_recent_inv; [done|rewrite length_app; cbn; lia|..].
  - apply Forall_app. split; [by eapply Forall_sublist|]. constructor; [|done].
    split; cbn; unfold kFrameHeaderBytes in *; lia.
  - rewrite map_app. apply NoDup_app. split_and!; [|intros y Hy ->%list_elem_of_singleton|].
    + eapply sublist_NoDup; [exact qi_recent_distinct0|by apply sublist_map].
    + assert (x ∈ map recent_datagram (recent_ q)) as Hx
        by (eapply elem_of_sublist; [exact Hy|by apply sublist_map]).
      apply list_elem_of_fmap in Hx as (f & -> & Hf).
      apply existsb_false_Forall in Hin. rewrite Forall_forall in Hin. specialize (Hin f Hf).
      unfold is_datagram in Hin. by apply bool_decide_eq_false in Hin.
    + apply NoDup_singleton.
Qed.

Lemma mark_committed_inv q frames tick : queue_inv q -> queue_inv (mark_committed q frames tick).
Proof.
  intros Hq%(expire_recent_inv _ tick). unfold mark_committed.
  generalize dependent (expire_recent q tick). clear q. intros q Hq. revert q Hq.
  induction frames as [|d frames IH]; intros q Hq; [done|]. by apply IH, commit_frame_inv.
Qed.

Lemma enqueue_inv q data tick : queue_inv q -> queue_inv (enqueue q data tick).2.
Proof.
  intros Hq. unfold enqueue. destruct (stopped_ q) eqn:Hstop; [done|].
  destruct data as [data|]; [|done]. split_if; [done|]. split_if; [done|]. reflect_bools.
  cbn [snd]. apply update_metrics_inv. pose proof Hq as []. unfold kMaximumInboundFrames in *.
  split; try done; cbn.
  - rewrite length_app. cbn. lia.
  - apply Forall_app. split; [done|]. constructor; [|done]. split; cbn; unfold kFrameHeaderBytes in *; lia.
  - congruence.
  - lia.
Qed.

Lemma stop_inv q : queue_inv q -> queue_inv (stop q).
Proof.
  intros Hq. apply update_metrics_inv. pose proof Hq as [].
  split; cbn; [by apply clear_inv|done|lia|constructor|lia|constructor|constructor|done|lia].
Qed.

Lemma enqueue_high_water q data tick :
  queue_inv q -> ((enqueue q data tick).2.(metrics_).(queue_high_water) <= 64)%nat.
Proof. intros Hq. apply (enqueue_inv q data tick) in Hq as []. lia. Qed.

(** ** One step of processing *)

(** The state after the queue's own bookkeeping, before the reassembler. *)
Definition after_expiry (q : InboundFrameQueue) (now : Z) : InboundFrameQueue :=
  count (count_expired (Reassembler_expire q.(reassembler_) now).1)
    (with_reassembler q (refresh q.(reassembler_) now)).

Lemma after_expiry_core q now : queue_inv q -> queue_core (after_expiry q now).
Proof.
  intros Hq. apply count_core; [by intros []|]. pose proof (queue_inv_core q Hq) as Hc.
  apply with_reassembler_core; [done|apply refresh_inv, Hc|apply Hc].
Qed.

Lemma pop_inv q now f rest :
  queue_inv q -> q.(queue_) = f :: rest ->
  queue_inv (update_metrics (with_queue (after_expiry q now) rest)).
Proof.
  intros Hq Hf. pose proof (after_expiry_core q now Hq) as [].
  apply update_metrics_inv. cbn in *. rewrite Hf in *.
  split; try done; cbn.
  - cbn in *. lia.
  - by apply Forall_cons in qc_queued0 as [_ ?].
  - intros Hstop. specialize (qc_stopped0 Hstop). done.
Qed.

Lemma accepted_inv q r :
  queue_inv q -> Reassembler_inv r -> r.(mtu_) = q.(inbound_mtu) ->
  queue_inv (update_metrics (with_reassembler q r)).
Proof.
  intros Hq Hr Hm. by apply update_metrics_inv, with_reassembler_core; [apply queue_inv_core|..].
Qed.

Lemma ingress_of_inv res q : queue_inv q -> queue_inv (ingress_of res q).2.
Proof.
  intros Hq. unfold ingress_of. destruct (reassembly_status res); cbn [snd]; try done;
    by apply count_inv; [intros []|].
Qed.

Lemma decode_frame_typed data mtu f :
  decode_frame (Some data) mtu = success f -> DataFrame_typed f /\ is_supported_mtu mtu = true /\
  frame_valid mtu f.
Proof.
  intros (Hf & Hm & Hv & _)%decode_frame_layout. split_and!; [done..|].
  apply validate_frame_fields_None in Hv; [done|done|apply Hf].
Qed.

Lemma accept_mtu r f tick res r' :
  Reassembler_inv r -> DataFrame_typed f -> Reassembler_accept r f tick = Some (res, r') ->
  r'.(mtu_) = r.(mtu_).
Proof.
  intros Hr Hf He. destruct (accept_has_outcome r f tick Hr Hf) as (res1 & r1 & He1 & Ho).
  rewrite He in He1. injection He1 as <- <-.
  assert (forall r1 i s, target (refresh r tick) f tick r1 i s -> r1.(mtu_) = r.(mtu_)) as Ht
    by (by intros r1 i s [| ? ? ? u]).
  destruct Ho; try done; unfold drop_slot; rewrite ?quarantine_mtu; cbn [set_slots mtu_];
    try done; by eapply Ht.
Qed.

Lemma process_next_inv q now :
  queue_inv q ->
  exists res q', process_next q now = Some (res, q') /\ queue_inv q'.
Proof.
  intros Hq. unfold process_next. destruct (stopped_ q) eqn:Hstop; [eauto|].
  destruct (Reassembler_expire _ _) as [expired r] eqn:Hexp.
  assert (count (count_expired expired) (with_reassembler q r) = after_expiry q now) as ->.
  { unfold after_expiry, refresh. by rewrite Hexp. }
  destruct (queue_ (after_expiry q now)) as [|f rest] eqn:Hqueue.
  { do 2 eexists. split; [done|]. by apply update_metrics_inv, after_expiry_core. }
  change (queue_ (after_expiry q now)) with (queue_ q) in Hqueue.
  pose proof (pop_inv q now f rest Hq Hqueue) as Hpop.
  set (q1 := update_metrics _) in *.
  split_if; [do 2 eexists; split; [done|]; by apply count_inv; [intros []|]|].
  pose proof (recently_committed_inv q1 (queued_datagram f) now Hpop) as Hrec.
  destruct (recently_committed q1 (queued_datagram f) now) as [recent q2] eqn:Hq2. cbn [snd] in Hrec.
  destruct recent; [do 2 eexists; split; [done|]; by apply count_inv; [intros []|]|].
  destruct (decode_frame _ _) as [frame|e] eqn:Hd.
  2:{ do 2 eexists. split; [done|]. by apply count_inv; [intros []|]. }
  apply decode_frame_typed in Hd as (Hf & _ & _).
  destruct (accept_has_outcome (reassembler_ q2) frame (queued_tick f)) as (res & r' & He & Ho);
    [apply Hrec|done|].
  rewrite He. cbn [mbind option_bind]. do 2 eexists. split; [by rewrite <- surjective_pairing|].
  apply ingress_of_inv, accepted_inv; [done|..].
  - eapply accept_inv, He; [apply Hrec|done].
  - rewrite (accept_mtu _ _ _ _ _ (qi_reassembler _ Hrec) Hf He). apply Hrec.
Qed.

(** A fresh datagram that decodes goes to the reassembler. *)
Lemma process_fragment q now d tick rest frame :
  queue_inv q -> q.(stopped_) = false -> q.(queue_) = mkQueuedFrame d tick :: rest ->
  tick <= now < tick + kReassemblyTimeoutTicks ->
  Forall (fun f => f.(recent_datagram) <> d) q.(recent_) ->
  decode_frame (Some d) q.(inbound_mtu) = success frame ->
  exists res r' q', Reassembler_accept (refresh q.(reassembler_) now) frame tick = Some (res, r') /\
    process_next q now = Some (ingress_of res q') /\ queue_inv q' /\
    q'.(stopped_) = false /\ q'.(queue_) = rest /\ q'.(reassembler_) = r' /\
    q'.(inbound_mtu) = q.(inbound_mtu) /\ q'.(recent_) `sublist_of` q.(recent_).
Proof.
  intros Hq Hstop Hqueue Htick Hrecent Hd.
  pose proof (pop_inv q now _ rest Hq Hqueue) as Hpop.
  pose proof (decode_frame_typed _ _ _ Hd) as (Hf & _ & _).
  destruct (accept_has_outcome (refresh (reassembler_ q) now) frame tick) as (res & r' & He & _);
    [apply refresh_inv, Hq|done|].
  set (q1 := update_metrics (with_queue (after_expiry q now) rest)) in *.
  assert (recently_committed q1 d now = (false, expire_recent q1 now)) as Hrc.
  { unfold recently_committed. rewrite (proj2 (find_index_None _ _)); [done|].
    cbn. eapply Forall_sublist; [apply filter_sublist|]. eapply Forall_impl; [exact Hrecent|].
    intros f Hne. by apply bool_decide_eq_false. }
  exists res, r', (update_metrics (with_reassembler (expire_recent q1 now) r')).
  split; [done|]. split; [|split_and!].
  - unfold process_next. rewrite Hstop.
    destruct (Reassembler_expire _ _) as [expired r] eqn:Hexp.
    assert (count (count_expired expired) (with_reassembler q r) = after_expiry q now) as ->.
    { unfold after_expiry, refresh. by rewrite Hexp. }
    change (queue_ (after_expiry q now)) with (queue_ q). rewrite Hqueue.
    cbn [queued_tick queued_datagram].
    rewrite (proj2 (Z.ltb_ge _ _)), (proj2 (Z.leb_gt _ _)) by lia. cbn [orb].
    fold q1. rewrite Hrc. change (inbound_mtu (expire_recent q1 now)) with (inbound_mtu q).
    rewrite Hd. change (reassembler_ (expire_recent q1 now)) with (refresh (reassembler_ q) now).
    by rewrite He.
  - apply accepted_inv; [by apply expire_recent_inv|..].
    + eapply accept_inv, He; [apply refresh_inv, Hq|done].
    + rewrite (accept_mtu _ _ _ _ _ (refresh_inv _ now (qi_reassembler _ Hq)) Hf He). apply Hq.
  - done.
  - done.
  - done.
  - done.
  - apply filter_sublist.
Qed.

(** ** Draining the queue *)

(** [process_next] until [n] datagrams are handled, all at the same tick. *)
Fixpoint process_n (q : InboundFrameQueue) (n : nat) (now : Z)
  : option (list IngressProcessResult * InboundFrameQueue) :=
  match n with
  | O => Some ([], q)
  | S n =>
      '(result, q) ← process_next q now;
      '(results, q) ← process_n q n now;
      Some (result :: results, q)
  end.

Fixpoint enqueue_all (q : InboundFrameQueue) (arrivals : list (bytes * Z))
  : list IngressEnqueueStatus * InboundFrameQueue :=
  match arrivals with
  | [] => ([], q)
  | (data, tick) :: arrivals =>
      let '(status, q) := enqueue q (Some data) tick in
      let '(statuses, q) := enqueue_all q arrivals in
      (status :: statuses, q)
  end.

Lemma enqueue_all_accepted q arrivals :
  queue_inv q -> q.(stopped_) = false -> (q.(inbound_mtu) <= 255)%nat ->
  (length q.(queue_) + length arrivals <= 64)%nat ->
  Forall (fun a => datagram_fits q.(inbound_mtu) a.1) arrivals ->
  exists q', enqueue_all q arrivals =
      (replicate (length arrivals) IngressEnqueueStatus_Accepted, q') /\
    queue_inv q' /\ q'.(stopped_) = false /\ q'.(inbound_mtu) = q.(inbound_mtu) /\
    q'.(recent_) = q.(recent_) /\ q'.(reassembler_) = q.(reassembler_) /\
    q'.(queue_) = q.(queue_) ++ map (fun a => mkQueuedFrame a.1 a.2) arrivals.
Proof.
  revert q. induction arrivals as [|[d t] arrivals IH]; intros q Hq Hstop Hmtu Hlen Hfit.
  { exists q. split_and!; try done. by rewrite app_nil_r. }
  apply Forall_cons in Hfit as [[Hmin Hmax] Hfit]. cbn [fst snd length] in *.
  pose proof (enqueue_inv q (Some d) t Hq) as Hq1.
  assert (enqueue q (Some d) t = (IngressEnqueueStatus_Accepted,
    update_metrics (with_queue q (queue_ q ++ [mkQueuedFrame d t])))) as He.
  { unfold enqueue. rewrite Hstop. unfold kFrameHeaderBytes, kMaximumTransportMtu,
      kMaximumDatagramBytes, kMaximumInboundFrames.
    rewrite (proj2 (Nat.ltb_ge (length d) _)), (proj2 (Nat.ltb_ge (inbound_mtu q) _)),
      (proj2 (Nat.ltb_ge 255 _)), (proj2 (Nat.leb_gt _ _)) by lia. done. }
  cbn [enqueue_all]. rewrite He in Hq1 |- *. cbn [snd] in Hq1.
  destruct (IH _ Hq1) as (q' & -> & Hq' & Hs & Hm & Hr & Ha & Hqueue); [done|done| |done|].
  { cbn. rewrite length_app. cbn. lia. }
  exists q'. split_and!; try done. rewrite Hqueue. cbn. by rewrite <- app_assoc.
Qed.

Lemma process_n_S q n now res q1 results q2 :
  process_next q now = Some (res, q1) -> process_n q1 n now = Some (results, q2) ->
  process_n q (S n) now = Some (res :: results, q2).
Proof. intros H1 H2. cbn [process_n]. rewrite H1. cbn [mbind option_bind]. by rewrite H2. Qed.

Section Drain.

Context (p : PostPayload) (now : Z) (mtu : nat).
Hypothesis Hwf : PostPayload_wf p.
Hypothesis Hmtu : is_supported_mtu mtu = true.

Definition item_frame (item : nat * Z) : QueuedFrame :=
  mkQueuedFrame (frame_bytes (fragment p mtu item.1)) item.2.

(** A queue holding nothing but fresh, uncommitted fragments of [p]. *)
Record drainable (items : list (nat * Z)) (q : InboundFrameQueue) : Prop := {
  dr_inv : queue_inv q;
  dr_running : q.(stopped_) = false;
  dr_mtu : q.(inbound_mtu) = mtu;
  dr_queue : q.(queue_) = map item_frame items;
  dr_fresh : Forall (fun item => (item.1 < fragments_of p mtu)%nat /\
    item.2 <= now < item.2 + kReassemblyTimeoutTicks) items;
  dr_uncommitted : Forall (fun f => forall k, (k < fragments_of p mtu)%nat ->
    f.(recent_datagram) <> frame_bytes (fragment p mtu k)) q.(recent_)
}.

(** The answers to [n] fragments, the last of which completes the post. *)
Definition drained (n : nat) : list IngressProcessResult :=
  replicate (n - 1) (ingress IngressProcessStatus_FragmentAccepted) ++
  [mkIngressProcessResult IngressProcessStatus_Complete
     (Some (mkCompletedPost p (post_bytes p) (canonical_frames_of p mtu)))].

Lemma drain_step j t items q :
  drainable ((j, t) :: items) q ->
  exists res r' q', Reassembler_accept (refresh q.(reassembler_) now) (fragment p mtu j) t =
      Some (res, r') /\
    process_next q now = Some (ingress_of res q') /\ drainable items q' /\
    q'.(reassembler_) = r'.
Proof.
  intros [Hq Hrun Hm Hqueue [[Hj Ht] Hfresh]%Forall_cons Hun]. cbn [fst snd] in *.
  assert (decode_frame (Some (frame_bytes (fragment p mtu j))) (inbound_mtu q) =
    success (fragment p mtu j)) as Hd by (rewrite Hm; by apply decode_fragment).
  assert (Forall (fun f => recent_datagram f <> frame_bytes (fragment p mtu j)) (recent_ q)) as Hun'.
  { eapply Forall_impl; [exact Hun|]. intros f Hf. by apply Hf. }
  destruct (process_fragment q now _ t (map item_frame items) _ Hq Hrun Hqueue Ht Hun' Hd)
    as (res & r' & q' & He & Hp & Hq' & Hs & Hr & Ha & Hm' & Hsub).
  exists res, r', q'. split; [done|]. split; [done|]. split; [|done].
  split; try done; [congruence|]. by eapply Forall_sublist.
Qed.

(** Whatever fragment comes next, the reassembler gathers it. *)
Definition gathers_next (got : list nat) (r : Reassembler) : Prop :=
  forall j t res r', (j < fragments_of p mtu)%nat ->
    t <= now < t + kReassemblyTimeoutTicks ->
    Reassembler_accept (refresh r now) (fragment p mtu j) t = Some (res, r') ->
    exists d, now < d /\ gathering_result p mtu d got j res r'.

Lemma gathering_next d got r :
  Reassembler_inv r -> r.(mtu_) = mtu -> now < d -> gathering p d got r -> gathers_next got r.
Proof.
  intros Hr Hm Hd Hg j t res r' Hj Ht He. exists d. split; [done|].
  pose proof (refresh_inv r now Hr) as Hr0. subst mtu.
  pose proof (fragment_typed p _ Hwf Hmtu j Hj) as Hf.
  destruct (accept_has_outcome _ _ t Hr0 Hf) as (res1 & r1 & He1 & Ho).
  rewrite He in He1. injection He1 as <- <-.
  assert (gathering p d got (refresh (refresh r now) t)) as Hg'
    by (apply refresh_gathering; [apply refresh_gathering|]; done || lia).
  by destruct (gathering_outcome p d got _ j t res r' Hwf (refresh_inv _ t Hr0) Hmtu Hj Hg' Ho).
Qed.

Lemma drain_all items got q :
  drainable items q -> NoDup (map fst items ++ got) ->
  (forall k, (k < fragments_of p mtu)%nat -> (k ∈ map fst items ++ got)) ->
  items <> [] -> gathers_next got q.(reassembler_) ->
  exists q', process_n q (length items) now = Some (drained (length items), q') /\
    q'.(queue_) = [] /\ q'.(stopped_) = false.
Proof.
  revert got q. induction items as [|[j t] items IH]; intros got q Hdr Hnd Hall Hne Hnext; [done|].
  destruct (drain_step j t items q Hdr) as (res & r' & q1 & He & Hp & Hdr1 & Hr1).
  pose proof (dr_fresh _ _ Hdr) as [[Hj Ht] Hlt]%Forall_cons. cbn [fst snd map length] in *.
  destruct (Hnext j t res r' Hj Ht He) as (d & Hd & Hres).
  apply NoDup_cons in Hnd as [Hj' Hnd].
  destruct Hres as [(Hin & _)|[(_ & Hopen & -> & Hg)|(_ & Hfull & ->)]]; [set_solver|..].
  - assert (items <> []) as Hne'.
    { intros ->. apply Hopen. intros k Hk. by apply Hall. }
    destruct (IH (j :: got) q1 Hdr1) as (q2 & Hq2 & Hend); [| |done| |].
    + rewrite <- Permutation_middle. by apply NoDup_cons.
    + intros k Hk. specialize (Hall k Hk). set_solver.
    + eapply gathering_next; [apply Hdr1| |exact Hd|by rewrite Hr1].
      rewrite (qi_mtu _ (dr_inv _ _ Hdr1)). apply Hdr1.
    + exists q2. split; [|exact Hend]. rewrite (process_n_S _ _ _ _ _ _ _ Hp Hq2). unfold drained. cbn [Nat.sub].
      rewrite Nat.sub_0_r. destruct items as [|item items]; [done|]. cbn. by rewrite Nat.sub_0_r.
  - assert (items = []) as ->.
    { destruct items as [|[k u] items]; [done|]. exfalso.
      apply Forall_cons in Hlt as [[Hk _] _]. cbn in Hk. specialize (Hfull k Hk).
      cbn in Hnd, Hj'. apply NoDup_cons in Hnd as [Hk' _]. set_solver. }
    exists (count count_completed q1). cbn [length].
    split; [|split; [apply (dr_queue _ _ Hdr1)|apply (dr_running _ _ Hdr1)]].
    by rewrite (process_n_S q 0 now _ _ _ _ Hp eq_refl).
Qed.

Lemma ready_refresh r tick : ready_for p r -> ready_for p (refresh r tick).
Proof.
  intros (Hnone & Hfree & Hq). split_and!.
  - unfold refresh. cbn. apply Forall_map. eapply Forall_impl; [exact Hnone|].
    intros s Hs. by destruct (slot_expired tick s).
  - unfold refresh. cbn. apply Exists_exists in Hfree as (s & Hs & Hu).
    apply Exists_exists. exists (if slot_expired tick s then empty_slot else s).
    split; [|by destruct (slot_expired tick s)]. apply list_elem_of_fmap. by exists s.
  - intros Hin. by apply refresh_quarantine in Hin.
Qed.

Lemma ready_next r :
  Reassembler_inv r -> r.(mtu_) = mtu -> now < UINT64_MAX -> ready_for p (refresh r now) ->
  gathers_next [] r.
Proof.
  intros Hr Hm Hmax Hready j t res r' Hj Ht He.
  exists (saturating_deadline t kReassemblyTimeoutTicks).
  pose proof (refresh_inv r now Hr) as Hr0. subst mtu.
  pose proof (fragment_typed p _ Hwf Hmtu j Hj) as Hf.
  destruct (accept_has_outcome _ _ t Hr0 Hf) as (res1 & r1 & He1 & Ho).
  rewrite He in He1. injection He1 as <- <-. split.
  - unfold saturating_deadline, kReassemblyTimeoutTicks in *. split_if; lia.
  - apply (ready_outcome p (refresh (refresh r now) t) j t res r' Hwf (refresh_inv _ t Hr0) Hmtu Hj);
      [by apply ready_refresh|done].
Qed.

End Drain.

(** The operations of an inbound queue. *)
Inductive queue_step : InboundFrameQueue -> InboundFrameQueue -> Prop :=
| queue_step_enqueue q data tick : queue_step q (enqueue q data tick).2
| queue_step_process q now res q' : process_next q now = Some (res, q') -> queue_step q q'
| queue_step_commit q frames tick : queue_step q (mark_committed q frames tick)
| queue_step_stop q : queue_step q (stop q).

Definition queue_reachable (q : InboundFrameQueue) : Prop :=
  exists mtu, rtc queue_step (InboundFrameQueue_make mtu) q.

Lemma make_queue_inv mtu : queue_inv (InboundFrameQueue_make mtu).
Proof.
  split; cbn; [apply Reassembler_make_inv|done|lia|constructor|lia|constructor|constructor|done..|lia].
Qed.

Lemma queue_reachable_inv q : queue_reachable q -> queue_inv q.
Proof.
  intros [mtu Hsteps].
  refine (rtc_invariant queue_step queue_inv _ _ q Hsteps (make_queue_inv mtu)).
  intros x y Hx Hxy. destruct Hxy as [x data tick|x now res y He|x frames tick|x].
  - by apply enqueue_inv.
  - destruct (process_next_inv x now Hx) as (res1 & y1 & He1 & Hy).
    rewrite He in He1. by injection He1 as _ <-.
  - by apply mark_committed_inv.
  - by apply stop_inv.
Qed.

(** A newly committed datagram stays recent while fewer than 128 follow it. *)
Lemma commit_keeps d q frames a x b :
  q.(recent_) = a ++ x :: b -> (length b + length frames < 128)%nat ->
  exists a' b', (foldl (commit_frame d) q frames).(recent_) = a' ++ x :: b'.
Proof.
  revert q a b. induction frames as [|y frames IH]; intros q a b Hr Hlen; [by exists a, b|].
  cbn [foldl length] in *.
  assert (exists a' b', (commit_frame d q y).(recent_) = a' ++ x :: b' /\
    (length b' <= length b + 1)%nat) as (a' & b' & Hr' & Hb').
  { unfold commit_frame. split_if; [exists a, b; split; [done|lia]|].
    split_if; [exists a, b; split; [done|lia]|]. cbn [with_recent recent_].
    unfold kMaximumRecentFrames. split_if; reflect_bools; rewrite Hr in *.
    - destruct a as [|a0 a]; [rewrite length_app in *; cbn in *; lia|].
      exists a, (b ++ [mkRecentFrame y d]). cbn. rewrite <- app_assoc. split; [done|].
      rewrite length_app. cbn. lia.
    - exists a, (b ++ [mkRecentFrame y d]). rewrite <- app_assoc. split; [done|].
      rewrite length_app. cbn. lia. }
  eapply IH; [exact Hr'|lia].
Qed.

Lemma commit_adds d q frames x :
  (length frames <= 128)%nat -> x ∈ frames ->
  Forall (fun y => datagram_fits q.(inbound_mtu) y) frames ->
  Forall (fun f => f.(recent_datagram) <> x) q.(recent_) ->
  mkRecentFrame x d ∈ (foldl (commit_frame d) q frames).(recent_).
Proof.
  revert q. induction frames as [|y frames IH]; intros q Hlen Hx Hfit Hnew;
    [by apply elem_of_nil in Hx|].
  cbn [foldl length] in *. apply Forall_cons in Hfit as [[Hmin Hmax] Hfit].
  assert (inbound_mtu (commit_frame d q y) = inbound_mtu q) as Hm
    by (unfold commit_frame; by repeat split_if).
  destruct (decide (y = x)) as [->|Hne].
  - assert (exists a, (commit_frame d q x).(recent_) = a ++ [mkRecentFrame x d]) as [a Ha].
    { unfold commit_frame, kFrameHeaderBytes.
      rewrite (proj2 (Nat.ltb_ge (length x) _)), (proj2 (Nat.ltb_ge (inbound_mtu q) _)) by lia. cbn [orb].
      rewrite (proj2 (existsb_false_Forall _ _)); [by eexists|].
      eapply Forall_impl; [exact Hnew|]. intros f Hf. by apply bool_decide_eq_false. }
    destruct (commit_keeps d (commit_frame d q x) frames a _ [] Ha) as (a' & b' & ->); [cbn; lia|].
    set_solver.
  - apply IH; [lia| |by rewrite Hm|].
    + by apply elem_of_cons in Hx as [->|Hx].
    + unfold commit_frame. split_if; [done|]. split_if; [done|]. cbn [with_recent recent_].
      apply Forall_app. split; [|by constructor].
      split_if; [|done]. destruct (recent_ q); [done|]. by apply Forall_cons in Hnew as [_ ?].
Qed.

Lemma recent_hit q d now e :
  mkRecentFrame d e ∈ q.(recent_) -> now < e ->
  exists q', recently_committed q d now = (true, q') /\ q'.(reassembler_) = q.(reassembler_).
Proof.
  intros Hin Hnow. unfold recently_committed.
  assert (mkRecentFrame d e ∈ (expire_recent q now).(recent_)) as Hin'.
  { cbn. apply list_elem_of_In, List.filter_In. split; [by apply list_elem_of_In|].
    unfold deadline_reached. cbn. apply negb_true_iff, Z.leb_gt. lia. }
  destruct (find_index _ _) as [i|] eqn:Hfind.
  - apply find_index_Some in Hfind as (x & Hi & _). rewrite Hi. eauto.
  - apply find_index_None in Hfind. rewrite Forall_forall in Hfind. specialize (Hfind _ Hin').
    unfold is_datagram in Hfind. cbn in Hfind. by apply bool_decide_eq_false in Hfind.
Qed.

Lemma mark_committed_adds q frames tick x :
  (length frames <= 128)%nat -> x ∈ frames ->
  Forall (fun y => datagram_fits q.(inbound_mtu) y) frames ->
  Forall (fun f => f.(recent_datagram) <> x) q.(recent_) ->
  mkRecentFrame x (saturating_deadline tick kReassemblyTimeoutTicks) ∈
    (mark_committed q frames tick).(recent_).
Proof.
  intros Hlen Hx Hfit Hnew. apply commit_adds; [done..|].
  cbn. eapply Forall_sublist; [apply filter_sublist|done].
Qed.

Lemma commit_frames_same d q frames :
  let q' := foldl (commit_frame d) q frames in
  q'.(stopped_) = q.(stopped_) /\ q'.(queue_) = q.(queue_) /\
  q'.(reassembler_) = q.(reassembler_).
Proof.
  revert q. induction frames as [|y frames IH]; intros q; [done|]. cbn zeta in *. cbn [foldl].
  destruct (IH (commit_frame d q y)) as (-> & -> & ->).
  unfold commit_frame. by repeat split_if.
Qed.

Lemma process_recent q now x tick rest e :
  q.(stopped_) = false -> q.(queue_) = mkQueuedFrame x tick :: rest ->
  tick <= now < tick + kReassemblyTimeoutTicks ->
  mkRecentFrame x e ∈ q.(recent_) -> now < e ->
  exists q', process_next q now = Some (ingress IngressProcessStatus_RecentDuplicate, q') /\
    q'.(reassembler_) = refresh q.(reassembler_) now.
Proof.
  intros Hstop Hqueue Htick Hin Hnow. unfold process_next. rewrite Hstop.
  destruct (Reassembler_expire _ _) as [expired r] eqn:Hexp.
  cbn [count with_reassembler with_metrics queue_]. rewrite Hqueue. cbn [queued_tick queued_datagram].
  rewrite (proj2 (Z.ltb_ge _ _)), (proj2 (Z.leb_gt _ _)) by lia. cbn [orb].
  match goal with |- context [recently_committed ?q1 x now] =>
    destruct (recent_hit q1 x now e Hin Hnow) as (q' & -> & Hr) end.
  eexists. split; [done|]. change (reassembler_ q' = refresh (reassembler_ q) now).
  unfold refresh. by rewrite Hr, Hexp.
Qed.

(** Arrivals that permute a post's frames are a permutation of its indices. *)
Lemma arrivals_items p q arrivals now :
  is_supported_mtu q.(inbound_mtu) = true ->
  map fst arrivals ≡ₚ canonical_frames_of p q.(inbound_mtu) ->
  Forall (fun a => a.2 <= now < a.2 + kReassemblyTimeoutTicks) arrivals ->
  exists items : list (nat * Z),
    arrivals = map (fun i => (frame_bytes (fragment p q.(inbound_mtu) i.1), i.2)) items /\
    map fst items ≡ₚ seq 0 (fragments_of p q.(inbound_mtu)) /\
    Forall (fun i => (i.1 < fragments_of p q.(inbound_mtu))%nat /\
                     i.2 <= now < i.2 + kReassemblyTimeoutTicks) items.
Proof.
  intros Hm Hperm Hticks. unfold canonical_frames_of in Hperm.
  apply Permutation_map_inv in Hperm as (js & Hjs & Hp).
  assert (length js = length arrivals) as Hlen.
  { apply (f_equal length) in Hjs. by rewrite !length_map in Hjs. }
  exists (zip js (map snd arrivals)).
  assert (map fst (zip js (map snd arrivals)) = js) as Hfst.
  { apply fst_zip. rewrite length_map. lia. }
  split_and!.
  - clear Hp Hticks Hfst Hm. revert js Hjs Hlen. induction arrivals as [|[d t] arrivals IH];
      intros [|j js] Hjs Hlen; try done. cbn in *. injection Hjs as -> Hjs. f_equal. apply IH; [done|lia].
  - rewrite Hfst. by symmetry.
  - apply Forall_forall. intros [j t] Hin. cbn. split.
    + assert (j ∈ js) as Hj by (rewrite <- Hfst; apply list_elem_of_fmap; by exists (j, t)).
      rewrite <- Hp in Hj. apply elem_of_seq in Hj. lia.
    + apply elem_of_zip_r, list_elem_of_fmap in Hin as ([d u] & -> & Hin).
      rewrite Forall_forall in Hticks. by apply (Hticks (d, u)).
Qed.

Lemma enqueue_items p q items now :
  PostPayload_wf p -> queue_inv q -> q.(stopped_) = false -> q.(queue_) = [] ->
  is_supported_mtu q.(inbound_mtu) = true ->
  Forall (fun i => (i.1 < fragments_of p q.(inbound_mtu))%nat /\
                   i.2 <= now < i.2 + kReassemblyTimeoutTicks) items ->
  Forall (fun f => f.(recent_datagram) ∉ canonical_frames_of p q.(inbound_mtu)) q.(recent_) ->
  (length items <= 16)%nat ->
  exists q1, enqueue_all q
      (map (fun i => (frame_bytes (fragment p q.(inbound_mtu) i.1), i.2)) items) =
      (replicate (length items) IngressEnqueueStatus_Accepted, q1) /\
    drainable p now q.(inbound_mtu) items q1 /\ q1.(reassembler_) = q.(reassembler_).
Proof.
  intros Hwf Hq Hrun Hempty Hm Hfresh Hun Hlen. pose proof Hm as Hm'%is_supported_mtu_true.
  destruct (enqueue_all_accepted q
    (map (fun i => (frame_bytes (fragment p q.(inbound_mtu) i.1), i.2)) items) Hq Hrun)
    as (q1 & He & Hq1 & Hs & Hmtu1 & Hrec & Hra & Hqueue); [lia| | |].
  - rewrite length_map, Hempty. cbn. lia.
  - apply Forall_map. eapply Forall_impl; [exact Hfresh|]. intros [j t] [Hj _]. cbn [fst snd] in *.
    destruct (fragment_wf p _ j Hwf Hm Hj) as [Ht Hc]. unfold datagram_fits.
    rewrite length_frame_bytes by done.
    apply canonical_sizes in Hc; unfold capacity_of in *; lia.
  - rewrite length_map in He. exists q1. split; [done|]. split; [|done]. split; try done.
    + by rewrite Hqueue, Hempty, map_map.
    + rewrite Hrec. eapply Forall_impl; [exact Hun|]. intros f Hf k Hk Heq. apply Hf.
      rewrite Heq. unfold canonical_frames_of. apply list_elem_of_fmap. exists k.
      split; [done|]. apply elem_of_seq. lia.
Qed.

Lemma deliver_all p q arrivals frames now :
  PostPayload_wf p -> queue_inv q -> q.(stopped_) = false -> q.(queue_) = [] ->
  is_supported_mtu q.(inbound_mtu) = true ->
  fragment_post p q.(inbound_mtu) = success frames -> map fst arrivals ≡ₚ frames ->
  Forall (fun a => a.2 <= now < a.2 + kReassemblyTimeoutTicks) arrivals ->
  now < UINT64_MAX ->
  Forall (fun f => f.(recent_datagram) ∉ frames) q.(recent_) ->
  ready_for p (refresh q.(reassembler_) now) ->
  exists q1 q2, enqueue_all q arrivals =
      (replicate (length frames) IngressEnqueueStatus_Accepted, q1) /\
    process_n q1 (length frames) now =
      Some (replicate (length frames - 1) (ingress IngressProcessStatus_FragmentAccepted) ++
            [mkIngressProcessResult IngressProcessStatus_Complete
               (Some (mkCompletedPost p (post_bytes p) frames))], q2) /\
    q2.(queue_) = [] /\ q2.(stopped_) = false.
Proof.
  intros Hwf Hq Hrun Hempty Hm Hfr Hperm Hticks Hmax Hun Hready.
  rewrite fragment_post_success in Hfr by done. injection Hfr as <-.
  destruct (arrivals_items p q arrivals now Hm Hperm Hticks) as (items & -> & Hitems & Hfresh).
  assert (length items = fragments_of p (inbound_mtu q)) as Hlen.
  { apply Permutation_length in Hitems. by rewrite length_map, length_seq in Hitems. }
  destruct (fragments_of_bounds p _ Hwf Hm) as [Hn _].
  destruct (enqueue_items p q items now Hwf Hq Hrun Hempty Hm Hfresh Hun) as (q1 & He & Hdr & Hr); [lia|].
  destruct (drain_all p now (inbound_mtu q) Hwf Hm items [] q1 Hdr) as (q2 & Hp & Hend).
  - rewrite app_nil_r, Hitems. apply NoDup_seq.
  - intros k Hk. rewrite app_nil_r, Hitems. apply elem_of_seq. lia.
  - intros ->. cbn in Hlen. lia.
  - rewrite Hr.
    exact (ready_next p now _ Hwf Hm _ (qi_reassembler _ Hq) (qi_mtu _ Hq) Hmax Hready).
  - assert (length (canonical_frames_of p (inbound_mtu q)) = length items) as ->
      by (unfold canonical_frames_of; by rewrite length_map, length_seq, Hlen).
    exists q1, q2. exact (conj He (conj Hp Hend)).
Qed.

(** ** Listening for one post in the midst of other traffic *)

(** What a processed datagram completed. *)
Definition completes (res : IngressProcessResult) : option CompletedPost :=
  match res.(ingress_status) with
  | IngressProcessStatus_Complete => res.(ingress_completed)
  | _ => None
  end.

Lemma recently_committed_facts q d now :
  let q' := (recently_committed q d now).2 in
  q'.(stopped_) = q.(stopped_) /\ q'.(queue_) = q.(queue_) /\
  q'.(reassembler_) = q.(reassembler_) /\ q'.(inbound_mtu) = q.(inbound_mtu) /\
  (forall f, f ∈ q'.(recent_) -> f ∈ q.(recent_)).
Proof.
  cbv zeta. unfold recently_committed.
  assert (forall f, f ∈ (expire_recent q now).(recent_) -> f ∈ q.(recent_)) as Hsub.
  { intros f Hf. eapply elem_of_sublist; [exact Hf|]. apply filter_sublist. }
  destruct (find_index _ _) as [i|]; [|done].
  destruct (_ !! i) as [x|] eqn:Hi; [|done]. cbn [snd].
  split_and!; try done. intros f. cbn [recent_ with_recent].
  intros [Hf|Hf]%elem_of_app; apply Hsub.
  - eapply elem_of_sublist; [exact Hf|]. apply sublist_delete.
  - apply list_elem_of_singleton in Hf as ->. by eapply list_elem_of_lookup_2.
Qed.

(** A turn takes the first datagram; without one, nothing is completed. *)
Lemma process_next_queue q now res q' :
  queue_inv q -> process_next q now = Some (res, q') ->
  q'.(queue_) = tail q.(queue_) /\ (q.(queue_) = [] -> completes res = None).
Proof.
  intros Hq. unfold process_next. destruct (stopped_ q) eqn:Hs.
  { intros [= <- <-]. by rewrite (qi_stopped _ Hq Hs). }
  destruct (Reassembler_expire _ now) as [expired r]. cbn [count with_metrics with_reassembler queue_].
  destruct (queue_ q) as [|f rest] eqn:Eq; [intros [= <- <-]; cbn; by rewrite Eq|].
  split_if; [by intros [= <- <-]|].
  match goal with |- context [recently_committed ?q1 ?d now] =>
    pose proof (recently_committed_facts q1 d now) as (_ & Equeue & _);
    destruct (recently_committed q1 d now) as [[] q2] end; cbn [snd] in Equeue;
    [by intros [= <- <-]|].
  destruct (decode_frame _ _); [|by intros [= <- <-]].
  destruct (Reassembler_accept _ _ _) as [[res0 r']|]; [|done]. cbn [mbind option_bind].
  unfold ingress_of. destruct (reassembly_status res0); by intros [= <- <-].
Qed.

(** A datagram kept by a filter, in the list before. *)
Lemma filter_split {A} (f : A -> bool) l : forall l1 x l2,
  List.filter f l = l1 ++ x :: l2 ->
  exists k1 k2, l = k1 ++ x :: k2 /\ List.filter f k1 = l1 /\ List.filter f k2 = l2.
Proof.
  induction l as [|y l IH]; intros l1 x l2; cbn [List.filter]; [by destruct l1|].
  destruct (f y) eqn:Ef.
  - destruct l1 as [|z l1]; cbn [app]; intros [= -> E]; [by exists [], l|].
    destruct (IH _ _ _ E) as (k1 & k2 & -> & <- & <-). exists (z :: k1), k2. cbn [List.filter]. by rewrite Ef.
  - intros E. destruct (IH _ _ _ E) as (k1 & k2 & -> & <- & <-). exists (y :: k1), k2.
    cbn [List.filter]. by rewrite Ef.
Qed.

Lemma commit_frames_recent d frames : forall q f,
  f ∈ (foldl (commit_frame d) q frames).(recent_) ->
  f ∈ q.(recent_) \/ f.(recent_datagram) ∈ frames.
Proof.
  induction frames as [|y frames IH]; intros q f; cbn [foldl]; [by left|].
  intros [Hf|Hf]%IH; [|right; by right]. revert Hf. unfold commit_frame.
  split_if; [by left|]. split_if; [by left|]. cbn [recent_ with_recent].
  intros [Hf|Hf]%elem_of_app.
  - left. revert Hf. split_if; [|done]. destruct (recent_ q); [done|]. by right.
  - apply list_elem_of_singleton in Hf as ->. right. by left.
Qed.

Section Listening.
Context (p : PostPayload) (mtu : nat).
Hypothesis Hwf : PostPayload_wf p.
Hypothesis Hmtu : is_supported_mtu mtu = true.

(** Nothing bears the post's key without being one of its fragments. *)
Definition genuine (d : bytes) : Prop :=
  forall f, decode_frame (Some d) mtu = success f -> frame_key f = post_key p ->
  exists j, (j < fragments_of p mtu)%nat /\ f = fragment p mtu j.

(** The index of a datagram that is a fragment of the post. *)
Definition fragment_of (d : bytes) : option nat :=
  match decode_frame (Some d) mtu with
  | success f =>
      if bool_decide (frame_key f = post_key p) then Some (Z.to_nat f.(fragment_index)) else None
  | failure _ => None
  end.

(** The fragments among some datagrams, and whether some have been heard of all. *)
Definition heard_of (ds : list bytes) : list nat := omap fragment_of ds.

Definition heard_whole (got : list nat) : Prop :=
  forall k, (k < fragments_of p mtu)%nat -> k ∈ got.

Lemma fragment_of_fragment j :
  (j < fragments_of p mtu)%nat -> fragment_of (frame_bytes (fragment p mtu j)) = Some j.
Proof.
  intros Hj. unfold fragment_of. rewrite decode_fragment by done.
  rewrite bool_decide_eq_true_2 by (by apply fragment_key).
  destruct (fragment_fields p mtu j Hwf Hmtu Hj) as (_ & _ & Ei & _).
  by rewrite Ei, Nat2Z.id.
Qed.

Lemma fragment_of_Some d j :
  genuine d -> fragment_of d = Some j ->
  (j < fragments_of p mtu)%nat /\ d = frame_bytes (fragment p mtu j).
Proof.
  intros Hg Hf. pose proof Hf as Hf'. revert Hf'. unfold fragment_of at 1.
  destruct (decode_frame (Some d) mtu) as [f|] eqn:Ed; [|done].
  case_bool_decide as Hk; [|done]. intros _.
  destruct (Hg f Ed Hk) as (i & Hi & ->).
  apply decode_frame_layout in Ed as (_ & _ & _ & ->).
  rewrite fragment_of_fragment in Hf by done. by injection Hf as ->.
Qed.

(** A running queue that has committed no fragment of the post. *)
Record attends (q : InboundFrameQueue) : Prop := {
  at_inv : queue_inv q;
  at_running : q.(stopped_) = false;
  at_mtu : q.(inbound_mtu) = mtu;
  at_uncommitted : Forall (fun f => forall k, (k < fragments_of p mtu)%nat ->
    f.(recent_datagram) <> frame_bytes (fragment p mtu k)) q.(recent_)
}.

(** What the next fragment, heard and processed at [now], leads to. *)
Definition tuned (now deadline : Z) (got : list nat) (r : Reassembler) : Prop :=
  forall j res r', (j < fragments_of p mtu)%nat ->
  Reassembler_accept (refresh r now) (fragment p mtu j) now = Some (res, r') ->
  gathering_result p mtu deadline got j res r'.

Lemma gathering_tuned now deadline got r :
  Reassembler_inv r -> r.(mtu_) = mtu -> now < deadline -> gathering p deadline got r ->
  tuned now deadline got r.
Proof.
  intros Hr Hm Hd Hg j res r' Hj He. pose proof (refresh_inv r now Hr) as Hr0. subst mtu.
  pose proof (fragment_typed p _ Hwf Hmtu j Hj) as Hf.
  destruct (accept_has_outcome _ _ now Hr0 Hf) as (res1 & r1 & He1 & Ho).
  rewrite He in He1. injection He1 as <- <-.
  assert (gathering p deadline got (refresh (refresh r now) now)) as Hg'
    by (by do 2 (apply refresh_gathering; [|done])).
  by destruct (gathering_outcome p deadline got _ j now res r' Hwf (refresh_inv _ now Hr0) Hmtu Hj Hg' Ho).
Qed.

Lemma ready_tuned now r :
  Reassembler_inv r -> r.(mtu_) = mtu -> ready_for p (refresh r now) ->
  tuned now (saturating_deadline now kReassemblyTimeoutTicks) [] r.
Proof.
  intros Hr Hm Hready j res r' Hj He. pose proof (refresh_inv r now Hr) as Hr0. subst mtu.
  pose proof (fragment_typed p _ Hwf Hmtu j Hj) as Hf.
  destruct (accept_has_outcome _ _ now Hr0 Hf) as (res1 & r1 & He1 & Ho).
  rewrite He in He1. injection He1 as <- <-.
  by apply (ready_outcome p (refresh (refresh r now) now) j now res r' Hwf (refresh_inv _ now Hr0)
    Hmtu Hj); [apply ready_refresh|].
Qed.

Lemma attends_counted f q : attends q -> queue_inv (count f q) -> attends (count f q).
Proof. by intros [? ? ? ?] ?. Qed.

Lemma ingress_of_facts res q :
  attends q ->
  let (st, q') := ingress_of res q in
  attends q' /\ q'.(queue_) = q.(queue_) /\ q'.(reassembler_) = q.(reassembler_) /\
  st.(ingress_status) <> IngressProcessStatus_Empty /\
  (completes st = match res.(reassembly_status) with
                  | ReassemblyStatus_Complete => res.(reassembly_completed)
                  | _ => None
                  end).
Proof.
  intros Hq. pose proof (ingress_of_inv res q (at_inv _ Hq)) as Hi. unfold ingress_of in *.
  destruct (reassembly_status res); cbn [snd] in Hi; split_and!; try done;
    by apply attends_counted.
Qed.

(** One fragment of the post. *)
Lemma attend_fragment now deadline got q j rest :
  attends q -> q.(queue_) = mkQueuedFrame (frame_bytes (fragment p mtu j)) now :: rest ->
  (j < fragments_of p mtu)%nat -> ~ heard_whole got -> tuned now deadline got q.(reassembler_) ->
  exists res q', process_next q now = Some (res, q') /\ attends q' /\ q'.(queue_) = rest /\
    res.(ingress_status) <> IngressProcessStatus_Empty /\
    (~ heard_whole (j :: got) /\ completes res = None /\
       gathering p deadline (j :: got) q'.(reassembler_) \/
     heard_whole (j :: got) /\
       completes res = Some (mkCompletedPost p (post_bytes p) (canonical_frames_of p mtu))).
Proof.
  intros [Hq Hrun Hm Hun] Hqueue Hj Hopen Htuned.
  assert (decode_frame (Some (frame_bytes (fragment p mtu j))) (inbound_mtu q) =
    success (fragment p mtu j)) as Hd by (rewrite Hm; by apply decode_fragment).
  assert (Forall (fun f => recent_datagram f <> frame_bytes (fragment p mtu j)) (recent_ q)) as Hun'.
  { eapply Forall_impl; [exact Hun|]. intros f Hf. by apply Hf. }
  destruct (process_fragment q now _ now rest _ Hq Hrun Hqueue
    ltac:(unfold kReassemblyTimeoutTicks; lia) Hun' Hd)
    as (res & r' & q1 & He & Hp & Hq1 & Hs & Hr & Ha & Hm' & Hsub).
  assert (attends q1) as Hat by (split; [done|done|congruence|by eapply Forall_sublist]).
  pose proof (ingress_of_facts res q1 Hat) as Hfacts.
  destruct (ingress_of res q1) as [st q2]. destruct Hfacts as (Hat2 & Eq & Er & Hne & Hc).
  exists st, q2. split; [done|]. split; [done|]. split; [congruence|]. split; [done|].
  rewrite Hc, Er, Ha. destruct (Htuned j res r' Hj He) as [(Hin & -> & Hg)|[(_ & Ho & -> & Hg)|(_ & Hall & ->)]].
  - left. split; [|split; [done|]].
    + intros Hall. apply Hopen. intros k Hk. specialize (Hall k Hk). set_solver.
    + eapply gathering_same, Hg. set_solver.
  - by left.
  - by right.
Qed.

(** The frames of another post are not those of this one. *)
Lemma foreign_frames p' :
  PostPayload_wf p' -> post_key p' <> post_key p ->
  Forall (fun d => forall k, (k < fragments_of p mtu)%nat -> d <> frame_bytes (fragment p mtu k))
    (canonical_frames_of p' mtu).
Proof.
  intros Hwf' Hne. apply Forall_map, Forall_seq. intros i [_ Hi] k Hk E.
  pose proof (decode_fragment p' mtu i Hwf' Hmtu Hi) as Hd. rewrite E in Hd.
  rewrite decode_fragment in Hd by done. apply Hne.
  assert (fragment p mtu k = fragment p' mtu i) by congruence.
  pose proof (fragment_key p mtu Hwf Hmtu k Hk). pose proof (fragment_key p' mtu Hwf' Hmtu i Hi).
  congruence.
Qed.

Lemma outcome_foreign r f tick res r' c :
  Reassembler_inv r -> r.(mtu_) = mtu -> DataFrame_typed f -> frame_key f <> post_key p ->
  accept_outcome r f tick res r' ->
  match res.(reassembly_status) with
  | ReassemblyStatus_Complete => res.(reassembly_completed)
  | _ => None
  end = Some c ->
  Forall (fun d => forall k, (k < fragments_of p mtu)%nat -> d <> frame_bytes (fragment p mtu k))
    c.(canonical_frames).
Proof.
  intros Hr Hm Hf Hne Ho.
  destruct Ho as [| | | | | | |r1 i s q Hmq Hv Ht _ s' _ (Hwf' & _ & Hk)|]; try done.
  intros [= <-]. cbn [canonical_frames]. rewrite Hm. apply foreign_frames; [done|].
  destruct (target_spec r f tick r1 i s Hr Hf Hmq Hv Ht) as (_ & _ & _ & Hs).
  pose proof (for_key _ _ _ Hs) as E. change (slot_key s) with (slot_key s') in E.
  unfold post_key at 1. congruence.
Qed.

(** A datagram that is no fragment of the post. *)
Lemma attend_other now deadline got q x rest :
  attends q -> q.(queue_) = mkQueuedFrame x now :: rest -> fragment_of x = None ->
  now < deadline -> gathering p deadline got q.(reassembler_) ->
  exists res q', process_next q now = Some (res, q') /\ attends q' /\ q'.(queue_) = rest /\
    res.(ingress_status) <> IngressProcessStatus_Empty /\
    gathering p deadline got q'.(reassembler_) /\
    (forall c, completes res = Some c ->
     Forall (fun d => forall k, (k < fragments_of p mtu)%nat -> d <> frame_bytes (fragment p mtu k))
       c.(canonical_frames)).
Proof.
  intros [Hq Hrun Hm Hun] Hqueue Hx Hd Hg. unfold process_next. rewrite Hrun.
  destruct (Reassembler_expire _ _) as [expired r] eqn:Hexp.
  assert (count (count_expired expired) (with_reassembler q r) = after_expiry q now) as ->.
  { unfold after_expiry, refresh. by rewrite Hexp. }
  change (queue_ (after_expiry q now)) with (queue_ q). rewrite Hqueue.
  pose proof (pop_inv q now _ rest Hq Hqueue) as Hpop.
  set (q1 := update_metrics (with_queue (after_expiry q now) rest)) in *.
  cbn [queued_tick queued_datagram]. unfold kReassemblyTimeoutTicks.
  rewrite (proj2 (Z.ltb_ge _ _)), (proj2 (Z.leb_gt _ _)) by lia. cbn [orb].
  pose proof (recently_committed_facts q1 x now) as Hfacts.
  pose proof (recently_committed_inv q1 x now Hpop) as Hinv.
  destruct (recently_committed q1 x now) as [recent q2]. cbv zeta in Hfacts. cbn [snd] in Hfacts, Hinv.
  destruct Hfacts as (Es & Eq & Er & Em & Hsub).
  assert (attends q2) as Hat.
  { split; [done|by rewrite Es|by rewrite Em|]. apply Forall_forall. intros f Hf.
    rewrite Forall_forall in Hun. exact (Hun f (Hsub f Hf)). }
  assert (gathering p deadline got q2.(reassembler_)) as Hg2.
  { rewrite Er. by apply refresh_gathering. }
  assert (forall f res, attends (count f q2) -> res.(ingress_status) <> IngressProcessStatus_Empty ->
    completes res = None ->
    exists res' q', Some (res, count f q2) = Some (res', q') /\ attends q' /\ q'.(queue_) = rest /\
      res'.(ingress_status) <> IngressProcessStatus_Empty /\
      gathering p deadline got q'.(reassembler_) /\
      (forall c, completes res' = Some c ->
       Forall (fun d => forall k, (k < fragments_of p mtu)%nat -> d <> frame_bytes (fragment p mtu k))
         c.(canonical_frames))) as Hplain.
  { intros f res Hat' Hne Hc. exists res, (count f q2). split_and!; try done.
    intros c Hc'. congruence. }
  destruct recent.
  { apply Hplain; [|done..]. apply attends_counted; [done|]. by apply count_inv; [intros []|]. }
  destruct (decode_frame (Some x) (inbound_mtu q2)) as [frame|e] eqn:Edec.
  2:{ apply Hplain; [|done..]. apply attends_counted; [done|]. by apply count_inv; [intros []|]. }
  rewrite (at_mtu _ Hat) in Edec. pose proof (decode_frame_typed _ _ _ Edec) as (Hf & _ & _).
  assert (frame_key frame <> post_key p) as Hne.
  { intros E. unfold fragment_of in Hx. rewrite Edec in Hx. by rewrite bool_decide_eq_true_2 in Hx. }
  pose proof (qi_reassembler _ (at_inv _ Hat)) as Hr2. pose proof (qi_mtu _ (at_inv _ Hat)) as Hm2.
  rewrite (at_mtu _ Hat) in Hm2.
  destruct (accept_has_outcome (reassembler_ q2) frame now Hr2 Hf) as (res & r' & He & Ho).
  destruct (gathering_other p deadline got _ Hwf Hr2 ltac:(by rewrite Hm2) frame now Hf Hne Hd Hg2)
    as (res' & r'' & He' & Hg' & Hr' & Hm'). rewrite He in He'. injection He' as <- <-.
  rewrite He. cbn [mbind option_bind].
  assert (attends (update_metrics (with_reassembler q2 r'))) as Hat3.
  { split; [apply accepted_inv; [apply Hat|done|]|apply Hat..]. rewrite Hm'. apply (at_inv _ Hat). }
  pose proof (ingress_of_facts res _ Hat3) as Hfacts.
  destruct (ingress_of res _) as [st q4]. destruct Hfacts as (Hat4 & Eq4 & Er4 & Hst & Hc).
  exists st, q4. split; [done|]. split; [done|]. split; [by rewrite Eq4|]. split; [done|].
  split; [by rewrite Er4|]. intros c. rewrite Hc. intros Hcomp.
  refine (outcome_foreign _ frame now res r' c (refresh_inv _ now Hr2) Hm2 Hf Hne Ho Hcomp).
Qed.

(** Nothing is waiting. *)
Lemma attend_idle now deadline got q :
  attends q -> q.(queue_) = [] -> now < deadline -> gathering p deadline got q.(reassembler_) ->
  exists q', process_next q now = Some (ingress IngressProcessStatus_Empty, q') /\ attends q' /\
    q'.(queue_) = [] /\ gathering p deadline got q'.(reassembler_).
Proof.
  intros [Hq Hrun Hm Hun] Hqueue Hd Hg. unfold process_next. rewrite Hrun.
  destruct (Reassembler_expire _ _) as [expired r] eqn:Hexp.
  assert (count (count_expired expired) (with_reassembler q r) = after_expiry q now) as ->.
  { unfold after_expiry, refresh. by rewrite Hexp. }
  change (queue_ (after_expiry q now)) with (queue_ q). rewrite Hqueue.
  eexists. split; [done|]. split; [|split; [done|by apply refresh_gathering]].
  split; try done. by apply update_metrics_inv, after_expiry_core.
Qed.

(** Committing the frames of another post. *)
Lemma attends_commit q frames now :
  attends q ->
  Forall (fun d => forall k, (k < fragments_of p mtu)%nat -> d <> frame_bytes (fragment p mtu k)) frames ->
  attends (mark_committed q frames now) /\ (mark_committed q frames now).(queue_) = q.(queue_) /\
  (mark_committed q frames now).(reassembler_) = q.(reassembler_).
Proof.
  intros [Hq Hrun Hm Hun] Hfr. pose proof (mark_committed_inv q frames now Hq) as Hi.
  unfold mark_committed in *. set (d := saturating_deadline now kReassemblyTimeoutTicks) in *.
  pose proof (commit_frames_same d (expire_recent q now) frames) as (Es & Eq & Er).
  pose proof (commit_frames_recent d frames (expire_recent q now)) as Hsub.
  assert ((foldl (commit_frame d) (expire_recent q now) frames).(inbound_mtu) = q.(inbound_mtu)) as Em.
  { clear. generalize (expire_recent q now) as q1, (eq_refl : inbound_mtu (expire_recent q now) = inbound_mtu q).
    intros q1. revert q1. induction frames as [|y frames IH]; intros q1 E; [done|]. cbn [foldl].
    apply IH. rewrite <- E. unfold commit_frame. by repeat split_if. }
  split; [|by split]. split; [done|by rewrite Es|by rewrite Em|].
  apply Forall_forall. intros f Hf. rewrite Forall_forall in Hun.
  destruct (Hsub f Hf) as [Hold|Hin]; [|exact (proj1 (Forall_forall _ _) Hfr _ Hin)].
  apply Hun. eapply elem_of_sublist; [exact Hold|]. apply filter_sublist.
Qed.

Lemma heard_of_cons d ds : heard_of (d :: ds) = option_list (fragment_of d) ++ heard_of ds.
Proof. unfold heard_of. cbn. by destruct (fragment_of d). Qed.

Lemma heard_of_app ds ds' : heard_of (ds ++ ds') = heard_of ds ++ heard_of ds'.
Proof. apply omap_app. Qed.

Lemma fragment_fits j :
  (j < fragments_of p mtu)%nat -> datagram_fits mtu (frame_bytes (fragment p mtu j)).
Proof.
  intros Hj. destruct (fragment_wf p mtu j Hwf Hmtu Hj) as [Ht Hc]. unfold datagram_fits.
  rewrite length_frame_bytes by done. pose proof Hmtu as Hm%is_supported_mtu_true.
  apply canonical_sizes in Hc; unfold capacity_of in *; lia.
Qed.

(** The size the queue accepts. *)
Definition sized (d : bytes) : bool := (28 <=? length d)%nat && (length d <=? mtu)%nat.

Lemma heard_of_sized ds :
  Forall genuine ds -> heard_of (List.filter sized ds) = heard_of ds.
Proof.
  induction 1 as [|d ds Hd _ IH]; [done|]. cbn [List.filter]. destruct (sized d) eqn:Es.
  { by rewrite !heard_of_cons, IH. }
  rewrite heard_of_cons, IH. destruct (fragment_of d) as [j|] eqn:Ef; [|done]. exfalso.
  destruct (fragment_of_Some d j Hd Ef) as [Hj ->].
  destruct (fragment_fits j Hj) as [Hmin Hmax]. unfold sized in Es.
  rewrite (proj2 (Nat.leb_le _ _) Hmin), (proj2 (Nat.leb_le _ _) Hmax) in Es. done.
Qed.

(** Enqueueing at most as many datagrams as there is room for keeps those of the
    right size, among them every fragment of the post. *)
Lemma attend_enqueue ds now : forall q,
  attends q -> (length q.(queue_) + length ds <= 64)%nat -> Forall genuine ds ->
  let q' := (enqueue_all q (map (fun d => (d, now)) ds)).2 in
  attends q' /\ q'.(reassembler_) = q.(reassembler_) /\
  q'.(queue_) = q.(queue_) ++ map (fun d => mkQueuedFrame d now) (List.filter sized ds).
Proof.
  induction ds as [|d ds IH]; intros q Hq Hlen Hg; cbn zeta in *.
  { cbn. by rewrite app_nil_r. }
  apply Forall_cons in Hg as [Hd Hg]. cbn [map enqueue_all List.filter length] in *.
  pose proof (enqueue_inv q (Some d) now (at_inv _ Hq)) as Hi.
  pose proof Hmtu as Hm%is_supported_mtu_true.
  destruct (sized d) eqn:Es.
  - assert (enqueue q (Some d) now = (IngressEnqueueStatus_Accepted,
      update_metrics (with_queue q (q.(queue_) ++ [mkQueuedFrame d now])))) as He.
    { apply andb_true_iff in Es as [E1%Nat.leb_le E2%Nat.leb_le]. unfold enqueue.
      rewrite (at_running _ Hq), (at_mtu _ Hq). unfold kFrameHeaderBytes, kMaximumTransportMtu,
        kMaximumDatagramBytes, kMaximumInboundFrames.
      rewrite (proj2 (Nat.ltb_ge (length d) _)), (proj2 (Nat.ltb_ge mtu _)),
        (proj2 (Nat.ltb_ge 255 _)), (proj2 (Nat.leb_gt _ _)) by lia. done. }
    rewrite He in Hi |- *. cbn [snd] in Hi.
    assert (attends (update_metrics (with_queue q (q.(queue_) ++ [mkQueuedFrame d now])))) as Hq1
      by (split; [done|apply Hq..]).
    destruct (IH _ Hq1) as (Ha & Hr & Hqueue); [cbn; rewrite length_app; cbn; lia|done|].
    destruct (enqueue_all _ _) as [sts q']. cbn [snd] in *. split; [done|]. split; [by rewrite Hr|].
    rewrite Hqueue. cbn. by rewrite <- app_assoc.
  - assert (enqueue q (Some d) now = (IngressEnqueueStatus_Invalid, q)) as He.
    { unfold enqueue. rewrite (at_running _ Hq), (at_mtu _ Hq).
      unfold kFrameHeaderBytes. apply andb_false_iff in Es as [E%Nat.leb_gt|E%Nat.leb_gt].
      - by rewrite (proj2 (Nat.ltb_lt (length d) _)) by lia.
      - rewrite (proj2 (Nat.ltb_lt mtu _)) by lia. by rewrite orb_true_r. }
    rewrite He. destruct (IH q Hq) as (Ha & Hr & Hqueue); [lia|done|].
    by destruct (enqueue_all _ _) as [sts q'].
Qed.
End Listening.

(** ** Property theorems *)

(** C4: delivery end to end.  Fragment a well-formed post at a supported MTU and
    let its datagrams arrive in any order at a running, empty queue whose
    reassembler is ready for the post and that has committed none of them.
    Every datagram is accepted; processing them within the timeout answers
    [FragmentAccepted] for all but the last and [Complete] for the last, with
    exactly the post that was sent, its encoding and its datagrams. *)
Theorem delivery_end_to_end p q arrivals frames now :
  PostPayload_wf p -> queue_inv q -> q.(stopped_) = false -> q.(queue_) = [] ->
  is_supported_mtu q.(inbound_mtu) = true ->
  fragment_post p q.(inbound_mtu) = success frames -> map fst arrivals ≡ₚ frames ->
  Forall (fun a => a.2 <= now < a.2 + kReassemblyTimeoutTicks) arrivals ->
  now < UINT64_MAX ->
  Forall (fun f => f.(recent_datagram) ∉ frames) q.(recent_) ->
  ready_for p (refresh q.(reassembler_) now) ->
  exists q1 q2, enqueue_all q arrivals =
      (replicate (length frames) IngressEnqueueStatus_Accepted, q1) /\
    process_n q1 (length frames) now =
      Some (replicate (length frames - 1) (ingress IngressProcessStatus_FragmentAccepted) ++
            [mkIngressProcessResult IngressProcessStatus_Complete
               (Some (mkCompletedPost p (post_bytes p) frames))], q2).
Proof.
  intros. edestruct (deliver_all p q arrivals frames now) as (q1 & q2 & He & Hp & _); eauto.
Qed.

Definition golden_arrivals : list (bytes * Z) :=
  [(golden_second_bytes, 100); (frame_bytes (fragment golden_post 64 0), 90)].

Lemma delivery_end_to_end_witness :
  exists frames q1 q2, fragment_post golden_post 64 = success frames /\
    enqueue_all (InboundFrameQueue_make 64) golden_arrivals =
      (replicate (length frames) IngressEnqueueStatus_Accepted, q1) /\
    process_n q1 (length frames) 120 =
      Some (replicate (length frames - 1) (ingress IngressProcessStatus_FragmentAccepted) ++
            [mkIngressProcessResult IngressProcessStatus_Complete
               (Some (mkCompletedPost golden_post (post_bytes golden_post) frames))], q2).
Proof.
  exists (canonical_frames_of golden_post 64).
  assert (fragment_post golden_post 64 = success (canonical_frames_of golden_post 64)) as Hf
    by (vm_compute; reflexivity).
  destruct (delivery_end_to_end golden_post (InboundFrameQueue_make 64) golden_arrivals
    (canonical_frames_of golden_post 64) 120) as (q1 & q2 & He & Hp).
  - exact golden_post_wf.
  - apply make_queue_inv.
  - reflexivity.
  - reflexivity.
  - reflexivity.
  - exact Hf.
  - replace (canonical_frames_of golden_post 64) with (rev (map fst golden_arrivals))
      by (vm_compute; reflexivity). apply Permutation_rev.
  - do 2 (constructor; [cbn; unfold kReassemblyTimeoutTicks; lia|]). constructor.
  - reflexivity.
  - apply Forall_nil_2.
  - apply make_ready.
  - exists q1, q2. split; [exact Hf|]. split; [exact He|exact Hp].
Defined.

(** The ingress is bounded and total.  In every reachable state the queue
    holds at most 64 datagrams of admissible size and at most 128 distinct
    recent ones, the metrics report the queue length and the number of active
    reassemblies exactly, and [process_next] is defined (the reassembler
    stays inside its arrays) and keeps all of this. *)
Theorem queue_reachable_bounded q now :
  queue_reachable q ->
  queue_inv q /\ exists res q', process_next q now = Some (res, q') /\ queue_inv q'.
Proof. intros Hq%queue_reachable_inv. split; [done|]. by apply process_next_inv. Qed.

Lemma queue_reachable_bounded_witness :
  queue_inv (enqueue (InboundFrameQueue_make 64) (Some golden_second_bytes) 5).2 /\
  exists res q',
    process_next (enqueue (InboundFrameQueue_make 64) (Some golden_second_bytes) 5).2 7 =
      Some (res, q') /\ queue_inv q'.
Proof.
  apply queue_reachable_bounded. exists 64%nat. apply rtc_once. apply queue_step_enqueue.
Defined.

(** A committed datagram is not processed twice.  After [mark_committed] with
    at most 128 admissible datagrams, a repeat of any of them that was not
    already recent is answered [RecentDuplicate] until 60000 ticks after the
    commit, and does not reach the reassembler, which only expires. *)
Theorem committed_frames_suppressed q frames tick x arrival rest now :
  q.(stopped_) = false -> (length frames <= 128)%nat ->
  Forall (fun y => datagram_fits q.(inbound_mtu) y) frames -> x ∈ frames ->
  Forall (fun f => f.(recent_datagram) <> x) q.(recent_) ->
  q.(queue_) = mkQueuedFrame x arrival :: rest ->
  arrival <= now < arrival + kReassemblyTimeoutTicks ->
  now < saturating_deadline tick kReassemblyTimeoutTicks ->
  exists q', process_next (mark_committed q frames tick) now =
      Some (ingress IngressProcessStatus_RecentDuplicate, q') /\
    q'.(reassembler_) = refresh q.(reassembler_) now.
Proof.
  intros Hrun Hlen Hfit Hx Hnew Hqueue Harr Hnow.
  pose proof (mark_committed_adds q frames tick x Hlen Hx Hfit Hnew) as Hin.
  destruct (commit_frames_same (saturating_deadline tick kReassemblyTimeoutTicks)
    (expire_recent q tick) frames) as (Hs & Hq & Hr).
  destruct (process_recent (mark_committed q frames tick) now x arrival rest _
    ltac:(unfold mark_committed; by rewrite Hs) ltac:(unfold mark_committed; by rewrite Hq)
    Harr Hin Hnow) as (q' & Hp & Hr').
  exists q'. split; [done|]. rewrite Hr'. f_equal. exact Hr.
Qed.

Lemma committed_frames_suppressed_witness :
  let q := (enqueue (InboundFrameQueue_make 64) (Some golden_second_bytes) 5).2 in
  exists q', process_next (mark_committed q [golden_second_bytes] 4) 9 =
      Some (ingress IngressProcessStatus_RecentDuplicate, q') /\
    q'.(reassembler_) = refresh q.(reassembler_) 9.
Proof.
  cbn zeta. apply (committed_frames_suppressed _ [golden_second_bytes] 4 golden_second_bytes 5 [] 9).
  - reflexivity.
  - apply Nat.leb_le. reflexivity.
  - constructor; [split; apply Nat.leb_le; reflexivity|constructor].
  - by left.
  - apply Forall_nil_2.
  - reflexivity.
  - by split; apply Z.leb_le || apply Z.ltb_lt.
  - reflexivity.
Defined.
