(* ===== verification/DedupeWindow.v ===== *)
(** * DedupeWindow: the bounded memory of posts already seen

    src/protocol/dedupe_window.h and dedupe_window.cpp.  A window remembers the
    canonical encodings of the posts most recently seen, in order; it evicts
    the oldest record that is not protected. *)
From Stdlib Require Import Sorting.Sorted.
From S2P Require Import Prelude Text Ports Uuid Post Limits PostCodec.

(** ** Definitions *)

Definition kDefaultSeenMessageCapacity : nat := 2048.

Record SeenMessageRecord := mkSeenMessageRecord {
  seen_message_id : MessageId;
  seen_order : Z;
  encoded_post : bytes
}.

Inductive DedupeClassification :=
| DedupeClassification_New
| DedupeClassification_Duplicate
| DedupeClassification_Conflict
| DedupeClassification_Invalid.

Inductive DedupeError :=
| DedupeError_None
| DedupeError_InvalidCapacity
| DedupeError_TooManyRecords
| DedupeError_InvalidRecord
| DedupeError_DuplicateMessageId
| DedupeError_InvalidOrder
| DedupeError_OrderExhausted
| DedupeError_ProtectedCapacity.

#[global] Instance DedupeError_eq_decision : EqDecision DedupeError.
Proof. solve_decision. Defined.

Record MessageDedupeWindow := mkMessageDedupeWindow {
  window_capacity : nat;
  last_seen_order : Z;
  records : list SeenMessageRecord
}.

(** A result as the option of its value, to compare it. *)
Definition value_of {T E} (r : Result T E) : option T :=
  match r with success v => Some v | failure _ => None end.

Definition is_canonical_record (record : SeenMessageRecord) : bool :=
  if record.(seen_order) =? 0 then false
  else
    match decode_post_bytes record.(encoded_post) with
    | failure _ => false
    | success decoded =>
        if negb (bool_decide (decoded.(message_id) = record.(seen_message_id))) then false
        else bool_decide (value_of (encode_post decoded) = Some record.(encoded_post))
    end.

Definition is_protected (message_id : MessageId) (protected_message_ids : list MessageId) : bool :=
  bool_decide (message_id ∈ protected_message_ids).

(** The public constructor; [None] is its exception. *)
Definition Window_make (capacity : nat) : option MessageDedupeWindow :=
  if (capacity =? 0)%nat then None else Some (mkMessageDedupeWindow capacity 0 []).

(** The validation loop, with the two sets and the previous order as its state. *)
Fixpoint restore_records (last_seen_order : Z) (message_ids : list MessageId)
    (seen_orders : list Z) (previous_order : Z) (records : list SeenMessageRecord)
  : DedupeError :=
  match records with
  | [] => DedupeError_None
  | record :: records =>
      if negb (is_canonical_record record) then DedupeError_InvalidRecord
      else if bool_decide (record.(seen_message_id) ∈ message_ids)
      then DedupeError_DuplicateMessageId
      else if bool_decide (record.(seen_order) ∈ seen_orders) ||
              (record.(seen_order) <=? previous_order) ||
              (last_seen_order <? record.(seen_order))
      then DedupeError_InvalidOrder
      else restore_records last_seen_order (record.(seen_message_id) :: message_ids)
             (record.(seen_order) :: seen_orders) record.(seen_order) records
  end.

Definition Window_restore (capacity : nat) (last_seen_order : Z)
    (records : list SeenMessageRecord) : Result MessageDedupeWindow DedupeError :=
  if (capacity =? 0)%nat then failure DedupeError_InvalidCapacity
  else if (capacity <? length records)%nat then failure DedupeError_TooManyRecords
  else
    let error := restore_records last_seen_order [] [] 0 records in
    if negb (bool_decide (error = DedupeError_None)) then failure error
    else
      match last records with
      | None =>
          if negb (last_seen_order =? 0) then failure DedupeError_InvalidOrder
          else success (mkMessageDedupeWindow capacity last_seen_order records)
      | Some back =>
          if negb (back.(seen_order) =? last_seen_order)
          then failure DedupeError_InvalidOrder
          else success (mkMessageDedupeWindow capacity last_seen_order records)
      end.

Definition classify (w : MessageDedupeWindow) (message_id : MessageId)
    (canonical_post : bytes) : DedupeClassification :=
  match List.find (fun record => bool_decide (record.(seen_message_id) = message_id))
          w.(records) with
  | None => DedupeClassification_New
  | Some found =>
      if bool_decide (found.(encoded_post) = canonical_post)
      then DedupeClassification_Duplicate else DedupeClassification_Conflict
  end.

(** The insertion of a new record after room has been made. *)
Definition push_record (w : MessageDedupeWindow) (kept : list SeenMessageRecord)
    (message_id : MessageId) (canonical_post : bytes) : MessageDedupeWindow :=
  let order := u64 (w.(last_seen_order) + 1) in
  mkMessageDedupeWindow w.(window_capacity) order
    (kept ++ [mkSeenMessageRecord message_id order canonical_post]).

Definition remember (w : MessageDedupeWindow) (post : PostPayload) (canonical_post : bytes)
    (protected_message_ids : list MessageId) : DedupeError * MessageDedupeWindow :=
  if negb (bool_decide (value_of (decode_post_bytes canonical_post) = Some post))
  then (DedupeError_InvalidRecord, w)
  else if negb (bool_decide (value_of (encode_post post) = Some canonical_post))
  then (DedupeError_InvalidRecord, w)
  else
    match classify w post.(message_id) canonical_post with
    | DedupeClassification_Duplicate => (DedupeError_None, w)
    | DedupeClassification_Conflict => (DedupeError_DuplicateMessageId, w)
    | DedupeClassification_Invalid => (DedupeError_InvalidRecord, w)
    | DedupeClassification_New =>
        if w.(last_seen_order) =? UINT64_MAX then (DedupeError_OrderExhausted, w)
        else if (w.(window_capacity) <=? length w.(records))%nat then
          match find_index (fun record =>
                  negb (is_protected record.(seen_message_id) protected_message_ids))
                  w.(records) with
          | None => (DedupeError_ProtectedCapacity, w)
          | Some evicted =>
              (DedupeError_None,
               push_record w (delete evicted w.(records)) post.(message_id) canonical_post)
          end
        else (DedupeError_None, push_record w w.(records) post.(message_id) canonical_post)
    end.

(** ** Invariant *)

Definition record_canonical (r : SeenMessageRecord) : Prop :=
  exists p, PostPayload_wf p /\ p.(message_id) = r.(seen_message_id) /\
            encode_post p = success r.(encoded_post).

Record Window_inv (w : MessageDedupeWindow) : Prop := {
  wi_capacity : w.(window_capacity) <> 0%nat;
  wi_size : (length w.(records) <= w.(window_capacity))%nat;
  wi_canonical : Forall record_canonical w.(records);
  wi_ids : NoDup (map seen_message_id w.(records));
  wi_sorted : StronglySorted Z.lt (map seen_order w.(records));
  wi_orders : Forall (fun r => 0 < r.(seen_order) <= w.(last_seen_order)) w.(records);
  wi_last : w.(last_seen_order) =
    match last w.(records) with Some r => r.(seen_order) | None => 0 end;
  wi_range : w.(last_seen_order) <= UINT64_MAX
}.

Lemma value_of_Some {T E} (r : Result T E) v : value_of r = Some v <-> r = success v.
Proof. destruct r; cbn; split; congruence. Qed.

Lemma is_canonical_record_iff r :
  is_canonical_record r = true <-> r.(seen_order) <> 0 /\ record_canonical r.
Proof.
  unfold is_canonical_record, record_canonical, decode_post_bytes.
  destruct (Z.eqb_spec (seen_order r) 0) as [->|Hne]; [split; [done|by intros []]|].
  destruct (decode_post _) as [p|e] eqn:Hd.
  - pose proof Hd as Hd'. apply decode_post_layout in Hd as [Hwf Hb].
    case_bool_decide as Hid; cbn [negb].
    + rewrite bool_decide_eq_true, value_of_Some. split.
      * intros He. split; [done|]. by exists p.
      * intros [_ (q & Hq & _ & He)]. by rewrite encode_post_layout, Hb by done.
    + split; [done|]. intros [_ (q & Hq & Hid' & He)].
      rewrite encode_post_layout in He by done. injection He as He.
      assert (decode_post (Some (encoded_post r)) = success q) as Hd2
        by (apply decode_post_layout; by rewrite He). congruence.
  - split; [done|]. intros [_ (q & Hq & Hid' & He)].
    rewrite encode_post_layout in He by done. injection He as He.
    assert (decode_post (Some (encoded_post r)) = success q) as Hd2
      by (apply decode_post_layout; by rewrite He). congruence.
Qed.

Lemma restore_records_None last ids orders prev rs :
  Forall (fun o => o <= prev) orders ->
  restore_records last ids orders prev rs = DedupeError_None <->
  Forall record_canonical rs /\ NoDup (map seen_message_id rs) /\
  (forall i, i ∈ ids -> i ∈ map seen_message_id rs -> False) /\
  StronglySorted Z.lt (map seen_order rs) /\
  Forall (fun r => r.(seen_order) <> 0 /\ prev < r.(seen_order) <= last) rs.
Proof.
  revert ids orders prev. induction rs as [|r rs IH]; intros ids orders prev Hprev; cbn [restore_records].
  { split; [|done]. intros _. split_and!; try constructor. intros i _ Hi. by apply elem_of_nil in Hi. }
  destruct (is_canonical_record r) eqn:Hc; cbn [negb].
  2:{ split; [done|]. intros (Hall & _ & _ & _ & Hord). apply Forall_cons in Hall as [Hr _].
      apply Forall_cons in Hord as [[H0 _] _]. assert (is_canonical_record r = true) by
        by apply is_canonical_record_iff. congruence. }
  apply is_canonical_record_iff in Hc as [H0 Hc].
  case_bool_decide as Hin.
  { split; [done|]. intros (_ & _ & Hdis & _). exfalso. apply (Hdis (seen_message_id r)); [done|]. by left. }
  destruct (_ || _) eqn:Hord.
  - split; [done|]. intros (_ & _ & _ & _ & Hall). exfalso.
    apply Forall_cons in Hall as [[_ Hr] _]. reflect_bools.
    destruct Hord as [Ho|Ho]; reflect_bools; [destruct Ho as [Ho|Ho]|]; reflect_bools; [|lia|lia].
    rewrite Forall_forall in Hprev. specialize (Hprev _ Ho). lia.
  - reflect_bools. rewrite IH.
    + cbn [map]. rewrite !Forall_cons, NoDup_cons. split.
      * intros (Hall & Hnd & Hdis & Hs & Hord). split_and!; try done; try lia.
        -- intros Hi. apply (Hdis (seen_message_id r)); [by left|done].
        -- intros i Hi Hi'. apply elem_of_cons in Hi' as [->|Hi']; [done|].
           apply (Hdis i); [by right|done].
        -- constructor; [done|]. apply Forall_map. eapply Forall_impl; [exact Hord|]. cbn. lia.
        -- eapply Forall_impl; [exact Hord|]. cbn. lia.
      * intros ([_ Hall] & [Hi Hnd] & Hdis & Hs & [_ Hord]).
        apply StronglySorted_inv in Hs as [Hs Hlt]. split_and!; try done.
        -- intros i Hii Hi'. apply elem_of_cons in Hii as [->|Hii]; [done|].
           apply (Hdis i); [done|by right].
        -- rewrite Forall_map in Hlt. rewrite Forall_forall in *. intros x Hx.
           specialize (Hord x Hx). specialize (Hlt x Hx). cbn in Hlt. lia.
    + constructor; [lia|]. eapply Forall_impl; [exact Hprev|]. cbn. lia.
Qed.

Lemma Window_restore_success capacity last_order rs w :
  is_u64 last_order ->
  Window_restore capacity last_order rs = success w <->
  w = mkMessageDedupeWindow capacity last_order rs /\ Window_inv w.
Proof.
  intros Hlast. unfold Window_restore, is_u64 in *.
  pose proof (restore_records_None last_order [] [] 0 rs (Forall_nil_2 _)) as Hnone.
  destruct (Nat.eqb_spec capacity 0) as [->|Hcap]; [split; [done|]; by intros [-> []]|].
  destruct (Nat.ltb_spec capacity (length rs)) as [Hlt|Hlen].
  { split; [done|]. intros [-> []]. cbn in *. lia. }
  case_bool_decide as Herr; cbn [negb].
  2:{ split; [done|]. intros [-> []]. cbn in *. destruct Herr. apply Hnone.
      split_and!; try done. - intros i Hi. by apply elem_of_nil in Hi.
      - eapply Forall_impl; [eassumption|]. cbn. lia. }
  apply Hnone in Herr as (Hcan & Hnd & _ & Hs & Hord).
  assert (forall o, o = last_order -> o =
    match last rs with Some r => r.(seen_order) | None => 0 end ->
    Window_inv (mkMessageDedupeWindow capacity last_order rs)) as Hinv.
  { intros o -> Ho. split; cbn; try done; [|lia].
    eapply Forall_impl; [exact Hord|]. cbn. lia. }
  destruct (last rs) as [back|] eqn:Hback.
  - destruct (Z.eqb_spec (seen_order back) last_order) as [He|He]; cbn [negb].
    + split; [intros [= <-]; by eauto|by intros [-> _]].
    + split; [done|]. intros [-> [_ _ _ _ _ _ Hl _]]. cbn in Hl. rewrite Hback in Hl. congruence.
  - destruct (Z.eqb_spec last_order 0) as [He|He]; cbn [negb].
    + split; [intros [= <-]; by eauto|by intros [-> _]].
    + split; [done|]. intros [-> [_ _ _ _ _ _ Hl _]]. cbn in Hl. rewrite Hback in Hl. congruence.
Qed.

(** ** Remembering *)

Definition remembers (w : MessageDedupeWindow) (i : MessageId) : Prop :=
  i ∈ map seen_message_id w.(records).

Lemma StronglySorted_sublist {A} (R : A -> A -> Prop) l l' :
  l `sublist_of` l' -> StronglySorted R l' -> StronglySorted R l.
Proof.
  induction 1 as [|x l l' Hs IH|x l l' Hs IH]; intros Hl; [constructor|..];
    apply StronglySorted_inv in Hl as [Hl Hx]; [constructor; [by apply IH|]|by apply IH].
  rewrite Forall_forall in *. intros y Hy. apply Hx. by eapply elem_of_sublist.
Qed.

Lemma StronglySorted_snoc {A} (R : A -> A -> Prop) l x :
  StronglySorted R l -> Forall (fun y => R y x) l -> StronglySorted R (l ++ [x]).
Proof.
  induction 1 as [|y l Hs IH Hy]; intros Hx; cbn; [repeat constructor|].
  apply Forall_cons in Hx as [Hyx Hx]. constructor; [by apply IH|].
  apply Forall_app. split; [done|by constructor].
Qed.

(** What [remember] can be told: the canonical encoding of a well-formed post. *)
Definition canonical_pair (post : PostPayload) (canonical : bytes) : Prop :=
  PostPayload_wf post /\ encode_post post = success canonical.

Lemma canonical_pair_checks post canonical :
  canonical_pair post canonical <->
  bool_decide (value_of (decode_post_bytes canonical) = Some post) = true /\
  bool_decide (value_of (encode_post post) = Some canonical) = true.
Proof.
  unfold canonical_pair, decode_post_bytes. rewrite !bool_decide_eq_true, !value_of_Some.
  rewrite decode_post_layout. split.
  - intros [Hwf He]. pose proof He as He'. rewrite encode_post_layout in He' by done.
    injection He' as <-. done.
  - by intros [[Hwf _] He].
Qed.

Lemma push_record_inv w kept post canonical :
  Window_inv w -> kept `sublist_of` w.(records) ->
  (length kept < w.(window_capacity))%nat -> w.(last_seen_order) <> UINT64_MAX ->
  canonical_pair post canonical -> ~ remembers w post.(message_id) ->
  Window_inv (push_record w kept post.(message_id) canonical).
Proof.
  intros [] Hk Hlen Hmax [Hwf He] Hnew.
  assert (0 <= last_seen_order w) as Hpos.
  { rewrite wi_last0. destruct (last (records w)) as [r|] eqn:Hr; [|lia].
    apply last_Some_elem_of in Hr. rewrite Forall_forall in wi_orders0. specialize (wi_orders0 r Hr). lia. }
  assert (Forall (fun r => 0 < seen_order r <= last_seen_order w) kept) as Hord.
  { rewrite Forall_forall in *. intros r Hr. apply wi_orders0. by eapply elem_of_sublist. }
  assert (u64 (last_seen_order w + 1) = last_seen_order w + 1) as Hu.
  { unfold u64, UINT64_MAX in *. apply Z.mod_small. lia. }
  unfold push_record. rewrite Hu.
  split; cbn [window_capacity last_seen_order records]; try done.
  - rewrite length_app. cbn. lia.
  - apply Forall_app. split.
    + rewrite Forall_forall in *. intros r Hr. apply wi_canonical0. by eapply elem_of_sublist.
    + constructor; [|done]. by exists post.
  - rewrite map_app. apply NoDup_app. split_and!; [|intros i Hi ->%list_elem_of_singleton|apply NoDup_singleton].
    + eapply sublist_NoDup; [exact wi_ids0|by apply sublist_map].
    + apply Hnew. eapply elem_of_sublist; [exact Hi|by apply sublist_map].
  - rewrite map_app. apply StronglySorted_snoc.
    + eapply StronglySorted_sublist; [by apply sublist_map|done].
    + apply Forall_map. eapply Forall_impl; [exact Hord|]. cbn. lia.
  - apply Forall_app. split; [|by repeat constructor; cbn; lia].
    eapply Forall_impl; [exact Hord|]. cbn. lia.
  - by rewrite last_snoc.
  - lia.
Qed.

Lemma find_record w i :
  match List.find (fun r => bool_decide (r.(seen_message_id) = i)) w.(records) with
  | None => ~ remembers w i
  | Some r => r ∈ w.(records) /\ r.(seen_message_id) = i
  end.
Proof.
  destruct (List.find _ _) as [r|] eqn:Hf.
  - apply List.find_some in Hf as [Hin Hb]. apply bool_decide_eq_true in Hb.
    split; [by apply list_elem_of_In|done].
  - intros (r & -> & Hr)%list_elem_of_fmap.
    apply list_elem_of_In in Hr. pose proof (List.find_none _ _ Hf r Hr) as Hb. cbn in Hb.
    by apply bool_decide_eq_false in Hb.
Qed.

(** The answers of [classify], for canonical encodings. *)
Lemma classify_cases w i canonical :
  match classify w i canonical with
  | DedupeClassification_New => ~ remembers w i
  | DedupeClassification_Duplicate => exists r, r ∈ w.(records) /\ r.(seen_message_id) = i /\ r.(encoded_post) = canonical
  | DedupeClassification_Conflict => exists r, r ∈ w.(records) /\ r.(seen_message_id) = i /\ r.(encoded_post) <> canonical
  | DedupeClassification_Invalid => False
  end.
Proof.
  unfold classify. pose proof (find_record w i) as Hf.
  destruct (List.find _ _) as [r|]; [|done]. destruct Hf as [Hin Hid].
  case_bool_decide; by exists r.
Qed.

(** Room for one more: nothing to evict, or the oldest unprotected record gone. *)
Inductive room (w : MessageDedupeWindow) (protected : list MessageId)
  : list SeenMessageRecord -> Prop :=
| room_free : (length w.(records) < w.(window_capacity))%nat -> room w protected w.(records)
| room_evicted i r :
    (w.(window_capacity) <= length w.(records))%nat -> w.(records) !! i = Some r ->
    r.(seen_message_id) ∉ protected ->
    (forall j x, (j < i)%nat -> w.(records) !! j = Some x -> x.(seen_message_id) ∈ protected) ->
    room w protected (delete i w.(records)).

Lemma room_spec w protected kept :
  Window_inv w -> room w protected kept ->
  kept `sublist_of` w.(records) /\ (length kept < w.(window_capacity))%nat.
Proof.
  intros [] [Hlen|i r Hlen Hi Hp Hold]; [done|]. split; [apply sublist_delete|].
  apply lookup_lt_Some in Hi as Hlt. rewrite length_delete by (by eexists). lia.
Qed.

(** Every branch of [remember]. *)
Definition remember_outcome (w : MessageDedupeWindow) (post : PostPayload) (canonical : bytes)
    (protected : list MessageId) (error : DedupeError) (w' : MessageDedupeWindow) : Prop :=
  match error with
  | DedupeError_None =>
      canonical_pair post canonical /\
      ((w' = w /\ classify w post.(message_id) canonical = DedupeClassification_Duplicate) \/
       (~ remembers w post.(message_id) /\ w.(last_seen_order) <> UINT64_MAX /\
        exists kept, room w protected kept /\
          w' = push_record w kept post.(message_id) canonical))
  | DedupeError_InvalidRecord => w' = w /\ ~ canonical_pair post canonical
  | DedupeError_DuplicateMessageId =>
      w' = w /\ canonical_pair post canonical /\
      classify w post.(message_id) canonical = DedupeClassification_Conflict
  | DedupeError_OrderExhausted =>
      w' = w /\ ~ remembers w post.(message_id) /\ w.(last_seen_order) = UINT64_MAX
  | DedupeError_ProtectedCapacity =>
      w' = w /\ ~ remembers w post.(message_id) /\
      (w.(window_capacity) <= length w.(records))%nat /\
      Forall (fun r => r.(seen_message_id) ∈ protected) w.(records)
  | _ => False
  end.

Lemma is_protected_false i protected :
  negb (is_protected i protected) = true <-> i ∉ protected.
Proof. unfold is_protected. rewrite negb_true_iff. apply bool_decide_eq_false. Qed.

Lemma is_protected_true i protected :
  negb (is_protected i protected) = false <-> i ∈ protected.
Proof. unfold is_protected. rewrite negb_false_iff. apply bool_decide_eq_true. Qed.

Lemma remember_cases w post canonical protected :
  let '(error, w') := remember w post canonical protected in
  remember_outcome w post canonical protected error w'.
Proof.
  unfold remember. pose proof (canonical_pair_checks post canonical) as Hc.
  destruct (bool_decide (_ = Some post)) eqn:E1; cbn [negb];
    [|by split; [|rewrite Hc; intros []]].
  destruct (bool_decide (_ = Some canonical)) eqn:E2; cbn [negb];
    [|by split; [|rewrite Hc; intros []]].
  assert (canonical_pair post canonical) as Hpair by by apply Hc.
  pose proof (classify_cases w (message_id post) canonical) as Hcl.
  destruct (classify _ _ _) eqn:Hclass; [|by split; [|left]|done|done].
  destruct (Z.eqb_spec (last_seen_order w) UINT64_MAX) as [Hmax|Hmax]; [done|].
  destruct (Nat.leb_spec (window_capacity w) (length (records w))) as [Hfull|Hfree].
  - destruct (find_index _ _) as [i|] eqn:Hf.
    + apply find_index_Some in Hf as (r & Hi & Hp & Hold). split; [done|]. right.
      split_and!; [done..|]. eexists. split; [|done].
      eapply room_evicted; [done|exact Hi|by apply is_protected_false|].
      intros j x Hj Hx. apply is_protected_true. by eapply Hold.
    + apply find_index_None in Hf. split_and!; [done..|].
      eapply Forall_impl; [exact Hf|]. intros r. apply is_protected_true.
  - split; [done|]. right. split_and!; [done..|]. eexists. split; [by apply room_free|done].
Qed.

Lemma remember_inv w post canonical protected :
  Window_inv w -> Window_inv (remember w post canonical protected).2.
Proof.
  intros Hw. pose proof (remember_cases w post canonical protected) as Hc.
  destruct (remember w post canonical protected) as [error w'].
  destruct error; cbn [snd remember_outcome] in *; try done; try (by destruct Hc as [-> _]).
  destruct Hc as [Hpair [[-> _]|(Hnew & Hmax & kept & Hroom & ->)]]; [done|].
  destruct (room_spec _ _ _ Hw Hroom). by apply push_record_inv.
Qed.

Lemma Window_make_inv capacity w : Window_make capacity = Some w -> Window_inv w.
Proof.
  unfold Window_make. destruct (Nat.eqb_spec capacity 0); [done|]. intros [= <-].
  split; cbn; try done; try constructor; lia.
Qed.

(** With distinct identifiers, the record found is the record there is. *)
Lemma classify_record w r c :
  Window_inv w -> r ∈ w.(records) ->
  classify w r.(seen_message_id) c =
  if bool_decide (r.(encoded_post) = c) then DedupeClassification_Duplicate
  else DedupeClassification_Conflict.
Proof.
  intros Hw Hr. unfold classify. pose proof (find_record w (seen_message_id r)) as Hf.
  destruct (List.find _ _) as [x|].
  - destruct Hf as [Hx Hid]. assert (x = r) as ->; [|done].
    apply list_elem_of_lookup in Hr as [i Hi]. apply list_elem_of_lookup in Hx as [j Hj].
    assert (i = j) as ->; [|congruence].
    eapply (NoDup_lookup (map seen_message_id (records w)) i j (seen_message_id r)); [apply Hw|..];
      rewrite list_lookup_fmap; [by rewrite Hi|rewrite Hj; cbn; by rewrite Hid].
  - destruct Hf. apply list_elem_of_fmap. by exists r.
Qed.

Lemma room_keeps w protected kept r :
  room w protected kept -> r ∈ w.(records) -> r.(seen_message_id) ∈ protected -> r ∈ kept.
Proof.
  intros [_|i x _ Hi Hp _] Hr Hprot; [done|].
  apply list_elem_of_lookup in Hr as [j Hj]. destruct (decide (j = i)) as [->|Hne]; [congruence|].
  pose proof (delete_Permutation _ _ _ Hi) as Hperm.
  assert (r ∈ x :: delete i (records w)) as Hin
    by (rewrite <- Hperm; by eapply list_elem_of_lookup_2).
  apply elem_of_cons in Hin as [->|Hin]; [done|done].
Qed.

#[export] Hint Resolve remember_inv Window_make_inv : lora.

(** ** Property theorems *)

(** Restoring accepts exactly the saved windows.  For a 64-bit order and any
    records, [restore] succeeds exactly when the window they describe is
    valid: nonzero capacity not exceeded, every record the canonical encoding
    of a well-formed post with the record's identifier, identifiers distinct,
    orders positive and strictly increasing, and the newest order equal to the
    high-water mark; the result is that window. *)
Theorem Window_restore_accepts capacity last_order rs w :
  is_u64 last_order ->
  Window_restore capacity last_order rs = success w <->
  w = mkMessageDedupeWindow capacity last_order rs /\ Window_inv w.
Proof. apply Window_restore_success. Qed.

Definition golden_record (order : Z) : SeenMessageRecord :=
  mkSeenMessageRecord golden_post.(message_id) order golden_bytes.

Lemma Window_restore_accepts_witness :
  let w := mkMessageDedupeWindow 2 7 [golden_record 7] in
  Window_restore 2 7 [golden_record 7] = success w /\ Window_inv w.
Proof.
  cbn zeta. assert (Window_restore 2 7 [golden_record 7] =
    success (mkMessageDedupeWindow 2 7 [golden_record 7])) as He by (vm_compute; reflexivity).
  split; [exact He|]. apply (Window_restore_accepts 2 7 [golden_record 7]); [|exact He].
  by split.
Defined.

(** [remember] on every branch.  It refuses anything but the canonical
    encoding of the well-formed post given; a known identifier is a duplicate
    when the bytes agree and an error when they differ; a new post is appended
    under the next order, evicting when full the oldest record that is not
    protected; errors leave the window as it was, and the invariant is kept. *)
Theorem remember_spec w post canonical protected :
  Window_inv w ->
  let '(error, w') := remember w post canonical protected in
  remember_outcome w post canonical protected error w' /\ Window_inv w'.
Proof.
  intros Hw. pose proof (remember_cases w post canonical protected) as Hc.
  pose proof (remember_inv w post canonical protected Hw) as Hi.
  by destruct (remember w post canonical protected).
Qed.

Lemma remember_spec_witness :
  exists w, Window_make 1 = Some w /\
  let '(error, w') := remember w golden_post golden_bytes [] in
  remember_outcome w golden_post golden_bytes [] error w' /\ Window_inv w'.
Proof.
  exists (mkMessageDedupeWindow 1 0 []). split; [reflexivity|].
  apply remember_spec. by apply (Window_make_inv 1).
Defined.

(** What is remembered is recognised, and what is protected is not
    forgotten.  After [remember] succeeds, the post's bytes classify as
    [Duplicate] and any other bytes under its identifier as [Conflict]; and a
    protected identifier classifies after the call exactly as before it. *)
Theorem remembered_recognised w post canonical protected w' :
  Window_inv w -> remember w post canonical protected = (DedupeError_None, w') ->
  (forall c, classify w' post.(message_id) c =
     if bool_decide (canonical = c) then DedupeClassification_Duplicate
     else DedupeClassification_Conflict) /\
  (forall i c, i ∈ protected -> remembers w i -> classify w' i c = classify w i c).
Proof.
  intros Hw He. pose proof (remember_cases w post canonical protected) as Hc.
  pose proof (remember_inv w post canonical protected Hw) as Hw'. rewrite He in Hc, Hw'. cbn in Hw'.
  destruct Hc as [_ [[-> Hdup]|(Hnew & _ & kept & Hroom & ->)]].
  - split; [|done]. pose proof (classify_cases w (message_id post) canonical) as Hcl.
    rewrite Hdup in Hcl. destruct Hcl as (r & Hr & <- & <-). intros c. by apply classify_record.
  - split.
    + intros c. apply (classify_record _ (mkSeenMessageRecord (message_id post)
        (u64 (last_seen_order w + 1)) canonical) c Hw').
      apply elem_of_app. right. by apply list_elem_of_singleton.
    + intros i c Hi (r & -> & Hr)%list_elem_of_fmap.
      rewrite (classify_record w r) by done. apply (classify_record _ r c Hw').
      apply elem_of_app. left. by eapply room_keeps.
Qed.

Lemma remembered_recognised_witness :
  exists w', remember (mkMessageDedupeWindow 1 0 []) golden_post golden_bytes [] =
    (DedupeError_None, w') /\
  (forall c, classify w' golden_post.(message_id) c =
     if bool_decide (golden_bytes = c) then DedupeClassification_Duplicate
     else DedupeClassification_Conflict) /\
  (forall i c, i ∈ [] -> remembers (mkMessageDedupeWindow 1 0 []) i ->
     classify w' i c = classify (mkMessageDedupeWindow 1 0 []) i c).
Proof.
  exists (mkMessageDedupeWindow 1 1 [golden_record 1]).
  assert (remember (mkMessageDedupeWindow 1 0 []) golden_post golden_bytes [] =
    (DedupeError_None, mkMessageDedupeWindow 1 1 [golden_record 1])) as He by (vm_compute; reflexivity).
  split; [exact He|].
  exact (remembered_recognised _ golden_post golden_bytes [] _ (Window_make_inv 1 _ eq_refl) He).
Defined.
