(* ===== verification/HistoryRecord.v ===== *)
(** * HistoryRecord: what a history keeps

    The snapshot of src/src/adapters/storage/sqlite_history_store.h: what the
    session hands to the history store and gets back from it, and what both rely
    on: its values are well typed and its ledger covers its posts. *)
From S2P Require Import Prelude Uuid Post Timeline PostCodec DedupeWindow.

(** adapters/storage/sqlite_history_store.h *)
Record HistorySnapshot := mkHistorySnapshot {
  snapshot_entries : list TimelineEntry;
  snapshot_last_assigned_order : Z;
  snapshot_seen_messages : list SeenMessageRecord;
  snapshot_last_seen_order : Z
}.

(** A snapshot of well-typed values. *)
Definition snapshot_typed (sn : HistorySnapshot) : Prop :=
  is_u64 sn.(snapshot_last_assigned_order) /\
  Forall (fun e => is_u64 e.(received_order)) sn.(snapshot_entries) /\
  Forall (fun e => PostPayload_wf e.(entry_post)) sn.(snapshot_entries) /\
  is_u64 sn.(snapshot_last_seen_order) /\
  Forall (fun r => is_u64 r.(seen_order)) sn.(snapshot_seen_messages).

(** What [validate_snapshot] makes of the records: a window. *)
Definition ledger_window (sn : HistorySnapshot) : MessageDedupeWindow :=
  mkMessageDedupeWindow kDefaultSeenMessageCapacity sn.(snapshot_last_seen_order)
    sn.(snapshot_seen_messages).

(** The post of an entry is remembered with its canonical encoding. *)
Definition entry_remembered (d : MessageDedupeWindow) (e : TimelineEntry) : Prop :=
  exists encoded, encode_post e.(entry_post) = success encoded /\
    classify d e.(entry_post).(message_id) encoded = DedupeClassification_Duplicate.

(** The ledger is one and remembers every post: [reconcile_snapshot_dedupe] has
    nothing to add. *)
Definition snapshot_covered (sn : HistorySnapshot) : Prop :=
  Window_inv (ledger_window sn) /\
  Forall (entry_remembered (ledger_window sn)) sn.(snapshot_entries).
