(* ===== verification/MessengerState.v ===== *)
(** * MessengerState: the application commands

    src/application/messenger_state.cpp, with the durability port of
    src/ports/state_commit.h.  A command reads the validated identity and the
    timeline, prepares candidates, makes them durable through the commit port
    and only then adopts them.  The random, clock and commit ports are one
    world [W]; a command returns its result, the new state and the new world. *)
From Stdlib Require Import Sorting.Sorted.
From S2P Require Import Prelude Ports Text Uuid Identity Post Timeline.

(** ** Definitions *)

(** *** ports/state_commit.h *)

Class IStateCommit (W : Type) := {
  persist_identity : W -> Identity -> bool * W;
  persist_timeline : W -> Timeline -> bool * W
}.

(** What the port's comment promises: [true] means the value is durable;
    [false] means it was not adopted, or that its outcome is open (either value
    may be found after recovery).  A call for one value leaves the other one,
    and the random and clock ports leave both. *)
Class IStateCommitLaws (W : Type) `{IRandomBytes W} `{IWallClock W} `{IStateCommit W} := {
  durable_identity : W -> option Identity;
  durable_timeline : W -> option Timeline;
  persist_identity_true w i w' :
    persist_identity w i = (true, w') -> durable_identity w' = Some i;
  persist_identity_false w i w' :
    persist_identity w i = (false, w') ->
    durable_identity w' = durable_identity w \/ durable_identity w' = Some i;
  persist_identity_frame w i b w' :
    persist_identity w i = (b, w') -> durable_timeline w' = durable_timeline w;
  persist_timeline_true w t w' :
    persist_timeline w t = (true, w') -> durable_timeline w' = Some t;
  persist_timeline_false w t w' :
    persist_timeline w t = (false, w') ->
    durable_timeline w' = durable_timeline w \/ durable_timeline w' = Some t;
  persist_timeline_frame w t b w' :
    persist_timeline w t = (b, w') -> durable_identity w' = durable_identity w;
  fill_frame w n r w' :
    fill w n = (r, w') ->
    durable_identity w' = durable_identity w /\ durable_timeline w' = durable_timeline w;
  now_frame w r w' :
    now_unix_seconds w = (r, w') ->
    durable_identity w' = durable_identity w /\ durable_timeline w' = durable_timeline w
}.

(** *** The state and the results *)

Inductive MessengerStatus :=
| Status_Uninitialized
| Status_Ready.

Inductive CommandError :=
| CommandError_None
| CommandError_NotInitialized
| CommandError_AlreadyInitialized
| CommandError_InvalidUserId
| CommandError_InvalidBody
| CommandError_TooManyMentions
| CommandError_DuplicateMention
| CommandError_ReplyParentUnavailable
| CommandError_QueueFull
| CommandError_TimelineFull
| CommandError_SequenceExhausted
| CommandError_OrderExhausted
| CommandError_RandomUnavailable
| CommandError_MessageIdCollision
| CommandError_InvalidPost
| CommandError_DuplicatePost
| CommandError_ConflictingPost
| CommandError_MessageNotFound
| CommandError_NotLocalPost
| CommandError_InvalidTransition
| CommandError_PersistenceUnavailable.

#[global] Instance CommandError_eq_decision : EqDecision CommandError.
Proof. solve_decision. Defined.

Record CommandResult := mkCommandResult {
  command_error : CommandError;
  command_text_error : TextError;
  command_post_error : PostError;
  command_message_id : option MessageId;
  command_evicted_message_id : option MessageId
}.

(** The constructors of [CommandResult]. *)
Definition command_fails (e : CommandError) : CommandResult :=
  mkCommandResult e TextError_None PostError_None None None.
Definition command_fails_text (e : CommandError) (t : TextError) : CommandResult :=
  mkCommandResult e t PostError_None None None.
Definition command_fails_post (e : CommandError) (t : TextError) (p : PostError)
  : CommandResult :=
  mkCommandResult e t p None None.
Definition command_ok : CommandResult := command_fails CommandError_None.

Definition CommandResult_ok (r : CommandResult) : bool :=
  bool_decide (r.(command_error) = CommandError_None).

(** [committing] says that the [commit_] pointer is set. *)
Record MessengerState := mkMessengerState {
  ms_identity : option Identity;
  ms_timeline : Timeline;
  committing : bool
}.

(** The constructor; [None] is the exception of the timeline's. *)
Definition MessengerState_make (timeline_capacity : nat) (last_order : Z)
    (commit : bool) : option MessengerState :=
  t ← Timeline_make timeline_capacity last_order;
  Some (mkMessengerState None t commit).

Definition MessengerState_status (s : MessengerState) : MessengerStatus :=
  match s.(ms_identity) with
  | Some _ => Status_Ready
  | None => Status_Uninitialized
  end.

Definition map_insert_result (result : TimelineInsertResult) : CommandResult :=
  mkCommandResult
    match result.(insert_error) with
    | InsertError_None => CommandError_None
    | InsertError_Duplicate => CommandError_DuplicatePost
    | InsertError_Conflict => CommandError_ConflictingPost
    | InsertError_QueueFull => CommandError_QueueFull
    | InsertError_Full => CommandError_TimelineFull
    | InsertError_OrderExhausted => CommandError_OrderExhausted
    end
    TextError_None PostError_None None result.(insert_evicted_message_id).

Definition map_availability (error : TimelineInsertError) : CommandResult :=
  match error with
  | InsertError_Full => command_fails CommandError_TimelineFull
  | InsertError_OrderExhausted => command_fails CommandError_OrderExhausted
  | _ => command_ok
  end.

(** *** Commands *)

Definition with_identity (s : MessengerState) (i : Identity) : MessengerState :=
  mkMessengerState (Some i) s.(ms_timeline) s.(committing).
Definition with_timeline (s : MessengerState) (t : Timeline) : MessengerState :=
  mkMessengerState s.(ms_identity) t s.(committing).

Section Commands.
Context {W : Type} `{IRandomBytes W} `{IWallClock W} `{IStateCommit W}.

(** [!commit_ || commit_->persist_identity(candidate)] *)
Definition commit_identity (s : MessengerState) (w : W) (i : Identity) : bool * W :=
  if s.(committing) then persist_identity w i else (true, w).
Definition commit_timeline (s : MessengerState) (w : W) (t : Timeline) : bool * W :=
  if s.(committing) then persist_timeline w t else (true, w).

Definition initialize_new (s : MessengerState) (w : W) (user_id : bytes)
  : CommandResult * MessengerState * W :=
  match s.(ms_identity) with
  | Some _ => (command_fails CommandError_AlreadyInitialized, s, w)
  | None =>
      match UserId_create user_id with
      | failure e => (command_fails_text CommandError_InvalidUserId e, s, w)
      | success validated_user_id =>
          match InstallId_generate w with
          | (failure _, w) => (command_fails CommandError_RandomUnavailable, s, w)
          | (success install_id, w) =>
              let candidate := Identity_restore install_id validated_user_id 0 in
              let '(durable, w) := commit_identity s w candidate in
              if negb durable
              then (command_fails CommandError_PersistenceUnavailable, s, w)
              else (command_ok, with_identity s candidate, w)
          end
      end
  end.

Definition restore_identity (s : MessengerState) (i : Identity)
  : CommandResult * MessengerState :=
  match s.(ms_identity) with
  | Some _ => (command_fails CommandError_AlreadyInitialized, s)
  | None => (command_ok, with_identity s i)
  end.

Definition restore_state (s : MessengerState) (i : Identity) (t : Timeline)
  : CommandResult * MessengerState :=
  match s.(ms_identity) with
  | Some _ => (command_fails CommandError_AlreadyInitialized, s)
  | None => (command_ok, mkMessengerState (Some i) t s.(committing))
  end.

Definition rename_user (s : MessengerState) (w : W) (user_id : bytes)
  : CommandResult * MessengerState * W :=
  match s.(ms_identity) with
  | None => (command_fails CommandError_NotInitialized, s, w)
  | Some identity =>
      match UserId_create user_id with
      | failure e => (command_fails_text CommandError_InvalidUserId e, s, w)
      | success validated =>
          let candidate := Identity_rename identity validated in
          let '(durable, w) := commit_identity s w candidate in
          if negb durable
          then (command_fails CommandError_PersistenceUnavailable, s, w)
          else (command_ok, with_identity s candidate, w)
      end
  end.

(** The loop over [draft.mentions]: is some mention found again after it? *)
Fixpoint has_duplicate_mention (mentions : list InstallId) : bool :=
  match mentions with
  | [] => false
  | mention :: rest =>
      if bool_decide (mention ∈ rest) then true else has_duplicate_mention rest
  end.

(** The input [compose] builds from the draft. *)
Definition compose_input (identity : Identity) (m : MessageId) (sequence : Z)
    (draft : PostDraft) (now : option Z) : PostPayloadInput := {|
  input_message_id := m.(MessageId_uuid);
  input_sender_id := identity.(Identity_install_id).(InstallId_uuid);
  input_sender_sequence := sequence;
  input_sender_user_id := identity.(Identity_user_id).(UserId_value);
  input_body := draft.(draft_body);
  input_mentions := map InstallId_uuid draft.(draft_mentions);
  input_reply_to := MessageId_uuid <$> draft.(draft_reply_to);
  input_sender_time := now
|}.

(** The end of [compose]: the identity is made durable and adopted, then the
    timeline. *)
Definition compose_commit (s : MessengerState) (w : W) (updated_identity : Identity)
    (candidate_timeline : Timeline) (inserted : TimelineInsertResult)
    (created_id : MessageId) : CommandResult * MessengerState * W :=
  let '(durable, w) := commit_identity s w updated_identity in
  if negb durable then (command_fails CommandError_PersistenceUnavailable, s, w)
  else
    let s := with_identity s updated_identity in
    let '(durable, w) := commit_timeline s w candidate_timeline in
    if negb durable then (command_fails CommandError_PersistenceUnavailable, s, w)
    else
      let result := map_insert_result inserted in
      (mkCommandResult result.(command_error) result.(command_text_error)
         result.(command_post_error) (Some created_id)
         result.(command_evicted_message_id),
       with_timeline s candidate_timeline, w).

(** The middle of [compose], from the generated identifier on. *)
Definition compose_post (s : MessengerState) (w : W) (identity updated_identity : Identity)
    (sequence : Z) (draft : PostDraft) : CommandResult * MessengerState * W :=
  match MessageId_generate w with
  | (failure _, w) => (command_fails CommandError_RandomUnavailable, s, w)
  | (success m, w) =>
      if bool_decide (is_Some (Timeline_find s.(ms_timeline) m))
      then (command_fails CommandError_MessageIdCollision, s, w)
      else
        let '(now, w) := now_unix_seconds w in
        match PostPayload_create (compose_input identity m sequence draft now) with
        | failure e =>
            (command_fails_post CommandError_InvalidPost TextError_None e, s, w)
        | success post =>
            let created_id := message_id post in
            let '(inserted, candidate_timeline) :=
              insert_local s.(ms_timeline) post Delivery_Queued in
            if negb (bool_decide (inserted.(insert_error) = InsertError_None))
            then (map_insert_result inserted, s, w)
            else compose_commit s w updated_identity candidate_timeline inserted
                   created_id
        end
  end.

Definition compose (s : MessengerState) (w : W) (draft : PostDraft)
  : CommandResult * MessengerState * W :=
  match s.(ms_identity) with
  | None => (command_fails CommandError_NotInitialized, s, w)
  | Some identity =>
  match PostBody_create draft.(draft_body) with
  | failure e => (command_fails_text CommandError_InvalidBody e, s, w)
  | success _ =>
  if (kMaxMentions <? length draft.(draft_mentions))%nat
  then (command_fails CommandError_TooManyMentions, s, w)
  else if has_duplicate_mention draft.(draft_mentions)
  then (command_fails CommandError_DuplicateMention, s, w)
  else if match draft.(draft_reply_to) with
          | Some parent => bool_decide (Timeline_find s.(ms_timeline) parent = None)
          | None => false
          end
  then (command_fails CommandError_ReplyParentUnavailable, s, w)
  else if (queued_capacity s.(ms_timeline) <=? queued_count s.(ms_timeline))%nat
  then (command_fails CommandError_QueueFull, s, w)
  else
  match next_sender_sequence identity with
  | None => (command_fails CommandError_SequenceExhausted, s, w)
  | Some sequence =>
  match commit_sender_sequence identity sequence with
  | (false, _) => (command_fails CommandError_SequenceExhausted, s, w)
  | (true, updated_identity) =>
  let unavailable := insertion_availability s.(ms_timeline) draft.(draft_reply_to) in
  if negb (bool_decide (unavailable = InsertError_None))
  then (map_availability unavailable, s, w)
  else compose_post s w identity updated_identity sequence draft
  end end end end.

Definition accept_received (s : MessengerState) (w : W) (post : PostPayload)
  : CommandResult * MessengerState * W :=
  match s.(ms_identity) with
  | None => (command_fails CommandError_NotInitialized, s, w)
  | Some _ =>
      let '(inserted, candidate) := insert_received s.(ms_timeline) post in
      let result := map_insert_result inserted in
      if negb (CommandResult_ok result) then (result, s, w)
      else
        let '(durable, w) := commit_timeline s w candidate in
        if negb durable
        then (command_fails CommandError_PersistenceUnavailable, s, w)
        else (result, with_timeline s candidate, w)
  end.

Definition transition (s : MessengerState) (w : W) (m : MessageId) (broadcast : bool)
  : CommandResult * MessengerState * W :=
  match s.(ms_identity) with
  | None => (command_fails CommandError_NotInitialized, s, w)
  | Some _ =>
      let '(error, candidate) :=
        if broadcast then Timeline.mark_broadcast s.(ms_timeline) m
        else Timeline.mark_failed s.(ms_timeline) m in
      match error with
      | TransitionError_None =>
          let '(durable, w) := commit_timeline s w candidate in
          if negb durable
          then (command_fails CommandError_PersistenceUnavailable, s, w)
          else (command_ok, with_timeline s candidate, w)
      | TransitionError_NotFound => (command_fails CommandError_MessageNotFound, s, w)
      | TransitionError_NotLocal => (command_fails CommandError_NotLocalPost, s, w)
      | TransitionError_InvalidState =>
          (command_fails CommandError_InvalidTransition, s, w)
      end
  end.

Definition command_mark_broadcast (s : MessengerState) (w : W) (m : MessageId) :=
  transition s w m true.
Definition command_mark_failed (s : MessengerState) (w : W) (m : MessageId) :=
  transition s w m false.

End Commands.

(** ** Specification vocabulary *)

(** The class invariant. *)
Record MessengerState_inv (s : MessengerState) : Prop := {
  ms_inv_timeline : Timeline_inv s.(ms_timeline);
  ms_inv_posts : Forall (fun e => PostPayload_wf e.(entry_post)) s.(ms_timeline).(entries);
  ms_inv_identity : forall i, s.(ms_identity) = Some i -> Identity_wf i;
  ms_inv_empty : s.(ms_identity) = None -> s.(ms_timeline).(entries) = []
}.

(** The identity after one more sequence number has been issued. *)
Definition issue_next (i : Identity) : Identity :=
  mkIdentity i.(Identity_install_id) i.(Identity_user_id)
    (i.(last_issued_sender_sequence) + 1).

(** The post a draft becomes. *)
Definition composed_post (i : Identity) (m : MessageId) (sequence : Z)
    (draft : PostDraft) (now : option Z) : PostPayload :=
  mkPostPayload m i.(Identity_install_id) sequence i.(Identity_user_id)
    (mkPostBody draft.(draft_body)) draft.(draft_mentions) draft.(draft_reply_to) now.

(** What every result of [compose] says of the state before and after. *)
Definition compose_branch {W} `{IRandomBytes W} (s : MessengerState) (w : W)
    (d : PostDraft) (r : CommandResult) (s' : MessengerState) : Prop :=
  let t := s.(ms_timeline) in
  match r.(command_error) with
  | CommandError_None =>
      exists i m now evicted kept,
        s.(ms_identity) = Some i /\ i.(last_issued_sender_sequence) < UINT64_MAX /\
        MessageId_wf m /\ Timeline_find t m = None /\
        made_room t d.(draft_reply_to) evicted kept /\
        r = mkCommandResult CommandError_None TextError_None PostError_None
              (Some m) evicted /\
        s' = mkMessengerState (Some (issue_next i))
               (mkTimeline t.(capacity) (t.(last_assigned_order) + 1)
                  (kept ++ [mkTimelineEntry
                              (composed_post i m (i.(last_issued_sender_sequence) + 1) d now)
                              (t.(last_assigned_order) + 1)
                              (LocalDelivery Delivery_Queued)]))
               s.(committing)
  | CommandError_PersistenceUnavailable =>
      s.(committing) = true /\
      (s' = s \/ exists i, s.(ms_identity) = Some i /\
         i.(last_issued_sender_sequence) < UINT64_MAX /\
         s' = with_identity s (issue_next i))
  | error =>
      s' = s /\ r.(command_message_id) = None /\
      match error with
      | CommandError_NotInitialized => s.(ms_identity) = None
      | CommandError_InvalidBody =>
          PostBody_create d.(draft_body) = failure r.(command_text_error)
      | CommandError_TooManyMentions => (kMaxMentions < length d.(draft_mentions))%nat
      | CommandError_DuplicateMention => ~ NoDup d.(draft_mentions)
      | CommandError_ReplyParentUnavailable =>
          exists p, d.(draft_reply_to) = Some p /\ Timeline_find t p = None
      | CommandError_QueueFull => queued_count t = queued_capacity t
      | CommandError_SequenceExhausted =>
          exists i, s.(ms_identity) = Some i /\
                    i.(last_issued_sender_sequence) = UINT64_MAX
      | CommandError_OrderExhausted => t.(last_assigned_order) = UINT64_MAX
      | CommandError_TimelineFull =>
          length t.(entries) = t.(capacity) /\
          eviction_index t d.(draft_reply_to) = None
      | CommandError_RandomUnavailable => exists w1, fill w 16 = (None, w1)
      | CommandError_MessageIdCollision =>
          exists bs w1, fill w 16 = (Some bs, w1) /\
            Timeline_find t (mkMessageId (mkUuid (stamp_v4 bs))) <> None
      | _ => False
      end
  end.

(** ** The pieces of compose *)

Lemma has_duplicate_mention_NoDup l : has_duplicate_mention l = false <-> NoDup l.
Proof.
  induction l as [|m l IH]; simpl; [split; [constructor|done]|].
  rewrite NoDup_cons, <- IH. case_bool_decide; naive_solver.
Qed.

Lemma find_wf s m e :
  MessengerState_inv s -> Timeline_find s.(ms_timeline) m = Some e -> MessageId_wf m.
Proof.
  intros Hinv (Hin & <-)%find_Some_ids. pose proof (ms_inv_posts s Hinv) as Hp.
  rewrite Forall_forall in Hp. exact (wf_message_id _ (Hp e Hin)).
Qed.

Lemma composed_post_wf i m n d now b :
  Identity_wf i -> MessageId_wf m -> 1 <= n <= UINT64_MAX ->
  PostBody_create d.(draft_body) = success b ->
  (length d.(draft_mentions) <= kMaxMentions)%nat -> NoDup d.(draft_mentions) ->
  Forall InstallId_wf d.(draft_mentions) ->
  (forall p, d.(draft_reply_to) = Some p -> MessageId_wf p /\ p <> m) ->
  (forall x, now = Some x -> is_i64 x) ->
  PostPayload_wf (composed_post i m n d now).
Proof.
  intros (? & ? & _) ? ? [-> ?]%PostBody_create_success ? ? ? ? ?. by split.
Qed.

Lemma compose_input_create i m n d now :
  PostPayload_wf (composed_post i m n d now) ->
  PostPayload_create (compose_input i m n d now) = success (composed_post i m n d now).
Proof. intros Hwf. by apply PostPayload_create_input in Hwf. Qed.

(** ** Steps that keep the invariant *)

Lemma issue_next_wf i :
  Identity_wf i -> i.(last_issued_sender_sequence) < UINT64_MAX ->
  Identity_wf (issue_next i).
Proof.
  intros (? & ? & ?) ?. unfold Identity_wf, is_u64 in *. cbn. split_and!; (done || lia).
Qed.

Lemma made_room_posts t protected evicted kept :
  Timeline_inv t -> made_room t protected evicted kept ->
  Forall (fun e => PostPayload_wf e.(entry_post)) t.(entries) ->
  Forall (fun e => PostPayload_wf e.(entry_post)) kept.
Proof.
  intros Ht Hroom Hp. apply made_room_kept in Hroom as (Hsub & _); [|done].
  rewrite Forall_forall in *. intros e He. apply Hp. by eapply elem_of_sublist.
Qed.

Lemma with_identity_inv s i j :
  MessengerState_inv s -> s.(ms_identity) = Some i -> Identity_wf j ->
  MessengerState_inv (with_identity s j).
Proof. intros [Ht Hp Hi He] Hs Hj. split; cbn; try done. by intros ? [= <-]. Qed.

(** An insertion of a well-formed post keeps every stored post well formed. *)
Lemma Timeline_insert_posts t post origin protected :
  Timeline_inv t -> PostPayload_wf post ->
  Forall (fun e => PostPayload_wf e.(entry_post)) t.(entries) ->
  Forall (fun e => PostPayload_wf e.(entry_post))
    (snd (Timeline_insert t post origin protected)).(entries).
Proof.
  intros Ht Hpost Hp.
  destruct (Timeline_insert_cases t post origin protected Ht)
    as [(e & err & _ & _ & ->)|[(_ & _ & _ & ->)|[(_ & _ & _ & ->)|
        [(_ & _ & _ & _ & _ & ->)|(Hnew & Hq & Hlast & evicted & kept & Hroom & ->)]]]];
    try done.
  cbn. apply Forall_app. split; [by eapply made_room_posts|]. by constructor.
Qed.

Lemma Timeline_transition_posts t m target :
  Forall (fun e => PostPayload_wf e.(entry_post)) t.(entries) ->
  Forall (fun e => PostPayload_wf e.(entry_post))
    (snd (Timeline_transition t m target)).(entries).
Proof.
  intros Hp.
  destruct (Timeline_transition_cases t m target)
    as [[_ ->]|(i & e & _ & He & _ & [[_ ->]|[[_ ->]|[(s & _ & _ & _ & ->)|
         (Ho & Ht & ->)]]])]; try done.
  cbn. apply Forall_insert; [done|]. cbn. by eapply Forall_lookup_1 in Hp.
Qed.

Section ComposeLemmas.
Context {W : Type} `{IRandomBytesLaws W} `{IWallClockLaws W} `{IStateCommit W}.

Lemma commit_identity_false s (w : W) i w' :
  commit_identity s w i = (false, w') -> s.(committing) = true.
Proof. unfold commit_identity. by destruct (committing s). Qed.

Lemma commit_timeline_false s (w : W) t w' :
  commit_timeline s w t = (false, w') -> s.(committing) = true.
Proof. unfold commit_timeline. by destruct (committing s). Qed.

(** A result that reports no new post. *)
Definition refusal (r : CommandResult) : Prop :=
  r.(command_error) <> CommandError_None /\ r.(command_message_id) = None.

(** The checks [compose] has made when it generates the identifier. *)
Record compose_ready (s : MessengerState) (i : Identity) (d : PostDraft) : Prop := {
  ready_identity : s.(ms_identity) = Some i;
  ready_sequence : i.(last_issued_sender_sequence) < UINT64_MAX;
  ready_body : exists b, PostBody_create d.(draft_body) = success b;
  ready_length : (length d.(draft_mentions) <= kMaxMentions)%nat;
  ready_NoDup : NoDup d.(draft_mentions);
  ready_reply : forall p, d.(draft_reply_to) = Some p ->
    Timeline_find s.(ms_timeline) p <> None;
  ready_queue : (queued_count s.(ms_timeline) < queued_capacity s.(ms_timeline))%nat;
  ready_room : insertion_availability s.(ms_timeline) d.(draft_reply_to) = InsertError_None
}.

Lemma compose_cases s (w : W) d :
  MessengerState_inv s ->
  (exists r, compose s w d = (r, s, w) /\ compose_branch s w d r s /\
     refusal r) \/
  (exists i, compose_ready s i d /\
     compose s w d =
     compose_post s w i (issue_next i) (i.(last_issued_sender_sequence) + 1) d).
Proof.
  intros Hinv. unfold compose.
  destruct (ms_identity s) as [i|] eqn:Hi.
  2:{ left. eexists. split; [reflexivity|]. by unfold compose_branch. }
  pose proof (ms_inv_identity s Hinv i Hi) as Hiwf.
  pose proof (ms_inv_timeline s Hinv) as Ht.
  destruct (PostBody_create _) as [b|te] eqn:Hb.
  2:{ left. eexists. split; [reflexivity|]. by unfold compose_branch. }
  destruct (Nat.ltb_spec kMaxMentions (length (draft_mentions d))) as [|Hlen].
  { left. eexists. split; [reflexivity|]. by unfold compose_branch. }
  destruct (has_duplicate_mention _) eqn:Hd.
  { left. eexists. split; [reflexivity|]. unfold compose_branch. cbn.
    rewrite <- has_duplicate_mention_NoDup, Hd. by split_and!. }
  apply has_duplicate_mention_NoDup in Hd.
  destruct (match draft_reply_to d with Some _ => _ | None => false end) eqn:Hrep.
  { left. eexists. split; [reflexivity|]. unfold compose_branch. cbn. split_and!; [done..| |done].
    destruct (draft_reply_to d) as [p|]; [|done]. reflect_bools. by exists p. }
  destruct (Nat.leb_spec (queued_capacity (ms_timeline s)) (queued_count (ms_timeline s)))
    as [Hq|Hq].
  { left. eexists. split; [reflexivity|]. unfold compose_branch.
    cbn -[queued_count queued_capacity]. pose proof (inv_queued _ Ht).
    split_and!; [done..|lia|done]. }
  destruct (next_sender_sequence i) as [n|] eqn:Hn.
  2:{ left. eexists. split; [reflexivity|]. unfold compose_branch. cbn.
      split_and!; [done..| |done]. exists i. split; [done|].
      unfold next_sender_sequence in Hn.
      destruct (Z.eqb_spec (last_issued_sender_sequence i) UINT64_MAX); done. }
  rewrite (proj2 (commit_sender_sequence_true i n _) (conj Hn eq_refl)).
  apply next_sender_sequence_Some in Hn as [Hseq ->]; [|apply Hiwf].
  destruct (bool_decide (insertion_availability _ _ = _)) eqn:Hav; cbn [negb];
    reflect_bools.
  - right. exists i. split; [|done]. split; eauto. intros p Hp. rewrite Hp in Hrep.
    by reflect_bools.
  - left. unfold insertion_availability in *.
    destruct (Z.eqb_spec (last_assigned_order (ms_timeline s)) UINT64_MAX) as [Hmax|Hmax].
    { eexists. split; [reflexivity|]. by unfold compose_branch. }
    destruct ((length _ <? _)%nat || _) eqn:Hr; [done|]. eexists. split; [reflexivity|].
    apply orb_false_iff in Hr as [?%Nat.ltb_ge ?%bool_decide_eq_false].
    unfold compose_branch. cbn. pose proof (inv_size _ Ht). split_and!; [done..|lia| |done].
    destruct (eviction_index _ _); [exfalso; eauto|done].
Qed.

(** The candidate of a composed post: everything [compose_commit] is given. *)
Record composed (s : MessengerState) (w : W) (i : Identity) (d : PostDraft)
    (m : MessageId) (now : option Z) (w2 : W) (evicted : option MessageId)
    (kept : list TimelineEntry) : Prop := {
  composed_world : exists bs w1, fill w 16 = (Some bs, w1) /\
    now_unix_seconds w1 = (now, w2);
  composed_id : MessageId_wf m;
  composed_new : Timeline_find s.(ms_timeline) m = None;
  composed_room : made_room s.(ms_timeline) d.(draft_reply_to) evicted kept
}.

(** The timeline after the insertion of a composed post. *)
Definition composed_timeline (t : Timeline) (i : Identity) (m : MessageId)
    (d : PostDraft) (now : option Z) (kept : list TimelineEntry) : Timeline :=
  mkTimeline t.(capacity) (t.(last_assigned_order) + 1)
    (kept ++ [mkTimelineEntry
                (composed_post i m (i.(last_issued_sender_sequence) + 1) d now)
                (t.(last_assigned_order) + 1) (LocalDelivery Delivery_Queued)]).

Lemma compose_post_cases s (w : W) i d :
  MessengerState_inv s -> Forall InstallId_wf d.(draft_mentions) -> compose_ready s i d ->
  (exists r w1 o, compose_post s w i (issue_next i) (i.(last_issued_sender_sequence) + 1) d
       = (r, s, w1) /\ fill w 16 = (o, w1) /\ compose_branch s w d r s /\
     refusal r) \/
  (exists m now w2 evicted kept,
     composed s w i d m now w2 evicted kept /\
     (let t' := composed_timeline s.(ms_timeline) i m d now kept in
      Timeline_inv t' /\ Forall (fun e => PostPayload_wf e.(entry_post)) t'.(entries) /\
      compose_post s w i (issue_next i) (i.(last_issued_sender_sequence) + 1) d =
      compose_commit s w2 (issue_next i) t'
        (mkTimelineInsertResult InsertError_None evicted
           (Some (s.(ms_timeline).(last_assigned_order) + 1))) m)).
Proof.
  intros Hinv Hments [Hi Hseq [b Hb] Hlen Hnd Hreply Hq Hav].
  pose proof (ms_inv_identity s Hinv i Hi) as Hiwf.
  pose proof Hiwf as (_ & _ & Hlast). unfold is_u64 in Hlast.
  unfold compose_post. pose proof (MessageId_generate_spec w) as Hgen.
  destruct (fill w 16) as [[bs|] w1] eqn:Hfill.
  2:{ left. rewrite Hgen. do 3 eexists. split_and!; [reflexivity..| |done].
      unfold compose_branch. simpl. eauto. }
  destruct Hgen as [-> Hm]. set (m := mkMessageId _) in *.
  destruct (Timeline_find (ms_timeline s) m) as [e|] eqn:Hfind.
  { left. rewrite bool_decide_eq_true_2 by eauto. do 3 eexists.
    split_and!; [reflexivity..| |done].
    unfold compose_branch. simpl. split_and!; [done..|]. exists bs, w1.
    split; [done|]. fold m. by rewrite Hfind. }
  right. rewrite bool_decide_eq_false_2 by (by intros []).
  destruct (now_unix_seconds w1) as [now w2] eqn:Hnow.
  assert (PostPayload_wf (composed_post i m (last_issued_sender_sequence i + 1) d now))
    as Hwf.
  { eapply composed_post_wf; eauto; [lia| |].
    - intros p Hp. specialize (Hreply p Hp).
      destruct (Timeline_find (ms_timeline s) p) as [e|] eqn:Hfp; [|done].
      split; [by eapply find_wf|]. by intros ->; rewrite Hfind in Hfp.
    - intros x ->. by eapply now_unix_seconds_range. }
  rewrite compose_input_create by done. unfold insert_local. cbn [reply_to composed_post].
  destruct (Timeline_insert_cases (ms_timeline s)
              (composed_post i m (last_issued_sender_sequence i + 1) d now)
              (LocalDelivery Delivery_Queued) (draft_reply_to d)
              (ms_inv_timeline s Hinv))
    as [(e & err & He & _)|[(_ & _ & ? & _)|[(_ & _ & Hmax & _)|
        [(_ & _ & _ & Hfull & Hev & _)|(Hnew & _ & Hord & evicted & kept & Hroom & Hins)]]]];
    [by cbn [message_id composed_post] in He; rewrite Hfind in He|lia|
     by apply insertion_availability_None in Hav as [? _]|
     apply insertion_availability_None in Hav as [_ [?|Hsome]];
       [lia|by rewrite Hev in Hsome; destruct Hsome]|].
  exists m, now, w2, evicted, kept.
  pose proof (Timeline_insert_inv _ (composed_post i m (last_issued_sender_sequence i + 1) d now)
    (LocalDelivery Delivery_Queued) (draft_reply_to d) (ms_inv_timeline s Hinv)) as Ht'.
  pose proof (Timeline_insert_posts _ (composed_post i m (last_issued_sender_sequence i + 1) d now)
    (LocalDelivery Delivery_Queued) (draft_reply_to d) (ms_inv_timeline s Hinv) Hwf
    (ms_inv_posts s Hinv)) as Hp'.
  rewrite Hins in Ht', Hp' |- *. split_and!; [|exact Ht'|exact Hp'|].
  - split; eauto.
  - cbn [insert_error]. by rewrite (bool_decide_eq_true_2 (_ = _) eq_refl).
Qed.

Lemma compose_commit_branch s (w : W) i d m now (w2 : W) evicted kept r s' w' :
  MessengerState_inv s -> compose_ready s i d ->
  composed s w i d m now w2 evicted kept ->
  Timeline_inv (composed_timeline s.(ms_timeline) i m d now kept) ->
  Forall (fun e => PostPayload_wf e.(entry_post))
    (composed_timeline s.(ms_timeline) i m d now kept).(entries) ->
  compose_commit s w2 (issue_next i) (composed_timeline s.(ms_timeline) i m d now kept)
    (mkTimelineInsertResult InsertError_None evicted
       (Some (s.(ms_timeline).(last_assigned_order) + 1))) m = (r, s', w') ->
  MessengerState_inv s' /\ compose_branch s w d r s'.
Proof.
  intros Hinv [Hi Hseq _ _ _ _ _ _] [_ Hm Hfind Hroom] Ht Hp.
  pose proof (ms_inv_identity s Hinv i Hi) as Hiwf.
  assert (MessengerState_inv (with_identity s (issue_next i))) as Hinv1.
  { eapply with_identity_inv; eauto. by apply issue_next_wf. }
  unfold compose_commit.
  destruct (commit_identity s w2 (issue_next i)) as [[] w3] eqn:Hc1; cbn [negb].
  2:{ intros [= <- <- <-]. apply commit_identity_false in Hc1.
      split; [done|]. unfold compose_branch. simpl. auto. }
  destruct (commit_timeline _ _ _) as [[] w4] eqn:Hc2; cbn [negb].
  2:{ intros [= <- <- <-]. apply commit_timeline_false in Hc2.
      split; [done|]. unfold compose_branch. simpl. split; [done|]. right. by exists i. }
  intros [= <- <- <-]. split.
  { split; cbn; try done. apply (ms_inv_identity _ Hinv1). }
  unfold compose_branch. cbn. exists i, m, now, evicted, kept. split_and!; done.
Qed.

Lemma compose_branches s (w : W) d r s' w' :
  MessengerState_inv s -> Forall InstallId_wf d.(draft_mentions) ->
  compose s w d = (r, s', w') ->
  MessengerState_inv s' /\ compose_branch s w d r s'.
Proof.
  intros Hinv Hments.
  destruct (compose_cases s w d Hinv) as [(r0 & -> & Hbr & _)|(i & Hready & ->)].
  { by intros [= <- <- <-]. }
  destruct (compose_post_cases s w i d Hinv Hments Hready)
    as [(r0 & w1 & o & -> & _ & Hbr & _)|(m & now & w2 & ev & kept & Hc & Ht & Hp & ->)].
  { by intros [= <- <- <-]. }
  by apply compose_commit_branch.
Qed.

End ComposeLemmas.

(** ** The other commands *)

Section OtherCommands.
Context {W : Type} `{IRandomBytesLaws W} `{IWallClockLaws W} `{IStateCommit W}.

Lemma initialize_new_inv s (w : W) u r s' w' :
  MessengerState_inv s -> initialize_new s w u = (r, s', w') -> MessengerState_inv s'.
Proof.
  intros Hinv. unfold initialize_new.
  destruct (ms_identity s) as [i|] eqn:Hi; [by intros [= _ <- _]|].
  destruct (UserId_create u) as [v|] eqn:Hu; [|by intros [= _ <- _]].
  pose proof (InstallId_generate_spec w) as Hg.
  destruct (fill w 16) as [[bs|] w1]; [destruct Hg as [-> Hg]|rewrite Hg; by intros [= _ <- _]].
  destruct (commit_identity s w1 _) as [[] w2]; cbn [negb]; intros [= _ <- _]; [|done].
  destruct Hinv as [Ht Hp Hs He]. split; cbn; try done.
  intros ? [= <-]. apply UserId_create_success in Hu as [_ Hu]. by split_and!.
Qed.

Lemma rename_user_inv s (w : W) u r s' w' :
  MessengerState_inv s -> rename_user s w u = (r, s', w') -> MessengerState_inv s'.
Proof.
  intros Hinv. unfold rename_user.
  destruct (ms_identity s) as [i|] eqn:Hi; [|by intros [= _ <- _]].
  destruct (UserId_create u) as [v|] eqn:Hu; [|by intros [= _ <- _]].
  destruct (commit_identity s w _) as [[] w2]; cbn [negb]; intros [= _ <- _]; [|done].
  eapply with_identity_inv; eauto. apply UserId_create_success in Hu as [_ Hu].
  destruct (ms_inv_identity s Hinv i Hi) as (? & ? & ?). by split_and!.
Qed.

(** A timeline that comes from the current one by an operation that keeps its
    invariant and its posts may be adopted. *)
Lemma with_timeline_inv s t i :
  MessengerState_inv s -> s.(ms_identity) = Some i -> Timeline_inv t ->
  Forall (fun e => PostPayload_wf e.(entry_post)) t.(entries) ->
  MessengerState_inv (with_timeline s t).
Proof.
  intros [_ _ Hi _] Hs Ht Hp. split; cbn; try done. by rewrite Hs.
Qed.

Lemma accept_received_inv s (w : W) post r s' w' :
  MessengerState_inv s -> PostPayload_wf post ->
  accept_received s w post = (r, s', w') -> MessengerState_inv s'.
Proof.
  intros Hinv Hpost. unfold accept_received.
  destruct (ms_identity s) as [i|] eqn:Hi; [|by intros [= _ <- _]].
  pose proof (Timeline_insert_inv (ms_timeline s) post ReceivedOrigin None
    (ms_inv_timeline s Hinv)) as Ht.
  pose proof (Timeline_insert_posts (ms_timeline s) post ReceivedOrigin None
    (ms_inv_timeline s Hinv) Hpost (ms_inv_posts s Hinv)) as Hp.
  fold (insert_received (ms_timeline s) post) in Ht, Hp.
  destruct (insert_received (ms_timeline s) post) as [ins t'].
  destruct (negb _); [by intros [= _ <- _]|].
  destruct (commit_timeline s w t') as [[] w2]; cbn [negb]; intros [= _ <- _]; [|done].
  by eapply with_timeline_inv.
Qed.

Lemma transition_inv s (w : W) m b r s' w' :
  MessengerState_inv s -> transition s w m b = (r, s', w') -> MessengerState_inv s'.
Proof.
  intros Hinv. unfold transition.
  destruct (ms_identity s) as [i|] eqn:Hi; [|by intros [= _ <- _]].
  set (target := if b then Delivery_Broadcast else Delivery_Failed).
  replace (if b then Timeline.mark_broadcast (ms_timeline s) m
           else Timeline.mark_failed (ms_timeline s) m)
    with (Timeline_transition (ms_timeline s) m target) by (by destruct b).
  pose proof (Timeline_transition_inv (ms_timeline s) m target (ms_inv_timeline s Hinv)) as Ht.
  pose proof (Timeline_transition_posts (ms_timeline s) m target (ms_inv_posts s Hinv)) as Hp.
  destruct (Timeline_transition (ms_timeline s) m target) as [[] t'];
    try (by intros [= _ <- _]).
  destruct (commit_timeline s w t') as [[] w2]; cbn [negb]; intros [= _ <- _]; [|done].
  by eapply with_timeline_inv.
Qed.

End OtherCommands.

(** ** The messenger across restarts *)

Section Life.
Context {W : Type} `{IStateCommitLaws W}
  `{!IRandomBytesLaws W} `{!IWallClockLaws W}.

(** A messenger, its world, and the sender sequences of the posts its
    successful [compose] commands have put into a timeline, oldest first. *)
Record Life := mkLife {
  life_state : MessengerState;
  life_world : W;
  life_issued : list Z
}.

(** The sequence of the post a result names. *)
Definition issued_sequence (r : CommandResult) (s : MessengerState) : option Z :=
  m ← r.(command_message_id);
  e ← Timeline_find s.(ms_timeline) m;
  Some (sender_sequence e.(entry_post)).

(** A new process reads what is durable. *)
Definition recover (s0 : MessengerState) (w : W) : MessengerState :=
  match durable_identity w with
  | None => s0
  | Some i =>
      match durable_timeline w with
      | None => snd (restore_identity s0 i)
      | Some t => snd (restore_state s0 i t)
      end
  end.

Inductive Life_step : Life -> Life -> Prop :=
| life_initialize s w l u r s' w' :
    initialize_new s w u = (r, s', w') ->
    Life_step (mkLife s w l) (mkLife s' w' l)
| life_rename s w l u r s' w' :
    rename_user s w u = (r, s', w') ->
    Life_step (mkLife s w l) (mkLife s' w' l)
| life_compose s w l d r s' w' :
    Forall InstallId_wf d.(draft_mentions) ->
    compose s w d = (r, s', w') ->
    Life_step (mkLife s w l)
      (mkLife s' w' (l ++ option_list (issued_sequence r s')))
| life_accept s w l post r s' w' :
    PostPayload_wf post ->
    accept_received s w post = (r, s', w') ->
    Life_step (mkLife s w l) (mkLife s' w' l)
| life_transition s w l m b r s' w' :
    transition s w m b = (r, s', w') ->
    Life_step (mkLife s w l) (mkLife s' w' l)
| life_restart s w l cap last s0 :
    is_u64 last -> MessengerState_make cap last true = Some s0 ->
    Life_step (mkLife s w l) (mkLife (recover s0 w) w l).

(** What is durable is well formed. *)
Definition durable_wf (w : W) : Prop :=
  (forall i, durable_identity w = Some i -> Identity_wf i) /\
  (forall t, durable_timeline w = Some t -> Timeline_inv t /\
     Forall (fun e => PostPayload_wf e.(entry_post)) t.(entries)).

(** A first start: nothing issued yet. *)
Definition Life_start (x : Life) : Prop :=
  durable_wf x.(life_world) /\ x.(life_issued) = [] /\
  exists cap last s0, is_u64 last /\ MessengerState_make cap last true = Some s0 /\
    x.(life_state) = recover s0 x.(life_world).

(** [n] has been issued by the identity [i] or one before it. *)
Definition issued_by (i : option Identity) (n : Z) : Prop :=
  exists j, i = Some j /\ n <= j.(last_issued_sender_sequence).

Record Life_inv (x : Life) : Prop := {
  life_inv_state : MessengerState_inv x.(life_state);
  life_inv_committing : x.(life_state).(committing) = true;
  life_inv_durable : durable_wf x.(life_world);
  life_inv_memory : Forall (issued_by x.(life_state).(ms_identity)) x.(life_issued);
  life_inv_disk : Forall (issued_by (durable_identity x.(life_world))) x.(life_issued);
  life_inv_sorted : StronglySorted Z.lt x.(life_issued)
}.

Lemma issued_by_mono i j n :
  issued_by (Some i) n ->
  i.(last_issued_sender_sequence) <= j.(last_issued_sender_sequence) ->
  issued_by (Some j) n.
Proof. intros (? & [= <-] & ?) ?. exists j. split; [done|lia]. Qed.

(** The durable state after one write, whatever its result. *)
Lemma commit_identity_durable s (w : W) i b w' :
  s.(committing) = true -> durable_wf w -> Identity_wf i ->
  commit_identity s w i = (b, w') ->
  durable_wf w' /\ durable_timeline w' = durable_timeline w /\
  (b = true -> durable_identity w' = Some i) /\
  (durable_identity w' = durable_identity w \/ durable_identity w' = Some i).
Proof.
  unfold commit_identity. intros -> [Hi Ht] Hwf Hp.
  pose proof (persist_identity_frame _ _ _ _ Hp) as Hf.
  assert (durable_identity w' = durable_identity w \/ durable_identity w' = Some i) as Hor.
  { destruct b; [right; by apply persist_identity_true in Hp|
                 by apply persist_identity_false in Hp]. }
  split_and!; [|done| |done].
  - split; [|by rewrite Hf]. intros j Hj.
    destruct Hor as [Hor|Hor]; rewrite Hor in Hj; [by apply Hi|by injection Hj as <-].
  - intros ->. by apply persist_identity_true in Hp.
Qed.

Lemma commit_timeline_durable s (w : W) t b w' :
  s.(committing) = true -> durable_wf w -> Timeline_inv t ->
  Forall (fun e => PostPayload_wf e.(entry_post)) t.(entries) ->
  commit_timeline s w t = (b, w') ->
  durable_wf w' /\ durable_identity w' = durable_identity w /\
  (b = true -> durable_timeline w' = Some t).
Proof.
  unfold commit_timeline. intros -> [Hi Ht] Hinv Hposts Hp.
  pose proof (persist_timeline_frame _ _ _ _ Hp) as Hf.
  split_and!; [|done|].
  - split; [by rewrite Hf|]. intros t' Ht'.
    destruct b; [apply persist_timeline_true in Hp as Hd; rewrite Hd in Ht'|
                 apply persist_timeline_false in Hp as [Hd|Hd]; rewrite Hd in Ht'];
      try (by apply Ht); by injection Ht' as <-.
  - intros ->. by apply persist_timeline_true in Hp.
Qed.

Lemma durable_wf_frame (w w' : W) :
  durable_identity w' = durable_identity w -> durable_timeline w' = durable_timeline w ->
  durable_wf w -> durable_wf w'.
Proof. unfold durable_wf. by intros -> ->. Qed.

Lemma composed_timeline_find t i m d now kept protected evicted :
  Timeline_inv t -> Timeline_find t m = None -> made_room t protected evicted kept ->
  Timeline_find (composed_timeline t i m d now kept) m =
  Some (mkTimelineEntry (composed_post i m (i.(last_issued_sender_sequence) + 1) d now)
          (t.(last_assigned_order) + 1) (LocalDelivery Delivery_Queued)).
Proof.
  intros Ht Hnone Hroom. apply made_room_kept in Hroom as (Hsub & _); [|done].
  unfold Timeline_find, composed_timeline. cbn [entries].
  apply find_None_iff in Hnone. rewrite Forall_forall in Hnone.
  assert (Forall (fun e => has_message_id m e = false) kept) as Hk.
  { apply Forall_forall. intros e He. apply Hnone. by eapply elem_of_sublist. }
  clear Hsub. induction Hk as [|e kept He _ IH]; cbn [app List.find].
  - unfold has_message_id. cbn [entry_post message_id composed_post].
    by rewrite bool_decide_eq_true_2.
  - by rewrite He.
Qed.

(** The outcomes of [compose] for the sequences and for what is durable. *)
Lemma compose_life s (w : W) d r s' w' :
  MessengerState_inv s -> s.(committing) = true -> durable_wf w ->
  Forall InstallId_wf d.(draft_mentions) ->
  compose s w d = (r, s', w') ->
  durable_wf w' /\ s'.(committing) = true /\
  ((issued_sequence r s' = None /\ s'.(ms_identity) = s.(ms_identity) /\
    (durable_identity w' = durable_identity w \/
     exists i, s.(ms_identity) = Some i /\ durable_identity w' = Some (issue_next i))) \/
   (exists i, s.(ms_identity) = Some i /\ s'.(ms_identity) = Some (issue_next i) /\
      durable_identity w' = Some (issue_next i) /\
      (issued_sequence r s' = None \/
       (issued_sequence r s' = Some (i.(last_issued_sender_sequence) + 1) /\
        r.(command_error) = CommandError_None /\
        durable_timeline w' = Some s'.(ms_timeline))))).
Proof.
  intros Hinv Hcom Hwf Hments.
  assert (forall r0, refusal r0 -> issued_sequence r0 s = None) as Hno.
  { intros r0 [_ Hr]. unfold issued_sequence. by rewrite Hr. }
  destruct (compose_cases s w d Hinv) as [(r0 & -> & _ & Href)|(i & Hready & ->)].
  { intros [= <- <- <-]. split_and!; [done..|]. left. split_and!; [by apply Hno|done|by left]. }
  destruct (compose_post_cases s w i d Hinv Hments Hready)
    as [(r0 & w1 & o & -> & Hfill & _ & Href)|(m & now & w2 & ev & kept & Hc & Ht & Hp & ->)].
  { intros [= <- <- <-]. apply fill_frame in Hfill as [Hd1 Hd2].
    split_and!; [by eapply durable_wf_frame|done|].
    left. split_and!; [by apply Hno|done|by left]. }
  destruct Hc as [(bs & w1 & Hfill & Hnow) _ Hnew Hroom].
  destruct Hready as [Hi Hseq _ _ _ _ _ _].
  apply fill_frame in Hfill as [Hd1 Hd2]. apply now_frame in Hnow as [Hd3 Hd4].
  assert (durable_wf w2) as Hwf2 by (eapply durable_wf_frame; [..|exact Hwf]; congruence).
  assert (Identity_wf (issue_next i)) as Hnext
    by (apply issue_next_wf; [by apply (ms_inv_identity s Hinv)|done]).
  unfold compose_commit.
  destruct (commit_identity s w2 (issue_next i)) as [[] w3] eqn:Hc1; cbn [negb];
    apply commit_identity_durable in Hc1 as (Hwf3 & Ht3 & Htrue & Hor); try done.
  2:{ intros [= <- <- <-]. split_and!; [done..|]. left. split_and!; [done|done|].
      destruct Hor as [Hor|Hor]; [left; congruence|right; eauto]. }
  destruct (commit_timeline (with_identity s (issue_next i)) w3 _) as [[] w4] eqn:Hc2;
    cbn [negb]; apply commit_timeline_durable in Hc2 as (Hwf4 & Hi4 & Htrue4); try done;
    intros [= <- <- <-]; split_and!; try done; right; exists i;
    (split_and!; [done|done|rewrite Hi4; by apply Htrue|]).
  - right. split_and!; [|done|by apply Htrue4].
    unfold issued_sequence. cbn [command_message_id mbind option_bind with_timeline ms_timeline].
    erewrite composed_timeline_find; [done|apply (ms_inv_timeline s Hinv)|done|done].
  - by left.
Qed.

Lemma Forall_issued_mono i j l :
  Forall (issued_by (Some i)) l ->
  i.(last_issued_sender_sequence) <= j.(last_issued_sender_sequence) ->
  Forall (issued_by (Some j)) l.
Proof. intros Hl Hij. eapply Forall_impl; [exact Hl|]. eauto using issued_by_mono. Qed.

Lemma Forall_issued_None l : Forall (issued_by None) l -> l = [].
Proof. by intros [|n l' (j & ? & _) _]. Qed.

(** A command that writes nothing. *)
Definition nothing_written (s : MessengerState) (w : W) (r : CommandResult)
    (s' : MessengerState) (w' : W) : Prop :=
  r.(command_error) <> CommandError_None /\ s' = s /\
  durable_identity w' = durable_identity w /\ durable_timeline w' = durable_timeline w.

(** A command that tries to write and adopt the identity [j]. *)
Definition identity_written (s : MessengerState) (w : W) (j : Identity)
    (r : CommandResult) (s' : MessengerState) (w' : W) : Prop :=
  durable_timeline w' = durable_timeline w /\
  ((r.(command_error) = CommandError_None /\ s' = with_identity s j /\
    durable_identity w' = Some j) \/
   (r.(command_error) = CommandError_PersistenceUnavailable /\ s' = s /\
    (durable_identity w' = durable_identity w \/ durable_identity w' = Some j))).

(** A command that tries to write and adopt the timeline [t]. *)
Definition timeline_written (s : MessengerState) (w : W) (t : Timeline)
    (r : CommandResult) (s' : MessengerState) (w' : W) : Prop :=
  durable_identity w' = durable_identity w /\
  ((r.(command_error) = CommandError_None /\ s' = with_timeline s t /\
    durable_timeline w' = Some t) \/
   (r.(command_error) = CommandError_PersistenceUnavailable /\ s' = s)).

Lemma rename_user_cases s (w : W) u r s' w' :
  MessengerState_inv s -> s.(committing) = true -> durable_wf w ->
  rename_user s w u = (r, s', w') ->
  durable_wf w' /\
  (nothing_written s w r s' w' \/
   exists i v, s.(ms_identity) = Some i /\
     UserId_create u = success v /\
     identity_written s w (Identity_rename i v) r s' w').
Proof.
  intros Hinv Hcom Hwf. unfold rename_user, nothing_written, identity_written.
  destruct (ms_identity s) as [i|] eqn:Hi;
    [|intros [= <- <- <-]; split; [done|by left]].
  destruct (UserId_create u) as [v|] eqn:Hu;
    [|intros [= <- <- <-]; split; [done|by left]].
  pose proof Hu as [_ Hv]%UserId_create_success.
  destruct (ms_inv_identity s Hinv i Hi) as (? & ? & ?).
  destruct (commit_identity s w _) as [b w2] eqn:Hc.
  apply commit_identity_durable in Hc as (Hwf' & Hf & Htrue & Hor); [|done..].
  destruct b; cbn [negb]; intros [= <- <- <-]; (split; [done|right]);
    exists i, v; (split_and!; [done..|]); [left|right]; split_and!; auto.
Qed.

Lemma initialize_new_cases s (w : W) u r s' w' :
  s.(committing) = true -> durable_wf w ->
  initialize_new s w u = (r, s', w') ->
  durable_wf w' /\
  (nothing_written s w r s' w' \/
   exists m v, s.(ms_identity) = None /\ InstallId_wf m /\
     UserId_create u = success v /\
     identity_written s w (Identity_restore m v 0) r s' w').
Proof.
  intros Hcom Hwf. unfold initialize_new, nothing_written, identity_written.
  destruct (ms_identity s) as [i|] eqn:Hi;
    [intros [= <- <- <-]; split; [done|by left]|].
  destruct (UserId_create u) as [v|] eqn:Hu;
    [|intros [= <- <- <-]; split; [done|by left]].
  pose proof Hu as [_ Hv]%UserId_create_success.
  pose proof (InstallId_generate_spec w) as Hg.
  destruct (fill w 16) as [[bs|] w1] eqn:Hfill; pose proof Hfill as [Hd1 Hd2]%fill_frame;
    [destruct Hg as [-> Hg]|rewrite Hg; intros [= <- <- <-];
       split; [by eapply durable_wf_frame|by left]].
  destruct (commit_identity s w1 _) as [b w2] eqn:Hc.
  apply commit_identity_durable in Hc as (Hwf' & Hf & Htrue & Hor);
    [|done|by eapply durable_wf_frame|by split_and!].
  rewrite Hd1, Hd2 in *.
  destruct b; cbn [negb]; intros [= <- <- <-]; (split; [done|right]);
    do 2 eexists; (split_and!; [done..|]); [left|right]; split_and!; auto.
Qed.

Lemma commit_timeline_cases s (w : W) t r b w2 (s' : MessengerState) w' i :
  s.(committing) = true -> durable_wf w -> s.(ms_identity) = Some i ->
  Timeline_inv t -> Forall (fun e => PostPayload_wf e.(entry_post)) t.(entries) ->
  r.(command_error) = CommandError_None ->
  commit_timeline s w t = (b, w2) ->
  forall r',
  (if negb b then (command_fails CommandError_PersistenceUnavailable, s, w2)
   else (r, with_timeline s t, w2)) = (r', s', w') ->
  durable_wf w' /\ timeline_written s w t r' s' w'.
Proof.
  intros Hcom Hwf Hi Ht Hp Hr Hc r'.
  apply commit_timeline_durable in Hc as (Hwf' & Hf & Htrue); [|done..].
  unfold timeline_written.
  destruct b; cbn [negb]; intros [= <- <- <-]; (split_and!; [done..|]); [left|right];
    split_and!; auto.
Qed.

Lemma accept_received_cases s (w : W) post r s' w' :
  MessengerState_inv s -> s.(committing) = true -> durable_wf w -> PostPayload_wf post ->
  accept_received s w post = (r, s', w') ->
  durable_wf w' /\
  (nothing_written s w r s' w' \/
   timeline_written s w (snd (insert_received s.(ms_timeline) post)) r s' w').
Proof.
  intros Hinv Hcom Hwf Hpost. unfold accept_received, nothing_written.
  destruct (ms_identity s) as [i|] eqn:Hi;
    [|intros [= <- <- <-]; split; [done|by left]].
  pose proof (Timeline_insert_inv (ms_timeline s) post ReceivedOrigin None
    (ms_inv_timeline s Hinv)) as Ht.
  pose proof (Timeline_insert_posts (ms_timeline s) post ReceivedOrigin None
    (ms_inv_timeline s Hinv) Hpost (ms_inv_posts s Hinv)) as Hp.
  fold (insert_received (ms_timeline s) post) in Ht, Hp.
  destruct (insert_received (ms_timeline s) post) as [ins t']. cbn [snd] in *.
  destruct (CommandResult_ok (map_insert_result ins)) eqn:Hok; cbn [negb];
    unfold CommandResult_ok in Hok; reflect_bools.
  2:{ intros [= <- <- <-]. split; [done|by left]. }
  destruct (commit_timeline s w t') as [b w2] eqn:Hc. intros Hr.
  eapply commit_timeline_cases in Hr as [? ?]; eauto.
Qed.

Lemma transition_cases s (w : W) m broadcast r s' w' :
  MessengerState_inv s -> s.(committing) = true -> durable_wf w ->
  transition s w m broadcast = (r, s', w') ->
  durable_wf w' /\
  (nothing_written s w r s' w' \/
   timeline_written s w
     (snd (Timeline_transition s.(ms_timeline) m
             (if broadcast then Delivery_Broadcast else Delivery_Failed))) r s' w').
Proof.
  intros Hinv Hcom Hwf. unfold transition, nothing_written.
  destruct (ms_identity s) as [i|] eqn:Hi;
    [|intros [= <- <- <-]; split; [done|by left]].
  set (target := if broadcast then Delivery_Broadcast else Delivery_Failed).
  replace (if broadcast then Timeline.mark_broadcast (ms_timeline s) m
           else Timeline.mark_failed (ms_timeline s) m)
    with (Timeline_transition (ms_timeline s) m target) by (by destruct broadcast).
  pose proof (Timeline_transition_inv (ms_timeline s) m target (ms_inv_timeline s Hinv)) as Ht.
  pose proof (Timeline_transition_posts (ms_timeline s) m target (ms_inv_posts s Hinv)) as Hp.
  destruct (Timeline_transition (ms_timeline s) m target) as [[] t']; cbn [snd] in *;
    try (intros [= <- <- <-]; split; [done|by left]).
  destruct (commit_timeline s w t') as [b w2] eqn:Hc. intros Hr.
  eapply commit_timeline_cases in Hr as [? ?]; eauto.
Qed.

Lemma identity_written_issued s (w : W) j r s' w' l :
  identity_written s w j r s' w' ->
  Forall (issued_by (Some j)) l ->
  Forall (issued_by s.(ms_identity)) l -> Forall (issued_by (durable_identity w)) l ->
  Forall (issued_by s'.(ms_identity)) l /\ Forall (issued_by (durable_identity w')) l.
Proof.
  intros [_ [(_ & -> & ->)|(_ & -> & [->| ->])]] ? ? ?; done.
Qed.

Lemma StronglySorted_snoc_lt l n :
  StronglySorted Z.lt l -> Forall (fun x => x < n) l -> StronglySorted Z.lt (l ++ [n]).
Proof.
  intros Hl Hn. induction Hl as [|x l _ IH Hx]; cbn; [by repeat constructor|].
  inversion Hn; subst. constructor; [by apply IH|]. apply Forall_app. by repeat constructor.
Qed.

Lemma Life_compose_inv s (w : W) l d r s' w' :
  Life_inv (mkLife s w l) -> Forall InstallId_wf d.(draft_mentions) ->
  compose s w d = (r, s', w') ->
  Life_inv (mkLife s' w' (l ++ option_list (issued_sequence r s'))).
Proof.
  intros [Hinv Hcom Hwf Hmem Hdisk Hsort] Hments Hc. cbn in *.
  pose proof (compose_branches _ _ _ _ _ _ Hinv Hments Hc) as [Hinv' _].
  pose proof (compose_life _ _ _ _ _ _ Hinv Hcom Hwf Hments Hc)
    as (Hwf' & Hcom' & [(Hno & Hsame & Hd)|(i & Hi & Hi' & Hd & Hn)]).
  - rewrite Hno. cbn [option_list]. rewrite app_nil_r. split; cbn; try done;
      [by rewrite Hsame|].
    destruct Hd as [Hd|(i & Hi & Hd)]; rewrite Hd; [done|].
    rewrite Hi in Hmem. eapply Forall_issued_mono; [exact Hmem|]. cbn. lia.
  - rewrite Hi in Hmem.
    assert (Forall (issued_by (Some (issue_next i))) l) as Hl
      by (eapply Forall_issued_mono; [exact Hmem|]; cbn; lia).
    destruct Hn as [Hn|(Hn & _)]; rewrite Hn; cbn [option_list].
    { rewrite app_nil_r. split; cbn; try done; by rewrite ?Hi', ?Hd. }
    assert (Forall (issued_by (Some (issue_next i)))
              (l ++ [last_issued_sender_sequence i + 1])) as Hl'.
    { apply Forall_app. split; [done|]. repeat constructor.
      exists (issue_next i). split; [done|]. cbn. lia. }
    split; cbn; try done; rewrite ?Hi', ?Hd; try done.
    apply StronglySorted_snoc_lt; [done|]. eapply Forall_impl; [exact Hmem|].
    intros n (j & [= <-] & ?). cbn. lia.
Qed.

Lemma Life_restart_inv s (w : W) l cap last s0 :
  Life_inv (mkLife s w l) -> is_u64 last -> MessengerState_make cap last true = Some s0 ->
  Life_inv (mkLife (recover s0 w) w l).
Proof.
  intros [_ _ Hwf _ Hdisk Hsort] Hlast Hmake. cbn in *.
  unfold MessengerState_make in Hmake.
  destruct (Timeline_make cap last) as [t0|] eqn:Ht0; [|done]. injection Hmake as <-.
  pose proof (Timeline_make_inv _ _ _ Hlast Ht0) as Htinv.
  assert (entries t0 = []) as Hempty.
  { unfold Timeline_make in Ht0. split_if; [done|]. by injection Ht0 as <-. }
  pose proof Hwf as [Hwi Hwt]. unfold recover, restore_identity, restore_state.
  destruct (durable_identity w) as [i|] eqn:Hdi.
  - destruct (durable_timeline w) as [t|] eqn:Hdt; cbn [ms_identity snd].
    + destruct (Hwt _ eq_refl) as [? ?]. split; cbn; rewrite ?Hdi; try done.
    + split; cbn; rewrite ?Hdi; try done. by split; cbn; rewrite ?Hempty.
  - split; cbn; rewrite ?Hdi; try done. split; cbn; try done. by rewrite Hempty.
Qed.

Lemma Life_start_inv x : Life_start x -> Life_inv x.
Proof.
  destruct x as [s w l]. intros (Hwf & Hl & cap & last & s0 & Hlast & Hmake & Hs). cbn in *.
  subst. assert (Life_inv (mkLife s0 w []) -> Life_inv (mkLife (recover s0 w) w []))
    as Hrec by (intros; by eapply Life_restart_inv).
  apply Hrec. unfold MessengerState_make in Hmake.
  destruct (Timeline_make cap last) as [t0|] eqn:Ht0; [|done]. injection Hmake as <-.
  pose proof (Timeline_make_inv _ _ _ Hlast Ht0) as Htinv.
  assert (entries t0 = []) as Hempty.
  { unfold Timeline_make in Ht0. split_if; [done|]. by injection Ht0 as <-. }
  split; cbn; try done; [|constructor]. split; cbn; try done. by rewrite Hempty.
Qed.

Lemma Life_step_inv x y : Life_inv x -> Life_step x y -> Life_inv y.
Proof.
  intros Hx Hxy. destruct Hxy as
    [s w l u r s' w' Hc|s w l u r s' w' Hc|s w l d r s' w' Hm Hc|s w l p r s' w' Hp Hc
    |s w l m b r s' w' Hc|s w l cap last s0 Hl Hm];
    [..|by eapply Life_restart_inv]; try by eapply Life_compose_inv.
  - pose proof Hx as [Hinv Hcom Hwf Hmem Hdisk Hsort]; cbn in *.
    pose proof (initialize_new_inv _ _ _ _ _ _ Hinv Hc).
    pose proof (initialize_new_cases _ _ _ _ _ _ Hcom Hwf Hc)
      as (Hwf' & [(_ & -> & Hd & _)|(m & v & Hi & _ & _ & Hw)]).
    + by split; cbn; rewrite ?Hd.
    + rewrite Hi in Hmem. apply Forall_issued_None in Hmem as ->.
      split; cbn; try done; try constructor.
      by destruct Hw as [_ [(_ & -> & _)|(_ & -> & _)]].
  - pose proof Hx as [Hinv Hcom Hwf Hmem Hdisk Hsort]; cbn in *.
    pose proof (rename_user_inv _ _ _ _ _ _ Hinv Hc).
    pose proof (rename_user_cases _ _ _ _ _ _ Hinv Hcom Hwf Hc)
      as (Hwf' & [(_ & -> & Hd & _)|(i & v & Hi & _ & Hw)]).
    + by split; cbn; rewrite ?Hd.
    + pose proof (identity_written_issued _ _ _ _ _ _ l Hw) as [? ?];
        [by rewrite Hi in Hmem; eapply Forall_issued_mono|done|done|].
      split; cbn; try done. by destruct Hw as [_ [(_ & -> & _)|(_ & -> & _)]].
  - pose proof Hx as [Hinv Hcom Hwf Hmem Hdisk Hsort]; cbn in *.
    pose proof (accept_received_inv _ _ _ _ _ _ Hinv Hp Hc).
    pose proof (accept_received_cases _ _ _ _ _ _ Hinv Hcom Hwf Hp Hc)
      as (Hwf' & [(_ & -> & Hd & _)|Hw]).
    + by split; cbn; rewrite ?Hd.
    + destruct Hw as [Hd [(_ & -> & _)|(_ & ->)]]; by split; cbn; rewrite ?Hd.
  - pose proof Hx as [Hinv Hcom Hwf Hmem Hdisk Hsort]; cbn in *.
    pose proof (transition_inv _ _ _ _ _ _ _ Hinv Hc).
    pose proof (transition_cases _ _ _ _ _ _ _ Hinv Hcom Hwf Hc)
      as (Hwf' & [(_ & -> & Hd & _)|Hw]).
    + by split; cbn; rewrite ?Hd.
    + destruct Hw as [Hd [(_ & -> & _)|(_ & ->)]]; by split; cbn; rewrite ?Hd.
Qed.

(** The commands as data. *)
Inductive Command :=
| Command_Initialize (user_id : bytes)
| Command_Rename (user_id : bytes)
| Command_Compose (draft : PostDraft)
| Command_Accept (post : PostPayload)
| Command_Transition (m : MessageId) (broadcast : bool).

Definition run_command (s : MessengerState) (w : W) (c : Command) :
    CommandResult * MessengerState * W :=
  match c with
  | Command_Initialize u => initialize_new s w u
  | Command_Rename u => rename_user s w u
  | Command_Compose d => compose s w d
  | Command_Accept p => accept_received s w p
  | Command_Transition m b => transition s w m b
  end.

(** The arguments are values of their C++ types. *)
Definition Command_typed (c : Command) : Prop :=
  match c with
  | Command_Compose d => Forall InstallId_wf d.(draft_mentions)
  | Command_Accept p => PostPayload_wf p
  | _ => True
  end.

(** What was changed in memory is durable, and a failure changes at most the
    sequence counter, which is then durable. *)
Definition atomic (s : MessengerState) (r : CommandResult) (s' : MessengerState) (w' : W)
  : Prop :=
  (s'.(ms_identity) = s.(ms_identity) \/ durable_identity w' = s'.(ms_identity)) /\
  (s'.(ms_timeline) = s.(ms_timeline) \/ durable_timeline w' = Some s'.(ms_timeline)) /\
  (r.(command_error) <> CommandError_None ->
     s' = s \/ exists i, s.(ms_identity) = Some i /\
       r.(command_error) = CommandError_PersistenceUnavailable /\
       s' = with_identity s (issue_next i)).

Lemma nothing_written_atomic s (w : W) r s' w' : nothing_written s w r s' w' -> atomic s r s' w'.
Proof. intros (? & -> & _). unfold atomic. auto. Qed.

Lemma identity_written_atomic s (w : W) j r s' w' :
  identity_written s w j r s' w' -> atomic s r s' w'.
Proof.
  unfold atomic. intros [_ [(? & -> & ->)|(? & -> & _)]]; cbn; split_and!; auto; done.
Qed.

Lemma timeline_written_atomic s (w : W) t r s' w' :
  timeline_written s w t r s' w' -> atomic s r s' w'.
Proof.
  unfold atomic. intros [_ [(? & -> & ->)|(? & ->)]]; cbn; split_and!; auto; done.
Qed.

Lemma compose_atomic s (w : W) d r s' w' :
  MessengerState_inv s -> s.(committing) = true -> durable_wf w ->
  Forall InstallId_wf d.(draft_mentions) ->
  compose s w d = (r, s', w') -> atomic s r s' w'.
Proof.
  intros Hinv Hcom Hwf Hments Hc.
  pose proof (compose_branches _ _ _ _ _ _ Hinv Hments Hc) as [_ Hbr].
  pose proof (compose_life _ _ _ _ _ _ Hinv Hcom Hwf Hments Hc)
    as (_ & _ & Hlife). unfold compose_branch, atomic in *.
  destruct (command_error r) eqn:Hr; try (destruct Hbr as (-> & _); by auto).
  - destruct Hbr as (i & m & now & ev & kept & Hi & _ & _ & Hnew & Hroom & -> & ->).
    unfold issued_sequence in Hlife. cbn -[Timeline_find mbind] in Hlife.
    change (mkTimeline _ _ _) with (composed_timeline (ms_timeline s) i m d now kept) in Hlife |- *.
    cbn [mbind option_bind] in Hlife.
    rewrite (composed_timeline_find _ _ _ _ _ _ _ _ (ms_inv_timeline s Hinv) Hnew Hroom)
      in Hlife.
    destruct Hlife as [(? & _)|(j & Hj & Hj' & Hd & [?|(_ & _ & Ht)])]; [done|done|].
    cbn. split_and!; [right; by rewrite Hd, <- Hj'|by right|by intros []].
  - destruct Hbr as (_ & [->|(i & Hi & _ & ->)]); [by auto|].
    cbn. split_and!; [|by left|intros _; right; by exists i].
    destruct Hlife as [(_ & Hsame & _)|(j & Hj & Hj' & Hd & _)]; [by left|].
    right. by rewrite Hd.
Qed.

End Life.

(** ** Scripted ports, for concrete runs *)

(** Random answers and commit results are read from lists; the clock is fixed. *)
Record ScriptedPorts := mkScriptedPorts {
  script_random : list (option bytes);
  script_commits : list bool;
  stored_identity : option Identity;
  stored_timeline : option Timeline
}.

#[global] Instance ScriptedPorts_random : IRandomBytes ScriptedPorts := {
  fill w n :=
    match w.(script_random) with
    | [] => (None, w)
    | r :: rest =>
        (match r with
         | Some bs => if (length bs =? n)%nat then Some bs else None
         | None => None
         end,
         mkScriptedPorts rest w.(script_commits) w.(stored_identity) w.(stored_timeline))
    end
}.

#[global] Instance ScriptedPorts_clock : IWallClock ScriptedPorts := {
  now_unix_seconds w := (Some 1700000000, w)
}.

#[global] Instance ScriptedPorts_commit : IStateCommit ScriptedPorts := {
  persist_identity w i :=
    let b := hd true w.(script_commits) in
    (b, mkScriptedPorts w.(script_random) (List.tl w.(script_commits))
          (if b then Some i else w.(stored_identity)) w.(stored_timeline));
  persist_timeline w t :=
    let b := hd true w.(script_commits) in
    (b, mkScriptedPorts w.(script_random) (List.tl w.(script_commits))
          w.(stored_identity) (if b then Some t else w.(stored_timeline)))
}.

#[global] Instance ScriptedPorts_random_laws : IRandomBytesLaws ScriptedPorts.
Proof.
  split. intros [[|[bs|] rest] cs i t] n bs' w'; cbn; [done| |done].
  destruct (Nat.eqb_spec (length bs) n); [|done]. by intros [= <- _].
Qed.

#[global] Instance ScriptedPorts_clock_laws : IWallClockLaws ScriptedPorts.
Proof. split. intros w t w' [= <- _]. done. Qed.

#[global] Program Instance ScriptedPorts_commit_laws : IStateCommitLaws ScriptedPorts := {
  durable_identity := stored_identity;
  durable_timeline := stored_timeline
}.
Next Obligation. intros w i w' [= Hb <-]. cbn. by rewrite Hb. Qed.
Next Obligation. intros w i w' [= Hb <-]. cbn. rewrite Hb. by left. Qed.
Next Obligation. by intros w i b w' [= _ <-]. Qed.
Next Obligation. intros w i w' [= Hb <-]. cbn. by rewrite Hb. Qed.
Next Obligation. intros w i w' [= Hb <-]. cbn. rewrite Hb. by left. Qed.
Next Obligation. by intros w i b w' [= _ <-]. Qed.
Next Obligation.
  intros [[|r rest] cs i t] n o w' [= _ <-]; done.
Qed.
Next Obligation. by intros w r w' [= _ <-]. Qed.

(** A fresh messenger and a world with the random bytes for an installation and
    two posts. *)
Definition script_uuid (n : Z) : bytes := be_bytes 16 n.
Definition fresh_state : MessengerState :=
  mkMessengerState None (mkTimeline 8 0 []) true.
Definition fresh_world (commits : list bool) : ScriptedPorts :=
  mkScriptedPorts [Some (script_uuid 1); Some (script_uuid 2); Some (script_uuid 3)]
    commits None None.
Definition hello : PostDraft := mkPostDraft (str "hello") [] None.

Definition ready_run (commits : list bool) : CommandResult * MessengerState * ScriptedPorts :=
  initialize_new fresh_state (fresh_world commits) (str "Mika").

Lemma fresh_state_inv : MessengerState_inv fresh_state.
Proof.
  split; cbn; try done. eapply (Timeline_make_inv 8 0); [done|reflexivity].
Qed.

Lemma fresh_world_wf commits : durable_wf (fresh_world commits).
Proof. by split; intros ? [=]. Qed.

(** ** Property theorems *)

(** Every result of [compose] and what it means.  Success adds exactly one
    queued post at the end of the timeline (evicting at most the oldest entry
    that is neither queued nor the reply parent), whose content is the draft,
    whose author is the identity, whose sequence is the next one and whose
    identifier is a fresh version-4 UUID; each refusal holds exactly the
    condition it names and changes nothing; a persistence failure leaves the
    timeline and at most spends the sequence.  [InvalidPost], [DuplicatePost]
    and the other internal errors never occur, and the class invariant is
    kept. *)
Theorem compose_spec {W} `{IRandomBytesLaws W} `{IWallClockLaws W} `{IStateCommit W}
    s (w : W) d r s' w' :
  MessengerState_inv s -> Forall InstallId_wf d.(draft_mentions) ->
  compose s w d = (r, s', w') ->
  MessengerState_inv s' /\ compose_branch s w d r s'.
Proof. apply compose_branches. Qed.

Lemma compose_spec_witness :
  exists s w r s' w',
    compose (W := ScriptedPorts) s w hello = (r, s', w') /\
    r.(command_error) = CommandError_None /\
    MessengerState_inv s' /\ compose_branch s w hello r s'.
Proof.
  destruct (initialize_new fresh_state (fresh_world []) (str "Mika")) as [[r0 s0] w0] eqn:E0.
  pose proof (initialize_new_inv _ _ _ _ _ _ fresh_state_inv E0) as Hinv.
  destruct (compose s0 w0 hello) as [[r s'] w'] eqn:E1.
  exists s0, w0, r, s', w'. split; [exact E1|]. split.
  - assert (s0 = snd (fst (ready_run []))) as -> by (unfold ready_run; by rewrite E0).
    assert (w0 = snd (ready_run [])) as -> by (unfold ready_run; by rewrite E0).
    change r with (fst (fst (r, s', w'))). rewrite <- E1. vm_compute. reflexivity.
  - by apply (compose_spec s0 w0 hello r s' w' Hinv (List.Forall_nil _) E1).
Defined.

(** C37: the sender sequences of composed posts increase strictly for the whole
    life of an installation, over any commands, failed writes, crashes and
    restarts from what is durable: no sequence is ever used twice.  Every
    sequence is at or below the durable counter. *)
Theorem sequences_never_reused {W} `{IStateCommitLaws W}
    `{!IRandomBytesLaws W} `{!IWallClockLaws W} (x y : Life (W := W)) :
  Life_start x -> rtc Life_step x y ->
  StronglySorted Z.lt y.(life_issued) /\
  Forall (issued_by (durable_identity y.(life_world))) y.(life_issued).
Proof.
  intros Hx Hxy.
  pose proof (rtc_invariant _ Life_inv Life_step_inv _ _ Hxy (Life_start_inv x Hx)) as Hy.
  split; [apply life_inv_sorted|apply life_inv_disk]; exact Hy.
Qed.

(** A run with a failed timeline write: the first sequence is spent, and the
    restarted process goes on with the second. *)
Lemma sequences_never_reused_witness :
  exists y : Life (W := ScriptedPorts),
    y.(life_issued) = [2] /\
    StronglySorted Z.lt y.(life_issued) /\
    Forall (issued_by (durable_identity y.(life_world))) y.(life_issued).
Proof.
  pose (commits := [true; true; false]).
  destruct (initialize_new fresh_state (fresh_world commits) (str "Mika"))
    as [[r0 s0] w0] eqn:E0.
  destruct (compose s0 w0 hello) as [[r1 s1] w1] eqn:E1.
  set (s2 := recover fresh_state w1).
  destruct (compose s2 w1 hello) as [[r3 s3] w3] eqn:E3.
  set (y := mkLife s3 w3 (([] ++ option_list (issued_sequence r1 s1)) ++
                          option_list (issued_sequence r3 s3))).
  exists y. split.
  - assert (s0 = snd (fst (ready_run commits))) as -> by (unfold ready_run; by rewrite E0).
    assert (w0 = snd (ready_run commits)) as -> by (unfold ready_run; by rewrite E0).
    assert (exists v, v = (r1, s1, w1)) as [v Hv] by eauto. pose proof Hv as Hv1.
    rewrite <- E1 in Hv1. vm_compute in Hv1. rewrite Hv1 in Hv.
    injection Hv as Hr Hs Hw. subst r1 s1 w1. clear E1 Hv1.
    assert (exists v, v = (r3, s3, w3)) as [v3 Hv3] by eauto. pose proof Hv3 as Hv4.
    rewrite <- E3 in Hv4. vm_compute in Hv4. rewrite Hv4 in Hv3.
    injection Hv3 as Hr Hs Hw. subst r3 s3 w3. vm_compute. reflexivity.
  - apply (sequences_never_reused (mkLife fresh_state (fresh_world commits) [])).
    + split; [apply fresh_world_wf|]. split; [done|].
      by exists 8%nat, 0, fresh_state.
    + eapply rtc_l; [by eapply life_initialize|].
      eapply rtc_l; [eapply (life_compose _ _ _ hello); [constructor|exact E1]|].
      eapply rtc_l; [by apply (life_restart _ _ _ 8 0)|].
      eapply rtc_l; [eapply (life_compose _ _ _ hello); [constructor|exact E3]|].
      apply rtc_refl.
Defined.

(** commands are atomic and durable before they are visible.  Whatever a
    command changes in memory is durable when it returns; a command that fails
    leaves the messenger as it was, except that a [compose] whose timeline
    write failed has spent (durably) one sequence number. *)
Theorem commands_atomic {W} `{IStateCommitLaws W}
    `{!IRandomBytesLaws W} `{!IWallClockLaws W} s (w : W) c r s' w' :
  MessengerState_inv s -> s.(committing) = true -> durable_wf w -> Command_typed c ->
  run_command s w c = (r, s', w') -> atomic s r s' w'.
Proof.
  intros Hinv Hcom Hwf Htyped Hrun. destruct c; cbn [run_command Command_typed] in *.
  - apply initialize_new_cases in Hrun as (_ & Hr); [|done..].
    destruct Hr as [?|(m & v & _ & _ & _ & ?)];
      eauto using nothing_written_atomic, identity_written_atomic.
  - apply rename_user_cases in Hrun as (_ & Hr); [|done..].
    destruct Hr as [?|(i & v & _ & _ & ?)];
      eauto using nothing_written_atomic, identity_written_atomic.
  - by eapply compose_atomic.
  - apply accept_received_cases in Hrun as (_ & Hr); [|done..].
    destruct Hr; eauto using nothing_written_atomic, timeline_written_atomic.
  - apply transition_cases in Hrun as (_ & Hr); [|done..].
    destruct Hr; eauto using nothing_written_atomic, timeline_written_atomic.
Qed.

Lemma commands_atomic_witness :
  exists r s' w',
    run_command (W := ScriptedPorts) fresh_state (fresh_world [])
      (Command_Initialize (str "Mika")) = (r, s', w') /\
    command_error r = CommandError_None /\ atomic fresh_state r s' w'.
Proof.
  destruct (run_command (W := ScriptedPorts) fresh_state (fresh_world [])
      (Command_Initialize (str "Mika"))) as [[r s'] w'] eqn:E.
  exists r, s', w'. split; [done|]. split.
  - change r with (fst (fst (r, s', w'))). rewrite <- E. vm_compute. reflexivity.
  - exact (commands_atomic fresh_state (fresh_world []) (Command_Initialize (str "Mika"))
             r s' w' fresh_state_inv eq_refl (fresh_world_wf []) I E).
Defined.
