(* ===== verification/TransmissionScheduler.v ===== *)
(** * TransmissionScheduler: what is sent, and when

    src/application/transmission_scheduler.cpp.  A queue of fragmented posts;
    [pump] makes at most one transport offer for the front message, after the
    radio policy allowed it.  Indexing that C++ would make undefined is
    [None]. *)
From S2P Require Import Prelude Ports Uuid Post Limits PostCodec FrameCodec Fragmenter.

(** ** Definitions *)

Definition kMaximumOutboundMessages : nat := 16.
Definition kOutboundDeadlineTicks : Z := 60000.

Inductive SchedulerError :=
| SchedulerError_None
| SchedulerError_InvalidMtu
| SchedulerError_InvalidPost
| SchedulerError_DuplicateMessage
| SchedulerError_QueueFull
| SchedulerError_RandomUnavailable.

Inductive OutboundTerminalState :=
| Outbound_Broadcast
| Outbound_Failed.

Record OutboundEvent := mkOutboundEvent {
  event_message_id : MessageId;
  event_state : OutboundTerminalState
}.

Record SchedulerMetrics := mkSchedulerMetrics {
  pending_messages : nat;
  high_water_messages : nat;
  transport_offers : Z;
  accepted_datagrams : Z;
  backpressure_events : Z;
  policy_deferrals : Z;
  failed_messages : Z;
  broadcast_messages : Z
}.

Record PendingMessage := mkPendingMessage {
  pending_message_id : MessageId;
  pending_mtu : nat;
  frames : list bytes;
  jitter : bytes;
  offer_counts : list Z;
  pending_fragment_index : nat;
  jitter_index : nat;
  due : Z;
  deadline : Z;
  repeat_pass : bool
}.

Record TransmissionScheduler := mkTransmissionScheduler {
  pending : list PendingMessage;
  metrics : SchedulerMetrics
}.

Definition TransmissionScheduler_make : TransmissionScheduler :=
  mkTransmissionScheduler [] (mkSchedulerMetrics 0 0 0 0 0 0 0 0).

Definition saturating_add (value increment : Z) : Z :=
  if UINT64_MAX - increment <? value then UINT64_MAX else u64 (value + increment).

Definition scaled_jitter (value : byte) (inclusive_maximum : Z) : Z :=
  u64 (bval value * u64 (inclusive_maximum + 1)) / 256.

Definition update_pending_metric (s : TransmissionScheduler) : TransmissionScheduler :=
  let m := s.(metrics) in
  let n := length s.(pending) in
  mkTransmissionScheduler s.(pending)
    (mkSchedulerMetrics n (Nat.max m.(high_water_messages) n) m.(transport_offers)
       m.(accepted_datagrams) m.(backpressure_events) m.(policy_deferrals)
       m.(failed_messages) m.(broadcast_messages)).

(** The increments of the counters. *)
Definition count_offer (s : TransmissionScheduler) : TransmissionScheduler :=
  let m := s.(metrics) in
  mkTransmissionScheduler s.(pending)
    (mkSchedulerMetrics m.(pending_messages) m.(high_water_messages)
       (u64 (m.(transport_offers) + 1)) m.(accepted_datagrams)
       m.(backpressure_events) m.(policy_deferrals)
       m.(failed_messages) m.(broadcast_messages)).
Definition count_accepted (s : TransmissionScheduler) : TransmissionScheduler :=
  let m := s.(metrics) in
  mkTransmissionScheduler s.(pending)
    (mkSchedulerMetrics m.(pending_messages) m.(high_water_messages)
       m.(transport_offers) (u64 (m.(accepted_datagrams) + 1))
       m.(backpressure_events) m.(policy_deferrals)
       m.(failed_messages) m.(broadcast_messages)).
Definition count_backpressure (s : TransmissionScheduler) : TransmissionScheduler :=
  let m := s.(metrics) in
  mkTransmissionScheduler s.(pending)
    (mkSchedulerMetrics m.(pending_messages) m.(high_water_messages)
       m.(transport_offers) m.(accepted_datagrams)
       (u64 (m.(backpressure_events) + 1)) m.(policy_deferrals)
       m.(failed_messages) m.(broadcast_messages)).
Definition count_deferral (s : TransmissionScheduler) : TransmissionScheduler :=
  let m := s.(metrics) in
  mkTransmissionScheduler s.(pending)
    (mkSchedulerMetrics m.(pending_messages) m.(high_water_messages)
       m.(transport_offers) m.(accepted_datagrams)
       m.(backpressure_events) (u64 (m.(policy_deferrals) + 1))
       m.(failed_messages) m.(broadcast_messages)).
Definition count_failed (s : TransmissionScheduler) : TransmissionScheduler :=
  let m := s.(metrics) in
  mkTransmissionScheduler s.(pending)
    (mkSchedulerMetrics m.(pending_messages) m.(high_water_messages)
       m.(transport_offers) m.(accepted_datagrams)
       m.(backpressure_events) m.(policy_deferrals)
       (u64 (m.(failed_messages) + 1)) m.(broadcast_messages)).
Definition count_broadcast (s : TransmissionScheduler) : TransmissionScheduler :=
  let m := s.(metrics) in
  mkTransmissionScheduler s.(pending)
    (mkSchedulerMetrics m.(pending_messages) m.(high_water_messages)
       m.(transport_offers) m.(accepted_datagrams)
       m.(backpressure_events) m.(policy_deferrals)
       m.(failed_messages) (u64 (m.(broadcast_messages) + 1))).

(** [pending] is a reference to the front of the queue: its new value is put
    back there. *)
Definition store_front (s : TransmissionScheduler) (p : PendingMessage)
  : TransmissionScheduler :=
  mkTransmissionScheduler (<[0%nat := p]> s.(pending)) s.(metrics).

Definition with_due (p : PendingMessage) (tick : Z) : PendingMessage :=
  mkPendingMessage p.(pending_message_id) p.(pending_mtu) p.(frames) p.(jitter)
    p.(offer_counts) p.(pending_fragment_index) p.(jitter_index) tick p.(deadline)
    p.(repeat_pass).
Definition with_fragment_index (p : PendingMessage) (i : nat) : PendingMessage :=
  mkPendingMessage p.(pending_message_id) p.(pending_mtu) p.(frames) p.(jitter)
    p.(offer_counts) i p.(jitter_index) p.(due) p.(deadline) p.(repeat_pass).
Definition with_jitter_index (p : PendingMessage) (i : nat) : PendingMessage :=
  mkPendingMessage p.(pending_message_id) p.(pending_mtu) p.(frames) p.(jitter)
    p.(offer_counts) p.(pending_fragment_index) i p.(due) p.(deadline) p.(repeat_pass).
Definition with_offer_counts (p : PendingMessage) (c : list Z) : PendingMessage :=
  mkPendingMessage p.(pending_message_id) p.(pending_mtu) p.(frames) p.(jitter)
    c p.(pending_fragment_index) p.(jitter_index) p.(due) p.(deadline) p.(repeat_pass).
Definition with_repeat_pass (p : PendingMessage) : PendingMessage :=
  mkPendingMessage p.(pending_message_id) p.(pending_mtu) p.(frames) p.(jitter)
    p.(offer_counts) p.(pending_fragment_index) p.(jitter_index) p.(due) p.(deadline)
    true.

(** [pending_.erase(pending_.begin()); update_pending_metric();] *)
Definition erase_front (s : TransmissionScheduler) : TransmissionScheduler :=
  update_pending_metric (mkTransmissionScheduler (List.tl s.(pending)) s.(metrics)).

Definition fail_front (s : TransmissionScheduler)
  : option (option OutboundEvent * TransmissionScheduler) :=
  front ← head s.(pending);
  let s := mkTransmissionScheduler (List.tl s.(pending)) s.(metrics) in
  let s := update_pending_metric (count_failed s) in
  Some (Some (mkOutboundEvent front.(pending_message_id) Outbound_Failed), s).

(** [if (!repeat_pass) return fail_front(); erase; return nullopt;] *)
Definition abandon_front (s : TransmissionScheduler) (repeat : bool)
  : option (option OutboundEvent * TransmissionScheduler) :=
  if negb repeat then fail_front s else Some (None, erase_front s).

(** [++fragment_index] of the repeat pass, and the end of it. *)
Definition next_repeat_fragment (s : TransmissionScheduler) (p : PendingMessage) (now : Z)
  : TransmissionScheduler :=
  let p := with_fragment_index p (S p.(pending_fragment_index)) in
  if (p.(pending_fragment_index) =? length p.(frames))%nat
  then erase_front (store_front s p)
  else store_front s (with_due p now).

(** After [try_send] returned [WouldBlock] or [Disconnected]. *)
Definition pump_backpressure (s : TransmissionScheduler) (p : PendingMessage) (now : Z)
  : option (option OutboundEvent * TransmissionScheduler) :=
  let s := count_backpressure s in
  offers ← p.(offer_counts) !! p.(pending_fragment_index);
  if 2 <=? offers then
    if negb p.(repeat_pass) then fail_front s
    else Some (None, next_repeat_fragment s p now)
  else
    j ← p.(jitter) !! p.(jitter_index);
    let retry_jitter := scaled_jitter j 100 in
    let p := with_jitter_index p (S p.(jitter_index)) in
    Some (None, store_front s
                  (with_due p (saturating_add now (u64 (100 + retry_jitter))))).

(** After [record_transmit]. *)
Definition pump_accepted (s : TransmissionScheduler) (p : PendingMessage) (now : Z)
  : option (option OutboundEvent * TransmissionScheduler) :=
  let s := count_accepted s in
  let p := with_fragment_index p (S p.(pending_fragment_index)) in
  if (p.(pending_fragment_index) <? length p.(frames))%nat then
    j ← p.(jitter) !! p.(jitter_index);
    let gap := scaled_jitter j 50 in
    let p := with_jitter_index p (S p.(jitter_index)) in
    Some (None, store_front s (with_due p (saturating_add now gap)))
  else if negb p.(repeat_pass) then
    let p := with_fragment_index (with_repeat_pass p) 0 in
    j ← p.(jitter) !! p.(jitter_index);
    let repeat_jitter := scaled_jitter j 250 in
    let p := with_jitter_index p (S p.(jitter_index)) in
    let p := with_due p (saturating_add now (u64 (1000 + repeat_jitter))) in
    Some (Some (mkOutboundEvent p.(pending_message_id) Outbound_Broadcast),
          count_broadcast (store_front s p))
  else Some (None, erase_front s).

Section Scheduler.
Context {W T P : Type} `{IRandomBytes W} `{IDatagramTransport T} `{IRadioPolicy P}.

Definition enqueue (s : TransmissionScheduler) (w : W) (post : PostPayload) (mtu : nat)
    (now : Z) : option (SchedulerError * TransmissionScheduler * W) :=
  if (mtu <? kMinimumTransportMtu)%nat || (kMaximumTransportMtu <? mtu)%nat
  then Some (SchedulerError_InvalidMtu, s, w)
  else if (kMaximumOutboundMessages <=? length s.(pending))%nat
  then Some (SchedulerError_QueueFull, s, w)
  else if existsb (fun p => bool_decide (p.(pending_message_id) = message_id post))
            s.(pending)
  then Some (SchedulerError_DuplicateMessage, s, w)
  else
  match fragment_post post mtu with
  | failure _ => Some (SchedulerError_InvalidPost, s, w)
  | success fragmented =>
      let jitter_count := (2 * length fragmented + 2)%nat in
      match fill w jitter_count with
      | (None, w) => Some (SchedulerError_RandomUnavailable, s, w)
      | (Some jitter, w) =>
          first ← jitter !! 0%nat;
          let initial_due := saturating_add now (scaled_jitter first 250) in
          let offer_counts := replicate (length fragmented) 0 in
          let pending_message :=
            mkPendingMessage (message_id post) mtu fragmented jitter offer_counts 0 1
              initial_due (saturating_add now kOutboundDeadlineTicks) false in
          Some (SchedulerError_None,
                update_pending_metric
                  (mkTransmissionScheduler (s.(pending) ++ [pending_message]) s.(metrics)),
                w)
      end
  end.

(** The part of [pump] after the policy allowed the datagram. *)
Definition pump_send (s : TransmissionScheduler) (p : PendingMessage) (frame : bytes)
    (now : Z) (t : T) (policy : P)
  : option (option OutboundEvent * TransmissionScheduler * T * P) :=
  let s := count_offer s in
  let '(send_status, t) := try_send t frame in
  offers ← p.(offer_counts) !! p.(pending_fragment_index);
  let p := with_offer_counts p
             (<[p.(pending_fragment_index) := u8 (offers + 1)]> p.(offer_counts)) in
  let s := store_front s p in
  match send_status with
  | SendStatus_WouldBlock | SendStatus_Disconnected =>
      '(e, s) ← pump_backpressure s p now; Some (e, s, t, policy)
  | SendStatus_Closed | SendStatus_Invalid =>
      '(e, s) ← abandon_front s p.(repeat_pass); Some (e, s, t, policy)
  | SendStatus_Accepted =>
      let policy := record_transmit policy now (length frame) in
      '(e, s) ← pump_accepted s p now; Some (e, s, t, policy)
  end.

(** The part of [pump] from the policy's decision on. *)
Definition pump_decide (s : TransmissionScheduler) (p : PendingMessage) (frame : bytes)
    (now : Z) (t : T) (policy : P)
  : option (option OutboundEvent * TransmissionScheduler * T * P) :=
  let '(decision, policy) := evaluate_transmit policy now (length frame) in
  match decision.(transmit_status) with
  | TransmitStatus_Deferred =>
      let s := count_deferral s in
      let p := with_due p (if now <? decision.(not_before_tick)
                           then decision.(not_before_tick)
                           else saturating_add now 100) in
      Some (None, store_front s p, t, policy)
  | TransmitStatus_Locked | TransmitStatus_Invalid =>
      '(e, s) ← abandon_front s p.(repeat_pass); Some (e, s, t, policy)
  | TransmitStatus_Allowed => pump_send s p frame now t policy
  end.

Definition pump (s : TransmissionScheduler) (now : Z) (t : T) (policy : P)
  : option (option OutboundEvent * TransmissionScheduler * T * P) :=
  match s.(pending) with
  | [] => Some (None, s, t, policy)
  | p :: _ =>
      if p.(deadline) <=? now then
        '(e, s) ← abandon_front s p.(repeat_pass); Some (e, s, t, policy)
      else if now <? p.(due) then Some (None, s, t, policy)
      else
        frame ← p.(frames) !! p.(pending_fragment_index);
        if negb (maximum_datagram_size t =? p.(pending_mtu))%nat || closed t then
          '(e, s) ← abandon_front s p.(repeat_pass); Some (e, s, t, policy)
        else
          offers ← p.(offer_counts) !! p.(pending_fragment_index);
          if p.(repeat_pass) && (2 <=? offers)
          then Some (None, next_repeat_fragment s p now, t, policy)
          else pump_decide s p frame now t policy
  end.

Definition cancel_all (s : TransmissionScheduler) : TransmissionScheduler :=
  update_pending_metric (mkTransmissionScheduler [] s.(metrics)).

End Scheduler.

(** ** Invariant *)

Definition sum_counts (l : list Z) : Z := foldr Z.add 0 l.

(** A queued message.  The jitter bytes are enough because an index is spent
    only after an offer, and a fragment is offered at most twice. *)
Record pending_inv (p : PendingMessage) : Prop := {
  pi_post : exists post, PostPayload_wf post /\
    message_id post = p.(pending_message_id) /\
    is_supported_mtu p.(pending_mtu) = true /\
    fragment_post post p.(pending_mtu) = success p.(frames);
  pi_jitter : length p.(jitter) = (2 * length p.(frames) + 2)%nat;
  pi_offers_length : length p.(offer_counts) = length p.(frames);
  pi_index : (p.(pending_fragment_index) < length p.(frames))%nat;
  pi_offers : Forall (fun c => 0 <= c <= 2) p.(offer_counts);
  pi_budget : Z.of_nat p.(jitter_index) <= 1 + sum_counts p.(offer_counts);
  pi_primary : p.(repeat_pass) = false ->
    (exists c, p.(offer_counts) !! p.(pending_fragment_index) = Some c /\ c <= 1) /\
    (forall j c, (p.(pending_fragment_index) < j)%nat ->
       p.(offer_counts) !! j = Some c -> c = 0)
}.

(** A message that has not been at the front yet. *)
Definition waiting (p : PendingMessage) : Prop :=
  p.(repeat_pass) = false /\ p.(pending_fragment_index) = 0%nat.

Definition queue_inv (l : list PendingMessage) : Prop :=
  Forall pending_inv l /\ Forall waiting (List.tl l) /\
  NoDup (map pending_message_id l) /\ (length l <= kMaximumOutboundMessages)%nat.

Definition metrics_inv (s : TransmissionScheduler) : Prop :=
  s.(metrics).(pending_messages) = length s.(pending) /\
  (length s.(pending) <= s.(metrics).(high_water_messages)
   <= kMaximumOutboundMessages)%nat.

Definition Scheduler_inv (s : TransmissionScheduler) : Prop :=
  queue_inv s.(pending) /\ metrics_inv s.

(** The fields of a message that never change. *)
Definition same_message (p p' : PendingMessage) : Prop :=
  p'.(pending_message_id) = p.(pending_message_id) /\
  p'.(pending_mtu) = p.(pending_mtu) /\ p'.(frames) = p.(frames) /\
  p'.(deadline) = p.(deadline).

(** What one [pump] does to the front message [p], given the answer [r] of the
    transport ([None] if there was no offer). *)
Inductive progress (p : PendingMessage) (rest : list PendingMessage)
    (r : option DatagramSendStatus)
  : option OutboundEvent -> list PendingMessage -> Prop :=
| progress_keep p' :
    same_message p p' -> p'.(repeat_pass) = p.(repeat_pass) -> pending_inv p' ->
    (p.(repeat_pass) = false ->
     p'.(pending_fragment_index) =
     if bool_decide (r = Some SendStatus_Accepted)
     then S p.(pending_fragment_index) else p.(pending_fragment_index)) ->
    progress p rest r None (p' :: rest)
| progress_broadcast p' :
    same_message p p' -> p.(repeat_pass) = false -> p'.(repeat_pass) = true ->
    pending_inv p' -> r = Some SendStatus_Accepted ->
    S p.(pending_fragment_index) = length p.(frames) ->
    progress p rest r
      (Some (mkOutboundEvent p.(pending_message_id) Outbound_Broadcast)) (p' :: rest)
| progress_fail :
    p.(repeat_pass) = false -> r <> Some SendStatus_Accepted ->
    progress p rest r
      (Some (mkOutboundEvent p.(pending_message_id) Outbound_Failed)) rest
| progress_end :
    p.(repeat_pass) = true ->
    progress p rest r None rest.

(** ** Counting offers *)

Lemma sum_counts_insert l i c :
  l !! i = Some c -> sum_counts (<[i := c + 1]> l) = sum_counts l + 1.
Proof.
  unfold sum_counts. revert i.
  induction l as [|x l IH]; intros [|i] Hi; try done; simpl in *.
  - injection Hi as ->. lia.
  - rewrite IH by done. lia.
Qed.

Lemma sum_counts_le l : Forall (fun c => 0 <= c <= 2) l ->
  0 <= sum_counts l <= 2 * Z.of_nat (length l).
Proof. unfold sum_counts. induction 1; simpl foldr; simpl length; lia. Qed.

Lemma sum_counts_lt l i c :
  Forall (fun c => 0 <= c <= 2) l -> l !! i = Some c -> c <= 1 ->
  sum_counts l + 1 <= 2 * Z.of_nat (length l).
Proof.
  intros Hl. revert i. induction Hl as [|x l Hx Hl IH]; intros [|i] Hi Hc; try done;
    change (sum_counts (x :: l)) with (x + sum_counts l); cbn [length].
  - injection Hi as ->. pose proof (sum_counts_le l Hl). lia.
  - specialize (IH i Hi Hc). lia.
Qed.

Lemma saturating_add_range a b : is_u64 a -> is_u64 b -> is_u64 (saturating_add a b).
Proof.
  unfold saturating_add, is_u64, u64, UINT64_MAX. intros. split_if; reflect_bools; [lia|].
  rewrite Z.mod_small; lia.
Qed.

(** ** The parts of pump *)

Lemma metrics_inv_same (s s' : TransmissionScheduler) :
  metrics_inv s -> length s'.(pending) = length s.(pending) ->
  s'.(metrics).(pending_messages) = s.(metrics).(pending_messages) ->
  s'.(metrics).(high_water_messages) = s.(metrics).(high_water_messages) ->
  metrics_inv s'.
Proof. unfold metrics_inv. intros ? -> -> ->. done. Qed.

Lemma metrics_inv_update s :
  (length s.(pending) <= kMaximumOutboundMessages)%nat ->
  (s.(metrics).(high_water_messages) <= kMaximumOutboundMessages)%nat ->
  metrics_inv (update_pending_metric s).
Proof. unfold metrics_inv. cbn -[kMaximumOutboundMessages]. lia. Qed.

Section FrontLemmas.
Context (s : TransmissionScheduler) (q : PendingMessage) (rest : list PendingMessage).
Context (Hs : s.(pending) = q :: rest) (Hm : metrics_inv s).

(** What is left after the front is erased. *)
Lemma tail_room m :
  m.(high_water_messages) = s.(metrics).(high_water_messages) ->
  metrics_inv (update_pending_metric (mkTransmissionScheduler rest m)).
Proof.
  intros Hh. destruct Hm as [_ Hw]. rewrite Hs in Hw. cbn [length] in Hw.
  apply metrics_inv_update; cbn [pending metrics]; lia.
Qed.

Lemma erase_front_progress p r :
  p.(repeat_pass) = true ->
  progress p rest r None (erase_front s).(pending) /\ metrics_inv (erase_front s).
Proof.
  intros Hp. destruct Hm as [Hm1 Hm2]. unfold erase_front. rewrite Hs in *. cbn in Hm2.
  split; [by apply progress_end|]. apply metrics_inv_update; cbn; lia.
Qed.

Lemma abandon_front_progress p r :
  q.(pending_message_id) = p.(pending_message_id) -> r <> Some SendStatus_Accepted ->
  exists e s', abandon_front s p.(repeat_pass) = Some (e, s') /\
    progress p rest r e s'.(pending) /\ metrics_inv s'.
Proof.
  intros Hid Hr. unfold abandon_front. destruct (repeat_pass p) eqn:Hp; cbn [negb].
  - do 2 eexists. split; [done|]. by apply erase_front_progress.
  - unfold fail_front. rewrite Hs.
    do 2 eexists. split; [reflexivity|]. rewrite Hid. cbn [List.tl].
    split; [by apply progress_fail|by apply tail_room].
Qed.

Lemma store_front_progress p p' r :
  same_message p p' -> p'.(repeat_pass) = p.(repeat_pass) -> pending_inv p' ->
  (p.(repeat_pass) = false ->
     p'.(pending_fragment_index) =
     if bool_decide (r = Some SendStatus_Accepted)
     then S p.(pending_fragment_index) else p.(pending_fragment_index)) ->
  progress p rest r None (store_front s p').(pending) /\ metrics_inv (store_front s p').
Proof.
  intros. split.
  - unfold store_front. rewrite Hs. by apply progress_keep.
  - by apply (metrics_inv_same s); [|cbn; rewrite Hs|..].
Qed.

Lemma next_repeat_fragment_progress p now r :
  pending_inv p -> p.(repeat_pass) = true ->
  progress p rest r None (next_repeat_fragment s p now).(pending) /\
  metrics_inv (next_repeat_fragment s p now).
Proof.
  intros [? ? ? Hidx ? ? ?] Hp. unfold next_repeat_fragment.
  cbn [with_fragment_index pending_fragment_index frames].
  destruct (Nat.eqb_spec (S (pending_fragment_index p)) (length (frames p))).
  - unfold erase_front, store_front. rewrite Hs. split; [by apply progress_end|by apply tail_room].
  - apply store_front_progress; try done; cbn.
    + split; cbn; try done; [lia|]. by rewrite Hp.
    + by rewrite Hp.
Qed.

End FrontLemmas.

(** ** One offer *)

(** The front message after [++offer_counts[fragment_index]]. *)
Definition offered (p : PendingMessage) (c : Z) : PendingMessage :=
  with_offer_counts p (<[p.(pending_fragment_index) := c + 1]> p.(offer_counts)).

Section OfferLemmas.
Context (s : TransmissionScheduler) (q : PendingMessage) (rest : list PendingMessage).
Context (Hs : s.(pending) = q :: rest) (Hm : metrics_inv s).
Context (p : PendingMessage) (c : Z).
Context (Hp : pending_inv p) (Hq : q.(pending_message_id) = p.(pending_message_id)).
Context (Hc : p.(offer_counts) !! p.(pending_fragment_index) = Some c) (Hc1 : c <= 1).

(** An offer can always pay for the jitter byte that follows it. *)
Lemma offered_jitter :
  exists j, p.(jitter) !! p.(jitter_index) = Some j.
Proof.
  destruct Hp as [_ Hj Hl Hi Ho Hb _]. apply lookup_lt_is_Some_2.
  pose proof (sum_counts_lt _ _ _ Ho Hc Hc1). lia.
Qed.

(** The invariant of the message after an offer and a move of its indexes. *)
Lemma offered_inv p' :
  same_message p p' -> p'.(jitter) = p.(jitter) ->
  p'.(offer_counts) = (offered p c).(offer_counts) ->
  (p'.(pending_fragment_index) < length p.(frames))%nat ->
  (p'.(jitter_index) <= S p.(jitter_index))%nat ->
  (p'.(repeat_pass) = false -> p.(repeat_pass) = false /\
     (p'.(pending_fragment_index) = S p.(pending_fragment_index) \/
      p'.(pending_fragment_index) = p.(pending_fragment_index) /\ c = 0)) ->
  pending_inv p'.
Proof.
  destruct Hp as [Hpost Hj Hl Hi Ho Hb Hpri].
  intros (Hid & Hmtu & Hf & Hd) Hj' Ho' Hi' Hji Hpass. cbn in Ho'.
  pose proof (sum_counts_insert _ _ _ Hc) as Hsum.
  split; rewrite ?Hid, ?Hmtu, ?Hf, ?Hj', ?Ho'; try done.
  - by rewrite length_insert.
  - apply Forall_insert; [done|]. rewrite Forall_forall in Ho.
    specialize (Ho c (list_elem_of_lookup_2 _ _ _ Hc)). cbn in Ho. lia.
  - lia.
  - intros Hr. destruct (Hpass Hr) as [Hr0 Hidx]. destruct (Hpri Hr0) as [_ Hzero].
    destruct Hidx as [Hidx|[Hidx ->]]; rewrite Hidx in *.
    + split.
      * destruct (lookup_lt_is_Some_2 (offer_counts p) (S (pending_fragment_index p)))
          as [x Hx]; [lia|]. exists x. rewrite list_lookup_insert_ne by lia.
        split; [done|]. apply Hzero in Hx; lia.
      * intros j x Hjx. rewrite list_lookup_insert_ne by lia. apply Hzero. lia.
    + split.
      * exists 1. rewrite list_lookup_insert_eq by lia. done.
      * intros j x Hjx. rewrite list_lookup_insert_ne by lia. apply Hzero. lia.
Qed.

Lemma count_backpressure_metrics : metrics_inv (count_backpressure s).
Proof. by apply (metrics_inv_same s). Qed.

Lemma count_accepted_metrics : metrics_inv (count_accepted s).
Proof. by apply (metrics_inv_same s). Qed.

Lemma offers_range : 0 <= c.
Proof.
  pose proof (pi_offers p Hp) as Ho. rewrite Forall_forall in Ho.
  specialize (Ho c (list_elem_of_lookup_2 _ _ _ Hc)). cbn in Ho. lia.
Qed.

Lemma pump_backpressure_progress now r :
  r <> Some SendStatus_Accepted ->
  exists e s', pump_backpressure s (offered p c) now = Some (e, s') /\
    progress p rest r e s'.(pending) /\ metrics_inv s'.
Proof.
  intros Hr. unfold pump_backpressure.
  pose proof (pi_index p Hp) as Hidx. pose proof (pi_offers_length p Hp) as Hlen.
  cbn [offered with_offer_counts offer_counts pending_fragment_index jitter jitter_index
    repeat_pass].
  rewrite list_lookup_insert_eq by lia. cbn [mbind option_bind].
  pose proof offers_range as Hc0.
  destruct (Z.leb_spec 2 (c + 1)) as [Hc2|Hc2].
  - destruct (repeat_pass p) eqn:Hrep; cbn [negb].
    + do 2 eexists. split; [reflexivity|].
      unfold next_repeat_fragment.
      cbn [with_fragment_index pending_fragment_index frames with_offer_counts offered].
      destruct (Nat.eqb_spec (S (pending_fragment_index p)) (length (frames p))).
      * unfold erase_front, store_front. cbn [pending metrics count_backpressure].
        rewrite Hs. split; [by apply progress_end|].
        by apply (tail_room s q).
      * split.
        -- unfold store_front. cbn [pending count_backpressure]. rewrite Hs.
           apply progress_keep; try done; cbn; [|by rewrite Hrep].
           apply offered_inv; cbn; try done; try lia. by rewrite Hrep.
        -- by apply (metrics_inv_same s); [|cbn; rewrite Hs|..].
    + pose proof (abandon_front_progress (count_backpressure s) q rest Hs
        count_backpressure_metrics p r Hq Hr) as (e & s' & Hg & ?).
      rewrite Hrep in Hg. cbn [abandon_front negb] in Hg. eauto.
  - assert (c = 0) as Hc' by lia. destruct offered_jitter as [j Hj]. rewrite Hj.
    cbn [mbind option_bind].
    do 2 eexists. split; [reflexivity|]. split.
    + unfold store_front. cbn [pending count_backpressure]. rewrite Hs.
      apply progress_keep; try done; cbn; [|intros; by rewrite bool_decide_eq_false_2].
      apply offered_inv; cbn; try done; lia || auto.
    + by apply (metrics_inv_same s); [|cbn; rewrite Hs|..].
Qed.

Lemma pump_accepted_progress now :
  exists e s', pump_accepted s (offered p c) now = Some (e, s') /\
    progress p rest (Some SendStatus_Accepted) e s'.(pending) /\ metrics_inv s'.
Proof.
  unfold pump_accepted. pose proof (pi_index p Hp) as Hidx.
  destruct offered_jitter as [j Hj].
  cbn [offered with_offer_counts with_fragment_index offer_counts pending_fragment_index
    jitter jitter_index repeat_pass with_repeat_pass frames pending_message_id
    with_jitter_index with_due].
  rewrite Hj. cbn [mbind option_bind].
  destruct (Nat.ltb_spec (S (pending_fragment_index p)) (length (frames p))) as [Hlt|Hge].
  - do 2 eexists. split; [reflexivity|]. split.
    + unfold store_front. cbn [pending count_accepted]. rewrite Hs.
      apply progress_keep; try done; cbn. apply offered_inv; cbn; try done; lia || auto.
    + by apply (metrics_inv_same s); [|cbn; rewrite Hs|..].
  - destruct (repeat_pass p) eqn:Hrep; cbn [negb].
    + do 2 eexists. split; [reflexivity|]. unfold erase_front.
      cbn [pending count_accepted metrics]. rewrite Hs.
      split; [by apply progress_end|]. by apply (tail_room s q).
    + do 2 eexists. split; [reflexivity|]. split.
      * unfold store_front. cbn [pending count_accepted count_broadcast]. rewrite Hs.
        apply progress_broadcast; try done; cbn; [|lia].
        apply offered_inv; cbn; try done; lia.
      * by apply (metrics_inv_same s); [|cbn; rewrite Hs|..].
Qed.

End OfferLemmas.

(** ** A whole pump *)

Section Pump.
Context {T P : Type} `{IDatagramTransport T} `{IRadioPolicy P}.

(** How [pump] used the two ports for the front message [p]: not at all; one
    question the policy answered with a refusal; or one allowed offer of the
    current fragment, recorded exactly if it was accepted. *)
Inductive port_use (p : PendingMessage) (now : Z) (t : T) (policy : P)
  : option DatagramSendStatus -> T -> P -> Prop :=
| use_none : port_use p now t policy None t policy
| use_refused frame decision policy' :
    p.(frames) !! p.(pending_fragment_index) = Some frame ->
    evaluate_transmit policy now (length frame) = (decision, policy') ->
    decision.(transmit_status) <> TransmitStatus_Allowed ->
    port_use p now t policy None t policy'
| use_offered frame decision policy' st t' :
    p.(due) <= now < p.(deadline) ->
    maximum_datagram_size t = p.(pending_mtu) -> closed t = false ->
    p.(frames) !! p.(pending_fragment_index) = Some frame ->
    evaluate_transmit policy now (length frame) = (decision, policy') ->
    decision.(transmit_status) = TransmitStatus_Allowed ->
    try_send t frame = (st, t') ->
    port_use p now t policy (Some st) t'
      (if bool_decide (st = SendStatus_Accepted)
       then record_transmit policy' now (length frame) else policy').

Lemma queue_inv_front p rest : queue_inv (p :: rest) -> pending_inv p.
Proof. intros (Hf & _). by apply Forall_cons in Hf as [? _]. Qed.

(** The queue after the front message has made progress. *)
Lemma progress_queue p rest r e l :
  queue_inv (p :: rest) -> progress p rest r e l -> queue_inv l.
Proof.
  intros ((Hp & Hrest)%Forall_cons & Hw & Hnd & Hlen).
  assert (queue_inv rest) as Hr.
  { cbn [map List.tl length] in Hw, Hnd, Hlen. apply NoDup_cons in Hnd as [_ Hnd].
    split_and!; try done; [|lia]. by destruct Hw. }
  assert (forall p', same_message p p' -> pending_inv p' -> queue_inv (p' :: rest)) as Hkeep.
  { intros p' (Hid & _) Hp'. split_and!; [by constructor|done| |done].
    cbn in *. by rewrite Hid. }
  intros Hprog. destruct Hprog; auto.
Qed.

Lemma pump_send_progress s p rest frame now (t : T) (policy policy' : P) decision :
  s.(pending) = p :: rest -> metrics_inv s -> pending_inv p ->
  (p.(repeat_pass) = true -> exists c,
     p.(offer_counts) !! p.(pending_fragment_index) = Some c /\ c <= 1) ->
  p.(due) <= now < p.(deadline) ->
  maximum_datagram_size t = p.(pending_mtu) -> closed t = false ->
  p.(frames) !! p.(pending_fragment_index) = Some frame ->
  evaluate_transmit policy now (length frame) = (decision, policy') ->
  decision.(transmit_status) = TransmitStatus_Allowed ->
  exists e s' t' policy2 r,
    pump_send s p frame now t policy' = Some (e, s', t', policy2) /\
    port_use p now t policy r t' policy2 /\
    progress p rest r e s'.(pending) /\ metrics_inv s'.
Proof.
  intros Hs Hm Hp Hrep Htime Hmtu Hcl Hf Hev Hal. unfold pump_send.
  destruct (try_send t frame) as [st t'] eqn:Hsend.
  assert (exists c, p.(offer_counts) !! p.(pending_fragment_index) = Some c /\ c <= 1)
    as (c & Hc & Hc1).
  { destruct (repeat_pass p) eqn:E; [by apply Hrep|].
    by destruct (pi_primary p Hp E) as [? _]. }
  rewrite Hc. cbn [mbind option_bind].
  pose proof (offers_range p c Hp Hc) as Hc0.
  assert (u8 (c + 1) = c + 1) as -> by (unfold u8; rewrite Z.mod_small; lia).
  change (with_offer_counts p _) with (offered p c).
  set (s1 := store_front (count_offer s) (offered p c)).
  assert (s1.(pending) = offered p c :: rest) as Hs1.
  { unfold s1, store_front. cbn [pending count_offer]. by rewrite Hs. }
  assert (metrics_inv s1) as Hm1.
  { apply (metrics_inv_same s); try done. cbn. by rewrite length_insert. }
  pose proof (use_offered p now t policy frame decision policy' st t'
    Htime Hmtu Hcl Hf Hev Hal Hsend) as Huse.
  destruct st;
    [edestruct (pump_accepted_progress s1 (offered p c) rest Hs1 Hm1 p c Hp Hc Hc1 now)
       as (e & s' & Hg & Hprog & Hm')
    |edestruct (pump_backpressure_progress s1 (offered p c) rest Hs1 Hm1 p c Hp eq_refl
        Hc Hc1 now (Some SendStatus_WouldBlock)) as (e & s' & Hg & Hprog & Hm'); [done|]
    |edestruct (pump_backpressure_progress s1 (offered p c) rest Hs1 Hm1 p c Hp eq_refl
        Hc Hc1 now (Some SendStatus_Disconnected)) as (e & s' & Hg & Hprog & Hm'); [done|]
    |edestruct (abandon_front_progress s1 (offered p c) rest Hs1 Hm1 p (Some SendStatus_Closed)
        eq_refl) as (e & s' & Hg & Hprog & Hm'); [done|]
    |edestruct (abandon_front_progress s1 (offered p c) rest Hs1 Hm1 p (Some SendStatus_Invalid)
        eq_refl) as (e & s' & Hg & Hprog & Hm'); [done|]];
    change (repeat_pass (offered p c)) with (repeat_pass p); rewrite Hg;
    (do 5 eexists; split_and!; [reflexivity|exact Huse|exact Hprog|exact Hm']).
Qed.

Lemma pump_decide_progress s p rest frame now (t : T) (policy : P) :
  s.(pending) = p :: rest -> metrics_inv s -> pending_inv p ->
  (p.(repeat_pass) = true -> exists c,
     p.(offer_counts) !! p.(pending_fragment_index) = Some c /\ c <= 1) ->
  p.(due) <= now < p.(deadline) ->
  maximum_datagram_size t = p.(pending_mtu) -> closed t = false ->
  p.(frames) !! p.(pending_fragment_index) = Some frame ->
  exists e s' t' policy2 r,
    pump_decide s p frame now t policy = Some (e, s', t', policy2) /\
    port_use p now t policy r t' policy2 /\
    progress p rest r e s'.(pending) /\ metrics_inv s'.
Proof.
  intros Hs Hm Hp Hrep Htime Hmtu Hcl Hf. unfold pump_decide.
  destruct (evaluate_transmit policy now (length frame)) as [decision policy'] eqn:Hev.
  destruct (transmit_status decision) eqn:Hst.
  - by eapply pump_send_progress.
  - do 5 eexists. split_and!; [reflexivity|eapply use_refused; eauto; congruence|..].
    + cbn. rewrite Hs. destruct Hp. by apply progress_keep.
    + apply (metrics_inv_same s); try done. cbn. by rewrite length_insert.
  - destruct (abandon_front_progress s p rest Hs Hm p None eq_refl)
      as (e & s' & -> & Hprog & Hm'); [done|].
    do 5 eexists. split_and!; [reflexivity|eapply use_refused; eauto; congruence|done..].
  - destruct (abandon_front_progress s p rest Hs Hm p None eq_refl)
      as (e & s' & -> & Hprog & Hm'); [done|].
    do 5 eexists. split_and!; [reflexivity|eapply use_refused; eauto; congruence|done..].
Qed.

(** [pump] is defined on every state of the invariant, keeps it, uses the
    ports as [port_use] says and makes [progress]. *)
Lemma pump_progress s now (t : T) (policy : P) :
  Scheduler_inv s ->
  (s.(pending) = [] /\ pump s now t policy = Some (None, s, t, policy)) \/
  exists p rest e s' t' policy' r,
    s.(pending) = p :: rest /\ pump s now t policy = Some (e, s', t', policy') /\
    Scheduler_inv s' /\ port_use p now t policy r t' policy' /\
    progress p rest r e s'.(pending).
Proof.
  intros [Hq Hm]. unfold pump.
  destruct (pending s) as [|p rest] eqn:Hs; [by left|]. right.
  pose proof (queue_inv_front _ _ Hq) as Hp.
  assert (forall e s' t' policy' r,
    pump s now t policy = Some (e, s', t', policy') ->
    port_use p now t policy r t' policy' -> progress p rest r e s'.(pending) ->
    metrics_inv s' -> exists p0 rest0 e0 s0 t0 policy0 r0,
    p :: rest = p0 :: rest0 /\ pump s now t policy = Some (e0, s0, t0, policy0) /\
    Scheduler_inv s0 /\ port_use p0 now t policy r0 t0 policy0 /\
    progress p0 rest0 r0 e0 s0.(pending)) as Hdone.
  { intros e s' t' policy' r Hpump Huse Hprog Hm'.
    exists p, rest, e, s', t', policy', r. split_and!; try done.
    split; [by eapply progress_queue|done]. }
  unfold pump in Hdone. rewrite Hs in Hdone.
  destruct (abandon_front_progress s p rest Hs Hm p None eq_refl)
    as (eg & sg & Hgive & Hgprog & Hgm); [done|]. rewrite Hgive in *.
  destruct (Z.leb_spec (deadline p) now) as [Hdl|Hdl].
  { eapply Hdone; eauto. apply use_none. }
  destruct (Z.ltb_spec now (due p)) as [Hdue|Hdue].
  { eapply Hdone; eauto; [apply use_none|]. rewrite Hs. by apply progress_keep. }
  destruct (lookup_lt_is_Some_2 (frames p) (pending_fragment_index p) (pi_index p Hp))
    as [frame Hf]. rewrite Hf in *. cbn [mbind option_bind] in *.
  destruct (Nat.eqb_spec (maximum_datagram_size t) (pending_mtu p)) as [Hmtu|Hmtu];
    cbn [negb orb] in *; [|eapply Hdone; eauto; apply use_none].
  destruct (closed t) eqn:Hcl; [eapply Hdone; eauto; apply use_none|].
  destruct (lookup_lt_is_Some_2 (offer_counts p) (pending_fragment_index p))
    as [c Hc]; [rewrite (pi_offers_length p Hp); apply (pi_index p Hp)|].
  rewrite Hc in *. cbn [mbind option_bind] in *.
  destruct (repeat_pass p && (2 <=? c)) eqn:Hskip.
  - apply andb_true_iff in Hskip as [Hrep _].
    destruct (next_repeat_fragment_progress s p rest Hs Hm p now None Hp Hrep).
    eapply Hdone; eauto. apply use_none.
  - edestruct (pump_decide_progress s p rest frame now t policy Hs Hm Hp)
      as (e & s' & t' & policy2 & r & Hd & Huse & Hprog & Hm'); try done.
    { intros Hrep. exists c. split; [done|]. rewrite Hrep in Hskip. cbn in Hskip.
      apply Z.leb_gt in Hskip. lia. }
    rewrite Hd in *. eapply Hdone; eauto.
Qed.

End Pump.

(** ** Enqueueing *)

Lemma scaled_jitter_range b m : 0 <= m <= 65535 -> 0 <= scaled_jitter b m <= m.
Proof.
  intros Hm. unfold scaled_jitter, u64. pose proof (bval_range b).
  rewrite (Z.mod_small (m + 1)) by lia. rewrite Z.mod_small by nia.
  split; [apply Z.div_pos; nia|]. apply Z.lt_succ_r. apply Z.div_lt_upper_bound; nia.
Qed.

(** The queued form of a post. *)
Definition pending_of (p : PendingMessage) (post : PostPayload) (mtu : nat) (now : Z)
  : Prop :=
  p.(pending_message_id) = message_id post /\ p.(pending_mtu) = mtu /\
  p.(frames) = canonical_frames_of post mtu /\ waiting p /\
  p.(deadline) = saturating_add now kOutboundDeadlineTicks /\
  exists j, 0 <= j <= 250 /\ p.(due) = saturating_add now j.

Section Enqueue.
Context {W : Type} `{IRandomBytesLaws W}.

Lemma enqueue_cases s (w : W) post mtu now :
  Scheduler_inv s -> PostPayload_wf post ->
  exists err s' w', enqueue s w post mtu now = Some (err, s', w') /\
    Scheduler_inv s' /\
    match err with
    | SchedulerError_None =>
        is_supported_mtu mtu = true /\
        (length s.(pending) < kMaximumOutboundMessages)%nat /\
        (message_id post ∉ map pending_message_id s.(pending)) /\
        exists p, s'.(pending) = s.(pending) ++ [p] /\ pending_of p post mtu now
    | SchedulerError_InvalidMtu => s' = s /\ is_supported_mtu mtu = false
    | SchedulerError_QueueFull =>
        s' = s /\ length s.(pending) = kMaximumOutboundMessages
    | SchedulerError_DuplicateMessage =>
        s' = s /\ (message_id post ∈ map pending_message_id s.(pending))
    | SchedulerError_RandomUnavailable => s' = s /\ exists n, fill w n = (None, w')
    | SchedulerError_InvalidPost => False
    end.
Proof.
  intros Hinv Hwf. pose proof Hinv as [(Hall & Hwait & Hnd & Hlen) [Hm1 Hm2]].
  unfold enqueue.
  assert ((mtu <? kMinimumTransportMtu)%nat || (kMaximumTransportMtu <? mtu)%nat =
          negb (is_supported_mtu mtu)) as ->.
  { unfold is_supported_mtu. by rewrite negb_andb, !Nat.ltb_antisym. }
  destruct (is_supported_mtu mtu) eqn:Hmtu; cbn [negb].
  2:{ do 3 eexists. split; [reflexivity|]. split_and!; done. }
  destruct (Nat.leb_spec kMaximumOutboundMessages (length (pending s))) as [Hfull|Hroom].
  { do 3 eexists. split; [reflexivity|]. split_and!; try done. lia. }
  destruct (existsb _ (pending s)) eqn:Hdup.
  { do 3 eexists. split; [reflexivity|]. split_and!; try done.
    apply existsb_Exists, Exists_exists in Hdup as (p & Hp & Hid). reflect_bools.
    rewrite <- Hid. apply list_elem_of_fmap. eauto. }
  rewrite fragment_post_success by done.
  set (fs := canonical_frames_of post mtu).
  assert (1 <= length fs)%nat as Hfs.
  { unfold fs, canonical_frames_of. rewrite length_map, length_seq.
    destruct (fragments_of_bounds post mtu Hwf Hmtu) as [? _]. lia. }
  destruct (fill w (2 * length fs + 2)) as [[jit|] w1] eqn:Hfill.
  2:{ do 3 eexists. split; [reflexivity|]. split_and!; [done|done|by eexists]. }
  pose proof (fill_length _ _ _ _ Hfill) as Hjl.
  destruct jit as [|j jit]; [cbn in Hjl; lia|]. cbn [lookup list_lookup mbind option_bind].
  assert (message_id post ∉ map pending_message_id (pending s)) as Hnew.
  { rewrite list_elem_of_fmap. intros (p & Hid & Hp).
    apply existsb_false_Forall in Hdup. rewrite Forall_forall in Hdup.
    specialize (Hdup p Hp). by reflect_bools. }
  do 3 eexists. split; [reflexivity|].
  set (p := mkPendingMessage _ _ _ _ _ _ _ _ _ _).
  assert (pending_inv p) as Hp.
  { split; cbn [p pending_message_id pending_mtu frames jitter offer_counts
                 pending_fragment_index jitter_index repeat_pass].
    - exists post. split_and!; [done..|]. by apply fragment_post_success.
    - done.
    - apply length_replicate.
    - lia.
    - apply Forall_replicate. lia.
    - assert (0 <= sum_counts (replicate (length fs) 0)) by (apply sum_counts_le;
        apply Forall_replicate; lia). lia.
    - intros _. split.
      + exists 0. split; [apply lookup_replicate; lia|lia].
      + intros i c _ Hi. by apply lookup_replicate in Hi as [-> _]. }
  split; [|split_and!; [done|lia|done|]].
  - split.
    + cbn [pending update_pending_metric]. split_and!.
      * apply Forall_app. by split; [|constructor].
      * destruct (pending s); [constructor|]. cbn [app List.tl] in *.
        apply Forall_app. split; [done|]. by constructor.
      * rewrite map_app. apply NoDup_app. split_and!; [done| |apply NoDup_singleton].
        intros x Hx [->|Hnil]%elem_of_cons; [done|by apply elem_of_nil in Hnil].
      * rewrite length_app. cbn [length]. lia.
    + unfold metrics_inv. cbn [update_pending_metric pending metrics pending_messages
        high_water_messages]. rewrite length_app. cbn [length]. lia.
  - exists p. split; [done|]. split_and!; try done.
    exists (scaled_jitter j 250). split; [by apply scaled_jitter_range|done].
Qed.

End Enqueue.

Lemma cancel_all_inv s : Scheduler_inv s -> Scheduler_inv (cancel_all s).
Proof.
  intros [_ [_ Hm]]. split; [split_and!; try constructor; cbn; lia|].
  unfold metrics_inv. cbn [cancel_all update_pending_metric pending metrics
    pending_messages high_water_messages length]. lia.
Qed.

Lemma TransmissionScheduler_make_inv : Scheduler_inv TransmissionScheduler_make.
Proof. repeat split; try constructor; cbn; lia. Qed.

(** ** Runs of the scheduler *)

(** A transport together with the datagrams it has accepted, oldest first. *)
Definition Logged (T : Type) : Type := T * list bytes.

#[global] Instance Logged_transport T `{IDatagramTransport T}
  : IDatagramTransport (Logged T) := {
  maximum_datagram_size x := maximum_datagram_size (fst x);
  try_send x d :=
    let '(st, t) := try_send (fst x) d in
    (st, (t, if bool_decide (st = SendStatus_Accepted) then snd x ++ [d] else snd x));
  try_receive x n := let '(r, t) := try_receive (fst x) n in (r, (t, snd x));
  connected x := connected (fst x);
  closed x := closed (fst x);
  close x := (close (fst x), snd x)
}.

#[global] Instance Logged_link T `{IFixedLink T} : IFixedLink (Logged T).
Proof.
  split.
  - intros [t log] d st t'. cbn. destruct (try_send t d) as [st1 t1] eqn:E. intros [= _ <-].
    exact (link_send t d st1 t1 E).
  - intros [t log] n r t'. cbn. destruct (try_receive t n) as [r1 t1] eqn:E. intros [= _ <-].
    exact (link_receive t n r1 t1 E).
  - intros [t log]. exact (link_close t).
Qed.

Section Station.
Context {W T P : Type} `{IRandomBytesLaws W} `{IDatagramTransport T} `{IRadioPolicy P}.

(** The scheduler with its ports, the identifiers of the posts it has taken
    ([taken]), of those cancelled before their outcome ([cancelled]), and the
    events it has reported. *)
Record Station := mkStation {
  scheduler : TransmissionScheduler;
  randomness : W;
  transport : Logged T;
  policy : P;
  taken : list MessageId;
  cancelled : list MessageId;
  events : list OutboundEvent
}.

(** The messages that still owe an event. *)
Definition outstanding (s : TransmissionScheduler) : list MessageId :=
  map pending_message_id (List.filter (fun p => negb p.(repeat_pass)) s.(pending)).

Inductive Station_step : Station -> Station -> Prop :=
| station_enqueue s w t p tk cl ev post mtu now err s' w' :
    PostPayload_wf post ->
    enqueue s w post mtu now = Some (err, s', w') ->
    Station_step (mkStation s w t p tk cl ev)
      (mkStation s' w' t p
         (match err with
          | SchedulerError_None => tk ++ [message_id post]
          | _ => tk
          end) cl ev)
| station_pump s w t p tk cl ev now e s' t' p' :
    pump s now t p = Some (e, s', t', p') ->
    Station_step (mkStation s w t p tk cl ev)
      (mkStation s' w t' p' tk cl (ev ++ option_list e))
| station_cancel s w t p tk cl ev :
    Station_step (mkStation s w t p tk cl ev)
      (mkStation (cancel_all s) w t p tk (cl ++ outstanding s) ev)
| station_ports s w t log p tk cl ev w' t' p' :
    (* the transport, the policy and the random source live on between calls *)
    Station_step (mkStation s w (t, log) p tk cl ev)
      (mkStation s w' (t', log) p' tk cl ev).

Definition Station_start (x : Station) : Prop :=
  x.(scheduler) = TransmissionScheduler_make /\
  x.(taken) = [] /\ x.(cancelled) = [] /\ x.(events) = [].

(** The front message's accepted fragments are the last datagrams accepted. *)
Definition front_sent (s : TransmissionScheduler) (log : list bytes) : Prop :=
  match s.(pending) with
  | [] => True
  | p :: _ =>
      p.(repeat_pass) = false ->
      exists pre, log = pre ++ take p.(pending_fragment_index) p.(frames)
  end.

Definition Station_inv (x : Station) : Prop :=
  Scheduler_inv x.(scheduler) /\
  front_sent x.(scheduler) (snd x.(transport)) /\
  x.(taken) ≡ₚ map event_message_id x.(events) ++ x.(cancelled) ++
               outstanding x.(scheduler).

Lemma waiting_front_sent p rest s log :
  s.(pending) = p :: rest -> waiting p -> front_sent s log.
Proof.
  unfold front_sent. intros -> [_ ->] _. exists log. by rewrite take_0, app_nil_r.
Qed.

Lemma rest_front_sent rest s log :
  s.(pending) = rest -> Forall waiting rest -> front_sent s log.
Proof.
  intros Hs Hw. destruct rest as [|p rest]; [by unfold front_sent; rewrite Hs|].
  apply Forall_cons in Hw as [Hp _]. by eapply waiting_front_sent.
Qed.

(** What the log gains in one pump. *)
Lemma port_use_log p now (t : Logged T) (pol : P) r t' pol' :
  port_use p now t pol r t' pol' ->
  exists frame, (r = Some SendStatus_Accepted ->
                 p.(frames) !! p.(pending_fragment_index) = Some frame) /\
    snd t' = (if bool_decide (r = Some SendStatus_Accepted)
              then snd t ++ [frame] else snd t).
Proof.
  intros [|frame decision policy' _ _ _|frame decision policy' st t0 _ _ _ Hf _ _ Hsend].
  - by exists [].
  - by exists [].
  - exists frame. split; [done|]. cbn in Hsend. destruct (try_send (fst t) frame) as [st1 t1].
    injection Hsend as <- <-. cbn [snd].
    destruct (decide (st1 = SendStatus_Accepted)) as [->|Hne].
    + by rewrite !bool_decide_eq_true_2 by done.
    + by rewrite !bool_decide_eq_false_2 by congruence.
Qed.

(** The log after the front message has made progress. *)
Lemma progress_front_sent s p rest r e s' now (t t' : Logged T) (pol pol' : P) :
  s.(pending) = p :: rest -> Forall waiting rest -> front_sent s (snd t) ->
  port_use p now t pol r t' pol' -> progress p rest r e s'.(pending) ->
  front_sent s' (snd t') /\
  (e = Some (mkOutboundEvent p.(pending_message_id) Outbound_Broadcast) ->
   exists pre, snd t' = pre ++ p.(frames)).
Proof.
  intros Hs Hw Hsent Huse Hprog.
  apply port_use_log in Huse as (frame & Hframe & Hlog).
  unfold front_sent in Hsent. rewrite Hs in Hsent.
  remember (pending s') as l eqn:Hl. destruct Hprog as
    [p' (_ & _ & Hf & _) Hrep _ Hidx|p' _ Hrep Hrep' _ -> Hlast|Hrep _|Hrep].
  - split; [|done]. unfold front_sent. rewrite <- Hl. intros Hr. rewrite Hrep in Hr.
    destruct (Hsent Hr) as [pre Hpre]. rewrite (Hidx Hr), Hf, Hlog, Hpre.
    destruct (bool_decide _) eqn:Hb; reflect_bools; [|by exists pre].
    exists pre. by rewrite (take_S_r _ _ frame (Hframe Hb)), app_assoc.
  - split; [unfold front_sent; rewrite <- Hl, Hrep'; done|]. intros _.
    destruct (Hsent Hrep) as [pre Hpre]. exists pre.
    rewrite Hlog, Hpre. rewrite bool_decide_eq_true_2 by done.
    rewrite <- app_assoc, <- (take_S_r _ _ frame (Hframe eq_refl)), Hlast.
    by rewrite firstn_all.
  - split; [by eapply rest_front_sent|done].
  - split; [by eapply rest_front_sent|done].
Qed.

Lemma progress_outstanding s p rest r e s' :
  s.(pending) = p :: rest -> progress p rest r e s'.(pending) ->
  outstanding s = map event_message_id (option_list e) ++ outstanding s'.
Proof.
  intros Hs Hprog. unfold outstanding. rewrite Hs.
  remember (pending s') as l eqn:Hl. destruct Hprog as
    [p' (Hid & _) Hrep _ _|p' _ Hrep Hrep' _ _ _|Hrep _|Hrep]; cbn.
  - rewrite Hrep. by destruct (repeat_pass p); cbn; rewrite ?Hid.
  - by rewrite Hrep, Hrep'.
  - by rewrite Hrep.
  - by rewrite Hrep.
Qed.

Lemma Station_step_inv x y : Station_inv x -> Station_step x y -> Station_inv y.
Proof.
  intros (Hinv & Hsent & Hperm) Hxy.
  destruct Hxy as [s w t p tk cl ev post mtu now err s' w' Hwf He
    |s w t p tk cl ev now e s' t' p' Hp|s w t p tk cl ev|s w t log p tk cl ev w' t' p'];
    cbn [scheduler transport taken events cancelled] in *.
  - edestruct (enqueue_cases s w post mtu now Hinv Hwf)
      as (err0 & s0 & w0 & He0 & Hinv' & Hcase). rewrite He in He0.
    injection He0 as <- <- <-.
    destruct err; try (destruct Hcase as [-> _]; by split_and!); [|done].
    destruct Hcase as (_ & _ & _ & q & Hq & Hqid & _ & _ & Hqw & _).
    split; [done|]. cbn [scheduler transport taken events cancelled]. split.
    + unfold front_sent in *. rewrite Hq. destruct (pending s) as [|p0 l]; [|done].
      cbn [app]. intros _. exists (snd t). destruct Hqw as [_ ->].
      by rewrite take_0, app_nil_r.
    + unfold outstanding in *. rewrite Hq, List.filter_app, map_app.
      cbn [List.filter map]. destruct Hqw as [-> _]. cbn [negb map].
      rewrite Hqid, Hperm. by rewrite <- !app_assoc.
  - destruct (pump_progress s now t p Hinv) as
      [(Hs & Hp0)|(q & rest & e0 & s0 & t0 & p0 & r & Hs & Hp0 & Hinv' & Huse & Hprog)];
      rewrite Hp in Hp0; injection Hp0 as -> -> -> ->.
    + cbn [option_list]. by rewrite app_nil_r.
    + pose proof Hinv as [(_ & Hw & _) _]. rewrite Hs in Hw. cbn [List.tl] in Hw.
      split; [done|]. cbn [scheduler transport taken events cancelled].
      split; [by eapply progress_front_sent|].
      rewrite Hperm, map_app, (progress_outstanding _ _ _ _ _ _ Hs Hprog).
      rewrite <- !app_assoc. apply Permutation_app_head.
      rewrite !app_assoc. apply Permutation_app_tail, Permutation_app_comm.
  - split; [by apply cancel_all_inv|]. cbn [scheduler transport taken events cancelled].
    split; [done|]. rewrite Hperm, <- app_assoc. cbn. by rewrite app_nil_r.
  - by split_and!.
Qed.

(** A broadcast event, from the invariant of the scheduler and the log alone. *)
Lemma pump_broadcast_sent s now (t : Logged T) (pol : P) m s' t' pol' :
  Scheduler_inv s -> front_sent s (snd t) ->
  pump s now t pol = Some (Some (mkOutboundEvent m Outbound_Broadcast), s', t', pol') ->
  exists post mtu fs pre,
    PostPayload_wf post /\ message_id post = m /\
    fragment_post post mtu = success fs /\ snd t' = pre ++ fs.
Proof.
  intros Hinv Hsent Hpump. pose proof Hinv as [(Hall & Hw & _) _].
  destruct (pump_progress s now t pol Hinv) as
    [(Hs & Hp0)|(q & rest & e0 & s0 & t0 & p0 & r & Hs & Hp0 & Hinv' & Huse & Hprog)];
    rewrite Hpump in Hp0; injection Hp0 as Hev; [done|].
  subst. rewrite Hs in Hall, Hw. apply Forall_cons in Hall as [Hq _].
  destruct (pi_post q Hq) as (post & Hwf & Hid & _ & Hfrag).
  assert (m = q.(pending_message_id)) as -> by (by inversion Hprog).
  destruct (progress_front_sent _ _ _ _ _ _ _ _ _ _ _ Hs Hw Hsent Huse Hprog) as [_ Hb].
  destruct (Hb eq_refl) as [pre Hpre]. by exists post, q.(pending_mtu), q.(frames), pre.
Qed.

Lemma Station_start_inv x : Station_start x -> Station_inv x.
Proof.
  destruct x. intros (Hs & Ht & Hc & He). cbn in *. subst.
  split; [apply TransmissionScheduler_make_inv|]. by split.
Qed.

Lemma Station_reachable_inv x y :
  Station_start x -> rtc Station_step x y -> Station_inv y.
Proof.
  intros Hx Hxy. eapply (rtc_invariant _ Station_inv Station_step_inv); [exact Hxy|].
  by apply Station_start_inv.
Qed.

End Station.

(** ** What a pump owes *)

Section Account.
Context {T P : Type} `{IDatagramTransport T} `{IRadioPolicy P}.

(** One pump: the log only grows; a message that still owes its event was there
    before and is not the one an event is about; a broadcast event is about a
    message whose fragments are the last of the log. *)
Lemma pump_account s now (t : Logged T) (pol : P) e s' t' pol' :
  Scheduler_inv s -> front_sent s (snd t) -> pump s now t pol = Some (e, s', t', pol') ->
  (exists new, snd t' = snd t ++ new) /\
  (forall q', q' ∈ s'.(pending) -> q'.(repeat_pass) = false ->
   exists q, q ∈ s.(pending) /\ q.(repeat_pass) = false /\ same_message q q' /\
     (forall ev, e = Some ev -> ev.(event_message_id) <> q.(pending_message_id))) /\
  (forall m, e = Some (mkOutboundEvent m Outbound_Broadcast) ->
   is_supported_mtu (maximum_datagram_size t) = true /\
   exists q pre, q ∈ s.(pending) /\ q.(repeat_pass) = false /\ q.(pending_message_id) = m /\
     snd t' = pre ++ q.(frames)).
Proof.
  intros Hinv Hsent Hpump. pose proof Hinv as [(Hall & Hw & Hnd & _) _].
  destruct (pump_progress s now t pol Hinv) as
    [(Hs & Hp0)|(p & rest & e0 & s0 & t0 & p0 & r & Hs & Hp0 & Hinv' & Huse & Hprog)];
    rewrite Hpump in Hp0; injection Hp0 as -> -> -> ->.
  { split; [exists []; by rewrite app_nil_r|]. split; [|done].
    intros q Hq _. rewrite Hs in Hq. by apply elem_of_nil in Hq. }
  rewrite Hs in Hw, Hnd, Hall. apply Forall_cons in Hall as [Hp _]. cbn [List.tl map] in Hw, Hnd. apply NoDup_cons in Hnd as [Hnew _].
  destruct (progress_front_sent _ _ _ _ _ _ _ _ _ _ _ Hs Hw Hsent Huse Hprog) as [_ Hlast].
  assert (r = Some SendStatus_Accepted -> is_supported_mtu (maximum_datagram_size t) = true) as Hmtu.
  { destruct (pi_post p Hp) as (_ & _ & _ & Hm & _). intros ->. inversion Huse; congruence. }
  split.
  { apply port_use_log in Huse as (frame & _ & ->). destruct (bool_decide _);
      [by eexists|exists []; by rewrite app_nil_r]. }
  rewrite Hs. split.
  - assert (forall q' ev, q' ∈ rest -> q'.(repeat_pass) = false ->
      (forall ev', ev = Some ev' -> event_message_id ev' = p.(pending_message_id)) ->
      exists q, q ∈ p :: rest /\ q.(repeat_pass) = false /\ same_message q q' /\
        (forall ev', ev = Some ev' -> event_message_id ev' <> q.(pending_message_id))) as Hrest.
    { intros q' ev Hq Hr Hev. exists q'. split; [by right|]. split; [done|]. split; [done|].
      intros ev' E. rewrite (Hev ev' E). intros E'. apply Hnew. rewrite E'.
      apply list_elem_of_fmap. by exists q'. }
    intros q' Hq Hr. remember (pending s0) as l eqn:Hl. destruct Hprog as
      [p' Hsame Hrep _ _|p' Hsame _ Hrep' _ _ _|Hrep _|Hrep].
    + apply elem_of_cons in Hq as [->|Hq]; [|by apply Hrest].
      exists p. split; [by left|]. split; [congruence|by split].
    + apply elem_of_cons in Hq as [->|Hq]; [congruence|]. apply Hrest; [done..|]. by intros ? [= <-].
    + apply Hrest; [done..|]. by intros ? [= <-].
    + by apply Hrest.
  - intros m ->. assert (m = p.(pending_message_id) /\ p.(repeat_pass) = false /\
      r = Some SendStatus_Accepted) as (-> & Hr & Hacc) by (by inversion Hprog).
    split; [by apply Hmtu|]. destruct (Hlast eq_refl) as [pre Hpre]. exists p, pre. split; [by left|done].
Qed.

Lemma pump_link `{!IFixedLink T} s now (t : T) (pol : P) e s' t' pol' :
  Scheduler_inv s -> pump s now t pol = Some (e, s', t', pol') -> keeps_link t t'.
Proof.
  intros Hinv Hpump. destruct (pump_progress s now t pol Hinv) as
    [(_ & Hp0)|(p & rest & e0 & s0 & t0 & p0 & r & _ & Hp0 & _ & Huse & _)];
    rewrite Hpump in Hp0; injection Hp0 as -> -> -> ->; [by left|].
  destruct Huse; [by left..|by eapply link_send].
Qed.
End Account.

(** A post refused for want of random bytes is not in the queue. *)
Lemma enqueue_unavailable {W} `{IRandomBytes W} s (w : W) post mtu now s' w' :
  enqueue s w post mtu now = Some (SchedulerError_RandomUnavailable, s', w') ->
  message_id post ∉ map pending_message_id s.(pending).
Proof.
  unfold enqueue. repeat split_if; try done.
  intros _. rewrite list_elem_of_fmap. intros (p & Hid & Hp).
  match goal with E : existsb _ _ = false |- _ =>
    apply existsb_false_Forall in E; rewrite Forall_forall in E; specialize (E p Hp) end.
  by reflect_bools.
Qed.

(** ** Draining at the deadline *)

Section Drain.
Context {T P : Type} `{IDatagramTransport T} `{IRadioPolicy P}.

Fixpoint pump_times (n : nat) (s : TransmissionScheduler) (now : Z) (t : T) (policy : P)
  : option (list OutboundEvent * TransmissionScheduler * T * P) :=
  match n with
  | O => Some ([], s, t, policy)
  | S n =>
      '(e, s, t, policy) ← pump s now t policy;
      '(es, s, t, policy) ← pump_times n s now t policy;
      Some (option_list e ++ es, s, t, policy)
  end.

Lemma pump_deadline p rest m now (t : T) (policy : P) :
  p.(deadline) <= now ->
  pump (mkTransmissionScheduler (p :: rest) m) now t policy =
  Some (if p.(repeat_pass) then None
        else Some (mkOutboundEvent p.(pending_message_id) Outbound_Failed),
        if p.(repeat_pass) then erase_front (mkTransmissionScheduler (p :: rest) m)
        else update_pending_metric (count_failed (mkTransmissionScheduler rest m)),
        t, policy).
Proof.
  intros Hd. unfold pump. cbn [pending]. rewrite (proj2 (Z.leb_le _ _)) by done.
  unfold abandon_front, fail_front. by destruct (repeat_pass p).
Qed.

Lemma pump_times_deadline l m now (t : T) (policy : P) :
  Forall (fun p => p.(deadline) <= now) l ->
  exists m',
    pump_times (length l) (mkTransmissionScheduler l m) now t policy =
    Some (map (fun i => mkOutboundEvent i Outbound_Failed)
            (outstanding (mkTransmissionScheduler l m)),
          mkTransmissionScheduler [] m', t, policy).
Proof.
  intros Hl. revert m. induction Hl as [|p l Hp Hl IH]; intros m; [by exists m|].
  cbn [length pump_times]. rewrite pump_deadline by done. cbn [mbind option_bind].
  unfold outstanding. cbn [pending List.filter].
  destruct (repeat_pass p); cbn [negb].
  - unfold erase_front, update_pending_metric. cbn [pending List.tl metrics].
    edestruct IH as [m' ->]. by exists m'.
  - unfold count_failed, update_pending_metric. cbn [pending List.tl metrics].
    edestruct IH as [m' ->]. by exists m'.
Qed.

End Drain.

(** ** Concrete ports *)

(** A random source of zeros. *)
#[global] Instance Zeros_random : IRandomBytes unit := {
  fill w n := (Some (replicate n x00), w)
}.

#[global] Instance Zeros_random_laws : IRandomBytesLaws unit.
Proof. split. intros w n bs w' [= <- _]. apply length_replicate. Qed.

(** A transport of MTU 64 that answers from a list, then accepts. *)
#[global] Instance Answers_transport : IDatagramTransport (list DatagramSendStatus) := {
  maximum_datagram_size _ := 64%nat;
  try_send l _ := (hd SendStatus_Accepted l, List.tl l);
  try_receive l _ := (mkDatagramReceiveResult ReceiveStatus_WouldBlock [], l);
  connected _ := true;
  closed _ := false;
  close l := l
}.

(** A policy that allows everything. *)
#[global] Instance Permissive_policy : IRadioPolicy unit := {
  evaluate_transmit p _ _ := (mkRadioTransmitDecision TransmitStatus_Allowed 0, p);
  record_transmit p _ _ := p
}.

Definition Bench : Type := Station (W := unit) (T := list DatagramSendStatus) (P := unit).

Definition bench_start : Bench :=
  mkStation TransmissionScheduler_make tt ([SendStatus_WouldBlock], []) tt [] [] [].

(** The scheduler after the golden post was enqueued at tick 0. *)
Definition bench_queued : option (SchedulerError * TransmissionScheduler * unit) :=
  enqueue TransmissionScheduler_make tt golden_post 64 0.

(** A state after an operation that is defined. *)
Definition bench_at (s : TransmissionScheduler) (t : Logged (list DatagramSendStatus))
    (tk : list MessageId) (ev : list OutboundEvent) : Bench :=
  mkStation s tt t tt tk [] ev.

(** Enqueue the golden post, then pump at the given ticks. *)
Definition bench_pumps (ticks : list Z) : option Bench :=
  '(_, s, _) ← bench_queued;
  '(s, t, ev) ← foldl (fun x now =>
      '(s, t, ev) ← x;
      '(e, s, t, _) ← pump s now t tt;
      Some (s, t, ev ++ option_list e))
    (Some (s, bench_start.(transport), [])) ticks;
  Some (bench_at s t [message_id golden_post] ev).

Lemma bench_pumps_reachable ticks y : bench_pumps ticks = Some y -> rtc Station_step bench_start y.
Proof.
  unfold bench_pumps. destruct bench_queued as [[[err s0] []]|] eqn:Hq; [|done].
  cbn [mbind option_bind].
  assert (err = SchedulerError_None) as ->.
  { change err with (fst (fst (err, s0, tt))).
    replace (err, s0, tt) with (default (SchedulerError_QueueFull, s0, tt) bench_queued)
      by (by rewrite Hq).
    vm_compute. reflexivity. }
  set (step := fun (x : option (TransmissionScheduler * Logged (list DatagramSendStatus) *
                                list OutboundEvent)) now =>
      '(s, t, ev) ← x; '(e, s, t, _) ← pump s now t tt; Some (s, t, ev ++ option_list e)).
  assert (forall l x s t ev, rtc Station_step bench_start
             (bench_at s t [message_id golden_post] ev) -> x = Some (s, t, ev) ->
           forall s' t' ev', foldl step x l = Some (s', t', ev') ->
           rtc Station_step bench_start (bench_at s' t' [message_id golden_post] ev')) as Hfold.
  { induction l as [|now l IH]; intros x s t ev Hr -> s' t' ev'; cbn [foldl].
    { by intros [= <- <- <-]. }
    cbn [step mbind option_bind].
    destruct (pump s now t tt) as [[[[e s1] t1] []]|] eqn:Hp; cbn [mbind option_bind].
    - apply (IH _ s1 t1 (ev ++ option_list e)); [|done].
      eapply rtc_r; [exact Hr|]. by apply (station_pump _ _ _ tt _ _ _ now).
    - intros Hn. exfalso. clear -Hn. by induction l. }
  destruct (foldl step _ ticks) as [[[s t] ev]|] eqn:Hf; [|done].
  cbn [mbind option_bind]. intros [= <-].
  eapply Hfold; [|reflexivity|exact Hf].
  eapply rtc_l; [|apply rtc_refl].
  change [message_id golden_post] with ([] ++ [message_id golden_post]).
  eapply (station_enqueue _ _ _ _ _ _ _ golden_post 64 0 SchedulerError_None);
    [apply golden_post_wf|exact Hq].
Qed.

Lemma bench_start_ok : Station_start bench_start.
Proof. by split_and!. Qed.

(** ** Property theorems *)

(** [Broadcast] means what the header promises.  Whenever [pump] reports
    [Broadcast] for a message, in any run of enqueues, pumps, cancellations and
    port changes, the last datagrams the transport has accepted are exactly the
    fragments, in order, of a well-formed post with that message identifier. *)
Theorem broadcast_means_accepted {W T P} `{IRandomBytesLaws W} `{IDatagramTransport T}
    `{IRadioPolicy P} (x y : Station (W := W) (T := T) (P := P)) now m s' t' policy' :
  Station_start x -> rtc Station_step x y ->
  pump y.(scheduler) now y.(transport) y.(policy) =
    Some (Some (mkOutboundEvent m Outbound_Broadcast), s', t', policy') ->
  exists post mtu fs pre,
    PostPayload_wf post /\ message_id post = m /\
    fragment_post post mtu = success fs /\ snd t' = pre ++ fs.
Proof.
  intros Hx Hxy. destruct (Station_reachable_inv x y Hx Hxy) as (Hinv & Hsent & _).
  by apply pump_broadcast_sent.
Qed.

(** The first offer is refused; the two fragments of the golden post are then
    accepted at ticks 100 and 200. *)
Lemma broadcast_means_accepted_witness :
  exists y s' t' policy', bench_pumps [0; 100] = Some y /\
    pump y.(scheduler) 200 y.(transport) y.(policy) =
      Some (Some (mkOutboundEvent (message_id golden_post) Outbound_Broadcast),
            s', t', policy') /\
    exists post mtu fs pre,
      PostPayload_wf post /\ message_id post = message_id golden_post /\
      fragment_post post mtu = success fs /\ snd t' = pre ++ fs.
Proof.
  destruct (bench_pumps [0; 100]) as [y|] eqn:Hy; [|exfalso; vm_compute in Hy; discriminate].
  assert (option_map (fun r => fst (fst (fst r)))
            (y ← bench_pumps [0; 100]; pump y.(scheduler) 200 y.(transport) y.(policy)) =
          Some (Some (mkOutboundEvent (message_id golden_post) Outbound_Broadcast))) as Hc
    by (vm_compute; reflexivity).
  rewrite Hy in Hc. cbn [mbind option_bind] in Hc.
  destruct (pump y.(scheduler) 200 y.(transport) y.(policy)) as [[[[e s'] t'] policy']|] eqn:Hp;
    [|discriminate].
  cbn in Hc. injection Hc as ->.
  exists y, s', t', policy'. split; [reflexivity|]. split; [exact Hp|].
  exact (broadcast_means_accepted bench_start y 200 _ s' t' policy' bench_start_ok
           (bench_pumps_reachable _ y Hy) Hp).
Defined.


(** [pump] is defined in every reachable state: no index into the frames,
    the offer counts or the jitter bytes is ever out of range.  The queue holds
    at most sixteen messages with different identifiers and the metrics agree
    with it; [pump] makes at most one offer, only of the current fragment, only
    between the due tick and the deadline and after the policy allowed that
    size, and records airtime exactly if the transport accepted. *)
Theorem pump_defined {W T P} `{IRandomBytesLaws W} `{IDatagramTransport T}
    `{IRadioPolicy P} (x y : Station (W := W) (T := T) (P := P)) now :
  Station_start x -> rtc Station_step x y ->
  Scheduler_inv y.(scheduler) /\
  exists e s' t' policy',
    pump y.(scheduler) now y.(transport) y.(policy) = Some (e, s', t', policy') /\
    Scheduler_inv s' /\
    match y.(scheduler).(pending) with
    | [] => s' = y.(scheduler) /\ t' = y.(transport) /\ policy' = y.(policy)
    | p :: rest => exists r, port_use p now y.(transport) y.(policy) r t' policy' /\
        progress p rest r e s'.(pending)
    end.
Proof.
  intros Hx Hxy. destruct (Station_reachable_inv x y Hx Hxy) as (Hinv & _). split; [done|].
  destruct (pump_progress y.(scheduler) now y.(transport) y.(policy) Hinv) as
    [(Hs & ->)|(q & rest & e & s' & t' & p' & r & Hs & -> & Hinv' & Huse & Hprog)];
    do 4 eexists; (split; [reflexivity|]); rewrite Hs; [done|]. split; [done|]. by exists r.
Qed.

Lemma pump_defined_witness :
  exists y, bench_pumps [0] = Some y /\ Scheduler_inv y.(scheduler) /\
  exists e s' t' policy',
    pump y.(scheduler) 100 y.(transport) y.(policy) = Some (e, s', t', policy') /\
    Scheduler_inv s'.
Proof.
  destruct (bench_pumps [0]) as [y|] eqn:Hy; [|exfalso; vm_compute in Hy; discriminate].
  exists y. split; [reflexivity|].
  destruct (pump_defined bench_start y 100 bench_start_ok (bench_pumps_reachable _ y Hy))
    as (Hinv & e & s' & t' & p' & Hp & Hs' & _).
  split; [exact Hinv|]. exists e, s', t', p'. by split.
Defined.


(** One outcome per post.  In every reachable state the posts taken by
    [enqueue] are, with multiplicity, those whose single terminal event has
    been reported, those cancelled before it, and those still in their first
    pass: no post is reported twice, none is lost. *)
Theorem one_event_per_post {W T P} `{IRandomBytesLaws W} `{IDatagramTransport T}
    `{IRadioPolicy P} (x y : Station (W := W) (T := T) (P := P)) :
  Station_start x -> rtc Station_step x y ->
  y.(taken) ≡ₚ map event_message_id y.(events) ++ y.(cancelled) ++
               outstanding y.(scheduler).
Proof. intros Hx Hxy. by destruct (Station_reachable_inv x y Hx Hxy) as (_ & _ & Hp). Qed.

Lemma one_event_per_post_witness :
  exists y, bench_pumps [0; 100; 200] = Some y /\
    map event_message_id y.(events) = [message_id golden_post] /\
    y.(taken) ≡ₚ map event_message_id y.(events) ++ y.(cancelled) ++
                 outstanding y.(scheduler).
Proof.
  destruct (bench_pumps [0; 100; 200]) as [y|] eqn:Hy;
    [|exfalso; vm_compute in Hy; discriminate].
  exists y. split; [reflexivity|]. split.
  - assert (option_map (fun y => map event_message_id y.(events)) (bench_pumps [0; 100; 200])
            = Some [message_id golden_post]) as Hc by (vm_compute; reflexivity).
    rewrite Hy in Hc. by injection Hc.
  - exact (one_event_per_post bench_start y bench_start_ok (bench_pumps_reachable _ y Hy)).
Defined.


(** No message outlives its deadline.  Once every deadline has passed, one
    [pump] per message empties the queue without using the ports, and reports
    [Failed] for exactly the messages that were not yet [Broadcast]. *)
Theorem pump_drains {T P} `{IDatagramTransport T} `{IRadioPolicy P}
    s now (t : T) (policy : P) :
  Forall (fun p => p.(deadline) <= now) s.(pending) ->
  exists s',
    pump_times (length s.(pending)) s now t policy =
    Some (map (fun i => mkOutboundEvent i Outbound_Failed) (outstanding s), s', t, policy) /\
    s'.(pending) = [].
Proof.
  intros Hd. destruct s as [l m].
  destruct (pump_times_deadline l m now t policy Hd) as [m' Hp].
  by exists (mkTransmissionScheduler [] m').
Qed.

Lemma pump_drains_witness :
  exists y, bench_pumps [0] = Some y /\
    Forall (fun p => p.(deadline) <= 60000) y.(scheduler).(pending) /\
    exists s',
      pump_times (length y.(scheduler).(pending)) y.(scheduler) 60000 y.(transport) tt =
      Some (map (fun i => mkOutboundEvent i Outbound_Failed) (outstanding y.(scheduler)),
            s', y.(transport), tt) /\ s'.(pending) = [].
Proof.
  destruct (bench_pumps [0]) as [y|] eqn:Hy; [|exfalso; vm_compute in Hy; discriminate].
  exists y. split; [reflexivity|].
  assert (Forall (fun p => p.(deadline) <= 60000) y.(scheduler).(pending)) as Hd.
  { assert (option_map (fun y => map deadline y.(scheduler).(pending)) (bench_pumps [0])
            = Some [60000]) as Hc by (vm_compute; reflexivity).
    rewrite Hy in Hc. injection Hc as Hc.
    destruct (pending (scheduler y)) as [|p [|]]; try discriminate.
    injection Hc as Hc. repeat constructor. by rewrite Hc. }
  split; [exact Hd|]. exact (pump_drains y.(scheduler) 60000 y.(transport) tt Hd).
Defined.


(** Every branch of [enqueue].  A post is taken exactly if the MTU is
    supported, the queue has room, the identifier is not queued and the random
    source answers; it is then appended with all its fragments, due within 250
    ticks and with a deadline 60000 ticks later (saturating).  Every refusal
    leaves the queue as it was, and [InvalidPost] never occurs. *)
Theorem enqueue_spec {W} `{IRandomBytesLaws W} s (w : W) post mtu now :
  Scheduler_inv s -> PostPayload_wf post ->
  exists err s' w', enqueue s w post mtu now = Some (err, s', w') /\
    Scheduler_inv s' /\
    match err with
    | SchedulerError_None =>
        is_supported_mtu mtu = true /\
        (length s.(pending) < kMaximumOutboundMessages)%nat /\
        (message_id post ∉ map pending_message_id s.(pending)) /\
        exists p, s'.(pending) = s.(pending) ++ [p] /\ pending_of p post mtu now
    | SchedulerError_InvalidMtu => s' = s /\ is_supported_mtu mtu = false
    | SchedulerError_QueueFull =>
        s' = s /\ length s.(pending) = kMaximumOutboundMessages
    | SchedulerError_DuplicateMessage =>
        s' = s /\ (message_id post ∈ map pending_message_id s.(pending))
    | SchedulerError_RandomUnavailable => s' = s /\ exists n, fill w n = (None, w')
    | SchedulerError_InvalidPost => False
    end.
Proof. apply enqueue_cases. Qed.

Lemma enqueue_spec_witness :
  exists err s' w', bench_queued = Some (err, s', w') /\ Scheduler_inv s' /\
    err = SchedulerError_None /\
    exists p, s'.(pending) = [p] /\ pending_of p golden_post 64 0.
Proof.
  destruct (enqueue_spec (W := unit) TransmissionScheduler_make tt golden_post 64 0
              TransmissionScheduler_make_inv golden_post_wf)
    as (err & s' & w' & He & Hinv & Hcase).
  exists err, s', w'. split; [exact He|]. split; [exact Hinv|].
  assert (option_map (fun r => fst (fst r)) bench_queued = Some SchedulerError_None) as Hc
    by (vm_compute; reflexivity).
  unfold bench_queued in Hc. rewrite He in Hc. injection Hc as ->.
  split; [reflexivity|]. destruct Hcase as (_ & _ & _ & p & Hp & Hpo). by exists p.
Defined.

