(* ===== verification/TokenBudget.v ===== *)
(** * TokenBudget: the contract between the scheduler and a token-bucket policy

    ports/radio_policy.h says how a policy is used: it is asked before every
    datagram attempt, and airtime is recorded only after the transport has
    accepted it.  [BudgetedPolicy] is what a token-bucket policy promises under
    that use; the theorems here are proved against the interface and the
    policies of src/adapters (Japan920Policy.v, LanPolicy.v) implement
    it. *)
From S2P Require Import Prelude Ports.

(** ** Definitions *)

(** One attempt: the tick, the size, and whether the transport accepts. *)
Record Attempt := mkAttempt {
  attempt_tick : Z;
  attempt_size : nat;
  attempt_accepted : bool
}.

Section Offers.
Context {P : Type} `{IRadioPolicy P}.

(** The protocol of the port for one attempt; the result says whether the
    datagram went out. *)
Definition offer (p : P) (a : Attempt) : bool * P :=
  let '(decision, p) := evaluate_transmit p a.(attempt_tick) a.(attempt_size) in
  match decision.(transmit_status) with
  | TransmitStatus_Allowed =>
      if a.(attempt_accepted)
      then (true, record_transmit p a.(attempt_tick) a.(attempt_size))
      else (false, p)
  | _ => (false, p)
  end.

(** The attempts that went out, in order. *)
Fixpoint offers (p : P) (l : list Attempt) : list Attempt * P :=
  match l with
  | [] => ([], p)
  | a :: l =>
      let '(sent, p) := offer p a in
      let '(out, p) := offers p l in
      ((if sent then [a] else []) ++ out, p)
  end.
End Offers.

(** ** The interface *)

(** Credit is spent at [terms_cost] per datagram and earned at [terms_rate] per
    tick up to [terms_capacity]; the clock of the bucket lags at most
    [terms_slack] ticks behind. *)
Record BudgetTerms := mkBudgetTerms {
  terms_capacity : Z;
  terms_rate : Z;
  terms_slack : Z;
  terms_cost : nat -> Z;
  terms_gap : Z
}.

Class BudgetedPolicy (P : Type) `{IRadioPolicy P} (b : BudgetTerms) := {
  budget_inv : P -> Prop;
  budget_started : P -> bool;
  budget_credit : P -> Z;
  budget_clock : P -> Z;
  budget_next : P -> Z;
  budget_credit_range p : budget_inv p -> 0 <= budget_credit p <= b.(terms_capacity);
  budget_evaluate_inv p now n d p' :
    budget_inv p -> is_u64 now -> evaluate_transmit p now n = (d, p') -> budget_inv p';
  (* asking earns at most the rate, and never moves the earliest next tick *)
  budget_evaluate_credit p now n d p' :
    budget_inv p -> is_u64 now -> evaluate_transmit p now n = (d, p') ->
    budget_next p' = budget_next p /\
    (budget_started p = true ->
     budget_started p' = true /\ budget_clock p' <= Z.max (budget_clock p) now /\
     budget_credit p' - b.(terms_rate) * budget_clock p' <=
     budget_credit p - b.(terms_rate) * budget_clock p);
  budget_allowed p now n d p' :
    budget_inv p -> is_u64 now -> evaluate_transmit p now n = (d, p') ->
    d.(transmit_status) = TransmitStatus_Allowed ->
    budget_started p' = true /\ budget_next p <= now /\
    now - b.(terms_slack) <= budget_clock p' <= now;
  (* recording what was just allowed spends its cost and starts the gap *)
  budget_record p now n d p1 :
    budget_inv p -> is_u64 now -> evaluate_transmit p now n = (d, p1) ->
    d.(transmit_status) = TransmitStatus_Allowed ->
    let p' := record_transmit p1 now n in
    budget_inv p' /\ budget_started p' = true /\
    budget_credit p' = budget_credit p1 - b.(terms_cost) n /\
    budget_clock p' = budget_clock p1 /\
    budget_next p' = Z.min UINT64_MAX (now + b.(terms_gap))
}.

(** ** What follows from it *)

Definition total_cost (b : BudgetTerms) (l : list Attempt) : Z :=
  foldr (fun a sum => b.(terms_cost) a.(attempt_size) + sum) 0 l.

(** Consecutive transmissions are at least the gap apart. *)
Fixpoint gaps_kept (b : BudgetTerms) (next : Z) (l : list Attempt) : Prop :=
  match l with
  | [] => True
  | a :: l =>
      next <= a.(attempt_tick) /\
      gaps_kept b (Z.min UINT64_MAX (a.(attempt_tick) + b.(terms_gap))) l
  end.

Section Budget.
Context {P : Type} `{!IRadioPolicy P} (b : BudgetTerms) `{!BudgetedPolicy P b}.
Context (Hrate : 0 <= b.(terms_rate)).

Lemma total_cost_app l l' : total_cost b (l ++ l') = total_cost b l + total_cost b l'.
Proof. induction l as [|a l IH]; cbn; [done|]. unfold total_cost in *. lia. Qed.

(** One offer, seen from the interface. *)
Lemma offer_spec p a sent p' :
  budget_inv p -> is_u64 a.(attempt_tick) -> offer p a = (sent, p') ->
  budget_inv p' /\
  (sent = false -> budget_next p' = budget_next p) /\
  (sent = true -> budget_next p <= a.(attempt_tick) /\ budget_started p' = true /\
     budget_next p' = Z.min UINT64_MAX (a.(attempt_tick) + b.(terms_gap)) /\
     a.(attempt_tick) - b.(terms_slack) <= budget_clock p' <= a.(attempt_tick) /\
     budget_credit p' + terms_cost b a.(attempt_size) <= b.(terms_capacity)) /\
  (budget_started p = true ->
   budget_started p' = true /\ budget_clock p' <= Z.max (budget_clock p) a.(attempt_tick) /\
   total_cost b (if sent then [a] else []) +
     budget_credit p' - b.(terms_rate) * budget_clock p' <=
   budget_credit p - b.(terms_rate) * budget_clock p).
Proof.
  intros Hinv Ht. unfold offer.
  destruct (evaluate_transmit p (attempt_tick a) (attempt_size a)) as [d p1] eqn:He.
  pose proof (budget_evaluate_inv _ _ _ _ _ Hinv Ht He) as Hinv1.
  pose proof (budget_evaluate_credit _ _ _ _ _ Hinv Ht He) as [Hnext Hcredit].
  pose proof (budget_credit_range p1 Hinv1) as Hrange.
  destruct (transmit_status d) eqn:Hd;
    [destruct (attempt_accepted a)|..]; intros [= <- <-]; cbn [total_cost foldr];
    try (split_and!; [done|done|done|intros Hs; apply Hcredit in Hs as (? & ? & ?);
           split_and!; (done || lia)]).
  pose proof (budget_allowed _ _ _ _ _ Hinv Ht He Hd) as (Hs1 & Hn & Hc).
  destruct (budget_record _ _ _ _ _ Hinv Ht He Hd) as (Hinv2 & Hs2 & Hcr & Hcl & Hn2).
  rewrite Hcr, Hcl. split_and!; [done|done| |].
  - intros _. split_and!; (done || lia).
  - intros Hs. apply Hcredit in Hs as (_ & ? & ?). split_and!; (done || lia).
Qed.

(** From a started bucket: what went out was paid for. *)
Lemma offers_started p l out p' last :
  budget_inv p -> budget_started p = true -> budget_clock p <= last ->
  Forall (fun a => is_u64 a.(attempt_tick) /\ a.(attempt_tick) <= last) l ->
  offers p l = (out, p') ->
  total_cost b out <= budget_credit p + b.(terms_rate) * (last - budget_clock p).
Proof.
  intros Hinv Hs Hc Hl. revert p out p' Hinv Hs Hc.
  induction Hl as [|a l [Ht Hlast] Hl IH]; intros p out p' Hinv Hs Hc; cbn [offers].
  { intros [= <- <-]. cbn. pose proof (budget_credit_range p Hinv). nia. }
  destruct (offer p a) as [sent p1] eqn:Ho. destruct (offers p1 l) as [out1 p2] eqn:Hl1.
  intros [= <- <-].
  destruct (offer_spec p a sent p1 Hinv Ht Ho) as (Hinv1 & _ & _ & Hst).
  destruct (Hst Hs) as (Hs1 & Hc1 & Hpay).
  specialize (IH p1 out1 p2 Hinv1 Hs1 ltac:(lia) Hl1). rewrite total_cost_app. lia.
Qed.

(** The sliding-window bound. *)
Lemma offers_window p l out p' first last :
  budget_inv p -> first <= last ->
  Forall (fun a => is_u64 a.(attempt_tick) /\ first <= a.(attempt_tick) <= last) l ->
  0 <= b.(terms_slack) -> offers p l = (out, p') ->
  total_cost b out <=
    b.(terms_capacity) + b.(terms_rate) * (last - first + b.(terms_slack)).
Proof.
  intros Hinv Hfl Hl Hslack. revert p out p' Hinv.
  induction Hl as [|a l (Ht & Hfirst & Hlast) Hl IH]; intros p out p' Hinv; cbn [offers].
  { intros [= <- <-]. cbn. pose proof (budget_credit_range p Hinv). nia. }
  destruct (offer p a) as [sent p1] eqn:Ho. destruct (offers p1 l) as [out1 p2] eqn:Hl1.
  intros [= <- <-].
  destruct (offer_spec p a sent p1 Hinv Ht Ho) as (Hinv1 & _ & Hsent & _).
  destruct sent; [|by eapply IH].
  destruct (Hsent eq_refl) as (_ & Hs1 & _ & Hc1 & Hcap).
  assert (total_cost b out1 <= budget_credit p1 +
            b.(terms_rate) * (last - budget_clock p1)) as Hrest.
  { apply (offers_started p1 l out1 p2 last Hinv1 Hs1 ltac:(lia)); [|exact Hl1].
    eapply Forall_impl; [exact Hl|]. intros x (? & ? & ?). by split. }
  rewrite total_cost_app. cbn [total_cost foldr]. nia.
Qed.

Lemma offers_gaps p l out p' :
  budget_inv p -> Forall (fun a => is_u64 a.(attempt_tick)) l ->
  offers p l = (out, p') -> gaps_kept b (budget_next p) out.
Proof.
  intros Hinv Hl. revert p out p' Hinv.
  induction Hl as [|a l Ht Hl IH]; intros p out p' Hinv; cbn [offers]; [by intros [= <- _]|].
  destruct (offer p a) as [sent p1] eqn:Ho. destruct (offers p1 l) as [out1 p2] eqn:Hl1.
  intros [= <- <-].
  destruct (offer_spec p a sent p1 Hinv Ht Ho) as (Hinv1 & Hno & Hsent & _).
  specialize (IH p1 out1 p2 Hinv1 Hl1). destruct sent; cbn [app gaps_kept].
  - destruct (Hsent eq_refl) as (? & _ & Hn & _). by rewrite <- Hn.
  - by rewrite <- (Hno eq_refl).
Qed.

End Budget.
