(* ===== verification/Japan920Policy.v ===== *)
(** * Japan920Policy: the airtime budget of the radio

    src/adapters/radio/japan_920_radio_policy.cpp.  A token bucket of
    milliseconds of calculated airtime.  The airtime is computed in IEEE binary64,
    modelled with the Standard Library's [SpecFloat] at 53 bits of precision. *)
From Stdlib Require Import Floats.SpecFloat.
From S2P Require Import Prelude Ports TokenBudget.

(** ** Definitions *)

(** *** double *)

Definition double : Type := spec_float.
Definition double_of (z : Z) : double := binary_normalize 53 1024 z 0 false.
Definition double_add : double -> double -> double := SFadd 53 1024.
Definition double_sub : double -> double -> double := SFsub 53 1024.
Definition double_mul : double -> double -> double := SFmul 53 1024.
Definition double_div : double -> double -> double := SFdiv 53 1024.

(** [std::ldexp] of 1.0. *)
Definition ldexp_1 (e : Z) : double := SFldexp 53 1024 (double_of 1) e.

(** [std::ceil]. *)
Definition double_ceil (x : double) : double :=
  match x with
  | S754_finite s m e =>
      if 0 <=? e then x
      else
        let v := if s then Zneg m else Zpos m in
        double_of (- ((- v) / 2 ^ (- e)))
  | _ => x
  end.

(** [std::max(a, b)] is [a < b ? b : a]. *)
Definition double_max (a b : double) : double := if SFltb a b then b else a.

(** The conversion of a double in range to [uint64_t] truncates. *)
Definition double_to_u64 (x : double) : Z :=
  match x with
  | S754_finite false m e => if 0 <=? e then Zpos m * 2 ^ e else Zpos m / 2 ^ (- e)
  | _ => 0
  end.

(** *** The profile and the configuration *)

Record Japan920Profile := mkJapan920Profile {
  frequency_hz : Z;
  bandwidth_hz : Z;
  spreading_factor : Z;
  coding_rate_denominator : Z;
  transmit_power_dbm : Z;
  preamble_symbols : Z;
  sync_word : Z
}.

Definition Japan920Profile_default : Japan920Profile :=
  mkJapan920Profile 920800000 125000 9 7 13 12 0x12.

Definition Japan920Profile_valid (p : Japan920Profile) : bool :=
  let kCertifiedLowerHz := 920500000 in
  let kCapUpperHz := 923000000 in
  if negb (p.(bandwidth_hz) =? 125000) ||
     (p.(spreading_factor) <? 7) || (12 <? p.(spreading_factor)) ||
     (p.(coding_rate_denominator) <? 5) || (8 <? p.(coding_rate_denominator)) ||
     (13 <? p.(transmit_power_dbm)) || (p.(preamble_symbols) <? 8) ||
     negb (p.(sync_word) =? 0x12)
  then false
  else
    let half_bandwidth := p.(bandwidth_hz) / 2 in
    (u32 (kCertifiedLowerHz + half_bandwidth) <=? p.(frequency_hz)) &&
    (p.(frequency_hz) <=? u32 (kCapUpperHz - half_bandwidth)).

Record Japan920PolicyConfig := mkJapan920PolicyConfig {
  profile : Japan920Profile;
  minimum_gap_ms : Z;
  bucket_capacity_ms : Z;
  refill_denominator : Z
}.

Definition Japan920PolicyConfig_default : Japan920PolicyConfig :=
  mkJapan920PolicyConfig Japan920Profile_default 100 6000 10.

Record Japan920RadioPolicy := mkJapan920RadioPolicy {
  config : Japan920PolicyConfig;
  tokens_ms : Z;
  last_refill_tick : Z;
  next_transmit_tick : Z;
  clock_started : bool;
  policy_valid : bool
}.

Definition Japan920RadioPolicy_make (c : Japan920PolicyConfig) : Japan920RadioPolicy :=
  mkJapan920RadioPolicy c c.(bucket_capacity_ms) 0 0 false
    (Japan920Profile_valid c.(profile) && (0 <? c.(minimum_gap_ms)) &&
     (0 <? c.(bucket_capacity_ms)) && (0 <? c.(refill_denominator))).

(** *** Operations *)

Definition saturating_add (left right : Z) : Z :=
  if UINT64_MAX - right <? left then UINT64_MAX else u64 (left + right).

Definition airtime_double (p : Japan920Profile) (datagram_size : nat) : double :=
  let sf := double_of p.(spreading_factor) in
  let symbol_seconds :=
    double_div (ldexp_1 p.(spreading_factor)) (double_of p.(bandwidth_hz)) in
  let low_data_rate_optimization :=
    if SFleb (double_div (double_of 16) (double_of 1000)) symbol_seconds
    then double_of 1 else double_of 0 in
  let numerator :=
    double_add (double_add
      (double_sub (double_mul (double_of 8) (double_of (Z.of_nat datagram_size)))
                  (double_mul (double_of 4) sf))
      (double_of 28)) (double_of 16) in
  let denominator :=
    double_mul (double_of 4)
      (double_sub sf (double_mul (double_of 2) low_data_rate_optimization)) in
  let coded_groups :=
    double_max (double_of 0) (double_ceil (double_div numerator denominator)) in
  let payload_symbols :=
    double_add (double_of 8)
      (double_mul coded_groups (double_of p.(coding_rate_denominator))) in
  let total_symbols :=
    double_add (double_add (double_of p.(preamble_symbols))
                           (double_div (double_of 17) (double_of 4)))
               payload_symbols in
  double_mul (double_mul total_symbols symbol_seconds) (double_of 1000).

Definition estimated_airtime_ms (c : Japan920PolicyConfig) (datagram_size : nat) : Z :=
  if negb (Japan920Profile_valid c.(profile)) || (datagram_size =? 0)%nat ||
     (kMaximumDatagramBytes <? datagram_size)%nat
  then 0
  else
    let milliseconds := airtime_double c.(profile) datagram_size in
    if SFleb milliseconds (double_of 0) || SFltb (double_of UINT64_MAX) milliseconds
    then 0
    else double_to_u64 (double_ceil milliseconds).

Definition with_valid (p : Japan920RadioPolicy) (v : bool) : Japan920RadioPolicy :=
  mkJapan920RadioPolicy p.(config) p.(tokens_ms) p.(last_refill_tick)
    p.(next_transmit_tick) p.(clock_started) v.

Definition refill (p : Japan920RadioPolicy) (now_tick : Z) : Japan920RadioPolicy :=
  if negb p.(clock_started) then
    mkJapan920RadioPolicy p.(config) p.(tokens_ms) now_tick p.(next_transmit_tick)
      true p.(policy_valid)
  else
    let elapsed := u64 (now_tick - p.(last_refill_tick)) in
    let added := elapsed / p.(config).(refill_denominator) in
    if 0 <? added then
      mkJapan920RadioPolicy p.(config)
        (Z.min p.(config).(bucket_capacity_ms) (saturating_add p.(tokens_ms) added))
        now_tick p.(next_transmit_tick) true p.(policy_valid)
    else p.

Definition Japan920_evaluate_transmit (p : Japan920RadioPolicy) (now_tick : Z)
    (datagram_size : nat) : RadioTransmitDecision * Japan920RadioPolicy :=
  if negb p.(policy_valid) || (datagram_size =? 0)%nat ||
     (kMaximumDatagramBytes <? datagram_size)%nat
  then (mkRadioTransmitDecision TransmitStatus_Invalid 0, p)
  else if p.(clock_started) && (now_tick <? p.(last_refill_tick))
  then (mkRadioTransmitDecision TransmitStatus_Locked 0, with_valid p false)
  else
    let p := refill p now_tick in
    let airtime := estimated_airtime_ms p.(config) datagram_size in
    if (airtime =? 0) || (p.(config).(bucket_capacity_ms) <? airtime)
    then (mkRadioTransmitDecision TransmitStatus_Invalid 0, p)
    else if now_tick <? p.(next_transmit_tick)
    then (mkRadioTransmitDecision TransmitStatus_Deferred p.(next_transmit_tick), p)
    else if p.(tokens_ms) <? airtime
    then
      let deficit := u64 (airtime - p.(tokens_ms)) in
      (mkRadioTransmitDecision TransmitStatus_Deferred
         (saturating_add now_tick (u64 (deficit * p.(config).(refill_denominator)))), p)
    else (mkRadioTransmitDecision TransmitStatus_Allowed now_tick, p).

Definition Japan920_record_transmit (p : Japan920RadioPolicy) (at_tick : Z)
    (datagram_size : nat) : Japan920RadioPolicy :=
  if negb p.(policy_valid) then p
  else
    let '(decision, p) := Japan920_evaluate_transmit p at_tick datagram_size in
    match decision.(transmit_status) with
    | TransmitStatus_Allowed =>
        let airtime := estimated_airtime_ms p.(config) datagram_size in
        mkJapan920RadioPolicy p.(config) (u64 (p.(tokens_ms) - airtime))
          p.(last_refill_tick) (saturating_add at_tick p.(config).(minimum_gap_ms))
          p.(clock_started) p.(policy_valid)
    | _ => with_valid p false
    end.

#[global] Instance Japan920RadioPolicy_policy : IRadioPolicy Japan920RadioPolicy := {
  evaluate_transmit := Japan920_evaluate_transmit;
  record_transmit := Japan920_record_transmit
}.

(** ** Invariant *)

Record Config_ok (c : Japan920PolicyConfig) : Prop := {
  ok_profile : Japan920Profile_valid c.(profile) = true;
  ok_gap : 0 < c.(minimum_gap_ms) <= UINT64_MAX;
  ok_capacity : 0 < c.(bucket_capacity_ms) <= UINT64_MAX;
  ok_denominator : 0 < c.(refill_denominator) <= 4294967295
}.

Record Policy_inv (c : Japan920PolicyConfig) (p : Japan920RadioPolicy) : Prop := {
  policy_config : p.(config) = c;
  policy_tokens : 0 <= p.(tokens_ms) <= c.(bucket_capacity_ms);
  policy_last : is_u64 p.(last_refill_tick);
  policy_next : is_u64 p.(next_transmit_tick)
}.

(** The budget of a configuration, in ticks: a token is worth
    [refill_denominator] of them. *)
Definition Japan920_terms (c : Japan920PolicyConfig) : BudgetTerms := {|
  terms_capacity := c.(refill_denominator) * c.(bucket_capacity_ms);
  terms_rate := 1;
  terms_slack := c.(refill_denominator) - 1;
  terms_cost n := c.(refill_denominator) * estimated_airtime_ms c n;
  terms_gap := c.(minimum_gap_ms)
|}.

(** ** Lemmas *)

Lemma saturating_add_min a b :
  is_u64 a -> is_u64 b -> saturating_add a b = Z.min UINT64_MAX (a + b).
Proof.
  unfold saturating_add, is_u64, u64, UINT64_MAX. intros.
  destruct (Z.ltb_spec (18446744073709551615 - b) a); [lia|]. rewrite Z.mod_small; lia.
Qed.

Lemma double_to_u64_nonneg x : 0 <= double_to_u64 x.
Proof.
  destruct x as [| | |[] m e]; cbn; try lia. destruct (Z.leb_spec 0 e).
  - pose proof (Z.pow_pos_nonneg 2 e). nia.
  - apply Z.div_pos; [lia|]. apply Z.pow_pos_nonneg; lia.
Qed.

Lemma estimated_airtime_nonneg c n : 0 <= estimated_airtime_ms c n.
Proof.
  unfold estimated_airtime_ms. destruct (_ || _); [lia|].
  destruct (_ || _); [lia|apply double_to_u64_nonneg].
Qed.

Section PolicyLemmas.
Context (c : Japan920PolicyConfig) (Hc : Config_ok c).

(** [refill] while the clock has not gone back. *)
Lemma refill_spec p now :
  Policy_inv c p -> is_u64 now ->
  (p.(clock_started) = true -> p.(last_refill_tick) <= now) ->
  let p' := refill p now in
  Policy_inv c p' /\ p'.(clock_started) = true /\
  p'.(policy_valid) = p.(policy_valid) /\
  p'.(next_transmit_tick) = p.(next_transmit_tick) /\
  now - (c.(refill_denominator) - 1) <= p'.(last_refill_tick) <= now /\
  (p.(clock_started) = true ->
   p.(last_refill_tick) <= p'.(last_refill_tick) /\
   c.(refill_denominator) * p'.(tokens_ms) - p'.(last_refill_tick) <=
   c.(refill_denominator) * p.(tokens_ms) - p.(last_refill_tick)).
Proof.
  intros [Hcfg Htok Hlast Hnext] Hnow Hmono.
  pose proof (ok_denominator c Hc) as Hd. pose proof (ok_capacity c Hc) as Hcap.
  unfold refill. rewrite Hcfg. unfold is_u64, UINT64_MAX in *.
  destruct (clock_started p) eqn:Hs; cbn [negb].
  2:{ split; [by split|]. split_and!; cbn; (done || lia). }
  specialize (Hmono eq_refl).
  unfold u64. rewrite Z.mod_small by lia.
  set (elapsed := now - last_refill_tick p). set (d := refill_denominator c) in *.
  pose proof (Z.div_mod elapsed d ltac:(lia)) as Hdm.
  pose proof (Z.mod_pos_bound elapsed d ltac:(lia)) as Hmod.
  assert (0 <= elapsed / d) as Hpos by (apply Z.div_pos; lia).
  destruct (Z.ltb_spec 0 (elapsed / d)) as [Hadd|Hadd].
  - assert (elapsed / d <= elapsed) by (apply Z.div_le_upper_bound; nia).
    rewrite saturating_add_min by (unfold is_u64, UINT64_MAX; lia).
    split; [split; cbn; unfold is_u64, UINT64_MAX; (done || lia)|].
    cbn. split_and!; try done; try lia. intros _. split; [lia|].
    assert (d * Z.min (bucket_capacity_ms c)
              (Z.min UINT64_MAX (tokens_ms p + elapsed / d)) <=
            d * (tokens_ms p + elapsed / d)) by (apply Z.mul_le_mono_nonneg_l; lia).
    lia.
  - split; [by split|]. split_and!; try done; try lia.
Qed.

(** Every branch of [evaluate_transmit] in one state: nothing happened, the
    clock went back, or the bucket was refilled and the decision follows. *)
Lemma evaluate_cases p now n d p' :
  Policy_inv c p -> is_u64 now ->
  Japan920_evaluate_transmit p now n = (d, p') ->
  (d.(transmit_status) = TransmitStatus_Invalid /\ p' = p) \/
  (d.(transmit_status) = TransmitStatus_Locked /\ p' = with_valid p false /\
   p.(clock_started) = true /\ now < p.(last_refill_tick)) \/
  ((p.(clock_started) = true -> p.(last_refill_tick) <= now) /\
   p' = refill p now /\ p.(policy_valid) = true /\ (1 <= n <= kMaximumDatagramBytes)%nat /\
   let airtime := estimated_airtime_ms c n in
   ((d.(transmit_status) = TransmitStatus_Invalid /\
     (airtime = 0 \/ c.(bucket_capacity_ms) < airtime)) \/
    (0 < airtime <= c.(bucket_capacity_ms) /\
     ((d = mkRadioTransmitDecision TransmitStatus_Deferred p'.(next_transmit_tick) /\
       now < p'.(next_transmit_tick)) \/
      (p'.(next_transmit_tick) <= now /\
       ((d = mkRadioTransmitDecision TransmitStatus_Deferred
               (saturating_add now
                  (u64 (u64 (airtime - p'.(tokens_ms)) * c.(refill_denominator)))) /\
         p'.(tokens_ms) < airtime) \/
        (d = mkRadioTransmitDecision TransmitStatus_Allowed now /\
         airtime <= p'.(tokens_ms)))))))).
Proof.
  intros Hinv Hnow. unfold Japan920_evaluate_transmit.
  destruct (policy_valid p) eqn:Hv; cbn [negb orb]; [|intros [= <- <-]; by left].
  destruct (Nat.eqb_spec n 0); cbn [orb]; [intros [= <- <-]; by left|].
  destruct (Nat.ltb_spec kMaximumDatagramBytes n); [intros [= <- <-]; by left|].
  destruct (clock_started p && (now <? last_refill_tick p)) eqn:Hback.
  { intros [= <- <-]. right; left. by reflect_bools. }
  assert (clock_started p = true -> last_refill_tick p <= now) as Hmono.
  { intros Hs. rewrite Hs in Hback. cbn in Hback. by apply Z.ltb_ge. }
  destruct (refill_spec p now Hinv Hnow Hmono) as (Hinv' & _).
  rewrite (policy_config _ _ Hinv'). set (q := refill p now) in *.
  pose proof (estimated_airtime_nonneg c n) as Ha. intros Hd. right; right.
  destruct ((_ =? 0) || _) eqn:Hbad.
  { injection Hd as <- <-. split_and!; [done|done|done|lia|lia|]. left. cbn.
    rewrite orb_true_iff, Z.eqb_eq, Z.ltb_lt in Hbad. done. }
  apply orb_false_iff in Hbad as [Hz%Z.eqb_neq Hcap%Z.ltb_ge].
  destruct (Z.ltb_spec now (next_transmit_tick q)) as [Hgap|Hgap].
  { injection Hd as <- <-. split_and!; [done|done|done|lia|lia|].
    right. split; [lia|]. by left. }
  destruct (Z.ltb_spec (tokens_ms q) (estimated_airtime_ms c n)) as [Htok|Htok];
    injection Hd as <- <-; (split_and!; [done|done|done|lia|lia|]);
    right; (split; [lia|]); right; (split; [lia|]); [by left|by right].
Qed.

Lemma evaluate_inv p now n d p' :
  Policy_inv c p -> is_u64 now ->
  Japan920_evaluate_transmit p now n = (d, p') -> Policy_inv c p'.
Proof.
  intros Hinv Hnow He.
  destruct (evaluate_cases _ _ _ _ _ Hinv Hnow He)
    as [[_ ->]|[(_ & -> & _)|(Hmono & -> & _)]]; [done| |].
  - by destruct Hinv; split.
  - by apply refill_spec.
Qed.

(** Refilling again at the same tick changes nothing. *)
Lemma refill_again p now :
  Policy_inv c p -> is_u64 now -> p.(clock_started) = true ->
  now - (c.(refill_denominator) - 1) <= p.(last_refill_tick) <= now ->
  refill p now = p.
Proof.
  intros Hinv Hnow Hs Hlast. pose proof (ok_denominator c Hc) as Hd.
  pose proof (policy_last _ _ Hinv) as Hl.
  unfold refill. rewrite Hs, (policy_config _ _ Hinv). cbn [negb].
  unfold is_u64, UINT64_MAX, u64 in *.
  rewrite Z.mod_small by lia. rewrite Z.div_small by lia. done.
Qed.

(** [record_transmit] right after the same size was allowed at the same tick. *)
Lemma record_after_allowed p now n d p1 :
  Policy_inv c p -> is_u64 now ->
  Japan920_evaluate_transmit p now n = (d, p1) ->
  d.(transmit_status) = TransmitStatus_Allowed ->
  p1.(clock_started) = true /\ estimated_airtime_ms c n <= p1.(tokens_ms) /\
  p1.(policy_valid) = true /\
  p1.(next_transmit_tick) = p.(next_transmit_tick) /\
  p.(next_transmit_tick) <= now /\
  now - (c.(refill_denominator) - 1) <= p1.(last_refill_tick) <= now /\
  Japan920_record_transmit p1 now n =
    mkJapan920RadioPolicy c (p1.(tokens_ms) - estimated_airtime_ms c n)
      p1.(last_refill_tick) (Z.min UINT64_MAX (now + c.(minimum_gap_ms))) true true.
Proof.
  intros Hinv Hnow He Hd.
  destruct (evaluate_cases _ _ _ _ _ Hinv Hnow He)
    as [[Hd' _]|[(Hd' & _)|(Hmono & Hp1 & Hv & Hn & Hcase)]];
    [rewrite Hd in Hd'; done|rewrite Hd in Hd'; done|].
  destruct Hcase as [[Hd' _]|(Ha & [[-> _]|(Hgap & [[-> _]|[-> Htok]])])];
    [rewrite Hd in Hd'; done|done|done|].
  destruct (refill_spec p now Hinv Hnow Hmono)
    as (Hinv1 & Hs1 & Hv1 & Hn1 & Hlast1 & _).
  rewrite <- Hp1 in *.
  assert (Japan920_evaluate_transmit p1 now n =
            (mkRadioTransmitDecision TransmitStatus_Allowed now, p1)) as He1.
  { unfold Japan920_evaluate_transmit. rewrite Hv1, Hv, Hs1. cbn [negb orb andb].
    rewrite (proj2 (Nat.eqb_neq n 0)), (proj2 (Nat.ltb_ge _ n)) by lia. cbn [orb].
    rewrite (proj2 (Z.ltb_ge now _)) by lia.
    rewrite (refill_again p1 now Hinv1 Hnow Hs1 Hlast1), (policy_config _ _ Hinv1).
    rewrite (proj2 (Z.eqb_neq _ 0)), (proj2 (Z.ltb_ge _ (estimated_airtime_ms c n)))
      by lia. cbn [orb].
    rewrite (proj2 (Z.ltb_ge now _)), (proj2 (Z.ltb_ge (tokens_ms p1) _)) by lia. done. }
  split_and!; try done; try congruence; try lia.
  unfold Japan920_record_transmit. rewrite Hv1, Hv, He1. cbn [negb transmit_status].
  rewrite (policy_config _ _ Hinv1), Hs1.
  pose proof (policy_tokens _ _ Hinv1) as Ht. pose proof (ok_capacity c Hc) as Hcap.
  pose proof (ok_gap c Hc) as Hg. unfold u64, UINT64_MAX in *.
  rewrite Z.mod_small by lia.
  rewrite saturating_add_min by (done || unfold is_u64, UINT64_MAX; lia).
  f_equal. congruence.
Qed.

(** After a deferral for tokens, waiting until the tick it names is enough. *)
Lemma deferral_enough p now n p1 tick t :
  Policy_inv c p -> is_u64 now -> is_u64 t ->
  c.(bucket_capacity_ms) * c.(refill_denominator) <= UINT64_MAX ->
  Japan920_evaluate_transmit p now n =
    (mkRadioTransmitDecision TransmitStatus_Deferred tick, p1) ->
  p1.(next_transmit_tick) <= now -> tick < UINT64_MAX -> tick <= t ->
  now < tick /\
  fst (Japan920_evaluate_transmit p1 t n) = mkRadioTransmitDecision TransmitStatus_Allowed t.
Proof.
  intros Hinv Hnow Ht Hfit He Hgap Hsat Htick.
  destruct (evaluate_cases _ _ _ _ _ Hinv Hnow He)
    as [[Hd _]|[(Hd & _)|(Hmono & Hp1 & Hv & Hn & Hcase)]]; [done|done|].
  destruct Hcase as [[Hd _]|(Ha & [[Hd ?]|(_ & [[Hd Htok]|[Hd _]])])]; [done|lia| |done].
  injection Hd as Hd.
  destruct (refill_spec p now Hinv Hnow Hmono) as (Hinv1 & Hs1 & Hv1 & _ & Hl1 & _).
  rewrite <- Hp1 in *.
  pose proof (policy_tokens _ _ Hinv1) as Ht1. pose proof (ok_denominator c Hc) as Hden.
  pose proof (ok_capacity c Hc) as Hcap. pose proof (policy_last _ _ Hinv1) as Hlast.
  set (a := estimated_airtime_ms c n) in *. set (d := refill_denominator c) in *.
  assert (0 < (a - tokens_ms p1) * d <= UINT64_MAX) as Hprod by nia.
  unfold u64 in Hd. rewrite (Z.mod_small (a - _)) in Hd by (unfold UINT64_MAX in *; lia).
  rewrite Z.mod_small in Hd by (unfold UINT64_MAX in *; lia).
  rewrite saturating_add_min in Hd by (done || unfold is_u64; lia).
  assert (tick = now + (a - tokens_ms p1) * d) as Htk by lia.
  split; [lia|]. unfold Japan920_evaluate_transmit. rewrite Hv1, Hv, Hs1. cbn [negb orb andb].
  rewrite (proj2 (Nat.eqb_neq n 0)), (proj2 (Nat.ltb_ge _ n)) by lia. cbn [orb].
  rewrite (proj2 (Z.ltb_ge t _)) by lia.
  assert (a - tokens_ms p1 <= (t - last_refill_tick p1) / d) as Hadd
    by (apply Z.div_le_lower_bound; lia).
  assert (refill p1 t = mkJapan920RadioPolicy c
    (Z.min (bucket_capacity_ms c)
       (saturating_add (tokens_ms p1) ((t - last_refill_tick p1) / d)))
    t (next_transmit_tick p1) true (policy_valid p1)) as ->.
  { unfold refill. rewrite Hs1, (policy_config _ _ Hinv1). cbn [negb]. fold d.
    unfold u64, is_u64, UINT64_MAX in *. rewrite Z.mod_small by lia.
    by rewrite (proj2 (Z.ltb_lt 0 _)) by lia. }
  cbn [config tokens_ms next_transmit_tick]. fold a.
  rewrite (proj2 (Z.eqb_neq a 0)), (proj2 (Z.ltb_ge _ a)) by lia. cbn [orb].
  rewrite (proj2 (Z.ltb_ge t _)) by lia.
  assert ((t - last_refill_tick p1) / d <= UINT64_MAX).
  { unfold is_u64 in *. apply Z.div_le_upper_bound; [lia|]. nia. }
  rewrite saturating_add_min by (unfold is_u64, UINT64_MAX in *; lia).
  by rewrite (proj2 (Z.ltb_ge _ a)) by (unfold UINT64_MAX in *; lia).
Qed.

End PolicyLemmas.

(** ** The policy implements the budget interface *)

Program Definition Japan920_budget (c : Japan920PolicyConfig) (Hc : Config_ok c)
  : BudgetedPolicy Japan920RadioPolicy (Japan920_terms c) := {|
  budget_inv := Policy_inv c;
  budget_started := clock_started;
  budget_credit p := c.(refill_denominator) * p.(tokens_ms);
  budget_clock := last_refill_tick;
  budget_next := next_transmit_tick
|}.
Next Obligation.
  intros c Hc p Hinv. pose proof (policy_tokens _ _ Hinv). pose proof (ok_denominator c Hc).
  cbn. split; [nia|]. apply Z.mul_le_mono_nonneg_l; lia.
Qed.
Next Obligation. intros c Hc p now n d p' Hinv Hnow He. by eapply evaluate_inv. Qed.
Next Obligation.
  intros c Hc p now n d p' Hinv Hnow He. cbn [terms_rate Japan920_terms].
  destruct (evaluate_cases c Hc _ _ _ _ _ Hinv Hnow He)
    as [[_ ->]|[(_ & -> & _)|(Hmono & -> & _)]]; 
    try (split; [done|intros Hs; cbn; split_and!; (done || lia)]).
  destruct (refill_spec c Hc p now Hinv Hnow Hmono) as (_ & Hs & _ & Hn & Hl & Hpay).
  split; [done|]. intros Hst. destruct (Hpay Hst) as [? ?]. split_and!; (done || lia).
Qed.
Next Obligation.
  intros c Hc p now n d p' Hinv Hnow He Hd. cbn [terms_slack Japan920_terms].
  destruct (record_after_allowed c Hc _ _ _ _ _ Hinv Hnow He Hd)
    as (? & _ & _ & _ & ? & ? & _). done.
Qed.
Next Obligation.
  intros c Hc p now n d p1 Hinv Hnow He Hd. cbn [terms_cost terms_gap Japan920_terms].
  destruct (record_after_allowed c Hc _ _ _ _ _ Hinv Hnow He Hd)
    as (Hs & Htok & _ & _ & _ & Hl & Hr).
  pose proof (evaluate_inv c Hc _ _ _ _ _ Hinv Hnow He) as Hinv1.
  pose proof (estimated_airtime_nonneg c n). pose proof (ok_gap c Hc).
  change (record_transmit p1 now n) with (Japan920_record_transmit p1 now n).
  rewrite Hr. cbn. split_and!; try done; try lia.
  destruct Hinv1 as [? ? ? ?]. split; cbn; unfold is_u64, UINT64_MAX in *; (done || lia).
Qed.

Lemma Japan920RadioPolicy_make_inv c :
  Config_ok c -> Policy_inv c (Japan920RadioPolicy_make c).
Proof.
  intros [? ? ? ?]. split; cbn; unfold is_u64, UINT64_MAX in *; (done || lia).
Qed.

(** ** Reference airtime *)

(** The LoRa time-on-air formula in exact arithmetic: the symbols are counted in
    quarters, a symbol lasts [2^sf / 125] milliseconds, and the result is rounded
    up. *)
Definition exact_airtime_ms (p : Japan920Profile) (n : nat) : Z :=
  let sf := p.(spreading_factor) in
  let de := if 11 <=? sf then 1 else 0 in
  let numerator := 8 * Z.of_nat n - 4 * sf + 44 in
  let denominator := 4 * (sf - 2 * de) in
  let groups := Z.max 0 (- ((- numerator) / denominator)) in
  let quarters :=
    4 * p.(preamble_symbols) + 17 + 4 * (8 + groups * p.(coding_rate_denominator)) in
  - ((- (quarters * 2 ^ sf)) / 500).

(** ** Property theorems *)

(** C40: the airtime budget holds in every window.  Take any policy state of a
    valid configuration and any attempts made under the port's protocol (ask,
    send if allowed, record if accepted) at ticks of a window [first, last], in
    any order, clock regressions included.  The calculated airtime of what went
    out is at most the bucket capacity plus one [refill_denominator]th of the
    window, up to rounding, and consecutive transmissions are at least
    [minimum_gap_ms] apart. *)
Theorem Japan920_airtime_budget c p l out p' first last :
  Config_ok c -> Policy_inv c p -> first <= last ->
  Forall (fun a => is_u64 a.(attempt_tick) /\ first <= a.(attempt_tick) <= last) l ->
  offers p l = (out, p') ->
  total_cost (Japan920_terms c) out <=
    c.(refill_denominator) * c.(bucket_capacity_ms) + (last - first) +
    (c.(refill_denominator) - 1) /\
  gaps_kept (Japan920_terms c) p.(next_transmit_tick) out.
Proof.
  intros Hc Hinv Hfl Hl Ho. pose proof (ok_denominator c Hc).
  split.
  - pose proof (offers_window (Japan920_terms c) (BudgetedPolicy0 := Japan920_budget c Hc)
      ltac:(cbn; lia) p l out p' first last Hinv Hfl Hl ltac:(cbn; lia) Ho) as Hw.
    cbn [terms_capacity terms_rate terms_slack Japan920_terms] in Hw. lia.
  - eapply (offers_gaps (Japan920_terms c) (BudgetedPolicy0 := Japan920_budget c Hc));
      [exact Hinv| |exact Ho]. eapply Forall_impl; [exact Hl|]. by intros a [? _].
Qed.

Definition default_attempts : list Attempt :=
  [mkAttempt 1000 48 true; mkAttempt 1050 48 true; mkAttempt 1100 200 true;
   mkAttempt 900 48 true; mkAttempt 2000 48 true].

Lemma Japan920PolicyConfig_default_ok : Config_ok Japan920PolicyConfig_default.
Proof. by split. Qed.

(** The second attempt falls into the gap; the fourth, at an earlier tick, locks
    the policy. *)
Lemma Japan920_airtime_budget_witness :
  exists out p',
    offers (Japan920RadioPolicy_make Japan920PolicyConfig_default) default_attempts
      = (out, p') /\
    map attempt_tick out = [1000; 1100] /\
    total_cost (Japan920_terms Japan920PolicyConfig_default) out <=
      10 * 6000 + (2000 - 900) + (10 - 1) /\
    gaps_kept (Japan920_terms Japan920PolicyConfig_default) 0 out.
Proof.
  destruct (offers (Japan920RadioPolicy_make Japan920PolicyConfig_default) default_attempts)
    as [out p'] eqn:Ho.
  exists out, p'. split; [reflexivity|]. split.
  - change out with (fst (out, p')). rewrite <- Ho. vm_compute. reflexivity.
  - apply (Japan920_airtime_budget Japan920PolicyConfig_default
             (Japan920RadioPolicy_make Japan920PolicyConfig_default)
             default_attempts out p' 900 2000).
    + apply Japan920PolicyConfig_default_ok.
    + apply Japan920RadioPolicy_make_inv, Japan920PolicyConfig_default_ok.
    + lia.
    + repeat constructor; cbn; unfold UINT64_MAX; lia.
    + exact Ho.
Defined.

(** the floating-point airtime of the default profile is exact.  For every
    datagram size from 1 to 255 the double computation, rounded up, gives the
    value of the LoRa formula in exact arithmetic; it is positive and within the
    bucket, so every datagram can be sent. *)
Theorem default_airtime_exact n :
  (1 <= n <= kMaximumDatagramBytes)%nat ->
  estimated_airtime_ms Japan920PolicyConfig_default n =
    exact_airtime_ms Japan920Profile_default n /\
  0 < estimated_airtime_ms Japan920PolicyConfig_default n <=
    bucket_capacity_ms Japan920PolicyConfig_default.
Proof.
  intros Hn.
  assert (forallb (fun n =>
    let a := estimated_airtime_ms Japan920PolicyConfig_default n in
    (a =? exact_airtime_ms Japan920Profile_default n) && (0 <? a) && (a <=? 6000))
    (seq 1 255) = true) as Hall by (vm_compute; reflexivity).
  rewrite List.forallb_forall in Hall. specialize (Hall n). cbn zeta in Hall.
  rewrite List.in_seq in Hall. unfold kMaximumDatagramBytes in Hn.
  specialize (Hall ltac:(lia)). reflect_bools. by split_and!.
Qed.

Lemma default_airtime_exact_witness :
  (1 <= 48 <= kMaximumDatagramBytes)%nat /\
  estimated_airtime_ms Japan920PolicyConfig_default 48 =
    exact_airtime_ms Japan920Profile_default 48 /\
  0 < estimated_airtime_ms Japan920PolicyConfig_default 48 <= 6000.
Proof.
  assert (1 <= 48 <= kMaximumDatagramBytes)%nat as H
    by (unfold kMaximumDatagramBytes; lia).
  split; [exact H|]. exact (default_airtime_exact 48 H).
Defined.

(** a deferral is honest.  When a valid policy defers a datagram because
    tokens are missing, the tick it names lies in the future, and asking again
    at that tick or any later one is answered [Allowed] (as long as the tick did
    not saturate and the capacity in ticks fits 64 bits, as with the default
    configuration). *)
Theorem Japan920_deferral_honest c p now n p1 tick t :
  Config_ok c -> Policy_inv c p -> is_u64 now -> is_u64 t ->
  c.(bucket_capacity_ms) * c.(refill_denominator) <= UINT64_MAX ->
  Japan920_evaluate_transmit p now n =
    (mkRadioTransmitDecision TransmitStatus_Deferred tick, p1) ->
  p1.(next_transmit_tick) <= now -> tick < UINT64_MAX -> tick <= t ->
  now < tick /\
  fst (Japan920_evaluate_transmit p1 t n) = mkRadioTransmitDecision TransmitStatus_Allowed t.
Proof. intros Hc. by apply deferral_enough. Qed.

(** A bucket with 100 ms left at tick 1000 defers a 48 byte datagram (415 ms)
    to tick 4150. *)
Definition nearly_empty : Japan920RadioPolicy :=
  mkJapan920RadioPolicy Japan920PolicyConfig_default 100 1000 0 true true.

Lemma Japan920_deferral_honest_witness :
  Japan920_evaluate_transmit nearly_empty 1000 48 =
    (mkRadioTransmitDecision TransmitStatus_Deferred 4150, nearly_empty) /\
  1000 < 4150 /\
  fst (Japan920_evaluate_transmit nearly_empty 5000 48) =
    mkRadioTransmitDecision TransmitStatus_Allowed 5000.
Proof.
  assert (Japan920_evaluate_transmit nearly_empty 1000 48 =
    (mkRadioTransmitDecision TransmitStatus_Deferred 4150, nearly_empty)) as He
    by (vm_compute; reflexivity).
  split; [exact He|].
  apply (Japan920_deferral_honest Japan920PolicyConfig_default nearly_empty 1000 48
           nearly_empty 4150 5000);
    [apply Japan920PolicyConfig_default_ok| | | | |exact He|..];
    [split|..]; cbn; unfold is_u64, UINT64_MAX; (reflexivity || lia).
Defined.
