(* ===== verification/LanPolicy.v ===== *)
(** * LanPolicy: the byte budget of the LAN broadcast transport

    src/adapters/network/lan_broadcast_policy.cpp: a token bucket of bytes.
    [size_t] and [RadioTick] are 64 bits wide. *)
From S2P Require Import Prelude Ports TokenBudget.

(** ** Definitions *)

Record LanBroadcastPolicyConfig := mkLanBroadcastPolicyConfig {
  lan_minimum_gap_ms : Z;
  bucket_capacity_bytes : Z;
  refill_bytes_per_ms : Z
}.

Definition LanBroadcastPolicyConfig_default : LanBroadcastPolicyConfig :=
  mkLanBroadcastPolicyConfig 10 (4 * 1024) 64.

Record LanBroadcastPolicy := mkLanBroadcastPolicy {
  lan_config : LanBroadcastPolicyConfig;
  tokens_bytes : Z;
  lan_last_refill_tick : Z;
  lan_next_transmit_tick : Z;
  lan_clock_started : bool;
  lan_valid : bool
}.

Definition LanBroadcastPolicy_make (c : LanBroadcastPolicyConfig) : LanBroadcastPolicy :=
  mkLanBroadcastPolicy c c.(bucket_capacity_bytes) 0 0 false
    ((0 <? c.(lan_minimum_gap_ms)) &&
     (Z.of_nat kMaximumDatagramBytes <=? c.(bucket_capacity_bytes)) &&
     (0 <? c.(refill_bytes_per_ms))).

Definition lan_saturating_add (left right : Z) : Z :=
  if UINT64_MAX - right <? left then UINT64_MAX else u64 (left + right).

Definition lan_with_valid (p : LanBroadcastPolicy) (v : bool) : LanBroadcastPolicy :=
  mkLanBroadcastPolicy p.(lan_config) p.(tokens_bytes) p.(lan_last_refill_tick)
    p.(lan_next_transmit_tick) p.(lan_clock_started) v.

Definition lan_refill (p : LanBroadcastPolicy) (now_tick : Z) : LanBroadcastPolicy :=
  if negb p.(lan_clock_started) then
    mkLanBroadcastPolicy p.(lan_config) p.(tokens_bytes) now_tick
      p.(lan_next_transmit_tick) true p.(lan_valid)
  else
    let elapsed := u64 (now_tick - p.(lan_last_refill_tick)) in
    if elapsed =? 0 then p
    else
      let maximum := UINT64_MAX in
      let elapsed_size := if maximum <? elapsed then maximum else elapsed in
      let added :=
        if maximum / p.(lan_config).(refill_bytes_per_ms) <? elapsed_size
        then maximum
        else u64 (elapsed_size * p.(lan_config).(refill_bytes_per_ms)) in
      mkLanBroadcastPolicy p.(lan_config)
        (Z.min p.(lan_config).(bucket_capacity_bytes)
           (if maximum - p.(tokens_bytes) <? added then maximum
            else u64 (p.(tokens_bytes) + added)))
        now_tick p.(lan_next_transmit_tick) true p.(lan_valid).

Definition Lan_evaluate_transmit (p : LanBroadcastPolicy) (now_tick : Z)
    (datagram_size : nat) : RadioTransmitDecision * LanBroadcastPolicy :=
  if negb p.(lan_valid) || (datagram_size =? 0)%nat ||
     (kMaximumDatagramBytes <? datagram_size)%nat
  then (mkRadioTransmitDecision TransmitStatus_Invalid 0, p)
  else if p.(lan_clock_started) && (now_tick <? p.(lan_last_refill_tick))
  then (mkRadioTransmitDecision TransmitStatus_Locked 0, lan_with_valid p false)
  else
    let p := lan_refill p now_tick in
    let size := Z.of_nat datagram_size in
    if now_tick <? p.(lan_next_transmit_tick)
    then (mkRadioTransmitDecision TransmitStatus_Deferred p.(lan_next_transmit_tick), p)
    else if p.(tokens_bytes) <? size
    then
      let deficit := u64 (size - p.(tokens_bytes)) in
      let wait := u64 (u64 (deficit + p.(lan_config).(refill_bytes_per_ms)) - 1) /
                  p.(lan_config).(refill_bytes_per_ms) in
      (mkRadioTransmitDecision TransmitStatus_Deferred
         (lan_saturating_add now_tick wait), p)
    else (mkRadioTransmitDecision TransmitStatus_Allowed now_tick, p).

Definition Lan_record_transmit (p : LanBroadcastPolicy) (at_tick : Z)
    (datagram_size : nat) : LanBroadcastPolicy :=
  if negb p.(lan_valid) then p
  else
    let '(decision, p) := Lan_evaluate_transmit p at_tick datagram_size in
    match decision.(transmit_status) with
    | TransmitStatus_Allowed =>
        mkLanBroadcastPolicy p.(lan_config)
          (u64 (p.(tokens_bytes) - Z.of_nat datagram_size))
          p.(lan_last_refill_tick)
          (lan_saturating_add at_tick p.(lan_config).(lan_minimum_gap_ms))
          p.(lan_clock_started) p.(lan_valid)
    | _ => lan_with_valid p false
    end.

#[global] Instance LanBroadcastPolicy_policy : IRadioPolicy LanBroadcastPolicy := {
  evaluate_transmit := Lan_evaluate_transmit;
  record_transmit := Lan_record_transmit
}.

(** ** Invariant *)

Record LanConfig_ok (c : LanBroadcastPolicyConfig) : Prop := {
  lan_ok_gap : 0 < c.(lan_minimum_gap_ms) <= UINT64_MAX;
  lan_ok_capacity : 255 <= c.(bucket_capacity_bytes) <= UINT64_MAX;
  lan_ok_refill : 0 < c.(refill_bytes_per_ms) <= UINT64_MAX
}.

Record Lan_inv (c : LanBroadcastPolicyConfig) (p : LanBroadcastPolicy) : Prop := {
  lan_inv_config : p.(lan_config) = c;
  lan_inv_tokens : 0 <= p.(tokens_bytes) <= c.(bucket_capacity_bytes);
  lan_inv_last : is_u64 p.(lan_last_refill_tick);
  lan_inv_next : is_u64 p.(lan_next_transmit_tick)
}.

Definition Lan_terms (c : LanBroadcastPolicyConfig) : BudgetTerms := {|
  terms_capacity := c.(bucket_capacity_bytes);
  terms_rate := c.(refill_bytes_per_ms);
  terms_slack := 0;
  terms_cost := Z.of_nat;
  terms_gap := c.(lan_minimum_gap_ms)
|}.

(** ** Lemmas *)

Lemma lan_saturating_add_min a b :
  is_u64 a -> is_u64 b -> lan_saturating_add a b = Z.min UINT64_MAX (a + b).
Proof.
  unfold lan_saturating_add, is_u64, u64, UINT64_MAX. intros.
  destruct (Z.ltb_spec (18446744073709551615 - b) a); [lia|]. rewrite Z.mod_small; lia.
Qed.

Section LanLemmas.
Context (c : LanBroadcastPolicyConfig) (Hc : LanConfig_ok c).

(** The tokens after [elapsed] ticks, without the saturation: it never matters
    below the capacity. *)
Lemma lan_added tokens elapsed :
  0 <= tokens <= c.(bucket_capacity_bytes) -> 0 < elapsed <= UINT64_MAX ->
  let added := if UINT64_MAX / c.(refill_bytes_per_ms) <? elapsed then UINT64_MAX
               else u64 (elapsed * c.(refill_bytes_per_ms)) in
  Z.min c.(bucket_capacity_bytes)
    (if UINT64_MAX - tokens <? added then UINT64_MAX else u64 (tokens + added)) =
  Z.min c.(bucket_capacity_bytes) (tokens + elapsed * c.(refill_bytes_per_ms)).
Proof.
  intros Ht He. pose proof (lan_ok_capacity c Hc) as Hcap.
  pose proof (lan_ok_refill c Hc) as Hr. set (r := refill_bytes_per_ms c) in *.
  pose proof (Z.div_mod UINT64_MAX r ltac:(lia)) as Hdm.
  pose proof (Z.mod_pos_bound UINT64_MAX r ltac:(lia)) as Hmod.
  cbn zeta. destruct (Z.ltb_spec (UINT64_MAX / r) elapsed) as [Hbig|Hsmall].
  - assert (UINT64_MAX < elapsed * r) by nia.
    destruct (Z.ltb_spec (UINT64_MAX - tokens) UINT64_MAX); [lia|].
    assert (tokens = 0) as -> by lia.
    unfold u64. rewrite Z.mod_small by (unfold UINT64_MAX; lia). lia.
  - assert (elapsed * r <= UINT64_MAX) by nia.
    unfold u64. rewrite (Z.mod_small (elapsed * r)) by (unfold UINT64_MAX in *; nia).
    destruct (Z.ltb_spec (UINT64_MAX - tokens) (elapsed * r)); [lia|].
    rewrite Z.mod_small by (unfold UINT64_MAX in *; nia). lia.
Qed.

Lemma lan_refill_spec p now :
  Lan_inv c p -> is_u64 now ->
  (p.(lan_clock_started) = true -> p.(lan_last_refill_tick) <= now) ->
  lan_refill p now =
    mkLanBroadcastPolicy c
      (if p.(lan_clock_started)
       then Z.min c.(bucket_capacity_bytes)
              (p.(tokens_bytes) +
               (now - p.(lan_last_refill_tick)) * c.(refill_bytes_per_ms))
       else p.(tokens_bytes))
      now p.(lan_next_transmit_tick) true p.(lan_valid) /\
  Lan_inv c (lan_refill p now).
Proof.
  intros [Hcfg Htok Hlast Hnext] Hnow Hmono.
  pose proof (lan_ok_capacity c Hc) as Hcap. pose proof (lan_ok_refill c Hc) as Hr.
  assert (lan_refill p now =
    mkLanBroadcastPolicy c
      (if p.(lan_clock_started)
       then Z.min c.(bucket_capacity_bytes)
              (p.(tokens_bytes) +
               (now - p.(lan_last_refill_tick)) * c.(refill_bytes_per_ms))
       else p.(tokens_bytes))
      now p.(lan_next_transmit_tick) true p.(lan_valid)) as Heq.
  { unfold lan_refill. rewrite Hcfg. destruct (lan_clock_started p) eqn:Hs; [|done].
    specialize (Hmono eq_refl). cbn [negb]. unfold is_u64 in *.
    cbv zeta.
    assert (u64 (now - lan_last_refill_tick p) = now - lan_last_refill_tick p) as ->
      by (unfold u64, UINT64_MAX in *; rewrite Z.mod_small; lia).
    destruct (Z.eqb_spec (now - lan_last_refill_tick p) 0) as [Hz|Hz].
    - rewrite Hz, Z.mul_0_l, Z.add_0_r, Z.min_r by lia.
      assert (now = lan_last_refill_tick p) as -> by lia.
      destruct p; cbn in *. by subst.
    - rewrite (proj2 (Z.ltb_ge UINT64_MAX _)) by lia.
      f_equal. apply lan_added; lia. }
  split; [exact Heq|]. rewrite Heq. split; cbn; try done.
  destruct (lan_clock_started p); [|lia]. specialize (Hmono eq_refl). nia.
Qed.

Lemma lan_evaluate_cases p now n d p' :
  Lan_inv c p -> is_u64 now -> Lan_evaluate_transmit p now n = (d, p') ->
  (d.(transmit_status) = TransmitStatus_Invalid /\ p' = p) \/
  (d.(transmit_status) = TransmitStatus_Locked /\ p' = lan_with_valid p false) \/
  ((p.(lan_clock_started) = true -> p.(lan_last_refill_tick) <= now) /\
   p' = lan_refill p now /\ p.(lan_valid) = true /\ (1 <= n <= kMaximumDatagramBytes)%nat /\
   (d.(transmit_status) = TransmitStatus_Deferred \/
    (d = mkRadioTransmitDecision TransmitStatus_Allowed now /\
     p'.(lan_next_transmit_tick) <= now /\ Z.of_nat n <= p'.(tokens_bytes)))).
Proof.
  intros Hinv Hnow. unfold Lan_evaluate_transmit.
  destruct (lan_valid p) eqn:Hv; cbn [negb orb]; [|intros [= <- <-]; by left].
  destruct (Nat.eqb_spec n 0); cbn [orb]; [intros [= <- <-]; by left|].
  destruct (Nat.ltb_spec kMaximumDatagramBytes n); [intros [= <- <-]; by left|].
  destruct (lan_clock_started p && (now <? lan_last_refill_tick p)) eqn:Hback.
  { intros [= <- <-]. by right; left. }
  assert (lan_clock_started p = true -> lan_last_refill_tick p <= now) as Hmono.
  { intros Hs. rewrite Hs in Hback. cbn in Hback. by apply Z.ltb_ge. }
  intros Hd. right; right. set (q := lan_refill p now) in *.
  destruct (Z.ltb_spec now (lan_next_transmit_tick q)) as [Hgap|Hgap].
  { injection Hd as <- <-. split_and!; [done|done|done|lia|lia|by left]. }
  destruct (Z.ltb_spec (tokens_bytes q) (Z.of_nat n)) as [Htok|Htok];
    injection Hd as <- <-; (split_and!; [done|done|done|lia|lia|]); [by left|by right].
Qed.

Lemma lan_evaluate_inv p now n d p' :
  Lan_inv c p -> is_u64 now -> Lan_evaluate_transmit p now n = (d, p') -> Lan_inv c p'.
Proof.
  intros Hinv Hnow He.
  destruct (lan_evaluate_cases _ _ _ _ _ Hinv Hnow He)
    as [[_ ->]|[(_ & ->)|(Hmono & -> & _)]]; [done| |by apply lan_refill_spec].
  by destruct Hinv; split.
Qed.

Lemma lan_record_after_allowed p now n d p1 :
  Lan_inv c p -> is_u64 now -> Lan_evaluate_transmit p now n = (d, p1) ->
  d.(transmit_status) = TransmitStatus_Allowed ->
  p.(lan_next_transmit_tick) <= now /\ Z.of_nat n <= p1.(tokens_bytes) /\
  p1.(lan_clock_started) = true /\ p1.(lan_last_refill_tick) = now /\
  Lan_record_transmit p1 now n =
    mkLanBroadcastPolicy c (p1.(tokens_bytes) - Z.of_nat n) now
      (Z.min UINT64_MAX (now + c.(lan_minimum_gap_ms))) true true.
Proof.
  intros Hinv Hnow He Hd.
  destruct (lan_evaluate_cases _ _ _ _ _ Hinv Hnow He)
    as [[Hd' _]|[(Hd' & _)|(Hmono & Hp1 & Hv & Hn & [Hd'|(-> & Hgap & Htok)])]];
    try (rewrite Hd in Hd'; done).
  destruct (lan_refill_spec p now Hinv Hnow Hmono) as [Heq Hinv1].
  rewrite <- Hp1 in *. pose proof (lan_inv_tokens _ _ Hinv1) as Ht1.
  pose proof (lan_ok_capacity c Hc) as Hcap. pose proof (lan_ok_gap c Hc) as Hg.
  assert (lan_clock_started p1 = true /\ lan_last_refill_tick p1 = now /\
          lan_valid p1 = true /\ lan_config p1 = c /\
          lan_next_transmit_tick p1 = lan_next_transmit_tick p)
    as (Hs1 & Hl1 & Hv1 & Hcfg1 & Hn1) by (rewrite Heq; cbn; by rewrite Hv).
  assert (lan_refill p1 now = p1) as Hidem.
  { destruct (lan_refill_spec p1 now Hinv1 Hnow ltac:(lia)) as [-> _].
    rewrite Hs1, Hl1, Z.sub_diag, Z.mul_0_l, Z.add_0_r, Z.min_r, Hv1 by lia.
    destruct p1; cbn in *. by subst. }
  assert (Lan_evaluate_transmit p1 now n =
            (mkRadioTransmitDecision TransmitStatus_Allowed now, p1)) as He1.
  { unfold Lan_evaluate_transmit. rewrite Hv1, Hs1, Hl1. cbn [negb orb andb].
    rewrite (proj2 (Nat.eqb_neq n 0)), (proj2 (Nat.ltb_ge _ n)) by lia. cbn [orb].
    rewrite (proj2 (Z.ltb_ge now now)), Hidem by lia.
    by rewrite (proj2 (Z.ltb_ge now _)), (proj2 (Z.ltb_ge (tokens_bytes p1) _)) by lia. }
  split_and!; try done; [lia|].
  unfold Lan_record_transmit. rewrite Hv1, He1. cbn [negb transmit_status].
  rewrite Hcfg1, Hs1, Hl1, Hv1. unfold u64. unfold UINT64_MAX in *.
  rewrite Z.mod_small by lia.
  by rewrite lan_saturating_add_min by (done || unfold is_u64, UINT64_MAX; lia).
Qed.

End LanLemmas.

(** ** The policy implements the budget interface *)

Program Definition Lan_budget (c : LanBroadcastPolicyConfig) (Hc : LanConfig_ok c)
  : BudgetedPolicy LanBroadcastPolicy (Lan_terms c) := {|
  budget_inv := Lan_inv c;
  budget_started := lan_clock_started;
  budget_credit := tokens_bytes;
  budget_clock := lan_last_refill_tick;
  budget_next := lan_next_transmit_tick
|}.
Next Obligation. intros c Hc p Hinv. apply (lan_inv_tokens _ _ Hinv). Qed.
Next Obligation. intros c Hc p now n d p' Hinv Hnow He. by eapply lan_evaluate_inv. Qed.
Next Obligation.
  intros c Hc p now n d p' Hinv Hnow He. cbn [terms_rate Lan_terms].
  destruct (lan_evaluate_cases c _ _ _ _ _ Hinv Hnow He)
    as [[_ ->]|[(_ & ->)|(Hmono & -> & _)]];
    try (split; [done|intros Hs; cbn; split_and!; (done || lia)]).
  destruct (lan_refill_spec c Hc p now Hinv Hnow Hmono) as [-> _]. cbn.
  split; [done|]. intros Hs. rewrite Hs. split_and!; (done || nia).
Qed.
Next Obligation.
  intros c Hc p now n d p' Hinv Hnow He Hd. cbn [terms_slack Lan_terms].
  destruct (lan_record_after_allowed c Hc _ _ _ _ _ Hinv Hnow He Hd)
    as (? & _ & ? & ? & _). split_and!; (done || lia).
Qed.
Next Obligation.
  intros c Hc p now n d p1 Hinv Hnow He Hd. cbn [terms_cost terms_gap Lan_terms].
  destruct (lan_record_after_allowed c Hc _ _ _ _ _ Hinv Hnow He Hd)
    as (Hgap & Htok & Hs & Hl & Hr).
  pose proof (lan_evaluate_inv c Hc _ _ _ _ _ Hinv Hnow He) as Hinv1.
  pose proof (lan_ok_gap c Hc).
  change (record_transmit p1 now n) with (Lan_record_transmit p1 now n).
  rewrite Hr. cbn. split_and!; try done; try lia.
  destruct Hinv1 as [? ? ? ?]. split; cbn; unfold is_u64, UINT64_MAX in *; (done || lia).
Qed.

Lemma LanBroadcastPolicyConfig_default_ok : LanConfig_ok LanBroadcastPolicyConfig_default.
Proof. by split. Qed.

Lemma LanBroadcastPolicy_make_inv c :
  LanConfig_ok c -> Lan_inv c (LanBroadcastPolicy_make c).
Proof.
  intros [? ? ?]. split; cbn; unfold is_u64, UINT64_MAX in *; (done || lia).
Qed.

(** ** Property theorems *)

(** The LAN byte budget holds in every window.  For any state of a valid
    configuration and any attempts under the port's protocol at ticks of a
    window [first, last], at most the bucket capacity plus
    [refill_bytes_per_ms] bytes per tick of the window go out, and consecutive
    transmissions are at least the gap apart; the saturating 64-bit arithmetic
    of the refill never loses or invents a token below the capacity. *)
Theorem Lan_byte_budget c p l out p' first last :
  LanConfig_ok c -> Lan_inv c p -> first <= last ->
  Forall (fun a => is_u64 a.(attempt_tick) /\ first <= a.(attempt_tick) <= last) l ->
  offers p l = (out, p') ->
  total_cost (Lan_terms c) out <=
    c.(bucket_capacity_bytes) + c.(refill_bytes_per_ms) * (last - first) /\
  gaps_kept (Lan_terms c) p.(lan_next_transmit_tick) out.
Proof.
  intros Hc Hinv Hfl Hl Ho. pose proof (lan_ok_refill c Hc).
  split.
  - pose proof (offers_window (Lan_terms c) (BudgetedPolicy0 := Lan_budget c Hc)
      ltac:(cbn; lia) p l out p' first last Hinv Hfl Hl ltac:(cbn; lia) Ho) as Hw.
    cbn [terms_capacity terms_rate terms_slack Lan_terms] in Hw. lia.
  - eapply (offers_gaps (Lan_terms c) (BudgetedPolicy0 := Lan_budget c Hc));
      [exact Hinv| |exact Ho]. eapply Forall_impl; [exact Hl|]. by intros a [? _].
Qed.

Definition lan_attempts : list Attempt :=
  [mkAttempt 5 255 true; mkAttempt 9 255 true; mkAttempt 15 255 true].

Lemma Lan_byte_budget_witness :
  exists out p',
    offers (LanBroadcastPolicy_make LanBroadcastPolicyConfig_default) lan_attempts
      = (out, p') /\
    map attempt_tick out = [5; 15] /\
    total_cost (Lan_terms LanBroadcastPolicyConfig_default) out <= 4096 + 64 * (15 - 5) /\
    gaps_kept (Lan_terms LanBroadcastPolicyConfig_default) 0 out.
Proof.
  destruct (offers (LanBroadcastPolicy_make LanBroadcastPolicyConfig_default) lan_attempts)
    as [out p'] eqn:Ho.
  exists out, p'. split; [reflexivity|]. split.
  - change out with (fst (out, p')). rewrite <- Ho. vm_compute. reflexivity.
  - apply (Lan_byte_budget LanBroadcastPolicyConfig_default
             (LanBroadcastPolicy_make LanBroadcastPolicyConfig_default)
             lan_attempts out p' 5 15).
    + apply LanBroadcastPolicyConfig_default_ok.
    + apply LanBroadcastPolicy_make_inv, LanBroadcastPolicyConfig_default_ok.
    + lia.
    + repeat constructor; cbn; unfold UINT64_MAX; lia.
    + exact Ho.
Defined.
