(* ===== verification/Transports.v ===== *)
(** * Transports: the two datagram transports of the program

    src/adapters/network/udp_broadcast_transport.cpp and
    src/adapters/radio/cap_lora_1262_radio.cpp with their headers: the adapters
    that turn a nonblocking UDP socket and the SX1262 radio into an
    [IDatagramTransport].  The socket and the radio are interfaces.  The theory
    states the contract of a transport as a class and shows that both keep it,
    and accounts for every datagram: what is accepted is what went to the device,
    and what the device gave is handed out, pending or counted as dropped.

    A destination buffer is represented by what it holds after the call. *)
From S2P Require Import Prelude Ports.

(** ** Definitions *)

(** *** The UDP broadcast transport *)

Inductive UdpSocketSendStatus :=
| UdpSend_Sent
| UdpSend_WouldBlock
| UdpSend_Disconnected
| UdpSend_Failed.

Inductive UdpSocketReceiveStatus :=
| UdpReceive_Received
| UdpReceive_WouldBlock
| UdpReceive_Disconnected
| UdpReceive_Truncated
| UdpReceive_Failed.

Record UdpSocketReceiveResult := mkUdpSocketReceiveResult {
  udp_status : UdpSocketReceiveStatus;
  udp_size : nat
}.

(** [socket_try_receive] gives the contents of the destination too. *)
Class IUdpBroadcastSocket (S : Type) := {
  socket_ready : S -> bool;
  socket_connected : S -> bool;
  socket_try_send : S -> bytes -> UdpSocketSendStatus * S;
  socket_try_receive : S -> nat -> UdpSocketReceiveResult * bytes * S;
  socket_close : S -> S
}.

Record UdpBroadcastTransportMetrics := mkUdpBroadcastTransportMetrics {
  udp_accepted_transmits : Z;
  udp_backpressure_events : Z;
  udp_received_datagrams : Z;
  udp_dropped_datagrams : Z;
  udp_socket_failures : Z
}.

Record UdpBroadcastTransport (S : Type) := mkUdpBroadcastTransport {
  udp_socket : S;
  udp_mtu : nat;
  udp_closed : bool;
  udp_metrics : UdpBroadcastTransportMetrics
}.
Arguments mkUdpBroadcastTransport {S} _ _ _ _.
Arguments udp_socket {S} _.
Arguments udp_mtu {S} _.
Arguments udp_closed {S} _.
Arguments udp_metrics {S} _.

Definition zero_udp_metrics : UdpBroadcastTransportMetrics :=
  mkUdpBroadcastTransportMetrics 0 0 0 0 0.

Definition count_accepted (m : UdpBroadcastTransportMetrics) :=
  mkUdpBroadcastTransportMetrics (u64 (m.(udp_accepted_transmits) + 1)) m.(udp_backpressure_events)
    m.(udp_received_datagrams) m.(udp_dropped_datagrams) m.(udp_socket_failures).
Definition count_backpressure (m : UdpBroadcastTransportMetrics) :=
  mkUdpBroadcastTransportMetrics m.(udp_accepted_transmits) (u64 (m.(udp_backpressure_events) + 1))
    m.(udp_received_datagrams) m.(udp_dropped_datagrams) m.(udp_socket_failures).
Definition count_udp_received (m : UdpBroadcastTransportMetrics) :=
  mkUdpBroadcastTransportMetrics m.(udp_accepted_transmits) m.(udp_backpressure_events)
    (u64 (m.(udp_received_datagrams) + 1)) m.(udp_dropped_datagrams) m.(udp_socket_failures).
Definition count_udp_dropped (m : UdpBroadcastTransportMetrics) :=
  mkUdpBroadcastTransportMetrics m.(udp_accepted_transmits) m.(udp_backpressure_events)
    m.(udp_received_datagrams) (u64 (m.(udp_dropped_datagrams) + 1)) m.(udp_socket_failures).
Definition count_socket_failure (m : UdpBroadcastTransportMetrics) :=
  mkUdpBroadcastTransportMetrics m.(udp_accepted_transmits) m.(udp_backpressure_events)
    m.(udp_received_datagrams) m.(udp_dropped_datagrams) (u64 (m.(udp_socket_failures) + 1)).

Section Udp.
Context {S : Type} `{IUdpBroadcastSocket S}.
Implicit Types t : UdpBroadcastTransport S.

Definition with_udp_socket (s : S) t : UdpBroadcastTransport S :=
  mkUdpBroadcastTransport s t.(udp_mtu) t.(udp_closed) t.(udp_metrics).
Definition with_udp_metrics (f : UdpBroadcastTransportMetrics -> UdpBroadcastTransportMetrics) t
  : UdpBroadcastTransport S :=
  mkUdpBroadcastTransport t.(udp_socket) t.(udp_mtu) t.(udp_closed) (f t.(udp_metrics)).

Definition udp_close t : UdpBroadcastTransport S :=
  if t.(udp_closed) then t
  else mkUdpBroadcastTransport (socket_close t.(udp_socket)) t.(udp_mtu) true t.(udp_metrics).

Definition udp_fail_closed t : UdpBroadcastTransport S :=
  if negb t.(udp_closed) then
    mkUdpBroadcastTransport (socket_close t.(udp_socket)) t.(udp_mtu) true
      (count_socket_failure t.(udp_metrics))
  else t.

Definition UdpBroadcastTransport_make (s : S) (mtu : nat) : UdpBroadcastTransport S :=
  if (kMinimumDatagramMtu <=? mtu)%nat && (mtu <=? kMaximumDatagramBytes)%nat && socket_ready s
  then mkUdpBroadcastTransport s mtu false zero_udp_metrics
  else mkUdpBroadcastTransport (socket_close s) 0 true zero_udp_metrics.

(** [None] is the null pointer. *)
Definition udp_try_send t (data : option bytes) : DatagramSendStatus * UdpBroadcastTransport S :=
  if t.(udp_closed) then (SendStatus_Closed, t)
  else
    match data with
    | None => (SendStatus_Invalid, t)
    | Some data =>
        if (length data =? 0)%nat || (t.(udp_mtu) <? length data)%nat then (SendStatus_Invalid, t)
        else
          let (status, s) := socket_try_send t.(udp_socket) data in
          let t := with_udp_socket s t in
          match status with
          | UdpSend_Sent => (SendStatus_Accepted, with_udp_metrics count_accepted t)
          | UdpSend_WouldBlock => (SendStatus_WouldBlock, with_udp_metrics count_backpressure t)
          | UdpSend_Disconnected => (SendStatus_Disconnected, t)
          | UdpSend_Failed => (SendStatus_Disconnected, udp_fail_closed t)
          end
    end.

Definition nothing (status : DatagramReceiveStatus) : DatagramReceiveResult :=
  mkDatagramReceiveResult status [].

(** [None] is a null destination. *)
Definition udp_try_receive t (capacity : option nat)
  : DatagramReceiveResult * UdpBroadcastTransport S :=
  if t.(udp_closed) then (nothing ReceiveStatus_Closed, t)
  else
    match capacity with
    | None => (nothing ReceiveStatus_Invalid, t)
    | Some capacity =>
        if (capacity =? 0)%nat then (nothing ReceiveStatus_Invalid, t)
        else
          let '(result, destination, s) := socket_try_receive t.(udp_socket) capacity in
          let t := with_udp_socket s t in
          match result.(udp_status) with
          | UdpReceive_Received =>
              if (result.(udp_size) =? 0)%nat || (t.(udp_mtu) <? result.(udp_size))%nat ||
                 (capacity <? result.(udp_size))%nat
              then (nothing ReceiveStatus_WouldBlock, with_udp_metrics count_udp_dropped t)
              else
                (mkDatagramReceiveResult ReceiveStatus_Received
                   (take result.(udp_size) destination),
                 with_udp_metrics count_udp_received t)
          | UdpReceive_WouldBlock => (nothing ReceiveStatus_WouldBlock, t)
          | UdpReceive_Disconnected => (nothing ReceiveStatus_Disconnected, t)
          | UdpReceive_Truncated =>
              (nothing ReceiveStatus_WouldBlock, with_udp_metrics count_udp_dropped t)
          | UdpReceive_Failed => (nothing ReceiveStatus_Disconnected, udp_fail_closed t)
          end
    end.

#[export] Instance udp_transport : IDatagramTransport (UdpBroadcastTransport S) := {
  maximum_datagram_size t := if t.(udp_closed) then 0%nat else t.(udp_mtu);
  try_send t data := udp_try_send t (Some data);
  try_receive t capacity := udp_try_receive t (Some capacity);
  connected t :=
    negb t.(udp_closed) && socket_ready t.(udp_socket) && socket_connected t.(udp_socket);
  closed t := t.(udp_closed);
  close := udp_close
}.
End Udp.

(** *** The transport of the Cap LoRa-1262 radio *)

Inductive RadioStartStatus := RadioStart_Started | RadioStart_Busy | RadioStart_Failed.

Inductive RadioPollStatus :=
| RadioPoll_Idle
| RadioPoll_TransmitComplete
| RadioPoll_Received
| RadioPoll_Failed.

Record RadioPollResult := mkRadioPollResult {
  poll_status : RadioPollStatus;
  poll_size : nat
}.

Class ICapLora1262Radio (S : Type) := {
  radio_ready : S -> bool;
  try_start_transmit : S -> bytes -> RadioStartStatus * S;
  radio_poll : S -> nat -> RadioPollResult * bytes * S;
  radio_shutdown : S -> S
}.

Record CapLora1262TransportMetrics := mkCapLora1262TransportMetrics {
  cap_accepted_transmits : Z;
  cap_busy_transmits : Z;
  cap_received_datagrams : Z;
  cap_dropped_datagrams : Z;
  cap_hardware_failures : Z
}.

(** [pending_receive] is the first [pending_receive_size_] bytes of the buffer. *)
Record CapLora1262Transport (S : Type) := mkCapLora1262Transport {
  cap_radio : S;
  cap_mtu : nat;
  pending_receive : bytes;
  cap_closed : bool;
  cap_metrics : CapLora1262TransportMetrics
}.
Arguments mkCapLora1262Transport {S} _ _ _ _ _.
Arguments cap_radio {S} _.
Arguments cap_mtu {S} _.
Arguments pending_receive {S} _.
Arguments cap_closed {S} _.
Arguments cap_metrics {S} _.

Definition zero_cap_metrics : CapLora1262TransportMetrics :=
  mkCapLora1262TransportMetrics 0 0 0 0 0.

Definition count_started (m : CapLora1262TransportMetrics) :=
  mkCapLora1262TransportMetrics (u64 (m.(cap_accepted_transmits) + 1)) m.(cap_busy_transmits)
    m.(cap_received_datagrams) m.(cap_dropped_datagrams) m.(cap_hardware_failures).
Definition count_busy (m : CapLora1262TransportMetrics) :=
  mkCapLora1262TransportMetrics m.(cap_accepted_transmits) (u64 (m.(cap_busy_transmits) + 1))
    m.(cap_received_datagrams) m.(cap_dropped_datagrams) m.(cap_hardware_failures).
Definition count_cap_received (m : CapLora1262TransportMetrics) :=
  mkCapLora1262TransportMetrics m.(cap_accepted_transmits) m.(cap_busy_transmits)
    (u64 (m.(cap_received_datagrams) + 1)) m.(cap_dropped_datagrams) m.(cap_hardware_failures).
Definition count_cap_dropped (m : CapLora1262TransportMetrics) :=
  mkCapLora1262TransportMetrics m.(cap_accepted_transmits) m.(cap_busy_transmits)
    m.(cap_received_datagrams) (u64 (m.(cap_dropped_datagrams) + 1)) m.(cap_hardware_failures).
Definition count_hardware_failure (m : CapLora1262TransportMetrics) :=
  mkCapLora1262TransportMetrics m.(cap_accepted_transmits) m.(cap_busy_transmits)
    m.(cap_received_datagrams) m.(cap_dropped_datagrams) (u64 (m.(cap_hardware_failures) + 1)).

Section Cap.
Context {S : Type} `{ICapLora1262Radio S}.
Implicit Types t : CapLora1262Transport S.

Definition with_cap_radio (s : S) t : CapLora1262Transport S :=
  mkCapLora1262Transport s t.(cap_mtu) t.(pending_receive) t.(cap_closed) t.(cap_metrics).
Definition with_pending (pending : bytes) t : CapLora1262Transport S :=
  mkCapLora1262Transport t.(cap_radio) t.(cap_mtu) pending t.(cap_closed) t.(cap_metrics).
Definition with_cap_metrics (f : CapLora1262TransportMetrics -> CapLora1262TransportMetrics) t
  : CapLora1262Transport S :=
  mkCapLora1262Transport t.(cap_radio) t.(cap_mtu) t.(pending_receive) t.(cap_closed)
    (f t.(cap_metrics)).

Definition cap_close t : CapLora1262Transport S :=
  if t.(cap_closed) then t
  else mkCapLora1262Transport (radio_shutdown t.(cap_radio)) t.(cap_mtu) [] true t.(cap_metrics).

Definition cap_fail_closed t : CapLora1262Transport S :=
  if negb t.(cap_closed) then
    mkCapLora1262Transport (radio_shutdown t.(cap_radio)) t.(cap_mtu) [] true
      (count_hardware_failure t.(cap_metrics))
  else t.

Definition CapLora1262Transport_make (s : S) (mtu : nat) : CapLora1262Transport S :=
  if (kMinimumDatagramMtu <=? mtu)%nat && (mtu <=? kMaximumDatagramBytes)%nat && radio_ready s
  then mkCapLora1262Transport s mtu [] false zero_cap_metrics
  else mkCapLora1262Transport (radio_shutdown s) 0 [] true zero_cap_metrics.

Definition service_radio t : CapLora1262Transport S :=
  if t.(cap_closed) then t
  else
    let '(result, received, s) := radio_poll t.(cap_radio) kMaximumDatagramBytes in
    let t := with_cap_radio s t in
    match result.(poll_status) with
    | RadioPoll_Idle | RadioPoll_TransmitComplete => t
    | RadioPoll_Received =>
        if (result.(poll_size) =? 0)%nat || (t.(cap_mtu) <? result.(poll_size))%nat
        then with_cap_metrics count_cap_dropped t
        else if negb (length t.(pending_receive) =? 0)%nat
        then with_cap_metrics count_cap_dropped t
        else with_cap_metrics count_cap_received (with_pending (take result.(poll_size) received) t)
    | RadioPoll_Failed => cap_fail_closed t
    end.

Definition cap_try_send t (data : option bytes) : DatagramSendStatus * CapLora1262Transport S :=
  if t.(cap_closed) then (SendStatus_Closed, t)
  else
    match data with
    | None => (SendStatus_Invalid, t)
    | Some data =>
        if (length data =? 0)%nat || (t.(cap_mtu) <? length data)%nat then (SendStatus_Invalid, t)
        else
          let t := service_radio t in
          if t.(cap_closed) then (SendStatus_Disconnected, t)
          else
            let (status, s) := try_start_transmit t.(cap_radio) data in
            let t := with_cap_radio s t in
            match status with
            | RadioStart_Started => (SendStatus_Accepted, with_cap_metrics count_started t)
            | RadioStart_Busy => (SendStatus_WouldBlock, with_cap_metrics count_busy t)
            | RadioStart_Failed => (SendStatus_Disconnected, cap_fail_closed t)
            end
    end.

Definition cap_try_receive t (capacity : option nat)
  : DatagramReceiveResult * CapLora1262Transport S :=
  if t.(cap_closed) then (nothing ReceiveStatus_Closed, t)
  else
    match capacity with
    | None => (nothing ReceiveStatus_Invalid, t)
    | Some capacity =>
        if (capacity =? 0)%nat then (nothing ReceiveStatus_Invalid, t)
        else
          let t := service_radio t in
          if t.(cap_closed) then (nothing ReceiveStatus_Disconnected, t)
          else if (length t.(pending_receive) =? 0)%nat then (nothing ReceiveStatus_WouldBlock, t)
          else if (capacity <? length t.(pending_receive))%nat
          then (nothing ReceiveStatus_Invalid, t)
          else
            (mkDatagramReceiveResult ReceiveStatus_Received t.(pending_receive), with_pending [] t)
    end.

#[export] Instance cap_transport : IDatagramTransport (CapLora1262Transport S) := {
  maximum_datagram_size t := if t.(cap_closed) then 0%nat else t.(cap_mtu);
  try_send t data := cap_try_send t (Some data);
  try_receive t capacity := cap_try_receive t (Some capacity);
  connected t := negb t.(cap_closed) && radio_ready t.(cap_radio);
  closed t := t.(cap_closed);
  close := cap_close
}.
End Cap.

(** *** Uses of a transport *)

Inductive TransportOp :=
| Transport_send (data : bytes)
| Transport_receive (capacity : nat)
| Transport_close.

(** What a sequence of calls got through: the datagrams accepted for sending and
    the datagrams handed out, each in order. *)
Record Traffic := mkTraffic { accepted : list bytes; handed : list bytes }.

Definition transport_step {T} `{IDatagramTransport T} (y : Traffic * T) (op : TransportOp)
  : Traffic * T :=
  let (r, t) := y in
  match op with
  | Transport_send data =>
      let (status, t) := try_send t data in
      (mkTraffic (r.(accepted) ++ match status with SendStatus_Accepted => [data] | _ => [] end)
         r.(handed), t)
  | Transport_receive capacity =>
      let (result, t) := try_receive t capacity in
      (mkTraffic r.(accepted)
         (r.(handed) ++ match result.(receive_status) with
                        | ReceiveStatus_Received => [result.(received_bytes)]
                        | _ => []
                        end), t)
  | Transport_close => (r, close t)
  end.

Definition transport_run {T} `{IDatagramTransport T} (t : T) (ops : list TransportOp) : Traffic * T :=
  foldl transport_step (mkTraffic [] [], t) ops.

(** ** The contract of a transport *)

(** What ports/datagram_transport.h promises of one call: a closed transport
    stays closed and says so, a datagram is refused as invalid exactly when it
    is empty or larger than the link carries, an accepted one fits, and what is
    handed out is not empty and fits both the link and the destination. *)
Class IDatagramTransportLaws (T : Type) `{IDatagramTransport T} := {
  transport_inv : T -> Prop;
  transport_mtu t : transport_inv t -> (maximum_datagram_size t <= kMaximumDatagramBytes)%nat;
  transport_dead t :
    closed t = true -> maximum_datagram_size t = 0%nat /\ connected t = false;
  send_contract t data status t' :
    transport_inv t -> try_send t data = (status, t') ->
    transport_inv t' /\ (closed t = true -> closed t' = true) /\
    (status = SendStatus_Closed <-> closed t = true) /\
    (closed t = false ->
     (status = SendStatus_Invalid <->
      length data = 0%nat \/ (maximum_datagram_size t < length data)%nat)) /\
    (status = SendStatus_Accepted ->
     closed t' = false /\ (0 < length data <= maximum_datagram_size t)%nat);
  receive_contract t capacity result t' :
    transport_inv t -> try_receive t capacity = (result, t') ->
    transport_inv t' /\ (closed t = true -> closed t' = true) /\
    (result.(receive_status) = ReceiveStatus_Closed <-> closed t = true) /\
    (if bool_decide (result.(receive_status) = ReceiveStatus_Received) then
       closed t' = false /\
       (0 < length result.(received_bytes))%nat /\ (length result.(received_bytes) <= capacity)%nat /\
       (length result.(received_bytes) <= maximum_datagram_size t)%nat
     else result.(received_bytes) = []);
  close_contract t : transport_inv t -> transport_inv (close t) /\ closed (close t) = true
}.

(** The devices fill the destination they are given. *)
Class IUdpBroadcastSocketLaws (S : Type) `{IUdpBroadcastSocket S} := {
  socket_fills s capacity r d s' :
    socket_try_receive s capacity = (r, d, s') -> length d = capacity
}.
Class ICapLora1262RadioLaws (S : Type) `{ICapLora1262Radio S} := {
  radio_fills s capacity r d s' :
    radio_poll s capacity = (r, d, s') -> length d = capacity
}.

Section UdpContract.
Context {S : Type} `{IUdpBroadcastSocketLaws S}.
Implicit Types t : UdpBroadcastTransport S.

Definition udp_inv t : Prop := (t.(udp_mtu) <= kMaximumDatagramBytes)%nat.

Lemma udp_fail_closed_closed t : udp_closed (udp_fail_closed t) = true.
Proof. unfold udp_fail_closed. by destruct (udp_closed t) eqn:E. Qed.

Lemma udp_fail_closed_mtu t : udp_mtu (udp_fail_closed t) = udp_mtu t.
Proof. unfold udp_fail_closed. by destruct (udp_closed t). Qed.

#[export] Instance udp_transport_laws : IDatagramTransportLaws (UdpBroadcastTransport S).
Proof.
  refine {| transport_inv := udp_inv |}; cbn; unfold udp_inv.
  - intros t Ht. destruct (udp_closed t); [lia|done].
  - by intros t ->.
  - intros t data status t' Ht. unfold udp_try_send.
    destruct (udp_closed t) eqn:Ec; [by intros [= <- <-]|].
    destruct (_ || _) eqn:E.
    + intros [= <- <-]. rewrite Ec. apply orb_true_iff in E.
      rewrite Nat.eqb_eq, Nat.ltb_lt in E. by split_and!.
    + reflect_bools. destruct (socket_try_send _ data) as [[] s]; intros [= <- <-]; cbn;
        rewrite ?udp_fail_closed_closed, ?udp_fail_closed_mtu; cbn; rewrite ?Ec;
        (split_and!; try done; try lia; intros; split; intros; try done; lia).
  - intros t capacity result t' Ht. unfold udp_try_receive.
    destruct (udp_closed t) eqn:Ec; [by intros [= <- <-]|].
    destruct (capacity =? 0)%nat eqn:E0; [intros [= <- <-]; by rewrite Ec|].
    destruct (socket_try_receive _ capacity) as [[r d] s] eqn:Er.
    apply socket_fills in Er. reflect_bools.
    destruct (udp_status r).
    + destruct (_ || _) eqn:E; intros [= <- <-]; cbn; rewrite Ec; (split_and!; try done).
      rewrite bool_decide_eq_true_2 by done. reflect_bools. rewrite length_take.
      cbn [udp_mtu with_udp_socket] in *. split_and!; [done|lia..].
    + intros [= <- <-]. cbn. by rewrite Ec.
    + intros [= <- <-]. cbn. by rewrite Ec.
    + intros [= <- <-]. cbn. by rewrite Ec.
    + intros [= <- <-]. cbn. rewrite udp_fail_closed_closed, udp_fail_closed_mtu. by split_and!.
  - intros t Ht. unfold udp_close. by destruct (udp_closed t) eqn:E.
Defined.
End UdpContract.

Section CapContract.
Context {S : Type} `{ICapLora1262RadioLaws S}.
Implicit Types t : CapLora1262Transport S.

Record cap_inv t : Prop := {
  cap_inv_mtu : (t.(cap_mtu) <= kMaximumDatagramBytes)%nat;
  cap_inv_pending : (length t.(pending_receive) <= t.(cap_mtu))%nat
}.

Lemma service_radio_inv t :
  cap_inv t -> cap_inv (service_radio t) /\ (service_radio t).(cap_mtu) = t.(cap_mtu) /\
    (t.(cap_closed) = true -> (service_radio t).(cap_closed) = true).
Proof.
  intros [Hm Hp]. unfold service_radio.
  destruct (cap_closed t) eqn:Ec; [by rewrite Ec|].
  destruct (radio_poll _ _) as [[r d] s] eqn:Er. apply radio_fills in Er.
  destruct (poll_status r); cbn -[Nat.ltb]; unfold cap_fail_closed; cbn -[Nat.ltb]; rewrite ?Ec; cbn -[Nat.ltb];
    repeat split_if; cbn -[Nat.ltb]; split_and!; try done; split; cbn; try done; try lia.
  reflect_bools. rewrite length_take. cbn [cap_mtu with_cap_radio] in *. lia.
Qed.

#[export] Instance cap_transport_laws : IDatagramTransportLaws (CapLora1262Transport S).
Proof.
  refine {| transport_inv := cap_inv |}; cbn.
  - intros t Ht. destruct (cap_closed t); [lia|apply Ht].
  - by intros t ->.
  - intros t data status t' Ht. unfold cap_try_send.
    destruct (cap_closed t) eqn:Ec; [by intros [= <- <-]|].
    destruct (_ || _) eqn:E.
    { intros [= <- <-]. rewrite Ec. apply orb_true_iff in E.
      rewrite Nat.eqb_eq, Nat.ltb_lt in E. by split_and!. }
    reflect_bools. destruct (service_radio_inv t Ht) as ([Hm Hp] & Hmtu & _).
    destruct (cap_closed (service_radio t)) eqn:Ec1.
    { intros [= <- <-]. rewrite Ec1. split_and!; try done; try (split; intros; done || lia). }
    destruct (try_start_transmit _ data) as [[] s]; intros [= <- <-]; cbn;
      unfold cap_fail_closed; cbn; rewrite ?Ec1; cbn; split_and!; try done;
      try (split; cbn; lia); intros; try done; try (split; intros; done || lia); lia.
  - intros t capacity result t' Ht. unfold cap_try_receive.
    destruct (cap_closed t) eqn:Ec; [by intros [= <- <-]|].
    destruct (capacity =? 0)%nat eqn:E0; [intros [= <- <-]; by rewrite Ec|].
    destruct (service_radio_inv t Ht) as (Hinv & Hmtu & _). revert Hinv.
    generalize dependent (service_radio t). intros t1 Hmtu [Hm Hp].
    destruct (cap_closed t1) eqn:Ec1; [intros [= <- <-]; by rewrite Ec1|].
    destruct (length _ =? 0)%nat eqn:E1; [intros [= <- <-]; by rewrite Ec1|].
    destruct (capacity <? length _)%nat eqn:E2; [intros [= <- <-]; by rewrite Ec1|].
    reflect_bools. intros [= <- <-]. cbn. rewrite Ec1.
    split_and!; try done; [split; cbn; lia|]. rewrite bool_decide_eq_true_2 by done.
    split_and!; [done|lia..].
  - intros t [Hm Hp]. unfold cap_close. destruct (cap_closed t) eqn:E; [done|].
    split; [split; cbn; lia|done].
Defined.
End CapContract.

(** *** The link of a transport is fixed until it closes *)

#[export] Instance udp_link {S} `{IUdpBroadcastSocket S} : IFixedLink (UdpBroadcastTransport S).
Proof.
  split; unfold keeps_link; cbn [maximum_datagram_size try_send try_receive close udp_transport].
  - intros t data status t'. unfold udp_try_send.
    destruct (udp_closed t) eqn:Ec; [intros [= _ <-]; rewrite Ec; by left|].
    split_if; [intros [= _ <-]; rewrite Ec; by left|].
    destruct (socket_try_send _ data) as [[] s']; intros [= _ <-]; unfold udp_fail_closed; cbn; rewrite ?Ec; cbn; rewrite ?Ec; auto.
  - intros t capacity result t'. unfold udp_try_receive.
    destruct (udp_closed t) eqn:Ec; [intros [= _ <-]; rewrite Ec; by left|].
    split_if; [intros [= _ <-]; rewrite Ec; by left|].
    destruct (socket_try_receive _ capacity) as [[res d] s'].
    destruct (udp_status res); [split_if|..]; intros [= _ <-]; unfold udp_fail_closed; cbn; rewrite ?Ec; cbn; rewrite ?Ec; auto.
  - intros t. unfold udp_close. destruct (udp_closed t) eqn:Ec; cbn; rewrite ?Ec; cbn; rewrite ?Ec; auto.
Qed.

#[export] Instance cap_link {S} `{ICapLora1262Radio S} : IFixedLink (CapLora1262Transport S).
Proof.
  assert (forall t : CapLora1262Transport S, keeps_link t (service_radio t)) as Hs.
  { intros t. unfold keeps_link, service_radio. cbn [maximum_datagram_size cap_transport].
    destruct (cap_closed t) eqn:Ec; [rewrite ?Ec; by left|].
    destruct (radio_poll _ _) as [[res d] s'].
    destruct (poll_status res); repeat split_if; unfold cap_fail_closed; cbn; rewrite ?Ec; cbn; rewrite ?Ec; auto. }
  split; unfold keeps_link in *; cbn [maximum_datagram_size try_send try_receive close cap_transport] in *.
  - intros t data status t'. specialize (Hs t). unfold cap_try_send.
    destruct (cap_closed t) eqn:Ec; [intros [= _ <-]; rewrite Ec; by left|].
    split_if; [intros [= _ <-]; rewrite Ec; by left|]. revert Hs.
    generalize (service_radio t). intros t1 Hs.
    destruct (cap_closed t1) eqn:Ec1; [intros [= _ <-]; rewrite Ec1; by right|].
    destruct (try_start_transmit _ data) as [[] s']; intros [= _ <-]; unfold cap_fail_closed; cbn; rewrite ?Ec1; cbn; rewrite ?Ec1; auto.
  - intros t capacity result t'. specialize (Hs t). unfold cap_try_receive.
    destruct (cap_closed t) eqn:Ec; [intros [= _ <-]; rewrite Ec; by left|].
    split_if; [intros [= _ <-]; rewrite Ec; by left|]. revert Hs.
    generalize (service_radio t). intros t1 Hs.
    destruct (cap_closed t1) eqn:Ec1; [intros [= _ <-]; rewrite Ec1; by right|].
    repeat split_if; intros [= _ <-]; unfold cap_fail_closed; cbn; rewrite ?Ec1; cbn; rewrite ?Ec1; auto.
  - intros t. unfold cap_close. destruct (cap_closed t) eqn:Ec; cbn; rewrite ?Ec; cbn; rewrite ?Ec; auto.
Qed.

(** ** Accounting *)

(** What the device did: the datagrams it took and the arrivals it reported, each
    the datagram or, when it was larger than the destination, the size of the
    destination. *)
Record DeviceLog := mkDeviceLog { taken : list bytes; arrived : list (bytes + nat) }.

Definition log_taken (data : bytes) (l : DeviceLog) := mkDeviceLog (l.(taken) ++ [data]) l.(arrived).
Definition log_arrived (d : bytes + nat) (l : DeviceLog) := mkDeviceLog l.(taken) (l.(arrived) ++ [d]).

Section TracedUdp.
Context {S : Type} `{IUdpBroadcastSocket S}.

#[export] Instance traced_socket : IUdpBroadcastSocket (S * DeviceLog) := {
  socket_ready x := socket_ready x.1;
  socket_connected x := socket_connected x.1;
  socket_try_send x data :=
    let (status, s) := socket_try_send x.1 data in
    (status, (s, match status with UdpSend_Sent => log_taken data x.2 | _ => x.2 end));
  socket_try_receive x capacity :=
    let '(r, d, s) := socket_try_receive x.1 capacity in
    (r, d, (s, match r.(udp_status) with
               | UdpReceive_Received =>
                   log_arrived (if (capacity <? r.(udp_size))%nat then inr capacity
                                else inl (take r.(udp_size) d)) x.2
               | UdpReceive_Truncated => log_arrived (inr capacity) x.2
               | _ => x.2
               end));
  socket_close x := (socket_close x.1, x.2)
}.
End TracedUdp.

Section TracedCap.
Context {S : Type} `{ICapLora1262Radio S}.

#[export] Instance traced_radio : ICapLora1262Radio (S * DeviceLog) := {
  radio_ready x := radio_ready x.1;
  try_start_transmit x data :=
    let (status, s) := try_start_transmit x.1 data in
    (status, (s, match status with RadioStart_Started => log_taken data x.2 | _ => x.2 end));
  radio_poll x capacity :=
    let '(r, d, s) := radio_poll x.1 capacity in
    (r, d, (s, match r.(poll_status) with
               | RadioPoll_Received =>
                   log_arrived (if (capacity <? r.(poll_size))%nat then inr capacity
                                else inl (take r.(poll_size) d)) x.2
               | _ => x.2
               end));
  radio_shutdown x := (radio_shutdown x.1, x.2)
}.
End TracedCap.

(** The arrivals a link of [mtu] bytes lets through. *)
Definition fits (mtu : nat) (a : bytes + nat) : option bytes :=
  match a with
  | inl d => if (length d =? 0)%nat || (mtu <? length d)%nat then None else Some d
  | inr _ => None
  end.

(** A destination that can hold every datagram of the link, as that of every
    caller of [try_receive] can. *)
Definition full_sized (op : TransportOp) : Prop :=
  match op with Transport_receive capacity => (kMaximumDatagramBytes <= capacity)%nat | _ => True end.

(** No arrival was lost to its destination that the link could have carried. *)
Definition beyond_link (a : bytes + nat) : Prop :=
  match a with inl _ => True | inr capacity => (kMaximumDatagramBytes <= capacity)%nat end.

Lemma Forall_snoc {A} (P : A -> Prop) l a : Forall P l -> P a -> Forall P (l ++ [a]).
Proof. intros Hl Ha. apply Forall_app. split; [done|]. by constructor. Qed.

Definition count {A} (l : list A) : Z := u64 (Z.of_nat (length l)).

Lemma count_snoc {A} (l : list A) a : count (l ++ [a]) = u64 (count l + 1).
Proof.
  unfold count, u64. rewrite length_app. cbn [length]. rewrite Nat2Z.inj_add.
  by rewrite Zplus_mod_idemp_l.
Qed.

Lemma transport_run_snoc {T} `{IDatagramTransport T} (t : T) ops op :
  transport_run t (ops ++ [op]) = transport_step (transport_run t ops) op.
Proof. unfold transport_run. by rewrite foldl_app. Qed.

(** The books of a transport: what it accepted is what the device took, and the
    arrivals are split by [through] into those it counted as received, with what
    is [held] back still, and those it counted as dropped. *)
Record balanced (r : Traffic) (l : DeviceLog) (received held : list bytes)
    (accepted_count received_count dropped_count : Z) : Prop := {
  books_sent : r.(accepted) = l.(taken);
  books_received : received = r.(handed) ++ held;
  books_accepted_count : accepted_count = count r.(accepted);
  books_received_count : received_count = count received;
  books_dropped_count :
    dropped_count = u64 (Z.of_nat (length l.(arrived)) - Z.of_nat (length received))
}.

Lemma count_dropped (a b : nat) :
  u64 (u64 (Z.of_nat a - Z.of_nat b) + 1) = u64 (Z.of_nat (a + 1) - Z.of_nat b).
Proof. unfold u64. rewrite Zplus_mod_idemp_l. f_equal. lia. Qed.

Lemma omap_snoc {A B} (f : A -> option B) l a :
  omap f (l ++ [a]) = omap f l ++ match f a with Some b => [b] | None => [] end.
Proof. rewrite omap_app. cbn. by destruct (f a). Qed.

Section UdpTraffic.
Context {S : Type} `{IUdpBroadcastSocketLaws S}.
Implicit Types t : UdpBroadcastTransport (S * DeviceLog).

Definition udp_books (y : Traffic * UdpBroadcastTransport (S * DeviceLog)) : Prop :=
  let (r, t) := y in
  balanced r (snd t.(udp_socket)) (omap (fits t.(udp_mtu)) (snd t.(udp_socket)).(arrived)) []
    t.(udp_metrics).(udp_accepted_transmits) t.(udp_metrics).(udp_received_datagrams)
    t.(udp_metrics).(udp_dropped_datagrams).

Lemma udp_books_step y op : udp_books y -> udp_books (transport_step y op).
Proof.
  destruct y as [r t]. intros [Hs Hr Hac Hrc Hdc].
  destruct op as [data|capacity|]; cbn [transport_step try_send try_receive close udp_transport].
  - unfold udp_try_send. destruct (udp_closed t) eqn:Ec.
    { cbn. by constructor; cbn; rewrite ?app_nil_r in *. }
    destruct (_ || _); [cbn; by constructor; cbn; rewrite ?app_nil_r in *|].
    destruct t as [[s l] mtu c m]. cbn in *. subst c.
    destruct (socket_try_send s data) as [[] s']; cbn -[u64];
      constructor; cbn -[u64]; rewrite ?app_nil_r in *; try done.
    + by rewrite Hs.
    + by rewrite count_snoc, Hac.
  - unfold udp_try_receive. destruct (udp_closed t) eqn:Ec.
    { cbn. by constructor; cbn; rewrite ?app_nil_r in *. }
    destruct (capacity =? 0)%nat; [cbn; by constructor; cbn; rewrite ?app_nil_r in *|].
    destruct t as [[s l] mtu c m]. cbn -[Nat.ltb] in *. subst c.
    destruct (socket_try_receive s capacity) as [[res d] s'] eqn:Er. apply socket_fills in Er.
    destruct (udp_status res); cbn -[u64 Nat.ltb].
    + destruct (_ || _) eqn:E.
      * cbn -[u64 Nat.ltb].
        assert (fits mtu (if (capacity <? udp_size res)%nat then inr capacity
                          else inl (take (udp_size res) d)) = None) as Hf.
        { destruct (capacity <? udp_size res)%nat eqn:Ecap; [done|]. cbn [fits].
          rewrite orb_false_r in E. apply Nat.ltb_ge in Ecap.
          rewrite length_take, Nat.min_l by lia. by rewrite E. }
        constructor; cbn -[u64 Nat.ltb]; rewrite ?omap_snoc, ?Hf, ?app_nil_r in *; try done.
        rewrite length_app, Hdc. apply count_dropped.
      * cbn -[u64 Nat.ltb]. apply orb_false_iff in E as [E Ecap]. rewrite Ecap.
        assert (fits mtu (inl (take (udp_size res) d)) = Some (take (udp_size res) d)) as Hf.
        { cbn [fits]. rewrite length_take. reflect_bools. rewrite Nat.min_l by lia.
          rewrite (proj2 (Nat.eqb_neq _ _)), (proj2 (Nat.ltb_ge _ _)) by lia. done. }
        rewrite app_nil_r in Hr.
        constructor; cbn -[u64 Nat.ltb]; rewrite ?omap_snoc, ?Hf, ?app_nil_r in *; try done.
        -- by rewrite Hr.
        -- by rewrite count_snoc, Hrc.
        -- rewrite Hdc, !length_app. f_equal. cbn. lia.
    + by constructor; cbn; rewrite ?app_nil_r in *.
    + by constructor; cbn; rewrite ?app_nil_r in *.
    + constructor; cbn -[u64]; rewrite ?omap_snoc; cbn [fits];
        rewrite ?app_nil_r in *; try done.
      rewrite length_app, Hdc. apply count_dropped.
    + by constructor; cbn; rewrite ?app_nil_r in *.
  - unfold udp_close. destruct (udp_closed t); by constructor.
Qed.

Lemma udp_arrivals_step y op :
  Forall beyond_link (snd y.2.(udp_socket)).(arrived) -> full_sized op ->
  Forall beyond_link (snd (transport_step y op).2.(udp_socket)).(arrived).
Proof.
  destruct y as [r [[s l] mtu c m]]. cbn [snd udp_socket]. intros Hl Hop.
  destruct op as [data|capacity|]; cbn [transport_step try_send try_receive close udp_transport].
  - unfold udp_try_send. cbn [udp_closed]. destruct c; [done|]. split_if; [done|].
    cbn [udp_socket socket_try_send traced_socket fst snd].
    by destruct (socket_try_send s data) as [[] s'].
  - unfold udp_try_receive. cbn [udp_closed]. destruct c; [done|]. split_if; [done|].
    cbn [udp_socket socket_try_receive traced_socket fst snd].
    destruct (socket_try_receive s capacity) as [[res d] s'].
    destruct (udp_status res); cbn -[Nat.ltb]; try done.
    + split_if; cbn -[Nat.ltb]; (apply Forall_snoc; [done|]); by split_if.
    + by apply Forall_snoc.
  - unfold udp_close. by destruct (udp_closed _).
Qed.
End UdpTraffic.

Section CapTraffic.
Context {S : Type} `{ICapLora1262RadioLaws S}.
Implicit Types t : CapLora1262Transport (S * DeviceLog).

Definition held_back (pending : bytes) : list bytes :=
  if (length pending =? 0)%nat then [] else [pending].

(** A failure of the radio loses what was held back. *)
Definition cap_books (y : Traffic * CapLora1262Transport (S * DeviceLog)) : Prop :=
  let (r, t) := y in
  (t.(cap_mtu) <= kMaximumDatagramBytes)%nat /\
  exists received held,
    sublist received (omap (fits t.(cap_mtu)) (snd t.(cap_radio)).(arrived)) /\
    balanced r (snd t.(cap_radio)) received held t.(cap_metrics).(cap_accepted_transmits)
      t.(cap_metrics).(cap_received_datagrams) t.(cap_metrics).(cap_dropped_datagrams) /\
    (length held <= 1)%nat /\
    (t.(cap_closed) = false -> held = held_back t.(pending_receive)).

Local Arguments cap_books : simpl never.

(** Closing the transport keeps the books. *)
Lemma cap_books_close r t t' :
  cap_books (r, t) -> t'.(cap_mtu) = t.(cap_mtu) -> snd t'.(cap_radio) = snd t.(cap_radio) ->
  t'.(cap_metrics).(cap_accepted_transmits) = t.(cap_metrics).(cap_accepted_transmits) ->
  t'.(cap_metrics).(cap_received_datagrams) = t.(cap_metrics).(cap_received_datagrams) ->
  t'.(cap_metrics).(cap_dropped_datagrams) = t.(cap_metrics).(cap_dropped_datagrams) ->
  t'.(cap_closed) = true \/
  t'.(cap_closed) = t.(cap_closed) /\ t'.(pending_receive) = t.(pending_receive) ->
  cap_books (r, t').
Proof.
  intros (Hm & received & held & Hsub & Hb & Hh & Hp) Em El E1 E2 E3 Hc.
  split; [by rewrite Em|]. exists received, held. rewrite Em, El, E1, E2, E3.
  split_and!; try done. destruct Hc as [-> |[-> ->]]; [done|exact Hp].
Qed.

Lemma service_books r t : cap_books (r, t) -> cap_books (r, service_radio t).
Proof.
  intros Hb. unfold service_radio. destruct (cap_closed t) eqn:Ec; [done|].
  destruct t as [[s l] mtu pending c m]. cbn [cap_closed] in Ec. subst c.
  cbn -[Nat.ltb kMaximumDatagramBytes].
  destruct (radio_poll s kMaximumDatagramBytes) as [[res d] s'] eqn:Er. apply radio_fills in Er.
  destruct (poll_status res); cbn -[Nat.ltb kMaximumDatagramBytes];
    try (eapply cap_books_close; [exact Hb|done..|by right]).
  2: { unfold cap_fail_closed. cbn. eapply cap_books_close; [exact Hb|done..|by left]. }
  destruct Hb as (Hm & received & held & Hsub & [Hs Hr Hac Hrc Hdc] & Hh & Hp).
  cbn -[u64 Nat.ltb kMaximumDatagramBytes] in *.
  assert (forall o, sublist received (omap (fits mtu) (arrived l ++ [o]))) as Hmore.
  { intros o. rewrite omap_snoc. rewrite <- (app_nil_r received).
    apply sublist_app; [done|apply sublist_nil_l]. }
  assert (forall o : bytes + nat,
    u64 (cap_dropped_datagrams m + 1) =
    u64 (Z.of_nat (length (arrived l ++ [o])) - Z.of_nat (length received))) as Hdrop.
  { intros o. rewrite length_app, Hdc. apply count_dropped. }
  destruct (_ || _) eqn:E; cbn -[u64 Nat.ltb kMaximumDatagramBytes].
  - unfold cap_books; cbn -[u64 Nat.ltb kMaximumDatagramBytes]; split; [done|]. exists received, held. split; [apply Hmore|].
    split; [constructor; [done..|apply Hdrop]|by split].
  - destruct (length pending =? 0)%nat eqn:Epend; cbn -[u64 Nat.ltb kMaximumDatagramBytes].
    2: { unfold cap_books; cbn -[u64 Nat.ltb kMaximumDatagramBytes]; split; [done|]. exists received, held. split; [apply Hmore|].
         split; [constructor; [done..|apply Hdrop]|by split]. }
    apply orb_false_iff in E as [E0 E1]. apply Nat.eqb_neq in E0. apply Nat.ltb_ge in E1.
    rewrite (proj2 (Nat.ltb_ge _ _)) by lia.
    set (a := take (poll_size res) d).
    assert (length a = poll_size res) as Ha by (unfold a; rewrite length_take; lia).
    assert (fits mtu (inl a) = Some a) as Hf.
    { cbn [fits]. rewrite Ha, (proj2 (Nat.eqb_neq _ _)), (proj2 (Nat.ltb_ge _ _)) by lia. done. }
    specialize (Hp eq_refl). unfold held_back in Hp. rewrite Epend in Hp. subst held.
    rewrite app_nil_r in Hr. unfold cap_books; cbn -[u64 Nat.ltb kMaximumDatagramBytes]; split; [done|]. exists (received ++ [a]), [a].
    split; [rewrite omap_snoc, Hf; by apply sublist_app|].
    split; [|split; [done|]].
    + constructor; cbn -[u64]; try done.
      * by rewrite Hr.
      * by rewrite count_snoc, Hrc.
      * rewrite Hdc, !length_app. f_equal. cbn. lia.
    + intros _. unfold held_back. by rewrite Ha, (proj2 (Nat.eqb_neq _ _)) by lia.
Qed.

Lemma cap_books_step y op : cap_books y -> cap_books (transport_step y op).
Proof.
  destruct y as [r t]. intros Hb.
  destruct op as [data|capacity|]; cbn [transport_step try_send try_receive close cap_transport].
  - unfold cap_try_send. destruct (cap_closed t) eqn:Ec; [by cbn; rewrite app_nil_r; destruct r|].
    destruct (_ || _); [by cbn; rewrite app_nil_r; destruct r|].
    pose proof (service_books _ _ Hb) as Hsv. generalize dependent (service_radio t). clear Hb.
    intros t1 Hb. destruct (cap_closed t1) eqn:Ec1; [by rewrite app_nil_r; destruct r|].
    destruct t1 as [[s l] mtu pending c m]. cbn in Ec1. subst c. cbn -[u64].
    destruct (try_start_transmit s data) as [[] s']; cbn -[u64].
    + destruct Hb as (Hm & received & held & Hsub & [Hs Hr Hac Hrc Hdc] & Hh & Hp). cbn in *.
      unfold cap_books; cbn -[u64 Nat.ltb kMaximumDatagramBytes]; split; [done|]. exists received, held. split; [done|]. split; [|done].
      constructor; cbn -[u64]; try done; [by rewrite Hs|by rewrite count_snoc, Hac].
    + rewrite app_nil_r. destruct r. eapply cap_books_close; [exact Hb|done..|by right].
    + rewrite app_nil_r. destruct r. unfold cap_fail_closed. cbn.
      eapply cap_books_close; [exact Hb|done..|by left].
  - unfold cap_try_receive. destruct (cap_closed t) eqn:Ec; [by cbn; rewrite app_nil_r; destruct r|].
    destruct (capacity =? 0)%nat; [by cbn; rewrite app_nil_r; destruct r|].
    pose proof (service_books _ _ Hb) as Hsv. generalize dependent (service_radio t). clear Hb.
    intros t1 Hb. destruct (cap_closed t1) eqn:Ec1; [by cbn; rewrite app_nil_r; destruct r|].
    destruct (length _ =? 0)%nat eqn:E0; [by cbn; rewrite app_nil_r; destruct r|].
    destruct (_ <? _)%nat; [by cbn; rewrite app_nil_r; destruct r|].
    destruct t1 as [[s l] mtu pending c m]. cbn in Ec1, E0. subst c.
    destruct Hb as (Hm & received & held & Hsub & [Hs Hr Hac Hrc Hdc] & Hh & Hp). cbn in *.
    unfold cap_books; cbn -[u64 Nat.ltb kMaximumDatagramBytes]; split; [done|]. exists received, []. split; [done|]. split; [|split; [cbn; lia|done]].
    specialize (Hp eq_refl). unfold held_back in Hp. rewrite E0 in Hp. subst held.
    constructor; cbn; try done. by rewrite app_nil_r.
  - unfold cap_close. destruct (cap_closed t) eqn:Ec; [done|].
    eapply cap_books_close; [exact Hb|done..|by left].
Qed.

Lemma service_arrivals t :
  Forall beyond_link (snd t.(cap_radio)).(arrived) ->
  Forall beyond_link (snd (service_radio t).(cap_radio)).(arrived).
Proof.
  destruct t as [[s l] mtu pending c m]. cbn [snd cap_radio]. intros Hl. unfold service_radio.
  cbn [cap_closed]. destruct c; [done|]. cbn [cap_radio radio_poll traced_radio fst snd].
  destruct (radio_poll s kMaximumDatagramBytes) as [[res d] s'].
  destruct (poll_status res); cbn -[Nat.ltb kMaximumDatagramBytes]; try done.
  assert (beyond_link (if (kMaximumDatagramBytes <? poll_size res)%nat then inr kMaximumDatagramBytes
    else inl (take (poll_size res) d))) as Ha by (destruct (_ <? _)%nat; [apply Nat.le_refl|done]).
  pose proof (Forall_snoc beyond_link (arrived l) _ Hl Ha) as Hl'.
  destruct (_ || _); [exact Hl'|]. destruct (negb _); exact Hl'.
Qed.

Lemma cap_arrivals_step y op :
  Forall beyond_link (snd y.2.(cap_radio)).(arrived) ->
  Forall beyond_link (snd (transport_step y op).2.(cap_radio)).(arrived).
Proof.
  destruct y as [r t]. cbn [snd]. intros Hl. pose proof (service_arrivals t Hl) as Hs.
  destruct op as [data|capacity|]; cbn [transport_step try_send try_receive close cap_transport].
  - unfold cap_try_send. split_if; [done|]. split_if; [done|].
    destruct (service_radio t) as [[s l] mtu pending c m]. cbn [snd cap_radio cap_closed] in *.
    destruct c; [done|]. cbn [cap_radio try_start_transmit traced_radio fst snd].
    by destruct (try_start_transmit s data) as [[] s'].
  - unfold cap_try_receive. repeat (split_if; [done|]). done.
  - unfold cap_close. by destruct (cap_closed t).
Qed.
End CapTraffic.

(** ** Runs over the contract *)

Section Contract.
Context {T : Type} `{IDatagramTransportLaws T}.

Definition link_sized (d : bytes) : Prop := (0 < length d <= kMaximumDatagramBytes)%nat.

(** Whatever goes through a transport has the size of a datagram of the link, and
    a closed transport stays closed. *)
Lemma transport_run_contract (t : T) ops :
  transport_inv t ->
  let (r, t') := transport_run t ops in
  transport_inv t' /\ Forall link_sized r.(accepted) /\ Forall link_sized r.(handed) /\
  (closed t = true -> closed t' = true).
Proof.
  intros Ht. induction ops as [|op ops IH] using rev_ind; [by split_and!|].
  rewrite transport_run_snoc. destruct (transport_run t ops) as [r t1].
  destruct IH as (Ht1 & Ha & Hh & Hc). destruct op as [data|capacity|]; cbn [transport_step].
  - destruct (try_send t1 data) as [status t2] eqn:E.
    destruct (send_contract t1 data status t2 Ht1 E) as (Ht2 & Hc2 & _ & _ & Hacc).
    pose proof (transport_mtu t1 Ht1) as Hm. split_and!; [done| |done|auto].
    apply Forall_app. split; [done|]. destruct status; try done.
    destruct Hacc as [_ Hacc]; [done|]. constructor; [|done]. unfold link_sized. lia.
  - destruct (try_receive t1 capacity) as [res t2] eqn:E.
    destruct (receive_contract t1 capacity res t2 Ht1 E) as (Ht2 & Hc2 & _ & Hr).
    pose proof (transport_mtu t1 Ht1) as Hm. split_and!; [done|done| |auto].
    apply Forall_app. split; [done|]. destruct (receive_status res); try done.
    rewrite bool_decide_eq_true_2 in Hr by done. constructor; [|done]. unfold link_sized. lia.
  - destruct (close_contract t1 Ht1) as [??]. by split_and!.
Qed.
End Contract.

Lemma udp_make_inv {S} `{IUdpBroadcastSocket S} (s : S) mtu : udp_inv (UdpBroadcastTransport_make s mtu).
Proof.
  unfold UdpBroadcastTransport_make, udp_inv. destruct (_ && _) eqn:E; cbn -[kMaximumDatagramBytes].
  - by reflect_bools.
  - lia.
Qed.

Lemma cap_make_inv {S} `{ICapLora1262Radio S} (s : S) mtu : cap_inv (CapLora1262Transport_make s mtu).
Proof.
  unfold CapLora1262Transport_make. destruct (_ && _) eqn:E; split; cbn -[kMaximumDatagramBytes];
    reflect_bools; try done; lia.
Qed.

#[export] Instance traced_socket_laws {S} `{IUdpBroadcastSocketLaws S} :
  IUdpBroadcastSocketLaws (S * DeviceLog).
Proof.
  split. intros [s l] capacity r d s'. cbn -[Nat.ltb].
  destruct (socket_try_receive s capacity) as [[r0 d0] s0] eqn:E. intros [= <- <- _].
  by eapply socket_fills.
Qed.

#[export] Instance traced_radio_laws {S} `{ICapLora1262RadioLaws S} :
  ICapLora1262RadioLaws (S * DeviceLog).
Proof.
  split. intros [s l] capacity r d s'. cbn -[Nat.ltb].
  destruct (radio_poll s capacity) as [[r0 d0] s0] eqn:E. intros [= <- <- _].
  by eapply radio_fills.
Qed.

Definition no_traffic : DeviceLog := mkDeviceLog [] [].

Lemma udp_run_books {S} `{IUdpBroadcastSocketLaws S} (s : S) mtu ops :
  udp_books (transport_run (UdpBroadcastTransport_make (s, no_traffic) mtu) ops).
Proof.
  induction ops as [|op ops IH] using rev_ind.
  - cbn. unfold UdpBroadcastTransport_make. by destruct (_ && _); constructor.
  - rewrite transport_run_snoc. by apply udp_books_step.
Qed.

Lemma cap_run_books {S} `{ICapLora1262RadioLaws S} (s : S) mtu ops :
  cap_books (transport_run (CapLora1262Transport_make (s, no_traffic) mtu) ops).
Proof.
  induction ops as [|op ops IH] using rev_ind.
  - pose proof (cap_make_inv (s, no_traffic) mtu) as [Hm _]. cbn.
    unfold CapLora1262Transport_make in *. destruct (_ && _);
      (split; [done|exists [], []; split_and!; try done; by constructor]).
  - rewrite transport_run_snoc. by apply cap_books_step.
Qed.

Lemma udp_run_arrivals {S} `{IUdpBroadcastSocket S} (s : S) mtu ops :
  Forall full_sized ops ->
  Forall beyond_link
    (snd (transport_run (UdpBroadcastTransport_make (s, no_traffic) mtu) ops).2.(udp_socket)).(arrived).
Proof.
  induction ops as [|op ops IH] using rev_ind; intros Hops.
  - cbn. unfold UdpBroadcastTransport_make. by destruct (_ && _); constructor.
  - apply Forall_app in Hops as [Hops [Hop _]%Forall_cons]. rewrite transport_run_snoc.
    apply udp_arrivals_step; [by apply IH|done].
Qed.

Lemma cap_run_arrivals {S} `{ICapLora1262Radio S} (s : S) mtu ops :
  Forall beyond_link
    (snd (transport_run (CapLora1262Transport_make (s, no_traffic) mtu) ops).2.(cap_radio)).(arrived).
Proof.
  induction ops as [|op ops IH] using rev_ind.
  - cbn. unfold CapLora1262Transport_make. by destruct (_ && _); constructor.
  - rewrite transport_run_snoc. by apply cap_arrivals_step.
Qed.

(** The comment of the port asks for [Invalid], and for the datagram to stay
    available, when the destination is too small.  The UDP transport answers
    [WouldBlock] and counts the datagram, which the socket has given away, as
    dropped. *)
Lemma udp_small_destination {S} `{IUdpBroadcastSocket S} (t : UdpBroadcastTransport S) capacity
    size d s :
  t.(udp_closed) = false -> (0 < capacity < size)%nat ->
  socket_try_receive t.(udp_socket) capacity = (mkUdpSocketReceiveResult UdpReceive_Received size, d, s) ->
  try_receive t capacity =
    (nothing ReceiveStatus_WouldBlock, with_udp_metrics count_udp_dropped (with_udp_socket s t)).
Proof.
  intros Hc Hsize Hr. cbn. unfold udp_try_receive.
  rewrite Hc, (proj2 (Nat.eqb_neq _ _)) by lia. rewrite Hr. cbn [udp_status udp_size].
  rewrite (proj2 (Nat.ltb_lt capacity size)) by lia. by rewrite !orb_true_r.
Qed.

(** A device of the witness: it takes everything and has some arrivals left. *)
Definition Script := list bytes.

Definition fill_to (capacity : nat) (d : bytes) : bytes :=
  take capacity (d ++ repeat x00 capacity).

Lemma fill_to_length capacity d : length (fill_to capacity d) = capacity.
Proof. unfold fill_to. rewrite length_take, length_app, repeat_length. lia. Qed.

#[export] Instance script_socket : IUdpBroadcastSocket Script := {
  socket_ready _ := true;
  socket_connected _ := true;
  socket_try_send s _ := (UdpSend_Sent, s);
  socket_try_receive s capacity :=
    match s with
    | [] => (mkUdpSocketReceiveResult UdpReceive_WouldBlock 0, fill_to capacity [], [])
    | d :: s => (mkUdpSocketReceiveResult UdpReceive_Received (length d), fill_to capacity d, s)
    end;
  socket_close s := s
}.

#[export] Instance script_socket_laws : IUdpBroadcastSocketLaws Script.
Proof. split. intros [|d s] capacity r d' s'; cbn; intros [= _ <- _]; apply fill_to_length. Qed.

#[export] Instance script_radio : ICapLora1262Radio Script := {
  radio_ready _ := true;
  try_start_transmit s _ := (RadioStart_Started, s);
  radio_poll s capacity :=
    match s with
    | [] => (mkRadioPollResult RadioPoll_Idle 0, fill_to capacity [], [])
    | d :: s => (mkRadioPollResult RadioPoll_Received (length d), fill_to capacity d, s)
    end;
  radio_shutdown s := s
}.

#[export] Instance script_radio_laws : ICapLora1262RadioLaws Script.
Proof. split. intros [|d s] capacity r d' s'; cbn; intros [= _ <- _]; apply fill_to_length. Qed.

(** ** Property theorems *)

(** C36: no datagram is invented, altered, reordered or lost without being
    counted.  Make either transport over any device and use it in any way with
    destinations that can hold every datagram of the link, as its callers do
    (what a smaller destination does is [udp_small_destination]).  The datagrams
    it accepted are those the device took, in order.  The UDP transport has
    handed out exactly the arrivals that fit the link, in order; the radio
    transport has handed out, in order, the arrivals it counted as received, all
    but the one it still holds back, or lost when the radio failed.  The counters
    are those numbers modulo 2^64, every other arrival being counted as dropped;
    no arrival was cut short that the link could carry; and every datagram that
    went through has between 1 and 255 bytes. *)
Theorem transports_account {S R} `{IUdpBroadcastSocketLaws S} `{ICapLora1262RadioLaws R}
    (s : S) (r : R) mtu ops :
  Forall full_sized ops ->
  (let (tr, t) := transport_run (UdpBroadcastTransport_make (s, no_traffic) mtu) ops in
   let l := snd t.(udp_socket) in
   let m := t.(udp_metrics) in
   tr.(accepted) = l.(taken) /\ tr.(handed) = omap (fits t.(udp_mtu)) l.(arrived) /\
   m.(udp_accepted_transmits) = count tr.(accepted) /\
   m.(udp_received_datagrams) = count tr.(handed) /\
   m.(udp_dropped_datagrams) =
     u64 (Z.of_nat (length l.(arrived)) - Z.of_nat (length tr.(handed))) /\
   Forall beyond_link l.(arrived) /\
   Forall link_sized tr.(accepted) /\ Forall link_sized tr.(handed)) /\
  (let (tr, t) := transport_run (CapLora1262Transport_make (r, no_traffic) mtu) ops in
   let l := snd t.(cap_radio) in
   let m := t.(cap_metrics) in
   exists held,
     tr.(accepted) = l.(taken) /\
     sublist (tr.(handed) ++ held) (omap (fits t.(cap_mtu)) l.(arrived)) /\
     (length held <= 1)%nat /\
     (t.(cap_closed) = false -> held = held_back t.(pending_receive)) /\
     m.(cap_accepted_transmits) = count tr.(accepted) /\
     m.(cap_received_datagrams) = count (tr.(handed) ++ held) /\
     m.(cap_dropped_datagrams) =
       u64 (Z.of_nat (length l.(arrived)) - Z.of_nat (length (tr.(handed) ++ held))) /\
     Forall beyond_link l.(arrived) /\
     Forall link_sized tr.(accepted) /\ Forall link_sized tr.(handed)).
Proof.
  intros Hops. split.
  - pose proof (transport_run_contract (UdpBroadcastTransport_make (s, no_traffic) mtu) ops (udp_make_inv (s, no_traffic) mtu)) as Hc.
    pose proof (udp_run_books s mtu ops) as Hb.
    pose proof (udp_run_arrivals s mtu ops Hops) as Hl.
    destruct (transport_run _ ops) as [tr t]. destruct Hc as (_ & Ha & Hh & _).
    destruct Hb as [Hs Hr Hac Hrc Hdc]. rewrite app_nil_r in Hr. rewrite Hr in Hrc, Hdc.
    by split_and!.
  - pose proof (transport_run_contract (CapLora1262Transport_make (r, no_traffic) mtu) ops (cap_make_inv (r, no_traffic) mtu)) as Hc.
    pose proof (cap_run_books r mtu ops) as Hb.
    pose proof (cap_run_arrivals r mtu ops) as Hbeyond.
    destruct (transport_run _ ops) as [tr t]. destruct Hc as (_ & Ha & Hh & _).
    destruct Hb as (_ & received & held & Hsub & [Hs Hr Hac Hrc Hdc] & Hl & Hp). subst received.
    exists held. by split_and!.
Qed.

Lemma transports_account_witness :
  let (tr, t) := transport_run (UdpBroadcastTransport_make ([[x01]; []; [x02]], no_traffic) 64)
                   [Transport_receive 255; Transport_send [x07]; Transport_receive 255;
                    Transport_receive 255] in
  tr.(handed) = [[x01]; [x02]] /\ t.(udp_metrics).(udp_dropped_datagrams) = 1.
Proof.
  pose proof (transports_account (S := Script) (R := Script) [[x01]; []; [x02]] [[x01]] 64
    [Transport_receive 255; Transport_send [x07]; Transport_receive 255; Transport_receive 255]
    ltac:(repeat constructor))
    as [(_ & Hh & _ & _ & Hd & _) _].
  exact (conj Hh Hd).
Defined.
