(* ===== verification/LinuxRadio.v ===== *)
(** * LinuxRadio: the driver of the SX1262 radio

    src/adapters/radio/linux_cap_lora_1262_radio.cpp and its header: the
    [ICapLora1262Radio] over spidev, the GPIO character device and I2C.  Every
    system call is a [DeviceCall]; the world answers it, and what the driver does
    is a function of the driver's state and of the answers.  The loops that wait
    for the radio or repeat an interrupted close are bounded by a fuel; [None] is
    running out of it. *)
From S2P Require Import Prelude Ports TokenBudget Japan920Policy Transports.

(** ** Definitions *)

(** *** System calls *)

Record GpioRequest := mkGpioRequest {
  line_offset : Z;
  line_output : bool;
  line_default : Z;
  line_consumer : bytes
}.

Inductive SpiSetting :=
| Spi_Mode (mode : Z)
| Spi_BitsPerWord (bits : Z)
| Spi_MaxSpeedHz (speed : Z).

(** The calls with the type of their answers.  A failed ioctl is [None] or
    [false]; times are in nanoseconds of the steady clock. *)
Inductive DeviceCall : Type -> Type :=
| Dev_open (path : bytes) (writable : bool) : DeviceCall Z
| Dev_close (descriptor : Z) : DeviceCall (Result unit Z)
| Dev_gpio_request (chip : Z) (request : GpioRequest) : DeviceCall (option Z)
| Dev_gpio_values (descriptor : Z) : DeviceCall (option Z)
| Dev_gpio_set (descriptor : Z) (value : Z) : DeviceCall bool
| Dev_spi_setting (descriptor : Z) (setting : SpiSetting) : DeviceCall bool
| Dev_spi_message (descriptor : Z) (transmit : bytes) (speed_hz : Z) : DeviceCall (option bytes)
| Dev_i2c_read (descriptor : Z) (address register : Z) : DeviceCall (option Z)
| Dev_i2c_write (descriptor : Z) (address register value : Z) : DeviceCall bool
| Dev_steady_now : DeviceCall Z
| Dev_sleep_for (duration : Z) : DeviceCall unit.

Class ILinuxDevices (W : Type) := {
  device_call : forall {A}, DeviceCall A -> W -> A * W
}.

Definition EINTR : Z := 4.
Definition UINT32_MAX : Z := 4294967295.

(** *** Constants *)

Definition kPi4ioAddress : Z := 0x43.
Definition kPi4ioDirection : Z := 0x03.
Definition kPi4ioOutput : Z := 0x05.
Definition kPi4ioHighImpedance : Z := 0x07.
Definition kPi4ioDeviceId : Z := 0x01.
Definition kAntennaSwitchBit : Z := 0x01.

Definition kSetStandby : byte := x80.
Definition kSetRx : byte := x82.
Definition kSetTx : byte := x83.
Definition kSetSleep : byte := x84.
Definition kSetRfFrequency : byte := x86.
Definition kCalibrate : byte := x89.
Definition kSetPacketType : byte := x8a.
Definition kSetModulationParams : byte := x8b.
Definition kSetPacketParams : byte := x8c.
Definition kSetTxParams : byte := x8e.
Definition kSetBufferBaseAddress : byte := x8f.
Definition kSetPaConfig : byte := x95.
Definition kSetRegulatorMode : byte := x96.
Definition kSetDio3TcxoCtrl : byte := x97.
Definition kCalibrateImage : byte := x98.
Definition kSetDioIrqParams : byte := x08.
Definition kClearIrqStatus : byte := x02.
Definition kWriteRegister : byte := x0d.
Definition kWriteBuffer : byte := x0e.
Definition kGetIrqStatus : byte := x12.
Definition kGetRxBufferStatus : byte := x13.
Definition kGetRssiInst : byte := x15.
Definition kReadBuffer : byte := x1e.

Definition kIrqTxDone : Z := 0x0001.
Definition kIrqRxDone : Z := 0x0002.
Definition kIrqPreambleDetected : Z := 0x0004.
Definition kIrqHeaderValid : Z := 0x0010.
Definition kIrqHeaderError : Z := 0x0020.
Definition kIrqCrcError : Z := 0x0040.
Definition kIrqTimeout : Z := 0x0200.
Definition kReceiveIrqs : Z :=
  Z.lor kIrqRxDone (Z.lor kIrqPreambleDetected (Z.lor kIrqHeaderValid
    (Z.lor kIrqHeaderError (Z.lor kIrqCrcError kIrqTimeout)))).
Definition kTransmitIrqs : Z := Z.lor kIrqTxDone kIrqTimeout.

Definition kLoRaSyncWordRegister : Z := 0x0740.
Definition kOcpRegister : Z := 0x08e7.
Definition kLoRaPacketType : byte := x01.
Definition kBandwidth125Khz : byte := x04.
Definition kExplicitHeader : byte := x00.
Definition kCrcEnabled : byte := x01.
Definition kStandardIq : byte := x00.
Definition kStandbyRc : byte := x00.
Definition kRegulatorDcdc : byte := x01.
Definition kTcxo3Volts : byte := x06.
Definition kTcxoDelayUnits : Z := 320.
Definition kTxTimeoutUnits : Z := 320000.
Definition kBusyTimeoutMs : Z := 100.

Definition kMicrosecond : Z := 1000.
Definition kMillisecond : Z := 1000000.

(** *** The state *)

Record LinuxCapLora1262Config := mkLinuxCapLora1262Config {
  spi_device : bytes;
  gpio_chip : bytes;
  i2c_device : bytes;
  reset_gpio : Z;
  irq_gpio : Z;
  busy_gpio : Z;
  spi_speed_hz : Z;
  listen_before_talk_threshold_dbm : Z;
  antenna_confirmed : bool;
  radio_profile : Japan920Profile
}.

Definition LinuxCapLora1262Config_default : LinuxCapLora1262Config :=
  mkLinuxCapLora1262Config (str "/dev/spidev0.1") (str "/dev/gpiochip0") (str "/dev/i2c-1")
    26 23 22 4000000 (-90) false Japan920Profile_default.

Definition LinuxCapLora1262Config_valid (c : LinuxCapLora1262Config) : bool :=
  negb (length c.(spi_device) =? 0)%nat && negb (length c.(gpio_chip) =? 0)%nat &&
  negb (length c.(i2c_device) =? 0)%nat && (0 <? c.(spi_speed_hz)) &&
  (c.(spi_speed_hz) <=? 10000000) &&
  negb (c.(reset_gpio) =? c.(irq_gpio)) &&
  negb (c.(reset_gpio) =? c.(busy_gpio)) &&
  negb (c.(irq_gpio) =? c.(busy_gpio)) &&
  (-127 <=? c.(listen_before_talk_threshold_dbm)) &&
  (c.(listen_before_talk_threshold_dbm) <=? -20) &&
  c.(antenna_confirmed) && Japan920Profile_valid c.(radio_profile).

Record RadioImpl := mkRadioImpl {
  impl_config : LinuxCapLora1262Config;
  spi_descriptor : Z;
  i2c_descriptor : Z;
  reset_descriptor : Z;
  irq_descriptor : Z;
  busy_descriptor : Z;
  antenna_switch_enabled : bool;
  receiving : bool;
  transmitting : bool;
  initialized : bool;
  impl_closed : bool
}.

Definition new_impl (c : LinuxCapLora1262Config) : RadioImpl :=
  mkRadioImpl c (-1) (-1) (-1) (-1) (-1) false false false false false.

Definition set_bus_descriptors (spi i2c : Z) (r : RadioImpl) : RadioImpl :=
  mkRadioImpl r.(impl_config) spi i2c r.(reset_descriptor) r.(irq_descriptor)
    r.(busy_descriptor) r.(antenna_switch_enabled) r.(receiving) r.(transmitting)
    r.(initialized) r.(impl_closed).

Definition set_line_descriptors (reset irq busy : Z) (r : RadioImpl) : RadioImpl :=
  mkRadioImpl r.(impl_config) r.(spi_descriptor) r.(i2c_descriptor) reset irq busy
    r.(antenna_switch_enabled) r.(receiving) r.(transmitting) r.(initialized) r.(impl_closed).

Definition set_antenna (enabled : bool) (r : RadioImpl) : RadioImpl :=
  mkRadioImpl r.(impl_config) r.(spi_descriptor) r.(i2c_descriptor) r.(reset_descriptor)
    r.(irq_descriptor) r.(busy_descriptor) enabled r.(receiving) r.(transmitting)
    r.(initialized) r.(impl_closed).

Definition set_direction (rx tx : bool) (r : RadioImpl) : RadioImpl :=
  mkRadioImpl r.(impl_config) r.(spi_descriptor) r.(i2c_descriptor) r.(reset_descriptor)
    r.(irq_descriptor) r.(busy_descriptor) r.(antenna_switch_enabled) rx tx
    r.(initialized) r.(impl_closed).

Definition set_lifetime (init closed : bool) (r : RadioImpl) : RadioImpl :=
  mkRadioImpl r.(impl_config) r.(spi_descriptor) r.(i2c_descriptor) r.(reset_descriptor)
    r.(irq_descriptor) r.(busy_descriptor) r.(antenna_switch_enabled) r.(receiving)
    r.(transmitting) init closed.

Definition impl_ready (r : RadioImpl) : bool := r.(initialized) && negb r.(impl_closed).

Section Driver.
Context {W : Type} `{ILinuxDevices W}.

(** *** Actions of the driver *)

Definition Act (A : Type) : Type := RadioImpl * W -> option (A * (RadioImpl * W)).

#[export] Instance act_ret : MRet Act := fun A a s => Some (a, s).
#[export] Instance act_bind : MBind Act :=
  fun A B f m s => match m s with Some (a, s) => f a s | None => None end.

Definition call {A} (c : DeviceCall A) : Act A :=
  fun s => let '(a, w) := device_call c s.2 in Some (a, (s.1, w)).

Definition this : Act RadioImpl := fun s => Some (s.1, s).
Definition modify (f : RadioImpl -> RadioImpl) : Act unit := fun s => Some (tt, (f s.1, s.2)).
Definition stuck {A} : Act A := fun _ => None.

(** [a && b] of two actions that may fail. *)
Definition act_and (a b : Act bool) : Act bool :=
  ok ← a; if (ok : bool) then b else mret false.

Fixpoint all_of (actions : list (Act bool)) : Act bool :=
  match actions with
  | [] => mret true
  | a :: actions => act_and a (all_of actions)
  end.

Definition gpio_get (descriptor : Z) : Act (option bool) :=
  value ← call (Dev_gpio_values descriptor); mret ((fun v => negb (v =? 0)) <$> value).

Definition gpio_set (descriptor : Z) (high : bool) : Act bool :=
  call (Dev_gpio_set descriptor (if high then 1 else 0)).

Definition request_gpio (chip_descriptor offset : Z) (output initial_high : bool)
    (consumer : bytes) : Act Z :=
  fd ← call (Dev_gpio_request chip_descriptor
               (mkGpioRequest offset output (if initial_high then 1 else 0) consumer));
  mret (default (-1) fd).

Fixpoint close_retry (fuel : nat) (descriptor : Z) : Act bool :=
  match fuel with
  | O => stuck
  | S fuel =>
      r ← call (Dev_close descriptor);
      match r with
      | success _ => mret true
      | failure errno => if errno =? EINTR then close_retry fuel descriptor else mret false
      end
  end.

(** Without the assignment of -1 to the variable. *)
Definition close_descriptor (fuel : nat) (descriptor : Z) : Act bool :=
  if descriptor <? 0 then mret true else close_retry fuel descriptor.

(** *** Commands *)

Fixpoint busy_loop (fuel : nat) (deadline : Z) : Act bool :=
  match fuel with
  | O => stuck
  | S fuel =>
      r ← this;
      busy ← gpio_get r.(busy_descriptor);
      match busy with
      | None => mret false
      | Some false => mret true
      | Some true =>
          now ← call Dev_steady_now;
          if deadline <=? now then mret false
          else
            _ ← call (Dev_sleep_for (100 * kMicrosecond));
            busy_loop fuel deadline
      end
  end.

Definition wait_while_busy (fuel : nat) : Act bool :=
  now ← call Dev_steady_now;
  busy_loop fuel (now + kBusyTimeoutMs * kMillisecond).

Definition spi_transfer (transmit : bytes) : Act (option bytes) :=
  r ← this;
  if (r.(spi_descriptor) <? 0) || (length transmit =? 0)%nat ||
     (UINT32_MAX <? Z.of_nat (length transmit))
  then mret None
  else call (Dev_spi_message r.(spi_descriptor) transmit r.(impl_config).(spi_speed_hz)).

Definition write_command (fuel : nat) (opcode : byte) (data : bytes) : Act bool :=
  ready ← wait_while_busy fuel;
  if negb ready || (kMaximumDatagramBytes + 4 <? length data)%nat then mret false
  else
    sent ← spi_transfer (opcode :: data);
    match sent with
    | None => mret false
    | Some _ => if Byte.eqb opcode kSetSleep then mret true else wait_while_busy fuel
    end.

(** The bytes after the status, if the command went through. *)
Definition read_command (fuel : nat) (opcode : byte) (arguments : bytes)
    (destination_size : nat) : Act (option bytes) :=
  ready ← wait_while_busy fuel;
  if negb ready || (destination_size =? 0)%nat ||
     (kMaximumDatagramBytes + 6 <? length arguments + destination_size + 2)%nat
  then mret None
  else
    let data_offset := (length arguments + 2)%nat in
    received ← spi_transfer (opcode :: arguments ++ replicate (1 + destination_size) x00);
    match received with
    | None => mret None
    | Some receive =>
        ready ← wait_while_busy fuel;
        mret (if (ready : bool) then Some (take destination_size (drop data_offset receive))
              else None)
    end.

Definition write_register (fuel : nat) (address : Z) (data : bytes) : Act bool :=
  if (length data =? 0)%nat || (kMaximumDatagramBytes <? length data)%nat then mret false
  else
    write_command fuel kWriteRegister
      (to_u8 (Z.shiftr address 8) :: to_u8 (Z.land address 0xff) :: data).

(** *** The antenna switch *)

Definition i2c_read_register (address : Z) : Act (option Z) :=
  r ← this; call (Dev_i2c_read r.(i2c_descriptor) kPi4ioAddress address).

Definition i2c_write_register (address value : Z) : Act bool :=
  r ← this; call (Dev_i2c_write r.(i2c_descriptor) kPi4ioAddress address value).

Definition update_i2c_register (address set_mask clear_mask : Z) : Act bool :=
  value ← i2c_read_register address;
  match value with
  | None => mret false
  | Some value =>
      i2c_write_register address
        (u8 (Z.land (Z.lor value set_mask) (u8 (Z.lnot clear_mask))))
  end.

Definition set_antenna_switch (enabled : bool) : Act bool :=
  r ← this;
  if r.(i2c_descriptor) <? 0 then mret false
  else if enabled then
    device_id ← i2c_read_register kPi4ioDeviceId;
    match device_id with
    | None => mret false
    | Some device_id =>
        if device_id =? 0 then mret false
        else
          updated ← all_of [update_i2c_register kPi4ioDirection kAntennaSwitchBit 0;
                            update_i2c_register kPi4ioHighImpedance 0 kAntennaSwitchBit;
                            update_i2c_register kPi4ioOutput kAntennaSwitchBit 0];
          if negb updated then mret false
          else (_ ← modify (set_antenna true); mret true)
    end
  else
    result ← update_i2c_register kPi4ioOutput 0 kAntennaSwitchBit;
    _ ← modify (set_antenna false);
    mret result.

(** *** The radio *)

Definition reset_radio (fuel : nat) : Act bool :=
  r ← this;
  low ← gpio_set r.(reset_descriptor) false;
  if negb low then mret false
  else
    _ ← call (Dev_sleep_for (2 * kMillisecond));
    high ← gpio_set r.(reset_descriptor) true;
    if negb high then mret false
    else
      _ ← call (Dev_sleep_for (10 * kMillisecond));
      wait_while_busy fuel.

Definition mask_bytes (mask : Z) : bytes := [to_u8 (Z.shiftr mask 8); to_u8 (Z.land mask 0xff)].

Definition irq_mask_arguments (mask : Z) : bytes :=
  mask_bytes mask ++ mask_bytes mask ++ [x00; x00; x00; x00].

Definition set_irq_mask (fuel : nat) (mask : Z) : Act bool :=
  write_command fuel kSetDioIrqParams (irq_mask_arguments mask).

Definition clear_irq (fuel : nat) (mask : Z) : Act bool :=
  write_command fuel kClearIrqStatus (mask_bytes mask).

Definition read_irq (fuel : nat) : Act (option Z) :=
  data ← read_command fuel kGetIrqStatus [] 2;
  mret (match data with
        | Some data =>
            Some (u16 (Z.lor (Z.shiftl (bval (byte_at data 0)) 8) (bval (byte_at data 1))))
        | None => None
        end).

Definition packet_arguments (p : Japan920Profile) (payload_size : nat) : bytes :=
  [to_u8 (Z.shiftr p.(preamble_symbols) 8); to_u8 (Z.land p.(preamble_symbols) 0xff);
   kExplicitHeader; to_u8 (Z.of_nat payload_size); kCrcEnabled; kStandardIq].

Definition set_packet_params (fuel : nat) (payload_size : nat) : Act bool :=
  r ← this;
  if (payload_size =? 0)%nat || (kMaximumDatagramBytes <? payload_size)%nat then mret false
  else
    write_command fuel kSetPacketParams
      (packet_arguments r.(impl_config).(radio_profile) payload_size).

Definition kContinuous : bytes := [xff; xff; xff].

Definition start_receive (fuel : nat) : Act bool :=
  ok ← all_of [set_packet_params fuel kMaximumDatagramBytes; clear_irq fuel 0xffff;
               set_irq_mask fuel kReceiveIrqs];
  if negb ok then mret false
  else
    started ← write_command fuel kSetRx kContinuous;
    if negb started then mret false
    else (_ ← modify (set_direction true false); mret true).

Definition frequency_word (p : Japan920Profile) : Z :=
  Z.quot (u64 (Z.shiftl p.(frequency_hz) 25)) 32000000.

(** The commands of [configure_radio] before the first use of the profile. *)
Definition fixed_commands : list (byte * bytes) :=
  [(kSetStandby, [kStandbyRc]);
   (kSetRegulatorMode, [kRegulatorDcdc]);
   (kSetDio3TcxoCtrl,
    [kTcxo3Volts; to_u8 (Z.shiftr kTcxoDelayUnits 16); to_u8 (Z.shiftr kTcxoDelayUnits 8);
     to_u8 kTcxoDelayUnits]);
   (kCalibrate, [x7f]);
   (kCalibrateImage, [xe1; xe9]);
   (kSetPacketType, [kLoRaPacketType]);
   (kSetBufferBaseAddress, [x00; x00])].

Definition profile_commands (p : Japan920Profile) : list (byte * bytes) :=
  let word := frequency_word p in
  [(kSetRfFrequency,
    [to_u8 (Z.shiftr word 24); to_u8 (Z.shiftr word 16); to_u8 (Z.shiftr word 8); to_u8 word]);
   (kSetModulationParams,
    [to_u8 p.(spreading_factor); kBandwidth125Khz; to_u8 (p.(coding_rate_denominator) - 4);
     if 11 <=? p.(spreading_factor) then x01 else x00]);
   (kSetPaConfig, [x04; x07; x00; x01]);
   (kSetTxParams, [to_u8 p.(transmit_power_dbm); x04])].

Definition sync_word_bytes (p : Japan920Profile) : bytes :=
  [to_u8 (Z.lor (Z.land p.(sync_word) 0xf0) 0x04);
   to_u8 (Z.lor (Z.shiftl p.(sync_word) 4) 0x04)].

Definition write_commands (fuel : nat) (commands : list (byte * bytes)) : list (Act bool) :=
  (fun c => write_command fuel c.1 c.2) <$> commands.

Definition configure_radio (fuel : nat) : Act bool :=
  r ← this;
  let p := r.(impl_config).(radio_profile) in
  all_of (write_commands fuel fixed_commands ++ write_commands fuel (profile_commands p) ++
          [write_register fuel kOcpRegister [x38];
           write_register fuel kLoRaSyncWordRegister (sync_word_bytes p);
           start_receive fuel]).

Definition shutdown (fuel : nat) : Act unit :=
  r ← this;
  if r.(impl_closed) then mret tt
  else
    _ ← (if (0 <=? r.(spi_descriptor)) && (0 <=? r.(busy_descriptor)) && r.(initialized)
         then write_command fuel kSetSleep [x00] else mret true);
    _ ← (if r.(antenna_switch_enabled) then set_antenna_switch false else mret true);
    _ ← modify (set_direction false false);
    _ ← modify (set_lifetime false true);
    _ ← close_descriptor fuel r.(reset_descriptor);
    _ ← close_descriptor fuel r.(irq_descriptor);
    _ ← close_descriptor fuel r.(busy_descriptor);
    _ ← close_descriptor fuel r.(spi_descriptor);
    _ ← close_descriptor fuel r.(i2c_descriptor);
    _ ← modify (set_line_descriptors (-1) (-1) (-1));
    modify (set_bus_descriptors (-1) (-1)).

Definition initialize (fuel : nat) : Act unit :=
  r ← this;
  let c := r.(impl_config) in
  if negb (LinuxCapLora1262Config_valid c) then shutdown fuel
  else
    spi ← call (Dev_open c.(spi_device) true);
    i2c ← call (Dev_open c.(i2c_device) true);
    _ ← modify (set_bus_descriptors spi i2c);
    chip ← call (Dev_open c.(gpio_chip) false);
    if (spi <? 0) || (i2c <? 0) || (chip <? 0) then
      _ ← close_descriptor fuel chip; shutdown fuel
    else
      reset ← request_gpio chip c.(reset_gpio) true true (str "lora-reset");
      irq ← request_gpio chip c.(irq_gpio) false false (str "lora-irq");
      busy ← request_gpio chip c.(busy_gpio) false false (str "lora-busy");
      _ ← modify (set_line_descriptors reset irq busy);
      _ ← close_descriptor fuel chip;
      if (reset <? 0) || (irq <? 0) || (busy <? 0) then shutdown fuel
      else
        ok ← all_of [call (Dev_spi_setting spi (Spi_Mode 0));
                     call (Dev_spi_setting spi (Spi_BitsPerWord 8));
                     call (Dev_spi_setting spi (Spi_MaxSpeedHz c.(spi_speed_hz)));
                     set_antenna_switch true; reset_radio fuel; configure_radio fuel];
        if negb ok then shutdown fuel else modify (set_lifetime true false).

Definition has_irq (irq mask : Z) : bool := negb (Z.land irq mask =? 0).

Definition rssi_dbm (raw_rssi : byte) : Z := Z.quot (- bval raw_rssi) 2.

Definition timeout_arguments : bytes :=
  [to_u8 (Z.shiftr kTxTimeoutUnits 16); to_u8 (Z.shiftr kTxTimeoutUnits 8);
   to_u8 kTxTimeoutUnits].

(** The commands that send [data]. *)
Definition send_actions (fuel : nat) (data : bytes) : list (Act bool) :=
  [write_command fuel kSetStandby [kStandbyRc];
   set_packet_params fuel (length data);
   write_command fuel kWriteBuffer (x00 :: data);
   clear_irq fuel 0xffff;
   set_irq_mask fuel kTransmitIrqs;
   write_command fuel kSetTx timeout_arguments].

Definition impl_try_start_transmit (fuel : nat) (data : bytes) : Act RadioStartStatus :=
  r ← this;
  if negb (impl_ready r) || (length data =? 0)%nat || (kMaximumDatagramBytes <? length data)%nat
  then mret RadioStart_Failed
  else if r.(transmitting) then mret RadioStart_Busy
  else
    irq_high ← gpio_get r.(irq_descriptor);
    match irq_high with
    | None => mret RadioStart_Failed
    | Some irq_high =>
        irq ← read_irq fuel;
        match irq with
        | None => mret RadioStart_Failed
        | Some irq =>
            if irq_high ||
               has_irq irq (Z.lor kIrqPreambleDetected (Z.lor kIrqHeaderValid kIrqRxDone))
            then mret RadioStart_Busy
            else
              raw_rssi ← read_command fuel kGetRssiInst [] 1;
              match raw_rssi with
              | None => mret RadioStart_Failed
              | Some raw_rssi =>
                  if r.(impl_config).(listen_before_talk_threshold_dbm) <=?
                     rssi_dbm (byte_at raw_rssi 0)
                  then mret RadioStart_Busy
                  else
                    sent ← all_of (send_actions fuel data);
                    if negb sent then mret RadioStart_Failed
                    else (_ ← modify (set_direction false true); mret RadioStart_Started)
              end
        end
    end.

Definition poll_failed : RadioPollResult := mkRadioPollResult RadioPoll_Failed 0.
Definition poll_idle : RadioPollResult := mkRadioPollResult RadioPoll_Idle 0.

(** Clear what was seen and listen again. *)
Definition resume (fuel : nat) (irq : Z) (result : RadioPollResult) (destination : bytes)
  : Act (RadioPollResult * bytes) :=
  ok ← act_and (clear_irq fuel irq) (start_receive fuel);
  mret (if (ok : bool) then result else poll_failed, destination).

Definition take_packet (fuel : nat) (irq : Z) (destination : bytes)
  : Act (RadioPollResult * bytes) :=
  status ← read_command fuel kGetRxBufferStatus [] 2;
  match status with
  | None => mret (poll_failed, destination)
  | Some status =>
      let payload_size := Z.to_nat (bval (byte_at status 0)) in
      let received := mkRadioPollResult RadioPoll_Received payload_size in
      if (payload_size =? 0)%nat || (length destination <? payload_size)%nat
      then resume fuel irq received destination
      else
        data ← read_command fuel kReadBuffer [byte_at status 1] payload_size;
        match data with
        | None => mret (poll_failed, destination)
        | Some data => resume fuel irq received (data ++ drop payload_size destination)
        end
  end.

(** [destination] is the buffer before the call; it is returned as the call leaves it. *)
Definition impl_poll (fuel : nat) (destination : bytes) : Act (RadioPollResult * bytes) :=
  r ← this;
  if negb (impl_ready r) || (length destination =? 0)%nat then mret (poll_failed, destination)
  else
    irq_high ← gpio_get r.(irq_descriptor);
    match irq_high with
    | None => mret (poll_failed, destination)
    | Some false => mret (poll_idle, destination)
    | Some true =>
        irq ← read_irq fuel;
        match irq with
        | None => mret (poll_failed, destination)
        | Some irq =>
            if has_irq irq kIrqTimeout && r.(transmitting) then mret (poll_failed, destination)
            else if has_irq irq kIrqTimeout then resume fuel irq poll_idle destination
            else if has_irq irq kIrqTxDone then
              resume fuel irq (mkRadioPollResult RadioPoll_TransmitComplete 0) destination
            else if has_irq irq (Z.lor kIrqHeaderError kIrqCrcError) then
              resume fuel irq poll_idle destination
            else if negb (has_irq irq kIrqRxDone) then mret (poll_idle, destination)
            else take_packet fuel irq destination
        end
    end.

(** *** The radio as the transport's interface *)

(** The constructor. *)
Definition LinuxCapLora1262Radio (fuel : nat) (c : LinuxCapLora1262Config) (w : W)
  : option (RadioImpl * W) :=
  snd <$> initialize fuel (new_impl c, w).
End Driver.
