(* ===== verification/RadioTrace.v ===== *)
(** * RadioTrace: what the radio driver does to its devices

    A world of devices that keeps a log of the calls and of their answers
    ([ILinuxDevicesLaws]), and for each action of LinuxRadio.v the effects it has
    on the devices: the messages on the SPI bus and the writes to the registers of
    the antenna switch, in order. *)
From S2P Require Import Prelude Ports TokenBudget Japan920Policy Transports LinuxRadio.

(** ** What the driver relies on *)

Inductive DeviceEvent :=
| device_event (A : Type) (c : DeviceCall A) (answer : A).
Arguments device_event {A} _ _.

(** A reply on the bus is as long as the message. *)
Definition answer_ok {A} (c : DeviceCall A) : A -> Prop :=
  match c with
  | Dev_spi_message _ transmit _ => fun answer =>
      forall receive, answer = Some receive -> length receive = length transmit
  | _ => fun _ => True
  end.

Class ILinuxDevicesLaws (W : Type) `{ILinuxDevices W} := {
  device_log : W -> list DeviceEvent;
  device_call_law {A} (c : DeviceCall A) w answer w' :
    device_call c w = (answer, w') ->
    device_log w' = device_log w ++ [device_event c answer] /\ answer_ok c answer
}.

(** What reaches a device, with its answer.  A call that fails may have had its
    effect all the same. *)
Inductive DeviceEffect :=
| Effect_spi (transmit : bytes) (receive : option bytes)
| Effect_switch (register value : Z) (done_ : bool).

Definition effect_of_event (e : DeviceEvent) : option DeviceEffect :=
  match e with
  | device_event c answer =>
      match c in DeviceCall A return A -> option DeviceEffect with
      | Dev_spi_message _ transmit _ => fun answer => Some (Effect_spi transmit answer)
      | Dev_i2c_write _ _ register value => fun answer => Some (Effect_switch register value answer)
      | _ => fun _ => None
      end answer
  end.

Definition effects (events : list DeviceEvent) : list DeviceEffect := omap effect_of_event events.

(** The effects are these messages, in order, whatever the answers. *)
Definition sent_as (es : list DeviceEffect) (messages : list bytes) : Prop :=
  Forall2 (fun e m => exists receive, e = Effect_spi m receive) es messages.

Lemma sent_as_app es1 es2 ms1 ms2 :
  sent_as es1 ms1 -> sent_as es2 ms2 -> sent_as (es1 ++ es2) (ms1 ++ ms2).
Proof. apply Forall2_app. Qed.

Lemma sent_as_nil es : sent_as es [] -> es = [].
Proof. by intros ?%Forall2_nil_inv_r. Qed.

Definition Post (A : Type) : Type := RadioImpl -> list DeviceEffect -> A -> RadioImpl -> Prop.

Section Trace.
Context {W : Type} `{ILinuxDevicesLaws W}.

(** ** The effects of an action *)

(** [m], started by a driver in state [r], ends in [r'] with [a] and the effects
    [es] only as [P] says. *)
Definition does {A} (m : Act A) (P : Post A) : Prop :=
  forall r w a r' w', m (r, w) = Some (a, (r', w')) ->
    exists events, device_log w' = device_log w ++ events /\ P r (effects events) a r'.

Lemma does_ret {A} (a : A) (P : Post A) :
  (forall r, P r [] a r) -> does (mret a) P.
Proof. intros HP r w a' r' w' [= <- <- <-]. exists []. by rewrite app_nil_r. Qed.

Lemma does_bind {A B} (m : Act A) (k : A -> Act B) (P : Post A) (Q : A -> Post B) (R : Post B) :
  does m P -> (forall a, does (k a) (Q a)) ->
  (forall r es1 a r1 es2 b r2, P r es1 a r1 -> Q a r1 es2 b r2 -> R r (es1 ++ es2) b r2) ->
  does (m ≫= k) R.
Proof.
  intros Hm Hk HR r w b r2 w2. unfold mbind, act_bind.
  destruct (m (r, w)) as [[a [r1 w1]]|] eqn:E; [|done]. intros E2.
  apply Hm in E as (ev1 & Hl1 & HP). apply Hk in E2 as (ev2 & Hl2 & HQ).
  exists (ev1 ++ ev2). split; [by rewrite Hl2, Hl1, app_assoc|].
  unfold effects. rewrite omap_app. by eapply HR.
Qed.

Lemma does_weaken {A} (m : Act A) (P Q : Post A) :
  does m P -> (forall r es a r', P r es a r' -> Q r es a r') -> does m Q.
Proof. intros Hm HPQ r w a r' w' (ev & Hl & HP)%Hm. eauto. Qed.

Lemma does_call {A} (c : DeviceCall A) :
  does (call c) (fun r es a r' =>
    r' = r /\ es = effects [device_event c a] /\ answer_ok c a).
Proof.
  intros r w a r' w'. unfold call. cbn [snd fst].
  destruct (device_call c w) as [b w1] eqn:E. intros [= <- <- <-].
  apply device_call_law in E as [Hl Ha]. by exists [device_event c b].
Qed.

(** An action that looks at the state of the driver first. *)
Lemma does_this {A} (k : RadioImpl -> Act A) (P : Post A) :
  (forall r0, does (k r0) (fun r es a r' => r = r0 -> P r es a r')) -> does (this ≫= k) P.
Proof.
  intros Hk r w a r' w' E. unfold mbind, act_bind, this in E. cbn in E.
  destruct (Hk r _ _ _ _ _ E) as (ev & Hl & HP). eauto.
Qed.

Lemma does_modify {A} f (k : Act A) (P : Post A) :
  does k (fun r es a r' => forall r0, r = f r0 -> P r0 es a r') -> does (modify f ≫= fun _ => k) P.
Proof.
  intros Hk r w a r' w' E. unfold mbind, act_bind, modify in E. cbn in E.
  destruct (Hk _ _ _ _ _ E) as (ev & Hl & HP). eauto.
Qed.

Lemma does_stuck {A} (P : Post A) : does stuck P.
Proof. done. Qed.

(** ** Actions without effects *)

Definition silent {A} (m : Act A) : Prop := does m (fun r es _ r' => r' = r /\ es = []).

Lemma silent_ret {A} (a : A) : silent (mret a).
Proof. by apply does_ret. Qed.

Lemma silent_bind {A B} (m : Act A) (k : A -> Act B) :
  silent m -> (forall a, silent (k a)) -> silent (m ≫= k).
Proof.
  intros Hm Hk. eapply does_bind with (Q := fun _ r es _ r' => r' = r /\ es = []); [exact Hm|exact Hk|].
  by intros r es1 a r1 es2 b r2 [-> ->] [-> ->].
Qed.

Lemma silent_this {A} (k : RadioImpl -> Act A) : (forall r, silent (k r)) -> silent (this ≫= k).
Proof. intros Hk. apply does_this. intros r0. eapply does_weaken; [apply Hk|]. by cbn. Qed.

Lemma silent_call {A} (c : DeviceCall A) :
  (forall a, effect_of_event (device_event c a) = None) -> silent (call c).
Proof.
  intros Hc. eapply does_weaken; [apply does_call|]. cbn beta.
  intros r es a r' (-> & -> & _). split; [done|]. unfold effects. cbn [omap list_omap]. by rewrite Hc.
Qed.

(** A silent action, then another. *)
Lemma does_silent {A B} (m : Act A) (k : A -> Act B) (P : Post B) :
  silent m -> (forall a, does (k a) P) -> does (m ≫= k) P.
Proof.
  intros Hm Hk. eapply does_bind with (Q := fun _ => P); [exact Hm|exact Hk|].
  by intros r es1 a r1 es2 b r2 [-> ->].
Qed.

Ltac silence :=
  repeat first
    [ apply silent_ret | apply does_stuck | apply silent_this; intros ?
    | apply silent_call; done | apply silent_bind; [|intros ?] | case_match | assumption ].

Lemma gpio_get_silent d : silent (gpio_get d).
Proof. unfold gpio_get. silence. Qed.

Lemma gpio_set_silent d high : silent (gpio_set d high).
Proof. unfold gpio_set. silence. Qed.

Lemma request_gpio_silent chip offset output high consumer :
  silent (request_gpio chip offset output high consumer).
Proof. unfold request_gpio. silence. Qed.

Lemma close_descriptor_silent fuel d : silent (close_descriptor fuel d).
Proof.
  unfold close_descriptor. case_match; [silence|].
  induction fuel as [|fuel IH]; cbn [close_retry]; silence.
Qed.

Lemma wait_while_busy_silent fuel : silent (wait_while_busy fuel).
Proof.
  unfold wait_while_busy. apply silent_bind; [by apply silent_call|]. intros now.
  set (deadline := now + _). clearbody deadline.
  induction fuel as [|fuel IH]; cbn [busy_loop]; [apply does_stuck|].
  apply silent_this. intros r. apply silent_bind; [apply gpio_get_silent|]. intros busy. silence.
Qed.

Lemma reset_radio_silent fuel : silent (reset_radio fuel).
Proof.
  unfold reset_radio. apply silent_this. intros r.
  apply silent_bind; [apply gpio_set_silent|]. intros low. case_match; [silence|].
  apply silent_bind; [by apply silent_call|]. intros _.
  apply silent_bind; [apply gpio_set_silent|]. intros high. case_match; [silence|].
  apply silent_bind; [by apply silent_call|]. intros _. apply wait_while_busy_silent.
Qed.

(** ** Actions that send messages *)

(** [m] sends the messages [ms], or some of the first ones; it succeeds only
    when all of them were sent, and changes the driver by [u] then. *)
Definition sends (m : Act bool) (ms : RadioImpl -> list bytes) (u : RadioImpl -> RadioImpl)
  : Prop :=
  does m (fun r es a r' => exists sent, sent_as es sent /\ sent `prefix_of` ms r /\
    if (a : bool) then sent = ms r /\ r' = u r else r' = r).

Lemma sends_weaken m ms ms' u : sends m ms u -> (forall r, ms r = ms' r) -> sends m ms' u.
Proof. intros Hm Heq. eapply does_weaken; [exact Hm|]. cbn beta. intros. by rewrite <- Heq. Qed.

Lemma sends_and m1 m2 ms1 ms2 u :
  sends m1 ms1 (fun r => r) -> sends m2 ms2 u -> sends (act_and m1 m2) (fun r => ms1 r ++ ms2 r) u.
Proof.
  intros H1m H2m. unfold act_and.
  eapply does_bind with (Q := fun ok r es a r' => exists sent, sent_as es sent /\
    if (ok : bool) then sent `prefix_of` ms2 r /\ if (a : bool) then sent = ms2 r /\ r' = u r else r' = r
    else sent = [] /\ a = false /\ r' = r).
  - exact H1m.
  - intros [].
    + eapply does_weaken; [exact H2m|]. intros r es a r' (sent & ? & ? & ?). eauto.
    + apply does_ret. intros r. exists []. split; [constructor|done].
  - cbn beta. intros r es1 ok r1 es2 b r2 (s1 & Hs1 & Hp1 & Hok) (s2 & Hs2 & Hr).
    exists (s1 ++ s2). split; [by apply sent_as_app|]. destruct ok.
    + destruct Hok as [-> ->]. destruct Hr as [Hp2 Hb]. split; [by apply prefix_app|].
      by destruct b; [destruct Hb as [-> ->]|].
    + destruct Hr as (-> & -> & ->). rewrite app_nil_r. split; [by apply prefix_app_r|done].
Qed.

Lemma sends_nothing : sends (mret true) (fun _ => []) (fun r => r).
Proof. apply does_ret. intros r. exists []. split; [constructor|done]. Qed.

Lemma sends_last m ms u : sends m ms u -> sends (act_and m (mret true)) ms u.
Proof.
  intros Hm. unfold act_and. eapply does_bind with
    (Q := fun ok r es a r' => a = ok /\ es = [] /\ r' = r); [exact Hm| |].
  - intros []; by apply does_ret.
  - intros r es1 ok r1 es2 b r2 Hs (-> & -> & ->). by rewrite app_nil_r.
Qed.

(** All but the last action leave the driver as it is. *)
Lemma sends_all ms (acts : list (Act bool)) (messages : list (RadioImpl -> list bytes)) m u :
  Forall2 (fun a f => sends a f (fun r => r)) acts messages -> sends m ms u ->
  sends (all_of (acts ++ [m])) (fun r => concat ((fun f => f r) <$> messages) ++ ms r) u.
Proof.
  intros Hall Hm. induction Hall as [|a f acts messages Ha _ IH]; cbn [all_of app].
  - by apply sends_last.
  - eapply sends_weaken; [exact (sends_and _ _ _ _ _ Ha IH)|]. intros r. cbn. by rewrite app_assoc.
Qed.

Lemma spi_transfer_does tx :
  does (spi_transfer tx) (fun r es a r' => r' = r /\
    (es = [] /\ a = None \/
     es = [Effect_spi tx a] /\ forall rx, a = Some rx -> length rx = length tx)).
Proof.
  unfold spi_transfer. apply does_this. intros r0. case_match.
  - apply does_ret. auto.
  - eapply does_weaken; [apply does_call|]. cbn beta. intros r es a r' (-> & -> & Ha) _.
    split; [done|]. right. split; [done|]. exact Ha.
Qed.

Lemma write_command_sends fuel opcode data :
  sends (write_command fuel opcode data) (fun _ => [opcode :: data]) (fun r => r).
Proof.
  unfold write_command. apply does_silent; [apply wait_while_busy_silent|]. intros ready.
  case_match.
  { apply does_ret. intros r. exists []. split; [constructor|]. split; [apply prefix_nil|done]. }
  eapply does_bind with (Q := fun sent r es a r' => r' = r /\ es = [] /\ (sent = None -> a = false)).
  - apply spi_transfer_does.
  - intros [rx|].
    + case_match.
      * apply does_ret. done.
      * eapply does_weaken; [apply wait_while_busy_silent|]. by intros r es a r' [-> ->].
    + by apply does_ret.
  - cbn beta. intros r es1 a r1 es2 b r2 [-> Hs] (-> & -> & Hb). rewrite app_nil_r.
    destruct Hs as [[-> ->]|[-> _]].
    + rewrite Hb by done. exists []. split; [constructor|]. split; [apply prefix_nil|done].
    + exists [opcode :: data]. split; [repeat constructor; by eexists|]. split; [done|].
      by destruct b.
Qed.

(** ** The commands of the driver *)

Definition profile_of (r : RadioImpl) : Japan920Profile := r.(impl_config).(radio_profile).

Definition command_message (c : byte * bytes) : bytes := c.1 :: c.2.

Definition register_message (address : Z) (data : bytes) : bytes :=
  kWriteRegister :: to_u8 (Z.shiftr address 8) :: to_u8 (Z.land address 0xff) :: data.

Definition packet_message (p : Japan920Profile) (n : nat) : bytes :=
  kSetPacketParams :: packet_arguments p n.
Definition clear_message (mask : Z) : bytes := kClearIrqStatus :: mask_bytes mask.
Definition irq_mask_message (mask : Z) : bytes := kSetDioIrqParams :: irq_mask_arguments mask.

Definition receive_messages (p : Japan920Profile) : list bytes :=
  [packet_message p kMaximumDatagramBytes; clear_message 0xffff; irq_mask_message kReceiveIrqs;
   kSetRx :: kContinuous].

Definition configure_messages (p : Japan920Profile) : list bytes :=
  (command_message <$> fixed_commands) ++ (command_message <$> profile_commands p) ++
  [register_message kOcpRegister [x38];
   register_message kLoRaSyncWordRegister (sync_word_bytes p)] ++ receive_messages p.

Definition send_messages (p : Japan920Profile) (data : bytes) : list bytes :=
  [kSetStandby :: [kStandbyRc]; packet_message p (length data); kWriteBuffer :: x00 :: data;
   clear_message 0xffff; irq_mask_message kTransmitIrqs; kSetTx :: timeout_arguments].


Lemma sends_this (k : RadioImpl -> Act bool) (f : RadioImpl -> RadioImpl -> list bytes) ms u :
  (forall r0, sends (k r0) (f r0) u) -> (forall r, f r r = ms r) -> sends (this ≫= k) ms u.
Proof.
  intros Hk Hf. apply does_this. intros r0. eapply does_weaken; [apply Hk|].
  cbn beta. intros r es a r' Hs ->. by rewrite <- Hf.
Qed.

Lemma sends_false ms u : sends (mret false) ms u.
Proof. apply does_ret. intros r. exists []. split; [constructor|]. split; [apply prefix_nil|done]. Qed.

Lemma set_packet_params_sends fuel n :
  (0 < n <= kMaximumDatagramBytes)%nat ->
  sends (set_packet_params fuel n) (fun r => [packet_message (profile_of r) n]) (fun r => r).
Proof.
  intros Hn. unfold set_packet_params.
  apply sends_this with (f := fun r0 _ => [packet_message (profile_of r0) n]); [|done]. intros r0.
  destruct (Nat.eqb_spec n 0); [lia|]. destruct (Nat.ltb_spec kMaximumDatagramBytes n); [lia|].
  apply write_command_sends.
Qed.

Lemma write_register_sends fuel address data :
  (0 < length data <= kMaximumDatagramBytes)%nat ->
  sends (write_register fuel address data) (fun _ => [register_message address data]) (fun r => r).
Proof.
  intros Hn. unfold write_register.
  destruct (Nat.eqb_spec (length data) 0); [lia|].
  destruct (Nat.ltb_spec kMaximumDatagramBytes (length data)); [lia|]. apply write_command_sends.
Qed.

Lemma sends_update (m : Act bool) ms f :
  sends m ms (fun r => r) ->
  sends (ok ← m; if negb ok then mret false else (_ ← modify f; mret true)) ms f.
Proof.
  intros Hm. eapply does_bind with
    (Q := fun ok r es a r' => a = ok /\ es = [] /\ r' = if (ok : bool) then f r else r).
  - exact Hm.
  - intros []; cbn [negb]; [|by apply does_ret].
    apply does_modify, does_ret. by intros r r0 ->.
  - intros r es1 ok r1 es2 b r2 (sent & Hs & Hp & Hok) (-> & -> & ->). rewrite app_nil_r.
    exists sent. split; [done|]. split; [done|]. by destruct ok; [destruct Hok as [-> ->]|].
Qed.

Lemma does_ext {A} (m m' : Act A) (P : Post A) : (forall s, m s = m' s) -> does m P -> does m' P.
Proof. intros Heq Hm r w a r' w'. rewrite <- Heq. apply Hm. Qed.

(** The other way the code writes [act_and]. *)
Lemma sends_then m k ms1 ms2 u :
  sends m ms1 (fun r => r) -> sends k ms2 u ->
  sends (ok ← m; if negb ok then mret false else k) (fun r => ms1 r ++ ms2 r) u.
Proof.
  intros Hm Hk. eapply does_ext; [|exact (sends_and _ _ _ _ _ Hm Hk)].
  intros s. unfold act_and, mbind, act_bind. by destruct (m s) as [[[] s']|].
Qed.

Lemma start_receive_sends fuel :
  sends (start_receive fuel) (fun r => receive_messages (profile_of r)) (set_direction true false).
Proof.
  unfold start_receive. eapply sends_weaken.
  - eapply sends_then.
    + eapply sends_and; [apply set_packet_params_sends; unfold kMaximumDatagramBytes; lia|].
      eapply sends_and; [apply write_command_sends|]. apply sends_last, write_command_sends.
    + apply sends_update, write_command_sends.
  - done.
Qed.

Lemma write_commands_sends fuel commands :
  Forall2 (fun a f => sends a f (fun r => r)) (write_commands fuel commands)
    ((fun c _ => [command_message c]) <$> commands).
Proof.
  unfold write_commands. induction commands as [|[opcode data] commands IH]; [constructor|].
  constructor; [apply write_command_sends|exact IH].
Qed.

(** Commands, registers, then an action that may change the driver. *)
Lemma sends_commands fuel commands registers rmessages m ms u :
  Forall2 (fun a f => sends a f (fun r => r)) registers rmessages -> sends m ms u ->
  sends (all_of (write_commands fuel commands ++ registers ++ [m]))
    (fun r => (command_message <$> commands) ++ concat ((fun f => f r) <$> rmessages) ++ ms r) u.
Proof.
  intros Hreg Hm. eapply sends_weaken.
  - rewrite app_assoc. eapply sends_all; [|exact Hm].
    apply Forall2_app; [apply write_commands_sends|exact Hreg].
  - intros r. cbn beta. rewrite fmap_app, concat_app, <- app_assoc. f_equal.
    induction commands as [|c commands IH]; cbn; [done|]. f_equal. exact IH.
Qed.

Lemma configure_radio_sends fuel :
  sends (configure_radio fuel) (fun r => configure_messages (profile_of r))
    (set_direction true false).
Proof.
  unfold configure_radio. apply sends_this with (f := fun r0 r =>
    (command_message <$> fixed_commands ++ profile_commands (profile_of r0)) ++
    concat ((fun f => f r) <$>
      [fun _ => [register_message kOcpRegister [x38]];
       fun _ => [register_message kLoRaSyncWordRegister (sync_word_bytes (profile_of r0))]]) ++
    receive_messages (profile_of r)).
  - intros r0. fold (profile_of r0). eapply does_ext; [|apply sends_commands with
      (registers := [write_register fuel kOcpRegister [x38];
                     write_register fuel kLoRaSyncWordRegister (sync_word_bytes (profile_of r0))]);
      [|apply start_receive_sends]].
    + intros s. unfold write_commands at 1. by rewrite fmap_app, <- app_assoc.
    + repeat constructor; apply write_register_sends; unfold kMaximumDatagramBytes; cbn; lia.
  - intros r. unfold configure_messages. by rewrite fmap_app, <- app_assoc.
Qed.

(** ** Queries *)

(** A command with a reply of [n] bytes after those it skips. *)
Definition asks (m : Act (option bytes)) (message : bytes) (skip n : nat) : Prop :=
  does m (fun r es a r' => r' = r /\
    (es = [] /\ a = None \/
     exists receive, es = [Effect_spi message receive] /\
       forall data, a = Some data -> exists rx, receive = Some rx /\
         length rx = length message /\ data = take n (drop skip rx))).

Definition query_message (opcode : byte) (arguments : bytes) (n : nat) : bytes :=
  opcode :: arguments ++ replicate (1 + n) x00.

Lemma read_command_asks fuel opcode arguments n :
  asks (read_command fuel opcode arguments n) (query_message opcode arguments n)
    (length arguments + 2) n.
Proof.
  unfold read_command. apply does_silent; [apply wait_while_busy_silent|]. intros ready.
  case_match; [apply does_ret; auto|].
  eapply does_bind with (Q := fun received r es a r' => r' = r /\ es = [] /\
    forall data, a = Some data -> exists rx, received = Some rx /\
      data = take n (drop (length arguments + 2) rx)).
  - apply spi_transfer_does.
  - intros [rx|].
    + eapply does_bind with (Q := fun (_ : bool) r es a r' => r' = r /\ es = [] /\
        forall data, a = Some data -> data = take n (drop (length arguments + 2) rx)).
      * apply wait_while_busy_silent.
      * intros [].
        -- apply does_ret. intros r. split; [done|]. split; [done|]. by intros data [= <-].
        -- by apply does_ret.
      * cbn beta. intros r es1 b r1 es2 a r2 [-> ->] (-> & -> & Ha). split; [done|].
        split; [done|]. intros data Hd. exists rx. split; [done|]. by apply Ha.
    + by apply does_ret.
  - cbn beta. intros r es1 a r1 es2 b r2 [-> Hs] (-> & -> & Hb). rewrite app_nil_r. split; [done|].
    destruct Hs as [[-> ->]|[-> Hlen]].
    + left. split; [done|]. destruct b as [d|]; [|done]. by destruct (Hb d eq_refl) as (? & ? & _).
    + right. exists a. split; [done|]. intros data Hd. destruct (Hb data Hd) as (rx & -> & ->).
      exists rx. split; [done|]. split; [|done]. by apply Hlen.
Qed.

(** The interrupt flags in a reply. *)
Definition irq_of (rx : bytes) : Z :=
  u16 (Z.lor (Z.shiftl (bval (byte_at (take 2 (drop 2 rx)) 0)) 8)
         (bval (byte_at (take 2 (drop 2 rx)) 1))).

Definition irq_query : bytes := query_message kGetIrqStatus [] 2.
Definition rssi_query : bytes := query_message kGetRssiInst [] 1.
Definition status_query : bytes := query_message kGetRxBufferStatus [] 2.

Lemma read_irq_does fuel :
  does (read_irq fuel) (fun r es a r' => r' = r /\
    (es = [] /\ a = None \/
     exists receive, es = [Effect_spi irq_query receive] /\
       forall irq, a = Some irq -> exists rx, receive = Some rx /\ irq = irq_of rx)).
Proof.
  unfold read_irq. eapply does_bind with (Q := fun data r es a r' => r' = r /\ es = [] /\
    forall irq, a = Some irq -> exists d, data = Some d /\
      irq = u16 (Z.lor (Z.shiftl (bval (byte_at d 0)) 8) (bval (byte_at d 1)))).
  - apply read_command_asks.
  - intros [d|]; apply does_ret; [|done]. intros r. split; [done|]. split; [done|].
    intros irq [= <-]. by exists d.
  - cbn beta. intros r es1 data r1 es2 a r2 [-> Hs] (-> & -> & Ha). rewrite app_nil_r.
    split; [done|]. destruct Hs as [[-> ->]|(receive & -> & Hrx)].
    + left. split; [done|]. destruct a as [irq|]; [|done].
      by destruct (Ha irq eq_refl) as (? & ? & _).
    + right. exists receive. split; [done|]. intros irq Hirq.
      destruct (Ha irq Hirq) as (d & -> & ->). destruct (Hrx d eq_refl) as (rx & -> & _ & ->).
      by exists rx.
Qed.
End Trace.
