(* ===== verification/RadioSafety.v ===== *)
(** * RadioSafety: the radio driver transmits only what, when and how it should

    The driver of LinuxRadio.v over any devices that keep a log: from its
    construction on, whatever the devices answer, nothing is transmitted before
    the antenna was confirmed and switched on and the radio was set to the
    permitted profile, and then only the datagrams that were asked for, each after
    the channel was found quiet.  What each call answers, and that it ends. *)
From S2P Require Import Prelude Ports TokenBudget Japan920Policy Transports LinuxRadio RadioTrace.

(** ** The antenna switch *)

(** The value of a register of the switch after these effects, if the last write
    of it succeeded. *)
Definition switch_register (register : Z) (es : list DeviceEffect) : option Z :=
  foldl (fun value e =>
    match e with
    | Effect_switch written v ok =>
        if written =? register then (if (ok : bool) then Some v else None) else value
    | Effect_spi _ _ => value
    end) None es.

Definition register_bit (register : Z) (on : bool) (es : list DeviceEffect) : bool :=
  match switch_register register es with
  | Some v => Bool.eqb (Z.testbit v 0) on
  | None => false
  end.

(** The pin of the antenna switch is an output, is driven, and is high. *)
Definition antenna_on (es : list DeviceEffect) : bool :=
  register_bit kPi4ioDirection true es && register_bit kPi4ioHighImpedance false es &&
  register_bit kPi4ioOutput true es.

Definition switch_effect (e : DeviceEffect) : Prop :=
  match e with Effect_switch _ _ _ => True | Effect_spi _ _ => False end.

(** Anything but the command to transmit. *)
Definition harmless (e : DeviceEffect) : Prop :=
  match e with
  | Effect_spi (opcode :: _) _ => opcode <> kSetTx
  | _ => True
  end.

Lemma switch_harmless es : Forall switch_effect es -> Forall harmless es.
Proof. intros Hs. eapply Forall_impl; [exact Hs|]. by intros []. Qed.

Lemma sent_as_harmless es messages :
  sent_as es messages -> Forall (fun m => head m <> Some kSetTx) messages -> Forall harmless es.
Proof.
  induction 1 as [|e m es messages [rx ->] _ IH]; intros Hm; [constructor|].
  apply Forall_cons in Hm as [Hh Hm]. constructor; [|by apply IH].
  destruct m as [|opcode m]; [done|]. cbn in *. congruence.
Qed.

Lemma testbit_u8_0 v : Z.testbit (u8 v) 0 = Z.testbit v 0.
Proof. unfold u8. change 256 with (2 ^ 8). rewrite Z.mod_pow2_bits_low; [done|lia]. Qed.

(** A constant in a list of constants. *)
Ltac listed := refine (bool_decide_unpack _ _); vm_compute; exact I.

Section Antenna.
Context {W : Type} `{ILinuxDevicesLaws W}.

Lemma update_i2c_register_does address set clear :
  does (update_i2c_register address set clear) (fun r es a r' => r' = r /\
    (es = [] /\ a = false \/ exists value,
       es = [Effect_switch address (u8 (Z.land (Z.lor value set) (u8 (Z.lnot clear)))) a])).
Proof.
  unfold update_i2c_register, i2c_read_register, i2c_write_register.
  apply does_silent; [by apply silent_this; intros; apply silent_call|]. intros [value|].
  - apply does_this. intros r0. eapply does_weaken; [apply does_call|]. cbn beta.
    intros r es a r' (-> & -> & _) _. split; [done|]. right. by exists value.
  - apply does_ret. auto.
Qed.

Lemma does_and (m1 m2 : Act bool) (P1 P2 R : Post bool) :
  does m1 P1 -> does m2 P2 ->
  (forall r es1 r1 es2 b r2, P1 r es1 true r1 -> P2 r1 es2 b r2 -> R r (es1 ++ es2) b r2) ->
  (forall r es r1, P1 r es false r1 -> R r es false r1) ->
  does (act_and m1 m2) R.
Proof.
  intros H1m H2m Htrue Hfalse. unfold act_and.
  eapply does_bind with (Q := fun (ok : bool) r es b r' =>
    if ok then P2 r es b r' else es = [] /\ b = false /\ r' = r).
  - exact H1m.
  - intros []; [exact H2m|by apply does_ret].
  - intros r es1 [] r1 es2 b r2 HP; [by apply Htrue|].
    intros (-> & -> & ->). rewrite app_nil_r. by apply Hfalse.
Qed.

Lemma does_and_true (m : Act bool) (P : Post bool) : does m P -> does (act_and m (mret true)) P.
Proof.
  intros Hm. eapply does_and with (P2 := fun r es b r' => es = [] /\ b = true /\ r' = r);
    [exact Hm|by apply does_ret| |done].
  intros r es1 r1 es2 b r2 HP (-> & -> & ->). by rewrite app_nil_r.
Qed.

Lemma silent_and (m1 m2 : Act bool) (P : Post bool) :
  silent m1 -> does m2 P -> (forall r, P r [] false r) -> does (act_and m1 m2) P.
Proof.
  intros H1m H2m HP. eapply does_and; [exact H1m|exact H2m| |].
  - by intros r es1 r1 es2 b r2 [-> ->].
  - by intros r es r1 [-> ->].
Qed.

(** Writes that leave the pin's bit of each of these registers as given. *)
Definition switched (registers : list (Z * bool)) (es : list DeviceEffect) (a : bool) : Prop :=
  Forall switch_effect es /\
  (a = true -> Forall2 (fun x e => exists v, e = Effect_switch x.1 v true /\
                          Z.testbit v 0 = x.2) registers es).

Lemma update_bit_does address set clear bit :
  Z.testbit set 0 = bit -> Z.testbit clear 0 = negb bit ->
  does (update_i2c_register address set clear) (fun r es a r' =>
    r' = r /\ switched [(address, bit)] es a).
Proof.
  intros Hset Hclear. eapply does_weaken; [apply update_i2c_register_does|]. cbn beta.
  intros r es a r' [-> [[-> ->]|[value ->]]]; split; [done| |done|].
  - by split.
  - split; [by repeat constructor|]. intros ->. constructor; [|constructor]. eexists. split; [done|].
    cbn [snd]. rewrite testbit_u8_0, Z.land_spec, Z.lor_spec, testbit_u8_0, Z.lnot_spec by lia.
    rewrite Hset, Hclear. destruct bit, (Z.testbit value 0); done.
Qed.

Lemma switched_all (acts : list (Act bool)) registers :
  Forall2 (fun m x => does m (fun r es a r' => r' = r /\ switched [x] es a)) acts registers ->
  does (all_of acts) (fun r es a r' => r' = r /\ switched registers es a).
Proof.
  induction 1 as [|m x acts registers Hm _ IH]; cbn [all_of].
  - apply does_ret. intros r. split; [done|]. split; [constructor|]. intros _. constructor.
  - eapply does_and; [exact Hm|exact IH| |].
    + intros r es1 r1 es2 b r2 [-> [Hs1 Hb1]] [-> [Hs2 Hb2]]. split; [done|].
      split; [by apply Forall_app|]. intros Hb. specialize (Hb1 eq_refl). specialize (Hb2 Hb).
      exact (Forall2_app Hb1 Hb2).
    + intros r es r1 [-> [Hs _]]. by split.
Qed.

(** The switch goes on by three writes, or not at all. *)
Lemma set_antenna_switch_true_does :
  does (set_antenna_switch true) (fun r es a r' => Forall switch_effect es /\
    if (a : bool) then antenna_on es = true /\ r' = set_antenna true r else r' = r).
Proof.
  unfold set_antenna_switch. apply does_this. intros r0.
  destruct (i2c_descriptor r0 <? 0); [by apply does_ret|].
  apply does_silent; [by apply silent_this; intros; apply silent_call|]. intros [id|]; [|by apply does_ret].
  destruct (id =? 0); [by apply does_ret|].
  eapply does_bind with
    (Q := fun (updated : bool) r es a r' => es = [] /\ a = updated /\
       r' = if updated then set_antenna true r else r).
  - apply switched_all with (registers :=
      [(kPi4ioDirection, true); (kPi4ioHighImpedance, false); (kPi4ioOutput, true)]).
    repeat constructor; by apply update_bit_does.
  - intros []; cbn [negb]; [|by apply does_ret].
    apply does_modify, does_ret. by intros r r0' ->.
  - intros r es1 ok r1 es2 b r2 [-> [Hs Hok]] (-> & -> & ->) _. rewrite app_nil_r.
    split; [done|]. destruct ok; [|done]. split; [|done]. specialize (Hok eq_refl).
    inversion Hok as [|? e1 ? ? (v1 & -> & H1b) Hok1]; subst.
    inversion Hok1 as [|? e2 ? ? (v2 & -> & H2b) Hok2]; subst.
    inversion Hok2 as [|? e3 ? ? (v3 & -> & H3b) Hok3]; subst.
    inversion Hok3; subst.
    unfold antenna_on, register_bit, switch_register. cbn in *. by rewrite H1b, H2b, H3b.
Qed.

Lemma set_antenna_switch_false_does :
  does (set_antenna_switch false) (fun r es _ r' => Forall switch_effect es /\
    (r' = r \/ r' = set_antenna false r)).
Proof.
  unfold set_antenna_switch. apply does_this. intros r0.
  destruct (i2c_descriptor r0 <? 0); [apply does_ret; auto|].
  eapply does_bind with (Q := fun _ r es _ r' => es = [] /\ r' = set_antenna false r).
  - apply update_i2c_register_does.
  - intros ok. apply does_modify, does_ret. by intros r r' ->.
  - intros r es1 ok r1 es2 b r2 [-> Hs] [-> ->] _. rewrite app_nil_r. split; [|by right].
    by destruct Hs as [[-> _]|[v ->]]; repeat constructor.
Qed.
End Antenna.

(** ** The calls of the driver *)

Section Calls.
Context {W : Type} `{ILinuxDevicesLaws W}.

(** An action that does not transmit, and keeps the configuration. *)
Definition calm {A} (m : Act A) : Prop :=
  does m (fun r es _ r' => Forall harmless es /\ impl_config r' = impl_config r).

Lemma calm_ret {A} (a : A) : calm (mret a).
Proof. by apply does_ret. Qed.

Lemma calm_silent {A} (m : Act A) : silent m -> calm m.
Proof. intros Hm. eapply does_weaken; [exact Hm|]. by intros r es a r' [-> ->]. Qed.

Lemma calm_bind {A B} (m : Act A) (k : A -> Act B) :
  calm m -> (forall a, calm (k a)) -> calm (m ≫= k).
Proof.
  intros Hm Hk. eapply does_bind with
    (Q := fun _ r es _ r' => Forall harmless es /\ impl_config r' = impl_config r);
    [exact Hm|exact Hk|].
  intros r es1 a r1 es2 b r2 [Hh1 Hc1] [Hh2 Hc2]. split; [by apply Forall_app|congruence].
Qed.

(** A calm action, then one that ends as [P] says. *)
Lemma does_calm {A B} (m : Act A) (k : A -> Act B) (P : B -> RadioImpl -> Prop) :
  calm m ->
  (forall a, does (k a) (fun r es b r' =>
     Forall harmless es /\ impl_config r' = impl_config r /\ P b r')) ->
  does (m ≫= k) (fun r es b r' => Forall harmless es /\ impl_config r' = impl_config r /\ P b r').
Proof.
  intros Hm Hk. eapply does_bind with (Q := fun _ r es b r' =>
    Forall harmless es /\ impl_config r' = impl_config r /\ P b r'); [exact Hm|exact Hk|].
  intros r es1 a r1 es2 b r2 [Hh1 Hc1] (Hh2 & Hc2 & HP).
  split; [by apply Forall_app|]. split; [congruence|done].
Qed.

Lemma calm_modify f : (forall r, impl_config (f r) = impl_config r) -> calm (modify f).
Proof. intros Hf r w a r' w' [= <- <- <-]. exists []. by rewrite app_nil_r. Qed.

Lemma sends_calm m ms u :
  sends m ms u -> (forall r, Forall (fun msg => head msg <> Some kSetTx) (ms r)) ->
  (forall r, impl_config (u r) = impl_config r) -> calm m.
Proof.
  intros Hm Hms Hu. eapply does_weaken; [exact Hm|]. cbn beta.
  intros r es a r' (sent & Hs & [rest Hp] & Ha). split.
  - eapply sent_as_harmless; [exact Hs|]. specialize (Hms r). rewrite Hp in Hms.
    by apply Forall_app in Hms as [? _].
  - destruct a; [destruct Ha as [_ ->]|rewrite Ha]; auto.
Qed.

Lemma write_command_calm fuel opcode data :
  opcode <> kSetTx -> calm (write_command fuel opcode data).
Proof.
  intros Hop. eapply sends_calm; [apply write_command_sends| |done].
  intros r. constructor; [|constructor]. cbn. congruence.
Qed.

Lemma set_antenna_switch_calm enabled : calm (set_antenna_switch enabled).
Proof.
  destruct enabled; (eapply does_weaken;
    [apply set_antenna_switch_true_does || apply set_antenna_switch_false_does|]); cbn beta.
  - intros r es a r' [Hs Ha]. split; [by apply switch_harmless|].
    by destruct a; [destruct Ha as [_ ->]|rewrite Ha].
  - intros r es a r' [Hs [->| ->]]; (split; [by apply switch_harmless|done]).
Qed.

Lemma shutdown_does fuel :
  does (shutdown fuel) (fun r es _ r' => Forall harmless es /\
    impl_config r' = impl_config r /\ impl_closed r' = true).
Proof.
  unfold shutdown. apply does_this. intros r0.
  destruct (impl_closed r0) eqn:Hc; [apply does_ret; by intros r ->|].
  eapply does_weaken; [|by intros r es a r' HP _; exact HP].
  apply (does_calm _ _ (fun _ r' => impl_closed r' = true)).
  { destruct (_ && _); [by apply write_command_calm|apply calm_ret]. }
  intros _. apply (does_calm _ _ (fun _ r' => impl_closed r' = true)).
  { destruct (antenna_switch_enabled r0); [apply set_antenna_switch_calm|apply calm_ret]. }
  intros _. apply does_modify, does_modify.
  do 5 (apply does_silent; [apply close_descriptor_silent|intros _]).
  apply does_modify. intros r w a r' w' [= <- <- <-]. exists []. rewrite app_nil_r.
  split; [done|]. by intros r1 -> r2 -> r3 ->.
Qed.

(** A driver that is ready was configured, for a valid configuration, after its
    antenna had been switched on. *)
Definition configured_by (c : LinuxCapLora1262Config) (es : list DeviceEffect) : Prop :=
  LinuxCapLora1262Config_valid c = true /\
  exists before configured, es = before ++ configured /\ antenna_on before = true /\
    Forall harmless before /\ sent_as configured (configure_messages c.(radio_profile)).

(** The end of the construction for the configuration [c]. *)
Definition constructed (c : LinuxCapLora1262Config) : Post unit := fun r es _ r' =>
  impl_config r = c -> Forall harmless es /\ impl_config r' = c /\
  (impl_ready r' = true -> configured_by c es).

Lemma shutdown_constructed fuel c : does (shutdown fuel) (constructed c).
Proof.
  eapply does_weaken; [apply shutdown_does|]. intros r es a r' (Hh & Hc & Hcl) <-.
  split; [done|]. split; [done|]. unfold impl_ready. by rewrite Hcl, andb_false_r.
Qed.

Lemma modify_constructed f (k : Act unit) c :
  (forall r, impl_config (f r) = impl_config r) -> does k (constructed c) ->
  does (modify f ≫= fun _ => k) (constructed c).
Proof.
  intros Hf Hk. apply does_modify. eapply does_weaken; [exact Hk|].
  intros r es a r' HP r1 -> <-. apply HP, Hf.
Qed.

Lemma configure_calm p : Forall (fun msg => head msg <> Some kSetTx) (configure_messages p).
Proof. unfold configure_messages, receive_messages. repeat constructor; discriminate. Qed.

(** The last step of the construction. *)
Definition powered_up (fuel : nat) (spi : Z) (c : LinuxCapLora1262Config) : Act bool :=
  all_of [call (Dev_spi_setting spi (Spi_Mode 0));
          call (Dev_spi_setting spi (Spi_BitsPerWord 8));
          call (Dev_spi_setting spi (Spi_MaxSpeedHz c.(spi_speed_hz)));
          set_antenna_switch true; reset_radio fuel; configure_radio fuel].

Lemma powered_up_does fuel spi c :
  does (powered_up fuel spi c) (fun r es a r' =>
    Forall harmless es /\ impl_config r' = impl_config r /\
    (a = true -> exists before configured, es = before ++ configured /\
       antenna_on before = true /\ Forall harmless before /\
       sent_as configured (configure_messages (profile_of r)))).
Proof.
  unfold powered_up. cbn [all_of].
  do 3 (apply silent_and; [by apply silent_call| |by intros r]).
  eapply does_and; [apply set_antenna_switch_true_does| | |].
  - apply silent_and with (P := fun r es a r' => exists sent, sent_as es sent /\
      sent `prefix_of` configure_messages (profile_of r) /\
      if (a : bool) then sent = configure_messages (profile_of r) /\ r' = set_direction true false r
      else r' = r).
    + apply reset_radio_silent.
    + apply does_and_true, configure_radio_sends.
    + intros r. exists []. split; [constructor|]. split; [apply prefix_nil|done].
  - cbn beta. intros r es1 r1 es2 b r2 [Hs [Hon ->]] (sent & Hsent & [rest Hp] & Hb).
    change (profile_of (set_antenna true r)) with (profile_of r) in *.
    pose proof (configure_calm (profile_of r)) as Hcalm. rewrite Hp in Hcalm.
    apply Forall_app in Hcalm as [Hcalm _].
    split; [apply Forall_app; split; [by apply switch_harmless|by eapply sent_as_harmless]|].
    split; [by destruct b; [destruct Hb as [_ ->]|rewrite Hb]|].
    intros ->. destruct Hb as [-> _]. exists es1, es2.
    split; [done|]. split; [done|]. split; [by apply switch_harmless|done].
  - cbn beta. intros r es r1 [Hs ->]. split; [by apply switch_harmless|done].
Qed.

Lemma initialize_does fuel : does (initialize fuel) (fun r es a r' =>
  constructed (impl_config r) r es a r').
Proof.
  unfold initialize. apply does_this. intros r0. set (c := impl_config r0).
  eapply does_weaken with (P := constructed c); [|by intros r es a r' HP ->].
  destruct (LinuxCapLora1262Config_valid c) eqn:Hvalid; [|apply shutdown_constructed].
  cbn [negb].
  apply does_silent; [by apply silent_call|]. intros spi.
  apply does_silent; [by apply silent_call|]. intros i2c. apply modify_constructed; [done|].
  apply does_silent; [by apply silent_call|]. intros chip.
  destruct (_ || _).
  { apply does_silent; [apply close_descriptor_silent|]. intros _. apply shutdown_constructed. }
  apply does_silent; [apply request_gpio_silent|]. intros reset.
  apply does_silent; [apply request_gpio_silent|]. intros irq.
  apply does_silent; [apply request_gpio_silent|]. intros busy. apply modify_constructed; [done|].
  apply does_silent; [apply close_descriptor_silent|]. intros _.
  destruct (_ || _); [apply shutdown_constructed|].
  eapply does_bind with (Q := fun ok r es a r' =>
    if (ok : bool) then es = [] /\ impl_config r' = impl_config r
    else Forall harmless es /\ impl_config r' = impl_config r /\ impl_closed r' = true).
  - apply (powered_up_does fuel spi c).
  - intros []; cbn [negb]; [|apply shutdown_does]. intros r w a r' w' [= <- <- <-].
    exists []. by rewrite app_nil_r.
  - cbn beta. intros r es1 ok r1 es2 a r2 (Hh1 & Hc1 & Hok) Hr Hc.
    unfold profile_of in Hok. rewrite Hc in *. destruct ok.
    + destruct Hr as [-> Hr]. rewrite app_nil_r. split; [done|]. split; [congruence|].
      intros _. split; [done|]. by apply Hok.
    + destruct Hr as (Hh2 & Hc2 & Hcl). split; [by apply Forall_app|]. split; [congruence|].
      unfold impl_ready. by rewrite Hcl, andb_false_r.
Qed.

(** ** Sending *)

Definition kBusyIrqs : Z := Z.lor kIrqPreambleDetected (Z.lor kIrqHeaderValid kIrqRxDone).

(** The two replies that let a transmission start. *)
Definition quiet_channel (c : LinuxCapLora1262Config) (es : list DeviceEffect) : Prop :=
  exists irq rssi, es = [Effect_spi irq_query (Some irq); Effect_spi rssi_query (Some rssi)] /\
    has_irq (irq_of irq) kBusyIrqs = false /\
    rssi_dbm (byte_at (take 1 (drop 2 rssi)) 0) < c.(listen_before_talk_threshold_dbm).

(** What a call to transmit did. *)
Definition transmit_effects (data : bytes) : Post RadioStartStatus := fun r es a r' =>
  (es = [] \/ (exists rx, es = [Effect_spi irq_query rx]) \/
   (exists rx1 rx2, es = [Effect_spi irq_query rx1; Effect_spi rssi_query rx2])) /\
  a <> RadioStart_Started /\ r' = r \/
  impl_ready r = true /\ transmitting r = false /\
  (0 < length data <= kMaximumDatagramBytes)%nat /\
  exists heard sending sent, es = heard ++ sending /\ quiet_channel (impl_config r) heard /\
    sent_as sending sent /\ sent `prefix_of` send_messages (profile_of r) data /\
    ((a = RadioStart_Failed /\ r' = r) \/
     (a = RadioStart_Started /\ sent = send_messages (profile_of r) data /\
      r' = set_direction false true r)).

Lemma send_actions_sends fuel data :
  (0 < length data <= kMaximumDatagramBytes)%nat ->
  sends (all_of (send_actions fuel data)) (fun r => send_messages (profile_of r) data) (fun r => r).
Proof.
  intros Hn. unfold send_actions. cbn [all_of]. eapply sends_weaken.
  - eapply sends_and; [apply write_command_sends|].
    eapply sends_and; [by apply set_packet_params_sends|].
    do 3 (eapply sends_and; [apply write_command_sends|]). apply sends_last, write_command_sends.
  - done.
Qed.

(** The end of a call that has found the channel quiet. *)
Definition sending_effects (data : bytes) : Post RadioStartStatus := fun r es a r' =>
  exists sent, sent_as es sent /\ sent `prefix_of` send_messages (profile_of r) data /\
    ((a = RadioStart_Failed /\ r' = r) \/
     (a = RadioStart_Started /\ sent = send_messages (profile_of r) data /\
      r' = set_direction false true r)).

Lemma sending_does fuel data :
  (0 < length data <= kMaximumDatagramBytes)%nat ->
  does (sent ← all_of (send_actions fuel data);
        if negb sent then mret RadioStart_Failed
        else (_ ← modify (set_direction false true); mret RadioStart_Started))
    (sending_effects data).
Proof.
  intros Hn. eapply does_bind with (Q := fun ok r es a r' => es = [] /\
    if (ok : bool) then a = RadioStart_Started /\ r' = set_direction false true r
    else a = RadioStart_Failed /\ r' = r).
  - by apply send_actions_sends.
  - intros []; cbn [negb]; [|by apply does_ret]. apply does_modify, does_ret. by intros r r0 ->.
  - intros r es1 ok r1 es2 a r2 (sent & Hs & Hp & Hok) [-> Ha]. rewrite app_nil_r.
    exists sent. split; [done|]. split; [done|]. destruct ok.
    + destruct Hok as [-> ->]. right. by destruct Ha as [-> ->].
    + rewrite Hok in Ha. by left.
Qed.

(** From the level of the channel on. *)
Definition listening_effects (data : bytes) : Post RadioStartStatus := fun r es a r' =>
  (es = [] \/ exists rx, es = [Effect_spi rssi_query rx]) /\ a <> RadioStart_Started /\ r' = r \/
  exists rssi sending, es = Effect_spi rssi_query (Some rssi) :: sending /\
    rssi_dbm (byte_at (take 1 (drop 2 rssi)) 0) <
      r.(impl_config).(listen_before_talk_threshold_dbm) /\
    sending_effects data r sending a r'.

Lemma listening_does fuel data r0 :
  (0 < length data <= kMaximumDatagramBytes)%nat ->
  does (raw_rssi ← read_command fuel kGetRssiInst [] 1;
        match raw_rssi with
        | None => mret RadioStart_Failed
        | Some raw_rssi =>
            if r0.(impl_config).(listen_before_talk_threshold_dbm) <=?
               rssi_dbm (byte_at raw_rssi 0)
            then mret RadioStart_Busy
            else
              sent ← all_of (send_actions fuel data);
              if negb sent then mret RadioStart_Failed
              else (_ ← modify (set_direction false true); mret RadioStart_Started)
        end) (fun r es a r' => r = r0 -> listening_effects data r es a r').
Proof.
  intros Hn. eapply does_bind with (Q := fun rssi r es a r' =>
    es = [] /\ a <> RadioStart_Started /\ r' = r \/
    exists d, rssi = Some d /\
      rssi_dbm (byte_at d 0) < r0.(impl_config).(listen_before_talk_threshold_dbm) /\
      sending_effects data r es a r').
  - apply read_command_asks.
  - intros [d|]; [|apply does_ret; by left].
    destruct (Z.leb_spec (listen_before_talk_threshold_dbm (impl_config r0))
      (rssi_dbm (byte_at d 0))); [apply does_ret; by left|].
    eapply does_weaken; [by apply sending_does|]. intros r es a r' Hs. right. eauto.
  - cbn beta. intros r es1 d r1 es2 a r2 [-> Hs] Hr ->.
    destruct Hr as [(-> & Ha & ->)|(d' & -> & Hlt & Hsend)].
    + left. rewrite app_nil_r. split; [|done].
      destruct Hs as [[-> _]|(rx & -> & _)]; eauto.
    + right. destruct Hs as [[_ ?]|(rx & -> & Hrx)]; [done|].
      destruct (Hrx d' eq_refl) as (rssi & -> & _ & ->). exists rssi, es2. done.
Qed.

Lemma transmit_does fuel data : does (impl_try_start_transmit fuel data) (transmit_effects data).
Proof.
  unfold impl_try_start_transmit. apply does_this. intros r0.
  destruct (negb _ || _ || _) eqn:Hguard.
  { apply does_ret. intros r ->. left. split; [by left|done]. }
  destruct (transmitting r0) eqn:Htx.
  { apply does_ret. intros r ->. left. split; [by left|done]. }
  assert (impl_ready r0 = true /\ (0 < length data <= kMaximumDatagramBytes)%nat) as [Hready Hn].
  { apply orb_false_iff in Hguard as [[Hr H1n]%orb_false_iff H2n].
    apply negb_false_iff in Hr. apply Nat.eqb_neq in H1n. apply Nat.ltb_ge in H2n. split; [done|lia]. }
  apply does_silent; [apply gpio_get_silent|].
  intros [high|]; [|apply does_ret; intros r ->; left; split; [by left|done]].
  eapply does_bind with (Q := fun irq r es a r' => r = r0 ->
    es = [] /\ a <> RadioStart_Started /\ r' = r \/
    exists i, irq = Some i /\ has_irq i kBusyIrqs = false /\ listening_effects data r es a r').
  - apply read_irq_does.
  - intros [i|]; [|apply does_ret; by left].
    destruct high; [apply does_ret; by left|]. cbn [orb]. fold kBusyIrqs.
    destruct (has_irq i kBusyIrqs) eqn:Hirq; [apply does_ret; by left|].
    eapply does_weaken; [by apply listening_does|]. intros r es a r' Hl Hr. right. eauto.
  - cbn beta. intros r es1 irq r1 es2 a r2 [-> Hs] Hr ->.
    destruct (Hr eq_refl) as [(-> & Ha & ->)|(i & -> & Hirq & Hl)].
    + left. rewrite app_nil_r. split; [|done]. destruct Hs as [[-> _]|(rx & -> & _)]; eauto.
    + destruct Hs as [[_ ?]|(rx & -> & Hrx)]; [done|].
      destruct (Hrx i eq_refl) as (reply & -> & ->).
      destruct Hl as [([->|[rx2 ->]] & Ha & ->)|(rssi & sending & -> & Hlt & sent & Hsend)].
      * left. split; [|done]. right; left. by eexists.
      * left. split; [|done]. right; right. by do 2 eexists.
      * right. split; [done|]. split; [done|]. split; [done|].
        exists [Effect_spi irq_query (Some reply); Effect_spi rssi_query (Some rssi)], sending, sent.
        split; [done|]. split; [|done]. by exists reply, rssi.
Qed.

(** ** Polling *)

Definition poll_opcodes : list byte :=
  [kGetIrqStatus; kGetRxBufferStatus; kReadBuffer; kClearIrqStatus; kSetPacketParams;
   kSetDioIrqParams; kSetRx].

Definition opcode_in (opcodes : list byte) (e : DeviceEffect) : Prop :=
  exists opcode arguments receive,
    e = Effect_spi (opcode :: arguments) receive /\ opcode ∈ opcodes.

(** The flags [irq] were cleared and the radio listens again. *)
Definition restarted (irq : Z) (r : RadioImpl) (es : list DeviceEffect) (r' : RadioImpl) : Prop :=
  sent_as es (clear_message irq :: receive_messages (profile_of r)) /\
  r' = set_direction true false r.

Definition resume_effects (irq : Z) (result : RadioPollResult) (buffer : bytes)
  : Post (RadioPollResult * bytes) := fun r es a r' =>
  a.2 = buffer /\ Forall (opcode_in poll_opcodes) es /\
  (a.1 = result /\ restarted irq r es r' \/ a.1 = poll_failed /\ r' = r).

Lemma sent_as_opcodes opcodes es messages :
  sent_as es messages ->
  Forall (fun m => exists opcode arguments, m = opcode :: arguments /\ opcode ∈ opcodes) messages ->
  Forall (opcode_in opcodes) es.
Proof.
  induction 1 as [|e m es messages [rx ->] _ IH]; intros Hm; [constructor|].
  apply Forall_cons in Hm as [(opcode & args & -> & Hin) Hm]. constructor; [|by apply IH].
  by exists opcode, args, rx.
Qed.

Ltac opcode_known := eexists _, _; split; [reflexivity|]; listed.

Lemma resume_does fuel irq result buffer :
  does (resume fuel irq result buffer) (resume_effects irq result buffer).
Proof.
  unfold resume. eapply does_bind with (Q := fun (ok : bool) r es a r' => es = [] /\ r' = r /\
    a = (if ok then result else poll_failed, buffer)).
  - exact (sends_and _ _ _ _ _ (write_command_sends fuel kClearIrqStatus (mask_bytes irq))
             (start_receive_sends fuel)).
  - intros ok. by apply does_ret.
  - cbn beta. intros r es1 ok r1 es2 a r2 (sent & Hs & [rest Hp] & Hok) (-> & -> & ->).
    rewrite app_nil_r. split; [done|]. split.
    + eapply sent_as_opcodes; [exact Hs|].
      assert (Forall (fun m => exists opcode arguments,
        m = opcode :: arguments /\ opcode ∈ poll_opcodes)
        (([kClearIrqStatus :: mask_bytes irq]) ++ receive_messages (profile_of r))) as Hall.
      { unfold receive_messages, packet_message, clear_message, irq_mask_message, poll_opcodes.
        repeat (constructor; [opcode_known|]). constructor. }
      rewrite Hp in Hall. by apply Forall_app in Hall as [? _].
    + destruct ok; [|by right]. left. by destruct Hok as [-> ->].
Qed.

(** What the two bytes [st] of the buffer status say of a packet of [n] bytes, and
    what was read of it. *)
Definition packet_taken (st : bytes) (destination : bytes) (n : nat)
    (reads : list DeviceEffect) (buffer : bytes) : Prop :=
  n = Z.to_nat (bval (byte_at st 0)) /\
  ((n = 0%nat \/ (length destination < n)%nat) /\ reads = [] /\ buffer = destination \/
   (0 < n <= length destination)%nat /\ exists data,
     reads = [Effect_spi (query_message kReadBuffer [byte_at st 1] n) (Some data)] /\
     buffer = take n (drop 3 data) ++ drop n destination /\ length (take n (drop 3 data)) = n).

(** The rest of a poll, for each answer, from the flags [irq] on. *)
Definition irq_effects (irq : Z) (destination : bytes) : Post (RadioPollResult * bytes) :=
  fun r es a r' =>
  length a.2 = length destination /\ Forall (opcode_in poll_opcodes) es /\
  match a.1.(poll_status) with
  | RadioPoll_Failed => r' = r
  | RadioPoll_Idle => a.2 = destination /\ (es = [] /\ r' = r \/ restarted irq r es r')
  | RadioPoll_TransmitComplete => a.2 = destination /\ has_irq irq kIrqTxDone = true /\
      restarted irq r es r'
  | RadioPoll_Received => exists status reads more,
      es = Effect_spi status_query (Some status) :: reads ++ more /\
      has_irq irq kIrqRxDone = true /\
      has_irq irq (Z.lor kIrqHeaderError kIrqCrcError) = false /\
      packet_taken (take 2 (drop 2 status)) destination a.1.(poll_size) reads a.2 /\
      restarted irq r more r'
  end.

(** A poll: nothing to do, or the flags and the rest. *)
Definition poll_effects (destination : bytes) : Post (RadioPollResult * bytes) :=
  fun r es a r' =>
  length a.2 = length destination /\ Forall (opcode_in poll_opcodes) es /\
  (r' = r /\ (a.1.(poll_status) = RadioPoll_Failed \/
              a = (poll_idle, destination) /\ es = []) \/
   exists rx rest, es = Effect_spi irq_query (Some rx) :: rest /\
     irq_effects (irq_of rx) destination r rest a r').

Lemma query_known opcode arguments n rx :
  opcode ∈ poll_opcodes ->
  Forall (opcode_in poll_opcodes) [Effect_spi (query_message opcode arguments n) rx].
Proof. intros Hin. constructor; [|constructor]. by eexists _, _, _. Qed.

(** A packet, from the status bytes on. *)
Definition taken_effects (irq : Z) (st destination : bytes)
  : Post (RadioPollResult * bytes) := fun r es a r' =>
  length a.2 = length destination /\ Forall (opcode_in poll_opcodes) es /\
  match a.1.(poll_status) with
  | RadioPoll_Failed => r' = r
  | RadioPoll_Received => exists reads more, es = reads ++ more /\
      packet_taken st destination a.1.(poll_size) reads a.2 /\ restarted irq r more r'
  | _ => False
  end.

Lemma packet_does fuel irq st destination :
  does (let payload_size := Z.to_nat (bval (byte_at st 0)) in
        let received := mkRadioPollResult RadioPoll_Received payload_size in
        if (payload_size =? 0)%nat || (length destination <? payload_size)%nat
        then resume fuel irq received destination
        else
          data ← read_command fuel kReadBuffer [byte_at st 1] payload_size;
          match data with
          | None => mret (poll_failed, destination)
          | Some data => resume fuel irq received (data ++ drop payload_size destination)
          end) (taken_effects irq st destination).
Proof.
  cbn zeta. set (n := Z.to_nat (bval (byte_at st 0))).
  destruct (_ || _) eqn:Hsize.
  - eapply does_weaken; [apply resume_does|]. intros r es [a buffer] r' (Hb & Hop & Ha).
    cbn [fst snd] in *. subst buffer. split; [done|]. split; [done|].
    destruct Ha as [[-> Hr]|[-> ->]]; [|done]. exists [], es. split; [done|]. split; [|done].
    split; [done|]. left. split; [|done].
    apply orb_true_iff in Hsize as [?%Nat.eqb_eq|?%Nat.ltb_lt]; auto.
  - apply orb_false_iff in Hsize as [H1n%Nat.eqb_neq H2n%Nat.ltb_ge].
    set (message := query_message kReadBuffer [byte_at st 1] n).
    eapply does_bind with (Q := fun data r es a r' =>
      match data with
      | None => es = [] /\ r' = r /\ a = (poll_failed, destination)
      | Some data => resume_effects irq (mkRadioPollResult RadioPoll_Received n)
          (data ++ drop n destination) r es a r'
      end).
    + apply read_command_asks.
    + intros [data|]; [apply resume_does|by apply does_ret].
    + cbn beta. intros r es1 data r1 es2 [a buffer] r2 [-> Hs] Hr.
      assert (Forall (opcode_in poll_opcodes) es1) as Hop1.
      { destruct Hs as [[-> _]|(rx & -> & _)]; [constructor|]. apply query_known.
        listed. }
      destruct data as [data|]; [|destruct Hr as (-> & -> & [= -> ->]); by rewrite app_nil_r].
      destruct Hs as [[_ ?]|(rx & -> & Hrx)]; [done|].
      destruct (Hrx data eq_refl) as (reply & -> & Hlen & Hdata).
      cbn [length Nat.add] in Hdata. unfold query_message in Hlen.
      cbn [length app] in Hlen. rewrite length_replicate in Hlen.
      destruct Hr as (Hb & Hop & Ha). cbn [fst snd] in *.
      assert (length (take n (drop 3 reply)) = n) as Htake
        by (rewrite length_take, length_drop; lia).
      split; [cbn [snd]; rewrite Hb, Hdata, length_app, Htake, length_drop; lia|].
      split; [by apply Forall_app|]. cbn [fst snd].
      destruct Ha as [[-> Hr]|[-> ->]]; [|done]. exists [Effect_spi message (Some reply)], es2.
      split; [done|]. split; [|done]. split; [done|]. right. split; [cbn [poll_size]; lia|].
      exists reply. split; [done|]. cbn [poll_size]. by rewrite Hb, Hdata.
Qed.

Lemma take_packet_does fuel irq destination :
  has_irq irq kIrqRxDone = true -> has_irq irq (Z.lor kIrqHeaderError kIrqCrcError) = false ->
  does (take_packet fuel irq destination) (irq_effects irq destination).
Proof.
  intros Hrxdone Herr. unfold take_packet. eapply does_bind with (Q := fun st r es a r' =>
    match st with
    | None => es = [] /\ r' = r /\ a = (poll_failed, destination)
    | Some st => taken_effects irq st destination r es a r'
    end).
  - apply read_command_asks.
  - intros [st|]; [apply packet_does|by apply does_ret].
  - cbn beta. intros r es1 st r1 es2 [a buffer] r2 [-> Hs] Hr.
    assert (Forall (opcode_in poll_opcodes) es1) as Hop1.
    { destruct Hs as [[-> _]|(rx & -> & _)]; [constructor|]. apply query_known.
      listed. }
    destruct st as [st|]; [|destruct Hr as (-> & -> & [= -> ->]); by rewrite app_nil_r].
    destruct Hs as [[_ ?]|(rx & -> & Hrx)]; [done|].
    destruct (Hrx st eq_refl) as (reply & -> & _ & Hst). cbn [length Nat.add] in Hst.
    destruct Hr as (Hb & Hop & Ha). split; [done|]. split; [by apply Forall_app|].
    cbn [fst snd] in *. destruct (poll_status a); try done.
    destruct Ha as (reads & more & -> & Ht & Hr). exists reply, reads, more. by subst st.
Qed.

Lemma resumed fuel irq result destination :
  (poll_status result = RadioPoll_Idle \/
   poll_status result = RadioPoll_TransmitComplete /\ has_irq irq kIrqTxDone = true) ->
  does (resume fuel irq result destination) (irq_effects irq destination).
Proof.
  intros Hres. eapply does_weaken; [apply resume_does|].
  intros r es [a b] r' (Hb & Hop & Ha). cbn [fst snd] in *. subst b.
  split; [done|]. split; [done|]. cbn [fst snd].
  destruct Ha as [[-> Hr]|[-> ->]]; [|done].
  destruct Hres as [->|[-> Htx]]; auto.
Qed.

Lemma poll_does fuel destination : does (impl_poll fuel destination) (poll_effects destination).
Proof.
  unfold impl_poll. apply does_this. intros r0.
  eapply does_weaken with (P := poll_effects destination); [|by intros].
  assert (does (mret (poll_failed, destination)) (poll_effects destination)) as Hfailed.
  { apply does_ret. intros r. split; [done|]. split; [constructor|]. left. auto. }
  destruct (_ || _); [done|].
  apply does_silent; [apply gpio_get_silent|].
  intros [[]|]; [| |done].
  2:{ apply does_ret. intros r. split; [done|]. split; [constructor|]. left. auto. }
  eapply does_bind with (Q := fun irq r es a r' =>
    match irq with
    | None => es = [] /\ r' = r /\ a = (poll_failed, destination)
    | Some irq => irq_effects irq destination r es a r'
    end).
  - apply read_irq_does.
  - intros [i|]; [|by apply does_ret].
    destruct (has_irq i kIrqTimeout && transmitting r0); [by apply does_ret|].
    destruct (has_irq i kIrqTimeout); [apply resumed; by left|].
    destruct (has_irq i kIrqTxDone) eqn:Htx; [apply resumed; by right|].
    destruct (has_irq i (Z.lor kIrqHeaderError kIrqCrcError)) eqn:Herr;
      [apply resumed; by left|].
    destruct (has_irq i kIrqRxDone) eqn:Hrx; [by apply take_packet_does|].
    apply does_ret. intros r. split; [done|]. split; [constructor|]. cbn. auto.
  - cbn beta. intros r es1 irq r1 es2 [a buffer] r2 [-> Hs] Hr.
    destruct irq as [irq|].
    + destruct Hs as [[_ ?]|(rx & -> & Hrx)]; [done|].
      destruct (Hrx irq eq_refl) as (reply & -> & ->). destruct Hr as (Hb & Hop & Ha).
      split; [done|]. split.
      { apply Forall_app. split; [|done]. apply query_known. listed. }
      right. exists reply, es2. by split.
    + destruct Hr as (-> & -> & [= -> ->]). rewrite app_nil_r. split; [done|]. split; [|auto].
      destruct Hs as [[-> _]|(rx & -> & _)]; [constructor|]. apply query_known.
      listed.
Qed.
End Calls.

(** ** Uses of a radio *)

Inductive RadioOp :=
| Radio_transmit (data : bytes)
| Radio_poll (destination : bytes)
| Radio_shutdown.

Section Uses.
Context {W : Type} `{ILinuxDevicesLaws W}.

Definition radio_step (fuel : nat) (op : RadioOp) : Act unit :=
  match op with
  | Radio_transmit data => _ ← impl_try_start_transmit fuel data; mret tt
  | Radio_poll destination => _ ← impl_poll fuel destination; mret tt
  | Radio_shutdown => shutdown fuel
  end.

Fixpoint radio_steps (fuel : nat) (ops : list RadioOp) : Act unit :=
  match ops with
  | [] => mret tt
  | op :: ops => _ ← radio_step fuel op; radio_steps fuel ops
  end.

(** A radio constructed for [c], and any use of it. *)
Definition radio_use (fuel : nat) (c : LinuxCapLora1262Config) (ops : list RadioOp) (w : W)
  : option (RadioImpl * W) :=
  snd <$> (_ ← initialize fuel; radio_steps fuel ops) (new_impl c, w).

Definition runtime_opcodes : list byte :=
  [kSetStandby; kWriteBuffer; kSetTx; kGetRssiInst] ++ poll_opcodes.

(** The radio is set to a frequency whose channel lies within the band of the
    certification, to the hertz. *)
Definition tuned (p : Japan920Profile) : Prop :=
  exists b3 b2 b1 b0, (kSetRfFrequency, [b3; b2; b1; b0]) ∈ profile_commands p /\
    let word := bval b3 * 2 ^ 24 + bval b2 * 2 ^ 16 + bval b1 * 2 ^ 8 + bval b0 in
    let hz := word * 32000000 / 2 ^ 25 in
    920500000 <= hz + 1 - 62500 /\ hz + 62500 <= 923000000.

(** The antenna was confirmed and the profile is one of those permitted. *)
Definition permitted (c : LinuxCapLora1262Config) : Prop :=
  c.(antenna_confirmed) = true /\ Japan920Profile_valid c.(radio_profile) = true /\
  tuned c.(radio_profile) /\ LinuxCapLora1262Config_valid c = true.

Lemma valid_frequency p :
  Japan920Profile_valid p = true -> 920562500 <= p.(frequency_hz) <= 922937500.
Proof.
  unfold Japan920Profile_valid.
  destruct (_ || negb (sync_word p =? 18)) eqn:E; [done|].
  repeat (apply orb_false_iff in E as [E _]).
  apply negb_false_iff, Z.eqb_eq in E. rewrite E.
  intros [Hl Hu]%andb_true_iff. apply Z.leb_le in Hl. apply Z.leb_le in Hu.
  vm_compute (u32 _) in Hl. vm_compute (u32 _) in Hu. lia.
Qed.

Lemma frequency_word_spec p :
  920562500 <= p.(frequency_hz) <= 922937500 ->
  frequency_word p = p.(frequency_hz) * 2 ^ 25 / 32000000.
Proof.
  intros Hf. unfold frequency_word. rewrite Z.shiftl_mul_pow2 by lia.
  unfold u64. rewrite Z.mod_small by lia. rewrite Z.quot_div_nonneg by lia. done.
Qed.

Lemma valid_tuned p : Japan920Profile_valid p = true -> tuned p.
Proof.
  intros Hv%valid_frequency. unfold tuned, profile_commands.
  do 4 eexists. split; [by left|]. rewrite (frequency_word_spec p Hv).
  change (2 ^ 25) with 33554432. change (2 ^ 24) with 16777216. change (2 ^ 16) with 65536.
  change (2 ^ 8) with 256.
  set (word := p.(frequency_hz) * 33554432 / 32000000).
  assert (0 <= word < 4294967296) as Hw
    by (unfold word; zdiv_lia).
  rewrite !bval_to_u8, !Z.shiftr_div_pow2 by lia.
  change (2 ^ 24) with 16777216. change (2 ^ 16) with 65536. change (2 ^ 8) with 256.
  assert (forall x, x = word ->
    920500000 <= x * 32000000 / 33554432 + 1 - 62500 /\
    x * 32000000 / 33554432 + 62500 <= 923000000) as Hband
    by (intros x ->; unfold word; zdiv_lia).
  apply Hband. clearbody word. zdiv_lia.
Qed.

Lemma valid_permitted c : LinuxCapLora1262Config_valid c = true -> permitted c.
Proof.
  intros Hv. pose proof Hv as [[_ Ha]%andb_true_iff Hp]%andb_true_iff.
  split; [done|]. split; [done|]. split; [by apply valid_tuned|done].
Qed.

(** What has to have happened when the radio is told to transmit: the
    configuration is valid - so the antenna was confirmed and the profile is a
    permitted one -, the antenna was switched on, then the radio was set to the
    profile and not since; one of the datagrams asked for was handed over, after
    the channel had been found quiet, and nothing was sent in between. *)
Definition transmit_allowed (c : LinuxCapLora1262Config) (ops : list RadioOp)
    (es : list DeviceEffect) : Prop :=
  exists before configured runtime heard sending data,
    es = before ++ configured ++ runtime ++ heard ++ sending /\
    permitted c /\ antenna_on before = true /\
    sent_as configured (configure_messages c.(radio_profile)) /\
    Forall (opcode_in runtime_opcodes) runtime /\ quiet_channel c heard /\
    Radio_transmit data ∈ ops /\ (0 < length data <= kMaximumDatagramBytes)%nat /\
    sent_as sending (take 5 (send_messages c.(radio_profile) data)).

Definition guarded (c : LinuxCapLora1262Config) (ops : list RadioOp) (es : list DeviceEffect)
  : Prop :=
  forall before arguments receive after,
    es = before ++ Effect_spi (kSetTx :: arguments) receive :: after ->
    transmit_allowed c ops before.

(** The driver between two calls, with all the effects since its construction. *)
Record radio_inv (c : LinuxCapLora1262Config) (ops : list RadioOp) (r : RadioImpl)
    (es : list DeviceEffect) : Prop := {
  inv_config : impl_config r = c;
  inv_guarded : guarded c ops es;
  inv_ready : impl_ready r = true -> exists before configured runtime,
    es = before ++ configured ++ runtime /\ permitted c /\
    antenna_on before = true /\ sent_as configured (configure_messages c.(radio_profile)) /\
    Forall (opcode_in runtime_opcodes) runtime
}.

Lemma guarded_app c ops es1 es2 :
  guarded c ops es1 ->
  (forall before arguments receive after,
     es2 = before ++ Effect_spi (kSetTx :: arguments) receive :: after ->
     transmit_allowed c ops (es1 ++ before)) ->
  guarded c ops (es1 ++ es2).
Proof.
  intros H1g H2g before arguments receive after Heq.
  apply app_eq_inv in Heq as [(k & -> & Hk)|(k & -> & ->)]; [|by eapply H2g].
  destruct k as [|e k].
  - cbn in Hk. specialize (H2g [] arguments receive after (eq_sym Hk)). by rewrite !app_nil_r in H2g.
  - cbn in Hk. injection Hk as <- ->. by eapply H1g.
Qed.

Lemma guarded_harmless c ops es1 es2 :
  guarded c ops es1 -> Forall harmless es2 -> guarded c ops (es1 ++ es2).
Proof.
  intros Hg Hh. apply guarded_app; [done|]. intros before arguments receive after ->.
  apply Forall_app in Hh as [_ [Hh _]%Forall_cons]. done.
Qed.

Lemma poll_harmless es : Forall (opcode_in poll_opcodes) es -> Forall harmless es.
Proof.
  intros Hp. eapply Forall_impl; [exact Hp|]. intros e (opcode & args & rx & -> & Hin). cbn.
  intros ->. revert Hin. unfold poll_opcodes. rewrite !elem_of_cons, elem_of_nil.
  intros Hin. repeat destruct Hin as [Hin|Hin]; discriminate Hin || done.
Qed.

Lemma poll_runtime es :
  Forall (opcode_in poll_opcodes) es -> Forall (opcode_in runtime_opcodes) es.
Proof.
  intros Hp. eapply Forall_impl; [exact Hp|]. intros e (opcode & args & rx & -> & Hin).
  exists opcode, args, rx. split; [done|]. unfold runtime_opcodes. apply elem_of_app. by right.
Qed.

Lemma inv_calm c ops r es es' r' :
  radio_inv c ops r es -> Forall harmless es' -> impl_config r' = impl_config r ->
  (impl_ready r' = true -> impl_ready r = true /\ Forall (opcode_in runtime_opcodes) es') ->
  radio_inv c ops r' (es ++ es').
Proof.
  intros [Hc Hg Hready] Hh Hc' Hr. split; [congruence|by apply guarded_harmless|].
  intros [Hrdy Hrun]%Hr. destruct (Hready Hrdy) as (b & cf & rt & -> & Hv & Ha & Hs & Hf).
  exists b, cf, (rt ++ es'). rewrite <- !app_assoc. split; [done|].
  split; [done|]. split; [done|]. split; [done|]. by apply Forall_app.
Qed.

Lemma send_runtime p data : Forall (fun m => exists opcode arguments,
  m = opcode :: arguments /\ opcode ∈ runtime_opcodes) (send_messages p data).
Proof.
  unfold send_messages, packet_message, clear_message, irq_mask_message, runtime_opcodes.
  repeat (constructor; [eexists _, _; split; [reflexivity|]; listed|]). constructor.
Qed.

Lemma query_harmless query rx :
  head query <> Some kSetTx -> harmless (Effect_spi query rx).
Proof. destruct query as [|opcode query]; [done|]. cbn. intros Hq ->. by apply Hq. Qed.

(** The command to transmit is the last of the messages. *)
Lemma transmit_last p data sent s1 arguments s2 :
  sent `prefix_of` send_messages p data -> sent = s1 ++ (kSetTx :: arguments) :: s2 ->
  s1 = take 5 (send_messages p data).
Proof.
  intros [rest Hp] ->. unfold send_messages in *. rewrite <- app_assoc in Hp. cbn [app] in Hp.
  do 5 (destruct s1 as [|? s1]; [discriminate Hp|cbn [app] in Hp; injection Hp as <- Hp]).
  destruct s1 as [|? s1]; [done|]. cbn [app] in Hp. injection Hp as _ Hp. by destruct s1.
Qed.

Lemma inv_transmit c ops data r es es' a r' :
  radio_inv c ops r es -> Radio_transmit data ∈ ops -> transmit_effects data r es' a r' ->
  radio_inv c ops r' (es ++ es').
Proof.
  intros Hinv Hin [(Hes & Ha & ->)|Hsend].
  { assert (Forall harmless es' /\ Forall (opcode_in runtime_opcodes) es') as [Hh Hrun].
    { assert (forall rx, opcode_in runtime_opcodes (Effect_spi irq_query rx)) as H1q.
      { intros rx. do 3 eexists. split; [reflexivity|]. listed. }
      assert (forall rx, opcode_in runtime_opcodes (Effect_spi rssi_query rx)) as H2q.
      { intros rx. do 3 eexists. split; [reflexivity|]. listed. }
      destruct Hes as [->|[[rx ->]|(rx1 & rx2 & ->)]];
        (split; repeat (constructor; try done; try by apply query_harmless)). }
    by apply (inv_calm c ops r es). }
  destruct Hsend as (Hready & Htx & Hlen & heard & sending & sent & -> & Hq & Hs & Hp & Hend).
  destruct Hinv as [Hc Hg Hr]. unfold profile_of in *. rewrite Hc in *.
  destruct (Hr Hready) as (b & cf & rt & -> & Hv & Hant & Hcf & Hrt).
  assert (Forall harmless heard /\ Forall (opcode_in runtime_opcodes) heard) as [Hheard Hheard'].
  { destruct Hq as (irq & rssi & -> & _). split.
    - repeat (constructor; [by apply query_harmless|]). constructor.
    - repeat (constructor; [do 3 eexists; split; [reflexivity|];
        listed|]). constructor. }
  assert (Forall (opcode_in runtime_opcodes) sending) as Hsending.
  { eapply sent_as_opcodes; [exact Hs|]. destruct Hp as [rest Hp].
    pose proof (send_runtime (radio_profile c) data) as Hall. rewrite Hp in Hall.
    by apply Forall_app in Hall as [? _]. }
  split.
  - destruct Hend as [[_ ->]|(_ & _ & ->)]; done.
  - apply guarded_app; [done|]. intros before arguments receive after Heq.
    assert (exists k, before = heard ++ k /\
      sending = k ++ Effect_spi (kSetTx :: arguments) receive :: after) as (k & -> & Hk).
    { apply app_eq_inv in Heq as [(k & Hb & Hk)|(k & -> & ->)]; [|eauto].
      destruct k as [|e k].
      - exists []. rewrite app_nil_r in *. by subst.
      - cbn in Hk. injection Hk as <- ->. rewrite Hb in Hheard.
        by apply Forall_app in Hheard as [_ [Hbad _]%Forall_cons]. }
    subst sending. apply Forall2_app_inv_l in Hs as (s1 & s2 & H1s & H2s & ->).
    apply Forall2_cons_inv_l in H2s as (m & s3 & (rx & [= <- <-]) & H3s & ->).
    exists b, cf, rt, heard, k, data. rewrite <- !app_assoc.
    split; [done|]. split; [done|]. split; [done|]. split; [done|]. split; [done|].
    split; [done|]. split; [done|]. split; [done|].
    by rewrite <- (transmit_last _ _ _ _ _ _ Hp eq_refl).
  - intros _. exists b, cf, (rt ++ heard ++ sending). rewrite <- !app_assoc.
    split; [done|]. split; [done|]. split; [done|]. split; [done|]. by rewrite !Forall_app.
Qed.

Lemma radio_step_inv c ops fuel op :
  op ∈ ops -> forall es0, does (radio_step fuel op) (fun r es _ r' =>
    radio_inv c ops r es0 -> radio_inv c ops r' (es0 ++ es)).
Proof.
  intros Hin es0. destruct op as [data|destination|]; cbn [radio_step].
  - eapply does_bind with (Q := fun _ r es _ r' => es = [] /\ r' = r);
      [apply transmit_does|by intros; apply does_ret|].
    intros r es1 a r1 es2 b r2 Ht [-> ->] Hinv. rewrite app_nil_r. by eapply inv_transmit.
  - eapply does_bind with (Q := fun _ r es _ r' => es = [] /\ r' = r);
      [apply poll_does|by intros; apply does_ret|].
    intros r es1 a r1 es2 b r2 (_ & Hop & Ha) [-> ->] Hinv. rewrite app_nil_r.
    assert (r1 = r \/ r1 = set_direction true false r) as Hr.
    { destruct Ha as [[-> _]|(rx & rest & _ & _ & _ & Ha)]; [by left|].
      unfold restarted in Ha. destruct (poll_status a.1).
      - destruct Ha as [_ [[_ ->]|[_ ->]]]; auto.
      - destruct Ha as (_ & _ & _ & ->). auto.
      - destruct Ha as (status & reads & more & _ & _ & _ & _ & _ & ->). auto.
      - by left. }
    apply (inv_calm c ops r); [done|by apply poll_harmless|by destruct Hr as [->| ->]|].
    intros Hready. split; [by destruct Hr as [->| ->]|by apply poll_runtime].
  - eapply does_weaken; [apply shutdown_does|]. intros r es a r' (Hh & Hc & Hcl) Hinv.
    apply (inv_calm c ops r); [done|done|done|]. unfold impl_ready.
    by rewrite Hcl, andb_false_r.
Qed.

Lemma radio_steps_inv c ops fuel ops' :
  ops' ⊆ ops -> forall es0, does (radio_steps fuel ops') (fun r es _ r' =>
    radio_inv c ops r es0 -> radio_inv c ops r' (es0 ++ es)).
Proof.
  induction ops' as [|op ops' IH]; intros Hsub es0; cbn [radio_steps].
  - apply does_ret. intros r. by rewrite app_nil_r.
  - intros r w a r2 w2 E. unfold mbind, act_bind in E.
    destruct (radio_step fuel op (r, w)) as [[u [r1 w1]]|] eqn:E1; [|done].
    apply (radio_step_inv c ops fuel op ltac:(set_solver) es0) in E1 as (ev1 & Hl1 & H1i).
    apply (IH ltac:(set_solver) (es0 ++ effects ev1)) in E as (ev2 & Hl2 & H2i).
    exists (ev1 ++ ev2). split; [by rewrite Hl2, Hl1, app_assoc|]. intros Hinv.
    unfold effects in *. rewrite omap_app, app_assoc. auto.
Qed.

Lemma initialize_inv fuel c ops w u r w' :
  initialize fuel (new_impl c, w) = Some (u, (r, w')) -> exists events,
    device_log w' = device_log w ++ events /\ radio_inv c ops r (effects events).
Proof.
  intros E. apply initialize_does in E as (ev & Hl & Hcon).
  destruct (Hcon eq_refl) as (Hh & Hc & Hr). exists ev. split; [done|]. split; [done| |].
  - apply (guarded_harmless c ops []); [|done].
    intros before arguments receive after Heq. by destruct before.
  - intros [Hv (b & cf & Heq & Hant & _ & Hs)]%Hr. exists b, cf, []. rewrite app_nil_r.
    apply valid_permitted in Hv. done.
Qed.

Lemma radio_use_inv fuel c ops w r w' :
  radio_use fuel c ops w = Some (r, w') -> exists events,
    device_log w' = device_log w ++ events /\ radio_inv c ops r (effects events).
Proof.
  unfold radio_use. intros ([u [r2 w2]] & E & [= -> ->])%fmap_Some.
  unfold mbind, act_bind in E.
  destruct (initialize fuel (new_impl c, w)) as [[u1 [r1 w1]]|] eqn:E1; [|done].
  apply (initialize_inv fuel c ops) in E1 as (ev1 & Hl1 & Hinv1).
  apply (radio_steps_inv c ops fuel ops ltac:(done) (effects ev1)) in E as (ev2 & Hl2 & Hinv).
  exists (ev1 ++ ev2). split; [by rewrite Hl2, Hl1, app_assoc|].
  unfold effects. rewrite omap_app. by apply Hinv.
Qed.
End Uses.
