(* ===== verification/RadioPromises.v ===== *)
(** * RadioPromises: the radio driver returns, and what its callers may rely on

    That every call of the driver of LinuxRadio.v ends when the clock goes on, the
    driver as the [ICapLora1262Radio] of the transport, a bench of simulated
    devices, and the property theorems of the driver. *)
From S2P Require Import Prelude Ports TokenBudget Japan920Policy Transports LinuxRadio RadioTrace RadioSafety.

(** ** Every call returns *)

(** Polls of the busy line in one wait: one each 100 us for 100 ms, and the last. *)
Definition kWaitPolls : nat := 1001.

(** What a call does to the steady clock and to the signals that may still
    interrupt a close. *)
Definition call_progress {A} (c : DeviceCall A) : Z -> Z -> nat -> nat -> A -> Prop :=
  match c in DeviceCall A return Z -> Z -> nat -> nat -> A -> Prop with
  | Dev_steady_now => fun before after _ _ now => before <= now <= after
  | Dev_sleep_for duration => fun before after _ _ _ => before + duration <= after
  | Dev_close _ => fun _ _ left left' answer =>
      answer = failure EINTR -> (left' < left)%nat
  | _ => fun _ _ _ _ _ => True
  end.

(** The clock never goes back, a sleep lasts as long as asked, and a close is
    interrupted only so often. *)
Class ISteadyDevices (W : Type) `{ILinuxDevices W} := {
  device_clock : W -> Z;
  device_interrupts : W -> nat;
  device_progress {A} (c : DeviceCall A) w answer w' :
    device_call c w = (answer, w') ->
    device_clock w <= device_clock w' /\ (device_interrupts w' <= device_interrupts w)%nat /\
    call_progress c (device_clock w) (device_clock w') (device_interrupts w)
      (device_interrupts w') answer
}.

Section Ends.
Context {W : Type} `{ISteadyDevices W}.

(** [m] returns when it may still be interrupted at most [n] times. *)
Definition ends {A} (n : nat) (m : Act A) : Prop :=
  forall r w, (device_interrupts w <= n)%nat -> exists a r' w',
    m (r, w) = Some (a, (r', w')) /\ (device_interrupts w' <= device_interrupts w)%nat.

Lemma ends_ret {A} n (a : A) : ends n (mret a).
Proof. intros r w _. by exists a, r, w. Qed.

Lemma ends_bind {A B} n (m : Act A) (k : A -> Act B) :
  ends n m -> (forall a, ends n (k a)) -> ends n (m ≫= k).
Proof.
  intros Hm Hk r w Hw. destruct (Hm r w Hw) as (a & r1 & w1 & E1 & L1).
  destruct (Hk a r1 w1) as (b & r2 & w2 & E2 & L2); [lia|].
  exists b, r2, w2. unfold mbind, act_bind. rewrite E1. split; [done|lia].
Qed.

Lemma ends_this {A} n (k : RadioImpl -> Act A) : (forall r, ends n (k r)) -> ends n (this ≫= k).
Proof. intros Hk r w Hw. by destruct (Hk r r w Hw) as (a & r' & w' & E & L); exists a, r', w'. Qed.

Lemma ends_modify n f : ends n (modify f).
Proof. intros r w _. by exists tt, (f r), w. Qed.

Lemma ends_call {A} n (c : DeviceCall A) : ends n (call c).
Proof.
  intros r w _. unfold call. cbn [fst snd]. destruct (device_call c w) as [a w1] eqn:E.
  apply device_progress in E as (_ & L & _). by exists a, r, w1.
Qed.

Create HintDb ends discriminated.
#[local] Hint Resolve ends_ret ends_modify ends_call : ends.

Ltac finish :=
  repeat first
    [ solve [auto with ends] | apply ends_this; intros ? | apply ends_bind; [|intros ?]
    | case_match | progress cbn [all_of] | progress unfold act_and ].

Lemma gpio_get_ends n d : ends n (gpio_get d).
Proof. unfold gpio_get. finish. Qed.

Lemma gpio_set_ends n d high : ends n (gpio_set d high).
Proof. unfold gpio_set. finish. Qed.

Lemma request_gpio_ends n chip offset output high consumer :
  ends n (request_gpio chip offset output high consumer).
Proof. unfold request_gpio. finish. Qed.

Lemma close_descriptor_ends fuel n d : (n < fuel)%nat -> ends n (close_descriptor fuel d).
Proof.
  intros Hn. unfold close_descriptor. case_match; [finish|].
  revert n Hn. induction fuel as [|fuel IH]; [lia|]. intros n Hn r w Hw. cbn [close_retry].
  unfold mbind, act_bind, call. cbn [fst snd].
  destruct (device_call (Dev_close d) w) as [[u|errno] w1] eqn:E;
    apply device_progress in E as (_ & L & P); [by exists true, r, w1|].
  destruct (Z.eqb_spec errno EINTR) as [->|]; [|by exists false, r, w1].
  specialize (P eq_refl). destruct (IH (pred n) ltac:(lia) r w1) as (a & r' & w' & Er & L'); [lia|].
  exists a, r', w'. split; [exact Er|lia].
Qed.

(** Each poll of the busy line brings the deadline 100 us nearer. *)
Lemma busy_loop_ends k deadline n r w :
  deadline <= device_clock w + Z.of_nat k * (100 * kMicrosecond) ->
  (device_interrupts w <= n)%nat ->
  exists a r' w', busy_loop (S k) deadline (r, w) = Some (a, (r', w')) /\
    (device_interrupts w' <= device_interrupts w)%nat.
Proof.
  revert r w. induction k as [|k IH]; intros r w Hd Hw; cbn [busy_loop];
    unfold gpio_get, mbind, act_bind, mret, act_ret, this, call; cbn [fst snd];
    (destruct (device_call (Dev_gpio_values _) w) as [v w1] eqn:E1);
    apply device_progress in E1 as (C1 & L1 & _);
    (destruct v as [v|]; [|exists false, r, w1; split; [done|lia]]);
    cbn [fmap option_fmap option_map fst snd]; (destruct (negb (v =? 0)); [|exists true, r, w1; split; [done|lia]]);
    cbn [fst snd]; (destruct (device_call Dev_steady_now w1) as [now w2] eqn:E2);
    apply device_progress in E2 as (C2 & L2 & P2); cbn [call_progress] in P2;
    (destruct (Z.leb_spec deadline now); [exists false, r, w2; split; [done|lia]|]); [lia|].
  cbn [fst snd].
  destruct (device_call (Dev_sleep_for _) w2) as [u w3] eqn:E3.
  apply device_progress in E3 as (C3 & L3 & P3). cbn [call_progress] in P3.
  destruct (IH r w3) as (a & r' & w' & Er & L'); [lia|lia|].
  exists a, r', w'. split; [exact Er|lia].
Qed.

Lemma wait_while_busy_ends fuel n : (kWaitPolls <= fuel)%nat -> ends n (wait_while_busy fuel).
Proof.
  intros Hf r w Hw. unfold wait_while_busy, mbind, act_bind, call. cbn [fst snd].
  destruct (device_call Dev_steady_now w) as [now w1] eqn:E.
  apply device_progress in E as (C & L & P). cbn [call_progress] in P.
  destruct fuel as [|fuel]; [unfold kWaitPolls in Hf; lia|].
  destruct (busy_loop_ends fuel (now + kBusyTimeoutMs * kMillisecond) n r w1) as (a & r' & w' & Er & L').
  - unfold kWaitPolls, kBusyTimeoutMs, kMillisecond, kMicrosecond in *. lia.
  - lia.
  - exists a, r', w'. split; [exact Er|lia].
Qed.

(** Fuel for every wait, and for every interrupted close. *)
Definition fuel_enough (fuel n : nat) : Prop := (kWaitPolls <= fuel /\ n < fuel)%nat.

Section WithFuel.
Context (fuel n : nat) (Hfuel : fuel_enough fuel n).

Lemma closing_ends d : ends n (close_descriptor fuel d).
Proof. by apply close_descriptor_ends, Hfuel. Qed.

Lemma waiting_ends : ends n (wait_while_busy fuel).
Proof. by apply wait_while_busy_ends, Hfuel. Qed.

#[local] Hint Resolve gpio_get_ends gpio_set_ends request_gpio_ends closing_ends waiting_ends : ends.

Lemma spi_transfer_ends tx : ends n (spi_transfer tx).
Proof. unfold spi_transfer. finish. Qed.
#[local] Hint Resolve spi_transfer_ends : ends.

Lemma write_command_ends opcode data : ends n (write_command fuel opcode data).
Proof. unfold write_command. finish. Qed.

Lemma read_command_ends opcode arguments size : ends n (read_command fuel opcode arguments size).
Proof. unfold read_command. finish. Qed.
#[local] Hint Resolve write_command_ends read_command_ends : ends.

Lemma set_antenna_switch_ends enabled : ends n (set_antenna_switch enabled).
Proof.
  unfold set_antenna_switch, update_i2c_register, i2c_read_register, i2c_write_register. finish.
Qed.
#[local] Hint Resolve set_antenna_switch_ends : ends.

Lemma start_receive_ends : ends n (start_receive fuel).
Proof. unfold start_receive, set_packet_params, clear_irq, set_irq_mask. finish. Qed.
#[local] Hint Resolve start_receive_ends : ends.

Lemma configure_radio_ends : ends n (configure_radio fuel).
Proof.
  unfold configure_radio, write_commands, fixed_commands, profile_commands, write_register.
  cbn [fmap list_fmap app]. finish.
Qed.

Lemma reset_radio_ends : ends n (reset_radio fuel).
Proof. unfold reset_radio. finish. Qed.
#[local] Hint Resolve configure_radio_ends reset_radio_ends : ends.

Lemma shutdown_ends : ends n (shutdown fuel).
Proof. unfold shutdown. finish. Qed.
#[local] Hint Resolve shutdown_ends : ends.

Lemma initialize_ends : ends n (initialize fuel).
Proof. unfold initialize. finish. Qed.

Lemma impl_try_start_transmit_ends data : ends n (impl_try_start_transmit fuel data).
Proof.
  unfold impl_try_start_transmit, send_actions, read_irq, set_packet_params, clear_irq, set_irq_mask.
  finish.
Qed.

Lemma impl_poll_ends destination : ends n (impl_poll fuel destination).
Proof. unfold impl_poll, take_packet, resume, read_irq, clear_irq. finish. Qed.

Lemma radio_steps_ends ops : ends n (radio_steps fuel ops).
Proof.
  pose proof impl_try_start_transmit_ends. pose proof impl_poll_ends.
  induction ops as [|[data|destination|] ops IH]; cbn [radio_steps radio_step]; finish.
Qed.
End WithFuel.

Lemma radio_use_ends fuel c ops w :
  fuel_enough fuel (device_interrupts w) -> exists r w', radio_use fuel c ops w = Some (r, w').
Proof.
  intros Hf. unfold radio_use.
  destruct (ends_bind _ _ _ (initialize_ends fuel _ Hf) (fun _ => radio_steps_ends fuel _ Hf ops)
              (new_impl c) w) as (u & r & w' & E & _); [done|].
  exists r, w'. by rewrite E.
Qed.
End Ends.

(** ** The driver behind the transport *)

Section Driver.
Context {W : Type} `{ILinuxDevices W}.

(** The driver with its devices; the caller's buffer is zero-filled. *)
Definition linux_radio (fuel : nat) : ICapLora1262Radio (RadioImpl * W) := {|
  radio_ready s := impl_ready s.1;
  try_start_transmit s data := default (RadioStart_Failed, s) (impl_try_start_transmit fuel data s);
  radio_poll s capacity :=
    let buffer := replicate capacity x00 in
    default (poll_failed, buffer, s) (impl_poll fuel buffer s);
  radio_shutdown s := match shutdown fuel s with Some (_, s) => s | None => s end
|}.
End Driver.

Section OverTransport.
Context {W : Type} `{ILinuxDevicesLaws W}.

Lemma linux_radio_laws fuel : @ICapLora1262RadioLaws (RadioImpl * W) (linux_radio fuel).
Proof.
  split. intros [r w] capacity res d s'. cbn [radio_poll linux_radio].
  destruct (impl_poll fuel (replicate capacity x00) (r, w)) as [[[res1 d1] [r1 w1]]|] eqn:E; cbn.
  - intros [= _ <- _]. apply poll_does in E as (ev & _ & Hlen & _). cbn in Hlen.
    by rewrite Hlen, length_replicate.
  - intros [= _ <- _]. apply length_replicate.
Qed.

(** The driver of a radio constructed for [c] with the effects since [w0]. *)
Definition radio_since (c : LinuxCapLora1262Config) (ops : list RadioOp) (w0 : W)
    (s : RadioImpl * W) : Prop :=
  exists events, device_log s.2 = device_log w0 ++ events /\
    radio_inv c ops s.1 (effects events).

Lemma radio_since_step c ops w0 fuel op s s' :
  op ∈ ops -> radio_since c ops w0 s -> radio_step fuel op s = Some (tt, s') ->
  radio_since c ops w0 s'.
Proof.
  intros Hin (ev & Hl & Hinv) E. destruct s as [r w], s' as [r' w'].
  apply (radio_step_inv c ops fuel op Hin (effects ev)) in E as (ev' & Hl' & Hinv').
  exists (ev ++ ev'). cbn [fst snd] in *. split; [by rewrite Hl', Hl, app_assoc|].
  unfold effects. rewrite omap_app. by apply Hinv'.
Qed.

(** What the radio is asked for by a use of the transport. *)
Definition asked (op : TransportOp) : list RadioOp :=
  match op with
  | Transport_send data => [Radio_transmit data]
  | _ => []
  end.

Definition transport_asks (ops : list TransportOp) : list RadioOp :=
  Radio_shutdown :: Radio_poll (replicate kMaximumDatagramBytes x00) :: concat (asked <$> ops).

Context (fuel : nat) (c : LinuxCapLora1262Config) (ops : list TransportOp) (w0 : W).
#[local] Instance driver : ICapLora1262Radio (RadioImpl * W) := linux_radio fuel.
Let good (s : RadioImpl * W) : Prop := radio_since c (transport_asks ops) w0 s.

Lemma shutdown_good s : good s -> good (radio_shutdown s).
Proof.
  intros Hg. cbn. destruct (shutdown fuel s) as [[[] s']|] eqn:E; [|done].
  eapply (radio_since_step _ _ _ fuel Radio_shutdown); [by left|exact Hg|exact E].
Qed.

Lemma poll_good s : good s -> good (radio_poll s kMaximumDatagramBytes).2.
Proof.
  intros Hg. cbn [radio_poll driver linux_radio].
  destruct (impl_poll fuel _ s) as [[a s']|] eqn:E; [|done]. destruct a as [a d]. cbn [default snd].
  eapply (radio_since_step _ _ _ fuel (Radio_poll _)); [right; by left|exact Hg|].
  cbn [radio_step]. unfold mbind, act_bind. by rewrite E.
Qed.

Lemma transmit_good s data :
  Transport_send data ∈ ops -> good s -> good (try_start_transmit s data).2.
Proof.
  intros Hin Hg. cbn [try_start_transmit driver linux_radio].
  destruct (impl_try_start_transmit fuel data s) as [[a s']|] eqn:E; [|done]. cbn [default snd].
  eapply (radio_since_step _ _ _ fuel (Radio_transmit data)); [|exact Hg|].
  - right. right. apply list_elem_of_In, in_concat. exists [Radio_transmit data].
    split; [|by left]. apply list_elem_of_In, list_elem_of_fmap. by exists (Transport_send data).
  - cbn [radio_step]. unfold mbind, act_bind. by rewrite E.
Qed.

Lemma cap_close_good t : good t.(cap_radio) -> good (cap_close t).(cap_radio).
Proof. intros Hg. unfold cap_close. case_match; [done|]. by apply shutdown_good. Qed.

Lemma cap_fail_closed_good t : good t.(cap_radio) -> good (cap_fail_closed t).(cap_radio).
Proof. intros Hg. unfold cap_fail_closed. case_match; [by apply shutdown_good|done]. Qed.

Lemma service_radio_good t : good t.(cap_radio) -> good (service_radio t).(cap_radio).
Proof.
  intros Hg. unfold service_radio. case_match; [done|]. apply poll_good in Hg.
  destruct (radio_poll _ _) as [[res d] s]. cbn [snd] in Hg.
  destruct (poll_status res); repeat case_match; try done. by apply cap_fail_closed_good.
Qed.

Lemma cap_try_send_good t data :
  Transport_send data ∈ ops -> good t.(cap_radio) ->
  good (cap_try_send t (Some data)).2.(cap_radio).
Proof.
  intros Hin Hg. unfold cap_try_send. destruct (cap_closed t); [done|].
  destruct (_ || _); [done|]. apply service_radio_good in Hg.
  destruct (cap_closed (service_radio t)); [done|].
  pose proof (transmit_good (cap_radio (service_radio t)) data Hin Hg) as Ht.
  destruct (try_start_transmit _ data) as [[] s]; try exact Ht. by apply cap_fail_closed_good.
Qed.

Lemma cap_try_receive_good t capacity :
  good t.(cap_radio) -> good (cap_try_receive t (Some capacity)).2.(cap_radio).
Proof.
  intros Hg. unfold cap_try_receive. destruct (cap_closed t); [done|].
  destruct (capacity =? 0)%nat; [done|]. apply service_radio_good in Hg.
  repeat case_match; exact Hg.
Qed.

Lemma transport_step_good op y :
  op ∈ ops -> good y.2.(cap_radio) -> good (transport_step y op).2.(cap_radio).
Proof.
  intros Hin Hg. destruct y as [tr t]. cbn [snd] in Hg.
  destruct op as [data|capacity|]; cbn [transport_step].
  - pose proof (cap_try_send_good t data Hin Hg) as Hs. cbn [try_send cap_transport].
    by destruct (cap_try_send t (Some data)).
  - pose proof (cap_try_receive_good t capacity Hg) as Hs. cbn [try_receive cap_transport].
    by destruct (cap_try_receive t (Some capacity)).
  - by apply cap_close_good.
Qed.

Lemma transport_run_good t ops' :
  ops' ⊆ ops -> good t.(cap_radio) -> good (transport_run t ops').2.(cap_radio).
Proof.
  induction ops' as [|op ops' IH] using rev_ind; intros Hsub Hg; [done|].
  rewrite transport_run_snoc. apply transport_step_good; [set_solver|]. apply IH; [set_solver|done].
Qed.

Lemma make_good s mtu : good s -> good (CapLora1262Transport_make s mtu).(cap_radio).
Proof.
  intros Hg. unfold CapLora1262Transport_make. case_match; [done|]. by apply shutdown_good.
Qed.
End OverTransport.

(** ** A bench of simulated devices *)

(** A radio chip that never is busy: its interrupt flags, the level it hears, the
    packet in its buffer, and what it will hear each time it is told to listen. *)
Record Bench := mkBench {
  bench_irq : Z;
  bench_rssi : byte;
  bench_packet : bytes;
  bench_air : list (Z * bytes);
  bench_time : Z;
  bench_log : list DeviceEvent
}.

Definition bench_heard (irq : Z) (packet : bytes) (air : list (Z * bytes)) (b : Bench) : Bench :=
  mkBench irq b.(bench_rssi) packet air b.(bench_time) b.(bench_log).

(** The reply of the chip and what the message does to it: the flags stay until
    they are cleared. *)
Definition bench_message (transmit : bytes) (b : Bench) : bytes * Bench :=
  match transmit with
  | opcode :: arguments =>
      if Byte.eqb opcode kGetIrqStatus then (x00 :: x00 :: mask_bytes b.(bench_irq), b)
      else if Byte.eqb opcode kGetRssiInst then ([x00; x00; b.(bench_rssi)], b)
      else if Byte.eqb opcode kGetRxBufferStatus then
        ([x00; x00; to_u8 (Z.of_nat (length b.(bench_packet))); x00], b)
      else if Byte.eqb opcode kReadBuffer then (x00 :: x00 :: x00 :: b.(bench_packet), b)
      else if Byte.eqb opcode kClearIrqStatus then
        let mask := Z.lor (Z.shiftl (bval (byte_at arguments 0)) 8) (bval (byte_at arguments 1)) in
        ([], bench_heard (Z.ldiff b.(bench_irq) mask) b.(bench_packet) b.(bench_air) b)
      else if Byte.eqb opcode kSetTx then
        ([], bench_heard kIrqTxDone b.(bench_packet) b.(bench_air) b)
      else if Byte.eqb opcode kSetRx then
        match b.(bench_air) with
        | [] => ([], b)
        | (irq, packet) :: air => ([], bench_heard irq packet air b)
        end
      else ([], b)
  | [] => ([], b)
  end.

Definition bench_irq_gpio : Z := LinuxCapLora1262Config_default.(irq_gpio).

(** The answer to a call, and the bench before the call is put into its log. *)
Definition bench_answer {A} (c : DeviceCall A) (b : Bench) : A * Bench :=
  match c in DeviceCall A return A * Bench with
  | Dev_open _ _ => (3, b)
  | Dev_close _ => (success tt, b)
  | Dev_gpio_request _ request => (Some (100 + request.(line_offset)), b)
  | Dev_gpio_values descriptor =>
      (Some (if (descriptor =? 100 + bench_irq_gpio) && negb (b.(bench_irq) =? 0) then 1 else 0), b)
  | Dev_gpio_set _ _ => (true, b)
  | Dev_spi_setting _ _ => (true, b)
  | Dev_spi_message _ transmit _ =>
      let (reply, b) := bench_message transmit b in
      (Some (take (length transmit) (reply ++ replicate (length transmit) x00)), b)
  | Dev_i2c_read _ _ _ => (Some 0xa2, b)
  | Dev_i2c_write _ _ _ _ => (true, b)
  | Dev_steady_now => (b.(bench_time), b)
  | Dev_sleep_for duration =>
      (tt, mkBench b.(bench_irq) b.(bench_rssi) b.(bench_packet) b.(bench_air)
             (b.(bench_time) + Z.max 0 duration) b.(bench_log))
  end.

#[export] Instance bench_devices : ILinuxDevices Bench := {
  device_call A c b :=
    let (answer, b') := bench_answer c b in
    (answer, mkBench b'.(bench_irq) b'.(bench_rssi) b'.(bench_packet) b'.(bench_air)
               b'.(bench_time) (b'.(bench_log) ++ [device_event c answer]))
}.

Lemma bench_message_keeps transmit b :
  bench_log (bench_message transmit b).2 = bench_log b /\
  bench_time (bench_message transmit b).2 = bench_time b.
Proof. unfold bench_message. by repeat case_match. Qed.

Lemma bench_answer_keeps {A} (c : DeviceCall A) b :
  bench_log (bench_answer c b).2 = bench_log b /\
  bench_time b <= bench_time (bench_answer c b).2.
Proof.
  destruct c; cbn; try (split; [done|lia]).
  pose proof (bench_message_keeps transmit b) as [Hl Ht].
  destruct (bench_message transmit b). cbn in *. split; [done|lia].
Qed.

#[export] Instance bench_laws : ILinuxDevicesLaws Bench.
Proof.
  refine {| device_log := bench_log |}. intros A c b answer b'. cbn [device_call bench_devices].
  destruct (bench_answer_keeps c b) as [Hl _].
  destruct (bench_answer c b) as [a b1] eqn:E. cbn [snd] in Hl. intros [= <- <-].
  cbn [bench_log]. split; [by rewrite Hl|].
  destruct c; try done. cbn in *. intros receive ->.
  destruct (bench_message transmit b) as [reply b2]. injection E as <- <-.
  rewrite length_take, length_app, length_replicate. lia.
Defined.

#[export] Instance bench_steady : ISteadyDevices Bench.
Proof.
  refine {| device_clock := bench_time; device_interrupts := fun _ => 0%nat |}.
  intros A c b answer b'. cbn [device_call bench_devices].
  destruct (bench_answer_keeps c b) as [_ Ht].
  destruct (bench_answer c b) as [a b1] eqn:E. cbn [snd] in Ht. intros [= <- <-].
  cbn [bench_time]. split; [done|]. split; [done|].
  destruct c; cbn in *; try done.
  - by injection E as <- <-.
  - injection E as <- <-. lia.
  - injection E as <- <-. cbn. lia.
Defined.

(** The default configuration with the antenna confirmed, or not. *)
Definition bench_config (confirmed : bool) : LinuxCapLora1262Config :=
  let c := LinuxCapLora1262Config_default in
  mkLinuxCapLora1262Config c.(spi_device) c.(gpio_chip) c.(i2c_device) c.(reset_gpio)
    c.(irq_gpio) c.(busy_gpio) c.(spi_speed_hz) c.(listen_before_talk_threshold_dbm) confirmed
    c.(radio_profile).

(** A level of -100 dBm, and these things heard. *)
Definition bench_with (air : list (Z * bytes)) : Bench := mkBench 0 xc8 [] air 0 [].

Definition bench_call : bytes := [x01; x02; x03].

Definition is_transmission (e : DeviceEffect) : bool :=
  match e with
  | Effect_spi (opcode :: _) _ => Byte.eqb opcode kSetTx
  | _ => false
  end.

Definition transmissions (log : list DeviceEvent) : nat :=
  length (List.filter is_transmission (effects log)).

Lemma transmissions_app l1 l2 :
  transmissions (l1 ++ l2) = (transmissions l1 + transmissions l2)%nat.
Proof. unfold transmissions, effects. by rewrite omap_app, List.filter_app, length_app. Qed.

Definition bench_buffer : bytes := replicate kMaximumDatagramBytes x00.

(** Without the confirmation of the antenna not one call reaches a device. *)
Lemma antenna_not_confirmed ops :
  exists r b, radio_use kWaitPolls (bench_config false) ops (bench_with []) = Some (r, b) /\
    bench_log b = [] /\ impl_ready r = false.
Proof.
  assert (exists r, initialize kWaitPolls (new_impl (bench_config false), bench_with []) =
    Some (tt, (r, bench_with [])) /\ impl_closed r = true /\ impl_ready r = false) as (r & E & Hc & Hr).
  { eexists. split; [vm_compute; reflexivity|done]. }
  exists r, (bench_with []). unfold radio_use, mbind, act_bind. rewrite E. split; [|done].
  assert (radio_steps kWaitPolls ops (r, bench_with []) = Some (tt, (r, bench_with []))) as ->; [|done].
  induction ops as [|[data|buffer|] ops IH]; [done|..]; cbn [radio_steps radio_step];
    unfold impl_try_start_transmit, impl_poll, shutdown, mbind, act_bind, this; cbn [fst snd];
    rewrite ?Hr, ?Hc; cbn; exact IH.
Qed.

(** ** A false preamble *)

(** The chip has detected a preamble, no packet follows it. *)
Definition preamble_heard (time : Z) (log : list DeviceEvent) : Bench :=
  mkBench kIrqPreambleDetected xc8 [] [] time log.

Definition listening_radio : RadioImpl :=
  mkRadioImpl (bench_config true) 3 3 126 123 122 true true false true false.

Definition round : list RadioOp := [Radio_poll bench_buffer; Radio_transmit bench_call].

Lemma round_changes_nothing time log : exists log',
  radio_steps kWaitPolls round (listening_radio, preamble_heard time log) =
    Some (tt, (listening_radio, preamble_heard time log')) /\
  transmissions log' = transmissions log.
Proof.
  eexists. split; [vm_compute; reflexivity|].
  rewrite !transmissions_app. cbn. lia.
Qed.

Lemma radio_steps_app {W} `{ILinuxDevices W} fuel ops1 ops2 s :
  radio_steps fuel (ops1 ++ ops2) s =
    match radio_steps fuel ops1 s with Some (_, s) => radio_steps fuel ops2 s | None => None end.
Proof.
  revert s. induction ops1 as [|op ops1 IH]; intros s; [done|]. cbn [app radio_steps].
  unfold mbind, act_bind. destruct (radio_step fuel op s) as [[[] s1]|]; [apply IH|done].
Qed.

(** [poll] answers that nothing happened and leaves the flag of the preamble as it
    is, which keeps the interrupt line high; [try_start_transmit] answers that the
    channel is busy as long as it is.  So after a preamble that no packet follows
    nothing is transmitted any more, however often both are called, until some
    packet arrives. *)
Lemma false_preamble_blocks n : exists r b,
  radio_use kWaitPolls (bench_config true) (concat (replicate n round))
    (bench_with [(kIrqPreambleDetected, [])]) = Some (r, b) /\
  impl_ready r = true /\ transmissions b.(bench_log) = 0%nat.
Proof.
  assert (exists time log, initialize kWaitPolls
      (new_impl (bench_config true), bench_with [(kIrqPreambleDetected, [])]) =
      Some (tt, (listening_radio, preamble_heard time log)) /\ transmissions log = 0%nat)
    as (time & log & E & Hlog).
  { do 2 eexists. split; vm_compute; reflexivity. }
  assert (exists log', radio_steps kWaitPolls (concat (replicate n round))
      (listening_radio, preamble_heard time log) =
      Some (tt, (listening_radio, preamble_heard time log')) /\ transmissions log' = 0%nat)
    as (log' & Er & Hlog').
  { clear E. revert log Hlog. induction n as [|n IH]; intros log Hlog; [by exists log|].
    destruct (round_changes_nothing time log) as (log1 & E1 & H1).
    cbn [replicate concat]. rewrite radio_steps_app, E1. apply IH. congruence. }
  exists listening_radio, (preamble_heard time log'). split; [|by split].
  unfold radio_use, mbind, act_bind. rewrite E. cbn iota. rewrite Er. done.
Qed.

(** ** Property theorems *)

(** C32: nothing is transmitted without an antenna, in the wrong band, or into a
    busy channel.  Construct the driver for any configuration over any devices and
    call it in any way: every call returns, and whenever the radio is told to
    transmit - whatever the devices answered until then, errors included - the
    configuration was valid, with the antenna confirmed and a permitted profile,
    whose channel, as the radio is told it, lies between 920.5 and 923 MHz; the antenna switch had been turned on and not off again; the radio had been set
    to exactly that profile and not since; the bytes in its buffer are one of the
    datagrams it was asked to send, of 1 to 255 bytes; and just before it answered
    that no packet is on the air and that the level is below the threshold. *)
Theorem radio_transmits_guarded {W} `{ILinuxDevicesLaws W} `{!ISteadyDevices W}
    fuel c ops (w : W) :
  fuel_enough fuel (device_interrupts w) ->
  exists r w' events, radio_use fuel c ops w = Some (r, w') /\
    device_log w' = device_log w ++ events /\ guarded c ops (effects events).
Proof.
  intros Hf. destruct (radio_use_ends fuel c ops w Hf) as (r & w' & E).
  destruct (radio_use_inv fuel c ops w r w' E) as (ev & Hl & [_ Hg _]). eauto 6.
Qed.

Lemma radio_transmits_guarded_witness :
  let ops := [Radio_transmit bench_call; Radio_poll bench_buffer; Radio_transmit [x04]] in
  match radio_use kWaitPolls (bench_config true) ops (bench_with []) with
  | Some (_, b) => transmissions b.(bench_log) = 2%nat
  | None => False
  end /\
  exists r w' events,
    radio_use kWaitPolls (bench_config true) ops (bench_with []) = Some (r, w') /\
    device_log w' = device_log (bench_with []) ++ events /\
    guarded (bench_config true) ops (effects events).
Proof.
  intros ops. split; [vm_compute; reflexivity|].
  apply (radio_transmits_guarded kWaitPolls (bench_config true) ops (bench_with [])).
  split; [done|]. cbn. unfold kWaitPolls. lia.
Defined.

(** C33: the answers of the driver are those of the radio.  A call that answers
    [Started] has found the channel quiet and has sent the commands that hand over
    the datagram and transmit it, in order; one that answers anything else without
    having found it quiet has only asked.  A poll that answers [Received] has read
    the flags of a packet without header or checksum error, the place of the packet
    and its bytes, which are in the caller's buffer, whose rest is untouched, and
    has made the radio listen again after clearing those flags; a packet of no
    bytes or too long for the buffer is not read.  A poll that answers
    [TransmitComplete] has seen that flag.  No poll transmits, and none changes the
    length of the buffer. *)
Theorem radio_calls_answer {W} `{ILinuxDevicesLaws W} fuel r (w : W) :
  (forall data a r' w', impl_try_start_transmit fuel data (r, w) = Some (a, (r', w')) ->
     exists events, device_log w' = device_log w ++ events /\
       transmit_effects data r (effects events) a r') /\
  (forall destination a r' w', impl_poll fuel destination (r, w) = Some (a, (r', w')) ->
     exists events, device_log w' = device_log w ++ events /\
       poll_effects destination r (effects events) a r').
Proof.
  split; intros x a r' w' E.
  - by apply transmit_does in E.
  - by apply poll_does in E.
Qed.

Lemma radio_calls_answer_witness :
  match LinuxCapLora1262Radio kWaitPolls (bench_config true)
          (bench_with [(kIrqRxDone, [x09; x08])]) with
  | Some (r, b) =>
      match impl_poll kWaitPolls bench_buffer (r, b) with
      | Some (a, (r', b')) =>
          (a.1 = mkRadioPollResult RadioPoll_Received 2 /\ take 3 a.2 = [x09; x08; x00]) /\
          exists events, device_log b' = device_log b ++ events /\
            poll_effects bench_buffer r (effects events) a r'
      | None => False
      end
  | None => False
  end.
Proof.
  assert (match LinuxCapLora1262Radio kWaitPolls (bench_config true)
                  (bench_with [(kIrqRxDone, [x09; x08])]) with
    | Some s => match impl_poll kWaitPolls bench_buffer s with
                | Some (a, _) => a.1 = mkRadioPollResult RadioPoll_Received 2 /\
                                 take 3 a.2 = [x09; x08; x00]
                | None => False
                end
    | None => False
    end) as Hr by (vm_compute; split; reflexivity).
  destruct (LinuxCapLora1262Radio _ _ _) as [[r b]|]; [|exact Hr].
  destruct (impl_poll kWaitPolls bench_buffer (r, b)) as [[a [r' b']]|] eqn:E; [|exact Hr].
  split; [exact Hr|]. exact (proj2 (radio_calls_answer kWaitPolls r b) bench_buffer a r' b' E).
Defined.

(** C34: the transport over the driver transmits only what it was given.  Make the
    radio transport over a constructed driver and call it in any way: every
    transmission is guarded as for direct calls, and its bytes are those of a
    datagram that was handed to [try_send]. *)
Theorem radio_transport_guarded {W} `{ILinuxDevicesLaws W} fuel c mtu ops (w : W) s :
  LinuxCapLora1262Radio fuel c w = Some s ->
  let radio := linux_radio fuel in
  let (r, w') := (transport_run (CapLora1262Transport_make s mtu) ops).2.(cap_radio) in
  exists events, device_log w' = device_log w ++ events /\
    guarded c (transport_asks ops) (effects events).
Proof.
  intros Hs radio. unfold LinuxCapLora1262Radio in Hs. apply fmap_Some in Hs as ([u [r0 w0]] & E & ->). cbn [snd].
  apply (initialize_inv fuel c (transport_asks ops)) in E as (ev & Hl & Hinv).
  pose proof (transport_run_good fuel c ops w (CapLora1262Transport_make (r0, w0) mtu) ops
    ltac:(done) (make_good _ _ _ _ (r0, w0) mtu ltac:(by exists ev))) as Hg.
  destruct (cap_radio _) as [r1 w1]. destruct Hg as (ev1 & Hl1 & [_ Hg _]). eauto.
Qed.

Lemma radio_transport_guarded_witness :
  let c := bench_config true in
  let air := bench_with [(kIrqRxDone, [x09; x08])] in
  let ops := [Transport_send bench_call; Transport_receive 255] in
  let radio := linux_radio kWaitPolls in
  match LinuxCapLora1262Radio kWaitPolls c air with
  | Some s =>
      let y := transport_run (CapLora1262Transport_make s 255) ops in
      y.1 = mkTraffic [bench_call] [[x09; x08]] /\
      let (r, b) := y.2.(cap_radio) in
      exists events, device_log b = device_log air ++ events /\
        guarded c (transport_asks ops) (effects events)
  | None => False
  end.
Proof.
  intros c air ops radio.
  assert (match LinuxCapLora1262Radio kWaitPolls c air with
    | Some s => (transport_run (CapLora1262Transport_make s 255) ops).1 =
                  mkTraffic [bench_call] [[x09; x08]]
    | None => False
    end) as Hr by (vm_compute; reflexivity).
  destruct (LinuxCapLora1262Radio kWaitPolls c air) as [s|] eqn:E; [|exact Hr].
  split; [exact Hr|]. exact (radio_transport_guarded kWaitPolls c 255 ops air s E).
Defined.
