(* ===== verification/SimulatedBus.v ===== *)
(** * SimulatedBus: the two-endpoint datagram bus

    src/adapters/transport/simulated_radio_bus.cpp and its header: a bus with a
    virtual clock between two endpoints.  Datagrams are scheduled by tick and by
    order of sending; one-shot directives drop, duplicate, corrupt or delay the
    next datagram of an endpoint; an endpoint can be disconnected for a while or
    closed for good.  The theory accounts for every copy, and shows that the
    noise of the bus never passes the frame codec and that without directives
    the bus is a pair of queues.

    The two values of [EndpointId] are an inductive type, so the guards of the
    code against any other value have no counterpart. *)
From Stdlib Require Import Sorting.Sorted.
From S2P Require Import Prelude Ports Limits FrameCodec.

(** ** Definitions *)

Definition kMaximumQueueDepth : nat := 4096.

Inductive EndpointId := First | Second.

#[global] Instance EndpointId_eq_decision : EqDecision EndpointId.
Proof. solve_decision. Defined.

Definition other_endpoint (endpoint : EndpointId) : EndpointId :=
  match endpoint with
  | First => Second
  | Second => First
  end.

(** An array of the two endpoints, read by [index_of]. *)
Record PerEndpoint (A : Type) := mkPerEndpoint { of_first : A; of_second : A }.
Arguments mkPerEndpoint {A} _ _.
Arguments of_first {A} _.
Arguments of_second {A} _.

Definition at_endpoint {A} (endpoint : EndpointId) (values : PerEndpoint A) : A :=
  match endpoint with
  | First => values.(of_first)
  | Second => values.(of_second)
  end.

Definition set_endpoint {A} (endpoint : EndpointId) (value : A) (values : PerEndpoint A)
  : PerEndpoint A :=
  match endpoint with
  | First => mkPerEndpoint value values.(of_second)
  | Second => mkPerEndpoint values.(of_first) value
  end.

Record BusConfig := mkBusConfig {
  bus_mtu : nat;
  max_scheduled_events : nat;
  max_inbound_datagrams : nat;
  max_fault_directives : nat
}.

Record FaultDirective := mkFaultDirective {
  fault_drop : bool;
  fault_duplicate : bool;
  corrupt_byte_index : option nat;
  corrupt_xor_mask : byte;
  delay_ticks : Z
}.

Record BusStatistics := mkBusStatistics {
  accepted_sends : Z;
  would_block_sends : Z;
  disconnected_sends : Z;
  closed_sends : Z;
  invalid_sends : Z;
  bus_received_datagrams : Z;
  delivered_datagrams : Z;
  fault_drops : Z;
  duplicate_copies : Z;
  corrupted_copies : Z;
  inbound_full_drops : Z;
  disconnected_drops : Z;
  scheduled_high_watermark : nat;
  inbound_high_watermarks : PerEndpoint nat
}.

(** The stored bytes of a datagram beyond its size are never read. *)
Record ScheduledEvent := mkScheduledEvent {
  delivery_tick : Z;
  event_ordinal : Z;
  event_source : EndpointId;
  event_destination : EndpointId;
  event_datagram : bytes
}.

Record SimulatedRadioBus := mkSimulatedRadioBus {
  bus_config : BusConfig;
  bus_valid : bool;
  bus_tick : Z;
  next_event_ordinal : Z;
  bus_connected : PerEndpoint bool;
  bus_closed : PerEndpoint bool;
  bus_inbound : PerEndpoint (list bytes);
  fault_directives : PerEndpoint (list FaultDirective);
  scheduled_events : list ScheduledEvent;
  bus_statistics : BusStatistics
}.

Definition with_bus_tick (b : SimulatedRadioBus) v :=
  let '(mkSimulatedRadioBus a c _ d e f g h i j) := b in
  mkSimulatedRadioBus a c v d e f g h i j.
Definition with_next_ordinal (b : SimulatedRadioBus) v :=
  let '(mkSimulatedRadioBus a c d _ e f g h i j) := b in
  mkSimulatedRadioBus a c d v e f g h i j.
Definition with_bus_connected (b : SimulatedRadioBus) v :=
  let '(mkSimulatedRadioBus a c d e _ f g h i j) := b in
  mkSimulatedRadioBus a c d e v f g h i j.
Definition with_bus_closed (b : SimulatedRadioBus) v :=
  let '(mkSimulatedRadioBus a c d e f _ g h i j) := b in
  mkSimulatedRadioBus a c d e f v g h i j.
Definition with_bus_inbound (b : SimulatedRadioBus) v :=
  let '(mkSimulatedRadioBus a c d e f g _ h i j) := b in
  mkSimulatedRadioBus a c d e f g v h i j.
Definition with_fault_directives (b : SimulatedRadioBus) v :=
  let '(mkSimulatedRadioBus a c d e f g h _ i j) := b in
  mkSimulatedRadioBus a c d e f g h v i j.
Definition with_scheduled_events (b : SimulatedRadioBus) v :=
  let '(mkSimulatedRadioBus a c d e f g h i _ j) := b in
  mkSimulatedRadioBus a c d e f g h i v j.
Definition bus_count (f : BusStatistics -> BusStatistics) (b : SimulatedRadioBus) :=
  let '(mkSimulatedRadioBus a c d e h g i j k s) := b in
  mkSimulatedRadioBus a c d e h g i j k (f s).

(** The counters are 64-bit and wrap. *)
Definition count_accepted_send (s : BusStatistics) :=
  let '(mkBusStatistics a b c d e f g h i j k l m n) := s in
  mkBusStatistics (u64 (a + 1)) b c d e f g h i j k l m n.
Definition count_would_block_send (s : BusStatistics) :=
  let '(mkBusStatistics a b c d e f g h i j k l m n) := s in
  mkBusStatistics a (u64 (b + 1)) c d e f g h i j k l m n.
Definition count_disconnected_send (s : BusStatistics) :=
  let '(mkBusStatistics a b c d e f g h i j k l m n) := s in
  mkBusStatistics a b (u64 (c + 1)) d e f g h i j k l m n.
Definition count_closed_send (s : BusStatistics) :=
  let '(mkBusStatistics a b c d e f g h i j k l m n) := s in
  mkBusStatistics a b c (u64 (d + 1)) e f g h i j k l m n.
Definition count_invalid_send (s : BusStatistics) :=
  let '(mkBusStatistics a b c d e f g h i j k l m n) := s in
  mkBusStatistics a b c d (u64 (e + 1)) f g h i j k l m n.
Definition count_received_datagram (s : BusStatistics) :=
  let '(mkBusStatistics a b c d e f g h i j k l m n) := s in
  mkBusStatistics a b c d e (u64 (f + 1)) g h i j k l m n.
Definition count_delivered (endpoint : EndpointId) (depth : nat) (s : BusStatistics) :=
  let '(mkBusStatistics a b c d e f g h i j k l m n) := s in
  mkBusStatistics a b c d e f (u64 (g + 1)) h i j k l m
    (set_endpoint endpoint (Nat.max (at_endpoint endpoint n) depth) n).
Definition count_fault_drop (s : BusStatistics) :=
  let '(mkBusStatistics a b c d e f g h i j k l m n) := s in
  mkBusStatistics a b c d e f g (u64 (h + 1)) i j k l m n.
Definition count_duplicate_copy (s : BusStatistics) :=
  let '(mkBusStatistics a b c d e f g h i j k l m n) := s in
  mkBusStatistics a b c d e f g h (u64 (i + 1)) j k l m n.
Definition count_corrupted (copies : nat) (s : BusStatistics) :=
  let '(mkBusStatistics a b c d e f g h i j k l m n) := s in
  mkBusStatistics a b c d e f g h i (u64 (j + Z.of_nat copies)) k l m n.
Definition count_inbound_full (s : BusStatistics) :=
  let '(mkBusStatistics a b c d e f g h i j k l m n) := s in
  mkBusStatistics a b c d e f g h i j (u64 (k + 1)) l m n.
Definition count_disconnected_drops (discarded : Z) (s : BusStatistics) :=
  let '(mkBusStatistics a b c d e f g h i j k l m n) := s in
  mkBusStatistics a b c d e f g h i j k (u64 (l + discarded)) m n.
Definition count_scheduled (depth : nat) (s : BusStatistics) :=
  let '(mkBusStatistics a b c d e f g h i j k l m n) := s in
  mkBusStatistics a b c d e f g h i j k l (Nat.max m depth) n.

Definition zero_statistics : BusStatistics :=
  mkBusStatistics 0 0 0 0 0 0 0 0 0 0 0 0 0 (mkPerEndpoint 0%nat 0%nat).

Definition valid_depth (depth : nat) : bool :=
  ((0 <? depth) && (depth <=? kMaximumQueueDepth))%nat.

Definition valid_config (config : BusConfig) : bool :=
  (kMinimumDatagramMtu <=? config.(bus_mtu))%nat &&
  (config.(bus_mtu) <=? kMaximumDatagramBytes)%nat &&
  valid_depth config.(max_scheduled_events) &&
  valid_depth config.(max_inbound_datagrams) &&
  valid_depth config.(max_fault_directives).

Definition SimulatedRadioBus_make (config : BusConfig) : SimulatedRadioBus := {|
  bus_config := config;
  bus_valid := valid_config config;
  bus_tick := 0;
  next_event_ordinal := 0;
  bus_connected :=
    if valid_config config then mkPerEndpoint true true else mkPerEndpoint false false;
  bus_closed := mkPerEndpoint false false;
  bus_inbound := mkPerEndpoint [] [];
  fault_directives := mkPerEndpoint [] [];
  scheduled_events := [];
  bus_statistics := zero_statistics |}.

Definition endpoint_connected (b : SimulatedRadioBus) (endpoint : EndpointId) : bool :=
  if negb b.(bus_valid) then false
  else
    at_endpoint endpoint b.(bus_connected) &&
    at_endpoint (other_endpoint endpoint) b.(bus_connected) &&
    negb (at_endpoint endpoint b.(bus_closed)) &&
    negb (at_endpoint (other_endpoint endpoint) b.(bus_closed)).

Definition endpoint_closed (b : SimulatedRadioBus) (endpoint : EndpointId) : bool :=
  negb b.(bus_valid) || at_endpoint endpoint b.(bus_closed).

Definition enqueue_fault (b : SimulatedRadioBus) (source : EndpointId)
    (directive : FaultDirective) : bool * SimulatedRadioBus :=
  let queue := at_endpoint source b.(fault_directives) in
  if negb b.(bus_valid) || at_endpoint source b.(bus_closed) ||
     (b.(bus_config).(max_fault_directives) <=? length queue)%nat
  then (false, b)
  else if
    negb directive.(fault_drop) &&
    (directive.(fault_duplicate) && (b.(bus_config).(max_scheduled_events) <? 2)%nat ||
     match directive.(corrupt_byte_index) with
     | Some index =>
         (b.(bus_config).(bus_mtu) <=? index)%nat || (bval directive.(corrupt_xor_mask) =? 0)
     | None => false
     end ||
     (UINT64_MAX - b.(bus_tick) <? directive.(delay_ticks)))
  then (false, b)
  else (true, with_fault_directives b
                (set_endpoint source (queue ++ [directive]) b.(fault_directives))).

Definition discard_link_data (b : SimulatedRadioBus) : SimulatedRadioBus :=
  let discarded :=
    u64 (Z.of_nat (length b.(scheduled_events)) +
         Z.of_nat (length b.(bus_inbound).(of_first)) +
         Z.of_nat (length b.(bus_inbound).(of_second))) in
  bus_count (count_disconnected_drops discarded)
    (with_bus_inbound (with_scheduled_events b []) (mkPerEndpoint [] [])).

Definition set_connected (b : SimulatedRadioBus) (endpoint : EndpointId) (connected : bool)
  : bool * SimulatedRadioBus :=
  if negb b.(bus_valid) || at_endpoint endpoint b.(bus_closed) then (false, b)
  else if Bool.eqb (at_endpoint endpoint b.(bus_connected)) connected then (true, b)
  else
    let b := with_bus_connected b (set_endpoint endpoint connected b.(bus_connected)) in
    (true, if negb connected then discard_link_data b else b).

(** The body of the loop of [deliver_due_events], the event already erased. *)
Definition deliver_event (event : ScheduledEvent) (b : SimulatedRadioBus) : SimulatedRadioBus :=
  if negb (endpoint_connected b event.(event_source)) ||
     negb (endpoint_connected b event.(event_destination))
  then bus_count (count_disconnected_drops 1) b
  else
    let inbound := at_endpoint event.(event_destination) b.(bus_inbound) in
    if (b.(bus_config).(max_inbound_datagrams) <=? length inbound)%nat
    then bus_count count_inbound_full b
    else
      let inbound := inbound ++ [event.(event_datagram)] in
      bus_count (count_delivered event.(event_destination) (length inbound))
        (with_bus_inbound b (set_endpoint event.(event_destination) inbound b.(bus_inbound))).

(** The loop; [events] are [b.(scheduled_events)]. *)
Fixpoint deliver_loop (events : list ScheduledEvent) (b : SimulatedRadioBus)
  : SimulatedRadioBus :=
  match events with
  | [] => b
  | event :: rest =>
      if event.(delivery_tick) <=? b.(bus_tick)
      then deliver_loop rest (deliver_event event (with_scheduled_events b rest))
      else b
  end.

Definition deliver_due_events (b : SimulatedRadioBus) : SimulatedRadioBus :=
  deliver_loop b.(scheduled_events) b.

Definition advance_to (b : SimulatedRadioBus) (tick : Z) : bool * SimulatedRadioBus :=
  if negb b.(bus_valid) || (tick <? b.(bus_tick)) then (false, b)
  else (true, deliver_due_events (with_bus_tick b tick)).

(** The comparison of [schedule_event]. *)
Definition event_before (candidate existing : ScheduledEvent) : bool :=
  if negb (candidate.(delivery_tick) =? existing.(delivery_tick))
  then candidate.(delivery_tick) <? existing.(delivery_tick)
  else candidate.(event_ordinal) <? existing.(event_ordinal).

(** [std::upper_bound] and [insert]: before the first event that the new one
    precedes.  The list is sorted ([bus_inv]), so the binary search of the
    library stops there. *)
Fixpoint insert_event (event : ScheduledEvent) (events : list ScheduledEvent)
  : list ScheduledEvent :=
  match events with
  | [] => [event]
  | existing :: rest =>
      if event_before event existing then event :: events
      else existing :: insert_event event rest
  end.

Definition schedule_event (event : ScheduledEvent) (b : SimulatedRadioBus)
  : SimulatedRadioBus :=
  let events := insert_event event b.(scheduled_events) in
  bus_count (count_scheduled (length events)) (with_scheduled_events b events).

(** The loop over the copies of an accepted datagram. *)
Fixpoint schedule_copies (copies : nat) (tick : Z) (source : EndpointId)
    (datagram : bytes) (b : SimulatedRadioBus) : SimulatedRadioBus :=
  match copies with
  | O => b
  | S copies =>
      let event :=
        mkScheduledEvent tick b.(next_event_ordinal) source (other_endpoint source) datagram in
      schedule_copies copies tick source datagram
        (schedule_event event (with_next_ordinal b (u64 (b.(next_event_ordinal) + 1))))
  end.

(** [datagram.bytes[index] ^= mask]. *)
Definition corrupt_byte (index : nat) (mask : byte) (datagram : bytes) : bytes :=
  <[index := to_u8 (Z.lxor (bval (byte_at datagram index)) (bval mask))]> datagram.

(** The parts of [send_from] that depend on the directive at the front of the
    queue of the sender, if any. *)
Definition directive_drops (directive : option FaultDirective) : bool :=
  match directive with Some d => d.(fault_drop) | None => false end.

Definition copy_count (directive : option FaultDirective) : nat :=
  if directive_drops directive then 0
  else match directive with
       | Some d => if d.(fault_duplicate) then 2 else 1
       | None => 1
       end.

Definition directive_refused (b : SimulatedRadioBus) (directive : option FaultDirective)
    (size : nat) : bool :=
  match directive with
  | Some d =>
      negb d.(fault_drop) &&
      (match d.(corrupt_byte_index) with
       | Some index => (size <=? index)%nat || (bval d.(corrupt_xor_mask) =? 0)
       | None => false
       end ||
       (UINT64_MAX - b.(bus_tick) <? d.(delay_ticks)))
  | None => false
  end.

Definition directive_tick (b : SimulatedRadioBus) (directive : option FaultDirective) : Z :=
  match directive with
  | Some d =>
      if d.(fault_drop) then b.(bus_tick) else u64 (b.(bus_tick) + d.(delay_ticks))
  | None => b.(bus_tick)
  end.

Definition faulted_datagram (directive : option FaultDirective) (data : bytes) : bytes :=
  match directive with
  | Some d =>
      match d.(corrupt_byte_index) with
      | Some index => corrupt_byte index d.(corrupt_xor_mask) data
      | None => data
      end
  | None => data
  end.

(** The directive is used up and the send is counted. *)
Definition count_send (directive : option FaultDirective) (s : BusStatistics)
  : BusStatistics :=
  let s := count_accepted_send s in
  if directive_drops directive then count_fault_drop s
  else
    let copies := copy_count directive in
    let s := if (copies =? 2)%nat then count_duplicate_copy s else s in
    match directive with
    | Some d =>
        match d.(corrupt_byte_index) with
        | Some _ => count_corrupted copies s
        | None => s
        end
    | None => s
    end.

Definition take_directive (b : SimulatedRadioBus) (source : EndpointId) : SimulatedRadioBus :=
  with_fault_directives b
    (set_endpoint source (tail (at_endpoint source b.(fault_directives))) b.(fault_directives)).

(** [send_from(source, data, size)]; [None] is the null pointer. *)
Definition send_from (b : SimulatedRadioBus) (source : EndpointId) (data : option bytes)
  : DatagramSendStatus * SimulatedRadioBus :=
  let invalid := (SendStatus_Invalid, bus_count count_invalid_send b) in
  match data with
  | None => invalid
  | Some data =>
      let size := length data in
      if negb b.(bus_valid) || (size =? 0)%nat || (b.(bus_config).(bus_mtu) <? size)%nat ||
         (kMaximumDatagramBytes <? size)%nat
      then invalid
      else if at_endpoint source b.(bus_closed)
      then (SendStatus_Closed, bus_count count_closed_send b)
      else if negb (endpoint_connected b source)
      then (SendStatus_Disconnected, bus_count count_disconnected_send b)
      else
        let directive := head (at_endpoint source b.(fault_directives)) in
        let copies := copy_count directive in
        let tick := directive_tick b directive in
        if directive_refused b directive size then invalid
        else if u64 (Z.of_nat b.(bus_config).(max_scheduled_events) -
                     Z.of_nat (length b.(scheduled_events))) <? Z.of_nat copies
        then (SendStatus_WouldBlock, bus_count count_would_block_send b)
        else if UINT64_MAX - b.(next_event_ordinal) <? Z.of_nat copies then invalid
        else
          let b := bus_count (count_send directive) (take_directive b source) in
          if directive_drops directive then (SendStatus_Accepted, b)
          else
            (SendStatus_Accepted,
             deliver_due_events
               (schedule_copies copies tick source (faulted_datagram directive data) b))
  end.

(** [receive_for(destination, data, capacity)]; [has_data] is [data != nullptr]. *)
Definition receive_for (b : SimulatedRadioBus) (destination : EndpointId) (has_data : bool)
    (capacity : nat) : DatagramReceiveResult * SimulatedRadioBus :=
  if negb b.(bus_valid) || negb has_data || (capacity =? 0)%nat
  then (mkDatagramReceiveResult ReceiveStatus_Invalid [], b)
  else if at_endpoint destination b.(bus_closed)
  then (mkDatagramReceiveResult ReceiveStatus_Closed [], b)
  else if negb (endpoint_connected b destination)
  then (mkDatagramReceiveResult ReceiveStatus_Disconnected [], b)
  else
    match at_endpoint destination b.(bus_inbound) with
    | [] => (mkDatagramReceiveResult ReceiveStatus_WouldBlock [], b)
    | datagram :: rest =>
        if (capacity <? length datagram)%nat
        then (mkDatagramReceiveResult ReceiveStatus_Invalid [], b)
        else
          (mkDatagramReceiveResult ReceiveStatus_Received datagram,
           bus_count count_received_datagram
             (with_bus_inbound b (set_endpoint destination rest b.(bus_inbound))))
    end.

Definition close_endpoint (b : SimulatedRadioBus) (endpoint : EndpointId)
  : SimulatedRadioBus :=
  if negb b.(bus_valid) || at_endpoint endpoint b.(bus_closed) then b
  else
    let b := with_bus_closed b (set_endpoint endpoint true b.(bus_closed)) in
    let b := with_bus_connected b (set_endpoint endpoint false b.(bus_connected)) in
    let b := with_fault_directives b (set_endpoint endpoint [] b.(fault_directives)) in
    discard_link_data b.

(** *** The readers *)

Definition scheduled_event_count (b : SimulatedRadioBus) : nat := length b.(scheduled_events).
Definition inbound_datagram_count (b : SimulatedRadioBus) (endpoint : EndpointId) : nat :=
  length (at_endpoint endpoint b.(bus_inbound)).
Definition fault_directive_count (b : SimulatedRadioBus) (endpoint : EndpointId) : nat :=
  length (at_endpoint endpoint b.(fault_directives)).

(** *** An endpoint is a datagram transport over the bus it belongs to *)

Record Endpoint := mkEndpoint { endpoint_bus : SimulatedRadioBus; endpoint_id : EndpointId }.

Definition endpoint_maximum_datagram_size (e : Endpoint) : nat :=
  if e.(endpoint_bus).(bus_valid) then e.(endpoint_bus).(bus_config).(bus_mtu) else 0.

Definition endpoint_try_send (e : Endpoint) (data : bytes) : DatagramSendStatus * Endpoint :=
  let '(status, b) := send_from e.(endpoint_bus) e.(endpoint_id) (Some data) in
  (status, mkEndpoint b e.(endpoint_id)).

Definition endpoint_try_receive (e : Endpoint) (capacity : nat)
  : DatagramReceiveResult * Endpoint :=
  let '(result, b) := receive_for e.(endpoint_bus) e.(endpoint_id) true capacity in
  (result, mkEndpoint b e.(endpoint_id)).

#[export] Instance endpoint_transport : IDatagramTransport Endpoint := {
  maximum_datagram_size := endpoint_maximum_datagram_size;
  try_send := endpoint_try_send;
  try_receive := endpoint_try_receive;
  connected e := endpoint_connected e.(endpoint_bus) e.(endpoint_id);
  closed e := endpoint_closed e.(endpoint_bus) e.(endpoint_id);
  close e := mkEndpoint (close_endpoint e.(endpoint_bus) e.(endpoint_id)) e.(endpoint_id)
}.

(** *** Uses of a bus, with what was accepted and what was handed out *)

Inductive BusOp :=
| Bus_fault (source : EndpointId) (directive : FaultDirective)
| Bus_link (endpoint : EndpointId) (connected : bool)
| Bus_advance (tick : Z)
| Bus_send (source : EndpointId) (data : option bytes)
| Bus_receive (destination : EndpointId) (has_data : bool) (capacity : nat)
| Bus_close (endpoint : EndpointId).

Record BusLog := mkBusLog {
  sent : PerEndpoint (list bytes);
  heard : PerEndpoint (list bytes)
}.

Definition log_append (endpoint : EndpointId) (data : bytes) (log : PerEndpoint (list bytes)) :=
  set_endpoint endpoint (at_endpoint endpoint log ++ [data]) log.

Definition bus_step (s : SimulatedRadioBus * BusLog) (op : BusOp)
  : SimulatedRadioBus * BusLog :=
  let '(b, log) := s in
  match op with
  | Bus_fault source directive => (snd (enqueue_fault b source directive), log)
  | Bus_link endpoint c => (snd (set_connected b endpoint c), log)
  | Bus_advance tick => (snd (advance_to b tick), log)
  | Bus_send source data =>
      let '(status, b) := send_from b source data in
      match status, data with
      | SendStatus_Accepted, Some data =>
          (b, mkBusLog (log_append source data log.(sent)) log.(heard))
      | _, _ => (b, log)
      end
  | Bus_receive destination has_data capacity =>
      let '(result, b) := receive_for b destination has_data capacity in
      if decide (result.(receive_status) = ReceiveStatus_Received)
      then (b, mkBusLog log.(sent) (log_append destination result.(received_bytes) log.(heard)))
      else (b, log)
  | Bus_close endpoint => (close_endpoint b endpoint, log)
  end.

Definition bus_run (config : BusConfig) (ops : list BusOp) : SimulatedRadioBus * BusLog :=
  foldl bus_step
    (SimulatedRadioBus_make config,
     mkBusLog (mkPerEndpoint [] []) (mkPerEndpoint [] [])) ops.

Definition is_fault (op : BusOp) : bool :=
  match op with Bus_fault _ _ => true | _ => false end.

(** ** The state of a bus *)

Definition queued_datagrams (b : SimulatedRadioBus) : Z :=
  Z.of_nat (length b.(bus_inbound).(of_first)) + Z.of_nat (length b.(bus_inbound).(of_second)).

Definition link_empty (b : SimulatedRadioBus) : Prop :=
  b.(scheduled_events) = [] /\ b.(bus_inbound) = mkPerEndpoint [] [].

(** Every copy ever scheduled is in exactly one place. *)
Definition copies_accounted (b : SimulatedRadioBus) : Prop :=
  b.(next_event_ordinal) =
    b.(bus_statistics).(bus_received_datagrams) + queued_datagrams b +
    Z.of_nat (length b.(scheduled_events)) +
    b.(bus_statistics).(inbound_full_drops) + b.(bus_statistics).(disconnected_drops) /\
  0 <= b.(bus_statistics).(bus_received_datagrams) /\
  0 <= b.(bus_statistics).(inbound_full_drops) /\
  0 <= b.(bus_statistics).(disconnected_drops) /\
  b.(next_event_ordinal) <= UINT64_MAX.

(** [owed] copies of accepted sends are not scheduled yet. *)
Definition sends_accounted (owed : Z) (b : SimulatedRadioBus) : Prop :=
  u64 (b.(bus_statistics).(accepted_sends) + b.(bus_statistics).(duplicate_copies)) =
  u64 (b.(bus_statistics).(fault_drops) + b.(next_event_ordinal) + owed).

Definition within_limits (b : SimulatedRadioBus) : Prop :=
  (length b.(scheduled_events) <= b.(bus_statistics).(scheduled_high_watermark)
     <= b.(bus_config).(max_scheduled_events))%nat /\
  (forall e, (length (at_endpoint e b.(bus_inbound)) <=
                at_endpoint e b.(bus_statistics).(inbound_high_watermarks)
                <= b.(bus_config).(max_inbound_datagrams))%nat) /\
  (forall e, (length (at_endpoint e b.(fault_directives)) <=
                b.(bus_config).(max_fault_directives))%nat).

Definition schedule_sorted (b : SimulatedRadioBus) : Prop :=
  StronglySorted (fun x y => event_before x y = true) b.(scheduled_events) /\
  Forall (fun x => x.(event_ordinal) < b.(next_event_ordinal)) b.(scheduled_events).

(** Every datagram in flight has a property, by its sender. *)
Definition in_flight (P : EndpointId -> bytes -> Prop) (b : SimulatedRadioBus) : Prop :=
  Forall (fun x => x.(event_destination) = other_endpoint x.(event_source) /\
                   P x.(event_source) x.(event_datagram)) b.(scheduled_events) /\
  forall e, Forall (P (other_endpoint e)) (at_endpoint e b.(bus_inbound)).

Definition nothing_due (b : SimulatedRadioBus) : Prop :=
  Forall (fun x => b.(bus_tick) < x.(delivery_tick)) b.(scheduled_events).

Record bus_core (P : EndpointId -> bytes -> Prop) (b : SimulatedRadioBus) : Prop := {
  core_config : b.(bus_valid) = valid_config b.(bus_config);
  core_copies : copies_accounted b;
  core_limits : within_limits b;
  core_sorted : schedule_sorted b;
  core_flight : in_flight P b
}.

Record bus_inv (P : EndpointId -> bytes -> Prop) (b : SimulatedRadioBus) : Prop := {
  inv_core : bus_core P b;
  inv_sends : sends_accounted 0 b;
  inv_down : endpoint_connected b First = false -> link_empty b;
  inv_due : nothing_due b
}.

(** *** Arrays of two *)

Lemma other_other e : other_endpoint (other_endpoint e) = e.
Proof. by destruct e. Qed.

Lemma at_set_endpoint {A} e e' (v : A) w :
  at_endpoint e (set_endpoint e' v w) = if decide (e = e') then v else at_endpoint e w.
Proof. by destruct e, e'. Qed.

Lemma endpoint_connected_other b e :
  endpoint_connected b (other_endpoint e) = endpoint_connected b e.
Proof.
  unfold endpoint_connected. destruct b as [? [] ? ? [[] []] [[] []]]; by destruct e.
Qed.

Lemma endpoint_connected_first b e : endpoint_connected b e = endpoint_connected b First.
Proof. destruct e; [done|]. apply (endpoint_connected_other b First). Qed.

Lemma valid_config_limits c :
  valid_config c = true ->
  (48 <= c.(bus_mtu) <= 255)%nat /\
  (0 < c.(max_scheduled_events) <= 4096)%nat /\ (0 < c.(max_inbound_datagrams) <= 4096)%nat /\ (0 < c.(max_fault_directives) <= 4096)%nat.
Proof.
  unfold valid_config, valid_depth, kMinimumDatagramMtu, kMaximumDatagramBytes, kMaximumQueueDepth.
  intros. reflect_bools. lia.
Qed.

Lemma u64_small z : 0 <= z <= UINT64_MAX -> u64 z = z.
Proof. intros. apply Z.mod_small. unfold UINT64_MAX in *. lia. Qed.

Lemma u64_add_l a b : u64 (u64 a + b) = u64 (a + b).
Proof. apply Zplus_mod_idemp_l. Qed.

Lemma u64_add_r a b : u64 (a + u64 b) = u64 (a + b).
Proof. apply Zplus_mod_idemp_r. Qed.

(** *** The order of the schedule *)

#[local] Abbreviation sorted := (StronglySorted (fun x y => event_before x y = true)).

Lemma event_before_trans x y z :
  event_before x y = true -> event_before y z = true -> event_before x z = true.
Proof. unfold event_before. repeat split_if; reflect_bools; lia. Qed.

Lemma event_before_total x y :
  event_before x y = false -> x.(event_ordinal) <> y.(event_ordinal) -> event_before y x = true.
Proof. unfold event_before. repeat split_if; reflect_bools; intros; lia. Qed.

Lemma event_before_tick x y : event_before x y = true -> x.(delivery_tick) <= y.(delivery_tick).
Proof. unfold event_before. repeat split_if; reflect_bools; lia. Qed.

Lemma insert_event_Permutation x l : insert_event x l ≡ₚ x :: l.
Proof.
  induction l as [|y l IH]; cbn; [done|]. split_if; [done|]. rewrite IH. constructor.
Qed.

Lemma length_insert_event x l : length (insert_event x l) = S (length l).
Proof. by rewrite insert_event_Permutation. Qed.

Lemma insert_event_sorted x l :
  sorted l -> Forall (fun y => y.(event_ordinal) < x.(event_ordinal)) l ->
  sorted (insert_event x l).
Proof.
  induction 1 as [|y l Hs IH Hy]; intros Hl; [by repeat constructor|]. cbn.
  inversion_clear Hl as [|?? Hlt Hl']. destruct (event_before x y) eqn:Hx.
  - constructor; [by constructor|]. constructor; [done|].
    eapply Forall_impl; [exact Hy|]. cbn. eauto using event_before_trans.
  - constructor; [by apply IH|]. rewrite insert_event_Permutation. constructor; [|done].
    apply event_before_total; [done|lia].
Qed.

(** *** Each change keeps the account *)

(** The fields the invariant reads: two buses that agree on them share it. *)
Definition same_account (b b' : SimulatedRadioBus) : Prop :=
  b'.(bus_config) = b.(bus_config) /\ b'.(bus_valid) = b.(bus_valid) /\
  b'.(next_event_ordinal) = b.(next_event_ordinal) /\
  b'.(bus_inbound) = b.(bus_inbound) /\ b'.(scheduled_events) = b.(scheduled_events) /\
  (forall e, (length (at_endpoint e b'.(fault_directives)) <=
                Nat.max (length (at_endpoint e b.(fault_directives)))
                  b.(bus_config).(max_fault_directives))%nat) /\
  let s := b.(bus_statistics) in
  let s' := b'.(bus_statistics) in
  s'.(bus_received_datagrams) = s.(bus_received_datagrams) /\
  s'.(inbound_full_drops) = s.(inbound_full_drops) /\
  s'.(disconnected_drops) = s.(disconnected_drops) /\
  s'.(scheduled_high_watermark) = s.(scheduled_high_watermark) /\
  s'.(inbound_high_watermarks) = s.(inbound_high_watermarks).

#[local] Abbreviation same f b b' := (f b' = f b) (only parsing).

Lemma forall_endpoint (Q : EndpointId -> Prop) : (forall e, Q e) <-> Q First /\ Q Second.
Proof. split; [auto|]. by intros [? ?] []. Qed.

Ltac open_core :=
  repeat match goal with
  | H : bus_core _ _ |- _ => destruct H as [?Hcfg ?Hled ?Hlim ?Hsort ?Hfl]
  end;
  unfold copies_accounted, within_limits, schedule_sorted, in_flight, queued_datagrams in *;
  rewrite ?forall_endpoint in *; destruct_and?.

Ltac close_core :=
  split; unfold copies_accounted, within_limits, schedule_sorted, in_flight, queued_datagrams;
  rewrite ?forall_endpoint.

Lemma bus_core_same P b b' : same_account b b' -> bus_core P b -> bus_core P b'.
Proof.
  intros (Hc & Hv & Ho & Hi & Hs & Hf & Hr & Hfull & Hd & Hw & Hiw) Hcore.
  rewrite forall_endpoint in Hf. open_core. close_core;
    rewrite ?Hc, ?Hv, ?Ho, ?Hi, ?Hs, ?Hr, ?Hfull, ?Hd, ?Hw, ?Hiw; [done|lia| |done|done].
  split_and!; lia.
Qed.

Ltac same_account :=
  match goal with b : SimulatedRadioBus |- _ => destruct b as [????????? []] end;
  unfold same_account; cbn; split_and!; try done; intros; lia.

Lemma deliver_event_core P b x rest :
  bus_core P b -> b.(scheduled_events) = x :: rest ->
  bus_core P (deliver_event x (with_scheduled_events b rest)).
Proof.
  intros Hcore He. open_core. rewrite He in *. cbn [length] in *.
  repeat match goal with
  | H : StronglySorted _ (_ :: _) |- _ => apply StronglySorted_inv in H as [? _]
  | H : Forall _ (_ :: _) |- _ => apply Forall_cons in H as [? ?]
  end.
  destruct b as [cfg v t o c cl [i1 i2] [f1 f2] ev [? ? ? ? ? r ? ? ? ? full disc wm [w1 w2]]].
  assert (forall z, 0 <= z < o -> u64 (z + 1) = z + 1) as Hu
    by (intros; cbn in *; apply u64_small; lia).
  destruct x as [dt od [] dst dg]; cbn in *; destruct_and?; subst dst; unfold deliver_event; cbn;
    repeat split_if; reflect_bools; close_core; cbn in *; rewrite ?Hu, ?length_app by lia; cbn;
    split_and?; try done; try lia; try (apply Forall_app; split; [done|by apply Forall_singleton]).
Qed.

Lemma discard_link_data_core P b :
  bus_core P b -> b.(bus_valid) = true ->
  bus_core P (discard_link_data b) /\ link_empty (discard_link_data b).
Proof.
  intros Hcore Hv. open_core. pose proof (valid_config_limits _ (eq_trans (eq_sym Hcfg) Hv)).
  destruct b as [cfg v t o c cl [i1 i2] [f1 f2] ev [? ? ? ? ? r ? ? ? ? full disc wm [w1 w2]]].
  cbn in *. split; [|done]. unfold discard_link_data.
  close_core; cbn; rewrite ?u64_add_r; rewrite ?u64_small by (unfold UINT64_MAX in *; lia);
    split_and?; done || lia || constructor.
Qed.

Lemma schedule_event_core P b tick source data :
  bus_core P b -> P source data -> b.(next_event_ordinal) < UINT64_MAX ->
  (length b.(scheduled_events) < b.(bus_config).(max_scheduled_events))%nat ->
  bus_core P
    (schedule_event
       (mkScheduledEvent tick b.(next_event_ordinal) source (other_endpoint source) data)
       (with_next_ordinal b (u64 (b.(next_event_ordinal) + 1)))).
Proof.
  intros Hcore HP Hmax Hlen. open_core.
  destruct b as [cfg v t o c cl [i1 i2] [f1 f2] ev [? ? ? ? ? r ? ? ? ? full disc wm [w1 w2]]].
  cbn in *. assert (u64 (o + 1) = o + 1) as Hu by (apply u64_small; lia).
  unfold schedule_event. close_core; cbn; rewrite ?Hu, ?length_insert_event;
    split_and?; try done; try lia.
  - by apply insert_event_sorted.
  - rewrite insert_event_Permutation. constructor; cbn; [lia|].
    match goal with Hq : Forall (fun x => _ < o) ev |- _ => eapply Forall_impl; [exact Hq|] end.
    cbn. intros; lia.
  - rewrite insert_event_Permutation. by constructor.
Qed.

(** *** Loops *)

Lemma deliver_loop_core P events b :
  bus_core P b -> b.(scheduled_events) = events ->
  bus_core P (deliver_loop events b).
Proof.
  revert b. induction events as [|x rest IH]; intros b Hb He; cbn [deliver_loop]; [done|].
  split_if; [|done]. apply IH; [by apply deliver_event_core|].
  destruct b. unfold deliver_event. by repeat split_if.
Qed.

(** A delivery changes the inbound queues and the counters of deliveries. *)
Definition same_link (b b' : SimulatedRadioBus) : Prop :=
  b'.(bus_config) = b.(bus_config) /\ b'.(bus_valid) = b.(bus_valid) /\
  b'.(bus_tick) = b.(bus_tick) /\ b'.(next_event_ordinal) = b.(next_event_ordinal) /\
  b'.(bus_connected) = b.(bus_connected) /\ b'.(bus_closed) = b.(bus_closed) /\
  b'.(fault_directives) = b.(fault_directives) /\
  b'.(bus_statistics).(accepted_sends) = b.(bus_statistics).(accepted_sends) /\
  b'.(bus_statistics).(fault_drops) = b.(bus_statistics).(fault_drops) /\
  b'.(bus_statistics).(duplicate_copies) = b.(bus_statistics).(duplicate_copies) /\
  b'.(bus_statistics).(bus_received_datagrams) = b.(bus_statistics).(bus_received_datagrams).

#[local] Instance same_link_po : PreOrder same_link.
Proof.
  split; [by intros b; unfold same_link|].
  unfold same_link. intros b1 b2 b3 ? ?. destruct_and?. split_and!; congruence.
Qed.

Lemma deliver_event_link x rest b : same_link b (deliver_event x (with_scheduled_events b rest)).
Proof.
  destruct b as [????????? []]. unfold deliver_event, same_link.
  repeat split_if; cbn; by split_and!.
Qed.

Lemma deliver_event_scheduled x rest b :
  scheduled_events (deliver_event x (with_scheduled_events b rest)) = rest.
Proof. destruct b. unfold deliver_event. by repeat split_if. Qed.

Lemma deliver_loop_link events b : same_link b (deliver_loop events b).
Proof.
  revert b. induction events as [|x rest IH]; intros b; cbn [deliver_loop]; [done|].
  split_if; [|done]. etransitivity; [apply (deliver_event_link x rest)|apply IH].
Qed.

Lemma deliver_loop_due P events b :
  bus_core P b -> b.(scheduled_events) = events -> nothing_due (deliver_loop events b).
Proof.
  revert b. induction events as [|x rest IH]; intros b Hb He; cbn [deliver_loop].
  { unfold nothing_due. by rewrite He. }
  split_if; [apply IH; [by apply deliver_event_core|apply deliver_event_scheduled]|].
  unfold nothing_due. rewrite He. destruct Hb as [_ _ _ [Hs _] _]. rewrite He in Hs.
  apply StronglySorted_inv in Hs as [_ Hx]. reflect_bools. constructor; [lia|].
  eapply Forall_impl; [exact Hx|]. intros y Hy%event_before_tick. lia.
Qed.

Lemma schedule_copies_link n tick source data b :
  let b' := schedule_copies n tick source data b in
  b'.(bus_config) = b.(bus_config) /\ b'.(bus_valid) = b.(bus_valid) /\
  b'.(bus_tick) = b.(bus_tick) /\
  b'.(bus_connected) = b.(bus_connected) /\ b'.(bus_closed) = b.(bus_closed) /\
  b'.(bus_inbound) = b.(bus_inbound) /\
  b'.(fault_directives) = b.(fault_directives) /\
  b'.(bus_statistics).(accepted_sends) = b.(bus_statistics).(accepted_sends) /\
  b'.(bus_statistics).(fault_drops) = b.(bus_statistics).(fault_drops) /\
  b'.(bus_statistics).(duplicate_copies) = b.(bus_statistics).(duplicate_copies) /\
  b'.(bus_statistics).(bus_received_datagrams) = b.(bus_statistics).(bus_received_datagrams).
Proof.
  revert b. induction n as [|n IH]; intros b; cbn [schedule_copies]; [by cbn; split_and!|].
  cbn zeta in *. destruct (IH (schedule_event (mkScheduledEvent tick (next_event_ordinal b) source
    (other_endpoint source) data) (with_next_ordinal b (u64 (next_event_ordinal b + 1)))))
    as (-> & -> & -> & -> & -> & -> & -> & -> & -> & -> & ->).
  destruct b as [????????? []]. cbn. by split_and!.
Qed.

Lemma schedule_copies_core P n tick source data b :
  bus_core P b -> P source data ->
  b.(next_event_ordinal) + Z.of_nat n <= UINT64_MAX ->
  (length b.(scheduled_events) + n <= b.(bus_config).(max_scheduled_events))%nat ->
  bus_core P (schedule_copies n tick source data b) /\
  (schedule_copies n tick source data b).(next_event_ordinal) =
    b.(next_event_ordinal) + Z.of_nat n.
Proof.
  revert b. induction n as [|n IH]; intros b Hb HP Ho Hn; cbn [schedule_copies].
  { split; [done|lia]. }
  pose proof Hb as [_ (Hsum & ?) _ _ _]. unfold queued_datagrams in Hsum.
  edestruct IH as [IH1 IH2]; [apply schedule_event_core; [exact Hb|exact HP|lia|lia]|done|..].
  - destruct b as [????????? []]. cbn in *. rewrite u64_small; lia.
  - destruct b as [????????? []]. cbn in *. rewrite length_insert_event. lia.
  - split; [done|]. rewrite IH2. destruct b as [????????? []]. cbn in *. rewrite u64_small; lia.
Qed.

(** *** Sending *)

(** The datagram as sent, or with one byte changed. *)
Definition damaged (s d : bytes) : Prop :=
  d = s \/ exists i x, (i < length s)%nat /\ x <> byte_at s i /\ d = <[i := x]> s.

Lemma corrupt_byte_damaged i mask s :
  (i < length s)%nat -> bval mask <> 0 -> damaged s (corrupt_byte i mask s).
Proof.
  intros Hi Hm. right. exists i, (to_u8 (Z.lxor (bval (byte_at s i)) (bval mask))).
  split_and!; [done| |done]. intros Hx%(f_equal bval).
  pose proof (bval_range (byte_at s i)). pose proof (bval_range mask).
  rewrite bval_to_u8 in Hx. rewrite Z.mod_small in Hx.
  - apply Hm. apply (f_equal (Z.lxor (bval (byte_at s i)))) in Hx.
    by rewrite <- Z.lxor_assoc, Z.lxor_nilpotent, Z.lxor_0_l in Hx.
  - apply (lxor_range _ _ 8); lia.
Qed.

(** What an accepted send leaves to be scheduled: [n] copies of [datagram]. *)
Record send_taken (b : SimulatedRadioBus) (source : EndpointId) (data : bytes) (n : nat)
    (tick : Z) (datagram : bytes) (b' : SimulatedRadioBus) : Prop := {
  taken_account : same_account b b';
  taken_tick : b'.(bus_tick) = b.(bus_tick);
  taken_link e : endpoint_connected b' e = endpoint_connected b e;
  taken_up : endpoint_connected b source = true;
  taken_size : (0 < length data <= b.(bus_config).(bus_mtu))%nat;
  taken_damaged : (0 < n)%nat -> damaged data datagram;
  taken_room : (length b.(scheduled_events) + n <= b.(bus_config).(max_scheduled_events))%nat;
  taken_ordinal : b.(next_event_ordinal) + Z.of_nat n <= UINT64_MAX;
  taken_counted :
    b'.(bus_statistics).(accepted_sends) = u64 (b.(bus_statistics).(accepted_sends) + 1);
  taken_owed : sends_accounted 0 b -> sends_accounted (Z.of_nat n) b';
  taken_plain : at_endpoint source b.(fault_directives) = [] ->
    n = 1%nat /\ tick = b.(bus_tick) /\ datagram = data /\
    b'.(fault_directives) = b.(fault_directives)
}.

Lemma deliver_nothing_due b : nothing_due b -> deliver_due_events b = b.
Proof.
  unfold nothing_due, deliver_due_events. destruct (scheduled_events b) as [|x rest]; [done|].
  intros [Hx _]%Forall_cons. cbn. by rewrite (proj2 (Z.leb_gt _ _) Hx).
Qed.

Lemma length_tail_le {A} (l : list A) : (length (tail l) <= length l)%nat.
Proof. destruct l; cbn; lia. Qed.

Lemma same_account_send directive source b :
  same_account b (bus_count (count_send directive) (take_directive b source)).
Proof.
  destruct b as [???????[f1 f2]? []].
  pose proof (length_tail_le f1). pose proof (length_tail_le f2).
  unfold same_account, count_send, take_directive; cbn.
  rewrite forall_endpoint.
  destruct source, directive as [[[] [] [] ? ?]|]; cbn;
    split_and!; done || lia.
Qed.

Lemma count_send_owed directive source b :
  sends_accounted 0 b ->
  sends_accounted (Z.of_nat (copy_count directive))
    (bus_count (count_send directive) (take_directive b source)).
Proof.
  destruct b as [? ? ? o ? ? ? ? ? [acc ? ? ? ? ? ? drops dup ? ? ? ? ?]].
  unfold sends_accounted, count_send, take_directive. cbn. rewrite Z.add_0_r. intros Hs.
  destruct directive as [[[] [] [] ? ?]|]; cbn; unfold u64 in *; zdiv_lia.
Qed.

(** The branch that answers invalid. *)
Ltac answer_invalid :=
  left; eexists _, _; split; [reflexivity|]; split; [done|]; by intros [].

Lemma send_from_cases P b source data :
  bus_inv P b ->
  (exists status f, send_from b source data = (status, bus_count f b) /\
     status <> SendStatus_Accepted /\ forall s,
       bus_received_datagrams (f s) = bus_received_datagrams s /\
       inbound_full_drops (f s) = inbound_full_drops s /\
       disconnected_drops (f s) = disconnected_drops s /\
       scheduled_high_watermark (f s) = scheduled_high_watermark s /\
       inbound_high_watermarks (f s) = inbound_high_watermarks s /\
       accepted_sends (f s) = accepted_sends s /\ fault_drops (f s) = fault_drops s /\
       duplicate_copies (f s) = duplicate_copies s) \/
  (exists d n tick datagram b',
     data = Some d /\ send_taken b source d n tick datagram b' /\
     send_from b source data =
       (SendStatus_Accepted, deliver_due_events (schedule_copies n tick source datagram b'))).
Proof.
  intros [[Hcfg Hled Hlim _ _] _ _ Hdue]. unfold send_from.
  destruct data as [d|]; [|answer_invalid].
  destruct (_ || _) eqn:Hsize; [answer_invalid|].
  destruct (at_endpoint source (bus_closed b)) eqn:Hcl; [answer_invalid|].
  destruct (negb (endpoint_connected b source)) eqn:Hup; [answer_invalid|]. cbn zeta.
  set (directive := head _).
  destruct (directive_refused _ _ _) eqn:Hrefused; [answer_invalid|].
  destruct (u64 _ <? _) eqn:Hroom; [answer_invalid|].
  destruct (UINT64_MAX - _ <? _) eqn:Hord; [answer_invalid|].
  right. exists d, (copy_count directive), (directive_tick b directive),
    (faulted_datagram directive d),
    (bus_count (count_send directive) (take_directive b source)).
  reflect_bools. destruct Hlim as ([? ?] & _). rewrite Hcfg in *.
  destruct (valid_config_limits (bus_config b)) as (? & ? & _); [done|].
  rewrite u64_small in Hroom by (unfold UINT64_MAX; lia).
  split; [done|]. split; [split|].
  - apply same_account_send.
  - by destruct b.
  - by destruct b.
  - done.
  - lia.
  - intros Hn. unfold directive_refused, faulted_datagram, copy_count in *.
    destruct directive as [[[] dup [i|] mask ?]|]; cbn in *; try lia; [|by left..].
    reflect_bools. apply corrupt_byte_damaged; lia.
  - lia.
  - lia.
  - destruct b as [????????? []]. unfold count_send. cbn.
    by destruct directive as [[[] [] [] ? ?]|].
  - apply count_send_owed.
  - intros Hnone. subst directive. rewrite Hnone. cbn. split_and!; [done..|].
    destruct b as [???????[]? []], source; cbn in *; by subst.
  - destruct (directive_drops directive) eqn:Hdrop; [|done].
    unfold copy_count. rewrite Hdrop. cbn. by rewrite deliver_nothing_due by (by destruct b).
Qed.

(** *** The operations *)

Lemma bus_core_mono (P Q : EndpointId -> bytes -> Prop) b :
  (forall e d, P e d -> Q e d) -> bus_core P b -> bus_core Q b.
Proof.
  intros Hpq [? ? ? ? [Hs Hi]]. split; [done..|split].
  - eapply Forall_impl; [exact Hs|]. intros ? []; auto.
  - intros e. eapply Forall_impl; [apply Hi|]. auto.
Qed.

Lemma bus_inv_mono (P Q : EndpointId -> bytes -> Prop) b :
  (forall e d, P e d -> Q e d) -> bus_inv P b -> bus_inv Q b.
Proof. intros Hpq []. split; eauto using bus_core_mono. Qed.

Lemma bus_make_inv P config : bus_inv P (SimulatedRadioBus_make config).
Proof.
  split; [|done|done|constructor].
  close_core; cbn; split_and?; (done || lia || constructor).
Qed.

Lemma link_empty_core_due b : link_empty b -> nothing_due b.
Proof. unfold nothing_due. intros [-> _]. constructor. Qed.

Lemma enqueue_fault_inv P b source d : bus_inv P b -> bus_inv P (snd (enqueue_fault b source d)).
Proof.
  intros [Hc Hs Hd Ht]. unfold enqueue_fault. destruct (_ || _) eqn:Hfull; [done|].
  split_if; [done|]. reflect_bools.
  destruct b as [?? ????? [f1 f2] ??]. cbn in *. split; try done. cbn.
  eapply bus_core_same; [|exact Hc]. unfold same_account. cbn. rewrite forall_endpoint.
  split_and!; try done; destruct source; cbn in *; rewrite ?length_app; cbn; lia.
Qed.

Lemma discard_link_data_inv P b :
  bus_core P b -> sends_accounted 0 b -> b.(bus_valid) = true ->
  bus_inv P (discard_link_data b).
Proof.
  intros Hc Hs Hv. destruct (discard_link_data_core P b Hc Hv) as [Hc' He].
  split; [done| |done|by apply link_empty_core_due]. by destruct b as [????????? []].
Qed.

Lemma set_connected_inv P b e c : bus_inv P b -> bus_inv P (snd (set_connected b e c)).
Proof.
  intros [Hc Hs Hd Ht]. unfold set_connected. split_if; [done|]. split_if; [done|]. cbn.
  reflect_bools.
  assert (bus_core P (with_bus_connected b (set_endpoint e c (bus_connected b)))) as Hc'.
  { eapply bus_core_same; [|exact Hc]. same_account. }
  destruct c; cbn.
  - split; [done|by destruct b| |by destruct b]. intros _.
    enough (link_empty b) by (by destruct b). apply Hd. rewrite <- (endpoint_connected_first b e).
    unfold endpoint_connected. destruct (negb _); [done|].
    by destruct (at_endpoint e (bus_connected b)).
  - apply discard_link_data_inv; [done|by destruct b|by destruct b].
Qed.

Lemma close_endpoint_inv P b e : bus_inv P b -> bus_inv P (close_endpoint b e).
Proof.
  intros [Hc Hs Hd Ht]. unfold close_endpoint. split_if; [done|]. cbn zeta. reflect_bools.
  apply discard_link_data_inv; [|by destruct b|by destruct b].
  eapply bus_core_same; [|exact Hc]. destruct b as [???????[f1 f2]? []].
  unfold same_account. cbn. rewrite forall_endpoint.
  split_and!; try done; destruct e; cbn; lia.
Qed.

Lemma deliver_due_inv P b :
  bus_core P b -> sends_accounted 0 b ->
  (endpoint_connected b First = false -> link_empty b) -> bus_inv P (deliver_due_events b).
Proof.
  intros Hc Hs Hd. destruct (deliver_loop_link b.(scheduled_events) b)
    as (? & Hv & ? & Hord & Hcon & Hcl & ? & Ha & Hf & Hdup & _).
  split; [by apply deliver_loop_core| | |by eapply deliver_loop_due].
  - unfold sends_accounted, deliver_due_events. by rewrite Ha, Hf, Hdup, Hord.
  - unfold endpoint_connected. unfold deliver_due_events. rewrite Hv, Hcon, Hcl.
    intros He. destruct (Hd He) as [He1 He2]. unfold deliver_loop. by rewrite He1.
Qed.

Lemma advance_to_inv P b tick : bus_inv P b -> bus_inv P (snd (advance_to b tick)).
Proof.
  intros [Hc Hs Hd Ht]. unfold advance_to. split_if; [done|]. cbn.
  apply deliver_due_inv; [|by destruct b..].
  eapply bus_core_same; [|exact Hc]. same_account.
Qed.

Lemma send_from_inv P b source data status b' :
  bus_inv P b -> send_from b source data = (status, b') ->
  (forall d d', status = SendStatus_Accepted -> data = Some d ->
     (0 < length d <= b.(bus_config).(bus_mtu))%nat -> damaged d d' -> P source d') ->
  bus_inv P b' /\ b'.(bus_config) = b.(bus_config) /\
  b'.(bus_statistics).(bus_received_datagrams) = b.(bus_statistics).(bus_received_datagrams) /\
  (status <> SendStatus_Accepted ->
     b'.(bus_statistics).(accepted_sends) = b.(bus_statistics).(accepted_sends)) /\
  (status = SendStatus_Accepted ->
     b'.(bus_statistics).(accepted_sends) = u64 (b.(bus_statistics).(accepted_sends) + 1) /\
     exists d, data = Some d /\ (0 < length d <= b.(bus_config).(bus_mtu))%nat).
Proof.
  intros Hb Hsend HP.
  destruct (send_from_cases P b source data Hb)
    as [(st & f & Heq & Hst & Hf)|(d & n & tick & dg & b1 & -> & Ht & Heq)];
    rewrite Heq in Hsend; simplify_eq.
  - specialize (Hf (bus_statistics b)). destruct Hb as [Hc Hs Hd Hn].
    destruct b as [?????????s]. cbn in *. destruct_and?.
    split_and!; try done. split; [|..|done|done].
    + eapply bus_core_same; [|exact Hc]. unfold same_account. cbn. split_and!; try done. lia.
    + unfold sends_accounted in *. cbn in *. congruence.
  - destruct Ht as [Hacc Htick Hlink Hup Hsize Hdam Hroom Hord Hcnt Howed _].
    destruct Hb as [Hc Hs Hd Hn].
    pose proof (bus_core_same P b b1 Hacc Hc) as Hc1.
    destruct Hacc as (Hcfg & ? & Hno & ? & Hev & _ & Hrec & _).
    destruct (schedule_copies_link n tick source dg b1)
      as (Hk1 & Hk2 & Hk3 & Hk4 & Hk5 & Hk6 & Hk7 & Hk8 & Hk9 & Hk10 & Hk11).
    destruct (deliver_loop_link (schedule_copies n tick source dg b1).(scheduled_events)
      (schedule_copies n tick source dg b1)) as (Hl1 & _ & _ & _ & _ & _ & _ & Hl2 & _ & _ & Hl3).
    split; [|unfold deliver_due_events; rewrite Hl1, Hl2, Hl3, Hk1, Hk8, Hk11, Hcfg, Hrec, Hcnt;
             split_and!; try done; eauto].
    assert (bus_core P (schedule_copies n tick source dg b1) /\
            next_event_ordinal (schedule_copies n tick source dg b1) =
              next_event_ordinal b1 + Z.of_nat n) as [Hc2 Hno2].
    { destruct n as [|n]; [cbn; split; [done|lia]|].
      apply schedule_copies_core; [done| |lia|rewrite Hev, Hcfg; lia].
      apply (HP d); [done|done|done|]. apply Hdam. lia. }
    apply deliver_due_inv; [done| |].
    + specialize (Howed Hs). unfold sends_accounted in *.
      rewrite Hk8, Hk9, Hk10, Hno2, Howed. f_equal. lia.
    + unfold endpoint_connected. rewrite Hk2, Hk4, Hk5. fold (endpoint_connected b1 First).
      rewrite Hlink, <- (endpoint_connected_first b source), Hup. done.
Qed.

Lemma receive_for_inv P b e has_data capacity result b' :
  bus_inv P b -> receive_for b e has_data capacity = (result, b') ->
  bus_inv P b' /\ b'.(bus_config) = b.(bus_config) /\
  b'.(bus_statistics).(accepted_sends) = b.(bus_statistics).(accepted_sends) /\
  if decide (result.(receive_status) = ReceiveStatus_Received) then
    b'.(bus_statistics).(bus_received_datagrams) =
      b.(bus_statistics).(bus_received_datagrams) + 1 /\
    at_endpoint e b.(bus_inbound) = result.(received_bytes) :: at_endpoint e b'.(bus_inbound) /\
    at_endpoint (other_endpoint e) b'.(bus_inbound) =
      at_endpoint (other_endpoint e) b.(bus_inbound) /\
    P (other_endpoint e) result.(received_bytes)
  else b' = b.
Proof.
  intros Hb Hr. unfold receive_for in Hr.
  repeat match type of Hr with context [if ?c then _ else _] => destruct c eqn:? end;
    try (simplify_eq; by split_and!).
  destruct (at_endpoint e (bus_inbound b)) as [|dg rest] eqn:Hin; [simplify_eq; by split_and!|].
  destruct (capacity <? length dg)%nat eqn:Hcap; [simplify_eq; by split_and!|].
  injection Hr as <- <-.
  cbn [receive_status received_bytes].
  rewrite decide_True by done. destruct Hb as [Hcore Hs Hd Ht]. open_core.
  destruct b as [cfg v t o c cl [i1 i2] [f1 f2] ev [? ? ? ? ? r ? ? ? ? full disc wm [w1 w2]]].
  assert (u64 (r + 1) = r + 1) as Hu.
  { apply u64_small. cbn in *. destruct e; cbn in *; subst; cbn in *; lia. }
  split; [|cbn; rewrite Hu; destruct e; cbn in *; subst;
    repeat match goal with
    | Hq : Forall _ (_ :: _) |- _ => apply Forall_cons in Hq as [? ?]
    end; by split_and!].
  split; [| done | |done].
  - destruct e; cbn in *; subst;
      repeat match goal with
      | Hq : Forall _ (_ :: _) |- _ => apply Forall_cons in Hq as [? ?]
      end; close_core; cbn in *; rewrite ?Hu; split_and?; done || lia.
  - intros Hdown. exfalso.
    match goal with Hq : negb (endpoint_connected _ e) = false |- _ =>
      rewrite endpoint_connected_first in Hq end.
    cbn in *. unfold endpoint_connected in *. cbn in *. by rewrite Hdown in *.
Qed.

(** *** A use of the bus against its log *)

(** Handed out or in flight is what the sender sent, up to one byte. *)
Definition noise_of (log : BusLog) (e : EndpointId) (d : bytes) : Prop :=
  exists s, s ∈ at_endpoint e log.(sent) /\ damaged s d.

Definition logged (log : PerEndpoint (list bytes)) : Z :=
  Z.of_nat (length log.(of_first)) + Z.of_nat (length log.(of_second)).

Record run_inv (config : BusConfig) (s : SimulatedRadioBus * BusLog) : Prop := {
  run_bus : bus_inv (noise_of s.2) s.1;
  run_config : s.1.(bus_config) = config;
  run_sent : s.1.(bus_statistics).(accepted_sends) = u64 (logged s.2.(sent));
  run_heard : s.1.(bus_statistics).(bus_received_datagrams) = logged s.2.(heard);
  run_noise e d : d ∈ at_endpoint e s.2.(heard) -> noise_of s.2 (other_endpoint e) d
}.

Lemma logged_append e d log : logged (log_append e d log) = logged log + 1.
Proof. destruct e, log; unfold logged; cbn; rewrite length_app; cbn; lia. Qed.

Lemma elem_of_log_append e e' d x log :
  x ∈ at_endpoint e (log_append e' d log) <-> x ∈ at_endpoint e log \/ e = e' /\ x = d.
Proof.
  unfold log_append. rewrite at_set_endpoint. destruct (decide (e = e')) as [->|]; [|tauto].
  rewrite elem_of_app, list_elem_of_singleton. tauto.
Qed.

Lemma noise_of_append log e d e' d' :
  noise_of log e' d' -> noise_of (mkBusLog (log_append e d log.(sent)) log.(heard)) e' d'.
Proof.
  intros (s & Hs & Hd). exists s. split; [|done]. cbn. rewrite elem_of_log_append. by left.
Qed.

Lemma enqueue_fault_frame b e d :
  let b' := snd (enqueue_fault b e d) in
  b'.(bus_config) = b.(bus_config) /\
  b'.(bus_statistics).(accepted_sends) = b.(bus_statistics).(accepted_sends) /\
  b'.(bus_statistics).(bus_received_datagrams) = b.(bus_statistics).(bus_received_datagrams).
Proof. unfold enqueue_fault. repeat split_if; by destruct b. Qed.

Lemma discard_link_data_frame b :
  let b' := discard_link_data b in
  b'.(bus_config) = b.(bus_config) /\
  b'.(bus_statistics).(accepted_sends) = b.(bus_statistics).(accepted_sends) /\
  b'.(bus_statistics).(bus_received_datagrams) = b.(bus_statistics).(bus_received_datagrams) /\
  b'.(next_event_ordinal) = b.(next_event_ordinal) /\
  b'.(fault_directives) = b.(fault_directives) /\ link_empty b'.
Proof. by destruct b as [????????? []]. Qed.

Lemma set_connected_frame b e c :
  let b' := snd (set_connected b e c) in
  b'.(bus_config) = b.(bus_config) /\
  b'.(bus_statistics).(accepted_sends) = b.(bus_statistics).(accepted_sends) /\
  b'.(bus_statistics).(bus_received_datagrams) = b.(bus_statistics).(bus_received_datagrams) /\
  b'.(next_event_ordinal) = b.(next_event_ordinal) /\
  b'.(fault_directives) = b.(fault_directives) /\
  (link_empty b' \/
   b'.(scheduled_events) = b.(scheduled_events) /\ b'.(bus_inbound) = b.(bus_inbound)).
Proof.
  unfold set_connected. destruct b as [????????? []].
  destruct c; repeat split_if; cbn; split_and?; try done; (by right) || by left.
Qed.

Lemma close_endpoint_frame b e :
  let b' := close_endpoint b e in
  b'.(bus_config) = b.(bus_config) /\
  b'.(bus_statistics).(accepted_sends) = b.(bus_statistics).(accepted_sends) /\
  b'.(bus_statistics).(bus_received_datagrams) = b.(bus_statistics).(bus_received_datagrams) /\
  b'.(next_event_ordinal) = b.(next_event_ordinal) /\
  (b'.(fault_directives) = b.(fault_directives) \/
   b'.(fault_directives) = set_endpoint e [] b.(fault_directives)) /\
  (link_empty b' \/
   b'.(scheduled_events) = b.(scheduled_events) /\ b'.(bus_inbound) = b.(bus_inbound)).
Proof.
  unfold close_endpoint. destruct b as [????????? []].
  split_if; cbn; split_and?; try done; try (by left); by right.
Qed.

Lemma advance_to_frame b tick :
  let b' := snd (advance_to b tick) in
  b'.(bus_config) = b.(bus_config) /\
  b'.(bus_statistics).(accepted_sends) = b.(bus_statistics).(accepted_sends) /\
  b'.(bus_statistics).(bus_received_datagrams) = b.(bus_statistics).(bus_received_datagrams).
Proof.
  unfold advance_to. split_if; [done|]. cbn.
  destruct (deliver_loop_link (with_bus_tick b tick).(scheduled_events) (with_bus_tick b tick))
    as (? & _ & _ & _ & _ & _ & _ & ? & _ & _ & ?). by destruct b.
Qed.

Lemma run_inv_step config s op : run_inv config s -> run_inv config (bus_step s op).
Proof.
  destruct s as [b log]. intros [Hb Hc Hs Hh Hn]. cbn in *.
  destruct op as [e d|e c|tick|e data|e has cap|e]; cbn.
  - destruct (enqueue_fault_frame b e d) as (? & ? & ?).
    split; cbn; [by apply enqueue_fault_inv|congruence..|done].
  - destruct (set_connected_frame b e c) as (? & ? & ? & _).
    split; cbn; [by apply set_connected_inv|congruence..|done].
  - destruct (advance_to_frame b tick) as (? & ? & ?).
    split; cbn; [by apply advance_to_inv|congruence..|done].
  - destruct (send_from b e data) as [status b'] eqn:Hsend.
    destruct (decide (status = SendStatus_Accepted)) as [->|Hst].
    + edestruct (send_from_inv (noise_of (match data with
          | Some d => mkBusLog (log_append e d log.(sent)) log.(heard) | None => log end))
          b e data) as (Hb' & Hc' & Hr' & _ & Ha); [|exact Hsend|..].
      { eapply bus_inv_mono; [|exact Hb]. destruct data; [intros; by apply noise_of_append|done]. }
      { intros d d' _ -> _ Hdam. exists d. split; [|done]. cbn. rewrite elem_of_log_append. by right. }
      destruct Ha as (Ha & d & -> & _); [done|].
      split; cbn; [done|congruence| | |].
      * rewrite Ha, Hs, logged_append. apply u64_add_l.
      * congruence.
      * intros e' d' Hd'. apply noise_of_append. by apply Hn.
    + edestruct (send_from_inv (noise_of log) b e data) as (Hb' & Hc' & Hr' & Ha & _);
        [done|exact Hsend|done|].
      specialize (Ha Hst).
      destruct status; [done|..]; split; cbn; try done; congruence.
  - destruct (receive_for b e has cap) as [r b'] eqn:Hr.
    edestruct (receive_for_inv (noise_of log) b e has cap) as (Hb' & Hc' & Ha & Hd);
      [done|exact Hr|].
    destruct (decide _) as [Hrec|]; [|subst b'; by split].
    destruct Hd as (Hcount & _ & _ & HP). split; cbn; [done|congruence|congruence| |].
    + rewrite Hcount, Hh, logged_append. done.
    + intros e' d'. rewrite elem_of_log_append. intros [Hd|[-> ->]]; [by apply Hn|done].
  - destruct (close_endpoint_frame b e) as (? & ? & ? & _).
    split; cbn; [by apply close_endpoint_inv|congruence..|done].
Qed.

Lemma bus_run_inv config ops : run_inv config (bus_run config ops).
Proof.
  unfold bus_run.
  assert (run_inv config (SimulatedRadioBus_make config,
            mkBusLog (mkPerEndpoint [] []) (mkPerEndpoint [] []))) as Hi.
  { split; cbn; [apply bus_make_inv|done..|]. intros [] d; cbn; by intros ?%elem_of_nil. }
  revert Hi. generalize (SimulatedRadioBus_make config,
    mkBusLog (mkPerEndpoint [] []) (mkPerEndpoint [] [])).
  induction ops as [|op ops IH]; intros s Hs; cbn; [done|]. by apply IH, run_inv_step.
Qed.

(** *** Without directives *)

Record plain_inv (s : SimulatedRadioBus * BusLog) : Prop := {
  plain_faults e : at_endpoint e s.1.(fault_directives) = [];
  plain_scheduled : s.1.(scheduled_events) = [];
  plain_ordinal : s.1.(next_event_ordinal) = logged s.2.(sent);
  plain_order e :
    sublist (at_endpoint e s.2.(heard) ++ at_endpoint e s.1.(bus_inbound))
      (at_endpoint (other_endpoint e) s.2.(sent))
}.

Lemma plain_send b source d n tick dg b' :
  send_taken b source d n tick dg b' -> nothing_due b ->
  (forall e, at_endpoint e b.(fault_directives) = []) -> b.(scheduled_events) = [] ->
  let b2 := deliver_due_events (schedule_copies n tick source dg b') in
  b2.(fault_directives) = b.(fault_directives) /\ b2.(scheduled_events) = [] /\
  b2.(next_event_ordinal) = u64 (b.(next_event_ordinal) + 1) /\
  at_endpoint source b2.(bus_inbound) = at_endpoint source b.(bus_inbound) /\
  (at_endpoint (other_endpoint source) b2.(bus_inbound) =
     at_endpoint (other_endpoint source) b.(bus_inbound) \/
   at_endpoint (other_endpoint source) b2.(bus_inbound) =
     at_endpoint (other_endpoint source) b.(bus_inbound) ++ [d]).
Proof.
  intros [Hacc Htick _ _ _ _ _ _ _ _ Hplain] _ Hf Hs.
  destruct (Hplain (Hf source)) as (-> & -> & -> & Hfd).
  destruct Hacc as (_ & _ & Hno & Hin & Hsc & _). rewrite Hs in Hsc.
  destruct b as [? ? t o ? ? i f ev ?], b' as [? ? t' o' ? ? i' f' ev' []]. cbn in *. subst.
  unfold deliver_due_events. cbn. rewrite Z.leb_refl. unfold deliver_event.
  repeat split_if; cbn; split_and!; try done; try (by left);
    destruct i, source; cbn; auto.
Qed.

Lemma sublist_drop_tail {A} (l k m : list A) : sublist (l ++ k) m -> sublist (l ++ []) m.
Proof.
  intros Hs. etransitivity; [|exact Hs]. apply sublist_app; [done|apply sublist_nil_l].
Qed.

Lemma plain_keep b b' log :
  (forall e, at_endpoint e b'.(fault_directives) = []) ->
  b'.(next_event_ordinal) = b.(next_event_ordinal) ->
  link_empty b' \/
    b'.(scheduled_events) = b.(scheduled_events) /\ b'.(bus_inbound) = b.(bus_inbound) ->
  plain_inv (b, log) -> plain_inv (b', log).
Proof.
  intros Hf Ho Hl [Hf0 Hs0 Ho0 Hr]. cbn in *. split; cbn; [done| |congruence|].
  - destruct Hl as [[? _]|[-> _]]; done.
  - intros e. destruct Hl as [[_ ->]|[_ ->]]; [|apply Hr].
    specialize (Hr e). apply sublist_drop_tail in Hr. by destruct e.
Qed.

Lemma plain_inv_step config s op :
  is_fault op = false -> run_inv config s -> plain_inv s -> plain_inv (bus_step s op).
Proof.
  destruct s as [b log]. intros Hop [Hb _ _ _ _] Hp. cbn in Hb.
  pose proof Hp as [Hf Hs Ho Hr]. cbn in *.
  destruct op as [e d|e c|tick|e data|e has cap|e]; cbn; [done|..].
  - destruct (set_connected_frame b e c) as (_ & _ & _ & Hno & Hfd & Hl).
    apply (plain_keep b); [by rewrite Hfd|done..].
  - apply (plain_keep b); [| | |done]; unfold advance_to; split_if; cbn;
      unfold deliver_due_events; destruct b; cbn in *; subst; cbn; auto.
  - destruct (send_from_cases _ b e data Hb)
      as [(st & f & -> & Hst & _)|(d & n & tick & dg & b1 & -> & Ht & ->)].
    + destruct st; [done|..]; (apply (plain_keep b); [by destruct b..|right; by destruct b|done]).
    + destruct (plain_send b e d n tick dg b1 Ht (inv_due _ _ Hb) Hf Hs)
        as (Hfd & Hsc & Hno & Hsame & Hoth).
      pose proof Hb as [[_ (_ & _ & _ & _ & Hmax) _ _ _] _ _ _].
      pose proof (taken_ordinal _ _ _ _ _ _ _ Ht).
      destruct (taken_plain _ _ _ _ _ _ _ Ht (Hf e)) as (-> & _).
      clear Ht. revert Hfd Hsc Hno Hsame Hoth. generalize (deliver_due_events
        (schedule_copies 1 tick e dg b1)) as b2. intros.
      split; cbn; [by rewrite Hfd|done| |].
      * rewrite Hno, logged_append, Ho. apply u64_small. unfold logged in *. lia.
      * intros e'. unfold log_append. rewrite at_set_endpoint.
        destruct (decide (other_endpoint e' = e)) as [<-|Hne].
        -- rewrite other_other in Hoth. specialize (Hr e').
           destruct Hoth as [->| ->]; [by apply sublist_inserts_r|].
           rewrite app_assoc. by apply sublist_app.
        -- replace e' with e by (by destruct e, e'). rewrite Hsame. apply Hr.
  - destruct (receive_for b e has cap) as [r b'] eqn:Hrc.
    edestruct (receive_for_inv (noise_of log) b e has cap) as (_ & _ & _ & Hd);
      [done|exact Hrc|].
    destruct (decide _) as [Hrec|]; [|by subst b'].
    destruct Hd as (_ & Hme & Hoth & _).
    assert (b'.(fault_directives) = b.(fault_directives) /\
            b'.(scheduled_events) = b.(scheduled_events) /\
            b'.(next_event_ordinal) = b.(next_event_ordinal)) as (Hfd & Hsc & Hno).
    { revert Hrc. unfold receive_for. repeat split_if; try by intros [= <- <-].
      destruct (at_endpoint e (bus_inbound b)) as [|dg rest]; [by intros [= <- <-]|].
      split_if; intros [= <- <-]; by destruct b. }
    split; cbn; [by rewrite Hfd|congruence|congruence|].
    intros e'. unfold log_append. rewrite at_set_endpoint.
    destruct (decide (e' = e)) as [->|Hne].
    + rewrite <- app_assoc. cbn. rewrite <- Hme. apply Hr.
    + replace e' with (other_endpoint e) in * by (by destruct e, e'). rewrite Hoth. apply Hr.
  - destruct (close_endpoint_frame b e) as (_ & _ & _ & Hno & Hfd & Hl).
    apply (plain_keep b); [|done..]. intros e'.
    destruct Hfd as [->| ->]; [done|]. rewrite at_set_endpoint. by destruct (decide _).
Qed.

Lemma plain_run config ops :
  forallb (fun op => negb (is_fault op)) ops = true -> plain_inv (bus_run config ops).
Proof.
  intros Hops. unfold bus_run. induction ops as [|op ops IH] using rev_ind.
  { split; cbn; [by intros []|done..|]. by intros []. }
  rewrite forallb_app in Hops. cbn in Hops. reflect_bools.
  rewrite foldl_app. cbn. eapply plain_inv_step; [done|apply (bus_run_inv config ops)|by apply IH].
Qed.

(** *** Noise and the frame codec *)

(** A frame damaged in one byte is refused at every MTU, so the frames heard
    are frames that were sent. *)
Lemma damaged_frame s d mtu mtu' f f' :
  decode_frame (Some s) mtu = success f -> damaged s d ->
  decode_frame (Some d) mtu' = success f' -> d = s.
Proof.
  intros (_ & _ & Hs & _)%decode_frame_success Hd (_ & _ & Hs' & _)%decode_frame_success.
  destruct Hd as [->|(i & x & Hi & Hx & ->)]; [done|]. by destruct (frame_shape_change s i x).
Qed.

Lemma heard_frame_was_sent config ops e d mtu f :
  let log := (bus_run config ops).2 in
  (forall s, s ∈ at_endpoint (other_endpoint e) log.(sent) ->
     exists mtu g, decode_frame (Some s) mtu = success g) ->
  d ∈ at_endpoint e log.(heard) -> decode_frame (Some d) mtu = success f ->
  d ∈ at_endpoint (other_endpoint e) log.(sent).
Proof.
  intros log Hframes Hd Hf. destruct (run_noise _ _ (bus_run_inv config ops) e d Hd)
    as (s & Hs & Hdam). destruct (Hframes s Hs) as (mtu' & g & Hg).
  by rewrite (damaged_frame s d mtu' mtu g f Hg Hdam Hf).
Qed.

Lemma sublist_full {A} (l k : list A) : sublist l k -> (length k <= length l)%nat -> l = k.
Proof.
  induction 1 as [|x l k Hs IH|x l k Hs IH]; cbn; intros Hl; [done|by rewrite IH by lia|].
  apply sublist_length in Hs. lia.
Qed.

(** ** Property theorems *)

(** C31: the bus loses count of nothing.  After any use of a bus, under any
    directives: every copy ever scheduled was handed out, is queued, is
    scheduled, or is counted as dropped, and no counter of this account has
    wrapped; every accepted send is counted, and is one copy, two, or a counted
    drop; the schedule is ordered by tick and order of sending with nothing due
    left in it; every queue is within its limit; and a link that is down holds
    nothing. *)
Theorem bus_accounts config ops :
  let '(b, log) := bus_run config ops in
  let s := b.(bus_statistics) in
  (b.(next_event_ordinal) =
     logged log.(heard) + queued_datagrams b + Z.of_nat (length b.(scheduled_events)) +
     s.(inbound_full_drops) + s.(disconnected_drops) /\
   0 <= s.(inbound_full_drops) /\ 0 <= s.(disconnected_drops) /\
   b.(next_event_ordinal) <= UINT64_MAX) /\
  s.(accepted_sends) = u64 (logged log.(sent)) /\
  u64 (s.(accepted_sends) + s.(duplicate_copies)) =
    u64 (s.(fault_drops) + b.(next_event_ordinal)) /\
  schedule_sorted b /\ nothing_due b /\ within_limits b /\
  (endpoint_connected b First = false -> link_empty b).
Proof.
  pose proof (bus_run_inv config ops) as Hr. destruct (bus_run config ops) as [b log].
  destruct Hr as [[[_ (Hc & _ & Hfull & Hdisc & Hmax) Hlim Hsort _] Hs Hdown Hdue] _ Hsent Hh _].
  cbn in *. rewrite <- Hh. split_and!; try done.
  unfold sends_accounted in Hs. by rewrite Z.add_0_r in Hs.
Qed.

(** without directives the bus is a pair of queues.  In any use that
    enqueues no directive, connections, closings and full queues included, what
    an endpoint has been handed and what waits for it is a subsequence of what
    the other endpoint had accepted, in that order; and when no datagram has
    been counted as dropped it is all of it. *)
Theorem plain_bus_is_fifo config ops :
  forallb (fun op => negb (is_fault op)) ops = true ->
  let '(b, log) := bus_run config ops in
  (forall e, sublist (at_endpoint e log.(heard) ++ at_endpoint e b.(bus_inbound))
               (at_endpoint (other_endpoint e) log.(sent))) /\
  (b.(bus_statistics).(inbound_full_drops) = 0 ->
   b.(bus_statistics).(disconnected_drops) = 0 ->
   forall e, at_endpoint e log.(heard) ++ at_endpoint e b.(bus_inbound) =
             at_endpoint (other_endpoint e) log.(sent)).
Proof.
  intros Hops. pose proof (plain_run config ops Hops) as Hp.
  pose proof (bus_run_inv config ops) as Hr. destruct (bus_run config ops) as [b log].
  destruct Hp as [_ Hsc Ho Hsub], Hr as [[[_ (Hc & _) _ _ _] _ _ _] _ _ Hh _].
  cbn in *. split; [done|]. intros Hfull Hdisc e.
  apply sublist_full; [done|].
  pose proof (sublist_length _ _ (Hsub First)). pose proof (sublist_length _ _ (Hsub Second)).
  rewrite Hsc, Hfull, Hdisc, Hh, Ho in Hc. unfold logged, queued_datagrams in Hc.
  destruct e; cbn in *; rewrite !length_app in *; cbn in *; lia.
Qed.

Definition plain_ops : list BusOp :=
  [Bus_send First (Some [x01; x02]); Bus_send First (Some [x03]); Bus_send Second (Some [x04]);
   Bus_receive Second true 255; Bus_advance 7; Bus_send First (Some [x05]);
   Bus_receive Second true 1].

Definition default_config : BusConfig := mkBusConfig 255 64 64 64.

Lemma plain_bus_is_fifo_witness :
  at_endpoint Second (bus_run default_config plain_ops).2.(heard) = [[x01; x02]; [x03]] /\
  at_endpoint Second (bus_run default_config plain_ops).2.(heard) ++
    at_endpoint Second (bus_run default_config plain_ops).1.(bus_inbound) =
  [[x01; x02]; [x03]; [x05]].
Proof.
  split; [vm_compute; reflexivity|].
  pose proof (plain_bus_is_fifo default_config plain_ops eq_refl) as Hp.
  destruct (bus_run default_config plain_ops) as [b log] eqn:Hrun. destruct Hp as [_ Hp].
  assert (bus_run default_config plain_ops = (b, log)) as Hr by exact Hrun.
  vm_compute in Hr. injection Hr as Hb Hl. rewrite <- Hb, <- Hl in *.
  exact (Hp eq_refl eq_refl Second).
Defined.
