(* ===== verification/BusDelivery.v ===== *)
(** * BusDelivery: posts over a bus that damages, repeats, delays and drops

    The composition of [SimulatedBus], [FrameCodec], [Reassembler] and
    [InboundQueue]: when the datagrams one endpoint sends are fragments of some
    posts, the queue that the other endpoint feeds with what it hears completes
    none but these posts, whatever the bus did to them on the way. *)
From S2P Require Import Prelude Ports Text Uuid Post Limits PostCodec FrameCodec Fragmenter Reassembler InboundQueue SimulatedBus.

(** ** Reassembly of genuine fragments *)

(** Posts that keys tell apart. *)
Definition sources (posts : list PostPayload) : Prop :=
  Forall PostPayload_wf posts /\
  forall p q, p ∈ posts -> q ∈ posts -> post_key p = post_key q -> p = q.

Definition genuine (posts : list PostPayload) (mtu : nat) (f : DataFrame) : Prop :=
  exists p j, p ∈ posts /\ (j < fragments_of p mtu)%nat /\ f = fragment p mtu j.

Definition gathers_one_of (posts : list PostPayload) (mtu : nat) (s : Slot) : Prop :=
  exists p got, p ∈ posts /\ slot_gathers mtu p got s.

(** Every slot in use holds fragments of a single one of the posts. *)
Definition gathers_only (posts : list PostPayload) (r : Reassembler) : Prop :=
  Forall (fun s => s.(slot_used) = true -> gathers_one_of posts r.(mtu_) s) r.(slots_).

Section Genuine.

Context (posts : list PostPayload).
Hypothesis Hposts : sources posts.

Lemma source_wf p : p ∈ posts -> PostPayload_wf p.
Proof. destruct Hposts as [Hw _]. rewrite Forall_forall in Hw. apply Hw. Qed.

Lemma gathers_only_make mtu : gathers_only posts (Reassembler_make mtu).
Proof. unfold gathers_only. cbn. by repeat constructor. Qed.

Lemma gathers_only_refresh r now : gathers_only posts r -> gathers_only posts (refresh r now).
Proof.
  unfold gathers_only, refresh. cbn. intros Hr. apply Forall_map.
  eapply Forall_impl; [exact Hr|]. intros s Hs. cbn. by destruct (slot_expired now s).
Qed.

Lemma gathers_only_insert r mtu slots i s :
  gathers_only posts r -> r.(mtu_) = mtu -> r.(slots_) = slots ->
  (s.(slot_used) = true -> gathers_one_of posts mtu s) ->
  Forall (fun s => s.(slot_used) = true -> gathers_one_of posts mtu s) (<[i := s]> slots).
Proof. intros Hr <- <- Hs. by apply Forall_insert. Qed.

Lemma gathers_only_drop r i t q d :
  gathers_only posts r -> gathers_only posts (drop_slot r i t q d).
Proof.
  intros Hr. unfold gathers_only, drop_slot. rewrite quarantine_slots, quarantine_mtu.
  cbn [set_slots slots_ mtu_]. by eapply gathers_only_insert.
Qed.

(** The slot of a genuine fragment gathers the post of the fragment. *)
Lemma genuine_target r p j tick r1 i s :
  gathers_only posts r -> is_supported_mtu r.(mtu_) = true ->
  p ∈ posts -> (j < fragments_of p r.(mtu_))%nat ->
  target r (fragment p r.(mtu_) j) tick r1 i s ->
  gathers_only posts r1 /\ r1.(mtu_) = r.(mtu_) /\ exists got, slot_gathers r.(mtu_) p got s.
Proof.
  intros Hr Hm Hp Hj Ht. pose proof (source_wf p Hp) as Hwf.
  destruct Ht as [i s Hi Hs|i Hno Hi u].
  - split_and!; [done..|]. unfold gathers_only in Hr. rewrite Forall_lookup in Hr.
    destruct (Hr i s Hi (for_used _ _ _ Hs)) as (p' & got & Hp' & Hg). exists got.
    enough (p = p') as -> by done. apply Hposts; [done..|].
    rewrite <- (fragment_key p _ Hwf Hm j Hj), <- (for_key _ _ _ Hs).
    rewrite (for_key _ _ _ (gathers_for _ _ _ _ Hg)).
    pose proof (source_wf p' Hp') as Hwf'.
    apply (fragment_key p' _ Hwf' Hm), (fragments_positive p' _ Hwf' Hm).
  - pose proof (claimed_gathers p _ Hwf Hm j tick Hj) as Hg.
    split_and!; [|done|by eexists]. unfold gathers_only, claim. cbn.
    eapply gathers_only_insert; [exact Hr|done..|]. intros _. by exists p, [].
Qed.

Lemma genuine_outcome r f tick res r' :
  gathers_only posts r -> genuine posts r.(mtu_) f -> accept_outcome r f tick res r' ->
  gathers_only posts r' /\
  forall c, res.(reassembly_completed) = Some c -> c.(completed_post) ∈ posts.
Proof.
  intros Hr (p & j & Hp & Hj & ->) Ho. pose proof (source_wf p Hp) as Hwf.
  assert (forall i r1 s, is_supported_mtu r.(mtu_) = true ->
    target r (fragment p r.(mtu_) j) tick r1 i s ->
    let s' := stored_slot s (fragment p r.(mtu_) j) (frame_offset r.(mtu_) (fragment p r.(mtu_) j)) in
    gathers_only posts r1 /\ r1.(mtu_) = r.(mtu_) /\
    exists got, slot_gathers r.(mtu_) p got s') as Hstore.
  { intros i r1 s Hm Ht. destruct (genuine_target r p j tick r1 i s) as (? & ? & got & Hg); [done..|].
    cbn zeta. split_and!; [done..|]. exists (j :: got). by apply stored_gathers. }
  destruct Ho as [| |i s| |i s|i s Ht|r1 i s Hm Hv Ht Hrec s' Hopen
    |r1 i s q Hm Hv Ht Hrec s' Hfull Hsp|r1 i s Hm Hv Ht Hrec s' Hfull Hsp]; try done.
  - split; [by apply gathers_only_drop|done].
  - split; [by apply gathers_only_drop|done].
  - destruct (Hstore i r1 s Hm Ht) as (Hr1 & Hm1 & got & Hg). split; [|done].
    unfold gathers_only. cbn. eapply gathers_only_insert; [exact Hr1|done..|].
    intros _. rewrite Hm1. by exists p, got.
  - destruct (Hstore i r1 s Hm Ht) as (Hr1 & Hm1 & got & Hg). split.
    + unfold gathers_only. cbn. rewrite list_insert_insert_eq.
      by eapply gathers_only_insert.
    + intros c [= <-]. cbn. rewrite (slot_spells_inj r.(mtu_) q p s'); [done|done|].
      eapply gathers_spells; [done|done|exact Hg|]. by eapply gathers_full.
  - destruct (Hstore i r1 s Hm Ht) as (Hr1 & Hm1 & got & Hg). split; [|done].
    apply gathers_only_drop. unfold gathers_only. cbn.
    eapply gathers_only_insert; [exact Hr1|done..|]. intros _. rewrite Hm1. by exists p, got.
Qed.

(** ** The queue in front of it *)

(** The operations of a queue that is offered datagrams of [D] only. *)
Inductive fed (D : bytes -> Prop) : InboundFrameQueue -> InboundFrameQueue -> Prop :=
| fed_enqueue q d tick : D d -> fed D q (enqueue q (Some d) tick).2
| fed_process q now res q' : process_next q now = Some (res, q') -> fed D q q'
| fed_commit q frames tick : fed D q (mark_committed q frames tick)
| fed_stop q : fed D q (stop q).

(** Datagrams that decode to nothing but genuine fragments. *)
Definition genuine_datagram (mtu : nat) (d : bytes) : Prop :=
  forall f, decode_frame (Some d) mtu = success f -> genuine posts mtu f.

Record fed_inv (mtu : nat) (q : InboundFrameQueue) : Prop := {
  fed_queue : queue_inv q;
  fed_mtu : q.(inbound_mtu) = mtu;
  fed_datagrams : Forall (fun f => genuine_datagram mtu f.(queued_datagram)) q.(queue_);
  fed_gathers : gathers_only posts q.(reassembler_)
}.

Lemma recently_committed_reassembler q d now :
  (recently_committed q d now).2.(reassembler_) = q.(reassembler_) /\
  (recently_committed q d now).2.(queue_) = q.(queue_) /\
  (recently_committed q d now).2.(inbound_mtu) = q.(inbound_mtu).
Proof.
  unfold recently_committed. cbv zeta. destruct (find_index _ _) as [i|]; [|done].
  by destruct (_ !! i).
Qed.

Lemma ingress_of_reassembler res q :
  (ingress_of res q).2.(reassembler_) = q.(reassembler_) /\
  (ingress_of res q).2.(queue_) = q.(queue_) /\
  (ingress_of res q).2.(inbound_mtu) = q.(inbound_mtu) /\
  forall c, (ingress_of res q).1.(ingress_completed) = Some c ->
    res.(reassembly_completed) = Some c.
Proof. unfold ingress_of. destruct res as [[] ?]; cbn; split_and!; try done; by intros. Qed.

Lemma process_next_genuine mtu q now res q' :
  fed_inv mtu q -> process_next q now = Some (res, q') ->
  fed_inv mtu q' /\ forall c, res.(ingress_completed) = Some c -> c.(completed_post) ∈ posts.
Proof.
  intros [Hq Hm Hd Hg] He.
  destruct (process_next_inv q now Hq) as (res1 & q1 & He1 & Hq').
  rewrite He in He1. injection He1 as <- <-.
  assert (forall res2 q2, res2.(ingress_completed) = None -> q2.(inbound_mtu) = q.(inbound_mtu) ->
    Forall (fun f => genuine_datagram mtu f.(queued_datagram)) q2.(queue_) ->
    gathers_only posts q2.(reassembler_) ->
    Some (res2, q2) = Some (res, q') ->
    fed_inv mtu q' /\ forall c, res.(ingress_completed) = Some c -> c.(completed_post) ∈ posts)
    as Hquiet.
  { intros res2 q2 Hnone Hmtu Hqueue Hg2 [= -> ->]. rewrite Hnone.
    split; [|done]. split; [done|congruence|done|done]. }
  pose proof (gathers_only_refresh _ now Hg) as Hg1.
  revert He. unfold process_next. destruct (stopped_ q) eqn:Hstop; [by apply Hquiet|].
  destruct (Reassembler_expire _ _) as [expired r] eqn:Hexp.
  assert (count (count_expired expired) (with_reassembler q r) = after_expiry q now) as ->.
  { unfold after_expiry, refresh. by rewrite Hexp. }
  destruct (queue_ (after_expiry q now)) as [|f rest] eqn:Hqueue;
    change (queue_ (after_expiry q now)) with (queue_ q) in Hqueue.
  { apply Hquiet; [done..|exact Hg1]. }
  rewrite Hqueue in Hd. apply Forall_cons in Hd as [Hf Hrest].
  pose proof (pop_inv q now f rest Hq Hqueue) as Hpop.
  set (q1 := update_metrics _) in *.
  assert (q1.(reassembler_) = refresh q.(reassembler_) now /\ q1.(queue_) = rest /\
          q1.(inbound_mtu) = q.(inbound_mtu)) as (Hq1 & Hqq1 & Hqm1) by done.
  split_if; [by apply Hquiet|].
  destruct (recently_committed_reassembler q1 (queued_datagram f) now) as (Hr2 & Hqq2 & Hqm2).
  pose proof (recently_committed_inv q1 (queued_datagram f) now Hpop) as Hrec.
  destruct (recently_committed q1 (queued_datagram f) now) as [recent q2]. cbn [snd] in *.
  rewrite Hqq1 in Hqq2. rewrite Hqm1 in Hqm2. rewrite Hq1 in Hr2.
  destruct recent; [apply Hquiet; cbn; congruence|].
  destruct (decode_frame _ _) as [frame|e] eqn:Hdec; [|apply Hquiet; cbn; congruence].
  rewrite Hqm2, Hm in Hdec. pose proof (Hf _ Hdec) as Hgen.
  apply decode_frame_typed in Hdec as (Hft & _ & _).
  destruct (accept_has_outcome (reassembler_ q2) frame (queued_tick f)) as (res1 & r' & He & Ho);
    [apply Hrec|done|].
  rewrite He. cbn [mbind option_bind]. intros [= Hout].
  destruct (ingress_of_reassembler res1 (update_metrics (with_reassembler q2 r')))
    as (Hi1 & Hi2 & Hi3 & Hi4).
  rewrite Hout in Hi1, Hi2, Hi3, Hi4. cbn in Hi1, Hi2, Hi3, Hi4.
  rewrite Hr2 in Ho. destruct (genuine_outcome _ _ _ _ _
    (gathers_only_refresh _ (queued_tick f) Hg1) ltac:(cbn; rewrite (qi_mtu _ Hq), Hm; exact Hgen) Ho)
    as (Hg' & Hc).
  split; [|by auto]. split; [done|congruence|by rewrite Hi2, Hqq2|by rewrite Hi1].
Qed.

Lemma mark_committed_frame q frames tick :
  let q' := mark_committed q frames tick in
  q'.(reassembler_) = q.(reassembler_) /\ q'.(queue_) = q.(queue_) /\
  q'.(inbound_mtu) = q.(inbound_mtu).
Proof.
  unfold mark_committed. generalize (saturating_deadline tick kReassemblyTimeoutTicks) as dl.
  change (reassembler_ q) with (reassembler_ (expire_recent q tick)).
  change (queue_ q) with (queue_ (expire_recent q tick)).
  change (inbound_mtu q) with (inbound_mtu (expire_recent q tick)).
  generalize (expire_recent q tick). intros q0 dl. revert q0.
  induction frames as [|d frames IH]; intros q0; [by split_and!|]. cbn.
  destruct (IH (commit_frame dl q0 d)) as (-> & -> & ->).
  unfold commit_frame. by repeat split_if.
Qed.

Lemma fed_keeps (D : bytes -> Prop) mtu q q' :
  (forall d, D d -> genuine_datagram mtu d) -> fed D q q' -> fed_inv mtu q -> fed_inv mtu q'.
Proof.
  intros HD Hstep Hinv. pose proof Hinv as [Hq Hm Hd Hg].
  destruct Hstep as [q d tick Hin|q now res q' He|q frames tick|q].
  - pose proof (enqueue_inv q (Some d) tick Hq). split; [done|..];
      unfold enqueue; repeat split_if; cbn; try done.
    apply Forall_app. split; [done|]. apply Forall_singleton. by apply HD.
  - by eapply process_next_genuine.
  - destruct (mark_committed_frame q frames tick) as (Hr & Hqu & Hi).
    split; [by apply mark_committed_inv|congruence|by rewrite Hqu|by rewrite Hr].
  - pose proof (stop_inv q Hq). split; [done|done|by constructor|].
    unfold gathers_only. cbn. apply Forall_map, Forall_true. by cbn.
Qed.

End Genuine.

Lemma genuine_sent posts mtu s :
  sources posts ->
  (exists p frames, p ∈ posts /\ fragment_post p mtu = success frames /\ s ∈ frames) ->
  exists f, decode_frame (Some s) mtu = success f /\ genuine posts mtu f.
Proof.
  intros Hposts (p & frames & Hp & Hf & Hs). pose proof (source_wf posts Hposts p Hp) as Hwf.
  destruct (is_supported_mtu mtu) eqn:Hm; [|unfold fragment_post in Hf; by rewrite Hm in Hf].
  rewrite fragment_post_success in Hf by done. injection Hf as <-.
  apply list_elem_of_fmap in Hs as (j & -> & Hj). apply elem_of_seq in Hj.
  exists (fragment p mtu j). split; [apply decode_fragment; [done|done|lia]|].
  exists p, j. split_and!; [done|lia|done].
Qed.

(** ** Property theorems *)

(** C5: a post completed at one end of the bus was sent at the other.  Let two
    endpoints use a bus in any way, under any directives: corruption of a byte,
    duplication, delay and reordering, drops, disconnections.  If what the other
    endpoint had accepted are datagrams of some well-formed posts, told apart by
    their tag and sequence number, then a queue that is fed, in any order and
    interleaved in any way with its other operations, from what this endpoint
    was handed, never completes anything but one of these posts: no damaged
    datagram gets through and fragments of different posts are never mixed. *)
Theorem bus_delivers_only_sent config ops posts e mtu q q' now res c :
  sources posts ->
  (forall s, s ∈ at_endpoint (other_endpoint e) (bus_run config ops).2.(sent) ->
     exists p frames, p ∈ posts /\ fragment_post p mtu = success frames /\ s ∈ frames) ->
  rtc (fed (fun d => d ∈ at_endpoint e (bus_run config ops).2.(heard)))
    (InboundFrameQueue_make mtu) q ->
  process_next q now = Some (res, q') -> res.(ingress_completed) = Some c ->
  c.(completed_post) ∈ posts.
Proof.
  intros Hposts Hsent Hfed Hp Hc.
  assert (fed_inv posts mtu q) as Hq.
  { refine (rtc_invariant (fed _) (fed_inv posts mtu) _ _ q Hfed _).
    - intros q0 q1 Hinv Hstep. refine (fed_keeps posts Hposts _ mtu _ _ _ Hstep Hinv).
      intros d Hd f Hf. destruct (genuine_sent posts mtu d Hposts) as (g & Hg & Hgen); [|congruence].
      apply Hsent. eapply (heard_frame_was_sent config ops e d); [|exact Hd|exact Hf].
      intros s Hs. destruct (genuine_sent posts mtu s Hposts (Hsent s Hs)) as (g & Hg & _). eauto.
    - split; [apply make_queue_inv|done|constructor|apply gathers_only_make]. }
  destruct (process_next_genuine posts Hposts mtu q now res q' Hq Hp) as [_ Hall]. by apply Hall.
Qed.

Definition first_golden : bytes := frame_bytes (fragment golden_post 64 0).

(** The first fragment damaged, the second doubled and late, the first again. *)
Definition noisy_ops : list BusOp :=
  [Bus_fault First (mkFaultDirective false false (Some 30%nat) x01 0);
   Bus_send First (Some first_golden);
   Bus_fault First (mkFaultDirective false true None x01 9);
   Bus_send First (Some golden_second_bytes);
   Bus_send First (Some first_golden);
   Bus_receive Second true 255; Bus_receive Second true 255; Bus_receive Second true 255;
   Bus_advance 9;
   Bus_receive Second true 255; Bus_receive Second true 255].

Definition noisy_heard : list bytes :=
  [corrupt_byte 30 x01 first_golden; first_golden; golden_second_bytes; golden_second_bytes].

Lemma noisy_run :
  at_endpoint Second (bus_run default_config noisy_ops).2.(heard) = noisy_heard /\
  at_endpoint First (bus_run default_config noisy_ops).2.(sent) =
    [first_golden; golden_second_bytes; first_golden].
Proof. split; vm_compute; reflexivity. Qed.

(** One more datagram processed. *)
Definition processed (now : Z) (q : InboundFrameQueue) : InboundFrameQueue :=
  match process_next q now with Some (_, q) => q | None => q end.

Lemma fed_processed D now q : rtc (fed D) q (processed now q).
Proof.
  unfold processed. destruct (process_next q now) as [[res q']|] eqn:He; [|done].
  apply rtc_once. by eapply fed_process.
Qed.

Definition noisy_queue : InboundFrameQueue :=
  processed 20 (processed 20
    (enqueue_all (InboundFrameQueue_make 64) (map (fun d => (d, 10)) noisy_heard)).2).

Lemma noisy_queue_fed (D : bytes -> Prop) :
  Forall D noisy_heard -> rtc (fed D) (InboundFrameQueue_make 64) noisy_queue.
Proof.
  intros HD. unfold noisy_queue. do 2 (etransitivity; [|apply fed_processed]).
  assert (forall l q, Forall D l -> rtc (fed D) q (enqueue_all q (map (fun d => (d, 10)) l)).2)
    as Hl; [|by apply Hl].
  clear. induction l as [|d l IH]; intros q Hall; [done|]. apply Forall_cons in Hall as [Hd Hl].
  cbn. pose proof (fed_enqueue D q d 10 Hd) as Hstep.
  destruct (enqueue q (Some d) 10) as [st q1]. cbn in Hstep.
  specialize (IH q1 Hl). destruct (enqueue_all q1 _). by eapply rtc_l.
Qed.

Definition completes (r : option (IngressProcessResult * InboundFrameQueue)) : bool :=
  match r with
  | Some (res, _) => match res.(ingress_completed) with Some _ => true | None => false end
  | None => false
  end.

Lemma bus_delivers_only_sent_witness :
  exists q q' res c,
    process_next q 20 = Some (res, q') /\ res.(ingress_completed) = Some c /\
    c.(completed_post) ∈ [golden_post].
Proof.
  destruct noisy_run as [Hheard Hsent].
  assert (completes (process_next noisy_queue 20) = true) as Hdone by (vm_compute; reflexivity).
  destruct (process_next noisy_queue 20) as [[res q']|] eqn:He; [|discriminate Hdone].
  destruct (ingress_completed res) as [c|] eqn:Hc; [|cbn in Hdone; rewrite Hc in Hdone; discriminate].
  exists noisy_queue, q', res, c. split; [exact He|]. split; [exact Hc|].
  apply (bus_delivers_only_sent default_config noisy_ops [golden_post] Second 64
           noisy_queue q' 20 res c).
  - split; [constructor; [exact golden_post_wf|constructor]|].
    intros p q Hp Hq _. apply list_elem_of_singleton in Hp, Hq. congruence.
  - intros s Hs. exists golden_post, (canonical_frames_of golden_post 64).
    split; [left|]. split; [vm_compute; reflexivity|].
    change (other_endpoint Second) with First in Hs. rewrite Hsent in Hs.
    assert (canonical_frames_of golden_post 64 = [first_golden; golden_second_bytes]) as ->
      by (vm_compute; reflexivity).
    revert Hs. rewrite !elem_of_cons. tauto.
  - rewrite Hheard. apply noisy_queue_fed. apply Forall_forall. auto.
  - exact He.
  - exact Hc.
Defined.
