(* ===== verification/Decimal.v ===== *)
(** * Decimal: decimal text of unsigned 64-bit integers

    [std::to_string] and [parse_canonical_uint64] of
    src/adapters/storage/settings_json.cpp: the two directions of the canonical
    decimal text in which the settings file keeps its counters. *)
From S2P Require Import Prelude.

(** ** Definitions *)

Definition digit_char (d : Z) : byte := to_u8 (bval "0" + d).

(** [std::to_string]: twenty digits are enough for 64 bits. *)
Fixpoint to_string_loop (fuel : nat) (value : Z) : bytes :=
  match fuel with
  | O => []
  | S fuel =>
      if value <? 10 then [digit_char value]
      else to_string_loop fuel (value / 10) ++ [digit_char (value mod 10)]
  end.

Definition to_string (value : Z) : bytes := to_string_loop 20 value.

(** The loop of [parse_canonical_uint64]. *)
Fixpoint parse_uint64_loop (result : Z) (value : bytes) : option Z :=
  match value with
  | [] => Some result
  | character :: value =>
      if (bval character <? bval "0") || (bval "9" <? bval character) then None
      else
        let digit := bval character - bval "0" in
        if (UINT64_MAX - digit) / 10 <? result then None
        else parse_uint64_loop (u64 (u64 (result * 10) + digit)) value
  end.

Definition parse_canonical_uint64 (value : bytes) : option Z :=
  match value with
  | [] => None
  | c :: _ =>
      if (1 <? length value)%nat && Byte.eqb c "0" then None
      else parse_uint64_loop 0 value
  end.

(** ** The value of a list of digits *)

Definition is_decimal_digit (c : byte) : Prop := bval "0" <= bval c <= bval "9".

Definition decimal_step (acc : Z) (c : byte) : Z := acc * 10 + (bval c - bval "0").

Definition decimal_value (s : bytes) : Z := foldl decimal_step 0 s.

(** No leading zero. *)
Definition canonical (s : bytes) : Prop := s <> [] /\ (length s = 1%nat \/ hd x00 s <> "0"%byte).

Lemma digit_char_range d : 0 <= d <= 9 -> bval (digit_char d) = bval "0" + d.
Proof. intros. unfold digit_char. apply bval_to_u8_small. cbn. lia. Qed.

Lemma digit_char_digit d : 0 <= d <= 9 -> is_decimal_digit (digit_char d).
Proof. intros. unfold is_decimal_digit. rewrite digit_char_range by done. cbn. lia. Qed.

Lemma digit_char_bval c : is_decimal_digit c -> digit_char (bval c - bval "0") = c.
Proof.
  intros H. unfold digit_char. replace (bval "0" + (bval c - bval "0")) with (bval c) by lia.
  apply to_u8_bval.
Qed.

Lemma decimal_value_snoc s c : decimal_value (s ++ [c]) = decimal_value s * 10 + (bval c - bval "0").
Proof. unfold decimal_value. by rewrite foldl_snoc. Qed.

Lemma decimal_fold_mono s a :
  Forall is_decimal_digit s -> 0 <= a -> a <= foldl decimal_step a s.
Proof.
  intros Hs. revert a. induction Hs as [|c s Hc _ IH]; intros a Ha; cbn [foldl]; [lia|].
  unfold is_decimal_digit in Hc. unfold decimal_step at 2.
  etrans; [|apply IH]; unfold decimal_step; lia.
Qed.

Lemma decimal_value_nonneg s : Forall is_decimal_digit s -> 0 <= decimal_value s.
Proof. intros. by apply decimal_fold_mono. Qed.

Lemma canonical_value_pos s :
  Forall is_decimal_digit s -> s <> [] -> hd x00 s <> "0"%byte -> 1 <= decimal_value s.
Proof.
  intros Hs Hne Hc. destruct s as [|c s]; [done|]. cbn in Hc.
  apply Forall_cons in Hs as [Hd Hs]. unfold decimal_value. cbn [foldl].
  assert (bval c <> bval "0") by (intros E; apply Hc; by apply bval_inj).
  etrans; [|apply decimal_fold_mono; [done|]]; unfold decimal_step, is_decimal_digit in *; lia.
Qed.

(** ** Printing *)

Lemma to_string_loop_spec fuel value :
  0 <= value < 10 ^ Z.of_nat fuel -> (0 < fuel)%nat ->
  Forall is_decimal_digit (to_string_loop fuel value) /\
  canonical (to_string_loop fuel value) /\
  decimal_value (to_string_loop fuel value) = value /\
  (length (to_string_loop fuel value) <= fuel)%nat.
Proof.
  revert value. induction fuel as [|fuel IH]; intros value Hv Hf; [lia|].
  cbn [to_string_loop]. destruct (Z.ltb_spec value 10).
  - pose proof (digit_char_digit value ltac:(lia)) as Hd.
    split_and!; [by apply Forall_singleton|split; [done|by left]| |cbn; lia].
    unfold decimal_value. cbn [foldl]. unfold decimal_step. rewrite digit_char_range; lia.
  - rewrite Nat2Z.inj_succ, Z.pow_succ_r in Hv by lia.
    assert (0 < fuel)%nat by (destruct fuel; [cbn in Hv; lia|lia]).
    destruct (IH (value / 10) ltac:(split; [zdiv_lia|apply Z.div_lt_upper_bound; lia]) ltac:(done))
      as (Hd & [Hne Hc] & Hval & Hl).
    pose proof (Z.mod_pos_bound value 10 ltac:(lia)).
    split_and!.
    + apply Forall_app. split; [done|]. apply Forall_singleton, digit_char_digit. lia.
    + split; [by destruct (to_string_loop fuel (value / 10))|]. right.
      destruct (to_string_loop fuel (value / 10)) as [|c s] eqn:E; [done|]. cbn [app hd] in *.
      destruct Hc as [Hc|Hc]; [|done]. destruct s; [|done].
      intros ->. replace (decimal_value ["0"%byte]) with 0 in Hval by done. zdiv_lia.
    + rewrite decimal_value_snoc, Hval, digit_char_range by lia. zdiv_lia.
    + rewrite length_app. cbn. lia.
Qed.

Lemma to_string_loop_unique fuel s :
  Forall is_decimal_digit s -> canonical s -> decimal_value s < 10 ^ Z.of_nat fuel ->
  (0 < fuel)%nat -> to_string_loop fuel (decimal_value s) = s.
Proof.
  revert fuel. induction s as [|c s IH] using rev_ind; intros fuel Hs [Hne Hc] Hv Hf; [done|].
  apply Forall_app in Hs as [Hs [Hd _]%Forall_cons].
  rewrite decimal_value_snoc in *. pose proof (decimal_value_nonneg s Hs) as Hn.
  unfold is_decimal_digit in Hd. cbn in Hd.
  destruct fuel as [|fuel]; [lia|].
  cbn [to_string_loop]. destruct s as [|c0 s].
  - unfold decimal_value in *. cbn [foldl] in *. destruct (Z.ltb_spec (0 * 10 + (bval c - bval "0")) 10) as [|Hge].
    + cbn [app]. f_equal. rewrite <- (digit_char_bval c) at 2 by done. f_equal.
    + cbn in Hge. lia.
  - assert (hd x00 (c0 :: s) <> "0"%byte) as Hh.
    { destruct Hc as [Hc|Hc]; [rewrite length_app in Hc; cbn in Hc; lia|done]. }
    pose proof (canonical_value_pos _ Hs ltac:(done) Hh) as Hp.
    set (v := decimal_value (c0 :: s)) in *. change (bval "0") with 48 in *.
    rewrite (proj2 (Z.ltb_ge _ _)) by lia.
    replace ((v * 10 + (bval c - 48)) / 10) with v by zdiv_lia.
    replace ((v * 10 + (bval c - 48)) mod 10) with (bval c - 48) by zdiv_lia.
    rewrite Nat2Z.inj_succ, Z.pow_succ_r in Hv by lia.
    unfold v at 1. rewrite IH, digit_char_bval; [done|done|done|split; [done|by right]| |].
    + fold v. lia.
    + destruct fuel; [change (10 ^ Z.of_nat 0) with 1 in Hv|]; lia.
Qed.

(** ** Parsing *)

Lemma parse_uint64_loop_Some s result n :
  is_u64 result -> parse_uint64_loop result s = Some n <->
  Forall is_decimal_digit s /\ foldl decimal_step result s = n /\ n <= UINT64_MAX.
Proof.
  revert result. induction s as [|c s IH]; intros result Hr; cbn [parse_uint64_loop foldl].
  { unfold is_u64 in Hr. split; [intros [= ->]|intros (_ & -> & _)]; by intuition (eauto; lia). }
  rewrite Forall_cons. unfold is_decimal_digit at 1. unfold decimal_step at 2.
  change (bval "0") with 48. change (bval "9") with 57.
  destruct ((bval c <? 48) || (57 <? bval c)) eqn:E; reflect_bools.
  { split; [done|]. intros ([] & _). lia. }
  unfold is_u64, UINT64_MAX in *.
  destruct (Z.ltb_spec ((18446744073709551615 - (bval c - 48)) / 10) result) as [Hlt|Hge].
  - split; [done|]. intros ((_ & Hs) & Hn & Hle). exfalso.
    assert (result * 10 + (bval c - 48) <= foldl decimal_step (result * 10 + (bval c - 48)) s)
      by (apply decimal_fold_mono; [done|lia]). zdiv_lia.
  - assert (result * 10 + (bval c - 48) <= 18446744073709551615) by zdiv_lia.
    assert (u64 (u64 (result * 10) + (bval c - 48)) = result * 10 + (bval c - 48)) as ->.
    { unfold u64. rewrite (Z.mod_small (result * 10)) by lia. rewrite Z.mod_small; lia. }
    rewrite IH by lia. unfold UINT64_MAX. intuition lia.
Qed.

Lemma parse_canonical_uint64_Some s n :
  parse_canonical_uint64 s = Some n <-> is_u64 n /\ s = to_string n.
Proof.
  unfold parse_canonical_uint64, to_string. split.
  - destruct s as [|c s]; [done|]. destruct (_ && _) eqn:E; [done|].
    intros (Hd & Hn & Hle)%parse_uint64_loop_Some; [|by vm_compute].
    assert (decimal_value (c :: s) = n) as <- by done.
    pose proof (decimal_value_nonneg _ Hd).
    split; [by split|]. symmetry. apply to_string_loop_unique; [done| | |lia].
    + split; [done|]. apply andb_false_iff in E as [E|E].
      * left. apply Nat.ltb_ge in E. cbn in *. lia.
      * right. cbn. by intros ->.
    + unfold UINT64_MAX in Hle. cbn -[decimal_value]. lia.
  - intros [[Hlo Hhi] ->].
    destruct (to_string_loop_spec 20 n) as (Hd & [Hne Hc] & Hv & Hl);
      [unfold UINT64_MAX in Hhi; cbn; lia|lia|].
    destruct (to_string_loop 20 n) as [|c s] eqn:E; [done|].
    assert ((1 <? length (c :: s))%nat && Byte.eqb c "0" = false) as ->.
    { destruct Hc as [Hc|Hc]; [by rewrite Hc|]. cbn [hd] in Hc.
      destruct (Byte.eqb c "0") eqn:Eb; [|apply andb_false_r].
      by apply Byte.byte_dec_bl in Eb. }
    apply parse_uint64_loop_Some; [by vm_compute|by split].
Qed.

Lemma to_string_length n : is_u64 n -> (1 <= length (to_string n) <= 20)%nat.
Proof.
  intros [Hlo Hhi]. unfold to_string.
  destruct (to_string_loop_spec 20 n) as (_ & [Hne _] & _ & Hl);
    [unfold UINT64_MAX in Hhi; cbn; lia|lia|].
  destruct (to_string_loop 20 n); cbn in *; [done|lia].
Qed.

Lemma to_string_digits n : is_u64 n -> Forall is_decimal_digit (to_string n).
Proof.
  intros [Hlo Hhi]. unfold to_string.
  by destruct (to_string_loop_spec 20 n) as (? & _);
    [unfold UINT64_MAX in Hhi; cbn; lia|lia|].
Qed.
