(* ===== verification/Json.v ===== *)
(** * Json: the strict JSON reader of the settings file

    src/adapters/storage/settings_json.cpp, lines up to [JsonParser].  The
    parser's [position_] is the list of the bytes that are left; [error_] is the
    error of the result.  The recursion of [parse_value], [parse_object] and
    [parse_array] is bounded by a fuel; [JsonParser_parse] gives enough of it
    for every input. *)
From S2P Require Import Prelude Utf8.

(** ** Definitions *)

(** *** settings_json.h *)

Definition kMaxSettingsJsonBytes : nat := 16 * 1024.

Inductive SettingsJsonError :=
| SettingsError_TooLarge
| SettingsError_InvalidUtf8
| SettingsError_MalformedJson
| SettingsError_ExcessiveNesting
| SettingsError_DuplicateKey
| SettingsError_UnknownKey
| SettingsError_MissingKey
| SettingsError_WrongType
| SettingsError_UnsupportedFormat
| SettingsError_UnsupportedSchemaVersion
| SettingsError_InvalidGeneration
| SettingsError_InvalidInstallUuid
| SettingsError_InvalidUserId
| SettingsError_InvalidSenderSequence
| SettingsError_InvalidLocale.

#[global] Instance SettingsJsonError_eq_decision : EqDecision SettingsJsonError.
Proof. solve_decision. Defined.

Definition kMaximumJsonNesting : nat := 12.

(** *** Values *)

Inductive JsonValue :=
| JsonNull
| JsonBoolean (scalar : bytes)
| JsonNumber (scalar : bytes)
| JsonString (scalar : bytes)
| JsonObject (object : list (bytes * JsonValue))
| JsonArray (array : list JsonValue).

(** *** Characters *)

Definition quote : byte := x22.
Definition backslash : byte := x5c.

Definition is_json_space (value : byte) : bool :=
  Byte.eqb value x20 || Byte.eqb value x09 || Byte.eqb value x0a || Byte.eqb value x0d.

Definition is_digit (value : byte) : bool :=
  (bval "0" <=? bval value) && (bval value <=? bval "9").

Definition json_hex_value (value : byte) : Z :=
  let v := bval value in
  if (bval "0" <=? v) && (v <=? bval "9") then v - bval "0"
  else if (bval "a" <=? v) && (v <=? bval "f") then v - bval "a" + 10
  else if (bval "A" <=? v) && (v <=? bval "F") then v - bval "A" + 10
  else -1.

Definition append_utf8 (codepoint : Z) : bytes :=
  if codepoint <=? 0x7f then [to_u8 codepoint]
  else if codepoint <=? 0x7ff then
    [to_u8 (Z.lor 0xc0 (Z.shiftr codepoint 6));
     to_u8 (Z.lor 0x80 (Z.land codepoint 0x3f))]
  else if codepoint <=? 0xffff then
    [to_u8 (Z.lor 0xe0 (Z.shiftr codepoint 12));
     to_u8 (Z.lor 0x80 (Z.land (Z.shiftr codepoint 6) 0x3f));
     to_u8 (Z.lor 0x80 (Z.land codepoint 0x3f))]
  else
    [to_u8 (Z.lor 0xf0 (Z.shiftr codepoint 18));
     to_u8 (Z.lor 0x80 (Z.land (Z.shiftr codepoint 12) 0x3f));
     to_u8 (Z.lor 0x80 (Z.land (Z.shiftr codepoint 6) 0x3f));
     to_u8 (Z.lor 0x80 (Z.land codepoint 0x3f))].

(** *** The scanner *)

(** A step of the parser: a value and what is left of the input. *)
Definition Parsed (A : Type) : Type := Result (A * bytes) SettingsJsonError.

Definition malformed {A} : Parsed A := failure SettingsError_MalformedJson.

Fixpoint skip_whitespace (rest : bytes) : bytes :=
  match rest with
  | value :: tail => if is_json_space value then skip_whitespace tail else rest
  | [] => rest
  end.

(** [consume]: the rest after the expected character. *)
Definition consume (expected : byte) (rest : bytes) : option bytes :=
  match rest with
  | value :: tail => if Byte.eqb value expected then Some tail else None
  | [] => None
  end.

Definition consume_literal (literal rest : bytes) : Parsed unit :=
  if bool_decide (take (length literal) rest = literal)
  then success (tt, drop (length literal) rest)
  else malformed.

Fixpoint hex_quad_loop (n : nat) (output : Z) (rest : bytes) : Parsed Z :=
  match n, rest with
  | O, _ => success (output, rest)
  | S n, c :: rest =>
      let value := json_hex_value c in
      if value <? 0 then malformed
      else hex_quad_loop n (Z.lor (u32 (Z.shiftl output 4)) value) rest
  | S _, [] => malformed
  end.

Definition parse_hex_quad (rest : bytes) : Parsed Z :=
  if (length rest <? 4)%nat then malformed else hex_quad_loop 4 0 rest.

(** The code point after [\u], surrogate pairs included. *)
Definition parse_unicode_escape (rest : bytes) : Parsed Z :=
  match parse_hex_quad rest with
  | failure e => failure e
  | success (codepoint, rest) =>
      if (0xd800 <=? codepoint) && (codepoint <=? 0xdbff) then
        match rest with
        | b1 :: b2 :: rest =>
            if negb (Byte.eqb b1 backslash && Byte.eqb b2 "u") then malformed
            else
              match parse_hex_quad rest with
              | failure e => failure e
              | success (low, rest) =>
                  if (low <? 0xdc00) || (0xdfff <? low) then malformed
                  else
                    success (u32 (u32 (0x10000 +
                                       u32 (Z.shiftl (u32 (codepoint - 0xd800)) 10)) +
                                  u32 (low - 0xdc00)),
                             rest)
              end
        | _ => malformed
        end
      else if (0xdc00 <=? codepoint) && (codepoint <=? 0xdfff) then malformed
      else success (codepoint, rest)
  end.

(** What the character after a backslash stands for, [u] excepted. *)
Definition simple_escape (escaped : byte) : option byte :=
  if Byte.eqb escaped quote then Some quote
  else if Byte.eqb escaped backslash then Some backslash
  else if Byte.eqb escaped "/" then Some "/"%byte
  else if Byte.eqb escaped "b" then Some x08
  else if Byte.eqb escaped "f" then Some x0c
  else if Byte.eqb escaped "n" then Some x0a
  else if Byte.eqb escaped "r" then Some x0d
  else if Byte.eqb escaped "t" then Some x09
  else None.

(** The loop of [parse_string]; every turn consumes a byte, so the length of the
    input is enough fuel. *)
Fixpoint string_loop (fuel : nat) (output rest : bytes) : Parsed bytes :=
  match fuel, rest with
  | S fuel, value :: rest =>
      if Byte.eqb value quote then success (output, rest)
      else if bval value <? 0x20 then malformed
      else if negb (Byte.eqb value backslash)
      then string_loop fuel (output ++ [value]) rest
      else
        match rest with
        | [] => malformed
        | escaped :: rest =>
            if Byte.eqb escaped "u" then
              match parse_unicode_escape rest with
              | failure e => failure e
              | success (codepoint, rest) =>
                  string_loop fuel (output ++ append_utf8 codepoint) rest
              end
            else
              match simple_escape escaped with
              | Some b => string_loop fuel (output ++ [b]) rest
              | None => malformed
              end
        end
  | _, _ => malformed
  end.

Definition parse_string (rest : bytes) : Parsed bytes :=
  match consume quote rest with
  | None => malformed
  | Some rest => string_loop (length rest) [] rest
  end.

(** *** Numbers: the characters are kept, not the value *)

Fixpoint skip_digits (rest : bytes) : bytes :=
  match rest with
  | c :: tail => if is_digit c then skip_digits tail else rest
  | [] => rest
  end.

(** A digit, then more of them. *)
Definition some_digits (rest : bytes) : option bytes :=
  match rest with
  | c :: _ => if is_digit c then Some (skip_digits rest) else None
  | [] => None
  end.

Definition number_integer (rest : bytes) : option bytes :=
  match consume "0" rest with
  | Some rest =>
      match rest with
      | c :: _ => if is_digit c then None else Some rest
      | [] => Some rest
      end
  | None =>
      match rest with
      | c :: _ =>
          if (bval c <? bval "1") || (bval "9" <? bval c) then None
          else Some (skip_digits rest)
      | [] => None
      end
  end.

Definition number_fraction (rest : bytes) : option bytes :=
  match consume "." rest with
  | Some rest => some_digits rest
  | None => Some rest
  end.

Definition number_exponent (rest : bytes) : option bytes :=
  match rest with
  | c :: tail =>
      if Byte.eqb c "e" || Byte.eqb c "E" then
        match tail with
        | s :: tail' =>
            if Byte.eqb s "+" || Byte.eqb s "-" then some_digits tail'
            else some_digits tail
        | [] => some_digits tail
        end
      else Some rest
  | [] => Some rest
  end.

Definition parse_number (begin : bytes) : Parsed bytes :=
  let after_sign := default begin (consume "-" begin) in
  match (r ← number_integer after_sign; r ← number_fraction r; number_exponent r) with
  | Some rest => success (take (length begin - length rest) begin, rest)
  | None => malformed
  end.

(** *** Values *)

Definition has_key (key : bytes) (object : list (bytes * JsonValue)) : bool :=
  existsb (fun e => bool_decide (fst e = key)) object.

(** A result of the recursive part; [None] is fuel exhaustion. *)
Notation "'run!' p ':=' r 'in' k" :=
  (match r with
   | Some (success p) => k
   | Some (failure e) => Some (failure e)
   | None => None
   end) (at level 10, p strict pattern, r at level 100, k at level 200).

Fixpoint parse_value (fuel : nat) (rest : bytes) (depth : nat) {struct fuel}
  : option (Parsed JsonValue) :=
  match fuel, rest with
  | O, _ => None
  | S _, [] => Some malformed
  | S fuel, token :: tail =>
      if Byte.eqb token "{" then
        if (kMaximumJsonNesting <=? depth)%nat
        then Some (failure SettingsError_ExcessiveNesting)
        else parse_object fuel tail (depth + 1)
      else if Byte.eqb token "[" then
        if (kMaximumJsonNesting <=? depth)%nat
        then Some (failure SettingsError_ExcessiveNesting)
        else parse_array fuel tail (depth + 1)
      else if Byte.eqb token quote then
        run! (s, rest) := Some (parse_string rest) in Some (success (JsonString s, rest))
      else if Byte.eqb token "t" then
        run! (_, rest) := Some (consume_literal (str "true") rest) in
        Some (success (JsonBoolean (str "true"), rest))
      else if Byte.eqb token "f" then
        run! (_, rest) := Some (consume_literal (str "false") rest) in
        Some (success (JsonBoolean (str "false"), rest))
      else if Byte.eqb token "n" then
        run! (_, rest) := Some (consume_literal (str "null") rest) in
        Some (success (JsonNull, rest))
      else if Byte.eqb token "-" || is_digit token then
        run! (s, rest) := Some (parse_number rest) in Some (success (JsonNumber s, rest))
      else Some malformed
  end
(* [rest] is what follows the opening brace. *)
with parse_object (fuel : nat) (rest : bytes) (depth : nat) {struct fuel}
  : option (Parsed JsonValue) :=
  match fuel with
  | O => None
  | S fuel =>
      let rest := skip_whitespace rest in
      match consume "}" rest with
      | Some rest => Some (success (JsonObject [], rest))
      | None => object_loop fuel [] rest depth
      end
  end
with object_loop (fuel : nat) (object : list (bytes * JsonValue)) (rest : bytes)
    (depth : nat) {struct fuel} : option (Parsed JsonValue) :=
  match fuel, rest with
  | O, _ => None
  | S _, [] => Some malformed
  | S fuel, c :: _ =>
      if negb (Byte.eqb c quote) then Some malformed
      else
        run! (key, rest) := Some (parse_string rest) in
        if has_key key object then Some (failure SettingsError_DuplicateKey)
        else
          match consume ":" (skip_whitespace rest) with
          | None => Some malformed
          | Some rest =>
              run! (value, rest) := parse_value fuel (skip_whitespace rest) depth in
              let object := object ++ [(key, value)] in
              let rest := skip_whitespace rest in
              match consume "}" rest with
              | Some rest => Some (success (JsonObject object, rest))
              | None =>
                  match consume "," rest with
                  | None => Some malformed
                  | Some rest => object_loop fuel object (skip_whitespace rest) depth
                  end
              end
          end
  end
(* [rest] is what follows the opening bracket. *)
with parse_array (fuel : nat) (rest : bytes) (depth : nat) {struct fuel}
  : option (Parsed JsonValue) :=
  match fuel with
  | O => None
  | S fuel =>
      let rest := skip_whitespace rest in
      match consume "]" rest with
      | Some rest => Some (success (JsonArray [], rest))
      | None => array_loop fuel [] rest depth
      end
  end
with array_loop (fuel : nat) (array : list JsonValue) (rest : bytes)
    (depth : nat) {struct fuel} : option (Parsed JsonValue) :=
  match fuel, rest with
  | O, _ => None
  | S _, [] => Some malformed
  | S fuel, _ :: _ =>
      run! (value, rest) := parse_value fuel rest depth in
      let array := array ++ [value] in
      let rest := skip_whitespace rest in
      match consume "]" rest with
      | Some rest => Some (success (JsonArray array, rest))
      | None =>
          match consume "," rest with
          | None => Some malformed
          | Some rest => array_loop fuel array (skip_whitespace rest) depth
          end
      end
  end.

(** [JsonParser::parse]: each of the calls of the recursive part consumes a byte
    within three calls. *)
Definition json_fuel (input : bytes) : nat := 3 * length input + 3.

Definition JsonParser_parse (input : bytes) : option (Result JsonValue SettingsJsonError) :=
  let rest := skip_whitespace input in
  match parse_value (json_fuel input) rest 0 with
  | None => None
  | Some (failure e) => Some (failure e)
  | Some (success (output, rest)) =>
      match skip_whitespace rest with
      | [] => Some (success output)
      | _ => Some (failure SettingsError_MalformedJson)
      end
  end.

Definition member (object : list (bytes * JsonValue)) (key : bytes) : option JsonValue :=
  snd <$> List.find (fun e => bool_decide (fst e = key)) object.

Definition has_only_keys (object : list (bytes * JsonValue)) (allowed : list bytes) : bool :=
  forallb (fun e => existsb (fun k => bool_decide (fst e = k)) allowed) object.

(** The escape of one character of [append_json_string]. *)
Definition escape_character (character : byte) : bytes :=
  if Byte.eqb character quote then [backslash; quote]
  else if Byte.eqb character backslash then [backslash; backslash]
  else if Byte.eqb character x08 then [backslash; "b"%byte]
  else if Byte.eqb character x0c then [backslash; "f"%byte]
  else if Byte.eqb character x0a then [backslash; "n"%byte]
  else if Byte.eqb character x0d then [backslash; "r"%byte]
  else if Byte.eqb character x09 then [backslash; "t"%byte]
  else if bval character <? 0x20 then
    [backslash; "u"%byte; "0"%byte; "0"%byte;
     byte_at (str "0123456789abcdef") (Z.to_nat (Z.land (Z.shiftr (bval character) 4) 0x0f));
     byte_at (str "0123456789abcdef") (Z.to_nat (Z.land (bval character) 0x0f))]
  else [character].

(** The characters [append_json_string] appends. *)
Definition append_json_string (value : bytes) : bytes :=
  [quote] ++ concat (map escape_character value) ++ [quote].

(** ** Reference printer *)

Definition comma_separated (l : list bytes) : bytes :=
  match l with
  | [] => []
  | x :: l => x ++ concat (map (fun y => "," :: y)%byte l)
  end.

Fixpoint json_print (v : JsonValue) : bytes :=
  match v with
  | JsonNull => str "null"
  | JsonBoolean s => s
  | JsonNumber s => s
  | JsonString s => append_json_string s
  | JsonObject o =>
      ["{"%byte] ++
      comma_separated
        (map (fun e => append_json_string (fst e) ++ [":"%byte] ++ json_print (snd e)) o) ++
      ["}"%byte]
  | JsonArray a => ["["%byte] ++ comma_separated (map json_print a) ++ ["]"%byte]
  end.

Fixpoint json_depth (v : JsonValue) : nat :=
  match v with
  | JsonObject o => S (foldr (fun e n => Nat.max (json_depth (snd e)) n) 0%nat o)
  | JsonArray a => S (foldr (fun w n => Nat.max (json_depth w) n) 0%nat a)
  | _ => 0%nat
  end.

(** The values the parser makes: literals are literals, numbers are numbers, no
    object has a key twice. *)
Inductive json_wf : JsonValue -> Prop :=
| wf_null : json_wf JsonNull
| wf_true : json_wf (JsonBoolean (str "true"))
| wf_false : json_wf (JsonBoolean (str "false"))
| wf_number s : parse_number s = success (s, []) -> json_wf (JsonNumber s)
| wf_string s : json_wf (JsonString s)
| wf_object o : NoDup (map fst o) -> Forall (fun e => json_wf (snd e)) o ->
    json_wf (JsonObject o)
| wf_array a : Forall json_wf a -> json_wf (JsonArray a).

(** Induction with the nested lists. *)
Fixpoint JsonValue_nested_ind (P : JsonValue -> Prop)
    (Hnull : P JsonNull) (Hbool : forall s, P (JsonBoolean s))
    (Hnum : forall s, P (JsonNumber s)) (Hstr : forall s, P (JsonString s))
    (Hobj : forall o, Forall (fun e => P (snd e)) o -> P (JsonObject o))
    (Harr : forall a, Forall P a -> P (JsonArray a)) (v : JsonValue) : P v :=
  let rec := JsonValue_nested_ind P Hnull Hbool Hnum Hstr Hobj Harr in
  match v with
  | JsonNull => Hnull
  | JsonBoolean s => Hbool s
  | JsonNumber s => Hnum s
  | JsonString s => Hstr s
  | JsonObject o =>
      Hobj o ((fix go (o : list (bytes * JsonValue)) : Forall (fun e => P (snd e)) o :=
                 match o with
                 | [] => List.Forall_nil _
                 | e :: o => List.Forall_cons _ _ _ (rec (snd e)) (go o)
                 end) o)
  | JsonArray a =>
      Harr a ((fix go (a : list JsonValue) : Forall P a :=
                 match a with
                 | [] => List.Forall_nil _
                 | x :: a => List.Forall_cons _ _ _ (rec x) (go a)
                 end) a)
  end.

(** ** Progress of the scanner *)

Lemma byte_eqb_refl b : Byte.eqb b b = true.
Proof. by apply Byte.byte_dec_lb. Qed.

Lemma byte_eqb_eq a b : Byte.eqb a b = true <-> a = b.
Proof. split; [apply Byte.byte_dec_bl|apply Byte.byte_dec_lb]. Qed.

Lemma skip_whitespace_length rest : (length (skip_whitespace rest) <= length rest)%nat.
Proof. induction rest as [|c rest IH]; cbn; [done|]. destruct (is_json_space c); cbn; lia. Qed.

Lemma consume_Some c rest r : consume c rest = Some r <-> rest = c :: r.
Proof.
  destruct rest as [|x rest]; cbn; [done|].
  destruct (Byte.eqb x c) eqn:E.
  - apply byte_eqb_eq in E as ->. naive_solver.
  - split; [done|]. intros [= -> ->]. by rewrite byte_eqb_refl in E.
Qed.

Lemma consume_length c rest r : consume c rest = Some r -> length rest = S (length r).
Proof. by intros ->%consume_Some. Qed.

Lemma hex_quad_loop_length n output rest v r :
  hex_quad_loop n output rest = success (v, r) -> length rest = (n + length r)%nat.
Proof.
  revert output rest. induction n as [|n IH]; intros output rest; cbn; [by intros [= <- <-]|].
  destruct rest as [|c rest]; [done|]. destruct (_ <? 0); [done|].
  intros H%IH. cbn. lia.
Qed.

Lemma parse_hex_quad_length rest v r :
  parse_hex_quad rest = success (v, r) -> length rest = (4 + length r)%nat.
Proof. unfold parse_hex_quad. destruct (_ <? 4)%nat; [done|]. apply hex_quad_loop_length. Qed.

Lemma parse_unicode_escape_length rest v r :
  parse_unicode_escape rest = success (v, r) -> (length r < length rest)%nat.
Proof.
  unfold parse_unicode_escape.
  destruct (parse_hex_quad rest) as [[cp rest1]|] eqn:E; [|done].
  apply parse_hex_quad_length in E.
  destruct (_ && _).
  - destruct rest1 as [|b1 [|b2 rest2]]; try done. destruct (negb _); [done|].
    destruct (parse_hex_quad rest2) as [[low rest3]|] eqn:E2; [|done].
    apply parse_hex_quad_length in E2. destruct (_ || _); [done|].
    intros [= _ <-]. cbn in *. lia.
  - destruct (_ && _); [done|]. intros [= _ <-]. lia.
Qed.

(** Enough fuel is as good as any. *)
Lemma string_loop_fuel fuel fuel' output rest :
  (length rest <= fuel)%nat -> (length rest <= fuel')%nat ->
  string_loop fuel output rest = string_loop fuel' output rest.
Proof.
  revert fuel' output rest. induction fuel as [|fuel IH]; intros fuel' output rest Hf Hf'.
  { destruct rest; [|cbn in Hf; lia]. by destruct fuel'. }
  destruct rest as [|c rest]; [by destruct fuel'|].
  destruct fuel' as [|fuel']; [cbn in Hf'; lia|]. cbn [string_loop]. cbn in Hf, Hf'.
  destruct (Byte.eqb c quote); [done|]. destruct (bval c <? 0x20); [done|].
  destruct (negb _); [apply IH; lia|].
  destruct rest as [|e rest]; [done|]. cbn in Hf, Hf'.
  destruct (Byte.eqb e "u").
  - destruct (parse_unicode_escape rest) as [[cp r]|] eqn:E; [|done].
    apply parse_unicode_escape_length in E. apply IH; lia.
  - destruct (simple_escape e); [apply IH; lia|done].
Qed.

Lemma string_loop_length fuel output rest s r :
  string_loop fuel output rest = success (s, r) -> (length r < length rest)%nat.
Proof.
  revert output rest. induction fuel as [|fuel IH]; intros output rest; [done|].
  destruct rest as [|c rest]; [done|]. cbn [string_loop length].
  destruct (Byte.eqb c quote); [intros [= _ <-]; lia|]. destruct (bval c <? 0x20); [done|].
  destruct (negb _); [intros H%IH; lia|].
  destruct rest as [|e rest]; [done|]. cbn [length].
  destruct (Byte.eqb e "u").
  - destruct (parse_unicode_escape rest) as [[cp r']|] eqn:E; [|done].
    apply parse_unicode_escape_length in E. intros H%IH. lia.
  - destruct (simple_escape e); [intros H%IH; lia|done].
Qed.

Lemma parse_string_length rest s r :
  parse_string rest = success (s, r) -> (length r < length rest)%nat.
Proof.
  unfold parse_string. destruct (consume quote rest) as [rest1|] eqn:E; [|done].
  apply consume_length in E. intros H%string_loop_length. lia.
Qed.

Lemma skip_digits_length rest : (length (skip_digits rest) <= length rest)%nat.
Proof. induction rest as [|c rest IH]; cbn; [done|]. destruct (is_digit c); cbn; lia. Qed.

Lemma some_digits_length rest r : some_digits rest = Some r -> (length r < length rest)%nat.
Proof.
  destruct rest as [|c rest]; cbn; [done|]. destruct (is_digit c) eqn:E; [|done].
  intros [= <-]. pose proof (skip_digits_length rest). lia.
Qed.

Lemma number_integer_length rest r :
  number_integer rest = Some r -> (length r < length rest)%nat.
Proof.
  unfold number_integer. destruct (consume "0" rest) as [rest1|] eqn:E.
  - apply consume_length in E. destruct rest1 as [|c rest1]; [intros [= <-]; cbn; lia|].
    destruct (is_digit c); [done|]. intros [= <-]. cbn in *. lia.
  - destruct rest as [|c rest]; [done|]. destruct (_ || _) eqn:Ed; [done|].
    intros [= <-]. cbn [skip_digits]. unfold is_digit.
    apply orb_false_iff in Ed as [?%Z.ltb_ge ?%Z.ltb_ge].
    rewrite (proj2 (Z.leb_le _ (bval c))), (proj2 (Z.leb_le (bval c) _)) by
      (cbn in *; lia). cbn [andb length]. pose proof (skip_digits_length rest). lia.
Qed.

Lemma number_fraction_length rest r :
  number_fraction rest = Some r -> (length r <= length rest)%nat.
Proof.
  unfold number_fraction. destruct (consume "." rest) as [rest1|] eqn:E.
  - apply consume_length in E. intros H%some_digits_length. lia.
  - by intros [= <-].
Qed.

Lemma number_exponent_length rest r :
  number_exponent rest = Some r -> (length r <= length rest)%nat.
Proof.
  unfold number_exponent. destruct rest as [|c rest]; [by intros [= <-]|].
  destruct (_ || _); [|by intros [= <-]].
  destruct rest as [|s rest]; [done|].
  destruct (_ || _); intros H%some_digits_length; cbn in *; lia.
Qed.

Lemma default_sign_length rest :
  (length (default rest (consume "-" rest)) <= length rest)%nat.
Proof.
  destruct (consume "-" rest) as [r|] eqn:E; cbn; [|done]. apply consume_length in E. lia.
Qed.

Lemma parse_number_length rest s r :
  parse_number rest = success (s, r) -> (length r < length rest)%nat.
Proof.
  unfold parse_number. pose proof (default_sign_length rest) as Hs.
  destruct (number_integer _) as [r1|] eqn:E1; cbn [mbind option_bind]; [|done].
  destruct (number_fraction r1) as [r2|] eqn:E2; cbn [mbind option_bind]; [|done].
  destruct (number_exponent r2) as [r3|] eqn:E3; [|done]. intros [= _ <-].
  apply number_integer_length in E1. apply number_fraction_length in E2.
  apply number_exponent_length in E3. lia.
Qed.

Lemma consume_literal_length l rest r :
  consume_literal l rest = success (tt, r) -> length rest = (length l + length r)%nat.
Proof.
  unfold consume_literal. case_bool_decide as H; [|done]. intros [= <-].
  rewrite <- H at 2. rewrite length_take, length_drop.
  apply (f_equal length) in H. rewrite length_take in H. lia.
Qed.

(** ** The text of a number *)

Definition no_digit (t : bytes) : Prop :=
  match t with [] => True | c :: _ => is_digit c = false end.

(** What may follow a number. *)
Definition number_stop (t : bytes) : Prop :=
  match t with
  | [] => True
  | c :: _ => is_digit c = false /\ c <> "."%byte /\ c <> "e"%byte /\ c <> "E"%byte
  end.

Lemma number_stop_no_digit t : number_stop t -> no_digit t.
Proof. destruct t; [done|]. by intros [? _]. Qed.

Lemma skip_digits_split x :
  exists d, x = d ++ skip_digits x /\ Forall (fun c => is_digit c = true) d.
Proof.
  induction x as [|c x (d & Hx & Hd)]; [by exists []|]. cbn [skip_digits].
  destruct (is_digit c) eqn:E; [|by exists []].
  exists (c :: d). split; [by rewrite Hx at 1|by constructor].
Qed.

Lemma skip_digits_app d t :
  Forall (fun c => is_digit c = true) d -> no_digit t -> skip_digits (d ++ t) = t.
Proof.
  intros Hd Ht. induction Hd as [|c d Hc _ IH]; cbn [app skip_digits].
  - destruct t as [|c t]; [done|]. cbn in *. by rewrite Ht.
  - by rewrite Hc.
Qed.

Lemma some_digits_split x r :
  some_digits x = Some r ->
  exists d, x = d ++ r /\ d <> [] /\
    forall t, no_digit t -> some_digits (d ++ t) = Some t.
Proof.
  destruct x as [|c x]; cbn [some_digits]; [done|].
  destruct (is_digit c) eqn:Hc; [|done]. intros [= <-]. cbn [skip_digits]. rewrite Hc.
  destruct (skip_digits_split x) as (d & Hx & Hd). exists (c :: d).
  split; [by rewrite Hx at 1|]. split; [done|]. intros t Ht. cbn [app some_digits skip_digits].
  by rewrite Hc, skip_digits_app.
Qed.

Lemma number_integer_split x r :
  number_integer x = Some r ->
  exists i c i', i = c :: i' /\ x = i ++ r /\
    forall t, no_digit t -> number_integer (i ++ t) = Some t.
Proof.
  unfold number_integer. destruct (consume "0" x) as [x1|] eqn:E.
  - apply consume_Some in E as ->. intros Hr.
    assert (r = x1) as -> by (destruct x1 as [|c x1]; [by injection Hr|];
      destruct (is_digit c); [done|]; by injection Hr).
    exists ["0"%byte], "0"%byte, []. split_and!; [done|done|].
    intros [|c t] Ht; [done|]. cbn in *. by rewrite Ht.
  - destruct x as [|c x]; [done|]. destruct (_ || _) eqn:Hc; [done|]. intros [= <-].
    assert (is_digit c = true) as Hd.
    { apply orb_false_iff in Hc as [?%Z.ltb_ge ?%Z.ltb_ge]. unfold is_digit.
      rewrite (proj2 (Z.leb_le _ _)), (proj2 (Z.leb_le _ _)); [done|done|].
      cbn in *; lia. }
    cbn [skip_digits]. rewrite Hd. destruct (skip_digits_split x) as (d & Hx & Hdd).
    exists (c :: d), c, d. split_and!; [done|by rewrite Hx at 1|].
    intros t Ht. cbn [app].
    assert (consume "0" (c :: d ++ t) = None) as ->.
    { cbn in E |- *. by destruct (Byte.eqb c "0"). }
    rewrite Hc. cbn [skip_digits]. by rewrite Hd, skip_digits_app.
Qed.

Lemma number_fraction_split x r :
  number_fraction x = Some r ->
  exists f, x = f ++ r /\ (f = [] \/ exists f', f = "."%byte :: f') /\
    forall t, no_digit t -> (f = [] -> consume "." t = None) ->
      number_fraction (f ++ t) = Some t.
Proof.
  unfold number_fraction. destruct (consume "." x) as [x1|] eqn:E.
  - apply consume_Some in E as ->. intros (d & -> & Hd & Ht)%some_digits_split.
    exists ("."%byte :: d). split_and!; [done|by right; eexists|]. intros t Hnd _.
    cbn [app consume]. rewrite byte_eqb_refl. by apply Ht.
  - intros [= ->]. exists []. split_and!; [done|by left|]. intros t _ Hc. cbn [app].
    by rewrite Hc.
Qed.

Lemma number_exponent_split x r :
  number_exponent x = Some r ->
  exists e, x = e ++ r /\
    (e = [] \/ exists c e', e = c :: e' /\ (c = "e"%byte \/ c = "E"%byte)) /\
    forall t, number_stop t -> number_exponent (e ++ t) = Some t.
Proof.
  unfold number_exponent. destruct x as [|c x].
  { intros [= <-]. exists []. split_and!; [done|by left|].
    intros [|c t] Ht; [done|]. cbn in *. destruct Ht as (_ & _ & He & HE).
    destruct (Byte.eqb c "e") eqn:E1; [by apply byte_eqb_eq in E1|].
    destruct (Byte.eqb c "E") eqn:E2; [by apply byte_eqb_eq in E2|]. done. }
  destruct (Byte.eqb c "e" || Byte.eqb c "E") eqn:Hc.
  2:{ intros [= <-]. exists []. split_and!; [done|by left|].
      intros [|c' t] Ht; [done|]. cbn in *. destruct Ht as (_ & _ & He & HE).
      destruct (Byte.eqb c' "e") eqn:E1; [by apply byte_eqb_eq in E1|].
      destruct (Byte.eqb c' "E") eqn:E2; [by apply byte_eqb_eq in E2|]. done. }
  assert (c = "e"%byte \/ c = "E"%byte) as Hce.
  { apply orb_true_iff in Hc as [->%byte_eqb_eq| ->%byte_eqb_eq]; auto. }
  destruct x as [|s x]; [done|].
  destruct (Byte.eqb s "+" || Byte.eqb s "-") eqn:Hs;
    intros (d & Hx & Hd & Ht)%some_digits_split.
  - exists (c :: s :: d). split_and!; [by rewrite Hx|right; by exists c, (s :: d)|].
    intros t Hstop. cbn [app]. rewrite Hc, Hs. apply Ht. by apply number_stop_no_digit.
  - exists (c :: d). split_and!; [cbn; by rewrite <- Hx|right; by exists c, d|].
    intros t Hstop. cbn [app]. rewrite Hc.
    destruct d as [|s' d]; [done|]. injection Hx as <- Hx.
    cbn [app]. rewrite Hs. change (s :: d ++ t) with ((s :: d) ++ t). apply Ht.
    by apply number_stop_no_digit.
Qed.

(** A number is read back whatever follows it, as long as it cannot go on. *)
Lemma parse_number_split x s r :
  parse_number x = success (s, r) ->
  x = s ++ r /\ forall t, number_stop t -> parse_number (s ++ t) = success (s, t).
Proof.
  unfold parse_number.
  assert (exists sg, x = sg ++ default x (consume "-" x) /\
    (sg = ["-"%byte] \/ sg = [] /\ consume "-" x = None)) as (sg & Hx & Hsg).
  { destruct (consume "-" x) as [y|] eqn:E; cbn.
    - apply consume_Some in E as ->. exists ["-"%byte]. auto.
    - exists []. auto. }
  set (y := default x (consume "-" x)) in *. clearbody y.
  destruct (number_integer y) as [r1|] eqn:E1; cbn [mbind option_bind]; [|done].
  destruct (number_fraction r1) as [r2|] eqn:E2; cbn [mbind option_bind]; [|done].
  destruct (number_exponent r2) as [r3|] eqn:E3; [|done].
  apply number_integer_split in E1 as (i & c & i' & Hi & Hy & Ht1).
  apply number_fraction_split in E2 as (f & Hr1 & Hf & Ht2).
  apply number_exponent_split in E3 as (e & Hr2 & He & Ht3).
  intros [= Hs <-].
  assert (x = (sg ++ i ++ f ++ e) ++ r3) as Hxs.
  { rewrite Hx, Hy, Hr1, Hr2. by rewrite <- !app_assoc. }
  assert (s = sg ++ i ++ f ++ e) as ->.
  { rewrite <- Hs, Hxs. apply take_app_length'. rewrite (length_app (sg ++ _)). lia. }
  split; [done|]. intros t Ht. clear Hs Hxs.
  assert (default ((sg ++ i ++ f ++ e) ++ t) (consume "-" ((sg ++ i ++ f ++ e) ++ t))
          = i ++ f ++ e ++ t) as ->.
  { destruct Hsg as [->|[-> Hno]]; cbn [app]; rewrite <- ?app_assoc; [done|].
    rewrite Hx, Hy, Hi in Hno. rewrite Hi. cbn in Hno |- *.
    by destruct (Byte.eqb c "-"). }
  assert (no_digit (e ++ t)) as Hnd2.
  { destruct He as [->|(ce & e' & -> & [->| ->])]; [by apply number_stop_no_digit|done|done]. }
  rewrite Ht1.
  2:{ destruct Hf as [->|(f' & ->)]; [exact Hnd2|done]. }
  cbn [mbind option_bind]. rewrite Ht2; [|done|].
  2:{ intros _. destruct He as [->|(ce & e' & -> & [->| ->])]; [|done|done].
      destruct t as [|c0 t]; [done|]. cbn. destruct Ht as (_ & Hdot & _).
      destruct (Byte.eqb c0 ".") eqn:E; [by apply byte_eqb_eq in E|done]. }
  cbn [mbind option_bind]. rewrite Ht3 by done.
  rewrite (length_app (sg ++ _)).
  replace (length (sg ++ i ++ f ++ e) + length t - length t)%nat
    with (length (sg ++ i ++ f ++ e)) by lia.
  by rewrite take_app_length.
Qed.

(** ** Every input is answered, and what is accepted is well formed *)

(** The answer is there; a value consumed input, is well formed and stays within
    the nesting. *)
Definition json_answer (bound depth : nat) (o : option (Parsed JsonValue)) : Prop :=
  exists r, o = Some r /\
    match r with
    | success (v, rest) =>
        (length rest < bound)%nat /\ json_wf v /\
        (depth + json_depth v <= kMaximumJsonNesting)%nat
    | failure _ => True
    end.

Lemma json_answer_failure bound depth e : json_answer bound depth (Some (failure e)).
Proof. by eexists. Qed.

Lemma json_answer_weaken bound bound' depth o :
  (bound <= bound')%nat -> json_answer bound depth o -> json_answer bound' depth o.
Proof.
  intros Hb (r & -> & Hr). exists r. split; [done|]. destruct r as [[v rest]|]; [|done].
  destruct Hr as (? & ? & ?). split_and!; (done || lia).
Qed.

Lemma json_depth_object_snoc o k v :
  json_depth (JsonObject (o ++ [(k, v)])) =
  Nat.max (json_depth (JsonObject o)) (S (json_depth v)).
Proof.
  cbn. rewrite foldr_app. cbn. rewrite Nat.max_0_r.
  induction o as [|[k' v'] o IH]; cbn; [done|]. lia.
Qed.

Lemma json_depth_array_snoc a v :
  json_depth (JsonArray (a ++ [v])) =
  Nat.max (json_depth (JsonArray a)) (S (json_depth v)).
Proof.
  cbn. rewrite foldr_app. cbn. rewrite Nat.max_0_r.
  induction a as [|v' a IH]; cbn; [done|]. lia.
Qed.

Lemma has_key_false k o : has_key k o = false <-> k ∉ map fst o.
Proof.
  unfold has_key. rewrite <- not_true_iff_false, existsb_Exists, Exists_exists.
  rewrite list_elem_of_fmap. setoid_rewrite bool_decide_eq_true. naive_solver.
Qed.

Definition value_good (fuel : nat) : Prop := forall rest depth,
  (3 * length rest + 1 <= fuel)%nat -> (depth <= kMaximumJsonNesting)%nat ->
  json_answer (length rest) depth (parse_value fuel rest depth).
Definition object_good (fuel : nat) : Prop := forall rest depth,
  (3 * length rest + 3 <= fuel)%nat -> (1 <= depth <= kMaximumJsonNesting)%nat ->
  json_answer (S (length rest)) (depth - 1) (parse_object fuel rest depth).
Definition object_loop_good (fuel : nat) : Prop := forall o rest depth,
  (3 * length rest + 2 <= fuel)%nat -> (1 <= depth <= kMaximumJsonNesting)%nat ->
  json_wf (JsonObject o) -> (depth - 1 + json_depth (JsonObject o) <= kMaximumJsonNesting)%nat ->
  json_answer (S (length rest)) (depth - 1) (object_loop fuel o rest depth).
Definition array_good (fuel : nat) : Prop := forall rest depth,
  (3 * length rest + 3 <= fuel)%nat -> (1 <= depth <= kMaximumJsonNesting)%nat ->
  json_answer (S (length rest)) (depth - 1) (parse_array fuel rest depth).
Definition array_loop_good (fuel : nat) : Prop := forall a rest depth,
  (3 * length rest + 2 <= fuel)%nat -> (1 <= depth <= kMaximumJsonNesting)%nat ->
  json_wf (JsonArray a) -> (depth - 1 + json_depth (JsonArray a) <= kMaximumJsonNesting)%nat ->
  json_answer (S (length rest)) (depth - 1) (array_loop fuel a rest depth).

Lemma parse_value_step fuel :
  object_good fuel -> array_good fuel -> value_good (S fuel).
Proof.
  intros Hobj Harr [|token tail] depth Hf Hd; cbn [parse_value]; [apply json_answer_failure|].
  cbn [length] in *.
  destruct (Byte.eqb token "{").
  { destruct (Nat.leb_spec kMaximumJsonNesting depth); [apply json_answer_failure|].
    replace depth with (depth + 1 - 1)%nat at 1 by lia. apply Hobj; lia. }
  destruct (Byte.eqb token "[").
  { destruct (Nat.leb_spec kMaximumJsonNesting depth); [apply json_answer_failure|].
    replace depth with (depth + 1 - 1)%nat at 1 by lia. apply Harr; lia. }
  assert (forall l v, json_depth v = 0%nat -> json_wf v -> (1 <= length l)%nat ->
    json_answer (S (length tail)) depth
      (run! (_, rest) := Some (consume_literal l (token :: tail)) in
       Some (success (v, rest)))) as Hlit.
  { intros l v Hv Hwf Hl.
    destruct (consume_literal l (token :: tail)) as [[[] r]|e] eqn:E;
      [|apply json_answer_failure].
    apply consume_literal_length in E. cbn in E. eexists. split; [reflexivity|].
    split_and!; [lia|done|lia]. }
  destruct (Byte.eqb token quote).
  { destruct (parse_string (token :: tail)) as [[s r]|e] eqn:E; [|apply json_answer_failure].
    apply parse_string_length in E. eexists. split; [reflexivity|].
    split_and!; [done|constructor|cbn; lia]. }
  destruct (Byte.eqb token "t"); [apply Hlit; [done|constructor|cbn; lia]|].
  destruct (Byte.eqb token "f"); [apply Hlit; [done|constructor|cbn; lia]|].
  destruct (Byte.eqb token "n"); [apply Hlit; [done|constructor|cbn; lia]|].
  destruct (_ || _); [|apply json_answer_failure].
  destruct (parse_number (token :: tail)) as [[s r]|e] eqn:E; [|apply json_answer_failure].
  pose proof E as Hlen%parse_number_length. apply parse_number_split in E as [_ E].
  eexists. split; [reflexivity|]. split_and!; [done| |cbn; lia].
  constructor. specialize (E [] I). by rewrite app_nil_r in E.
Qed.

Lemma parse_object_step fuel : object_loop_good fuel -> object_good (S fuel).
Proof.
  intros Hloop rest depth Hf Hd. cbn [parse_object].
  pose proof (skip_whitespace_length rest) as Hs.
  destruct (consume "}" (skip_whitespace rest)) as [r|] eqn:E.
  - apply consume_length in E. eexists. split; [reflexivity|]. split_and!; [lia| |cbn; lia].
    constructor; constructor.
  - eapply json_answer_weaken; [|apply Hloop]; [lia|lia|done| |cbn; lia].
    constructor; constructor.
Qed.

Lemma parse_array_step fuel : array_loop_good fuel -> array_good (S fuel).
Proof.
  intros Hloop rest depth Hf Hd. cbn [parse_array].
  pose proof (skip_whitespace_length rest) as Hs.
  destruct (consume "]" (skip_whitespace rest)) as [r|] eqn:E.
  - apply consume_length in E. eexists. split; [reflexivity|]. split_and!; [lia| |cbn; lia].
    constructor; constructor.
  - eapply json_answer_weaken; [|apply Hloop]; [lia|lia|done| |cbn; lia].
    constructor; constructor.
Qed.

Lemma object_loop_step fuel :
  value_good fuel -> object_loop_good fuel -> object_loop_good (S fuel).
Proof.
  intros Hval Hloop o rest depth Hf Hd Hwf Hdep.
  destruct rest as [|c rest]; cbn [object_loop]; [apply json_answer_failure|].
  destruct (negb _); [apply json_answer_failure|].
  destruct (parse_string (c :: rest)) as [[key r1]|e] eqn:E1; [|apply json_answer_failure].
  apply parse_string_length in E1.
  destruct (has_key key o) eqn:Hkey; [apply json_answer_failure|].
  pose proof (skip_whitespace_length r1) as Hs1.
  destruct (consume ":" (skip_whitespace r1)) as [r2|] eqn:E2; [|apply json_answer_failure].
  apply consume_length in E2. pose proof (skip_whitespace_length r2) as Hs2.
  destruct (Hval (skip_whitespace r2) depth) as (rv & -> & Hrv); [lia|lia|].
  destruct rv as [[v r3]|e]; [|apply json_answer_failure]. destruct Hrv as (Hr3 & Hv & Hvd).
  assert (json_wf (JsonObject (o ++ [(key, v)]))) as Hwf'.
  { inversion Hwf as [| | | | |? Hnd Hall|]; subst. constructor.
    - rewrite map_app. apply NoDup_app. split_and!; [done| |apply NoDup_singleton].
      intros x Hx [->|Hnil]%elem_of_cons; [|by apply elem_of_nil in Hnil].
      by apply has_key_false in Hkey.
    - apply Forall_app. split; [done|]. by constructor. }
  assert (depth - 1 + json_depth (JsonObject (o ++ [(key, v)])) <= kMaximumJsonNesting)%nat
    as Hdep' by (rewrite json_depth_object_snoc; lia).
  pose proof (skip_whitespace_length r3) as Hs3.
  destruct (consume "}" (skip_whitespace r3)) as [r4|] eqn:E4.
  { apply consume_length in E4. eexists. split; [reflexivity|]. split_and!; [lia|done|done]. }
  destruct (consume "," (skip_whitespace r3)) as [r5|] eqn:E5; [|apply json_answer_failure].
  apply consume_length in E5. pose proof (skip_whitespace_length r5) as Hs5.
  eapply json_answer_weaken; [|apply Hloop]; (done || lia).
Qed.

Lemma array_loop_step fuel :
  value_good fuel -> array_loop_good fuel -> array_loop_good (S fuel).
Proof.
  intros Hval Hloop a rest depth Hf Hd Hwf Hdep.
  destruct rest as [|c rest]; cbn [array_loop]; [apply json_answer_failure|].
  destruct (Hval (c :: rest) depth) as (rv & -> & Hrv); [lia|lia|].
  destruct rv as [[v r3]|e]; [|apply json_answer_failure]. destruct Hrv as (Hr3 & Hv & Hvd).
  assert (json_wf (JsonArray (a ++ [v]))) as Hwf'.
  { inversion Hwf as [| | | | | |? Hall]; subst. constructor.
    apply Forall_app. split; [done|]. by constructor. }
  assert (depth - 1 + json_depth (JsonArray (a ++ [v])) <= kMaximumJsonNesting)%nat
    as Hdep' by (rewrite json_depth_array_snoc; lia).
  pose proof (skip_whitespace_length r3) as Hs3.
  destruct (consume "]" (skip_whitespace r3)) as [r4|] eqn:E4.
  { apply consume_length in E4. eexists. split; [reflexivity|]. split_and!; [lia|done|done]. }
  destruct (consume "," (skip_whitespace r3)) as [r5|] eqn:E5; [|apply json_answer_failure].
  apply consume_length in E5. pose proof (skip_whitespace_length r5) as Hs5.
  eapply json_answer_weaken; [|apply Hloop]; (done || lia).
Qed.

Lemma parse_good fuel :
  value_good fuel /\ object_good fuel /\ object_loop_good fuel /\
  array_good fuel /\ array_loop_good fuel.
Proof.
  induction fuel as [|fuel (Hv & Ho & Hol & Ha & Hal)].
  - split_and!; intros; intro; intros; lia.
  - split_and!; [by apply parse_value_step|by apply parse_object_step|
      by apply object_loop_step|by apply parse_array_step|by apply array_loop_step].
Qed.

Lemma JsonParser_parse_answer input :
  exists r, JsonParser_parse input = Some r /\
    forall v, r = success v -> json_wf v /\ (json_depth v <= kMaximumJsonNesting)%nat.
Proof.
  unfold JsonParser_parse. pose proof (skip_whitespace_length input) as Hs.
  destruct (parse_good (json_fuel input)) as (Hv & _).
  destruct (Hv (skip_whitespace input) 0%nat) as (r & -> & Hr);
    [unfold json_fuel; lia|lia|].
  destruct r as [[v rest]|e]; [|by eexists]. destruct Hr as (_ & Hwf & Hd).
  destruct (skip_whitespace rest); [|by eexists].
  eexists. split; [reflexivity|]. by intros v' [= <-].
Qed.

(** ** Reading what was printed *)

(** One turn of the loop reads one escaped character. *)
Lemma string_loop_escape fuel output c rest :
  string_loop (S fuel) output (escape_character c ++ rest) =
  string_loop fuel (output ++ [c]) rest.
Proof. by destruct c. Qed.

Lemma string_loop_print value fuel output rest :
  (length value < fuel)%nat ->
  string_loop fuel output (concat (map escape_character value) ++ quote :: rest) =
  success (output ++ value, rest).
Proof.
  revert fuel output. induction value as [|c value IH]; intros fuel output Hf; cbn in Hf.
  - destruct fuel as [|fuel]; [lia|]. cbn. by rewrite app_nil_r.
  - destruct fuel as [|fuel]; [lia|]. cbn [map concat].
    rewrite <- app_assoc, string_loop_escape, IH by lia. by rewrite <- app_assoc.
Qed.

Lemma escape_character_length c : (1 <= length (escape_character c) <= 6)%nat.
Proof. destruct c; cbn; lia. Qed.

Lemma escaped_length value :
  (length value <= length (concat (map escape_character value)) <= 6 * length value)%nat.
Proof.
  induction value as [|c value IH]; cbn [map concat length]; [lia|].
  rewrite length_app. pose proof (escape_character_length c). lia.
Qed.

Lemma parse_string_print value rest :
  parse_string (append_json_string value ++ rest) = success (value, rest).
Proof.
  unfold parse_string, append_json_string. cbn [app consume]. rewrite byte_eqb_refl.
  rewrite <- app_assoc. cbn [app].
  rewrite string_loop_print; [done|]. rewrite length_app. cbn.
  pose proof (escaped_length value). lia.
Qed.

(** What may follow a value. *)
Definition value_stop (t : bytes) : Prop := number_stop t.

Lemma not_space_skip c rest : is_json_space c = false -> skip_whitespace (c :: rest) = c :: rest.
Proof. cbn. by intros ->. Qed.

(** The first character of a printed value, and what it is not. *)
Lemma json_print_head v :
  json_wf v -> exists c t, json_print v = c :: t /\ is_json_space c = false /\
    c <> "]"%byte.
Proof.
  intros Hv. destruct Hv as [| | |s Hs|s| |]; try (by do 2 eexists).
  unfold parse_number in Hs. destruct s as [|c s]; [done|]. exists c, s.
  split; [done|]. by destruct c.
Qed.

(** A printed value is read back from the front of any text that cannot extend
    it. *)
Definition reads (v : JsonValue) : Prop := json_wf v -> forall fuel rest depth,
  (3 * length (json_print v ++ rest) + 1 <= fuel)%nat ->
  (depth + json_depth v <= kMaximumJsonNesting)%nat -> value_stop rest ->
  parse_value fuel (json_print v ++ rest) depth = Some (success (v, rest)).

Lemma print_entries_cons (e : bytes) es :
  comma_separated (e :: es) = e ++ match es with [] => [] | _ => "," :: comma_separated es end%byte.
Proof. destruct es as [|x es]; cbn; [done|]. by rewrite <- ?app_comm_cons. Qed.

Lemma json_depth_member o k v :
  (k, v) ∈ o -> (S (json_depth v) <= json_depth (JsonObject o))%nat.
Proof.
  cbn. induction o as [|[k' v'] o IH]; [by intros ?%elem_of_nil|].
  intros [[= <- <-]|Hin]%elem_of_cons; cbn; [lia|]. specialize (IH Hin). lia.
Qed.

Lemma json_depth_element a v :
  v ∈ a -> (S (json_depth v) <= json_depth (JsonArray a))%nat.
Proof.
  cbn. induction a as [|v' a IH]; [by intros ?%elem_of_nil|].
  intros [->|Hin]%elem_of_cons; cbn; [lia|]. specialize (IH Hin). lia.
Qed.

Definition print_entry (e : bytes * JsonValue) : bytes :=
  append_json_string (fst e) ++ [":"%byte] ++ json_print (snd e).

Lemma object_loop_print es acc fuel rest depth :
  es <> [] -> Forall (fun e => json_wf (snd e)) es -> Forall (fun e => reads (snd e)) es ->
  NoDup (map fst (acc ++ es)) ->
  (forall e, e ∈ es -> (depth + json_depth (snd e) <= kMaximumJsonNesting)%nat) ->
  (3 * length (comma_separated (map print_entry es) ++ "}"%byte :: rest) + 2 <= fuel)%nat ->
  object_loop fuel acc (comma_separated (map print_entry es) ++ "}"%byte :: rest) depth =
  Some (success (JsonObject (acc ++ es), rest)).
Proof.
  revert acc fuel. induction es as [|[k v] es IH]; [done|].
  intros acc fuel _ [Hwf Hwfs]%Forall_cons [Hr Hrs]%Forall_cons Hnd Hdep Hf.
  cbn [map] in *. rewrite print_entries_cons in *.
  set (tail := match map print_entry es with [] => [] | _ => _ end) in *.
  change (print_entry (k, v)) with (append_json_string k ++ [":"%byte] ++ json_print v) in *.
  cbn [fst snd] in *.
  destruct fuel as [|fuel]; [lia|].
  rewrite <- !app_assoc in *.
  assert (exists t, append_json_string k ++ [":"%byte] ++ json_print v ++ tail ++ "}"%byte :: rest
          = quote :: t) as [t Ht] by (by eexists).
  cbn [object_loop]. rewrite Ht. cbn [Byte.eqb negb]. rewrite byte_eqb_refl. cbn [negb].
  rewrite <- Ht, parse_string_print.
  assert (has_key k acc = false) as ->.
  { apply has_key_false. rewrite map_app, NoDup_app in Hnd. destruct Hnd as (_ & Hnd & _).
    intros Hin. apply (Hnd k Hin). left. }
  cbn [app]. rewrite not_space_skip by done. cbn [consume]. rewrite byte_eqb_refl.
  destruct (json_print_head v Hwf) as (c & t' & Hc & Hsp & _).
  rewrite Hc. cbn [app]. rewrite not_space_skip by done.
  change (c :: t' ++ tail ++ "}"%byte :: rest) with ((c :: t') ++ tail ++ "}"%byte :: rest).
  rewrite <- Hc.
  assert (value_stop (tail ++ "}"%byte :: rest)) as Hstop.
  { unfold tail. destruct (map print_entry es); by split_and!. }
  rewrite Hr; [|done| |by apply (Hdep (k, v)); left|done].
  2:{ rewrite !length_app in *. cbn in Hf |- *. lia. }
  destruct es as [|e2 es]; cbn [map] in tail; unfold tail; cbn [app].
  - rewrite not_space_skip by done. cbn [consume]. by rewrite byte_eqb_refl.
  - rewrite not_space_skip by done. cbn [consume].
    replace (Byte.eqb "," "}") with false by done. rewrite byte_eqb_refl.
    assert (exists t2, comma_separated (print_entry e2 :: map print_entry es) ++ "}"%byte :: rest
            = quote :: t2) as [t2 Ht2].
    { rewrite print_entries_cons. unfold print_entry at 1. unfold append_json_string.
      cbn [app]. by eexists. }
    rewrite Ht2, not_space_skip, <- Ht2 by done.
    rewrite (IH (acc ++ [(k, v)])); [by rewrite <- app_assoc|done|done|done| | |].
    + by rewrite <- app_assoc.
    + intros e He. apply Hdep. by right.
    + unfold tail in Hf. rewrite !length_app in *. cbn in Hf |- *. lia.
Qed.

Lemma array_loop_print vs acc fuel rest depth :
  vs <> [] -> Forall json_wf vs -> Forall reads vs ->
  (forall v, v ∈ vs -> (depth + json_depth v <= kMaximumJsonNesting)%nat) ->
  (3 * length (comma_separated (map json_print vs) ++ "]"%byte :: rest) + 2 <= fuel)%nat ->
  array_loop fuel acc (comma_separated (map json_print vs) ++ "]"%byte :: rest) depth =
  Some (success (JsonArray (acc ++ vs), rest)).
Proof.
  revert acc fuel. induction vs as [|v vs IH]; [done|].
  intros acc fuel _ [Hwf Hwfs]%Forall_cons [Hr Hrs]%Forall_cons Hdep Hf.
  cbn [map] in *. rewrite print_entries_cons in *.
  set (tail := match map json_print vs with [] => [] | _ => _ end) in *.
  destruct fuel as [|fuel]; [lia|]. rewrite <- !app_assoc in *.
  destruct (json_print_head v Hwf) as (c & t' & Hc & Hsp & _).
  cbn [array_loop]. rewrite Hc. cbn [app].
  change (c :: t' ++ tail ++ "]"%byte :: rest) with ((c :: t') ++ tail ++ "]"%byte :: rest).
  rewrite <- Hc.
  assert (value_stop (tail ++ "]"%byte :: rest)) as Hstop.
  { unfold tail. destruct (map json_print vs); by split_and!. }
  rewrite Hr; [|done| |by apply Hdep; left|done].
  2:{ rewrite !length_app in *. cbn in Hf |- *. lia. }
  destruct vs as [|v2 vs]; cbn [map] in tail; unfold tail; cbn [app].
  - rewrite not_space_skip by done. cbn [consume]. by rewrite byte_eqb_refl.
  - rewrite not_space_skip by done. cbn [consume].
    replace (Byte.eqb "," "]") with false by done. rewrite byte_eqb_refl.
    apply Forall_cons in Hwfs as Hwf2. destruct Hwf2 as [Hwf2 _].
    destruct (json_print_head v2 Hwf2) as (c2 & t2 & Hc2 & Hsp2 & _).
    assert (comma_separated (json_print v2 :: map json_print vs) ++ "]"%byte :: rest
            = c2 :: (t2 ++ match map json_print vs with [] => [] | _ =>
                      "," :: comma_separated (map json_print vs) end%byte) ++
              "]"%byte :: rest) as Ht2.
    { by rewrite print_entries_cons, Hc2. }
    rewrite Ht2, not_space_skip, <- Ht2 by done.
    rewrite (IH (acc ++ [v])); [by rewrite <- app_assoc|done|done|done| |].
    + intros e He. apply Hdep. by right.
    + unfold tail in Hf. rewrite !length_app in *. cbn in Hf |- *. lia.
Qed.

Lemma consume_literal_print l rest : consume_literal l (l ++ rest) = success (tt, rest).
Proof.
  unfold consume_literal. rewrite take_app_length, bool_decide_eq_true_2 by done.
  by rewrite drop_app_length.
Qed.

(** The first character of a number. *)
Lemma json_number_head s :
  parse_number s = success (s, []) -> exists c t, s = c :: t /\
    (Byte.eqb c "-" || is_digit c) = true.
Proof.
  unfold parse_number. destruct s as [|c s]; [done|]. intros H. exists c, s.
  split; [done|]. destruct (Byte.eqb c "-") eqn:Em; [done|]. cbn [orb].
  cbn [consume] in H. rewrite Em in H. cbn [default from_option id] in H.
  destruct (number_integer (c :: s)) as [r|] eqn:E; [|done].
  unfold number_integer in E. cbn [consume] in E.
  destruct (Byte.eqb c "0") eqn:E0; [by apply byte_eqb_eq in E0 as ->|].
  destruct (_ || _) eqn:Ed; [done|].
  apply orb_false_iff in Ed as [?%Z.ltb_ge ?%Z.ltb_ge]. unfold is_digit.
  rewrite (proj2 (Z.leb_le _ _)), (proj2 (Z.leb_le _ _)); [done|done|]. cbn in *; lia.
Qed.

Lemma value_reads v : reads v.
Proof.
  induction v as [|s|s|s|o IH|a IH] using JsonValue_nested_ind;
    intros Hwf fuel rest depth Hf Hd Hstop;
    (destruct fuel as [|fuel]; [lia|]).
  - change (json_print JsonNull) with (str "null"). cbn [parse_value app str].
    change (parse_value (S fuel) (str "null" ++ rest) depth) with
      (run! (_, rest) := Some (consume_literal (str "null") (str "null" ++ rest)) in
        Some (success (JsonNull, rest))).
    by rewrite consume_literal_print.
  - inversion Hwf; subst.
    + change (parse_value (S fuel) (json_print (JsonBoolean (str "true")) ++ rest) depth) with
        (run! (_, rest) := Some (consume_literal (str "true") (str "true" ++ rest)) in
          Some (success (JsonBoolean (str "true"), rest))).
      by rewrite consume_literal_print.
    + change (parse_value (S fuel) (json_print (JsonBoolean (str "false")) ++ rest) depth) with
        (run! (_, rest) := Some (consume_literal (str "false") (str "false" ++ rest)) in
          Some (success (JsonBoolean (str "false"), rest))).
      by rewrite consume_literal_print.
  - inversion Hwf as [| | |? Hs| | |]; subst. cbn [json_print].
    destruct (json_number_head s Hs) as (c & t & Hct & Hc).
    pose proof (parse_number_split _ _ _ Hs) as [_ Hn]. specialize (Hn rest Hstop).
    rewrite Hct in Hn |- *. cbn [app parse_value] in *.
    assert (Byte.eqb c "{" = false /\ Byte.eqb c "[" = false /\ Byte.eqb c quote = false /\
      Byte.eqb c "t" = false /\ Byte.eqb c "f" = false /\ Byte.eqb c "n" = false)
      as (-> & -> & -> & -> & -> & ->) by (clear -Hc; by destruct c).
    by rewrite Hc, Hn.
  - cbn [json_print].
    assert (parse_value (S fuel) (append_json_string s ++ rest) depth =
      (run! (s, rest) := Some (parse_string (append_json_string s ++ rest)) in
        Some (success (JsonString s, rest)))) as -> by done.
    by rewrite parse_string_print.
  - inversion Hwf as [| | | | |? Hnd Hall|]; subst. cbn [json_print] in *.
    rewrite <- !app_assoc in *. cbn [app parse_value] in *.
    replace (Byte.eqb "{" "{") with true by done.
    pose proof (proj1 (Nat.leb_gt kMaximumJsonNesting depth)) as _.
    destruct (Nat.leb_spec kMaximumJsonNesting depth); [cbn in Hd; lia|].
    destruct fuel as [|fuel]; [cbn in Hf; lia|]. cbn [parse_object].
    destruct o as [|e o].
    { cbn [map comma_separated app]. rewrite not_space_skip by done.
      cbn [consume]. by rewrite byte_eqb_refl. }
    change (map (fun e => append_json_string (fst e) ++ ":"%byte :: json_print (snd e))
              (e :: o)) with (map print_entry (e :: o)) in *.
    assert (exists t, comma_separated (map print_entry (e :: o)) ++ "}"%byte :: rest
            = quote :: t) as [t Ht].
    { cbn [map]. rewrite print_entries_cons. unfold print_entry at 1, append_json_string.
      cbn [app]. by eexists. }
    rewrite Ht, not_space_skip by done. cbn [consume].
    replace (Byte.eqb quote "}") with false by done. rewrite <- Ht.
    rewrite (object_loop_print (e :: o) []); try done.
    + intros e' He'. destruct e' as [k' v']. pose proof (json_depth_member _ _ _ He'). cbn [snd].
      lia.
    + cbn [length] in Hf. lia.
  - inversion Hwf as [| | | | | |? Hall]; subst. cbn [json_print] in *.
    rewrite <- !app_assoc in *. cbn [app parse_value] in *.
    replace (Byte.eqb "[" "{") with false by done. replace (Byte.eqb "[" "[") with true by done.
    destruct (Nat.leb_spec kMaximumJsonNesting depth); [cbn in Hd; lia|].
    destruct fuel as [|fuel]; [cbn in Hf; lia|]. cbn [parse_array].
    destruct a as [|w a].
    { cbn [map comma_separated app]. rewrite not_space_skip by done.
      cbn [consume]. by rewrite byte_eqb_refl. }
    assert (exists c t, comma_separated (map json_print (w :: a)) ++ "]"%byte :: rest
            = c :: t /\ is_json_space c = false /\ c <> "]"%byte) as (c & t & Ht & Hsp & Hne).
    { cbn [map]. rewrite print_entries_cons. apply Forall_cons in Hall as [Hw _].
      destruct (json_print_head w Hw) as (c & t & -> & ? & ?). cbn [app]. by do 2 eexists. }
    rewrite Ht, not_space_skip by done. cbn [consume].
    replace (Byte.eqb c "]") with false
      by (destruct (Byte.eqb c "]") eqn:E; [by apply byte_eqb_eq in E|done]).
    rewrite <- Ht. rewrite (array_loop_print (w :: a) []); try done.
    + intros v' Hv'. pose proof (json_depth_element _ _ Hv'). lia.
    + cbn [length] in Hf. lia.
Qed.

Lemma skip_whitespace_spaces ws rest :
  Forall (fun c => is_json_space c = true) ws ->
  skip_whitespace (ws ++ rest) = skip_whitespace rest.
Proof. induction 1 as [|c ws Hc _ IH]; cbn; [done|]. by rewrite Hc. Qed.

Lemma spaces_stop ws : Forall (fun c => is_json_space c = true) ws -> value_stop ws.
Proof. intros [|c ws' Hc _]; [done|]. by destruct c. Qed.

Lemma JsonParser_parse_print v pre post :
  json_wf v -> (json_depth v <= kMaximumJsonNesting)%nat ->
  Forall (fun c => is_json_space c = true) pre ->
  Forall (fun c => is_json_space c = true) post ->
  JsonParser_parse (pre ++ json_print v ++ post) = Some (success v).
Proof.
  intros Hwf Hd Hpre Hpost. unfold JsonParser_parse.
  rewrite skip_whitespace_spaces by done.
  destruct (json_print_head v Hwf) as (c & t & Hc & Hsp & _).
  assert (skip_whitespace (json_print v ++ post) = json_print v ++ post) as ->.
  { rewrite Hc. cbn [app]. by apply not_space_skip. }
  rewrite (value_reads v Hwf); [|unfold json_fuel; rewrite !length_app; lia|done|by apply spaces_stop].
  assert (skip_whitespace post = []) as ->.
  { rewrite <- (app_nil_r post). by rewrite skip_whitespace_spaces. }
  done.
Qed.

(** ** Property theorems *)

(** C30: the JSON reader is strict and never fails to answer.  Every input gets a
    value or an error (the recursion always has enough fuel); an accepted value
    has no object with a repeated key and at most twelve levels of nesting; and
    conversely every such value is read back from its compact text, with any
    white space around it. *)
Theorem JsonParser_strict input :
  (exists r, JsonParser_parse input = Some r /\
     forall v, r = success v -> json_wf v /\ (json_depth v <= kMaximumJsonNesting)%nat) /\
  (forall v pre post,
     json_wf v -> (json_depth v <= kMaximumJsonNesting)%nat ->
     Forall (fun c => is_json_space c = true) pre ->
     Forall (fun c => is_json_space c = true) post ->
     input = pre ++ json_print v ++ post ->
     JsonParser_parse input = Some (success v)).
Proof.
  split; [apply JsonParser_parse_answer|].
  intros v pre post ? ? ? ? ->. by apply JsonParser_parse_print.
Qed.
