(* ===== verification/SettingsJson.v ===== *)
(** * SettingsJson: the settings file

    The two public functions of src/adapters/storage/settings_json.cpp and the
    record of src/persistence/settings_record.h.  The tree is read by the parser
    of Json.v; [settings_value] states the schema the reader enforces. *)
From S2P Require Import Prelude Utf8 Text Uuid Decimal Json.

(** ** Definitions *)

(** *** persistence/settings_record.h *)

Inductive StoredLocale :=
| Locale_English
| Locale_Japanese
| Locale_SimplifiedChinese.

Definition stored_locale_code (locale : StoredLocale) : bytes :=
  match locale with
  | Locale_English => str "en"
  | Locale_Japanese => str "ja"
  | Locale_SimplifiedChinese => str "zh-Hans"
  end.

Record SettingsRecord := mkSettingsRecord {
  settings_generation : Z;
  settings_install_id : InstallId;
  settings_user_id : UserId;
  settings_sender_sequence_high_watermark : Z;
  settings_locale : StoredLocale;
  settings_history_initialized : bool;
  settings_skip_title : bool
}.

#[global] Instance StoredLocale_eq_decision : EqDecision StoredLocale.
Proof. solve_decision. Defined.
#[global] Instance SettingsRecord_eq_decision : EqDecision SettingsRecord.
Proof. solve_decision. Defined.

(** *** Reading *)

Definition kSettingsFormat : bytes := str "lora-messenger.settings".

Definition Fields := list (bytes * JsonValue).

(** The [identity] object. *)
Definition parse_settings_identity (ident : Fields)
  : Result (InstallId * UserId * Z) SettingsJsonError :=
  if negb (has_only_keys ident
             [str "install_uuid"; str "user_id"; str "sender_sequence_high_watermark"])
  then failure SettingsError_UnknownKey
  else
    match member ident (str "install_uuid"), member ident (str "user_id"),
          member ident (str "sender_sequence_high_watermark") with
    | Some install_uuid, Some user_id, Some sender_sequence =>
        match install_uuid, user_id, sender_sequence with
        | JsonString install_uuid, JsonString user_id, JsonString sender_sequence =>
            match Uuid_parse install_uuid with
            | None => failure SettingsError_InvalidInstallUuid
            | Some uuid =>
                if negb (bool_decide (Uuid_to_string uuid = install_uuid)) ||
                   negb (Uuid_is_v4 uuid)
                then failure SettingsError_InvalidInstallUuid
                else
                  match InstallId_from_uuid uuid with
                  | failure _ => failure SettingsError_InvalidInstallUuid
                  | success install_id =>
                      match UserId_create user_id with
                      | failure _ => failure SettingsError_InvalidUserId
                      | success parsed_user_id =>
                          match parse_canonical_uint64 sender_sequence with
                          | None => failure SettingsError_InvalidSenderSequence
                          | Some parsed_sender_sequence =>
                              success (install_id, parsed_user_id, parsed_sender_sequence)
                          end
                      end
                  end
            end
        | _, _, _ => failure SettingsError_WrongType
        end
    | _, _, _ => failure SettingsError_MissingKey
    end.

Definition stored_locale_of_code (locale : bytes) : option StoredLocale :=
  if bool_decide (locale = str "en") then Some Locale_English
  else if bool_decide (locale = str "ja") then Some Locale_Japanese
  else if bool_decide (locale = str "zh-Hans") then Some Locale_SimplifiedChinese
  else None.

Definition is_boolean (v : option JsonValue) : bool :=
  match v with Some (JsonBoolean _) => true | _ => false end.

Definition is_true_literal (v : option JsonValue) : bool :=
  match v with Some (JsonBoolean s) => bool_decide (s = str "true") | _ => false end.

(** The [ui] object; [skip_title] came with schema version 2. *)
Definition parse_settings_ui (schema_v1 schema_v2 : bool) (ui : Fields)
  : Result (StoredLocale * bool) SettingsJsonError :=
  if (schema_v1 && negb (has_only_keys ui [str "locale"])) ||
     (schema_v2 && negb (has_only_keys ui [str "locale"; str "skip_title"]))
  then failure SettingsError_UnknownKey
  else
    let skip_title := member ui (str "skip_title") in
    match member ui (str "locale") with
    | None => failure SettingsError_MissingKey
    | Some locale =>
        if schema_v2 && negb (bool_decide (is_Some skip_title))
        then failure SettingsError_MissingKey
        else
          match locale with
          | JsonString locale =>
              if schema_v2 && negb (is_boolean skip_title)
              then failure SettingsError_WrongType
              else
                match stored_locale_of_code locale with
                | None => failure SettingsError_InvalidLocale
                | Some stored_locale =>
                    success (stored_locale, schema_v2 && is_true_literal skip_title)
                end
          | _ => failure SettingsError_WrongType
          end
    end.

(** The [history] object. *)
Definition parse_settings_history (history : Fields) : Result bool SettingsJsonError :=
  if negb (has_only_keys history [str "initialized"]) then failure SettingsError_UnknownKey
  else
    match member history (str "initialized") with
    | None => failure SettingsError_MissingKey
    | Some initialized =>
        if negb (is_boolean (Some initialized)) then failure SettingsError_WrongType
        else success (is_true_literal (Some initialized))
    end.

(** The early returns between the parts. *)
Notation "'try!' x ':=' r 'in' k" :=
  (match r with success x => k | failure e => failure e end)
  (at level 10, x name, r at level 100, k at level 200).

(** What [parse_settings_json] does with the parsed tree. *)
Definition parse_settings_root (root : JsonValue) : Result SettingsRecord SettingsJsonError :=
  match root with
  | JsonObject root =>
      if negb (has_only_keys root
                 [str "format"; str "schema_version"; str "generation"; str "identity";
                  str "ui"; str "history"])
      then failure SettingsError_UnknownKey
      else
        match member root (str "format"), member root (str "schema_version"),
              member root (str "generation"), member root (str "identity"),
              member root (str "ui"), member root (str "history") with
        | Some format, Some schema_version, Some generation, Some ident, Some ui,
          Some history =>
            match format, schema_version, generation, ident, ui, history with
            | JsonString format, JsonNumber schema_version, JsonString generation,
              JsonObject ident, JsonObject ui, JsonObject history =>
                if negb (bool_decide (format = kSettingsFormat))
                then failure SettingsError_UnsupportedFormat
                else
                  let schema_v1 := bool_decide (schema_version = str "1") in
                  let schema_v2 := bool_decide (schema_version = str "2") in
                  if negb schema_v1 && negb schema_v2
                  then failure SettingsError_UnsupportedSchemaVersion
                  else
                    match parse_canonical_uint64 generation with
                    | None => failure SettingsError_InvalidGeneration
                    | Some parsed_generation =>
                        if parsed_generation =? 0 then failure SettingsError_InvalidGeneration
                        else
                          try! id := parse_settings_identity ident in
                          try! loc := parse_settings_ui schema_v1 schema_v2 ui in
                          try! initialized := parse_settings_history history in
                          success (mkSettingsRecord parsed_generation (fst (fst id))
                                     (snd (fst id)) (snd id) (fst loc) initialized (snd loc))
                    end
            | _, _, _, _, _, _ => failure SettingsError_WrongType
            end
        | _, _, _, _, _, _ => failure SettingsError_MissingKey
        end
  | _ => failure SettingsError_WrongType
  end.

Definition parse_settings_json (json : bytes)
  : option (Result SettingsRecord SettingsJsonError) :=
  if (kMaxSettingsJsonBytes <? length json)%nat then Some (failure SettingsError_TooLarge)
  else if negb (is_valid_utf8 json) then Some (failure SettingsError_InvalidUtf8)
  else
    match JsonParser_parse json with
    | None => None
    | Some (failure e) => Some (failure e)
    | Some (success root) => Some (parse_settings_root root)
    end.

(** *** Writing *)

(** A literal of the source, with the quotes written as apostrophes. *)
Definition literal (s : String.string) : bytes :=
  map (fun c => if Byte.eqb c "'" then quote else c) (str s).

Arguments literal _%_string_scope.

Definition bool_literal (b : bool) : bytes := if b then str "true" else str "false".

Definition settings_output (settings : SettingsRecord) (locale : bytes) : bytes :=
  literal "{'format':" ++
  append_json_string kSettingsFormat ++
  literal ",'schema_version':2,'generation':" ++
  append_json_string (to_string settings.(settings_generation)) ++
  literal ",'identity':{'install_uuid':" ++
  append_json_string (Uuid_to_string settings.(settings_install_id).(InstallId_uuid)) ++
  literal ",'user_id':" ++
  append_json_string settings.(settings_user_id).(UserId_value) ++
  literal ",'sender_sequence_high_watermark':" ++
  append_json_string (to_string settings.(settings_sender_sequence_high_watermark)) ++
  literal "},'ui':{'locale':" ++
  append_json_string locale ++
  literal ",'skip_title':" ++
  bool_literal settings.(settings_skip_title) ++
  literal "},'history':{'initialized':" ++
  bool_literal settings.(settings_history_initialized) ++
  literal "}}" ++ [x0a].

Definition serialize_settings_json (settings : SettingsRecord)
  : Result bytes SettingsJsonError :=
  if settings.(settings_generation) =? 0 then failure SettingsError_InvalidGeneration
  else
    let locale := stored_locale_code settings.(settings_locale) in
    if (length locale =? 0)%nat then failure SettingsError_InvalidLocale
    else
      let output := settings_output settings locale in
      if (kMaxSettingsJsonBytes <? length output)%nat then failure SettingsError_TooLarge
      else success output.

(** ** Specification vocabulary *)

(** A record the two functions can exchange. *)
Definition SettingsRecord_wf (s : SettingsRecord) : Prop :=
  is_u64 s.(settings_generation) /\ s.(settings_generation) <> 0 /\
  InstallId_wf s.(settings_install_id) /\ UserId_wf s.(settings_user_id) /\
  is_u64 s.(settings_sender_sequence_high_watermark).

(** An object with these fields and no others, in any order. *)
Definition has_fields (v : JsonValue) (fields : Fields) : Prop :=
  exists object, v = JsonObject object /\ object ≡ₚ fields.

(** The schema of the settings file: the tree of a record, version 1 or 2. *)
Inductive settings_value : JsonValue -> SettingsRecord -> Prop :=
| settings_value_intro root ident ui history version s :
    has_fields root
      [(str "format", JsonString kSettingsFormat);
       (str "schema_version", JsonNumber version);
       (str "generation", JsonString (to_string s.(settings_generation)));
       (str "identity", ident); (str "ui", ui); (str "history", history)] ->
    has_fields ident
      [(str "install_uuid",
        JsonString (Uuid_to_string s.(settings_install_id).(InstallId_uuid)));
       (str "user_id", JsonString s.(settings_user_id).(UserId_value));
       (str "sender_sequence_high_watermark",
        JsonString (to_string s.(settings_sender_sequence_high_watermark)))] ->
    version = str "1" /\ s.(settings_skip_title) = false /\
      has_fields ui
        [(str "locale", JsonString (stored_locale_code s.(settings_locale)))] \/
    version = str "2" /\
      has_fields ui
        [(str "locale", JsonString (stored_locale_code s.(settings_locale)));
         (str "skip_title", JsonBoolean (bool_literal s.(settings_skip_title)))] ->
    has_fields history
      [(str "initialized", JsonBoolean (bool_literal s.(settings_history_initialized)))] ->
    SettingsRecord_wf s ->
    settings_value root s.

(** The tree [serialize_settings_json] writes. *)
Definition settings_tree (s : SettingsRecord) : JsonValue :=
  JsonObject
    [(str "format", JsonString kSettingsFormat);
     (str "schema_version", JsonNumber (str "2"));
     (str "generation", JsonString (to_string s.(settings_generation)));
     (str "identity", JsonObject
       [(str "install_uuid",
         JsonString (Uuid_to_string s.(settings_install_id).(InstallId_uuid)));
        (str "user_id", JsonString s.(settings_user_id).(UserId_value));
        (str "sender_sequence_high_watermark",
         JsonString (to_string s.(settings_sender_sequence_high_watermark)))]);
     (str "ui", JsonObject
       [(str "locale", JsonString (stored_locale_code s.(settings_locale)));
        (str "skip_title", JsonBoolean (bool_literal s.(settings_skip_title)))]);
     (str "history", JsonObject
       [(str "initialized", JsonBoolean (bool_literal s.(settings_history_initialized)))])].

(** ** Objects *)

Lemma member_In o k v : member o k = Some v -> (k, v) ∈ o.
Proof.
  unfold member. intros H. apply fmap_Some in H as ([k' v'] & Hf & Hv).
  cbn in Hv. subst v'. apply find_some in Hf as [Hin Hk]. apply bool_decide_eq_true in Hk as <-.
  by apply list_elem_of_In.
Qed.

Lemma member_None o k : member o k = None <-> k ∉ map fst o.
Proof.
  unfold member. rewrite fmap_None, find_None_iff, Forall_forall, list_elem_of_fmap.
  setoid_rewrite bool_decide_eq_false. naive_solver.
Qed.

Lemma member_Some o k v : NoDup (map fst o) -> member o k = Some v <-> (k, v) ∈ o.
Proof.
  intros Hnd. split; [apply member_In|]. intros Hin.
  destruct (member o k) as [v'|] eqn:E.
  - apply member_In in E. f_equal. clear -Hnd Hin E.
    induction o as [|[k0 v0] o IH]; [by apply elem_of_nil in Hin|].
    cbn in Hnd. apply NoDup_cons in Hnd as [Hn Hnd].
    assert (forall x, (k0, x) ∈ o -> False) as Hno.
    { intros x Hx. apply Hn. by apply (list_elem_of_fmap_2 fst) in Hx. }
    apply elem_of_cons in Hin as [Hin|Hin], E as [E|E]; naive_solver.
  - apply member_None in E. destruct E. by apply (list_elem_of_fmap_2 fst) in Hin.
Qed.

Lemma has_only_keys_spec o ks :
  has_only_keys o ks = true <-> forall e, e ∈ o -> fst e ∈ ks.
Proof.
  unfold has_only_keys. rewrite forallb_Forall, Forall_forall.
  setoid_rewrite existsb_Exists. setoid_rewrite Exists_exists.
  setoid_rewrite bool_decide_eq_true. naive_solver.
Qed.

(** With the key check and the lookups, an object is exactly its fields. *)
Lemma object_fields o fields :
  NoDup (map fst o) -> NoDup (map fst fields) ->
  (has_only_keys o (map fst fields) = true /\
   Forall (fun f => member o (fst f) = Some (snd f)) fields) <->
  o ≡ₚ fields.
Proof.
  intros Ho Hf. rewrite has_only_keys_spec, Forall_forall. split.
  - intros [Hk Hm]. apply NoDup_Permutation.
    + by apply (NoDup_fmap_1 fst).
    + by apply (NoDup_fmap_1 fst).
    + intros [k v]. split.
      * intros Hin. pose proof (Hk _ Hin) as ([k' v'] & Heq & Hin')%list_elem_of_fmap.
        cbn in Heq. subst k'. apply (Hm _) in Hin' as Hm'. cbn in Hm'.
        apply (member_Some _ _ _ Ho) in Hin. congruence.
      * intros Hin. apply (Hm _) in Hin as Hm'. by apply member_In in Hm'.
  - intros Hp. split.
    + intros e He. rewrite Hp in He. by apply list_elem_of_fmap_2.
    + intros [k v] Hin. apply member_Some; [done|]. by rewrite Hp.
Qed.

Lemma json_wf_keys o : json_wf (JsonObject o) -> NoDup (map fst o).
Proof. by inversion 1. Qed.

Lemma json_wf_member o k v : json_wf (JsonObject o) -> member o k = Some v -> json_wf v.
Proof.
  inversion 1 as [| | | | |? _ Hall|]; subst. intros Hm%member_In.
  rewrite Forall_forall in Hall. by apply (Hall _ Hm).
Qed.

Lemma has_fields_object o fields : has_fields (JsonObject o) fields <-> o ≡ₚ fields.
Proof. unfold has_fields. naive_solver. Qed.

Lemma json_wf_boolean s :
  json_wf (JsonBoolean s) -> s = bool_literal (bool_decide (s = str "true")).
Proof. by inversion 1. Qed.

Lemma bool_literal_true b : bool_decide (bool_literal b = str "true") = b.
Proof. by destruct b. Qed.

Lemma stored_locale_of_code_Some s l :
  stored_locale_of_code s = Some l <-> s = stored_locale_code l.
Proof.
  unfold stored_locale_of_code. repeat case_bool_decide; subst; split;
    try (by intros [= <-]); destruct l; try done; by intros ->.
Qed.

(** From the fields of an object to the checks of the reader, and back. *)
Ltac fields_forward H :=
  apply object_fields in H; [|done|by apply (bool_decide_unpack _); vm_compute];
  destruct H as [Hkeys Hmem]; cbn [map fst] in Hkeys;
  repeat (let Hm := fresh "Hm" in
          apply Forall_cons in Hmem as [Hm Hmem]; cbn [fst snd] in Hm);
  clear Hmem.

Ltac fields_backward :=
  apply object_fields; [done|by apply (bool_decide_unpack _); vm_compute|];
  split; [done|]; repeat (apply Forall_cons; split; [done|]); by apply Forall_nil.

(** ** The parts *)

Lemma parse_settings_identity_success o i u n :
  json_wf (JsonObject o) ->
  parse_settings_identity o = success (i, u, n) <->
  has_fields (JsonObject o)
    [(str "install_uuid", JsonString (Uuid_to_string i.(InstallId_uuid)));
     (str "user_id", JsonString u.(UserId_value));
     (str "sender_sequence_high_watermark", JsonString (to_string n))] /\
  InstallId_wf i /\ UserId_wf u /\ is_u64 n.
Proof.
  intros Hwf. pose proof (json_wf_keys _ Hwf) as Hnd. rewrite has_fields_object.
  unfold parse_settings_identity. split.
  - destruct (has_only_keys _ _) eqn:Hkeys; [cbn [negb]|done].
    destruct (member o (str "install_uuid")) as [vi|] eqn:Hi; [|done].
    destruct (member o (str "user_id")) as [vu|] eqn:Hu; [|done].
    destruct (member o (str "sender_sequence_high_watermark")) as [vs|] eqn:Hs; [|done].
    destruct vi as [| | |si| |]; try done. destruct vu as [| | |su| |]; try done.
    destruct vs as [| | |ss| |]; try done.
    destruct (Uuid_parse si) as [uuid|] eqn:Hp; [|done].
    destruct (negb _ || negb _) eqn:Hv; [done|].
    apply orb_false_iff in Hv as [Hts%negb_false_iff%bool_decide_eq_true Hv4%negb_false_iff].
    destruct (InstallId_from_uuid uuid) as [i'|] eqn:Hid; [|done].
    apply InstallId_from_uuid_success in Hid as [-> _].
    destruct (UserId_create su) as [u'|] eqn:Huc; [|done].
    apply UserId_create_success in Huc as [-> Huwf].
    destruct (parse_canonical_uint64 ss) as [n'|] eqn:Hn; [|done].
    apply parse_canonical_uint64_Some in Hn as [Hn ->].
    intros [= <- <- <-]. apply Uuid_parse_Some in Hp as [Huu _].
    split; [|done]. cbn [InstallId_uuid UserId_value]. rewrite Hts. fields_backward.
  - intros (Hp & [Hiw Hv4] & Hu & Hn). fields_forward Hp.
    rewrite Hkeys, Hm, Hm0, Hm1. cbn [negb].
    assert (Uuid_parse (Uuid_to_string (InstallId_uuid i)) = Some (InstallId_uuid i)) as ->.
    { apply Uuid_parse_lower; [done|]. by apply Uuid_to_string_loop_lower. }
    rewrite bool_decide_eq_true_2, Hv4 by done. cbn [negb orb].
    rewrite InstallId_from_uuid_wf, UserId_create_wf by done.
    by rewrite (proj2 (parse_canonical_uint64_Some _ n)).
Qed.

Lemma parse_settings_ui_success v1 o l b :
  json_wf (JsonObject o) ->
  parse_settings_ui v1 (negb v1) o = success (l, b) <->
  if v1 then
    b = false /\ has_fields (JsonObject o) [(str "locale", JsonString (stored_locale_code l))]
  else
    has_fields (JsonObject o)
      [(str "locale", JsonString (stored_locale_code l));
       (str "skip_title", JsonBoolean (bool_literal b))].
Proof.
  intros Hwf. pose proof (json_wf_keys _ Hwf) as Hnd.
  unfold parse_settings_ui. destruct v1; rewrite has_fields_object; cbn [negb andb orb].
  - split.
    + destruct (has_only_keys _ _) eqn:Hkeys; [cbn [negb orb]|done].
      destruct (member o (str "locale")) as [[| | |s| |]|] eqn:Hl; try done.
      destruct (stored_locale_of_code s) as [l'|] eqn:Hc; [|done].
      apply stored_locale_of_code_Some in Hc as ->. intros [= <- <-].
      split; [done|]. fields_backward.
    + intros [-> Hp]. fields_forward Hp. rewrite Hkeys, Hm. cbn [negb orb].
      by rewrite (proj2 (stored_locale_of_code_Some _ l)).
  - split.
    + destruct (has_only_keys _ _) eqn:Hkeys; [cbn [negb]|done].
      destruct (member o (str "locale")) as [vl|] eqn:Hl; [|done].
      destruct (member o (str "skip_title")) as [vs|] eqn:Hs; [|by case_bool_decide].
      rewrite bool_decide_eq_true_2 by done. cbn [negb].
      destruct vl as [| | |sl| |]; try done. destruct vs as [|sb| | | |]; try done.
      cbn [is_boolean negb is_true_literal].
      destruct (stored_locale_of_code sl) as [l'|] eqn:Hc; [|done].
      apply stored_locale_of_code_Some in Hc as ->. intros [= <- <-].
      rewrite <- json_wf_boolean by by eapply json_wf_member. fields_backward.
    + intros Hp. fields_forward Hp. rewrite Hkeys, Hm, Hm0. cbn [negb is_boolean is_true_literal].
      rewrite bool_decide_eq_true_2 by done. cbn [negb].
      by rewrite (proj2 (stored_locale_of_code_Some _ l)), bool_literal_true.
Qed.

Lemma parse_settings_history_success o b :
  json_wf (JsonObject o) ->
  parse_settings_history o = success b <->
  has_fields (JsonObject o) [(str "initialized", JsonBoolean (bool_literal b))].
Proof.
  intros Hwf. pose proof (json_wf_keys _ Hwf) as Hnd. rewrite has_fields_object.
  unfold parse_settings_history. split.
  - destruct (has_only_keys _ _) eqn:Hkeys; [cbn [negb]|done].
    destruct (member o (str "initialized")) as [v|] eqn:Hi; [|done].
    destruct v as [|s| | | |]; try done. cbn [is_boolean negb is_true_literal].
    intros [= <-]. rewrite <- json_wf_boolean by by eapply json_wf_member. fields_backward.
  - intros Hp. fields_forward Hp. rewrite Hkeys, Hm. cbn [negb is_boolean is_true_literal].
    by rewrite bool_literal_true.
Qed.

(** ** The whole tree *)

Lemma parse_settings_root_sound root s :
  json_wf root -> parse_settings_root root = success s -> settings_value root s.
Proof.
  intros Hwf. destruct root as [| | | |o|]; try done. unfold parse_settings_root.
  pose proof (json_wf_keys _ Hwf) as Hnd.
  destruct (has_only_keys _ _) eqn:Hkeys; [cbn [negb]|done].
  destruct (member o (str "format")) as [vf|] eqn:Hf; [|done].
  destruct (member o (str "schema_version")) as [vv|] eqn:Hv; [|done].
  destruct (member o (str "generation")) as [vg|] eqn:Hg; [|done].
  destruct (member o (str "identity")) as [vi|] eqn:Hi; [|done].
  destruct (member o (str "ui")) as [vu|] eqn:Hu; [|done].
  destruct (member o (str "history")) as [vh|] eqn:Hh; [|done].
  destruct vf as [| | |sf| |]; try done. destruct vv as [| |sv| | |]; try done.
  destruct vg as [| | |sg| |]; try done. destruct vi as [| | | |oi|]; try done.
  destruct vu as [| | | |ou|]; try done. destruct vh as [| | | |oh|]; try done.
  destruct (bool_decide (sf = kSettingsFormat)) eqn:Hsf; [cbn [negb]|done].
  apply bool_decide_eq_true in Hsf as ->.
  destruct (_ && _) eqn:Hver; [done|].
  destruct (parse_canonical_uint64 sg) as [g|] eqn:Hpg; [|done].
  apply parse_canonical_uint64_Some in Hpg as [Hg64 ->].
  destruct (Z.eqb_spec g 0) as [|Hg0]; [done|].
  destruct (parse_settings_identity oi) as [[[i u] n]|] eqn:Hpi; [|done].
  apply parse_settings_identity_success in Hpi as (Hfi & Hiw & Huw & Hn);
    [|by eapply json_wf_member].
  destruct (parse_settings_ui _ _ ou) as [[l b]|] eqn:Hpu; [|done].
  destruct (parse_settings_history oh) as [h|] eqn:Hph; [|done].
  apply parse_settings_history_success in Hph; [|by eapply json_wf_member].
  intros [= <-]. eapply (settings_value_intro _ (JsonObject oi) (JsonObject ou) (JsonObject oh) sv);
    cbn [settings_generation settings_install_id settings_user_id settings_locale
         settings_sender_sequence_high_watermark settings_skip_title
         settings_history_initialized fst snd]; [|done| |done|done].
  - apply has_fields_object. fields_backward.
  - destruct (decide (sv = str "1")) as [->|Hne].
    + left. split; [done|].
      by apply (parse_settings_ui_success true) in Hpu; [|by eapply json_wf_member].
    + rewrite (bool_decide_eq_false_2 (sv = str "1")) in Hver, Hpu by done. cbn [negb andb] in Hver.
      apply negb_false_iff, bool_decide_eq_true in Hver as ->. right. split; [done|].
      by apply (parse_settings_ui_success false) in Hpu; [|by eapply json_wf_member].
Qed.

Lemma parse_settings_root_complete root s :
  json_wf root -> settings_value root s -> parse_settings_root root = success s.
Proof.
  intros Hwf Hv. revert Hwf.
  destruct Hv as [root ident ui history version s' Hr Hi Hu Hh (Hg & Hg0 & Hiw & Huw & Hn)].
  intros Hwf. destruct Hr as (o & -> & Hp). pose proof (json_wf_keys _ Hwf) as Hnd.
  unfold parse_settings_root. fields_forward Hp. rewrite Hkeys, Hm, Hm0, Hm1, Hm2, Hm3, Hm4.
  pose proof (json_wf_member _ _ _ Hwf Hm2) as Hwi. pose proof (json_wf_member _ _ _ Hwf Hm3) as Hwu.
  pose proof (json_wf_member _ _ _ Hwf Hm4) as Hwh. cbn [negb].
  destruct Hi as (oi & -> & Hpi). destruct Hh as (oh & -> & Hph).
  apply has_fields_object in Hpi, Hph.
  apply (parse_settings_history_success _ _ Hwh) in Hph.
  assert (parse_settings_identity oi = success (settings_install_id s', settings_user_id s',
            settings_sender_sequence_high_watermark s')) as Hpi'
    by by apply parse_settings_identity_success.
  assert (exists ou (v1 : bool), ui = JsonObject ou /\
    version = (if v1 then str "1" else str "2") /\
    parse_settings_ui v1 (negb v1) ou =
      success (settings_locale s', settings_skip_title s')) as (ou & v1 & -> & -> & Hpu).
  { destruct Hu as [(-> & Hs & ou & -> & Hou)|(-> & ou & -> & Hou)];
      apply has_fields_object in Hou; exists ou.
    - exists true. split_and!; [done|done|]. by apply parse_settings_ui_success.
    - exists false. split_and!; [done|done|]. by apply parse_settings_ui_success. }
  rewrite (proj2 (parse_canonical_uint64_Some _ (settings_generation s'))) by done.
  rewrite (proj2 (Z.eqb_neq _ _)) by done. rewrite bool_decide_eq_true_2 by done. cbn [negb].
  destruct v1; rewrite Hpi'; cbn [negb andb] in *;
    (destruct (_ && _) eqn:Hver; [by vm_compute in Hver|]);
    repeat (let b := fresh in set (b := bool_decide (str _ = str _)); vm_compute in b; subst b);
    rewrite Hpu, Hph; by destruct s'.
Qed.

(** ** The written text *)

Lemma settings_output_print s :
  settings_output s (stored_locale_code s.(settings_locale)) =
  json_print (settings_tree s) ++ [x0a].
Proof.
  unfold settings_output, settings_tree. cbn [json_print map fst snd comma_separated concat].
  generalize (append_json_string (to_string (settings_generation s)))
    (append_json_string (to_string (settings_sender_sequence_high_watermark s)))
    (append_json_string (Uuid_to_string (InstallId_uuid (settings_install_id s))))
    (append_json_string (UserId_value (settings_user_id s)))
    (append_json_string (stored_locale_code (settings_locale s)))
    (bool_literal (settings_skip_title s)) (bool_literal (settings_history_initialized s)).
  intros g n i u l b h. rewrite <- !app_assoc. cbn [app].
  rewrite <- ?app_assoc. cbn [app]. repeat (rewrite <- ?app_assoc; cbn [app]).
  reflexivity.
Qed.

Lemma settings_tree_wf s : json_wf (settings_tree s).
Proof.
  assert (forall b, json_wf (JsonBoolean (bool_literal b))) by (intros []; constructor).
  unfold settings_tree.
  repeat first [apply wf_object; [apply (bool_decide_unpack _); vm_compute; done|]
    | apply Forall_cons; split; cbn [snd] | apply Forall_nil; done | apply wf_string
    | apply wf_number; done | done].
Qed.

Lemma settings_tree_value s : SettingsRecord_wf s -> settings_value (settings_tree s) s.
Proof.
  intros Hs. unfold settings_tree.
  eapply settings_value_intro; [by eexists|by eexists| |by eexists|done].
  right. split; [done|]. by eexists.
Qed.

Lemma utf8_valid_app a b : utf8_valid a -> utf8_valid b -> utf8_valid (a ++ b).
Proof.
  intros (ca & Ha & ->) (cb & Hb & ->). exists (ca ++ cb).
  by rewrite utf8_text_app, Forall_app.
Qed.

Lemma utf8_valid_ascii s : Forall (fun c => bval c < 128) s -> utf8_valid s.
Proof.
  intros Hs. exists (map bval s). split.
  - apply Forall_map. eapply Forall_impl; [done|]. intros c Hc. pose proof (bval_range c).
    unfold is_scalar. lia.
  - unfold utf8_text. rewrite map_map. induction Hs as [|c s Hc _ IH]; [done|].
    cbn [map concat]. rewrite <- IH. pose proof (bval_range c).
    assert (encode_utf8 (bval c) = [c]) as ->; [|done].
    apply bytes_inj. rewrite encode_1; [done|lia].
Qed.

(** Bytes outside ASCII are not escaped, and an escape is ASCII. *)
Lemma escape_character_high c : 128 <= bval c -> escape_character c = [c].
Proof. destruct c; try done; by vm_compute. Qed.

Lemma escape_character_low c :
  bval c < 128 -> Forall (fun c => bval c < 128) (escape_character c).
Proof.
  assert (forallb (fun c => (128 <=? bval c) ||
            forallb (fun c => bval c <? 128) (escape_character c))
            (map (fun n => default x00 (Byte.of_nat n)) (seq 0 256)) = true) as Hall by by vm_compute.
  rewrite forallb_Forall, Forall_forall in Hall. intros Hc.
  assert (In c (map (fun n => default x00 (Byte.of_nat n)) (seq 0 256))) as Hin.
  { apply in_map_iff. exists (Byte.to_nat c). rewrite Byte.of_to_nat. split; [done|].
    apply in_seq. pose proof (Byte.to_nat_bounded c). lia. }
  apply list_elem_of_In, Hall, orb_true_iff in Hin as [H|H]; [apply Z.leb_le in H; lia|].
  rewrite forallb_Forall in H. eapply Forall_impl; [done|]. cbn. lia.
Qed.

Lemma escape_encode cp :
  is_scalar cp -> utf8_valid (concat (map escape_character (encode_utf8 cp))).
Proof.
  intros Hs. destruct (decide (cp < 128)) as [Hlo|Hhi].
  - apply utf8_valid_ascii. destruct Hs as [Hs _].
    assert (encode_utf8 cp = [to_u8 cp]) as ->.
    { unfold encode_utf8. by rewrite (proj2 (Z.leb_le _ _)) by lia. }
    cbn [map concat]. rewrite app_nil_r. apply escape_character_low.
    rewrite bval_to_u8_small; lia.
  - assert (Forall (fun c => 128 <= bval c) (encode_utf8 cp)) as Hall.
    { apply (Forall_map bval (fun z => 128 <= z)). destruct Hs as [Hr Hsur].
      destruct (decide (cp <= 0x7ff)); [|destruct (decide (cp <= 0xffff))].
      - rewrite encode_2 by lia. repeat (apply Forall_cons; split; [zdiv_lia|]). by apply Forall_nil.
      - rewrite encode_3 by lia. repeat (apply Forall_cons; split; [zdiv_lia|]). by apply Forall_nil.
      - rewrite encode_4 by lia. repeat (apply Forall_cons; split; [zdiv_lia|]). by apply Forall_nil. }
    assert (concat (map escape_character (encode_utf8 cp)) = encode_utf8 cp) as ->.
    { clear -Hall. induction Hall as [|c l Hc _ IH]; [done|]. cbn [map concat].
      by rewrite escape_character_high, IH. }
    exists [cp]. unfold utf8_text. cbn [map concat]. rewrite app_nil_r. split; [|done].
    by apply Forall_singleton.
Qed.

Lemma append_json_string_utf8 s : utf8_valid s -> utf8_valid (append_json_string s).
Proof.
  intros (cps & Hs & ->). unfold append_json_string.
  repeat (apply utf8_valid_app; [|]); try (by apply utf8_valid_ascii, Forall_singleton).
  unfold utf8_text. induction Hs as [|cp cps Hcp _ IH]; [by exists []|].
  cbn [map concat]. rewrite map_app, concat_app. by apply utf8_valid_app; [apply escape_encode|].
Qed.

Lemma utf8_valid_digits s : Forall is_decimal_digit s -> utf8_valid s.
Proof.
  intros. apply utf8_valid_ascii. eapply Forall_impl; [done|].
  unfold is_decimal_digit. cbn. lia.
Qed.

Lemma hex_chars_ascii b : bval (hex_high b) < 128 /\ bval (hex_low b) < 128.
Proof. by destruct b. Qed.

Lemma Uuid_to_string_loop_ascii index bs output :
  Forall (fun c => bval c < 128) output ->
  Forall (fun c => bval c < 128) (Uuid_to_string_loop index bs output) /\
  (length (Uuid_to_string_loop index bs output) <= length output + 3 * length bs)%nat.
Proof.
  revert index output. induction bs as [|b bs IH]; intros index output Ho;
    cbn [Uuid_to_string_loop length]; [split; [done|lia]|].
  pose proof (hex_chars_ascii b) as [Hh Hl].
  set (o := if (_ || _) then output ++ ["-"%byte] else output).
  assert (Forall (fun c => bval c < 128) o /\ (length o <= length output + 1)%nat) as [Hof Hol].
  { unfold o. split_if; [|split; [done|lia]]. rewrite length_app. split; [|cbn; lia].
    apply Forall_app. split; [done|]. by apply Forall_singleton. }
  clearbody o. destruct (IH (S index) ((o ++ [hex_high b]) ++ [hex_low b])) as [IHf IHl].
  - rewrite !Forall_app. split_and!; [done| |]; by apply Forall_singleton.
  - split; [done|]. rewrite !length_app in IHl. cbn [length] in IHl. lia.
Qed.

Lemma Uuid_to_string_ascii u :
  Uuid_wf u -> Forall (fun c => bval c < 128) (Uuid_to_string u) /\
  (length (Uuid_to_string u) <= 48)%nat.
Proof.
  intros Hu. unfold Uuid_to_string.
  destruct (Uuid_to_string_loop_ascii 0 u.(Uuid_bytes) []) as [Hf Hl]; [by apply Forall_nil|].
  split; [done|]. unfold Uuid_wf in Hu. cbn in Hl. lia.
Qed.

Lemma append_json_string_length s :
  (length (append_json_string s) <= 6 * length s + 2)%nat.
Proof.
  unfold append_json_string. rewrite !length_app. pose proof (escaped_length s). cbn. lia.
Qed.

Lemma literal_valid s : forallb (fun c => bval c <? 128) (literal s) = true -> utf8_valid (literal s).
Proof.
  rewrite forallb_Forall. intros H. apply utf8_valid_ascii.
  eapply Forall_impl; [done|]. cbn. lia.
Qed.

Lemma kSettingsFormat_valid : utf8_valid kSettingsFormat.
Proof. by apply is_valid_utf8_valid. Qed.

Lemma bool_literal_valid b : utf8_valid (bool_literal b).
Proof. apply utf8_valid_ascii. destruct b; by repeat (apply Forall_cons; split; [done|]); apply Forall_nil. Qed.

Lemma locale_code_valid l : utf8_valid (stored_locale_code l).
Proof. apply utf8_valid_ascii. destruct l; repeat (apply Forall_cons; split; [done|]); by apply Forall_nil. Qed.

Lemma UserId_valid u : UserId_wf u -> utf8_valid u.(UserId_value).
Proof.
  intros Hu. apply validate_text_None in Hu as (_ & cps & Hd & _).
  apply utf8_decode_Some in Hd as [? ->]. by exists cps.
Qed.

Lemma settings_output_valid s :
  SettingsRecord_wf s ->
  utf8_valid (settings_output s (stored_locale_code s.(settings_locale))).
Proof.
  intros (Hg & _ & [Hi _] & Hu & Hn). unfold settings_output.
  repeat (apply utf8_valid_app;
    [first [by apply literal_valid
      | apply append_json_string_utf8;
        first [by apply utf8_valid_digits, to_string_digits | by apply locale_code_valid
          | by apply UserId_valid | by apply utf8_valid_ascii, Uuid_to_string_ascii
          | by apply kSettingsFormat_valid]
      | apply bool_literal_valid]|]).
  by apply utf8_valid_ascii, Forall_singleton.
Qed.

Lemma settings_output_length s :
  SettingsRecord_wf s ->
  (length (settings_output s (stored_locale_code s.(settings_locale))) <= 1024)%nat.
Proof.
  intros (Hg & _ & [Hi _] & Hu & Hn). unfold settings_output. rewrite !length_app.
  pose proof (append_json_string_length (to_string (settings_generation s))).
  pose proof (append_json_string_length (to_string (settings_sender_sequence_high_watermark s))).
  pose proof (append_json_string_length
    (Uuid_to_string (InstallId_uuid (settings_install_id s)))).
  pose proof (append_json_string_length (UserId_value (settings_user_id s))).
  pose proof (append_json_string_length (stored_locale_code (settings_locale s))).
  pose proof (to_string_length _ Hg). pose proof (to_string_length _ Hn).
  pose proof (Uuid_to_string_ascii _ Hi) as [_ ?]. pose proof (UserId_wf_length _ Hu).
  assert (length (stored_locale_code (settings_locale s)) <= 7)%nat
    by (destruct (settings_locale s); cbn; lia).
  assert (forall b, (length (bool_literal b) <= 5)%nat) as Hb by (intros []; cbn; lia).
  pose proof (Hb (settings_skip_title s)). pose proof (Hb (settings_history_initialized s)).
  cbn [length literal str map String.list_byte_of_string].
  repeat match goal with |- context [length (append_json_string kSettingsFormat)] =>
    change (length (append_json_string kSettingsFormat)) with 25%nat end.
  repeat match goal with |- context [length (literal ?s)] =>
    let n := eval vm_compute in (length (literal s)) in change (length (literal s)) with n end.
  lia.
Qed.

(** A well-formed record is written and read back. *)
Lemma serialize_settings_wf s :
  SettingsRecord_wf s ->
  exists json, serialize_settings_json s = success json /\
    (length json <= 1024)%nat /\ parse_settings_json json = Some (success s).
Proof.
  intros Hs. unfold serialize_settings_json. assert (settings_generation s <> 0) as Hg by apply Hs.
  rewrite (proj2 (Z.eqb_neq _ _)) by done.
  replace (length (stored_locale_code (settings_locale s)) =? 0)%nat with false
    by by destruct (settings_locale s).
  pose proof (settings_output_length s Hs) as Hl.
  rewrite (proj2 (Nat.ltb_ge _ _)) by (unfold kMaxSettingsJsonBytes; lia).
  eexists. split_and!; [done|done|]. unfold parse_settings_json.
  rewrite (proj2 (Nat.ltb_ge _ _)) by (unfold kMaxSettingsJsonBytes; lia).
  rewrite (proj2 (is_valid_utf8_valid _)) by by apply settings_output_valid.
  cbn [negb]. rewrite settings_output_print.
  change (json_print (settings_tree s) ++ [x0a]) with
    ([] ++ json_print (settings_tree s) ++ [x0a]).
  rewrite (JsonParser_parse_print (settings_tree s) [] [x0a]); [|apply settings_tree_wf| | |].
  - f_equal. apply parse_settings_root_complete; [apply settings_tree_wf|].
    by apply settings_tree_value.
  - cbn. unfold kMaximumJsonNesting. lia.
  - by apply Forall_nil.
  - by apply Forall_singleton.
Qed.

(** What the reader accepts is well formed. *)
Lemma parse_settings_wf json s :
  parse_settings_json json = Some (success s) -> SettingsRecord_wf s.
Proof.
  unfold parse_settings_json. destruct (JsonParser_parse_answer json) as (r & -> & Hwf).
  split_if; [done|]. split_if; [done|]. destruct r as [root|e]; [|done].
  destruct (Hwf root eq_refl) as [Hroot _]. intros [= Hs].
  by destruct (parse_settings_root_sound _ _ Hroot Hs).
Qed.

(** ** Property theorems *)

(** C29: the settings reader accepts exactly its schema.  It always answers;
    it accepts a file with the record [s] exactly when the file has at most
    16 KiB of valid UTF-8 that the strict JSON reader accepts, and the tree is
    that of [s]: every object has exactly the named fields in any order, each of
    its type, the numbers are canonical decimals, the UUID is the printed form
    of a version 4 UUID, the user id is valid, and a version 1 file (which has
    no [skip_title]) stands for [skip_title] false. *)
Theorem parse_settings_accepts json :
  (exists r, parse_settings_json json = Some r) /\
  (forall s,
     parse_settings_json json = Some (success s) <->
     (length json <= kMaxSettingsJsonBytes)%nat /\ utf8_valid json /\
     exists root, JsonParser_parse json = Some (success root) /\ settings_value root s).
Proof.
  destruct (JsonParser_parse_answer json) as (r & Hr & Hwf).
  unfold parse_settings_json. rewrite Hr. pose proof (is_valid_utf8_valid json) as Hutf.
  destruct (Nat.ltb_spec kMaxSettingsJsonBytes (length json)); [split; [by eexists|split; [done|lia]]|].
  destruct (is_valid_utf8 json); cbn [negb]; [|by split; [eexists|naive_solver]].
  destruct r as [root|e]; [|by split; [eexists|naive_solver]].
  destruct (Hwf root eq_refl) as [Hroot _]. split; [by eexists|]. intros s. split.
  - intros [= Hs]. split_and!; [done|by apply Hutf|]. exists root. split; [done|].
    by apply parse_settings_root_sound.
  - intros (_ & _ & root' & [= <-] & Hv). by rewrite (parse_settings_root_complete root s).
Qed.

(** A settings record survives the file.  The writer refuses generation 0;
    every well-formed record is written as at most a kilobyte that the reader
    reads back as the same record. *)
Theorem settings_json_roundtrip s :
  (s.(settings_generation) = 0 ->
   serialize_settings_json s = failure SettingsError_InvalidGeneration) /\
  (SettingsRecord_wf s ->
   exists json, serialize_settings_json s = success json /\
     (length json <= 1024)%nat /\ parse_settings_json json = Some (success s)).
Proof.
  split; [by unfold serialize_settings_json; intros ->|]. apply serialize_settings_wf.
Qed.

(** A record for the witness. *)
Definition sample_settings : SettingsRecord :=
  mkSettingsRecord 7
    (mkInstallId (mkUuid [x01; x02; x03; x04; x05; x06; x47; x08; x89; x0a; x0b; x0c; x0d; x0e; x0f; x10]))
    (mkUserId (str "Ana")) 42 Locale_SimplifiedChinese true false.

Lemma sample_settings_wf : SettingsRecord_wf sample_settings.
Proof. split_and!; try done; by vm_compute. Qed.

Lemma settings_json_roundtrip_witness :
  exists json, serialize_settings_json sample_settings = success json /\
    (length json <= 1024)%nat /\ parse_settings_json json = Some (success sample_settings).
Proof.
  exact (proj2 (settings_json_roundtrip sample_settings) sample_settings_wf).
Defined.
