(* ===== verification/AppScript.v ===== *)
(** * AppScript: the parser of the scripted-input language

    src/platform/app_script_parser.cpp and its header: the comma separated
    script of key presses, waits, screenshots and expectations that drives the
    application in its end-to-end tests.  A [string_view] cursor is the list of
    the bytes that are left; a [false] of the source with its diagnostic is
    [failure] with that diagnostic. *)
From S2P Require Import Prelude Utf8.

(** ** Definitions *)

(** *** app_script_parser.h *)

Definition kMaximumSourceBytes : nat := 16 * 1024.
Definition kMaximumTokenBytes : nat := 512.
Definition kMaximumActions : nat := 1024.
Definition kMaximumTextBytes : nat := 160.
Definition kMinimumIntervalMilliseconds : Z := 20.
Definition kMaximumIntervalMilliseconds : Z := 5000.
Definition kDefaultIntervalMilliseconds : Z := 200.
Definition kMaximumWaitTicks : Z := 100.

Inductive ActionType :=
| Action_Key
| Action_Wait
| Action_Screenshot
| Action_Expect
| Action_Await
| Action_CloseWindow.

Inductive NamedKey :=
| Key_None
| Key_Home
| Key_Escape
| Key_Up
| Key_Down
| Key_Left
| Key_Right
| Key_Enter
| Key_Backspace
| Key_Tab.

Record Action := mkAction {
  action_type : ActionType;
  action_named_key : NamedKey;
  action_scalar : Z;
  action_field : bytes;
  action_value : bytes
}.

Inductive ParseError :=
| ParseError_None
| ParseError_SourceTooLong
| ParseError_EmptyToken
| ParseError_TokenTooLong
| ParseError_UnknownToken
| ParseError_InvalidValue
| ParseError_InvalidTextEncoding
| ParseError_UnsafeText
| ParseError_TooManyActions
| ParseError_CloseMustBeLast.

Record ParseResult := mkParseResult {
  script_actions : list Action;
  script_error : ParseError;
  script_token_index : nat;
  script_diagnostic : bytes
}.

Record IntervalResult := mkIntervalResult {
  interval_milliseconds : Z;
  interval_valid : bool;
  interval_diagnostic : bytes
}.

#[global] Instance ActionType_eq_decision : EqDecision ActionType.
Proof. solve_decision. Defined.
#[global] Instance NamedKey_eq_decision : EqDecision NamedKey.
Proof. solve_decision. Defined.
#[global] Instance Action_eq_decision : EqDecision Action.
Proof. solve_decision. Defined.
#[global] Instance ParseError_eq_decision : EqDecision ParseError.
Proof. solve_decision. Defined.

(** *** Characters

    The source compares signed characters; every range it tests is within
    ASCII, where the signed and the unsigned order agree and outside of which
    both fail. *)

Definition is_ascii_space (character : byte) : bool :=
  Byte.eqb character x20 || Byte.eqb character x09 || Byte.eqb character x0a ||
  Byte.eqb character x0d || Byte.eqb character x0c || Byte.eqb character x0b.

Fixpoint remove_spaces (value : bytes) : bytes :=
  match value with
  | c :: tail => if is_ascii_space c then remove_spaces tail else value
  | [] => []
  end.

(** Spaces from the front, then from the back. *)
Definition trim (value : bytes) : bytes := rev (remove_spaces (rev (remove_spaces value))).

Definition in_range (lo hi c : byte) : bool := (bval lo <=? bval c) && (bval c <=? bval hi).

Definition ascii_upper (character : byte) : byte :=
  if in_range "a" "z" character then to_u8 (bval character - (bval "a" - bval "A"))
  else character.

(** The size test and [std::equal] in one pass. *)
Fixpoint ascii_equal (lhs rhs : bytes) : bool :=
  match lhs, rhs with
  | [], [] => true
  | l :: lhs, r :: rhs => Byte.eqb (ascii_upper l) (ascii_upper r) && ascii_equal lhs rhs
  | _, _ => false
  end.

Definition ascii_starts_with (value prefix : bytes) : bool :=
  (length prefix <=? length value)%nat && ascii_equal (take (length prefix) value) prefix.

(** *** Results *)

Definition script_failure (error : ParseError) (token_index : nat) (diagnostic : bytes)
  : ParseResult := mkParseResult [] error token_index diagnostic.

Definition append_action (result : ParseResult) (action : Action) (token_index : nat)
  : bool * ParseResult :=
  if (kMaximumActions <=? length result.(script_actions))%nat
  then (false, script_failure ParseError_TooManyActions token_index
                 (str "expanded action count exceeds 1024"))
  else (true, mkParseResult (result.(script_actions) ++ [action]) result.(script_error)
                result.(script_token_index) result.(script_diagnostic)).

(** The loops around [append_action]. *)
Fixpoint append_actions (result : ParseResult) (actions : list Action) (token_index : nat)
  : bool * ParseResult :=
  match actions with
  | [] => (true, result)
  | action :: actions =>
      match append_action result action token_index with
      | (true, result) => append_actions result actions token_index
      | (false, result) => (false, result)
      end
  end.

(** *** Numbers and text *)

Fixpoint parse_decimal_loop (accumulator : Z) (value : bytes) : option Z :=
  match value with
  | [] => Some accumulator
  | character :: value =>
      if negb (in_range "0" "9" character) then None
      else
        let digit := bval character - bval "0" in
        if (4294967295 - digit) / 10 <? accumulator then None
        else parse_decimal_loop (u32 (u32 (accumulator * 10) + digit)) value
  end.

Definition parse_decimal (value : bytes) : option Z :=
  match value with [] => None | _ => parse_decimal_loop 0 value end.

Definition is_unreserved (character : byte) : bool :=
  in_range "a" "z" character || in_range "A" "Z" character || in_range "0" "9" character ||
  Byte.eqb character "-" || Byte.eqb character "." || Byte.eqb character "_" ||
  Byte.eqb character "~".

Definition script_hex_value (character : byte) : Z :=
  if in_range "0" "9" character then bval character - bval "0"
  else if in_range "a" "f" character then 10 + bval character - bval "a"
  else if in_range "A" "F" character then 10 + bval character - bval "A"
  else -1.

Fixpoint percent_decode_loop (decoded encoded : bytes) {struct encoded} : Result bytes bytes :=
  match encoded with
  | [] => success decoded
  | c :: rest =>
      if Byte.eqb c "%" then
        match rest with
        | h :: l :: rest =>
            let high := script_hex_value h in
            let low := script_hex_value l in
            if (high <? 0) || (low <? 0)
            then failure (str "TEXT contains a non-hex percent escape")
            else if (kMaximumTextBytes <=? length decoded)%nat
            then failure (str "TEXT exceeds 160 decoded UTF-8 bytes")
            else percent_decode_loop
                   (decoded ++ [to_u8 (Z.lor (Z.shiftl high 4) low)]) rest
        | _ => failure (str "TEXT contains an incomplete percent escape")
        end
      else if (0x7f <? bval c) || negb (is_unreserved c)
      then failure (str "TEXT reserved and non-ASCII bytes must use percent escapes")
      else if (kMaximumTextBytes <=? length decoded)%nat
      then failure (str "TEXT exceeds 160 decoded UTF-8 bytes")
      else percent_decode_loop (decoded ++ [c]) rest
  end.

Definition percent_decode (encoded : bytes) : Result bytes bytes :=
  match encoded with
  | [] => failure (str "TEXT value must not be empty")
  | _ => percent_decode_loop [] encoded
  end.

Definition script_is_bidi_format (codepoint : Z) : bool :=
  (codepoint =? 0x061c) || (codepoint =? 0x200e) || (codepoint =? 0x200f) ||
  ((0x202a <=? codepoint) && (codepoint <=? 0x202e)) ||
  ((0x2066 <=? codepoint) && (codepoint <=? 0x2069)).

Definition script_is_noncharacter (codepoint : Z) : bool :=
  ((0xfdd0 <=? codepoint) && (codepoint <=? 0xfdef)) ||
  (Z.land codepoint 0xffff =? 0xfffe) || (Z.land codepoint 0xffff =? 0xffff).

Definition is_unsafe_text_scalar (codepoint : Z) : bool :=
  (codepoint <=? 0x1f) || ((0x7f <=? codepoint) && (codepoint <=? 0x9f)) ||
  (codepoint =? 0x2028) || (codepoint =? 0x2029) ||
  script_is_bidi_format codepoint || script_is_noncharacter codepoint.

(** The decoder's lead byte, continuation and range tests are those of
    core/text.cpp, so their definitions are shared; the length of the input is
    enough fuel. *)
Fixpoint decode_utf8_scalars_loop (fuel : nat) (scalars : list Z) (value : bytes)
  : Result (list Z) bytes :=
  match value with
  | [] => match scalars with [] => failure [] | _ => success scalars end
  | first :: rest =>
      match fuel with
      | O => failure []
      | S fuel =>
          match utf8_lead first with
          | None => failure (str "TEXT is not valid UTF-8")
          | Some (initial, count) =>
              if (length value <? count)%nat then failure (str "TEXT is not valid UTF-8")
              else
                match utf8_continuation initial (take (count - 1) rest) with
                | None => failure (str "TEXT is not valid UTF-8")
                | Some codepoint =>
                    if utf8_rejected count codepoint
                    then failure (str "TEXT is not valid scalar UTF-8")
                    else if is_unsafe_text_scalar codepoint
                    then failure (str "TEXT contains a forbidden control or format scalar")
                    else decode_utf8_scalars_loop fuel (scalars ++ [codepoint]) (drop count value)
                end
          end
      end
  end.

Definition decode_utf8_scalars (value : bytes) : Result (list Z) bytes :=
  decode_utf8_scalars_loop (length value) [] value.

(** *** Expectations, keys and screenshots *)

Definition is_stable_character (c : byte) : bool :=
  in_range "a" "z" c || in_range "0" "9" c || Byte.eqb c "." || Byte.eqb c "_" ||
  Byte.eqb c "-".

Definition is_stable_atom (value : bytes) (maximum : nat) : bool :=
  match value with
  | [] => false
  | c :: _ =>
      negb ((maximum <? length value)%nat || (bval c <? bval "a") || (bval "z" <? bval c)) &&
      forallb is_stable_character value
  end.

Definition is_stable_value (value : bytes) (maximum : nat) : bool :=
  match value with
  | [] => false
  | c :: _ =>
      negb ((maximum <? length value)%nat || negb (in_range "a" "z" c || in_range "0" "9" c)) &&
      forallb is_stable_character value
  end.

Definition probe_fields : list bytes :=
  [str "screen"; str "modal"; str "locale"; str "focus"; str "status"; str "count";
   str "persistence"; str "newest-state"].

Definition is_probe_field (field : bytes) : bool :=
  existsb (fun f => bool_decide (f = field)) probe_fields.

(** [find] of a character: what is before it and what is after it. *)
Fixpoint split_at (separator : byte) (value : bytes) : bytes * option bytes :=
  match value with
  | [] => ([], None)
  | c :: rest =>
      if Byte.eqb c separator then ([], Some rest)
      else let (before, after) := split_at separator rest in (c :: before, after)
  end.

Definition parse_probe (payload : bytes) : Result (bytes * bytes) bytes :=
  match split_at ":" payload with
  | (field_view, Some value_view) =>
      match split_at ":" value_view with
      | (_, Some _) => failure (str "expectation must use field:value")
      | (_, None) =>
          if negb (is_stable_atom field_view 16) || negb (is_probe_field field_view)
          then failure (str "expectation uses an unsupported field")
          else if negb (is_stable_value value_view 64)
          then failure (str "expectation value is not a stable lowercase ASCII id")
          else success (field_view, value_view)
      end
  | (_, None) => failure (str "expectation must use field:value")
  end.

Definition named_key_for (token : bytes) : NamedKey :=
  if ascii_equal token (str "HOME") then Key_Home
  else if ascii_equal token (str "ESC") then Key_Escape
  else if ascii_equal token (str "UP") then Key_Up
  else if ascii_equal token (str "DOWN") then Key_Down
  else if ascii_equal token (str "LEFT") then Key_Left
  else if ascii_equal token (str "RIGHT") then Key_Right
  else if ascii_equal token (str "ENTER") then Key_Enter
  else if ascii_equal token (str "BACKSPACE") then Key_Backspace
  else if ascii_equal token (str "TAB") then Key_Tab
  else Key_None.

Definition is_safe_screenshot_stem (stem : bytes) : bool :=
  let is_alphanumeric c := in_range "a" "z" c || in_range "0" "9" c in
  match stem with
  | [] => false
  | c :: _ =>
      if (64 <? length stem)%nat then false
      else if negb (is_alphanumeric c) || negb (is_alphanumeric (List.last stem x00)) then false
      else forallb (fun c => is_alphanumeric c || Byte.eqb c "." || Byte.eqb c "_" ||
                             Byte.eqb c "-") stem
  end.

(** *** The parser *)

Definition wait_action : Action := mkAction Action_Wait Key_None 0 [] [].
Definition scalar_action (scalar : Z) : Action := mkAction Action_Key Key_None scalar [] [].

Definition is_letter_key (token : bytes) : bool :=
  ascii_equal token (str "N") || ascii_equal token (str "R") || ascii_equal token (str "M") ||
  ascii_equal token (str "S") || ascii_equal token (str "D").

Definition named_key_is_none (key : NamedKey) : bool := bool_decide (key = Key_None).

(** The body of the loop of [parse] for one token; [false] is an early return
    of the result, [last] says that no comma follows. *)
Definition parse_token (result : ParseResult) (token : bytes) (token_index : nat) (last : bool)
  : bool * ParseResult :=
  let fail error diagnostic := (false, script_failure error token_index diagnostic) in
  if (length token =? 0)%nat
  then fail ParseError_EmptyToken (str "empty script token is not allowed")
  else if (kMaximumTokenBytes <? length token)%nat
  then fail ParseError_TokenTooLong (str "script token exceeds 512 bytes")
  else
    let key := named_key_for token in
    if negb (named_key_is_none key)
    then append_action result (mkAction Action_Key key 0 [] []) token_index
    else if is_letter_key token
    then append_action result
           (scalar_action (u32 (bval (ascii_upper (byte_at token 0)) - bval "A" + bval "a")))
           token_index
    else if ascii_equal token (str "WAIT") then append_action result wait_action token_index
    else if ascii_starts_with token (str "WAIT=") then
      match parse_decimal (drop 5 token) with
      | Some count =>
          if (count =? 0) || (kMaximumWaitTicks <? count)
          then fail ParseError_InvalidValue
                 (str "WAIT count must be an integer from 1 through 100")
          else append_actions result (repeat wait_action (Z.to_nat count)) token_index
      | None => fail ParseError_InvalidValue
                  (str "WAIT count must be an integer from 1 through 100")
      end
    else if ascii_starts_with token (str "TEXT=") then
      match percent_decode (drop 5 token) with
      | failure diagnostic => fail ParseError_InvalidTextEncoding diagnostic
      | success decoded =>
          match decode_utf8_scalars decoded with
          | failure diagnostic => fail ParseError_UnsafeText diagnostic
          | success scalars => append_actions result (map scalar_action scalars) token_index
          end
      end
    else if ascii_starts_with token (str "SHOT=") then
      let stem := drop 5 token in
      if negb (length stem =? 0)%nat && negb (is_safe_screenshot_stem stem)
      then fail ParseError_InvalidValue (str "SHOT stem is not a canonical safe lowercase name")
      else append_action result (mkAction Action_Screenshot Key_None 0 [] stem) token_index
    else if ascii_starts_with token (str "EXPECT=") || ascii_starts_with token (str "AWAIT=")
    then
      let await := ascii_starts_with token (str "AWAIT=") in
      let prefix_size := if await then 6%nat else 7%nat in
      match parse_probe (drop prefix_size token) with
      | failure diagnostic => fail ParseError_InvalidValue diagnostic
      | success (field, value) =>
          append_action result
            (mkAction (if await then Action_Await else Action_Expect) Key_None 0 field value)
            token_index
      end
    else if ascii_equal token (str "CLOSE") then
      if negb last
      then fail ParseError_CloseMustBeLast (str "CLOSE must be the final script token")
      else append_action result (mkAction Action_CloseWindow Key_None 0 [] []) token_index
    else fail ParseError_UnknownToken (str "unknown script token").

(** The loop: [rest] is the source from [begin]; every turn passes a comma, so
    one turn more than there are bytes is enough. *)
Fixpoint parse_loop (fuel : nat) (result : ParseResult) (rest : bytes) (token_index : nat)
  : option ParseResult :=
  match fuel with
  | O => None
  | S fuel =>
      let token_index := S token_index in
      let (before, after) := split_at "," rest in
      match parse_token result (trim before) token_index (negb (bool_decide (is_Some after))) with
      | (false, result) => Some result
      | (true, result) =>
          match after with
          | None => Some result
          | Some rest => parse_loop fuel result rest token_index
          end
      end
  end.

Definition empty_result : ParseResult := mkParseResult [] ParseError_None 0 [].

Definition script_parse (source : bytes) : option ParseResult :=
  if (kMaximumSourceBytes <? length source)%nat
  then Some (script_failure ParseError_SourceTooLong 0
               (str "script source exceeds 16384 bytes"))
  else
    match source with
    | [] => Some empty_result
    | _ => parse_loop (S (length source)) empty_result source 0
    end.

(** [parse_interval]: [None] is the null pointer; a C string has no NUL byte. *)
Definition parse_interval (configured : option bytes) : IntervalResult :=
  let invalid := mkIntervalResult kDefaultIntervalMilliseconds false
                   (str "APP_SCRIPT_INTERVAL_MS must be an integer from 20 through 5000") in
  match configured with
  | None => mkIntervalResult kDefaultIntervalMilliseconds true []
  | Some value =>
      if (10 <? length value)%nat then invalid
      else
        match parse_decimal value with
        | Some parsed =>
            if (parsed <? kMinimumIntervalMilliseconds) ||
               (kMaximumIntervalMilliseconds <? parsed)
            then invalid
            else mkIntervalResult parsed true []
        | None => invalid
        end
  end.

(** ** Specification vocabulary *)

Definition close_action : Action := mkAction Action_CloseWindow Key_None 0 [] [].

Definition probe_wf (field value : bytes) : Prop :=
  field ∈ probe_fields /\ is_stable_value value 64 = true.

(** The actions a script can stand for, [close_action] excepted. *)
Inductive action_wf : Action -> Prop :=
| wf_named key : key <> Key_None -> action_wf (mkAction Action_Key key 0 [] [])
| wf_scalar cp : is_scalar cp -> is_unsafe_text_scalar cp = false -> action_wf (scalar_action cp)
| wf_wait : action_wf wait_action
| wf_shot stem : stem = [] \/ is_safe_screenshot_stem stem = true ->
    action_wf (mkAction Action_Screenshot Key_None 0 [] stem)
| wf_expect field value : probe_wf field value ->
    action_wf (mkAction Action_Expect Key_None 0 field value)
| wf_await field value : probe_wf field value ->
    action_wf (mkAction Action_Await Key_None 0 field value).

(** The window is closed by the last action, if at all. *)
Definition script_wf (actions : list Action) : Prop :=
  (length actions <= kMaximumActions)%nat /\
  exists body tail, actions = body ++ tail /\ Forall action_wf body /\
    (tail = [] \/ tail = [close_action]).

(** A printer for scripts: text one scalar at a time, every byte escaped. *)
Definition percent_encode (bs : bytes) : bytes :=
  concat (map (fun b => ["%"%byte; byte_at (str "0123456789ABCDEF") (Z.to_nat (bval b / 16));
                         byte_at (str "0123456789ABCDEF") (Z.to_nat (bval b mod 16))]) bs).

Definition print_key (key : NamedKey) : bytes :=
  match key with
  | Key_None => []
  | Key_Home => str "HOME"
  | Key_Escape => str "ESC"
  | Key_Up => str "UP"
  | Key_Down => str "DOWN"
  | Key_Left => str "LEFT"
  | Key_Right => str "RIGHT"
  | Key_Enter => str "ENTER"
  | Key_Backspace => str "BACKSPACE"
  | Key_Tab => str "TAB"
  end.

Definition print_action (a : Action) : bytes :=
  match a.(action_type) with
  | Action_Key =>
      match a.(action_named_key) with
      | Key_None => str "TEXT=" ++ percent_encode (encode_utf8 a.(action_scalar))
      | key => print_key key
      end
  | Action_Wait => str "WAIT"
  | Action_Screenshot => str "SHOT=" ++ a.(action_value)
  | Action_Expect => str "EXPECT=" ++ a.(action_field) ++ [":"%byte] ++ a.(action_value)
  | Action_Await => str "AWAIT=" ++ a.(action_field) ++ [":"%byte] ++ a.(action_value)
  | Action_CloseWindow => str "CLOSE"
  end.

Fixpoint print_script (actions : list Action) : bytes :=
  match actions with
  | [] => []
  | [a] => print_action a
  | a :: actions => print_action a ++ [","%byte] ++ print_script actions
  end.

(** ** Appending *)

Definition with_actions (result : ParseResult) (actions : list Action) : ParseResult :=
  mkParseResult (result.(script_actions) ++ actions) result.(script_error)
    result.(script_token_index) result.(script_diagnostic).

Lemma append_actions_spec actions result idx :
  (length result.(script_actions) <= kMaximumActions)%nat ->
  append_actions result actions idx =
  if (length result.(script_actions) + length actions <=? kMaximumActions)%nat
  then (true, with_actions result actions)
  else (false, script_failure ParseError_TooManyActions idx
                 (str "expanded action count exceeds 1024")).
Proof.
  revert result. induction actions as [|a actions IH]; intros result Hl; cbn [append_actions length].
  { rewrite Nat.add_0_r, (proj2 (Nat.leb_le _ _)) by done.
    unfold with_actions. rewrite app_nil_r. by destruct result. }
  unfold append_action.
  destruct (Nat.leb_spec kMaximumActions (length result.(script_actions))) as [H|H].
  { by rewrite (proj2 (Nat.leb_gt _ _)) by lia. }
  rewrite IH; cbn [script_actions]; rewrite length_app; cbn [length]; [|lia].
  rewrite <- Nat.add_assoc. cbn [Nat.add].
  destruct (_ <=? _)%nat; [|done]. unfold with_actions. cbn. by rewrite <- app_assoc.
Qed.

Lemma append_action_one result a idx :
  append_action result a idx = append_actions result [a] idx.
Proof. cbn. by destruct (append_action result a idx) as [[] r]. Qed.

(** ** What one token can do *)

(** The outcome of [parse_token]: actions appended, or an early return without
    any action. *)
Definition token_outcome (result : ParseResult) (idx : nat) (last : bool)
    (o : bool * ParseResult) : Prop :=
  match o with
  | (true, r) => exists actions, r = with_actions result actions /\
      (length r.(script_actions) <= kMaximumActions)%nat /\
      (Forall action_wf actions \/ last = true /\ actions = [close_action])
  | (false, r) => r.(script_actions) = [] /\ r.(script_error) <> ParseError_None /\
      r.(script_error) <> ParseError_SourceTooLong /\ r.(script_token_index) = idx
  end.

Lemma token_outcome_append result actions idx last :
  (length result.(script_actions) <= kMaximumActions)%nat ->
  Forall action_wf actions \/ last = true /\ actions = [close_action] ->
  token_outcome result idx last (append_actions result actions idx).
Proof.
  intros Hl Ha. rewrite append_actions_spec by done.
  destruct (Nat.leb_spec (length result.(script_actions) + length actions) kMaximumActions);
    cbn; [|done]. exists actions. split_and!; [done| |done]. by rewrite length_app.
Qed.

Lemma decode_scalars_loop_sound fuel scalars value r :
  Forall (fun cp => is_scalar cp /\ is_unsafe_text_scalar cp = false) scalars ->
  decode_utf8_scalars_loop fuel scalars value = success r ->
  Forall (fun cp => is_scalar cp /\ is_unsafe_text_scalar cp = false) r.
Proof.
  revert scalars value. induction fuel as [|fuel IH]; intros scalars [|first rest] Hs H;
    cbn [decode_utf8_scalars_loop] in H; try done; try (by destruct scalars; simplify_eq).
  destruct (utf8_lead first) as [[initial count]|] eqn:El; [|done].
  destruct (_ <? _)%nat eqn:Hlen; [done|].
  destruct (utf8_continuation _ _) as [cp|] eqn:Ec; [|done].
  destruct (utf8_rejected _ _) eqn:Er; [done|].
  destruct (is_unsafe_text_scalar cp) eqn:Eu; [done|].
  apply IH in H; [done|]. apply Forall_app. split; [done|]. apply Forall_singleton.
  split; [|done]. apply (decode_one_sound (first :: rest) cp count).
  unfold utf8_decode_one. by rewrite El, Hlen, Ec, Er.
Qed.

Lemma letter_scalar_wf token :
  is_letter_key token = true ->
  action_wf (scalar_action (u32 (bval (ascii_upper (byte_at token 0)) - bval "A" + bval "a"))).
Proof.
  unfold is_letter_key. destruct token as [|c token]; [done|]. intros H.
  assert (exists u, ascii_upper c = u /\ u ∈ [("N":byte); "R"; "M"; "S"; "D"]%byte) as (u & Hu & Hin).
  { cbn [str String.list_byte_of_string ascii_equal] in H.
    exists (ascii_upper c). split; [done|].
    repeat (apply orb_true_iff in H as [H|H]); apply andb_true_iff in H as [H _];
      apply Byte.byte_dec_bl in H; rewrite H; cbn; set_solver. }
  change (byte_at (c :: token) 0) with c. rewrite Hu.
  repeat (apply elem_of_cons in Hin as [->|Hin];
    [match goal with |- action_wf (scalar_action ?z) =>
       let z' := eval vm_compute in z in change z with z' end;
     apply wf_scalar; [unfold is_scalar; lia|done]|]).
  by apply elem_of_nil in Hin.
Qed.

Lemma parse_probe_sound payload field value :
  parse_probe payload = success (field, value) -> probe_wf field value.
Proof.
  unfold parse_probe. destruct (split_at ":" payload) as [f [v|]]; [|done].
  destruct (split_at ":" v) as [? [?|]]; [done|].
  destruct (_ || _) eqn:Ef; [done|]. destruct (negb (is_stable_value v 64)) eqn:Ev; [done|].
  intros [= <- <-]. apply orb_false_iff in Ef as [_ Ef%negb_false_iff]. apply negb_false_iff in Ev.
  split; [|done]. unfold is_probe_field in Ef. apply existsb_Exists, Exists_exists in Ef.
  destruct Ef as (x & Hx & Hd). by apply bool_decide_eq_true in Hd as <-.
Qed.

Lemma parse_token_outcome result token idx last :
  (length result.(script_actions) <= kMaximumActions)%nat ->
  token_outcome result idx last (parse_token result token idx last).
Proof.
  intros Hl. unfold parse_token. rewrite !append_action_one.
  destruct (length token =? 0)%nat; [done|]. destruct (_ <? _)%nat; [done|].
  unfold named_key_is_none.
  destruct (decide (named_key_for token = Key_None)) as [Hk|Hk].
  2:{ rewrite bool_decide_eq_false_2 by done. apply token_outcome_append; [done|]. left.
      by apply Forall_singleton, wf_named. }
  rewrite bool_decide_eq_true_2 by done. cbn [negb].
  destruct (is_letter_key token) eqn:Hletter.
  { apply token_outcome_append; [done|]. left. by apply Forall_singleton, letter_scalar_wf. }
  destruct (ascii_equal token (str "WAIT")).
  { apply token_outcome_append; [done|]. left. apply Forall_singleton, wf_wait. }
  destruct (ascii_starts_with token (str "WAIT=")).
  { destruct (parse_decimal _) as [count|]; [|done]. split_if; [done|].
    apply token_outcome_append; [done|]. left. apply Forall_forall.
    intros a Ha. apply list_elem_of_In, repeat_spec in Ha as ->. apply wf_wait. }
  destruct (ascii_starts_with token (str "TEXT=")).
  { destruct (percent_decode _) as [decoded|]; [|done].
    destruct (decode_utf8_scalars decoded) as [scalars|] eqn:Hs; [|done].
    apply token_outcome_append; [done|]. left. apply Forall_map.
    apply decode_scalars_loop_sound in Hs; [|by apply Forall_nil].
    eapply Forall_impl; [done|]. intros cp [? ?]. by apply wf_scalar. }
  destruct (ascii_starts_with token (str "SHOT=")).
  { split_if; [done|]. apply token_outcome_append; [done|]. left. apply Forall_singleton, wf_shot.
    apply andb_false_iff in Heqb as [H|H]; apply negb_false_iff in H; [left|by right].
    by apply Nat.eqb_eq, length_zero_iff_nil in H. }
  destruct (_ || _).
  { destruct (parse_probe _) as [[field value]|] eqn:Hp; [|done].
    rewrite append_action_one. apply token_outcome_append; [done|]. left. apply Forall_singleton.
    apply parse_probe_sound in Hp. destruct (ascii_starts_with _ _); by constructor. }
  destruct (ascii_equal token (str "CLOSE")); [|done].
  destruct last; cbn [negb]; [|done]. apply token_outcome_append; [done|]. by right.
Qed.

(** ** The loop *)

Lemma split_at_spec c value before after :
  split_at c value = (before, after) ->
  (c ∉ before) /\ value = before ++ (match after with Some rest => c :: rest | None => [] end).
Proof.
  revert before. induction value as [|x value IH]; intros before; cbn [split_at].
  { intros [= <- <-]. split; [apply not_elem_of_nil|done]. }
  destruct (Byte.eqb x c) eqn:E.
  { apply Byte.byte_dec_bl in E as ->. intros [= <- <-]. split; [apply not_elem_of_nil|done]. }
  destruct (split_at c value) as [b a]. intros [= <- <-].
  destruct (IH b eq_refl) as [Hb ->]. split; [|done].
  apply not_elem_of_cons. split; [|done]. intros ->. by rewrite (Byte.byte_dec_lb eq_refl) in E.
Qed.

Lemma split_at_app c before after :
  c ∉ before ->
  split_at c (before ++ match after with Some rest => c :: rest | None => [] end) = (before, after).
Proof.
  induction before as [|x before IH]; cbn [app split_at].
  { intros _. destruct after; [|done]. cbn. by rewrite (Byte.byte_dec_lb eq_refl). }
  intros [Hx Hb]%not_elem_of_cons. rewrite IH by done.
  destruct (Byte.eqb x c) eqn:E; [|done]. by apply Byte.byte_dec_bl in E.
Qed.

(** One token more than there are commas. *)
Definition token_count (source : bytes) : nat := S (count_if (Byte.eqb ",") source).

(** What [parse] returns: a well-formed script, or an error and no action. *)
Definition script_outcome (lo hi : nat) (r : ParseResult) : Prop :=
  (exists actions, r = mkParseResult actions ParseError_None 0 [] /\ script_wf actions) \/
  (r.(script_actions) = [] /\ r.(script_error) <> ParseError_None /\
   r.(script_error) <> ParseError_SourceTooLong /\ (lo < r.(script_token_index) <= hi)%nat).

Lemma count_commas_after before rest :
  count_if (Byte.eqb ",") (before ++ ","%byte :: rest) =
  (count_if (Byte.eqb ",") before + S (count_if (Byte.eqb ",") rest))%nat.
Proof. rewrite count_if_app, count_if_cons. by rewrite (Byte.byte_dec_lb eq_refl). Qed.

Lemma parse_loop_outcome fuel actions rest idx :
  (length rest < fuel)%nat -> (length actions <= kMaximumActions)%nat ->
  Forall action_wf actions ->
  exists r, parse_loop fuel (mkParseResult actions ParseError_None 0 []) rest idx = Some r /\
    script_outcome idx (idx + token_count rest) r.
Proof.
  revert actions rest idx. induction fuel as [|fuel IH]; intros actions rest idx Hf Hl Hw; [lia|].
  cbn [parse_loop]. destruct (split_at "," rest) as [before after] eqn:Hsp.
  apply split_at_spec in Hsp as [_ Hrest].
  assert (negb (bool_decide (is_Some after)) = match after with Some _ => false | None => true end)
    as -> by by destruct after.
  set (last := match after with Some _ => false | None => true end).
  pose proof (parse_token_outcome (mkParseResult actions ParseError_None 0 []) (trim before)
                (S idx) last Hl) as Ho.
  destruct (parse_token _ _ _ _) as [[] r]; cbn [token_outcome] in Ho.
  - destruct Ho as (new & -> & Hlen & Hnew). unfold with_actions in *. cbn in *.
    destruct after as [rest'|].
    + destruct Hnew as [Hnew|[Hlast _]]; [|done].
      destruct (IH (actions ++ new) rest' (S idx)) as (r & -> & Hr).
      * rewrite Hrest, length_app in Hf. cbn in Hf. lia.
      * done.
      * by apply Forall_app.
      * exists r. split; [done|]. destruct Hr as [Hr|(? & ? & ? & ?)]; [by left|right].
        split_and!; try done; try lia. rewrite Hrest. unfold token_count in *.
        rewrite count_commas_after. lia.
    + eexists. split; [done|]. left. eexists. split; [done|]. split; [done|].
      destruct Hnew as [Hnew|[_ ->]].
      * exists (actions ++ new), []. rewrite app_nil_r. split_and!; [done|by apply Forall_app|by left].
      * exists actions, [close_action]. split_and!; [done|done|by right].
  - exists r. split; [done|]. right. destruct Ho as (? & ? & ? & ->).
    split_and!; try done; unfold token_count; lia.
Qed.

(** ** Round trip *)

Lemma percent_decode_encode bs :
  (1 <= length bs <= kMaximumTextBytes)%nat -> percent_decode (percent_encode bs) = success bs.
Proof.
  intros Hl.
  assert (forall bs decoded, (length decoded + length bs <= kMaximumTextBytes)%nat ->
    percent_decode_loop decoded (percent_encode bs) = success (decoded ++ bs)) as Hloop.
  { clear. intros bs. induction bs as [|b bs IH]; intros decoded Hl.
    { cbn. by rewrite app_nil_r. }
    unfold percent_encode in *. cbn [map concat app percent_decode_loop length] in *.
    assert (exists h l, byte_at (str "0123456789ABCDEF") (Z.to_nat (bval b / 16)) = h /\
      byte_at (str "0123456789ABCDEF") (Z.to_nat (bval b mod 16)) = l /\
      (script_hex_value h <? 0) || (script_hex_value l <? 0) = false /\
      to_u8 (Z.lor (Z.shiftl (script_hex_value h) 4) (script_hex_value l)) = b)
      as (h & l & -> & -> & Hneg & Hval) by (do 2 eexists; split; [done|]; split; [done|]; clear; destruct b; by vm_compute).
    replace (Byte.eqb "%" "%") with true by done. rewrite Hneg.
    rewrite (proj2 (Nat.leb_gt _ _)) by lia. rewrite Hval, IH.
    - by rewrite <- app_assoc.
    - rewrite length_app. cbn. lia. }
  unfold percent_decode. destruct (percent_encode bs) as [|c e] eqn:E.
  - destruct bs; [cbn in Hl; lia|done].
  - rewrite <- E, Hloop by (cbn; lia). done.
Qed.

Lemma encode_length cp : is_scalar cp -> (1 <= length (encode_utf8 cp) <= 4)%nat.
Proof.
  intros Hs. pose proof (encode_nonempty cp Hs). unfold encode_utf8 in *.
  repeat split_if; cbn in *; lia.
Qed.

Lemma decode_scalars_encode cp :
  is_scalar cp -> is_unsafe_text_scalar cp = false ->
  decode_utf8_scalars (encode_utf8 cp) = success [cp].
Proof.
  intros Hs Hu. pose proof (encode_length cp Hs) as Hl.
  pose proof (decode_one_encode cp [] Hs) as Hd. rewrite app_nil_r in Hd.
  unfold decode_utf8_scalars. destruct (encode_utf8 cp) as [|b rest] eqn:E; [cbn in Hl; lia|].
  cbn [length decode_utf8_scalars_loop].
  apply decode_one_parts in Hd as (b' & rest' & initial & [= <- <-] & -> & Hn & -> & ->).
  rewrite (proj2 (Nat.ltb_ge _ _)) by done. rewrite Hu.
  rewrite drop_all. by destruct (length rest).
Qed.

(** A token whose text starts with a keyword. *)
Definition short (token : bytes) : Prop := (length token <= kMaximumTokenBytes)%nat.

Ltac keyword_token :=
  intros Hs; unfold parse_token; rewrite (proj2 (Nat.ltb_ge _ _)) by done; reflexivity.

Lemma parse_token_text result s idx last :
  short (str "TEXT=" ++ s) ->
  parse_token result (str "TEXT=" ++ s) idx last =
  match percent_decode s with
  | failure d => (false, script_failure ParseError_InvalidTextEncoding idx d)
  | success decoded =>
      match decode_utf8_scalars decoded with
      | failure d => (false, script_failure ParseError_UnsafeText idx d)
      | success scalars => append_actions result (map scalar_action scalars) idx
      end
  end.
Proof. keyword_token. Qed.

Lemma parse_token_shot result s idx last :
  short (str "SHOT=" ++ s) -> s = [] \/ is_safe_screenshot_stem s = true ->
  parse_token result (str "SHOT=" ++ s) idx last =
  append_action result (mkAction Action_Screenshot Key_None 0 [] s) idx.
Proof.
  intros Hs H.
  transitivity
    (if negb (length s =? 0)%nat && negb (is_safe_screenshot_stem s)
     then (false, script_failure ParseError_InvalidValue idx
                    (str "SHOT stem is not a canonical safe lowercase name"))
     else append_action result (mkAction Action_Screenshot Key_None 0 [] s) idx).
  { revert Hs. keyword_token. }
  destruct H as [-> | ->]; [done|]. by rewrite andb_false_r.
Qed.

Lemma parse_token_expect result s idx last :
  short (str "EXPECT=" ++ s) ->
  parse_token result (str "EXPECT=" ++ s) idx last =
  match parse_probe s with
  | failure d => (false, script_failure ParseError_InvalidValue idx d)
  | success (field, value) =>
      append_action result (mkAction Action_Expect Key_None 0 field value) idx
  end.
Proof. keyword_token. Qed.

Lemma parse_token_await result s idx last :
  short (str "AWAIT=" ++ s) ->
  parse_token result (str "AWAIT=" ++ s) idx last =
  match parse_probe s with
  | failure d => (false, script_failure ParseError_InvalidValue idx d)
  | success (field, value) =>
      append_action result (mkAction Action_Await Key_None 0 field value) idx
  end.
Proof.
  intros Hs. unfold parse_token. rewrite (proj2 (Nat.ltb_ge _ _)) by done. by destruct s.
Qed.

(** The characters the printer uses. *)
Definition token_character (c : byte) : bool :=
  negb (Byte.eqb c ",") && negb (is_ascii_space c).

Lemma stable_character_token c :
  is_stable_character c = true -> token_character c = true /\ c <> ":"%byte.
Proof. by destruct c. Qed.

Lemma percent_encode_clean bs :
  Forall (fun c => token_character c = true) (percent_encode bs) /\
  length (percent_encode bs) = (3 * length bs)%nat.
Proof.
  induction bs as [|b bs [IH IHl]]; [split; [by apply Forall_nil|done]|].
  unfold percent_encode in *. cbn [map concat]. rewrite length_app, IHl. split; [|cbn; lia].
  apply Forall_app. split; [|done]. clear.
  apply forallb_Forall. by destruct b.
Qed.

Lemma safe_stem_clean stem :
  is_safe_screenshot_stem stem = true ->
  Forall (fun c => token_character c = true) stem /\ (length stem <= 64)%nat.
Proof.
  unfold is_safe_screenshot_stem. destruct stem as [|c stem]; [done|].
  destruct (Nat.ltb_spec 64 (length (c :: stem))); [done|]. destruct (_ || _); [done|].
  intros Hall%forallb_Forall. split; [|done]. eapply Forall_impl; [done|].
  intros x Hx. by apply (stable_character_token x).
Qed.

Lemma stable_value_clean value n :
  is_stable_value value n = true ->
  Forall (fun c => token_character c = true) value /\ (":"%byte ∉ value) /\
  (1 <= length value <= n)%nat.
Proof.
  unfold is_stable_value. destruct value as [|c value]; [done|].
  intros [Hn Hall]%andb_true_iff. apply negb_true_iff, orb_false_iff in Hn as [Hn%Nat.ltb_ge _].
  apply forallb_Forall in Hall. split_and!; [| |cbn; lia|done].
  - eapply Forall_impl; [done|]. intros x Hx. by apply stable_character_token.
  - intros Hin. rewrite Forall_forall in Hall. by apply Hall, stable_character_token in Hin as [_ ?].
Qed.

Lemma probe_field_clean field :
  field ∈ probe_fields ->
  Forall (fun c => token_character c = true) field /\ (":"%byte ∉ field) /\
  (length field <= 16)%nat /\ is_stable_atom field 16 = true /\ is_probe_field field = true.
Proof.
  intros Hin. assert (Forall (fun f =>
    forallb token_character f = true /\ forallb (fun c => negb (Byte.eqb c ":")) f = true /\
    (length f <= 16)%nat /\ is_stable_atom f 16 = true /\ is_probe_field f = true) probe_fields) as Hall.
  { repeat (apply Forall_cons; split; [split_and!; try (by vm_compute); cbn; lia|]). by apply Forall_nil. }
  rewrite Forall_forall in Hall. destruct (Hall _ Hin) as (Ht & Hc & ? & ? & ?).
  split_and!; try done; [by apply forallb_Forall|]. intros Hcolon.
  apply forallb_Forall in Hc. rewrite Forall_forall in Hc. by apply Hc in Hcolon.
Qed.

Lemma parse_probe_print field value :
  probe_wf field value -> parse_probe (field ++ [":"%byte] ++ value) = success (field, value).
Proof.
  intros [Hf Hv]. destruct (probe_field_clean _ Hf) as (_ & Hfc & _ & Ha & Hp).
  destruct (stable_value_clean _ _ Hv) as (_ & Hvc & _). unfold parse_probe. cbn [app].
  rewrite (split_at_app ":" field (Some value)) by done.
  pose proof (split_at_app ":" value None Hvc) as Hs. rewrite app_nil_r in Hs.
  by rewrite Hs, Ha, Hp, Hv.
Qed.

(** Every printed action is a clean token that stands for itself. *)
Definition token_ok (a : Action) (last : bool) : Prop :=
  Forall (fun c => token_character c = true) (print_action a) /\
  short (print_action a) /\ print_action a <> [] /\
  forall result idx, parse_token result (print_action a) idx last = append_action result a idx.

Lemma keyword_ok keyword s :
  forallb token_character keyword = true -> Forall (fun c => token_character c = true) s ->
  Forall (fun c => token_character c = true) (keyword ++ s).
Proof. intros H%forallb_Forall ?. by apply Forall_app. Qed.

Lemma probe_payload_clean field value :
  probe_wf field value ->
  Forall (fun c => token_character c = true) (field ++ [":"%byte] ++ value) /\
  (length (field ++ [":"%byte] ++ value) <= 81)%nat.
Proof.
  intros [Hf Hv]. destruct (probe_field_clean _ Hf) as (Hfc & _ & Hfl & _).
  destruct (stable_value_clean _ _ Hv) as (Hvc & _ & Hvl). split.
  - rewrite !Forall_app. split_and!; [done| |done]. by apply Forall_singleton.
  - rewrite !length_app. cbn. lia.
Qed.

Lemma print_action_ok a last : action_wf a -> token_ok a last.
Proof.
  intros Ha. unfold token_ok. destruct Ha as [key Hk|cp Hs Hu| |stem Hst|field value Hp|field value Hp].
  - split_and!; destruct key; try done; try (by apply forallb_Forall);
      unfold short, kMaximumTokenBytes; cbn; lia.
  - cbn [print_action action_type action_named_key action_scalar scalar_action].
    destruct (percent_encode_clean (encode_utf8 cp)) as [Hc Hl].
    pose proof (encode_length cp Hs) as Hel.
    assert (short (str "TEXT=" ++ percent_encode (encode_utf8 cp))) as Hshort.
    { unfold short, kMaximumTokenBytes. rewrite length_app, Hl. change (length (str "TEXT=")) with 5%nat. lia. }
    split_and!; [by apply keyword_ok|done|done|]. intros result idx.
    rewrite parse_token_text, percent_decode_encode, decode_scalars_encode
      by (done || unfold kMaximumTextBytes; lia).
    by rewrite append_action_one.
  - split_and!; try done; [by apply forallb_Forall|]. unfold short, kMaximumTokenBytes; cbn; lia.
  - cbn [print_action action_type action_value].
    assert (Forall (fun c => token_character c = true) stem /\ (length stem <= 64)%nat) as [Hc Hl].
    { destruct Hst as [-> | Hst]; [split; [by apply Forall_nil|cbn; lia]|by apply safe_stem_clean]. }
    assert (short (str "SHOT=" ++ stem)) as Hshort.
    { unfold short, kMaximumTokenBytes. rewrite length_app. change (length (str "SHOT=")) with 5%nat. lia. }
    split_and!; [by apply keyword_ok|done|done|]. intros result idx. by rewrite parse_token_shot.
  - cbn [print_action action_type action_value action_field].
    destruct (probe_payload_clean _ _ Hp) as [Hc Hl].
    assert (short (str "EXPECT=" ++ field ++ [":"%byte] ++ value)) as Hshort.
    { unfold short, kMaximumTokenBytes. rewrite length_app. change (length (str "EXPECT=")) with 7%nat. lia. }
    split_and!; [by apply keyword_ok|done|done|]. intros result idx.
    by rewrite parse_token_expect, parse_probe_print.
  - cbn [print_action action_type action_value action_field].
    destruct (probe_payload_clean _ _ Hp) as [Hc Hl].
    assert (short (str "AWAIT=" ++ field ++ [":"%byte] ++ value)) as Hshort.
    { unfold short, kMaximumTokenBytes. rewrite length_app. change (length (str "AWAIT=")) with 6%nat. lia. }
    split_and!; [by apply keyword_ok|done|done|]. intros result idx.
    by rewrite parse_token_await, parse_probe_print.
Qed.

Lemma close_action_ok : token_ok close_action true.
Proof.
  split_and!; try done; [by apply forallb_Forall|]. unfold short, kMaximumTokenBytes; cbn; lia.
Qed.

Lemma remove_spaces_clean s :
  Forall (fun c => token_character c = true) s -> remove_spaces s = s.
Proof.
  intros [|c s' Hc _]; [done|]. cbn. unfold token_character in Hc.
  apply andb_true_iff in Hc as [_ Hc%negb_true_iff]. by rewrite Hc.
Qed.

Lemma trim_clean s : Forall (fun c => token_character c = true) s -> trim s = s.
Proof.
  intros Hs. unfold trim. rewrite (remove_spaces_clean s Hs), remove_spaces_clean, rev_involutive.
  - done.
  - by apply List.Forall_rev.
Qed.

Lemma clean_no_comma s : Forall (fun c => token_character c = true) s -> ","%byte ∉ s.
Proof. intros Hs Hin. rewrite Forall_forall in Hs. by apply Hs in Hin. Qed.

Lemma parse_loop_print todo fuel actions idx :
  todo <> [] -> (length (print_script todo) < fuel)%nat ->
  (length actions + length todo <= kMaximumActions)%nat ->
  (forall a pre post, todo = pre ++ a :: post -> token_ok a (bool_decide (post = []))) ->
  parse_loop fuel (mkParseResult actions ParseError_None 0 []) (print_script todo) idx =
  Some (mkParseResult (actions ++ todo) ParseError_None 0 []).
Proof.
  revert fuel actions idx. induction todo as [|a todo IH]; [done|].
  intros fuel actions idx _ Hf Hl Hok. destruct fuel as [|fuel]; [lia|].
  destruct (Hok a [] todo eq_refl) as (Hclean & Hshort & Hne & Hparse).
  pose proof (append_actions_spec [a] (mkParseResult actions ParseError_None 0 []) (S idx)) as Happ.
  cbn [script_actions] in Happ. cbn [length] in Happ, Hl.
  rewrite (proj2 (Nat.leb_le _ _)) in Happ by lia. specialize (Happ ltac:(lia)).
  rewrite <- append_action_one in Happ. unfold with_actions in Happ. cbn in Happ.
  cbn [parse_loop].
  destruct todo as [|a2 todo].
  - cbn [print_script]. pose proof (split_at_app "," (print_action a) None) as Hsp.
    rewrite app_nil_r in Hsp. rewrite Hsp by by apply clean_no_comma.
    rewrite trim_clean by done. rewrite bool_decide_eq_true_2 in Hparse by done.
    rewrite bool_decide_eq_false_2 by by intros [? ?]. cbn [negb]. by rewrite Hparse, Happ.
  - change (print_script (a :: a2 :: todo)) with
      (print_action a ++ ","%byte :: print_script (a2 :: todo)) in *.
    rewrite (split_at_app "," (print_action a) (Some (print_script (a2 :: todo))))
      by by apply clean_no_comma.
    rewrite trim_clean by done. rewrite bool_decide_eq_false_2 in Hparse by done.
    rewrite bool_decide_eq_true_2 by done. cbn [negb]. rewrite Hparse, Happ.
    rewrite IH; [by rewrite <- app_assoc|done| | |].
    + rewrite length_app in Hf. cbn [length] in Hf. lia.
    + rewrite length_app. cbn [length] in *. lia.
    + intros a' pre post Heq. apply (Hok a' (a :: pre) post). by rewrite Heq.
Qed.

(** The interval is in its range whatever is configured, and an invalid one is
    the default. *)
Lemma parse_interval_bounds configured :
  let r := parse_interval configured in
  kMinimumIntervalMilliseconds <= r.(interval_milliseconds) <= kMaximumIntervalMilliseconds /\
  (r.(interval_valid) = false -> r.(interval_milliseconds) = kDefaultIntervalMilliseconds).
Proof.
  unfold parse_interval, kMinimumIntervalMilliseconds, kMaximumIntervalMilliseconds,
    kDefaultIntervalMilliseconds.
  destruct configured as [value|]; [|by split].
  destruct (_ <? _)%nat; [by split|]. destruct (parse_decimal value) as [n|]; [|by split].
  destruct (_ || _) eqn:E; [by split|]. reflect_bools. cbn. split; [lia|done].
Qed.

(** ** Property theorems *)

(** A script stands for exactly one of its action lists, or none.  The
    parser always answers.  An accepted script yields at most 1024 actions, each
    of them well formed (a named key, a safe Unicode scalar, a wait, a
    screenshot with a safe name, an expectation over a known field), the window
    is closed by the last one if at all, and no error is left in the result; a
    rejected one yields no action, an error, and the number of the token that
    is to blame (none if the source is too long). *)
Theorem script_parse_sound source :
  exists r, script_parse source = Some r /\
    ((length source > kMaximumSourceBytes)%nat /\ r.(script_actions) = [] /\
       r.(script_error) = ParseError_SourceTooLong /\ r.(script_token_index) = 0%nat \/
     (length source <= kMaximumSourceBytes)%nat /\
     script_outcome 0 (token_count source) r).
Proof.
  unfold script_parse. destruct (Nat.ltb_spec kMaximumSourceBytes (length source)).
  { eexists. split; [done|]. left. by split_and!. }
  destruct source as [|c source].
  { eexists. split; [done|]. right. split; [done|]. left. exists []. split; [done|].
    split; [cbn; unfold kMaximumActions; lia|]. exists [], []. split_and!; [done|by apply Forall_nil|by left]. }
  destruct (parse_loop_outcome (S (length (c :: source))) [] (c :: source) 0) as (r & Hr & Ho);
    [lia|cbn; lia|by apply Forall_nil|].
  exists r. split; [done|]. by right.
Qed.

(** every well-formed action list has a script.  Printing a list of at most
    1024 well-formed actions and parsing the text, when it fits in a source,
    gives the list back without an error. *)
Theorem script_print_parse actions :
  script_wf actions -> (length (print_script actions) <= kMaximumSourceBytes)%nat ->
  script_parse (print_script actions) = Some (mkParseResult actions ParseError_None 0 []).
Proof.
  intros (Hl & body & tail & -> & Hb & Ht) Hlen. unfold script_parse.
  rewrite (proj2 (Nat.ltb_ge _ _)) by done.
  assert (body ++ tail <> [] -> parse_loop (S (length (print_script (body ++ tail)))) empty_result
    (print_script (body ++ tail)) 0 =
    Some (mkParseResult (body ++ tail) ParseError_None 0 [])) as Hloop.
  { intros Hne. apply (parse_loop_print (body ++ tail) _ []); [done|lia|done|].
    intros a pre post Heq. assert (action_wf a \/ a = close_action /\ post = []) as [Ha|[-> ->]].
    { destruct Ht as [-> | ->].
      - rewrite app_nil_r in Heq. subst body. left. by apply Forall_app in Hb as [_ [? _]%Forall_cons].
      - destruct post as [|p post _] using rev_ind.
        + apply app_inj_tail in Heq as [_ <-]. by right.
        + rewrite app_comm_cons, app_assoc in Heq. apply app_inj_tail in Heq as [-> _].
          left. by apply Forall_app in Hb as [_ [? _]%Forall_cons]. }
    - by apply print_action_ok.
    - apply close_action_ok. }
  destruct (body ++ tail) as [|a l] eqn:E; [done|].
  destruct (print_script (a :: l)) as [|c p] eqn:Ep; [|by apply Hloop].
  specialize (Hloop ltac:(done)). cbn [length] in Hloop. by vm_compute in Hloop.
Qed.

(** A script for the witness. *)
Definition sample_script : list Action :=
  [mkAction Action_Key Key_Home 0 [] []; scalar_action 0x3042; wait_action;
   mkAction Action_Expect Key_None 0 (str "screen") (str "home"); close_action].

Lemma script_print_parse_witness :
  script_parse (print_script sample_script) =
  Some (mkParseResult sample_script ParseError_None 0 []).
Proof.
  apply script_print_parse.
  - split; [cbn; unfold kMaximumActions; lia|].
    exists (take 4 sample_script), [close_action]. split_and!; [done| |by right].
    repeat (apply Forall_cons; split; [|]); [..|by apply Forall_nil].
    + by apply wf_named.
    + apply wf_scalar; [unfold is_scalar; lia|done].
    + apply wf_wait.
    + apply wf_expect. split; [|done]. apply (bool_decide_unpack _). by vm_compute.
  - cbn. unfold kMaximumSourceBytes. lia.
Defined.
