(* ===== verification/SettingsStore.v ===== *)
(** * SettingsStore: the atomic replacement of the settings file

    src/adapters/storage/atomic_settings_store.cpp and its header.  The operating
    system is a world [W] with one operation per system call the code makes
    ([IPosix]); a call answers a value or an [errno].  What the code relies on is
    [IPosixLaws]: which calls touch which file, and what [fsync] and [rename]
    promise about the contents that survive a loss of power.  The retries after
    [EINTR] are bounded by a fuel. *)
From S2P Require Import Prelude Utf8 Text Uuid Decimal Json SettingsJson.

(** ** Definitions *)

(** *** atomic_settings_store.h *)

Inductive AtomicSettingsWritePoint :=
| Point_ParentDirectoryOpened
| Point_BeforeTemporaryOpen
| Point_TemporaryOpened
| Point_BeforeWrite
| Point_TemporaryWritten
| Point_BeforeFileSync
| Point_TemporarySynced
| Point_BeforeTemporaryClose
| Point_TemporaryClosed
| Point_BeforeRename
| Point_FinalReplaced
| Point_BeforeDirectorySync
| Point_DirectorySynced.

Inductive SettingsStoreError :=
| StoreError_InvalidPath
| StoreError_NotFound
| StoreError_CreateDirectoryFailed
| StoreError_OpenDirectoryFailed
| StoreError_OpenSettingsFailed
| StoreError_ReadSettingsFailed
| StoreError_CloseSettingsFailed
| StoreError_DecodeFailed
| StoreError_EncodeFailed
| StoreError_RemoveStaleTemporaryFailed
| StoreError_OpenTemporaryFailed
| StoreError_SetTemporaryPermissionsFailed
| StoreError_WriteTemporaryFailed
| StoreError_SyncTemporaryFailed
| StoreError_CloseTemporaryFailed
| StoreError_RenameFailed
| StoreError_SyncDirectoryFailed
| StoreError_CloseDirectoryFailed
| StoreError_InjectedFailure.

#[global] Instance SettingsStoreError_eq_decision : EqDecision SettingsStoreError.
Proof. solve_decision. Defined.

Record SettingsStoreFailure := mkSettingsStoreFailure {
  store_error : SettingsStoreError;
  store_system_error : Z;
  store_json_error : option SettingsJsonError;
  store_write_point : option AtomicSettingsWritePoint;
  store_final_replaced : bool
}.

(** The store: its path, and whether a failpoint is installed. *)
Record AtomicSettingsStore := mkAtomicSettingsStore {
  store_final_path : bytes;
  store_failpoint : bool
}.

(** *** The system calls *)

Definition ENOENT : Z := 2.
Definition EINTR : Z := 4.
Definition EIO : Z := 5.
Definition EINVAL : Z := 22.

(** The three sets of flags [open] is called with. *)
Inductive OpenMode :=
| Open_Read
| Open_Directory
| Open_CreateExclusive.

Record FileStatus := mkFileStatus {
  is_regular : bool;
  st_size : Z
}.

(** [create_directories] answers the value of its error code, 0 for none;
    the others answer what the C function returns, or [errno]. *)
Class IPosix (W : Type) := {
  sys_create_directories : W -> bytes -> Z * W;
  sys_open : W -> bytes -> OpenMode -> Result Z Z * W;
  sys_fstat : W -> Z -> Result FileStatus Z * W;
  sys_read : W -> Z -> nat -> Result bytes Z * W;
  sys_write : W -> Z -> bytes -> Result nat Z * W;
  sys_fchmod : W -> Z -> Result unit Z * W;
  sys_fsync : W -> Z -> Result unit Z * W;
  sys_close : W -> Z -> Result unit Z * W;
  sys_rename : W -> bytes -> bytes -> Result unit Z * W;
  sys_unlink : W -> bytes -> Result unit Z * W
}.

(** The failpoint interface of the header. *)
Class IAtomicSettingsFailpoint (W : Type) := {
  should_fail : W -> AtomicSettingsWritePoint -> bool * W
}.

(** *** Paths: what the code uses of [std::filesystem::path] on POSIX *)

(** The part after the last separator, and the part before it. *)
Fixpoint last_component (path acc : bytes) : bytes :=
  match path with
  | [] => acc
  | c :: path => last_component path (if Byte.eqb c "/" then [] else acc ++ [c])
  end.

Definition path_filename (path : bytes) : bytes := last_component path [].

Definition path_is_absolute (path : bytes) : bool :=
  match path with c :: _ => Byte.eqb c "/" | [] => false end.

Fixpoint remove_separators (path : bytes) : bytes :=
  match path with
  | c :: tail => if Byte.eqb c "/" then remove_separators tail else path
  | [] => []
  end.

(** [parent_path]: without the file name and the separators before it, the root
    excepted. *)
Definition path_parent (path : bytes) : bytes :=
  let stem := take (length path - length (path_filename path)) path in
  match rev (remove_separators (rev stem)) with
  | [] => take 1 stem
  | parent => parent
  end.

Definition valid_path (store : AtomicSettingsStore) : bool :=
  let path := store.(store_final_path) in
  path_is_absolute path && negb (bool_decide (path_filename path = [])) &&
  negb (bool_decide (path_filename path = str ".")) &&
  negb (bool_decide (path_filename path = str "..")).

Definition temporary_path (store : AtomicSettingsStore) : bytes :=
  store.(store_final_path) ++ str ".tmp".

(** *** Failures *)

Definition system_failure (error : SettingsStoreError) (system_error : Z)
    (final_replaced : bool) : SettingsStoreFailure :=
  mkSettingsStoreFailure error system_error None None final_replaced.

Definition json_failure (error : SettingsStoreError) (json_error : SettingsJsonError)
  : SettingsStoreFailure := mkSettingsStoreFailure error 0 (Some json_error) None false.

Definition injected_failure (point : AtomicSettingsWritePoint) (final_replaced : bool)
  : SettingsStoreFailure :=
  mkSettingsStoreFailure StoreError_InjectedFailure 0 None (Some point) final_replaced.

(** A computation of the store; [None] is out of fuel. *)
Definition Run (W A : Type) : Type := option (Result A SettingsStoreFailure * W).

Section Store.
Context {W : Type} `{IPosix W} `{IAtomicSettingsFailpoint W}.

Definition close_descriptor (w : W) (descriptor : Z) : Result unit Z * W :=
  if descriptor <? 0 then (success tt, w) else sys_close w descriptor.

Fixpoint sync_descriptor (fuel : nat) (w : W) (descriptor : Z) : option (Result unit Z * W) :=
  match fuel with
  | O => None
  | S fuel =>
      match sys_fsync w descriptor with
      | (success _, w) => Some (success tt, w)
      | (failure error, w) =>
          if error =? EINTR then sync_descriptor fuel w descriptor else Some (failure error, w)
      end
  end.

Fixpoint rename_file (fuel : nat) (w : W) (from to : bytes) : option (Result unit Z * W) :=
  match fuel with
  | O => None
  | S fuel =>
      match sys_rename w from to with
      | (success _, w) => Some (success tt, w)
      | (failure error, w) =>
          if error =? EINTR then rename_file fuel w from to else Some (failure error, w)
      end
  end.

(** *** load *)

(** The reading loop: the contents, or the failure. *)
Fixpoint read_loop (fuel : nat) (w : W) (descriptor : Z) (contents : bytes) : Run W bytes :=
  match fuel with
  | O => None
  | S fuel =>
      match sys_read w descriptor 4096 with
      | (success chunk, w) =>
          if (0 <? length chunk)%nat then
            if (kMaxSettingsJsonBytes - length chunk <? length contents)%nat then
              let (_, w) := close_descriptor w descriptor in
              Some (failure (json_failure StoreError_DecodeFailed SettingsError_TooLarge), w)
            else read_loop fuel w descriptor (contents ++ chunk)
          else Some (success contents, w)
      | (failure error, w) =>
          if error =? EINTR then read_loop fuel w descriptor contents
          else
            let (_, w) := close_descriptor w descriptor in
            Some (failure (system_failure StoreError_ReadSettingsFailed error false), w)
      end
  end.

Definition load (fuel : nat) (store : AtomicSettingsStore) (w : W) : Run W SettingsRecord :=
  if negb (valid_path store)
  then Some (failure (system_failure StoreError_InvalidPath EINVAL false), w)
  else
    match sys_open w store.(store_final_path) Open_Read with
    | (failure error, w) =>
        Some (failure (system_failure
                         (if error =? ENOENT then StoreError_NotFound
                          else StoreError_OpenSettingsFailed) error false), w)
    | (success descriptor, w) =>
        match sys_fstat w descriptor with
        | (failure error, w) =>
            let (_, w) := close_descriptor w descriptor in
            Some (failure (system_failure StoreError_ReadSettingsFailed error false), w)
        | (success status, w) =>
            if negb status.(is_regular) then
              let (_, w) := close_descriptor w descriptor in
              Some (failure (system_failure StoreError_OpenSettingsFailed EINVAL false), w)
            else if (status.(st_size) <? 0) ||
                    (Z.of_nat kMaxSettingsJsonBytes <? status.(st_size)) then
              let (_, w) := close_descriptor w descriptor in
              Some (failure (json_failure StoreError_DecodeFailed SettingsError_TooLarge), w)
            else
              match read_loop fuel w descriptor [] with
              | None => None
              | Some (failure e, w) => Some (failure e, w)
              | Some (success contents, w) =>
                  match close_descriptor w descriptor with
                  | (failure error, w) =>
                      Some (failure (system_failure StoreError_CloseSettingsFailed error false), w)
                  | (success _, w) =>
                      match parse_settings_json contents with
                      | None => None
                      | Some (failure e) =>
                          Some (failure (json_failure StoreError_DecodeFailed e), w)
                      | Some (success settings) => Some (success settings, w)
                      end
                  end
              end
        end
    end.

(** *** save *)

Definition cleanup_before_replace (store : AtomicSettingsStore) (w : W)
    (temporary_descriptor : option Z) (directory_descriptor : Z) : W :=
  let w :=
    match temporary_descriptor with
    | Some descriptor => snd (close_descriptor w descriptor)
    | None => w
    end in
  let w := snd (sys_unlink w (temporary_path store)) in
  snd (close_descriptor w directory_descriptor).

Definition is_injected (store : AtomicSettingsStore) (w : W) (point : AtomicSettingsWritePoint)
  : bool * W :=
  if store.(store_failpoint) then should_fail w point else (false, w).

(** The points passed one after the other; the first one that fails. *)
Fixpoint passes (store : AtomicSettingsStore) (w : W) (points : list AtomicSettingsWritePoint)
  : option AtomicSettingsWritePoint * W :=
  match points with
  | [] => (None, w)
  | point :: points =>
      match is_injected store w point with
      | (true, w) => (Some point, w)
      | (false, w) => passes store w points
      end
  end.

Fixpoint write_loop (fuel : nat) (w : W) (descriptor : Z) (contents : bytes)
  : option (Result unit Z * W) :=
  match contents with
  | [] => Some (success tt, w)
  | _ =>
      match fuel with
      | O => None
      | S fuel =>
          match sys_write w descriptor contents with
          | (success count, w) =>
              if (0 <? count)%nat then write_loop fuel w descriptor (drop count contents)
              else Some (failure EIO, w)
          | (failure error, w) =>
              if error =? EINTR then write_loop fuel w descriptor contents
              else Some (failure error, w)
          end
      end
  end.

(** From the opened directory to the closed temporary file, lines 265 to 352. *)
Definition write_temporary (fuel : nat) (store : AtomicSettingsStore) (w : W)
    (directory : Z) (contents : bytes) : Run W unit :=
  let fail error system_error temporary w :=
    Some (failure (system_failure error system_error false),
          cleanup_before_replace store w temporary directory) in
  let inject point temporary w :=
    Some (failure (injected_failure point false),
          cleanup_before_replace store w temporary directory) in
  match passes store w [Point_ParentDirectoryOpened; Point_BeforeTemporaryOpen] with
  | (Some point, w) => inject point None w
  | (None, w) =>
      let '(removed, w) := sys_unlink w (temporary_path store) in
      match (match removed with
             | failure error => if error =? ENOENT then None else Some error
             | success _ => None
             end) with
      | Some error => fail StoreError_RemoveStaleTemporaryFailed error None w
      | None =>
          match sys_open w (temporary_path store) Open_CreateExclusive with
          | (failure error, w) => fail StoreError_OpenTemporaryFailed error None w
          | (success descriptor, w) =>
              match sys_fchmod w descriptor with
              | (failure error, w) =>
                  fail StoreError_SetTemporaryPermissionsFailed error (Some descriptor) w
              | (success _, w) =>
                  match passes store w [Point_TemporaryOpened; Point_BeforeWrite] with
                  | (Some point, w) => inject point (Some descriptor) w
                  | (None, w) =>
                      match write_loop fuel w descriptor contents with
                      | None => None
                      | Some (failure error, w) =>
                          fail StoreError_WriteTemporaryFailed error (Some descriptor) w
                      | Some (success _, w) =>
                          match passes store w [Point_TemporaryWritten; Point_BeforeFileSync] with
                          | (Some point, w) => inject point (Some descriptor) w
                          | (None, w) =>
                              match sync_descriptor fuel w descriptor with
                              | None => None
                              | Some (failure error, w) =>
                                  fail StoreError_SyncTemporaryFailed error (Some descriptor) w
                              | Some (success _, w) =>
                                  match passes store w
                                          [Point_TemporarySynced; Point_BeforeTemporaryClose] with
                                  | (Some point, w) => inject point (Some descriptor) w
                                  | (None, w) =>
                                      match close_descriptor w descriptor with
                                      | (failure error, w) =>
                                          fail StoreError_CloseTemporaryFailed error None w
                                      | (success _, w) =>
                                          match passes store w
                                                  [Point_TemporaryClosed; Point_BeforeRename] with
                                          | (Some point, w) => inject point None w
                                          | (None, w) => Some (success tt, w)
                                          end
                                      end
                                  end
                              end
                          end
                      end
                  end
              end
          end
      end
  end.

(** The replacement of the final file, lines 354 to 383. *)
Definition replace_final (fuel : nat) (store : AtomicSettingsStore) (w : W) (directory : Z)
  : Run W bool :=
  let inject point w :=
    Some (failure (injected_failure point true), snd (close_descriptor w directory)) in
  match rename_file fuel w (temporary_path store) store.(store_final_path) with
  | None => None
  | Some (failure error, w) =>
      Some (failure (system_failure StoreError_RenameFailed error false),
            cleanup_before_replace store w None directory)
  | Some (success _, w) =>
      match passes store w [Point_FinalReplaced; Point_BeforeDirectorySync] with
      | (Some point, w) => inject point w
      | (None, w) =>
          match sync_descriptor fuel w directory with
          | None => None
          | Some (failure error, w) =>
              Some (failure (system_failure StoreError_SyncDirectoryFailed error true),
                    snd (close_descriptor w directory))
          | Some (success _, w) =>
              match passes store w [Point_DirectorySynced] with
              | (Some point, w) => inject point w
              | (None, w) =>
                  match close_descriptor w directory with
                  | (failure error, w) =>
                      Some (failure (system_failure StoreError_CloseDirectoryFailed error true), w)
                  | (success _, w) => Some (success true, w)
                  end
              end
          end
      end
  end.

Definition save (fuel : nat) (store : AtomicSettingsStore) (w : W) (settings : SettingsRecord)
  : Run W bool :=
  if negb (valid_path store)
  then Some (failure (system_failure StoreError_InvalidPath EINVAL false), w)
  else
    match serialize_settings_json settings with
    | failure e => Some (failure (json_failure StoreError_EncodeFailed e), w)
    | success contents =>
        let parent := path_parent store.(store_final_path) in
        let '(error, w) := sys_create_directories w parent in
        if negb (error =? 0)
        then Some (failure (system_failure StoreError_CreateDirectoryFailed error false), w)
        else
          match sys_open w parent Open_Directory with
          | (failure error, w) =>
              Some (failure (system_failure StoreError_OpenDirectoryFailed error false), w)
          | (success directory, w) =>
              match write_temporary fuel store w directory contents with
              | None => None
              | Some (failure e, w) => Some (failure e, w)
              | Some (success _, w) => replace_final fuel store w directory
              end
          end
    end.
End Store.

(** ** What the code relies on *)

(** What an open descriptor is: a file being written under a name, a directory,
    a file being read (what is left of it), or something else. *)
Inductive Handle :=
| Handle_File (path : bytes)
| Handle_Directory (path : bytes)
| Handle_Reader (rest : bytes)
| Handle_Other.

(** Observations of a world: what a name reads as now ([None] is no regular
    file), what it may read as after a loss of power at this instant, whether
    the data under it were flushed, and the open descriptors. *)
Class PosixView (W : Type) := {
  visible : W -> bytes -> option bytes;
  survives : W -> bytes -> option bytes -> Prop;
  synced : W -> bytes -> Prop;
  handle : W -> Z -> option Handle
}.

(** The file under a name is left alone; a call may make fewer of its contents
    possible after a crash. *)
Definition same_file {W} `{PosixView W} (p : bytes) (w w' : W) : Prop :=
  visible w' p = visible w p /\ (forall c, survives w' p c -> survives w p c) /\
  (synced w p -> synced w' p).

Definition same_handles {W} `{PosixView W} (w w' : W) : Prop :=
  forall d, handle w' d = handle w d.

(** A new descriptor. *)
Definition opened {W} `{PosixView W} (w w' : W) (d : Z) (h : Handle) : Prop :=
  0 <= d /\ handle w d = None /\ handle w' d = Some h /\
  forall x, x <> d -> handle w' x = handle w x.

Class IPosixLaws (W : Type) `{IPosix W} `{IAtomicSettingsFailpoint W} `{PosixView W} := {
  create_directories_law w p r w' :
    sys_create_directories w p = (r, w') -> same_handles w w' /\ forall q, same_file q w w';
  open_failed w p m e w' :
    sys_open w p m = (failure e, w') -> same_handles w w' /\ forall q, same_file q w w';
  open_read_law w p d w' :
    sys_open w p Open_Read = (success d, w') ->
    (forall q, same_file q w w') /\
    opened w w' d (match visible w p with Some c => Handle_Reader c | None => Handle_Other end);
  open_directory_law w p d w' :
    sys_open w p Open_Directory = (success d, w') ->
    (forall q, same_file q w w') /\ opened w w' d (Handle_Directory p);
  open_create_law w p d w' :
    sys_open w p Open_CreateExclusive = (success d, w') ->
    (forall q, q <> p -> same_file q w w') /\ opened w w' d (Handle_File p) /\
    visible w' p = Some [];
  open_enoent_law w p w' :
    sys_open w p Open_Read = (failure ENOENT, w') -> visible w p = None;
  fstat_law w d r w' :
    sys_fstat w d = (r, w') -> same_handles w w' /\ forall q, same_file q w w';
  fstat_reader_law w d st w' rest :
    sys_fstat w d = (success st, w') -> handle w d = Some (Handle_Reader rest) ->
    st.(is_regular) = true /\ st.(st_size) = Z.of_nat (length rest);
  fstat_other_law w d st w' :
    sys_fstat w d = (success st, w') -> handle w d = Some Handle_Other ->
    st.(is_regular) = false;
  read_failed w d n e w' :
    sys_read w d n = (failure e, w') -> same_handles w w' /\ forall q, same_file q w w';
  read_law w d n chunk rest w' :
    sys_read w d n = (success chunk, w') -> handle w d = Some (Handle_Reader rest) ->
    (forall q, same_file q w w') /\ (forall x, x <> d -> handle w' x = handle w x) /\
    exists rest', rest = chunk ++ rest' /\ (chunk = [] -> rest = []) /\
      handle w' d = Some (Handle_Reader rest');
  fchmod_law w d r w' :
    sys_fchmod w d = (r, w') ->
    same_handles w w' /\ (forall q, same_file q w w');
  write_law w d data r w' p :
    sys_write w d data = (r, w') -> handle w d = Some (Handle_File p) ->
    same_handles w w' /\ (forall q, q <> p -> same_file q w w') /\
    match r with
    | success n => (n <= length data)%nat /\
        forall c, visible w p = Some c -> visible w' p = Some (c ++ take n data)
    | failure _ => visible w' p = visible w p
    end;
  fsync_file_law w d r w' p :
    sys_fsync w d = (r, w') -> handle w d = Some (Handle_File p) ->
    same_handles w w' /\ (forall q, q <> p -> same_file q w w') /\
    visible w' p = visible w p /\ (r = success tt -> synced w' p);
  fsync_directory_law w d r w' p :
    sys_fsync w d = (r, w') -> handle w d = Some (Handle_Directory p) ->
    same_handles w w' /\ (forall q, same_file q w w') /\
    (r = success tt -> forall q c, path_parent q = p -> synced w q ->
       survives w' q c -> c = visible w q);
  close_law w d r w' :
    sys_close w d = (r, w') ->
    (forall x, x <> d -> handle w' x = handle w x) /\ forall q, same_file q w w';
  rename_law w p q w' r :
    sys_rename w p q = (r, w') -> p <> q ->
    same_handles w w' /\
    match r with
    | success _ => visible w' q = visible w p /\
        (synced w p -> synced w' q /\
           forall c, survives w' q c -> survives w q c \/ c = visible w p)
    | failure _ => same_file p w w' /\ same_file q w w'
    end;
  unlink_law w p r w' :
    sys_unlink w p = (r, w') -> same_handles w w' /\ forall q, q <> p -> same_file q w w';
  should_fail_law w point b w' :
    should_fail w point = (b, w') -> same_handles w w' /\ forall q, same_file q w w'
}.

(** ** Frames *)

Section Laws.
Context {W : Type} `{IPosixLaws W}.
Implicit Types (w : W) (store : AtomicSettingsStore).

#[export] Instance same_file_preorder p : PreOrder (same_file p).
Proof.
  split; [by intros w|]. intros w w1 w2 (Hv & Hs & Hy) (Hv' & Hs' & Hy').
  split_and!; [congruence|auto|auto].
Qed.

#[export] Instance same_handles_preorder : PreOrder same_handles.
Proof. split; [by intros w d|]. intros w w1 w2 Ha Hb d. by rewrite Hb, Ha. Qed.

(** Everything a store does before the rename leaves the final file alone. *)
Definition others (store : AtomicSettingsStore) w w' : Prop :=
  forall q, q <> temporary_path store -> same_file q w w'.

#[export] Instance others_preorder store : PreOrder (others store).
Proof.
  split; [by intros w q _|]. intros w w1 w2 Ha Hb q Hq.
  etrans; [by apply Ha|by apply Hb].
Qed.

Lemma all_others store w w' : (forall q, same_file q w w') -> others store w w'.
Proof. by intros Hall q _. Qed.

Lemma temporary_neq store : temporary_path store <> store.(store_final_path).
Proof.
  unfold temporary_path. intros E. apply (f_equal length) in E.
  rewrite length_app in E. cbn in E. lia.
Qed.

Lemma close_descriptor_law w d r w' :
  close_descriptor w d = (r, w') ->
  (forall x, x <> d -> handle w' x = handle w x) /\ forall q, same_file q w w'.
Proof.
  unfold close_descriptor. destruct (_ <? _); [by intros [= _ <-]|apply close_law].
Qed.

Lemma close_descriptor_snd w d q : same_file q w (snd (close_descriptor w d)).
Proof. destruct (close_descriptor w d) as [r w'] eqn:E. by apply close_descriptor_law in E as [_ ?]. Qed.

Lemma unlink_snd store w : others store w (snd (sys_unlink w (temporary_path store))).
Proof.
  destruct (sys_unlink _ _) as [r w'] eqn:E. apply unlink_law in E as [_ Hq]. exact Hq.
Qed.

Lemma cleanup_others store w d directory :
  others store w (cleanup_before_replace store w d directory).
Proof.
  unfold cleanup_before_replace.
  etrans; [|apply all_others; intros; apply close_descriptor_snd].
  etrans; [|apply unlink_snd]. destruct d; [|done].
  apply all_others. intros. apply close_descriptor_snd.
Qed.

Lemma passes_law store points : forall w r w',
  passes store w points = (r, w') -> same_handles w w' /\ forall q, same_file q w w'.
Proof.
  induction points as [|point points IH]; intros w r w'; cbn [passes]; [by intros [= _ <-]|].
  destruct (is_injected store w point) as [b w1] eqn:E.
  assert (same_handles w w1 /\ forall q, same_file q w w1) as [Hh Hq].
  { unfold is_injected in E. destruct (store_failpoint store); [by eapply should_fail_law|].
    by injection E as _ <-. }
  destruct b; [by intros [= _ <-]|]. intros [Hh' Hq']%IH.
  split; [by etrans|]. intros q. etrans; [apply Hq|apply Hq'].
Qed.

(** ** The loops *)

Lemma sync_file_law fuel : forall w d r w' p,
  sync_descriptor fuel w d = Some (r, w') -> handle w d = Some (Handle_File p) ->
  same_handles w w' /\ (forall q, q <> p -> same_file q w w') /\
  visible w' p = visible w p /\ (r = success tt -> synced w' p).
Proof.
  induction fuel as [|fuel IH]; intros w d r w' p; cbn [sync_descriptor]; [done|].
  destruct (sys_fsync w d) as [[[]|e] w1] eqn:E; intros Hr Hd;
    eapply fsync_file_law in E as (Hh & Hq & Hv & Hs); try done.
  - injection Hr as <- <-. by split_and!.
  - destruct (e =? EINTR); [|by injection Hr as <- <-; split_and!].
    apply (IH _ _ _ _ p) in Hr as (Hh' & Hq' & Hv' & Hs'); [|by rewrite Hh].
    split_and!; [by etrans| |by rewrite Hv'|done].
    intros q Hne. etrans; [by apply Hq|by apply Hq'].
Qed.

Lemma sync_directory_law fuel : forall w d r w' p,
  sync_descriptor fuel w d = Some (r, w') -> handle w d = Some (Handle_Directory p) ->
  same_handles w w' /\ (forall q, same_file q w w') /\
  (r = success tt -> forall q c, path_parent q = p -> synced w q ->
     survives w' q c -> c = visible w q).
Proof.
  induction fuel as [|fuel IH]; intros w d r w' p; cbn [sync_descriptor]; [done|].
  destruct (sys_fsync w d) as [[[]|e] w1] eqn:E; intros Hr Hd;
    eapply fsync_directory_law in E as (Hh & Hq & Hs); try done.
  - injection Hr as <- <-. by split_and!.
  - destruct (e =? EINTR); [|by injection Hr as <- <-; split_and!].
    apply (IH _ _ _ _ p) in Hr as (Hh' & Hq' & Hs'); [|by rewrite Hh].
    split_and!; [by etrans| |].
    + intros q. etrans; [apply Hq|apply Hq'].
    + intros -> q c Hp Hy Hc. destruct (Hq q) as (Hv & _ & Hy1).
      rewrite <- Hv. by apply (Hs' eq_refl q c Hp); [apply Hy1|].
Qed.

Lemma rename_file_law fuel : forall w p q r w',
  rename_file fuel w p q = Some (r, w') -> p <> q ->
  same_handles w w' /\
  match r with
  | success _ => visible w' q = visible w p /\
      (synced w p -> synced w' q /\
         forall c, survives w' q c -> survives w q c \/ c = visible w p)
  | failure _ => same_file q w w'
  end.
Proof.
  induction fuel as [|fuel IH]; intros w p q r w'; cbn [rename_file]; [done|].
  destruct (sys_rename w p q) as [[[]|e] w1] eqn:E; intros Hr Hne;
    apply rename_law in E as [Hh Hl]; try done.
  - by injection Hr as <- <-.
  - destruct Hl as [Hp Hq].
    destruct (e =? EINTR); [|by injection Hr as <- <-].
    apply IH in Hr as [Hh' Hr]; [|done]. split; [by etrans|]. destruct r as [[]|].
    + destruct Hr as [Hv Hs], Hp as (Hvp & _ & Hyp), Hq as (Hvq & Hsq & _).
      rewrite Hv, Hvp. split; [done|]. intros Hy. destruct (Hs (Hyp Hy)) as [? Hc].
      split; [done|]. intros c [?|?]%Hc; [left; by apply Hsq|right; congruence].
    + by etrans.
Qed.

Lemma write_loop_law fuel : forall w d contents r w' p c,
  write_loop fuel w d contents = Some (r, w') -> handle w d = Some (Handle_File p) ->
  visible w p = Some c ->
  same_handles w w' /\ (forall q, q <> p -> same_file q w w') /\
  (r = success tt -> visible w' p = Some (c ++ contents)).
Proof.
  induction fuel as [|fuel IH]; intros w d contents r w' p c; destruct contents as [|b contents];
    cbn [write_loop]; try done;
    try (intros [= <- <-] Hd Hv; split_and!; [done|done|intros _; by rewrite app_nil_r]).
  destruct (sys_write w d (b :: contents)) as [[n|e] w1] eqn:E; intros Hr Hd Hv;
    eapply write_law in E as (Hh & Hq & Hl); try done.
  - destruct Hl as [Hn Hl]. specialize (Hl c Hv).
    destruct (0 <? n)%nat; [|by injection Hr as <- <-].
    eapply IH in Hr as (Hh' & Hq' & Hv'); [|by rewrite Hh|done].
    split_and!; [by etrans| |].
    + intros q Hne. etrans; [by apply Hq|by apply Hq'].
    + intros ->. rewrite Hv' by done. by rewrite <- app_assoc, take_drop.
  - destruct (e =? EINTR); [|by injection Hr as <- <-].
    eapply IH in Hr as (Hh' & Hq' & Hv'); [|by rewrite Hh|by rewrite Hl].
    split_and!; [by etrans| |done]. intros q Hne. etrans; [by apply Hq|by apply Hq'].
Qed.

(** ** The two phases of [save] *)

Lemma others_of store w w' : (forall q, same_file q w w') -> others store w w'.
Proof. by intros Hall q _. Qed.

(** Split the next test of the checkpoints, keeping what it left alone. *)
Ltac checkpoint Hr :=
  match type of Hr with
  | context [passes ?store ?w ?points] =>
      let E := fresh "E" in let Hh := fresh "Hh" in let Hq := fresh "Hq" in
      destruct (passes store w points) as [[?|] ?] eqn:E;
      apply passes_law in E as [Hh Hq]
  end.

(** Chain the frames of the calls so far. *)
Ltac chain :=
  repeat first
    [ reflexivity | eassumption
    | (etrans; [eassumption|])
    | (etrans; [apply others_of; eassumption|])
    | apply others_of; eassumption
    | apply cleanup_others ].

Lemma write_temporary_law fuel store w directory contents r w' parent :
  write_temporary fuel store w directory contents = Some (r, w') ->
  handle w directory = Some (Handle_Directory parent) ->
  others store w w' /\
  match r with
  | success _ =>
      handle w' directory = Some (Handle_Directory parent) /\
      visible w' (temporary_path store) = Some contents /\ synced w' (temporary_path store)
  | failure e => e.(store_final_replaced) = false
  end.
Proof.
  unfold write_temporary. intros Hr Hdir. checkpoint Hr.
  { injection Hr as <- <-. split; [chain|done]. }
  destruct (sys_unlink _ _) as [removed w1] eqn:Eu. apply unlink_law in Eu as [Hhu Hqu].
  change (others store w0 w1) in Hqu.
  destruct (match removed with success _ => None | failure _ => _ end) as [error|].
  { injection Hr as <- <-. split; [chain|done]. }
  destruct (sys_open _ _ _) as [[d|error] w2] eqn:Eo.
  2:{ apply open_failed in Eo as [_ Hqo]. injection Hr as <- <-. split; [chain|done]. }
  apply open_create_law in Eo as (Hqo & Ho & Hv2). change (others store w1 w2) in Hqo.
  destruct Ho as (_ & Hnone & Hd2 & Hx2).
  assert (directory <> d) as Hne by (intros ->; rewrite Hhu, Hh in Hnone; congruence).
  assert (handle w2 directory = Some (Handle_Directory parent)) as Hdir2
    by by rewrite Hx2, Hhu, Hh.
  clear Hnone Hx2 Hhu Hh Hdir.
  destruct (sys_fchmod _ _) as [[[]|error] w3] eqn:Ec; apply fchmod_law in Ec as [Hh3 Hq3].
  2:{ injection Hr as <- <-. split; [chain|done]. }
  checkpoint Hr. { injection Hr as <- <-. split; [chain|done]. }
  assert (visible w4 (temporary_path store) = Some []) as Hv4.
  { by rewrite (proj1 (Hq0 _)), (proj1 (Hq3 _)). }
  destruct (write_loop _ _ _ _) as [[[[]|error] w5]|] eqn:Ew; [| |done];
    eapply write_loop_law in Ew as (Hh5 & Hq5 & Hv5);
    try done; try (by rewrite Hh, Hh3); change (others store w4 w5) in Hq5.
  2:{ injection Hr as <- <-. split; [chain|done]. }
  specialize (Hv5 eq_refl). cbn [app] in Hv5.
  checkpoint Hr. { injection Hr as <- <-. split; [chain|done]. }
  destruct (sync_descriptor _ _ _) as [[[[]|error] w7]|] eqn:Es; [| |done];
    eapply sync_file_law in Es as (Hh7 & Hq7 & Hv7 & Hs7);
    try (by rewrite Hh0, Hh5, Hh, Hh3); change (others store w6 w7) in Hq7.
  2:{ injection Hr as <- <-. split; [chain|done]. }
  checkpoint Hr. { injection Hr as <- <-. split; [chain|done]. }
  destruct (close_descriptor _ _) as [[[]|error] w9] eqn:El;
    apply close_descriptor_law in El as [Hh9 Hq9].
  2:{ injection Hr as <- <-. split; [chain|done]. }
  checkpoint Hr; injection Hr as <- <-; split; try done; [chain|chain|].
  split_and!.
  - by rewrite Hh2, Hh9, Hh1, Hh7, Hh0, Hh5, Hh, Hh3.
  - by rewrite (proj1 (Hq4 _)), (proj1 (Hq9 _)), (proj1 (Hq2 _)), Hv7, (proj1 (Hq1 _)).
  - apply (Hq4 _), (Hq9 _), (Hq2 _). by apply Hs7.
Qed.

Lemma replace_final_law fuel store w directory r w' contents :
  replace_final fuel store w directory = Some (r, w') ->
  handle w directory = Some (Handle_Directory (path_parent store.(store_final_path))) ->
  visible w (temporary_path store) = Some contents -> synced w (temporary_path store) ->
  let final := store.(store_final_path) in
  match r with
  | success _ =>
      visible w' final = Some contents /\ forall c, survives w' final c -> c = Some contents
  | failure e =>
      if e.(store_final_replaced)
      then visible w' final = Some contents /\
           forall c, survives w' final c -> survives w final c \/ c = Some contents
      else same_file final w w'
  end.
Proof.
  intros Hr Hdir Hv Hy final. unfold replace_final in Hr.
  destruct (rename_file _ _ _ _) as [[[[]|error] w1]|] eqn:En; [| |done];
    apply rename_file_law in En as [Hh1 Hl]; try apply temporary_neq.
  2:{ injection Hr as <- <-. cbn. etrans; [apply Hl|].
      apply (cleanup_others store). symmetry. apply temporary_neq. }
  destruct Hl as [Hv1 Hs1]. specialize (Hs1 Hy) as [Hy1 Hs1]. rewrite Hv in Hv1, Hs1.
  fold final in Hv1, Hy1, Hs1.
  (* whatever only leaves the files alone from here on *)
  assert (forall w2, same_file final w1 w2 ->
    visible w2 final = Some contents /\
    forall c, survives w2 final c -> survives w final c \/ c = Some contents) as Hreplaced.
  { intros w2 (Hv2 & Hs2 & _). split; [congruence|]. intros c Hc. by apply Hs1, Hs2. }
  checkpoint Hr.
  { injection Hr as <- <-. cbn. apply Hreplaced. etrans; [apply Hq|apply close_descriptor_snd]. }
  destruct (sync_descriptor _ _ _) as [[[[]|error] w3]|] eqn:Es; [| |done];
    eapply sync_directory_law in Es as (Hh3 & Hq3 & Hs3);
    try (by rewrite Hh, Hh1).
  2:{ injection Hr as <- <-. cbn. apply Hreplaced. etrans; [apply Hq|].
      etrans; [apply Hq3|apply close_descriptor_snd]. }
  specialize (Hs3 eq_refl final).
  checkpoint Hr.
  { injection Hr as <- <-. cbn. apply Hreplaced. etrans; [apply Hq|]. etrans; [apply Hq3|].
    etrans; [apply Hq0|apply close_descriptor_snd]. }
  destruct (close_descriptor _ _) as [[[]|error] w5] eqn:El;
    apply close_descriptor_law in El as [_ Hq5]; injection Hr as <- <-; cbn.
  - destruct (Hq5 final) as (Hv5 & Hs5 & _), (Hq0 final) as (Hv4 & Hs4 & _),
      (Hq3 final) as (Hv3 & _), (Hq final) as (Hv2 & _ & Hy2).
    split; [congruence|]. intros c Hc. rewrite <- Hv1, <- Hv2. by apply Hs3; auto.
  - apply Hreplaced. etrans; [apply Hq|]. etrans; [apply Hq3|]. etrans; [apply Hq0|apply Hq5].
Qed.

(** What [save] leaves: the final file alone, or replaced. *)
Definition save_outcome store (settings : SettingsRecord) w
    (r : Result bool SettingsStoreFailure) w' : Prop :=
  let final := store.(store_final_path) in
  match r with
  | success _ => exists json, serialize_settings_json settings = success json /\
      visible w' final = Some json /\ forall c, survives w' final c -> c = Some json
  | failure e =>
      if e.(store_final_replaced)
      then exists json, serialize_settings_json settings = success json /\
        visible w' final = Some json /\
        forall c, survives w' final c -> survives w final c \/ c = Some json
      else same_file final w w'
  end.

Lemma save_law fuel store w settings r w' :
  save fuel store w settings = Some (r, w') -> save_outcome store settings w r w'.
Proof.
  unfold save. destruct (negb (valid_path store)); [by intros [= <- <-]|].
  destruct (serialize_settings_json settings) as [json|e] eqn:Ej; [|by intros [= <- <-]].
  destruct (sys_create_directories _ _) as [error w1] eqn:Ec.
  apply create_directories_law in Ec as [_ Hq1].
  destruct (negb (error =? 0)); [intros [= <- <-]; apply Hq1|].
  destruct (sys_open _ _ _) as [[directory|e] w2] eqn:Eo.
  2:{ apply open_failed in Eo as [_ Hq2]. intros [= <- <-]. cbn. etrans; [apply Hq1|apply Hq2]. }
  apply open_directory_law in Eo as [Hq2 (_ & _ & Hd & _)].
  assert (same_file (store_final_path store) w w2) as Hw2 by (etrans; [apply Hq1|apply Hq2]).
  destruct (write_temporary _ _ _ _ _) as [[[[]|e] w3]|] eqn:Ew; [| |done];
    eapply write_temporary_law in Ew as [Hq3 Hl]; try done;
    (assert (same_file (store_final_path store) w w3) as Hw3
       by (etrans; [apply Hw2|apply Hq3; symmetry; apply temporary_neq])).
  2:{ intros [= <- <-]. unfold save_outcome. by rewrite Hl. }
  destruct Hl as (Hd3 & Hv3 & Hy3). intros Hr.
  eapply replace_final_law in Hr; [|done..]. unfold save_outcome.
  destruct r as [b|e]; [by exists json|]. destruct (store_final_replaced e).
  - exists json. destruct Hr as [Hv Hs]. split_and!; [done|done|].
    intros c [Hc|Hc]%Hs; [left; by apply Hw3|by right].
  - by etrans.
Qed.

(** ** Loading *)

(** The reading loop collects what is left of the file, as long as that is within
    the limit. *)
Lemma read_loop_law fuel : forall w d contents r w' rest,
  read_loop fuel w d contents = Some (r, w') -> handle w d = Some (Handle_Reader rest) ->
  (forall q, same_file q w w') /\
  match r with
  | success all => all = contents ++ rest
  | failure e =>
      e.(store_error) = StoreError_ReadSettingsFailed \/
      e.(store_error) = StoreError_DecodeFailed /\
      (kMaxSettingsJsonBytes < length contents + length rest)%nat
  end.
Proof.
  induction fuel as [|fuel IH]; intros w d contents r w' rest; cbn [read_loop]; [done|].
  destruct (sys_read w d 4096) as [[chunk|e] w1] eqn:E; intros Hr Hd.
  - destruct (read_law _ _ _ _ _ _ E Hd) as (Hq & _ & rest' & -> & Hnil & Hd1).
    destruct (Nat.ltb_spec 0 (length chunk)).
    + destruct (Nat.ltb_spec (kMaxSettingsJsonBytes - length chunk) (length contents)).
      * destruct (close_descriptor w1 d) as [x w2] eqn:El. apply close_descriptor_law in El as [_ Hq2].
        injection Hr as <- <-. split; [intros q; etrans; [apply Hq|apply Hq2]|].
        right. split; [done|]. rewrite length_app. lia.
      * eapply IH in Hr as [Hq2 Hr]; [|done].
        split; [intros q; etrans; [apply Hq|apply Hq2]|].
        destruct r as [all|e]; [by rewrite <- app_assoc in Hr|].
        destruct Hr as [?|[? Hl]]; [by left|right]. split; [done|].
        rewrite !length_app in *. lia.
    + injection Hr as <- <-. split; [done|].
      destruct chunk; [|cbn in *; lia]. rewrite Hnil by done. by rewrite app_nil_r.
  - apply read_failed in E as [Hh Hq]. destruct (e =? EINTR).
    + eapply IH in Hr as [Hq2 Hr]; [|by rewrite Hh].
      split; [intros q; etrans; [apply Hq|apply Hq2]|done].
    + destruct (close_descriptor w1 d) as [x w2] eqn:El. apply close_descriptor_law in El as [_ Hq2].
      injection Hr as <- <-. split; [intros q; etrans; [apply Hq|apply Hq2]|by left].
Qed.

(** An input error, as opposed to a missing or a malformed file. *)
Definition io_error (e : SettingsStoreError) : Prop :=
  e = StoreError_OpenSettingsFailed \/ e = StoreError_ReadSettingsFailed \/
  e = StoreError_CloseSettingsFailed.

Lemma load_law fuel store w r w' c :
  load fuel store w = Some (r, w') -> valid_path store = true ->
  visible w store.(store_final_path) = Some c -> (length c <= kMaxSettingsJsonBytes)%nat ->
  match r with
  | success s => parse_settings_json c = Some (success s)
  | failure e => io_error e.(store_error) \/
      e.(store_error) = StoreError_DecodeFailed /\
      exists j, parse_settings_json c = Some (failure j) /\ e.(store_json_error) = Some j
  end.
Proof.
  unfold load, io_error. intros Hr Hp Hv Hl. rewrite Hp in Hr. cbn [negb] in Hr.
  destruct (sys_open _ _ _) as [[d|e] w1] eqn:Eo.
  2:{ injection Hr as <- <-. cbn. destruct (Z.eqb_spec e ENOENT) as [->|]; [|by left; left].
      apply open_enoent_law in Eo. congruence. }
  apply open_read_law in Eo as [_ (_ & _ & Hd1 & _)]. rewrite Hv in Hd1.
  destruct (sys_fstat _ _) as [[st|e] w2] eqn:Es.
  2:{ destruct (close_descriptor w2 d). injection Hr as <- <-. left. cbn. tauto. }
  destruct (fstat_reader_law _ _ _ _ _ Es Hd1) as [Hreg Hsz]. apply fstat_law in Es as [Hh2 _].
  rewrite Hreg, Hsz in Hr. cbn [negb] in Hr.
  rewrite (proj2 (Z.ltb_ge _ _)), (proj2 (Z.ltb_ge _ _)) in Hr by lia. cbn [orb] in Hr.
  destruct (read_loop _ _ _ _) as [[[all|e] w3]|] eqn:El; [| |done];
    eapply read_loop_law in El as [_ Hl3]; try (by rewrite Hh2).
  2:{ injection Hr as <- <-. cbn [length Nat.add] in Hl3.
      destruct Hl3 as [?|[_ ?]]; [left; tauto|lia]. }
  subst all. cbn [app] in Hr.
  destruct (close_descriptor w3 d) as [[|e] w4]; [|injection Hr as <- <-; left; cbn; tauto].
  destruct (parse_settings_json c) as [[s|j]|] eqn:Ep; [| |done]; injection Hr as <- <-; [done|].
  right. split; [done|]. by exists j.
Qed.

(** [load] leaves every file alone, and a record it gives is what the file says. *)
Lemma load_frame fuel store w r w' :
  load fuel store w = Some (r, w') ->
  (forall q, same_file q w w') /\
  forall s, r = success s -> exists c, visible w store.(store_final_path) = Some c /\
    parse_settings_json c = Some (success s).
Proof.
  unfold load. destruct (negb (valid_path store)); [by intros [= <- <-]|].
  destruct (sys_open _ _ _) as [[d|e] w1] eqn:Eo.
  2:{ apply open_failed in Eo as [_ Hq]. by intros [= <- <-]. }
  apply open_read_law in Eo as [Hq1 (_ & _ & Hd1 & _)].
  destruct (sys_fstat _ _) as [[st|e] w2] eqn:Es.
  2:{ apply fstat_law in Es as [_ Hq2].
      destruct (close_descriptor w2 d) as [x w3] eqn:Ec. apply close_descriptor_law in Ec as [_ Hq3].
      intros [= <- <-]. split; [|done]. intros q. by rewrite (Hq1 q), (Hq2 q). }
  pose proof Es as [Hh2 Hq2]%fstat_law.
  assert (forall q, same_file q w w2) as Hq12 by (intros q; by rewrite (Hq1 q)).
  assert (forall x w3 e, close_descriptor w2 d = (x, w3) ->
    Some (failure e, w3) = Some (r, w') ->
    (forall q, same_file q w w') /\ forall s, r = success s -> exists c,
      visible w (store_final_path store) = Some c /\ parse_settings_json c = Some (success s))
    as Hstop.
  { intros x w3 e [_ Hq3]%close_descriptor_law [= <- <-]. split; [|done].
    intros q. by rewrite (Hq12 q). }
  destruct (negb (is_regular st)) eqn:Hreg.
  { destruct (close_descriptor w2 d) as [x w3] eqn:Ec. by eapply Hstop. }
  destruct (_ || _). { destruct (close_descriptor w2 d) as [x w3] eqn:Ec. by eapply Hstop. }
  destruct (visible w (store_final_path store)) as [c|].
  2:{ by rewrite (fstat_other_law _ _ _ _ Es Hd1) in Hreg. }
  destruct (read_loop _ _ _ _) as [[[all|e] w3]|] eqn:El; [| |done];
    eapply read_loop_law in El as [Hq3 Hl]; try (by rewrite Hh2).
  2:{ intros [= <- <-]. split; [|done]. intros q. by rewrite (Hq12 q). }
  destruct (close_descriptor w3 d) as [[u|e] w4] eqn:Ec; apply close_descriptor_law in Ec as [_ Hq4].
  2:{ intros [= <- <-]. split; [|done]. intros q. by rewrite (Hq12 q), (Hq3 q). }
  destruct (parse_settings_json all) as [[s|j]|] eqn:Ep; [| |done]; intros [= <- <-];
    (split; [intros q; by rewrite (Hq12 q), (Hq3 q)|]); [|done].
  intros s' [= <-]. exists c. split; [done|]. by rewrite Hl in Ep.
Qed.

(** ** Answers *)

(** No call is interrupted by a signal. *)
Definition uninterrupted : Prop :=
  (forall w d w', sys_fsync w d <> (failure EINTR, w')) /\
  (forall w p q w', sys_rename w p q <> (failure EINTR, w')) /\
  (forall w d data w', sys_write w d data <> (failure EINTR, w')).

Section Uninterrupted.
Context (Hun : uninterrupted).

Lemma sync_descriptor_answers fuel w d :
  (0 < fuel)%nat -> exists r, sync_descriptor fuel w d = Some r.
Proof.
  destruct fuel as [|fuel]; [lia|]. intros _. cbn [sync_descriptor].
  destruct (sys_fsync w d) as [[|e] w1] eqn:E; [by eexists|].
  destruct (Z.eqb_spec e EINTR) as [->|]; [|by eexists]. by apply Hun in E.
Qed.

Lemma rename_file_answers fuel w p q :
  (0 < fuel)%nat -> exists r, rename_file fuel w p q = Some r.
Proof.
  destruct fuel as [|fuel]; [lia|]. intros _. cbn [rename_file].
  destruct (sys_rename w p q) as [[|e] w1] eqn:E; [by eexists|].
  destruct (Z.eqb_spec e EINTR) as [->|]; [|by eexists]. by apply Hun in E.
Qed.

Lemma write_loop_answers fuel w d contents :
  (length contents <= fuel)%nat -> exists r, write_loop fuel w d contents = Some r.
Proof.
  revert w contents. induction fuel as [|fuel IH]; intros w [|b contents] Hl;
    cbn [write_loop]; try (by eexists); [cbn in Hl; lia|].
  destruct (sys_write w d (b :: contents)) as [[n|e] w1] eqn:E.
  - destruct (Nat.ltb_spec 0 n); [|by eexists]. apply IH. rewrite length_drop. cbn in *. lia.
  - destruct (Z.eqb_spec e EINTR) as [->|]; [|by eexists]. by apply Hun in E.
Qed.

Lemma write_temporary_answers fuel store w directory contents :
  (0 < fuel)%nat -> (length contents <= fuel)%nat ->
  exists r, write_temporary fuel store w directory contents = Some r.
Proof.
  intros Hf Hl. unfold write_temporary.
  destruct (passes _ _ _) as [[?|] w1]; [by eexists|].
  destruct (sys_unlink _ _) as [u w2].
  destruct (match u with success _ => None | failure _ => _ end); [by eexists|].
  destruct (sys_open _ _ _) as [[d|?] w3]; [|by eexists].
  destruct (sys_fchmod _ _) as [[?|?] w4]; [|by eexists].
  destruct (passes _ _ _) as [[?|] w5]; [by eexists|].
  destruct (write_loop_answers fuel w5 d contents Hl) as [[[?|?] w6] ->]; [|by eexists].
  destruct (passes _ _ _) as [[?|] w7]; [by eexists|].
  destruct (sync_descriptor_answers fuel w7 d Hf) as [[[?|?] w8] ->]; [|by eexists].
  destruct (passes _ _ _) as [[?|] w9]; [by eexists|].
  destruct (close_descriptor _ _) as [[?|?] w10]; [|by eexists].
  destruct (passes _ _ _) as [[?|] w11]; by eexists.
Qed.

Lemma save_answers fuel store w settings :
  (kMaxSettingsJsonBytes < fuel)%nat -> exists r, save fuel store w settings = Some r.
Proof.
  intros Hf. unfold save. destruct (negb (valid_path store)); [by eexists|].
  destruct (serialize_settings_json settings) as [json|] eqn:Ej; [|by eexists].
  assert (length json <= kMaxSettingsJsonBytes)%nat as Hl.
  { unfold serialize_settings_json in Ej. repeat (split_if; [done|]).
    injection Ej as <-. by apply Nat.ltb_ge. }
  destruct (sys_create_directories _ _) as [x w1]. destruct (negb (x =? 0)); [by eexists|].
  destruct (sys_open _ _ _) as [[d|] w2]; [|by eexists].
  destruct (write_temporary_answers fuel store w2 d json) as [[[?|?] w3] ->];
    [lia|lia| |by eexists].
  unfold replace_final.
  destruct (rename_file_answers fuel w3 (temporary_path store) (store_final_path store))
    as [[[?|?] w4] ->]; [lia| |by eexists].
  destruct (passes _ _ _) as [[?|] w5]; [by eexists|].
  destruct (sync_descriptor_answers fuel w5 d) as [[[?|?] w6] ->]; [lia| |by eexists].
  destruct (passes _ _ _) as [[?|] w7]; [by eexists|].
  destruct (close_descriptor _ _) as [[?|?] w8]; by eexists.
Qed.
End Uninterrupted.
End Laws.

(** ** A loss of power

    The world [(k, w)] runs as [w] for [k] calls and is then frozen: later calls
    do nothing and fail.  The run of [save] in it ends with the world at the
    moment the power went, whatever [save] would have done next. *)
Section Crash.
Context {W : Type} `{IPosixLaws W}.

Definition counted {A} (dead : A) (call : W -> A * W) (w : nat * W) : A * (nat * W) :=
  match w with
  | (O, x) => (dead, w)
  | (S k, x) => let (r, x') := call x in (r, (k, x'))
  end.

#[export] Instance crash_posix : IPosix (nat * W) := {
  sys_create_directories w p := counted EIO (fun x => sys_create_directories x p) w;
  sys_open w p m := counted (failure EIO) (fun x => sys_open x p m) w;
  sys_fstat w d := counted (failure EIO) (fun x => sys_fstat x d) w;
  sys_read w d n := counted (failure EIO) (fun x => sys_read x d n) w;
  sys_write w d data := counted (failure EIO) (fun x => sys_write x d data) w;
  sys_fchmod w d := counted (failure EIO) (fun x => sys_fchmod x d) w;
  sys_fsync w d := counted (failure EIO) (fun x => sys_fsync x d) w;
  sys_close w d := counted (failure EIO) (fun x => sys_close x d) w;
  sys_rename w p q := counted (failure EIO) (fun x => sys_rename x p q) w;
  sys_unlink w p := counted (failure EIO) (fun x => sys_unlink x p) w
}.

#[export] Instance crash_failpoint : IAtomicSettingsFailpoint (nat * W) := {
  should_fail w point := counted false (fun x => should_fail x point) w
}.

#[export] Instance crash_view : PosixView (nat * W) := {
  visible w := visible (snd w);
  survives w := survives (snd w);
  synced w := synced (snd w);
  handle w := handle (snd w)
}.

Lemma counted_inv {A} (dead : A) call w r w' :
  counted dead call w = (r, w') ->
  r = dead /\ w' = w \/ exists x', call (snd w) = (r, x') /\ snd w' = x'.
Proof.
  unfold counted. destruct w as [[|k] x]; [intros [= <- <-]; by left|].
  cbn. destruct (call x) as [r1 x'] eqn:E. intros [= <- <-]. right. by exists x'.
Qed.

Lemma crash_same p (w w' : nat * W) : same_file p (snd w) (snd w') -> same_file p w w'.
Proof. done. Qed.

(** One call of the frozen world: as in [W], or nothing and the failure. *)
Ltac crash_call law :=
  let Hr := fresh "Hr" in
  intros; match goal with
  | Hc : counted _ _ _ = _ |- _ =>
      apply counted_inv in Hc as [[Hr ->]|(? & Hr & <-)];
      [simplify_eq; try (by split_and!); try done|eapply law; eauto]
  end.

#[export] Instance crash_laws : IPosixLaws (nat * W).
Proof.
  split; cbn [sys_create_directories sys_open sys_fstat sys_read sys_write sys_fchmod sys_fsync
              sys_close sys_rename sys_unlink should_fail crash_posix crash_failpoint].
  - crash_call create_directories_law.
  - crash_call open_failed.
  - crash_call open_read_law.
  - crash_call open_directory_law.
  - crash_call open_create_law.
  - crash_call open_enoent_law.
  - crash_call fstat_law.
  - crash_call fstat_reader_law.
  - crash_call fstat_other_law.
  - crash_call read_failed.
  - crash_call read_law.
  - crash_call fchmod_law.
  - crash_call write_law.
  - crash_call fsync_file_law.
  - crash_call fsync_directory_law.
  - crash_call close_law.
  - crash_call rename_law.
  - crash_call unlink_law.
  - crash_call should_fail_law.
Qed.
End Crash.

(** ** A small file system that keeps the laws *)

Record Disk := mkDisk {
  disk_files : bytes -> option bytes;
  disk_survivors : bytes -> list (option bytes);
  disk_synced : bytes -> bool;
  disk_handles : Z -> option Handle
}.

Definition update {K V} `{EqDecision K} (f : K -> V) (k : K) (v : V) : K -> V :=
  fun x => if bool_decide (x = k) then v else f x.

Lemma update_eq {K V} `{EqDecision K} (f : K -> V) k v : update f k v k = v.
Proof. unfold update. by rewrite bool_decide_eq_true_2. Qed.

Lemma update_neq {K V} `{EqDecision K} (f : K -> V) k v x : x <> k -> update f k v x = f x.
Proof. intros. unfold update. by rewrite bool_decide_eq_false_2. Qed.

(** Descriptor 3 is a directory, 4 a file being read, 5 one being written; the code
    never has more. *)
Definition disk_open (w : Disk) (p : bytes) (m : OpenMode) : Result Z Z * Disk :=
  let fresh := match m with Open_Directory => 3 | Open_Read => 4 | Open_CreateExclusive => 5 end in
  let handles h := update w.(disk_handles) fresh (Some h) in
  if bool_decide (w.(disk_handles) fresh <> None) then (failure EIO, w)
  else
    match m, w.(disk_files) p with
    | Open_Read, None => (failure ENOENT, w)
    | Open_Read, Some c =>
        (success fresh, mkDisk w.(disk_files) w.(disk_survivors) w.(disk_synced)
                          (handles (Handle_Reader c)))
    | Open_Directory, _ =>
        (success fresh, mkDisk w.(disk_files) w.(disk_survivors) w.(disk_synced)
                          (handles (Handle_Directory p)))
    | Open_CreateExclusive, Some _ => (failure EIO, w)
    | Open_CreateExclusive, None =>
        (success fresh, mkDisk (update w.(disk_files) p (Some [])) w.(disk_survivors)
                          (update w.(disk_synced) p false) (handles (Handle_File p)))
    end.

Definition disk_fstat (w : Disk) (d : Z) : Result FileStatus Z * Disk :=
  match w.(disk_handles) d with
  | Some (Handle_Reader rest) => (success (mkFileStatus true (Z.of_nat (length rest))), w)
  | _ => (failure EIO, w)
  end.

Definition disk_read (w : Disk) (d : Z) (n : nat) : Result bytes Z * Disk :=
  match w.(disk_handles) d with
  | Some (Handle_Reader rest) =>
      if (n =? 0)%nat then (failure EIO, w)
      else (success (take n rest),
            mkDisk w.(disk_files) w.(disk_survivors) w.(disk_synced)
              (update w.(disk_handles) d (Some (Handle_Reader (drop n rest)))))
  | _ => (failure EIO, w)
  end.

(** At most a hundred bytes are taken by one write. *)
Definition disk_chunk (data : bytes) : nat := Nat.min 100 (length data).

Lemma disk_chunk_le data : (disk_chunk data <= length data)%nat.
Proof. apply Nat.le_min_r. Qed.

Definition disk_write (w : Disk) (d : Z) (data : bytes) : Result nat Z * Disk :=
  match w.(disk_handles) d with
  | Some (Handle_File p) =>
      match w.(disk_files) p with
      | Some c =>
          let n := disk_chunk data in
          (success n, mkDisk (update w.(disk_files) p (Some (c ++ take n data)))
                        w.(disk_survivors) (update w.(disk_synced) p false) w.(disk_handles))
      | None => (failure EIO, w)
      end
  | _ => (failure EIO, w)
  end.

Definition disk_fsync (w : Disk) (d : Z) : Result unit Z * Disk :=
  match w.(disk_handles) d with
  | Some (Handle_File p) =>
      (success tt, mkDisk w.(disk_files) w.(disk_survivors) (update w.(disk_synced) p true)
                     w.(disk_handles))
  | Some (Handle_Directory p) =>
      (success tt,
       mkDisk w.(disk_files)
         (fun q => if bool_decide (path_parent q = p) && w.(disk_synced) q
                   then List.filter (fun c => bool_decide (c = w.(disk_files) q))
                          (w.(disk_survivors) q)
                   else w.(disk_survivors) q)
         w.(disk_synced) w.(disk_handles))
  | _ => (failure EIO, w)
  end.

Definition disk_close (w : Disk) (d : Z) : Result unit Z * Disk :=
  (success tt, mkDisk w.(disk_files) w.(disk_survivors) w.(disk_synced)
                 (update w.(disk_handles) d None)).

Definition disk_rename (w : Disk) (p q : bytes) : Result unit Z * Disk :=
  match w.(disk_files) p with
  | Some c =>
      (success tt,
       mkDisk (update (update w.(disk_files) p None) q (Some c))
         (update w.(disk_survivors) q (w.(disk_survivors) q ++ [Some c]))
         (update w.(disk_synced) q (w.(disk_synced) p)) w.(disk_handles))
  | None => (failure ENOENT, w)
  end.

Definition disk_unlink (w : Disk) (p : bytes) : Result unit Z * Disk :=
  match w.(disk_files) p with
  | Some _ => (success tt, mkDisk (update w.(disk_files) p None) w.(disk_survivors)
                             w.(disk_synced) w.(disk_handles))
  | None => (failure ENOENT, w)
  end.

#[export] Instance disk_posix : IPosix Disk := {
  sys_create_directories w p := (0, w);
  sys_open := disk_open;
  sys_fstat := disk_fstat;
  sys_read := disk_read;
  sys_write := disk_write;
  sys_fchmod w d := (success tt, w);
  sys_fsync := disk_fsync;
  sys_close := disk_close;
  sys_rename := disk_rename;
  sys_unlink := disk_unlink
}.

#[export] Instance disk_failpoint : IAtomicSettingsFailpoint Disk := {
  should_fail w point := (false, w)
}.

#[export] Instance disk_view : PosixView Disk := {
  visible := disk_files;
  survives w p c := c ∈ w.(disk_survivors) p;
  synced w p := w.(disk_synced) p = true;
  handle := disk_handles
}.

Ltac disk_simpl :=
  unfold same_file, opened, same_handles in *;
  cbn [visible survives synced handle disk_view disk_files disk_survivors disk_synced
       disk_handles] in *.

Ltac disk_done :=
  repeat first
    [ progress intros | progress simplify_eq | done
    | rewrite update_eq | rewrite update_neq by done | split ].

#[export] Instance disk_laws : IPosixLaws Disk.
Proof.
  split; cbn [sys_create_directories sys_open sys_fstat sys_read sys_write sys_fchmod sys_fsync
              sys_close sys_rename sys_unlink should_fail disk_posix disk_failpoint];
    unfold disk_open, disk_fstat, disk_read, disk_write, disk_fsync, disk_close, disk_rename,
      disk_unlink; disk_simpl; intros.
  - by simplify_eq.
  - case_bool_decide; [by simplify_eq|]. destruct m, (disk_files w p); by simplify_eq.
  - case_bool_decide as Hn; [done|]. destruct (disk_files w p); [|done].
    simplify_eq. cbn. disk_done; lia.
  - case_bool_decide as Hn; [done|]. simplify_eq. cbn. disk_done; lia.
  - case_bool_decide as Hn; [done|]. destruct (disk_files w p); [done|].
    simplify_eq. cbn. disk_done; lia.
  - case_bool_decide; [done|]. by destruct (disk_files w p).
  - destruct (disk_handles w d) as [[]|]; by simplify_eq.
  - destruct (disk_handles w d) as [[]|]; by simplify_eq.
  - destruct (disk_handles w d) as [[]|]; by simplify_eq.
  - destruct (disk_handles w d) as [[]|]; try destruct (n =? 0)%nat; by simplify_eq.
  - rewrite H0 in H. destruct (Nat.eqb_spec n 0); [done|]. simplify_eq. cbn. split; [done|].
    split; [intros x Hx; by rewrite update_neq|].
    exists (drop n rest). rewrite take_drop, update_eq. split_and!; [done| |done].
    destruct n, rest; done.
  - by simplify_eq.
  - rewrite H0 in H. destruct (disk_files w p) as [c|] eqn:Hp; simplify_eq; [|done]. cbn.
    split_and!; [done| |apply disk_chunk_le|].
    + intros q Hq. by rewrite !update_neq by done.
    + intros c' [= <-]. by rewrite update_eq.
  - rewrite H0 in H. simplify_eq. cbn. split_and!; [done| |done|].
    + intros q Hq. by rewrite update_neq by done.
    + intros _. by rewrite update_eq.
  - rewrite H0 in H. simplify_eq. cbn. split_and!; [done| |].
    + intros q. split_and!; [done| |done]. intros c. split_if; [|done].
      rewrite !list_elem_of_In, filter_In. tauto.
    + intros _ q c Hp Hs. rewrite bool_decide_eq_true_2, Hs by done. cbn [andb].
      rewrite list_elem_of_In, filter_In, bool_decide_eq_true. tauto.
  - simplify_eq. cbn. split; [|done]. intros x Hx. by rewrite update_neq.
  - destruct (disk_files w p) as [c|] eqn:Hp; simplify_eq; [|done]. cbn.
    split; [done|]. rewrite !update_eq. split; [done|]. intros Hs. split; [done|].
    intros c'. rewrite elem_of_app, list_elem_of_singleton. tauto.
  - destruct (disk_files w p) as [c|] eqn:Hp; simplify_eq; [|done]. cbn. split; [done|].
    intros q Hq. by rewrite update_neq.
  - by simplify_eq.
Qed.

Lemma disk_uninterrupted : uninterrupted (W:=Disk).
Proof.
  unfold uninterrupted.
  cbn [sys_write sys_fsync sys_rename disk_posix].
  unfold disk_fsync, disk_rename, disk_write. split_and!; intros.
  - by destruct (disk_handles w d) as [[]|].
  - by destruct (disk_files w p).
  - destruct (disk_handles w d) as [[]|]; try done. by destruct (disk_files w _).
Qed.

(** ** Property theorems *)

(** C27: the settings file is replaced atomically.  Whatever the system calls
    answer, [save] leaves the file in one of three states.  On success it is the
    new text, and so is every content that can survive a loss of power.  On a
    failure that does not report [final_replaced], the file is untouched.  On
    one that does, the file is the new text, and what survives is an old content
    or the new text.  If the power goes at any moment during [save], what
    survives is an old content or the new text.  And [save] answers when no
    call is interrupted. *)
Theorem save_atomic {W} `{IPosixLaws W} fuel store (w : W) settings :
  (forall r w', save fuel store w settings = Some (r, w') ->
     save_outcome store settings w r w') /\
  (forall k r k' w', save fuel store (k, w) settings = Some (r, (k', w')) ->
     forall c, survives w' store.(store_final_path) c ->
     survives w store.(store_final_path) c \/
     exists json, serialize_settings_json settings = success json /\ c = Some json) /\
  (uninterrupted (W:=W) -> (kMaxSettingsJsonBytes < fuel)%nat ->
     exists r, save fuel store w settings = Some r).
Proof.
  split_and!; [by apply save_law| |by intros; apply save_answers].
  intros k r k' w' Hr c Hc. apply save_law in Hr. unfold save_outcome in Hr.
  cbn [survives visible crash_view snd] in Hr. destruct r as [b|e].
  - destruct Hr as (json & Hj & _ & Hs). right. exists json. auto.
  - destruct (store_final_replaced e).
    + destruct Hr as (json & Hj & _ & Hs). apply Hs in Hc as [?|?]; [by left|right; by exists json].
    + left. by apply Hr.
Qed.

(** A store and a disk for the witnesses: an older text is in place. *)
Definition sample_store : AtomicSettingsStore :=
  mkAtomicSettingsStore (str "/home/a/settings.json") false.

Definition sample_disk : Disk :=
  mkDisk (update (fun _ => None) (str "/home/a/settings.json") (Some (str "old")))
    (update (fun _ => [None]) (str "/home/a/settings.json") [Some (str "old")])
    (fun _ => true) (fun _ => None).

(** The two runs of the witnesses, evaluated. *)
Definition saves (r : option (Result bool SettingsStoreFailure * Disk)) : bool :=
  match r with Some (success true, _) => true | _ => false end.

Lemma sample_saves : saves (save 40 sample_store sample_disk sample_settings) = true.
Proof. by vm_compute. Qed.

Lemma saves_inv r : saves r = true -> exists w, r = Some (success true, w).
Proof. destruct r as [[[[]|] w]|]; try done. by exists w. Qed.

Definition loads (store : AtomicSettingsStore)
    (r : option (Result bool SettingsStoreFailure * Disk)) : bool :=
  match r with
  | Some (_, w) => match load 40 store w with Some (success _, _) => true | _ => false end
  | None => false
  end.

Lemma sample_loads :
  loads sample_store (save 40 sample_store sample_disk sample_settings) = true.
Proof. by vm_compute. Qed.

Lemma save_atomic_witness :
  exists w', save 40 sample_store sample_disk sample_settings = Some (success true, w') /\
    save_outcome sample_store sample_settings sample_disk (success true) w' /\
    exists r, save (S kMaxSettingsJsonBytes) sample_store sample_disk sample_settings = Some r.
Proof.
  destruct (saves_inv _ sample_saves) as [w' E]. exists w'. split; [exact E|]. split.
  - exact (proj1 (save_atomic 40 sample_store sample_disk sample_settings) _ _ E).
  - exact (proj2 (proj2 (save_atomic (S kMaxSettingsJsonBytes) sample_store sample_disk
             sample_settings)) disk_uninterrupted (Nat.lt_succ_diag_r _)).
Defined.

(** A saved record is what a later start loads.  After a successful [save]
    of a well-formed record, on any world whose settings file is the one [save]
    left, or a content of it that survived a loss of power, [load] gives that
    record back unless opening, reading or closing the file fails. *)
Theorem saved_settings_load {W} `{IPosixLaws W} fuel fuel' store (w : W) settings w1 w2 r w3 :
  SettingsRecord_wf settings ->
  save fuel store w settings = Some (success true, w1) ->
  visible w2 store.(store_final_path) = visible w1 store.(store_final_path) \/
    survives w1 store.(store_final_path) (visible w2 store.(store_final_path)) ->
  load fuel' store w2 = Some (r, w3) ->
  r = success settings \/ exists e, r = failure e /\ io_error e.(store_error).
Proof.
  intros Hwf Hs Hv Hl.
  assert (valid_path store = true) as Hp.
  { unfold save in Hs. by destruct (valid_path store). }
  destruct (serialize_settings_wf settings Hwf) as (json & Hj & Hlen & Hparse).
  apply save_law in Hs as (json' & Hj' & Hv1 & Hs1).
  assert (json' = json) as -> by congruence.
  assert (visible w2 (store_final_path store) = Some json) as Hv2
    by (destruct Hv as [->|Hv]; [done|by apply Hs1]).
  eapply load_law in Hl; [|done|done|unfold kMaxSettingsJsonBytes; lia].
  destruct r as [s|e].
  - left. congruence.
  - right. exists e. split; [done|]. destruct Hl as [?|(_ & j & ? & _)]; [done|congruence].
Qed.

Lemma saved_settings_load_witness :
  exists w1 r w3, save 40 sample_store sample_disk sample_settings = Some (success true, w1) /\
    load 40 sample_store w1 = Some (r, w3) /\
    (r = success sample_settings \/ exists e, r = failure e /\ io_error e.(store_error)).
Proof.
  destruct (saves_inv _ sample_saves) as [w1 E]. pose proof sample_loads as Hl.
  rewrite E in Hl. cbn [loads] in Hl.
  destruct (load 40 sample_store w1) as [[r w3]|] eqn:El; [|discriminate Hl].
  exists w1, r, w3. split; [exact E|]. split; [first [exact El | reflexivity]|].
  exact (saved_settings_load 40 40 sample_store sample_disk sample_settings w1 w1 r w3
           sample_settings_wf E (or_introl eq_refl) El).
Defined.
