(* ===== verification/PersistentSession.v ===== *)
(** * PersistentSession: one process's settings and history

    src/app/persistent_session.cpp and its header: the owner of the messenger,
    the deduplication window, the settings record and the history, which makes
    every change durable before the command returns.  The settings store and the
    history store are interfaces ([ISettingsStore], which the store of
    SettingsStore.v implements; [IHistoryStore], the SQLite store), and the calls
    to the operating system are [ISessionEnvironment].

    [Impl] is itself the messenger's commit port and reads the messenger back in
    it, so the world of a messenger command is the pair of the session, with
    the messenger as it was when the command began, and of the outside world.
    The messenger replaces its timeline only after the last call of the port, so
    that copy is what the port reads in the code.  This file holds the session and
    what it relies on; DurableSession.v holds what it keeps. *)
From S2P Require Import Prelude Ports Utf8 Text Uuid Identity Post Timeline Limits PostCodec DedupeWindow MessengerState Json SettingsJson SettingsStore HistoryRecord.

(** ** Definitions *)

(** *** The interfaces *)

Class ISettingsStore (W : Type) := {
  settings_load : W -> Result SettingsRecord SettingsStoreFailure * W;
  settings_save : W -> SettingsRecord -> Result bool SettingsStoreFailure * W
}.

(** A [HistoryError] is only compared with [None]: [true] is [None]; the
    handle's object is part of the world. *)
Class IHistoryStore (W : Type) := {
  history_discard_probe : W -> bool * W;
  history_open : W -> bool * W;
  history_open_existing_bound : W -> Identity -> bool * W;
  history_load_snapshot : W -> Identity -> option HistorySnapshot * W;
  history_save_snapshot : W -> HistorySnapshot -> Identity -> bool * W;
  history_close : W -> W
}.

Inductive SessionDirectory := Directory_Config | Directory_Data.

Inductive SessionLeaf :=
| Leaf_SettingsTemporary
| Leaf_Settings
| Leaf_HistoryWal
| Leaf_HistoryShm
| Leaf_HistoryJournal
| Leaf_History.

Inductive LockResult := Lock_Acquired | Lock_Busy | Lock_Unavailable.

(** [lstat] of the database: missing, an error, or its kind and size. *)
Inductive DatabaseStatus :=
| Database_Missing
| Database_Error
| Database_Present (regular : bool) (size : Z).

Class ISessionEnvironment (W : Type) := {
  resolve_xdg_paths : W -> bool * W;
  create_private_directory : W -> SessionDirectory -> bool * W;
  acquire_one_lock : W -> SessionDirectory -> LockResult * W;
  release_one_lock : W -> SessionDirectory -> W;
  has_history_artifact : W -> bool * W;
  database_status : W -> DatabaseStatus * W;
  unlink_leaf : W -> SessionLeaf -> bool * W;
  sync_directory : W -> SessionDirectory -> bool * W
}.

(** *** The session *)

Inductive PersistentSessionStatus :=
| Session_Ready
| Session_RecoveryRequired
| Session_StorageBusy
| Session_EnvironmentUnavailable
| Session_StorageUnavailable.

#[global] Instance PersistentSessionStatus_eq_decision : EqDecision PersistentSessionStatus.
Proof. solve_decision. Defined.

Inductive InboundPostStatus :=
| Inbound_Accepted
| Inbound_Duplicate
| Inbound_Conflict
| Inbound_Invalid
| Inbound_TimelineFull
| Inbound_OrderExhausted
| Inbound_NotReady
| Inbound_StorageUnavailable.

(** [Impl]; the optional objects that are part of the world are present or not. *)
Record Session := mkSession {
  messenger : MessengerState;
  dedupe : MessageDedupeWindow;
  startup_status : PersistentSessionStatus;
  paths : bool;
  settings_store : bool;
  settings : option SettingsRecord;
  history : bool;
  config_lock : bool;
  data_lock : bool;
  session_closed : bool
}.

Definition set_messenger (se : Session) (m : MessengerState) : Session :=
  mkSession m se.(dedupe) se.(startup_status) se.(paths) se.(settings_store) se.(settings)
    se.(history) se.(config_lock) se.(data_lock) se.(session_closed).
Definition set_dedupe (se : Session) (d : MessageDedupeWindow) : Session :=
  mkSession se.(messenger) d se.(startup_status) se.(paths) se.(settings_store) se.(settings)
    se.(history) se.(config_lock) se.(data_lock) se.(session_closed).
Definition set_status (se : Session) (status : PersistentSessionStatus) : Session :=
  mkSession se.(messenger) se.(dedupe) status se.(paths) se.(settings_store) se.(settings)
    se.(history) se.(config_lock) se.(data_lock) se.(session_closed).
Definition set_paths (se : Session) : Session :=
  mkSession se.(messenger) se.(dedupe) se.(startup_status) true se.(settings_store)
    se.(settings) se.(history) se.(config_lock) se.(data_lock) se.(session_closed).
Definition emplace_settings_store (se : Session) : Session :=
  mkSession se.(messenger) se.(dedupe) se.(startup_status) se.(paths) true se.(settings)
    se.(history) se.(config_lock) se.(data_lock) se.(session_closed).
Definition set_settings (se : Session) (s : option SettingsRecord) : Session :=
  mkSession se.(messenger) se.(dedupe) se.(startup_status) se.(paths) se.(settings_store) s
    se.(history) se.(config_lock) se.(data_lock) se.(session_closed).
Definition set_history (se : Session) (open : bool) : Session :=
  mkSession se.(messenger) se.(dedupe) se.(startup_status) se.(paths) se.(settings_store)
    se.(settings) open se.(config_lock) se.(data_lock) se.(session_closed).
Definition set_locks (se : Session) (config data : bool) : Session :=
  mkSession se.(messenger) se.(dedupe) se.(startup_status) se.(paths) se.(settings_store)
    se.(settings) se.(history) config data se.(session_closed).
Definition set_closed (se : Session) : Session :=
  mkSession se.(messenger) se.(dedupe) se.(startup_status) se.(paths) se.(settings_store)
    se.(settings) se.(history) se.(config_lock) se.(data_lock) true.

Definition is_ready (se : Session) : bool :=
  bool_decide (se.(startup_status) = Session_Ready).

Definition identity_from (s : SettingsRecord) : Identity :=
  Identity_restore s.(settings_install_id) s.(settings_user_id)
    s.(settings_sender_sequence_high_watermark).

(** The next record: one generation later. *)
Definition next_generation (s : SettingsRecord) : Z := u64 (s.(settings_generation) + 1).

Definition with_identity_fields (s : SettingsRecord) (i : Identity) : SettingsRecord :=
  mkSettingsRecord (next_generation s) i.(Identity_install_id) i.(Identity_user_id)
    i.(last_issued_sender_sequence) s.(settings_locale) s.(settings_history_initialized)
    s.(settings_skip_title).
Definition with_locale (s : SettingsRecord) (locale : StoredLocale) : SettingsRecord :=
  mkSettingsRecord (next_generation s) s.(settings_install_id) s.(settings_user_id)
    s.(settings_sender_sequence_high_watermark) locale s.(settings_history_initialized)
    s.(settings_skip_title).
Definition with_skip_title (s : SettingsRecord) (skip_title : bool) : SettingsRecord :=
  mkSettingsRecord (next_generation s) s.(settings_install_id) s.(settings_user_id)
    s.(settings_sender_sequence_high_watermark) s.(settings_locale)
    s.(settings_history_initialized) skip_title.
Definition with_history_initialized (s : SettingsRecord) : SettingsRecord :=
  mkSettingsRecord (next_generation s) s.(settings_install_id) s.(settings_user_id)
    s.(settings_sender_sequence_high_watermark) s.(settings_locale) true
    s.(settings_skip_title).

Definition empty_snapshot : HistorySnapshot := mkHistorySnapshot [] 0 [] 0.

Definition snapshot_of (t : Timeline) (d : MessageDedupeWindow) : HistorySnapshot :=
  mkHistorySnapshot t.(entries) t.(last_assigned_order) d.(records) d.(last_seen_order).

(** The outcome of the loop of [persist_timeline] over the entries. *)
Inductive RememberOutcome :=
| Remembered (candidate_dedupe : MessageDedupeWindow)
| RememberRefused
| RememberRecovery.

Fixpoint remember_entries (known : Timeline) (protected_ids : list MessageId)
    (candidate_dedupe : MessageDedupeWindow) (todo : list TimelineEntry) : RememberOutcome :=
  match todo with
  | [] => Remembered candidate_dedupe
  | entry :: todo =>
      let post := entry.(entry_post) in
      match encode_post post with
      | failure _ => RememberRecovery
      | success encoded =>
          match classify candidate_dedupe post.(message_id) encoded with
          | DedupeClassification_Duplicate =>
              if bool_decide (Timeline_find known post.(message_id) = None)
              then RememberRefused
              else remember_entries known protected_ids candidate_dedupe todo
          | DedupeClassification_Conflict | DedupeClassification_Invalid => RememberRecovery
          | DedupeClassification_New =>
              match remember candidate_dedupe post encoded protected_ids with
              | (DedupeError_None, candidate_dedupe) =>
                  remember_entries known protected_ids candidate_dedupe todo
              | _ => RememberRecovery
              end
          end
      end
  end.

Section Session.
Context {W : Type} `{IRandomBytes W} `{IWallClock W} `{ISettingsStore W} `{IHistoryStore W}
  `{ISessionEnvironment W}.

(** The world of the messenger's commands. *)
#[export] Instance session_random : IRandomBytes (Session * W) := {
  fill x n := let (r, w) := fill (snd x) n in (r, (fst x, w))
}.
#[export] Instance session_clock : IWallClock (Session * W) := {
  now_unix_seconds x := let (r, w) := now_unix_seconds (snd x) in (r, (fst x, w))
}.

(** The guard of the operations that write the settings. *)
Definition writable_settings (se : Session) : option SettingsRecord :=
  if negb (is_ready se) || se.(session_closed) || negb se.(settings_store) then None
  else
    match se.(settings) with
    | Some s => if s.(settings_generation) =? UINT64_MAX then None else Some s
    | None => None
    end.

(** The save of a candidate, and what is kept of it. *)
Definition save_candidate (x : Session * W) (candidate : SettingsRecord) : bool * (Session * W) :=
  let (se, w) := x in
  match settings_save w candidate with
  | (failure e, w) =>
      (false, (if e.(store_final_replaced) then set_status se Session_RecoveryRequired else se, w))
  | (success _, w) => (true, (set_settings se (Some candidate), w))
  end.

Definition session_persist_identity (x : Session * W) (identity : Identity)
  : bool * (Session * W) :=
  match writable_settings (fst x) with
  | None => (false, x)
  | Some s => save_candidate x (with_identity_fields s identity)
  end.

Definition session_persist_timeline (x : Session * W) (t : Timeline) : bool * (Session * W) :=
  let (se, w) := x in
  if negb (is_ready se) || se.(session_closed) || negb se.(history) then (false, x)
  else
    match se.(settings) with
    | None => (false, x)
    | Some s =>
        let protected_ids := map (fun e => e.(entry_post).(message_id)) t.(entries) in
        match remember_entries se.(messenger).(ms_timeline) protected_ids se.(dedupe)
                t.(entries) with
        | RememberRecovery => (false, (set_status se Session_RecoveryRequired, w))
        | RememberRefused => (false, x)
        | Remembered candidate_dedupe =>
            match history_save_snapshot w (snapshot_of t candidate_dedupe) (identity_from s) with
            | (false, w) => (false, (set_status se Session_RecoveryRequired, w))
            | (true, w) => (true, (set_dedupe se candidate_dedupe, w))
            end
        end
    end.

#[export] Instance session_commit : IStateCommit (Session * W) := {
  persist_identity := session_persist_identity;
  persist_timeline := session_persist_timeline
}.

(** A messenger command run by the session. *)
Definition run_messenger {R}
    (command : MessengerState -> Session * W -> R * MessengerState * (Session * W))
    (x : Session * W) : R * (Session * W) :=
  let '(r, m, (se, w)) := command (fst x).(messenger) x in (r, (set_messenger se m, w)).

Definition accept_received_post (x : Session * W) (canonical_post : bytes)
  : InboundPostStatus * (Session * W) :=
  let se := fst x in
  if negb (is_ready se) || se.(session_closed) || negb (bool_decide (is_Some se.(settings))) ||
     negb se.(history)
  then (Inbound_NotReady, x)
  else
    match decode_post_bytes canonical_post with
    | failure _ => (Inbound_Invalid, x)
    | success decoded =>
        if negb (bool_decide (value_of (encode_post decoded) = Some canonical_post))
        then (Inbound_Invalid, x)
        else
          match classify se.(dedupe) decoded.(message_id) canonical_post with
          | DedupeClassification_Duplicate => (Inbound_Duplicate, x)
          | DedupeClassification_Conflict => (Inbound_Conflict, x)
          | DedupeClassification_Invalid => (Inbound_Invalid, x)
          | DedupeClassification_New =>
              let (accepted, x) := run_messenger (fun m x => accept_received m x decoded) x in
              (match accepted.(command_error) with
               | CommandError_None => Inbound_Accepted
               | CommandError_DuplicatePost => Inbound_Duplicate
               | CommandError_ConflictingPost => Inbound_Conflict
               | CommandError_TimelineFull | CommandError_QueueFull => Inbound_TimelineFull
               | CommandError_OrderExhausted => Inbound_OrderExhausted
               | CommandError_PersistenceUnavailable => Inbound_StorageUnavailable
               | _ => Inbound_Invalid
               end, x)
          end
    end.

Definition set_locale (x : Session * W) (locale : StoredLocale) : bool * (Session * W) :=
  match writable_settings (fst x) with
  | None => (false, x)
  | Some s =>
      if bool_decide (s.(settings_locale) = locale) then (true, x)
      else save_candidate x (with_locale s locale)
  end.

Definition set_skip_title (x : Session * W) (skip_title : bool) : bool * (Session * W) :=
  match writable_settings (fst x) with
  | None => (false, x)
  | Some s =>
      if Bool.eqb s.(settings_skip_title) skip_title then (true, x)
      else save_candidate x (with_skip_title s skip_title)
  end.

(** The removals of a list of leaves: every one is tried. *)
Fixpoint unlink_all (removed : bool) (w : W) (leaves : list SessionLeaf) : bool * W :=
  match leaves with
  | [] => (removed, w)
  | leaf :: leaves => let (r, w) := unlink_leaf w leaf in unlink_all (r && removed) w leaves
  end.

Definition delete_all (x : Session * W) : bool * (Session * W) :=
  let (se, w) := x in
  if negb se.(paths) || negb se.(config_lock) || negb se.(data_lock) || se.(session_closed)
  then (false, x)
  else
    let recovery se w := (false, (set_status se Session_RecoveryRequired, w)) in
    let (probe, w) := history_discard_probe w in
    if negb probe then recovery se w
    else
      let (removed, w) :=
        unlink_all true w
          ((if se.(settings_store) then [Leaf_SettingsTemporary] else []) ++ [Leaf_Settings]) in
      let (synced, w) := sync_directory w Directory_Config in
      if negb (synced && removed) then recovery se w
      else
        let w := if se.(history) then history_close w else w in
        let se := set_history (set_settings se None) false in
        let (removed, w) :=
          unlink_all true w [Leaf_HistoryWal; Leaf_HistoryShm; Leaf_HistoryJournal; Leaf_History] in
        let (synced, w) := sync_directory w Directory_Data in
        if negb (synced && removed) then recovery se w
        else (true, (set_status se Session_RecoveryRequired, w)).

Definition shutdown (x : Session * W) : Session * W :=
  let (se, w) := x in
  if se.(session_closed) then x
  else
    let w := if se.(history) then history_close w else w in
    let w := if se.(data_lock) then release_one_lock w Directory_Data else w in
    let w := if se.(config_lock) then release_one_lock w Directory_Config else w in
    (set_closed (set_locks (set_history se false) false false), w).

(** *** Start *)

Definition acquire_lock (x : Session * W) : bool * (Session * W) :=
  let (se, w) := x in
  let locked r := match r with Lock_Busy => Session_StorageBusy | _ => Session_StorageUnavailable end in
  match acquire_one_lock w Directory_Config with
  | (Lock_Acquired, w) =>
      match acquire_one_lock w Directory_Data with
      | (Lock_Acquired, w) => (true, (set_locks se true true, w))
      | (r, w) => (false, (set_status se (locked r), release_one_lock w Directory_Config))
      end
  | (r, w) => (false, (set_status se (locked r), w))
  end.

Definition open_history (x : Session * W) (identity : Identity) : bool * (Session * W) :=
  let (se, w) := x in
  match history_open_existing_bound w identity with
  | (true, w) => (true, (set_history se true, w))
  | (false, w) => (false, (se, w))
  end.

Definition open_empty_history (x : Session * W) (s : SettingsRecord) : bool * (Session * W) :=
  let (se, w) := x in
  match history_open w with
  | (false, w) => (false, (set_status se Session_RecoveryRequired, w))
  | (true, w) =>
      match history_save_snapshot w empty_snapshot (identity_from s) with
      | (false, w) =>
          (false, (set_status (set_history se false) Session_RecoveryRequired, history_close w))
      | (true, w) => (true, (set_history se true, w))
      end
  end.

Definition finalize_history_initialization (x : Session * W) (s : SettingsRecord)
  : bool * (Session * W) :=
  let (se, w) := x in
  if s.(settings_history_initialized) then (true, x)
  else if s.(settings_generation) =? UINT64_MAX
  then (false, (set_status se Session_RecoveryRequired, w))
  else
    match settings_save w (with_history_initialized s) with
    | (failure e, w) =>
        (false, (set_status se (if e.(store_final_replaced) then Session_RecoveryRequired
                                else Session_StorageUnavailable), w))
    | (success _, w) => (true, (set_settings se (Some (with_history_initialized s)), w))
    end.

(** [messenger.restore_state], and the status it leaves. *)
Definition restore_messenger (x : Session * W) (identity : Identity) (t : Timeline)
    (otherwise : PersistentSessionStatus) : Session * W :=
  let (se, w) := x in
  match restore_state se.(messenger) identity t with
  | (r, m) =>
      if CommandResult_ok r then (set_status (set_messenger se m) Session_Ready, w)
      else (set_status se otherwise, w)
  end.

Definition bootstrap_missing_settings (x : Session * W) : Session * W :=
  let (se, w) := x in
  let (artifact, w) := has_history_artifact w in
  if artifact then (set_status se Session_RecoveryRequired, w)
  else
    match InstallId_generate w with
    | (failure _, w) => (set_status se Session_StorageUnavailable, w)
    | (success install_id, w) =>
        match UserId_create (str "Mika") with
        | failure _ => (set_status se Session_StorageUnavailable, w)
        | success user_id =>
            let created := mkSettingsRecord 1 install_id user_id 0 Locale_English false false in
            match settings_save w created with
            | (failure e, w) =>
                (set_status se (if e.(store_final_replaced) then Session_RecoveryRequired
                                else Session_StorageUnavailable), w)
            | (success _, w) =>
                let '(opened, x) := open_empty_history (set_settings se (Some created), w) created in
                if negb opened then x
                else
                  let '(finalized, x) := finalize_history_initialization x created in
                  if negb finalized then x
                  else
                    match (fst x).(settings), Timeline_make kMaxTimelineEntries 0 with
                    | Some s, Some t =>
                        restore_messenger x (identity_from s) t Session_StorageUnavailable
                    | _, _ => x
                    end
            end
        end
    end.

(** A local post that was still queued has an unknown outcome after a restart. *)
Definition settle_entry (e : TimelineEntry) : TimelineEntry :=
  match e.(entry_origin) with
  | LocalDelivery Delivery_Queued =>
      mkTimelineEntry e.(entry_post) e.(received_order) (LocalDelivery Delivery_Unknown)
  | _ => e
  end.

(** The end of [bootstrap_loaded_settings], from the loaded snapshot on. *)
Definition adopt_snapshot (x : Session * W) (identity : Identity) (snapshot : HistorySnapshot)
  : Session * W :=
  let (se, w) := x in
  let recovery w := (set_status se Session_RecoveryRequired, w) in
  match Window_restore kDefaultSeenMessageCapacity snapshot.(snapshot_last_seen_order)
          snapshot.(snapshot_seen_messages) with
  | failure _ => recovery w
  | success restored_dedupe =>
      let se := set_dedupe se restored_dedupe in
      let changed_queued := existsb is_queued snapshot.(snapshot_entries) in
      let settled := map settle_entry snapshot.(snapshot_entries) in
      let snapshot := mkHistorySnapshot settled snapshot.(snapshot_last_assigned_order)
                        snapshot.(snapshot_seen_messages) snapshot.(snapshot_last_seen_order) in
      let (saved, w) :=
        if changed_queued then history_save_snapshot w snapshot identity else (true, w) in
      if negb saved then (set_status se Session_RecoveryRequired, w)
      else
        match Timeline_restore kMaxTimelineEntries snapshot.(snapshot_last_assigned_order)
                settled with
        | failure _ => (set_status se Session_RecoveryRequired, w)
        | success t => restore_messenger (se, w) identity t Session_RecoveryRequired
        end
  end.

Definition bootstrap_loaded_settings (x : Session * W) (s : SettingsRecord) : Session * W :=
  let (se, w) := x in
  let recovery x := (set_status (fst x) Session_RecoveryRequired, snd x) : Session * W in
  let (database, w) := database_status w in
  let '(opened, x) :=
    match database with
    | Database_Error => (None, (set_status se Session_StorageUnavailable, w))
    | Database_Missing =>
        if s.(settings_history_initialized) ||
           negb (s.(settings_sender_sequence_high_watermark) =? 0)
        then (None, recovery (se, w))
        else
          let (artifact, w) := has_history_artifact w in
          if artifact then (None, recovery (se, w))
          else
            let '(opened, x) := open_empty_history (se, w) s in
            if opened then (Some tt, x) else (None, recovery x)
    | Database_Present regular size =>
        if negb regular || (size =? 0) then (None, recovery (se, w))
        else
          let '(opened, x) := open_history (se, w) (identity_from s) in
          if opened then (Some tt, x) else (None, recovery x)
    end in
  match opened with
  | None => x
  | Some _ =>
      let identity := identity_from s in
      let (se, w) := x in
      match history_load_snapshot w identity with
      | (None, w) => recovery (se, w)
      | (Some snapshot, w) =>
          let '(finalized, x) := finalize_history_initialization (se, w) s in
          if negb finalized then x else adopt_snapshot x identity snapshot
      end
  end.

Definition bootstrap (x : Session * W) : Session * W :=
  let (se, w) := x in
  let (resolved, w) := resolve_xdg_paths w in
  if negb resolved then (set_status se Session_EnvironmentUnavailable, w)
  else
    let se := set_paths se in
    let (created, w) :=
      match create_private_directory w Directory_Config with
      | (true, w) => create_private_directory w Directory_Data
      | r => r
      end in
    if negb created then (set_status se Session_StorageUnavailable, w)
    else
      let '(locked, x) := acquire_lock (se, w) in
      if negb locked then x
      else
        let (se, w) := x in
        let (probe, w) := history_discard_probe w in
        if negb probe then (set_status se Session_RecoveryRequired, w)
        else
          let se := emplace_settings_store se in
          match settings_load w with
          | (failure e, w) =>
              if bool_decide (e.(store_error) = StoreError_NotFound)
              then bootstrap_missing_settings (se, w)
              else (set_status se Session_RecoveryRequired, w)
          | (success s, w) => bootstrap_loaded_settings (set_settings se (Some s), w) s
          end.

(** The constructor of [Impl]; [None] would be an exception of the timeline's or
    the window's. *)
Definition session_initial : option Session :=
  m ← MessengerState_make kMaxTimelineEntries 0 true;
  d ← Window_make kDefaultSeenMessageCapacity;
  Some (mkSession m d Session_StorageUnavailable false false None false false false false).

Definition session_start (w : W) : option (Session * W) :=
  se ← session_initial; Some (bootstrap (se, w)).

(** *** What the application does with a session *)

Inductive SessionOp :=
| Op_compose (draft : PostDraft)
| Op_rename_user (user_id : bytes)
| Op_mark_broadcast (message_id : MessageId)
| Op_mark_failed (message_id : MessageId)
| Op_accept_received_post (canonical_post : bytes)
| Op_persist_locale (locale : StoredLocale)
| Op_persist_skip_title (skip_title : bool)
| Op_delete_all_local_data
| Op_shutdown.

Definition run_op (x : Session * W) (op : SessionOp) : Session * W :=
  match op with
  | Op_compose draft => snd (run_messenger (fun m x => compose m x draft) x)
  | Op_rename_user user_id => snd (run_messenger (fun m x => rename_user m x user_id) x)
  | Op_mark_broadcast i => snd (run_messenger (fun m x => command_mark_broadcast m x i) x)
  | Op_mark_failed i => snd (run_messenger (fun m x => command_mark_failed m x i) x)
  | Op_accept_received_post canonical_post => snd (accept_received_post x canonical_post)
  | Op_persist_locale locale => snd (set_locale x locale)
  | Op_persist_skip_title skip_title => snd (set_skip_title x skip_title)
  | Op_delete_all_local_data => snd (delete_all x)
  | Op_shutdown => shutdown x
  end.

Definition run_ops (x : Session * W) (ops : list SessionOp) : Session * W :=
  fold_left run_op ops x.

(** *** Reading the session *)

Definition session_locale (se : Session) : StoredLocale :=
  match se.(settings) with Some s => s.(settings_locale) | None => Locale_English end.

Definition session_skip_title (se : Session) : bool :=
  match se.(settings) with Some s => s.(settings_skip_title) | None => false end.
End Session.

(** ** What the session relies on *)

(** The mentions of a draft are identifiers. *)
Definition op_typed (op : SessionOp) : Prop :=
  match op with
  | Op_compose draft => Forall InstallId_wf draft.(draft_mentions)
  | _ => True
  end.

Definition is_open (se : Session) : bool := is_ready se && negb se.(session_closed).

(** The settings store: what the file holds now.  A save that succeeds replaces
    it, one that fails leaves it unless it says otherwise. *)
Class ISettingsStoreLaws (W : Type) `{ISettingsStore W} := {
  settings_now : W -> option SettingsRecord;
  settings_save_true w s r w' :
    settings_save w s = (success r, w') -> SettingsRecord_wf s -> settings_now w' = Some s;
  settings_save_false w s e w' :
    settings_save w s = (failure e, w') -> e.(store_final_replaced) = false ->
    settings_now w' = settings_now w;
  settings_load_true w s w' :
    settings_load w = (success s, w') ->
    settings_now w = Some s /\ SettingsRecord_wf s;
  settings_load_frame w r w' :
    settings_load w = (r, w') -> settings_now w' = settings_now w
}.

(** The history store: the snapshot of the last transaction, which was saved as it
    is when its ledger covered its posts. *)
Class IHistoryStoreLaws (W : Type) `{IHistoryStore W} := {
  history_now : W -> option HistorySnapshot;
  history_save_true w sn i w' :
    snapshot_typed sn -> snapshot_covered sn ->
    history_save_snapshot w sn i = (true, w') -> history_now w' = Some sn;
  history_load_true w i sn w' :
    history_load_snapshot w i = (Some sn, w') ->
    history_now w = Some sn /\ snapshot_typed sn /\ snapshot_covered sn;
  history_load_frame w i r w' :
    history_load_snapshot w i = (r, w') -> history_now w' = history_now w;
  history_open_existing_frame w i b w' :
    history_open_existing_bound w i = (b, w') -> history_now w' = history_now w;
  history_discard_frame w b w' :
    history_discard_probe w = (b, w') -> history_now w' = history_now w;
  history_close_frame w : history_now (history_close w) = history_now w
}.

(** Neither store, nor the ports, nor the calls of a start touch the other one's
    data. *)
Class ISessionFrames (W : Type) `{IRandomBytes W} `{IWallClock W} `{ISettingsStoreLaws W}
    `{IHistoryStoreLaws W} `{ISessionEnvironment W} := {
  settings_save_frame w s r w' :
    settings_save w s = (r, w') -> history_now w' = history_now w;
  settings_load_history w r w' :
    settings_load w = (r, w') -> history_now w' = history_now w;
  history_save_frame w sn i b w' :
    history_save_snapshot w sn i = (b, w') -> settings_now w' = settings_now w;
  history_load_settings w i r w' :
    history_load_snapshot w i = (r, w') -> settings_now w' = settings_now w;
  history_open_frame w b w' :
    history_open w = (b, w') -> settings_now w' = settings_now w;
  history_open_existing_settings w i b w' :
    history_open_existing_bound w i = (b, w') -> settings_now w' = settings_now w;
  history_discard_settings w b w' :
    history_discard_probe w = (b, w') -> settings_now w' = settings_now w;
  history_close_settings w : settings_now (history_close w) = settings_now w;
  release_frame w d :
    settings_now (release_one_lock w d) = settings_now w /\
    history_now (release_one_lock w d) = history_now w;
  session_fill_frame w n r w' :
    fill w n = (r, w') ->
    settings_now w' = settings_now w /\ history_now w' = history_now w;
  session_now_frame w r w' :
    now_unix_seconds w = (r, w') ->
    settings_now w' = settings_now w /\ history_now w' = history_now w;
  resolve_frame w b w' :
    resolve_xdg_paths w = (b, w') ->
    settings_now w' = settings_now w /\ history_now w' = history_now w;
  create_frame w d b w' :
    create_private_directory w d = (b, w') ->
    settings_now w' = settings_now w /\ history_now w' = history_now w;
  lock_frame w d r w' :
    acquire_one_lock w d = (r, w') ->
    settings_now w' = settings_now w /\ history_now w' = history_now w;
  artifact_frame w b w' :
    has_history_artifact w = (b, w') ->
    settings_now w' = settings_now w /\ history_now w' = history_now w;
  database_frame w r w' :
    database_status w = (r, w') ->
    settings_now w' = settings_now w /\ history_now w' = history_now w
}.
