(* ===== verification/DurableSession.v ===== *)
(** * DurableSession: what a session keeps

    The facts about the session of PersistentSession.v: an open session that is
    ready holds what the two stores hold ([stored], [Session_inv]), every
    operation and every start keeps that, a restart restores it, and the inbox
    commits a post with the window that remembers it.  The atomic settings store
    is shown to implement the session's interface, and a small machine made of
    that store and of a one-snapshot history runs the whole. *)
From S2P Require Import Prelude Ports Utf8 Text Uuid Identity Post Timeline Limits PostCodec DedupeWindow MessengerState Json SettingsJson SettingsStore HistoryRecord PersistentSession.

(** ** The deduplication window of a committed timeline *)

(** Whatever was remembered of a protected identifier stays. *)
Lemma remember_keeps d post encoded protected d' i c :
  Window_inv d -> remember d post encoded protected = (DedupeError_None, d') ->
  i ∈ protected -> classify d i c = DedupeClassification_Duplicate ->
  classify d' i c = DedupeClassification_Duplicate.
Proof.
  intros Hd He Hi Hc. pose proof (remember_cases d post encoded protected) as Ho.
  pose proof (remember_inv d post encoded protected Hd) as Hd'. rewrite He in Ho, Hd'. cbn in Hd'.
  destruct Ho as [_ [[-> _]|(_ & _ & kept & Hroom & ->)]]; [done|].
  pose proof (classify_cases d i c) as Hcl. rewrite Hc in Hcl. destruct Hcl as (r & Hr & <- & <-).
  assert (r ∈ (push_record d kept (message_id post) encoded).(records)) as Hin
    by (apply elem_of_app; left; by eapply room_keeps).
  rewrite (classify_record _ r _ Hd' Hin). by rewrite bool_decide_eq_true_2.
Qed.

Lemma remember_adds d post encoded protected d' :
  Window_inv d -> remember d post encoded protected = (DedupeError_None, d') ->
  classify d' post.(message_id) encoded = DedupeClassification_Duplicate.
Proof.
  intros Hd He. pose proof (remember_cases d post encoded protected) as Ho.
  pose proof (remember_inv d post encoded protected Hd) as Hd'. rewrite He in Ho, Hd'. cbn in Hd'.
  destruct Ho as [_ [[-> Hdup]|(_ & _ & kept & Hroom & ->)]]; [done|].
  pose proof (classify_record _ (mkSeenMessageRecord (message_id post)
    (u64 (last_seen_order d + 1)) encoded) encoded Hd') as Hcl.
  cbn [seen_message_id encoded_post] in Hcl. rewrite Hcl; [by rewrite bool_decide_eq_true_2|].
  apply elem_of_app. right. by apply list_elem_of_singleton.
Qed.

Lemma remember_capacity d post encoded protected :
  (remember d post encoded protected).2.(window_capacity) = d.(window_capacity).
Proof. unfold remember. repeat case_match; done. Qed.

Lemma remember_entries_spec known protected todo d d' :
  Window_inv d -> Forall (fun e => e.(entry_post).(message_id) ∈ protected) todo ->
  remember_entries known protected d todo = Remembered d' ->
  Window_inv d' /\ d'.(window_capacity) = d.(window_capacity) /\
  Forall (entry_remembered d') todo /\
  (forall i c, i ∈ protected -> classify d i c = DedupeClassification_Duplicate ->
     classify d' i c = DedupeClassification_Duplicate).
Proof.
  revert d. induction todo as [|e todo IH]; intros d Hd Hp; cbn [remember_entries].
  { intros [= <-]. split_and!; [done|done|by apply Forall_nil|done]. }
  apply Forall_cons in Hp as [He Hp].
  destruct (encode_post (entry_post e)) as [encoded|] eqn:Eenc; [|done].
  destruct (classify d _ encoded) eqn:Ec; try done.
  - destruct (remember d _ _ _) as [error d1] eqn:Er. destruct error; try done. intros Hr.
    pose proof (remember_inv d (entry_post e) encoded protected Hd) as Hd1.
    pose proof (remember_capacity d (entry_post e) encoded protected) as Hcap.
    rewrite Er in Hd1, Hcap. cbn in Hd1, Hcap.
    destruct (IH d1 Hd1 Hp Hr) as (Hd' & Hcap' & Hall & Hkeep).
    split_and!; [done|congruence| |].
    + apply Forall_cons. split; [|done]. exists encoded. split; [done|].
      apply Hkeep; [done|]. exact (remember_adds _ _ _ _ _ Hd Er).
    + intros i c Hi Hc. apply Hkeep; [done|]. exact (remember_keeps _ _ _ _ _ _ _ Hd Er Hi Hc).
  - case_bool_decide; [done|]. intros Hr. destruct (IH d Hd Hp Hr) as (Hd' & Hcap & Hall & Hkeep).
    split_and!; [done|done| |done]. apply Forall_cons. split; [|done]. exists encoded. auto.
Qed.

(** ** A ready session's memory is what is stored *)

Section Facts.
Context {W : Type} `{ISessionFrames W} `{!IRandomBytesLaws W} `{!IWallClockLaws W}.
Implicit Types (x : Session * W) (se : Session).

(** The window and the settings a session works with. *)
Definition window_ok (d : MessageDedupeWindow) : Prop :=
  Window_inv d /\ d.(window_capacity) = kDefaultSeenMessageCapacity.

Definition settings_ok (s : SettingsRecord) : Prop :=
  SettingsRecord_wf s /\ s.(settings_history_initialized) = true.

(** An open session that is ready holds the identity [oi] and the timeline [t],
    and both are what the two stores hold. *)
Definition stored (oi : option Identity) (t : Timeline) x : Prop :=
  let (se, w) := x in
  is_ready se = true -> se.(session_closed) = false ->
  exists s, se.(settings) = Some s /\ settings_ok s /\ oi = Some (identity_from s) /\
    settings_now w = Some s /\ history_now w = Some (snapshot_of t se.(dedupe)) /\
    se.(settings_store) = true /\ se.(history) = true.

(** What the calls of a command leave as it is. *)
Definition same_session x x' : Prop :=
  (fst x').(messenger) = (fst x).(messenger) /\
  (window_ok (fst x).(dedupe) -> window_ok (fst x').(dedupe)).

Lemma same_session_refl x : same_session x x.
Proof. done. Qed.

Lemma same_session_trans x y z : same_session x y -> same_session y z -> same_session x z.
Proof. intros [Ha Hb] [Hc Hd]. split; [congruence|auto]. Qed.

#[export] Instance session_random_laws : IRandomBytesLaws (Session * W).
Proof.
  split. intros [se w] n bs x'. cbn. destruct (fill w n) as [r w'] eqn:E. intros [= -> <-].
  by eapply fill_length.
Qed.

#[export] Instance session_clock_laws : IWallClockLaws (Session * W).
Proof.
  split. intros [se w] t x'. cbn. destruct (now_unix_seconds w) as [r w'] eqn:E.
  intros [= -> <-]. by eapply now_unix_seconds_range.
Qed.

Lemma stored_fill oi t x n r x' :
  fill x n = (r, x') -> stored oi t x -> stored oi t x' /\ same_session x x'.
Proof.
  destruct x as [se w]. cbn. destruct (fill w n) as [r1 w1] eqn:E. intros [= _ <-] Hs.
  apply session_fill_frame in E as [Ha Hb]. split; [|done]. cbn. by rewrite Ha, Hb.
Qed.

Lemma stored_now oi t x r x' :
  now_unix_seconds x = (r, x') -> stored oi t x -> stored oi t x' /\ same_session x x'.
Proof.
  destruct x as [se w]. cbn. destruct (now_unix_seconds w) as [r1 w1] eqn:E. intros [= _ <-] Hs.
  apply session_now_frame in E as [Ha Hb]. split; [|done]. cbn. by rewrite Ha, Hb.
Qed.

Lemma writable_settings_Some se s :
  writable_settings se = Some s ->
  is_ready se = true /\ se.(session_closed) = false /\ se.(settings) = Some s /\
  s.(settings_generation) <> UINT64_MAX.
Proof.
  unfold writable_settings. destruct (is_ready se), (session_closed se), (settings_store se);
    cbn [negb orb]; try done.
  destruct (settings se) as [s'|]; [|done].
  destruct (Z.eqb_spec (settings_generation s') UINT64_MAX); [done|]. by intros [= ->].
Qed.

Lemma next_generation_wf s :
  is_u64 s.(settings_generation) -> s.(settings_generation) <> UINT64_MAX ->
  is_u64 (next_generation s) /\ next_generation s = s.(settings_generation) + 1 /\
  next_generation s <> 0.
Proof.
  unfold next_generation, is_u64, UINT64_MAX, u64. intros ? ?. rewrite Z.mod_small by lia. lia.
Qed.

(** Saving a candidate for the settings of a ready session. *)
Lemma save_candidate_stored oi t x s candidate b x' :
  stored oi t x -> writable_settings (fst x) = Some s ->
  (settings_ok s -> settings_ok candidate) ->
  save_candidate x candidate = (b, x') ->
  stored (if b then Some (identity_from candidate) else oi) t x' /\ same_session x x'.
Proof.
  destruct x as [se w]. intros Hs (Hr & Hc & Hse & _)%writable_settings_Some Hwf Hsave.
  destruct (Hs Hr Hc) as (s' & Hse' & Hwf' & Hoi & Hnow & Hhist & Hst & Hh). cbn [fst] in *.
  assert (s' = s) as -> by congruence. specialize (Hwf Hwf').
  unfold save_candidate in Hsave. destruct (settings_save w candidate) as [[r|e] w1] eqn:E;
    injection Hsave as <- <-; (split; [|by try destruct (store_final_replaced e)]).
  - intros _ _. exists candidate. cbn. rewrite (settings_save_frame _ _ _ _ E).
    split_and!; try done. eapply settings_save_true; [done|apply Hwf].
  - destruct (store_final_replaced e) eqn:Er; [by intros Hx|]. intros _ _.
    exists s. rewrite (settings_save_frame _ _ _ _ E), (settings_save_false _ _ _ _ E Er). done.
Qed.

Lemma persist_identity_stored oi t x j b x' :
  stored oi t x -> Identity_wf j -> persist_identity x j = (b, x') ->
  stored (if b then Some j else oi) t x' /\ same_session x x'.
Proof.
  intros Hs (Hj1 & Hj2 & Hj3). cbn [persist_identity session_commit].
  unfold session_persist_identity.
  destruct (writable_settings (fst x)) as [s|] eqn:Ew; [|by intros [= <- <-]].
  intros Hsave. eapply save_candidate_stored in Hsave as [Hst Hsame]; [|done|done|].
  - split; [|done]. destruct b; [|done].
    unfold identity_from, Identity_restore in Hst. cbn in Hst. by destruct j.
  - intros ((Hg & _) & ?). destruct (writable_settings_Some _ _ Ew) as (_ & _ & _ & Hmax).
    destruct (next_generation_wf s Hg Hmax) as (? & _ & ?). by split_and!.
Qed.

Lemma protected_all (es : list TimelineEntry) :
  Forall (fun e => e.(entry_post).(message_id) ∈
                   map (fun e => e.(entry_post).(message_id)) es) es.
Proof.
  apply Forall_forall. intros e He. apply list_elem_of_fmap. by exists e.
Qed.

(** A timeline that can be saved. *)
Definition timeline_ok (t : Timeline) : Prop :=
  Timeline_inv t /\ Forall (fun e => PostPayload_wf e.(entry_post)) t.(entries).

Lemma ledger_window_of t d : window_ok d -> ledger_window (snapshot_of t d) = d.
Proof. intros [_ Hc]. unfold ledger_window. cbn. rewrite <- Hc. by destruct d. Qed.

Lemma window_typed d :
  Window_inv d ->
  is_u64 d.(last_seen_order) /\ Forall (fun r => is_u64 r.(seen_order)) d.(records).
Proof.
  intros [_ _ _ _ _ Hord Hlast Hmax]. unfold is_u64. split.
  - split; [|done]. rewrite Hlast. destruct (last (records d)) as [r|] eqn:Hr; [|done].
    apply last_Some_elem_of in Hr. rewrite Forall_forall in Hord. specialize (Hord r Hr). lia.
  - eapply Forall_impl; [exact Hord|]. cbn. lia.
Qed.

Lemma orders_typed t : Timeline_inv t -> Forall (fun e => is_u64 e.(received_order)) t.(entries).
Proof.
  intros [_ _ Hl Ho _ _]. apply orders_between_bounds in Ho.
  eapply Forall_impl; [exact Ho|]. unfold is_u64. cbn. lia.
Qed.

Lemma snapshot_of_typed t d : timeline_ok t -> window_ok d -> snapshot_typed (snapshot_of t d).
Proof.
  intros [Ht Hp] [Hd _]. pose proof (inv_last _ Ht). destruct (window_typed d Hd).
  split; [done|]. split; [by apply orders_typed|]. done.
Qed.

Lemma snapshot_of_covered t d :
  window_ok d -> Forall (entry_remembered d) t.(entries) -> snapshot_covered (snapshot_of t d).
Proof. intros Hd Hr. unfold snapshot_covered. rewrite (ledger_window_of t d Hd). split; [apply Hd|exact Hr]. Qed.

Lemma persist_timeline_stored oi t x t' b x' :
  stored oi t x -> window_ok (fst x).(dedupe) -> timeline_ok t' ->
  persist_timeline x t' = (b, x') ->
  stored oi (if b then t' else t) x' /\ same_session x x' /\
  (b = true -> Forall (entry_remembered (fst x').(dedupe)) t'.(entries) /\
     history_now (snd x') = Some (snapshot_of t' (fst x').(dedupe))) /\
  (b = false -> (fst x').(dedupe) = (fst x).(dedupe)) /\
  (fst x').(settings) = (fst x).(settings).
Proof.
  destruct x as [se w]. intros Hs Hd Htok. cbn [fst] in Hd.
  cbn [persist_timeline session_commit session_persist_timeline].
  destruct (negb (is_ready se) || session_closed se || negb (history se)) eqn:Eg.
  { intros [= <- <-]. by split_and!. }
  destruct (settings se) as [s|] eqn:Ese; [|intros [= <- <-]; by split_and!].
  apply orb_false_iff in Eg as [[Hr%negb_false_iff Hc]%orb_false_iff Hh%negb_false_iff].
  destruct (remember_entries _ _ _ _) as [d'| |] eqn:Er.
  2:{ intros [= <- <-]. by split_and!. }
  2:{ intros [= <- <-]. by split_and!. }
  destruct (remember_entries_spec _ _ _ _ _ (proj1 Hd) (protected_all _) Er) as (Hd' & Hcap & Hall & _).
  assert (window_ok d') as Hok by (split; [done|rewrite Hcap; apply Hd]).
  pose proof (snapshot_of_typed t' d' Htok Hok) as Htyped.
  pose proof (snapshot_of_covered t' d' Hok Hall) as Hcov.
  destruct (history_save_snapshot w _ _) as [[] w1] eqn:E; intros [= <- <-].
  - split_and!; try done.
    + destruct (Hs Hr Hc) as (s' & Hse' & Hwf & Hoi & Hnow & _ & Hst & _).
      intros _ _. exists s'. rewrite (history_save_frame _ _ _ _ _ E).
      split_and!; try done. by eapply history_save_true.
    + intros _. split; [done|]. by eapply history_save_true.
  - by split_and!.
Qed.

(** ** The messenger's commands *)

Lemma commit_identity_stored s x j b x' :
  s.(committing) = true -> stored s.(ms_identity) s.(ms_timeline) x -> Identity_wf j ->
  commit_identity s x j = (b, x') ->
  stored (if b then Some j else s.(ms_identity)) s.(ms_timeline) x' /\ same_session x x'.
Proof. unfold commit_identity. intros ->. apply persist_identity_stored. Qed.

Lemma commit_timeline_stored s x t b x' :
  s.(committing) = true -> stored s.(ms_identity) s.(ms_timeline) x ->
  window_ok (fst x).(dedupe) -> timeline_ok t -> commit_timeline s x t = (b, x') ->
  stored s.(ms_identity) (if b then t else s.(ms_timeline)) x' /\ same_session x x'.
Proof.
  unfold commit_timeline. intros -> Hs Hd Ht Hc.
  destruct (persist_timeline_stored _ _ _ _ _ _ Hs Hd Ht Hc) as (? & ? & _). done.
Qed.

(** The state after a command, in the session. *)
Definition stored_state (s : MessengerState) x : Prop :=
  MessengerState_inv s /\ s.(committing) = true /\ window_ok (fst x).(dedupe) /\
  s.(ms_timeline).(capacity) = kMaxTimelineEntries /\
  stored s.(ms_identity) s.(ms_timeline) x.

(** What a command keeps. *)
Definition keeps x (s' : MessengerState) x' : Prop :=
  stored_state s' x' /\ (fst x').(messenger) = (fst x).(messenger).

Lemma keeps_refl s x : stored_state s x -> keeps x s x.
Proof. done. Qed.

Lemma rename_user_keeps s x u r s' x' :
  stored_state s x -> rename_user s x u = (r, s', x') -> keeps x s' x'.
Proof.
  intros Hst Hc. pose proof Hst as (Hinv & Hcom & Hd & Hcap & Hs).
  assert (MessengerState_inv s') as Hinv' by exact (rename_user_inv s x u r s' x' Hinv Hc).
  revert Hc. unfold rename_user.
  destruct (ms_identity s) as [i|] eqn:Hi; [|intros [= _ <- <-]; by apply keeps_refl].
  destruct (UserId_create u) as [v|] eqn:Hu; [|intros [= _ <- <-]; by apply keeps_refl].
  destruct (commit_identity s x (Identity_rename i v)) as [b x1] eqn:Hc.
  apply commit_identity_stored in Hc as [Hs1 [Hm Hw]]; [|done|by rewrite Hi|].
  - destruct b; cbn [negb]; intros [= _ <- <-]; (split; [|done]);
      split_and!; try done; auto.
  - apply UserId_create_success in Hu as [_ Hu].
    destruct (ms_inv_identity s Hinv i Hi) as (? & ? & ?). by split_and!.
Qed.

Lemma initialize_new_keeps s x u r s' x' :
  stored_state s x -> initialize_new s x u = (r, s', x') -> keeps x s' x'.
Proof.
  intros Hst Hc. pose proof Hst as (Hinv & Hcom & Hd & Hcap & Hs).
  assert (MessengerState_inv s') as Hinv' by exact (initialize_new_inv s x u r s' x' Hinv Hc).
  revert Hc. unfold initialize_new.
  destruct (ms_identity s) as [i|] eqn:Hi; [intros [= _ <- <-]; by apply keeps_refl|].
  destruct (UserId_create u) as [v|] eqn:Hu; [|intros [= _ <- <-]; by apply keeps_refl].
  pose proof (InstallId_generate_spec x) as Hg.
  destruct (fill x 16) as [[bs|] x1] eqn:Hf;
    destruct (stored_fill _ _ _ _ _ _ Hf Hs) as [Hs1 [Hm1 Hw1]].
  2:{ rewrite Hg. intros [= _ <- <-]. split; [|done]. split_and!; auto. by rewrite Hi. }
  destruct Hg as [-> Hg].
  destruct (commit_identity s x1 _) as [b x2] eqn:Hc.
  apply commit_identity_stored in Hc as [Hs2 [Hm2 Hw2]]; [|done|by rewrite Hi|].
  - destruct b; cbn [negb]; intros [= _ <- <-]; (split; [|congruence]);
      split_and!; try done; auto.
  - apply UserId_create_success in Hu as [_ Hu]. by split_and!.
Qed.

Lemma accept_received_keeps s x post r s' x' :
  stored_state s x -> PostPayload_wf post -> accept_received s x post = (r, s', x') ->
  keeps x s' x'.
Proof.
  intros Hst Hpost Hc. pose proof Hst as (Hinv & Hcom & Hd & Hcap & Hs).
  assert (MessengerState_inv s') as Hinv' by exact (accept_received_inv s x post r s' x' Hinv Hpost Hc).
  revert Hc. unfold accept_received.
  destruct (ms_identity s) as [i|] eqn:Hi; [|intros [= _ <- <-]; by apply keeps_refl].
  pose proof (Timeline_insert_capacity (ms_timeline s) post ReceivedOrigin None) as Ht.
  assert (timeline_ok (snd (insert_received (ms_timeline s) post))) as Hok by
    (split; [apply Timeline_insert_inv|apply Timeline_insert_posts]; by try apply Hinv).
  fold (insert_received (ms_timeline s) post) in Ht.
  destruct (insert_received _ _) as [ins t']. destruct (negb _); [intros [= _ <- <-]; by apply keeps_refl|].
  destruct (commit_timeline s x t') as [b x1] eqn:Hc.
  apply commit_timeline_stored in Hc as [Hs1 [Hm Hw]]; [|done|by rewrite Hi|done|done].
  destruct b; cbn [negb]; intros [= _ <- <-]; (split; [|done]); split_and!; try done; auto.
  cbn in *. congruence.
Qed.

Lemma transition_keeps s x m broadcast r s' x' :
  stored_state s x -> transition s x m broadcast = (r, s', x') -> keeps x s' x'.
Proof.
  intros Hst Hc. pose proof Hst as (Hinv & Hcom & Hd & Hcap & Hs).
  assert (MessengerState_inv s') as Hinv' by exact (transition_inv s x m broadcast r s' x' Hinv Hc).
  revert Hc. unfold transition.
  destruct (ms_identity s) as [i|] eqn:Hi; [|intros [= _ <- <-]; by apply keeps_refl].
  assert ((if broadcast then mark_broadcast s.(ms_timeline) m
           else mark_failed s.(ms_timeline) m).2.(capacity) = s.(ms_timeline).(capacity)) as Ht
    by (destruct broadcast; apply Timeline_transition_capacity).
  assert (timeline_ok (if broadcast then mark_broadcast s.(ms_timeline) m
           else mark_failed s.(ms_timeline) m).2) as Hok
    by (destruct broadcast; (split; [apply Timeline_transition_inv|apply Timeline_transition_posts];
        by apply Hinv)).
  destruct (if broadcast then _ else _) as [[] t'];
    try (intros [= _ <- <-]; by apply keeps_refl).
  destruct (commit_timeline s x t') as [b x1] eqn:Hc.
  apply commit_timeline_stored in Hc as [Hs1 [Hm Hw]]; [|done|by rewrite Hi|done|done].
  destruct b; cbn [negb]; intros [= _ <- <-]; (split; [|done]); split_and!; try done; auto.
  cbn in *. congruence.
Qed.

Lemma compose_keeps s x d r s' x' :
  stored_state s x -> Forall InstallId_wf d.(draft_mentions) -> compose s x d = (r, s', x') ->
  keeps x s' x'.
Proof.
  intros Hst Hments Hc. pose proof Hst as (Hinv & Hcom & Hd & Hcap & Hs).
  assert (MessengerState_inv s') as Hinv' by exact (proj1 (compose_branches s x d r s' x' Hinv Hments Hc)).
  revert Hc. destruct (compose_cases s x d Hinv) as [(r0 & -> & _)|(i & Hready & ->)].
  { intros [= _ <- <-]. by apply keeps_refl. }
  destruct (compose_post_cases s x i d Hinv Hments Hready)
    as [(r0 & x1 & o & -> & Hfill & _)|(m & now & x2 & ev & kept & Hcomp & Ht & Hp & ->)].
  { intros [= _ <- <-]. destruct (stored_fill _ _ _ _ _ _ Hfill Hs) as [Hs1 [Hm Hw]].
    split; [|done]. split_and!; auto. }
  destruct Hcomp as [(bs & x1 & Hfill & Hnow) _ _ _].
  destruct (stored_fill _ _ _ _ _ _ Hfill Hs) as [Hs1 Hsame1].
  destruct (stored_now _ _ _ _ _ Hnow Hs1) as [Hs2 Hsame2].
  pose proof (ready_identity _ _ _ Hready) as Hi.
  assert (Identity_wf (issue_next i)) as Hnext.
  { apply issue_next_wf; [by apply (ms_inv_identity s Hinv)|apply Hready]. }
  unfold compose_commit. destruct (commit_identity s x2 (issue_next i)) as [b x3] eqn:Hc1.
  apply commit_identity_stored in Hc1 as [Hs3 Hsame3]; [|done..].
  pose proof (same_session_trans _ _ _ Hsame1 (same_session_trans _ _ _ Hsame2 Hsame3)) as [Hm3 Hw3].
  destruct b; cbn [negb].
  2:{ intros [= _ <- <-]. split; [|done]. split_and!; auto. }
  destruct (commit_timeline _ _ _) as [b x4] eqn:Hc2.
  apply (commit_timeline_stored (with_identity s (issue_next i))) in Hc2 as [Hs4 [Hm4 Hw4]];
    [|done|done|by apply Hw3|done].
  destruct b; cbn [negb]; intros [= _ <- <-]; (split; [|congruence]); split_and!; try done; auto.
Qed.

(** ** The session's operations *)

Definition Session_inv x : Prop := stored_state (fst x).(messenger) x.

Lemma set_messenger_inv se w s' : stored_state s' (se, w) -> Session_inv (set_messenger se s', w).
Proof. done. Qed.

(** Anything that is not ready satisfies the storage part. *)
Lemma not_ready_inv se w :
  MessengerState_inv se.(messenger) -> se.(messenger).(committing) = true ->
  window_ok se.(dedupe) -> se.(messenger).(ms_timeline).(capacity) = kMaxTimelineEntries ->
  is_ready se = false -> Session_inv (se, w).
Proof. intros ? ? ? ? Hr. split_and!; try done. intros Hx. cbn in Hx. congruence. Qed.

Lemma recovery_inv se w w' status :
  Session_inv (se, w) -> status <> Session_Ready -> Session_inv (set_status se status, w').
Proof.
  intros (Hm & Hc & Hd & Hcap & _) Hs. apply not_ready_inv; try done.
  unfold is_ready. cbn. by case_bool_decide.
Qed.

Lemma run_messenger_inv {R} (command : MessengerState -> Session * W -> R * MessengerState * (Session * W)) x r x' :
  (forall s' y, command (fst x).(messenger) x = (r, s', y) -> keeps x s' y) ->
  run_messenger command x = (r, x') -> Session_inv x'.
Proof.
  unfold run_messenger. intros Hk.
  destruct (command _ x) as [[r1 m] [se w]] eqn:E. intros [= -> <-].
  destruct (Hk _ _ eq_refl) as [Hs _]. by apply set_messenger_inv.
Qed.

Lemma save_candidate_inv x s candidate b x' :
  Session_inv x -> writable_settings (fst x) = Some s ->
  (settings_ok s -> settings_ok candidate) ->
  identity_from candidate = identity_from s ->
  save_candidate x candidate = (b, x') -> Session_inv x'.
Proof.
  intros (Hm & Hc & Hd & Hcap & Hs) Hw Hwf Hid Hsave.
  destruct (writable_settings_Some _ _ Hw) as (Hr & Hcl & Hse & _).
  assert (ms_identity (messenger (fst x)) = Some (identity_from s)) as Hoi.
  { destruct x as [se w]. destruct (Hs Hr Hcl) as (s' & Hs' & _ & -> & _). cbn in *. congruence. }
  destruct (save_candidate_stored _ _ _ _ _ _ _ Hs Hw Hwf Hsave) as [Hst [Hm' Hd']].
  unfold Session_inv, stored_state. rewrite Hm'. split_and!; try done; [by apply Hd'|].
  destruct b; [by rewrite Hid, <- Hoi in Hst|done].
Qed.

Lemma set_locale_inv x locale : Session_inv x -> Session_inv (snd (set_locale x locale)).
Proof.
  intros Hx. unfold set_locale. destruct (writable_settings (fst x)) as [s|] eqn:Ew; [|done].
  case_bool_decide; [done|].
  destruct (save_candidate x (with_locale s locale)) as [b x'] eqn:E. cbn [snd].
  eapply save_candidate_inv in E; [done..| |done].
  destruct (writable_settings_Some _ _ Ew) as (_ & _ & _ & Hmax). intros ((Hg & _ & ? & ? & ?) & ?).
  destruct (next_generation_wf s Hg Hmax) as (? & _ & ?). by split_and!.
Qed.

Lemma set_skip_title_inv x b : Session_inv x -> Session_inv (snd (set_skip_title x b)).
Proof.
  intros Hx. unfold set_skip_title. destruct (writable_settings (fst x)) as [s|] eqn:Ew; [|done].
  destruct (Bool.eqb _ _); [done|].
  destruct (save_candidate x (with_skip_title s b)) as [r x'] eqn:E. cbn [snd].
  eapply save_candidate_inv in E; [done..| |done].
  destruct (writable_settings_Some _ _ Ew) as (_ & _ & _ & Hmax). intros ((Hg & _ & ? & ? & ?) & ?).
  destruct (next_generation_wf s Hg Hmax) as (? & _ & ?). by split_and!.
Qed.

Lemma accept_received_post_inv x bytes :
  Session_inv x -> Session_inv (snd (accept_received_post x bytes)).
Proof.
  intros Hx. unfold accept_received_post. destruct (_ || _); [done|].
  destruct (decode_post_bytes bytes) as [p|] eqn:Ep; [|done].
  destruct (negb _); [done|]. destruct (classify _ _ _); try done.
  destruct (run_messenger _ x) as [r x'] eqn:E. cbn [snd].
  eapply run_messenger_inv; [|exact E]. intros s' y Hc.
  eapply accept_received_keeps; [exact Hx| |exact Hc].
  unfold decode_post_bytes in Ep. by apply decode_post_layout in Ep as [? _].
Qed.

Lemma delete_all_inv x : Session_inv x -> Session_inv (snd (delete_all x)).
Proof.
  destruct x as [se w]. intros Hx. unfold delete_all. destruct (_ || _); [done|].
  destruct (history_discard_probe w) as [p w1]. destruct (negb p); [by eapply recovery_inv|].
  destruct (unlink_all _ _ _) as [r w2]. destruct (sync_directory w2 _) as [y w3].
  destruct (negb (y && r)); [by eapply recovery_inv|].
  destruct (unlink_all _ _ _) as [r2 w4]. destruct (sync_directory w4 _) as [y2 w5].
  destruct Hx as (Hm & Hc & Hd & Hcap & _).
  destruct (negb (y2 && r2)); by apply not_ready_inv.
Qed.

Lemma shutdown_inv x : Session_inv x -> Session_inv (shutdown x).
Proof.
  destruct x as [se w]. intros (? & ? & ? & ? & Hs). unfold shutdown.
  destruct (session_closed se) eqn:Ec; [by split_and!|]. by split_and!.
Qed.

(** ** Start *)

(** A session that is being started: nothing adopted, not ready. *)
Definition starting se : Prop :=
  MessengerState_inv se.(messenger) /\ se.(messenger).(committing) = true /\
  window_ok se.(dedupe) /\ se.(messenger).(ms_timeline).(capacity) = kMaxTimelineEntries /\
  is_ready se = false.

Lemma starting_inv se w : starting se -> Session_inv (se, w).
Proof. intros (? & ? & ? & ? & ?). by apply not_ready_inv. Qed.

Lemma starting_status se status :
  starting se -> status <> Session_Ready -> starting (set_status se status).
Proof. intros (? & ? & ? & ? & ?) Hs. split_and!; try done. unfold is_ready. cbn. by case_bool_decide. Qed.

Lemma restore_messenger_inv se w s t otherwise :
  starting se -> otherwise <> Session_Ready -> settings_ok s ->
  Timeline_inv t -> t.(capacity) = kMaxTimelineEntries -> Forall (fun e => PostPayload_wf e.(entry_post)) t.(entries) ->
  se.(settings) = Some s -> settings_now w = Some s ->
  history_now w = Some (snapshot_of t se.(dedupe)) ->
  se.(settings_store) = true -> se.(history) = true ->
  Session_inv (restore_messenger (se, w) (identity_from s) t otherwise).
Proof.
  intros Hst Ho Hwf Ht Hcap Hp Hs Hnow Hh Hstore Hopen. unfold restore_messenger, restore_state.
  destruct (ms_identity (messenger se)).
  { apply starting_inv. by apply starting_status. }
  destruct Hst as ([] & Hc & Hd & _). split_and!; try done.
  - split; cbn; try done. intros ? [= <-]. destruct Hwf as [(_ & _ & ? & ? & ?) _]. by split_and!.
  - intros _ _. by exists s.
Qed.

Lemma set_dedupe_starting se d : starting se -> window_ok d -> starting (set_dedupe se d).
Proof. by intros (? & ? & ? & ? & ?) ?. Qed.

Lemma settle_entry_typed e :
  (settle_entry e).(entry_post) = e.(entry_post) /\
  (settle_entry e).(received_order) = e.(received_order).
Proof. unfold settle_entry. by destruct (entry_origin e) as [|[]]. Qed.

Lemma settle_typed es :
  (Forall (fun e => is_u64 e.(received_order)) es ->
   Forall (fun e => is_u64 e.(received_order)) (map settle_entry es)) /\
  (Forall (fun e => PostPayload_wf e.(entry_post)) es ->
   Forall (fun e => PostPayload_wf e.(entry_post)) (map settle_entry es)).
Proof.
  split; intros Hes; apply Forall_map; eapply Forall_impl; try exact Hes; cbn; intros e;
    destruct (settle_entry_typed e) as [Hpost Hord]; by rewrite ?Hpost, ?Hord.
Qed.

Lemma settle_covered sn :
  snapshot_covered sn ->
  snapshot_covered (mkHistorySnapshot (map settle_entry sn.(snapshot_entries))
    sn.(snapshot_last_assigned_order) sn.(snapshot_seen_messages) sn.(snapshot_last_seen_order)).
Proof.
  intros [Hw He]. split; [done|]. apply Forall_map. eapply Forall_impl; [exact He|].
  intros e. unfold entry_remembered. cbn. by rewrite (proj1 (settle_entry_typed e)).
Qed.

Lemma settle_unqueued es : existsb is_queued es = false -> map settle_entry es = es.
Proof.
  induction es as [|e es IH]; cbn; [done|]. intros [He Hes]%orb_false_iff. f_equal; [|auto].
  unfold is_queued, settle_entry in *. by destruct (entry_origin e) as [|[]].
Qed.

Lemma adopt_snapshot_inv se w s snapshot :
  starting se -> settings_ok s -> snapshot_typed snapshot -> snapshot_covered snapshot ->
  se.(settings) = Some s -> settings_now w = Some s -> history_now w = Some snapshot ->
  se.(settings_store) = true -> se.(history) = true ->
  Session_inv (adopt_snapshot (se, w) (identity_from s) snapshot).
Proof.
  intros Hst Hwf (Hlast & Hord & Hposts & Hseen & Hrecs) Hcov Hs Hnow Hh Hstore Hopen.
  unfold adopt_snapshot.
  destruct (Window_restore _ _ _) as [d|] eqn:Ed.
  2:{ apply starting_inv. by apply starting_status. }
  apply Window_restore_success in Ed as [Hd Hdinv]; [|done].
  assert (window_ok d) as Hok by (by split; [|subst d]).
  pose proof (set_dedupe_starting se d Hst Hok) as Hst'.
  destruct (if existsb _ _ then _ else _) as [saved w1] eqn:Esave.
  destruct saved; cbn [negb]; [|by apply starting_inv, starting_status].
  cbn [snapshot_last_assigned_order].
  destruct (Timeline_restore _ _ _) as [t|] eqn:Et; [|by apply starting_inv, starting_status].
  destruct (settle_typed (snapshot_entries snapshot)) as [Ho Hp].
  apply Timeline_restore_success in Et as [Htinv Ht]; [|by auto..].
  apply restore_messenger_inv; try done; [by subst t|by subst t; apply Hp| |].
  - destruct (existsb _ _); [|by injection Esave as <-].
    by rewrite (history_save_frame _ _ _ _ _ Esave).
  - subst t d. unfold snapshot_of. cbn. destruct (existsb _ _) eqn:Eq.
    + apply history_save_true in Esave; [done|by split_and!; try apply settle_typed|].
      by apply settle_covered.
    + injection Esave as <-. rewrite settle_unqueued by done. by destruct snapshot.
Qed.

Lemma starting_history se b : starting se -> starting (set_history se b).
Proof. by intros (? & ? & ? & ? & ?). Qed.

Lemma starting_settings se o : starting se -> starting (set_settings se o).
Proof. by intros (? & ? & ? & ? & ?). Qed.

Lemma empty_covered : snapshot_typed empty_snapshot /\ snapshot_covered empty_snapshot.
Proof.
  split; [by repeat constructor|]. split; [|constructor].
  by apply (Window_make_inv kDefaultSeenMessageCapacity).
Qed.

Lemma open_empty_history_spec se w s b x' :
  starting se -> open_empty_history (se, w) s = (b, x') ->
  if b then exists w', x' = (set_history se true, w') /\ settings_now w' = settings_now w /\
                       history_now w' = Some empty_snapshot
  else starting (fst x').
Proof.
  intros Hst. unfold open_empty_history. destruct (history_open w) as [[] w1] eqn:Eo.
  2:{ intros [= <- <-]. by apply starting_status. }
  destruct (history_save_snapshot w1 _ _) as [[] w2] eqn:Es; intros [= <- <-].
  - exists w2. rewrite (history_save_frame _ _ _ _ _ Es), (history_open_frame _ _ _ Eo).
    split_and!; try done. eapply history_save_true; [| |exact Es]; by apply empty_covered.
  - apply starting_status; [|done]. by apply starting_history.
Qed.

Lemma finalize_spec se w s b x' :
  starting se -> SettingsRecord_wf s -> se.(settings) = Some s -> settings_now w = Some s ->
  finalize_history_initialization (se, w) s = (b, x') ->
  if b then exists s' w', x' = (set_settings se (Some s'), w') /\ settings_ok s' /\
              identity_from s' = identity_from s /\ settings_now w' = Some s' /\
              history_now w' = history_now w
  else starting (fst x').
Proof.
  intros Hst Hwf Hs Hnow. unfold finalize_history_initialization.
  destruct (settings_history_initialized s) eqn:Einit.
  { intros [= <- <-]. exists s, w. split_and!; try done. destruct se. cbn in *. by subst. }
  destruct (Z.eqb_spec (settings_generation s) UINT64_MAX) as [|Hmax].
  { intros [= <- <-]. by apply starting_status. }
  assert (SettingsRecord_wf (with_history_initialized s)) as Hwf'.
  { pose proof Hwf as (Hg & _ & ? & ? & ?). destruct (next_generation_wf s Hg Hmax) as (? & _ & ?).
    by split_and!. }
  destruct (settings_save w _) as [[r|e] w1] eqn:E; intros [= <- <-].
  - exists (with_history_initialized s), w1. split_and!; try done.
    + by eapply settings_save_true.
    + by eapply settings_save_frame.
  - apply starting_status; [done|]. by destruct (store_final_replaced e).
Qed.

(** The deduplication window the constructor makes. *)
Definition pristine se : Prop :=
  starting se /\ se.(dedupe).(records) = [] /\ se.(dedupe).(last_seen_order) = 0.

Lemma bootstrap_missing_settings_inv se w :
  pristine se -> se.(settings_store) = true -> Session_inv (bootstrap_missing_settings (se, w)).
Proof.
  intros (Hst & Hrec & Hlast) Hstore. unfold bootstrap_missing_settings.
  destruct (has_history_artifact w) as [[] w1]; [by apply starting_inv, starting_status|].
  pose proof (InstallId_generate_spec w1) as Hg.
  destruct (fill w1 16) as [[bs|] w2]; [destruct Hg as [-> Hg]|rewrite Hg];
    [|by apply starting_inv, starting_status].
  destruct (UserId_create (str "Mika")) as [u|] eqn:Hu; [|by apply starting_inv, starting_status].
  apply UserId_create_success in Hu as [_ Hu]. set (created := mkSettingsRecord _ _ _ _ _ _ _).
  assert (SettingsRecord_wf created) as Hwf by by split_and!.
  destruct (settings_save w2 created) as [[r|e] w3] eqn:Esave.
  2:{ apply starting_inv, starting_status; [done|]. by destruct (store_final_replaced e). }
  apply settings_save_true in Esave; [|done].
  destruct (open_empty_history _ created) as [opened x1] eqn:Eo.
  apply open_empty_history_spec in Eo; [|by apply starting_settings].
  destruct opened; cbn [negb]; [|destruct x1; by apply starting_inv].
  destruct Eo as (w4 & -> & Hs4 & Hh4).
  destruct (finalize_history_initialization _ created) as [finalized x2] eqn:Ef.
  apply finalize_spec in Ef;
    [|by apply starting_history, starting_settings|done|done|by rewrite Hs4].
  destruct finalized; cbn [negb]; [|destruct x2; by apply starting_inv].
  destruct Ef as (s' & w5 & -> & Hwf' & _ & Hs5 & Hh5). cbn [fst settings set_settings].
  destruct (Timeline_make kMaxTimelineEntries 0) as [t|] eqn:Et;
    [|by apply starting_inv, starting_settings, starting_history, starting_settings].
  apply restore_messenger_inv; try done.
  - by eapply Timeline_make_inv in Et.
  - unfold Timeline_make in Et. by injection Et as <-.
  - unfold Timeline_make in Et. injection Et as <-. by apply Forall_nil.
  - rewrite Hh5, Hh4. unfold Timeline_make in Et. injection Et as <-. unfold snapshot_of. cbn.
    by rewrite Hrec, Hlast.
Qed.

(** Opening the database of loaded settings. *)
Lemma bootstrap_loaded_settings_inv se w s :
  starting se -> SettingsRecord_wf s -> se.(settings) = Some s -> settings_now w = Some s ->
  se.(settings_store) = true -> Session_inv (bootstrap_loaded_settings (se, w) s).
Proof.
  intros Hst Hwf Hs Hnow Hstore. unfold bootstrap_loaded_settings.
  destruct (database_status w) as [database w1] eqn:Edb.
  apply database_frame in Edb as [Hdb _].
  match goal with |- context [let '(_, _) := ?opening in _] =>
    destruct opening as [opened x1] eqn:Eopen end.
  assert (if opened is Some _ then exists w2, x1 = (set_history se true, w2) /\
            settings_now w2 = settings_now w1
          else starting (fst x1)) as Ho.
  { revert Eopen. destruct database as [| |regular size].
    - split_if; [intros [= <- <-]; by apply starting_status|].
      destruct (has_history_artifact w1) as [[] w2] eqn:Ea; [intros [= <- <-]; by apply starting_status|].
      apply artifact_frame in Ea as [Ha _].
      destruct (open_empty_history (se, w2) s) as [b x] eqn:Eo.
      apply open_empty_history_spec in Eo; [|done].
      destruct b; intros [= <- <-]; [|by apply starting_status].
      destruct Eo as (w3 & -> & Hw3 & _). exists w3. split; [done|congruence].
    - intros [= <- <-]. by apply starting_status.
    - split_if; [intros [= <- <-]; by apply starting_status|]. unfold open_history.
      destruct (history_open_existing_bound w1 _) as [[] w2] eqn:Eo; intros [= <- <-];
        [|by apply starting_status].
      exists w2. split; [done|]. by eapply history_open_existing_settings. }
  clear Eopen. destruct opened as [[]|]; [|destruct x1; by apply starting_inv].
  destruct Ho as (w2 & -> & Hw2).
  destruct (history_load_snapshot w2 _) as [[snapshot|] w3] eqn:El;
    [|apply starting_inv, starting_status; [by apply starting_history|done]].
  pose proof (history_load_settings _ _ _ _ El) as Hset.
  pose proof (history_load_frame _ _ _ _ El) as Hhist.
  apply history_load_true in El as (Hload & Htyped & Hcov).
  destruct (finalize_history_initialization _ s) as [finalized x2] eqn:Ef.
  apply finalize_spec in Ef; [|by apply starting_history|done|done|congruence].
  destruct finalized; cbn [negb]; [|destruct x2; by apply starting_inv].
  destruct Ef as (s' & w4 & -> & Hwf' & Hid & Hs4 & Hh4). rewrite <- Hid.
  apply adopt_snapshot_inv; try done. congruence.
Qed.

Lemma bootstrap_inv se w : pristine se -> Session_inv (bootstrap (se, w)).
Proof.
  intros Hpr. pose proof Hpr as (Hst & Hrec & Hlast). unfold bootstrap.
  destruct (resolve_xdg_paths w) as [[] w1]; cbn [negb]; [|by apply starting_inv, starting_status].
  assert (starting (set_paths se)) as Hst1 by by destruct Hst as (? & ? & ? & ? & ?).
  destruct (create_private_directory w1 Directory_Config) as [[] wc]; cbn [negb];
    [|by apply starting_inv, starting_status].
  destruct (create_private_directory wc Directory_Data) as [[] w2]; cbn [negb];
    [|by apply starting_inv, starting_status].
  unfold acquire_lock. destruct (acquire_one_lock w2 _) as [[| |] w3];
    try by apply starting_inv, starting_status.
  destruct (acquire_one_lock w3 _) as [[| |] w4];
    try by apply starting_inv, starting_status.
  cbn [negb]. set (se1 := set_locks _ _ _).
  assert (starting se1) as Hst2 by by destruct Hst as (? & ? & ? & ? & ?).
  destruct (history_discard_probe w4) as [[] w5]; cbn [negb]; [|by apply starting_inv, starting_status].
  assert (starting (emplace_settings_store se1)) as Hst3 by by destruct Hst as (? & ? & ? & ? & ?).
  destruct (settings_load w5) as [[s|e] w6] eqn:El.
  - pose proof (settings_load_frame _ _ _ El) as Hframe.
    apply settings_load_true in El as [Hnow Hwf].
    apply bootstrap_loaded_settings_inv; try done. congruence.
  - case_bool_decide; [|by apply starting_inv, starting_status].
    by apply bootstrap_missing_settings_inv.
Qed.

Lemma session_start_inv w x : session_start w = Some x -> Session_inv x.
Proof.
  unfold session_start, session_initial, Window_make. intros [= <-].
  apply bootstrap_inv. split; [|done]. split_and!; try done.
  - split; cbn; try done. by eapply (Timeline_make_inv kMaxTimelineEntries 0).
  - split; [|done]. by eapply (Window_make_inv kDefaultSeenMessageCapacity).
Qed.

(** ** Any use of a session *)

Lemma run_messenger_step {R}
    (command : MessengerState -> Session * W -> R * MessengerState * (Session * W)) x :
  (forall r s' y, command (fst x).(messenger) x = (r, s', y) -> keeps x s' y) ->
  Session_inv (snd (run_messenger command x)).
Proof.
  intros Hk. destruct (run_messenger command x) as [r x'] eqn:E. cbn.
  eapply run_messenger_inv; [|exact E]. intros s' y. apply Hk.
Qed.

Lemma run_op_inv x op : Session_inv x -> op_typed op -> Session_inv (run_op x op).
Proof.
  intros Hx Hop. destruct op; cbn [run_op];
    auto using accept_received_post_inv, set_locale_inv, set_skip_title_inv, delete_all_inv,
      shutdown_inv; apply run_messenger_step; intros r s' y Hc.
  - by eapply compose_keeps.
  - by eapply rename_user_keeps.
  - by eapply transition_keeps.
  - by eapply transition_keeps.
Qed.

Lemma run_ops_inv ops x : Session_inv x -> Forall op_typed ops -> Session_inv (run_ops x ops).
Proof.
  revert x. unfold run_ops. induction ops as [|op ops IH]; intros x Hx Hops; cbn; [done|].
  apply Forall_cons in Hops as [Hop Hops]. apply IH; [by apply run_op_inv|done].
Qed.

(** ** Starting again *)

(** The calls of a start on an existing database, when they succeed. *)
Inductive start_reads (w : W) : SettingsRecord -> HistorySnapshot -> W -> Prop :=
| start_reads_intro w1 w2 w3 w4 w5 w6 s w7 size w8 w9 sn w10 :
    resolve_xdg_paths w = (true, w1) ->
    create_private_directory w1 Directory_Config = (true, w2) ->
    create_private_directory w2 Directory_Data = (true, w3) ->
    acquire_one_lock w3 Directory_Config = (Lock_Acquired, w4) ->
    acquire_one_lock w4 Directory_Data = (Lock_Acquired, w5) ->
    history_discard_probe w5 = (true, w6) ->
    settings_load w6 = (success s, w7) ->
    database_status w7 = (Database_Present true size, w8) -> size <> 0 ->
    history_open_existing_bound w8 (identity_from s) = (true, w9) ->
    history_load_snapshot w9 (identity_from s) = (Some sn, w10) ->
    start_reads w s sn w10.

Lemma start_reads_now w s sn w' :
  start_reads w s sn w' -> settings_now w = Some s /\ history_now w = Some sn.
Proof.
  intros [w1 w2 w3 w4 w5 w6 s' w7 size w8 w9 sn' w10 E1 E2 E3 E4 E5 E6 E7 E8 _ E9 E10].
  pose proof (history_discard_settings _ _ _ E6) as Hs6.
  pose proof (history_discard_frame _ _ _ E6) as Hh6.
  pose proof (settings_load_history _ _ _ E7) as Hh7.
  pose proof (settings_load_frame _ _ _ E7) as Hs7.
  pose proof (history_open_existing_settings _ _ _ _ E9) as Hs9.
  pose proof (history_open_existing_frame _ _ _ _ E9) as Hh9.
  apply resolve_frame in E1 as [Hs1 Hh1]. apply create_frame in E2 as [Hs2 Hh2].
  apply create_frame in E3 as [Hs3 Hh3]. apply lock_frame in E4 as [Hs4 Hh4].
  apply lock_frame in E5 as [Hs5 Hh5]. apply settings_load_true in E7 as [Hnow _].
  apply database_frame in E8 as [Hs8 Hh8]. apply history_load_true in E10 as [Hnow' _].
  split; congruence.
Qed.

Lemma shutdown_stores se w :
  settings_now (snd (shutdown (se, w))) = settings_now w /\
  history_now (snd (shutdown (se, w))) = history_now w.
Proof.
  unfold shutdown. destruct (session_closed se); [done|]. cbn [snd].
  destruct (history se), (data_lock se), (config_lock se);
    rewrite ?(proj1 (release_frame _ _)), ?(proj2 (release_frame _ _)),
      ?history_close_settings, ?history_close_frame; done.
Qed.

(** With the markers set, a start that reads a database adopts it. *)
Lemma start_adopts w s sn w' se :
  start_reads w s sn w' -> s.(settings_history_initialized) = true ->
  bootstrap (se, w) =
  adopt_snapshot (set_history (set_settings (emplace_settings_store
    (set_locks (set_paths se) true true)) (Some s)) true, w') (identity_from s) sn.
Proof.
  intros [w1 w2 w3 w4 w5 w6 s' w7 size w8 w9 sn' w10 E1 E2 E3 E4 E5 E6 E7 E8 Hsize E9 E10] Hinit.
  unfold bootstrap. rewrite E1. cbn [negb]. rewrite E2, E3. cbn [negb].
  unfold acquire_lock. rewrite E4, E5. cbn [negb]. rewrite E6. cbn [negb].
  rewrite E7. unfold bootstrap_loaded_settings. rewrite E8.
  rewrite (proj2 (Z.eqb_neq _ _) Hsize). cbn [negb orb]. unfold open_history.
  rewrite E9, E10. unfold finalize_history_initialization. rewrite Hinit. done.
Qed.

Definition settle_timeline (t : Timeline) : Timeline :=
  mkTimeline t.(capacity) t.(last_assigned_order) (map settle_entry t.(entries)).

Lemma settled_unqueued es : count_if is_queued (map settle_entry es) = 0%nat.
Proof.
  induction es as [|e es IH]; cbn [map]; [done|]. rewrite count_if_cons, IH.
  unfold is_queued, settle_entry. destruct (entry_origin e) as [|[]] eqn:E; by rewrite ?E.
Qed.

Lemma settle_timeline_inv t : Timeline_inv t -> Timeline_inv (settle_timeline t).
Proof.
  intros [Hc Hs Hl Ho Hids Hq]. split; cbn [settle_timeline capacity entries last_assigned_order].
  - done.
  - by rewrite length_map.
  - done.
  - eapply orders_between_map; [|exact Ho]. rewrite map_map. apply map_ext. intros e.
    symmetry. apply settle_entry_typed.
  - rewrite map_map. erewrite map_ext; [exact Hids|]. intros e. unfold entry_id.
    by rewrite (proj1 (settle_entry_typed e)).
  - unfold queued_count. cbn [settle_timeline entries]. rewrite settled_unqueued. lia.
Qed.

Lemma window_last_u64 d : Window_inv d -> is_u64 d.(last_seen_order).
Proof.
  intros Hd. pose proof (wi_last d Hd) as Hl. pose proof (wi_range d Hd) as Hr.
  pose proof (wi_orders d Hd) as Ho. unfold is_u64, UINT64_MAX in *.
  destruct (last (records d)) as [r|] eqn:E; [|lia].
  rewrite Forall_forall in Ho. specialize (Ho r (last_Some_elem_of _ _ E)). lia.
Qed.

Lemma restore_window d :
  window_ok d ->
  Window_restore kDefaultSeenMessageCapacity d.(last_seen_order) d.(records) = success d.
Proof.
  intros [Hd Hcap]. apply Window_restore_success; [by apply window_last_u64|].
  split; [|done]. rewrite <- Hcap. by destruct d.
Qed.

Lemma restore_timeline t :
  Timeline_inv t -> t.(capacity) = kMaxTimelineEntries ->
  Timeline_restore kMaxTimelineEntries t.(last_assigned_order) (map settle_entry t.(entries)) =
  success (settle_timeline t).
Proof.
  intros Ht Hcap. pose proof (inv_last t Ht) as Hl.
  apply Timeline_restore_success.
  - done.
  - apply (settle_typed t.(entries)).
    eapply Forall_impl; [apply (orders_between_bounds 0 _ _ (inv_orders t Ht))|].
    cbn. intros e He. unfold is_u64. lia.
  - rewrite <- Hcap. split; [by apply settle_timeline_inv|done].
Qed.

(** Whether what a session left is taken over by the next one. *)
Lemma adopt_settles se w s t d :
  se.(messenger).(ms_identity) = None -> Timeline_inv t -> t.(capacity) = kMaxTimelineEntries ->
  window_ok d ->
  adopt_snapshot (se, w) (identity_from s) (snapshot_of t d) =
  let kept := snapshot_of (settle_timeline t) d in
  let '(saved, w) :=
    if existsb is_queued t.(entries) then history_save_snapshot w kept (identity_from s)
    else (true, w) in
  if saved
  then (set_status (set_messenger (set_dedupe se d)
          (mkMessengerState (Some (identity_from s)) (settle_timeline t)
             se.(messenger).(committing))) Session_Ready, w)
  else (set_status (set_dedupe se d) Session_RecoveryRequired, w).
Proof.
  intros Hi Ht Hcap Hd. unfold adopt_snapshot.
  cbn [snapshot_of snapshot_last_seen_order snapshot_seen_messages snapshot_entries
       snapshot_last_assigned_order].
  rewrite restore_window by done.
  change (mkHistorySnapshot (map settle_entry (entries t)) (last_assigned_order t)
            (records d) (last_seen_order d)) with (snapshot_of (settle_timeline t) d).
  cbv zeta.
  destruct (if existsb _ _ then _ else _) as [[] w1]; cbn [negb]; [|done].
  rewrite restore_timeline by done. unfold restore_messenger, restore_state.
  cbn [set_dedupe messenger]. by rewrite Hi.
Qed.

(** ** A received post *)

Lemma persist_timeline_shape se w t b x' :
  persist_timeline (se, w) t = (b, x') ->
  if b then exists d w', x' = (set_dedupe se d, w')
  else x' = (se, w) \/ exists w', x' = (set_status se Session_RecoveryRequired, w').
Proof.
  cbn [persist_timeline session_commit session_persist_timeline].
  destruct (_ || _); [intros [= <- <-]; by left|].
  destruct (settings se) as [s|]; [|intros [= <- <-]; by left].
  destruct (remember_entries _ _ _ _) as [d'| |]; try (intros [= <- <-]; eauto).
  destruct (history_save_snapshot w _ _) as [[] w1]; intros [= <- <-]; eauto.
Qed.

(** The canonical encoding of a post. *)
Definition canonical_post_of (encoded : bytes) (post : PostPayload) : Prop :=
  decode_post_bytes encoded = success post /\ encode_post post = success encoded.

Lemma canonical_check encoded :
  (exists post, canonical_post_of encoded post /\ PostPayload_wf post) \/
  ((forall post, ~ canonical_post_of encoded post) /\
   match decode_post_bytes encoded with
   | failure _ => True
   | success decoded => value_of (encode_post decoded) <> Some encoded
   end).
Proof.
  destruct (decode_post_bytes encoded) as [p|e] eqn:Ed.
  - destruct (decide (value_of (encode_post p) = Some encoded)) as [He|He].
    + left. exists p. apply value_of_Some in He. split; [by split|].
      unfold decode_post_bytes in Ed. by apply decode_post_layout in Ed as [? _].
    + right. split; [|done]. intros q [Hq He']. apply He, value_of_Some. congruence.
  - right. split; [|done]. intros q [Hq _]. congruence.
Qed.

(** What follows once the messenger has taken the post into its timeline. *)
Definition post_committed x (encoded : bytes) (post : PostPayload) x' : Prop :=
  let t := (fst x).(messenger).(ms_timeline) in
  Timeline_find t post.(message_id) = None /\
  exists evicted kept d,
    let t' := mkTimeline t.(capacity) (t.(last_assigned_order) + 1)
      (kept ++ [mkTimelineEntry post (t.(last_assigned_order) + 1) ReceivedOrigin]) in
    made_room t None evicted kept /\
    fst x' = set_messenger (set_dedupe (fst x) d) (with_timeline (fst x).(messenger) t') /\
    history_now (snd x') = Some (snapshot_of t' d) /\
    classify d post.(message_id) encoded = DedupeClassification_Duplicate.

(** What is kept when it could not be saved. *)
Definition post_refused x x' : Prop :=
  x' = x \/ exists w', x' = (set_status (fst x) Session_RecoveryRequired, w').

Lemma set_messenger_same se : set_messenger se se.(messenger) = se.
Proof. by destruct se. Qed.

(** [accept_received] in the session, on every outcome of the timeline. *)
Lemma session_accept_received x encoded post r x' :
  Session_inv x -> canonical_post_of encoded post ->
  is_ready (fst x) = true -> (fst x).(session_closed) = false ->
  run_messenger (fun m x => accept_received m x post) x = (r, x') ->
  let t := (fst x).(messenger).(ms_timeline) in
  match r.(command_error) with
  | CommandError_None => post_committed x encoded post x'
  | CommandError_PersistenceUnavailable => post_refused x x'
  | CommandError_DuplicatePost => x' = x /\
      exists e, Timeline_find t post.(message_id) = Some e /\ e.(entry_post) = post
  | CommandError_ConflictingPost => x' = x /\
      exists e, Timeline_find t post.(message_id) = Some e /\ e.(entry_post) <> post
  | CommandError_OrderExhausted => x' = x /\ t.(last_assigned_order) = UINT64_MAX
  | CommandError_TimelineFull => x' = x /\ eviction_index t None = None
  | _ => False
  end.
Proof.
  destruct x as [se w]. intros (Hm & Hcom & Hd & Hcap & Hst) [Hdec Henc] Hr Hc. cbn [fst] in *.
  destruct (Hst Hr Hc) as (s & _ & _ & Hid & _).
  unfold run_messenger, accept_received. cbn [fst]. rewrite Hid. unfold insert_received.
  assert (timeline_ok (snd (Timeline_insert (ms_timeline (messenger se)) post ReceivedOrigin None)))
    as Hok.
  { unfold decode_post_bytes in Hdec. apply decode_post_layout in Hdec as [Hpost _].
    split; [apply Timeline_insert_inv|apply Timeline_insert_posts]; by try apply Hm. }
  destruct (Timeline_insert_cases (ms_timeline (messenger se)) post ReceivedOrigin None
              (ms_inv_timeline _ Hm))
    as [(e & err & Hf & -> & ->)|[(_ & ? & _)|[(_ & _ & Hmax & ->)|
        [(_ & _ & _ & _ & Hev & ->)|(Hnew & _ & _ & evicted & kept & Hroom & Hins)]]]].
  - case_decide; intros [= <- <-]; cbn; rewrite set_messenger_same; eauto.
  - done.
  - intros [= <- <-]. cbn. by rewrite set_messenger_same.
  - intros [= <- <-]. cbn. by rewrite set_messenger_same.
  - rewrite Hins in Hok |- *. cbn [snd] in Hok.
    change (CommandResult_ok _) with true. cbn [negb]. set (t' := mkTimeline _ _ _) in *.
    unfold commit_timeline. rewrite Hcom.
    destruct (persist_timeline (se, w) t') as [b y] eqn:Ep.
    pose proof (persist_timeline_shape _ _ _ _ _ Ep) as Hshape.
    destruct (persist_timeline_stored _ _ _ _ _ _ Hst Hd Hok Ep) as (_ & _ & Hyes & _ & Hset).
    destruct b; cbn [negb].
    + destruct (Hyes eq_refl) as [Hall Hnow]. destruct Hshape as (d' & w' & ->).
      intros [= <- <-]. cbn in *. split; [done|]. exists evicted, kept, d'.
      split_and!; try done.
      apply Forall_app in Hall as [_ Hlast]. apply Forall_singleton in Hlast as (c & Hc' & Hcl).
      cbn in *. congruence.
    + destruct Hshape as [-> |[w' ->]]; intros [= <- <-]; cbn.
      * left. by rewrite set_messenger_same.
      * right. exists w'. by destruct se.
Qed.

Lemma open_session_ready x :
  Session_inv x ->
  negb (is_ready (fst x)) || session_closed (fst x) ||
    negb (bool_decide (is_Some (settings (fst x)))) || negb (history (fst x)) = true ->
  is_open (fst x) = false.
Proof.
  destruct x as [se w]. intros (_ & _ & _ & _ & Hst). cbn [fst]. unfold is_open.
  destruct (is_ready se) eqn:Er; [|done]. destruct (session_closed se) eqn:Ec; [done|].
  destruct (Hst Er Ec) as (s & -> & _ & _ & _ & _ & _ & ->). done.
Qed.

Lemma open_guard se :
  negb (is_ready se) || session_closed se || negb (bool_decide (is_Some (settings se))) ||
    negb (history se) = false ->
  is_ready se = true /\ session_closed se = false.
Proof. by destruct (is_ready se), (session_closed se). Qed.

Lemma committed_duplicate x encoded post x' :
  Session_inv x -> canonical_post_of encoded post -> is_open (fst x) = true ->
  post_committed x encoded post x' ->
  accept_received_post x' encoded = (Inbound_Duplicate, x').
Proof.
  destruct x as [se w], x' as [se' w']. intros (_ & _ & _ & _ & Hst) [Hdec Henc].
  intros [Hr Hc%negb_true_iff]%andb_true_iff Hcom. unfold post_committed in Hcom. cbv zeta in Hcom.
  cbn [fst snd] in *. destruct Hcom as (_ & evicted & kept & d & _ & -> & _ & Hcl).
  destruct (Hst Hr Hc) as (s & Hs & _ & _ & _ & _ & _ & Hh).
  unfold accept_received_post. cbn [fst].
  change (is_ready (set_messenger _ _)) with (is_ready se).
  cbn [set_messenger set_dedupe session_closed settings history dedupe].
  rewrite Hr, Hc, Hh, bool_decide_eq_true_2 by (by rewrite Hs). cbn [negb orb].
  rewrite Hdec, bool_decide_eq_true_2 by (by apply value_of_Some). cbn [negb]. by rewrite Hcl.
Qed.
(** What every answer of the inbox means. *)
Definition inbox_outcome x (encoded : bytes) (r : InboundPostStatus) x' : Prop :=
  let t := (fst x).(messenger).(ms_timeline) in
  let known c p := canonical_post_of encoded p /\
    classify (fst x).(dedupe) p.(message_id) encoded = c in
  match r with
  | Inbound_Accepted =>
      exists post, known DedupeClassification_New post /\ post_committed x encoded post x' /\
        accept_received_post x' encoded = (Inbound_Duplicate, x')
  | Inbound_Duplicate => x' = x /\
      exists post, known DedupeClassification_Duplicate post \/
        known DedupeClassification_New post /\
        exists e, Timeline_find t post.(message_id) = Some e /\ e.(entry_post) = post
  | Inbound_Conflict => x' = x /\
      exists post, known DedupeClassification_Conflict post \/
        known DedupeClassification_New post /\
        exists e, Timeline_find t post.(message_id) = Some e /\ e.(entry_post) <> post
  | Inbound_Invalid => x' = x /\ forall post, ~ canonical_post_of encoded post
  | Inbound_TimelineFull => x' = x /\ eviction_index t None = None
  | Inbound_OrderExhausted => x' = x /\ t.(last_assigned_order) = UINT64_MAX
  | Inbound_NotReady => x' = x /\ is_open (fst x) = false
  | Inbound_StorageUnavailable => post_refused x x'
  end.

Lemma accept_received_post_cases x encoded r x' :
  Session_inv x -> accept_received_post x encoded = (r, x') -> inbox_outcome x encoded r x'.
Proof.
  intros Hx. unfold inbox_outcome. pose proof (open_session_ready x Hx) as Hopen.
  pose proof (committed_duplicate x encoded) as Hagain. unfold accept_received_post at 1.
  destruct (_ || _) eqn:Eg; [intros [= <- <-]; cbv zeta; split; [done|by apply Hopen]|].
  apply open_guard in Eg as [Hr Hc]. clear Hopen.
  destruct (canonical_check encoded) as [(post & [Hdec Henc] & Hwf)|[Hnone Hbad]].
  2:{ destruct (decode_post_bytes encoded) as [p|]; [|by intros [= <- <-]].
      rewrite bool_decide_eq_false_2 by done. by intros [= <- <-]. }
  assert (canonical_post_of encoded post) as Hcan by done.
  assert (is_open (fst x) = true) as Hopen by (unfold is_open; by rewrite Hr, Hc).
  specialize (fun y => Hagain post y Hx Hcan Hopen).
  destruct (decode_post_bytes encoded) as [p|]; [injection Hdec as ->|done].
  rewrite bool_decide_eq_true_2 by (by apply value_of_Some). cbn [negb].
  destruct (classify _ _ _) eqn:Ecl.
  - destruct (run_messenger _ x) as [res y] eqn:Erun. intros [= <- <-].
    pose proof (session_accept_received _ _ _ _ _ Hx Hcan Hr Hc Erun) as Hs. cbv zeta in *.
    destruct (command_error res); try done; try (destruct Hs as [-> Hs]; by eauto 10).
    exists post. split_and!; [done|done|done|]. by apply Hagain.
  - intros [= <- <-]. cbv zeta. split; [done|]. exists post. by left.
  - intros [= <- <-]. cbv zeta. split; [done|]. exists post. by left.
  - pose proof (classify_cases (dedupe (fst x)) (message_id post) encoded) as Hcl.
    by rewrite Ecl in Hcl.
Qed.
End Facts.

(** ** The atomic settings store implements the interface *)

Section Atomic.
Context {W : Type} `{IPosixLaws W} (store : AtomicSettingsStore).

(** More steps than [load] or [save] take; a call that is interrupted for ever
    has no answer in the code, and an error here. *)
Definition atomic_fuel : nat := S kMaxSettingsJsonBytes.

Definition atomic_load (w : W) : Result SettingsRecord SettingsStoreFailure * W :=
  match load atomic_fuel store w with
  | Some r => r
  | None => (failure (system_failure StoreError_ReadSettingsFailed EINTR false), w)
  end.

Definition atomic_save (w : W) (s : SettingsRecord) : Result bool SettingsStoreFailure * W :=
  match save atomic_fuel store w s with
  | Some r => r
  | None => (failure (system_failure StoreError_WriteTemporaryFailed EINTR false), w)
  end.

(** The record in the settings file. *)
Definition atomic_now (w : W) : option SettingsRecord :=
  c ← visible w store.(store_final_path);
  match parse_settings_json c with Some (success s) => Some s | _ => None end.

Lemma atomic_save_true w s r w' :
  atomic_save w s = (success r, w') -> SettingsRecord_wf s -> atomic_now w' = Some s.
Proof.
  unfold atomic_save, atomic_now. destruct (save _ _ _ _) as [[r1 w1]|] eqn:E; [|done].
  intros [= -> <-] Hwf. apply save_law in E as (json & Hj & Hv & _).
  destruct (serialize_settings_wf s Hwf) as (json' & Hj' & _ & Hp).
  assert (json' = json) as -> by congruence. rewrite Hv. cbn. by rewrite Hp.
Qed.

Lemma atomic_save_false w s e w' :
  atomic_save w s = (failure e, w') -> e.(store_final_replaced) = false ->
  atomic_now w' = atomic_now w.
Proof.
  unfold atomic_save, atomic_now. destruct (save _ _ _ _) as [[r1 w1]|] eqn:E; [|by intros [= _ <-]].
  intros [= -> <-] He. apply save_law in E. unfold save_outcome in E. rewrite He in E.
  by destruct E as [-> _].
Qed.

Lemma atomic_load_true w s w' :
  atomic_load w = (success s, w') -> atomic_now w = Some s /\ SettingsRecord_wf s.
Proof.
  unfold atomic_load, atomic_now. destruct (load _ _ _) as [[r1 w1]|] eqn:E; [|done].
  intros [= -> <-]. apply load_frame in E as [_ Hs]. destruct (Hs s eq_refl) as (c & -> & Hc).
  cbn. rewrite Hc. split; [done|]. by eapply parse_settings_wf.
Qed.

Lemma atomic_load_frame w r w' : atomic_load w = (r, w') -> atomic_now w' = atomic_now w.
Proof.
  unfold atomic_load, atomic_now. destruct (load _ _ _) as [[r1 w1]|] eqn:E; [|by intros [= _ <-]].
  intros [= -> <-]. apply load_frame in E as [Hq _]. by destruct (Hq (store_final_path store)) as [-> _].
Qed.
End Atomic.

(** ** A small machine

    A disk with the settings store of SettingsStore.v, and a history store that
    holds one snapshot; the random bytes count up and the clock stands still. *)

Record Machine := mkMachine {
  machine_disk : Disk;
  machine_history : option HistorySnapshot;
  machine_count : nat
}.

Definition machine_store : AtomicSettingsStore := sample_store.

Definition set_disk (w : Machine) (d : Disk) : Machine :=
  mkMachine d w.(machine_history) w.(machine_count).

#[export] Instance machine_random : IRandomBytes Machine := {
  fill w n := (Some (repeat (to_u8 (Z.of_nat w.(machine_count))) n),
               mkMachine w.(machine_disk) w.(machine_history) (S w.(machine_count)))
}.

#[export] Instance machine_clock : IWallClock Machine := {
  now_unix_seconds w := (Some 1000, w)
}.

#[export] Instance machine_settings : ISettingsStore Machine := {
  settings_load w := let (r, d) := atomic_load machine_store w.(machine_disk) in (r, set_disk w d);
  settings_save w s :=
    let (r, d) := atomic_save machine_store w.(machine_disk) s in (r, set_disk w d)
}.

(** Every order is 64 bits wide, every post is one the codec reads back, and the
    ledger covers the posts. *)
Definition snapshot_readable (sn : HistorySnapshot) : bool :=
  let ordered z := (0 <=? z) && (z <=? UINT64_MAX) in
  match Window_restore kDefaultSeenMessageCapacity sn.(snapshot_last_seen_order)
          sn.(snapshot_seen_messages) with
  | success d =>
      forallb (fun e =>
        match encode_post e.(entry_post) with
        | success encoded =>
            match classify d e.(entry_post).(message_id) encoded with
            | DedupeClassification_Duplicate => true
            | _ => false
            end
        | failure _ => false
        end) sn.(snapshot_entries)
  | failure _ => false
  end &&
  ordered sn.(snapshot_last_assigned_order) && ordered sn.(snapshot_last_seen_order) &&
  forallb (fun r => ordered r.(seen_order)) sn.(snapshot_seen_messages) &&
  forallb (fun e => ordered e.(received_order) &&
    match encode_post e.(entry_post) with
    | success encoded =>
        bool_decide (value_of (decode_post_bytes encoded) = Some e.(entry_post))
    | failure _ => false
    end) sn.(snapshot_entries).

#[export] Instance machine_history_store : IHistoryStore Machine := {
  history_discard_probe w := (true, w);
  history_open w := (true, mkMachine w.(machine_disk) None w.(machine_count));
  history_open_existing_bound w i := (bool_decide (is_Some w.(machine_history)), w);
  history_load_snapshot w i :=
    (match w.(machine_history) with
     | Some sn => if snapshot_readable sn then Some sn else None
     | None => None
     end, w);
  history_save_snapshot w sn i := (true, mkMachine w.(machine_disk) (Some sn) w.(machine_count));
  history_close w := w
}.

#[export] Instance machine_environment : ISessionEnvironment Machine := {
  resolve_xdg_paths w := (true, w);
  create_private_directory w d := (true, w);
  acquire_one_lock w d := (Lock_Acquired, w);
  release_one_lock w d := w;
  has_history_artifact w := (bool_decide (is_Some w.(machine_history)), w);
  database_status w :=
    (match w.(machine_history) with Some _ => Database_Present true 4096 | None => Database_Missing end, w);
  unlink_leaf w leaf := (true, w);
  sync_directory w d := (true, w)
}.

#[export] Instance machine_settings_laws : ISettingsStoreLaws Machine.
Proof.
  refine {| settings_now w := atomic_now machine_store w.(machine_disk) |};
    unfold settings_load, settings_save, machine_settings; intros w *.
  - destruct (atomic_save _ _ _) as [x d] eqn:E. intros [= -> <-]. by eapply atomic_save_true.
  - destruct (atomic_save _ _ _) as [x d] eqn:E. intros [= -> <-]. by eapply atomic_save_false.
  - destruct (atomic_load _ _) as [x d] eqn:E. intros [= -> <-]. by eapply atomic_load_true.
  - destruct (atomic_load _ _) as [x d] eqn:E. intros [= -> <-]. by eapply atomic_load_frame.
Defined.

Lemma snapshot_readable_typed sn :
  snapshot_readable sn = true -> snapshot_typed sn /\ snapshot_covered sn.
Proof.
  unfold snapshot_readable. rewrite !andb_true_iff, !(forallb_forall _ (snapshot_entries sn)),
    !(forallb_forall _ (snapshot_seen_messages sn)), !Z.leb_le.
  intros [[[[Hw Ha] Hb] Hr] He]. split.
  2:{ destruct (Window_restore _ _ _) as [d|] eqn:Hd; [|done].
      apply Window_restore_success in Hd as [-> Hinv]; [|unfold is_u64; lia]. split; [done|].
      apply Forall_forall. intros e Hin%list_elem_of_In. rewrite forallb_forall in Hw.
      specialize (Hw e Hin). destruct (encode_post _) as [c|] eqn:Hc; [|done]. exists c.
      split; [done|]. by destruct (classify _ _ _). }
  split_and!; try done; apply Forall_forall;
    intros x Hx%list_elem_of_In.
  - specialize (He x Hx). rewrite !andb_true_iff, !Z.leb_le in He. by destruct He.
  - specialize (He x Hx). rewrite !andb_true_iff in He. destruct He as [_ He].
    destruct (encode_post _) as [c|]; [|done]. apply bool_decide_eq_true, value_of_Some in He.
    unfold decode_post_bytes in He. by apply decode_post_layout in He as [? _].
  - specialize (Hr x Hx). by rewrite !andb_true_iff, !Z.leb_le in Hr.
Qed.

#[export] Instance machine_history_laws : IHistoryStoreLaws Machine.
Proof.
  refine {| history_now w := w.(machine_history) |}; cbn; intros w *; try by intros [= ? <-].
  - by intros i w' _ _ [= <-].
  - intros i sn w'. destruct (machine_history w) as [s|] eqn:E; [|done].
    destruct (snapshot_readable s) eqn:Er; [|done]. intros [= <- <-].
    split; [done|]. by apply snapshot_readable_typed.
  - by intros i r w' [= _ <-].
  - by intros i b w' [= _ <-].
  - done.
Defined.

#[export] Instance machine_frames : ISessionFrames Machine.
Proof.
  split; unfold settings_now, history_now, machine_settings_laws, machine_history_laws;
    cbn; intros w *;
    try (destruct (atomic_save _ _ _)); try (destruct (atomic_load _ _)); by intros; simplify_eq.
Qed.

#[export] Instance machine_random_laws : IRandomBytesLaws Machine.
Proof. split. intros w n bs w'. cbn. intros [= <- <-]. apply repeat_length. Qed.

#[export] Instance machine_clock_laws : IWallClockLaws Machine.
Proof. split. intros w t w'. cbn. by intros [= <- <-]. Qed.

(** A machine on which nothing was ever started, and one use of it. *)
Definition fresh_machine : Machine :=
  mkMachine (mkDisk (fun _ => None) (fun _ => [None]) (fun _ => true) (fun _ => None)) None 1.

Definition hello_draft : PostDraft := mkPostDraft (str "hello") [] None.

Definition sample_ops : list SessionOp :=
  [Op_compose hello_draft; Op_persist_locale Locale_Japanese].

Definition started_open (ops : list SessionOp) : bool :=
  match session_start fresh_machine with
  | Some x0 => is_open (fst (run_ops x0 ops))
  | None => false
  end.

Lemma sample_open : started_open sample_ops = true.
Proof. by vm_compute. Qed.

Lemma started_open_inv ops :
  started_open ops = true ->
  exists x0, session_start fresh_machine = Some x0 /\
    is_ready (fst (run_ops x0 ops)) = true /\ session_closed (fst (run_ops x0 ops)) = false.
Proof.
  unfold started_open. destruct (session_start fresh_machine) as [x0|]; [|done].
  unfold is_open. intros [Hr Hc%negb_true_iff]%andb_true_iff. by exists x0.
Qed.

Lemma sample_ops_typed : Forall op_typed sample_ops.
Proof. repeat constructor. Qed.

(** The calls of a start get through. *)
Definition machine_reads (w : Machine) : bool :=
  match settings_load w with
  | (success _, w) => match w.(machine_history) with Some sn => snapshot_readable sn | None => false end
  | _ => false
  end.

Lemma machine_reads_start w :
  machine_reads w = true -> exists s sn w1, start_reads w s sn w1.
Proof.
  unfold machine_reads. destruct (settings_load w) as [[s|] w1] eqn:El; [|done].
  destruct (machine_history w1) as [sn|] eqn:Eh; [|done]. intros Hr. exists s, sn, w1.
  apply (start_reads_intro w w w w w w w s w1 4096 w1 w1); try done; cbn; rewrite ?Eh, ?Hr;
    [done..|by rewrite bool_decide_eq_true_2|done].
Qed.

Definition started_reads (ops : list SessionOp) : bool :=
  match session_start fresh_machine with
  | Some x0 => machine_reads (snd (shutdown (run_ops x0 ops)))
  | None => false
  end.

Lemma sample_reads : started_reads sample_ops = true.
Proof. by vm_compute. Qed.

(** The canonical bytes of a post, received by a session just started. *)
Definition hello_bytes : bytes :=
  match encode_post golden_post with success encoded => encoded | failure _ => [] end.

Definition started_accepts (encoded : bytes) : bool :=
  match session_start fresh_machine with
  | Some x0 =>
      match accept_received_post x0 encoded with (Inbound_Accepted, _) => true | _ => false end
  | None => false
  end.

Lemma started_accepts_inv encoded :
  started_accepts encoded = true ->
  exists x0 x', session_start fresh_machine = Some x0 /\
    accept_received_post x0 encoded = (Inbound_Accepted, x').
Proof.
  unfold started_accepts. destruct (session_start fresh_machine) as [x0|]; [|done].
  destruct (accept_received_post x0 encoded) as [r x'] eqn:E. destruct r; try done.
  intros _. exists x0, x'. exact (conj eq_refl E).
Qed.

Lemma hello_accepted : started_accepts hello_bytes = true.
Proof. by vm_compute. Qed.

(** ** Property theorems *)

(** C9: what a running session shows is what is stored.  Start a session on any
    world and use it in any way (composing, receiving, marking, renaming,
    changing a setting, deleting, shutting down), whatever the stores answer: as
    long as it is open and ready, its settings record is the one in the settings
    file, its identity is that record's, and its timeline and deduplication
    window are together the snapshot in the history.  A session that cannot keep
    this up is no longer ready. *)
Theorem ready_means_durable {W} `{ISessionFrames W} `{!IRandomBytesLaws W}
    `{!IWallClockLaws W} (w0 : W) x0 ops :
  session_start w0 = Some x0 -> Forall op_typed ops ->
  let (se, w) := run_ops x0 ops in
  is_ready se = true -> se.(session_closed) = false ->
  MessengerState_inv se.(messenger) /\ Window_inv se.(dedupe) /\
  exists s, se.(settings) = Some s /\ SettingsRecord_wf s /\
    se.(messenger).(ms_identity) = Some (identity_from s) /\
    settings_now w = Some s /\
    history_now w = Some (snapshot_of se.(messenger).(ms_timeline) se.(dedupe)).
Proof.
  intros Hx0%session_start_inv Hops. pose proof (run_ops_inv ops x0 Hx0 Hops) as Hinv.
  destruct (run_ops x0 ops) as [se w]. destruct Hinv as (Hm & _ & [Hd _] & _ & Hst).
  intros Hr Hc. split_and!; [done|done|].
  destruct (Hst Hr Hc) as (s & ? & [? _] & ? & ? & ? & _). by exists s.
Qed.

Lemma ready_means_durable_witness :
  exists x0, session_start fresh_machine = Some x0 /\
    let (se, w) := run_ops x0 sample_ops in
    MessengerState_inv se.(messenger) /\ Window_inv se.(dedupe) /\
    exists s, se.(settings) = Some s /\ SettingsRecord_wf s /\
      se.(messenger).(ms_identity) = Some (identity_from s) /\
      settings_now w = Some s /\
      history_now w = Some (snapshot_of se.(messenger).(ms_timeline) se.(dedupe)).
Proof.
  destruct (started_open_inv _ sample_open) as (x0 & E & Hr & Hc). exists x0. split; [exact E|].
  pose proof (ready_means_durable fresh_machine x0 sample_ops E sample_ops_typed) as Hthm.
  destruct (run_ops x0 sample_ops) as [se w]. exact (Hthm Hr Hc).
Defined.

(** C11: a restart restores what the session had.  Use a session in any way; if
    it is ready and open when it is shut down, and the next start gets through
    its calls (directories, locks, the probe, reading both stores), then what it
    reads is exactly what the first session had, and the new session is ready
    with the same settings record, identity and deduplication window, and the
    same timeline except that posts still queued are now of unknown outcome.
    Only the saving of that change can still fail: the session then asks for
    recovery. *)
Theorem restart_restores {W} `{ISessionFrames W} `{!IRandomBytesLaws W}
    `{!IWallClockLaws W} (w0 : W) x0 ops s sn w1 :
  session_start w0 = Some x0 -> Forall op_typed ops ->
  is_ready (fst (run_ops x0 ops)) = true -> (fst (run_ops x0 ops)).(session_closed) = false ->
  start_reads (snd (shutdown (run_ops x0 ops))) s sn w1 ->
  let se := fst (run_ops x0 ops) in
  let t := settle_timeline se.(messenger).(ms_timeline) in
  exists se' w', session_start (snd (shutdown (run_ops x0 ops))) = Some (se', w') /\
    se'.(settings) = se.(settings) /\ se'.(dedupe) = se.(dedupe) /\
    (if existsb is_queued se.(messenger).(ms_timeline).(entries)
     then exists saved, history_save_snapshot w1 (snapshot_of t se.(dedupe)) (identity_from s) =
                        (saved, w') /\
       se'.(startup_status) = (if saved then Session_Ready else Session_RecoveryRequired)
     else w' = w1 /\ se'.(startup_status) = Session_Ready) /\
    (is_ready se' = true ->
     se'.(messenger).(ms_identity) = se.(messenger).(ms_identity) /\
     se'.(messenger).(ms_timeline) = t).
Proof.
  intros Hx0%session_start_inv Hops Hr Hc Hreads.
  pose proof (run_ops_inv ops x0 Hx0 Hops) as Hinv.
  destruct (run_ops x0 ops) as [se w]. cbn [fst snd] in *. cbv zeta.
  destruct Hinv as (Hm & _ & Hd & Hcap & Hst). cbn [fst] in Hcap, Hd, Hm.
  destruct (Hst Hr Hc) as (s0 & Hs0 & [_ Hinit] & Hid & Hnow & Hhist & _). cbn [fst] in Hid, Hhist.
  pose proof (start_reads_now _ _ _ _ Hreads) as [Hn1 Hn2].
  pose proof (shutdown_stores se w) as [Hk1 Hk2].
  assert (s = s0) as -> by congruence.
  assert (sn = snapshot_of (ms_timeline (messenger se)) (dedupe se)) as -> by congruence.
  unfold session_start. destruct session_initial as [si|] eqn:Ei; [|done].
  cbn [mbind option_bind]. rewrite (start_adopts _ _ _ _ si Hreads Hinit).
  rewrite adopt_settles; [|by injection Ei as <-|apply Hm|done|done].
  cbv zeta. destruct (existsb _ _).
  - destruct (history_save_snapshot _ _ _) as [[] w2] eqn:Es; do 2 eexists; split_and!;
      try reflexivity; try done; try (by exists true); try (by exists false).
  - do 2 eexists. by split_and!.
Qed.

Lemma restart_restores_witness :
  exists x0 s sn w1 se' w',
    start_reads (snd (shutdown (run_ops x0 sample_ops))) s sn w1 /\
    session_start (snd (shutdown (run_ops x0 sample_ops))) = Some (se', w') /\
    se'.(settings) = (fst (run_ops x0 sample_ops)).(settings) /\
    se'.(dedupe) = (fst (run_ops x0 sample_ops)).(dedupe).
Proof.
  destruct (started_open_inv _ sample_open) as (x0 & E & Hr & Hc).
  pose proof sample_reads as Hreads. unfold started_reads in Hreads. rewrite E in Hreads.
  apply machine_reads_start in Hreads as (s & sn & w1 & Hs).
  destruct (restart_restores fresh_machine x0 sample_ops s sn w1 E sample_ops_typed Hr Hc Hs)
    as (se' & w' & Hstart & Hset & Hd & _).
  exists x0, s, sn, w1, se', w'. exact (conj Hs (conj Hstart (conj Hset Hd))).
Defined.

(** C10: the inbox.  A received post is taken when it is the canonical encoding
    of a post whose identifier is new to the deduplication window and to the
    timeline; it is then the newest received entry of the timeline, the timeline
    and the window that remembers it are saved together, and the same bytes are
    recognised as a duplicate from then on.  Every other answer leaves the
    messenger, the window and the settings as they are: a session that is not
    open and ready, bytes that are not canonical, a post already known or in
    conflict with a known one, and a timeline that cannot take it.  When saving
    fails, the session asks for recovery. *)
Theorem accept_received_post_spec {W} `{ISessionFrames W} `{!IRandomBytesLaws W}
    `{!IWallClockLaws W} (x : Session * W) encoded r x' :
  Session_inv x -> accept_received_post x encoded = (r, x') -> inbox_outcome x encoded r x'.
Proof. apply accept_received_post_cases. Qed.

Lemma accept_received_post_spec_witness :
  exists x0 x' post,
    session_start fresh_machine = Some x0 /\
    accept_received_post x0 hello_bytes = (Inbound_Accepted, x') /\
    post_committed x0 hello_bytes post x' /\
    accept_received_post x' hello_bytes = (Inbound_Duplicate, x').
Proof.
  destruct (started_accepts_inv _ hello_accepted) as (x0 & x' & E & Ea).
  destruct (accept_received_post_spec x0 hello_bytes _ x' (session_start_inv _ _ E) Ea)
    as (post & _ & Hcom & Hdup).
  exists x0, x', post. exact (conj E (conj Ea (conj Hcom Hdup))).
Defined.
