(* ===== verification/HistorySchema.v ===== *)
(** * HistorySchema: the schema of the history database

    The first half of src/adapters/storage/sqlite_history_store.cpp: the SQL texts
    of the three versions of the schema, the exact verification of what a database
    holds, the integrity checks, the migrations and the configuration of a
    connection.  SQLite is a parameter: a connection [D] with one operation per
    call of its interface the code makes ([ISqlite]); what its statements do is
    stated as laws in HistoryLaws.v. *)
From S2P Require Import Prelude Text.

(** ** SQLite *)

Definition SQLITE_OK : Z := 0.
Definition SQLITE_CORRUPT : Z := 11.
Definition SQLITE_FORMAT : Z := 24.
Definition SQLITE_NOTADB : Z := 26.
Definition SQLITE_ROW : Z := 100.
Definition SQLITE_DONE : Z := 101.

(** The value of a column or of a parameter, by its storage class. *)
Inductive SqlValue :=
| Sql_Null
| Sql_Integer (value : Z)
| Sql_Float
| Sql_Text (value : bytes)
| Sql_Blob (value : bytes).

#[global] Instance SqlValue_eq_decision : EqDecision SqlValue.
Proof. solve_decision. Defined.

Abbreviation SqlRow := (list SqlValue).

(** The calls.  Every text is prepared at most once at a time, so the text names
    the statement.  [sqlite3_steps] is [sqlite3_step] called until it answers
    something else than [SQLITE_ROW]: the rows it stood on, then that answer. *)
Class ISqlite (D : Type) := {
  sqlite3_exec : D -> bytes -> Z * D;
  sqlite3_prepare_v2 : D -> bytes -> Z * nat;
  sqlite3_bind : D -> bytes -> nat -> SqlValue -> Z * D;
  sqlite3_steps : D -> bytes -> list SqlValue -> list SqlRow * Z * D;
  sqlite3_reset : D -> bytes -> Z * D;
  sqlite3_clear_bindings : D -> bytes -> Z * D;
  sqlite3_extended_errcode : D -> Z;
  sqlite3_extended_result_codes : D -> bool -> D;
  sqlite3_busy_timeout : D -> Z -> Z * D;
  sqlite3_db_config_defensive : D -> Z -> Z * Z * D
}.

(** The columns of the row a statement stands on. *)
Definition column (row : SqlRow) (index : nat) : SqlValue := nth index row Sql_Null.

Definition is_text (v : SqlValue) : bool := if v is Sql_Text _ then true else false.
Definition is_blob (v : SqlValue) : bool := if v is Sql_Blob _ then true else false.
Definition is_integer (v : SqlValue) : bool := if v is Sql_Integer _ then true else false.
Definition is_null (v : SqlValue) : bool := if v is Sql_Null then true else false.

(** [sqlite3_column_text] and [sqlite3_column_blob], asked only of values of
    their class or NULL; a blob of no bytes is a null pointer. *)
Definition column_text (v : SqlValue) : option bytes :=
  if v is Sql_Text b then Some b else None.

Definition column_blob (v : SqlValue) : option bytes :=
  match v with
  | Sql_Blob [] => None
  | Sql_Blob b => Some b
  | _ => None
  end.

Definition column_bytes (v : SqlValue) : nat :=
  match v with
  | Sql_Text b | Sql_Blob b => length b
  | _ => 0
  end.

(** [sqlite3_column_int64], asked only of integers, and [sqlite3_column_int],
    which keeps the low 32 bits: signed words. *)
Definition to_i64 (z : Z) : Z :=
  let low := u64 z in if low <=? INT64_MAX then low else low - 18446744073709551616.

Definition column_int64 (v : SqlValue) : Z :=
  if v is Sql_Integer z then to_i64 z else 0.

Definition column_int (v : SqlValue) : Z :=
  let low := u32 (column_int64 v) in
  if low <? 2147483648 then low else low - 4294967296.

(** ** Definitions: sqlite_history_store.h *)

Definition kHistoryApplicationId : Z := 0x4c4d5347.
Definition kHistorySchemaVersion : Z := 3.

Inductive HistoryError :=
| HistoryError_None
| HistoryError_InvalidPath
| HistoryError_OpenFailed
| HistoryError_ConfigureFailed
| HistoryError_CorruptDatabase
| HistoryError_WrongApplication
| HistoryError_UnsupportedSchema
| HistoryError_MigrationFailed
| HistoryError_IdentityMismatch
| HistoryError_InvalidData
| HistoryError_InvalidSnapshot
| HistoryError_ReadFailed
| HistoryError_WriteFailed.

#[global] Instance HistoryError_eq_decision : EqDecision HistoryError.
Proof. solve_decision. Defined.

Inductive SqliteHistoryWritePoint :=
| Point_MigrationPostsRenamed
| Point_MigrationSeenTableCreated
| Point_SnapshotTimelineWritten
| Point_SnapshotDedupeWritten.

(** The failpoint of the header; whether one is installed is a parameter of the
    functions that consult it. *)
Class ISqliteHistoryFailpoint (D : Type) := {
  history_should_fail : D -> SqliteHistoryWritePoint -> bool * D
}.

(** ** Definitions: the SQL texts *)

Definition kCreateMetaV2Sql : bytes := str "
CREATE TABLE meta (
    key TEXT PRIMARY KEY NOT NULL
        CHECK(key IN ('install_id', 'last_assigned_order')),
    value BLOB NOT NULL,
    CHECK(
        (key = 'install_id' AND length(value) = 16) OR
        (key = 'last_assigned_order' AND length(value) = 8)
    )
) WITHOUT ROWID, STRICT;
".

Definition kCreateMetaSql : bytes := str "
CREATE TABLE meta (
    key TEXT PRIMARY KEY NOT NULL
        CHECK(key IN (
            'install_id', 'last_assigned_order', 'last_seen_order',
            'dedupe_initialized'
        )),
    value BLOB NOT NULL,
    CHECK(
        (key = 'install_id' AND length(value) = 16) OR
        (key IN ('last_assigned_order', 'last_seen_order')
         AND length(value) = 8) OR
        (key = 'dedupe_initialized' AND
         value IN (X'00', X'01'))
    )
) WITHOUT ROWID, STRICT;
".

Definition kCreatePostsV1Sql : bytes := str "
CREATE TABLE posts (
    message_id BLOB PRIMARY KEY NOT NULL CHECK(length(message_id) = 16),
    sender_id BLOB NOT NULL CHECK(length(sender_id) = 16),
    sender_sequence BLOB NOT NULL
        CHECK(length(sender_sequence) = 8
              AND sender_sequence <> X'0000000000000000'),
    sender_user_id TEXT NOT NULL
        CHECK(length(CAST(sender_user_id AS BLOB)) BETWEEN 1 AND 24),
    body TEXT NOT NULL
        CHECK(length(CAST(body AS BLOB)) BETWEEN 1 AND 160),
    reply_to BLOB
        CHECK(reply_to IS NULL OR
              (length(reply_to) = 16 AND reply_to <> message_id)),
    received_order BLOB NOT NULL UNIQUE
        CHECK(length(received_order) = 8
              AND received_order <> X'0000000000000000'),
    origin INTEGER NOT NULL CHECK(origin IN (0, 1)),
    local_state INTEGER,
    CHECK(
        (origin = 0 AND local_state IS NULL) OR
        (origin = 1 AND local_state BETWEEN 0 AND 3)
    )
) STRICT;
".

Definition kCreatePostsSql : bytes := str "
CREATE TABLE posts (
    message_id BLOB PRIMARY KEY NOT NULL
        CHECK(length(message_id) = 16),
    sender_id BLOB NOT NULL
        CHECK(length(sender_id) = 16),
    sender_sequence BLOB NOT NULL
        CHECK(length(sender_sequence) = 8
              AND sender_sequence <> X'0000000000000000'),
    sender_user_id TEXT NOT NULL
        CHECK(length(CAST(sender_user_id AS BLOB)) BETWEEN 1 AND 24),
    body TEXT NOT NULL
        CHECK(length(CAST(body AS BLOB)) BETWEEN 1 AND 160),
    reply_to BLOB
        CHECK(reply_to IS NULL OR
              (length(reply_to) = 16 AND reply_to <> message_id)),
    sender_time INTEGER,
    received_order BLOB NOT NULL UNIQUE
        CHECK(length(received_order) = 8
              AND received_order <> X'0000000000000000'),
    origin INTEGER NOT NULL
        CHECK(origin IN (0, 1)),
    local_state INTEGER,
    CHECK(
        (origin = 0 AND local_state IS NULL) OR
        (origin = 1 AND local_state BETWEEN 0 AND 3)
    )
) STRICT;
".

Definition kCreateMentionsSql : bytes := str "
CREATE TABLE mentions (
    message_id BLOB NOT NULL,
    ordinal INTEGER NOT NULL CHECK(ordinal BETWEEN 0 AND 3),
    mentioned_install_id BLOB NOT NULL
        CHECK(length(mentioned_install_id) = 16),
    PRIMARY KEY(message_id, ordinal),
    UNIQUE(message_id, mentioned_install_id),
    FOREIGN KEY(message_id) REFERENCES posts(message_id) ON DELETE CASCADE
) WITHOUT ROWID, STRICT;
".

Definition kCreateSeenMessagesSql : bytes := str "
CREATE TABLE seen_messages (
    message_id BLOB PRIMARY KEY NOT NULL
        CHECK(length(message_id) = 16),
    protocol_version INTEGER NOT NULL
        CHECK(protocol_version = 1),
    encoded_post BLOB NOT NULL
        CHECK(length(encoded_post) BETWEEN 46 AND 316),
    seen_order BLOB NOT NULL UNIQUE
        CHECK(length(seen_order) = 8
              AND seen_order <> X'0000000000000000')
) WITHOUT ROWID, STRICT;
".

Definition kCreateSchemaSql : bytes := str "
BEGIN IMMEDIATE;
CREATE TABLE meta (
    key TEXT PRIMARY KEY NOT NULL
        CHECK(key IN (
            'install_id', 'last_assigned_order', 'last_seen_order',
            'dedupe_initialized'
        )),
    value BLOB NOT NULL,
    CHECK(
        (key = 'install_id' AND length(value) = 16) OR
        (key IN ('last_assigned_order', 'last_seen_order')
         AND length(value) = 8) OR
        (key = 'dedupe_initialized' AND
         value IN (X'00', X'01'))
    )
) WITHOUT ROWID, STRICT;
CREATE TABLE posts (
    message_id BLOB PRIMARY KEY NOT NULL
        CHECK(length(message_id) = 16),
    sender_id BLOB NOT NULL
        CHECK(length(sender_id) = 16),
    sender_sequence BLOB NOT NULL
        CHECK(length(sender_sequence) = 8
              AND sender_sequence <> X'0000000000000000'),
    sender_user_id TEXT NOT NULL
        CHECK(length(CAST(sender_user_id AS BLOB)) BETWEEN 1 AND 24),
    body TEXT NOT NULL
        CHECK(length(CAST(body AS BLOB)) BETWEEN 1 AND 160),
    reply_to BLOB
        CHECK(reply_to IS NULL OR
              (length(reply_to) = 16 AND reply_to <> message_id)),
    sender_time INTEGER,
    received_order BLOB NOT NULL UNIQUE
        CHECK(length(received_order) = 8
              AND received_order <> X'0000000000000000'),
    origin INTEGER NOT NULL
        CHECK(origin IN (0, 1)),
    local_state INTEGER,
    CHECK(
        (origin = 0 AND local_state IS NULL) OR
        (origin = 1 AND local_state BETWEEN 0 AND 3)
    )
) STRICT;
CREATE TABLE mentions (
    message_id BLOB NOT NULL,
    ordinal INTEGER NOT NULL CHECK(ordinal BETWEEN 0 AND 3),
    mentioned_install_id BLOB NOT NULL
        CHECK(length(mentioned_install_id) = 16),
    PRIMARY KEY(message_id, ordinal),
    UNIQUE(message_id, mentioned_install_id),
    FOREIGN KEY(message_id) REFERENCES posts(message_id) ON DELETE CASCADE
) WITHOUT ROWID, STRICT;
CREATE TABLE seen_messages (
    message_id BLOB PRIMARY KEY NOT NULL
        CHECK(length(message_id) = 16),
    protocol_version INTEGER NOT NULL
        CHECK(protocol_version = 1),
    encoded_post BLOB NOT NULL
        CHECK(length(encoded_post) BETWEEN 46 AND 316),
    seen_order BLOB NOT NULL UNIQUE
        CHECK(length(seen_order) = 8
              AND seen_order <> X'0000000000000000')
) WITHOUT ROWID, STRICT;
PRAGMA application_id = 1280136007;
PRAGMA user_version = 3;
COMMIT;
".

(** ** Definitions: results *)

Definition primary_result_code (result_code : Z) : Z := Z.land result_code 0xff.

Definition is_corrupt_result (result_code : Z) : bool :=
  let primary := primary_result_code result_code in
  (primary =? SQLITE_CORRUPT) || (primary =? SQLITE_NOTADB) || (primary =? SQLITE_FORMAT).

Definition error_for_result (result_code : Z) (fallback : HistoryError) : HistoryError :=
  if is_corrupt_result result_code then HistoryError_CorruptDatabase else fallback.

(** [error != HistoryError::None] *)
Definition is_error (error : HistoryError) : bool :=
  negb (bool_decide (error = HistoryError_None)).

(** ** Definitions: schema texts *)

Definition is_sql_space (value : byte) : bool :=
  bool_decide (value ∈ [x20; x09; x0a; x0d; x0c; x0b]).

Definition is_sql_quote (value : byte) : bool :=
  bool_decide (value ∈ [x27; x22; x60]).

(** The loop of [canonical_schema_sql]; [quote] is the open quote. *)
Fixpoint canonical_loop (quote : option byte) (sql canonical : bytes) : bytes :=
  match sql with
  | [] => canonical
  | value :: sql =>
      match quote with
      | Some q =>
          let canonical := canonical ++ [value] in
          if Byte.eqb value q then
            match sql with
            | next :: rest =>
                if Byte.eqb next q
                then canonical_loop quote rest (canonical ++ [next])
                else canonical_loop None sql canonical
            | [] => canonical_loop None sql canonical
            end
          else canonical_loop quote sql canonical
      | None =>
          if is_sql_quote value then canonical_loop (Some value) sql (canonical ++ [value])
          else if is_sql_space value || Byte.eqb value x3b
          then canonical_loop None sql canonical
          else canonical_loop None sql (canonical ++ [value])
      end
  end.

Definition canonical_schema_sql (sql : bytes) : bytes := canonical_loop None sql [].

Definition sqlite_text_equals (row : SqlRow) (index : nat) (expected : bytes) : bool :=
  is_text (column row index) &&
  bool_decide (column_text (column row index) = Some expected).

(** The flags and the counter of [verify_exact_schema]. *)
Record SchemaScan := mkSchemaScan {
  saw_meta : bool;
  saw_posts : bool;
  saw_mentions : bool;
  saw_seen_messages : bool;
  saw_posts_primary_index : bool;
  saw_posts_order_index : bool;
  saw_mentions_unique_index : bool;
  saw_seen_order_index : bool;
  object_count : nat
}.

Definition empty_scan : SchemaScan :=
  mkSchemaScan false false false false false false false false 0.

Definition count_object (s : SchemaScan) : SchemaScan :=
  mkSchemaScan s.(saw_meta) s.(saw_posts) s.(saw_mentions) s.(saw_seen_messages)
    s.(saw_posts_primary_index) s.(saw_posts_order_index) s.(saw_mentions_unique_index)
    s.(saw_seen_order_index) (S s.(object_count)).

(** One row of [sqlite_schema], an index. *)
Definition scan_index (schema_version : Z) (s : SchemaScan) (row : SqlRow)
    (name table : bytes) : Result SchemaScan HistoryError :=
  if negb (is_null (column row 3)) || negb (column_bytes (column row 3) =? 0)%nat
  then failure HistoryError_InvalidData
  else if bool_decide (name = str "sqlite_autoindex_posts_1") &&
          bool_decide (table = str "posts") && negb s.(saw_posts_primary_index)
  then success (mkSchemaScan s.(saw_meta) s.(saw_posts) s.(saw_mentions) s.(saw_seen_messages)
                  true s.(saw_posts_order_index) s.(saw_mentions_unique_index)
                  s.(saw_seen_order_index) s.(object_count))
  else if bool_decide (name = str "sqlite_autoindex_posts_2") &&
          bool_decide (table = str "posts") && negb s.(saw_posts_order_index)
  then success (mkSchemaScan s.(saw_meta) s.(saw_posts) s.(saw_mentions) s.(saw_seen_messages)
                  s.(saw_posts_primary_index) true s.(saw_mentions_unique_index)
                  s.(saw_seen_order_index) s.(object_count))
  else if (2 <=? schema_version) &&
          bool_decide (name = str "sqlite_autoindex_mentions_2") &&
          bool_decide (table = str "mentions") && negb s.(saw_mentions_unique_index)
  then success (mkSchemaScan s.(saw_meta) s.(saw_posts) s.(saw_mentions) s.(saw_seen_messages)
                  s.(saw_posts_primary_index) s.(saw_posts_order_index) true
                  s.(saw_seen_order_index) s.(object_count))
  else if (schema_version =? 3) &&
          bool_decide (name = str "sqlite_autoindex_seen_messages_2") &&
          bool_decide (table = str "seen_messages") && negb s.(saw_seen_order_index)
  then success (mkSchemaScan s.(saw_meta) s.(saw_posts) s.(saw_mentions) s.(saw_seen_messages)
                  s.(saw_posts_primary_index) s.(saw_posts_order_index)
                  s.(saw_mentions_unique_index) true s.(object_count))
  else failure HistoryError_InvalidData.

(** A table, with the text it was created by. *)
Definition scan_table (schema_version : Z) (s : SchemaScan) (name sql : bytes)
  : Result SchemaScan HistoryError :=
  let stored := canonical_schema_sql sql in
  if bool_decide (name = str "meta") && negb s.(saw_meta) then
    let expected := if schema_version =? 3 then kCreateMetaSql else kCreateMetaV2Sql in
    if negb (bool_decide (stored = canonical_schema_sql expected))
    then failure HistoryError_InvalidData
    else success (mkSchemaScan true s.(saw_posts) s.(saw_mentions) s.(saw_seen_messages)
                    s.(saw_posts_primary_index) s.(saw_posts_order_index)
                    s.(saw_mentions_unique_index) s.(saw_seen_order_index) s.(object_count))
  else if bool_decide (name = str "posts") && negb s.(saw_posts) then
    let expected := if schema_version =? 1 then kCreatePostsV1Sql else kCreatePostsSql in
    if negb (bool_decide (stored = canonical_schema_sql expected))
    then failure HistoryError_InvalidData
    else success (mkSchemaScan s.(saw_meta) true s.(saw_mentions) s.(saw_seen_messages)
                    s.(saw_posts_primary_index) s.(saw_posts_order_index)
                    s.(saw_mentions_unique_index) s.(saw_seen_order_index) s.(object_count))
  else if bool_decide (name = str "mentions") && (2 <=? schema_version) &&
          negb s.(saw_mentions) then
    if negb (bool_decide (stored = canonical_schema_sql kCreateMentionsSql))
    then failure HistoryError_InvalidData
    else success (mkSchemaScan s.(saw_meta) s.(saw_posts) true s.(saw_seen_messages)
                    s.(saw_posts_primary_index) s.(saw_posts_order_index)
                    s.(saw_mentions_unique_index) s.(saw_seen_order_index) s.(object_count))
  else if bool_decide (name = str "seen_messages") && (schema_version =? 3) &&
          negb s.(saw_seen_messages) then
    if negb (bool_decide (stored = canonical_schema_sql kCreateSeenMessagesSql))
    then failure HistoryError_InvalidData
    else success (mkSchemaScan s.(saw_meta) s.(saw_posts) s.(saw_mentions) true
                    s.(saw_posts_primary_index) s.(saw_posts_order_index)
                    s.(saw_mentions_unique_index) s.(saw_seen_order_index) s.(object_count))
  else failure HistoryError_InvalidData.

(** The body of the loop of [verify_exact_schema]. *)
Definition scan_row (schema_version : Z) (s : SchemaScan) (row : SqlRow)
  : Result SchemaScan HistoryError :=
  let s := count_object s in
  if negb (is_text (column row 1)) || negb (is_text (column row 2)) ||
     (negb (is_text (column row 3)) && negb (is_null (column row 3)))
  then failure HistoryError_InvalidData
  else
    match column_text (column row 1), column_text (column row 2) with
    | Some name, Some table =>
        if (column_bytes (column row 1) <=? 0)%nat || (column_bytes (column row 2) <=? 0)%nat
        then failure HistoryError_InvalidData
        else if sqlite_text_equals row 0 (str "index")
        then scan_index schema_version s row name table
        else
          match column_text (column row 3) with
          | Some sql =>
              if negb (sqlite_text_equals row 0 (str "table")) ||
                 (column_bytes (column row 3) <=? 0)%nat || negb (bool_decide (name = table))
              then failure HistoryError_InvalidData
              else scan_table schema_version s name sql
          | None => failure HistoryError_InvalidData
          end
    | _, _ => failure HistoryError_InvalidData
    end.

Fixpoint scan_rows (schema_version : Z) (s : SchemaScan) (rows : list SqlRow)
  : Result SchemaScan HistoryError :=
  match rows with
  | [] => success s
  | row :: rows =>
      match scan_row schema_version s row with
      | failure error => failure error
      | success s => scan_rows schema_version s rows
      end
  end.

(** The conclusion of [verify_exact_schema]. *)
Definition scan_complete (schema_version : Z) (s : SchemaScan) : bool :=
  let expected_count :=
    (if (schema_version =? 1)%Z then 4 else if (schema_version =? 2)%Z then 6 else 8)%nat in
  (s.(object_count) =? expected_count)%nat && s.(saw_meta) && s.(saw_posts) &&
  s.(saw_posts_primary_index) && s.(saw_posts_order_index) &&
  ((schema_version =? 1) || (s.(saw_mentions) && s.(saw_mentions_unique_index))) &&
  (negb (schema_version =? 3) || (s.(saw_seen_messages) && s.(saw_seen_order_index))).

(** ** Definitions: statements and transactions *)

Section Database.
Context {D : Type} `{ISqlite D} `{ISqliteHistoryFailpoint D}.

Definition exec (d : D) (sql : bytes) : Z * D := sqlite3_exec d sql.

Definition prepare (d : D) (sql : bytes) : Z := fst (sqlite3_prepare_v2 d sql).

(** The constructor, [commit] and the destructor of [Transaction]. *)
Definition Transaction_begin (d : D) (begin_sql : bytes) : bool * D :=
  let '(status, d) := exec d begin_sql in (status =? SQLITE_OK, d).

Definition Transaction_commit (d : D) : bool * D :=
  let '(status, d) := exec d (str "COMMIT;") in (status =? SQLITE_OK, d).

Definition Transaction_rollback (d : D) : D := snd (exec d (str "ROLLBACK;")).

(** The end of a function that owns a transaction: an error leaves it to the
    destructor, which rolls back; so does a commit that fails. *)
Definition finish_transaction (result : HistoryError * D) (fallback : HistoryError)
  : HistoryError * D :=
  let '(error, d) := result in
  if is_error error then (error, Transaction_rollback d)
  else
    let '(committed, d) := Transaction_commit d in
    if negb committed
    then (error_for_result (sqlite3_extended_errcode d) fallback, Transaction_rollback d)
    else (HistoryError_None, d).

(** A statement without parameters, prepared and stepped to its end. *)
Definition query (d : D) (sql : bytes) : Result (list SqlRow * Z) Z * D :=
  let status := prepare d sql in
  if negb (status =? SQLITE_OK) then (failure status, d)
  else
    let '(rows, final, d) := sqlite3_steps d sql [] in (success (rows, final), d).

(** The value and the result code; the value is there when the function answers
    [true]. *)
Definition query_value (accepts : SqlValue -> bool) (d : D) (sql : bytes)
  : option SqlValue * Z * D :=
  match query d sql with
  | (failure status, d) => (None, status, d)
  | (success ([], final), d) => (None, final, d)
  | (success (row :: rows, final), d) =>
      if negb (accepts (column row 0)) then (None, SQLITE_ROW, d)
      else
        match rows with
        | _ :: _ => (None, SQLITE_ROW, d)
        | [] =>
            if negb (final =? SQLITE_DONE) then (None, final, d)
            else (Some (column row 0), final, d)
        end
  end.

Definition query_integer (d : D) (sql : bytes) : option Z * Z * D :=
  let '(value, result_code, d) := query_value is_integer d sql in
  (column_int64 <$> value, result_code, d).

Definition query_text (d : D) (sql : bytes) : option bytes * Z * D :=
  let '(value, result_code, d) := query_value is_text d sql in
  (value ≫= column_text, result_code, d).

(** Whether the parameters from [first] on take the values, in order. *)
Fixpoint bind_values (d : D) (sql : bytes) (first : nat) (values : list SqlValue)
  : bool * D :=
  match values with
  | [] => (true, d)
  | value :: values =>
      let '(status, d) := sqlite3_bind d sql first value in
      if negb (status =? SQLITE_OK) then (false, d)
      else bind_values d sql (S first) values
  end.

Definition statement_completed (d : D) (sql : bytes) (parameters : list SqlValue)
  : bool * D :=
  let '(rows, final, d) := sqlite3_steps d sql parameters in
  (match rows with [] => final =? SQLITE_DONE | _ => false end, d).

Definition reset_statement (d : D) (sql : bytes) : bool * D :=
  let '(status, d) := sqlite3_reset d sql in
  if negb (status =? SQLITE_OK) then (false, d)
  else
    let '(status, d) := sqlite3_clear_bindings d sql in
    (status =? SQLITE_OK, d).

(** The texts of a list, executed in order up to the first that fails. *)
Fixpoint exec_all (d : D) (sqls : list bytes) : bool * D :=
  match sqls with
  | [] => (true, d)
  | sql :: sqls =>
      let '(status, d) := exec d sql in
      if negb (status =? SQLITE_OK) then (false, d) else exec_all d sqls
  end.

(** ** Definitions: verification *)

Definition kSelectSchema : bytes :=
  str "SELECT type, name, tbl_name, sql FROM sqlite_schema ORDER BY type, name;".

Definition verify_exact_schema (d : D) (schema_version : Z) : HistoryError * D :=
  match query d kSelectSchema with
  | (failure result_code, d) => (error_for_result result_code HistoryError_InvalidData, d)
  | (success (rows, result_code), d) =>
      match scan_rows schema_version empty_scan rows with
      | failure error => (error, d)
      | success s =>
          if negb (result_code =? SQLITE_DONE)
          then (error_for_result result_code HistoryError_InvalidData, d)
          else (if scan_complete schema_version s
                then HistoryError_None else HistoryError_InvalidData, d)
      end
  end.

Definition run_integrity_checks (d : D) : HistoryError * D :=
  match query_text d (str "PRAGMA integrity_check(1);") with
  | (None, result_code, d) => (error_for_result result_code HistoryError_ReadFailed, d)
  | (Some integrity, _, d) =>
      if negb (bool_decide (integrity = str "ok")) then (HistoryError_CorruptDatabase, d)
      else
        match query d (str "PRAGMA foreign_key_check;") with
        | (failure result_code, d) => (error_for_result result_code HistoryError_ReadFailed, d)
        | (success (_ :: _, _), d) => (HistoryError_InvalidData, d)
        | (success ([], result_code), d) =>
            (if result_code =? SQLITE_DONE then HistoryError_None
             else error_for_result result_code HistoryError_ReadFailed, d)
        end
  end.

Definition kProbeV1Sql : bytes :=
  str "SELECT m.key, m.value FROM meta AS m LIMIT 0;SELECT p.message_id, p.sender_id, p.sender_sequence, p.sender_user_id, p.body, p.reply_to, p.received_order, p.origin, p.local_state FROM posts AS p LIMIT 0;".

Definition kProbeSql : bytes :=
  str "SELECT m.key, m.value FROM meta AS m LIMIT 0;SELECT p.message_id, p.sender_id, p.sender_sequence, p.sender_user_id, p.body, p.reply_to, p.sender_time, p.received_order, p.origin, p.local_state FROM posts AS p LIMIT 0;SELECT n.message_id, n.ordinal, n.mentioned_install_id FROM mentions AS n LIMIT 0;".

Definition kProbeSeenSql : bytes :=
  str "SELECT s.message_id, s.protocol_version, s.encoded_post, s.seen_order FROM seen_messages AS s LIMIT 0;".

(** The loop that prepares the statements of a text one after the other; every
    turn consumes at least a byte, so [length sql] turns are enough. *)
Fixpoint probe_loop (fuel : nat) (d : D) (sql : bytes) : HistoryError :=
  match sql, fuel with
  | [], _ => HistoryError_None
  | _, O => HistoryError_None
  | _, S fuel =>
      let '(result_code, consumed) := sqlite3_prepare_v2 d sql in
      if negb (result_code =? SQLITE_OK) || (consumed =? 0)%nat
      then error_for_result result_code HistoryError_InvalidData
      else probe_loop fuel d (drop consumed sql)
  end.

Definition probe_statements (d : D) (sql : bytes) : HistoryError :=
  probe_loop (length sql) d sql.

Definition strict_sql (schema_version : Z) : bytes :=
  if schema_version =? 3
  then str "SELECT name, strict FROM pragma_table_list WHERE schema = 'main' AND name IN ('meta', 'posts', 'mentions', 'seen_messages') ORDER BY name;"
  else str "SELECT name, strict FROM pragma_table_list WHERE schema = 'main' AND name IN ('meta', 'posts', 'mentions') ORDER BY name;".

(** The body of the loop over [pragma_table_list]. *)
Definition is_strict_row (row : SqlRow) : bool :=
  is_text (column row 0) && is_integer (column row 1) && (column_int (column row 1) =? 1).

Definition kCountTables : bytes :=
  str "SELECT count(*) FROM sqlite_schema WHERE type='table';".

Definition verify_strict_tables (d : D) (schema_version : Z) : HistoryError * D :=
  match query d (strict_sql schema_version) with
  | (failure result_code, d) => (error_for_result result_code HistoryError_InvalidData, d)
  | (success (rows, result_code), d) =>
      if negb (forallb is_strict_row rows) then (HistoryError_InvalidData, d)
      else if negb (result_code =? SQLITE_DONE)
      then (error_for_result result_code HistoryError_InvalidData, d)
      else
        let expected_table_count := (if (schema_version =? 3)%Z then 4 else 3)%nat in
        if negb (length rows =? expected_table_count)%nat then (HistoryError_InvalidData, d)
        else
          match query_integer d kCountTables with
          | (None, result_code, d) =>
              (error_for_result result_code HistoryError_InvalidData, d)
          | (Some all_table_count, _, d) =>
              (if all_table_count =? Z.of_nat expected_table_count
               then HistoryError_None else HistoryError_InvalidData, d)
          end
  end.

Definition verify_v2_or_v3_schema (d : D) (schema_version : Z) : HistoryError * D :=
  if negb (schema_version =? 2) && negb (schema_version =? 3)
  then (HistoryError_InvalidData, d)
  else
    let '(exact, d) := verify_exact_schema d schema_version in
    if is_error exact then (exact, d)
    else
      let probe := probe_statements d kProbeSql in
      if is_error probe then (probe, d)
      else
        let seen := if schema_version =? 3 then prepare d kProbeSeenSql else SQLITE_OK in
        if negb (seen =? SQLITE_OK) then (error_for_result seen HistoryError_InvalidData, d)
        else verify_strict_tables d schema_version.

Definition verify_v2_schema (d : D) : HistoryError * D := verify_v2_or_v3_schema d 2.

Definition verify_v3_schema (d : D) : HistoryError * D := verify_v2_or_v3_schema d 3.

Definition kCountStrictV1 : bytes :=
  str "SELECT count(*) FROM pragma_table_list WHERE schema='main' AND name IN ('meta','posts') AND strict=1;".

Definition verify_v1_schema (d : D) : HistoryError * D :=
  let '(exact, d) := verify_exact_schema d 1 in
  if is_error exact then (exact, d)
  else
    let probe := probe_statements d kProbeV1Sql in
    if is_error probe then (probe, d)
    else
      match query_integer d kCountStrictV1 with
      | (None, result_code, d) => (error_for_result result_code HistoryError_InvalidData, d)
      | (Some strict_table_count, _, d) =>
          match query_integer d kCountTables with
          | (None, result_code, d) =>
              (error_for_result result_code HistoryError_InvalidData, d)
          | (Some all_table_count, _, d) =>
              (if (strict_table_count =? 2) && (all_table_count =? 2)
               then HistoryError_None else HistoryError_InvalidData, d)
          end
      end.

(** ** Definitions: migrations *)

Definition kRenamePosts : bytes := str "ALTER TABLE posts RENAME TO posts_v1;".
Definition kCopyPosts : bytes :=
  str "INSERT INTO posts( message_id, sender_id, sender_sequence, sender_user_id, body, reply_to, sender_time, received_order, origin, local_state) SELECT message_id, sender_id, sender_sequence, sender_user_id, body, reply_to, NULL, received_order, origin, local_state FROM posts_v1;".
Definition kDropPosts : bytes := str "DROP TABLE posts_v1;".
Definition kUserVersion2 : bytes := str "PRAGMA user_version = 2;".

Definition kRenameMeta : bytes := str "ALTER TABLE meta RENAME TO meta_v2;".
Definition kCopyMeta : bytes :=
  str "INSERT INTO meta(key, value) SELECT key, value FROM meta_v2;".
Definition kInsertLastSeen : bytes :=
  str "INSERT INTO meta(key, value) VALUES('last_seen_order', X'0000000000000000');".
Definition kInsertDedupe : bytes :=
  str "INSERT INTO meta(key, value) VALUES('dedupe_initialized', X'00');".
Definition kDropMeta : bytes := str "DROP TABLE meta_v2;".
Definition kUserVersion3 : bytes := str "PRAGMA user_version = 3;".

Definition kBeginImmediate : bytes := str "BEGIN IMMEDIATE;".
Definition kBegin : bytes := str "BEGIN;".

(** [failpoint != nullptr && failpoint->should_fail(point)] *)
Definition fails_at (failpoint : bool) (d : D) (point : SqliteHistoryWritePoint) : bool * D :=
  if failpoint then history_should_fail d point else (false, d).

Definition errcode_or (d : D) (fallback : HistoryError) : HistoryError * D :=
  (error_for_result (sqlite3_extended_errcode d) fallback, d).

Definition migrate_v1_to_v2_body (failpoint : bool) (d : D) : HistoryError * D :=
  let '(renamed, d) := exec_all d [kRenamePosts] in
  if negb renamed then errcode_or d HistoryError_MigrationFailed
  else
    let '(fails, d) := fails_at failpoint d Point_MigrationPostsRenamed in
    if fails then (HistoryError_MigrationFailed, d)
    else
      let '(moved, d) :=
        exec_all d [kCreatePostsSql; kCopyPosts; kDropPosts; kCreateMentionsSql;
                    kUserVersion2] in
      if negb moved then errcode_or d HistoryError_MigrationFailed
      else (HistoryError_None, d).

Definition migrate_v1_to_v2 (failpoint : bool) (d : D) : HistoryError * D :=
  let '(started, d) := Transaction_begin d kBeginImmediate in
  if negb started then errcode_or d HistoryError_MigrationFailed
  else finish_transaction (migrate_v1_to_v2_body failpoint d) HistoryError_MigrationFailed.

Definition migrate_v2_to_v3_body (failpoint : bool) (d : D) : HistoryError * D :=
  let '(moved, d) :=
    exec_all d [kRenameMeta; kCreateMetaSql; kCopyMeta; kInsertLastSeen; kInsertDedupe;
                kDropMeta; kCreateSeenMessagesSql] in
  if negb moved then errcode_or d HistoryError_MigrationFailed
  else
    let '(fails, d) := fails_at failpoint d Point_MigrationSeenTableCreated in
    if fails then (HistoryError_MigrationFailed, d)
    else
      let '(stamped, d) := exec_all d [kUserVersion3] in
      if negb stamped then errcode_or d HistoryError_MigrationFailed
      else (HistoryError_None, d).

Definition migrate_v2_to_v3 (failpoint : bool) (d : D) : HistoryError * D :=
  let '(started, d) := Transaction_begin d kBeginImmediate in
  if negb started then errcode_or d HistoryError_MigrationFailed
  else finish_transaction (migrate_v2_to_v3_body failpoint d) HistoryError_MigrationFailed.

(** ** Definitions: configuration *)

Definition kBusyTimeoutMilliseconds : Z := 5000.

Definition configure_connection (d : D) : HistoryError * D :=
  let d := sqlite3_extended_result_codes d true in
  let '(status, d) := sqlite3_busy_timeout d kBusyTimeoutMilliseconds in
  if negb (status =? SQLITE_OK) then (HistoryError_ConfigureFailed, d)
  else
    let '(status, enabled, d) := sqlite3_db_config_defensive d 1 in
    if negb (status =? SQLITE_OK) || negb (enabled =? 1)
    then errcode_or d HistoryError_ConfigureFailed
    else
      let '(set, d) := exec_all d [str "PRAGMA trusted_schema = OFF;";
                                   str "PRAGMA foreign_keys = ON;"] in
      if negb set then errcode_or d HistoryError_ConfigureFailed
      else (HistoryError_None, d).

Definition kApplicationId : bytes := str "PRAGMA application_id;".
Definition kUserVersion : bytes := str "PRAGMA user_version;".
Definition kCountObjects : bytes := str "SELECT count(*) FROM sqlite_schema;".

(** The queries of a list of integers, in order up to the first that fails. *)
Fixpoint query_integers (d : D) (sqls : list bytes) : Result (list Z) Z * D :=
  match sqls with
  | [] => (success [], d)
  | sql :: sqls =>
      match query_integer d sql with
      | (None, result_code, d) => (failure result_code, d)
      | (Some value, _, d) =>
          match query_integers d sqls with
          | (failure result_code, d) => (failure result_code, d)
          | (success values, d) => (success (value :: values), d)
          end
      end
  end.

(** The application, the version and the number of objects. *)
Definition read_database_header (d : D) : Result (Z * Z * Z) HistoryError * D :=
  match query_integers d [kApplicationId; kUserVersion; kCountObjects] with
  | (success [application_id; user_version; table_count], d) =>
      (success (application_id, user_version, table_count), d)
  | (success _, d) => (failure HistoryError_ConfigureFailed, d)
  | (failure result_code, d) =>
      (failure (error_for_result result_code HistoryError_ConfigureFailed), d)
  end.

Definition is_new_database (application_id user_version table_count : Z) : bool :=
  (application_id =? 0) && (user_version =? 0) && (table_count =? 0).

Definition validate_existing_database (d : D) : HistoryError * D :=
  match read_database_header d with
  | (failure header, d) => (header, d)
  | (success (application_id, user_version, table_count), d) =>
      if is_new_database application_id user_version table_count ||
         negb (application_id =? kHistoryApplicationId)
      then (HistoryError_WrongApplication, d)
      else if (user_version <? 1) || (kHistorySchemaVersion <? user_version)
      then (HistoryError_UnsupportedSchema, d)
      else
        let '(integrity, d) := run_integrity_checks d in
        if is_error integrity then (integrity, d)
        else if user_version =? 1 then verify_v1_schema d
        else if user_version =? 2 then verify_v2_schema d
        else verify_v3_schema d
  end.

(** The part of [configure_database] that creates or validates. *)
Definition create_or_validate (d : D) (is_new : bool) : HistoryError * D :=
  if is_new then
    let '(status, d) := exec d kCreateSchemaSql in
    if negb (status =? SQLITE_OK)
    then errcode_or (Transaction_rollback d) HistoryError_WriteFailed
    else (HistoryError_None, d)
  else validate_existing_database d.

(** The part that migrates. *)
Definition migrate_database (failpoint : bool) (d : D) (is_new : bool) (user_version : Z)
  : HistoryError * D :=
  let '(migration, user_version, d) :=
    if negb is_new && (user_version =? 1) then
      let '(migration, d) := migrate_v1_to_v2 failpoint d in
      (migration, if is_error migration then user_version else 2, d)
    else (HistoryError_None, user_version, d) in
  if is_error migration then (migration, d)
  else if negb is_new && (user_version =? 2) then migrate_v2_to_v3 failpoint d
  else (HistoryError_None, d).

(** The part that turns write-ahead logging on and reads the settings back. *)
Definition configure_journal (d : D) : HistoryError * D :=
  match query_text d (str "PRAGMA journal_mode = WAL;") with
  | (None, result_code, d) => (error_for_result result_code HistoryError_ConfigureFailed, d)
  | (Some journal_mode, result_code, d) =>
      if negb (bool_decide (journal_mode = str "wal"))
      then (error_for_result result_code HistoryError_ConfigureFailed, d)
      else
        let '(status, d) := exec d (str "PRAGMA synchronous = FULL;") in
        if negb (status =? SQLITE_OK)
        then (error_for_result result_code HistoryError_ConfigureFailed, d)
        else
          match query_integers d [str "PRAGMA foreign_keys;"; str "PRAGMA synchronous;";
                                  str "PRAGMA trusted_schema;"] with
          | (failure result_code, d) =>
              (error_for_result result_code HistoryError_ConfigureFailed, d)
          | (success values, d) =>
              (if bool_decide (values = [1; 2; 0])
               then HistoryError_None else HistoryError_ConfigureFailed, d)
          end
  end.

Definition configure_database (failpoint enable_wal : bool) (d : D) : HistoryError * D :=
  let '(connection, d) := configure_connection d in
  if is_error connection then (connection, d)
  else
    match read_database_header d with
    | (failure header, d) => (header, d)
    | (success (application_id, user_version, table_count), d) =>
        let is_new := is_new_database application_id user_version table_count in
        let '(existing, d) := create_or_validate d is_new in
        if is_error existing then (existing, d)
        else
          let '(migration, d) := migrate_database failpoint d is_new user_version in
          if is_error migration then (migration, d)
          else
            let '(schema, d) := verify_v3_schema d in
            if is_error schema then (schema, d)
            else
              let '(integrity, d) := run_integrity_checks d in
              if is_error integrity then (integrity, d)
              else if negb enable_wal then (HistoryError_None, d)
              else configure_journal d
    end.

Definition operation_preflight (d : D) : HistoryError * D :=
  match query_integers d [kApplicationId; kUserVersion] with
  | (success [application_id; user_version], d) =>
      if negb (application_id =? kHistoryApplicationId)
      then (HistoryError_WrongApplication, d)
      else if negb (user_version =? kHistorySchemaVersion)
      then (HistoryError_UnsupportedSchema, d)
      else
        let '(schema, d) := verify_v3_schema d in
        if is_error schema then (schema, d) else run_integrity_checks d
  | (success _, d) => (HistoryError_ReadFailed, d)
  | (failure result_code, d) => (error_for_result result_code HistoryError_ReadFailed, d)
  end.

(** ** The fuel of the probe *)

(** More fuel than the text has bytes changes nothing. *)
Lemma probe_loop_fuel d sql fuel :
  (length sql <= fuel)%nat -> probe_loop fuel d sql = probe_statements d sql.
Proof.
  unfold probe_statements.
  assert (forall n m sql, (length sql <= n)%nat -> (length sql <= m)%nat ->
    probe_loop n d sql = probe_loop m d sql) as Henough; [|auto].
  clear. induction n as [|n IH]; intros m [|c sql] Hn Hm; cbn [length] in *; try lia;
    [by destruct m..|].
  destruct m as [|m]; [lia|]. cbn [probe_loop].
  destruct (sqlite3_prepare_v2 d (c :: sql)) as [result_code consumed].
  destruct (Nat.eqb_spec consumed 0); [by rewrite !orb_true_r|].
  destruct (negb _); [done|]. cbn [orb].
  apply IH; rewrite length_drop; cbn [length]; lia.
Qed.
End Database.
