(* ===== verification/HistoryStore.v ===== *)
(** * HistoryStore: the snapshots of the history database

    The second half of src/adapters/storage/sqlite_history_store.cpp: the values
    of rows, the validation of a snapshot, what a save writes and what a load
    accepts, and the operations of [SqliteHistoryStore] on an open database. *)
From S2P Require Import Prelude Text Uuid Identity Post Timeline Limits PostCodec DedupeWindow HistoryRecord HistorySchema.

(** ** Definitions: values of rows *)

(** The loop of [encode_uint64], from the last byte to the first. *)
Fixpoint encode_uint64_loop (index : nat) (value : Z) (encoded : bytes) : bytes :=
  match index with
  | O => encoded
  | S previous =>
      encode_uint64_loop previous (Z.shiftr value 8)
        (<[previous := to_u8 (Z.land value 0xff)]> encoded)
  end.

Definition encode_uint64 (value : Z) : bytes :=
  encode_uint64_loop 8 value (replicate 8 x00).

Definition decode_uint64 (v : SqlValue) : option Z :=
  if negb (is_blob v) || negb (column_bytes v =? 8)%nat then None
  else
    bytes ← column_blob v;
    Some (foldl (fun value b => Z.lor (u64 (Z.shiftl value 8)) (bval b)) 0 bytes).

Definition read_uuid (v : SqlValue) : option Uuid :=
  if negb (is_blob v) || negb (column_bytes v =? 16)%nat then None
  else Uuid_from_bytes <$> column_blob v.

Definition read_text (v : SqlValue) (maximum_bytes : nat) : option bytes :=
  if negb (is_text v) then None
  else
    text ← column_text v;
    if (length text =? 0)%nat || (maximum_bytes <? length text)%nat ||
       bool_decide (x00 ∈ text)
    then None else Some text.

(** ** Definitions: metadata *)

Record StoredMetadata := mkStoredMetadata {
  metadata_initialized : bool;
  metadata_dedupe_initialized : bool;
  metadata_install_id : bytes;
  metadata_last_assigned_order : Z;
  metadata_last_seen_order : Z
}.

Definition empty_metadata : StoredMetadata :=
  mkStoredMetadata false false (replicate 16 x00) 0 0.

(** The metadata read so far, and the keys seen. *)
Record MetadataScan := mkMetadataScan {
  scan_metadata : StoredMetadata;
  saw_install_id : bool;
  saw_last_order : bool;
  saw_last_seen_order : bool;
  saw_dedupe_initialized : bool;
  row_count : nat
}.

Definition start_metadata : MetadataScan :=
  mkMetadataScan empty_metadata false false false false 0.

(** The body of the loop of [load_metadata]. *)
Definition metadata_row (s : MetadataScan) (row : SqlRow) : Result MetadataScan HistoryError :=
  let m := s.(scan_metadata) in
  let count := S s.(row_count) in
  let value := column row 1 in
  if (4 <? count)%nat || negb (is_text (column row 0)) || negb (is_blob value)
  then failure HistoryError_InvalidData
  else
    match column_text (column row 0) with
    | None | Some [] => failure HistoryError_InvalidData
    | Some key =>
        if bool_decide (key = str "dedupe_initialized") then
          if s.(saw_dedupe_initialized) || negb (column_bytes value =? 1)%nat
          then failure HistoryError_InvalidData
          else
            match column_blob value with
            | Some (flag :: _) =>
                if negb (Byte.eqb flag x00) && negb (Byte.eqb flag x01)
                then failure HistoryError_InvalidData
                else
                  success (mkMetadataScan
                    (mkStoredMetadata m.(metadata_initialized) (Byte.eqb flag x01)
                       m.(metadata_install_id) m.(metadata_last_assigned_order)
                       m.(metadata_last_seen_order))
                    s.(saw_install_id) s.(saw_last_order) s.(saw_last_seen_order) true count)
            | _ => failure HistoryError_InvalidData
            end
        else if bool_decide (key = str "install_id") then
          if s.(saw_install_id) || negb (column_bytes value =? 16)%nat
          then failure HistoryError_InvalidData
          else
            match column_blob value with
            | Some bytes =>
                success (mkMetadataScan
                  (mkStoredMetadata m.(metadata_initialized) m.(metadata_dedupe_initialized)
                     bytes m.(metadata_last_assigned_order) m.(metadata_last_seen_order))
                  true s.(saw_last_order) s.(saw_last_seen_order)
                  s.(saw_dedupe_initialized) count)
            | None => failure HistoryError_InvalidData
            end
        else if bool_decide (key = str "last_assigned_order") then
          match s.(saw_last_order), decode_uint64 value with
          | false, Some order =>
              success (mkMetadataScan
                (mkStoredMetadata m.(metadata_initialized) m.(metadata_dedupe_initialized)
                   m.(metadata_install_id) order m.(metadata_last_seen_order))
                s.(saw_install_id) true s.(saw_last_seen_order)
                s.(saw_dedupe_initialized) count)
          | _, _ => failure HistoryError_InvalidData
          end
        else if bool_decide (key = str "last_seen_order") then
          match s.(saw_last_seen_order), decode_uint64 value with
          | false, Some order =>
              success (mkMetadataScan
                (mkStoredMetadata m.(metadata_initialized) m.(metadata_dedupe_initialized)
                   m.(metadata_install_id) m.(metadata_last_assigned_order) order)
                s.(saw_install_id) s.(saw_last_order) true
                s.(saw_dedupe_initialized) count)
          | _, _ => failure HistoryError_InvalidData
          end
        else failure HistoryError_InvalidData
    end.

Fixpoint metadata_rows (s : MetadataScan) (rows : list SqlRow)
  : Result MetadataScan HistoryError :=
  match rows with
  | [] => success s
  | row :: rows =>
      match metadata_row s row with
      | failure error => failure error
      | success s => metadata_rows s rows
      end
  end.

Definition metadata_complete (s : MetadataScan) : bool :=
  s.(saw_dedupe_initialized) && s.(saw_install_id) && s.(saw_last_order) &&
  s.(saw_last_seen_order) && (s.(row_count) =? 4)%nat.

Definition set_initialized (m : StoredMetadata) : StoredMetadata :=
  mkStoredMetadata true m.(metadata_dedupe_initialized) m.(metadata_install_id)
    m.(metadata_last_assigned_order) m.(metadata_last_seen_order).

Definition identity_matches (metadata : StoredMetadata) (identity : Identity) : bool :=
  bool_decide (metadata.(metadata_install_id) =
               identity.(Identity_install_id).(InstallId_uuid).(Uuid_bytes)).

(** ** Definitions: snapshots *)

(** The variables of the loop of [validate_snapshot]. *)
Record SnapshotScan := mkSnapshotScan {
  scan_message_ids : list MessageId;
  scan_received_orders : list Z;
  scan_maximum_order : Z;
  scan_previous_order : Z;
  scan_previous_local_sequence : Z;
  scan_queued_local_count : nat
}.

Definition start_snapshot_scan : SnapshotScan := mkSnapshotScan [] [] 0 0 0 0.

(** Its body; [None] is the return of [InvalidSnapshot]. *)
Definition validate_entry (identity : Identity) (dedupe : MessageDedupeWindow)
    (s : SnapshotScan) (entry : TimelineEntry) : option SnapshotScan :=
  let order := entry.(received_order) in
  let post := entry.(entry_post) in
  if (order =? 0) || (order <=? s.(scan_previous_order)) ||
     bool_decide (post.(message_id) ∈ s.(scan_message_ids)) ||
     bool_decide (order ∈ s.(scan_received_orders))
  then None
  else
    let maximum_order := Z.max s.(scan_maximum_order) order in
    let local := match entry.(entry_origin) with LocalDelivery state => Some state | _ => None end in
    if match local with
       | Some _ =>
           negb (bool_decide (post.(sender_id) = identity.(Identity_install_id))) ||
           (identity.(last_issued_sender_sequence) <? post.(sender_sequence)) ||
           (post.(sender_sequence) <=? s.(scan_previous_local_sequence))
       | None => false
       end
    then None
    else
      let previous_local_sequence :=
        if local is Some _ then post.(sender_sequence) else s.(scan_previous_local_sequence) in
      let queued :=
        if local is Some Delivery_Queued then S s.(scan_queued_local_count)
        else s.(scan_queued_local_count) in
      if (if local is Some Delivery_Queued then (kMaxQueuedLocalPosts <? queued)%nat else false)
      then None
      else
        match encode_post post with
        | failure _ => None
        | success encoded =>
            match classify dedupe post.(message_id) encoded with
            | DedupeClassification_Duplicate =>
                Some (mkSnapshotScan (post.(message_id) :: s.(scan_message_ids))
                  (order :: s.(scan_received_orders)) maximum_order order
                  previous_local_sequence queued)
            | _ => None
            end
        end.

Fixpoint validate_entries (identity : Identity) (dedupe : MessageDedupeWindow)
    (s : SnapshotScan) (entries : list TimelineEntry) : option SnapshotScan :=
  match entries with
  | [] => Some s
  | entry :: entries =>
      match validate_entry identity dedupe s entry with
      | None => None
      | Some s => validate_entries identity dedupe s entries
      end
  end.

Definition validate_snapshot (snapshot : HistorySnapshot) (identity : Identity)
  : HistoryError :=
  if (kMaxTimelineEntries <? length snapshot.(snapshot_entries))%nat
  then HistoryError_InvalidSnapshot
  else
    match Window_restore kDefaultSeenMessageCapacity snapshot.(snapshot_last_seen_order)
            snapshot.(snapshot_seen_messages) with
    | failure _ => HistoryError_InvalidSnapshot
    | success dedupe =>
        match validate_entries identity dedupe start_snapshot_scan
                snapshot.(snapshot_entries) with
        | None => HistoryError_InvalidSnapshot
        | Some s =>
            if s.(scan_maximum_order) <=? snapshot.(snapshot_last_assigned_order)
            then HistoryError_None else HistoryError_InvalidSnapshot
        end
    end.

(** The second loop of [reconcile_snapshot_dedupe]. *)
Fixpoint reconcile_entries (protected_message_ids : list MessageId)
    (dedupe : MessageDedupeWindow) (entries : list TimelineEntry)
  : option MessageDedupeWindow :=
  match entries with
  | [] => Some dedupe
  | entry :: entries =>
      let post := entry.(entry_post) in
      match encode_post post with
      | failure _ => None
      | success encoded =>
          match classify dedupe post.(message_id) encoded with
          | DedupeClassification_Conflict | DedupeClassification_Invalid => None
          | DedupeClassification_New =>
              let '(error, dedupe) := remember dedupe post encoded protected_message_ids in
              if negb (bool_decide (error = DedupeError_None)) then None
              else reconcile_entries protected_message_ids dedupe entries
          | DedupeClassification_Duplicate =>
              reconcile_entries protected_message_ids dedupe entries
          end
      end
  end.

Definition reconcile_snapshot_dedupe (snapshot : HistorySnapshot)
  : Result HistorySnapshot HistoryError :=
  match Window_restore kDefaultSeenMessageCapacity snapshot.(snapshot_last_seen_order)
          snapshot.(snapshot_seen_messages) with
  | failure _ => failure HistoryError_InvalidSnapshot
  | success dedupe =>
      let protected_message_ids :=
        map (fun entry => entry.(entry_post).(message_id)) snapshot.(snapshot_entries) in
      match reconcile_entries protected_message_ids dedupe snapshot.(snapshot_entries) with
      | None => failure HistoryError_InvalidSnapshot
      | Some dedupe =>
          success (mkHistorySnapshot snapshot.(snapshot_entries)
            snapshot.(snapshot_last_assigned_order) dedupe.(records)
            dedupe.(last_seen_order))
      end
  end.

(** ** Definitions: the rows of a snapshot *)

Definition bind_uuid (u : Uuid) : SqlValue := Sql_Blob u.(Uuid_bytes).

Definition bind_uint64 (value : Z) : SqlValue := Sql_Blob (encode_uint64 value).

(** [static_cast<int>(local->state)] *)
Definition local_state_value (state : LocalDeliveryState) : Z :=
  match state with
  | Delivery_Queued => 0
  | Delivery_Broadcast => 1
  | Delivery_Failed => 2
  | Delivery_Unknown => 3
  end.

(** [static_cast<LocalDeliveryState>(local_state)], after the check of its range. *)
Definition local_state_of (value : Z) : option LocalDeliveryState :=
  if value =? 0 then Some Delivery_Queued
  else if value =? 1 then Some Delivery_Broadcast
  else if value =? 2 then Some Delivery_Failed
  else if value =? 3 then Some Delivery_Unknown
  else None.

Definition optional_value {A} (f : A -> SqlValue) (o : option A) : SqlValue :=
  match o with Some a => f a | None => Sql_Null end.

(** What the parameters of [insert_post] are bound to. *)
Definition post_parameters (entry : TimelineEntry) : list SqlValue :=
  let post := entry.(entry_post) in
  [ bind_uuid post.(message_id).(MessageId_uuid);
    bind_uuid post.(sender_id).(InstallId_uuid);
    bind_uint64 post.(sender_sequence);
    Sql_Text post.(sender_user_id).(UserId_value);
    Sql_Text post.(body).(PostBody_value);
    optional_value (fun reply => bind_uuid reply.(MessageId_uuid)) post.(reply_to);
    optional_value Sql_Integer post.(sender_time);
    bind_uint64 entry.(received_order);
    Sql_Integer (match entry.(entry_origin) with LocalDelivery _ => 1 | ReceivedOrigin => 0 end);
    match entry.(entry_origin) with
    | LocalDelivery state => Sql_Integer (local_state_value state)
    | ReceivedOrigin => Sql_Null
    end ].

Definition mention_parameters (message_id : MessageId) (index : nat) (mention : InstallId)
  : list SqlValue :=
  [ bind_uuid message_id.(MessageId_uuid); Sql_Integer (Z.of_nat index);
    bind_uuid mention.(InstallId_uuid) ].

Definition seen_parameters (record : SeenMessageRecord) : list SqlValue :=
  [ bind_uuid record.(seen_message_id).(MessageId_uuid); Sql_Blob record.(encoded_post);
    bind_uint64 record.(seen_order) ].

(** The four rows of [meta], in the order they are inserted. *)
Definition meta_parameters (snapshot : HistorySnapshot) (identity : Identity)
  : list (list SqlValue) :=
  [ [Sql_Text (str "install_id"); bind_uuid identity.(Identity_install_id).(InstallId_uuid)];
    [Sql_Text (str "last_assigned_order"); bind_uint64 snapshot.(snapshot_last_assigned_order)];
    [Sql_Text (str "last_seen_order"); bind_uint64 snapshot.(snapshot_last_seen_order)];
    [Sql_Text (str "dedupe_initialized"); Sql_Blob [x01]] ].

(** ** Definitions: reading rows back *)

(** One row of [mentions]. *)
Definition mention_row (mention_ids : list Uuid) (row : SqlRow) : option (list Uuid) :=
  if (kMaxMentions <=? length mention_ids)%nat || negb (is_integer (column row 0)) ||
     negb (column_int64 (column row 0) =? Z.of_nat (length mention_ids))
  then None
  else
    mention ← read_uuid (column row 1);
    Some (mention_ids ++ [mention]).

Fixpoint mention_rows (mention_ids : list Uuid) (rows : list SqlRow) : option (list Uuid) :=
  match rows with
  | [] => Some mention_ids
  | row :: rows =>
      match mention_row mention_ids row with
      | None => None
      | Some mention_ids => mention_rows mention_ids rows
      end
  end.

(** The columns of [posts] that must be there. *)
Record PostRow := mkPostRow {
  row_message_id : Uuid;
  row_sender_id : Uuid;
  row_sender_sequence : Z;
  row_sender_user_id : bytes;
  row_body : bytes;
  row_received_order : Z
}.

Definition read_post_row (metadata : StoredMetadata) (seen_orders : list Z) (row : SqlRow)
  : option PostRow :=
  message_id ← read_uuid (column row 0);
  sender_id ← read_uuid (column row 1);
  sender_sequence ← decode_uint64 (column row 2);
  if sender_sequence =? 0 then None
  else
    sender_user_id ← read_text (column row 3) kMaxUserIdBytes;
    body ← read_text (column row 4) kMaxPostBodyBytes;
    order ← decode_uint64 (column row 7);
    if (order =? 0) || bool_decide (order ∈ seen_orders) ||
       (metadata.(metadata_last_assigned_order) <? order)
    then None
    else Some (mkPostRow message_id sender_id sender_sequence sender_user_id body order).

Definition read_reply (v : SqlValue) : option (option Uuid) :=
  if is_blob v then Some <$> read_uuid v
  else if is_null v then Some None else None.

Definition read_time (v : SqlValue) : option (option Z) :=
  if is_integer v then Some (Some (column_int64 v))
  else if is_null v then Some None else None.

(** The origin, and the greatest sequence of a local post so far. *)
Definition read_origin (identity : Identity) (previous_local_sequence : Z)
    (post : PostPayload) (row : SqlRow) : option (EntryOrigin * Z) :=
  if negb (is_integer (column row 8)) then None
  else
    let origin_value := column_int (column row 8) in
    if origin_value =? 0 then
      if negb (is_null (column row 9)) then None
      else Some (ReceivedOrigin, previous_local_sequence)
    else if origin_value =? 1 then
      if negb (is_integer (column row 9)) then None
      else
        match local_state_of (column_int (column row 9)) with
        | None => None
        | Some state =>
            if negb (bool_decide (post.(sender_id) = identity.(Identity_install_id))) ||
               (identity.(last_issued_sender_sequence) <? post.(sender_sequence)) ||
               (post.(sender_sequence) <=? previous_local_sequence)
            then None
            else Some (LocalDelivery state, post.(sender_sequence))
        end
    else None.

Definition post_input (r : PostRow) (mention_ids : list Uuid) (reply : option Uuid)
    (time : option Z) : PostPayloadInput :=
  mkPostPayloadInput r.(row_message_id) r.(row_sender_id) r.(row_sender_sequence)
    r.(row_sender_user_id) r.(row_body) mention_ids reply time.

(** The variables of the loop over [posts]. *)
Record PostScan := mkPostScan {
  read_entries : list TimelineEntry;
  read_orders : list Z;
  read_previous_local : Z
}.

Definition start_post_scan : PostScan := mkPostScan [] [] 0.

(** The part of the loop's body after the mentions have been read. *)
Definition finish_entry (identity : Identity) (s : PostScan) (row : SqlRow) (r : PostRow)
    (reply : option Uuid) (time : option Z) (mention_ids : list Uuid) : option PostScan :=
  match PostPayload_create (post_input r mention_ids reply time) with
  | failure _ => None
  | success post =>
      match read_origin identity s.(read_previous_local) post row with
      | None => None
      | Some (origin, previous_local_sequence) =>
          Some (mkPostScan
            (s.(read_entries) ++ [mkTimelineEntry post r.(row_received_order) origin])
            (r.(row_received_order) :: s.(read_orders)) previous_local_sequence)
      end
  end.

(** One row of [seen_messages]. *)
Definition seen_row (metadata : StoredMetadata)
    (s : list SeenMessageRecord * Z) (row : SqlRow) : option (list SeenMessageRecord * Z) :=
  let '(seen_messages, previous_seen_order) := s in
  if (kDefaultSeenMessageCapacity <=? length seen_messages)%nat ||
     negb (is_integer (column row 1)) || negb (column_int64 (column row 1) =? 1) ||
     negb (is_blob (column row 2))
  then None
  else
    raw_message_id ← read_uuid (column row 0);
    let encoded_size := column_bytes (column row 2) in
    if (encoded_size <? kMinimumEncodedPostBytes)%nat ||
       (kMaximumEncodedPostBytes <? encoded_size)%nat
    then None
    else
      encoded ← column_blob (column row 2);
      order ← decode_uint64 (column row 3);
      if (order =? 0) || (order <=? previous_seen_order) ||
         (metadata.(metadata_last_seen_order) <? order)
      then None
      else
        message_id ← value_of (MessageId_from_uuid raw_message_id);
        decoded ← value_of (decode_post_bytes encoded);
        canonical ← value_of (encode_post decoded);
        if negb (bool_decide (decoded.(Post.message_id) = message_id)) ||
           negb (bool_decide (canonical = encoded))
        then None
        else Some (seen_messages ++ [mkSeenMessageRecord message_id order encoded], order).

Fixpoint seen_rows (metadata : StoredMetadata) (s : list SeenMessageRecord * Z)
    (rows : list SqlRow) : option (list SeenMessageRecord * Z) :=
  match rows with
  | [] => Some s
  | row :: rows =>
      match seen_row metadata s row with
      | None => None
      | Some s => seen_rows metadata s rows
      end
  end.

(** The conclusion of [read_snapshot]. *)
Definition accept_snapshot (metadata : StoredMetadata) (identity : Identity)
    (snapshot : HistorySnapshot) : bool :=
  if negb metadata.(metadata_dedupe_initialized) then
    bool_decide (snapshot.(snapshot_seen_messages) = []) &&
    (snapshot.(snapshot_last_seen_order) =? 0) &&
    match reconcile_snapshot_dedupe snapshot with
    | failure _ => false
    | success seeded => negb (is_error (validate_snapshot seeded identity))
    end
  else negb (is_error (validate_snapshot snapshot identity)).

(** One row of the ledger against the record at the same place. *)
Definition ledger_row_matches (row : SqlRow) (expected : SeenMessageRecord) : bool :=
  is_blob (column row 0) && (column_bytes (column row 0) =? 16)%nat &&
  is_blob (column row 1) &&
  (column_bytes (column row 1) =? length expected.(encoded_post))%nat &&
  bool_decide (decode_uint64 (column row 2) = Some expected.(seen_order)) &&
  bool_decide (column_blob (column row 0) =
               Some expected.(seen_message_id).(MessageId_uuid).(Uuid_bytes)) &&
  bool_decide (column_blob (column row 1) = Some expected.(encoded_post)).

(** The loop: the records left when the rows end, [None] on a difference. *)
Fixpoint ledger_rows (rows : list SqlRow) (expected : list SeenMessageRecord)
  : option (list SeenMessageRecord) :=
  match rows, expected with
  | [], _ => Some expected
  | _ :: _, [] => None
  | row :: rows, record :: expected =>
      if ledger_row_matches row record then ledger_rows rows expected else None
  end.

(** ** Definitions: the SQL texts *)

Definition kSelectMeta : bytes := str "SELECT key, value FROM meta ORDER BY key;".
Definition kCountPosts : bytes := str "SELECT count(*) FROM posts;".
Definition kCountSeen : bytes := str "SELECT count(*) FROM seen_messages;".
Definition kSelectLedger : bytes :=
  str "SELECT message_id, encoded_post, seen_order FROM seen_messages ORDER BY seen_order;".
Definition kDeletePosts : bytes := str "DELETE FROM posts;".
Definition kDeleteSeen : bytes := str "DELETE FROM seen_messages;".
Definition kDeleteMeta : bytes := str "DELETE FROM meta;".
Definition kInsertMeta : bytes := str "INSERT INTO meta(key, value) VALUES(?1, ?2);".
Definition kInsertPost : bytes :=
  str "INSERT INTO posts( message_id, sender_id, sender_sequence, sender_user_id, body, reply_to, sender_time, received_order, origin, local_state) VALUES(?1, ?2, ?3, ?4, ?5, ?6, ?7, ?8, ?9, ?10);".
Definition kInsertMention : bytes :=
  str "INSERT INTO mentions(message_id, ordinal, mentioned_install_id) VALUES(?1, ?2, ?3);".
Definition kInsertSeen : bytes :=
  str "INSERT INTO seen_messages( message_id, protocol_version, encoded_post, seen_order) VALUES(?1, 1, ?2, ?3);".
Definition kSelectPosts : bytes :=
  str "SELECT message_id, sender_id, sender_sequence, sender_user_id, body, reply_to, sender_time, received_order, origin, local_state FROM posts ORDER BY received_order;".
Definition kSelectMentions : bytes :=
  str "SELECT ordinal, mentioned_install_id FROM mentions WHERE message_id = ?1 ORDER BY ordinal;".
Definition kSelectSeen : bytes :=
  str "SELECT message_id, protocol_version, encoded_post, seen_order FROM seen_messages ORDER BY seen_order;".

(** ** Definitions: operations on an open database *)

Section Store.
Context {D : Type} `{ISqlite D} `{ISqliteHistoryFailpoint D}.

Definition load_metadata (d : D) : Result StoredMetadata HistoryError * D :=
  match query d kSelectMeta with
  | (failure result_code, d) => (failure (error_for_result result_code HistoryError_ReadFailed), d)
  | (success (rows, result_code), d) =>
      match metadata_rows start_metadata rows with
      | failure error => (failure error, d)
      | success s =>
          if negb (result_code =? SQLITE_DONE)
          then (failure (error_for_result result_code HistoryError_ReadFailed), d)
          else if (s.(row_count) =? 0)%nat then
            match query_integers d [kCountPosts; kCountSeen] with
            | (failure result_code, d) =>
                (failure (error_for_result result_code HistoryError_ReadFailed), d)
            | (success counts, d) =>
                (if bool_decide (counts = [0; 0]) then success s.(scan_metadata)
                 else failure HistoryError_InvalidData, d)
            end
          else if negb (metadata_complete s) then (failure HistoryError_InvalidData, d)
          else (success (set_initialized s.(scan_metadata)), d)
      end
  end.

Definition ledger_matches_snapshot (d : D) (snapshot : HistorySnapshot)
  : Result bool HistoryError * D :=
  match query d kSelectLedger with
  | (failure result_code, d) => (failure (error_for_result result_code HistoryError_ReadFailed), d)
  | (success (rows, result_code), d) =>
      match ledger_rows rows snapshot.(snapshot_seen_messages) with
      | None => (success false, d)
      | Some rest =>
          if negb (result_code =? SQLITE_DONE)
          then (failure (error_for_result result_code HistoryError_ReadFailed), d)
          else (success (bool_decide (rest = [])), d)
      end
  end.

(** Bind from parameter [first] on, step to the end, reset. *)
Definition complete_row (d : D) (sql : bytes) (parameters : list SqlValue) (first : nat)
    (reset : bool) : bool * D :=
  let '(bound, d) := bind_values d sql first (drop (first - 1) parameters) in
  if negb bound then (false, d)
  else
    let '(completed, d) := statement_completed d sql parameters in
    if negb completed then (false, d)
    else if reset then reset_statement d sql else (true, d).

(** Rows one after the other; [resets] says whether the last one is reset too. *)
Fixpoint insert_rows (d : D) (sql : bytes) (rows : list (list SqlValue)) (resets : bool)
  : bool * D :=
  match rows with
  | [] => (true, d)
  | row :: rows =>
      let '(completed, d) :=
        complete_row d sql row 1 (if rows is [] then resets else true) in
      if negb completed then (false, d) else insert_rows d sql rows resets
  end.

Definition insert_entry (d : D) (entry : TimelineEntry) : HistoryError * D :=
  let parameters := post_parameters entry in
  let '(bound, d) := bind_values d kInsertPost 1 (take 7 parameters) in
  if negb bound then (HistoryError_WriteFailed, d)
  else
    let '(completed, d) := complete_row d kInsertPost parameters 8 true in
    if negb completed then errcode_or d HistoryError_WriteFailed
    else
      let post := entry.(entry_post) in
      let '(completed, d) :=
        insert_rows d kInsertMention
          (imap (mention_parameters post.(message_id)) post.(mentions)) true in
      if negb completed then errcode_or d HistoryError_WriteFailed
      else (HistoryError_None, d).

Fixpoint insert_entries (d : D) (entries : list TimelineEntry) : HistoryError * D :=
  match entries with
  | [] => (HistoryError_None, d)
  | entry :: entries =>
      let '(error, d) := insert_entry d entry in
      if is_error error then (error, d) else insert_entries d entries
  end.

(** The statements of [write_snapshot], prepared in order. *)
Fixpoint prepare_all (d : D) (sqls : list bytes) : Z :=
  match sqls with
  | [] => SQLITE_OK
  | sql :: sqls =>
      let result_code := prepare d sql in
      if negb (result_code =? SQLITE_OK) then result_code else prepare_all d sqls
  end.

(** The checks of [write_snapshot] against what is stored. *)
Definition check_transition (d : D) (snapshot : HistorySnapshot) (identity : Identity)
  : HistoryError * D :=
  match load_metadata d with
  | (failure error, d) => (error, d)
  | (success metadata, d) =>
      if negb metadata.(metadata_initialized) then (HistoryError_None, d)
      else if negb (identity_matches metadata identity) then (HistoryError_IdentityMismatch, d)
      else if (snapshot.(snapshot_last_assigned_order) <?
               metadata.(metadata_last_assigned_order)) ||
              (snapshot.(snapshot_last_seen_order) <? metadata.(metadata_last_seen_order))
      then (HistoryError_InvalidSnapshot, d)
      else if snapshot.(snapshot_last_seen_order) =? metadata.(metadata_last_seen_order) then
        match ledger_matches_snapshot d snapshot with
        | (failure error, d) => (error, d)
        | (success ledger_matches, d) =>
            (if ledger_matches then HistoryError_None else HistoryError_InvalidSnapshot, d)
        end
      else (HistoryError_None, d)
  end.

(** The part of [write_snapshot] that replaces the rows. *)
Definition write_rows (failpoint : bool) (d : D) (snapshot : HistorySnapshot)
    (identity : Identity) : HistoryError * D :=
  let '(deleted, d) := exec_all d [kDeletePosts; kDeleteSeen; kDeleteMeta] in
  if negb deleted then errcode_or d HistoryError_WriteFailed
  else
    let result_code := prepare_all d [kInsertMeta; kInsertPost; kInsertMention; kInsertSeen] in
    if negb (result_code =? SQLITE_OK)
    then (error_for_result result_code HistoryError_WriteFailed, d)
    else
      let '(inserted, d) := insert_rows d kInsertMeta (meta_parameters snapshot identity) false in
      if negb inserted then errcode_or d HistoryError_WriteFailed
      else
        let '(error, d) := insert_entries d snapshot.(snapshot_entries) in
        if is_error error then (error, d)
        else
          let '(fails, d) := fails_at failpoint d Point_SnapshotTimelineWritten in
          if fails then (HistoryError_WriteFailed, d)
          else
            let '(inserted, d) :=
              insert_rows d kInsertSeen
                (map seen_parameters snapshot.(snapshot_seen_messages)) true in
            if negb inserted then errcode_or d HistoryError_WriteFailed
            else
              let '(fails, d) := fails_at failpoint d Point_SnapshotDedupeWritten in
              if fails then (HistoryError_WriteFailed, d) else (HistoryError_None, d).

Definition write_snapshot (failpoint : bool) (d : D) (snapshot : HistorySnapshot)
    (identity : Identity) : HistoryError * D :=
  let '(started, d) := Transaction_begin d kBeginImmediate in
  if negb started then errcode_or d HistoryError_WriteFailed
  else
    finish_transaction
      (let '(error, d) := check_transition d snapshot identity in
       if is_error error then (error, d) else write_rows failpoint d snapshot identity)
      HistoryError_WriteFailed.

(** The mentions of a post: bound, stepped, checked, reset. *)
Definition read_mentions (d : D) (message_id : Uuid) : Result (list Uuid) HistoryError * D :=
  let '(status, d) := sqlite3_bind d kSelectMentions 1 (bind_uuid message_id) in
  if negb (status =? SQLITE_OK) then (failure HistoryError_ReadFailed, d)
  else
    let '(rows, mention_result, d) := sqlite3_steps d kSelectMentions [bind_uuid message_id] in
    match mention_rows [] rows with
    | None => (failure HistoryError_InvalidData, d)
    | Some mention_ids =>
        if negb (mention_result =? SQLITE_DONE)
        then (failure (error_for_result mention_result HistoryError_ReadFailed), d)
        else
          let '(reset, d) := reset_statement d kSelectMentions in
          if negb reset
          then (failure (error_for_result mention_result HistoryError_ReadFailed), d)
          else (success mention_ids, d)
    end.

(** The body of the loop over [posts]. *)
Definition read_entry (d : D) (metadata : StoredMetadata) (identity : Identity)
    (s : PostScan) (row : SqlRow) : Result PostScan HistoryError * D :=
  if (kMaxTimelineEntries <=? length s.(read_entries))%nat
  then (failure HistoryError_InvalidData, d)
  else
    match read_post_row metadata s.(read_orders) row, read_reply (column row 5),
          read_time (column row 6) with
    | Some r, Some reply, Some time =>
        match read_mentions d r.(row_message_id) with
        | (failure error, d) => (failure error, d)
        | (success mention_ids, d) =>
            (match finish_entry identity s row r reply time mention_ids with
             | Some s => success s
             | None => failure HistoryError_InvalidData
             end, d)
        end
    | _, _, _ => (failure HistoryError_InvalidData, d)
    end.

Fixpoint read_entries_loop (d : D) (metadata : StoredMetadata) (identity : Identity)
    (s : PostScan) (rows : list SqlRow) : Result PostScan HistoryError * D :=
  match rows with
  | [] => (success s, d)
  | row :: rows =>
      match read_entry d metadata identity s row with
      | (failure error, d) => (failure error, d)
      | (success s, d) => read_entries_loop d metadata identity s rows
      end
  end.

Definition read_timeline (d : D) (metadata : StoredMetadata) (identity : Identity)
  : Result (list TimelineEntry) HistoryError * D :=
  let result_code := prepare_all d [kSelectPosts; kSelectMentions] in
  if negb (result_code =? SQLITE_OK)
  then (failure (error_for_result result_code HistoryError_ReadFailed), d)
  else
    let '(rows, final, d) := sqlite3_steps d kSelectPosts [] in
    match read_entries_loop d metadata identity start_post_scan rows with
    | (failure error, d) => (failure error, d)
    | (success s, d) =>
        (if negb (final =? SQLITE_DONE)
         then failure (error_for_result final HistoryError_ReadFailed)
         else success s.(read_entries), d)
    end.

Definition read_ledger (d : D) (metadata : StoredMetadata)
  : Result (list SeenMessageRecord) HistoryError * D :=
  match query d kSelectSeen with
  | (failure result_code, d) => (failure (error_for_result result_code HistoryError_ReadFailed), d)
  | (success (rows, final), d) =>
      (match seen_rows metadata ([], 0) rows with
       | None => failure HistoryError_InvalidData
       | Some (seen_messages, _) =>
           if negb (final =? SQLITE_DONE)
           then failure (error_for_result final HistoryError_ReadFailed)
           else success seen_messages
       end, d)
  end.

Definition read_snapshot (d : D) (metadata : StoredMetadata) (identity : Identity)
  : Result HistorySnapshot HistoryError * D :=
  match read_timeline d metadata identity with
  | (failure error, d) => (failure error, d)
  | (success entries, d) =>
      match read_ledger d metadata with
      | (failure error, d) => (failure error, d)
      | (success seen_messages, d) =>
          let snapshot :=
            mkHistorySnapshot entries metadata.(metadata_last_assigned_order) seen_messages
              metadata.(metadata_last_seen_order) in
          (if accept_snapshot metadata identity snapshot then success snapshot
           else failure HistoryError_InvalidData, d)
      end
  end.

Definition save_snapshot (failpoint : bool) (d : D) (snapshot : HistorySnapshot)
    (identity : Identity) : HistoryError * D :=
  match reconcile_snapshot_dedupe snapshot with
  | failure reconciled => (reconciled, d)
  | success candidate =>
      let validation := validate_snapshot candidate identity in
      if is_error validation then (validation, d)
      else
        let '(preflight, d) := operation_preflight d in
        if is_error preflight then (preflight, d)
        else write_snapshot failpoint d candidate identity
  end.

(** The transaction of [load_snapshot]: the snapshot, and whether the ledger has
    still to be seeded. *)
Definition load_transaction (d : D) (identity : Identity)
  : Result (HistorySnapshot * bool) HistoryError * D :=
  let '(started, d) := Transaction_begin d kBegin in
  if negb started
  then (failure (error_for_result (sqlite3_extended_errcode d) HistoryError_ReadFailed), d)
  else
    let commit (d : D) (result : HistorySnapshot * bool)
      : Result (HistorySnapshot * bool) HistoryError * D :=
      let '(committed, d) := Transaction_commit d in
      if negb committed
      then (failure (error_for_result (sqlite3_extended_errcode d) HistoryError_ReadFailed),
            Transaction_rollback d)
      else (success result, d) in
    let '(preflight, d) := operation_preflight d in
    if is_error preflight then (failure preflight, Transaction_rollback d)
    else
      match load_metadata d with
      | (failure error, d) => (failure error, Transaction_rollback d)
      | (success metadata, d) =>
          if negb metadata.(metadata_initialized)
          then commit d (mkHistorySnapshot [] 0 [] 0, false)
          else if negb (identity_matches metadata identity)
          then (failure HistoryError_IdentityMismatch, Transaction_rollback d)
          else
            match read_snapshot d metadata identity with
            | (failure error, d) => (failure error, Transaction_rollback d)
            | (success snapshot, d) =>
                commit d (snapshot, negb metadata.(metadata_dedupe_initialized))
            end
      end.

Definition load_snapshot (failpoint : bool) (d : D) (identity : Identity)
  : Result HistorySnapshot HistoryError * D :=
  match load_transaction d identity with
  | (failure error, d) => (failure error, d)
  | (success (snapshot, false), d) => (success snapshot, d)
  | (success (snapshot, true), d) =>
      match reconcile_snapshot_dedupe snapshot with
      | failure reconciled => (failure reconciled, d)
      | success migrated =>
          let '(saved, d) := save_snapshot failpoint d migrated identity in
          (if is_error saved then failure saved else success migrated, d)
      end
  end.

(** The overload that takes a timeline. *)
Definition save_timeline (failpoint : bool) (d : D) (timeline : Timeline)
    (identity : Identity) : HistoryError * D :=
  match load_snapshot failpoint d identity with
  | (failure error, d) => (error, d)
  | (success snapshot, d) =>
      save_snapshot failpoint d
        (mkHistorySnapshot timeline.(entries) timeline.(last_assigned_order)
           snapshot.(snapshot_seen_messages) snapshot.(snapshot_last_seen_order)) identity
  end.
End Store.
