(* ===== verification/HistoryLaws.v ===== *)
(** * HistoryLaws: what the history store relies on SQLite for

    The contents of a database as tables of rows, the meaning of each statement
    of sqlite_history_store.cpp over them - with the constraints its CREATE TABLE
    texts declare - and the laws of a connection ([ISqliteLaws]): statements
    outside a transaction, the isolation of an open one, the atomicity of COMMIT,
    and that a healthy connection does not fail.  [Engine] is a connection that
    obeys them and breaks after a chosen number of calls. *)
From S2P Require Import Prelude Uuid HistorySchema HistoryStore.

(** ** Contents *)

#[global] Instance byte_countable : Countable byte :=
  inj_countable Byte.to_N Byte.of_N Byte.of_to_N.

Record Database := mkDatabase {
  db_tables : gmap bytes (list SqlRow);
  db_user_version : Z
}.

Definition tMeta : bytes := str "meta".
Definition tPosts : bytes := str "posts".
Definition tMentions : bytes := str "mentions".
Definition tSeen : bytes := str "seen_messages".
Definition tPostsV1 : bytes := str "posts_v1".
Definition tMetaV2 : bytes := str "meta_v2".

Arguments tMeta : simpl never.
Arguments tPosts : simpl never.
Arguments tMentions : simpl never.
Arguments tSeen : simpl never.
Arguments tPostsV1 : simpl never.
Arguments tMetaV2 : simpl never.

Definition rows_of (db : Database) (table : bytes) : list SqlRow :=
  default [] (db.(db_tables) !! table).

Definition set_rows (table : bytes) (rows : list SqlRow) (db : Database) : Database :=
  mkDatabase (<[table := rows]> db.(db_tables)) db.(db_user_version).

Definition complete_schema (db : Database) : Prop :=
  Forall (fun table => is_Some (db.(db_tables) !! table)) [tMeta; tPosts; tMentions; tSeen].

(** ** Definitions: the constraints of the tables *)

Definition zero_order : bytes := replicate 8 x00.

Definition has_length (n : nat) (b : bytes) : bool := (length b =? n)%nat.

Definition length_between (lo hi : nat) (b : bytes) : bool :=
  (lo <=? length b)%nat && (length b <=? hi)%nat.

(** [length(value) = 8 AND value <> X'0000000000000000'] *)
Definition is_order (b : bytes) : bool :=
  has_length 8 b && negb (bool_decide (b = zero_order)).

(** [kCreateMetaSql] *)
Definition check_meta (row : SqlRow) : bool :=
  match row with
  | [Sql_Text key; Sql_Blob value] =>
      (bool_decide (key = str "install_id") && has_length 16 value) ||
      ((bool_decide (key = str "last_assigned_order") ||
        bool_decide (key = str "last_seen_order")) && has_length 8 value) ||
      (bool_decide (key = str "dedupe_initialized") &&
       (bool_decide (value = [x00]) || bool_decide (value = [x01])))
  | _ => false
  end.

(** [kCreatePostsSql] *)
Definition check_reply (message_id : bytes) (v : SqlValue) : bool :=
  match v with
  | Sql_Null => true
  | Sql_Blob reply => has_length 16 reply && negb (bool_decide (reply = message_id))
  | _ => false
  end.

Definition check_origin (origin : Z) (local_state : SqlValue) : bool :=
  match local_state with
  | Sql_Null => origin =? 0
  | Sql_Integer state => (origin =? 1) && (0 <=? state) && (state <=? 3)
  | _ => false
  end.

Definition check_posts (row : SqlRow) : bool :=
  match row with
  | [Sql_Blob message_id; Sql_Blob sender_id; Sql_Blob sender_sequence; Sql_Text user_id;
     Sql_Text body; reply_to; sender_time; Sql_Blob received_order; Sql_Integer origin;
     local_state] =>
      has_length 16 message_id && has_length 16 sender_id && is_order sender_sequence &&
      length_between 1 24 user_id && length_between 1 160 body &&
      check_reply message_id reply_to && (is_null sender_time || is_integer sender_time) &&
      is_order received_order && check_origin origin local_state
  | _ => false
  end.

(** [kCreateMentionsSql] *)
Definition check_mentions (row : SqlRow) : bool :=
  match row with
  | [Sql_Blob _; Sql_Integer ordinal; Sql_Blob mentioned_install_id] =>
      (0 <=? ordinal) && (ordinal <=? 3) && has_length 16 mentioned_install_id
  | _ => false
  end.

(** [kCreateSeenMessagesSql] *)
Definition check_seen (row : SqlRow) : bool :=
  match row with
  | [Sql_Blob message_id; Sql_Integer protocol_version; Sql_Blob encoded_post;
     Sql_Blob seen_order] =>
      has_length 16 message_id && (protocol_version =? 1) &&
      length_between 46 316 encoded_post && is_order seen_order
  | _ => false
  end.

(** A key: some columns of a row. *)
Definition key_of (columns : list nat) (row : SqlRow) : list SqlValue := column row <$> columns.

(** UNIQUE and PRIMARY KEY: no row has the key of the new one. *)
Definition key_is_new (columns : list nat) (row : SqlRow) (rows : list SqlRow) : bool :=
  forallb (fun other => negb (bool_decide (key_of columns row = key_of columns other))) rows.

(** FOREIGN KEY(message_id) REFERENCES posts(message_id) *)
Definition has_parent (posts : list SqlRow) (row : SqlRow) : bool :=
  existsb (fun post => bool_decide (column post 0 = column row 0)) posts.

(** ** The meaning of the statements *)

(** INSERT of one row: refused by a constraint. *)
Definition sql_insert (table : bytes) (check : SqlRow -> bool) (keys : list (list nat))
    (row : SqlRow) (db : Database) : option Database :=
  rows ← db.(db_tables) !! table;
  if check row && forallb (fun columns => key_is_new columns row rows) keys
  then Some (set_rows table (rows ++ [row]) db) else None.

Definition insert_meta : SqlRow -> Database -> option Database :=
  sql_insert tMeta check_meta [[0%nat]].

Definition insert_post : SqlRow -> Database -> option Database :=
  sql_insert tPosts check_posts [[0%nat]; [7%nat]].

Definition insert_mention (row : SqlRow) (db : Database) : option Database :=
  if has_parent (rows_of db tPosts) row
  then sql_insert tMentions check_mentions [[0%nat; 1%nat]; [0%nat; 2%nat]] row db
  else None.

Definition insert_seen (parameters : list SqlValue) : Database -> option Database :=
  match parameters with
  | [message_id; encoded; order] =>
      sql_insert tSeen check_seen [[0%nat]; [3%nat]]
        [message_id; Sql_Integer 1; encoded; order]
  | _ => fun _ => None
  end.

Fixpoint insert_all (insert : SqlRow -> Database -> option Database) (rows : list SqlRow)
    (db : Database) : option Database :=
  match rows with
  | [] => Some db
  | row :: rows => db ← insert row db; insert_all insert rows db
  end.

(** DELETE of every row. *)
Definition delete_from (table : bytes) (db : Database) : option Database :=
  _ ← db.(db_tables) !! table; Some (set_rows table [] db).

(** ON DELETE CASCADE; the store deletes only where [mentions] exists. *)
Definition delete_posts (db : Database) : option Database :=
  posts ← db.(db_tables) !! tPosts;
  mentions ← db.(db_tables) !! tMentions;
  Some (set_rows tMentions
          (List.filter (fun row => negb (has_parent posts row)) mentions)
          (set_rows tPosts [] db)).

Definition create_table (table : bytes) (db : Database) : option Database :=
  match db.(db_tables) !! table with
  | Some _ => None
  | None => Some (set_rows table [] db)
  end.

Definition drop_table (table : bytes) (db : Database) : option Database :=
  _ ← db.(db_tables) !! table;
  Some (mkDatabase (delete table db.(db_tables)) db.(db_user_version)).

Definition rename_table (old new : bytes) (db : Database) : option Database :=
  rows ← db.(db_tables) !! old;
  match db.(db_tables) !! new with
  | Some _ => None
  | None => Some (mkDatabase (<[new := rows]> (delete old db.(db_tables))) db.(db_user_version))
  end.

Definition set_user_version (version : Z) (db : Database) : option Database :=
  Some (mkDatabase db.(db_tables) version).

(** A row of the first schema under the second: no sender time. *)
Definition migrated_post (row : SqlRow) : SqlRow := take 6 row ++ [Sql_Null] ++ drop 6 row.

Abbreviation SqlEffect := (list SqlValue -> Database -> option Database).
Abbreviation SqlAnswer := (list SqlValue -> Database -> list SqlRow).

Definition sql_effects : list (bytes * SqlEffect) :=
  [ (kDeletePosts, fun _ => delete_posts);
    (kDeleteSeen, fun _ => delete_from tSeen);
    (kDeleteMeta, fun _ => delete_from tMeta);
    (kInsertMeta, insert_meta);
    (kInsertPost, insert_post);
    (kInsertMention, insert_mention);
    (kInsertSeen, insert_seen);
    (kRenamePosts, fun _ => rename_table tPosts tPostsV1);
    (kCreatePostsSql, fun _ => create_table tPosts);
    (kCopyPosts, fun _ db =>
       insert_all insert_post (migrated_post <$> rows_of db tPostsV1) db);
    (kDropPosts, fun _ => drop_table tPostsV1);
    (kCreateMentionsSql, fun _ => create_table tMentions);
    (kUserVersion2, fun _ => set_user_version 2);
    (kRenameMeta, fun _ => rename_table tMeta tMetaV2);
    (kCreateMetaSql, fun _ => create_table tMeta);
    (kCopyMeta, fun _ db => insert_all insert_meta (rows_of db tMetaV2) db);
    (kInsertLastSeen, fun _ => insert_meta [Sql_Text (str "last_seen_order"); Sql_Blob zero_order]);
    (kInsertDedupe, fun _ => insert_meta [Sql_Text (str "dedupe_initialized"); Sql_Blob [x00]]);
    (kDropMeta, fun _ => drop_table tMetaV2);
    (kCreateSeenMessagesSql, fun _ => create_table tSeen);
    (kUserVersion3, fun _ => set_user_version 3) ].

(** ORDER BY: the order of values of one class. *)
Definition value_ltb (a b : SqlValue) : bool :=
  match a, b with
  | Sql_Integer a, Sql_Integer b => a <? b
  | Sql_Text a, Sql_Text b | Sql_Blob a, Sql_Blob b => bytes_ltb a b
  | _, _ => false
  end.

Fixpoint insert_by {A} (lt : A -> A -> bool) (x : A) (l : list A) : list A :=
  match l with
  | [] => [x]
  | y :: l => if lt y x then y :: insert_by lt x l else x :: y :: l
  end.

Definition sort_by {A} (lt : A -> A -> bool) (l : list A) : list A :=
  foldr (insert_by lt) [] l.

Definition order_by (index : nat) (rows : list SqlRow) : list SqlRow :=
  sort_by (fun r s => value_ltb (column r index) (column s index)) rows.

Definition kForeignKeyCheck : bytes := str "PRAGMA foreign_key_check;".

Definition sql_answers : list (bytes * SqlAnswer) :=
  [ (kSelectMeta, fun _ db => order_by 0 (rows_of db tMeta));
    (kCountPosts, fun _ db => [[Sql_Integer (Z.of_nat (length (rows_of db tPosts)))]]);
    (kCountSeen, fun _ db => [[Sql_Integer (Z.of_nat (length (rows_of db tSeen)))]]);
    (kSelectLedger, fun _ db =>
       key_of [0%nat; 2%nat; 3%nat] <$> order_by 3 (rows_of db tSeen));
    (kSelectPosts, fun _ db => order_by 7 (rows_of db tPosts));
    (kSelectMentions, fun parameters db =>
       key_of [1%nat; 2%nat] <$>
       order_by 1 (List.filter (fun row => bool_decide (key_of [0%nat] row = parameters))
                     (rows_of db tMentions)));
    (kSelectSeen, fun _ db => order_by 3 (rows_of db tSeen));
    (kUserVersion, fun _ db => [[Sql_Integer db.(db_user_version)]]);
    (kForeignKeyCheck, fun _ db =>
       (fun _ => [Sql_Text tMentions; Sql_Null; Sql_Text tPosts; Sql_Integer 0]) <$>
       List.filter (fun row => negb (has_parent (rows_of db tPosts) row))
         (rows_of db tMentions)) ].

Fixpoint assoc {A} (sql : bytes) (l : list (bytes * A)) : option A :=
  match l with
  | [] => None
  | (text, a) :: l => if bool_decide (text = sql) then Some a else assoc sql l
  end.

Definition sql_effect (sql : bytes) : option SqlEffect := assoc sql sql_effects.
Definition sql_answer (sql : bytes) : option SqlAnswer := assoc sql sql_answers.

(** The database [kCreateSchemaSql] makes. *)
Definition fresh_database : Database :=
  mkDatabase (list_to_map [(tMeta, []); (tPosts, []); (tMentions, []); (tSeen, [])]) 3.

Definition transaction_texts : list bytes :=
  [kBegin; kBeginImmediate; str "COMMIT;"; str "ROLLBACK;"; kCreateSchemaSql].

(** ** The laws *)

(** What a connection sees, what a loss of power leaves, whether a transaction
    is open, and whether calls can fail. *)
Class ISqliteView (D : Type) := {
  view : D -> Database;
  committed : D -> Database;
  in_transaction : D -> bool;
  healthy : D -> Prop
}.

(** A call that neither changes the contents nor the transaction. *)
Definition same {D} `{ISqliteView D} (d d' : D) : Prop :=
  view d' = view d /\ committed d' = committed d /\ in_transaction d' = in_transaction d /\
  (healthy d -> healthy d').

(** A statement that changes the contents inside a transaction: what holds when
    it completes, and that a healthy connection completes what no constraint
    refuses. *)
Definition effect_of {D} `{ISqliteView D} (completes : Prop) (effect : Database -> option Database)
    (d d' : D) : Prop :=
  committed d' = committed d /\
  (completes -> in_transaction d' = true /\ effect (view d) = Some (view d')) /\
  (healthy d -> healthy d' /\ (is_Some (effect (view d)) -> completes)).

Class ISqliteLaws (D : Type) `{ISqlite D} `{ISqliteHistoryFailpoint D} `{ISqliteView D} := {
  view_outside d : in_transaction d = false -> view d = committed d;
  prepare_healthy d sql :
    healthy d -> complete_schema (view d) ->
    is_Some (sql_effect sql) \/ is_Some (sql_answer sql) ->
    fst (sqlite3_prepare_v2 d sql) = SQLITE_OK;
  bind_law d sql index v code d' :
    sqlite3_bind d sql index v = (code, d') -> same d d' /\ (healthy d -> code = SQLITE_OK);
  reset_law d sql code d' :
    sqlite3_reset d sql = (code, d') -> same d d' /\ (healthy d -> code = SQLITE_OK);
  clear_bindings_law d sql code d' :
    sqlite3_clear_bindings d sql = (code, d') -> same d d' /\ (healthy d -> code = SQLITE_OK);
  steps_query d sql parameters rows final d' :
    sql_effect sql = None -> sqlite3_steps d sql parameters = (rows, final, d') -> same d d';
  steps_answer d sql answer parameters rows final d' :
    sql_answer sql = Some answer -> sqlite3_steps d sql parameters = (rows, final, d') ->
    (final = SQLITE_DONE -> rows = answer parameters (view d)) /\
    rows `prefix_of` answer parameters (view d) /\ (healthy d -> final = SQLITE_DONE);
  steps_effect d sql effect parameters rows final d' :
    sql_effect sql = Some effect -> in_transaction d = true ->
    sqlite3_steps d sql parameters = (rows, final, d') ->
    effect_of (rows = [] /\ final = SQLITE_DONE) (effect parameters) d d';
  exec_effect d sql effect code d' :
    sql_effect sql = Some effect -> in_transaction d = true ->
    sqlite3_exec d sql = (code, d') -> effect_of (code = SQLITE_OK) (effect []) d d';
  exec_other d sql code d' :
    sql_effect sql = None -> sql ∉ transaction_texts ->
    sqlite3_exec d sql = (code, d') -> same d d';
  exec_begin d sql code d' :
    sql = kBegin \/ sql = kBeginImmediate -> in_transaction d = false ->
    sqlite3_exec d sql = (code, d') ->
    committed d' = committed d /\
    (code = SQLITE_OK -> in_transaction d' = true /\ view d' = view d) /\
    (code <> SQLITE_OK -> in_transaction d' = false) /\
    (healthy d -> healthy d' /\ code = SQLITE_OK);
  exec_commit d code d' :
    in_transaction d = true -> sqlite3_exec d (str "COMMIT;") = (code, d') ->
    (code = SQLITE_OK -> in_transaction d' = false /\ committed d' = view d) /\
    (code <> SQLITE_OK -> committed d' = committed d) /\
    (healthy d -> healthy d' /\ code = SQLITE_OK);
  exec_rollback d code d' :
    sqlite3_exec d (str "ROLLBACK;") = (code, d') ->
    in_transaction d' = false /\ committed d' = committed d /\ (healthy d -> healthy d');
  exec_create d code d' :
    in_transaction d = false -> sqlite3_exec d kCreateSchemaSql = (code, d') ->
    (code = SQLITE_OK -> in_transaction d' = false /\ committed d' = fresh_database) /\
    (code <> SQLITE_OK -> committed d' = committed d) /\
    (healthy d -> healthy d' /\ code = SQLITE_OK);
  settings_law d flag code code' timeout enabled d1 d2 d3 :
    sqlite3_extended_result_codes d flag = d1 ->
    sqlite3_busy_timeout d1 timeout = (code, d2) ->
    sqlite3_db_config_defensive d2 1 = (code', enabled, d3) ->
    same d d1 /\ same d1 d2 /\ same d2 d3;
  failpoint_law d point fails d' :
    history_should_fail d point = (fails, d') ->
    same d d' /\ (healthy d -> fails = false)
}.

(** ** A connection that obeys the laws *)

(** [engine_budget] is the number of calls that still succeed, [None] for ever. *)
Record Engine := mkEngine {
  engine_open : bool;
  engine_view : Database;
  engine_committed : Database;
  engine_budget : option nat;
  engine_failpoint : option SqliteHistoryWritePoint
}.

#[global] Instance SqliteHistoryWritePoint_eq_decision : EqDecision SqliteHistoryWritePoint.
Proof. solve_decision. Defined.

Definition SQLITE_ERROR : Z := 1.
Definition SQLITE_IOERR : Z := 10.
Definition SQLITE_CONSTRAINT : Z := 19.

Definition engine_sees (e : Engine) : Database :=
  if e.(engine_open) then e.(engine_view) else e.(engine_committed).

Definition set_budget (e : Engine) (budget : option nat) : Engine :=
  mkEngine e.(engine_open) e.(engine_view) e.(engine_committed) budget e.(engine_failpoint).

(** A call: it succeeds and takes one from the budget, or fails. *)
Definition spend (e : Engine) : option Engine :=
  match e.(engine_budget) with
  | None => Some e
  | Some O => None
  | Some (S n) => Some (set_budget e (Some n))
  end.

Definition engine_with (e : Engine) (is_open : bool) (db stored : Database) : Engine :=
  mkEngine is_open db stored e.(engine_budget) e.(engine_failpoint).

(** A change: of the view in a transaction, of the file outside one. *)
Definition engine_change (e : Engine) (effect : Database -> option Database) : bool * Engine :=
  match effect (engine_sees e) with
  | None => (false, e)
  | Some db =>
      (true, if e.(engine_open) then engine_with e true db e.(engine_committed)
             else engine_with e false db db)
  end.

Definition engine_exec (e : Engine) (sql : bytes) : Z * Engine :=
  if bool_decide (sql = str "ROLLBACK;")
  then (SQLITE_OK, engine_with e false e.(engine_view) e.(engine_committed))
  else
    match spend e with
    | None => (SQLITE_IOERR, e)
    | Some e =>
        if bool_decide (sql = kBegin) || bool_decide (sql = kBeginImmediate) then
          if e.(engine_open) then (SQLITE_ERROR, e)
          else (SQLITE_OK, engine_with e true e.(engine_committed) e.(engine_committed))
        else if bool_decide (sql = str "COMMIT;") then
          if e.(engine_open)
          then (SQLITE_OK, engine_with e false e.(engine_view) e.(engine_view))
          else (SQLITE_ERROR, e)
        else if bool_decide (sql = kCreateSchemaSql) then
          if e.(engine_open) then (SQLITE_ERROR, e)
          else (SQLITE_OK, engine_with e false fresh_database fresh_database)
        else
          match sql_effect sql with
          | Some effect =>
              let '(done, e) := engine_change e (effect []) in
              (if done then SQLITE_OK else SQLITE_CONSTRAINT, e)
          | None => (SQLITE_OK, e)
          end
    end.

(** *** The schema of the contents *)

Definition has_table (db : Database) (table : bytes) : bool :=
  bool_decide (is_Some (db.(db_tables) !! table)).

Definition schema_table (name sql : bytes) : SqlRow :=
  [Sql_Text (str "table"); Sql_Text name; Sql_Text name; Sql_Text sql].

Definition schema_index (name table : bytes) : SqlRow :=
  [Sql_Text (str "index"); Sql_Text name; Sql_Text table; Sql_Null].

Definition engine_schema (db : Database) : list SqlRow :=
  let v2 := has_table db tMentions in
  let v3 := has_table db tSeen in
  (if has_table db tPosts
   then [schema_index (str "sqlite_autoindex_posts_1") tPosts;
         schema_index (str "sqlite_autoindex_posts_2") tPosts;
         schema_table tPosts (if v2 then kCreatePostsSql else kCreatePostsV1Sql);
         schema_table tMeta (if v3 then kCreateMetaSql else kCreateMetaV2Sql)] else []) ++
  (if v2 then [schema_index (str "sqlite_autoindex_mentions_2") tMentions;
               schema_table tMentions kCreateMentionsSql] else []) ++
  (if v3 then [schema_index (str "sqlite_autoindex_seen_messages_2") tSeen;
               schema_table tSeen kCreateSeenMessagesSql] else []).

Definition engine_tables (db : Database) : list bytes :=
  List.filter (has_table db) [tMentions; tMeta; tPosts; tSeen].

Definition one_integer (z : Z) : list SqlRow := [[Sql_Integer z]].

(** The queries whose answers the laws leave open. *)
Definition engine_queries : list (bytes * (Database -> list SqlRow)) :=
  [ (kSelectSchema, engine_schema);
    (str "PRAGMA integrity_check(1);", fun _ => [[Sql_Text (str "ok")]]);
    (strict_sql 3, fun db => (fun t => [Sql_Text t; Sql_Integer 1]) <$> engine_tables db);
    (strict_sql 2, fun db => (fun t => [Sql_Text t; Sql_Integer 1]) <$> engine_tables db);
    (kCountStrictV1, fun db => one_integer (Z.of_nat (length (engine_tables db))));
    (kCountTables, fun db => one_integer (Z.of_nat (length (engine_tables db))));
    (kCountObjects, fun db => one_integer (Z.of_nat (length (engine_schema db))));
    (kApplicationId, fun db =>
       one_integer (if has_table db tPosts then kHistoryApplicationId else 0));
    (str "PRAGMA journal_mode = WAL;", fun _ => [[Sql_Text (str "wal")]]);
    (str "PRAGMA foreign_keys;", fun _ => one_integer 1);
    (str "PRAGMA synchronous;", fun _ => one_integer 2);
    (str "PRAGMA trusted_schema;", fun _ => one_integer 0) ].

Definition engine_steps (e : Engine) (sql : bytes) (parameters : list SqlValue)
  : list SqlRow * Z * Engine :=
  match spend e with
  | None => ([], SQLITE_IOERR, e)
  | Some e =>
      match sql_effect sql with
      | Some effect =>
          let '(done, e) := engine_change e (effect parameters) in
          ([], if done then SQLITE_DONE else SQLITE_CONSTRAINT, e)
      | None =>
          match sql_answer sql with
          | Some answer => (answer parameters (engine_sees e), SQLITE_DONE, e)
          | None => (default [] ((fun q => q (engine_sees e)) <$> assoc sql engine_queries),
                     SQLITE_DONE, e)
          end
      end
  end.

Definition engine_call (e : Engine) : Z * Engine :=
  match spend e with Some e => (SQLITE_OK, e) | None => (SQLITE_IOERR, e) end.

(** The bytes of a statement up to its semicolon. *)
Fixpoint statement_size (sql : bytes) : nat :=
  match sql with
  | [] => 0
  | c :: sql => if Byte.eqb c x3b then 1 else S (statement_size sql)
  end.

#[global] Instance Engine_sqlite : ISqlite Engine := {
  sqlite3_exec := engine_exec;
  sqlite3_prepare_v2 e sql :=
    (if e.(engine_budget) is Some O then SQLITE_IOERR else SQLITE_OK, statement_size sql);
  sqlite3_bind e _ _ _ := engine_call e;
  sqlite3_steps := engine_steps;
  sqlite3_reset e _ := engine_call e;
  sqlite3_clear_bindings e _ := engine_call e;
  sqlite3_extended_errcode _ := SQLITE_IOERR;
  sqlite3_extended_result_codes e _ := e;
  sqlite3_busy_timeout e _ := engine_call e;
  sqlite3_db_config_defensive e _ :=
    let '(code, e) := engine_call e in (code, 1, e)
}.

#[global] Instance Engine_failpoint : ISqliteHistoryFailpoint Engine := {
  history_should_fail e point := (bool_decide (e.(engine_failpoint) = Some point), e)
}.

#[global] Instance Engine_view : ISqliteView Engine := {
  view := engine_sees;
  committed := engine_committed;
  in_transaction := engine_open;
  healthy e := e.(engine_budget) = None /\ e.(engine_failpoint) = None
}.

(** ** Its laws *)

Lemma spend_same e e' : spend e = Some e' -> same e e'.
Proof.
  unfold spend, same. destruct e as [o v c [[|n]|] f]; cbn; intros [= <-]; [|done].
  by split_and!; try done; intros [].
Qed.

Lemma spend_healthy e : healthy e -> spend e = Some e.
Proof. unfold spend. by intros [-> _]. Qed.

#[global] Instance same_preorder {D} `{ISqliteView D} : PreOrder (@same D _).
Proof.
  split; [by intros d|]. intros d1 d2 d3 (?&?&?&?) (?&?&?&?).
  split_and!; [congruence..|auto].
Qed.

Lemma engine_call_law e code e' :
  engine_call e = (code, e') -> same e e' /\ (healthy e -> code = SQLITE_OK).
Proof.
  unfold engine_call. destruct (spend e) as [e1|] eqn:Hs; intros [= <- <-].
  - split; [by apply spend_same|done].
  - split; [done|]. intros Hb. by rewrite spend_healthy in Hs.
Qed.

Lemma engine_change_effect e effect done e' :
  e.(engine_open) = true -> engine_change e effect = (done, e') ->
  effect_of (done = true) effect e e'.
Proof.
  unfold engine_change, effect_of, engine_sees. cbn. intros Ho. rewrite Ho. unfold engine_sees.
  rewrite Ho. destruct (effect (engine_view e)) as [db|] eqn:Hf; intros [= <- <-]; cbn.
  - split_and!; done.
  - split_and!; done.
Qed.

Lemma effect_of_weaken {D} `{ISqliteView D} (P Q : Prop) f (d d' : D) :
  (P <-> Q) -> effect_of P f d d' -> effect_of Q f d d'.
Proof.
  unfold effect_of. intros [HPQ HQP] (Hc & Hk & Hh).
  split; [done|]. split; [auto|]. intros Hd. destruct (Hh Hd). auto.
Qed.

Lemma effect_of_same {D} `{ISqliteView D} (P : Prop) f (d d1 d' : D) :
  same d d1 -> effect_of P f d1 d' -> effect_of P f d d'.
Proof.
  unfold effect_of. intros (Hv & Hc & _ & Hh) (Hc' & Hk & Hh'). rewrite Hv, Hc in *. auto.
Qed.

(** A call out of budget. *)
Lemma effect_of_failed (P : Prop) f e : spend e = None -> ~ P -> effect_of P f e e.
Proof.
  intros Hs HP. split_and!; try done. intros Hb. by rewrite spend_healthy in Hs.
Qed.

Lemma transaction_texts_no_effect :
  Forall (fun sql => sql_effect sql = None) transaction_texts.
Proof. repeat constructor. Qed.

Lemma assoc_text {A} sql (l : list (bytes * A)) a : assoc sql l = Some a -> sql ∈ l.*1.
Proof.
  induction l as [|[t b] l IH]; cbn; [done|]. case_bool_decide as Ht; intros Ha.
  - subst. by left.
  - right. by apply IH.
Qed.

(** A text that is answered changes nothing. *)
Lemma answer_no_effect sql f : sql_answer sql = Some f -> sql_effect sql = None.
Proof.
  intros Hin%assoc_text.
  assert (Forall (fun sql => sql_effect sql = None) sql_answers.*1) as Hn
    by repeat constructor.
  rewrite Forall_forall in Hn. by apply Hn.
Qed.

Lemma effect_not_transaction sql f : sql_effect sql = Some f -> sql ∉ transaction_texts.
Proof.
  intros Hf Hin. pose proof transaction_texts_no_effect as Hn.
  rewrite Forall_forall in Hn. specialize (Hn _ Hin). congruence.
Qed.

(** Outside the transaction texts, [exec] spends and changes. *)
Lemma engine_exec_plain e sql :
  sql ∉ transaction_texts ->
  engine_exec e sql =
  match spend e with
  | None => (SQLITE_IOERR, e)
  | Some e =>
      match sql_effect sql with
      | Some effect =>
          let '(done, e) := engine_change e (effect []) in
          (if done then SQLITE_OK else SQLITE_CONSTRAINT, e)
      | None => (SQLITE_OK, e)
      end
  end.
Proof.
  unfold transaction_texts. rewrite !not_elem_of_cons. intros (H1 & H2 & H3 & H4 & H5 & _).
  unfold engine_exec. by rewrite !bool_decide_false by done.
Qed.

#[global] Instance Engine_laws : ISqliteLaws Engine.
Proof.
  split.
  - intros e. cbn. unfold engine_sees. by intros ->.
  - intros e sql [Hh _] _ _. cbn in *. by rewrite Hh.
  - intros e sql i v code e'. apply engine_call_law.
  - intros e sql code e'. apply engine_call_law.
  - intros e sql code e'. apply engine_call_law.
  - intros e sql ps rows final e' Hf. cbn. unfold engine_steps. rewrite Hf.
    destruct (spend e) as [e1|] eqn:Hs; [|by intros [= <- <- <-]].
    destruct (sql_answer sql); intros [= <- <- <-]; by apply spend_same.
  - intros e sql f ps rows final e' Hf. cbn. unfold engine_steps.
    pose proof (answer_no_effect _ _ Hf) as Hn.
    rewrite Hn, Hf. destruct (spend e) as [e1|] eqn:Hs; intros [= <- <- <-].
    + apply spend_same in Hs as (Hv & _). cbn in Hv. rewrite Hv. done.
    + split_and!; [done|apply prefix_nil|]. intros Hb. by rewrite spend_healthy in Hs.
  - intros e sql f ps rows final e' Hf Ho. cbn. unfold engine_steps. rewrite Hf.
    destruct (spend e) as [e1|] eqn:Hs.
    + pose proof (spend_same _ _ Hs) as Hsame.
      destruct (engine_change e1 (f ps)) as [done e2] eqn:Hc. intros [= <- <- <-].
      apply engine_change_effect in Hc.
      2:{ destruct Hsame as (_ & _ & Hi & _). cbn in *. congruence. }
      eapply effect_of_same; [done|]. eapply effect_of_weaken; [|exact Hc].
      destruct done; split; (done || by intros []).
    + intros [= <- <- <-]. apply effect_of_failed; [done|]. by intros [_ ?].
  - intros e sql f code e' Hf Ho. cbn.
    rewrite engine_exec_plain by (by eapply effect_not_transaction). rewrite Hf.
    destruct (spend e) as [e1|] eqn:Hs.
    + pose proof (spend_same _ _ Hs) as Hsame.
      destruct (engine_change e1 (f [])) as [done e2] eqn:Hc. intros [= <- <-].
      apply engine_change_effect in Hc.
      2:{ destruct Hsame as (_ & _ & Hi & _). cbn in *. congruence. }
      eapply effect_of_same; [done|]. eapply effect_of_weaken; [|exact Hc].
      destruct done; split; (done || by intros []).
    + intros [= <- <-]. by apply effect_of_failed.
  - intros e sql code e' Hf Hn. cbn. rewrite engine_exec_plain by done. rewrite Hf.
    destruct (spend e) as [e1|] eqn:Hs; intros [= <- <-]; [by apply spend_same|done].
  - intros e sql code e' Hsql Ho. cbn. unfold engine_exec.
    rewrite (bool_decide_false (sql = str "ROLLBACK;")) by (by destruct Hsql as [-> | ->]).
    assert (bool_decide (sql = kBegin) || bool_decide (sql = kBeginImmediate) = true) as ->
      by (by destruct Hsql as [-> | ->]).
    destruct (spend e) as [e1|] eqn:Hs.
    + apply spend_same in Hs as (Hv & Hc & Hi & Hh). cbn in *. rewrite Hi, Ho.
      intros [= <- <-]. unfold engine_sees in *. rewrite Hi, Ho in Hv. cbn.
      rewrite ?Ho. tauto.
    + intros [= <- <-]. split_and!; try done. intros Hb. by rewrite spend_healthy in Hs.
  - intros e code e' Ho. cbn. unfold engine_exec. rewrite (bool_decide_false _) by done.
    destruct (spend e) as [e1|] eqn:Hs.
    + apply spend_same in Hs as (Hv & Hc & Hi & Hh). cbn in *. rewrite Hi, Ho.
      intros [= <- <-]. unfold engine_sees in *. rewrite Hi, Ho in Hv. cbn.
      rewrite ?Ho. tauto.
    + intros [= <- <-]. split_and!; try done. intros Hb. by rewrite spend_healthy in Hs.
  - intros e code e'. cbn. unfold engine_exec. rewrite (bool_decide_true _) by done.
    by intros [= <- <-].
  - intros e code e' Ho. cbn. unfold engine_exec. rewrite (bool_decide_false _) by done.
    destruct (spend e) as [e1|] eqn:Hs.
    + apply spend_same in Hs as (Hv & Hc & Hi & Hh). cbn in *.
      rewrite (bool_decide_true (kCreateSchemaSql = kCreateSchemaSql)) by done.
      cbn. rewrite Hi, Ho.
      intros [= <- <-]. cbn. tauto.
    + intros [= <- <-]. split_and!; try done. intros Hb. by rewrite spend_healthy in Hs.
  - intros e flag code code' timeout enabled d1 d2 d3 <-. cbn. intros H2. 
    apply engine_call_law in H2 as [H2 _].
    destruct (engine_call d2) as [c e3] eqn:H3. apply engine_call_law in H3 as [H3 _].
    intros [= <- <- <-]. done.
  - intros e point fails e'. cbn. intros [= <- <-]. split; [done|]. by intros [_ ->].
Qed.
