(* ===== verification/HistoryTheory.v ===== *)
(** * HistoryTheory: saving and loading over a connection that obeys the laws

    The functions of HistorySchema.v and HistoryStore.v over any [ISqliteLaws]:
    which calls leave the contents alone, what a transaction leaves behind, what
    a save writes and what a load reads back. *)
From Stdlib Require Import Sorting.Sorted.
From S2P Require Import Prelude Text Uuid Identity Post Timeline Limits PostCodec DedupeWindow HistoryRecord HistorySchema HistoryStore HistoryLaws.

(** ** Errors *)

Lemma is_error_None e : is_error e = false <-> e = HistoryError_None.
Proof. unfold is_error. rewrite negb_false_iff. apply bool_decide_eq_true. Qed.

Lemma is_error_true e : is_error e = true <-> e <> HistoryError_None.
Proof. unfold is_error. rewrite negb_true_iff. apply bool_decide_eq_false. Qed.

Lemma error_for_result_error code fallback :
  fallback <> HistoryError_None -> error_for_result code fallback <> HistoryError_None.
Proof. unfold error_for_result. by destruct (is_corrupt_result code). Qed.

Create HintDb same.

(** Follow the calls back from the last connection to the first. *)
Ltac same_solve :=
  solve [ reflexivity | assumption
        | etransitivity; [|solve [eauto 4 with same]]; same_solve ].

(** Split the branches of a function that threads a connection. *)
Ltac branches :=
  repeat (case_match; simplify_eq/=); try simplify_eq/=; try same_solve.

Section Laws.
Context {D : Type} `{ISqliteLaws D}.

(** ** Calls that leave the contents alone *)

Lemma query_same d sql r d' : query d sql = (r, d') -> sql_effect sql = None -> same d d'.
Proof.
  intros Hq He. revert Hq. unfold query. case_match; [by intros [= _ <-]|].
  destruct (sqlite3_steps d sql []) as [[rows final] d1] eqn:Hs. intros [= _ <-].
  by eapply steps_query.
Qed.

Lemma steps_same d sql ps rows final d' :
  sqlite3_steps d sql ps = (rows, final, d') -> sql_effect sql = None -> same d d'.
Proof. intros. by eapply steps_query. Qed.

Lemma bind_same d sql i v code d' : sqlite3_bind d sql i v = (code, d') -> same d d'.
Proof. intros Hb. by apply bind_law in Hb as [? _]. Qed.

Lemma fails_at_same failpoint d point fails d' :
  fails_at failpoint d point = (fails, d') -> same d d' /\ (healthy d -> fails = false).
Proof.
  unfold fails_at. destruct failpoint; [apply failpoint_law|]. by intros [= <- <-].
Qed.

Lemma reset_same d sql ok d' :
  reset_statement d sql = (ok, d') -> same d d' /\ (healthy d -> ok = true).
Proof.
  unfold reset_statement. destruct (sqlite3_reset d sql) as [c1 d1] eqn:Hr.
  apply reset_law in Hr as [Hr Hh1]. destruct (Z.eqb_spec c1 SQLITE_OK) as [->|Hne]; cbn [negb].
  - destruct (sqlite3_clear_bindings d1 sql) as [c2 d2] eqn:Hb.
    apply clear_bindings_law in Hb as [Hb Hh2]. intros [= <- <-].
    split; [by transitivity d1|]. intros Hd. rewrite Hh2; [done|]. by apply Hr.
  - intros [= <- <-]. split; [done|]. intros Hd. by destruct Hne; apply Hh1.
Qed.

Lemma reset_frame d sql ok d' : reset_statement d sql = (ok, d') -> same d d'.
Proof. intros Hr. by apply reset_same in Hr as [? _]. Qed.

Lemma bind_values_same sql values first d ok d' :
  bind_values d sql first values = (ok, d') -> same d d' /\ (healthy d -> ok = true).
Proof.
  revert first d. induction values as [|v values IH]; intros first d; cbn.
  { by intros [= <- <-]. }
  destruct (sqlite3_bind d sql first v) as [c d1] eqn:Hb.
  apply bind_law in Hb as [Hs Hh]. destruct (Z.eqb_spec c SQLITE_OK) as [->|Hne]; cbn [negb].
  - intros [Hs' Hh']%IH. split; [by transitivity d1|]. intros Hd. apply Hh'. by apply Hs.
  - intros [= <- <-]. split; [done|]. intros Hd. by destruct Hne; apply Hh.
Qed.
End Laws.

#[export] Hint Extern 1 (sql_effect _ = None) => reflexivity : same.
#[export] Hint Resolve query_same steps_same bind_same reset_frame : same.

Section Frames.
Context {D : Type} `{ISqliteLaws D}.

Lemma query_value_same accepts d sql v code d' :
  query_value accepts d sql = (v, code, d') -> sql_effect sql = None -> same d d'.
Proof. unfold query_value. intros Hq He. branches. Qed.

Lemma query_integer_same d sql v code d' :
  query_integer d sql = (v, code, d') -> sql_effect sql = None -> same d d'.
Proof.
  unfold query_integer. destruct (query_value _ d sql) as [[o c] d1] eqn:Hq.
  intros [= _ _ <-] He. by eapply query_value_same.
Qed.

Lemma query_text_same d sql v code d' :
  query_text d sql = (v, code, d') -> sql_effect sql = None -> same d d'.
Proof.
  unfold query_text. destruct (query_value _ d sql) as [[o c] d1] eqn:Hq.
  intros [= _ _ <-] He. by eapply query_value_same.
Qed.

Lemma query_integers_same sqls d r d' :
  query_integers d sqls = (r, d') -> Forall (fun sql => sql_effect sql = None) sqls ->
  same d d'.
Proof.
  intros Hq Hall. revert Hq. revert d r d'. induction Hall as [|sql sqls He Hall IH]; intros d r d'; cbn.
  { by intros [= _ <-]. }
  destruct (query_integer d sql) as [[[v|] code] d1] eqn:Hq; apply query_integer_same in Hq;
    try done.
  - destruct (query_integers d1 sqls) as [[vs|e] d2] eqn:Hr; apply IH in Hr;
      intros [= _ <-]; by transitivity d1.
  - by intros [= _ <-].
Qed.
End Frames.

#[export] Hint Resolve query_integer_same query_text_same query_integers_same : same.
#[export] Hint Extern 1 (Forall (fun sql => sql_effect sql = None) _) =>
  (repeat constructor) : same.

Section Checks.
Context {D : Type} `{ISqliteLaws D}.

Lemma verify_exact_schema_same d version e d' :
  verify_exact_schema d version = (e, d') -> same d d'.
Proof. unfold verify_exact_schema. intros Hq. branches. Qed.

Lemma run_integrity_checks_same d e d' : run_integrity_checks d = (e, d') -> same d d'.
Proof. unfold run_integrity_checks. intros Hq. branches. Qed.

Lemma strict_sql_effect version : sql_effect (strict_sql version) = None.
Proof. unfold strict_sql. by destruct (version =? 3). Qed.
End Checks.

#[export] Hint Resolve verify_exact_schema_same run_integrity_checks_same strict_sql_effect
  : same.

Section Operations.
Context {D : Type} `{ISqliteLaws D}.

Lemma verify_strict_tables_same d version e d' :
  verify_strict_tables d version = (e, d') -> same d d'.
Proof. unfold verify_strict_tables. intros Hq. branches. Qed.

#[local] Hint Resolve verify_strict_tables_same : same.

Lemma verify_v2_or_v3_schema_same d version e d' :
  verify_v2_or_v3_schema d version = (e, d') -> same d d'.
Proof. unfold verify_v2_or_v3_schema. intros Hq. branches. Qed.

Lemma verify_v1_schema_same d e d' : verify_v1_schema d = (e, d') -> same d d'.
Proof. unfold verify_v1_schema. intros Hq. branches. Qed.

#[local] Hint Resolve verify_v2_or_v3_schema_same verify_v1_schema_same : same.

Lemma read_database_header_same d r d' : read_database_header d = (r, d') -> same d d'.
Proof. unfold read_database_header. intros Hq. branches. Qed.

#[local] Hint Resolve read_database_header_same : same.

Lemma validate_existing_database_same d e d' :
  validate_existing_database d = (e, d') -> same d d'.
Proof.
  unfold validate_existing_database, verify_v2_schema, verify_v3_schema. intros Hq. branches.
Qed.

Lemma operation_preflight_same d e d' : operation_preflight d = (e, d') -> same d d'.
Proof. unfold operation_preflight, verify_v3_schema. intros Hq. branches. Qed.

Lemma load_metadata_same d r d' : load_metadata d = (r, d') -> same d d'.
Proof. unfold load_metadata. intros Hq. branches. Qed.

Lemma ledger_matches_same d sn r d' : ledger_matches_snapshot d sn = (r, d') -> same d d'.
Proof. unfold ledger_matches_snapshot. intros Hq. branches. Qed.

#[local] Hint Resolve load_metadata_same ledger_matches_same : same.

Lemma check_transition_same d sn i e d' : check_transition d sn i = (e, d') -> same d d'.
Proof. unfold check_transition. intros Hq. branches. Qed.

Lemma read_mentions_same d id r d' : read_mentions d id = (r, d') -> same d d'.
Proof. unfold read_mentions. intros Hq. branches. Qed.

#[local] Hint Resolve read_mentions_same : same.

Lemma read_entry_same d m i s row r d' : read_entry d m i s row = (r, d') -> same d d'.
Proof. unfold read_entry. intros Hq. branches. Qed.

#[local] Hint Resolve read_entry_same : same.

Lemma read_entries_loop_same m i rows d s r d' :
  read_entries_loop d m i s rows = (r, d') -> same d d'.
Proof.
  revert d s. induction rows as [|row rows IH]; intros d s; cbn; intros Hq; [branches|].
  destruct (read_entry d m i s row) as [[s1|e] d1] eqn:Hr; [|branches].
  apply IH in Hq. same_solve.
Qed.

#[local] Hint Resolve read_entries_loop_same : same.

Lemma read_timeline_same d m i r d' : read_timeline d m i = (r, d') -> same d d'.
Proof. unfold read_timeline. intros Hq. branches. Qed.

Lemma read_ledger_same d m r d' : read_ledger d m = (r, d') -> same d d'.
Proof. unfold read_ledger. intros Hq. branches. Qed.

#[local] Hint Resolve read_timeline_same read_ledger_same : same.

Lemma read_snapshot_same d m i r d' : read_snapshot d m i = (r, d') -> same d d'.
Proof. unfold read_snapshot. intros Hq. branches. Qed.
End Operations.

#[export] Hint Resolve operation_preflight_same load_metadata_same check_transition_same
  read_snapshot_same validate_existing_database_same : same.

(** ** Transactions *)

Section Transactions.
Context {D : Type} `{ISqliteLaws D}.

Lemma Transaction_begin_spec d sql ok d' :
  sql = kBegin \/ sql = kBeginImmediate -> in_transaction d = false ->
  Transaction_begin d sql = (ok, d') ->
  committed d' = committed d /\
  (ok = true -> in_transaction d' = true /\ view d' = view d) /\
  (ok = false -> in_transaction d' = false) /\
  (healthy d -> healthy d' /\ ok = true).
Proof.
  intros Hsql Ho. unfold Transaction_begin, exec.
  destruct (sqlite3_exec d sql) as [code d1] eqn:He. intros [= <- <-].
  destruct (exec_begin d sql code d1 Hsql Ho He) as (Hc & Hok & Hno & Hh).
  rewrite Z.eqb_eq, Z.eqb_neq. auto.
Qed.

Lemma Transaction_rollback_spec d :
  in_transaction (Transaction_rollback d) = false /\
  committed (Transaction_rollback d) = committed d /\
  (healthy d -> healthy (Transaction_rollback d)).
Proof.
  unfold Transaction_rollback, exec.
  destruct (sqlite3_exec d (str "ROLLBACK;")) as [code d1] eqn:He.
  by eapply exec_rollback.
Qed.

Lemma Transaction_commit_spec d ok d' :
  in_transaction d = true -> Transaction_commit d = (ok, d') ->
  (ok = true -> in_transaction d' = false /\ committed d' = view d) /\
  (ok = false -> committed d' = committed d) /\
  (healthy d -> healthy d' /\ ok = true).
Proof.
  intros Ho. unfold Transaction_commit, exec.
  destruct (sqlite3_exec d (str "COMMIT;")) as [code d1] eqn:He. intros [= <- <-].
  rewrite Z.eqb_eq, Z.eqb_neq. by apply exec_commit.
Qed.

(** A function that owns a transaction: all of it or nothing. *)
Lemma finish_transaction_spec error d fallback e d' :
  fallback <> HistoryError_None ->
  (error = HistoryError_None -> in_transaction d = true) ->
  finish_transaction (error, d) fallback = (e, d') ->
  in_transaction d' = false /\
  (e = HistoryError_None -> error = HistoryError_None /\ committed d' = view d) /\
  (e <> HistoryError_None -> committed d' = committed d) /\
  (healthy d -> healthy d' /\ e = error).
Proof.
  intros Hf Ho. unfold finish_transaction.
  destruct (is_error error) eqn:Herr.
  - apply is_error_true in Herr. intros [= <- <-].
    pose proof (Transaction_rollback_spec d) as (Hi & Hc & Hh).
    split; [done|]. split; [done|]. split; [done|]. auto.
  - apply is_error_None in Herr as ->.
    destruct (Transaction_commit d) as [ok d1] eqn:Hc.
    apply Transaction_commit_spec in Hc as (Hok & Hno & Hh); [|by apply Ho].
    destruct ok; cbn [negb]; intros [= <- <-].
    { destruct (Hok eq_refl). split; [done|]. split; [done|]. split; [done|].
      intros Hd. by destruct (Hh Hd). }
    pose proof (Transaction_rollback_spec d1) as (Hi & Hc & _).
    pose proof (error_for_result_error (sqlite3_extended_errcode d1) _ Hf) as Hne.
    split_and!; [done|done|intros _; by rewrite Hc, Hno|].
    intros Hd. by destruct (Hh Hd).
Qed.
End Transactions.

(** ** Statements that write *)

Section Effects.
Context {D : Type} `{ISqliteView D}.

Lemma effect_of_after (P : Prop) f (d d1 d2 : D) :
  effect_of P f d d1 -> same d1 d2 -> effect_of P f d d2.
Proof.
  unfold effect_of. intros (Hc & Hk & Hh) (Hv & Hc' & Hi & Hh'). rewrite Hv, Hc', Hi.
  split; [done|]. split; [done|]. intros Hd. destruct (Hh Hd). auto.
Qed.

Lemma effect_of_seq (P Q : Prop) f g (d d1 d2 : D) :
  effect_of P f d d1 -> P -> effect_of Q g d1 d2 ->
  effect_of Q (fun db => f db ≫= g) d d2.
Proof.
  unfold effect_of. intros (Hc & Hk & Hh) HP (Hc' & Hk' & Hh'). destruct (Hk HP) as [Hi Hv].
  rewrite Hv. cbn. split; [congruence|]. split; [done|]. intros Hd. destruct (Hh Hd). auto.
Qed.

Lemma effect_of_stop (P Q : Prop) f g (d d1 : D) :
  effect_of P f d d1 -> ~ P -> ~ Q -> effect_of Q (fun db => f db ≫= g) d d1.
Proof.
  unfold effect_of. intros (Hc & Hk & Hh) HP HQ. split; [done|]. split; [done|].
  intros Hd. destruct (Hh Hd) as [Hd1 HfP]. split; [done|].
  intros Hs. destruct HP. apply HfP. destruct (f (view d)); [done|by destruct Hs].
Qed.

(** A stop between two statements, of a connection that is not healthy. *)
Lemma effect_of_abort (P Q : Prop) f g (d d1 d2 : D) :
  effect_of P f d d1 -> same d1 d2 -> ~ Q -> ~ healthy d1 ->
  effect_of Q (fun db => f db ≫= g) d d2.
Proof.
  unfold effect_of. intros (Hc & _ & Hh) (_ & Hc' & _) HQ Hd1. split; [congruence|].
  split; [done|]. intros Hd. by destruct (Hh Hd).
Qed.

(** A call that failed without having changed anything. *)
Lemma effect_of_unhealthy (P : Prop) f (d d1 : D) :
  same d d1 -> ~ P -> ~ healthy d -> effect_of P f d d1.
Proof. intros (Hv & Hc & Hi & Hh) HP Hd. by split_and!. Qed.

Lemma effect_of_ext (P : Prop) f g (d d1 : D) :
  (forall db, f db = g db) -> effect_of P f d d1 -> effect_of P g d d1.
Proof. intros Hfg. unfold effect_of. by rewrite Hfg. Qed.

Lemma effect_of_return (P : Prop) (d d1 : D) :
  in_transaction d = true -> P -> same d d1 -> effect_of P Some d d1.
Proof.
  intros Ho HP (Hv & Hc & Hi & Hh). rewrite Ho in Hi. split; [done|].
  split; [by rewrite Hv|]. auto.
Qed.

Lemma effect_of_open (P : Prop) f (d d1 : D) :
  effect_of P f d d1 -> P -> in_transaction d1 = true.
Proof. intros (_ & Hk & _) HP. by apply Hk. Qed.
End Effects.

(** The effects of texts without parameters, one after the other. *)
Fixpoint run_effects (effects : list SqlEffect) (db : Database) : option Database :=
  match effects with
  | [] => Some db
  | f :: effects => f [] db ≫= run_effects effects
  end.

Section Writes.
Context {D : Type} `{ISqliteLaws D}.

Lemma exec_all_effect sqls effects d ok d' :
  Forall2 (fun sql f => sql_effect sql = Some f) sqls effects ->
  in_transaction d = true -> exec_all d sqls = (ok, d') ->
  effect_of (ok = true) (run_effects effects) d d'.
Proof.
  intros Hall. revert d. induction Hall as [|sql f sqls effects Hf Hall IH]; intros d Ho; cbn.
  { intros [= <- <-]. by apply effect_of_return. }
  unfold exec. destruct (sqlite3_exec d sql) as [code d1] eqn:He.
  apply (exec_effect d sql f) in He; [|done..].
  destruct (Z.eqb_spec code SQLITE_OK) as [Hok|Hno]; cbn [negb].
  - intros Hr%IH; [|by eapply effect_of_open]. by eapply effect_of_seq.
  - intros [= <- <-]. by eapply effect_of_stop.
Qed.

Lemma statement_completed_effect sql f ps d ok d' :
  sql_effect sql = Some f -> in_transaction d = true ->
  statement_completed d sql ps = (ok, d') -> effect_of (ok = true) (f ps) d d'.
Proof.
  intros Hf Ho. unfold statement_completed.
  destruct (sqlite3_steps d sql ps) as [[rows final] d1] eqn:Hs.
  apply (steps_effect d sql f) in Hs; [|done..]. intros [= <- <-].
  eapply effect_of_weaken; [|exact Hs].
  destruct rows; rewrite ?Z.eqb_eq; [tauto|by split; [intros []|]].
Qed.

Lemma complete_row_effect sql f ps first reset d ok d' :
  sql_effect sql = Some f -> in_transaction d = true ->
  complete_row d sql ps first reset = (ok, d') -> effect_of (ok = true) (f ps) d d'.
Proof.
  intros Hf Ho. unfold complete_row.
  destruct (bind_values d sql first _) as [bound d1] eqn:Hb.
  apply bind_values_same in Hb as [Hb Hbh].
  destruct bound; cbn [negb].
  2:{ intros [= <- <-]. apply effect_of_unhealthy; [done..|]. intros Hd. by apply Hbh in Hd. }
  destruct (statement_completed d1 sql ps) as [completed d2] eqn:Hs.
  apply (statement_completed_effect sql f) in Hs; [|done|].
  2:{ destruct Hb as (_ & _ & -> & _). done. }
  pose proof (effect_of_same _ _ _ _ _ Hb Hs) as He.
  destruct completed; cbn [negb]; [|by intros [= <- <-]].
  destruct reset; [|by intros [= <- <-]].
  intros Hr. apply reset_same in Hr as [Hr Hrh].
  eapply effect_of_after in He; [|exact Hr]. revert He. clear -Hrh Hs Hb.
  unfold effect_of. intros (Hc & Hk & Hh). split; [done|]. split; [by auto|].
  intros Hd. split; [by apply Hh|]. intros _. apply Hrh. apply Hs, Hb. done.
Qed.

Lemma insert_rows_effect sql f rows resets d ok d' :
  sql_effect sql = Some f -> in_transaction d = true ->
  insert_rows d sql rows resets = (ok, d') ->
  effect_of (ok = true) (insert_all f rows) d d'.
Proof.
  intros Hf. revert d. induction rows as [|row rows IH]; intros d Ho; cbn.
  { intros [= <- <-]. by apply effect_of_return. }
  destruct (complete_row d sql row 1 _) as [completed d1] eqn:Hc.
  apply (complete_row_effect sql f) in Hc; [|done..].
  destruct completed; cbn [negb].
  - intros Hr%IH; [|by eapply effect_of_open]. by eapply effect_of_seq.
  - intros [= <- <-]. by eapply effect_of_stop.
Qed.
End Writes.

(** ** What a save writes *)

(** A post, then its mentions. *)
Definition entry_effect (entry : TimelineEntry) (db : Database) : option Database :=
  insert_post (post_parameters entry) db ≫=
  insert_all insert_mention
    (imap (mention_parameters entry.(entry_post).(message_id)) entry.(entry_post).(mentions)).

Fixpoint entries_effect (entries : list TimelineEntry) (db : Database) : option Database :=
  match entries with
  | [] => Some db
  | entry :: entries => entry_effect entry db ≫= entries_effect entries
  end.

Definition delete_rows : Database -> option Database :=
  run_effects [fun _ => delete_posts; fun _ => delete_from tSeen; fun _ => delete_from tMeta].

Definition snapshot_effect (sn : HistorySnapshot) (i : Identity) (db : Database)
  : option Database :=
  db ← delete_rows db;
  db ← insert_all insert_meta (meta_parameters sn i) db;
  db ← entries_effect sn.(snapshot_entries) db;
  insert_all insert_seen (map seen_parameters sn.(snapshot_seen_messages)) db.

Section Save.
Context {D : Type} `{ISqliteLaws D}.

Lemma errcode_or_error (d : D) fallback e d' :
  fallback <> HistoryError_None -> errcode_or d fallback = (e, d') ->
  d' = d /\ e <> HistoryError_None.
Proof. intros Hf [= <- <-]. split; [done|]. by apply error_for_result_error. Qed.

Lemma insert_entry_effect entry d e d' :
  in_transaction d = true -> insert_entry d entry = (e, d') ->
  effect_of (e = HistoryError_None) (entry_effect entry) d d'.
Proof.
  intros Ho. unfold insert_entry.
  destruct (bind_values d kInsertPost 1 _) as [bound d1] eqn:Hb.
  apply bind_values_same in Hb as [Hb Hbh].
  destruct bound; cbn [negb].
  2:{ intros [= <- <-]. apply effect_of_unhealthy; [done..|]. intros Hd. by apply Hbh in Hd. }
  destruct (complete_row d1 kInsertPost _ 8 true) as [completed d2] eqn:Hc.
  apply (complete_row_effect _ insert_post) in Hc; [|done|].
  2:{ destruct Hb as (_ & _ & -> & _). done. }
  pose proof (effect_of_same _ _ _ _ _ Hb Hc) as He.
  destruct completed; cbn [negb].
  2:{ intros [-> Hne]%errcode_or_error; [|done]. by eapply effect_of_stop. }
  destruct (insert_rows d2 kInsertMention _ true) as [ok d3] eqn:Hm.
  apply (insert_rows_effect _ insert_mention) in Hm; [|done|by eapply effect_of_open].
  intros Hr. assert (d' = d3 /\ (ok = true <-> e = HistoryError_None)) as [-> Hok].
  { destruct ok; cbn [negb] in Hr; [by injection Hr as <- <-|].
    by apply errcode_or_error in Hr as [-> Hne]. }
  eapply effect_of_seq; [exact He|done|]. by eapply effect_of_weaken.
Qed.

Lemma insert_entries_effect entries d e d' :
  in_transaction d = true -> insert_entries d entries = (e, d') ->
  effect_of (e = HistoryError_None) (entries_effect entries) d d'.
Proof.
  revert d. induction entries as [|entry entries IH]; intros d Ho; cbn.
  { intros [= <- <-]. by apply effect_of_return. }
  destruct (insert_entry d entry) as [e1 d1] eqn:He.
  apply insert_entry_effect in He; [|done].
  destruct (is_error e1) eqn:Herr.
  - apply is_error_true in Herr. intros [= <- <-]. by eapply effect_of_stop.
  - apply is_error_None in Herr. intros Hr%IH; [|by eapply effect_of_open].
    by eapply effect_of_seq.
Qed.

Lemma prepare_all_healthy (d : D) sqls :
  healthy d -> complete_schema (view d) ->
  Forall (fun sql => is_Some (sql_effect sql) \/ is_Some (sql_answer sql)) sqls ->
  prepare_all d sqls = SQLITE_OK.
Proof.
  intros Hh Hc. induction 1 as [|sql sqls Hsql Hall IH]; cbn; [done|].
  unfold prepare. by rewrite prepare_healthy.
Qed.

Lemma set_rows_has table rows db t :
  t = table \/ is_Some (db.(db_tables) !! t) ->
  is_Some ((set_rows table rows db).(db_tables) !! t).
Proof.
  cbn. destruct (decide (table = t)) as [->|Hne]; [by rewrite lookup_insert_eq; eauto|].
  rewrite lookup_insert_ne by done. by intros [->|?].
Qed.

Lemma delete_rows_complete db db' : delete_rows db = Some db' -> complete_schema db'.
Proof.
  unfold delete_rows. cbn [run_effects]. unfold delete_posts, delete_from. intros Hd.
  apply bind_Some in Hd as (db1 & Hp & Hd).
  apply bind_Some in Hp as (posts & Hp & Hm). apply bind_Some in Hm as (mentions & Hm & [= <-]).
  apply bind_Some in Hd as (db2 & Hs & Hd). apply bind_Some in Hs as (seen & Hs & [= <-]).
  apply bind_Some in Hd as (db3 & Hd & [= ->]). apply bind_Some in Hd as (meta & _ & [= <-]).
  unfold complete_schema. rewrite !Forall_cons. split_and!; [..|done];
    repeat (apply set_rows_has; first [by left | right]).
Qed.

Lemma write_rows_effect failpoint sn i d e d' :
  in_transaction d = true -> write_rows failpoint d sn i = (e, d') ->
  effect_of (e = HistoryError_None) (snapshot_effect sn i) d d'.
Proof.
  intros Ho Hr.
  apply (effect_of_ext _ (fun db => delete_rows db ≫=
    (fun db => insert_all insert_meta (meta_parameters sn i) db ≫=
    (fun db => entries_effect sn.(snapshot_entries) db ≫=
    (fun db => insert_all insert_seen (map seen_parameters sn.(snapshot_seen_messages)) db))))).
  { done. }
  revert Hr. unfold write_rows. destruct (exec_all d _) as [deleted d1] eqn:Hd.
  eapply exec_all_effect in Hd; [|by repeat constructor|done].
  destruct deleted; cbn [negb].
  2:{ intros [-> Hne]%errcode_or_error; [|done]. by eapply effect_of_stop. }
  assert (complete_schema (view d1)) as Hv1.
  { destruct Hd as (_ & Hk & _). destruct (Hk eq_refl) as [_ Hv].
    by eapply delete_rows_complete. }
  destruct (Z.eqb_spec (prepare_all d1 [kInsertMeta; kInsertPost; kInsertMention; kInsertSeen])
              SQLITE_OK) as [_|Hp]; cbn [negb].
  2:{ intros [= <- <-]. eapply effect_of_abort; [exact Hd|done|by apply error_for_result_error|].
      intros Hh. apply Hp, prepare_all_healthy; [done| |].
      2:{ by repeat (apply Forall_cons_2; [left; by eexists|]). }
      done. }
  intros Hr. eapply effect_of_seq; [exact Hd|done|]. apply (fun E => effect_of_open _ _ _ _ E eq_refl) in Hd.
  clear Hv1 Ho. revert Hd Hr. generalize d1. clear d1 d. intros d Ho Hr.
  destruct (insert_rows d kInsertMeta _ false) as [ok d1] eqn:Hm.
  apply (insert_rows_effect _ insert_meta) in Hm; [|done..].
  destruct ok; cbn [negb] in Hr.
  2:{ apply errcode_or_error in Hr as [-> Hne]; [|done]. by eapply effect_of_stop. }
  eapply effect_of_seq; [exact Hm|done|]. apply (fun E => effect_of_open _ _ _ _ E eq_refl) in Hm.
  destruct (insert_entries d1 _) as [error d2] eqn:He.
  apply insert_entries_effect in He; [|done].
  destruct (is_error error) eqn:Herr.
  { apply is_error_true in Herr. injection Hr as <- <-. by eapply effect_of_stop. }
  apply is_error_None in Herr as ->.
  destruct (fails_at failpoint d2 _) as [fails d3] eqn:Hf.
  apply fails_at_same in Hf as [Hf Hfh]. destruct fails.
  { injection Hr as <- <-. eapply effect_of_abort; [exact He|exact Hf|done|].
    intros Hh. by apply Hfh in Hh. }
  eapply effect_of_seq; [exact He|done|]. apply (fun E => effect_of_open _ _ _ _ E eq_refl) in He.
  eapply effect_of_same; [exact Hf|].
  destruct (insert_rows d3 kInsertSeen _ true) as [ok d4] eqn:Hs.
  apply (insert_rows_effect _ insert_seen) in Hs; [|done|].
  2:{ destruct Hf as (_ & _ & -> & _). done. }
  destruct ok; cbn [negb] in Hr.
  2:{ apply errcode_or_error in Hr as [-> Hne]; [|done].
      eapply effect_of_weaken; [|exact Hs]. by split. }
  destruct (fails_at failpoint d4 _) as [fails d5] eqn:Hf2.
  apply fails_at_same in Hf2 as [Hf2 Hfh2].
  assert (d' = d5 /\ (fails = false <-> e = HistoryError_None)) as [-> Hok]
    by (by destruct fails; injection Hr as <- <-).
  pose proof (effect_of_after _ _ _ _ _ Hs Hf2) as (Hc & Hk & Hh). split; [done|].
  split; [by auto|]. intros Hd. split; [by apply Hh|]. intros _. apply Hok, Hfh2, Hs, Hd.
Qed.
End Save.

(** ** What the queries answer *)

Definition stored_metadata (db : Database) : Result StoredMetadata HistoryError :=
  match metadata_rows start_metadata (order_by 0 (rows_of db tMeta)) with
  | failure error => failure error
  | success s =>
      if (s.(row_count) =? 0)%nat then
        if bool_decide ([to_i64 (Z.of_nat (length (rows_of db tPosts)));
                         to_i64 (Z.of_nat (length (rows_of db tSeen)))] = [0; 0])
        then success s.(scan_metadata) else failure HistoryError_InvalidData
      else if metadata_complete s then success (set_initialized s.(scan_metadata))
      else failure HistoryError_InvalidData
  end.

Definition stored_ledger (db : Database) : list SqlRow :=
  key_of [0%nat; 2%nat; 3%nat] <$> order_by 3 (rows_of db tSeen).

Definition ledger_holds (db : Database) (sn : HistorySnapshot) : bool :=
  match ledger_rows (stored_ledger db) sn.(snapshot_seen_messages) with
  | Some [] => true
  | _ => false
  end.

(** [check_transition] on the contents. *)
Definition transition (db : Database) (sn : HistorySnapshot) (i : Identity) : HistoryError :=
  match stored_metadata db with
  | failure error => error
  | success metadata =>
      if negb metadata.(metadata_initialized) then HistoryError_None
      else if negb (identity_matches metadata i) then HistoryError_IdentityMismatch
      else if (sn.(snapshot_last_assigned_order) <? metadata.(metadata_last_assigned_order)) ||
              (sn.(snapshot_last_seen_order) <? metadata.(metadata_last_seen_order))
      then HistoryError_InvalidSnapshot
      else if (sn.(snapshot_last_seen_order) =? metadata.(metadata_last_seen_order)) &&
              negb (ledger_holds db sn)
      then HistoryError_InvalidSnapshot
      else HistoryError_None
  end.

Lemma metadata_rows_error rows s e :
  metadata_rows s rows = failure e -> e = HistoryError_InvalidData.
Proof.
  revert s. induction rows as [|row rows IH]; intros s; cbn; [done|].
  destruct (metadata_row s row) as [s'|e'] eqn:Hr; [apply IH|]. intros [= ->].
  revert Hr. unfold metadata_row. repeat case_match; congruence.
Qed.

(** Rows that end early are refused where all of them would be. *)
Lemma metadata_rows_app rows rows' s :
  metadata_rows s (rows ++ rows') =
  match metadata_rows s rows with
  | success s => metadata_rows s rows'
  | failure e => failure e
  end.
Proof.
  revert s. induction rows as [|row rows IH]; intros s; cbn; [done|].
  by destruct (metadata_row s row).
Qed.

Lemma ledger_rows_prefix rows rows' expected :
  ledger_rows rows expected = None -> ledger_rows (rows ++ rows') expected = None.
Proof.
  revert expected. induction rows as [|row rows IH]; intros expected; cbn; [done|].
  destruct expected as [|r expected]; [done|]. destruct (ledger_row_matches row r); auto.
Qed.

Section Answers.
Context {D : Type} `{ISqliteLaws D}.

Lemma query_content d sql f rows final d' :
  sql_answer sql = Some f -> query d sql = (success (rows, final), d') ->
  (final = SQLITE_DONE -> rows = f [] (view d)) /\ rows `prefix_of` f [] (view d).
Proof.
  intros Hf. unfold query. case_match; [done|].
  destruct (sqlite3_steps d sql []) as [[rs fin] d1] eqn:Hs. intros [= <- <- <-].
  apply (steps_answer _ _ _ _ _ _ _ Hf) in Hs as (? & ? & ?). auto.
Qed.

Lemma query_works d sql f :
  sql_answer sql = Some f -> healthy d -> complete_schema (view d) ->
  exists d', query d sql = (success (f [] (view d), SQLITE_DONE), d') /\ same d d'.
Proof.
  intros Hf Hh Hc. unfold query, prepare. rewrite prepare_healthy by eauto. cbn.
  destruct (sqlite3_steps d sql []) as [[rows final] d1] eqn:Hs.
  pose proof Hs as Hs'. apply steps_same in Hs'; [|by eapply answer_no_effect].
  apply (steps_answer _ _ _ _ _ _ _ Hf) in Hs as (Hrows & _ & Hfin).
  exists d1. rewrite Hfin in * by done. by rewrite Hrows.
Qed.

(** A count, and what the functions that read integers make of it. *)
Lemma query_integer_content d sql f z o code d' :
  sql_answer sql = Some f -> f [] (view d) = [[Sql_Integer z]] ->
  query_integer d sql = (o, code, d') -> o = Some (to_i64 z) \/ o = None /\
    (healthy d -> complete_schema (view d) -> False).
Proof.
  intros Hf Hz. unfold query_integer, query_value.
  destruct (query d sql) as [[[rows final]|st] d1] eqn:Hq.
  - pose proof (query_content _ _ _ _ _ _ Hf Hq) as [Hdone _].
    assert (healthy d -> complete_schema (view d) ->
            rows = [[Sql_Integer z]] /\ final = SQLITE_DONE) as Hw.
    { intros Hh Hc. destruct (query_works d sql f Hf Hh Hc) as (d2 & Hq2 & _).
      rewrite Hq2 in Hq. by injection Hq as <- <- <-. }
    destruct rows as [|row [|row' rows]]; cbn.
    + intros [= <- <- <-]. right. split; [done|]. intros Hh Hc. by destruct (Hw Hh Hc).
    + destruct (is_integer (column row 0)) eqn:Hi; cbn.
      * destruct (Z.eqb_spec final SQLITE_DONE) as [->|Hne]; cbn; intros [= <- <- <-].
        -- rewrite Hz in Hdone. specialize (Hdone eq_refl). simplify_eq. by left.
        -- right. split; [done|]. intros Hh Hc. by destruct (Hw Hh Hc).
      * intros [= <- <- <-]. right. split; [done|]. intros Hh Hc.
        destruct (Hw Hh Hc) as [? _]. by simplify_eq.
    + destruct (is_integer (column row 0)); cbn; intros [= <- <- <-]; right;
        (split; [done|]); intros Hh Hc; by destruct (Hw Hh Hc).
  - intros [= <- <- <-]. right. split; [done|]. intros Hh Hc.
    destruct (query_works d sql f Hf Hh Hc) as (d2 & Hq2 & _). congruence.
Qed.

Lemma counts_content d posts seen r d' :
  length (rows_of (view d) tPosts) = posts -> length (rows_of (view d) tSeen) = seen ->
  query_integers d [kCountPosts; kCountSeen] = (r, d') ->
  r = success [to_i64 (Z.of_nat posts); to_i64 (Z.of_nat seen)] \/
  (exists code, r = failure code) /\ (healthy d -> complete_schema (view d) -> False).
Proof.
  intros Hp Hs. cbn [query_integers].
  destruct (query_integer d kCountPosts) as [[o c] d1] eqn:Hq1.
  pose proof Hq1 as S1. apply query_integer_same in S1; [|reflexivity].
  eapply query_integer_content in Hq1; [|reflexivity|cbn; by rewrite Hp].
  destruct Hq1 as [-> |[-> Hno]]; [|intros [= <- <-]; right; eauto].
  destruct (query_integer d1 kCountSeen) as [[o' c'] d2] eqn:Hq2.
  eapply query_integer_content in Hq2; [|reflexivity|].
  2:{ destruct S1 as (Hv & _). cbn. rewrite Hv. by rewrite Hs. }
  destruct Hq2 as [-> |[-> Hno]]; intros [= <- <-]; [by left|right].
  split; [eauto|]. intros Hh Hc. destruct S1 as (Hv & _ & _ & Hh'). apply Hno; [auto|].
  by rewrite Hv.
Qed.
End Answers.

Section Reading.
Context {D : Type} `{ISqliteLaws D}.

Lemma load_metadata_error d e d' :
  load_metadata d = (failure e, d') -> e <> HistoryError_None.
Proof.
  unfold load_metadata.
  repeat case_match; intros [= <- <-]; try (by apply error_for_result_error); try done.
  match goal with Hr : metadata_rows _ _ = failure _ |- _ =>
    by rewrite (metadata_rows_error _ _ _ Hr) end.
Qed.

Lemma ledger_matches_error d sn e d' :
  ledger_matches_snapshot d sn = (failure e, d') -> e <> HistoryError_None.
Proof.
  unfold ledger_matches_snapshot.
  repeat case_match; intros [= <- <-]; by apply error_for_result_error.
Qed.

Lemma load_metadata_spec d r d' :
  load_metadata d = (r, d') ->
  (forall m, r = success m -> stored_metadata (view d) = success m) /\
  (healthy d -> complete_schema (view d) -> r = stored_metadata (view d)).
Proof.
  unfold load_metadata. destruct (query d kSelectMeta) as [[[rows final]|st] d1] eqn:Hq.
  2:{ intros [= <- <-]. split; [done|]. intros Hh Hc.
      destruct (query_works d kSelectMeta _ eq_refl Hh Hc) as (d2 & Hq2 & _). congruence. }
  pose proof Hq as Hs. apply query_same in Hs; [|reflexivity].
  destruct (query_content _ kSelectMeta _ _ _ _ eq_refl Hq) as [Hdone _]. cbn beta in Hdone.
  assert (healthy d -> complete_schema (view d) -> final = SQLITE_DONE) as Hw.
  { intros Hh Hc. destruct (query_works d kSelectMeta _ eq_refl Hh Hc) as (d2 & Hq2 & _).
    rewrite Hq2 in Hq. by injection Hq as _ <- _. }
  destruct (metadata_rows start_metadata rows) as [s|e] eqn:Hr.
  2:{ intros [= <- <-]. split; [done|]. intros Hh Hc. rewrite Hdone in Hr by auto.
      unfold stored_metadata. by rewrite Hr. }
  destruct (Z.eqb_spec final SQLITE_DONE) as [->|Hne]; cbn [negb].
  2:{ intros [= <- <-]. split; [done|]. intros Hh Hc. by destruct Hne; auto. }
  rewrite Hdone in Hr by done. unfold stored_metadata. rewrite Hr.
  destruct (row_count s =? 0)%nat.
  2:{ destruct (metadata_complete s); cbn [negb]; intros [= <- <-]; split; naive_solver. }
  destruct Hs as (Hv & _ & _ & Hh). rewrite <- Hv.
  destruct (query_integers d1 _) as [r1 d2'] eqn:Hi.
  apply (counts_content _ _ _ _ _ eq_refl eq_refl) in Hi as [-> | [(code & ->) Hno]];
    intros [= <- <-]; [|split; [done|]; intros; exfalso; auto].
  by case_bool_decide; split; intros; simplify_eq.
Qed.

Lemma ledger_matches_spec d sn r d' :
  ledger_matches_snapshot d sn = (r, d') ->
  (forall b, r = success b -> ledger_holds (view d) sn = b) /\
  (healthy d -> complete_schema (view d) -> r = success (ledger_holds (view d) sn)).
Proof.
  unfold ledger_matches_snapshot, ledger_holds, stored_ledger.
  destruct (query d kSelectLedger) as [[[rows final]|st] d1] eqn:Hq.
  2:{ intros [= <- <-]. split; [done|]. intros Hh Hc.
      destruct (query_works d kSelectLedger _ eq_refl Hh Hc) as (d2 & Hq2 & _). congruence. }
  destruct (query_content _ kSelectLedger _ _ _ _ eq_refl Hq) as [Hdone Hpre].
  cbn beta in Hdone, Hpre.
  assert (healthy d -> complete_schema (view d) -> final = SQLITE_DONE) as Hw.
  { intros Hh Hc. destruct (query_works d kSelectLedger _ eq_refl Hh Hc) as (d2 & Hq2 & _).
    rewrite Hq2 in Hq. by injection Hq as _ <- _. }
  destruct (ledger_rows rows _) as [rest|] eqn:Hr.
  - destruct (Z.eqb_spec final SQLITE_DONE) as [->|Hne]; cbn [negb]; intros [= <- <-].
    + rewrite <- Hdone by done. rewrite Hr.
      split; [intros b [= <-]|intros _ _]; destruct rest; by case_bool_decide.
    + split; [done|]. intros Hh Hc. by destruct Hne; auto.
  - destruct Hpre as [tl ->]. rewrite (ledger_rows_prefix _ tl _ Hr). intros [= <- <-].
    split; [by intros b [= <-]|done].
Qed.

Lemma check_transition_spec d sn i e d' :
  check_transition d sn i = (e, d') ->
  (e = HistoryError_None -> transition (view d) sn i = HistoryError_None) /\
  (healthy d -> complete_schema (view d) -> e = transition (view d) sn i).
Proof.
  unfold check_transition, transition.
  destruct (load_metadata d) as [r d1] eqn:Hm. pose proof Hm as Hs. pose proof Hm as Hl.
  apply load_metadata_same in Hs as (Hv & _ & _ & Hh).
  apply load_metadata_spec in Hm as [Hm Hmh].
  destruct r as [metadata|error].
  2:{ intros [= <- <-]. split.
      - intros ->. by destruct (load_metadata_error _ _ _ Hl).
      - intros Hd Hc. by rewrite <- (Hmh Hd Hc). }
  rewrite (Hm metadata eq_refl). clear Hm Hmh Hl.
  destruct (metadata_initialized metadata); cbn [negb]; [|by intros [= <- <-]].
  destruct (identity_matches metadata i); cbn [negb]; [|by intros [= <- <-]].
  case_match; [by intros [= <- <-]|].
  destruct (_ =? _) eqn:Heq; cbn [andb]; [|by intros [= <- <-]].
  destruct (ledger_matches_snapshot d1 sn) as [r d2] eqn:Hr. pose proof Hr as Hl.
  apply ledger_matches_spec in Hr as [Hr Hrh]. rewrite Hv in Hr, Hrh.
  destruct r as [b|error]; intros [= <- <-].
  - rewrite (Hr b eq_refl). by destruct b.
  - split.
    + intros ->. by destruct (ledger_matches_error _ _ _ _ Hl).
    + intros Hd Hc. by specialize (Hrh (Hh Hd) Hc).
Qed.
End Reading.

(** ** The contents after a save *)

Lemma rows_of_set_rows table rows db t :
  rows_of (set_rows table rows db) t = if decide (table = t) then rows else rows_of db t.
Proof.
  unfold rows_of, set_rows. cbn. case_decide as Ht; [subst|].
  - by rewrite lookup_insert_eq.
  - by rewrite lookup_insert_ne.
Qed.

(** [rows] has been added to [table], and nothing else has changed. *)
Definition appended (table : bytes) (rows : list SqlRow) (db db' : Database) : Prop :=
  db'.(db_user_version) = db.(db_user_version) /\
  forall t, rows_of db' t = rows_of db t ++ if decide (table = t) then rows else [].

Lemma appended_nil table db : appended table [] db db.
Proof. split; [done|]. intros t. case_decide; by rewrite app_nil_r. Qed.

Lemma appended_app table rows rows' db db1 db2 :
  appended table rows db db1 -> appended table rows' db1 db2 ->
  appended table (rows ++ rows') db db2.
Proof.
  intros [Hv Ha] [Hv' Hb]. split; [congruence|]. intros t. rewrite Hb, Ha, <- app_assoc.
  by case_decide.
Qed.

Lemma sql_insert_appended table check keys row db db' :
  sql_insert table check keys row db = Some db' -> appended table [row] db db'.
Proof.
  unfold sql_insert. intros (rows & Hr & Hi)%bind_Some. case_match; [|done].
  injection Hi as <-. split; [done|]. intros t. rewrite rows_of_set_rows.
  case_decide as Ht; [subst|by rewrite app_nil_r]. unfold rows_of. by rewrite Hr.
Qed.

Lemma insert_mention_appended row db db' :
  insert_mention row db = Some db' -> appended tMentions [row] db db'.
Proof. unfold insert_mention. case_match; [|done]. apply sql_insert_appended. Qed.

Lemma insert_all_appended insert table (stored : list SqlValue -> SqlRow) rows db db' :
  (forall row db db', insert row db = Some db' -> appended table [stored row] db db') ->
  insert_all insert rows db = Some db' -> appended table (stored <$> rows) db db'.
Proof.
  intros Hins. revert db. induction rows as [|row rows IH]; intros db; cbn.
  { intros [= <-]. apply appended_nil. }
  intros (db1 & Hr & Ha)%bind_Some. apply Hins in Hr. apply IH in Ha.
  by apply (appended_app table [stored row] (stored <$> rows) db db1 db').
Qed.

(** The row of [seen_messages] for the parameters of its INSERT. *)
Definition seen_stored (parameters : list SqlValue) : SqlRow :=
  [column parameters 0; Sql_Integer 1; column parameters 1; column parameters 2].

Lemma insert_seen_appended parameters db db' :
  insert_seen parameters db = Some db' -> appended tSeen [seen_stored parameters] db db'.
Proof.
  unfold insert_seen. do 4 (destruct parameters; try done). apply sql_insert_appended.
Qed.

Definition mention_rows_of (entry : TimelineEntry) : list SqlRow :=
  imap (mention_parameters entry.(entry_post).(message_id)) entry.(entry_post).(mentions).

(** The tables hold exactly a snapshot of an identity. *)
Record stored_as (sn : HistorySnapshot) (i : Identity) (db : Database) : Prop := {
  stored_meta : rows_of db tMeta = meta_parameters sn i;
  stored_posts : rows_of db tPosts = map post_parameters sn.(snapshot_entries);
  stored_mentions : rows_of db tMentions = sn.(snapshot_entries) ≫= mention_rows_of;
  stored_seen : rows_of db tSeen =
    map (fun r => seen_stored (seen_parameters r)) sn.(snapshot_seen_messages)
}.

Lemma entries_effect_rows entries db db' :
  entries_effect entries db = Some db' ->
  (forall t, rows_of db' t = rows_of db t ++
    (if decide (t = tPosts) then map post_parameters entries else []) ++
    (if decide (t = tMentions) then entries ≫= mention_rows_of else [])).
Proof.
  revert db. induction entries as [|entry entries IH]; intros db; cbn.
  { intros [= <-] t. repeat case_decide; by rewrite !app_nil_r. }
  intros (db1 & He & Hes)%bind_Some t. rewrite (IH _ Hes).
  apply bind_Some in He as (db0 & Hp & Hm).
  apply sql_insert_appended in Hp as [_ Hp].
  apply (insert_all_appended _ tMentions id) in Hm as [_ Hm];
    [|intros; by apply insert_mention_appended].
  rewrite Hm, Hp, list_fmap_id, <- !app_assoc. f_equal.
  destruct (decide (t = tPosts)) as [->|Hnp].
  - rewrite (decide_True (P := tPosts = tPosts)), !decide_False by done. cbn. by rewrite !app_nil_r.
  - rewrite (decide_False (P := tPosts = t)) by done. cbn.
    destruct (decide (t = tMentions)) as [->|Hnm].
    + by rewrite decide_True.
    + rewrite decide_False by done. done.
Qed.

(** No mention without its post. *)
Definition foreign_keys_hold (db : Database) : Prop :=
  List.filter (fun row => negb (has_parent (rows_of db tPosts) row)) (rows_of db tMentions) = [].

Lemma delete_rows_empty db db' :
  foreign_keys_hold db -> delete_rows db = Some db' ->
  Forall (fun t => rows_of db' t = []) [tMeta; tPosts; tMentions; tSeen].
Proof.
  unfold delete_rows. cbn [run_effects]. unfold delete_posts, delete_from. intros Hf Hd.
  apply bind_Some in Hd as (db1 & Hp & Hd).
  apply bind_Some in Hp as (posts & Hp & Hm). apply bind_Some in Hm as (mentions & Hm & [= <-]).
  apply bind_Some in Hd as (db2 & Hs & Hd). apply bind_Some in Hs as (seen & _ & [= <-]).
  apply bind_Some in Hd as (db3 & Hd & [= ->]). apply bind_Some in Hd as (meta & _ & [= <-]).
  unfold foreign_keys_hold, rows_of in Hf. rewrite Hp, Hm in Hf. cbn [default from_option id] in Hf. rewrite Hf.
  by repeat apply Forall_cons_2; rewrite ?rows_of_set_rows.
Qed.

Lemma snapshot_effect_stored sn i db db' :
  foreign_keys_hold db -> snapshot_effect sn i db = Some db' -> stored_as sn i db'.
Proof.
  intros Hf. unfold snapshot_effect. intros (db1 & Hd & Hr)%bind_Some.
  apply (delete_rows_empty _ _ Hf) in Hd. rewrite !Forall_cons in Hd.
  destruct Hd as (Hm1 & Hp1 & Hn1 & Hs1 & _).
  apply bind_Some in Hr as (db2 & Hm & Hr). apply bind_Some in Hr as (db3 & He & Hs).
  apply (insert_all_appended _ tMeta id) in Hm as [_ Hm];
    [|intros; by eapply sql_insert_appended].
  apply (insert_all_appended _ tSeen seen_stored) in Hs as [_ Hs];
    [|intros; by eapply insert_seen_appended].
  pose proof (entries_effect_rows _ _ _ He) as Hes. rewrite list_fmap_id in Hm.
  split; rewrite Hs, Hes, Hm.
  - by rewrite Hm1, !app_nil_r.
  - rewrite Hp1. cbn. by rewrite !app_nil_r.
  - rewrite Hn1. cbn. by rewrite !app_nil_r.
  - rewrite Hs1. cbn. by rewrite <- list_fmap_compose.
Qed.

(** ** A save *)

Section Saving.
Context {D : Type} `{ISqliteLaws D}.

Lemma integrity_foreign_keys d d' :
  run_integrity_checks d = (HistoryError_None, d') -> foreign_keys_hold (view d).
Proof.
  unfold run_integrity_checks.
  destruct (query_text d _) as [[[integrity|] code] d1] eqn:Ht; cbn.
  2:{ intros [= He _]. by apply error_for_result_error in He. }
  apply query_text_same in Ht as (Hv & _); [|reflexivity].
  case_match; [by intros [=]|].
  destruct (query d1 _) as [[[rows final]|st] d2] eqn:Hq.
  2:{ intros [= He _]. by apply error_for_result_error in He. }
  destruct (query_content _ kForeignKeyCheck _ _ _ _ eq_refl Hq) as [Hdone _].
  destruct rows; [|by intros [=]]. destruct (Z.eqb_spec final SQLITE_DONE) as [->|Hne].
  2:{ intros [= He _]. by apply error_for_result_error in He. }
  intros _. specialize (Hdone eq_refl). rewrite Hv in Hdone. symmetry in Hdone.
  by apply fmap_nil_inv in Hdone.
Qed.

Lemma preflight_foreign_keys d d' :
  operation_preflight d = (HistoryError_None, d') -> foreign_keys_hold (view d).
Proof.
  unfold operation_preflight. destruct (query_integers d _) as [r d1] eqn:Hq.
  apply query_integers_same in Hq as Hs; [|by repeat constructor].
  destruct r as [values|code].
  2:{ intros [= He _]. by apply error_for_result_error in He. }
  repeat (case_match; try discriminate).
  - intros [= -> ->]. by rewrite is_error_true in *.
  - intros Hi. apply integrity_foreign_keys in Hi.
    destruct Hs as (Hv & _). rewrite <- Hv.
    match goal with He : verify_v3_schema _ = _ |- _ =>
      apply verify_v2_or_v3_schema_same in He as (Hv' & _) end. by rewrite <- Hv'.
Qed.

Lemma write_snapshot_spec failpoint d sn i e d' :
  in_transaction d = false -> write_snapshot failpoint d sn i = (e, d') ->
  in_transaction d' = false /\
  (e = HistoryError_None ->
     transition (committed d) sn i = HistoryError_None /\
     snapshot_effect sn i (committed d) = Some (committed d')) /\
  (e <> HistoryError_None -> committed d' = committed d) /\
  (healthy d -> complete_schema (committed d) -> healthy d' /\
     (transition (committed d) sn i <> HistoryError_None ->
        e = transition (committed d) sn i) /\
     (transition (committed d) sn i = HistoryError_None ->
        is_Some (snapshot_effect sn i (committed d)) -> e = HistoryError_None)).
Proof.
  intros Ho. unfold write_snapshot. pose proof (view_outside d Ho) as Hout.
  destruct (Transaction_begin d kBeginImmediate) as [started d1] eqn:Hb.
  apply Transaction_begin_spec in Hb as (Hc1 & Hok1 & Hno1 & Hh1); [|by right|done].
  destruct started; cbn [negb].
  2:{ intros [-> Hne]%errcode_or_error; [|done]. split; [by auto|]. split; [done|].
      split; [done|]. intros Hh. by destruct (Hh1 Hh). }
  destruct (Hok1 eq_refl) as [Ho1 Hv1]. rewrite Hout in Hv1. clear Hok1 Hno1.
  destruct (check_transition d1 sn i) as [t d2] eqn:Ht. pose proof Ht as Hs.
  apply check_transition_same in Hs as (Hv2 & Hc2 & Hi2 & Hh2).
  apply check_transition_spec in Ht as [Ht Hth]. rewrite Hv1 in Ht, Hth.
  destruct (is_error t) eqn:Herr.
  - apply is_error_true in Herr. intros Hf.
    apply finish_transaction_spec in Hf as (Hi & Hn & Hs & Hh); [|done..].
    split; [done|]. split; [intros He; by destruct (Hn He)|].
    split; [intros He; rewrite Hs by done; congruence|].
    intros Hd Hcs. destruct (Hh1 Hd) as [Hd1 _]. destruct (Hh (Hh2 Hd1)) as [Hd' ->].
    rewrite (Hth Hd1 Hcs) in *. done.
  - apply is_error_None in Herr as ->. specialize (Ht eq_refl).
    destruct (write_rows failpoint d2 sn i) as [error d3] eqn:Hw.
    apply write_rows_effect in Hw as (Hc3 & Hk3 & Hh3); [|congruence].
    rewrite Hv2, Hv1 in Hk3, Hh3. intros Hf.
    apply finish_transaction_spec in Hf as (Hi & Hn & Hs & Hh);
      [|done|intros He; by apply Hk3].
    split; [done|]. split; [|split].
    + intros He. destruct (Hn He) as [-> ->]. split; [done|]. by apply Hk3.
    + intros He. rewrite Hs by done. congruence.
    + intros Hd Hcs. destruct (Hh1 Hd) as [Hd1 _]. destruct (Hh3 (Hh2 Hd1)) as [Hd3 Hsome].
      destruct (Hh Hd3) as [Hd' ->]. split; [done|]. split; [by intros []|auto].
Qed.

Lemma save_snapshot_spec failpoint d sn i e d' :
  in_transaction d = false -> save_snapshot failpoint d sn i = (e, d') ->
  in_transaction d' = false /\
  (e <> HistoryError_None -> committed d' = committed d) /\
  (e = HistoryError_None -> exists candidate,
     reconcile_snapshot_dedupe sn = success candidate /\
     validate_snapshot candidate i = HistoryError_None /\
     transition (committed d) candidate i = HistoryError_None /\
     snapshot_effect candidate i (committed d) = Some (committed d') /\
     stored_as candidate i (committed d')).
Proof.
  intros Ho. unfold save_snapshot.
  destruct (reconcile_snapshot_dedupe sn) as [candidate|error] eqn:Hr.
  2:{ intros [= <- <-]. split; [done|]. split; [done|]. intros ->.
      revert Hr. unfold reconcile_snapshot_dedupe. repeat case_match; discriminate. }
  destruct (is_error (validate_snapshot candidate i)) eqn:Hval.
  { apply is_error_true in Hval. by intros [= <- <-]. }
  apply is_error_None in Hval.
  destruct (operation_preflight d) as [preflight d1] eqn:Hp. pose proof Hp as Hs.
  apply operation_preflight_same in Hs as (Hv & Hc & Hi & _).
  destruct (is_error preflight) eqn:Hpe.
  { apply is_error_true in Hpe. intros [= <- <-]. by rewrite Hi. }
  apply is_error_None in Hpe as ->. apply preflight_foreign_keys in Hp.
  intros Hw. apply write_snapshot_spec in Hw as (Hi' & Hn & He & _); [|congruence].
  rewrite Hc in Hn, He. rewrite (view_outside d Ho) in Hp.
  split; [done|]. split; [done|]. intros ->. destruct (Hn eq_refl) as [Ht Hst].
  exists candidate. split_and!; try done. by eapply snapshot_effect_stored.
Qed.
End Saving.
