(* ===== verification/HistoryRoundtrip.v ===== *)
(** * HistoryRoundtrip: what has been saved is loaded

    The values of rows and their order, the rows of a snapshot read back, and the
    theorems of the store: a save is all or nothing, a load returns the snapshot
    of the last save, the constraints of the schema never refuse a valid
    snapshot. *)
From Stdlib Require Import Sorting.Sorted.
From S2P Require Import Prelude Utf8 Text Uuid Identity Post Timeline Limits PostCodec DedupeWindow HistoryRecord HistorySchema HistoryStore HistoryLaws HistoryTheory.

(** ** Values *)

Lemma encode_uint64_be value : encode_uint64 value = be_bytes 8 value.
Proof.
  rewrite be_bytes_shifts. unfold encode_uint64. cbn [encode_uint64_loop].
  rewrite !Z.shiftr_shiftr by lia. reflexivity.
Qed.

Lemma decode_uint64_be b :
  length b = 8%nat -> decode_uint64 (Sql_Blob b) = Some (be_value b).
Proof.
  intros Hb. unfold decode_uint64. cbn [is_blob column_bytes negb]. rewrite Hb. cbn [Nat.eqb].
  destruct b as [|c b]; [done|]. cbn [column_blob negb orb mbind option_bind]. f_equal.
  apply (shift_accumulate _ _ 8); [|lia].
  intros z Hz. unfold u64. apply Z.mod_small. lia.
Qed.

Lemma decode_bind_uint64 value : is_u64 value -> decode_uint64 (bind_uint64 value) = Some value.
Proof.
  intros Hv. unfold bind_uint64. rewrite encode_uint64_be.
  rewrite decode_uint64_be by apply length_be_bytes. rewrite be_value_be_bytes.
  f_equal. apply Z.mod_small. unfold is_u64, UINT64_MAX in Hv. lia.
Qed.

(** Big-endian words are ordered as their values. *)
Lemma bytes_ltb_be_value b b' :
  length b = length b' -> bytes_ltb b b' = (be_value b <? be_value b').
Proof.
  revert b'. induction b as [|c b IH]; intros [|c' b'] Hl; try done.
  injection Hl as Hl. cbn [bytes_ltb].
  assert (forall x l, be_value (x :: l) = bval x * 256 ^ Z.of_nat (length l) + be_value l) as Hcons.
  { clear. intros x l. induction l as [|y l IH] using rev_ind.
    - unfold be_value. cbn. lia.
    - rewrite app_comm_cons, !be_value_snoc, IH, length_app, Nat.add_comm.
      cbn [length Nat.add]. rewrite Nat2Z.inj_succ, Z.pow_succ_r by lia. ring. }
  rewrite !Hcons, Hl. pose proof (be_value_range b) as Hr. pose proof (be_value_range b') as Hr'.
  rewrite Hl in Hr. set (p := 256 ^ Z.of_nat (length b')) in *.
  destruct (Z.ltb_spec (bval c) (bval c')); [symmetry; apply Z.ltb_lt; nia|].
  destruct (Z.ltb_spec (bval c') (bval c)); [symmetry; apply Z.ltb_ge; nia|].
  rewrite IH by done. assert (bval c = bval c') as -> by lia.
  destruct (Z.ltb_spec (be_value b) (be_value b')); symmetry;
    [apply Z.ltb_lt|apply Z.ltb_ge]; lia.
Qed.

Lemma bind_uint64_ltb v v' :
  is_u64 v -> is_u64 v' -> value_ltb (bind_uint64 v) (bind_uint64 v') = (v <? v').
Proof.
  intros Hv Hv'. unfold bind_uint64. cbn [value_ltb]. rewrite !encode_uint64_be.
  rewrite bytes_ltb_be_value by by rewrite !length_be_bytes.
  rewrite !be_value_be_bytes, !Z.mod_small; [done|..]; unfold is_u64, UINT64_MAX in *; lia.
Qed.

Lemma read_bind_uuid u : Uuid_wf u -> read_uuid (bind_uuid u) = Some u.
Proof.
  unfold Uuid_wf, read_uuid, bind_uuid. destruct u as [b]. cbn. intros Hl. rewrite Hl.
  by destruct b.
Qed.

(** Valid text holds no zero byte. *)
Lemma encode_utf8_zero cp : is_scalar cp -> x00 ∈ encode_utf8 cp -> cp = 0.
Proof.
  intros Hs Hin. apply (list_elem_of_fmap_2 bval) in Hin. change (0 ∈ map bval (encode_utf8 cp)) in Hin.
  unfold is_scalar in Hs. revert Hin.
  destruct (Z.leb_spec cp 0x7f); [rewrite (encode_1 cp) by lia|
    destruct (Z.leb_spec cp 0x7ff); [rewrite (encode_2 cp) by lia|
      destruct (Z.leb_spec cp 0xffff); [rewrite (encode_3 cp) by lia|
        rewrite (encode_4 cp) by lia]]];
    rewrite !elem_of_cons; intros Hin; destruct_or?; try (by apply elem_of_nil in Hin); zdiv_lia.
Qed.

Lemma text_no_zero value n user_id :
  validate_text value n user_id = TextError_None -> x00 ∉ value.
Proof.
  intros Hv%validate_text_None. destruct Hv as (_ & cps & Hd & Hverdict).
  apply utf8_decode_Some in Hd as [Hs ->]. apply text_verdict_None in Hverdict as [Hf _].
  intros Hin. unfold utf8_text in Hin. apply list_elem_of_In, in_concat in Hin.
  destruct Hin as (b & Hb & Hz). apply in_map_iff in Hb as (cp & <- & Hcp).
  apply list_elem_of_In in Hz, Hcp. rewrite Forall_forall in Hs, Hf.
  apply encode_utf8_zero in Hz as ->; [|by apply Hs]. specialize (Hf 0 Hcp).
  destruct user_id; discriminate.
Qed.

Lemma read_text_valid value n user_id :
  validate_text value n user_id = TextError_None -> read_text (Sql_Text value) n = Some value.
Proof.
  intros Hv. pose proof (text_no_zero _ _ _ Hv) as Hz.
  apply validate_text_None in Hv as [Hl _]. unfold read_text.
  cbn [is_text negb column_text mbind option_bind]. rewrite bool_decide_false by done.
  destruct (Nat.eqb_spec (length value) 0); [lia|].
  by destruct (Nat.ltb_spec n (length value)); [lia|done].
Qed.

Lemma to_i64_id z : is_i64 z -> to_i64 z = z.
Proof.
  unfold is_i64, INT64_MIN, INT64_MAX, to_i64, u64. intros Hz.
  destruct (Z.leb_spec (z mod 18446744073709551616) INT64_MAX) as [Hl|Hl];
    unfold INT64_MAX in Hl; zdiv_lia.
Qed.

Lemma to_i64_range z : is_i64 (to_i64 z).
Proof.
  unfold is_i64, INT64_MIN, to_i64, u64.
  pose proof (Z.mod_pos_bound z 18446744073709551616 ltac:(lia)).
  destruct (Z.leb_spec (z mod 18446744073709551616) INT64_MAX) as [Hl|Hl];
    unfold INT64_MAX in *; lia.
Qed.

(** ** Order *)

(** Sorting leaves a sorted list alone. *)
Lemma sort_by_sorted {A} (lt : A -> A -> bool) l :
  StronglySorted (fun x y => lt y x = false) l -> sort_by lt l = l.
Proof.
  induction 1 as [|x l Hs IH Hx]; [done|]. unfold sort_by in *. cbn. rewrite IH.
  destruct l as [|y l]; [done|]. cbn. apply Forall_inv in Hx. by rewrite Hx.
Qed.

Lemma StronglySorted_fmap {A B} (R : A -> A -> Prop) (S : B -> B -> Prop) (f : A -> B) l :
  (forall x y, x ∈ l -> y ∈ l -> R x y -> S (f x) (f y)) -> StronglySorted R l ->
  StronglySorted S (f <$> l).
Proof.
  intros HRS. induction 1 as [|x l Hs IH Hx]; cbn; constructor.
  - apply IH. intros y z Hy Hz. apply HRS; by right.
  - apply Forall_fmap. rewrite Forall_forall in Hx |- *. intros y Hy. cbn.
    apply HRS; [by left|by right|by apply Hx].
Qed.

(** Rows in the order of a big-endian column. *)
Lemma order_by_uint64 {A} index (row : A -> SqlRow) (key : A -> Z) l :
  (forall a, column (row a) index = bind_uint64 (key a)) ->
  Forall (fun a => is_u64 (key a)) l -> StronglySorted Z.lt (key <$> l) ->
  order_by index (row <$> l) = row <$> l.
Proof.
  intros Hcol Hu Hs. unfold order_by. apply sort_by_sorted.
  apply (StronglySorted_fmap (fun a b => key a < key b)).
  - intros a b Ha Hb Hab. rewrite !Hcol. rewrite Forall_forall in Hu.
    rewrite bind_uint64_ltb by auto. by apply Z.ltb_ge, Z.lt_le_incl.
  - clear -Hs. induction l as [|a l IH]; [constructor|]. cbn in Hs.
    apply StronglySorted_inv in Hs as [Hs Ha]. constructor; [auto|].
    apply (Forall_fmap key) in Ha. exact Ha.
Qed.

(** ** The metadata of a saved snapshot *)

Definition metadata_of (sn : HistorySnapshot) (i : Identity) : StoredMetadata :=
  mkStoredMetadata true true i.(Identity_install_id).(InstallId_uuid).(Uuid_bytes)
    sn.(snapshot_last_assigned_order) sn.(snapshot_last_seen_order).

(** The four rows of [meta]. *)
Ltac metadata_key :=
  unfold metadata_row; cbn [column nth is_text column_text is_blob negb orb row_count
    Nat.ltb Nat.leb];
  repeat first [rewrite bool_decide_false by done | rewrite bool_decide_true by done];
  cbn -[decode_uint64].

Lemma metadata_row_dedupe :
  metadata_row start_metadata [Sql_Text (str "dedupe_initialized"); Sql_Blob [x01]] =
  success (mkMetadataScan (mkStoredMetadata false true (replicate 16 x00) 0 0)
             false false false true 1).
Proof. metadata_key. reflexivity. Qed.

Lemma metadata_row_install b :
  length b = 16%nat ->
  metadata_row (mkMetadataScan (mkStoredMetadata false true (replicate 16 x00) 0 0)
                  false false false true 1) [Sql_Text (str "install_id"); Sql_Blob b] =
  success (mkMetadataScan (mkStoredMetadata false true b 0 0) true false false true 2).
Proof. intros Hb. metadata_key. rewrite Hb. by destruct b. Qed.

Lemma metadata_row_assigned b v value :
  decode_uint64 value = Some v -> is_blob value = true ->
  metadata_row (mkMetadataScan (mkStoredMetadata false true b 0 0) true false false true 2)
    [Sql_Text (str "last_assigned_order"); value] =
  success (mkMetadataScan (mkStoredMetadata false true b v 0) true true false true 3).
Proof. intros Hv Hb. metadata_key. by rewrite Hb, Hv. Qed.

Lemma metadata_row_seen b v w value :
  decode_uint64 value = Some w -> is_blob value = true ->
  metadata_row (mkMetadataScan (mkStoredMetadata false true b v 0) true true false true 3)
    [Sql_Text (str "last_seen_order"); value] =
  success (mkMetadataScan (mkStoredMetadata false true b v w) true true true true 4).
Proof. intros Hv Hb. metadata_key. by rewrite Hb, Hv. Qed.

Lemma stored_metadata_of sn i db :
  stored_as sn i db -> Uuid_wf i.(Identity_install_id).(InstallId_uuid) ->
  is_u64 sn.(snapshot_last_assigned_order) -> is_u64 sn.(snapshot_last_seen_order) ->
  stored_metadata db = success (metadata_of sn i).
Proof.
  intros [Hm _ _ _] Hi Ha Hs. unfold stored_metadata. rewrite Hm.
  set (install := bind_uuid i.(Identity_install_id).(InstallId_uuid)).
  assert (order_by 0 (meta_parameters sn i) =
    [ [Sql_Text (str "dedupe_initialized"); Sql_Blob [x01]];
      [Sql_Text (str "install_id"); install];
      [Sql_Text (str "last_assigned_order"); bind_uint64 sn.(snapshot_last_assigned_order)];
      [Sql_Text (str "last_seen_order"); bind_uint64 sn.(snapshot_last_seen_order)] ]) as ->
    by reflexivity.
  subst install. unfold bind_uuid. cbn [metadata_rows].
  rewrite metadata_row_dedupe, metadata_row_install by done.
  rewrite (metadata_row_assigned _ _ _ (decode_bind_uint64 _ Ha)) by done.
  by rewrite (metadata_row_seen _ _ _ _ (decode_bind_uint64 _ Hs)).
Qed.

(** ** The mentions of a post *)

Lemma filter_none {A} (f : A -> bool) l : Forall (fun a => f a = false) l -> List.filter f l = [].
Proof. induction 1 as [|a l Ha Hl IH]; cbn; [done|]. by rewrite Ha. Qed.

Lemma filter_all {A} (f : A -> bool) l : Forall (fun a => f a = true) l -> List.filter f l = l.
Proof. induction 1 as [|a l Ha Hl IH]; cbn; [done|]. by rewrite Ha, IH. Qed.

Lemma mention_rows_of_key entry :
  Forall (fun row => key_of [0%nat] row =
            [bind_uuid entry.(entry_post).(message_id).(MessageId_uuid)]) (mention_rows_of entry).
Proof.
  apply Forall_forall. intros row (k & Hk)%list_elem_of_lookup.
  unfold mention_rows_of in Hk. rewrite list_lookup_imap in Hk.
  by apply fmap_Some in Hk as (m & _ & ->).
Qed.

Lemma bind_uuid_inj (m m' : MessageId) :
  [bind_uuid m.(MessageId_uuid)] = [bind_uuid m'.(MessageId_uuid)] -> m = m'.
Proof. destruct m as [[b]], m' as [[b']]. unfold bind_uuid. cbn. congruence. Qed.

Definition mentions_rows_for (m : MessageId) (rows : list SqlRow) : list SqlRow :=
  List.filter (fun row => bool_decide (key_of [0%nat] row = [bind_uuid m.(MessageId_uuid)])) rows.

Lemma mentions_rows_for_other entry m :
  entry_id entry <> m -> mentions_rows_for m (mention_rows_of entry) = [].
Proof.
  intros Hne. apply filter_none. eapply Forall_impl; [apply mention_rows_of_key|].
  intros row Hk. cbn beta. rewrite Hk. apply bool_decide_eq_false. intros He.
  by apply bind_uuid_inj in He.
Qed.

Lemma mentions_rows_for_own entry :
  mentions_rows_for (entry_id entry) (mention_rows_of entry) =
  mention_rows_of entry.
Proof.
  apply filter_all. eapply Forall_impl; [apply mention_rows_of_key|].
  intros row Hk. cbn beta. by rewrite Hk, bool_decide_true.
Qed.

(** With distinct identifiers, the rows found are the rows of the post. *)
Lemma mentions_rows_for_entry entries entry :
  NoDup (entry_id <$> entries) -> entry ∈ entries ->
  mentions_rows_for (entry_id entry) (entries ≫= mention_rows_of) = mention_rows_of entry.
Proof.
  induction entries as [|e entries IH]; [by intros _ ?%elem_of_nil|].
  cbn [fmap list_fmap]. intros [Hni Hnd]%NoDup_cons Hin.
  cbn [mbind list_bind]. unfold mentions_rows_for. rewrite List.filter_app.
  fold (mentions_rows_for (entry_id entry) (mention_rows_of e)).
  fold (mentions_rows_for (entry_id entry) (entries ≫= mention_rows_of)).
  apply elem_of_cons in Hin as [->|Hin].
  - rewrite (mentions_rows_for_own e). rewrite <- (app_nil_r (mention_rows_of e)) at 2. f_equal.
    clear IH Hnd. induction entries as [|e' entries IH]; [done|].
    cbn [mbind list_bind]. unfold mentions_rows_for. rewrite List.filter_app.
    apply not_elem_of_cons in Hni as [Hne Hni].
    fold (mentions_rows_for (entry_id e) (mention_rows_of e')).
    rewrite mentions_rows_for_other by (by intros He; apply Hne).
    by apply IH.
  - rewrite mentions_rows_for_other; [by apply IH|].
    intros He. apply Hni. apply list_elem_of_fmap. by exists entry.
Qed.

Lemma imap_sorted {A B} (R : B -> B -> Prop) (f : nat -> A -> B) l :
  (forall j k a b, (j < k)%nat -> R (f j a) (f k b)) -> StronglySorted R (imap f l).
Proof.
  revert f. induction l as [|a l IH]; intros f Hf; cbn; constructor.
  - apply IH. intros. apply Hf. lia.
  - apply Forall_forall. intros b (k & Hk)%list_elem_of_lookup.
    rewrite list_lookup_imap in Hk. apply fmap_Some in Hk as (x & _ & ->). apply Hf. lia.
Qed.

Lemma mention_rows_of_ordered entry : order_by 1 (mention_rows_of entry) = mention_rows_of entry.
Proof.
  apply sort_by_sorted, imap_sorted. intros j k a b Hjk. cbn. apply Z.ltb_ge. lia.
Qed.

Lemma mention_rows_read m ms acc :
  Forall InstallId_wf ms -> (length acc + length ms <= kMaxMentions)%nat ->
  mention_rows acc (key_of [1%nat; 2%nat] <$>
    imap (fun k => mention_parameters m (length acc + k)) ms) =
  Some (acc ++ map InstallId_uuid ms).
Proof.
  intros Hwf. revert acc. induction Hwf as [|x ms [Hx _] Hwf IH]; intros acc Hl; cbn.
  { by rewrite app_nil_r. }
  cbn in Hl. unfold mention_row. destruct (Nat.leb_spec kMaxMentions (length acc)); [lia|].
  cbn [column nth is_integer column_int64 negb orb].
  rewrite Nat.add_0_r, to_i64_id, Z.eqb_refl
    by (unfold is_i64, INT64_MIN, INT64_MAX, kMaxMentions in *; lia).
  cbn [negb orb]. rewrite (read_bind_uuid _ Hx). cbn [mbind option_bind].
  specialize (IH (acc ++ [InstallId_uuid x])). rewrite length_app in IH. cbn in IH.
  rewrite <- app_assoc in IH. cbn in IH. rewrite <- IH by lia. f_equal. f_equal.
  apply imap_ext. intros k y _. cbn. f_equal. lia.
Qed.

(** ** Reads of a saved snapshot *)

(** [a] is answered, or the connection has failed. *)
Definition answers {D A} `{ISqliteView D} (d : D) (r : Result A HistoryError) (a : A) : Prop :=
  r = success a \/ (exists e, r = failure e) /\ ~ (healthy d /\ complete_schema (view d)).

Lemma answers_same {D A} `{ISqliteView D} (d d' : D) (r : Result A HistoryError) a :
  same d d' -> answers d' r a -> answers d r a.
Proof.
  intros (Hv & _ & _ & Hh) [->|[He Hn]]; [by left|right]. split; [done|].
  intros [Hd Hc]. apply Hn. rewrite Hv. auto.
Qed.

Section Reads.
Context {D : Type} `{ISqliteLaws D}.

Lemma read_mentions_spec sn i entry d r d' :
  stored_as sn i (view d) -> NoDup (entry_id <$> sn.(snapshot_entries)) ->
  entry ∈ sn.(snapshot_entries) -> PostPayload_wf entry.(entry_post) ->
  read_mentions d (entry_id entry).(MessageId_uuid) = (r, d') ->
  answers d r (map InstallId_uuid entry.(entry_post).(mentions)).
Proof.
  intros Hst Hnd Hin Hwf. unfold read_mentions.
  set (id := (entry_id entry).(MessageId_uuid)).
  destruct (sqlite3_bind d kSelectMentions 1 (bind_uuid id)) as [code d1] eqn:Hb.
  apply bind_law in Hb as [Hs Hbh]. destruct (Z.eqb_spec code SQLITE_OK) as [_|Hne]; cbn [negb].
  2:{ intros [= <- <-]. right. split; [eauto|]. intros [Hh _]. auto. }
  intros Hr. eapply answers_same; [exact Hs|].
  destruct Hs as (Hv & _). rewrite <- Hv in Hst. clear Hbh.
  destruct (sqlite3_steps d1 kSelectMentions _) as [[rows final] d2] eqn:Hq.
  pose proof Hq as Hs2. apply steps_same in Hs2; [|reflexivity].
  eapply steps_answer in Hq as (Hdone & _ & Hfin); [|reflexivity].
  assert (mention_rows [] (key_of [1%nat; 2%nat] <$> mention_rows_of entry) =
          Some (map InstallId_uuid entry.(entry_post).(mentions))) as Hread.
  { apply (mention_rows_read _ _ []); [apply Hwf|]. cbn. apply Hwf. }
  assert (final = SQLITE_DONE ->
    mention_rows [] rows = Some (map InstallId_uuid entry.(entry_post).(mentions))) as Hrows.
  { intros Hf. rewrite (Hdone Hf), (stored_mentions _ _ _ Hst).
    pose proof (mentions_rows_for_entry _ _ Hnd Hin) as Hown. unfold mentions_rows_for in Hown.
    fold id in Hown. rewrite Hown. by rewrite mention_rows_of_ordered. }
  destruct (mention_rows [] rows) as [ids|].
  2:{ injection Hr as <- <-. right. split; [eauto|]. intros [Hh _]. by specialize (Hrows (Hfin Hh)). }
  destruct (Z.eqb_spec final SQLITE_DONE) as [Hf|Hne]; cbn [negb] in Hr.
  2:{ injection Hr as <- <-. right. split; [eauto|]. intros [Hh _]. auto. }
  destruct (reset_statement d2 kSelectMentions) as [ok d3] eqn:Hres.
  apply reset_same in Hres as [_ Hrh]. destruct ok; cbn [negb] in Hr; injection Hr as <- <-.
  - left. f_equal. specialize (Hrows Hf). congruence.
  - right. split; [eauto|]. intros [Hh _]. destruct Hs2 as (_ & _ & _ & Hh2).
    by specialize (Hrh (Hh2 Hh)).
Qed.
End Reads.

(** ** The posts of a saved snapshot *)

Lemma read_post_row_of metadata orders entry :
  PostPayload_wf entry.(entry_post) -> is_u64 entry.(received_order) ->
  entry.(received_order) <> 0 -> entry.(received_order) ∉ orders ->
  entry.(received_order) <= metadata.(metadata_last_assigned_order) ->
  let post := entry.(entry_post) in
  read_post_row metadata orders (post_parameters entry) =
  Some (mkPostRow post.(message_id).(MessageId_uuid) post.(sender_id).(InstallId_uuid)
          post.(sender_sequence) post.(sender_user_id).(UserId_value)
          post.(body).(PostBody_value) entry.(received_order)).
Proof.
  intros [[Hm _] [Hsd _] Hseq Hu Hb _ _ _ _ _] Ho Hne Hni Hle.
  unfold read_post_row, post_parameters, column. cbn [nth].
  rewrite (read_bind_uuid _ Hm), (read_bind_uuid _ Hsd). cbn [mbind option_bind].
  rewrite (decode_bind_uint64 (sender_sequence (entry_post entry))) by (unfold is_u64; lia).
  cbn [mbind option_bind].
  destruct (Z.eqb_spec (sender_sequence (entry_post entry)) 0); [lia|].
  rewrite (read_text_valid _ _ _ Hu), (read_text_valid _ _ _ Hb). cbn [mbind option_bind].
  rewrite (decode_bind_uint64 _ Ho). cbn [mbind option_bind].
  destruct (Z.eqb_spec (received_order entry) 0); [lia|]. rewrite bool_decide_false by done.
  by destruct (Z.ltb_spec (metadata_last_assigned_order metadata) (received_order entry)); [lia|].
Qed.

Lemma read_reply_of entry :
  PostPayload_wf entry.(entry_post) ->
  read_reply (column (post_parameters entry) 5) =
  Some (MessageId_uuid <$> entry.(entry_post).(reply_to)).
Proof.
  intros Hwf. unfold post_parameters, column. cbn [nth].
  destruct (reply_to (entry_post entry)) as [reply|] eqn:Hr; [|done]. cbn [optional_value].
  destruct (wf_reply_to _ Hwf _ Hr) as [[Hu _] _]. unfold read_reply.
  by rewrite (read_bind_uuid _ Hu).
Qed.

Lemma read_time_of entry :
  PostPayload_wf entry.(entry_post) ->
  read_time (column (post_parameters entry) 6) = Some entry.(entry_post).(sender_time).
Proof.
  intros Hwf. unfold post_parameters, column. cbn [nth].
  destruct (sender_time (entry_post entry)) as [t|] eqn:Ht; [|done].
  cbn. by rewrite to_i64_id by by apply (wf_sender_time _ Hwf).
Qed.

(** What [validate_entry] has checked, and the variables after it. *)
Lemma validate_entry_Some identity dedupe v entry v' :
  validate_entry identity dedupe v entry = Some v' ->
  let order := entry.(received_order) in
  let post := entry.(entry_post) in
  (order <> 0 /\ v.(scan_previous_order) < order /\
   (post.(message_id) ∉ v.(scan_message_ids)) /\ (order ∉ v.(scan_received_orders))) /\
  (entry.(entry_origin) <> ReceivedOrigin ->
     post.(sender_id) = identity.(Identity_install_id) /\
     post.(sender_sequence) <= identity.(last_issued_sender_sequence) /\
     v.(scan_previous_local_sequence) < post.(sender_sequence)) /\
  (exists encoded, encode_post post = success encoded /\
     classify dedupe post.(message_id) encoded = DedupeClassification_Duplicate) /\
  v'.(scan_message_ids) = post.(message_id) :: v.(scan_message_ids) /\
  v'.(scan_received_orders) = order :: v.(scan_received_orders) /\
  v'.(scan_maximum_order) = Z.max v.(scan_maximum_order) order /\
  v'.(scan_previous_order) = order /\
  v'.(scan_previous_local_sequence) =
    match entry.(entry_origin) with
    | LocalDelivery _ => post.(sender_sequence)
    | ReceivedOrigin => v.(scan_previous_local_sequence)
    end.
Proof.
  intros Hv order post. unfold validate_entry in Hv. fold order post in Hv.
  destruct (_ || bool_decide (order ∈ _)) eqn:Hc; [done|]. reflect_bools.
  assert (forall l q, match encode_post post with
      | failure _ => None
      | success encoded =>
          match classify dedupe (message_id post) encoded with
          | DedupeClassification_Duplicate =>
              Some (mkSnapshotScan (message_id post :: scan_message_ids v)
                (order :: scan_received_orders v) (Z.max (scan_maximum_order v) order) order l q)
          | _ => None
          end
      end = Some v' ->
    (exists encoded, encode_post post = success encoded /\
       classify dedupe post.(message_id) encoded = DedupeClassification_Duplicate) /\
    v' = mkSnapshotScan (message_id post :: scan_message_ids v)
           (order :: scan_received_orders v) (Z.max (scan_maximum_order v) order) order l q)
    as Hlast.
  { intros l q. destruct (encode_post post) as [encoded|] eqn:He; [|done].
    destruct (classify _ _ _) eqn:Hcl; try done. intros [= <-]. by eauto. }
  destruct (entry_origin entry) as [|state].
  - apply Hlast in Hv as [Henc ->]. cbn. split_and!; try done.
  - destruct (_ || _) eqn:Hl in Hv; [done|]. reflect_bools.
    destruct (if state is Delivery_Queued then _ else false); [done|].
    apply Hlast in Hv as [Henc ->]. cbn. split_and!; try done; by intros.
Qed.

(** The variables of the two loops agree: that of [validate_snapshot], and that
    of [read_snapshot] over the rows it writes. *)
Definition scans_agree (v : SnapshotScan) (s : PostScan) : Prop :=
  s.(read_orders) = v.(scan_received_orders) /\
  s.(read_previous_local) = v.(scan_previous_local_sequence).

Lemma finish_entry_of identity dedupe v v' s entry :
  validate_entry identity dedupe v entry = Some v' -> scans_agree v s ->
  PostPayload_wf entry.(entry_post) ->
  let post := entry.(entry_post) in
  exists s', finish_entry identity s (post_parameters entry)
    (mkPostRow post.(message_id).(MessageId_uuid) post.(sender_id).(InstallId_uuid)
       post.(sender_sequence) post.(sender_user_id).(UserId_value)
       post.(body).(PostBody_value) entry.(received_order))
    (MessageId_uuid <$> post.(reply_to)) post.(sender_time)
    (map InstallId_uuid post.(mentions)) = Some s' /\
  s'.(read_entries) = s.(read_entries) ++ [entry] /\ scans_agree v' s'.
Proof.
  intros Hv [Ho Hp] Hwf post. unfold finish_entry.
  assert (post_input (mkPostRow post.(message_id).(MessageId_uuid)
    post.(sender_id).(InstallId_uuid) post.(sender_sequence) post.(sender_user_id).(UserId_value)
    post.(body).(PostBody_value) entry.(received_order)) (map InstallId_uuid post.(mentions))
    (MessageId_uuid <$> post.(reply_to)) post.(sender_time) = PostPayload_input post) as ->
    by (by destruct post).
  rewrite PostPayload_create_input by done.
  apply validate_entry_Some in Hv as (_ & Hlocal & _ & _ & Ho' & _ & _ & Hp').
  fold post in Hlocal, Hp'. unfold read_origin, post_parameters, column. cbn [nth].
  unfold scans_agree. rewrite Ho', Hp'. clear Ho' Hp'.
  destruct entry as [post0 order origin]. cbn [entry_origin entry_post received_order] in *.
  destruct origin as [|state].
  - eexists. split; [reflexivity|]. cbn. by rewrite Ho.
  - destruct (Hlocal ltac:(done)) as (Hsender & Hlast & Hprev).
    rewrite <- Hp in Hprev.
    change (column_int (Sql_Integer 1)) with 1. cbn [is_integer negb Z.eqb Pos.eqb].
    replace (local_state_of (column_int (Sql_Integer (local_state_value state))))
      with (Some state) by (by destruct state).
    rewrite bool_decide_true by done.
    destruct (Z.ltb_spec (last_issued_sender_sequence identity) (sender_sequence post)); [lia|].
    destruct (Z.leb_spec (sender_sequence post) (read_previous_local s)); [lia|].
    eexists. split; [reflexivity|]. cbn. by rewrite Ho.
Qed.

(** ** The whole timeline *)

Lemma validate_entries_orders identity dedupe v entries v' :
  validate_entries identity dedupe v entries = Some v' ->
  StronglySorted Z.lt (received_order <$> entries) /\
  Forall (fun e => v.(scan_previous_order) < e.(received_order) <= v'.(scan_maximum_order))
    entries /\
  v.(scan_maximum_order) <= v'.(scan_maximum_order) /\
  NoDup (entry_id <$> entries) /\
  Forall (fun e => entry_id e ∉ v.(scan_message_ids)) entries.
Proof.
  revert v. induction entries as [|e entries IH]; intros v; cbn.
  { intros [= <-]. split_and!; try constructor. lia. }
  destruct (validate_entry identity dedupe v e) as [v1|] eqn:He; [|done].
  apply validate_entry_Some in He as ((_ & Hlt & Hid & _) & _ & _ & Hids & _ & Hmax & Hprev & _).
  intros (Hs & Hf & Hm & Hnd & Hni)%IH. rewrite Hids, Hmax, Hprev in *. split_and!.
  - constructor; [done|]. apply Forall_fmap. eapply Forall_impl; [exact Hf|]. cbn. lia.
  - constructor; [lia|]. eapply Forall_impl; [exact Hf|]. cbn. lia.
  - lia.
  - constructor; [|done]. intros (x & Hx & Hin)%list_elem_of_fmap.
    rewrite Forall_forall in Hni. apply (Hni x Hin). rewrite <- Hx. by left.
  - constructor; [done|]. eapply Forall_impl; [exact Hni|]. cbn.
    intros x Hx. by apply not_elem_of_cons in Hx as [_ ?].
Qed.

(** What is known of the entries of a valid snapshot. *)
Record valid_entries (sn : HistorySnapshot) (i : Identity) : Prop := {
  ve_size : (length sn.(snapshot_entries) <= kMaxTimelineEntries)%nat;
  ve_sorted : StronglySorted Z.lt (received_order <$> sn.(snapshot_entries));
  ve_orders : Forall (fun e => 0 < e.(received_order) <= sn.(snapshot_last_assigned_order))
    sn.(snapshot_entries);
  ve_ids : NoDup (entry_id <$> sn.(snapshot_entries));
  ve_scan : exists dedupe v,
    Window_restore kDefaultSeenMessageCapacity sn.(snapshot_last_seen_order)
      sn.(snapshot_seen_messages) = success dedupe /\
    validate_entries i dedupe start_snapshot_scan sn.(snapshot_entries) = Some v
}.

Lemma validate_snapshot_None sn i :
  validate_snapshot sn i = HistoryError_None -> valid_entries sn i.
Proof.
  unfold validate_snapshot.
  destruct (Nat.ltb_spec kMaxTimelineEntries (length (snapshot_entries sn))); [done|].
  destruct (Window_restore _ _ _) as [dedupe|] eqn:Hw; [|done].
  destruct (validate_entries _ _ _ _) as [v|] eqn:Hv; [|done].
  destruct (Z.leb_spec (scan_maximum_order v) (snapshot_last_assigned_order sn)); [|done].
  intros _. pose proof Hv as Hv'. apply validate_entries_orders in Hv' as (Hs & Hf & _ & Hnd & _).
  split; [done|done| |done|by eauto].
  eapply Forall_impl; [exact Hf|]. cbn. lia.
Qed.

Section Timeline.
Context {D : Type} `{ISqliteLaws D}.

Lemma read_entries_loop_spec sn i dedupe rest d v v' s r d' :
  stored_as sn i (view d) -> NoDup (entry_id <$> sn.(snapshot_entries)) ->
  Forall (fun e => e ∈ sn.(snapshot_entries)) rest ->
  Forall (fun e => PostPayload_wf e.(entry_post)) rest ->
  Forall (fun e => is_u64 e.(received_order)) rest ->
  Forall (fun e => e.(received_order) <= sn.(snapshot_last_assigned_order)) rest ->
  (length s.(read_entries) + length rest <= kMaxTimelineEntries)%nat ->
  validate_entries i dedupe v rest = Some v' -> scans_agree v s ->
  read_entries_loop d (metadata_of sn i) i s (post_parameters <$> rest) = (r, d') ->
  exists s', answers d r s' /\ s'.(read_entries) = s.(read_entries) ++ rest.
Proof.
  intros Hst Hnd. revert d v s Hst. induction rest as [|e rest IH]; intros d v s Hst.
  { intros _ _ _ _ _ _ _ [= <- <-]. exists s. split; [by left|]. by rewrite app_nil_r. }
  intros [Hin Hins]%Forall_cons [Hwf Hwfs]%Forall_cons [Hu Hus]%Forall_cons
    [Hle Hles]%Forall_cons Hlen Hval Hag. cbn [fmap list_fmap read_entries_loop].
  cbn [validate_entries] in Hval. cbn [length] in Hlen.
  destruct (validate_entry i dedupe v e) as [v1|] eqn:Hv; [|done].
  destruct (read_entry d (metadata_of sn i) i s (post_parameters e)) as [r1 d1] eqn:He.
  pose proof He as Hs. apply read_entry_same in Hs.
  destruct (finish_entry_of _ _ _ _ _ _ Hv Hag Hwf) as (s1 & Hfin & Hs1 & Hag1).
  assert (answers d r1 s1) as Ha.
  { revert He. unfold read_entry.
    destruct (Nat.leb_spec kMaxTimelineEntries (length (read_entries s))); [lia|].
    apply validate_entry_Some in Hv as ((Hne & _ & _ & Hno) & _).
    destruct Hag as [Hord _]. rewrite <- Hord in Hno.
    rewrite (read_post_row_of (metadata_of sn i) _ e Hwf Hu Hne Hno Hle), (read_reply_of _ Hwf), (read_time_of _ Hwf).
    cbn [row_message_id]. fold (entry_id e).
    destruct (read_mentions d _) as [rm d2] eqn:Hm.
    apply (read_mentions_spec sn i e) in Hm as [-> | [[err ->] Hn]]; [..|done|done|done|done].
    - unfold entry_id. rewrite Hfin. intros [= <- <-]. by left.
    - intros [= <- <-]. right. eauto. }
  destruct Ha as [-> | [[err ->] Hn]].
  - intros Hr. apply IH with (v := v1) in Hr as (s' & Ha & Hs'); try done.
    + exists s'. split; [by eapply answers_same|]. by rewrite Hs', Hs1, <- app_assoc.
    + destruct Hs as (-> & _). done.
    + rewrite Hs1, length_app. cbn. lia.
  - intros [= <- <-]. exists (mkPostScan (s.(read_entries) ++ e :: rest) [] 0).
    split; [right; eauto|done].
Qed.

Lemma read_timeline_spec sn i d r d' :
  stored_as sn i (view d) -> valid_entries sn i ->
  Forall (fun e => PostPayload_wf e.(entry_post)) sn.(snapshot_entries) ->
  is_u64 sn.(snapshot_last_assigned_order) ->
  read_timeline d (metadata_of sn i) i = (r, d') ->
  answers d r sn.(snapshot_entries).
Proof.
  intros Hst [Hsize Hsorted Hords Hnd (dedupe & v & _ & Hval)] Hwf Hu. unfold read_timeline.
  assert (Forall (fun e => is_u64 e.(received_order)) sn.(snapshot_entries)) as Hus.
  { eapply Forall_impl; [exact Hords|]. unfold is_u64 in *. cbn. lia. }
  destruct (Z.eqb_spec (prepare_all d [kSelectPosts; kSelectMentions]) SQLITE_OK) as [_|Hne];
    cbn [negb].
  2:{ intros [= <- <-]. right. split; [eauto|]. intros [Hh Hc]. apply Hne.
      apply prepare_all_healthy; [done..|].
      by repeat (apply Forall_cons_2; [right; by eexists|]). }
  destruct (sqlite3_steps d kSelectPosts []) as [[rows final] d1] eqn:Hq.
  pose proof Hq as Hs. apply steps_same in Hs; [|reflexivity].
  eapply steps_answer in Hq as (Hdone & Hpre & Hfin); [|reflexivity].
  cbn beta in Hdone, Hpre. rewrite (stored_posts _ _ _ Hst) in Hdone, Hpre.
  fold (post_parameters <$> sn.(snapshot_entries)) in Hdone, Hpre.
  rewrite (order_by_uint64 7 post_parameters received_order) in Hdone, Hpre by done.
  destruct Hs as (Hv & _ & Hi & Hh). pose proof Hst as Hst1. rewrite <- Hv in Hst1.
  destruct (read_entries_loop d1 (metadata_of sn i) i start_post_scan rows)
    as [r2 d2] eqn:Hl.
  destruct (Z.eq_dec final SQLITE_DONE) as [Hf|Hf].
  - rewrite (Hdone Hf) in Hl.
    eapply read_entries_loop_spec in Hl as (s' & [-> | [[err ->] Hn]] & Hs'); try done.
    + rewrite Hf. cbn [negb Z.eqb Pos.eqb]. intros [= <- <-]. left. by rewrite Hs'.
    + intros [= <- <-]. right. split; [eauto|]. intros [Hd Hc]. apply Hn. rewrite Hv. auto.
    + by apply Forall_forall.
    + eapply Forall_impl; [exact Hords|]. cbn. lia.
  - assert (~ (healthy d /\ complete_schema (view d))) as Hn by (intros [Hd _]; auto).
    destruct r2 as [s2|err]; [|intros [= <- <-]; right; eauto].
    apply Z.eqb_neq in Hf. rewrite Hf. intros [= <- <-]. right. eauto.
Qed.
End Timeline.

(** ** The ledger of a saved snapshot *)

(** A record as a row. *)
Definition seen_row_of (r : SeenMessageRecord) : SqlRow := seen_stored (seen_parameters r).

Lemma seen_row_of_canonical metadata done previous r :
  (length done < kDefaultSeenMessageCapacity)%nat -> record_canonical r ->
  0 < r.(seen_order) -> previous < r.(seen_order) <= metadata.(metadata_last_seen_order) ->
  is_u64 r.(seen_order) ->
  seen_row metadata (done, previous) (seen_row_of r) = Some (done ++ [r], r.(seen_order)).
Proof.
  intros Hl (p & Hwf & Hid & He) Hpos Hord Hu. unfold seen_row, seen_row_of.
  pose proof (encoded_size_range p Hwf) as Hsize. pose proof (length_post_bytes p Hwf) as Hlen.
  rewrite encode_post_layout in He by done. injection He as He. rewrite He in Hlen.
  destruct (Nat.leb_spec kDefaultSeenMessageCapacity (length done)); [lia|].
  cbn [seen_stored seen_parameters column nth is_integer is_blob column_int64 column_bytes
       negb orb Z.eqb Pos.eqb].
  pose proof (wf_message_id _ Hwf) as Hmwf. rewrite Hid in Hmwf.
  rewrite (read_bind_uuid _ (proj1 Hmwf)). cbn [mbind option_bind].
  unfold kMinimumEncodedPostBytes, kMaximumEncodedPostBytes.
  destruct (Nat.ltb_spec (length (encoded_post r)) 46); [lia|].
  destruct (Nat.ltb_spec 316 (length (encoded_post r))); [lia|]. cbn [orb].
  assert (column_blob (Sql_Blob (encoded_post r)) = Some (encoded_post r)) as ->.
  { destruct (encoded_post r); [cbn in *; lia|done]. }
  cbn [mbind option_bind]. rewrite (decode_bind_uint64 _ Hu). cbn [mbind option_bind].
  destruct (Z.eqb_spec (seen_order r) 0); [lia|].
  destruct (Z.leb_spec (seen_order r) previous); [lia|].
  destruct (Z.ltb_spec (metadata_last_seen_order metadata) (seen_order r)); [lia|]. cbn [orb].
  rewrite (MessageId_from_uuid_wf _ Hmwf).
  assert (decode_post_bytes (encoded_post r) = success p) as ->
    by (unfold decode_post_bytes; by apply decode_post_layout).
  cbn [value_of mbind option_bind]. rewrite encode_post_layout by done. cbn [value_of mbind option_bind].
  rewrite He, !bool_decide_true by done. by destruct r.
Qed.

Lemma seen_rows_of metadata rest done previous :
  (length done + length rest <= kDefaultSeenMessageCapacity)%nat ->
  Forall record_canonical rest -> 0 <= previous ->
  StronglySorted Z.lt (seen_order <$> rest) ->
  Forall (fun r => previous < r.(seen_order) <= metadata.(metadata_last_seen_order)) rest ->
  is_u64 metadata.(metadata_last_seen_order) ->
  exists last, seen_rows metadata (done, previous) (seen_row_of <$> rest) = Some (done ++ rest, last).
Proof.
  revert done previous. induction rest as [|r rest IH]; intros done previous;
    cbn [seen_rows fmap list_fmap length].
  { intros. exists previous. by rewrite app_nil_r. }
  intros Hl [Hr Hcan]%Forall_cons Hprev [Hs Hlt]%StronglySorted_inv [Hb Hbs]%Forall_cons Hu.
  rewrite seen_row_of_canonical; [|lia|done|lia|done|unfold is_u64 in *; lia].
  destruct (IH (done ++ [r]) r.(seen_order)) as [last Hlast]; try done.
  - rewrite length_app. cbn. lia.
  - lia.
  - apply (Forall_fmap seen_order) in Hlt. rewrite Forall_forall in Hlt, Hbs |- *.
    intros x Hx. specialize (Hlt x Hx). specialize (Hbs x Hx). cbn in *. lia.
  - exists last. by rewrite Hlast, <- app_assoc.
Qed.

Section Ledger.
Context {D : Type} `{ISqliteLaws D}.

Lemma read_ledger_spec sn i d r d' :
  stored_as sn i (view d) -> Window_inv (ledger_window sn) ->
  read_ledger d (metadata_of sn i) = (r, d') -> answers d r sn.(snapshot_seen_messages).
Proof.
  intros Hst [_ Hsize Hcan _ Hsorted Hord _ Hmax].
  cbn [ledger_window records window_capacity last_seen_order] in *.
  assert (is_u64 sn.(snapshot_last_seen_order) \/ sn.(snapshot_seen_messages) = []) as Hu.
  { destruct sn.(snapshot_seen_messages) as [|x l]; [by right|left].
    apply Forall_inv in Hord. unfold is_u64. cbn in *. lia. }
  assert (exists last, seen_rows (metadata_of sn i) ([], 0)
            (seen_row_of <$> sn.(snapshot_seen_messages)) =
            Some (sn.(snapshot_seen_messages), last)) as [last Hread].
  { destruct Hu as [Hu|Hnil]; [by apply seen_rows_of|]. rewrite Hnil. by eexists. }
  assert (order_by 3 (rows_of (view d) tSeen) = seen_row_of <$> sn.(snapshot_seen_messages))
    as Hrows.
  { rewrite (stored_seen _ _ _ Hst).
    change (map (fun r => seen_stored (seen_parameters r)) (snapshot_seen_messages sn))
      with (seen_row_of <$> snapshot_seen_messages sn).
    apply (order_by_uint64 _ _ seen_order); [done| |done].
    eapply Forall_impl; [exact Hord|]. intros x Hx. unfold is_u64. cbn in Hx. lia. }
  unfold read_ledger. destruct (query d kSelectSeen) as [[[rows final]|st] d1] eqn:Hq.
  2:{ intros [= <- <-]. right. split; [eauto|]. intros [Hh Hc].
      destruct (query_works d kSelectSeen _ eq_refl Hh Hc) as (d2 & Hq2 & _). congruence. }
  destruct (query_content _ kSelectSeen _ _ _ _ eq_refl Hq) as [Hdone _]. cbn beta in Hdone.
  destruct (Z.eq_dec final SQLITE_DONE) as [Hf|Hf].
  - rewrite (Hdone Hf), Hrows, Hread, Hf. intros [= <- <-]. by left.
  - assert (~ (healthy d /\ complete_schema (view d))) as Hn.
    { intros [Hh Hc]. destruct (query_works d kSelectSeen _ eq_refl Hh Hc) as (d2 & Hq2 & _).
      rewrite Hq2 in Hq. injection Hq as _ <- _. done. }
    apply Z.eqb_neq in Hf. rewrite Hf. cbn [negb].
    destruct (seen_rows _ _ rows) as [[ms l]|]; intros [= <- <-]; right; eauto.
Qed.

(** A snapshot the store accepts, of well-formed values. *)
Definition acceptable (sn : HistorySnapshot) (i : Identity) : Prop :=
  validate_snapshot sn i = HistoryError_None /\ snapshot_typed sn /\
  InstallId_wf i.(Identity_install_id).

Lemma acceptable_window sn i : acceptable sn i -> Window_inv (ledger_window sn).
Proof.
  intros (Hval & (_ & _ & _ & Hu & _) & _).
  apply validate_snapshot_None in Hval as [_ _ _ _ (w & v & Hw & _)].
  apply Window_restore_success in Hw as [-> Hinv]; done.
Qed.

Lemma read_snapshot_spec sn i d r d' :
  stored_as sn i (view d) -> acceptable sn i ->
  read_snapshot d (metadata_of sn i) i = (r, d') -> answers d r sn.
Proof.
  intros Hst Hacc. pose proof (acceptable_window _ _ Hacc) as Hw.
  destruct Hacc as (Hval & (Hu & _ & Hwf & _ & _) & _).
  pose proof (validate_snapshot_None _ _ Hval) as Hve. unfold read_snapshot.
  destruct (read_timeline d _ i) as [r1 d1] eqn:Ht. pose proof Ht as Hs.
  apply read_timeline_same in Hs.
  apply (read_timeline_spec sn) in Ht as [-> | [[e ->] Hn]]; [| |done..].
  2:{ intros [= <- <-]. right. eauto. }
  destruct (read_ledger d1 _) as [r2 d2] eqn:Hl. intros Hr.
  eapply answers_same; [exact Hs|]. destruct Hs as (Hv & _). rewrite <- Hv in Hst.
  apply (read_ledger_spec sn i) in Hl as [-> | [[e ->] Hn]]; [| |done..].
  2:{ injection Hr as <- <-. right. eauto. }
  cbn [metadata_of metadata_last_assigned_order metadata_last_seen_order] in Hr.
  replace (mkHistorySnapshot (snapshot_entries sn) (snapshot_last_assigned_order sn)
    (snapshot_seen_messages sn) (snapshot_last_seen_order sn)) with sn in Hr by (by destruct sn).
  unfold accept_snapshot in Hr. cbn [metadata_of metadata_dedupe_initialized negb] in Hr.
  rewrite Hval in Hr. injection Hr as <- <-. by left.
Qed.
End Ledger.

(** ** Reconciliation *)

Lemma reconcile_entries_inv protected entries w w' :
  Window_inv w -> reconcile_entries protected w entries = Some w' -> Window_inv w'.
Proof.
  revert w. induction entries as [|e entries IH]; intros w Hw; cbn; [by intros [= <-]|].
  destruct (encode_post _) as [encoded|]; [|done].
  destruct (classify _ _ _); try done; [|by apply IH].
  pose proof (remember_inv w (entry_post e) encoded protected Hw) as Hinv.
  destruct (remember _ _ _ _) as [error w1]. case_bool_decide; cbn [negb]; [|done].
  by apply IH.
Qed.

Lemma reconcile_entries_capacity protected entries w w' :
  reconcile_entries protected w entries = Some w' -> window_capacity w = window_capacity w'.
Proof.
  revert w. induction entries as [|e entries IH]; intros w; cbn; [by intros [= <-]|].
  destruct (encode_post _) as [encoded|]; [|done].
  destruct (classify _ _ _); try done; [|by apply IH].
  assert (window_capacity (remember w (entry_post e) encoded protected).2 = window_capacity w) as Hc.
  { unfold remember. by repeat case_match. }
  destruct (remember _ _ _ _) as [error w1]. cbn in Hc. case_bool_decide; cbn [negb]; [|done].
  intros Hr%IH. congruence.
Qed.

Lemma reconcile_success sn c :
  snapshot_typed sn -> reconcile_snapshot_dedupe sn = success c ->
  c.(snapshot_entries) = sn.(snapshot_entries) /\
  c.(snapshot_last_assigned_order) = sn.(snapshot_last_assigned_order) /\
  Window_inv (ledger_window c) /\ snapshot_typed c.
Proof.
  intros (Ha & Ho & Hwf & Hu & _). unfold reconcile_snapshot_dedupe.
  destruct (Window_restore _ _ _) as [w|] eqn:Hw; [|done].
  apply Window_restore_success in Hw as [Hweq Hinv]; [|done].
  destruct (reconcile_entries _ w _) as [w'|] eqn:Hr; [|done]. intros [= <-].
  assert (window_capacity w' = kDefaultSeenMessageCapacity) as Hcap.
  { rewrite <- (reconcile_entries_capacity _ _ _ _ Hr). by subst w. }
  apply reconcile_entries_inv in Hr; [|done].
  assert (Window_inv (ledger_window (mkHistorySnapshot (snapshot_entries sn)
    (snapshot_last_assigned_order sn) (records w') (last_seen_order w')))) as Hinv'.
  { unfold ledger_window. cbn. rewrite <- Hcap. by destruct w'. }
  split; [done|]. split; [done|]. split; [done|].
  destruct Hr as [_ _ _ _ _ Hord Hl Hmax]. split; [done|]. split; [done|]. split; [done|].
  unfold is_u64. cbn. split.
  - rewrite Hl. destruct (last (records w')) as [x|] eqn:Hx; [|unfold UINT64_MAX; lia].
    apply last_Some_elem_of in Hx. rewrite Forall_forall in Hord. specialize (Hord x Hx). lia.
  - eapply Forall_impl; [exact Hord|]. cbn. lia.
Qed.

(** What a snapshot accepted for an identity is for the same one later. *)
Lemma validate_entries_later i j dedupe v v' entries :
  j.(Identity_install_id) = i.(Identity_install_id) ->
  i.(last_issued_sender_sequence) <= j.(last_issued_sender_sequence) ->
  validate_entries i dedupe v entries = Some v' ->
  validate_entries j dedupe v entries = Some v'.
Proof.
  intros Hid Hle. revert v. induction entries as [|e entries IH]; intros v; cbn; [done|].
  destruct (validate_entry i dedupe v e) as [v1|] eqn:He; [|done].
  assert (validate_entry j dedupe v e = Some v1) as ->; [|by apply IH].
  revert He. unfold validate_entry. rewrite Hid. destruct (_ || bool_decide (_ ∈ scan_received_orders v)); [done|].
  destruct (entry_origin e) as [|st]; [done|].
  destruct (negb (bool_decide (sender_id (entry_post e) = Identity_install_id i)) ||
    (last_issued_sender_sequence i <? sender_sequence (entry_post e)) ||
    (sender_sequence (entry_post e) <=? scan_previous_local_sequence v)) eqn:Hc; [done|].
  reflect_bools. destruct (Z.ltb_spec (last_issued_sender_sequence j) (sender_sequence (entry_post e)));
    [lia|]. rewrite bool_decide_true by done.
  destruct (Z.leb_spec (sender_sequence (entry_post e)) (scan_previous_local_sequence v)); [lia|].
  done.
Qed.

Lemma acceptable_later sn i j :
  j.(Identity_install_id) = i.(Identity_install_id) ->
  i.(last_issued_sender_sequence) <= j.(last_issued_sender_sequence) ->
  acceptable sn i -> acceptable sn j.
Proof.
  intros Hid Hle (Hval & Ht & Hi). split; [|by rewrite Hid]. revert Hval. unfold validate_snapshot.
  case_match; [done|]. destruct (Window_restore _ _ _) as [w|]; [|done].
  destruct (validate_entries i w _ _) as [v|] eqn:Hv; [|done].
  by rewrite (validate_entries_later i j _ _ _ _ Hid Hle Hv).
Qed.

Lemma stored_as_later sn i j db :
  j.(Identity_install_id) = i.(Identity_install_id) -> stored_as sn i db -> stored_as sn j db.
Proof. intros Hid [Hm Hp Hn Hs]. split; try done. rewrite Hm. unfold meta_parameters. by rewrite Hid. Qed.

(** ** A load *)

Section Load.
Context {D : Type} `{ISqliteLaws D}.

(** Whether the preflight of a load, inside its transaction, finds the schema
    and the file in order. *)
Definition preflight_passes (d : D) : Prop :=
  fst (operation_preflight (snd (Transaction_begin d kBegin))) = HistoryError_None.

(** A connection on which nothing but the data can stop a load. *)
Definition load_works (d : D) : Prop :=
  healthy d /\ complete_schema (committed d) /\ preflight_passes d.

(** Leaving the transaction of a load. *)
Lemma load_leaves d d1 :
  committed d1 = committed d ->
  committed (Transaction_rollback d1) = committed d /\
  in_transaction (Transaction_rollback d1) = false.
Proof.
  intros Hc. pose proof (Transaction_rollback_spec d1) as (Hi & Hc' & _). by rewrite Hc'.
Qed.

Lemma load_commits d d1 ok d2 :
  committed d1 = committed d -> view d1 = committed d -> in_transaction d1 = true ->
  Transaction_commit d1 = (ok, d2) ->
  let d' := if ok then d2 else Transaction_rollback d2 in
  committed d' = committed d /\ in_transaction d' = false /\ (healthy d1 -> ok = true).
Proof.
  intros Hc Hv Ho Hr. apply Transaction_commit_spec in Hr as (Hok & Hno & Hh); [|done].
  destruct ok; cbn.
  - destruct (Hok eq_refl) as [Hi ->]. split_and!; [done..|]. by intros Hd; apply Hh.
  - pose proof (Transaction_rollback_spec d2) as (Hi & Hc' & _). rewrite Hc', Hno by done.
    split_and!; [done..|]. by intros Hd; apply Hh.
Qed.

Lemma load_transaction_frame d i r d' :
  in_transaction d = false -> load_transaction d i = (r, d') ->
  in_transaction d' = false /\ committed d' = committed d.
Proof.
  intros Ho. pose proof (view_outside d Ho) as Hout. unfold load_transaction.
  destruct (Transaction_begin d kBegin) as [started d1] eqn:Hb.
  apply Transaction_begin_spec in Hb as (Hc1 & Hok & Hno & _); [|by left|done].
  destruct started; cbn [negb]; [|intros [= <- <-]; auto].
  destruct (Hok eq_refl) as [Hi1 Hv1]. rewrite Hout in Hv1. clear Hok Hno.
  assert (forall d2, same d1 d2 -> committed d2 = committed d /\ view d2 = committed d /\
    in_transaction d2 = true) as Hsame.
  { intros d2 (Hv & Hc & Hi & _). split_and!; congruence. }
  assert (forall d2 (x : Result (HistorySnapshot * bool) HistoryError), same d1 d2 ->
    (x, Transaction_rollback d2) = (r, d') -> in_transaction d' = false /\ committed d' = committed d)
    as Hroll.
  { intros d2 x (Hc & _)%Hsame [= _ <-]. by destruct (load_leaves d d2 Hc). }
  assert (forall d2 x, same d1 d2 ->
    (let '(ok, d3) := Transaction_commit d2 in
     if negb ok
     then (failure (error_for_result (sqlite3_extended_errcode d3) HistoryError_ReadFailed),
           Transaction_rollback d3)
     else (success x, d3)) = (r, d') -> in_transaction d' = false /\ committed d' = committed d)
    as Hcommit.
  { intros d2 x (Hc & Hv & Hi)%Hsame. destruct (Transaction_commit d2) as [ok d3] eqn:Hr.
    apply (load_commits d) in Hr as (Hc3 & Hi3 & _); [|done..].
    by destruct ok; cbn [negb]; intros [= _ <-]. }
  destruct (operation_preflight d1) as [preflight d2] eqn:Hp.
  apply operation_preflight_same in Hp.
  destruct (is_error preflight); [by apply Hroll|].
  destruct (load_metadata d2) as [[metadata|error] d3] eqn:Hm;
    apply load_metadata_same in Hm; pose proof (transitivity Hp Hm) as Ha3; [|by apply Hroll].
  destruct (metadata_initialized metadata); cbn [negb]; [|by apply Hcommit].
  destruct (identity_matches metadata i); cbn [negb]; [|by apply Hroll].
  destruct (read_snapshot d3 metadata i) as [[sn|error] d4] eqn:Hs;
    apply read_snapshot_same in Hs; pose proof (transitivity Ha3 Hs) as Ha4;
    [by apply Hcommit|by apply Hroll].
Qed.

(** A load of what is stored: the snapshot, for the installation it belongs to. *)
Lemma load_transaction_spec sn i d r d' :
  in_transaction d = false -> stored_as sn i (committed d) -> acceptable sn i ->
  load_transaction d i = (r, d') ->
  r = success (sn, false) \/ (exists e, r = failure e) /\ ~ load_works d.
Proof.
  intros Ho Hst Hacc. pose proof (view_outside d Ho) as Hout. unfold load_works, preflight_passes.
  unfold load_transaction.
  destruct (Transaction_begin d kBegin) as [started d1] eqn:Hb.
  apply Transaction_begin_spec in Hb as (Hc1 & Hok & _ & Hh1); [|by left|done].
  destruct started; cbn [negb fst snd].
  2:{ intros [= <- <-]. right. split; [eauto|]. intros (Hh & _). by destruct (Hh1 Hh). }
  destruct (Hok eq_refl) as [Hi1 Hv1]. rewrite Hout in Hv1. clear Hok.
  destruct (operation_preflight d1) as [preflight d2] eqn:Hp. cbn [fst].
  apply operation_preflight_same in Hp.
  destruct (is_error preflight) eqn:Hpe.
  { apply is_error_true in Hpe. intros [= <- <-]. right. split; [eauto|]. by intros (_ & _ & ?). }
  destruct (load_metadata d2) as [rm d3] eqn:Hm. pose proof Hm as Hs3.
  apply load_metadata_same in Hs3. pose proof (transitivity Hp Hs3) as Ha3.
  assert (stored_metadata (view d2) = success (metadata_of sn i)) as Hmd.
  { destruct Hp as (-> & _). rewrite Hv1. destruct Hacc as (_ & (Ha & _ & _ & Hs & _) & Hid).
    apply stored_metadata_of; by try apply Hid. }
  apply load_metadata_spec in Hm as [Hms Hmh]. rewrite Hmd in Hms, Hmh.
  destruct rm as [metadata|error].
  2:{ intros [= <- <-]. right. split; [eauto|]. intros (Hh & Hcs & _).
      destruct Hp as (Hv2 & _ & _ & Hh2). rewrite Hv2, Hv1 in Hmh.
      discriminate (Hmh (Hh2 (proj1 (Hh1 Hh))) Hcs). }
  specialize (Hms metadata eq_refl). injection Hms as <-.
  cbn [metadata_initialized metadata_of negb]. unfold identity_matches.
  rewrite bool_decide_true by done. cbn [negb].
  destruct (read_snapshot d3 _ i) as [rs d4] eqn:Hr. pose proof Hr as Hs4.
  apply read_snapshot_same in Hs4. pose proof (transitivity Ha3 Hs4) as (Hv4 & Hc4 & Hi4 & Hh4).
  destruct Ha3 as (Hv3 & _ & _ & Hh3).
  apply (read_snapshot_spec sn) in Hr as [-> | [[e ->] Hn]]; [| |by rewrite Hv3, Hv1|done].
  - cbn [metadata_of metadata_dedupe_initialized negb].
    destruct (Transaction_commit d4) as [ok d5] eqn:Hcm.
    apply Transaction_commit_spec in Hcm as (_ & _ & Hh5); [|congruence].
    destruct ok; cbn [negb]; intros [= <- <-]; [by left|right]. split; [eauto|].
    intros (Hh & _). by destruct (Hh5 (Hh4 (proj1 (Hh1 Hh)))).
  - intros [= <- <-]. right. split; [eauto|]. intros (Hh & Hcs & _). apply Hn.
    rewrite Hv3, Hv1. split; [|done]. apply Hh3. by apply Hh1.
Qed.

(** Another installation is refused. *)
Lemma load_transaction_other sn i j d r d' :
  in_transaction d = false -> stored_as sn i (committed d) -> acceptable sn i ->
  j.(Identity_install_id) <> i.(Identity_install_id) ->
  load_transaction d j = (r, d') -> exists e, r = failure e.
Proof.
  intros Ho Hst Hacc Hne. pose proof (view_outside d Ho) as Hout. unfold load_transaction.
  destruct (Transaction_begin d kBegin) as [started d1] eqn:Hb.
  apply Transaction_begin_spec in Hb as (Hc1 & Hok & _ & Hh1); [|by left|done].
  destruct started; cbn [negb fst snd]; [|intros [= <- <-]; eauto].
  destruct (Hok eq_refl) as [Hi1 Hv1]. rewrite Hout in Hv1. clear Hok.
  destruct (operation_preflight d1) as [preflight d2] eqn:Hp.
  apply operation_preflight_same in Hp. destruct (is_error preflight); [intros [= <- <-]; eauto|].
  destruct (load_metadata d2) as [[metadata|error] d3] eqn:Hm; [|intros [= <- <-]; eauto].
  apply load_metadata_spec in Hm as [Hms _]. specialize (Hms metadata eq_refl).
  destruct Hp as (Hv2 & _). rewrite Hv2, Hv1 in Hms.
  destruct Hacc as (_ & (Ha & _ & _ & Hs & _) & Hid).
  rewrite (stored_metadata_of _ _ _ Hst (proj1 Hid)) in Hms by done. injection Hms as <-.
  cbn [metadata_initialized metadata_of negb]. unfold identity_matches.
  rewrite bool_decide_false; [intros [= <- <-]; eauto|].
  cbn [metadata_install_id]. destruct i as [[[b]] ? ?], j as [[[b']] ? ?]. cbn in *. congruence.
Qed.
End Load.

(** ** A concrete store *)

(** An open database without rows, and a snapshot of two posts. *)
Definition sample_engine : Engine :=
  mkEngine false fresh_database fresh_database None None.

Definition sample_identity : Identity :=
  mkIdentity (mkInstallId golden_sender) (mkUserId (str "A")) 9.

Definition sample_snapshot : HistorySnapshot :=
  mkHistorySnapshot
    [mkTimelineEntry golden_post 1 (LocalDelivery Delivery_Broadcast);
     mkTimelineEntry reply_post 2 ReceivedOrigin] 2 [] 0.

Definition sample_saved : Engine :=
  snd (save_snapshot false sample_engine sample_snapshot sample_identity).

Lemma sample_snapshot_typed : snapshot_typed sample_snapshot.
Proof.
  unfold snapshot_typed, is_u64, UINT64_MAX. cbn. split; [lia|]. split.
  { by repeat (apply Forall_cons_2; [cbn; lia|]). }
  split; [|split; [lia|constructor]].
  apply Forall_cons_2; [apply golden_post_wf|]. by apply Forall_cons_2; [apply reply_post_wf|].
Qed.
