(* ===== verification/HistoryLoad.v ===== *)
(** * HistoryLoad: what a load accepts

    Whatever rows a database holds - of a file that has been damaged, edited or
    written by another program - a load that succeeds answers a snapshot of
    well-formed values that passes [validate_snapshot].  Nothing is assumed of
    SQLite here. *)
From S2P Require Import Prelude Text Uuid Identity Post Timeline Limits PostCodec DedupeWindow HistoryRecord HistorySchema HistoryStore HistoryLaws HistoryTheory HistoryRoundtrip.

(** ** Values *)

Lemma decode_uint64_u64 v value : decode_uint64 v = Some value -> is_u64 value.
Proof.
  intros Hd. destruct v as [| | |b|b]; try discriminate Hd.
  destruct (Nat.eqb_spec (length b) 8) as [Hl|Hl].
  - rewrite (decode_uint64_be b Hl) in Hd. injection Hd as <-.
    pose proof (be_value_range b) as Hr. rewrite Hl in Hr.
    unfold is_u64, UINT64_MAX. lia.
  - unfold decode_uint64 in Hd. cbn [is_blob column_bytes negb orb] in Hd.
    apply Nat.eqb_neq in Hl. by rewrite Hl in Hd.
Qed.

Lemma read_uuid_wf v u : read_uuid v = Some u -> Uuid_wf u.
Proof.
  destruct v as [| | |b|b]; try discriminate. unfold read_uuid. cbn [is_blob column_bytes negb orb].
  destruct (Nat.eqb_spec (length b) 16) as [Hl|Hl]; [|done]. cbn [negb].
  destruct b as [|c b]; [done|]. cbn. by intros [= <-].
Qed.

Lemma read_reply_wf v reply : read_reply v = Some (Some reply) -> Uuid_wf reply.
Proof.
  unfold read_reply. destruct (is_blob v).
  - destruct (read_uuid v) as [u|] eqn:Hu; cbn; [|done]. intros [= <-]. by eapply read_uuid_wf.
  - by destruct (is_null v).
Qed.

Lemma read_time_i64 v t : read_time v = Some (Some t) -> is_i64 t.
Proof.
  unfold read_time. destruct v; cbn; try done. intros [= <-]. apply to_i64_range.
Qed.

Lemma mention_rows_wf rows acc ids :
  Forall Uuid_wf acc -> mention_rows acc rows = Some ids -> Forall Uuid_wf ids.
Proof.
  revert acc. induction rows as [|row rows IH]; intros acc Ha; cbn; [by intros [= <-]|].
  destruct (mention_row acc row) as [acc'|] eqn:Hr; [|done]. apply IH.
  revert Hr. unfold mention_row. destruct (_ || _); [done|].
  destruct (read_uuid _) as [u|] eqn:Hu; cbn; [|done]. intros [= <-].
  apply Forall_app. split; [done|]. constructor; [|done]. by eapply read_uuid_wf.
Qed.

(** ** Rows *)

Definition metadata_typed (m : StoredMetadata) : Prop :=
  is_u64 m.(metadata_last_assigned_order) /\ is_u64 m.(metadata_last_seen_order).

Lemma metadata_row_typed s row s' :
  metadata_typed s.(scan_metadata) -> metadata_row s row = success s' ->
  metadata_typed s'.(scan_metadata).
Proof.
  intros [Ha Hs]. unfold metadata_row.
  repeat case_match; intros Hr; simplify_eq/=; split; cbn; try done;
    by eapply decode_uint64_u64.
Qed.

Lemma metadata_rows_typed rows s s' :
  metadata_typed s.(scan_metadata) -> metadata_rows s rows = success s' ->
  metadata_typed s'.(scan_metadata).
Proof.
  revert s. induction rows as [|row rows IH]; intros s Hs; cbn; [by intros [= <-]|].
  destruct (metadata_row s row) as [s1|] eqn:Hr; [|done]. apply IH.
  by eapply metadata_row_typed.
Qed.

Lemma post_row_wf metadata orders row r :
  read_post_row metadata orders row = Some r ->
  Uuid_wf r.(row_message_id) /\ Uuid_wf r.(row_sender_id) /\ is_u64 r.(row_sender_sequence) /\
  is_u64 r.(row_received_order).
Proof.
  unfold read_post_row.
  intros (mid & Hm%read_uuid_wf & Hr)%bind_Some.
  apply bind_Some in Hr as (sid & Hs%read_uuid_wf & Hr).
  apply bind_Some in Hr as (seq & Hq%decode_uint64_u64 & Hr). case_match; [done|].
  apply bind_Some in Hr as (user & _ & Hr). apply bind_Some in Hr as (body & _ & Hr).
  apply bind_Some in Hr as (order & Ho%decode_uint64_u64 & Hr). case_match; [done|].
  by injection Hr as <-.
Qed.

(** The entries read so far are well-formed. *)
Definition entries_typed (entries : list TimelineEntry) : Prop :=
  Forall (fun e => is_u64 e.(received_order)) entries /\
  Forall (fun e => PostPayload_wf e.(entry_post)) entries.

Lemma finish_entry_typed identity s row r reply time ids s' :
  Uuid_wf r.(row_message_id) /\ Uuid_wf r.(row_sender_id) /\ is_u64 r.(row_sender_sequence) /\
  is_u64 r.(row_received_order) ->
  (forall u, reply = Some u -> Uuid_wf u) -> (forall t, time = Some t -> is_i64 t) ->
  Forall Uuid_wf ids -> entries_typed s.(read_entries) ->
  finish_entry identity s row r reply time ids = Some s' -> entries_typed s'.(read_entries).
Proof.
  intros (Hm & Hsd & Hq & Ho) Hr Ht Hi [He1 He2]. unfold finish_entry.
  destruct (PostPayload_create _) as [post|] eqn:Hp; [|done].
  destruct (read_origin _ _ _ _) as [[origin previous]|]; [|done]. intros [= <-].
  apply PostPayload_create_wf in Hp; [|by split].
  split; cbn; apply Forall_app; (split; [done|]); by apply Forall_singleton.
Qed.

Lemma seen_row_typed metadata acc previous row acc' order :
  Forall (fun r => is_u64 r.(seen_order)) acc ->
  seen_row metadata (acc, previous) row = Some (acc', order) ->
  Forall (fun r => is_u64 r.(seen_order)) acc'.
Proof.
  intros Ha. unfold seen_row. case_match; [done|].
  intros (id & _ & Hr)%bind_Some. case_match; [done|].
  apply bind_Some in Hr as (encoded & _ & Hr).
  apply bind_Some in Hr as (o & Ho%decode_uint64_u64 & Hr). case_match; [done|].
  apply bind_Some in Hr as (mid & _ & Hr). apply bind_Some in Hr as (p & _ & Hr).
  apply bind_Some in Hr as (c & _ & Hr). case_match; [done|]. injection Hr as <- <-.
  apply Forall_app. split; [done|]. by apply Forall_singleton.
Qed.

Lemma seen_rows_typed metadata rows acc previous acc' order :
  Forall (fun r => is_u64 r.(seen_order)) acc ->
  seen_rows metadata (acc, previous) rows = Some (acc', order) ->
  Forall (fun r => is_u64 r.(seen_order)) acc'.
Proof.
  revert acc previous. induction rows as [|row rows IH]; intros acc previous Ha;
    cbn [seen_rows]; [by intros [= <- <-]|].
  destruct (seen_row metadata (acc, previous) row) as [[acc1 previous1]|] eqn:Hr; [|done].
  apply IH. by eapply seen_row_typed.
Qed.

(** ** Loads *)

Section Load.
Context {D : Type} `{ISqlite D} `{ISqliteHistoryFailpoint D}.

Lemma read_entry_typed (d : D) metadata identity s row s' d' :
  entries_typed s.(read_entries) ->
  read_entry d metadata identity s row = (success s', d') -> entries_typed s'.(read_entries).
Proof.
  intros Hs. unfold read_entry. case_match; [done|].
  destruct (read_post_row _ _ _) as [r|] eqn:Hr; [|done].
  destruct (read_reply _) as [reply|] eqn:Hp; [|done].
  destruct (read_time _) as [time|] eqn:Ht; [|done].
  destruct (read_mentions d _) as [[ids|] d1] eqn:Hm; [|done].
  destruct (finish_entry _ _ _ _ _ _ _) as [s1|] eqn:Hf; [|done]. intros [= <- _].
  eapply finish_entry_typed; [by eapply post_row_wf|..|exact Hf]; [..|done].
  - intros u ->. by eapply read_reply_wf.
  - intros t ->. by eapply read_time_i64.
  - revert Hm. unfold read_mentions. repeat case_match; intros [= <- _].
    by eapply mention_rows_wf; [constructor|].
Qed.

Lemma read_entries_loop_typed rows (d : D) metadata identity s s' d' :
  entries_typed s.(read_entries) ->
  read_entries_loop d metadata identity s rows = (success s', d') ->
  entries_typed s'.(read_entries).
Proof.
  revert d s. induction rows as [|row rows IH]; intros d s Hs; cbn; [by intros [= <- _]|].
  destruct (read_entry d metadata identity s row) as [[s1|] d1] eqn:Hr; [|done].
  apply IH. by eapply read_entry_typed.
Qed.

Lemma load_metadata_typed (d : D) m d' :
  load_metadata d = (success m, d') -> metadata_typed m.
Proof.
  unfold load_metadata. destruct (query d kSelectMeta) as [[[rows final]|] d1]; [|done].
  destruct (metadata_rows start_metadata rows) as [s|] eqn:Hr; [|done].
  apply metadata_rows_typed in Hr; [|by split; unfold is_u64, UINT64_MAX; cbn; lia].
  repeat case_match; intros [= <- _]; done.
Qed.

Lemma read_snapshot_sound (d : D) metadata identity sn d' :
  metadata_typed metadata -> read_snapshot d metadata identity = (success sn, d') ->
  snapshot_typed sn /\ accept_snapshot metadata identity sn = true.
Proof.
  intros [Ha Hs]. unfold read_snapshot.
  destruct (read_timeline d metadata identity) as [[entries|] d1] eqn:Ht; [|done].
  destruct (read_ledger d1 metadata) as [[seen|] d2] eqn:Hl; [|done].
  destruct (accept_snapshot _ _ _) eqn:Hacc; intros [= <- _]. split; [|done].
  revert Ht. unfold read_timeline. case_match; [done|].
  destruct (sqlite3_steps d kSelectPosts []) as [[rows final] d3].
  destruct (read_entries_loop _ _ _ _ rows) as [[s|] d4] eqn:Hr; [|done].
  case_match; [done|]. intros [= <- _].
  apply read_entries_loop_typed in Hr as [Ho Hwf]; [|by split].
  revert Hl. unfold read_ledger. destruct (query d1 kSelectSeen) as [[[srows sfinal]|] d5]; [|done].
  destruct (seen_rows _ _ _) as [[ms l]|] eqn:Hse; [|done]. case_match; [done|]. intros [= <- _].
  apply seen_rows_typed in Hse; [|constructor]. by split_and!.
Qed.

Lemma accept_snapshot_validates metadata identity sn :
  accept_snapshot metadata identity sn = true ->
  if metadata.(metadata_dedupe_initialized)
  then validate_snapshot sn identity = HistoryError_None
  else forall c, reconcile_snapshot_dedupe sn = success c ->
         validate_snapshot c identity = HistoryError_None.
Proof.
  unfold accept_snapshot. destruct (metadata_dedupe_initialized metadata); cbn [negb].
  - intros Ha. by apply is_error_None, negb_true_iff.
  - intros [_ Ha]%andb_true_iff c Hc. rewrite Hc in Ha. by apply is_error_None, negb_true_iff.
Qed.

Lemma load_transaction_sound (d : D) identity sn pending d' :
  load_transaction d identity = (success (sn, pending), d') ->
  snapshot_typed sn /\
  if pending
  then forall c, reconcile_snapshot_dedupe sn = success c ->
         validate_snapshot c identity = HistoryError_None
  else validate_snapshot sn identity = HistoryError_None.
Proof.
  unfold load_transaction. destruct (Transaction_begin d kBegin) as [started d1].
  destruct started; cbn [negb]; [|done].
  destruct (operation_preflight d1) as [preflight d2]. destruct (is_error preflight); [done|].
  destruct (load_metadata d2) as [[metadata|] d3] eqn:Hm; [|done].
  apply load_metadata_typed in Hm.
  destruct (metadata_initialized metadata); cbn [negb].
  - destruct (identity_matches metadata identity); cbn [negb]; [|done].
    destruct (read_snapshot d3 metadata identity) as [[s|] d4] eqn:Hr; [|done].
    apply read_snapshot_sound in Hr as [Ht Ha]; [|done].
    apply accept_snapshot_validates in Ha.
    destruct (Transaction_commit d4) as [ok d5]. destruct ok; cbn [negb]; intros [= <- <- _].
    split; [done|]. by destruct (metadata_dedupe_initialized metadata).
  - destruct (Transaction_commit d3) as [ok d5]. destruct ok; cbn [negb]; intros [= <- <- _].
    split; [|by vm_compute]. unfold snapshot_typed, is_u64, UINT64_MAX. cbn.
    split_and!; constructor || lia.
Qed.
End Load.

(** ** Property theorems *)

(** C18: A load never lets anything unsound into memory.  Whatever the database
    holds and however SQLite answers, a load that succeeds returns a snapshot of
    well-formed posts and 64-bit orders that passes every check of
    [validate_snapshot] for the identity it was loaded for; rows of a database of
    the second schema, whose ledger is still empty, are first given one. *)
Theorem load_snapshot_valid {D} `{ISqlite D} `{ISqliteHistoryFailpoint D}
    failpoint (d d' : D) identity sn :
  load_snapshot failpoint d identity = (success sn, d') ->
  snapshot_typed sn /\ validate_snapshot sn identity = HistoryError_None.
Proof.
  unfold load_snapshot.
  destruct (load_transaction d identity) as [[[s pending]|] d1] eqn:Hl; [|done].
  apply load_transaction_sound in Hl as [Ht Hv]. destruct pending; [|by intros [= <- _]].
  destruct (reconcile_snapshot_dedupe s) as [c|] eqn:Hr; [|done].
  destruct (save_snapshot _ _ c identity) as [saved d2]. destruct (is_error saved); [done|].
  intros [= <- _]. split; [by apply (reconcile_success s)|by apply Hv].
Qed.

Lemma load_snapshot_valid_witness :
  exists sn d', load_snapshot false sample_saved sample_identity = (success sn, d') /\
  length sn.(snapshot_entries) = 2%nat /\
  snapshot_typed sn /\ validate_snapshot sn sample_identity = HistoryError_None.
Proof.
  destruct (load_snapshot false sample_saved sample_identity) as [[sn|] d'] eqn:Hl.
  - exists sn, d'. split; [done|]. split; [|exact (load_snapshot_valid _ _ _ _ _ Hl)].
    apply (f_equal (fun x => match fst x with success s => length s.(snapshot_entries) | _ => 0%nat end)) in Hl.
    vm_compute in Hl. vm_compute. by symmetry.
  - apply (f_equal (fun x => has_value (fst x))) in Hl. vm_compute in Hl. discriminate.
Defined.
