(* ===== verification/HistoryMigration.v ===== *)
(** * HistoryMigration: what opening a history does to its contents

    [configure_database] of src/adapters/storage/sqlite_history_store.cpp
    (HistorySchema.v) over any [ISqliteLaws]: a new file gets the schema, a file
    of the first or the second schema is migrated, each migration in a
    transaction of its own, and a file of the third schema is left alone. *)
From S2P Require Import Prelude Text Uuid Identity Post Timeline Limits PostCodec DedupeWindow HistoryRecord HistorySchema HistoryStore HistoryLaws HistoryTheory.

(** ** The migrations as functions of the contents *)

(** What the code reads as [PRAGMA user_version]. *)
Definition stored_version (db : Database) : Z := to_i64 db.(db_user_version).

(** The first statement of [migrate_v1_to_v2], and those after its failpoint. *)
Definition rename_posts : list SqlEffect := [fun _ => rename_table tPosts tPostsV1].

Definition move_posts : list SqlEffect :=
  [ fun _ => create_table tPosts;
    fun _ db => insert_all insert_post (migrated_post <$> rows_of db tPostsV1) db;
    fun _ => drop_table tPostsV1;
    fun _ => create_table tMentions;
    fun _ => set_user_version 2 ].

(** The statements of [migrate_v2_to_v3] before its failpoint, and the one after. *)
Definition move_meta : list SqlEffect :=
  [ fun _ => rename_table tMeta tMetaV2;
    fun _ => create_table tMeta;
    fun _ db => insert_all insert_meta (rows_of db tMetaV2) db;
    fun _ => insert_meta [Sql_Text (str "last_seen_order"); Sql_Blob zero_order];
    fun _ => insert_meta [Sql_Text (str "dedupe_initialized"); Sql_Blob [x00]];
    fun _ => drop_table tMetaV2;
    fun _ => create_table tSeen ].

Definition stamp_version : list SqlEffect := [fun _ => set_user_version 3].

(** From the first schema to the second, and from the second to the third. *)
Definition times_effect (db : Database) : option Database :=
  run_effects rename_posts db ≫= run_effects move_posts.
Definition ledger_effect (db : Database) : option Database :=
  run_effects move_meta db ≫= run_effects stamp_version.

Inductive upgrade_step (db db' : Database) : Prop :=
| upgrade_create : stored_version db = 0 -> db' = fresh_database -> upgrade_step db db'
| upgrade_times : stored_version db = 1 -> times_effect db = Some db' -> upgrade_step db db'
| upgrade_ledger : stored_version db = 2 -> ledger_effect db = Some db' -> upgrade_step db db'.

(** The two rows the third schema adds to [meta]. *)
Definition new_meta_rows : list SqlRow :=
  [[Sql_Text (str "last_seen_order"); Sql_Blob zero_order];
   [Sql_Text (str "dedupe_initialized"); Sql_Blob [x00]]].

(** The tables of [db], brought to the third schema. *)
Definition upgraded (db db' : Database) : Prop :=
  stored_version db' = 3 /\
  if stored_version db =? 0 then db' = fresh_database
  else if stored_version db =? 3 then db' = db
  else
    rows_of db' tMeta = rows_of db tMeta ++ new_meta_rows /\ rows_of db' tSeen = [] /\
    if stored_version db =? 1
    then rows_of db' tPosts = (migrated_post <$> rows_of db tPosts) /\ rows_of db' tMentions = []
    else stored_version db = 2 /\ rows_of db' tPosts = rows_of db tPosts /\
         rows_of db' tMentions = rows_of db tMentions.

(** ** Their contents *)

Lemma create_table_rows table db db' :
  create_table table db = Some db' ->
  db'.(db_user_version) = db.(db_user_version) /\ rows_of db' table = [] /\
  forall t, rows_of db' t = rows_of db t.
Proof.
  unfold create_table. destruct (_ !! _) eqn:Ht; [done|]. intros [= <-].
  split; [done|]. rewrite rows_of_set_rows, decide_True by done. split; [done|].
  intros t. rewrite rows_of_set_rows. case_decide as Hd; [subst|done].
  unfold rows_of. by rewrite Ht.
Qed.

Lemma rename_table_rows old new db db' :
  rename_table old new db = Some db' -> old <> new ->
  db'.(db_user_version) = db.(db_user_version) /\
  rows_of db' new = rows_of db old /\ rows_of db' old = [] /\
  forall t, t <> old -> t <> new -> rows_of db' t = rows_of db t.
Proof.
  unfold rename_table. intros (rows & Hr & Hn)%bind_Some Hne.
  destruct (_ !! new) eqn:Hnew; [done|]. injection Hn as <-. unfold rows_of. cbn.
  rewrite lookup_insert_eq, lookup_insert_ne, lookup_delete_eq, Hr by done.
  split_and!; [done..|]. intros t Ho Hn. by rewrite lookup_insert_ne, lookup_delete_ne by done.
Qed.

Lemma drop_table_rows table db db' :
  drop_table table db = Some db' ->
  db'.(db_user_version) = db.(db_user_version) /\
  forall t, t <> table -> rows_of db' t = rows_of db t.
Proof.
  unfold drop_table. intros (rows & _ & [= <-])%bind_Some. split; [done|].
  intros t Ht. unfold rows_of. cbn. by rewrite lookup_delete_ne.
Qed.

Lemma times_effect_contents db db' :
  times_effect db = Some db' ->
  stored_version db' = 2 /\ rows_of db' tMeta = rows_of db tMeta /\
  rows_of db' tPosts = (migrated_post <$> rows_of db tPosts) /\ rows_of db' tMentions = [].
Proof.
  unfold times_effect, rename_posts, move_posts. intros Heff.
  apply bind_Some in Heff as (db1 & Hr & Heff). cbn [run_effects] in Hr, Heff.
  apply bind_Some in Hr as (db1' & Hr & [= <-]).
  apply bind_Some in Heff as (db2 & Hc & Heff). apply bind_Some in Heff as (db3 & Hi & Heff).
  apply bind_Some in Heff as (db4 & Hd & Heff). apply bind_Some in Heff as (db5 & Hm & Heff).
  apply bind_Some in Heff as (db6 & [= <-] & [= <-]).
  apply rename_table_rows in Hr as (_ & Hr1 & Hr2 & Hr3); [|done].
  apply create_table_rows in Hc as (_ & Hc1 & Hc2).
  apply (insert_all_appended _ tPosts id) in Hi as [_ Hi]; [|intros; by eapply sql_insert_appended].
  apply drop_table_rows in Hd as (_ & Hd).
  apply create_table_rows in Hm as (_ & Hm1 & Hm2).
  split; [done|]. rewrite list_fmap_id in Hi.
  assert (forall t, rows_of (mkDatabase (db_tables db5) 2) t = rows_of db5 t) as Hv by done.
  rewrite !Hv, Hm1, !Hm2, !Hd, !Hi, !Hc2, Hr1, Hr2 by done. cbn.
  rewrite (Hr3 tMeta) by done. cbn. by rewrite app_nil_r.
Qed.

Lemma ledger_effect_contents db db' :
  ledger_effect db = Some db' ->
  stored_version db' = 3 /\ rows_of db' tMeta = rows_of db tMeta ++ new_meta_rows /\
  rows_of db' tPosts = rows_of db tPosts /\ rows_of db' tMentions = rows_of db tMentions /\
  rows_of db' tSeen = [].
Proof.
  unfold ledger_effect, move_meta, stamp_version. intros Heff.
  apply bind_Some in Heff as (db8 & Heff & Hv). cbn [run_effects] in Heff, Hv.
  apply bind_Some in Heff as (db1 & Hr & Heff). apply bind_Some in Heff as (db2 & Hc & Heff).
  apply bind_Some in Heff as (db3 & Hi & Heff). apply bind_Some in Heff as (db4 & Hs & Heff).
  apply bind_Some in Heff as (db5 & Hd & Heff). apply bind_Some in Heff as (db6 & Hx & Heff).
  apply bind_Some in Heff as (db7 & Ht & [= <-]). apply bind_Some in Hv as (db9 & [= <-] & [= <-]).
  apply rename_table_rows in Hr as (_ & Hr1 & Hr2 & Hr3); [|done].
  apply create_table_rows in Hc as (_ & Hc1 & Hc2).
  apply (insert_all_appended _ tMeta id) in Hi as [_ Hi]; [|intros; by eapply sql_insert_appended].
  apply sql_insert_appended in Hs as [_ Hs]. apply sql_insert_appended in Hd as [_ Hd].
  apply drop_table_rows in Hx as (_ & Hx). apply create_table_rows in Ht as (_ & Ht1 & Ht2).
  split; [done|]. rewrite list_fmap_id in Hi.
  assert (forall t, rows_of (mkDatabase (db_tables db7) 3) t = rows_of db7 t) as Hv by done.
  rewrite !Hv, Ht1, !Ht2, !Hx, !Hd, !Hs, !Hi, !Hc2, Hr1, Hr2, !Hr3 by done. cbn.
  by rewrite !app_nil_r, <- app_assoc.
Qed.

(** ** Over a connection *)

Section Migration.
Context {D : Type} `{ISqliteLaws D}.

(** The shape of both migrations: some statements, a failpoint, the others. *)
Definition staged (failpoint : bool) (first : list bytes) (point : SqliteHistoryWritePoint)
    (rest : list bytes) (d : D) : HistoryError * D :=
  let '(done, d) := exec_all d first in
  if negb done then errcode_or d HistoryError_MigrationFailed
  else
    let '(fails, d) := fails_at failpoint d point in
    if fails then (HistoryError_MigrationFailed, d)
    else
      let '(done, d) := exec_all d rest in
      if negb done then errcode_or d HistoryError_MigrationFailed
      else (HistoryError_None, d).

Lemma staged_effect failpoint first point rest fs gs (d d' : D) e :
  Forall2 (fun sql f => sql_effect sql = Some f) first fs ->
  Forall2 (fun sql f => sql_effect sql = Some f) rest gs ->
  in_transaction d = true -> staged failpoint first point rest d = (e, d') ->
  effect_of (e = HistoryError_None) (fun db => run_effects fs db ≫= run_effects gs) d d'.
Proof.
  intros Hfs Hgs Ho. unfold staged.
  destruct (exec_all d first) as [ok d1] eqn:Hr.
  apply (exec_all_effect _ fs) in Hr; [|done..].
  destruct ok; cbn [negb].
  2:{ intros [-> Hne]%errcode_or_error; [|done]. by eapply effect_of_stop. }
  destruct (fails_at failpoint d1 point) as [fails d2] eqn:Hf.
  apply fails_at_same in Hf as [Hf Hh].
  destruct fails.
  { intros [= <- <-]. eapply effect_of_abort; [exact Hr|exact Hf|done|]. by intros Hd%Hh. }
  destruct (exec_all d2 rest) as [ok d3] eqn:Hm.
  pose proof (effect_of_after _ _ _ _ _ Hr Hf) as Hr2.
  apply (exec_all_effect _ gs) in Hm; [|done|by eapply effect_of_open].
  pose proof (effect_of_seq _ _ _ _ _ _ _ Hr2 eq_refl Hm) as Hall.
  destruct ok; cbn [negb].
  - intros [= <- <-]. by eapply effect_of_weaken; [|exact Hall].
  - intros [-> Hne]%errcode_or_error; [|done]. by eapply effect_of_weaken; [|exact Hall].
Qed.

(** A migration happens or does not. *)
Lemma migration_transaction (body : D -> HistoryError * D) f (d d' : D) e :
  (forall d d' e, in_transaction d = true -> body d = (e, d') ->
     effect_of (e = HistoryError_None) f d d') ->
  in_transaction d = false ->
  (let '(started, d) := Transaction_begin d kBeginImmediate in
   if negb started then errcode_or d HistoryError_MigrationFailed
   else finish_transaction (body d) HistoryError_MigrationFailed) = (e, d') ->
  in_transaction d' = false /\
  (e = HistoryError_None -> f (committed d) = Some (committed d')) /\
  (e <> HistoryError_None -> committed d' = committed d).
Proof.
  intros Hbody Ho. destruct (Transaction_begin d kBeginImmediate) as [ok d1] eqn:Hb.
  apply Transaction_begin_spec in Hb as (Hc & Hok & Hno & _); [|by right|done].
  destruct ok; cbn [negb].
  2:{ intros [-> Hne]%errcode_or_error; [|done]. split_and!; [by apply Hno|done|done]. }
  destruct (Hok eq_refl) as [Ho1 Hv]. destruct (body d1) as [e2 d2] eqn:He.
  pose proof (Hbody _ _ _ Ho1 He) as (Hc2 & Hk & _).
  intros (Hi & Hyes & Hnot & _)%finish_transaction_spec; [|done|by intros He2; apply Hk].
  split; [done|]. split; intros He'.
  - destruct (Hyes He') as [He2 ->]. destruct (Hk He2) as [_ Hf].
    by rewrite <- Hf, Hv, view_outside.
  - by rewrite Hnot, Hc2, Hc.
Qed.

Lemma migrate_v1_to_v2_spec failpoint (d d' : D) e :
  in_transaction d = false -> migrate_v1_to_v2 failpoint d = (e, d') ->
  in_transaction d' = false /\
  (e = HistoryError_None -> times_effect (committed d) = Some (committed d')) /\
  (e <> HistoryError_None -> committed d' = committed d).
Proof.
  apply migration_transaction. intros. eapply staged_effect; [..|done|done]; repeat constructor.
Qed.

Lemma migrate_v2_to_v3_spec failpoint (d d' : D) e :
  in_transaction d = false -> migrate_v2_to_v3 failpoint d = (e, d') ->
  in_transaction d' = false /\
  (e = HistoryError_None -> ledger_effect (committed d) = Some (committed d')) /\
  (e <> HistoryError_None -> committed d' = committed d).
Proof.
  apply migration_transaction. intros. eapply staged_effect; [..|done|done]; repeat constructor.
Qed.

(** *** The whole configuration *)

Lemma exec_all_same sqls (d d' : D) ok :
  Forall (fun sql => sql_effect sql = None /\ sql ∉ transaction_texts) sqls ->
  exec_all d sqls = (ok, d') -> same d d'.
Proof.
  intros Hall. revert d. induction Hall as [|sql sqls [He Hn] Hall IH]; intros d; cbn.
  { by intros [= _ <-]. }
  unfold exec. destruct (sqlite3_exec d sql) as [code d1] eqn:Hx.
  apply exec_other in Hx; [|done..].
  destruct (negb _); [by intros [= _ <-]|]. intros Hr%IH. by transitivity d1.
Qed.

Lemma plain_text sql :
  bool_decide (sql_effect sql = None /\ sql ∉ transaction_texts) = true ->
  sql_effect sql = None /\ sql ∉ transaction_texts.
Proof. apply bool_decide_eq_true. Qed.

#[local] Hint Extern 1 (Forall (fun sql => _ /\ sql ∉ transaction_texts) _) =>
  (repeat constructor; apply plain_text; vm_compute; reflexivity) : same.

Lemma errcode_or_same (d d' : D) fallback e : errcode_or d fallback = (e, d') -> same d d'.
Proof. by intros [= _ <-]. Qed.

#[local] Hint Resolve exec_all_same errcode_or_same : same.

Lemma configure_connection_same (d d' : D) e : configure_connection d = (e, d') -> same d d'.
Proof.
  unfold configure_connection.
  destruct (sqlite3_busy_timeout _ _) as [c1 d2] eqn:Hb.
  destruct (sqlite3_db_config_defensive d2 1) as [[c2 enabled] d3] eqn:Hd.
  destruct (settings_law d true c1 c2 _ enabled _ d2 d3 eq_refl Hb Hd) as (H1' & H2' & H3').
  assert (same d d2) as Hs2 by (by transitivity (sqlite3_extended_result_codes d true)).
  assert (same d d3) as Hs3 by (by transitivity d2).
  destruct (negb _); [by intros [= _ <-]|].
  destruct (_ || _); [by intros [= _ <-]|].
  destruct (exec_all d3 _) as [set d4] eqn:Hx. apply exec_all_same in Hx; [|auto with same].
  destruct set; cbn [negb]; intros [= _ <-]; by transitivity d3.
Qed.

Lemma configure_journal_same (d d' : D) e : configure_journal d = (e, d') -> same d d'.
Proof.
  unfold configure_journal, exec. intros Hq.
  destruct (query_text d _) as [[o c] d1] eqn:Ht. apply query_text_same in Ht; [|reflexivity].
  destruct o as [mode|]; [|by injection Hq as _ <-].
  destruct (negb _); [by injection Hq as _ <-|].
  destruct (sqlite3_exec d1 _) as [code d2] eqn:Hx.
  assert (same d d2) as Hs.
  { transitivity d1; [done|].
    destruct (plain_text (str "PRAGMA synchronous = FULL;")) as [He Hn];
      [vm_compute; reflexivity|]. by eapply exec_other. }
  destruct (negb _); [by injection Hq as _ <-|].
  destruct (query_integers d2 _) as [r d3] eqn:Hi. apply query_integers_same in Hi; [|auto with same].
  destruct r; injection Hq as _ <-; by transitivity d2.
Qed.

(** The header: a version that is read is the version stored. *)
Lemma read_database_header_version (d d' : D) a v t :
  read_database_header d = (success (a, v, t), d') ->
  same d d' /\ v = stored_version (view d).
Proof.
  intros Hr. split; [by eapply read_database_header_same|]. revert Hr.
  unfold read_database_header. destruct (query_integers d _) as [r d1] eqn:Hq.
  destruct r as [vs|]; [|done]. do 4 (destruct vs as [|? vs]; try done).
  intros [= -> -> -> ->]. revert Hq. cbn [query_integers].
  destruct (query_integer d kApplicationId) as [[[x|] c] d2] eqn:H2'; [|done].
  destruct (query_integer d2 kUserVersion) as [[[y|] c3] d3] eqn:H3'; [|done].
  destruct (query_integer d3 kCountObjects) as [[[z|] c4] d4]; [|done].
  intros [= -> -> -> ->].
  apply query_integer_same in H2'; [|reflexivity]. destruct H2' as (Hv & _).
  eapply (query_integer_content d2 kUserVersion _ (view d2).(db_user_version)) in H3';
    [|reflexivity|reflexivity].
  destruct H3' as [H3'|[H3' _]]; [|done]. injection H3' as ->. by rewrite Hv.
Qed.

Lemma migrate_database_spec failpoint (d d' : D) is_new version e :
  in_transaction d = false ->
  (is_new = false -> version = stored_version (committed d)) ->
  migrate_database failpoint d is_new version = (e, d') ->
  in_transaction d' = false /\ rtc upgrade_step (committed d) (committed d') /\
  (e = HistoryError_None -> is_new = true \/ version <> 1 /\ version <> 2 ->
     committed d' = committed d) /\
  (e = HistoryError_None -> is_new = false -> version = 1 \/ version = 2 ->
     stored_version (committed d') = 3).
Proof.
  intros Ho Hv. unfold migrate_database. destruct is_new; cbn [negb andb].
  { intros [= <- <-]. split_and!; done. }
  specialize (Hv eq_refl). destruct (Z.eqb_spec version 1) as [Hv1|Hv1].
  - destruct (migrate_v1_to_v2 failpoint d) as [e1 d1] eqn:Hm.
    apply migrate_v1_to_v2_spec in Hm as (Ho1 & Hyes & Hno); [|done].
    destruct (is_error e1) eqn:He1; [apply is_error_true in He1|apply is_error_None in He1].
    + intros [= <- <-]. rewrite Hno by done.
      split_and!; done.
    + subst e1. specialize (Hyes eq_refl).
      assert (upgrade_step (committed d) (committed d1)) as Hs1
        by (apply upgrade_times; [congruence|done]).
      cbn. intros Hm. apply migrate_v2_to_v3_spec in Hm as (Ho2 & Hyes2 & Hno2); [|done].
      split; [done|].
      pose proof (times_effect_contents _ _ Hyes) as (Hver & _).
      destruct (decide (e = HistoryError_None)) as [->|Hne].
      * split_and!; [|by intros _ [?|[]]|].
        -- eapply rtc_l; [exact Hs1|]. apply rtc_once. apply upgrade_ledger; auto.
        -- intros _ _ _. by destruct (ledger_effect_contents _ _ (Hyes2 eq_refl)).
      * rewrite Hno2 by done. split_and!; [by apply rtc_once|done|done].
  - cbn. destruct (Z.eqb_spec version 2) as [Hv2|Hv2].
    + intros Hm. apply migrate_v2_to_v3_spec in Hm as (Ho2 & Hyes2 & Hno2); [|done].
      split; [done|]. destruct (decide (e = HistoryError_None)) as [->|Hne].
      * split_and!; [|by intros _ [?|[]]|].
        -- apply rtc_once. apply upgrade_ledger; [congruence|auto].
        -- intros _ _ _. by destruct (ledger_effect_contents _ _ (Hyes2 eq_refl)).
      * rewrite Hno2 by done. split_and!; done.
    + intros [= <- <-]. split_and!; [done|done|done|]. by intros _ _ [?|?].
Qed.

Lemma validate_existing_version (d d' : D) :
  validate_existing_database d = (HistoryError_None, d') ->
  1 <= stored_version (view d) <= 3.
Proof.
  unfold validate_existing_database.
  destruct (read_database_header d) as [[[[a v] t]|e] d1] eqn:Hr.
  2:{ intros [= -> _]. unfold read_database_header in Hr.
      destruct (query_integers d _) as [[vs|c] d2]; [|].
      - do 4 (destruct vs as [|? vs]; try done).
      - injection Hr as Hr _. by destruct (error_for_result_error c HistoryError_ConfigureFailed). }
  apply read_database_header_version in Hr as [_ ->].
  destruct (_ || _); [done|]. destruct (_ || _) eqn:Hrange; [done|]. reflect_bools.
  unfold kHistorySchemaVersion in *. intros _. lia.
Qed.

Lemma create_or_validate_spec (d d' : D) is_new e :
  in_transaction d = false -> create_or_validate d is_new = (e, d') ->
  in_transaction d' = false /\
  (committed d' = committed d \/ is_new = true /\ committed d' = fresh_database) /\
  (e = HistoryError_None ->
   if is_new then committed d' = fresh_database
   else committed d' = committed d /\ 1 <= stored_version (committed d) <= 3).
Proof.
  intros Ho. unfold create_or_validate, exec. destruct is_new.
  - destruct (sqlite3_exec d kCreateSchemaSql) as [code d1] eqn:Hx.
    apply exec_create in Hx as (Hok & Hno & _); [|done].
    destruct (Z.eqb_spec code SQLITE_OK) as [Hc|Hc]; cbn [negb].
    + intros [= <- <-]. destruct (Hok Hc). split_and!; [done|by right|done].
    + intros [-> Hne]%errcode_or_error; [|done].
      pose proof (Transaction_rollback_spec d1) as (Hi & Hcm & _).
      split; [done|]. split; [left; rewrite Hcm; by apply Hno|done].
  - intros Hval. pose proof Hval as Hs. apply validate_existing_database_same in Hs as (Hv & Hc & Hi & _).
    split; [congruence|]. split; [by left|]. intros ->. split; [done|].
    apply validate_existing_version in Hval. by rewrite view_outside in Hval.
Qed.

Lemma verify_v3_schema_same (d d' : D) e : verify_v3_schema d = (e, d') -> same d d'.
Proof. apply verify_v2_or_v3_schema_same. Qed.

(** What follows the migrations changes nothing. *)
Lemma configure_rest_same enable_wal (d d' : D) e :
  (let '(schema, d) := verify_v3_schema d in
   if is_error schema then (schema, d)
   else
     let '(integrity, d) := run_integrity_checks d in
     if is_error integrity then (integrity, d)
     else if negb enable_wal then (HistoryError_None, d)
     else configure_journal d) = (e, d') -> same d d'.
Proof.
  destruct (verify_v3_schema d) as [e1 d1] eqn:Hv. apply verify_v3_schema_same in Hv.
  destruct (is_error e1); [by intros [= _ <-]|].
  destruct (run_integrity_checks d1) as [e2 d2] eqn:Hr. apply run_integrity_checks_same in Hr.
  assert (same d d2) by (by transitivity d1).
  destruct (is_error e2); [by intros [= _ <-]|].
  destruct (negb enable_wal); [by intros [= _ <-]|].
  intros Hj%configure_journal_same. by transitivity d2.
Qed.
End Migration.

(** ** Where the steps lead *)

Lemma version_three_final db db' :
  stored_version db = 3 -> rtc upgrade_step db db' -> db' = db.
Proof. intros Hv Hs. destruct Hs as [|db db1 db' [] _]; [done|congruence..]. Qed.

Lemma upgraded_of db db' :
  rtc upgrade_step db db' -> stored_version db' = 3 -> upgraded db db'.
Proof.
  intros Hs Hv'. split; [done|]. destruct Hs as [db|db db1 db' Hs1 Hs].
  { by rewrite Hv'. }
  assert (stored_version fresh_database = 3) as Hfresh by reflexivity.
  destruct Hs1 as [Hv ->|Hv Ht|Hv Hl]; rewrite Hv; cbn [Z.eqb Pos.eqb].
  - by apply version_three_final.
  - destruct (times_effect_contents _ _ Ht) as (Hv1 & Hm1 & Hp1 & Hn1).
    destruct Hs as [db1|db1 db2 db' Hs1 Hs]; [congruence|].
    destruct Hs1 as [?|?|_ Hl]; [congruence..|].
    destruct (ledger_effect_contents _ _ Hl) as (Hv2 & Hm2 & Hp2 & Hn2 & Hs2).
    rewrite (version_three_final _ _ Hv2 Hs). by rewrite Hm2, Hp2, Hn2, Hs2, Hm1, Hp1, Hn1.
  - destruct (ledger_effect_contents _ _ Hl) as (Hv2 & Hm2 & Hp2 & Hn2 & Hs2).
    by rewrite (version_three_final _ _ Hv2 Hs), Hm2, Hp2, Hn2, Hs2.
Qed.

Lemma configure_database_steps {D} `{ISqliteLaws D} failpoint enable_wal (d d' : D) e :
  in_transaction d = false -> configure_database failpoint enable_wal d = (e, d') ->
  in_transaction d' = false /\ rtc upgrade_step (committed d) (committed d') /\
  (e = HistoryError_None -> stored_version (committed d') = 3).
Proof.
  intros Ho. unfold configure_database.
  destruct (configure_connection d) as [e1 d1] eqn:Hc.
  apply configure_connection_same in Hc as (Hv1 & Hc1 & Hi1 & _). rewrite Ho in Hi1. rewrite <- Hc1.
  destruct (is_error e1) eqn:He1.
  { intros [= <- <-]. split_and!; [done..|]. intros ->. by apply is_error_true in He1. }
  destruct (read_database_header d1) as [[[[a v] t]|e2] d2] eqn:Hh.
  2:{ intros [= <- <-]. pose proof Hh as Hs. apply read_database_header_same in Hs as (_ & Hc2 & Hi2 & _).
      rewrite Hc2. split_and!; [congruence|done|]. intros ->. exfalso. revert Hh.
      unfold read_database_header. destruct (query_integers d1 _) as [[vs|c] d3].
      - do 4 (destruct vs as [|? vs]; try done).
      - intros [= He _]. by destruct (error_for_result_error c HistoryError_ConfigureFailed). }
  apply read_database_header_version in Hh as [(Hv2 & Hc2 & Hi2 & _) Hver].
  rewrite Hi1 in Hi2. rewrite (view_outside d1) in Hver by done. rewrite <- Hc2 in Hver |- *.
  set (is_new := is_new_database a v t).
  assert (is_new = true -> v = 0) as Hnew.
  { subst is_new. unfold is_new_database. intros. by reflect_bools. }
  destruct (create_or_validate d2 is_new) as [e3 d3] eqn:Hcv.
  apply create_or_validate_spec in Hcv as (Hi3 & Hsame & Hok3); [|done].
  assert (rtc upgrade_step (committed d2) (committed d3)) as Hstep3.
  { destruct Hsame as [->|[Hn ->]]; [done|]. apply rtc_once, upgrade_create; [|done].
    rewrite <- Hver. auto. }
  destruct (is_error e3) eqn:He3.
  { intros [= <- <-]. split_and!; [done..|]. intros ->. by apply is_error_true in He3. }
  apply is_error_None in He3 as ->. specialize (Hok3 eq_refl).
  destruct (migrate_database failpoint d3 is_new v) as [e4 d4] eqn:Hm.
  apply migrate_database_spec in Hm as (Hi4 & Hstep4 & Hkeep & Hthree); [|done|].
  2:{ intros ->. destruct Hok3 as [-> _]. done. }
  assert (rtc upgrade_step (committed d2) (committed d4)) as Hstep by (by etransitivity).
  destruct (is_error e4) eqn:He4.
  { intros [= <- <-]. split_and!; [done..|]. intros ->. by apply is_error_true in He4. }
  apply is_error_None in He4 as ->.
  intros (_ & Hc5 & Hi5 & _)%configure_rest_same.
  split; [congruence|]. rewrite Hc5. split; [done|]. intros _.
  destruct is_new; [by rewrite Hkeep, Hok3 by auto|]. destruct Hok3 as [Hc3 Hrange].
  destruct (decide (v = 1 \/ v = 2)) as [Hold|Hnot]; [by apply Hthree|].
  rewrite Hkeep, Hc3 by (auto; right; lia). lia.
Qed.

(** Where an upgrade of these contents ends. *)
Definition upgrade (db : Database) : option Database :=
  if stored_version db =? 0 then Some fresh_database
  else if stored_version db =? 1 then times_effect db ≫= ledger_effect
  else if stored_version db =? 2 then ledger_effect db
  else Some db.

Lemma upgrade_current db : stored_version db = 3 -> upgrade db = Some db.
Proof. unfold upgrade. by intros ->. Qed.

Lemma upgrade_step_same db db' : upgrade_step db db' -> upgrade db' = upgrade db.
Proof.
  intros [Hv ->|Hv Ht|Hv Hl].
  - unfold upgrade at 2. by rewrite Hv.
  - destruct (times_effect_contents _ _ Ht) as (Hv' & _).
    unfold upgrade. by rewrite Hv, Hv', Ht.
  - destruct (ledger_effect_contents _ _ Hl) as (Hv' & _).
    rewrite upgrade_current by done. unfold upgrade. by rewrite Hv, Hl.
Qed.

Lemma upgrade_steps_same db db' : rtc upgrade_step db db' -> upgrade db' = upgrade db.
Proof. induction 1 as [|db db1 db' Hs _ IH]; [done|]. by rewrite IH, (upgrade_step_same db db1). Qed.

(** ** Property theorems *)

(** C14: opening a history brings it to the current schema and loses nothing.
    Whatever [configure_database] meets - an empty file, a history of the first,
    the second or the third schema, anything else - and whenever SQLite, a
    failpoint or the power stops it, the contents are only ever taken along whole
    steps: a new file gets the empty schema, the first schema becomes the second,
    the second the third; a step that fails leaves no trace.  When the answer is
    success the contents are those of the third schema: every post of the old
    file is still there, in the same order, with the same columns and no sender
    time where the first schema had none, with the mentions the second schema
    had; the metadata are kept and the ledger starts empty; a file of the third
    schema is not changed at all. *)
Theorem configure_database_upgrades {D} `{ISqliteLaws D} failpoint enable_wal (d d' : D) e :
  in_transaction d = false -> configure_database failpoint enable_wal d = (e, d') ->
  in_transaction d' = false /\ rtc upgrade_step (committed d) (committed d') /\
  (e = HistoryError_None -> upgraded (committed d) (committed d')).
Proof.
  intros Ho Hc. apply configure_database_steps in Hc as (Ho' & Hs & Hv); [|done].
  split; [done|]. split; [done|]. intros He. apply upgraded_of; auto.
Qed.

(** A history of the first schema: one post, still pending. *)
Definition sample_old_post : SqlRow :=
  [Sql_Blob (replicate 16 x11); Sql_Blob (replicate 16 x22); Sql_Blob (replicate 7 x00 ++ [x01]);
   Sql_Text (str "alice"); Sql_Text (str "hello"); Sql_Null;
   Sql_Blob (replicate 7 x00 ++ [x01]); Sql_Integer 1; Sql_Integer 0].

Definition sample_old_meta : list SqlRow :=
  [[Sql_Text (str "install_id"); Sql_Blob (replicate 16 x22)];
   [Sql_Text (str "last_assigned_order"); Sql_Blob (replicate 7 x00 ++ [x01])]].

Definition sample_old : Database :=
  mkDatabase (list_to_map [(tMeta, sample_old_meta); (tPosts, [sample_old_post])]) 1.

Definition old_engine : Engine := mkEngine false sample_old sample_old None None.

Lemma configure_database_upgrades_witness :
  exists d', configure_database false true old_engine = (HistoryError_None, d') /\
  upgraded sample_old (committed d') /\
  rows_of (committed d') tPosts =
    [take 6 sample_old_post ++ [Sql_Null] ++ drop 6 sample_old_post].
Proof.
  destruct (configure_database false true old_engine) as [e d'] eqn:Hc.
  assert (fst (configure_database false true old_engine) = HistoryError_None) as He
    by (vm_compute; reflexivity).
  rewrite Hc in He. cbn [fst] in He. subst e. exists d'. split; [reflexivity|].
  assert (in_transaction old_engine = false) as Ho by reflexivity.
  destruct (configure_database_upgrades false true old_engine d' HistoryError_None Ho Hc)
    as (_ & _ & Hup).
  specialize (Hup eq_refl). split; [exact Hup|].
  destruct Hup as [_ Hup].
  assert (stored_version (committed old_engine) = 1) as Hv by (vm_compute; reflexivity).
  rewrite Hv in Hup. cbn [Z.eqb Pos.eqb] in Hup. destruct Hup as (_ & _ & Hp & _).
  rewrite Hp. reflexivity.
Defined.
