(* ===== verification/HistoryImage.v ===== *)
(** * HistoryImage: the snapshot a database holds

    What [load_snapshot] makes of the contents of a database, as a function of the
    contents alone ([history_image]): the connection, the failures of SQLite and
    the identity only decide whether there is an answer, never which.  The image
    of a saved snapshot is that snapshot. *)
From Stdlib Require Import Sorting.Sorted.
From S2P Require Import Prelude Text Uuid Identity Post Timeline Limits PostCodec DedupeWindow HistoryRecord HistorySchema HistoryStore HistoryLaws HistoryTheory HistoryRoundtrip HistoryLoad.

(** ** Definitions *)

Definition mentions_image (db : Database) (id : Uuid) : option (list Uuid) :=
  mention_rows []
    (key_of [1%nat; 2%nat] <$>
     order_by 1 (List.filter (fun row => bool_decide (key_of [0%nat] row = [bind_uuid id]))
                   (rows_of db tMentions))).

Definition entry_image (db : Database) (metadata : StoredMetadata) (identity : Identity)
    (s : PostScan) (row : SqlRow) : option PostScan :=
  if (kMaxTimelineEntries <=? length s.(read_entries))%nat then None
  else
    r ← read_post_row metadata s.(read_orders) row;
    reply ← read_reply (column row 5);
    time ← read_time (column row 6);
    mention_ids ← mentions_image db r.(row_message_id);
    finish_entry identity s row r reply time mention_ids.

Fixpoint entries_image (db : Database) (metadata : StoredMetadata) (identity : Identity)
    (s : PostScan) (rows : list SqlRow) : option PostScan :=
  match rows with
  | [] => Some s
  | row :: rows =>
      s ← entry_image db metadata identity s row;
      entries_image db metadata identity s rows
  end.

(** [read_snapshot] on the contents. *)
Definition snapshot_image (db : Database) (metadata : StoredMetadata) (identity : Identity)
  : option HistorySnapshot :=
  s ← entries_image db metadata identity start_post_scan (order_by 7 (rows_of db tPosts));
  '(seen_messages, _) ← seen_rows metadata ([], 0) (order_by 3 (rows_of db tSeen));
  let snapshot :=
    mkHistorySnapshot s.(read_entries) metadata.(metadata_last_assigned_order) seen_messages
      metadata.(metadata_last_seen_order) in
  if accept_snapshot metadata identity snapshot then Some snapshot else None.

(** The installation of a database, at its last sequence number: whatever a load
    accepts for the installation, it accepts for this identity. *)
Definition final_identity (metadata : StoredMetadata) : Identity :=
  mkIdentity (mkInstallId (mkUuid metadata.(metadata_install_id))) (mkUserId []) UINT64_MAX.

Definition history_image (db : Database) : option HistorySnapshot :=
  match stored_metadata db with
  | failure _ => None
  | success metadata =>
      if negb metadata.(metadata_initialized) then Some (mkHistorySnapshot [] 0 [] 0)
      else
        snapshot ← snapshot_image db metadata (final_identity metadata);
        if metadata.(metadata_dedupe_initialized) then Some snapshot
        else value_of (reconcile_snapshot_dedupe snapshot)
  end.

(** ** The identity only decides whether there is an answer *)

Section Identities.
Context (i j : Identity).
Hypothesis Hinstall : j.(Identity_install_id) = i.(Identity_install_id).
Hypothesis Hlast : j.(last_issued_sender_sequence) = UINT64_MAX.

Lemma read_origin_final previous post row x :
  is_u64 post.(sender_sequence) ->
  read_origin i previous post row = Some x -> read_origin j previous post row = Some x.
Proof.
  intros Hu. unfold read_origin. rewrite Hinstall, Hlast.
  destruct (negb (is_integer (column row 8))); [done|]. destruct (_ =? 0); [done|].
  destruct (_ =? 1); [|done]. destruct (negb (is_integer (column row 9))); [done|].
  destruct (local_state_of _); [|done].
  destruct (negb (bool_decide _)); [done|]. cbn [orb].
  destruct (Z.ltb_spec UINT64_MAX (sender_sequence post)); [unfold is_u64 in Hu; lia|].
  cbn [orb]. by destruct (_ <? _).
Qed.

Lemma finish_entry_final s row r reply time ids s' :
  is_u64 r.(row_sender_sequence) ->
  finish_entry i s row r reply time ids = Some s' ->
  finish_entry j s row r reply time ids = Some s'.
Proof.
  intros Hu. unfold finish_entry.
  destruct (PostPayload_create _) as [post|] eqn:Hp; [|done].
  apply PostPayload_create_success in Hp as (Hin & _).
  assert (is_u64 (sender_sequence post)) as Hseq by (apply (f_equal input_sender_sequence) in Hin;
    cbn in Hin; by rewrite <- Hin).
  destruct (read_origin i _ _ _) as [x|] eqn:Ho; [|done].
  by rewrite (read_origin_final _ _ _ _ Hseq Ho).
Qed.

Lemma entry_image_final db m s row s' :
  entry_image db m i s row = Some s' -> entry_image db m j s row = Some s'.
Proof.
  unfold entry_image. case_match; [done|].
  destruct (read_post_row _ _ _) as [r|] eqn:Hr; [|done]. cbn [mbind option_bind].
  destruct (read_reply _) as [reply|]; [|done]. destruct (read_time _) as [time|]; [|done].
  cbn [mbind option_bind]. destruct (mentions_image _ _) as [ids|]; [|done].
  apply post_row_wf in Hr as (_ & _ & Hu & _). cbn [mbind option_bind].
  by apply finish_entry_final.
Qed.

Lemma entries_image_final db m rows s s' :
  entries_image db m i s rows = Some s' -> entries_image db m j s rows = Some s'.
Proof.
  revert s. induction rows as [|row rows IH]; intros s; cbn; [done|].
  destruct (entry_image db m i s row) as [s1|] eqn:He; [|done].
  rewrite (entry_image_final _ _ _ _ _ He). apply IH.
Qed.

Lemma validate_entries_final dedupe v v' entries :
  Forall (fun e => PostPayload_wf e.(entry_post)) entries ->
  validate_entries i dedupe v entries = Some v' ->
  validate_entries j dedupe v entries = Some v'.
Proof.
  intros Hwf. revert v. induction Hwf as [|e entries He Hwf IH]; intros v; cbn; [done|].
  destruct (validate_entry i dedupe v e) as [v1|] eqn:Hv; [|done].
  assert (validate_entry j dedupe v e = Some v1) as ->; [|by apply IH].
  revert Hv. unfold validate_entry. rewrite Hinstall, Hlast.
  destruct (_ || bool_decide (_ ∈ scan_received_orders v)); [done|].
  destruct (entry_origin e) as [|st]; [done|].
  destruct (negb (bool_decide _)); [done|]. cbn [orb].
  pose proof (wf_sender_sequence _ He) as Hseq.
  destruct (Z.ltb_spec UINT64_MAX (sender_sequence (entry_post e))); [unfold UINT64_MAX in *; lia|].
  cbn [orb]. by destruct (_ <? _).
Qed.

Lemma validate_snapshot_final sn :
  Forall (fun e => PostPayload_wf e.(entry_post)) sn.(snapshot_entries) ->
  validate_snapshot sn i = HistoryError_None -> validate_snapshot sn j = HistoryError_None.
Proof.
  intros Hwf. unfold validate_snapshot. case_match; [done|].
  destruct (Window_restore _ _ _) as [w|]; [|done].
  destruct (validate_entries i w _ _) as [v|] eqn:Hv; [|done].
  by rewrite (validate_entries_final _ _ _ _ Hwf Hv).
Qed.

Lemma accept_snapshot_final m sn :
  snapshot_typed sn -> accept_snapshot m i sn = true -> accept_snapshot m j sn = true.
Proof.
  intros Ht. pose proof Ht as (_ & _ & Hwf & _).
  unfold accept_snapshot. destruct (metadata_dedupe_initialized m); cbn [negb].
  - rewrite !negb_true_iff, !is_error_None. by apply validate_snapshot_final.
  - rewrite !andb_true_iff. intros [? Ha]. split; [done|].
    destruct (reconcile_snapshot_dedupe sn) as [c|] eqn:Hr; [|done].
    destruct (reconcile_success _ _ Ht Hr) as (He & _).
    revert Ha. rewrite !negb_true_iff, !is_error_None. apply validate_snapshot_final.
    by rewrite He.
Qed.
End Identities.

(** ** What is read is the image *)

Section Reads.
Context {D : Type} `{ISqliteLaws D}.

Lemma read_mentions_image (d : D) id ids d' :
  read_mentions d id = (success ids, d') -> mentions_image (view d) id = Some ids.
Proof.
  unfold read_mentions. destruct (sqlite3_bind d _ _ _) as [status d1] eqn:Hb.
  apply bind_same in Hb as (Hv & _). destruct (negb (status =? SQLITE_OK)); [done|].
  destruct (sqlite3_steps d1 _ _) as [[rows final] d2] eqn:Hs.
  eapply steps_answer in Hs as (Hdone & _); [|reflexivity].
  destruct (mention_rows [] rows) as [ms|] eqn:Hm; [|done].
  destruct (Z.eqb_spec final SQLITE_DONE) as [Hf|]; cbn [negb]; [|done].
  destruct (reset_statement d2 _) as [ok d3]. destruct ok; cbn [negb]; [|done].
  intros [= <- _]. rewrite (Hdone Hf), Hv in Hm. exact Hm.
Qed.

Lemma read_entry_image (d : D) m i s row s' d' :
  read_entry d m i s row = (success s', d') -> entry_image (view d) m i s row = Some s'.
Proof.
  unfold read_entry, entry_image. case_match; [done|].
  destruct (read_post_row _ _ _) as [r|]; [|done].
  destruct (read_reply _) as [reply|]; [|done]. destruct (read_time _) as [time|]; [|done].
  destruct (read_mentions d _) as [[ids|] d1] eqn:Hm; [|done].
  apply read_mentions_image in Hm. cbn [mbind option_bind]. rewrite Hm. cbn [mbind option_bind].
  by destruct (finish_entry _ _ _ _ _ _ _); intros [= <- _].
Qed.

Lemma read_entries_loop_image rows (d : D) m i s s' d' :
  read_entries_loop d m i s rows = (success s', d') ->
  entries_image (view d) m i s rows = Some s'.
Proof.
  revert d s. induction rows as [|row rows IH]; intros d s; cbn; [by intros [= <- _]|].
  destruct (read_entry d m i s row) as [[s1|] d1] eqn:He; [|done].
  pose proof He as Hs. apply read_entry_same in Hs as (Hv & _).
  apply read_entry_image in He. rewrite He. cbn. rewrite <- Hv. apply IH.
Qed.

Lemma read_timeline_image (d : D) m i entries d' :
  read_timeline d m i = (success entries, d') -> exists s,
  entries_image (view d) m i start_post_scan (order_by 7 (rows_of (view d) tPosts)) = Some s /\
  entries = s.(read_entries).
Proof.
  unfold read_timeline. destruct (negb _); [done|].
  destruct (sqlite3_steps d kSelectPosts []) as [[rows final] d1] eqn:Hs.
  pose proof Hs as Hsame. apply steps_same in Hsame as (Hv & _); [|reflexivity].
  eapply steps_answer in Hs as (Hdone & _); [|reflexivity].
  destruct (read_entries_loop _ _ _ _ _) as [[s|] d2] eqn:Hl; [|done].
  apply read_entries_loop_image in Hl. rewrite Hv in Hl.
  destruct (Z.eqb_spec final SQLITE_DONE) as [Hf|]; cbn [negb]; [|done].
  intros [= <- _]. exists s. split; [|done]. rewrite (Hdone Hf) in Hl. exact Hl.
Qed.

Lemma read_ledger_image (d : D) m records d' :
  read_ledger d m = (success records, d') -> exists order,
  seen_rows m ([], 0) (order_by 3 (rows_of (view d) tSeen)) = Some (records, order).
Proof.
  unfold read_ledger. destruct (query d kSelectSeen) as [[[rows final]|] d1] eqn:Hq; [|done].
  destruct (query_content _ kSelectSeen _ _ _ _ eq_refl Hq) as [Hdone _]. cbn beta in Hdone.
  destruct (seen_rows _ _ rows) as [[records' order]|] eqn:Hs; [|done].
  destruct (Z.eqb_spec final SQLITE_DONE) as [Hf|]; cbn [negb]; [|done].
  intros [= <- _]. exists order. by rewrite <- (Hdone Hf).
Qed.

Lemma read_snapshot_image (d : D) m i sn d' :
  read_snapshot d m i = (success sn, d') -> snapshot_image (view d) m i = Some sn.
Proof.
  unfold read_snapshot, snapshot_image.
  destruct (read_timeline d m i) as [[entries|] d1] eqn:Ht; [|done].
  pose proof Ht as Hs. apply read_timeline_same in Hs as (Hv & _).
  apply read_timeline_image in Ht as (s & -> & ->). cbn [mbind option_bind].
  destruct (read_ledger d1 m) as [[records|] d2] eqn:Hl; [|done].
  apply read_ledger_image in Hl as (order & Hl). rewrite Hv in Hl. rewrite Hl.
  cbn [mbind option_bind]. by destruct (accept_snapshot _ _ _); intros [= <- _].
Qed.

(** The transaction of a load, on success. *)
Lemma load_transaction_image (d : D) i sn pending d' :
  in_transaction d = false -> load_transaction d i = (success (sn, pending), d') ->
  exists m, stored_metadata (committed d) = success m /\
    if negb m.(metadata_initialized) then sn = mkHistorySnapshot [] 0 [] 0 /\ pending = false
    else identity_matches m i = true /\ snapshot_image (committed d) m i = Some sn /\
         pending = negb m.(metadata_dedupe_initialized).
Proof.
  intros Ho. pose proof (view_outside d Ho) as Hout. unfold load_transaction.
  destruct (Transaction_begin d kBegin) as [started d1] eqn:Hb.
  apply Transaction_begin_spec in Hb as (_ & Hok & _); [|by left|done].
  destruct started; cbn [negb]; [|done]. destruct (Hok eq_refl) as [_ Hv1]. rewrite Hout in Hv1.
  destruct (operation_preflight d1) as [preflight d2] eqn:Hp.
  apply operation_preflight_same in Hp as (Hv2 & _). destruct (is_error preflight); [done|].
  destruct (load_metadata d2) as [[m|] d3] eqn:Hm; [|done].
  pose proof Hm as Hs. apply load_metadata_same in Hs as (Hv3 & _).
  apply load_metadata_spec in Hm as [Hm _]. specialize (Hm m eq_refl).
  rewrite Hv2, Hv1 in Hm. intros Hr. exists m. split; [done|]. revert Hr.
  destruct (metadata_initialized m); cbn [negb].
  - destruct (identity_matches m i) eqn:Hid; cbn [negb]; [|done].
    destruct (read_snapshot d3 m i) as [[s|] d4] eqn:Hr; [|done].
    apply read_snapshot_image in Hr. rewrite Hv3, Hv2, Hv1 in Hr.
    destruct (Transaction_commit d4) as [ok d5]. destruct ok; cbn [negb]; intros [= <- <- _].
    done.
  - destruct (Transaction_commit d3) as [ok d5]. destruct ok; cbn [negb]; intros [= <- <- _].
    done.
Qed.
End Reads.

(** ** Coverage *)

Lemma window_is_u64 w : Window_inv w -> is_u64 w.(last_seen_order).
Proof.
  intros [_ _ _ _ _ Hord Hlast Hmax]. unfold is_u64. split; [|done]. rewrite Hlast.
  destruct (last (records w)) as [r|] eqn:Hr; [|done].
  apply last_Some_elem_of in Hr. rewrite Forall_forall in Hord. specialize (Hord r Hr). lia.
Qed.

(** With nothing to add, reconciliation is the identity. *)
Lemma reconcile_covered sn : snapshot_covered sn -> reconcile_snapshot_dedupe sn = success sn.
Proof.
  intros [Hw He]. unfold reconcile_snapshot_dedupe.
  assert (Window_restore kDefaultSeenMessageCapacity (snapshot_last_seen_order sn)
    (snapshot_seen_messages sn) = success (ledger_window sn)) as ->.
  { apply Window_restore_success; [exact (window_is_u64 _ Hw)|done]. }
  assert (forall protected, reconcile_entries protected (ledger_window sn) (snapshot_entries sn) =
    Some (ledger_window sn)) as ->; [|by destruct sn].
  intros protected. induction He as [|e entries (c & Hc & Hcl) _ IH]; cbn; [done|].
  by rewrite Hc, Hcl.
Qed.

Lemma validate_entries_remembered i dedupe v v' entries :
  validate_entries i dedupe v entries = Some v' -> Forall (entry_remembered dedupe) entries.
Proof.
  revert v. induction entries as [|e entries IH]; intros v; cbn; [constructor|].
  destruct (validate_entry i dedupe v e) as [v1|] eqn:Hv; [|done]. intros Hs.
  apply validate_entry_Some in Hv as (_ & _ & Hc & _). constructor; [exact Hc|by eapply IH].
Qed.

Lemma validate_covered sn i :
  is_u64 sn.(snapshot_last_seen_order) ->
  validate_snapshot sn i = HistoryError_None -> snapshot_covered sn.
Proof.
  intros Hu Hv. apply validate_snapshot_None in Hv as [_ _ _ _ (w & v & Hw & Hv)].
  apply Window_restore_success in Hw as [-> Hinv]; [|done]. split; [done|].
  by eapply validate_entries_remembered.
Qed.

(** ** The image of a saved snapshot *)

Lemma mentions_image_of sn i entry db :
  stored_as sn i db -> NoDup (entry_id <$> sn.(snapshot_entries)) ->
  entry ∈ sn.(snapshot_entries) -> PostPayload_wf entry.(entry_post) ->
  mentions_image db (entry_id entry).(MessageId_uuid) =
  Some (map InstallId_uuid entry.(entry_post).(mentions)).
Proof.
  intros Hst Hnd Hin Hwf. unfold mentions_image. rewrite (stored_mentions _ _ _ Hst).
  pose proof (mentions_rows_for_entry _ _ Hnd Hin) as Hown. unfold mentions_rows_for in Hown.
  rewrite Hown, mention_rows_of_ordered. apply (mention_rows_read _ _ []); [apply Hwf|].
  cbn. apply Hwf.
Qed.

Lemma entries_image_of sn i j dedupe db rest v v' s :
  stored_as sn i db -> NoDup (entry_id <$> sn.(snapshot_entries)) ->
  Forall (fun e => e ∈ sn.(snapshot_entries)) rest ->
  Forall (fun e => PostPayload_wf e.(entry_post)) rest ->
  Forall (fun e => is_u64 e.(received_order)) rest ->
  Forall (fun e => e.(received_order) <= sn.(snapshot_last_assigned_order)) rest ->
  (length s.(read_entries) + length rest <= kMaxTimelineEntries)%nat ->
  validate_entries j dedupe v rest = Some v' -> scans_agree v s ->
  exists s', entries_image db (metadata_of sn i) j s (post_parameters <$> rest) = Some s' /\
    s'.(read_entries) = s.(read_entries) ++ rest.
Proof.
  intros Hst Hnd. revert v s. induction rest as [|e rest IH]; intros v s.
  { intros. exists s. by rewrite app_nil_r. }
  intros [Hin Hins]%Forall_cons [Hwf Hwfs]%Forall_cons [Hu Hus]%Forall_cons
    [Hle Hles]%Forall_cons Hlen Hval Hag. cbn [fmap list_fmap entries_image].
  cbn [validate_entries] in Hval. cbn [length] in Hlen.
  destruct (validate_entry j dedupe v e) as [v1|] eqn:Hv; [|done].
  destruct (finish_entry_of _ _ _ _ _ _ Hv Hag Hwf) as (s1 & Hfin & Hs1 & Hag1).
  assert (entry_image db (metadata_of sn i) j s (post_parameters e) = Some s1) as ->.
  { unfold entry_image.
    destruct (Nat.leb_spec kMaxTimelineEntries (length (read_entries s))); [lia|].
    apply validate_entry_Some in Hv as ((Hne & _ & _ & Hno) & _).
    destruct Hag as [Hord _]. rewrite <- Hord in Hno.
    rewrite (read_post_row_of (metadata_of sn i) _ e Hwf Hu Hne Hno Hle), (read_reply_of _ Hwf),
      (read_time_of _ Hwf).
    cbn [mbind option_bind row_message_id]. fold (entry_id e).
    rewrite (mentions_image_of _ _ _ _ Hst Hnd Hin Hwf). exact Hfin. }
  cbn [mbind option_bind].
  destruct (IH v1 s1) as (s' & Hr & Hs'); try done.
  - rewrite Hs1, length_app. cbn. lia.
  - exists s'. split; [done|]. by rewrite Hs', Hs1, <- app_assoc.
Qed.

Lemma ledger_image_of sn i db :
  stored_as sn i db -> Window_inv (ledger_window sn) ->
  exists order, seen_rows (metadata_of sn i) ([], 0) (order_by 3 (rows_of db tSeen)) =
    Some (sn.(snapshot_seen_messages), order).
Proof.
  intros Hst Hw. pose proof (window_is_u64 _ Hw) as Hu. destruct Hw as [_ Hsize Hcan _ Hsorted Hord _ Hmax].
  cbn [ledger_window records window_capacity last_seen_order] in *.
  rewrite (stored_seen _ _ _ Hst).
  change (map (fun r => seen_stored (seen_parameters r)) (snapshot_seen_messages sn))
    with (seen_row_of <$> snapshot_seen_messages sn).
  rewrite (order_by_uint64 _ _ seen_order); [|done| |done].
  - by apply seen_rows_of.
  - eapply Forall_impl; [exact Hord|]. intros x Hx. unfold is_u64. cbn in Hx. lia.
Qed.

Lemma history_image_stored sn i db :
  stored_as sn i db -> validate_snapshot sn i = HistoryError_None -> snapshot_typed sn ->
  Uuid_wf i.(Identity_install_id).(InstallId_uuid) -> history_image db = Some sn.
Proof.
  intros Hst Hval (Ha & Ho & Hwf & Hs & _) Hi.
  pose proof (proj1 (validate_covered _ _ Hs Hval)) as Hw.
  unfold history_image. rewrite (stored_metadata_of _ _ _ Hst) by done.
  cbn [metadata_of metadata_initialized metadata_dedupe_initialized negb].
  set (j := final_identity _).
  assert (validate_snapshot sn j = HistoryError_None) as Hvalj.
  { apply (validate_snapshot_final i); [|done..]. cbn. by destruct i as [[[b]] ? ?]. }
  assert (snapshot_image db (metadata_of sn i) j = Some sn) as ->; [|done].
  unfold snapshot_image. rewrite (stored_posts _ _ _ Hst).
  change (map post_parameters (snapshot_entries sn)) with (post_parameters <$> snapshot_entries sn).
  destruct (validate_snapshot_None _ _ Hvalj) as [Hsize Hsorted Hords Hnd (dedupe & v & _ & Hv)].
  rewrite (order_by_uint64 7 post_parameters received_order) by done.
  destruct (entries_image_of sn i j dedupe db (snapshot_entries sn) start_snapshot_scan v
    start_post_scan) as (s & -> & Hse); try done.
  { by apply Forall_forall. }
  { eapply Forall_impl; [exact Hords|]. cbn. lia. }
  cbn [mbind option_bind]. destruct (ledger_image_of _ _ _ Hst Hw) as (order & ->).
  cbn [mbind option_bind]. rewrite Hse. cbn [start_post_scan read_entries app].
  cbn [metadata_of metadata_last_assigned_order metadata_last_seen_order].
  replace (mkHistorySnapshot (snapshot_entries sn) (snapshot_last_assigned_order sn)
    (snapshot_seen_messages sn) (snapshot_last_seen_order sn)) with sn by (by destruct sn).
  unfold accept_snapshot. cbn [metadata_of metadata_dedupe_initialized negb]. by rewrite Hvalj.
Qed.

(** ** Saves and loads *)

(** A row that was inserted passed its check. *)
Lemma insert_all_checked table check keys rows db db' :
  insert_all (sql_insert table check keys) rows db = Some db' ->
  Forall (fun row => check row = true) rows.
Proof.
  revert db. induction rows as [|row rows IH]; intros db; cbn; [constructor|].
  intros (db1 & Hi & Hr)%bind_Some. constructor; [|by eapply IH].
  revert Hi. unfold sql_insert. intros (old & _ & Hi)%bind_Some.
  by destruct (check row).
Qed.

Lemma saved_install sn i db db' :
  snapshot_effect sn i db = Some db' -> Uuid_wf i.(Identity_install_id).(InstallId_uuid).
Proof.
  unfold snapshot_effect. intros (db1 & _ & Hr)%bind_Some.
  apply bind_Some in Hr as (db2 & Hm & _). apply insert_all_checked in Hm.
  apply Forall_inv in Hm. unfold check_meta, bind_uuid in Hm.
  rewrite bool_decide_true in Hm by done. rewrite !bool_decide_false in Hm by done.
  rewrite !orb_false_r in Hm. by apply Nat.eqb_eq in Hm.
Qed.

Section Image.
Context {D : Type} `{ISqliteLaws D}.

(** A save that succeeds: the image is the reconciled snapshot. *)
Lemma save_image failpoint (d d' : D) sn i :
  in_transaction d = false -> snapshot_typed sn ->
  save_snapshot failpoint d sn i = (HistoryError_None, d') ->
  exists c, reconcile_snapshot_dedupe sn = success c /\ history_image (committed d') = Some c.
Proof.
  intros Ho Ht Hs. apply save_snapshot_spec in Hs as (_ & _ & Hok); [|done].
  destruct (Hok eq_refl) as (c & Hr & Hv & _ & He & Hst). exists c. split; [done|].
  destruct (reconcile_success _ _ Ht Hr) as (_ & _ & _ & Htc).
  eapply history_image_stored; try done. by eapply saved_install.
Qed.

(** A load that succeeds gives the image, before and after. *)
Lemma load_image failpoint (d d' : D) sn i :
  in_transaction d = false -> load_snapshot failpoint d i = (success sn, d') ->
  history_image (committed d) = Some sn /\ history_image (committed d') = Some sn /\
  snapshot_typed sn /\ snapshot_covered sn.
Proof.
  intros Ho. unfold load_snapshot.
  destruct (load_transaction d i) as [[[s pending]|] d1] eqn:Hl; [|done].
  pose proof (load_transaction_sound _ _ _ _ _ Hl) as [Ht Hv].
  pose proof (load_transaction_frame _ _ _ _ Ho Hl) as [Ho1 Hc1].
  apply (load_transaction_image _ _ _ _ _ Ho) in Hl as (m & Hm & Hr).
  assert (history_image (committed d) =
    if pending then value_of (reconcile_snapshot_dedupe s) else Some s) as Himage.
  { unfold history_image. rewrite Hm.
    destruct (metadata_initialized m); cbn [negb] in *; [|by destruct Hr as [-> ->]].
    destruct Hr as (Hid & Hs & ->). unfold identity_matches in Hid.
    apply bool_decide_eq_true in Hid.
    assert (snapshot_image (committed d) m (final_identity m) = Some s) as ->;
      [|by destruct (metadata_dedupe_initialized m)].
    revert Hs. unfold snapshot_image.
    destruct (entries_image _ _ i _ _) as [ps|] eqn:He; [|done].
    assert (Identity_install_id (final_identity m) = Identity_install_id i) as Hin.
    { cbn. rewrite Hid. by destruct i as [[[b]] ? ?]. }
    rewrite (entries_image_final i _ Hin eq_refl _ _ _ _ _ He). cbn [mbind option_bind].
    destruct (seen_rows _ _ _) as [[records order]|]; [|done]. cbn [mbind option_bind].
    destruct (accept_snapshot m i _) eqn:Ha; [|done]. intros [= <-].
    by rewrite (accept_snapshot_final i _ Hin eq_refl _ _ Ht Ha). }
  destruct pending.
  - destruct (reconcile_snapshot_dedupe s) as [c|] eqn:Hrec; [|done].
    destruct (save_snapshot failpoint d1 c i) as [saved d2] eqn:Hs.
    destruct (is_error saved) eqn:He; [done|]. apply is_error_None in He as ->.
    intros [= <- <-]. destruct (reconcile_success _ _ Ht Hrec) as (_ & _ & _ & Htc).
    pose proof (validate_covered c i (proj1 (proj2 (proj2 (proj2 Htc)))) (Hv c eq_refl)) as Hcov.
    destruct (save_image _ _ _ _ _ Ho1 Htc Hs) as (c' & Hc' & Hi').
    rewrite (reconcile_covered _ Hcov) in Hc'. injection Hc' as <-. done.
  - intros [= <- <-]. rewrite Hc1. split_and!; [done..| |].
    + exact Ht.
    + eapply validate_covered; [|exact Hv]. apply Ht.
Qed.

(** No load changes the image, whatever it answers. *)
Lemma load_image_frame failpoint (d d' : D) i r :
  in_transaction d = false -> load_snapshot failpoint d i = (r, d') ->
  in_transaction d' = false /\ history_image (committed d') = history_image (committed d).
Proof.
  intros Ho Hl. destruct r as [sn|e].
  - pose proof Hl as Hi. apply load_image in Hi as (-> & -> & _); [|done]. split; [|done].
    revert Hl. unfold load_snapshot.
    destruct (load_transaction d i) as [[[s []]|] d1] eqn:Hl; [| |done];
      pose proof (load_transaction_frame _ _ _ _ Ho Hl) as [Ho1 _]; [|by intros [= _ <-]].
    destruct (reconcile_snapshot_dedupe s) as [c|]; [|done].
    destruct (save_snapshot failpoint d1 c i) as [saved d2] eqn:Hs.
    apply save_snapshot_spec in Hs as (Ho2 & _); [|done]. by destruct (is_error saved); intros [= _ <-].
  - revert Hl. unfold load_snapshot.
    destruct (load_transaction d i) as [[[s pending]|] d1] eqn:Hl;
      pose proof (load_transaction_frame _ _ _ _ Ho Hl) as [Ho1 Hc1];
      [|intros [= _ <-]; by rewrite Hc1].
    destruct pending; [|done].
    destruct (reconcile_snapshot_dedupe s) as [c|]; [|intros [= _ <-]; by rewrite Hc1].
    destruct (save_snapshot failpoint d1 c i) as [saved d2] eqn:Hs.
    apply save_snapshot_spec in Hs as (Ho2 & Hno & _); [|done].
    destruct (is_error saved) eqn:He; [|done]. apply is_error_true in He.
    intros [= _ <-]. by rewrite (Hno He), Hc1.
Qed.
End Image.
