(* ===== verification/HistoryFiles.v ===== *)
(** * HistoryFiles: opening the history database

    The part of src/adapters/storage/sqlite_history_store.cpp that works on files:
    the inspection of the database and its side files, the private copy on which
    an existing history is validated, its removal, and [open] and
    [open_existing_bound].  The files are an [IPosix] world with the calls of
    [IHistoryFiles]; a connection is a value of its own between
    [sqlite3_open_v2] and [sqlite3_close_v2] and remembers its path.  Retries
    and copies are bounded by a fuel; [None] is running out of it. *)
From S2P Require Import Prelude Uuid Identity Timeline HistoryRecord SettingsStore HistorySchema HistoryStore.

(** ** Definitions *)

(** *** The calls *)

(** What [lstat] and [fstat] tell of a leaf. *)
Record LeafStatus := mkLeafStatus {
  leaf_regular : bool;
  leaf_directory : bool;
  leaf_links : Z;
  leaf_owner : Z
}.

(** [fs_directory_names] is a directory iterator run to its end: the names it
    stood on, and the value of its error code, 0 for none. *)
Class IHistoryFiles (W : Type) := {
  fs_exists : W -> bytes -> Result bool Z * W;
  fs_permissions : W -> bytes -> Z * W;
  fs_create_directory : W -> bytes -> Result bool Z * W;
  fs_directory_names : W -> bytes -> list bytes * Z * W;
  sys_lstat : W -> bytes -> Result LeafStatus Z * W;
  sys_fstat_leaf : W -> Z -> Result LeafStatus Z * W;
  sys_geteuid : W -> Z;
  sys_chmod : W -> bytes -> Result unit Z * W;
  sys_rmdir : W -> bytes -> Result unit Z * W
}.

(** A handle of SQLite: the connection and the path it was opened on. *)
Record Connection (C : Type) := mkConnection {
  connection : C;
  connection_path : bytes
}.
Arguments mkConnection {C} _ _.
Arguments connection {C} _.
Arguments connection_path {C} _.

Definition with_connection {C} (h : Connection C) (c : C) : Connection C :=
  mkConnection c h.(connection_path).

(** A failed open may give a handle or the null pointer; closing that is a no-op. *)
Class ISqliteOpen (W C : Type) := {
  sqlite3_open_v2 : W -> bytes -> Z -> Z * option (Connection C) * W;
  sqlite3_close_v2 : W -> option (Connection C) -> Z * W
}.

Definition SQLITE_OPEN_READWRITE : Z := 0x2.
Definition SQLITE_OPEN_CREATE : Z := 0x4.
Definition SQLITE_OPEN_FULLMUTEX : Z := 0x10000.
Definition SQLITE_OPEN_NOFOLLOW : Z := 0x1000000.
Definition SQLITE_OPEN_EXRESCODE : Z := 0x2000000.

(** *** Paths *)

Definition wal_path (path : bytes) : bytes := path ++ str "-wal".
Definition shm_path (path : bytes) : bytes := path ++ str "-shm".
Definition journal_path (path : bytes) : bytes := path ++ str "-journal".

(** [directory / name] *)
Definition path_join (directory name : bytes) : bytes := directory ++ str "/" ++ name.

Definition history_probe_directory_path (database_path : bytes) : bytes :=
  database_path ++ str ".probe".

Definition probe_database_path (database_path : bytes) : bytes :=
  path_join (history_probe_directory_path database_path) (path_filename database_path).

Definition valid_database_path (database_path : bytes) : bool :=
  path_is_absolute database_path && negb (length (path_filename database_path) =? 0)%nat.

(** [path.empty() || path.find('\0') != npos] *)
Definition unusable_path (path : bytes) : bool :=
  (length path =? 0)%nat || existsb (Byte.eqb x00) path.

Section Files.
Context {W C : Type} `{IPosix W} `{IHistoryFiles W} `{ISqliteOpen W C} `{ISqlite C}
  `{ISqliteHistoryFailpoint C}.

(** *** Inspection and permissions *)

Fixpoint restrict_permissions (w : W) (files : list bytes) : bool * W :=
  match files with
  | [] => (true, w)
  | file :: files =>
      match fs_exists w file with
      | (failure _, w) => (false, w)
      | (success false, w) => restrict_permissions w files
      | (success true, w) =>
          let '(error, w) := fs_permissions w file in
          if negb (error =? 0) then (false, w) else restrict_permissions w files
      end
  end.

Definition restrict_database_permissions (w : W) (database_path : bytes) : bool * W :=
  restrict_permissions w [database_path; wal_path database_path; shm_path database_path].

(** [S_ISREG], one link, ours. *)
Definition private_leaf (w : W) (status : LeafStatus) : bool :=
  status.(leaf_regular) && (status.(leaf_links) =? 1) && (status.(leaf_owner) =? sys_geteuid w).

(** The error, and whether the leaf exists. *)
Definition inspect_regular_leaf (w : W) (path : bytes) : HistoryError * bool * W :=
  match sys_lstat w path with
  | (failure errno, w) =>
      (if errno =? ENOENT then HistoryError_None else HistoryError_OpenFailed, false, w)
  | (success status, w) =>
      (if private_leaf w status then HistoryError_None else HistoryError_InvalidData, true, w)
  end.

Fixpoint inspect_side_files (w : W) (database_exists : bool) (paths : list bytes)
  : Result bool HistoryError * W :=
  match paths with
  | [] => (success database_exists, w)
  | path :: paths =>
      let '(error, exists_, w) := inspect_regular_leaf w path in
      if is_error error then (failure error, w)
      else if exists_ && negb database_exists then (failure HistoryError_InvalidData, w)
      else inspect_side_files w database_exists paths
  end.

Definition inspect_history_artifacts (w : W) (database_path : bytes)
  : Result bool HistoryError * W :=
  let '(error, database_exists, w) := inspect_regular_leaf w database_path in
  if is_error error then (failure error, w)
  else inspect_side_files w database_exists
         [wal_path database_path; shm_path database_path; journal_path database_path].

(** *** Copying a leaf *)

Definition read_leaf_flags : OpenMode := Open_Read.
Definition create_leaf_flags : OpenMode := Open_CreateExclusive.

(** The C++ [close_descriptor] retries, unlike that of the settings store. *)
Fixpoint close_leaf (fuel : nat) (w : W) (descriptor : Z) : option W :=
  match fuel with
  | O => None
  | S fuel =>
      if descriptor <? 0 then Some w
      else
        match sys_close w descriptor with
        | (success _, w) => Some w
        | (failure errno, w) =>
            if errno =? EINTR then close_leaf fuel w descriptor else Some w
        end
  end.

(** The inner loop: [true] is everything written. *)
Fixpoint write_leaf (fuel : nat) (w : W) (descriptor : Z) (data : bytes) : option (bool * W) :=
  match data, fuel with
  | [], _ => Some (true, w)
  | _, O => None
  | _, S fuel =>
      match sys_write w descriptor data with
      | (success O, w) => Some (false, w)
      | (success written, w) => write_leaf fuel w descriptor (drop written data)
      | (failure errno, w) =>
          if errno =? EINTR then write_leaf fuel w descriptor data else Some (false, w)
      end
  end.

Definition kCopyBufferBytes : nat := 64 * 1024.

Fixpoint copy_loop (fuel : nat) (w : W) (source destination : Z) : option (HistoryError * W) :=
  match fuel with
  | O => None
  | S fuel' =>
      match sys_read w source kCopyBufferBytes with
      | (success [], w) => Some (HistoryError_None, w)
      | (success chunk, w) =>
          '(written, w) ← write_leaf fuel w destination chunk;
          if (written : bool) then copy_loop fuel' w source destination
          else Some (HistoryError_ReadFailed, w)
      | (failure errno, w) =>
          if errno =? EINTR then copy_loop fuel' w source destination
          else Some (HistoryError_ReadFailed, w)
      end
  end.

Definition copy_regular_leaf (fuel : nat) (w : W) (source destination : bytes)
    (required : bool) : option (HistoryError * W) :=
  match sys_open w source read_leaf_flags with
  | (failure errno, w) =>
      Some (if negb required && (errno =? ENOENT) then HistoryError_None
            else HistoryError_OpenFailed, w)
  | (success source_descriptor, w) =>
      let '(status, w) := sys_fstat_leaf w source_descriptor in
      let fine := match status with success status => private_leaf w status | _ => false end in
      if negb fine then
        w ← close_leaf fuel w source_descriptor; Some (HistoryError_InvalidData, w)
      else
        match sys_open w destination create_leaf_flags with
        | (failure _, w) =>
            w ← close_leaf fuel w source_descriptor; Some (HistoryError_OpenFailed, w)
        | (success destination_descriptor, w) =>
            '(result, w) ← copy_loop fuel w source_descriptor destination_descriptor;
            let '(mode, w) := sys_fchmod w destination_descriptor in
            let result :=
              if negb (has_value mode) && negb (is_error result)
              then HistoryError_OpenFailed else result in
            w ← close_leaf fuel w destination_descriptor;
            w ← close_leaf fuel w source_descriptor;
            Some (result, w)
        end
  end.

(** *** Discarding the probe *)

Fixpoint fsync_retry (fuel : nat) (w : W) (descriptor : Z) : option (bool * W) :=
  match fuel with
  | O => None
  | S fuel =>
      match sys_fsync w descriptor with
      | (success _, w) => Some (true, w)
      | (failure errno, w) =>
          if errno =? EINTR then fsync_retry fuel w descriptor else Some (false, w)
      end
  end.

Definition sync_parent_directory (fuel : nat) (w : W) (directory_path : bytes)
  : option (bool * W) :=
  match sys_open w directory_path Open_Directory with
  | (failure _, w) => Some (false, w)
  | (success descriptor, w) =>
      '(synced, w) ← fsync_retry fuel w descriptor;
      w ← close_leaf fuel w descriptor;
      Some (synced, w)
  end.

(** A call repeated while it is interrupted; [true] is success or [ENOENT]. *)
Fixpoint remove_retry (fuel : nat) (remove : W -> Result unit Z * W) (w : W)
  : option (bool * W) :=
  match fuel with
  | O => None
  | S fuel =>
      match remove w with
      | (success _, w) => Some (true, w)
      | (failure errno, w) =>
          if errno =? EINTR then remove_retry fuel remove w else Some (errno =? ENOENT, w)
      end
  end.

Fixpoint unlink_leaves (fuel : nat) (w : W) (leaves : list bytes) : option (bool * W) :=
  match leaves with
  | [] => Some (true, w)
  | leaf :: leaves =>
      '(removed, w) ← remove_retry fuel (fun w => sys_unlink w leaf) w;
      if (removed : bool) then unlink_leaves fuel w leaves else Some (false, w)
  end.

Definition allowed_names (database_path : bytes) : list bytes :=
  let name := path_filename database_path in
  [name; wal_path name; shm_path name; journal_path name].

Definition discard_probe_directory_impl (fuel : nat) (w : W) (database_path : bytes)
  : option (HistoryError * W) :=
  let probe_directory := history_probe_directory_path database_path in
  match sys_lstat w probe_directory with
  | (failure errno, w) =>
      Some (if errno =? ENOENT then HistoryError_None else HistoryError_OpenFailed, w)
  | (success status, w) =>
      if negb status.(leaf_directory) || negb (status.(leaf_owner) =? sys_geteuid w)
      then Some (HistoryError_InvalidData, w)
      else
        let '(names, filesystem_error, w) := fs_directory_names w probe_directory in
        if negb (forallb (fun name => bool_decide (name ∈ allowed_names database_path)) names)
        then Some (HistoryError_InvalidData, w)
        else if negb (filesystem_error =? 0) then Some (HistoryError_OpenFailed, w)
        else
          '(unlinked, w) ← unlink_leaves fuel w (path_join probe_directory <$> names);
          if negb unlinked then Some (HistoryError_OpenFailed, w)
          else
            '(removed, w) ← remove_retry fuel (fun w => sys_rmdir w probe_directory) w;
            if negb removed then Some (HistoryError_OpenFailed, w)
            else
              '(synced, w) ← sync_parent_directory fuel w (path_parent database_path);
              Some (if (synced : bool) then HistoryError_None else HistoryError_OpenFailed, w)
  end.

Definition discard_history_probe (fuel : nat) (w : W) (database_path : bytes)
  : option (HistoryError * W) :=
  if negb (valid_database_path database_path) then Some (HistoryError_InvalidPath, w)
  else discard_probe_directory_impl fuel w database_path.

Definition remove_probe_copy (fuel : nat) (w : W) (database_path : bytes)
    (result : HistoryError) : option (HistoryError * W) :=
  '(cleanup, w) ← discard_history_probe fuel w database_path;
  Some (if is_error cleanup && negb (is_error result) then cleanup else result, w).

(** *** The probe *)

(** The copies of the side files, up to the first that fails. *)
Fixpoint copy_side_files (fuel : nat) (w : W) (copies : list (bytes * bytes))
  : option (HistoryError * W) :=
  match copies with
  | [] => Some (HistoryError_None, w)
  | (source, destination) :: copies =>
      '(result, w) ← copy_regular_leaf fuel w source destination false;
      if is_error result then Some (result, w) else copy_side_files fuel w copies
  end.

Definition make_history_probe_copy (fuel : nat) (w : W) (database_path : bytes)
  : option (Result bytes HistoryError * W) :=
  let probe_directory := history_probe_directory_path database_path in
  let probe_database := probe_database_path database_path in
  match fs_create_directory w probe_directory with
  | (failure _, w) | (success false, w) => Some (failure HistoryError_OpenFailed, w)
  | (success true, w) =>
      let '(mode, w) := sys_chmod w probe_directory in
      '(result, w) ←
        (if negb (has_value mode) then Some (HistoryError_OpenFailed, w)
         else
           '(result, w) ← copy_regular_leaf fuel w database_path probe_database true;
           if is_error result then Some (result, w)
           else copy_side_files fuel w
                  [(wal_path database_path, wal_path probe_database);
                   (journal_path database_path, journal_path probe_database)]);
      if is_error result then
        '(_, w) ← discard_history_probe fuel w database_path;
        Some (failure result, w)
      else Some (success probe_database, w)
  end.

(** [sqlite3_open_v2]; a failure closes what it was given. *)
Definition open_connection (w : W) (path : bytes) (flags : Z)
  : Result (Connection C) HistoryError * W :=
  match sqlite3_open_v2 w path flags with
  | (open_result, database, w) =>
      match (if open_result =? SQLITE_OK then database else None) with
      | Some h => (success h, w)
      | None =>
          (failure (error_for_result open_result HistoryError_OpenFailed),
           snd (sqlite3_close_v2 w database))
      end
  end.

Definition kProbeFlags : Z :=
  Z.lor SQLITE_OPEN_READWRITE
    (Z.lor SQLITE_OPEN_FULLMUTEX (Z.lor SQLITE_OPEN_EXRESCODE SQLITE_OPEN_NOFOLLOW)).

Definition open_probe_database (w : W) (probe_database : bytes)
  : Result (Connection C) HistoryError * W := open_connection w probe_database kProbeFlags.

(** The copy, the check of an open probe, the end of it. *)
Definition with_probe (fuel : nat) (w : W) (database_path : bytes)
    (check : C -> HistoryError * C) : option (HistoryError * W) :=
  '(copied, w) ← make_history_probe_copy fuel w database_path;
  match copied with
  | failure error => Some (error, w)
  | success probe_database =>
      match open_probe_database w probe_database with
      | (failure error, w) => remove_probe_copy fuel w database_path error
      | (success h, w) =>
          let '(result, c) := check h.(connection) in
          let '(close_result, w) := sqlite3_close_v2 w (Some (with_connection h c)) in
          remove_probe_copy fuel w database_path
            (if negb (close_result =? SQLITE_OK) && negb (is_error result)
             then HistoryError_ReadFailed else result)
      end
  end.

Definition preflight_check (database : C) : HistoryError * C :=
  let '(connected, database) := configure_connection database in
  if is_error connected then (connected, database) else validate_existing_database database.

Definition preflight_existing_schema_read_only (fuel : nat) (w : W) (database_path : bytes)
  : option (HistoryError * W) :=
  with_probe fuel w database_path preflight_check.

Definition bound_check (identity : Identity) (probe : C) : HistoryError * C :=
  let '(result, probe) := configure_database false false probe in
  if is_error result then (result, probe)
  else
    match load_metadata probe with
    | (failure error, probe) => (error, probe)
    | (success metadata, probe) =>
        if negb metadata.(metadata_initialized) then (HistoryError_InvalidData, probe)
        else if negb (identity_matches metadata identity)
        then (HistoryError_IdentityMismatch, probe)
        else
          match read_snapshot probe metadata identity with
          | (failure error, probe) => (error, probe)
          | (success _, probe) => (HistoryError_None, probe)
          end
    end.

Definition validate_bound_database_read_only (fuel : nat) (w : W) (database_path : bytes)
    (identity : Identity) : option (HistoryError * W) :=
  with_probe fuel w database_path (bound_check identity).

(** *** The store *)

Record SqliteHistoryStore := mkSqliteHistoryStore {
  store_database : Connection C;
  store_database_path : bytes;
  store_has_failpoint : bool
}.

(** The destructor. *)
Definition SqliteHistoryStore_close (w : W) (store : SqliteHistoryStore) : W :=
  snd (sqlite3_close_v2 w (Some store.(store_database))).

(** The end of both opens: configure the database in place, restrict the files. *)
Definition open_in_place (w : W) (database_path : bytes) (flags : Z) (failpoint : bool)
  : Result SqliteHistoryStore HistoryError * W :=
  match open_connection w database_path flags with
  | (failure error, w) => (failure error, w)
  | (success h, w) =>
      let '(configured, c) := configure_database failpoint true h.(connection) in
      let store := mkSqliteHistoryStore (with_connection h c) database_path failpoint in
      if is_error configured then (failure configured, SqliteHistoryStore_close w store)
      else
        let '(restricted, w) := restrict_database_permissions w database_path in
        if negb restricted
        then (failure HistoryError_OpenFailed, SqliteHistoryStore_close w store)
        else (success store, w)
  end.

Definition open_flags (database_exists : bool) : Z :=
  Z.lor SQLITE_OPEN_READWRITE
    (Z.lor (if database_exists then 0 else SQLITE_OPEN_CREATE)
       (Z.lor SQLITE_OPEN_FULLMUTEX (Z.lor SQLITE_OPEN_EXRESCODE SQLITE_OPEN_NOFOLLOW))).

Definition SqliteHistoryStore_open (fuel : nat) (w : W) (database_path : bytes)
    (failpoint : bool) : option (Result SqliteHistoryStore HistoryError * W) :=
  if negb (valid_database_path database_path) then Some (failure HistoryError_InvalidPath, w)
  else
    let parent := path_parent database_path in
    let '(filesystem_error, w) :=
      if (length parent =? 0)%nat then (0, w) else sys_create_directories w parent in
    if negb (filesystem_error =? 0) then Some (failure HistoryError_OpenFailed, w)
    else if unusable_path database_path then Some (failure HistoryError_InvalidPath, w)
    else
      match inspect_history_artifacts w database_path with
      | (failure error, w) => Some (failure error, w)
      | (success database_exists, w) =>
          '(preflight, w) ←
            (if (database_exists : bool)
             then preflight_existing_schema_read_only fuel w database_path
             else Some (HistoryError_None, w));
          if is_error preflight then Some (failure preflight, w)
          else Some (open_in_place w database_path (open_flags database_exists) failpoint)
      end.

Definition SqliteHistoryStore_open_existing_bound (fuel : nat) (w : W) (database_path : bytes)
    (identity : Identity) : option (Result SqliteHistoryStore HistoryError * W) :=
  if negb (valid_database_path database_path) || unusable_path database_path
  then Some (failure HistoryError_InvalidPath, w)
  else
    match inspect_history_artifacts w database_path with
    | (failure error, w) => Some (failure error, w)
    | (success false, w) => Some (failure HistoryError_OpenFailed, w)
    | (success true, w) =>
        '(validation, w) ← validate_bound_database_read_only fuel w database_path identity;
        if is_error validation then Some (failure validation, w)
        else Some (open_in_place w database_path (open_flags true) false)
    end.

(** The methods, on the store's own connection. *)
Definition with_store_connection (store : SqliteHistoryStore) (c : C) : SqliteHistoryStore :=
  mkSqliteHistoryStore (with_connection store.(store_database) c)
    store.(store_database_path) store.(store_has_failpoint).

Definition SqliteHistoryStore_load_snapshot (store : SqliteHistoryStore) (identity : Identity)
  : Result HistorySnapshot HistoryError * SqliteHistoryStore :=
  let '(loaded, c) :=
    load_snapshot store.(store_has_failpoint) store.(store_database).(connection) identity in
  (loaded, with_store_connection store c).

Definition SqliteHistoryStore_save_snapshot (store : SqliteHistoryStore)
    (snapshot : HistorySnapshot) (identity : Identity) : HistoryError * SqliteHistoryStore :=
  let '(saved, c) :=
    save_snapshot store.(store_has_failpoint) store.(store_database).(connection) snapshot
      identity in
  (saved, with_store_connection store c).

(** The overload that takes a timeline keeps the ledger of the database. *)
Definition SqliteHistoryStore_save_timeline (store : SqliteHistoryStore) (timeline : Timeline)
    (identity : Identity) : HistoryError * SqliteHistoryStore :=
  match SqliteHistoryStore_load_snapshot store identity with
  | (failure error, store) => (error, store)
  | (success snapshot, store) =>
      SqliteHistoryStore_save_snapshot store
        (mkHistorySnapshot timeline.(entries) timeline.(last_assigned_order)
           snapshot.(snapshot_seen_messages) snapshot.(snapshot_last_seen_order)) identity
  end.

(** Move assignment to another store: the old connection is closed, and the
    moved-from store keeps none. *)
Definition SqliteHistoryStore_assign (w : W) (store other : SqliteHistoryStore)
  : SqliteHistoryStore * W :=
  (other, SqliteHistoryStore_close w store).
End Files.

Arguments SqliteHistoryStore : clear implicits.
Arguments mkSqliteHistoryStore {C} _ _ _.
Arguments store_database {C} _.
Arguments store_database_path {C} _.
Arguments store_has_failpoint {C} _.
