(* ===== verification/HistoryContract.v ===== *)
(** * HistoryContract: the store keeps the promises the session relies on

    The functions of HistoryFiles.v over any world that obeys the laws: the probe
    is an exact copy and the only thing that is touched before it has been
    validated, opening takes the contents along whole steps, and the store with
    its files is an [IHistoryStore] that obeys [IHistoryStoreLaws], the interface
    the theorems of DurableSession.v are proved against. *)
From S2P Require Import Prelude Uuid Identity Post Timeline Limits PostCodec DedupeWindow HistoryRecord SettingsStore PersistentSession HistorySchema HistoryStore HistoryLaws HistoryTheory HistoryRoundtrip HistoryLoad HistoryMigration HistoryImage HistoryFiles.

(** ** What the code relies on *)

(** The files of a database, those its contents are read from, and the contents. *)
Definition database_files (path : bytes) : list bytes :=
  [path; wal_path path; shm_path path; journal_path path].

(** A call that leaves the open descriptors and every file alone. *)
Definition quiet {W} `{PosixView W} (w w' : W) : Prop :=
  same_handles w w' /\ forall q, visible w' q = visible w q.

(** [sqlite_contents] is the file format: the contents of a database from its
    file, its write-ahead log and its rollback journal. *)
Class SqliteFormat := {
  sqlite_contents : option bytes -> option bytes -> option bytes -> Database
}.

Definition stored {W} `{PosixView W} `{SqliteFormat} (w : W) (path : bytes) : Database :=
  sqlite_contents (visible w path) (visible w (wal_path path)) (visible w (journal_path path)).

Class IHistoryFilesLaws (W C : Type) `{IPosixLaws W} `{IHistoryFiles W} `{ISqliteOpen W C}
    `{ISqliteLaws C} `{SqliteFormat} := {
  exists_quiet w p r w' : fs_exists w p = (r, w') -> quiet w w';
  permissions_quiet w p r w' : fs_permissions w p = (r, w') -> quiet w w';
  names_quiet w p r e w' : fs_directory_names w p = (r, e, w') -> quiet w w';
  lstat_quiet w p r w' : sys_lstat w p = (r, w') -> quiet w w';
  fstat_leaf_quiet w d r w' : sys_fstat_leaf w d = (r, w') -> quiet w w';
  fstat_leaf_other w d status w' :
    sys_fstat_leaf w d = (success status, w') -> handle w d = Some Handle_Other ->
    status.(leaf_regular) = false;
  chmod_quiet w p r w' : sys_chmod w p = (r, w') -> quiet w w';
  rmdir_quiet w p r w' : sys_rmdir w p = (r, w') -> quiet w w';
  create_directory_law w p r w' :
    fs_create_directory w p = (r, w') ->
    quiet w w' /\ (r = success true -> forall name, visible w' (path_join p name) = None);
  sqlite_open_law w p flags rc h w' :
    sqlite3_open_v2 w p flags = (rc, h, w') ->
    same_handles w w' /\
    (forall q, q ∉ database_files p -> visible w' q = visible w q) /\
    match h with
    | Some h => h.(connection_path) = p /\ in_transaction h.(connection) = false /\
                committed h.(connection) = stored w p
    | None => stored w' p = stored w p
    end;
  sqlite_close_law w h rc w' :
    sqlite3_close_v2 w (Some h) = (rc, w') ->
    same_handles w w' /\
    (forall q, q ∉ database_files h.(connection_path) -> visible w' q = visible w q) /\
    (in_transaction h.(connection) = false ->
     stored w' h.(connection_path) = committed h.(connection));
  sqlite_close_null w rc w' : sqlite3_close_v2 w None = (rc, w') -> w' = w
}.

#[export] Instance quiet_preorder {W} `{PosixView W} : PreOrder quiet.
Proof.
  split; [by intros w|]. intros w w1 w2 [Hh Hv] [Hh' Hv'].
  split; [by intros d; rewrite Hh', Hh|]. intros q. by rewrite Hv'.
Qed.

(** ** Paths *)

(** A name inside the probe directory. *)
Definition in_probe (path q : bytes) : Prop :=
  exists name, q = path_join (history_probe_directory_path path) name.

Lemma database_file_not_in_probe path q : q ∈ database_files path -> ~ in_probe path q.
Proof.
  intros Hq [name ->]. unfold path_join, history_probe_directory_path in Hq.
  rewrite <- app_assoc in Hq. unfold database_files, wal_path, shm_path, journal_path in Hq.
  rewrite !elem_of_cons, elem_of_nil in Hq.
  destruct Hq as [Hq|[Hq|[Hq|[Hq|[]]]]]; [|apply app_inv_head in Hq; discriminate Hq..].
  apply (f_equal length) in Hq. rewrite length_app in Hq. cbn in Hq. lia.
Qed.

Lemma probe_file_in_probe path q :
  q ∈ database_files (probe_database_path path) -> in_probe path q.
Proof.
  unfold probe_database_path, database_files, wal_path, shm_path, journal_path.
  rewrite !elem_of_cons, elem_of_nil. unfold path_join. rewrite <- !app_assoc.
  intros [->|[->|[->|[->|[]]]]]; by eexists.
Qed.

Section Contract.
Context {W C : Type} `{IHistoryFilesLaws W C}.
Implicit Types (w : W).

(** The files outside the probe directory are as they were. *)
Definition only_probe (path : bytes) w w' : Prop :=
  forall q, ~ in_probe path q -> visible w' q = visible w q.

#[local] Instance only_probe_preorder path : PreOrder (only_probe path).
Proof.
  split; [by intros w q|]. intros w w1 w2 Ha Hb q Hq. by rewrite Hb, Ha.
Qed.

Lemma quiet_only_probe path w w' : quiet w w' -> only_probe path w w'.
Proof. intros [_ Hv] q _. apply Hv. Qed.

Lemma same_file_visible q w w' : same_file q w w' -> visible w' q = visible w q.
Proof. by intros [? _]. Qed.

Lemma only_probe_stored path w w' : only_probe path w w' -> stored w' path = stored w path.
Proof.
  intros Hp. unfold stored. f_equal; apply Hp, database_file_not_in_probe;
    unfold database_files; rewrite !elem_of_cons; tauto.
Qed.

(** ** Copying *)

Lemma close_leaf_visible fuel w d w' :
  close_leaf fuel w d = Some w' ->
  (forall q, visible w' q = visible w q) /\ forall x, x <> d -> handle w' x = handle w x.
Proof.
  revert w. induction fuel as [|fuel IH]; intros w; cbn; [done|].
  destruct (d <? 0); [by intros [= <-]|].
  destruct (sys_close w d) as [[u|e] w1] eqn:Hc; apply close_law in Hc as [Hh Hv].
  - intros [= <-]. split; [intros q; apply Hv|done].
  - destruct (e =? EINTR).
    + intros [Hv' Hh']%IH. split; [intros q; rewrite Hv'; apply Hv|].
      intros x Hx. by rewrite Hh', Hh.
    + intros [= <-]. split; [intros q; apply Hv|done].
Qed.

Lemma write_leaf_spec fuel w d data ok w' p c0 :
  write_leaf fuel w d data = Some (ok, w') ->
  handle w d = Some (Handle_File p) -> visible w p = Some c0 ->
  same_handles w w' /\ (forall q, q <> p -> visible w' q = visible w q) /\
  (ok = true -> visible w' p = Some (c0 ++ data)).
Proof.
  revert w data c0. induction fuel as [|fuel IH]; intros w data c0 Hw Hd Hp.
  { destruct data; [|done]. cbn in Hw. injection Hw as <- <-. rewrite app_nil_r.
    split_and!; done. }
  destruct data as [|b data]; cbn [write_leaf] in Hw.
  { injection Hw as <- <-. rewrite app_nil_r. split_and!; done. }
  destruct (sys_write w d (b :: data)) as [[n|e] w1] eqn:Hs;
    apply (write_law _ _ _ _ _ p) in Hs as (Hh & Hq & Hr); [|done| |done].
  - destruct Hr as [Hn Hc]. specialize (Hc _ Hp).
    destruct n as [|n].
    + injection Hw as <- <-. split_and!; [done| |done]. intros q Hne. by apply Hq.
    + apply (IH _ _ _ Hw) in Hc as (Hh' & Hq' & Hc'); [|by rewrite Hh].
      split_and!.
      * by etransitivity.
      * intros q Hne. rewrite Hq' by done. by apply Hq.
      * intros Hok. rewrite Hc' by done. by rewrite <- app_assoc, take_drop.
  - destruct (e =? EINTR).
    + rewrite <- Hr in Hp. apply (IH _ _ _ Hw) in Hp as (Hh' & Hq' & Hc'); [|by rewrite Hh].
      split_and!; [by etransitivity| |done]. intros q Hne. rewrite Hq' by done. by apply Hq.
    + injection Hw as <- <-. split_and!; [done| |done]. intros q Hne. by apply Hq.
Qed.

Lemma copy_loop_spec fuel w s d e w' p rest c0 :
  copy_loop fuel w s d = Some (e, w') ->
  handle w s = Some (Handle_Reader rest) -> handle w d = Some (Handle_File p) ->
  visible w p = Some c0 ->
  (forall q, q <> p -> visible w' q = visible w q) /\
  (e = HistoryError_None -> visible w' p = Some (c0 ++ rest)).
Proof.
  revert w rest c0. induction fuel as [|fuel IH]; intros w rest c0 Hw Hs Hd Hp; [done|].
  assert (d <> s) as Hne by congruence.
  cbn [copy_loop] in Hw. destruct (sys_read w s kCopyBufferBytes) as [[chunk|err] w1] eqn:Hr.
  - apply (read_law _ _ _ _ rest) in Hr as (Hv & Hh & rest' & -> & Hnil & Hs1); [|done].
    destruct chunk as [|b chunk].
    { injection Hw as <- <-. specialize (Hnil eq_refl). cbn in Hnil. subst rest'.
      rewrite app_nil_r. split; [intros q _; apply Hv|]. intros _. by rewrite (same_file_visible _ _ _ (Hv p)). }
    set (data := b :: chunk) in *.
    apply bind_Some in Hw as ([written w2] & Hwl & Hw).
    apply (write_leaf_spec _ _ _ _ _ _ p c0) in Hwl as (Hh2 & Hq2 & Hok);
      [|by rewrite Hh|by rewrite (same_file_visible _ _ _ (Hv p))].
    destruct written.
    + apply (IH _ rest' (c0 ++ data)) in Hw as [Hq' Hc'];
        [|by rewrite Hh2|by rewrite Hh2, Hh|by apply Hok].
      split; [|intros He; rewrite Hc' by done; by rewrite app_assoc].
      intros q Hqp. rewrite Hq', Hq2 by done. apply Hv.
    + injection Hw as <- <-. split; [|done]. intros q Hqp. rewrite Hq2 by done. apply Hv.
  - apply read_failed in Hr as [Hh Hv]. destruct (err =? EINTR).
    + apply (IH _ rest c0) in Hw as [Hq' Hc']; [|by rewrite Hh..|by rewrite (same_file_visible _ _ _ (Hv p))].
      split; [|done]. intros q Hqp. rewrite Hq' by done. apply Hv.
    + injection Hw as <- <-. split; [|done]. intros q _. apply Hv.
Qed.

Lemma copy_regular_leaf_spec fuel w source destination required e w' :
  copy_regular_leaf fuel w source destination required = Some (e, w') ->
  source <> destination -> visible w destination = None ->
  (forall q, q <> destination -> visible w' q = visible w q) /\
  (e = HistoryError_None -> visible w' destination = visible w source).
Proof.
  intros Hcopy Hne Hnone. revert Hcopy. unfold copy_regular_leaf, read_leaf_flags, create_leaf_flags.
  destruct (sys_open w source Open_Read) as [[d|errno] w1] eqn:Ho.
  2:{ pose proof Ho as Hf. apply open_failed in Hf as [_ Hq]. intros [= <- <-].
      split; [intros q _; apply Hq|]. destruct (negb required && (errno =? ENOENT)) eqn:Hen; [|done].
      intros _. reflect_bools. subst errno. apply open_enoent_law in Ho. rewrite Ho.
      rewrite (same_file_visible _ _ _ (Hq destination)). done. }
  apply open_read_law in Ho as (Hq1 & _ & _ & Hd & Hd').
  destruct (sys_fstat_leaf w1 d) as [status w2] eqn:Hst.
  pose proof Hst as Hq2. apply fstat_leaf_quiet in Hq2 as [Hh2 Hv2].
  assert (forall q, visible w2 q = visible w q) as Hw2 by (intros q; rewrite Hv2; apply Hq1).
  destruct (negb _) eqn:Hfine.
  { intros (w3 & Hc & [= <- <-])%bind_Some. apply close_leaf_visible in Hc as [Hc _].
    split; [|done]. intros q _. by rewrite Hc. }
  destruct (visible w source) as [contents|] eqn:Hsrc.
  2:{ exfalso. destruct status as [status|]; [|done]. cbn in Hfine.
      apply negb_false_iff in Hfine. unfold private_leaf in Hfine. reflect_bools.
      eapply fstat_leaf_other in Hst; [congruence|done]. }
  destruct (sys_open w2 destination Open_CreateExclusive) as [[t|errno] w3] eqn:Ho3.
  2:{ apply open_failed in Ho3 as [_ Hq]. intros (w4 & Hc & [= <- <-])%bind_Some.
      apply close_leaf_visible in Hc as [Hc _]. split; [|done].
      intros q _. rewrite Hc, (same_file_visible _ _ _ (Hq q)). done. }
  apply open_create_law in Ho3 as (Hq3 & (_ & Hfresh & Ht & Hother) & Hempty).
  intros ([result w4] & Hloop & Hw)%bind_Some. cbn beta iota in Hw.
  assert (t <> d) as Htd by (intros ->; rewrite Hh2 in Hfresh; congruence).
  apply (copy_loop_spec _ _ _ _ _ _ destination contents []) in Hloop as [Hq4 Hc4];
    [|by rewrite Hother, Hh2 by done|done|done].
  destruct (sys_fchmod w4 t) as [mode w5] eqn:Hm. apply fchmod_law in Hm as [_ Hq5].
  apply bind_Some in Hw as (w6 & Hc6 & Hw). apply bind_Some in Hw as (w7 & Hc7 & [= <- <-]).
  apply close_leaf_visible in Hc6 as [Hq6 _]. apply close_leaf_visible in Hc7 as [Hq7 _].
  split.
  - intros q Hq. rewrite Hq7, Hq6, (same_file_visible _ _ _ (Hq5 q)), Hq4 by done.
    rewrite (same_file_visible _ _ _ (Hq3 q Hq)). done.
  - intros He. rewrite Hq7, Hq6, (same_file_visible _ _ _ (Hq5 destination)). apply Hc4.
    destruct (negb (has_value mode) && negb (is_error result)); done.
Qed.

(** ** Discarding the probe *)

Lemma fsync_retry_visible fuel w d ok w' p :
  fsync_retry fuel w d = Some (ok, w') -> handle w d = Some (Handle_Directory p) ->
  forall q, visible w' q = visible w q.
Proof.
  revert w. induction fuel as [|fuel IH]; intros w; cbn; [done|]. intros Hw Hd.
  destruct (sys_fsync w d) as [[u|e] w1] eqn:Hs;
    pose proof (fsync_directory_law _ _ _ _ _ Hs Hd) as (Hh & Hv & _).
  - injection Hw as _ <-. intros q. apply Hv.
  - destruct (e =? EINTR); [|injection Hw as _ <-; intros q; apply Hv].
    intros q. rewrite (IH w1 Hw) by (by rewrite Hh). apply Hv.
Qed.

Lemma sync_parent_directory_visible fuel w p ok w' :
  sync_parent_directory fuel w p = Some (ok, w') -> forall q, visible w' q = visible w q.
Proof.
  unfold sync_parent_directory. destruct (sys_open w p Open_Directory) as [[d|e] w1] eqn:Ho.
  - apply open_directory_law in Ho as (Hv & _ & _ & Hd & _).
    intros ([synced w2] & Hs & Hw)%bind_Some. apply bind_Some in Hw as (w3 & Hc & [= _ <-]).
    pose proof (fsync_retry_visible _ _ _ _ _ _ Hs Hd) as Hv2.
    apply close_leaf_visible in Hc as [Hv3 _].
    intros q. rewrite Hv3, Hv2. apply Hv.
  - apply open_failed in Ho as [_ Hv]. intros [= _ <-] q. apply Hv.
Qed.

Lemma remove_retry_relation (R : W -> W -> Prop) `{!PreOrder R} fuel remove w ok w' :
  (forall w r w', remove w = (r, w') -> R w w') ->
  remove_retry fuel remove w = Some (ok, w') -> R w w'.
Proof.
  intros Hr. revert w. induction fuel as [|fuel IH]; intros w; cbn; [done|].
  destruct (remove w) as [[u|e] w1] eqn:He; apply Hr in He.
  - by intros [= _ <-].
  - destruct (e =? EINTR); [|by intros [= _ <-]]. intros Hw%IH. by etransitivity.
Qed.

Lemma unlink_leaves_only_probe fuel path w names ok w' :
  unlink_leaves fuel w (path_join (history_probe_directory_path path) <$> names) = Some (ok, w') ->
  only_probe path w w'.
Proof.
  revert w. induction names as [|name names IH]; intros w; cbn [unlink_leaves fmap list_fmap].
  { by intros [= _ <-]. }
  intros ([removed w1] & Hr & Hw)%bind_Some.
  assert (only_probe path w w1) as H1w.
  { eapply (remove_retry_relation (only_probe path)); [|exact Hr].
    intros x r x' [_ Hu]%unlink_law q Hq. apply Hu. intros ->. apply Hq. by eexists. }
  destruct removed; [|by injection Hw as _ <-]. etransitivity; [exact H1w|by apply IH].
Qed.

Lemma discard_history_probe_only fuel path w e w' :
  discard_history_probe fuel w path = Some (e, w') -> only_probe path w w'.
Proof.
  unfold discard_history_probe, discard_probe_directory_impl.
  destruct (negb _); [by intros [= _ <-]|].
  destruct (sys_lstat w _) as [[status|errno] w1] eqn:Hl; apply lstat_quiet in Hl.
  2:{ intros [= _ <-]. by apply quiet_only_probe. }
  destruct (_ || _); [intros [= _ <-]; by apply quiet_only_probe|].
  destruct (fs_directory_names w1 _) as [[names err] w2] eqn:Hn. apply names_quiet in Hn.
  assert (only_probe path w w2) as H2w by (apply quiet_only_probe; by etransitivity).
  destruct (negb (forallb _ names)); [by intros [= _ <-]|].
  destruct (negb _); [by intros [= _ <-]|].
  intros ([unlinked w3] & Hu & Hw)%bind_Some. cbn beta iota in Hw.
  apply unlink_leaves_only_probe in Hu.
  assert (only_probe path w w3) as H3w by (by etransitivity).
  destruct (negb unlinked); [by injection Hw as _ <-|].
  apply bind_Some in Hw as ([removed w4] & Hr & Hw). cbn beta iota in Hw.
  assert (only_probe path w w4) as H4w.
  { etransitivity; [exact H3w|]. eapply (remove_retry_relation (only_probe path)); [|exact Hr].
    intros x r x' Hx%rmdir_quiet. by apply quiet_only_probe. }
  destruct (negb removed); [by injection Hw as _ <-|].
  apply bind_Some in Hw as ([synced w5] & Hs & [= _ <-]).
  intros q Hq. rewrite (sync_parent_directory_visible _ _ _ _ _ Hs). by apply H4w.
Qed.

Lemma remove_probe_copy_only fuel path w result e w' :
  remove_probe_copy fuel w path result = Some (e, w') ->
  only_probe path w w' /\ (e = HistoryError_None -> result = HistoryError_None).
Proof.
  unfold remove_probe_copy. intros ([cleanup w1] & Hd & [= <- <-])%bind_Some.
  apply discard_history_probe_only in Hd. split; [done|].
  destruct (is_error result) eqn:Hr; [by rewrite andb_false_r|].
  intros _. by apply is_error_None.
Qed.

(** ** The probe *)

Lemma copied_leaf_only fuel path w source destination required e w' :
  copy_regular_leaf fuel w source destination required = Some (e, w') ->
  source ∈ database_files path -> in_probe path destination -> visible w destination = None ->
  only_probe path w w' /\ (forall q, q <> destination -> visible w' q = visible w q) /\
  (e = HistoryError_None -> visible w' destination = visible w source).
Proof.
  intros Hc Hs Hd Hn. apply database_file_not_in_probe in Hs.
  apply copy_regular_leaf_spec in Hc as [Hq He]; [|by intros <-|done].
  split_and!; [|done|done]. intros q Hnot. apply Hq. by intros ->.
Qed.

Lemma side_paths_distinct path :
  wal_path path <> path /\ journal_path path <> path /\ journal_path path <> wal_path path.
Proof.
  unfold wal_path, journal_path. split_and!; intros Heq.
  1-2: apply (f_equal length) in Heq; rewrite length_app in Heq; cbn in Heq; lia.
  by apply app_inv_head in Heq.
Qed.

(** The three copies, into an empty probe directory. *)
Definition probe_copies (fuel : nat) w (path : bytes) : option (HistoryError * W) :=
  let probe := probe_database_path path in
  '(result, w) ← copy_regular_leaf fuel w path probe true;
  if is_error result then Some (result, w)
  else copy_side_files fuel w
         [(wal_path path, wal_path probe); (journal_path path, journal_path probe)].

Lemma probe_copies_spec fuel w path result w' :
  (forall q, in_probe path q -> visible w q = None) ->
  probe_copies fuel w path = Some (result, w') ->
  only_probe path w w' /\
  (result = HistoryError_None -> stored w' (probe_database_path path) = stored w path).
Proof.
  intros Hempty. unfold probe_copies. set (probe := probe_database_path path).
  assert (forall q, q ∈ database_files probe -> in_probe path q) as Hin
    by apply probe_file_in_probe.
  destruct (side_paths_distinct probe) as (Hd1 & Hd2 & Hd3).
  assert (wal_path probe ∈ database_files probe) as Hwal by (right; left).
  assert (journal_path probe ∈ database_files probe) as Hjournal by (do 3 right; left).
  intros ([e1 x1] & Hc1 & Hrest)%bind_Some. cbn beta iota in Hrest.
  apply (copied_leaf_only _ path) in Hc1 as (Ho1 & Hq1 & He1);
    [|by left|apply Hin; by left|apply Hempty, Hin; by left].
  destruct (is_error e1) eqn:Herr1.
  { injection Hrest as <- <-. split; [done|]. intros ->. by apply is_error_true in Herr1. }
  apply is_error_None in Herr1 as ->. cbn [copy_side_files] in Hrest.
  apply bind_Some in Hrest as ([e2 x2] & Hc2 & Hrest). cbn beta iota in Hrest.
  apply (copied_leaf_only _ path) in Hc2 as (Ho2 & Hq2 & He2);
    [|right; left|by apply Hin|rewrite Hq1 by done; by apply Hempty, Hin].
  destruct (is_error e2) eqn:Herr2.
  { injection Hrest as <- <-. split; [by etransitivity|]. intros ->.
    by apply is_error_true in Herr2. }
  apply is_error_None in Herr2 as ->.
  apply bind_Some in Hrest as ([e3 x3] & Hc3 & Hrest). cbn beta iota in Hrest.
  apply (copied_leaf_only _ path) in Hc3 as (Ho3 & Hq3 & He3);
    [|do 3 right; left|by apply Hin|rewrite Hq2, Hq1 by done; by apply Hempty, Hin].
  assert (only_probe path w x3) as Hx3 by (by repeat (etransitivity; [eassumption|])).
  destruct (is_error e3) eqn:Herr3.
  { injection Hrest as <- <-. split; [done|]. intros ->. by apply is_error_true in Herr3. }
  apply is_error_None in Herr3 as ->. injection Hrest as <- <-. split; [done|]. intros _.
  unfold stored. rewrite He3, (Hq3 probe), (Hq3 (wal_path probe)), He2, (Hq2 probe), He1 by done.
  assert (forall q, q ∈ database_files path -> visible x2 q = visible w q /\
            visible x1 q = visible w q) as Hmain.
  { intros q Hq%database_file_not_in_probe. rewrite Ho2, Ho1 by done. done. }
  destruct (Hmain (journal_path path)) as [-> _]; [do 3 right; left|].
  by destruct (Hmain (wal_path path)) as [_ ->]; [right; left|].
Qed.

Lemma make_history_probe_copy_spec fuel w path r w' :
  make_history_probe_copy fuel w path = Some (r, w') ->
  only_probe path w w' /\
  match r with
  | success probe => probe = probe_database_path path /\ stored w' probe = stored w path
  | failure e => e <> HistoryError_None
  end.
Proof.
  unfold make_history_probe_copy.
  destruct (fs_create_directory w _) as [[created|e] w1] eqn:Hm;
    apply create_directory_law in Hm as [Hq1 Hnew].
  2:{ intros [= <- <-]. split; [by apply quiet_only_probe|done]. }
  destruct created; [|intros [= <- <-]; split; [by apply quiet_only_probe|done]].
  destruct (sys_chmod w1 _) as [mode w2] eqn:Hq2. apply chmod_quiet in Hq2.
  assert (only_probe path w w2) as H2w by (apply quiet_only_probe; by etransitivity).
  fold (probe_copies fuel w2 path).
  intros ([result w3] & Hcopies & Hw)%bind_Some. cbn beta iota in Hw.
  assert (only_probe path w2 w3 /\ (result = HistoryError_None ->
    stored w3 (probe_database_path path) = stored w2 path)) as [H3w Hcontents].
  { destruct (negb (has_value mode)); [by injection Hcopies as <- <-|].
    eapply probe_copies_spec; [|exact Hcopies]. intros q [name ->].
    destruct Hq2 as [_ Hv2]. by rewrite Hv2, Hnew. }
  destruct (is_error result) eqn:Hres.
  - apply bind_Some in Hw as ([cleanup w4] & Hd & [= <- <-]).
    apply discard_history_probe_only in Hd. split; [by repeat (etransitivity; [eassumption|])|].
    by apply is_error_true.
  - apply is_error_None in Hres. injection Hw as <- <-. split; [by etransitivity|].
    split; [done|]. rewrite Hcontents by done. by apply only_probe_stored.
Qed.

Lemma open_connection_spec w path flags r w' :
  open_connection w path flags = (r, w') ->
  (forall q, q ∉ database_files path -> visible w' q = visible w q) /\
  match r with
  | success h => h.(connection_path) = path /\ in_transaction h.(connection) = false /\
      committed h.(connection) = stored w path
  | failure e => stored w' path = stored w path /\ e <> HistoryError_None
  end.
Proof.
  unfold open_connection. destruct (sqlite3_open_v2 w path flags) as [[rc h] w1] eqn:Ho.
  apply sqlite_open_law in Ho as (_ & Hq & Hh).
  assert (forall rc w2, sqlite3_close_v2 w1 h = (rc, w2) ->
    (forall q, q ∉ database_files path -> visible w2 q = visible w q) /\
    stored w2 path = stored w path) as Hclose.
  { intros rc2 w2 Hc. destruct h as [h|].
    - destruct Hh as (Hp & Hi & Hcom). apply sqlite_close_law in Hc as (_ & Hq2 & Hst).
      rewrite Hp in Hq2, Hst. split; [intros q Hn; by rewrite Hq2, Hq|]. by rewrite Hst, Hcom.
    - apply sqlite_close_null in Hc as ->. done. }
  assert (error_for_result rc HistoryError_OpenFailed <> HistoryError_None) as Herr
    by by apply error_for_result_error.
  destruct (sqlite3_close_v2 w1 h) as [rc2 w2] eqn:Hc. specialize (Hclose _ _ eq_refl).
  destruct (rc =? SQLITE_OK).
  - destruct h as [h|]; [by intros [= <- <-]|]. intros [= <- <-]. by destruct Hclose.
  - intros [= <- <-]. by destruct Hclose.
Qed.

(** A probe that passes has run the check on exactly the contents of the
    database, whose files are untouched. *)
Lemma with_probe_spec fuel w path check e w' :
  with_probe fuel w path check = Some (e, w') ->
  only_probe path w w' /\
  (e = HistoryError_None -> exists c c', in_transaction c = false /\
     committed c = stored w path /\ check c = (HistoryError_None, c')).
Proof.
  unfold with_probe. intros ([copied w1] & Hm & Hw)%bind_Some. cbn beta iota in Hw.
  apply make_history_probe_copy_spec in Hm as [H1w Hcopied].
  destruct copied as [probe|error]; [|by injection Hw as <- <-].
  destruct Hcopied as [-> Hst]. unfold open_probe_database in Hw.
  destruct (open_connection w1 _ kProbeFlags) as [r w2] eqn:Ho.
  apply open_connection_spec in Ho as [Hq2 Hr].
  assert (only_probe path w1 w2) as H2w
    by (intros q Hq; apply Hq2; by intros ?%probe_file_in_probe).
  destruct r as [h|error].
  2:{ apply remove_probe_copy_only in Hw as [Hw He].
      split; [by repeat (etransitivity; [eassumption|])|]. intros ?. by destruct Hr as [_ []]; apply He. }
  destruct Hr as (Hp & Hi & Hc). destruct (check (connection h)) as [result c] eqn:Hcheck.
  destruct (sqlite3_close_v2 w2 _) as [rc w3] eqn:Hcl. apply sqlite_close_law in Hcl as (_ & Hq3 & _).
  cbn [with_connection connection_path] in Hq3. rewrite Hp in Hq3.
  assert (only_probe path w2 w3) as H3w
    by (intros q Hq; apply Hq3; by intros ?%probe_file_in_probe).
  apply remove_probe_copy_only in Hw as [Hw He].
  split; [by repeat (etransitivity; [eassumption|])|]. intros He'. specialize (He He').
  exists (connection h), c. split; [done|]. split; [by rewrite Hc|].
  rewrite Hcheck. f_equal. destruct (is_error result) eqn:Hres; [|by apply is_error_None].
  rewrite andb_false_r in He. done.
Qed.

(** ** Opening *)

Lemma restrict_permissions_quiet files w ok w' :
  restrict_permissions w files = (ok, w') -> quiet w w'.
Proof.
  revert w. induction files as [|file files IH]; intros w; cbn; [by intros [= _ <-]|].
  destruct (fs_exists w file) as [[[]|e] w1] eqn:He; apply exists_quiet in He.
  - destruct (fs_permissions w1 file) as [err w2] eqn:Hp. apply permissions_quiet in Hp.
    assert (quiet w w2) by (by etransitivity).
    destruct (negb _); [by intros [= _ <-]|]. intros Hr%IH. by etransitivity.
  - intros Hr%IH. by etransitivity.
  - by intros [= _ <-].
Qed.

Lemma inspect_regular_leaf_quiet w path e ex w' :
  inspect_regular_leaf w path = (e, ex, w') -> quiet w w'.
Proof.
  unfold inspect_regular_leaf. destruct (sys_lstat w path) as [[st|e1] w1] eqn:Hl;
    apply lstat_quiet in Hl; by intros [= _ _ <-].
Qed.

Lemma inspect_side_files_quiet w ex paths r w' :
  inspect_side_files w ex paths = (r, w') -> quiet w w'.
Proof.
  revert w. induction paths as [|path paths IH]; intros w; cbn; [by intros [= _ <-]|].
  destruct (inspect_regular_leaf w path) as [[e x] w1] eqn:Hi. apply inspect_regular_leaf_quiet in Hi.
  destruct (is_error e); [by intros [= _ <-]|]. destruct (x && negb ex); [by intros [= _ <-]|].
  intros Hr%IH. by etransitivity.
Qed.

Lemma inspect_history_artifacts_quiet w path r w' :
  inspect_history_artifacts w path = (r, w') -> quiet w w'.
Proof.
  unfold inspect_history_artifacts.
  destruct (inspect_regular_leaf w path) as [[e x] w1] eqn:Hi. apply inspect_regular_leaf_quiet in Hi.
  destruct (is_error e); [by intros [= _ <-]|].
  intros Hr%inspect_side_files_quiet. by etransitivity.
Qed.

(** The connection of an open store: idle, on its path, at the current schema. *)
Definition store_open (path : bytes) (store : SqliteHistoryStore C) : Prop :=
  store.(store_database).(connection_path) = path /\
  in_transaction store.(store_database).(connection) = false /\
  stored_version (committed store.(store_database).(connection)) = 3.

Definition store_contents (store : SqliteHistoryStore C) : Database :=
  committed store.(store_database).(connection).

Lemma store_close_spec w store path :
  store.(store_database).(connection_path) = path ->
  in_transaction store.(store_database).(connection) = false ->
  let w' := SqliteHistoryStore_close w store in
  stored w' path = store_contents store /\
  forall q, q ∉ database_files path -> visible w' q = visible w q.
Proof.
  intros <- Hi. unfold SqliteHistoryStore_close.
  destruct (sqlite3_close_v2 w _) as [rc w1] eqn:Hc. apply sqlite_close_law in Hc as (_ & Hq & Hst).
  cbn. split; [by apply Hst|done].
Qed.

Lemma open_in_place_spec w path flags failpoint r w' :
  open_in_place w path flags failpoint = (r, w') ->
  (forall q, q ∉ database_files path -> visible w' q = visible w q) /\
  match r with
  | success store => store_open path store /\ rtc upgrade_step (stored w path) (store_contents store)
  | failure e => rtc upgrade_step (stored w path) (stored w' path)
  end.
Proof.
  unfold open_in_place. destruct (open_connection w path flags) as [[h|e] w1] eqn:Ho;
    apply open_connection_spec in Ho as [Hq1 Hr].
  2:{ intros [= <- <-]. split; [done|]. by destruct Hr as [-> _]. }
  destruct Hr as (Hp & Hi & Hc).
  destruct (configure_database failpoint true (connection h)) as [e c] eqn:Hconf.
  apply configure_database_steps in Hconf as (Hic & Hsteps & Hv); [|done]. rewrite Hc in Hsteps.
  set (store := mkSqliteHistoryStore (with_connection h c) path failpoint).
  assert (forall x, (forall q, q ∉ database_files path -> visible x q = visible w q) ->
    (forall q, q ∉ database_files path -> visible (SqliteHistoryStore_close x store) q = visible w q) /\
    rtc upgrade_step (stored w path) (stored (SqliteHistoryStore_close x store) path)) as Hclose.
  { intros x Hx. destruct (store_close_spec x store path Hp Hic) as [-> Hq].
    split; [|done]. intros q Hn. by rewrite Hq, Hx. }
  destruct (is_error e) eqn:He; [intros [= <- <-]; by apply Hclose|]. apply is_error_None in He as ->.
  unfold restrict_database_permissions.
  destruct (restrict_permissions w1 _) as [ok w2] eqn:Hres.
  apply restrict_permissions_quiet in Hres as [_ Hv2].
  assert (forall q, q ∉ database_files path -> visible w2 q = visible w q) as Hq2
    by (intros q Hn; by rewrite Hv2, Hq1).
  destruct ok; cbn [negb]; intros [= <- <-]; [|by apply Hclose].
  split; [done|]. split; [by split_and!; [|done|apply Hv]|done].
Qed.

(** What an open may change: the files of the database and the probe directory. *)
Definition only_history (path : bytes) w w' : Prop :=
  forall q, q ∉ database_files path -> ~ in_probe path q -> visible w' q = visible w q.

Definition opened_store (path : bytes) w (r : Result (SqliteHistoryStore C) HistoryError) w'
  : Prop :=
  only_history path w w' /\
  match r with
  | success store => store_open path store /\ rtc upgrade_step (stored w path) (store_contents store)
  | failure _ => rtc upgrade_step (stored w path) (stored w' path)
  end.

Lemma only_probe_opened path w w' e : only_probe path w w' -> opened_store path w (failure e) w'.
Proof.
  intros Hp. split; [intros q _; apply Hp|]. by rewrite (only_probe_stored path w w').
Qed.

Lemma opened_in_place path w w1 flags failpoint r w' :
  only_probe path w w1 -> open_in_place w1 path flags failpoint = (r, w') ->
  opened_store path w r w'.
Proof.
  intros Hp [Hq Hr]%open_in_place_spec. rewrite (only_probe_stored path w w1) in Hr by done.
  split; [|done]. intros q Hn Hi. by rewrite Hq, Hp.
Qed.

Lemma SqliteHistoryStore_open_spec fuel w path failpoint r w' :
  SqliteHistoryStore_open fuel w path failpoint = Some (r, w') -> opened_store path w r w'.
Proof.
  unfold SqliteHistoryStore_open.
  destruct (negb _); [intros [= <- <-]; by apply only_probe_opened|].
  destruct (if (length (path_parent path) =? 0)%nat then _ else _) as [err w1] eqn:Hd.
  assert (only_probe path w w1) as H1w.
  { destruct (_ =? _)%nat; [by injection Hd as _ <-|].
    apply create_directories_law in Hd as [_ Hq]. intros q _. apply Hq. }
  destruct (negb _); [intros [= <- <-]; by apply only_probe_opened|].
  destruct (unusable_path path); [intros [= <- <-]; by apply only_probe_opened|].
  destruct (inspect_history_artifacts w1 path) as [r2 w2] eqn:Hi.
  apply inspect_history_artifacts_quiet in Hi.
  assert (only_probe path w w2) as H2w by (etransitivity; [done|by apply quiet_only_probe]).
  destruct r2 as [ex|e]; [|intros [= <- <-]; by apply only_probe_opened].
  intros ([preflight w3] & Hpre & Hw)%bind_Some. cbn beta iota in Hw.
  assert (only_probe path w w3) as H3w.
  { destruct ex; [|by injection Hpre as _ <-].
    apply with_probe_spec in Hpre as [Hpre _]. by etransitivity. }
  destruct (is_error preflight); [injection Hw as <- <-; by apply only_probe_opened|].
  injection Hw as Hw. by eapply opened_in_place.
Qed.

Lemma SqliteHistoryStore_open_existing_bound_spec fuel w path identity r w' :
  SqliteHistoryStore_open_existing_bound fuel w path identity = Some (r, w') ->
  opened_store path w r w'.
Proof.
  unfold SqliteHistoryStore_open_existing_bound.
  destruct (_ || _); [intros [= <- <-]; by apply only_probe_opened|].
  destruct (inspect_history_artifacts w path) as [r1 w1] eqn:Hi.
  apply inspect_history_artifacts_quiet, (quiet_only_probe path) in Hi.
  destruct r1 as [[]|e]; [|intros [= <- <-]; by apply only_probe_opened..].
  intros ([validation w2] & Hpre & Hw)%bind_Some. cbn beta iota in Hw.
  apply with_probe_spec in Hpre as [Hpre _].
  assert (only_probe path w w2) as H2w by (by etransitivity).
  destruct (is_error validation); [injection Hw as <- <-; by apply only_probe_opened|].
  injection Hw as Hw. by eapply opened_in_place.
Qed.
End Contract.

(** ** A save keeps the schema *)

Lemma entries_effect_version entries db db' :
  entries_effect entries db = Some db' -> db'.(db_user_version) = db.(db_user_version).
Proof.
  revert db. induction entries as [|entry entries IH]; intros db; cbn; [by intros [= <-]|].
  intros (db1 & He & Hes)%bind_Some. rewrite (IH _ Hes).
  apply bind_Some in He as (db0 & Hp & Hm). apply sql_insert_appended in Hp as [Hp _].
  apply (insert_all_appended _ tMentions id) in Hm as [Hm _];
    [|intros; by apply insert_mention_appended]. congruence.
Qed.

Lemma snapshot_effect_version sn i db db' :
  snapshot_effect sn i db = Some db' -> db'.(db_user_version) = db.(db_user_version).
Proof.
  unfold snapshot_effect, delete_rows, delete_posts, delete_from. cbn [run_effects].
  intros (db1 & Hd & Hr)%bind_Some.
  assert (db_user_version db1 = db_user_version db) as <-.
  { apply bind_Some in Hd as (x1 & Hp & Hd). apply bind_Some in Hp as (posts & _ & Hm).
    apply bind_Some in Hm as (mentions & _ & [= <-]).
    apply bind_Some in Hd as (x2 & Hs & Hd). apply bind_Some in Hs as (seen & _ & [= <-]).
    apply bind_Some in Hd as (x3 & Hm & [= ->]). by apply bind_Some in Hm as (meta & _ & [= <-]). }
  apply bind_Some in Hr as (db2 & Hm & Hr). apply bind_Some in Hr as (db3 & He & Hs).
  apply (insert_all_appended _ tMeta id) in Hm as [Hm _]; [|intros; by eapply sql_insert_appended].
  apply (insert_all_appended _ tSeen seen_stored) in Hs as [Hs _];
    [|intros; by eapply insert_seen_appended].
  by rewrite Hs, (entries_effect_version _ _ _ He), Hm.
Qed.

Section Methods.
Context {C : Type} `{ISqliteLaws C}.

Lemma save_keeps_version failpoint (c c' : C) sn i e :
  in_transaction c = false -> save_snapshot failpoint c sn i = (e, c') ->
  in_transaction c' = false /\ stored_version (committed c') = stored_version (committed c).
Proof.
  intros Ho Hs. apply save_snapshot_spec in Hs as (Ho' & Hno & Hok); [|done]. split; [done|].
  destruct (decide (e = HistoryError_None)) as [He|He]; [|by rewrite Hno].
  destruct (Hok He) as (cand & _ & _ & _ & Heff & _). unfold stored_version.
  by rewrite (snapshot_effect_version _ _ _ _ Heff).
Qed.

Lemma load_keeps_version failpoint (c c' : C) i r :
  in_transaction c = false -> load_snapshot failpoint c i = (r, c') ->
  in_transaction c' = false /\ stored_version (committed c') = stored_version (committed c).
Proof.
  intros Ho. unfold load_snapshot.
  destruct (load_transaction c i) as [[[s pending]|e] d1] eqn:Hl;
    apply load_transaction_frame in Hl as [Ho1 Hc1]; try done;
    [|by intros [= _ <-]; rewrite Hc1].
  destruct pending; [|by intros [= _ <-]; rewrite Hc1].
  destruct (reconcile_snapshot_dedupe s) as [cand|e]; [|by intros [= _ <-]; rewrite Hc1].
  destruct (save_snapshot failpoint d1 cand i) as [saved d2] eqn:Hs.
  apply save_keeps_version in Hs as [Ho2 Hv2]; [|done].
  rewrite <- Hc1, <- Hv2. by destruct (is_error saved); intros [= _ <-].
Qed.
End Methods.

(** ** The store and its files as the session sees them *)

(** The snapshot the contents of a database stand for, at whatever schema. *)
Definition contents_image (db : Database) : option HistorySnapshot := upgrade db ≫= history_image.

(** The files and the [std::optional] of the session. *)
Record StoreWorld (W C : Type) := mkStoreWorld {
  sw_files : W;
  sw_store : option (SqliteHistoryStore C)
}.
Arguments mkStoreWorld {W C} _ _.
Arguments sw_files {W C} _.
Arguments sw_store {W C} _.

Section World.
Context {W C : Type} `{IHistoryFilesLaws W C} (path : bytes) (fuel : nat).
Implicit Types (s : StoreWorld W C).

(** [reset], and the destruction of the store that [emplace] replaces. *)
Definition store_reset s : StoreWorld W C :=
  match s.(sw_store) with
  | Some store => mkStoreWorld (SqliteHistoryStore_close s.(sw_files) store) None
  | None => s
  end.

Definition store_discard_probe s : option (bool * StoreWorld W C) :=
  '(e, w) ← discard_history_probe fuel s.(sw_files) path;
  Some (negb (is_error e), mkStoreWorld w s.(sw_store)).

(** An open into an empty optional.  The session opens only when it holds no
    store; the two operations below first close one that is still held. *)
Definition store_emplace (opened : option (Result (SqliteHistoryStore C) HistoryError * W))
  : option (bool * StoreWorld W C) :=
  '(opened, w) ← opened;
  Some match opened with
       | success store => (true, mkStoreWorld w (Some store))
       | failure _ => (false, mkStoreWorld w None)
       end.

Definition store_open_history s : option (bool * StoreWorld W C) :=
  store_emplace (SqliteHistoryStore_open fuel (store_reset s).(sw_files) path false).

Definition store_open_existing_bound s (identity : Identity)
  : option (bool * StoreWorld W C) :=
  store_emplace
    (SqliteHistoryStore_open_existing_bound fuel (store_reset s).(sw_files) path identity).

Definition store_load s (identity : Identity) : option HistorySnapshot * StoreWorld W C :=
  match s.(sw_store) with
  | None => (None, s)
  | Some store =>
      let '(r, store) := SqliteHistoryStore_load_snapshot store identity in
      (match r with success sn => Some sn | failure _ => None end,
       mkStoreWorld s.(sw_files) (Some store))
  end.

Definition store_save s (snapshot : HistorySnapshot) (identity : Identity)
  : bool * StoreWorld W C :=
  match s.(sw_store) with
  | None => (false, s)
  | Some store =>
      let '(e, store) := SqliteHistoryStore_save_snapshot store snapshot identity in
      (negb (is_error e), mkStoreWorld s.(sw_files) (Some store))
  end.

Definition store_ok s : Prop :=
  match s.(sw_store) with Some store => store_open path store | None => True end.

(** What the history is now. *)
Definition store_now s : option HistorySnapshot :=
  contents_image
    match s.(sw_store) with
    | Some store => store_contents store
    | None => stored s.(sw_files) path
    end.

Lemma contents_image_steps db db' : rtc upgrade_step db db' -> contents_image db' = contents_image db.
Proof. intros Hs. unfold contents_image. by rewrite (upgrade_steps_same _ _ Hs). Qed.

Lemma contents_image_current db : stored_version db = 3 -> contents_image db = history_image db.
Proof. intros Hv. unfold contents_image. by rewrite upgrade_current. Qed.

Lemma store_reset_spec s : store_ok s ->
  store_now (store_reset s) = store_now s /\ (store_reset s).(sw_store) = None.
Proof.
  unfold store_ok, store_reset, store_now. destruct s as [w [store|]]; [|done]. cbn.
  intros (Hp & Hi & Hv). by destruct (store_close_spec w store path Hp Hi) as [-> _].
Qed.

Lemma store_emplace_spec s opened b s' :
  s.(sw_store) = None ->
  (forall r w', opened = Some (r, w') -> opened_store path s.(sw_files) r w') ->
  store_emplace opened = Some (b, s') ->
  store_ok s' /\ store_now s' = store_now s.
Proof.
  intros Hnone Ho ([r w'] & Hr & Hs)%bind_Some. destruct (Ho _ _ Hr) as [_ Hopened].
  unfold store_ok, store_now. rewrite Hnone.
  destruct r as [store|e]; injection Hs as _ <-; cbn.
  - destruct Hopened as [Hopen Hsteps]. split; [done|]. by apply contents_image_steps.
  - split; [done|]. by apply contents_image_steps.
Qed.

Lemma store_open_history_spec s b s' :
  store_ok s -> store_open_history s = Some (b, s') -> store_ok s' /\ store_now s' = store_now s.
Proof.
  intros [Hn Hnone]%store_reset_spec Ho. rewrite <- Hn. eapply store_emplace_spec; [done| |exact Ho].
  intros r w'. apply SqliteHistoryStore_open_spec.
Qed.

Lemma store_open_existing_bound_spec s i b s' :
  store_ok s -> store_open_existing_bound s i = Some (b, s') ->
  store_ok s' /\ store_now s' = store_now s.
Proof.
  intros [Hn Hnone]%store_reset_spec Ho. rewrite <- Hn. eapply store_emplace_spec; [done| |exact Ho].
  intros r w'. apply SqliteHistoryStore_open_existing_bound_spec.
Qed.

Lemma store_discard_spec s b s' :
  store_ok s -> store_discard_probe s = Some (b, s') -> store_ok s' /\ store_now s' = store_now s.
Proof.
  unfold store_discard_probe, store_ok, store_now. intros Hok ([e w] & Hd & [= _ <-])%bind_Some.
  cbn. split; [done|]. apply discard_history_probe_only in Hd.
  destruct (sw_store s); [done|]. by rewrite (only_probe_stored path _ _ Hd).
Qed.

Lemma store_load_spec s i r s' :
  store_ok s -> store_load s i = (r, s') ->
  store_ok s' /\ store_now s' = store_now s /\
  forall sn, r = Some sn -> store_now s = Some sn /\ snapshot_typed sn /\ snapshot_covered sn.
Proof.
  unfold store_load, store_ok, store_now, store_open, store_contents.
  destruct (sw_store s) as [store|] eqn:Hst; [|intros _ [= <- <-]; by rewrite Hst].
  intros (Hp & Hi & Hv). unfold SqliteHistoryStore_load_snapshot.
  destruct (load_snapshot _ _ i) as [res c] eqn:Hl.
  pose proof (load_keeps_version _ _ _ _ _ Hi Hl) as [Hi' Hv'].
  pose proof (load_image_frame _ _ _ _ _ Hi Hl) as [_ Himg].
  intros [= <- <-]. cbn. rewrite Hv' in *. rewrite !contents_image_current by congruence.
  split; [done|]. split; [done|].
  destruct res as [sn0|e]; [|done]. intros sn [= <-].
  by destruct (load_image _ _ _ _ _ Hi Hl) as (Him & _ & Ht & Hcov).
Qed.

Lemma store_save_spec s sn i b s' :
  store_ok s -> store_save s sn i = (b, s') ->
  store_ok s' /\ (b = true -> snapshot_typed sn -> exists c,
    reconcile_snapshot_dedupe sn = success c /\ store_now s' = Some c) /\
  (b = false -> store_now s' = store_now s).
Proof.
  unfold store_save, store_ok, store_now, store_open, store_contents.
  destruct (sw_store s) as [store|] eqn:Hst; [|intros _ [= <- <-]; by rewrite Hst].
  intros (Hp & Hi & Hv). unfold SqliteHistoryStore_save_snapshot.
  destruct (save_snapshot _ _ sn i) as [e c] eqn:Hs.
  pose proof (save_keeps_version _ _ _ _ _ _ Hi Hs) as [Hi' Hv'].
  intros [= <- <-]. cbn. rewrite !contents_image_current by congruence.
  split; [split_and!; congruence|]. split.
  - intros He%negb_true_iff%is_error_None Ht. subst e. exact (save_image _ _ _ _ _ Hi Ht Hs).
  - intros He%negb_false_iff%is_error_true.
    apply save_snapshot_spec in Hs as (_ & Hno & _); [|done]. by rewrite Hno.
Qed.
End World.
