(* ===== verification/HistoryReturns.v ===== *)
(** * HistoryReturns: opening the history always ends

    The functions of HistoryFiles.v repeat a call that a signal interrupted and
    copy files piece by piece.  When no call is interrupted and the fuel exceeds
    the length of the database and of its side files, each of them returns. *)
From S2P Require Import Prelude Identity HistoryRecord SettingsStore HistorySchema HistoryStore HistoryLaws HistoryFiles HistoryContract.

(** No call that the code repeats is interrupted. *)
Definition uninterrupted_files {W} `{IPosix W} `{IHistoryFiles W} : Prop :=
  (forall w d n w', sys_read w d n <> (failure EINTR, w')) /\
  (forall w d data w', sys_write w d data <> (failure EINTR, w')) /\
  (forall w d w', sys_close w d <> (failure EINTR, w')) /\
  (forall w d w', sys_fsync w d <> (failure EINTR, w')) /\
  (forall w p w', sys_unlink w p <> (failure EINTR, w')) /\
  (forall w p w', sys_rmdir w p <> (failure EINTR, w')).

(** Every file of the database is shorter than the fuel. *)
Definition short_files {W} `{PosixView W} (fuel : nat) (w : W) (path : bytes) : Prop :=
  forall q c, q ∈ database_files path -> visible w q = Some c -> (length c < fuel)%nat.

(** A bind returns when both parts do. *)
Lemma bind_returns {A B} (o : option A) (f : A -> option B) :
  is_Some o -> (forall a, o = Some a -> is_Some (f a)) -> is_Some (o ≫= f).
Proof. intros [a Ha] Hf. rewrite Ha. by apply Hf. Qed.

Section Returns.
Context {W C : Type} `{IHistoryFilesLaws W C} (Hun : uninterrupted_files (W:=W)).
Implicit Types (w : W).

Lemma not_interrupted errno : errno <> EINTR -> (errno =? EINTR) = false.
Proof. by intros ?%Z.eqb_neq. Qed.

Lemma close_leaf_returns fuel w d : (0 < fuel)%nat -> is_Some (close_leaf fuel w d).
Proof.
  destruct fuel as [|fuel]; [lia|]. intros _. cbn. destruct (d <? 0); [done|].
  destruct (sys_close w d) as [[u|e] w1] eqn:Hc; [done|].
  rewrite not_interrupted; [done|]. intros ->. by destruct Hun as (_ & _ & Hcl & _); apply Hcl in Hc.
Qed.

Lemma write_leaf_returns fuel w d data p c0 :
  (length data <= fuel)%nat -> handle w d = Some (Handle_File p) -> visible w p = Some c0 ->
  is_Some (write_leaf fuel w d data).
Proof.
  revert w data c0. induction fuel as [|fuel IH]; intros w [|b data] c0 Hlen Hd Hp;
    [done|cbn in Hlen; lia|done|]. cbn [write_leaf].
  destruct (sys_write w d (b :: data)) as [[n|e] w1] eqn:Hw.
  - pose proof Hw as Hl. apply (write_law _ _ _ _ _ p) in Hl as (Hh & _ & Hn & Hc); [|done].
    destruct n as [|n]; [done|]. apply (IH _ _ (c0 ++ take (S n) (b :: data))).
    + cbn [drop]. rewrite length_drop. cbn in Hlen. lia.
    + by rewrite Hh.
    + by apply Hc.
  - rewrite not_interrupted; [done|]. intros ->.
    by destruct Hun as (_ & Hwr & _); apply Hwr in Hw.
Qed.

Lemma copy_loop_returns fuel w s d rest p c0 :
  (length rest < fuel)%nat -> handle w s = Some (Handle_Reader rest) ->
  handle w d = Some (Handle_File p) -> visible w p = Some c0 ->
  is_Some (copy_loop fuel w s d).
Proof.
  revert w rest c0. induction fuel as [|fuel IH]; intros w rest c0 Hlen Hs Hd Hp; [lia|].
  assert (d <> s) as Hne by congruence. cbn [copy_loop].
  destruct (sys_read w s kCopyBufferBytes) as [[chunk|err] w1] eqn:Hr.
  - apply (read_law _ _ _ _ rest) in Hr as (Hv & Hh & rest' & -> & _ & Hs1); [|done].
    destruct chunk as [|b chunk]; [done|]. rewrite length_app in Hlen.
    assert (handle w1 d = Some (Handle_File p)) as Hd1 by by rewrite Hh.
    assert (visible w1 p = Some c0) as Hp1 by by rewrite (same_file_visible _ _ _ (Hv p)).
    apply bind_returns.
    { apply (write_leaf_returns _ _ _ _ p c0); [lia|done|done]. }
    intros [written w2] Hw. cbn beta iota. destruct written; [|done].
    apply (write_leaf_spec _ _ _ _ _ _ p c0) in Hw as (Hh2 & _ & Hc); [|done|done].
    apply (IH _ rest' (c0 ++ b :: chunk)); [cbn in Hlen; lia|by rewrite Hh2..|by apply Hc].
  - rewrite not_interrupted; [done|]. intros ->.
    by destruct Hun as (Hre & _); apply Hre in Hr.
Qed.

Lemma copy_regular_leaf_returns fuel w source destination required :
  (0 < fuel)%nat -> (forall c, visible w source = Some c -> (length c < fuel)%nat) ->
  is_Some (copy_regular_leaf fuel w source destination required).
Proof.
  intros Hfuel Hlen. unfold copy_regular_leaf, read_leaf_flags, create_leaf_flags.
  destruct (sys_open w source Open_Read) as [[d|errno] w1] eqn:Ho; [|done].
  apply open_read_law in Ho as (_ & _ & _ & Hd & _).
  destruct (sys_fstat_leaf w1 d) as [status w2] eqn:Hst.
  pose proof Hst as [Hh2 Hv2]%fstat_leaf_quiet.
  destruct (negb _) eqn:Hfine; [by apply bind_returns; [apply close_leaf_returns|]|].
  destruct (visible w source) as [contents|] eqn:Hsrc.
  2:{ exfalso. destruct status as [status|]; [|done]. cbn in Hfine.
      apply negb_false_iff in Hfine. unfold private_leaf in Hfine. reflect_bools.
      eapply fstat_leaf_other in Hst; [congruence|done]. }
  destruct (sys_open w2 destination Open_CreateExclusive) as [[t|errno] w3] eqn:Ho3;
    [|by apply bind_returns; [apply close_leaf_returns|]].
  apply open_create_law in Ho3 as (_ & (_ & Hfresh & Ht & Hother) & Hempty).
  assert (d <> t) as Htd by (intros ->; rewrite Hh2 in Hfresh; congruence).
  apply bind_returns.
  { apply (copy_loop_returns _ _ _ _ contents destination []); [by apply Hlen| |done|done].
    by rewrite Hother, Hh2. }
  intros [result w4] _. cbn beta iota. destruct (sys_fchmod w4 t) as [mode w5].
  apply bind_returns; [by apply close_leaf_returns|]. intros w6 _.
  by apply bind_returns; [apply close_leaf_returns|].
Qed.

Lemma remove_retry_returns fuel remove w :
  (0 < fuel)%nat -> (forall w w', remove w <> (failure EINTR, w')) ->
  is_Some (remove_retry fuel remove w).
Proof.
  destruct fuel as [|fuel]; [lia|]. intros _ Hr. cbn.
  destruct (remove w) as [[u|e] w1] eqn:He; [done|].
  rewrite not_interrupted; [done|]. intros ->. by apply Hr in He.
Qed.

Lemma unlink_leaves_returns fuel w leaves :
  (0 < fuel)%nat -> is_Some (unlink_leaves fuel w leaves).
Proof.
  intros Hf. revert w. induction leaves as [|leaf leaves IH]; intros w; cbn; [done|].
  apply bind_returns.
  - apply remove_retry_returns; [done|]. intros x x'.
    by destruct Hun as (_ & _ & _ & _ & Hu & _); apply Hu.
  - intros [[] w1] _; [apply IH|done].
Qed.

Lemma sync_parent_directory_returns fuel w p :
  (0 < fuel)%nat -> is_Some (sync_parent_directory fuel w p).
Proof.
  intros Hf. unfold sync_parent_directory.
  destruct (sys_open w p Open_Directory) as [[d|e] w1]; [|done]. apply bind_returns.
  - destruct fuel as [|fuel]; [lia|]. cbn.
    destruct (sys_fsync w1 d) as [[u|e] w2] eqn:Hs; [done|]. rewrite not_interrupted; [done|].
    intros ->. by destruct Hun as (_ & _ & _ & Hfs & _); apply Hfs in Hs.
  - intros [synced w2] _. by apply bind_returns; [apply close_leaf_returns|].
Qed.

Lemma discard_history_probe_returns fuel w path :
  (0 < fuel)%nat -> is_Some (discard_history_probe fuel w path).
Proof.
  intros Hf. unfold discard_history_probe, discard_probe_directory_impl.
  destruct (negb _); [done|]. destruct (sys_lstat w _) as [[status|errno] w1]; [|done].
  destruct (_ || _); [done|]. destruct (fs_directory_names w1 _) as [[names err] w2].
  destruct (negb (forallb _ names)); [done|]. destruct (negb _); [done|].
  apply bind_returns; [by apply unlink_leaves_returns|]. intros [[] w3] _; [|done]. cbn [negb].
  apply bind_returns.
  { apply remove_retry_returns; [done|]. intros x x'.
    by destruct Hun as (_ & _ & _ & _ & _ & Hu); apply Hu. }
  intros [[] w4] _; [|done]. cbn [negb].
  by apply bind_returns; [apply sync_parent_directory_returns|intros [synced w5] _].
Qed.

Lemma remove_probe_copy_returns fuel w path result :
  (0 < fuel)%nat -> is_Some (remove_probe_copy fuel w path result).
Proof.
  intros Hf. unfold remove_probe_copy.
  by apply bind_returns; [apply discard_history_probe_returns|intros [cleanup w1] _].
Qed.

Lemma short_files_visible fuel path w w' :
  short_files fuel w path -> (forall q, q ∈ database_files path -> visible w' q = visible w q) ->
  short_files fuel w' path.
Proof. intros Hs Hv q c Hq Hc. rewrite Hv in Hc by done. by eapply Hs. Qed.

Lemma short_files_only_probe fuel path w w' :
  short_files fuel w path -> only_probe path w w' -> short_files fuel w' path.
Proof.
  intros Hs Hp. apply (short_files_visible _ _ _ _ Hs). intros q Hq.
  by apply Hp, database_file_not_in_probe.
Qed.

Lemma copied_leaf_returns fuel path w source destination required :
  (0 < fuel)%nat -> short_files fuel w path -> source ∈ database_files path ->
  is_Some (copy_regular_leaf fuel w source destination required).
Proof. intros Hf Hs Hin. apply copy_regular_leaf_returns; [done|]. intros c. by apply Hs. Qed.

(** A copy of a leaf into the probe, then what follows it. *)
Lemma copied_leaf_then {A} fuel path w source destination required
    (k : HistoryError * W -> option A) :
  (0 < fuel)%nat -> short_files fuel w path -> source ∈ database_files path ->
  in_probe path destination -> visible w destination = None ->
  (forall e w', only_probe path w w' -> short_files fuel w' path ->
     (forall q, q <> destination -> visible w' q = visible w q) -> is_Some (k (e, w'))) ->
  is_Some (copy_regular_leaf fuel w source destination required ≫= k).
Proof.
  intros Hf Hs Hin Hd Hn Hk. apply bind_returns; [by eapply copied_leaf_returns|].
  intros [e w1] Hc. apply (copied_leaf_only _ path) in Hc as (Ho & Hq & _); [|done..].
  apply Hk; [done| |done]. by eapply short_files_only_probe.
Qed.

Lemma probe_copies_returns fuel w path :
  (0 < fuel)%nat -> short_files fuel w path ->
  (forall q, in_probe path q -> visible w q = None) ->
  is_Some (probe_copies fuel w path).
Proof.
  intros Hf Hs Hempty. unfold probe_copies. set (probe := probe_database_path path).
  assert (forall q, q ∈ database_files probe -> in_probe path q) as Hin
    by (intros; by apply probe_file_in_probe).
  destruct (side_paths_distinct probe) as (Hd1 & Hd2 & Hd3).
  assert (wal_path probe ∈ database_files probe) as Hwal by (right; left).
  assert (journal_path probe ∈ database_files probe) as Hjournal by (do 3 right; left).
  apply (copied_leaf_then _ path); [done|done|by left|apply Hin; by left|apply Hempty, Hin; by left|].
  intros e1 w1 _ Hs1 Hq1. cbn beta iota. destruct (is_error e1); [done|].
  cbn [copy_side_files].
  apply (copied_leaf_then _ path); [done|done|right; left|by apply Hin| |].
  { rewrite Hq1 by done. by apply Hempty, Hin. }
  intros e2 w2 _ Hs2 Hq2. cbn beta iota. destruct (is_error e2); [done|].
  apply (copied_leaf_then _ path); [done|done|do 3 right; left|by apply Hin| |].
  { rewrite Hq2, Hq1 by done. by apply Hempty, Hin. }
  intros e3 w3 _ _ _. cbn beta iota. by destruct (is_error e3).
Qed.

Lemma make_history_probe_copy_returns fuel w path :
  (0 < fuel)%nat -> short_files fuel w path -> is_Some (make_history_probe_copy fuel w path).
Proof.
  intros Hf Hs. unfold make_history_probe_copy.
  destruct (fs_create_directory w _) as [[[]|e] w1] eqn:Hm; [|done..].
  apply create_directory_law in Hm as [[_ Hv1] Hnew].
  destruct (sys_chmod w1 _) as [mode w2] eqn:Hc. apply chmod_quiet in Hc as [_ Hv2].
  fold (probe_copies fuel w2 path). apply bind_returns.
  - destruct (negb (has_value mode)); [done|]. apply probe_copies_returns; [done| |].
    + apply (short_files_visible _ _ _ _ Hs). intros q _. by rewrite Hv2.
    + intros q [name ->]. by rewrite Hv2, Hnew.
  - intros [result w3] _. cbn beta iota. destruct (is_error result); [|done].
    by apply bind_returns; [apply discard_history_probe_returns|intros [cleanup w4] _].
Qed.

Lemma with_probe_returns fuel w path check :
  (0 < fuel)%nat -> short_files fuel w path -> is_Some (with_probe fuel w path check).
Proof.
  intros Hf Hs. unfold with_probe. apply bind_returns; [by apply make_history_probe_copy_returns|].
  intros [[probe|error] w1] _; [|done]. cbn beta iota.
  destruct (open_probe_database w1 probe) as [[h|error] w2]; [|by apply remove_probe_copy_returns].
  destruct (check (connection h)) as [result c]. destruct (sqlite3_close_v2 w2 _) as [rc w3].
  by apply remove_probe_copy_returns.
Qed.

Lemma SqliteHistoryStore_open_returns fuel w path failpoint :
  (0 < fuel)%nat -> short_files fuel w path ->
  is_Some (SqliteHistoryStore_open fuel w path failpoint).
Proof.
  intros Hf Hs. unfold SqliteHistoryStore_open. destruct (negb _); [done|].
  destruct (if (length (path_parent path) =? 0)%nat then _ else _) as [err w1] eqn:Hd.
  assert (short_files fuel w1 path) as Hs1.
  { destruct (_ =? _)%nat; [by injection Hd as _ <-|].
    apply create_directories_law in Hd as [_ Hq]. apply (short_files_visible _ _ _ _ Hs).
    intros q _. apply Hq. }
  destruct (negb _); [done|]. destruct (unusable_path path); [done|].
  destruct (inspect_history_artifacts w1 path) as [[ex|e] w2] eqn:Hi; [|done].
  apply inspect_history_artifacts_quiet in Hi as [_ Hv]. apply bind_returns.
  - destruct ex; [|done]. apply with_probe_returns; [done|].
    by apply (short_files_visible _ _ _ _ Hs1).
  - intros [preflight w3] _. cbn beta iota. by destruct (is_error preflight).
Qed.

Lemma SqliteHistoryStore_open_existing_bound_returns fuel w path identity :
  (0 < fuel)%nat -> short_files fuel w path ->
  is_Some (SqliteHistoryStore_open_existing_bound fuel w path identity).
Proof.
  intros Hf Hs. unfold SqliteHistoryStore_open_existing_bound. destruct (_ || _); [done|].
  destruct (inspect_history_artifacts w path) as [[[]|e] w1] eqn:Hi; [|done..].
  apply inspect_history_artifacts_quiet in Hi as [_ Hv]. apply bind_returns.
  - apply with_probe_returns; [done|]. by apply (short_files_visible _ _ _ _ Hs).
  - intros [validation w2] _. cbn beta iota. by destruct (is_error validation).
Qed.
End Returns.
