(* ===== verification/HistoryMemory.v ===== *)
(** * HistoryMemory: a small world for the history store

    A file system in memory with directories, and a database engine whose files
    hold an encoding of its tables: it keeps every law of HistoryContract.v, so
    the theorems about the history store can be evaluated on it. *)
From S2P Require Import Prelude Uuid HistoryRecord SettingsStore HistorySchema HistoryStore HistoryLaws HistoryFiles HistoryContract HistoryReturns.

(** ** A file format *)

#[global] Instance SqlValue_countable : Countable SqlValue.
Proof.
  refine (inj_countable'
    (fun v => match v with
              | Sql_Null => inl false | Sql_Float => inl true | Sql_Blob b => inr (inl b)
              | Sql_Text b => inr (inr (inl b)) | Sql_Integer z => inr (inr (inr z))
              end)
    (fun x => match x with
              | inl false => Sql_Null | inl true => Sql_Float | inr (inl b) => Sql_Blob b
              | inr (inr (inl b)) => Sql_Text b | inr (inr (inr z)) => Sql_Integer z
              end) _).
  by intros [].
Defined.

#[global] Instance Database_eq_dec : EqDecision Database.
Proof. solve_decision. Defined.

#[global] Instance Database_countable : Countable Database.
Proof.
  refine (inj_countable' (fun db => (db.(db_tables), db.(db_user_version)))
            (fun x => mkDatabase x.1 x.2) _).
  by intros [].
Defined.

Fixpoint bits_of (p : positive) : list bool :=
  match p with xH => [] | xO p => false :: bits_of p | xI p => true :: bits_of p end.

Fixpoint code_of (bits : list bool) : positive :=
  match bits with [] => xH | b :: bits => if b then xI (code_of bits) else xO (code_of bits) end.

Lemma code_of_bits p : code_of (bits_of p) = p.
Proof. induction p; cbn; congruence. Qed.

(** Seven bits in a byte, and the last few each in one of its own. *)
Fixpoint pack (bits : list bool) : bytes :=
  match bits with
  | b0 :: b1 :: b2 :: b3 :: b4 :: b5 :: b6 :: bits =>
      Byte.of_bits (b0, (b1, (b2, (b3, (b4, (b5, (b6, true))))))) :: pack bits
  | _ => (fun b : bool => if b then x01 else x00) <$> bits
  end.

Fixpoint unpack (image : bytes) : list bool :=
  match image with
  | [] => []
  | byte :: image =>
      let '(b0, (b1, (b2, (b3, (b4, (b5, (b6, b7))))))) := Byte.to_bits byte in
      (if (b7 : bool) then [b0; b1; b2; b3; b4; b5; b6] else [b0]) ++ unpack image
  end.

Lemma unpack_single bits : unpack ((fun b : bool => if b then x01 else x00) <$> bits) = bits.
Proof. induction bits as [|[] bits IH]; cbn; [done|by rewrite IH..]. Qed.

Lemma unpack_pack bits : unpack (pack bits) = bits.
Proof.
  revert bits. fix IH 1. intros [|b0 [|b1 [|b2 [|b3 [|b4 [|b5 [|b6 bits]]]]]]];
    try apply unpack_single.
  cbn [pack unpack]. rewrite Byte.to_bits_of_bits. cbn. by rewrite IH.
Qed.

Definition database_image (db : Database) : bytes := pack (bits_of (encode db)).

Definition empty_database : Database := mkDatabase ∅ 0.

Definition image_contents (image : bytes) : Database :=
  default empty_database (decode (code_of (unpack image))).

Lemma image_contents_of db : image_contents (database_image db) = db.
Proof. unfold image_contents, database_image. by rewrite unpack_pack, code_of_bits, decode_encode. Qed.

(** This engine commits to the database file itself. *)
#[export] Instance memory_format : SqliteFormat := {
  sqlite_contents main wal journal :=
    match main with Some image => image_contents image | None => empty_database end
}.

(** ** The files *)

Record Memory := mkMemory {
  memory_files : gmap bytes bytes;
  memory_directories : gset bytes;
  memory_handles : gmap Z Handle
}.

Definition with_files (w : Memory) (files : gmap bytes bytes) : Memory :=
  mkMemory files w.(memory_directories) w.(memory_handles).

Definition with_directories (w : Memory) (directories : gset bytes) : Memory :=
  mkMemory w.(memory_files) directories w.(memory_handles).

Definition with_handles (w : Memory) (handles : gmap Z Handle) : Memory :=
  mkMemory w.(memory_files) w.(memory_directories) handles.

Definition EEXIST : Z := 17.
Definition EMFILE : Z := 24.
Definition ENOTEMPTY : Z := 39.

Definition memory_open (w : Memory) (p : bytes) (m : OpenMode) : Result Z Z * Memory :=
  let fresh := match m with Open_Directory => 3 | Open_Read => 4 | Open_CreateExclusive => 5 end in
  if bool_decide (w.(memory_handles) !! fresh = None) then
    match m, w.(memory_files) !! p with
    | Open_Read, None => (failure ENOENT, w)
    | Open_CreateExclusive, Some _ => (failure EEXIST, w)
    | Open_Read, Some c =>
        (success fresh, with_handles w (<[fresh := Handle_Reader c]> w.(memory_handles)))
    | Open_Directory, _ =>
        (success fresh, with_handles w (<[fresh := Handle_Directory p]> w.(memory_handles)))
    | Open_CreateExclusive, None =>
        (success fresh, with_handles (with_files w (<[p := []]> w.(memory_files)))
                          (<[fresh := Handle_File p]> w.(memory_handles)))
    end
  else (failure EMFILE, w).

Definition memory_fstat (w : Memory) (d : Z) : Result FileStatus Z * Memory :=
  match w.(memory_handles) !! d with
  | Some (Handle_Reader rest) => (success (mkFileStatus true (Z.of_nat (length rest))), w)
  | _ => (failure EIO, w)
  end.

Definition memory_fstat_leaf (w : Memory) (d : Z) : Result LeafStatus Z * Memory :=
  match w.(memory_handles) !! d with
  | Some (Handle_Reader _) => (success (mkLeafStatus true false 1 0), w)
  | Some _ => (success (mkLeafStatus false true 1 0), w)
  | None => (failure EIO, w)
  end.

Definition memory_lstat (w : Memory) (p : bytes) : Result LeafStatus Z * Memory :=
  match w.(memory_files) !! p with
  | Some _ => (success (mkLeafStatus true false 1 0), w)
  | None =>
      if bool_decide (p ∈ w.(memory_directories))
      then (success (mkLeafStatus false true 1 0), w) else (failure ENOENT, w)
  end.

Definition memory_read (w : Memory) (d : Z) (n : nat) : Result bytes Z * Memory :=
  match w.(memory_handles) !! d with
  | Some (Handle_Reader rest) =>
      if (n =? 0)%nat then (failure EIO, w)
      else (success (take n rest),
            with_handles w (<[d := Handle_Reader (drop n rest)]> w.(memory_handles)))
  | _ => (failure EIO, w)
  end.

Definition memory_write (w : Memory) (d : Z) (data : bytes) : Result nat Z * Memory :=
  match w.(memory_handles) !! d with
  | Some (Handle_File p) =>
      match w.(memory_files) !! p with
      | Some c => (success (length data), with_files w (<[p := c ++ data]> w.(memory_files)))
      | None => (failure EIO, w)
      end
  | _ => (failure EIO, w)
  end.

Definition memory_fsync (w : Memory) (d : Z) : Result unit Z * Memory :=
  (match w.(memory_handles) !! d with Some _ => success tt | None => failure EIO end, w).

Definition memory_close (w : Memory) (d : Z) : Result unit Z * Memory :=
  (success tt, with_handles w (delete d w.(memory_handles))).

Definition memory_rename (w : Memory) (p q : bytes) : Result unit Z * Memory :=
  match w.(memory_files) !! p with
  | Some c => (success tt, with_files w (<[q := c]> (delete p w.(memory_files))))
  | None => (failure ENOENT, w)
  end.

Definition memory_unlink (w : Memory) (p : bytes) : Result unit Z * Memory :=
  match w.(memory_files) !! p with
  | Some _ => (success tt, with_files w (delete p w.(memory_files)))
  | None => (failure ENOENT, w)
  end.

(** The names of the files in a directory. *)
Definition name_in (directory p : bytes) : option bytes :=
  if bool_decide (take (length directory + 1) p = directory ++ str "/")
  then Some (drop (length directory + 1) p) else None.

Definition memory_names (w : Memory) (directory : bytes) : list bytes :=
  omap (fun file => name_in directory file.1) (map_to_list w.(memory_files)).

Definition memory_create_directory (w : Memory) (p : bytes) : Result bool Z * Memory :=
  if bool_decide (p ∈ w.(memory_directories)) || negb (bool_decide (memory_names w p = []))
  then (success false, w)
  else (success true, with_directories w ({[p]} ∪ w.(memory_directories))).

Definition memory_rmdir (w : Memory) (p : bytes) : Result unit Z * Memory :=
  if bool_decide (p ∈ w.(memory_directories)) then
    if bool_decide (memory_names w p = [])
    then (success tt, with_directories w (w.(memory_directories) ∖ {[p]}))
    else (failure ENOTEMPTY, w)
  else (failure ENOENT, w).

#[export] Instance memory_posix : IPosix Memory := {
  sys_create_directories w p := (0, w);
  sys_open := memory_open;
  sys_fstat := memory_fstat;
  sys_read := memory_read;
  sys_write := memory_write;
  sys_fchmod w d := (success tt, w);
  sys_fsync := memory_fsync;
  sys_close := memory_close;
  sys_rename := memory_rename;
  sys_unlink := memory_unlink
}.

#[export] Instance memory_failpoint : IAtomicSettingsFailpoint Memory := {
  should_fail w point := (false, w)
}.

(** Every write is on the disk at once. *)
#[export] Instance memory_view : PosixView Memory := {
  visible w p := w.(memory_files) !! p;
  survives w p c := c = w.(memory_files) !! p;
  synced w p := True;
  handle w d := w.(memory_handles) !! d
}.

#[export] Instance memory_history_files : IHistoryFiles Memory := {
  fs_exists w p := (success (bool_decide (is_Some (w.(memory_files) !! p))), w);
  fs_permissions w p := (0, w);
  fs_create_directory := memory_create_directory;
  fs_directory_names w p := (memory_names w p, 0, w);
  sys_lstat := memory_lstat;
  sys_fstat_leaf := memory_fstat_leaf;
  sys_geteuid w := 0;
  sys_chmod w p := (success tt, w);
  sys_rmdir := memory_rmdir
}.

Definition SQLITE_CANTOPEN : Z := 14.

(** A database is created by the open that may create it. *)
Definition memory_sqlite_open (w : Memory) (p : bytes) (flags : Z)
  : Z * option (Connection Engine) * Memory :=
  let db := stored w p in
  if bool_decide (is_Some (w.(memory_files) !! p)) || (0 <? Z.land flags SQLITE_OPEN_CREATE)
  then (SQLITE_OK, Some (mkConnection (mkEngine false db db None None) p),
        with_files w (<[p := database_image db]> w.(memory_files)))
  else (SQLITE_CANTOPEN, None, w).

Definition memory_sqlite_close (w : Memory) (h : option (Connection Engine)) : Z * Memory :=
  match h with
  | Some h =>
      (SQLITE_OK, with_files w
         (<[h.(connection_path) := database_image (committed h.(connection))]> w.(memory_files)))
  | None => (SQLITE_OK, w)
  end.

#[export] Instance memory_sqlite : ISqliteOpen Memory Engine := {
  sqlite3_open_v2 := memory_sqlite_open;
  sqlite3_close_v2 := memory_sqlite_close
}.

(** ** The laws *)

Ltac memory_simpl :=
  try unfold same_handles in *; try unfold opened in *; try unfold same_file in *;
  cbn [visible survives synced handle memory_view memory_files memory_handles memory_directories
       with_files with_handles with_directories] in *.

(** [same_file] at once from an equal file. *)
Lemma memory_same p (w w' : Memory) :
  w'.(memory_files) !! p = w.(memory_files) !! p -> same_file p w w'.
Proof. intros Heq. memory_simpl. rewrite Heq. split_and!; [done|by intros c ->|done]. Qed.

Lemma memory_idle (w : Memory) : same_handles w w /\ forall q, same_file q w w.
Proof. split; [done|]. intros q. by apply memory_same. Qed.

Lemma memory_open_laws (w w' : Memory) p m d :
  memory_open w p m = (success d, w') ->
  0 <= d /\ w.(memory_handles) !! d = None /\
  match m with
  | Open_Read => exists c, w.(memory_files) !! p = Some c /\
      w' = with_handles w (<[d := Handle_Reader c]> w.(memory_handles))
  | Open_Directory => w' = with_handles w (<[d := Handle_Directory p]> w.(memory_handles))
  | Open_CreateExclusive =>
      w' = with_handles (with_files w (<[p := []]> w.(memory_files)))
             (<[d := Handle_File p]> w.(memory_handles))
  end.
Proof.
  unfold memory_open. case_bool_decide as Hf; [|done].
  destruct m; try destruct (memory_files w !! p) as [c|]; intros [= <- <-]; eauto with lia.
Qed.

Ltac memory_files_done :=
  repeat first
    [ progress intros | done | simple apply memory_same | progress memory_simpl
    | rewrite lookup_insert_eq | rewrite lookup_insert_ne by congruence
    | rewrite lookup_delete_ne by congruence | split ].

Lemma memory_open_failed (w w' : Memory) p m e :
  memory_open w p m = (failure e, w') -> w' = w.
Proof.
  unfold memory_open. case_bool_decide; [|by intros [= _ <-]].
  destruct m; try destruct (memory_files w !! p); by intros [= _ <-].
Qed.

#[export] Instance memory_laws : IPosixLaws Memory.
Proof.
  split; cbn [sys_create_directories sys_open sys_fstat sys_read sys_write sys_fchmod sys_fsync
    sys_close sys_rename sys_unlink should_fail memory_posix memory_failpoint handle visible
    memory_view].
  - intros w p r w' [= _ <-]. apply memory_idle.
  - intros w p m e w' ->%memory_open_failed. apply memory_idle.
  - intros w p d w' (Hp & Hd & c & Hc & ->)%memory_open_laws. rewrite Hc. memory_files_done.
  - intros w p d w' (Hp & Hd & ->)%memory_open_laws. memory_files_done.
  - intros w p d w' (Hp & Hd & ->)%memory_open_laws. memory_files_done.
  - intros w p w'. unfold memory_open. case_bool_decide; [|done].
    by destruct (memory_files w !! p).
  - intros w d r w' Hf. unfold memory_fstat in Hf. assert (w' = w) as -> by by repeat case_match; simplify_eq.
    apply memory_idle.
  - intros w d st w' rest Hf Hd. unfold memory_fstat in Hf. rewrite Hd in Hf. by simplify_eq.
  - intros w d st w' Hf Hd. unfold memory_fstat in Hf. by rewrite Hd in Hf.
  - intros w d n e w' Hf. unfold memory_read in Hf.
    assert (w' = w) as -> by by repeat case_match; simplify_eq. apply memory_idle.
  - intros w d n chunk rest w' Hf Hd. unfold memory_read in Hf. rewrite Hd in Hf.
    destruct (Nat.eqb_spec n 0); [done|]. injection Hf as <- <-. split; [memory_files_done|].
    split; [memory_files_done|]. exists (drop n rest). rewrite take_drop.
    split_and!; [done| |memory_files_done]. by destruct n, rest.
  - intros w d r w' [= _ <-]. apply memory_idle.
  - intros w d data r w' p Hf Hd. unfold memory_write in Hf. rewrite Hd in Hf.
    destruct (memory_files w !! p) as [c|] eqn:Hp; injection Hf as <- <-; [|by memory_files_done].
    split; [done|]. split; [memory_files_done|]. split; [done|]. intros c' [= <-].
    cbn [memory_files with_files]. by rewrite lookup_insert_eq, take_ge by done.
  - intros w d r w' p Hf Hd. unfold memory_fsync in Hf. injection Hf as <- <-. memory_files_done.
  - intros w d r w' p Hf Hd. unfold memory_fsync in Hf. injection Hf as <- <-.
    split; [done|]. split; [apply memory_idle|]. by intros _ q c _ _ ->.
  - intros w d r w' [= _ <-]. memory_files_done.
  - intros w p q w' r Hf Hne. unfold memory_rename in Hf.
    destruct (memory_files w !! p) as [c|] eqn:Hp; injection Hf as <- <-; [|by memory_files_done].
    split; [done|]. cbn [memory_files with_files]. rewrite lookup_insert_eq.
    split; [done|]. intros _. split; [done|]. intros x ->. cbn [memory_files with_files].
    rewrite lookup_insert_eq. by right.
  - intros w p r w' Hf. unfold memory_unlink in Hf.
    destruct (memory_files w !! p); injection Hf as <- <-; memory_files_done.
  - intros w point b w' [= _ <-]. apply memory_idle.
Qed.

Lemma memory_quiet (w w' : Memory) :
  w'.(memory_files) = w.(memory_files) -> w'.(memory_handles) = w.(memory_handles) -> quiet w w'.
Proof.
  intros Hf Hh. split; [intros d|intros q]; cbn [handle visible memory_view]; congruence.
Qed.

Lemma name_in_join directory name : name_in directory (path_join directory name) = Some name.
Proof.
  unfold name_in, path_join. rewrite app_assoc.
  assert (length directory + 1 = length (directory ++ str "/"))%nat as -> by by rewrite length_app.
  by rewrite take_app_length, drop_app_length, bool_decide_eq_true_2.
Qed.

Lemma memory_names_empty (w : Memory) directory name :
  memory_names w directory = [] -> w.(memory_files) !! path_join directory name = None.
Proof.
  intros Hn. destruct (memory_files w !! path_join directory name) as [c|] eqn:Hl; [|done].
  exfalso. assert (name ∈ memory_names w directory) as Hin; [|rewrite Hn in Hin; by apply elem_of_nil in Hin].
  unfold memory_names. apply list_elem_of_omap. eexists (_, c).
  split; [by apply elem_of_map_to_list|]. apply name_in_join.
Qed.

#[export] Instance memory_history_laws : IHistoryFilesLaws Memory Engine.
Proof.
  split; cbn [fs_exists fs_permissions fs_create_directory fs_directory_names sys_lstat
    sys_fstat_leaf sys_chmod sys_rmdir sqlite3_open_v2 sqlite3_close_v2 memory_history_files
    memory_sqlite].
  - by intros w p r w' [= _ <-].
  - by intros w p r w' [= _ <-].
  - by intros w p r e w' [= _ _ <-].
  - intros w p r w' Hl. unfold memory_lstat in Hl. by repeat case_match; simplify_eq.
  - intros w d r w' Hl. unfold memory_fstat_leaf in Hl. by repeat case_match; simplify_eq.
  - intros w d status w' Hf Hd. cbn [handle memory_view] in Hd.
    unfold memory_fstat_leaf in Hf. rewrite Hd in Hf. by injection Hf as <- _.
  - by intros w p r w' [= _ <-].
  - intros w p r w' Hr. unfold memory_rmdir in Hr.
    by repeat case_bool_decide; injection Hr as _ <-; apply memory_quiet.
  - intros w p r w' Hc. unfold memory_create_directory in Hc.
    destruct (_ || _) eqn:Hb; injection Hc as <- <-; [done|].
    split; [by apply memory_quiet|]. intros _ name. reflect_bools.
    cbn [visible memory_view memory_files with_directories]. by apply memory_names_empty.
  - intros w p flags rc h w' Ho. unfold memory_sqlite_open in Ho.
    destruct (_ || _); injection Ho as _ <- <-; [|done].
    split; [by intros d|]. split; [|done]. intros q Hq.
    cbn [visible memory_view memory_files with_files]. apply lookup_insert_ne. intros <-. apply Hq. by left.
  - intros w h rc w' [= _ <-]. split; [by intros d|]. split.
    + intros q Hq. cbn [visible memory_view memory_files with_files].
      apply lookup_insert_ne. intros <-. apply Hq. by left.
    + intros _. unfold stored. cbn [visible memory_view memory_files with_files memory_format sqlite_contents].
      rewrite lookup_insert_eq. apply image_contents_of.
  - by intros w rc w' [= _ <-].
Qed.

Lemma memory_uninterrupted : uninterrupted_files (W:=Memory).
Proof.
  unfold uninterrupted_files.
  cbn [sys_read sys_write sys_close sys_fsync sys_unlink sys_rmdir memory_posix memory_history_files].
  unfold memory_read, memory_write, memory_close, memory_fsync, memory_unlink, memory_rmdir.
  split_and!; intros; by repeat case_match.
Qed.
