(* ===== verification/HistoryOpen.v ===== *)
(** * HistoryOpen: what the session may rely on when it opens the history

    The promises of the functions of HistoryFiles.v put together: a database is
    opened for an identity only after its contents have been found to belong to
    it, on a copy; every operation of the session on its store is a transition of
    an abstract store that holds at most one snapshot; with that, the store obeys
    [IHistoryStoreLaws], the interface the theorems of DurableSession.v are proved
    against; and no operation runs for ever. *)
From S2P Require Import Prelude Uuid Identity Post HistoryRecord SettingsStore PersistentSession HistorySchema HistoryStore HistoryLaws HistoryTheory HistoryRoundtrip HistoryMigration HistoryImage HistoryFiles HistoryContract HistoryReturns HistoryMemory.

(** ** A database of an identity *)

(** At the current schema the contents are a history this identity can load. *)
Definition bound_to (db : Database) (identity : Identity) : Prop :=
  exists db' metadata snapshot, upgrade db = Some db' /\
    stored_metadata db' = success metadata /\ metadata.(metadata_initialized) = true /\
    identity_matches metadata identity = true /\
    snapshot_image db' metadata identity = Some snapshot.

Section Bound.
Context {C : Type} `{ISqliteLaws C}.
Implicit Types (c d : C).

Lemma read_mentions_error d id e d' :
  read_mentions d id = (failure e, d') -> e <> HistoryError_None.
Proof.
  unfold read_mentions. repeat case_match; intros [= <- <-]; try done;
    by apply error_for_result_error.
Qed.

Lemma read_entries_loop_error d m i s rows e d' :
  read_entries_loop d m i s rows = (failure e, d') -> e <> HistoryError_None.
Proof.
  revert d s. induction rows as [|row rows IH]; intros d s; cbn; [done|].
  destruct (read_entry d m i s row) as [[s1|e1] d1] eqn:He; [apply IH|].
  intros [= <- <-]. revert He. unfold read_entry.
  repeat case_match; intros [= <- <-]; try done. by eapply read_mentions_error.
Qed.

Lemma read_snapshot_error d m i e d' :
  read_snapshot d m i = (failure e, d') -> e <> HistoryError_None.
Proof.
  unfold read_snapshot. destruct (read_timeline d m i) as [[entries|e1] d1] eqn:Ht.
  - destruct (read_ledger d1 m) as [[records|e2] d2] eqn:Hl; [by case_match; intros [= <- <-]|].
    intros [= <- <-]. revert Hl. unfold read_ledger.
    repeat case_match; intros [= <- <-]; try done; by apply error_for_result_error.
  - intros [= <- <-]. revert Ht. unfold read_timeline.
    destruct (negb _); [intros [= <- <-]; by apply error_for_result_error|].
    destruct (sqlite3_steps d _ _) as [[rows final] d2].
    destruct (read_entries_loop _ _ _ _ _) as [[s|e2] d3] eqn:Hl.
    + case_match; intros [= <- <-]. by apply error_for_result_error.
    + intros [= <- <-]. by eapply read_entries_loop_error.
Qed.

Lemma bound_check_sound identity c c' :
  in_transaction c = false -> bound_check identity c = (HistoryError_None, c') ->
  bound_to (committed c) identity.
Proof.
  intros Hi. unfold bound_check.
  destruct (configure_database false false c) as [e c1] eqn:Hc.
  apply configure_database_steps in Hc as (Hi1 & Hsteps & Hv); [|done].
  destruct (is_error e) eqn:He; [intros [= -> _]; by apply is_error_true in He|].
  apply is_error_None in He as ->. specialize (Hv eq_refl).
  destruct (load_metadata c1) as [[m|e] c2] eqn:Hm.
  2:{ intros [= -> _]. by apply load_metadata_error in Hm. }
  pose proof Hm as Hs. apply load_metadata_same in Hs as (Hv2 & _).
  apply load_metadata_spec in Hm as [Hm _]. specialize (Hm m eq_refl).
  destruct (metadata_initialized m) eqn:Hinit; cbn [negb]; [|done].
  destruct (identity_matches m identity) eqn:Hid; cbn [negb]; [|done].
  destruct (read_snapshot c2 m identity) as [[sn|e] c3] eqn:Hr.
  2:{ intros [= -> _]. by apply read_snapshot_error in Hr. }
  apply read_snapshot_image in Hr. rewrite Hv2 in Hr. rewrite (view_outside c1) in Hm, Hr by done.
  intros _. exists (committed c1), m, sn. split; [|done].
  by rewrite <- (upgrade_steps_same _ _ Hsteps), upgrade_current.
Qed.
End Bound.

(** Either the contents have passed, or nothing but the probe was touched. *)
Lemma open_existing_bound_cases {W C} `{IHistoryFilesLaws W C} fuel (w : W) path identity r w' :
  SqliteHistoryStore_open_existing_bound fuel w path identity = Some (r, w') ->
  bound_to (stored w path) identity \/ only_probe path w w' /\ exists e, r = failure e.
Proof.
  unfold SqliteHistoryStore_open_existing_bound.
  destruct (_ || _); [intros [= <- <-]; right; split; [done|by eexists]|].
  destruct (inspect_history_artifacts w path) as [r1 w1] eqn:Hi.
  apply inspect_history_artifacts_quiet in Hi as Hq. pose proof (quiet_only_probe path _ _ Hq) as Hp.
  destruct r1 as [[]|e]; [|intros [= <- <-]; right; split; [done|by eexists]..].
  intros ([validation w2] & Hpre & Hw)%bind_Some. cbn beta iota in Hw.
  apply with_probe_spec in Hpre as [Hp2 Hcheck]. rewrite (only_probe_stored _ _ _ Hp) in Hcheck.
  destruct (is_error validation) eqn:He.
  - injection Hw as <- <-. right. split; [|by eexists]. intros q Hn. by rewrite Hp2, Hp.
  - apply is_error_None in He. destruct (Hcheck He) as (c & c' & Hidle & <- & Hc).
    left. by eapply bound_check_sound.
Qed.

(** ** The session's operations on its store *)

Inductive StoreOp :=
| Store_discard_probe
| Store_open
| Store_open_bound (identity : Identity)
| Store_load (identity : Identity)
| Store_save (snapshot : HistorySnapshot) (identity : Identity)
| Store_reset.

Inductive StoreReply :=
| Reply_done (done_ : bool)
| Reply_loaded (snapshot : option HistorySnapshot).

(** The abstract store: it holds a snapshot, or nothing that can be read.  A save
    that succeeds replaces it by the snapshot completed with the ledger records
    of its entries, a load that succeeds gives it, and nothing else changes it. *)
Inductive store_transition
  : StoreOp -> option HistorySnapshot -> StoreReply -> option HistorySnapshot -> Prop :=
| transition_discard now b : store_transition Store_discard_probe now (Reply_done b) now
| transition_open now b : store_transition Store_open now (Reply_done b) now
| transition_open_bound identity now b :
    store_transition (Store_open_bound identity) now (Reply_done b) now
| transition_reset now : store_transition Store_reset now (Reply_done true) now
| transition_loaded identity sn :
    snapshot_typed sn -> snapshot_covered sn ->
    store_transition (Store_load identity) (Some sn) (Reply_loaded (Some sn)) (Some sn)
| transition_not_loaded identity now :
    store_transition (Store_load identity) now (Reply_loaded None) now
| transition_saved sn identity now c :
    reconcile_snapshot_dedupe sn = success c ->
    store_transition (Store_save sn identity) now (Reply_done true) (Some c)
| transition_not_saved sn identity now :
    store_transition (Store_save sn identity) now (Reply_done false) now.

Inductive store_transitions
  : list StoreOp -> option HistorySnapshot -> list StoreReply -> option HistorySnapshot -> Prop :=
| transitions_nil now : store_transitions [] now [] now
| transitions_cons op ops now reply replies now1 now' :
    store_transition op now reply now1 -> store_transitions ops now1 replies now' ->
    store_transitions (op :: ops) now (reply :: replies) now'.

(** What the session saves is well typed. *)
Definition op_typed (op : StoreOp) : Prop :=
  match op with Store_save sn _ => snapshot_typed sn | _ => True end.

Section Operations.
Context {W C : Type} `{IHistoryFilesLaws W C} (path : bytes) (fuel : nat).
Implicit Types (s : StoreWorld W C).

Definition reply_done (x : bool * StoreWorld W C) : StoreReply * StoreWorld W C :=
  (Reply_done x.1, x.2).

Definition store_step (op : StoreOp) s : option (StoreReply * StoreWorld W C) :=
  match op with
  | Store_discard_probe => reply_done <$> store_discard_probe path fuel s
  | Store_open => reply_done <$> store_open_history path fuel s
  | Store_open_bound identity => reply_done <$> store_open_existing_bound path fuel s identity
  | Store_load identity =>
      let '(loaded, s) := store_load s identity in Some (Reply_loaded loaded, s)
  | Store_save snapshot identity => Some (reply_done (store_save s snapshot identity))
  | Store_reset => Some (Reply_done true, store_reset s)
  end.

Fixpoint store_run (ops : list StoreOp) s : option (list StoreReply * StoreWorld W C) :=
  match ops with
  | [] => Some ([], s)
  | op :: ops =>
      '(reply, s) ← store_step op s;
      '(replies, s) ← store_run ops s;
      Some (reply :: replies, s)
  end.

Lemma store_step_transition op s reply s' :
  op_typed op -> store_ok path s -> store_step op s = Some (reply, s') ->
  store_ok path s' /\ store_transition op (store_now path s) reply (store_now path s').
Proof.
  intros Ht Hok. destruct op as [| |identity|identity|sn identity|]; cbn [store_step op_typed] in *.
  - intros ([b x] & Hd & [= -> ->])%fmap_Some.
    apply store_discard_spec in Hd as [? ->]; [|done]. by split; [|constructor].
  - intros ([b x] & Hd & [= -> ->])%fmap_Some.
    apply store_open_history_spec in Hd as [? ->]; [|done]. by split; [|constructor].
  - intros ([b x] & Hd & [= -> ->])%fmap_Some.
    apply store_open_existing_bound_spec in Hd as [? ->]; [|done]. by split; [|constructor].
  - destruct (store_load s identity) as [loaded x] eqn:Hl. intros [= <- <-].
    apply store_load_spec with (path := path) in Hl as (? & -> & Hsn); [|done]. split; [done|].
    destruct loaded as [sn|]; [|constructor]. destruct (Hsn sn eq_refl) as (-> & ? & ?).
    by constructor.
  - destruct (store_save s sn identity) as [b x] eqn:Hs. intros [= <- <-].
    apply store_save_spec with (path := path) in Hs as (? & Htrue & Hfalse); [|done].
    split; [done|]. cbn. destruct b.
    + destruct (Htrue eq_refl Ht) as (c & Hc & ->). by constructor.
    + rewrite Hfalse by done. constructor.
  - intros [= <- <-]. destruct (store_reset_spec path s Hok) as [-> Hnone].
    split; [|constructor]. unfold store_ok. by rewrite Hnone.
Qed.

Lemma store_step_returns op s :
  uninterrupted_files (W:=W) -> (0 < fuel)%nat ->
  short_files fuel (store_reset s).(sw_files) path -> is_Some (store_step op s).
Proof.
  intros Hun Hf Hs. destruct op as [| |identity|identity|sn identity|]; cbn [store_step].
  - apply fmap_is_Some, bind_returns; [by apply discard_history_probe_returns|by intros []].
  - apply fmap_is_Some, bind_returns; [by apply SqliteHistoryStore_open_returns|by intros []].
  - apply fmap_is_Some, bind_returns; [|by intros []].
    by apply SqliteHistoryStore_open_existing_bound_returns.
  - by destruct (store_load s identity).
  - done.
  - done.
Qed.
End Operations.

(** ** The store as the interface of the session *)

Section Interface.
Context {W C : Type} `{IHistoryFilesLaws W C} (path : bytes) (fuel : nat).

Lemma store_reset_ok (s : StoreWorld W C) : store_ok path s -> store_ok path (store_reset s).
Proof. intros [_ Hnone]%store_reset_spec. unfold store_ok. by rewrite Hnone. Qed.

(** The worlds the operations stay in. *)
Definition History : Type := { s : StoreWorld W C | store_ok path s }.

Definition history_done (s : History) (o : option (bool * StoreWorld W C))
    (Ho : forall b x, o = Some (b, x) -> store_ok path x) : bool * History :=
  match o as o return (forall b x, o = Some (b, x) -> store_ok path x) -> bool * History with
  | Some (b, x) => fun Ho => (b, exist _ x (Ho b x eq_refl))
  | None => fun _ => (false, s)
  end Ho.

Definition now (s : History) : option HistorySnapshot := store_now path (proj1_sig s).

Lemma history_done_frame s o Ho b s' :
  (forall b x, o = Some (b, x) -> store_now path x = now s) ->
  history_done s o Ho = (b, s') -> now s' = now s.
Proof.
  unfold history_done. destruct o as [[b1 x]|]; intros Hn; [|by intros [= _ <-]].
  intros [= _ <-]. by eapply Hn.
Qed.

#[export] Instance history_store : IHistoryStore History := {
  history_discard_probe s :=
    history_done s (store_discard_probe path fuel (proj1_sig s))
      (fun b x Hx => proj1 (store_discard_spec path fuel _ b x (proj2_sig s) Hx));
  history_open s :=
    history_done s (store_open_history path fuel (proj1_sig s))
      (fun b x Hx => proj1 (store_open_history_spec path fuel _ b x (proj2_sig s) Hx));
  history_open_existing_bound s identity :=
    history_done s (store_open_existing_bound path fuel (proj1_sig s) identity)
      (fun b x Hx =>
         proj1 (store_open_existing_bound_spec path fuel _ identity b x (proj2_sig s) Hx));
  history_load_snapshot s identity :=
    let x := store_load (proj1_sig s) identity in
    (x.1, exist _ x.2
       (proj1 (store_load_spec path _ identity x.1 x.2 (proj2_sig s) (surjective_pairing _))));
  history_save_snapshot s sn identity :=
    let x := store_save (proj1_sig s) sn identity in
    (x.1, exist _ x.2
       (proj1 (store_save_spec path _ sn identity x.1 x.2 (proj2_sig s) (surjective_pairing _))));
  history_close s := exist _ (store_reset (proj1_sig s)) (store_reset_ok _ (proj2_sig s))
}.

#[export] Instance history_store_laws : IHistoryStoreLaws History.
Proof.
  refine {| history_now := now |}; cbn; intros [s Hs].
  - intros sn i w' Ht Hcov [= Hb <-].
    pose proof (store_save_spec path s sn i _ _ Hs (surjective_pairing _)) as (_ & Htrue & _).
    destruct (Htrue Hb Ht) as (c & Hc & Hn). rewrite reconcile_covered in Hc by done.
    unfold now. cbn. congruence.
  - intros i sn w' [= Hr <-].
    pose proof (store_load_spec path s i _ _ Hs (surjective_pairing _)) as (_ & _ & Hsn).
    by apply Hsn.
  - intros i r w' [= _ <-].
    by pose proof (store_load_spec path s i _ _ Hs (surjective_pairing _)) as (_ & Hn & _).
  - intros i b w'. apply history_done_frame. intros b1 x Hx.
    by apply store_open_existing_bound_spec in Hx as [_ ?].
  - intros b w'. apply history_done_frame. intros b1 x Hx.
    by apply store_discard_spec in Hx as [_ ?].
  - unfold now. cbn. by apply store_reset_spec.
Qed.
End Interface.

(** ** Property theorems *)

(** C13: A database is opened for an identity only after it was found to be that
    identity's.  Whatever the files, the system calls and SQLite answer,
    [open_existing_bound] changes no file but those of the database and those in
    its probe directory.  When the contents are not a history of this identity,
    it fails and not even the database is touched.  When it succeeds the store
    is idle on that path, at the current schema, and holds the upgraded contents;
    when it fails the database holds its old contents or a stage of their
    upgrade. *)
Theorem open_existing_bound_validates {W C} `{IHistoryFilesLaws W C} fuel (w : W) path identity
    r w' :
  SqliteHistoryStore_open_existing_bound fuel w path identity = Some (r, w') ->
  only_history path w w' /\
  (~ bound_to (stored w path) identity ->
     only_probe path w w' /\ exists e, r = failure e) /\
  match r with
  | success store => bound_to (stored w path) identity /\ store_open path store /\
      upgrade (stored w path) = Some (store_contents store)
  | failure _ => rtc upgrade_step (stored w path) (stored w' path)
  end.
Proof.
  intros Ho. pose proof Ho as [Honly Hr]%SqliteHistoryStore_open_existing_bound_spec.
  split; [done|].
  assert (bound_to (stored w path) identity \/ only_probe path w w' /\ exists e, r = failure e)
    as Hb by by eapply open_existing_bound_cases.
  split; [by destruct Hb|]. destruct r as [store|e]; [|done]. destruct Hr as [Hs Hsteps].
  destruct Hb as [Hb|[_ [e He]]]; [|done]. split; [done|]. split; [done|].
  rewrite <- (upgrade_steps_same _ _ Hsteps). apply upgrade_current, Hs.
Qed.

(** A file system with one file, a history of the first schema without a post, and
    a session that opens it, loads it, saves two posts, closes it and starts over. *)
Definition sample_path : bytes := str "/history".

Definition sample_legacy : Database :=
  mkDatabase (list_to_map
    [(tMeta, [[Sql_Text (str "install_id"); Sql_Blob golden_sender.(Uuid_bytes)];
              [Sql_Text (str "last_assigned_order"); Sql_Blob zero_order]]);
     (tPosts, [])]) 1.

Definition sample_memory : Memory :=
  mkMemory {[sample_path := database_image sample_legacy]} ∅ ∅.

Definition sample_world : StoreWorld Memory Engine := mkStoreWorld sample_memory None.

Definition sample_session : list StoreOp :=
  [Store_discard_probe; Store_open_bound sample_identity; Store_load sample_identity;
   Store_save sample_snapshot sample_identity; Store_reset;
   Store_open_bound sample_identity; Store_load sample_identity].

Definition sample_fuel : nat := 4000.

Definition opened_upgraded
    (r : option (Result (SqliteHistoryStore Engine) HistoryError * Memory)) : bool :=
  match r with
  | Some (success store, w) => stored_version (store_contents store) =? 3
  | _ => false
  end.

Lemma open_existing_bound_validates_witness :
  exists store w',
    SqliteHistoryStore_open_existing_bound sample_fuel sample_memory sample_path sample_identity =
      Some (success store, w') /\
    stored_version (stored sample_memory sample_path) = 1 /\
    bound_to (stored sample_memory sample_path) sample_identity /\ store_open sample_path store.
Proof.
  assert (opened_upgraded (SqliteHistoryStore_open_existing_bound (C:=Engine) sample_fuel
    sample_memory sample_path sample_identity) = true) as Hb by (vm_compute; reflexivity).
  destruct (SqliteHistoryStore_open_existing_bound (C:=Engine) sample_fuel sample_memory
    sample_path sample_identity) as [[[store|e] w']|] eqn:Ho; [|discriminate Hb..].
  exists store, w'. split; [reflexivity|]. split; [vm_compute; reflexivity|].
  destruct (open_existing_bound_validates _ _ _ _ _ _ Ho) as (_ & _ & Hbound & Hopen & _).
  split; [exact Hbound|exact Hopen].
Defined.

(** C12: The history store is an abstract store of one snapshot.  For every
    sequence of operations the session may ask for - discarding a probe, opening,
    opening for an identity, loading, saving, closing - on any files and whatever
    the system calls, SQLite and the failpoints answer, the replies are those of
    the abstract store: a load that succeeds gives the last snapshot saved, with
    the ledger records of its entries, or what the files held before; it is well
    typed and covered by its ledger; and an operation that fails, an upgrade, a
    close or an open changes nothing.  The store it leaves is idle, on its path
    and at the current schema. *)
Theorem store_refines_snapshot {W C} `{IHistoryFilesLaws W C} path fuel ops
    (s : StoreWorld W C) replies s' :
  Forall op_typed ops -> store_ok path s ->
  store_run path fuel ops s = Some (replies, s') ->
  store_ok path s' /\
  store_transitions ops (store_now path s) replies (store_now path s').
Proof.
  intros Hops. revert s replies. induction Hops as [|op ops Hop _ IH]; intros s replies Hok; cbn.
  - intros [= <- <-]. split; [done|constructor].
  - intros ([reply s1] & Hs & Hrun)%bind_Some. cbn beta iota in Hrun.
    apply bind_Some in Hrun as ([replies1 s2] & Hrun & [= <- <-]).
    apply store_step_transition with (path := path) in Hs as [Hok1 Ht]; [|done|done].
    apply IH in Hrun as [Hok2 Hts]; [|done]. split; [done|]. by econstructor.
Qed.

Definition replies_of (r : option (list StoreReply * StoreWorld Memory Engine))
  : option (list StoreReply) := fst <$> r.

Definition two_entries (r : option (list StoreReply)) : bool :=
  match r with
  | Some [Reply_done true; Reply_done true; Reply_loaded (Some first); Reply_done true;
          Reply_done true; Reply_done true; Reply_loaded (Some last)] =>
      (length first.(snapshot_entries) =? 0)%nat && (length last.(snapshot_entries) =? 2)%nat
  | _ => false
  end.

Lemma sample_session_typed : Forall op_typed sample_session.
Proof.
  unfold sample_session.
  repeat first
    [apply Forall_nil_2 | apply Forall_cons_2; [exact I || exact sample_snapshot_typed|]].
Qed.

Lemma store_refines_snapshot_witness :
  exists replies s', store_run sample_path sample_fuel sample_session sample_world =
      Some (replies, s') /\ two_entries (Some replies) = true /\
    store_transitions sample_session (store_now sample_path sample_world) replies
      (store_now sample_path s').
Proof.
  assert (two_entries (replies_of (store_run sample_path sample_fuel sample_session
    sample_world)) = true) as Hb by (vm_compute; reflexivity).
  destruct (store_run sample_path sample_fuel sample_session sample_world)
    as [[replies s']|] eqn:Hr; [|discriminate Hb].
  exists replies, s'. split; [reflexivity|]. split; [exact Hb|].
  assert (store_ok sample_path sample_world) as Hok by exact I.
  exact (proj2 (store_refines_snapshot sample_path sample_fuel _ _ _ _ sample_session_typed
    Hok Hr)).
Defined.

(** C39: No operation on the history runs for ever.  When no system call is
    interrupted, every loop of opening, copying, discarding and closing ends:
    with a fuel above the length of the database and of its side files, each
    operation of the session on its store returns. *)
Theorem store_operations_return {W C} `{IHistoryFilesLaws W C} path fuel op (s : StoreWorld W C) :
  uninterrupted_files (W:=W) -> (0 < fuel)%nat ->
  short_files fuel (store_reset s).(sw_files) path ->
  exists reply s', store_step path fuel op s = Some (reply, s').
Proof.
  intros Hun Hf Hs. destruct (store_step_returns path fuel op s Hun Hf Hs) as [[reply s'] Hr].
  by exists reply, s'.
Qed.

Definition files_shorter (fuel : nat) (w : Memory) : bool :=
  forallb (fun file => length file.2 <? fuel)%nat (map_to_list w.(memory_files)).

Lemma files_shorter_short fuel w path : files_shorter fuel w = true -> short_files fuel w path.
Proof.
  unfold files_shorter. intros Hb q c _ Hc.
  rewrite forallb_forall in Hb. apply Nat.ltb_lt.
  apply (Hb (q, c)), list_elem_of_In, elem_of_map_to_list, Hc.
Qed.

Lemma store_operations_return_witness :
  exists reply s', store_step sample_path sample_fuel (Store_open_bound sample_identity)
    sample_world = Some (reply, s').
Proof.
  assert (files_shorter sample_fuel sample_memory = true) as Hb by (vm_compute; reflexivity).
  assert (0 < sample_fuel)%nat as Hf by (apply Nat.ltb_lt; vm_compute; reflexivity).
  exact (store_operations_return sample_path sample_fuel (Store_open_bound sample_identity)
    sample_world memory_uninterrupted Hf (files_shorter_short _ _ sample_path Hb)).
Defined.
