(* ===== verification/HistoryConstraints.v ===== *)
(** * HistoryConstraints: the constraints of the schema and [validate_snapshot]

    The constraints the schema declares agree with what [validate_snapshot]
    checks, so that no snapshot the store accepts is refused by SQLite:
    [snapshot_effect_some]. *)
From Stdlib Require Import Sorting.Sorted.
From S2P Require Import Prelude Text Uuid Identity Post Timeline Limits PostCodec DedupeWindow HistoryRecord HistorySchema HistoryStore HistoryLaws HistoryTheory HistoryRoundtrip.

(** ** The constraints of the schema *)

Lemma key_is_new_true columns row rows :
  key_of columns row ∉ (key_of columns <$> rows) -> key_is_new columns row rows = true.
Proof.
  intros Hn. unfold key_is_new. apply forallb_forall. intros other Hin%list_elem_of_In.
  apply negb_true_iff, bool_decide_eq_false. intros He. apply Hn. rewrite He.
  by apply list_elem_of_fmap_2.
Qed.

(** Rows that pass the checks and have keys of their own are all inserted. *)
Lemma insert_all_some table check keys rows db :
  is_Some (db.(db_tables) !! table) -> Forall (fun row => check row = true) rows ->
  Forall (fun columns => NoDup (key_of columns <$> rows_of db table ++ rows)) keys ->
  is_Some (insert_all (sql_insert table check keys) rows db).
Proof.
  revert db. induction rows as [|row rows IH]; intros db Ht Hc Hk; cbn; [eauto|].
  apply Forall_cons in Hc as [Hrow Hc].
  destruct (sql_insert table check keys row db) as [db1|] eqn:Hi.
  - cbn. pose proof (sql_insert_appended _ _ _ _ _ _ Hi) as [_ Ha]. apply IH; [|done|].
    + revert Hi. unfold sql_insert. intros (old & _ & Hi)%bind_Some. case_match; [|done].
      injection Hi as <-. apply set_rows_has. by left.
    + rewrite Ha, decide_True, <- app_assoc by done. done.
  - exfalso. revert Hi. unfold sql_insert. destruct Ht as [old Hold]. rewrite Hold. cbn.
    rewrite Hrow. cbn. assert (forallb (fun columns => key_is_new columns row old) keys = true)
      as ->; [|done].
    apply forallb_forall. intros columns Hin%list_elem_of_In. apply key_is_new_true.
    rewrite Forall_forall in Hk. specialize (Hk _ Hin). unfold rows_of in Hk. rewrite Hold in Hk.
    cbn in Hk. rewrite fmap_app in Hk. apply NoDup_app in Hk as (_ & Hd & _).
    intros Hx. apply (Hd _ Hx). by left.
Qed.

Lemma is_order_true value : is_u64 value -> value <> 0 -> is_order (encode_uint64 value) = true.
Proof.
  intros Hu Hne. unfold is_order, has_length. rewrite encode_uint64_be, length_be_bytes. cbn [Nat.eqb andb].
  apply negb_true_iff, bool_decide_eq_false. intros He. apply Hne.
  apply (f_equal be_value) in He. rewrite be_value_be_bytes in He.
  change (be_value zero_order) with 0 in He.
  rewrite Z.mod_small in He; [done|]. unfold is_u64, UINT64_MAX in Hu. lia.
Qed.

Lemma has_length_uuid u : Uuid_wf u -> has_length 16 u.(Uuid_bytes) = true.
Proof. unfold has_length. by intros ->. Qed.

Lemma length_between_true lo hi (b : bytes) :
  (lo <= length b <= hi)%nat -> length_between lo hi b = true.
Proof.
  intros. unfold length_between. destruct (Nat.leb_spec lo (length b)); [|lia].
  by destruct (Nat.leb_spec (length b) hi); [|lia].
Qed.

Lemma meta_rows_pass sn i :
  InstallId_wf i.(Identity_install_id) ->
  Forall (fun row => check_meta row = true) (meta_parameters sn i).
Proof.
  intros [Hi _]. unfold meta_parameters, bind_uint64, bind_uuid.
  repeat apply Forall_cons_2; [..|done]; unfold check_meta;
    rewrite ?(has_length_uuid _ Hi); unfold has_length;
    rewrite ?encode_uint64_be, ?length_be_bytes; reflexivity.
Qed.

Lemma post_row_passes entry :
  PostPayload_wf entry.(entry_post) -> is_u64 entry.(received_order) ->
  entry.(received_order) <> 0 -> check_posts (post_parameters entry) = true.
Proof.
  intros Hwf Ho Hne. pose proof Hwf as [[Hm _] [Hs _] Hseq Hu Hb _ _ _ _ _].
  apply UserId_wf_length in Hu. apply PostBody_wf_length in Hb.
  unfold check_posts, post_parameters, bind_uint64, bind_uuid.
  rewrite (has_length_uuid _ Hm), (has_length_uuid _ Hs), !is_order_true by (unfold is_u64 in *; lia).
  rewrite !length_between_true by lia. cbn [andb].
  assert (check_reply (message_id (entry_post entry)).(MessageId_uuid).(Uuid_bytes)
    (optional_value (fun reply => Sql_Blob (Uuid_bytes (MessageId_uuid reply)))
       (reply_to (entry_post entry))) = true) as ->.
  { destruct (reply_to (entry_post entry)) as [reply|] eqn:Hr; [|done].
    destruct (wf_reply_to _ Hwf _ Hr) as [[Hru _] Hrn]. cbn. rewrite (has_length_uuid _ Hru).
    apply negb_true_iff, bool_decide_eq_false. intros He. apply Hrn.
    destruct reply as [[b]], (message_id (entry_post entry)) as [[b']]. cbn in *. congruence. }
  destruct (sender_time (entry_post entry)), (entry_origin entry) as [|[]]; reflexivity.
Qed.

Lemma mention_rows_pass entry :
  PostPayload_wf entry.(entry_post) ->
  Forall (fun row => check_mentions row = true) (mention_rows_of entry).
Proof.
  intros Hwf. apply Forall_forall. intros row (k & Hk)%list_elem_of_lookup.
  unfold mention_rows_of in Hk. rewrite list_lookup_imap in Hk.
  apply fmap_Some in Hk as (m & Hm & ->). cbn.
  pose proof (wf_mentions _ Hwf) as Hids. rewrite Forall_forall in Hids.
  apply list_elem_of_lookup_2 in Hm as Hin. destruct (Hids _ Hin) as [Hu _].
  rewrite (has_length_uuid _ Hu). apply lookup_lt_Some in Hm.
  pose proof (wf_mentions_length _ Hwf) as Hl. unfold kMaxMentions in Hl.
  destruct (Z.leb_spec 0 (Z.of_nat k)); [|lia]. by destruct (Z.leb_spec (Z.of_nat k) 3); [|lia].
Qed.

Lemma seen_row_passes r :
  record_canonical r -> is_u64 r.(seen_order) -> r.(seen_order) <> 0 ->
  check_seen (seen_row_of r) = true.
Proof.
  intros (p & Hwf & Hid & He) Hu Hne. pose proof (encoded_size_range p Hwf).
  pose proof (length_post_bytes p Hwf) as Hlen. rewrite encode_post_layout in He by done.
  injection He as He. rewrite He in Hlen. pose proof (wf_message_id _ Hwf) as [Hm _].
  rewrite Hid in Hm. unfold check_seen, seen_row_of, seen_stored, seen_parameters, column.
  cbn [nth]. unfold bind_uuid, bind_uint64. rewrite (has_length_uuid _ Hm), is_order_true by done.
  rewrite length_between_true by lia. done.
Qed.

(** *** The keys are distinct *)

Lemma bind_uint64_inj v v' : is_u64 v -> is_u64 v' -> bind_uint64 v = bind_uint64 v' -> v = v'.
Proof.
  intros Hv Hv' He. apply (f_equal decode_uint64) in He.
  rewrite !decode_bind_uint64 in He by done. congruence.
Qed.

(** A key that determines a value of the item. *)
Lemma NoDup_keys {A B} (row : A -> SqlRow) (columns : list nat) (f : A -> B) l :
  (forall a b, a ∈ l -> b ∈ l -> key_of columns (row a) = key_of columns (row b) -> f a = f b) ->
  NoDup (f <$> l) -> NoDup (key_of columns <$> (row <$> l)).
Proof.
  induction l as [|a l IH]; cbn; [constructor|]. intros Hinj [Hn Hnd]%NoDup_cons.
  constructor.
  - intros Hin. rewrite <- list_fmap_compose in Hin.
    apply list_elem_of_fmap in Hin as (b & Hb & Hbin).
    apply Hn. apply list_elem_of_fmap. exists b. split; [|done].
    apply Hinj; [by left|by right|done].
  - apply IH; [|done]. intros x y Hx Hy. apply Hinj; by right.
Qed.

Lemma sorted_NoDup (l : list Z) : StronglySorted Z.lt l -> NoDup l.
Proof.
  induction 1 as [|x l Hs IH Hx]; constructor; [|done]. intros Hin.
  rewrite Forall_forall in Hx. specialize (Hx x Hin). lia.
Qed.

Lemma fmap_bind {A B C} (f : B -> C) (g : A -> list B) l :
  f <$> (l ≫= g) = l ≫= (fun a => f <$> g a).
Proof. induction l as [|a l IH]; cbn; [done|]. by rewrite fmap_app, <- IH. Qed.

(** The two keys of [mentions]. *)
Lemma mention_keys_distinct second entries :
  (forall e j k a b, e ∈ entries ->
     e.(entry_post).(mentions) !! j = Some a -> e.(entry_post).(mentions) !! k = Some b ->
     second = 1%nat \/ second = 2%nat ->
     column (mention_parameters (entry_id e) j a) second =
     column (mention_parameters (entry_id e) k b) second -> j = k) ->
  second = 1%nat \/ second = 2%nat ->
  NoDup (entry_id <$> entries) ->
  NoDup (key_of [0%nat; second] <$> (entries ≫= mention_rows_of)).
Proof.
  intros Hkey Hsec Hnd. rewrite fmap_bind.
  assert (forall e key, key ∈ key_of [0%nat; second] <$> mention_rows_of e ->
    exists k m, e.(entry_post).(mentions) !! k = Some m /\
      key = key_of [0%nat; second] (mention_parameters (entry_id e) k m)) as Hin.
  { intros e key Hk. apply list_elem_of_fmap in Hk as (row & -> & Hrow).
    apply list_elem_of_lookup in Hrow as [k Hk]. unfold mention_rows_of in Hk.
    rewrite list_lookup_imap in Hk. apply fmap_Some in Hk as (m & Hm & ->). by eauto. }
  apply NoDup_bind.
  - intros e e' key He He' (k & m & _ & Hk)%Hin (k' & m' & _ & Hk')%Hin. subst key.
    assert (entry_id e = entry_id e') as Hid.
    { apply bind_uuid_inj. apply (f_equal (take 1)) in Hk'. exact Hk'. }
    apply list_elem_of_lookup in He as [x Hx]. apply list_elem_of_lookup in He' as [y Hy].
    assert (x = y) as ->; [|congruence].
    eapply (NoDup_lookup _ x y (entry_id e) Hnd); rewrite list_lookup_fmap;
      [by rewrite Hx|rewrite Hy; cbn; by rewrite Hid].
  - intros e He. apply NoDup_alt. intros j k key Hj Hk.
    rewrite list_lookup_fmap in Hj, Hk. unfold mention_rows_of in Hj, Hk.
    rewrite list_lookup_imap in Hj, Hk.
    destruct (mentions (entry_post e) !! j) as [a|] eqn:Ha; [|done].
    destruct (mentions (entry_post e) !! k) as [b|] eqn:Hb; [|done].
    cbn [fmap option_fmap option_map] in Hj, Hk. injection Hj as <-. injection Hk as Hk.
    eapply Hkey; [exact He|exact Ha|exact Hb|done|]. symmetry.
    destruct Hsec as [-> | ->]; cbn in *; congruence.
  - by eapply NoDup_fmap_1.
Qed.

Lemma mention_ordinals_distinct entries :
  NoDup (entry_id <$> entries) ->
  NoDup (key_of [0%nat; 1%nat] <$> (entries ≫= mention_rows_of)).
Proof.
  intros Hnd. apply mention_keys_distinct; [|by left|done].
  intros e j k a b _ _ _ _ He. cbn in He. injection He as He. lia.
Qed.

Lemma mention_ids_distinct entries :
  Forall (fun e => PostPayload_wf e.(entry_post)) entries -> NoDup (entry_id <$> entries) ->
  NoDup (key_of [0%nat; 2%nat] <$> (entries ≫= mention_rows_of)).
Proof.
  intros Hwf Hnd. apply mention_keys_distinct; [|by right|done].
  intros e j k a b Hin Ha Hb _ He. rewrite Forall_forall in Hwf.
  pose proof (wf_mentions_NoDup _ (Hwf e Hin)) as Hd.
  eapply (NoDup_lookup _ j k a Hd); [done|]. rewrite Hb. f_equal.
  cbn in He. unfold bind_uuid in He. destruct a as [[x]], b as [[y]]. cbn in He. congruence.
Qed.

(** *** Every row of a valid snapshot is inserted *)

Lemma insert_mentions_some rows db :
  Forall (fun row => has_parent (rows_of db tPosts) row = true) rows ->
  is_Some (insert_all (sql_insert tMentions check_mentions [[0%nat; 1%nat]; [0%nat; 2%nat]])
             rows db) ->
  is_Some (insert_all insert_mention rows db).
Proof.
  revert db. induction rows as [|row rows IH]; intros db; cbn [insert_all]; [by eauto|].
  intros [Hp Hps]%Forall_cons [db' Hs]. apply bind_Some in Hs as (db1 & Hi & Hs).
  assert (insert_mention row db = Some db1) as -> by (unfold insert_mention; by rewrite Hp).
  cbn [mbind option_bind]. apply IH; [|by eauto].
  apply sql_insert_appended in Hi as [_ Hr]. rewrite Hr, decide_False by done.
  by rewrite app_nil_r.
Qed.

Lemma insert_all_keeps insert rows db db' t :
  (forall row db db', insert row db = Some db' -> exists table r, db' = set_rows table r db) ->
  insert_all insert rows db = Some db' -> is_Some (db.(db_tables) !! t) ->
  is_Some (db'.(db_tables) !! t).
Proof.
  intros Hins. revert db. induction rows as [|row rows IH]; intros db; cbn; [by intros [= <-]|].
  intros (db1 & Hi & Hr)%bind_Some Ht. apply IH in Hr; [done|].
  apply Hins in Hi as (table & r & ->). apply set_rows_has. by right.
Qed.

Lemma sql_insert_set table check keys row db db' :
  sql_insert table check keys row db = Some db' -> exists t r, db' = set_rows t r db.
Proof.
  unfold sql_insert. intros (rows & _ & Hi)%bind_Some. case_match; [|done].
  injection Hi as <-. by eauto.
Qed.

Lemma insert_mention_set row db db' :
  insert_mention row db = Some db' -> exists t r, db' = set_rows t r db.
Proof. unfold insert_mention. case_match; [|done]. apply sql_insert_set. Qed.

Lemma entry_effect_some before e db :
  complete_schema db ->
  rows_of db tPosts = post_parameters <$> before ->
  rows_of db tMentions = before ≫= mention_rows_of ->
  Forall (fun e => PostPayload_wf e.(entry_post)) (before ++ [e]) ->
  Forall (fun e => is_u64 e.(received_order)) (before ++ [e]) ->
  e.(received_order) <> 0 ->
  NoDup (entry_id <$> before ++ [e]) -> NoDup (received_order <$> before ++ [e]) ->
  exists db', entry_effect e db = Some db' /\ complete_schema db' /\
    rows_of db' tPosts = post_parameters <$> (before ++ [e]) /\
    rows_of db' tMentions = (before ++ [e]) ≫= mention_rows_of.
Proof.
  intros Hc Hp Hm Hwf Hu Hne Hids Hords. pose proof Hc as Hc'. unfold complete_schema in Hc'.
  rewrite !Forall_cons in Hc'. destruct Hc' as (_ & Htp & Htm & _).
  pose proof Hwf as Hwf'. apply Forall_app in Hwf' as [_ [Hwfe _]%Forall_cons].
  pose proof Hu as Hu'. apply Forall_app in Hu' as [_ [Hue _]%Forall_cons].
  destruct (insert_all_some tPosts check_posts [[0%nat]; [7%nat]] [post_parameters e] db)
    as [db1 Hi]; [done| | |].
  { apply Forall_singleton. by apply post_row_passes. }
  { rewrite Hp. change [post_parameters e] with (post_parameters <$> [e]).
    rewrite <- fmap_app. repeat apply Forall_cons_2; [..|done].
    - apply (NoDup_keys _ _ entry_id); [|done]. intros a b _ _. apply bind_uuid_inj.
    - apply (NoDup_keys _ _ received_order); [|done]. intros a b Ha Hb Hk.
      rewrite Forall_forall in Hu. apply bind_uint64_inj; [by apply Hu..|].
      by apply (f_equal (hd Sql_Null)) in Hk. }
  pose proof (insert_all_appended _ tPosts id _ _ _
    (fun row a b E => sql_insert_appended _ _ _ row a b E) Hi) as [_ Ha].
  rewrite list_fmap_id in Ha. cbn [insert_all] in Hi. apply bind_Some in Hi as (db0 & Hi & [= <-]).
  assert (complete_schema db0) as Hc0.
  { pose proof (sql_insert_set _ _ _ _ _ _ Hi) as (t & r & ->).
    eapply Forall_impl; [exact Hc|]. intros x Hx. apply set_rows_has. by right. }
  assert (rows_of db0 tPosts = post_parameters <$> (before ++ [e])) as Hp0.
  { rewrite Ha, decide_True, Hp, fmap_app by done. done. }
  assert (rows_of db0 tMentions = before ≫= mention_rows_of) as Hm0.
  { rewrite Ha, decide_False, app_nil_r by done. done. }
  destruct (insert_mentions_some (mention_rows_of e) db0) as [db' Hm'].
  { apply Forall_forall. intros row Hrow. pose proof (mention_rows_of_key e) as Hk.
    rewrite Forall_forall in Hk. specialize (Hk row Hrow). unfold has_parent. rewrite Hp0.
    apply existsb_exists. exists (post_parameters e). split.
    - apply list_elem_of_In, list_elem_of_fmap. exists e. split; [done|].
      apply elem_of_app. right. by left.
    - apply bool_decide_eq_true. cbn in Hk |- *. by injection Hk as ->. }
  { apply insert_all_some; [|by apply mention_rows_pass|].
    - unfold complete_schema in Hc0. rewrite !Forall_cons in Hc0. by destruct Hc0 as (_ & _ & ? & _).
    - rewrite Hm0. assert ((before ≫= mention_rows_of) ++ mention_rows_of e =
        (before ++ [e]) ≫= mention_rows_of) as ->.
      { rewrite bind_app. cbn. by rewrite app_nil_r. }
      repeat apply Forall_cons_2; [..|done];
        [by apply mention_ordinals_distinct|by apply mention_ids_distinct]. }
  exists db'. split; [unfold entry_effect, insert_post; by rewrite Hi|].
  pose proof (insert_all_appended _ tMentions id _ _ _ insert_mention_appended Hm') as [_ Hb].
  rewrite list_fmap_id in Hb. split; [|split].
  - eapply Forall_impl; [exact Hc0|]. intros t. by eapply insert_all_keeps, Hm'; apply insert_mention_set.
  - by rewrite Hb, decide_False, app_nil_r.
  - rewrite Hb, decide_True, Hm0, bind_app by done. cbn. by rewrite app_nil_r.
Qed.

Lemma entries_effect_some before rest db :
  complete_schema db ->
  rows_of db tPosts = post_parameters <$> before ->
  rows_of db tMentions = before ≫= mention_rows_of ->
  Forall (fun e => PostPayload_wf e.(entry_post)) (before ++ rest) ->
  Forall (fun e => is_u64 e.(received_order)) (before ++ rest) ->
  Forall (fun e => e.(received_order) <> 0) rest ->
  NoDup (entry_id <$> before ++ rest) -> NoDup (received_order <$> before ++ rest) ->
  exists db', entries_effect rest db = Some db' /\ complete_schema db'.
Proof.
  revert before db. induction rest as [|e rest IH]; intros before db Hc Hp Hm Hwf Hu Hne Hids Hords.
  { by exists db. }
  apply Forall_cons in Hne as [Hne Hnes].
  assert (before ++ e :: rest = (before ++ [e]) ++ rest) as Hsplit by by rewrite <- app_assoc.
  rewrite Hsplit in *.
  destruct (entry_effect_some before e db) as (db1 & He & Hc1 & Hp1 & Hm1); try done.
  - by apply Forall_app in Hwf as [? _].
  - by apply Forall_app in Hu as [? _].
  - rewrite fmap_app in Hids. by apply NoDup_app in Hids as (? & _).
  - rewrite fmap_app in Hords. by apply NoDup_app in Hords as (? & _).
  - cbn [entries_effect]. rewrite He. by apply (IH (before ++ [e]) db1).
Qed.

Lemma insert_all_map {A} insert insert' (row row' : A -> SqlRow) l db :
  (forall a db, insert (row a) db = insert' (row' a) db) ->
  insert_all insert (map row l) db = insert_all insert' (map row' l) db.
Proof.
  intros He. revert db. induction l as [|a l IH]; intros db; cbn; [done|]. rewrite He.
  by destruct (insert' (row' a) db); cbn.
Qed.

Lemma delete_from_some table db :
  is_Some (db.(db_tables) !! table) -> delete_from table db = Some (set_rows table [] db).
Proof. unfold delete_from. by intros [rows ->]. Qed.

Lemma complete_delete db : complete_schema db -> is_Some (delete_rows db).
Proof.
  intros Hc. unfold complete_schema in Hc. rewrite !Forall_cons in Hc.
  destruct Hc as (Hm & [p Hp] & [n Hn] & Hs & _).
  unfold delete_rows. cbn [run_effects]. unfold delete_posts. rewrite Hp, Hn.
  cbn [mbind option_bind].
  rewrite delete_from_some by (by do 2 (apply set_rows_has; right)). cbn [mbind option_bind].
  rewrite delete_from_some by (by do 3 (apply set_rows_has; right)). cbn. eauto.
Qed.

(** No constraint of the schema refuses what [validate_snapshot] accepts. *)
Lemma snapshot_effect_some sn i db :
  acceptable sn i -> complete_schema db -> foreign_keys_hold db ->
  exists db', snapshot_effect sn i db = Some db' /\ complete_schema db'.
Proof.
  intros Hacc Hc Hf. pose proof (acceptable_window _ _ Hacc) as [_ _ Hcan Hnd Hsorted Hord _ Hmax].
  destruct Hacc as (Hval & (Ha & Ho & Hwf & Hs & Hso) & Hi).
  apply validate_snapshot_None in Hval as [_ Hvs Hvo Hvn _].
  cbn [ledger_window records last_seen_order] in *.
  unfold snapshot_effect. destruct (complete_delete _ Hc) as [db1 Hd]. rewrite Hd.
  cbn [mbind option_bind]. pose proof (delete_rows_complete _ _ Hd) as Hc1.
  apply (delete_rows_empty _ _ Hf) in Hd. rewrite !Forall_cons in Hd.
  destruct Hd as (Hm1 & Hp1 & Hn1 & Hs1 & _).
  destruct (insert_all_some tMeta check_meta [[0%nat]] (meta_parameters sn i) db1) as [db2 Hm2].
  { unfold complete_schema in Hc1. rewrite !Forall_cons in Hc1. by destruct Hc1. }
  { by apply meta_rows_pass. }
  { rewrite Hm1. apply Forall_singleton. cbn. 
    repeat (apply NoDup_cons; split;
      [intros Hin; repeat (apply elem_of_cons in Hin as [Hin|Hin]; [discriminate|]);
       by apply not_elem_of_nil in Hin|]).
    constructor. }
  unfold insert_meta. rewrite Hm2. cbn [mbind option_bind].
  assert (complete_schema db2) as Hc2.
  { eapply Forall_impl; [exact Hc1|]. intros t. eapply insert_all_keeps, Hm2.
    intros row a b. apply sql_insert_set. }
  pose proof (insert_all_appended _ tMeta id _ _ _
    (fun row a b E => sql_insert_appended _ _ _ row a b E) Hm2) as [_ Happ].
  assert (forall t, t <> tMeta -> rows_of db2 t = rows_of db1 t) as Hother.
  { intros t Ht. by rewrite Happ, decide_False, app_nil_r. }
  destruct (entries_effect_some [] sn.(snapshot_entries) db2) as (db3 & He & Hc3);
    rewrite ?Hother; try done.
  { eapply Forall_impl; [exact Hvo|]. cbn. lia. }
  { by apply sorted_NoDup. }
  rewrite He. cbn [mbind option_bind]. pose proof (entries_effect_rows _ _ _ He tSeen) as Hs3.
  rewrite !decide_False, !app_nil_r, Hother, Hs1 in Hs3 by done.
  assert (insert_all insert_seen (map seen_parameters sn.(snapshot_seen_messages)) db3 =
    insert_all (sql_insert tSeen check_seen [[0%nat]; [3%nat]])
      (seen_row_of <$> sn.(snapshot_seen_messages)) db3) as ->.
  { by apply insert_all_map. }
  destruct (insert_all_some tSeen check_seen [[0%nat]; [3%nat]]
    (seen_row_of <$> sn.(snapshot_seen_messages)) db3) as [db4 Hs4].
  { unfold complete_schema in Hc3. rewrite !Forall_cons in Hc3. by destruct Hc3 as (_ & _ & _ & ? & _). }
  { apply Forall_fmap. rewrite Forall_forall in Hcan, Hord, Hso |- *. intros r Hr. cbn.
    apply seen_row_passes; [by apply Hcan|by apply Hso|]. specialize (Hord r Hr). cbn in Hord. lia. }
  { rewrite Hs3. cbn [app]. repeat apply Forall_cons_2; [..|done].
    - apply (NoDup_keys _ _ seen_message_id); [|done]. intros a b _ _. apply bind_uuid_inj.
    - apply (NoDup_keys _ _ seen_order); [|by apply sorted_NoDup]. intros a b Hain Hbin Hk.
      rewrite Forall_forall in Hso. apply bind_uint64_inj; [by apply Hso..|].
      by apply (f_equal (hd Sql_Null)) in Hk. }
  exists db4. split; [done|]. eapply Forall_impl; [exact Hc3|]. intros t. eapply insert_all_keeps, Hs4.
  intros row a b. apply sql_insert_set.
Qed.
