(* ===== verification/HistoryPromises.v ===== *)
(** * HistoryPromises: what the history store promises

    A save is all or nothing; a load returns the snapshot of the last save; the
    identity and the orders of a database never go back, and the answer of a
    healthy database is a function of its contents. *)
From S2P Require Import Prelude Text Uuid Identity Post Timeline Limits PostCodec DedupeWindow HistoryRecord HistorySchema HistoryStore HistoryLaws HistoryTheory HistoryRoundtrip HistoryLoad HistoryConstraints.

(** ** The verdict of a save *)

(** The answer of [save_snapshot] when SQLite does all it is asked, as a function
    of the contents. *)
Definition save_verdict (db : Database) (sn : HistorySnapshot) (i : Identity) : HistoryError :=
  match reconcile_snapshot_dedupe sn with
  | failure error => error
  | success candidate =>
      let validation := validate_snapshot candidate i in
      if is_error validation then validation else transition db candidate i
  end.

(** A connection on which nothing but the data can stop a save. *)
Definition save_works {D} `{ISqliteLaws D} (d : D) : Prop :=
  healthy d /\ complete_schema (committed d) /\ fst (operation_preflight d) = HistoryError_None.

(** ** The order of saved snapshots *)

(** [c] may be saved after [b]: no order goes back, and an unchanged ledger order
    means an unchanged ledger. *)
Definition snapshot_follows (b c : HistorySnapshot) : Prop :=
  b.(snapshot_last_assigned_order) <= c.(snapshot_last_assigned_order) /\
  b.(snapshot_last_seen_order) <= c.(snapshot_last_seen_order) /\
  (b.(snapshot_last_seen_order) = c.(snapshot_last_seen_order) ->
   b.(snapshot_seen_messages) = c.(snapshot_seen_messages)).

#[global] Instance snapshot_follows_preorder : PreOrder snapshot_follows.
Proof.
  split; [by repeat split|]. intros a b c (H1 & H2 & H3) (H4 & H5 & H6).
  split; [lia|]. split; [lia|]. intros He. rewrite H3 by lia. apply H6. lia.
Qed.

(** The database holds [c] for the installation of [i]. *)
Record holds_snapshot (c : HistorySnapshot) (i : Identity) (db : Database) : Prop := {
  holds_stored : stored_as c i db;
  holds_typed : snapshot_typed c;
  holds_window : Window_inv (ledger_window c);
  holds_install : InstallId_wf i.(Identity_install_id)
}.

Lemma holds_metadata c i db :
  holds_snapshot c i db -> stored_metadata db = success (metadata_of c i).
Proof. intros [Hst (Ha & _ & _ & Hs & _) _ Hi]. apply stored_metadata_of; by try apply Hi. Qed.

Lemma ledger_rows_same rows records l :
  rows = seen_row_of <$> records ->
  Forall (fun r => is_u64 r.(seen_order)) records ->
  ledger_rows (key_of [0%nat; 2%nat; 3%nat] <$> rows) l = Some [] -> l = records.
Proof.
  intros -> Hu. revert l. induction Hu as [|r records Hr Hrs IH]; intros l; cbn.
  { by intros [= ->]. }
  destruct l as [|x l]; [done|]. destruct (ledger_row_matches _ x) eqn:Hm; [|done].
  intros Hl%IH. subst l. f_equal. revert Hm. unfold ledger_row_matches, key_of.
  cbn [fmap list_fmap column nth seen_row_of seen_stored seen_parameters].
  rewrite decode_bind_uint64 by done. rewrite !andb_true_iff, !bool_decide_eq_true.
  intros (((_ & Ho) & Hid) & He). injection Ho as Ho.
  unfold bind_uuid, column_blob in Hid, He. destruct x as [[[b]] e o], r as [[[b']] e' o'].
  cbn in *. destruct b', o'; congruence.
Qed.

Lemma ledger_holds_same c i db sn :
  holds_snapshot c i db -> ledger_holds db sn = true ->
  sn.(snapshot_seen_messages) = c.(snapshot_seen_messages).
Proof.
  intros [[_ _ _ Hs] (_ & _ & _ & _ & Hu) [_ _ _ _ Hsorted _ _ _] _].
  unfold ledger_holds, stored_ledger. rewrite Hs. cbn [ledger_window records] in Hsorted.
  change (fun r => seen_stored (seen_parameters r)) with seen_row_of.
  rewrite (order_by_uint64 _ _ seen_order) by done.
  destruct (ledger_rows _ _) as [[|]|] eqn:Hl; [intros _|done..].
  by eapply ledger_rows_same in Hl.
Qed.

Lemma transition_follows c i db sn j :
  holds_snapshot c i db -> transition db sn j = HistoryError_None ->
  j.(Identity_install_id) = i.(Identity_install_id) /\ snapshot_follows c sn.
Proof.
  intros Hh. unfold transition. rewrite (holds_metadata _ _ _ Hh).
  cbn [metadata_of metadata_initialized metadata_last_assigned_order metadata_last_seen_order negb].
  unfold identity_matches. case_bool_decide as Hid; cbn [negb]; [|done].
  destruct (_ || _) eqn:Ho; [done|]. reflect_bools.
  destruct (_ =? _) eqn:He; cbn [andb].
  - destruct (ledger_holds db sn) eqn:Hl; [|done]. intros _. cbn [negb] in *.
    split; [|split; [lia|split; [lia|]]].
    + destruct i as [[[b]] ? ?], j as [[[b']] ? ?]. cbn in *. congruence.
    + intros _. symmetry. by eapply ledger_holds_same.
  - intros _. apply Z.eqb_neq in He. split; [|split; [lia|split; [lia|lia]]].
    destruct i as [[[b]] ? ?], j as [[[b']] ? ?]. cbn in *. congruence.
Qed.

Section Promises.
Context {D : Type} `{ISqliteLaws D}.

(** A save that answers success leaves its candidate in the database. *)
Lemma save_holds failpoint (d d' : D) sn i :
  in_transaction d = false -> snapshot_typed sn -> InstallId_wf i.(Identity_install_id) ->
  save_snapshot failpoint d sn i = (HistoryError_None, d') ->
  exists c, reconcile_snapshot_dedupe sn = success c /\ acceptable c i /\
    transition (committed d) c i = HistoryError_None /\
    in_transaction d' = false /\ holds_snapshot c i (committed d').
Proof.
  intros Ho Ht Hi Hs. apply save_snapshot_spec in Hs as (Ho' & _ & Hok); [|done].
  destruct (Hok eq_refl) as (c & Hr & Hv & Htr & _ & Hst). exists c.
  destruct (reconcile_success _ _ Ht Hr) as (_ & _ & Hw & Htc). done.
Qed.

(** ** A healthy save *)

Lemma healthy_save (d : D) sn i :
  in_transaction d = false -> save_works d ->
  snapshot_typed sn -> InstallId_wf i.(Identity_install_id) ->
  fst (save_snapshot false d sn i) = save_verdict (committed d) sn i.
Proof.
  intros Ho (Hh & Hcs & Hp) Ht Hi. unfold save_snapshot, save_verdict.
  destruct (reconcile_snapshot_dedupe sn) as [c|e] eqn:Hr; [|done].
  destruct (is_error (validate_snapshot c i)) eqn:Hv; [done|]. apply is_error_None in Hv.
  destruct (operation_preflight d) as [preflight d1] eqn:Hop. cbn [fst] in Hp. subst preflight.
  change (is_error HistoryError_None) with false. cbv iota.
  pose proof (preflight_foreign_keys _ _ Hop) as Hf.
  apply operation_preflight_same in Hop as (_ & Hc & Hi1 & Hh1).
  rewrite (view_outside d Ho) in Hf.
  destruct (write_snapshot false d1 c i) as [e d'] eqn:Hw. cbn [fst].
  apply write_snapshot_spec in Hw as (_ & _ & _ & Hd); [|congruence]. rewrite Hc in Hd.
  destruct (Hd (Hh1 Hh) Hcs) as (_ & Hno & Hyes).
  destruct (decide (transition (committed d) c i = HistoryError_None)) as [He|He]; [|by auto].
  rewrite He. apply Hyes; [done|].
  destruct (snapshot_effect_some c i (committed d)) as (db' & Hdb & _); [|done..|by eauto].
  split; [done|]. split; [|done]. by apply (reconcile_success sn).
Qed.

(** ** A load of what was saved *)

Lemma load_stored failpoint sn i j (d d' : D) r :
  in_transaction d = false -> stored_as sn i (committed d) -> acceptable sn i ->
  j.(Identity_install_id) = i.(Identity_install_id) ->
  i.(last_issued_sender_sequence) <= j.(last_issued_sender_sequence) ->
  load_snapshot failpoint d j = (r, d') ->
  in_transaction d' = false /\ committed d' = committed d /\
  (r = success sn \/ (exists e, r = failure e) /\ ~ load_works d).
Proof.
  intros Ho Hst Hacc Hid Hle. unfold load_snapshot.
  destruct (load_transaction d j) as [rl d1] eqn:Hl.
  pose proof (load_transaction_frame _ _ _ _ Ho Hl) as [Ho1 Hc1].
  apply (load_transaction_spec sn) in Hl as [-> | [[e ->] Hn]];
    [| |done|by eapply stored_as_later|by eapply acceptable_later];
    intros [= <- <-]; (split; [done|]); (split; [done|]); [by left|right; eauto].
Qed.

Lemma load_stored_other failpoint sn i j (d d' : D) r :
  in_transaction d = false -> stored_as sn i (committed d) -> acceptable sn i ->
  j.(Identity_install_id) <> i.(Identity_install_id) ->
  load_snapshot failpoint d j = (r, d') ->
  in_transaction d' = false /\ committed d' = committed d /\ exists e, r = failure e.
Proof.
  intros Ho Hst Hacc Hid. unfold load_snapshot.
  destruct (load_transaction d j) as [rl d1] eqn:Hl.
  pose proof (load_transaction_frame _ _ _ _ Ho Hl) as [Ho1 Hc1].
  destruct (load_transaction_other sn i _ _ _ _ Ho Hst Hacc Hid Hl) as [e ->].
  intros [= <- <-]. eauto.
Qed.

(** ** A life of the database *)

(** What happens to the database: saves, loads, whichever their answers, and
    losses of power or closed connections, after which another connection sees
    what was committed. *)
Inductive store_step (d d' : D) : Prop :=
| step_save failpoint sn i e :
    snapshot_typed sn -> InstallId_wf i.(Identity_install_id) ->
    save_snapshot failpoint d sn i = (e, d') -> store_step d d'
| step_load failpoint i r :
    InstallId_wf i.(Identity_install_id) ->
    load_snapshot failpoint d i = (r, d') -> store_step d d'
| step_reconnect :
    in_transaction d' = false -> committed d' = committed d -> store_step d d'.

(** The database holds a snapshot that may follow [b], of the installation of [i]. *)
Definition keeps (b : HistorySnapshot) (i : Identity) (d : D) : Prop :=
  in_transaction d = false /\
  exists c j, j.(Identity_install_id) = i.(Identity_install_id) /\
    snapshot_follows b c /\ holds_snapshot c j (committed d).

Lemma keeps_same b i (d d' : D) :
  in_transaction d' = false -> committed d' = committed d -> keeps b i d -> keeps b i d'.
Proof. intros Ho Hc (_ & Hk). split; [done|]. by rewrite Hc. Qed.

Lemma keeps_save failpoint b i (d d' : D) sn j e :
  snapshot_typed sn -> InstallId_wf j.(Identity_install_id) ->
  save_snapshot failpoint d sn j = (e, d') -> keeps b i d -> keeps b i d'.
Proof.
  intros Ht Hj Hs Hk. pose proof Hk as (Ho & c & k & Hki & Hf & Hh).
  destruct (decide (e = HistoryError_None)) as [-> | He].
  - apply save_holds in Hs as (c' & _ & _ & Htr & Ho' & Hh'); [|done..].
    apply (transition_follows _ _ _ _ _ Hh) in Htr as [Hid Hf'].
    split; [done|]. exists c', j. split; [congruence|]. split; [by etrans|done].
  - apply save_snapshot_spec in Hs as (Ho' & Hc & _); [|done].
    eapply keeps_same; [done|by apply Hc|done].
Qed.

Lemma keeps_step b i (d d' : D) : store_step d d' -> keeps b i d -> keeps b i d'.
Proof.
  intros [fp sn j e Ht Hj Hs | fp j r Hj Hl | Ho Hc] Hk.
  - by eapply keeps_save.
  - revert Hl. unfold load_snapshot. destruct (load_transaction d j) as [rl d1] eqn:Hl.
    pose proof (load_transaction_frame _ _ _ _ (proj1 Hk) Hl) as [Ho1 Hc1].
    pose proof (keeps_same _ _ _ _ Ho1 Hc1 Hk) as Hk1.
    destruct rl as [[s pending]|error]; [|by intros [= _ <-]].
    apply load_transaction_sound in Hl as [Ht _]. destruct pending; [|by intros [= _ <-]].
    destruct (reconcile_snapshot_dedupe s) as [c|] eqn:Hr; [|by intros [= _ <-]].
    destruct (save_snapshot fp d1 c j) as [e d2] eqn:Hs. intros [= _ <-].
    eapply keeps_save; [|done|done|done]. by apply (reconcile_success s).
  - by eapply keeps_same.
Qed.

Lemma keeps_steps b i (d d' : D) : rtc store_step d d' -> keeps b i d -> keeps b i d'.
Proof. induction 1 as [|d d1 d2 Hs _ IH]; [done|]. intros Hk. apply IH. by eapply keeps_step. Qed.
End Promises.

(** ** Samples *)

Lemma save_succeeds (d : Engine) sn i :
  fst (save_snapshot false d sn i) = HistoryError_None ->
  save_snapshot false d sn i = (HistoryError_None, snd (save_snapshot false d sn i)).
Proof. destruct (save_snapshot false d sn i) as [e d']. by intros [= ->]. Qed.

Lemma sample_first_save :
  save_snapshot false sample_engine sample_snapshot sample_identity =
  (HistoryError_None, sample_saved).
Proof. apply save_succeeds. by vm_compute. Qed.

Lemma sample_install_wf : InstallId_wf sample_identity.(Identity_install_id).
Proof. split; [reflexivity|by vm_compute]. Qed.

(** ** Property theorems *)

(** C15: A save is all or nothing.  Whatever call of SQLite fails, at whichever
    statement, and whether or not the rollback is reported to work, a save that
    answers an error leaves what is committed as it was; one that answers success
    has committed exactly the rows of the reconciled snapshot, which passed every
    check and was allowed to follow the contents; no transaction stays open. *)
Theorem save_snapshot_atomic {D} `{ISqliteLaws D} failpoint (d d' : D) sn i e :
  in_transaction d = false -> save_snapshot failpoint d sn i = (e, d') ->
  in_transaction d' = false /\
  ((e <> HistoryError_None /\ committed d' = committed d) \/
   (e = HistoryError_None /\ exists candidate,
      reconcile_snapshot_dedupe sn = success candidate /\
      validate_snapshot candidate i = HistoryError_None /\
      transition (committed d) candidate i = HistoryError_None /\
      stored_as candidate i (committed d'))).
Proof.
  intros Ho Hs. apply save_snapshot_spec in Hs as (Ho' & Hno & Hok); [|done].
  split; [done|]. destruct (decide (e = HistoryError_None)) as [He|He]; [right|left; by auto].
  destruct (Hok He) as (c & Hr & Hv & Ht & _ & Hst). split; [done|]. by exists c.
Qed.

(** A connection that fails after sixty calls, in the middle of the inserts. *)
Definition failing_engine : Engine := set_budget sample_engine (Some 60%nat).

Lemma save_snapshot_atomic_witness :
  exists e d', save_snapshot false failing_engine sample_snapshot sample_identity = (e, d') /\
  e = HistoryError_WriteFailed /\ committed d' = committed failing_engine.
Proof.
  assert (fst (save_snapshot false failing_engine sample_snapshot sample_identity) =
          HistoryError_WriteFailed) as He by (vm_compute; reflexivity).
  destruct (save_snapshot false failing_engine sample_snapshot sample_identity) as [e d'] eqn:Hs.
  cbn [fst] in He. exists e, d'. split; [done|]. split; [done|].
  assert (in_transaction failing_engine = false) as Ho by reflexivity.
  destruct (save_snapshot_atomic false failing_engine d' sample_snapshot sample_identity e
    Ho Hs)
    as [_ [[_ Hc]|[Hn _]]]; [exact Hc|congruence].
Defined.

(** C16: A load returns what the last save stored.  After a save that answered
    success, any connection to the same contents - another process, or the next
    start - loads exactly the reconciled snapshot, with the posts and the order of
    the one given, for the same installation, unless something other than the
    data stops it; the identity of another installation is refused.  The load
    leaves the contents alone. *)
Theorem load_returns_saved {D} `{ISqliteLaws D} failpoint failpoint' (d d1 d2 d3 : D) sn i j r :
  in_transaction d = false -> snapshot_typed sn -> InstallId_wf i.(Identity_install_id) ->
  save_snapshot failpoint d sn i = (HistoryError_None, d1) ->
  in_transaction d2 = false -> committed d2 = committed d1 ->
  i.(last_issued_sender_sequence) <= j.(last_issued_sender_sequence) ->
  load_snapshot failpoint' d2 j = (r, d3) ->
  in_transaction d3 = false /\ committed d3 = committed d2 /\
  (j.(Identity_install_id) = i.(Identity_install_id) -> exists c,
     reconcile_snapshot_dedupe sn = success c /\
     c.(snapshot_entries) = sn.(snapshot_entries) /\
     c.(snapshot_last_assigned_order) = sn.(snapshot_last_assigned_order) /\
     (r = success c \/ (exists e, r = failure e) /\ ~ load_works d2)) /\
  (j.(Identity_install_id) <> i.(Identity_install_id) -> exists e, r = failure e).
Proof.
  intros Ho Ht Hi Hs Ho2 Hc2 Hle Hl.
  apply save_holds in Hs as (c & Hr & Hacc & _ & _ & [Hst _ _ _]); [|done..].
  rewrite <- Hc2 in Hst. destruct (reconcile_success _ _ Ht Hr) as (He & Ha & _).
  destruct (decide (j.(Identity_install_id) = i.(Identity_install_id))) as [Hj|Hj].
  - destruct (load_stored _ _ _ _ _ _ _ Ho2 Hst Hacc Hj Hle Hl) as (Ho3 & Hc3 & Hok).
    split; [done|]. split; [done|]. split; [|done]. intros _. by exists c.
  - destruct (load_stored_other _ _ _ _ _ _ _ Ho2 Hst Hacc Hj Hl) as (Ho3 & Hc3 & Hno). done.
Qed.

Lemma load_returns_saved_witness :
  exists c r d3, reconcile_snapshot_dedupe sample_snapshot = success c /\
  load_snapshot false sample_saved sample_identity = (r, d3) /\
  c.(snapshot_entries) = sample_snapshot.(snapshot_entries) /\ r = success c.
Proof.
  destruct (load_snapshot false sample_saved sample_identity) as [r d3] eqn:Hl.
  assert (has_value r = true) as Hv.
  { apply (f_equal (fun x => has_value (fst x))) in Hl. cbn [fst] in Hl. rewrite <- Hl.
    vm_compute. reflexivity. }
  assert (in_transaction sample_engine = false) as Ho by reflexivity.
  assert (in_transaction sample_saved = false) as Hsaved by (vm_compute; reflexivity).
  destruct (load_returns_saved false false sample_engine sample_saved sample_saved d3
    sample_snapshot sample_identity sample_identity r Ho
    sample_snapshot_typed sample_install_wf sample_first_save Hsaved eq_refl (Z.le_refl _) Hl)
    as (_ & _ & Hsame & _).
  destruct (Hsame eq_refl) as (c & Hr & He & _ & [Hok | [[e Hno] _]]).
  - exact (ex_intro _ c (ex_intro _ r (ex_intro _ d3 (conj Hr (conj eq_refl (conj He Hok)))))).
  - rewrite Hno in Hv. discriminate Hv.
Defined.

(** On a healthy connection the answer of a save is a function of the
    contents: a snapshot that passes [reconcile_snapshot_dedupe],
    [validate_snapshot] and the transition check is saved - no constraint of the
    schema refuses what the checks of the program accept - and every other is
    refused with the error of the first check it fails. *)
Theorem save_snapshot_verdict {D} `{ISqliteLaws D} (d : D) sn i :
  in_transaction d = false -> save_works d ->
  snapshot_typed sn -> InstallId_wf i.(Identity_install_id) ->
  fst (save_snapshot false d sn i) = save_verdict (committed d) sn i.
Proof. apply healthy_save. Qed.

(** The same posts under an order that went back. *)
Definition sample_backwards : HistorySnapshot :=
  mkHistorySnapshot [mkTimelineEntry golden_post 1 (LocalDelivery Delivery_Broadcast)] 1 [] 0.

Lemma sample_backwards_typed : snapshot_typed sample_backwards.
Proof.
  unfold snapshot_typed, is_u64, UINT64_MAX. cbn. split; [lia|]. split.
  { by repeat (apply Forall_cons_2; [cbn; lia|]). }
  split; [|split; [lia|constructor]]. by apply Forall_cons_2; [apply golden_post_wf|].
Qed.

Lemma sample_works : in_transaction sample_engine = false /\ save_works sample_engine.
Proof.
  split; [reflexivity|]. split; [by split|]. split; [|by vm_compute].
  unfold complete_schema. by repeat (apply Forall_cons_2; [by vm_compute; eauto|]).
Qed.

Lemma save_snapshot_verdict_witness :
  save_works sample_engine /\
  fst (save_snapshot false sample_engine sample_snapshot sample_identity) =
    save_verdict (committed sample_engine) sample_snapshot sample_identity /\
  save_verdict (committed sample_engine) sample_snapshot sample_identity = HistoryError_None /\
  save_verdict (committed sample_saved) sample_backwards sample_identity =
    HistoryError_InvalidSnapshot.
Proof.
  destruct sample_works as [Ho Hw]. split; [exact Hw|]. split.
  - exact (save_snapshot_verdict _ _ _ Ho Hw sample_snapshot_typed sample_install_wf).
  - split; vm_compute; reflexivity.
Defined.

(** C17: The history only grows.  Between two saves that answered success, however
    many saves and loads, losses of power and reconnections lie between them and
    whatever they answered, the installation is the same, the assigned and the
    seen order never go back, and a ledger whose last order did not move is the
    same ledger. *)
Theorem saves_never_go_back {D} `{ISqliteLaws D} failpoint failpoint' (d d1 d2 d3 : D) sn i sn' j :
  in_transaction d = false ->
  snapshot_typed sn -> InstallId_wf i.(Identity_install_id) ->
  snapshot_typed sn' -> InstallId_wf j.(Identity_install_id) ->
  save_snapshot failpoint d sn i = (HistoryError_None, d1) ->
  rtc store_step d1 d2 ->
  save_snapshot failpoint' d2 sn' j = (HistoryError_None, d3) ->
  exists b c, reconcile_snapshot_dedupe sn = success b /\
    reconcile_snapshot_dedupe sn' = success c /\
    j.(Identity_install_id) = i.(Identity_install_id) /\ snapshot_follows b c.
Proof.
  intros Ho Ht Hi Ht' Hj Hs Hsteps Hs'.
  apply save_holds in Hs as (b & Hb & _ & _ & Ho1 & Hh); [|done..].
  assert (keeps b i d1) as Hk by (split; [done|]; exists b, i; done).
  apply (keeps_steps _ _ _ _ Hsteps) in Hk as (Ho2 & c & k & Hk & Hf & Hh2).
  apply save_holds in Hs' as (c' & Hc' & _ & Htr & _); [|done..].
  apply (transition_follows _ _ _ _ _ Hh2) in Htr as [Hid Hf'].
  exists b, c'. split_and!; [done|done|congruence|by etrans].
Qed.

(** A later snapshot, and the database after a load and a save of it. *)
Definition sample_later : HistorySnapshot :=
  mkHistorySnapshot sample_snapshot.(snapshot_entries) 3
    (match reconcile_snapshot_dedupe sample_snapshot with
     | success c => c.(snapshot_seen_messages)
     | failure _ => []
     end) 2.

Lemma sample_later_typed : snapshot_typed sample_later.
Proof.
  pose proof sample_snapshot_typed as (_ & Ho & Hwf & _). unfold snapshot_typed. unfold sample_later.
  cbn [snapshot_entries snapshot_last_assigned_order snapshot_seen_messages snapshot_last_seen_order].
  split; [unfold is_u64, UINT64_MAX; lia|]. split; [done|]. split; [done|].
  split; [unfold is_u64, UINT64_MAX; lia|].
  destruct (reconcile_snapshot_dedupe sample_snapshot) as [c|] eqn:Hr; [|constructor].
  by destruct (reconcile_success _ _ sample_snapshot_typed Hr) as (_ & _ & _ & _ & _ & _ & _ & ?).
Qed.

Lemma sample_second_save :
  save_snapshot false (snd (load_snapshot false sample_saved sample_identity))
    sample_later sample_identity =
  (HistoryError_None, snd (save_snapshot false
     (snd (load_snapshot false sample_saved sample_identity)) sample_later sample_identity)).
Proof. apply save_succeeds. by vm_compute. Qed.

Lemma saves_never_go_back_witness :
  exists b c, reconcile_snapshot_dedupe sample_snapshot = success b /\
    reconcile_snapshot_dedupe sample_later = success c /\ snapshot_follows b c.
Proof.
  assert (in_transaction sample_engine = false) as Ho by reflexivity.
  destruct (load_snapshot false sample_saved sample_identity) as [r d2] eqn:Hl.
  pose proof sample_second_save as Hs. rewrite Hl in Hs. cbn [snd] in Hs.
  destruct (saves_never_go_back false false sample_engine sample_saved d2 _ sample_snapshot
    sample_identity sample_later sample_identity Ho sample_snapshot_typed sample_install_wf
    sample_later_typed sample_install_wf sample_first_save
    (rtc_once _ _ (step_load _ _ false sample_identity r sample_install_wf Hl)) Hs)
    as (b & c & Hb & Hc & _ & Hf).
  exact (ex_intro _ b (ex_intro _ c (conj Hb (conj Hc Hf)))).
Defined.
