(* ===== verification/RadioRuntime.v ===== *)
(** * RadioRuntime: the radio and the session

    src/app/radio_runtime.cpp: the single-threaded bridge between the scheduler
    of outbound posts, the queue of inbound datagrams, the durable session and
    the radio ports.  One [pump] enqueues what the timeline has queued, makes at
    most one transport offer, reads at most four datagrams and processes at most
    four, and writes every outcome into the session.  [None] is undefined
    behaviour of a part below, which [station_safe] excludes.

    The random source of the scheduler is the session's ([random_source]), so it
    is read from the world of the session. *)
From S2P Require Import Prelude Ports Utf8 Text Uuid Identity Post Timeline Limits PostCodec FrameCodec Fragmenter Reassembler InboundQueue DedupeWindow MessengerState TransmissionScheduler Json SettingsJson SettingsStore HistoryRecord PersistentSession DurableSession.

(** ** Definitions *)

Record RadioRuntimeMetrics := mkRadioRuntimeMetrics {
  metric_received_datagrams : Z;
  metric_receive_overflow : Z;
  metric_completed_posts : Z;
  metric_duplicate_posts : Z;
  metric_rejected_posts : Z;
  metric_broadcast_posts : Z;
  metric_failed_posts : Z
}.

Definition kMaximumRadioWorkPerPump : nat := 4.

Record RadioRuntime := mkRadioRuntime {
  scheduler_ : TransmissionScheduler;
  inbound_ : InboundFrameQueue;
  runtime_stopped : bool;
  valid_ : bool;
  runtime_metrics : RadioRuntimeMetrics
}.

Definition with_scheduler (rt : RadioRuntime) (s : TransmissionScheduler) : RadioRuntime :=
  mkRadioRuntime s rt.(inbound_) rt.(runtime_stopped) rt.(valid_) rt.(runtime_metrics).
Definition with_inbound (rt : RadioRuntime) (q : InboundFrameQueue) : RadioRuntime :=
  mkRadioRuntime rt.(scheduler_) q rt.(runtime_stopped) rt.(valid_) rt.(runtime_metrics).
Definition count_metric (f : RadioRuntimeMetrics -> RadioRuntimeMetrics) (rt : RadioRuntime)
  : RadioRuntime :=
  mkRadioRuntime rt.(scheduler_) rt.(inbound_) rt.(runtime_stopped) rt.(valid_)
    (f rt.(runtime_metrics)).

(** The increments of the 64-bit counters. *)
Definition count_received (m : RadioRuntimeMetrics) : RadioRuntimeMetrics :=
  let '(mkRadioRuntimeMetrics a b c d e f g) := m in
  mkRadioRuntimeMetrics (u64 (a + 1)) b c d e f g.
Definition count_overflow (m : RadioRuntimeMetrics) : RadioRuntimeMetrics :=
  let '(mkRadioRuntimeMetrics a b c d e f g) := m in
  mkRadioRuntimeMetrics a (u64 (b + 1)) c d e f g.
Definition count_completed_post (m : RadioRuntimeMetrics) : RadioRuntimeMetrics :=
  let '(mkRadioRuntimeMetrics a b c d e f g) := m in
  mkRadioRuntimeMetrics a b (u64 (c + 1)) d e f g.
Definition count_duplicate_post (m : RadioRuntimeMetrics) : RadioRuntimeMetrics :=
  let '(mkRadioRuntimeMetrics a b c d e f g) := m in
  mkRadioRuntimeMetrics a b c (u64 (d + 1)) e f g.
Definition count_rejected_post (m : RadioRuntimeMetrics) : RadioRuntimeMetrics :=
  let '(mkRadioRuntimeMetrics a b c d e f g) := m in
  mkRadioRuntimeMetrics a b c d (u64 (e + 1)) f g.
Definition count_broadcast_post (m : RadioRuntimeMetrics) : RadioRuntimeMetrics :=
  let '(mkRadioRuntimeMetrics a b c d e f g) := m in
  mkRadioRuntimeMetrics a b c d e (u64 (f + 1)) g.
Definition count_failed_post (m : RadioRuntimeMetrics) : RadioRuntimeMetrics :=
  let '(mkRadioRuntimeMetrics a b c d e f g) := m in
  mkRadioRuntimeMetrics a b c d e f (u64 (g + 1)).

Definition zero_runtime_metrics : RadioRuntimeMetrics := mkRadioRuntimeMetrics 0 0 0 0 0 0 0.

Section Runtime.
Context {T P W : Type} `{IDatagramTransport T} `{IRadioPolicy P} `{IRandomBytes W} `{IWallClock W}
  `{ISettingsStore W} `{IHistoryStore W} `{ISessionEnvironment W}.

(** The constructor: an unusable transport is closed at once. *)
Definition RadioRuntime_make (t : T) : RadioRuntime * T :=
  let mtu := maximum_datagram_size t in
  let valid := negb (closed t) && (kMinimumDatagramMtu <=? mtu)%nat &&
               (mtu <=? kMaximumDatagramBytes)%nat in
  let inbound := InboundFrameQueue_make mtu in
  if valid
  then (mkRadioRuntime TransmissionScheduler_make inbound false true zero_runtime_metrics, t)
  else (mkRadioRuntime TransmissionScheduler_make (stop inbound) true false zero_runtime_metrics,
        close t).

Definition runtime_ready (rt : RadioRuntime) (t : T) : bool :=
  rt.(valid_) && negb rt.(runtime_stopped) && connected t.

(** The loop over the entries of the timeline; it stops when it changes it. *)
Fixpoint enqueue_entries (now : Z) (mtu : nat) (todo : list TimelineEntry) (rt : RadioRuntime)
    (x : Session * W) : option (bool * RadioRuntime * (Session * W)) :=
  match todo with
  | [] => Some (false, rt, x)
  | entry :: todo =>
      if negb (is_queued entry) then enqueue_entries now mtu todo rt x
      else
        '(error, s, x) ← TransmissionScheduler.enqueue rt.(scheduler_) x entry.(entry_post) mtu now;
        let rt := with_scheduler rt s in
        match error with
        | SchedulerError_None | SchedulerError_DuplicateMessage | SchedulerError_QueueFull =>
            enqueue_entries now mtu todo rt x
        | SchedulerError_InvalidMtu | SchedulerError_InvalidPost
        | SchedulerError_RandomUnavailable =>
            let (marked, x) :=
              run_messenger
                (fun m x => command_mark_failed m x entry.(entry_post).(message_id)) x in
            if CommandResult_ok marked then Some (true, count_metric count_failed_post rt, x)
            else enqueue_entries now mtu todo rt x
        end
  end.

Definition enqueue_queued_posts (now : Z) (rt : RadioRuntime) (t : T) (x : Session * W)
  : option (bool * RadioRuntime * (Session * W)) :=
  enqueue_entries now (maximum_datagram_size t) (fst x).(messenger).(ms_timeline).(entries) rt x.

Definition pump_outbound (now : Z) (rt : RadioRuntime) (t : T) (p : P) (x : Session * W)
  : option (bool * RadioRuntime * T * P * (Session * W)) :=
  '(event, s, t, p) ← pump rt.(scheduler_) now t p;
  let rt := with_scheduler rt s in
  match event with
  | None => Some (false, rt, t, p, x)
  | Some event =>
      match event.(event_state) with
      | Outbound_Broadcast =>
          let (marked, x) :=
            run_messenger (fun m x => command_mark_broadcast m x event.(event_message_id)) x in
          if CommandResult_ok marked
          then Some (true, count_metric count_broadcast_post rt, t, p, x)
          else Some (false, rt, t, p, x)
      | Outbound_Failed =>
          let (marked, x) :=
            run_messenger (fun m x => command_mark_failed m x event.(event_message_id)) x in
          if CommandResult_ok marked
          then Some (true, count_metric count_failed_post rt, t, p, x)
          else Some (false, rt, t, p, x)
      end
  end.

(** The receiving loop of [pump_inbound]. *)
Fixpoint receive_datagrams (work : nat) (now : Z) (rt : RadioRuntime) (t : T)
  : RadioRuntime * T :=
  match work with
  | O => (rt, t)
  | S work =>
      let (received, t) := try_receive t kMaximumDatagramBytes in
      match received.(receive_status) with
      | ReceiveStatus_Received =>
          let rt := count_metric count_received rt in
          let (enqueued, q) :=
            InboundQueue.enqueue rt.(inbound_) (Some received.(received_bytes)) now in
          let rt := with_inbound rt q in
          receive_datagrams work now
            (match enqueued with
             | IngressEnqueueStatus_QueueFull => count_metric count_overflow rt
             | _ => rt
             end) t
      | _ => (rt, t)
      end
  end.

(** A completed post, offered to the session. *)
Definition deliver_post (now : Z) (rt : RadioRuntime) (x : Session * W) (post : CompletedPost)
  : bool * RadioRuntime * (Session * W) :=
  let (status, x) := accept_received_post x post.(canonical_post) in
  let rt :=
    match status with
    | Inbound_Accepted | Inbound_Duplicate =>
        with_inbound rt (mark_committed rt.(inbound_) post.(canonical_frames) now)
    | _ => rt
    end in
  match status with
  | Inbound_Accepted => (true, count_metric count_completed_post rt, x)
  | Inbound_Duplicate => (false, count_metric count_duplicate_post rt, x)
  | _ => (false, count_metric count_rejected_post rt, x)
  end.

(** The processing loop of [pump_inbound]. *)
Fixpoint process_datagrams (work : nat) (now : Z) (changed : bool) (rt : RadioRuntime)
    (x : Session * W) : option (bool * RadioRuntime * (Session * W)) :=
  match work with
  | O => Some (changed, rt, x)
  | S work =>
      '(processed, q) ← process_next rt.(inbound_) now;
      let rt := with_inbound rt q in
      match processed.(ingress_status), processed.(ingress_completed) with
      | IngressProcessStatus_Empty, _ => Some (changed, rt, x)
      | IngressProcessStatus_Complete, Some post =>
          let '(accepted, rt, x) := deliver_post now rt x post in
          process_datagrams work now (changed || accepted) rt x
      | _, _ => process_datagrams work now changed rt x
      end
  end.

Definition pump_inbound (now : Z) (rt : RadioRuntime) (t : T) (x : Session * W)
  : option (bool * RadioRuntime * T * (Session * W)) :=
  let (rt, t) := receive_datagrams kMaximumRadioWorkPerPump now rt t in
  '(changed, rt, x) ← process_datagrams kMaximumRadioWorkPerPump now false rt x;
  Some (changed, rt, t, x).

Definition runtime_pump (now : Z) (rt : RadioRuntime) (t : T) (p : P) (x : Session * W)
  : option (bool * RadioRuntime * T * P * (Session * W)) :=
  if negb rt.(valid_) || rt.(runtime_stopped) || negb (is_ready (fst x))
  then Some (false, rt, t, p, x)
  else if negb (connected t) && negb (closed t) then Some (false, rt, t, p, x)
  else
    '(changed, rt, x) ← enqueue_queued_posts now rt t x;
    '(sent, rt, t, p, x) ← pump_outbound now rt t p x;
    '(received, rt, t, x) ← pump_inbound now rt t x;
    Some (received || (sent || changed), rt, t, p, x).

Definition runtime_stop (rt : RadioRuntime) (t : T) : RadioRuntime * T :=
  if rt.(runtime_stopped) then (rt, t)
  else
    (mkRadioRuntime (cancel_all rt.(scheduler_)) (stop rt.(inbound_)) true rt.(valid_)
       rt.(runtime_metrics), close t).
End Runtime.

(** *** The whole station: the runtime, its ports and the session *)

Section System.
Context {T P W : Type} `{IDatagramTransport T} `{IRadioPolicy P} `{IRandomBytes W} `{IWallClock W}
  `{ISettingsStore W} `{IHistoryStore W} `{ISessionEnvironment W}.

Record System := mkSystem {
  sys_runtime : RadioRuntime;
  sys_transport : T;
  sys_policy : P;
  sys_session : Session * W
}.

(** The application pumps and stops the runtime and uses the session; between
    calls the ports live on. *)
Inductive SystemOp :=
| Sys_pump (now : Z)
| Sys_stop
| Sys_session (op : SessionOp)
| Sys_ports (live : T -> T) (p : P).

Definition system_step (y : System) (op : SystemOp) : option System :=
  match op with
  | Sys_pump now =>
      '(_, rt, t, p, x) ←
        runtime_pump now y.(sys_runtime) y.(sys_transport) y.(sys_policy) y.(sys_session);
      Some (mkSystem rt t p x)
  | Sys_stop =>
      let (rt, t) := runtime_stop y.(sys_runtime) y.(sys_transport) in
      Some (mkSystem rt t y.(sys_policy) y.(sys_session))
  | Sys_session op =>
      Some (mkSystem y.(sys_runtime) y.(sys_transport) y.(sys_policy) (run_op y.(sys_session) op))
  | Sys_ports live p =>
      Some (mkSystem y.(sys_runtime) (live y.(sys_transport)) p y.(sys_session))
  end.

Fixpoint system_run (y : System) (ops : list SystemOp) : option System :=
  match ops with
  | [] => Some y
  | op :: ops => y ← system_step y op; system_run y ops
  end.

(** A process: the session is started, then the runtime on its transport. *)
Definition system_start (t : T) (p : P) (w : W) : option System :=
  x ← session_start w;
  let (rt, t) := RadioRuntime_make t in Some (mkSystem rt t p x).
End System.
Arguments System : clear implicits.
Arguments SystemOp : clear implicits.

(** ** Timelines: who may become Broadcast *)

Definition shown_broadcast (m : MessageId) (t : Timeline) : Prop :=
  exists e, e ∈ t.(entries) /\ entry_id e = m /\
    e.(entry_origin) = LocalDelivery Delivery_Broadcast.

Definition timeline_of {W} (x : Session * W) : Timeline := (fst x).(messenger).(ms_timeline).

(** Nothing becomes Broadcast. *)
Definition no_news {W} (x x' : Session * W) : Prop :=
  forall m, shown_broadcast m (timeline_of x') -> shown_broadcast m (timeline_of x).

#[export] Instance no_news_preorder {W} : PreOrder (@no_news W).
Proof. split; [by intros x m|]. intros x y z Hxy Hyz m Hm. by apply Hxy, Hyz. Qed.

Lemma no_news_same {W} (x x' : Session * W) : timeline_of x' = timeline_of x -> no_news x x'.
Proof. intros E m. by rewrite E. Qed.

Lemma insert_no_news t post protected m :
  Timeline_inv t ->
  shown_broadcast m (Timeline_insert t post ReceivedOrigin protected).2 -> shown_broadcast m t.
Proof.
  intros Ht. destruct (Timeline_insert_cases t post ReceivedOrigin protected Ht)
    as [(e & err & _ & _ & ->)|[(_ & _ & _ & ->)|[(_ & _ & _ & ->)|
        [(_ & _ & _ & _ & _ & ->)|(_ & _ & _ & evicted & kept & Hroom & ->)]]]]; try done.
  cbn [snd]. intros (e & He & Hid & Ho). cbn [entries] in He.
  apply elem_of_app in He as [He|He].
  - exists e. split; [|done]. eapply elem_of_sublist; [exact He|].
    by apply (made_room_kept _ _ _ _ Ht Hroom).
  - apply list_elem_of_singleton in He as ->. done.
Qed.

Lemma insert_elem {A} (l : list A) i x y : y ∈ <[i := x]> l -> y = x \/ y ∈ l.
Proof.
  intros (j & Hj)%list_elem_of_lookup. destruct (decide (i = j)) as [->|Hne].
  - left. apply list_lookup_insert_Some in Hj as [(_ & -> & _)|[? _]]; done.
  - right. rewrite list_lookup_insert_ne in Hj by done. by eapply list_elem_of_lookup_2.
Qed.

(** Only the message itself, and only by [mark_broadcast]. *)
Lemma transition_no_news t m target m' :
  shown_broadcast m' (Timeline_transition t m target).2 ->
  shown_broadcast m' t \/ m' = m /\ target = Delivery_Broadcast.
Proof.
  destruct (Timeline_transition_cases t m target)
    as [[_ ->]|(i & e & _ & He & Hid & [[_ ->]|[[_ ->]|[(s & _ & _ & _ & ->)|
         (Ho & Ht & ->)]]])]; try by left.
  cbn [snd]. intros (e' & Hin & Hid' & Ho'). cbn [entries] in Hin.
  apply insert_elem in Hin as [->|Hin].
  - right. cbn in Ho'. injection Ho' as ->. split; [|done]. rewrite <- Hid'. done.
  - left. by exists e'.
Qed.

(** ** What the session does for the runtime *)

Section SessionFacts.
Context {W : Type} `{ISessionFrames W} `{!IRandomBytesLaws W} `{!IWallClockLaws W}.
Implicit Types (x : Session * W).

(** The timeline after a transition by a session command. *)
Lemma session_transition x m broadcast r x' :
  run_messenger (fun s y => transition s y m broadcast) x = (r, x') ->
  timeline_of x' = timeline_of x \/
  timeline_of x' = (Timeline_transition (timeline_of x) m
    (if broadcast then Delivery_Broadcast else Delivery_Failed)).2.
Proof.
  destruct x as [se w]. unfold run_messenger, transition. cbn [fst].
  destruct (ms_identity (messenger se)); [|intros [= _ <-]; by left].
  replace (if broadcast then Timeline.mark_broadcast (ms_timeline (messenger se)) m
           else Timeline.mark_failed (ms_timeline (messenger se)) m)
    with (Timeline_transition (ms_timeline (messenger se)) m
            (if broadcast then Delivery_Broadcast else Delivery_Failed)) by (by destruct broadcast).
  unfold timeline_of at 3. cbn [fst].
  destruct (Timeline_transition _ _ _) as [[] t'];
    try (intros [= _ <-]; by left).
  destruct (commit_timeline _ (se, w) t') as [[] [se1 w1]]; cbn [negb]; intros [= _ <-];
    [by right|by left].
Qed.

Lemma mark_failed_session x m r x' :
  Session_inv x -> run_messenger (fun s y => command_mark_failed s y m) x = (r, x') ->
  Session_inv x' /\ no_news x x'.
Proof.
  intros Hx Hr. split.
  - eapply run_messenger_inv; [|exact Hr]. intros s' y. by eapply transition_keeps.
  - intros m' Hm'. apply session_transition in Hr as [Hr|Hr]; rewrite Hr in Hm'; [done|].
    by apply transition_no_news in Hm' as [?|[_ ?]].
Qed.

Lemma mark_broadcast_session x m r x' :
  Session_inv x -> run_messenger (fun s y => command_mark_broadcast s y m) x = (r, x') ->
  Session_inv x' /\
  forall m', shown_broadcast m' (timeline_of x') -> shown_broadcast m' (timeline_of x) \/ m' = m.
Proof.
  intros Hx Hr. split.
  - eapply run_messenger_inv; [|exact Hr]. intros s' y. by eapply transition_keeps.
  - intros m' Hm'. apply session_transition in Hr as [Hr|Hr]; rewrite Hr in Hm'; [by left|].
    apply transition_no_news in Hm' as [?|[? _]]; auto.
Qed.

(** The timeline after the inbox has answered. *)
Lemma session_posts x encoded r x' :
  Session_inv x -> accept_received_post x encoded = (r, x') ->
  timeline_of x' = timeline_of x \/
  exists post, timeline_of x' = (Timeline_insert (timeline_of x) post ReceivedOrigin None).2.
Proof.
  intros Hx. unfold accept_received_post. split_if; [intros [= _ <-]; by left|].
  destruct (decode_post_bytes encoded) as [p|]; [|intros [= _ <-]; by left].
  split_if; [intros [= _ <-]; by left|].
  destruct (classify _ _ _); try (intros [= _ <-]; by left).
  destruct x as [se w]. unfold run_messenger, accept_received, insert_received. cbn [fst].
  destruct (ms_identity (messenger se)); [|intros [= _ <-]; by left].
  destruct (Timeline_insert _ p ReceivedOrigin None) as [ins t'] eqn:E.
  split_if; [intros [= _ <-]; by left|].
  destruct (commit_timeline _ (se, w) t') as [[] [se1 w1]]; cbn [negb]; intros [= _ <-];
    [|by left].
  right. exists p. unfold timeline_of. cbn [fst]. by rewrite E.
Qed.

Lemma accept_received_post_no_news x encoded r x' :
  Session_inv x -> accept_received_post x encoded = (r, x') -> no_news x x'.
Proof.
  intros Hx Hr. pose proof (session_posts x encoded r x' Hx Hr) as Hs.
  destruct Hs as [Hs|(post & Hs)]; [by apply no_news_same|].
  intros m Hm. rewrite Hs in Hm. eapply insert_no_news; [|exact Hm]. apply Hx.
Qed.

(** The random source leaves the session alone. *)
Lemma scheduler_enqueue_session s x post mtu now err s' x' :
  Session_inv x -> TransmissionScheduler.enqueue s x post mtu now = Some (err, s', x') ->
  Session_inv x' /\ no_news x x' /\ fst x' = fst x.
Proof.
  intros Hx. unfold TransmissionScheduler.enqueue.
  repeat (split_if; [by intros [= _ _ <-]|]).
  destruct (fragment_post post mtu) as [fr|]; [|by intros [= _ _ <-]].
  destruct (fill x _) as [bs x1] eqn:Hf. intros He.
  assert (x' = x1) as ->.
  { destruct bs as [j|]; [|by injection He]. destruct (j !! 0%nat); [|done].
    cbn [mbind option_bind] in He. by injection He. }
  destruct Hx as (Hm & Hc & Hd & Hcap & Hst).
  destruct (stored_fill _ _ _ _ _ _ Hf Hst) as [Hst' Hsame].
  assert (fst x1 = fst x) as E.
  { destruct x as [se w]. cbn in Hf. destruct (fill w _). by injection Hf as _ <-. }
  unfold Session_inv, stored_state, no_news, timeline_of. rewrite !E. by split_and!.
Qed.
End SessionFacts.

(** ** One pump

    The facts are about any property [J] of the scheduler and the transport that
    the scheduler's own operations keep. *)

Section Pump.
Context {T P W : Type} `{IDatagramTransport T} `{IRadioPolicy P} `{ISessionFrames W}
  `{!IRandomBytesLaws W} `{!IWallClockLaws W}.
Implicit Types (x : Session * W) (rt : RadioRuntime) (t : T) (p : P).

Context (J : TransmissionScheduler -> T -> Prop).
Hypothesis J_scheduler : forall s t, J s t -> Scheduler_inv s.
Hypothesis J_enqueue : forall s t x post mtu now err s' x',
  J s t -> PostPayload_wf post ->
  TransmissionScheduler.enqueue s x post mtu now = Some (err, s', x') -> J s' t.
Hypothesis J_pump : forall s t p now e s' t' p',
  J s t -> pump s now t p = Some (e, s', t', p') -> J s' t'.
Hypothesis J_receive : forall s t n r t', J s t -> try_receive t n = (r, t') -> J s t'.
Hypothesis J_cancel : forall s t, J s t -> J (cancel_all s) (close t).

Definition runtime_inv rt t : Prop := J rt.(scheduler_) t /\ InboundQueue.queue_inv rt.(inbound_).

Lemma enqueue_entries_inv now mtu t todo : forall rt x,
  runtime_inv rt t -> Session_inv x -> Forall (fun e => PostPayload_wf e.(entry_post)) todo ->
  exists changed rt' x', enqueue_entries now mtu todo rt x = Some (changed, rt', x') /\
    runtime_inv rt' t /\ Session_inv x' /\ no_news x x' /\ rt'.(inbound_) = rt.(inbound_).
Proof.
  induction todo as [|entry todo IH]; intros rt x Hrt Hx Hwf; cbn [enqueue_entries].
  { by exists false, rt, x. }
  apply Forall_cons in Hwf as [Hentry Hwf]. destruct (negb (is_queued entry)); [by apply IH|].
  destruct (enqueue_cases (scheduler_ rt) x (entry_post entry) mtu now) as (err & s' & x1 & He & _);
    [apply (J_scheduler _ _ (proj1 Hrt))|done|].
  rewrite He. cbn [mbind option_bind].
  destruct (scheduler_enqueue_session _ _ _ _ _ _ _ _ Hx He) as (Hx1 & Hn1 & _).
  assert (runtime_inv (with_scheduler rt s') t) as Hrt1.
  { split; [eapply J_enqueue; [apply Hrt|done|exact He]|apply Hrt]. }
  assert (exists changed rt' x', enqueue_entries now mtu todo (with_scheduler rt s') x1 =
      Some (changed, rt', x') /\ runtime_inv rt' t /\ Session_inv x' /\ no_news x x' /\
      rt'.(inbound_) = rt.(inbound_)) as Hnext.
  { destruct (IH _ x1 Hrt1 Hx1 Hwf) as (c & rt' & x' & Hr & ? & ? & Hn & ?).
    exists c, rt', x'. split_and!; try done. by etrans. }
  destruct (run_messenger _ x1) as [marked x2] eqn:Em.
  destruct (mark_failed_session _ _ _ _ Hx1 Em) as [Hx2 Hn2].
  assert (no_news x x2) as Hn by (by etrans).
  destruct (IH _ x2 Hrt1 Hx2 Hwf) as (c & rt' & x' & Hr & ? & ? & Hn' & ?).
  assert (no_news x x') by (by etrans).
  destruct err; try exact Hnext; destruct (CommandResult_ok marked);
    first [by exists c, rt', x'
          |by exists true, (count_metric count_failed_post (with_scheduler rt s')), x2].
Qed.

Lemma pump_outbound_inv now rt t p x :
  runtime_inv rt t -> Session_inv x ->
  exists sent rt' t' p' x', pump_outbound now rt t p x = Some (sent, rt', t', p', x') /\
    runtime_inv rt' t' /\ Session_inv x' /\ rt'.(inbound_) = rt.(inbound_) /\
    forall m, shown_broadcast m (timeline_of x') -> shown_broadcast m (timeline_of x) \/
      exists s', pump rt.(scheduler_) now t p =
        Some (Some (mkOutboundEvent m Outbound_Broadcast), s', t', p').
Proof.
  intros Hrt Hx. unfold pump_outbound.
  assert (exists e s' t' p', pump (scheduler_ rt) now t p = Some (e, s', t', p'))
    as (e & s' & t' & p' & Ep).
  { destruct (pump_progress (scheduler_ rt) now t p (J_scheduler _ _ (proj1 Hrt)))
      as [[_ ->]|(? & ? & e & s' & t' & p' & ? & _ & -> & _)]; eauto 10. }
  rewrite Ep. cbn [mbind option_bind].
  assert (runtime_inv (with_scheduler rt s') t') as Hrt1.
  { split; [eapply J_pump; [apply Hrt|exact Ep]|apply Hrt]. }
  destruct e as [[m state]|].
  2:{ exists false, (with_scheduler rt s'), t', p', x. split_and!; try done; auto; apply Hrt1. }
  cbn [event_state event_message_id]. destruct state; destruct (run_messenger _ x) as [r x1] eqn:Em.
  - destruct (mark_broadcast_session _ _ _ _ Hx Em) as [Hx1 Hn1].
    destruct (CommandResult_ok r); do 5 eexists; (split; [reflexivity|]);
      split_and!; try done; try apply Hrt1;
      (intros m' [Hm'|Hm']%Hn1; [by left|subst m'; right; by exists s']).
  - destruct (mark_failed_session _ _ _ _ Hx Em) as [Hx1 Hn1].
    destruct (CommandResult_ok r); do 5 eexists; (split; [reflexivity|]);
      split_and!; try done; try apply Hrt1; intros m' Hm'; left; by apply Hn1.
Qed.

Lemma receive_datagrams_inv work now : forall rt t rt' t',
  runtime_inv rt t -> receive_datagrams work now rt t = (rt', t') ->
  runtime_inv rt' t' /\ rt'.(scheduler_) = rt.(scheduler_).
Proof.
  induction work as [|work IH]; intros rt t rt' t' Hrt; cbn [receive_datagrams].
  { by intros [= <- <-]. }
  destruct (try_receive t _) as [received t1] eqn:Er.
  pose proof (J_receive _ _ _ _ _ (proj1 Hrt) Er) as HJ.
  destruct (receive_status received); try (intros [= <- <-]; split; [by split; [|apply Hrt]|done]).
  destruct (InboundQueue.enqueue _ _ now) as [status q] eqn:Eq.
  pose proof (enqueue_inv (inbound_ rt) (Some (received_bytes received)) now (proj2 Hrt)) as Hq.
  cbn [count_metric inbound_] in Eq. rewrite Eq in Hq. cbn [snd] in Hq.
  intros [Hrt' Hs]%IH; [|by destruct status].
  split; [done|]. rewrite Hs. by destruct status.
Qed.

Lemma deliver_post_inv now rt t x post accepted rt' x' :
  runtime_inv rt t -> Session_inv x -> deliver_post now rt x post = (accepted, rt', x') ->
  runtime_inv rt' t /\ Session_inv x' /\ no_news x x' /\ rt'.(scheduler_) = rt.(scheduler_).
Proof.
  intros Hrt Hx. unfold deliver_post.
  destruct (accept_received_post x (canonical_post post)) as [status x1] eqn:Ea.
  pose proof (accept_received_post_inv x (canonical_post post) Hx) as Hx1.
  rewrite Ea in Hx1. cbn [snd] in Hx1. pose proof (accept_received_post_no_news _ _ _ _ Hx Ea).
  pose proof (mark_committed_inv (inbound_ rt) (canonical_frames post) now (proj2 Hrt)) as Hq.
  destruct status; intros [= _ <- <-]; (split; [split; [apply Hrt|try exact Hq; apply Hrt]|done]).
Qed.

Lemma process_datagrams_inv work now t : forall changed rt x,
  runtime_inv rt t -> Session_inv x ->
  exists changed' rt' x', process_datagrams work now changed rt x = Some (changed', rt', x') /\
    runtime_inv rt' t /\ Session_inv x' /\ no_news x x'.
Proof.
  induction work as [|work IH]; intros changed rt x Hrt Hx; cbn [process_datagrams].
  { by exists changed, rt, x. }
  destruct (process_next_inv (inbound_ rt) now (proj2 Hrt)) as (res & q & -> & Hq).
  cbn [mbind option_bind].
  assert (runtime_inv (with_inbound rt q) t) as Hrt1 by by split; [apply Hrt|].
  destruct (ingress_status res); try by apply IH.
  - by exists changed, (with_inbound rt q), x.
  - destruct (ingress_completed res) as [post|]; [|by apply IH].
    destruct (deliver_post now (with_inbound rt q) x post) as [[accepted rt1] x1] eqn:Ed.
    destruct (deliver_post_inv _ _ _ _ _ _ _ _ Hrt1 Hx Ed) as (Hrt2 & Hx1 & Hn & _).
    destruct (IH (changed || accepted) rt1 x1 Hrt2 Hx1) as (c & rt' & x' & ? & ? & ? & ?).
    exists c, rt', x'. split_and!; try done. by etrans.
Qed.

Lemma runtime_pump_inv now rt t p x :
  runtime_inv rt t -> Session_inv x ->
  exists changed rt' t' p' x', runtime_pump now rt t p x = Some (changed, rt', t', p', x') /\
    runtime_inv rt' t' /\ Session_inv x' /\
    forall m, shown_broadcast m (timeline_of x') -> shown_broadcast m (timeline_of x) \/
      exists s s' t1 rt2 rt3, J s t /\
        pump s now t p = Some (Some (mkOutboundEvent m Outbound_Broadcast), s', t1, p') /\
        receive_datagrams kMaximumRadioWorkPerPump now rt2 t1 = (rt3, t').
Proof.
  intros Hrt Hx. unfold runtime_pump.
  split_if; [exists false, rt, t, p, x; split_and!; try done; by left|].
  split_if; [exists false, rt, t, p, x; split_and!; try done; by left|].
  unfold enqueue_queued_posts.
  destruct (enqueue_entries_inv now (maximum_datagram_size t) t
    (entries (ms_timeline (messenger (fst x)))) rt x Hrt Hx) as (c1 & rt1 & x1 & -> & Hrt1 & Hx1 & Hn1 & _).
  { apply Hx. }
  cbn [mbind option_bind].
  destruct (pump_outbound_inv now rt1 t p x1 Hrt1 Hx1)
    as (c2 & rt2 & t2 & p2 & x2 & -> & Hrt2 & Hx2 & _ & Hn2).
  cbn [mbind option_bind]. unfold pump_inbound.
  destruct (receive_datagrams _ now rt2 t2) as [rt3 t3] eqn:Er.
  destruct (receive_datagrams_inv _ _ _ _ _ _ Hrt2 Er) as [Hrt3 _].
  destruct (process_datagrams_inv kMaximumRadioWorkPerPump now t3 false rt3 x2 Hrt3 Hx2)
    as (c4 & rt4 & x4 & -> & Hrt4 & Hx4 & Hn4).
  cbn [mbind option_bind]. do 5 eexists. split; [reflexivity|]. split_and!; [apply Hrt4..|done|].
  intros m [Hm|(s' & Hp)]%Hn4%Hn2; [left; by apply Hn1|right].
  exists rt1.(scheduler_), s', t2, rt2, rt3. split; [apply Hrt1|]. by split.
Qed.

Lemma runtime_stop_inv rt t rt' t' :
  runtime_inv rt t -> runtime_stop rt t = (rt', t') -> runtime_inv rt' t'.
Proof.
  intros [Hs Hq]. unfold runtime_stop. split_if; intros [= <- <-]; [done|].
  split; [by apply J_cancel|by apply stop_inv].
Qed.

(** *** The whole station *)

Definition system_inv (y : System T P W) : Prop :=
  runtime_inv y.(sys_runtime) y.(sys_transport) /\ Session_inv y.(sys_session).

(** The transport that lives on keeps [J]. *)
Definition system_op_ok (op : SystemOp T P) : Prop :=
  match op with
  | Sys_session op => op_typed op
  | Sys_ports live _ => forall s t, J s t -> J s (live t)
  | _ => True
  end.

Lemma system_step_inv y op :
  system_inv y -> system_op_ok op -> exists y', system_step y op = Some y' /\ system_inv y'.
Proof.
  intros [Hrt Hx] Hop. destruct op as [now| |op|live p]; cbn [system_step].
  - destruct (runtime_pump_inv now (sys_runtime y) (sys_transport y) (sys_policy y) (sys_session y)
      Hrt Hx) as (c & rt & t & p & x & -> & ? & ? & _).
    cbn [mbind option_bind]. eexists. split; [reflexivity|]. by split.
  - destruct (runtime_stop _ _) as [rt t] eqn:E. eexists. split; [reflexivity|].
    split; [by eapply runtime_stop_inv|done].
  - eexists. split; [reflexivity|]. split; [done|]. by apply run_op_inv.
  - eexists. split; [reflexivity|]. split; [|done]. split; [by apply Hop, Hrt|apply Hrt].
Qed.

Lemma system_run_inv ops : forall y,
  system_inv y -> Forall system_op_ok ops ->
  exists y', system_run y ops = Some y' /\ system_inv y'.
Proof.
  induction ops as [|op ops IH]; intros y Hy Hops; cbn [system_run]; [by exists y|].
  apply Forall_cons in Hops as [Hop Hops].
  destruct (system_step_inv y op Hy Hop) as (y1 & -> & Hy1). cbn [mbind option_bind]. by apply IH.
Qed.

Lemma system_start_inv t p w y :
  (forall t, J TransmissionScheduler_make t) ->
  system_start t p w = Some y -> system_inv y.
Proof.
  intros HJ. unfold system_start. destruct (session_start w) as [x|] eqn:Ex; [|done].
  cbn [mbind option_bind]. apply session_start_inv in Ex.
  destruct (RadioRuntime_make t) as [rt t'] eqn:Er. intros [= <-]. split; [|done].
  unfold RadioRuntime_make in Er. split_if; injection Er as <- <-; (split; [apply HJ|]).
  - apply make_queue_inv.
  - apply stop_inv, make_queue_inv.
Qed.
End Pump.

Lemma scheduler_enqueue_inv {W} `{IRandomBytesLaws W} s (w : W) post mtu now err s' w' :
  Scheduler_inv s -> PostPayload_wf post ->
  TransmissionScheduler.enqueue s w post mtu now = Some (err, s', w') -> Scheduler_inv s'.
Proof.
  intros Hs Hwf He. destruct (enqueue_cases s w post mtu now Hs Hwf) as (e & s1 & w1 & He1 & ? & _).
  rewrite He in He1. by injection He1 as _ <- _.
Qed.

Lemma scheduler_pump_inv {T P} `{IDatagramTransport T} `{IRadioPolicy P} s (t : T) (p : P)
    now e s' t' p' :
  Scheduler_inv s -> pump s now t p = Some (e, s', t', p') -> Scheduler_inv s'.
Proof.
  intros Hs Hp. destruct (pump_progress s now t p Hs) as
    [(_ & Hp0)|(q & rest & e0 & s0 & t0 & p0 & r & _ & Hp0 & Hinv' & _)];
    rewrite Hp in Hp0; by injection Hp0 as -> -> -> ->.
Qed.

(** What an open session holds. *)
Lemma open_session_stored {W} `{ISessionFrames W} se (w : W) :
  Session_inv (se, w) -> is_open se = true ->
  exists s, se.(settings) = Some s /\ settings_now w = Some s /\
    se.(messenger).(ms_identity) = Some (identity_from s) /\
    history_now w = Some (snapshot_of se.(messenger).(ms_timeline) se.(dedupe)).
Proof.
  intros (_ & _ & _ & _ & Hst) [Hr Hc%negb_true_iff]%andb_true_iff.
  destruct (Hst Hr Hc) as (s & ? & _ & ? & ? & ? & _). by exists s.
Qed.

(** ** The logged transport *)

Section Logged.
Context {T P W : Type} `{IDatagramTransport T} `{IRadioPolicy P} `{ISessionFrames W}
  `{!IRandomBytesLaws W} `{!IWallClockLaws W}.

(** The scheduler's invariant, with the fragments already accepted in the log. *)
Definition logged_inv (s : TransmissionScheduler) (t : Logged T) : Prop :=
  Scheduler_inv s /\ front_sent s (snd t).

Lemma logged_enqueue (s : TransmissionScheduler) (t : Logged T) (x : Session * W) post mtu now err s' x' :
  logged_inv s t -> PostPayload_wf post ->
  TransmissionScheduler.enqueue s x post mtu now = Some (err, s', x') -> logged_inv s' t.
Proof.
  intros Hs Hwf He. destruct (enqueue_cases s x post mtu now (proj1 Hs) Hwf)
    as (err0 & s0 & x0 & He0 & Hinv' & Hcase).
  rewrite He in He0. injection He0 as <- <- <-. split; [done|]. destruct Hs as [_ Hsent].
  destruct err; try (destruct Hcase as [-> _]; done); [|done].
  destruct Hcase as (_ & _ & _ & q & Hq & _ & _ & _ & Hqw & _). unfold front_sent in *.
  rewrite Hq. destruct (pending s); [|done]. cbn [app]. intros _. exists (snd t).
  destruct Hqw as [_ ->]. by rewrite take_0, app_nil_r.
Qed.

Lemma logged_pump s (t : Logged T) (p : P) now e s' t' p' :
  logged_inv s t -> pump s now t p = Some (e, s', t', p') -> logged_inv s' t'.
Proof.
  intros Hs Hp. pose proof (proj1 Hs) as Hinv.
  destruct (pump_progress s now t p Hinv) as
    [(_ & Hp0)|(q & rest & e0 & s0 & t0 & p0 & r & Hq & Hp0 & Hinv' & Huse & Hprog)];
    rewrite Hp in Hp0; injection Hp0 as -> -> -> ->; [done|]. split; [done|].
  pose proof Hinv as [(_ & Hw & _) _]. rewrite Hq in Hw. cbn [List.tl] in Hw.
  eapply progress_front_sent; [done|done|apply Hs|done|done].
Qed.

Lemma logged_receive s (t : Logged T) n r t' :
  logged_inv s t -> try_receive t n = (r, t') -> logged_inv s t'.
Proof.
  intros [? Hs]. destruct t as [t log]. cbn. destruct (try_receive t n) as [r1 t1].
  intros [= _ <-]. by split.
Qed.

Lemma logged_cancel s (t : Logged T) : logged_inv s t -> logged_inv (cancel_all s) (close t).
Proof. intros [? _]. split; [by apply cancel_all_inv|done]. Qed.

Lemma logged_start (t : Logged T) : logged_inv TransmissionScheduler_make t.
Proof. split; [apply TransmissionScheduler_make_inv|done]. Qed.

Lemma receive_log work now : forall rt (t : Logged T) rt' t',
  receive_datagrams work now rt t = (rt', t') -> snd t' = snd t.
Proof.
  induction work as [|work IH]; intros rt [t log] rt' t'; cbn [receive_datagrams];
    [by intros [= _ <-]|].
  cbn [try_receive Logged_transport fst snd]. destruct (try_receive t _) as [r t1].
  destruct (receive_status r); try by intros [= _ <-].
  destruct (InboundQueue.enqueue _ _ _) as [st q]. by intros ->%IH.
Qed.
End Logged.

(** ** Who becomes Broadcast *)

(** From [t] to [t'] no queued entry is lost and none becomes Broadcast. *)
Definition quiet_timeline (t t' : Timeline) : Prop :=
  (forall e, e ∈ t.(entries) -> is_queued e = true -> e ∈ t'.(entries)) /\
  (forall e, e ∈ t'.(entries) -> e.(entry_origin) = LocalDelivery Delivery_Broadcast ->
   e ∈ t.(entries)).

Definition quiet {W} (x x' : Session * W) : Prop := quiet_timeline (timeline_of x) (timeline_of x').

#[export] Instance quiet_preorder {W} : PreOrder (@quiet W).
Proof. split; [by split|]. intros x y z [H1 H2] [H3 H4]. split; auto. Qed.

Lemma quiet_same {W} (x x' : Session * W) : timeline_of x' = timeline_of x -> quiet x x'.
Proof. unfold quiet. by intros ->. Qed.

Lemma insert_quiet t post origin protected :
  Timeline_inv t -> origin <> LocalDelivery Delivery_Broadcast ->
  quiet_timeline t (Timeline_insert t post origin protected).2.
Proof.
  intros Ht Ho. split.
  - intros e. apply (insert_history t post origin protected e Ht).
  - intros e He Hb.
    destruct (Timeline_insert_cases t post origin protected Ht)
      as [(e' & err & _ & _ & E)|[(_ & _ & _ & E)|[(_ & _ & _ & E)|
          [(_ & _ & _ & _ & _ & E)|(_ & _ & _ & evicted & kept & Hroom & E)]]]];
      rewrite E in He; cbn [snd entries] in He; try done.
    apply elem_of_app in He as [He|He].
    + eapply elem_of_sublist; [exact He|]. by apply (made_room_kept _ _ _ _ Ht Hroom).
    + apply list_elem_of_singleton in He as ->. done.
Qed.

(** A transition touches only its entry, and that only if it is queued. *)
Definition only_entry (m : MessageId) (target : LocalDeliveryState) (t t' : Timeline) : Prop :=
  (forall e, e ∈ t.(entries) -> is_queued e = true -> entry_id e <> m -> e ∈ t'.(entries)) /\
  (forall e, e ∈ t'.(entries) -> e.(entry_origin) = LocalDelivery Delivery_Broadcast ->
   e ∈ t.(entries) \/
   target = Delivery_Broadcast /\
   exists e0, e0 ∈ t.(entries) /\ is_queued e0 = true /\ entry_id e0 = m /\
     e.(entry_post) = e0.(entry_post)).

Lemma only_entry_same m target t : only_entry m target t t.
Proof. split; [done|]. intros e He _. by left. Qed.

Lemma transition_only_entry t m target : only_entry m target t (Timeline_transition t m target).2.
Proof.
  destruct (Timeline_transition_cases t m target)
    as [[_ ->]|(i & e & _ & He & Hid & [[_ ->]|[[_ ->]|[(s & _ & _ & _ & ->)|
         (Ho & Ht & ->)]]])]; try apply only_entry_same.
  cbn [snd]. split; cbn [entries].
  - intros e' (j & Hj)%list_elem_of_lookup Hq Hne.
    assert (i <> j) by (intros ->; congruence).
    eapply list_elem_of_lookup_2. by rewrite list_lookup_insert_ne.
  - intros e' [->|Hin]%insert_elem Hb; [|by left]. right. cbn in Hb. injection Hb as ->.
    split; [done|]. exists e. split; [by eapply list_elem_of_lookup_2|].
    split; [by apply bool_decide_eq_true|done].
Qed.

Lemma compose_timeline {W} `{IRandomBytes W} `{IWallClock W} `{IStateCommit W} s (w : W) d r s' w' :
  compose s w d = (r, s', w') ->
  s'.(ms_timeline) = s.(ms_timeline) \/
  exists post, s'.(ms_timeline) = (insert_local s.(ms_timeline) post Delivery_Queued).2.
Proof.
  unfold compose. destruct (ms_identity s); [|intros [= _ <- _]; by left].
  destruct (PostBody_create _); [|intros [= _ <- _]; by left].
  repeat (split_if; [intros [= _ <- _]; by left|]).
  destruct (next_sender_sequence _); [|intros [= _ <- _]; by left].
  destruct (commit_sender_sequence _ _) as [[] j]; [|intros [= _ <- _]; by left].
  cbv zeta. split_if; [intros [= _ <- _]; by left|]. unfold compose_post.
  destruct (MessageId_generate w) as [[m|] w1]; [|intros [= _ <- _]; by left].
  split_if; [intros [= _ <- _]; by left|]. destruct (now_unix_seconds w1) as [now w2].
  destruct (PostPayload_create _) as [post|]; [|intros [= _ <- _]; by left].
  destruct (insert_local (ms_timeline s) post Delivery_Queued) as [ins t'] eqn:E.
  split_if; [intros [= _ <- _]; by left|]. unfold compose_commit.
  destruct (commit_identity _ _ _) as [[] w3]; cbn [negb]; [|intros [= _ <- _]; by left].
  destruct (commit_timeline _ _ _) as [[] w4]; cbn [negb]; intros [= _ <- _]; [|by left].
  right. exists post. by rewrite E.
Qed.

Section SessionQuiet.
Context {W : Type} `{ISessionFrames W} `{!IRandomBytesLaws W} `{!IWallClockLaws W}.
Implicit Types (x : Session * W).

(** What [mark_broadcast] and [mark_failed] do; an answer that is not [ok]
    changes nothing. *)
Lemma session_only_entry x m broadcast r x' :
  run_messenger (fun s y => transition s y m broadcast) x = (r, x') ->
  only_entry m (if broadcast then Delivery_Broadcast else Delivery_Failed)
    (timeline_of x) (timeline_of x') /\
  (CommandResult_ok r = false -> timeline_of x' = timeline_of x).
Proof.
  intros Hr. split.
  - apply session_transition in Hr as [-> | ->]; [apply only_entry_same|apply transition_only_entry].
  - revert Hr. destruct x as [se w]. unfold run_messenger, transition. cbn [fst].
    destruct (ms_identity (messenger se)); [|by intros [= _ <-]].
    destruct (if broadcast then _ else _) as [[] t']; try (by intros [= _ <-]).
    destruct (commit_timeline _ (se, w) t') as [[] [se1 w1]]; cbn [negb]; intros [= <- <-]; done.
Qed.

(** The outcome of a post is reported by the radio runtime. *)
Definition leaves_outcomes (op : SessionOp) : Prop :=
  match op with Op_mark_broadcast _ | Op_mark_failed _ => False | _ => True end.

Lemma messenger_timeline {R} (command : MessengerState -> Session * W -> R * MessengerState * (Session * W)) x :
  (forall r s y, command (fst x).(messenger) x = (r, s, y) ->
   quiet_timeline (timeline_of x) s.(ms_timeline)) ->
  quiet x (run_messenger command x).2.
Proof.
  intros Hc. unfold run_messenger. destruct (command _ x) as [[r s] [se w]] eqn:E.
  exact (Hc r s (se, w) eq_refl).
Qed.

Lemma save_candidate_timeline x s : timeline_of (save_candidate x s).2 = timeline_of x.
Proof.
  destruct x as [se w]. unfold save_candidate.
  destruct (settings_save w s) as [[?|e] w']; [done|]. by destruct (store_final_replaced e).
Qed.

Lemma run_op_quiet x op :
  Session_inv x -> leaves_outcomes op -> quiet x (run_op x op).
Proof.
  intros Hx Hop. pose proof Hx as [Hm _]. pose proof (ms_inv_timeline _ Hm) as Ht.
  destruct op as [d|u|m|m|encoded|l|b| |]; try done; cbn [run_op].
  - apply messenger_timeline. intros r s y [->|(post & ->)]%compose_timeline; [by split|].
    by apply insert_quiet.
  - apply messenger_timeline. intros r s y. unfold rename_user.
    destruct (ms_identity _); [|by intros [= _ <- _]].
    destruct (UserId_create u); [|by intros [= _ <- _]].
    destruct (commit_identity _ _ _) as [[] ?]; by intros [= _ <- _].
  - destruct (accept_received_post x encoded) as [r x'] eqn:E. cbn [snd].
    destruct (session_posts x encoded r x' Hx E) as [Es|(post & Es)]; [by apply quiet_same|].
    unfold quiet. rewrite Es. by apply insert_quiet.
  - apply quiet_same. unfold PersistentSession.set_locale.
    destruct (writable_settings _); [|done]. case_bool_decide; [done|]. apply save_candidate_timeline.
  - apply quiet_same. unfold PersistentSession.set_skip_title.
    destruct (writable_settings _); [|done]. split_if; [done|]. apply save_candidate_timeline.
  - apply quiet_same. destruct x as [se w]. unfold delete_all.
    split_if; [done|]. destruct (history_discard_probe w) as [[] w1]; [|done].
    cbn [negb]. destruct (unlink_all true w1 _) as [r1 w2], (sync_directory w2 _) as [y1 w3].
    split_if; [done|]. destruct (unlink_all true _ _) as [r2 w4], (sync_directory w4 _) as [y2 w5].
    by split_if.
  - apply quiet_same. destruct x as [se w]. unfold shutdown. by split_if.
Qed.
End SessionQuiet.
(** *** What the scheduler owes the timeline *)

Section Broadcasts.
Context {T P W : Type} `{IFixedLink T} `{IRadioPolicy P} `{ISessionFrames W}
  `{!IRandomBytesLaws W} `{!IWallClockLaws W}.
Implicit Types (x : Session * W) (s : TransmissionScheduler) (t : Logged T).

(** The size of the link, and the entries the station started with. *)
Context (mtu : nat) (old : list TimelineEntry).

(** A message that has not had its event is a queued entry of the timeline, cut
    into the fragments of that entry's post. *)
Definition owes s x : Prop :=
  forall q, q ∈ s.(pending) -> q.(repeat_pass) = false ->
  q.(pending_mtu) = mtu /\
  exists e, e ∈ (timeline_of x).(entries) /\ is_queued e = true /\
    entry_id e = q.(pending_message_id) /\ fragment_post e.(entry_post) mtu = success q.(frames).

(** Somewhere in the log are the fragments of the entry's post, in order. *)
Definition sent (log : list bytes) (e : TimelineEntry) : Prop :=
  exists fs pre suf, fragment_post e.(entry_post) mtu = success fs /\ log = pre ++ fs ++ suf.

Definition shown_sent (log : list bytes) x : Prop :=
  forall e, e ∈ (timeline_of x).(entries) -> e.(entry_origin) = LocalDelivery Delivery_Broadcast ->
  e ∈ old \/ sent log e.

Record traced s t x : Prop := {
  traced_owes : maximum_datagram_size t = 0%nat \/ maximum_datagram_size t = mtu /\ owes s x;
  traced_shown : shown_sent (snd t) x
}.

Lemma sent_more log new e : sent log e -> sent (log ++ new) e.
Proof.
  intros (fs & pre & suf & Hf & ->). exists fs, pre, (suf ++ new).
  split; [done|]. by rewrite <- !app_assoc.
Qed.

Lemma owes_quiet s x x' : quiet x x' -> owes s x -> owes s x'.
Proof.
  intros [Hq _] Ho q Hin Hr. destruct (Ho q Hin Hr) as (? & e & He & Hqu & ?).
  split; [done|]. exists e. split; [by apply Hq|done].
Qed.

Lemma shown_quiet log x x' : quiet x x' -> shown_sent log x -> shown_sent log x'.
Proof. intros [_ Hb] Hs e He Ho. apply Hs; [by apply Hb|done]. Qed.

Lemma traced_quiet s t x x' : quiet x x' -> traced s t x -> traced s t x'.
Proof.
  intros Hq [[Hm|[Hm Ho]] Hs]; (split; [|by eapply shown_quiet]); [by left|right].
  split; [done|by eapply owes_quiet].
Qed.

(** Another use of the transport, with its log kept. *)
Lemma traced_link s t t' x : keeps_link t t' -> snd t' = snd t -> traced s t x -> traced s t' x.
Proof.
  intros Hl El [Hm Hs]. split; [|by rewrite El].
  destruct Hl as [-> |Hl]; [done|by left].
Qed.

(** What is owed survives the end of another message. *)
Lemma owes_except s x x' m target :
  only_entry m target (timeline_of x) (timeline_of x') -> owes s x ->
  (forall q, q ∈ s.(pending) -> q.(repeat_pass) = false -> q.(pending_message_id) <> m) ->
  owes s x'.
Proof.
  intros [Hk _] Ho Hne q Hin Hr. destruct (Ho q Hin Hr) as (? & e & He & Hq & Hid & ?).
  split; [done|]. exists e. split; [|done]. apply Hk; [done..|]. rewrite Hid. by apply Hne.
Qed.

Lemma enqueue_owes s x e err s' x' now :
  Scheduler_inv s -> PostPayload_wf e.(entry_post) -> e ∈ (timeline_of x).(entries) ->
  is_queued e = true -> timeline_of x' = timeline_of x ->
  TransmissionScheduler.enqueue s x e.(entry_post) mtu now = Some (err, s', x') ->
  owes s x ->
  owes s' x' /\
  (err = SchedulerError_InvalidMtu \/ err = SchedulerError_RandomUnavailable ->
   forall q, q ∈ s'.(pending) -> q.(repeat_pass) = false ->
   q.(pending_message_id) <> message_id e.(entry_post)) /\
  err <> SchedulerError_InvalidPost.
Proof.
  intros Hs Hwf He Hq Et Henq Ho. assert (owes s x') as Ho' by (unfold owes; by rewrite Et).
  destruct (enqueue_cases s x e.(entry_post) mtu now Hs Hwf) as (err0 & s0 & x0 & He0 & _ & Hc).
  rewrite Henq in He0. injection He0 as <- <- <-. destruct err; try done.
  - split; [|split; [by intros [?|?]|done]]. destruct Hc as (Hm & _ & _ & p & Hp & Hpend).
    rewrite <- Et in He. intros q. rewrite Hp. intros [Hin|Hin]%elem_of_app Hr; [by apply Ho'|].
    apply list_elem_of_singleton in Hin as ->. destruct Hpend as (Hid & Hmtu & Hf & _).
    split; [done|]. exists e. rewrite Hid, Hf. split_and!; try done. by apply fragment_post_success.
  - destruct Hc as [-> Hm]. split; [done|]. split; [|done]. intros _ q Hin Hr.
    destruct (Ho q Hin Hr) as [Hqm _]. destruct Hs as [(Hall & _) _].
    rewrite Forall_forall in Hall. destruct (pi_post q (Hall q Hin)) as (_ & _ & _ & Hsup & _).
    congruence.
  - destruct Hc as [-> _]. split; [done|]. split; [by intros [?|?]|done].
  - destruct Hc as [-> _]. split; [done|]. split; [by intros [?|?]|done].
  - pose proof (enqueue_unavailable _ _ _ _ _ _ _ Henq) as Hno.
    destruct Hc as [-> _]. split; [done|]. split; [|done]. intros _ q Hin _ E.
    apply Hno. rewrite <- E. apply list_elem_of_fmap. by exists q.
Qed.

(** The entries of the loop are the queued entries of the timeline. *)
Lemma enqueue_entries_traced now t todo : forall rt x c rt' x',
  Session_inv x -> runtime_inv logged_inv rt t -> traced rt.(scheduler_) t x ->
  Forall (fun e => PostPayload_wf e.(entry_post)) todo ->
  Forall (fun e => is_queued e = true -> e ∈ (timeline_of x).(entries)) todo ->
  enqueue_entries now (maximum_datagram_size t) todo rt x = Some (c, rt', x') ->
  traced rt'.(scheduler_) t x'.
Proof.
  induction todo as [|e todo IH]; intros rt x c rt' x' Hx Hrt Htr Hwf Hin; cbn [enqueue_entries].
  { by intros [= _ <- <-]. }
  apply Forall_cons in Hwf as [He Hwf]. apply Forall_cons in Hin as [Hein Hin].
  destruct (is_queued e) eqn:Eq; cbn [negb]; [specialize (Hein eq_refl)|by apply IH].
  destruct (TransmissionScheduler.enqueue _ x _ _ now) as [[[err s1] x1]|] eqn:Hen; [|done].
  cbn [mbind option_bind].
  destruct (scheduler_enqueue_session _ _ _ _ _ _ _ _ Hx Hen) as (Hx1 & _ & E1).
  assert (timeline_of x1 = timeline_of x) as Et by (unfold timeline_of; by rewrite E1).
  pose proof (logged_enqueue _ t _ _ _ _ _ _ _ (proj1 Hrt) He Hen) as Hlog.
  assert (traced s1 t x1) as Htr1.
  { destruct Htr as [Ho Hs]. split; [|unfold shown_sent; by rewrite Et].
    destruct Ho as [Ho|[Hm Ho]]; [by left|right]. split; [done|]. rewrite Hm in Hen.
    by eapply (enqueue_owes _ x e err s1 x1 now (proj1 (proj1 Hrt))). }
  assert (runtime_inv logged_inv (with_scheduler rt s1) t) as Hrt1 by (split; [done|apply Hrt]).
  assert (forall x2, timeline_of x2 = timeline_of x1 -> Session_inv x2 -> traced s1 t x2 ->
    enqueue_entries now (maximum_datagram_size t) todo (with_scheduler rt s1) x2 = Some (c, rt', x') ->
    traced rt'.(scheduler_) t x') as Hnext.
  { intros x2 Et2 Hx2 Htr2. apply IH; try done. by rewrite Et2, Et. }
  destruct err; try (by apply Hnext).
  all: destruct (run_messenger _ x1) as [marked x2] eqn:Em;
    destruct (mark_failed_session _ _ _ _ Hx1 Em) as [Hx2 _];
    destruct (session_only_entry _ _ false _ _ Em) as [Honly Hsame];
    destruct (CommandResult_ok marked);
    [|intros Hr; specialize (Hsame eq_refl);
      apply (Hnext x2 Hsame Hx2); [by apply (traced_quiet _ _ x1); [apply quiet_same|]|exact Hr]].
  all: intros [= _ <- <-]; cbn [scheduler_ count_metric with_scheduler].
  all: split;
    [|intros e' He' Hb; destruct (proj2 Honly e' He' Hb) as [Hold|[? _]]; [|done];
      by apply (traced_shown _ _ _ Htr1)].
  all: destruct (traced_owes _ _ _ Htr) as [Hm|[Hm Ho]]; [by left|right; split; [done|]];
    rewrite Hm in Hen;
    destruct (enqueue_owes _ x e _ s1 x1 now (proj1 (proj1 Hrt)) He Hein Eq Et Hen Ho)
      as (Ho1 & Hne & Hno); try done;
    (eapply owes_except; [exact Honly|exact Ho1|apply Hne]; auto).
Qed.

Lemma unique_entry tl e e' :
  Timeline_inv tl -> e ∈ tl.(entries) -> e' ∈ tl.(entries) -> entry_id e = entry_id e' -> e = e'.
Proof.
  intros Ht (i & Hi)%list_elem_of_lookup (j & Hj)%list_elem_of_lookup E.
  assert (i = j) as ->; [|congruence].
  eapply (NoDup_lookup _ i j (entry_id e) (inv_ids _ Ht)).
  - by rewrite list_lookup_fmap, Hi.
  - by rewrite list_lookup_fmap, Hj, E.
Qed.

(** The end of [pump_outbound]: the event is written to the timeline. *)
Lemma event_traced s t (p : P) x now e s' t' p' x' m broadcast r :
  Session_inv x -> logged_inv s t -> traced s t x ->
  pump s now t p = Some (e, s', t', p') ->
  e = Some (mkOutboundEvent m (if broadcast : bool then Outbound_Broadcast else Outbound_Failed)) ->
  run_messenger (fun ms y => transition ms y m broadcast) x = (r, x') ->
  traced s' t' x'.
Proof.
  intros Hx [Hs Hsent] [Ho Hshown] Hp He Hr.
  destruct (pump_account _ _ _ _ _ _ _ _ Hs Hsent Hp) as ((new & Hlog) & Hback & Hlast).
  destruct (session_only_entry _ _ _ _ _ Hr) as [Honly _].
  pose proof (ms_inv_timeline _ (proj1 Hx)) as Ht. split.
  - destruct Ho as [Hm|[Hm Ho]].
    { left. destruct (pump_link _ _ _ _ _ _ _ _ Hs Hp); congruence. }
    destruct (pump_link _ _ _ _ _ _ _ _ Hs Hp) as [Hl|Hl]; [right|by left].
    split; [congruence|]. intros q' Hin Hq'.
    destruct (Hback q' Hin Hq') as (q & Hqin & Hq & (Eid & Emtu & Ef & _) & Hne).
    destruct (Ho q Hqin Hq) as (Hqm & e0 & He0 & Hqu & Hid & Hf). split; [congruence|].
    exists e0. rewrite Eid, Ef. split; [|done]. apply (proj1 Honly); [done..|].
    rewrite Hid. intros E. by apply (Hne _ He).
  - intros e1 He1 Hb. destruct (proj2 Honly e1 He1 Hb) as [Hold|(Htg & e0 & He0 & Hqu & Hid & Epost)].
    + destruct (Hshown e1 Hold Hb) as [?|Hse]; [by left|right]. rewrite Hlog. by apply sent_more.
    + right. destruct broadcast; [|done]. destruct (Hlast m He) as (Hsup & q & pre & Hqin & Hq & Eid & El).
      destruct Ho as [Hm|[_ Ho]]; [rewrite Hm in Hsup; done|].
      destruct (Ho q Hqin Hq) as (_ & e2 & He2 & _ & Hid2 & Hf).
      assert (e2 = e0) as -> by (apply (unique_entry _ _ _ Ht He2 He0); congruence).
      exists q.(frames), pre, []. rewrite Epost, app_nil_r. done.
Qed.

Lemma pump_outbound_traced now rt t p x c rt' t' p' x' :
  Session_inv x -> runtime_inv logged_inv rt t -> traced rt.(scheduler_) t x ->
  pump_outbound now rt t p x = Some (c, rt', t', p', x') ->
  traced rt'.(scheduler_) t' x'.
Proof.
  intros Hx [Hlog _] Htr. unfold pump_outbound.
  destruct (pump (scheduler_ rt) now t p) as [[[[e s'] t1] p1]|] eqn:Ep; [|done].
  cbn [mbind option_bind]. destruct e as [[m state]|]; cbn [event_state event_message_id].
  - destruct state; destruct (run_messenger _ x) as [r x1] eqn:Em;
      destruct (CommandResult_ok r); intros [= _ <- <- _ <-];
      cbn [scheduler_ count_metric with_scheduler];
      first [by eapply (event_traced _ _ _ _ _ _ _ _ _ _ m true)
            |by eapply (event_traced _ _ _ _ _ _ _ _ _ _ m false)].
  - intros [= _ <- <- _ <-]. cbn [scheduler_ with_scheduler]. destruct Hlog as [Hs Hsent].
    destruct (pump_account _ _ _ _ _ _ _ _ Hs Hsent Ep) as ((new & Hl) & Hback & _).
    destruct Htr as [Ho Hshown]. split.
    + destruct (pump_link _ _ _ _ _ _ _ _ Hs Ep) as [El|El]; [|by left].
      destruct Ho as [Hm|[Hm Ho]]; [left; congruence|right]. split; [congruence|].
      intros q' Hin Hq'. destruct (Hback q' Hin Hq') as (q & Hqin & Hq & (Eid & Emtu & Ef & _) & _).
      destruct (Ho q Hqin Hq) as (Hqm & e0 & ?). split; [congruence|]. exists e0. by rewrite Eid, Ef.
    + intros e He Hb. rewrite Hl. destruct (Hshown e He Hb) as [?|?]; [by left|right].
      by apply sent_more.
Qed.

Lemma receive_datagrams_link work now : forall rt t rt' t',
  receive_datagrams work now rt t = (rt', t') -> keeps_link t t'.
Proof.
  induction work as [|work IH]; intros rt t rt' t'; cbn [receive_datagrams].
  { intros [= _ <-]. by left. }
  destruct (try_receive t _) as [r t1] eqn:Er. apply link_receive in Er.
  destruct (receive_status r); try by intros [= _ <-].
  destruct (InboundQueue.enqueue _ _ _) as [st q]. intros Hl%IH.
  destruct Hl as [Hl|Hl]; [|by right]. destruct Er as [Er|Er]; [left|right]; congruence.
Qed.

Lemma process_datagrams_quiet work now : forall changed rt x c rt' x',
  Session_inv x -> process_datagrams work now changed rt x = Some (c, rt', x') ->
  quiet x x' /\ rt'.(scheduler_) = rt.(scheduler_).
Proof.
  induction work as [|work IH]; intros changed rt x c rt' x' Hx; cbn [process_datagrams].
  { by intros [= _ <- <-]. }
  destruct (process_next _ now) as [[res q]|]; [|done]. cbn [mbind option_bind].
  assert (process_datagrams work now changed (with_inbound rt q) x = Some (c, rt', x') ->
    quiet x x' /\ rt'.(scheduler_) = rt.(scheduler_)) as Hnext by (intros Hr; by apply IH in Hr).
  destruct (ingress_status res); try exact Hnext; [by intros [= _ <- <-]|].
  destruct (ingress_completed res) as [post|]; [|exact Hnext].
  unfold deliver_post.
  destruct (accept_received_post x (canonical_post post)) as [st x1] eqn:Ea.
  pose proof (accept_received_post_inv x (canonical_post post) Hx) as Hx1.
  rewrite Ea in Hx1. cbn [snd] in Hx1.
  pose proof (run_op_quiet x (Op_accept_received_post (canonical_post post)) Hx I) as Hq.
  cbn [run_op] in Hq. rewrite Ea in Hq. cbn [snd] in Hq.
  destruct st; intros [Hq1 E]%IH; try done; (split; [by etrans|by rewrite E]).
Qed.

Lemma runtime_pump_traced now rt t p x c rt' t' p' x' :
  Session_inv x -> runtime_inv logged_inv rt t -> traced rt.(scheduler_) t x ->
  runtime_pump now rt t p x = Some (c, rt', t', p', x') ->
  traced rt'.(scheduler_) t' x'.
Proof.
  intros Hx Hrt Htr. unfold runtime_pump.
  split_if; [by intros [= _ <- <- _ <-]|]. split_if; [by intros [= _ <- <- _ <-]|].
  unfold enqueue_queued_posts.
  destruct (enqueue_entries_inv logged_inv (fun s t Hs => proj1 Hs) logged_enqueue now
    (maximum_datagram_size t) t (timeline_of x).(entries) rt x Hrt Hx) as (c1 & rt1 & x1 & E1 & Hrt1 & Hx1 & _).
  { apply Hx. }
  change (entries (ms_timeline (messenger (fst x)))) with (timeline_of x).(entries). rewrite E1.
  cbn [mbind option_bind].
  assert (traced rt1.(scheduler_) t x1) as Htr1.
  { eapply enqueue_entries_traced; [exact Hx|exact Hrt|exact Htr|apply Hx| |exact E1].
    apply Forall_forall. by intros e He _. }
  destruct (pump_outbound_inv logged_inv (fun s t Hs => proj1 Hs) logged_pump now rt1 t p x1 Hrt1 Hx1)
    as (c2 & rt2 & t2 & p2 & x2 & E2 & Hrt2 & Hx2 & _).
  rewrite E2. cbn [mbind option_bind]. unfold pump_inbound.
  pose proof (pump_outbound_traced _ _ _ _ _ _ _ _ _ _ Hx1 Hrt1 Htr1 E2) as Htr2.
  destruct (receive_datagrams _ now rt2 t2) as [rt3 t3] eqn:Er.
  destruct (receive_datagrams_inv logged_inv logged_receive _ _ _ _ _ _ Hrt2 Er) as [_ E3].
  pose proof (traced_link _ _ _ _ (receive_datagrams_link _ _ _ _ _ _ Er) (receive_log _ _ _ _ _ _ Er) Htr2) as Htr3.
  destruct (process_datagrams _ now false rt3 x2) as [[[c4 rt4] x4]|] eqn:E4; [|done].
  cbn [mbind option_bind]. intros [= _ <- <- _ <-].
  destruct (process_datagrams_quiet _ _ _ _ _ _ _ _ Hx2 E4) as [Hq ->]. rewrite E3.
  by eapply traced_quiet.
Qed.

(** *** Along the life of the station *)

(** Between two calls the transport that lives on keeps its log and its link, and
    the outcome of a post is reported by the runtime alone. *)
Definition ports_steady (op : SystemOp (Logged T) P) : Prop :=
  match op with
  | Sys_session op => op_typed op /\ leaves_outcomes op
  | Sys_ports live _ => forall t, snd (live t) = snd t /\ keeps_link t (live t)
  | _ => True
  end.

Lemma system_step_traced (y y' : System (Logged T) P W) op :
  system_inv logged_inv y ->
  traced y.(sys_runtime).(scheduler_) y.(sys_transport) y.(sys_session) -> ports_steady op ->
  system_step y op = Some y' ->
  traced y'.(sys_runtime).(scheduler_) y'.(sys_transport) y'.(sys_session).
Proof.
  intros [Hrt Hx] Htr Hop. destruct op as [now| |op|live p]; cbn [system_step].
  - destruct (runtime_pump now _ _ _ _) as [[[[[c rt] t] p] x]|] eqn:Ep; [|done].
    cbn [mbind option_bind]. intros [= <-]. by eapply runtime_pump_traced.
  - unfold runtime_stop. split_if; intros [= <-]; [done|].
    cbn [sys_runtime sys_transport sys_session scheduler_].
    apply (traced_link _ (sys_transport y)); [exact (link_close (T := Logged T) _)|by destruct (sys_transport y)|].
    destruct Htr as [Ho Hs]. split; [|done]. destruct Ho as [?|[? _]]; [by left|right].
    split; [done|]. intros q Hq. by apply elem_of_nil in Hq.
  - intros [= <-]. destruct Hop as [_ Hop]. eapply traced_quiet; [by apply run_op_quiet|done].
  - intros [= <-]. destruct (Hop (sys_transport y)). by eapply traced_link.
Qed.

Lemma system_run_traced ops : forall y y' : System (Logged T) P W,
  system_inv logged_inv y ->
  traced y.(sys_runtime).(scheduler_) y.(sys_transport) y.(sys_session) ->
  Forall ports_steady ops -> system_run y ops = Some y' ->
  traced y'.(sys_runtime).(scheduler_) y'.(sys_transport) y'.(sys_session).
Proof.
  induction ops as [|op ops IH]; intros y y' Hy Htr Hops; cbn [system_run]; [by intros [= <-]|].
  apply Forall_cons in Hops as [Hop Hops].
  destruct (system_step y op) as [y1|] eqn:E; [|done]. cbn [mbind option_bind].
  apply IH; [|by eapply system_step_traced|done].
  destruct (system_step_inv logged_inv (fun s t Hs => proj1 Hs) logged_enqueue logged_pump
    logged_receive logged_cancel y op Hy) as (y2 & E2 & Hy2); [|congruence].
  destruct op; cbn in *; try done; [by destruct Hop|]. intros s t [? Hs]. split; [done|].
  destruct (Hop t) as [-> _]. done.
Qed.
End Broadcasts.

Lemma system_start_traced {T P W} `{IFixedLink T} `{IRadioPolicy P} `{ISessionFrames W}
    (t : T) (p : P) (w : W) y :
  system_start (t, []) p w = Some y ->
  traced (maximum_datagram_size t) (timeline_of y.(sys_session)).(entries)
    y.(sys_runtime).(scheduler_) y.(sys_transport) y.(sys_session).
Proof.
  unfold system_start. destruct (session_start w) as [x|]; [|done]. cbn [mbind option_bind].
  assert (forall t' : Logged T, keeps_link t (fst t') ->
    traced (maximum_datagram_size t) (timeline_of x).(entries) TransmissionScheduler_make t' x) as Ht.
  { intros t' Hl. split; [|intros e He _; by left].
    destruct Hl as [Hl|Hl]; [right|by left]. split; [exact Hl|]. by intros q ?%elem_of_nil. }
  unfold RadioRuntime_make. split_if; intros [= <-]; cbn [sys_session sys_runtime sys_transport scheduler_];
    apply Ht; [by left|apply link_close].
Qed.

(** ** A post that is heard *)

Section Hearing.
Context {T P W : Type} `{IDatagramTransport T} `{ISessionFrames W}
  `{!IRandomBytesLaws W} `{!IWallClockLaws W}.

(** The datagrams the transport hands out, at most [work] of them. *)
Fixpoint hears (work : nat) (t : T) : list bytes * T :=
  match work with
  | O => ([], t)
  | S work =>
      let (received, t) := try_receive t kMaximumDatagramBytes in
      match received.(receive_status) with
      | ReceiveStatus_Received =>
          let (heard, t) := hears work t in (received.(received_bytes) :: heard, t)
      | _ => ([], t)
      end
  end.

Lemma receive_hears work now : forall rt (t : T),
  exists rt', receive_datagrams work now rt t = (rt', (hears work t).2) /\
    rt'.(inbound_) =
      (enqueue_all rt.(inbound_) (map (fun d => (d, now)) (hears work t).1)).2.
Proof.
  induction work as [|work IH]; intros rt t; cbn [receive_datagrams hears]; [by exists rt|].
  destruct (try_receive t _) as [r t1].
  destruct (receive_status r); try (exists rt; by split).
  destruct (InboundQueue.enqueue (inbound_ rt) (Some (received_bytes r)) now) as [st q] eqn:Eq.
  change (inbound_ (count_metric count_received rt)) with (inbound_ rt). rewrite Eq.
  match goal with |- context [receive_datagrams work now ?rt1 t1] =>
    destruct (IH rt1 t1) as (rt' & -> & Hq) end.
  exists rt'. destruct (hears work t1) as [heard t2]. cbn [fst snd map enqueue_all] in *.
  split; [done|]. rewrite Hq. rewrite Eq.
  replace (inbound_ (match st with IngressEnqueueStatus_QueueFull => _ | _ => _ end)) with q
    by (by destruct st).
  by destruct (enqueue_all q _).
Qed.

End Hearing.

(** Posts offered to the session, one after the other. *)
Definition offer_all {W} `{IRandomBytes W} `{IWallClock W} `{ISettingsStore W}
    `{IHistoryStore W} `{ISessionEnvironment W} (x : Session * W) (posts : list bytes) : Session * W :=
  fold_left (fun x encoded => (accept_received_post x encoded).2) posts x.

Section Listening.
Context {T W : Type} `{IDatagramTransport T} `{ISessionFrames W}
  `{!IRandomBytesLaws W} `{!IWallClockLaws W}.
Implicit Types (x : Session * W) (rt : RadioRuntime) (t : T).

Lemma offer_all_inv posts : forall x, Session_inv x -> Session_inv (offer_all x posts).
Proof.
  induction posts as [|e posts IH]; intros x Hx; [done|]. by apply IH, accept_received_post_inv.
Qed.

Lemma deliver_offers now rt x post :
  exists accepted rt', deliver_post now rt x post =
    (accepted, rt', (accept_received_post x post.(canonical_post)).2) /\
    (rt'.(inbound_) = rt.(inbound_) \/
     rt'.(inbound_) = mark_committed rt.(inbound_) post.(canonical_frames) now).
Proof.
  unfold deliver_post. destruct (accept_received_post x _) as [[] x']; do 2 eexists;
    (split; [reflexivity|]); auto.
Qed.

(** One turn of the processing loop. *)
Lemma process_turn work now changed rt x res q :
  process_next rt.(inbound_) now = Some (res, q) ->
  res.(ingress_status) <> IngressProcessStatus_Empty ->
  process_datagrams (S work) now changed rt x =
  match completes res with
  | None => process_datagrams work now changed (with_inbound rt q) x
  | Some post =>
      let '(accepted, rt, x) := deliver_post now (with_inbound rt q) x post in
      process_datagrams work now (changed || accepted) rt x
  end.
Proof.
  intros Hp Hne. cbn [process_datagrams]. rewrite Hp. cbn [mbind option_bind].
  unfold completes. by destruct (ingress_status res); [..|destruct (ingress_completed res)].
Qed.

(** Whatever is in the queue, processing returns, and offers at most one post for
    each datagram. *)
Lemma process_offers work now : forall changed rt x,
  InboundQueue.queue_inv rt.(inbound_) ->
  exists changed' rt' posts,
    process_datagrams work now changed rt x = Some (changed', rt', offer_all x posts) /\
    (length posts <= length rt.(inbound_).(queue_))%nat.
Proof.
  induction work as [|work IH]; intros changed rt x Hq.
  { exists changed, rt, []. split; [done|]. cbn. lia. }
  destruct (process_next_inv rt.(inbound_) now Hq) as (res & q & Hp & Hq').
  destruct (process_next_queue _ _ _ _ Hq Hp) as [Hqueue Hnone].
  assert (res.(ingress_status) = IngressProcessStatus_Empty \/
    res.(ingress_status) <> IngressProcessStatus_Empty) as [He|Hne]
    by (destruct (ingress_status res); (by left) || (by right)).
  { cbn [process_datagrams]. rewrite Hp. cbn [mbind option_bind]. rewrite He.
    do 2 eexists. exists []. split; [done|]. cbn. lia. }
  rewrite (process_turn _ _ _ _ _ _ _ Hp Hne). destruct (completes res) as [post|].
  - destruct (deliver_offers now (with_inbound rt q) x post) as (acc & rt1 & -> & Hin).
    assert (InboundQueue.queue_inv rt1.(inbound_) /\ rt1.(inbound_).(queue_) = q.(queue_)) as [Hq1 E1].
    { destruct Hin as [-> | ->]; [done|]. split; [by apply mark_committed_inv|].
      apply (commit_frames_same _ (expire_recent q now) post.(canonical_frames)). }
    destruct (IH (changed || acc) rt1 (accept_received_post x post.(canonical_post)).2 Hq1)
      as (c & rt' & posts & -> & Hlen).
    exists c, rt', (post.(canonical_post) :: posts). split; [done|].
    rewrite E1, Hqueue in Hlen. destruct (queue_ (inbound_ rt)); [by specialize (Hnone eq_refl)|].
    cbn in *. lia.
  - destruct (IH changed (with_inbound rt q) x Hq') as (c & rt' & posts & -> & Hlen).
    exists c, rt', posts. split; [done|]. cbn [inbound_ with_inbound] in Hlen.
    rewrite Hqueue in Hlen. destruct (queue_ (inbound_ rt)); cbn in *; lia.
Qed.

Context (p : PostPayload) (mtu : nat).
Hypothesis Hwf : PostPayload_wf p.
Hypothesis Hmtu : is_supported_mtu mtu = true.

(** After the datagrams [ds], the fragments [got] having been heard before: either
    one of them completed the post, which was then offered, after at most as
    many other posts as there were other datagrams before it, and before at most
    as many as there were datagrams after it; or the ingress is idle and gathers
    the post. *)
Definition hearing_result (deadline : Z) (ds : list bytes) (got : list nat) rt' x x' : Prop :=
  (exists ds1 d ds2 pre suf, ds = ds1 ++ d :: ds2 /\
     ~ heard_whole p mtu (heard_of p mtu ds1 ++ got) /\
     heard_whole p mtu (heard_of p mtu (ds1 ++ [d]) ++ got) /\
     (length pre + length (heard_of p mtu ds1) <= length ds1)%nat /\
     (length suf <= length ds2)%nat /\
     x' = offer_all (accept_received_post (offer_all x pre) (post_bytes p)).2 suf) \/
  (~ heard_whole p mtu (heard_of p mtu ds ++ got) /\
   attends p mtu rt'.(inbound_) /\ rt'.(inbound_).(queue_) = [] /\
   gathering p deadline (heard_of p mtu ds ++ got) rt'.(inbound_).(reassembler_)).

Lemma whole_mono got got' :
  (forall k, k ∈ got -> k ∈ got') -> heard_whole p mtu got -> heard_whole p mtu got'.
Proof. intros Hsub Hall k Hk. by apply Hsub, Hall. Qed.

(** One more datagram [d] before [ds], during which the posts [more] were offered. *)
Lemma hearing_result_cons deadline d ds got got' rt' x x' more :
  (forall k, k ∈ got' <-> k ∈ option_list (fragment_of p mtu d) ++ got) ->
  (length more + length (option_list (fragment_of p mtu d)) <= 1)%nat ->
  hearing_result deadline ds got' rt' (offer_all x more) x' ->
  hearing_result deadline (d :: ds) got rt' x x'.
Proof.
  intros Hsame Hlen [(ds1 & d' & ds2 & pre & suf & -> & Hno & Hall & Hpre & Hsuf & ->)|(Hno & Ha & Hq & Hg)].
  - left. exists (d :: ds1), d', ds2, (more ++ pre), suf. split; [done|].
    rewrite !heard_of_cons. cbn [app]. rewrite !heard_of_cons, !length_app. cbn [length].
    split_and!; try lia; try done.
    + intros Hw. apply Hno. eapply whole_mono; [|exact Hw]. intros k. specialize (Hsame k). set_solver.
    + eapply whole_mono; [|exact Hall]. intros k. specialize (Hsame k). set_solver.
    + unfold offer_all. by rewrite fold_left_app.
  - right. rewrite heard_of_cons. split_and!; try done.
    + intros Hw. apply Hno. eapply whole_mono; [|exact Hw]. intros k. specialize (Hsame k). set_solver.
    + eapply gathering_same, Hg. intros k. specialize (Hsame k). set_solver.
Qed.

Definition hearing work now deadline ds got : Prop := forall changed rt x,
  attends p mtu rt.(inbound_) ->
  rt.(inbound_).(queue_) = map (fun d => mkQueuedFrame d now) ds ->
  ~ heard_whole p mtu got -> gathering p deadline got rt.(inbound_).(reassembler_) ->
  exists changed' rt' x', process_datagrams work now changed rt x = Some (changed', rt', x') /\
    hearing_result deadline ds got rt' x x'.

(** A fragment of the post is next. *)
Lemma hear_fragment work now deadline ds got j : 
  (forall got', hearing work now deadline ds got') -> (j < fragments_of p mtu)%nat ->
  forall changed rt x,
  attends p mtu rt.(inbound_) ->
  rt.(inbound_).(queue_) = map (fun d => mkQueuedFrame d now) (frame_bytes (fragment p mtu j) :: ds) ->
  ~ heard_whole p mtu got -> tuned p mtu now deadline got rt.(inbound_).(reassembler_) ->
  exists changed' rt' x', process_datagrams (S work) now changed rt x = Some (changed', rt', x') /\
    hearing_result deadline (frame_bytes (fragment p mtu j) :: ds) got rt' x x'.
Proof.
  intros IH Hj changed rt x Hat Hqueue Hopen Htuned. cbn [map] in Hqueue.
  destruct (attend_fragment p mtu Hwf Hmtu now deadline got _ j _ Hat Hqueue Hj Hopen Htuned)
    as (res & q & Hp & Hat' & Hq' & Hne & Hcase).
  rewrite (process_turn _ _ _ _ _ _ _ Hp Hne).
  pose proof (fragment_of_fragment p mtu Hwf Hmtu j Hj) as Ef.
  destruct Hcase as [(Ho & -> & Hg)|(Hall & ->)].
  - destruct (IH (j :: got) changed (with_inbound rt q) x Hat' Hq' Ho Hg) as (c & rt' & x' & -> & Hr).
    do 3 eexists. split; [done|].
    eapply (hearing_result_cons _ _ _ _ _ _ x _ []); [|by rewrite Ef|exact Hr].
    intros k. rewrite Ef. cbn [option_list]. set_solver.
  - destruct (deliver_offers now (with_inbound rt q) x
      (mkCompletedPost p (post_bytes p) (canonical_frames_of p mtu))) as (acc & rt1 & -> & Hin).
    assert (InboundQueue.queue_inv rt1.(inbound_) /\ rt1.(inbound_).(queue_) = q.(queue_)) as [Hq1 E1].
    { destruct Hin as [-> | ->]; [split; [apply Hat'|done]|]. split; [apply mark_committed_inv, Hat'|].
      apply (commit_frames_same _ (expire_recent q now) (canonical_frames_of p mtu)). }
    destruct (process_offers work now (changed || acc) rt1 (accept_received_post x (post_bytes p)).2 Hq1)
      as (c & rt' & suf & E & Hsuf).
    cbn [canonical_post]. rewrite E. do 3 eexists. split; [done|].
    left. exists [], (frame_bytes (fragment p mtu j)), ds, [], suf. split; [done|].
    split; [done|]. cbn [app]. rewrite heard_of_cons, Ef. cbn [option_list app].
    split; [exact Hall|]. split; [done|]. split; [|done].
    rewrite E1, Hq', length_map in Hsuf. exact Hsuf.
Qed.

Lemma hear_more now deadline ds : forall work got,
  Forall (genuine p mtu) ds -> (length ds <= work)%nat -> now < deadline ->
  hearing work now deadline ds got.
Proof.
  induction ds as [|d ds IH]; intros work got Hgen Hlen Hnow changed rt x Hat Hqueue Hopen Hg.
  { exists changed.
    assert (exists rt', process_datagrams work now changed rt x = Some (changed, rt', x) /\
      attends p mtu rt'.(inbound_) /\ rt'.(inbound_).(queue_) = [] /\
      gathering p deadline got rt'.(inbound_).(reassembler_)) as (rt' & -> & ? & ? & ?).
    { destruct work as [|work]; cbn [process_datagrams]; [by exists rt|].
      destruct (attend_idle p mtu now deadline got _ Hat Hqueue Hnow Hg)
        as (q & -> & ? & ? & ?). cbn. by exists (with_inbound rt q). }
    exists rt', x. split; [done|]. right. by split_and!. }
  apply Forall_cons in Hgen as [Hd Hgen]. cbn [length] in Hlen. destruct work as [|work]; [lia|].
  destruct (fragment_of p mtu d) as [j|] eqn:Ef.
  - destruct (fragment_of_Some p mtu Hwf Hmtu d j Hd Ef) as [Hj ->].
    apply (hear_fragment work now deadline ds got j); try done.
    + intros got'. apply IH; [done|lia|done].
    + apply gathering_tuned; [done..|apply (at_inv _ _ _ Hat)| |done|done].
      rewrite (qi_mtu _ (at_inv _ _ _ Hat)). apply Hat.
  - cbn [map] in Hqueue.
    destruct (attend_other p mtu Hwf Hmtu now deadline got _ d _ Hat Hqueue Ef Hnow Hg)
      as (res & q & Hp & Hat' & Hq' & Hne & Hg' & Hc).
    rewrite (process_turn _ _ _ _ _ _ _ Hp Hne).
    destruct (completes res) as [post|].
    + destruct (deliver_offers now (with_inbound rt q) x post) as (acc & rt1 & -> & Hin).
      assert (attends p mtu rt1.(inbound_) /\ rt1.(inbound_).(queue_) = q.(queue_) /\
        rt1.(inbound_).(reassembler_) = q.(reassembler_)) as (Hat1 & Hq1 & Hr1).
      { destruct Hin as [-> | ->]; [done|]. by apply attends_commit, (Hc post). }
      destruct (IH work got Hgen ltac:(lia) Hnow (changed || acc) rt1
        (accept_received_post x post.(canonical_post)).2) as (c & rt' & x' & -> & Hr); try done.
      * by rewrite Hq1, Hq'.
      * by rewrite Hr1.
      * do 3 eexists. split; [done|].
        eapply (hearing_result_cons _ _ _ _ _ _ x _ [post.(canonical_post)]); [|by rewrite Ef|exact Hr].
        intros k. by rewrite Ef.
    + destruct (IH work got Hgen ltac:(lia) Hnow changed (with_inbound rt q) x Hat' Hq' Hopen Hg')
        as (c & rt' & x' & -> & Hr).
      do 3 eexists. split; [done|].
      eapply (hearing_result_cons _ _ _ _ _ _ x _ []); [|rewrite Ef; cbn; lia|exact Hr].
      intros k. by rewrite Ef.
Qed.

(** *** Calls of [pump_inbound] *)

(** A call: its tick, and the rest of the station at that time. *)
Record Call := mkCall {
  call_now : Z;
  call_runtime : RadioRuntime;
  call_transport : T;
  call_session : Session * W
}.

Definition call_hears (c : Call) : list bytes := (hears kMaximumRadioWorkPerPump c.(call_transport)).1.

(** The ingress queue is what one call leaves to the next. *)
Definition listen_once (q : InboundFrameQueue) (c : Call)
  : option (bool * RadioRuntime * T * (Session * W)) :=
  pump_inbound c.(call_now) (with_inbound c.(call_runtime) q) c.(call_transport) c.(call_session).

Fixpoint listen (q : InboundFrameQueue) (calls : list Call) : option InboundFrameQueue :=
  match calls with
  | [] => Some q
  | c :: calls => '(_, rt, _, _) ← listen_once q c; listen rt.(inbound_) calls
  end.

Lemma hears_length work : forall t, (length (hears work t).1 <= work)%nat.
Proof.
  induction work as [|work IH]; intros t; cbn [hears]; [done|].
  destruct (try_receive t _) as [r t1]. destruct (receive_status r); try (cbn; lia).
  specialize (IH t1). destruct (hears work t1). cbn in *. lia.
Qed.

(** The call after its receiving loop. *)
Lemma listen_once_queued q c :
  attends p mtu q -> q.(queue_) = [] -> Forall (genuine p mtu) (call_hears c) ->
  exists rt, attends p mtu rt.(inbound_) /\ rt.(inbound_).(reassembler_) = q.(reassembler_) /\
    rt.(inbound_).(queue_) =
      map (fun d => mkQueuedFrame d c.(call_now)) (List.filter (sized mtu) (call_hears c)) /\
    forall changed rt' x',
      process_datagrams kMaximumRadioWorkPerPump c.(call_now) false rt c.(call_session) =
        Some (changed, rt', x') ->
      listen_once q c = Some (changed, rt', (hears kMaximumRadioWorkPerPump c.(call_transport)).2, x').
Proof.
  intros Hat Hqueue Hgen. unfold listen_once, pump_inbound.
  destruct (receive_hears kMaximumRadioWorkPerPump c.(call_now) (with_inbound c.(call_runtime) q)
    c.(call_transport)) as (rt & -> & Hrt). cbn [inbound_ with_inbound] in Hrt.
  destruct (attend_enqueue p mtu Hmtu (call_hears c) c.(call_now) q Hat) as (Ha & Hr & Hq); [|done|].
  { rewrite Hqueue. cbn. pose proof (hears_length kMaximumRadioWorkPerPump c.(call_transport)).
    unfold call_hears, kMaximumRadioWorkPerPump in *. lia. }
  exists rt. rewrite Hrt. rewrite Hqueue in Hq. split_and!; try done.
  intros changed rt' x' E. by rewrite E.
Qed.

Lemma filter_work c :
  (length (List.filter (sized mtu) (call_hears c)) <= kMaximumRadioWorkPerPump)%nat.
Proof.
  pose proof (hears_length kMaximumRadioWorkPerPump c.(call_transport)).
  pose proof (sublist_length _ _ (filter_sublist (sized mtu) (call_hears c))).
  unfold call_hears in *. lia.
Qed.

(** The datagrams of the wrong size do not matter. *)
Lemma hearing_result_sized deadline ds got rt' x x' :
  Forall (genuine p mtu) ds ->
  hearing_result deadline (List.filter (sized mtu) ds) got rt' x x' ->
  hearing_result deadline ds got rt' x x'.
Proof.
  intros Hgen [(ds1 & d & ds2 & pre & suf & E & Hno & Hall & Hpre & Hsuf & ->)|Hopen].
  - apply filter_split in E as (es1 & es2 & -> & <- & <-). left.
    apply Forall_app in Hgen as [Hgen1 _].
    exists es1, d, es2, pre, suf. rewrite heard_of_sized in Hno, Hpre by done.
    rewrite heard_of_app in Hall |- *. rewrite heard_of_sized in Hall by done.
    pose proof (sublist_length _ _ (filter_sublist (sized mtu) es1)).
    pose proof (sublist_length _ _ (filter_sublist (sized mtu) es2)).
    split_and!; try done; lia.
  - right. by rewrite heard_of_sized in Hopen.
Qed.

(** What a call leaves behind. *)
Definition call_result deadline c got q : Prop :=
  exists changed rt' x',
    listen_once q c = Some (changed, rt', (hears kMaximumRadioWorkPerPump c.(call_transport)).2, x') /\
    hearing_result deadline (call_hears c) got rt' c.(call_session) x'.

Lemma listen_more deadline got q c :
  attends p mtu q -> q.(queue_) = [] -> Forall (genuine p mtu) (call_hears c) ->
  c.(call_now) < deadline -> ~ heard_whole p mtu got ->
  gathering p deadline got q.(reassembler_) -> call_result deadline c got q.
Proof.
  intros Hat Hqueue Hgen Hnow Hopen Hg.
  destruct (listen_once_queued q c Hat Hqueue Hgen) as (rt & Ha & Hr & Hq & Hl).
  destruct (hear_more c.(call_now) deadline (List.filter (sized mtu) (call_hears c))
    kMaximumRadioWorkPerPump got) with (changed := false) (rt := rt) (x := c.(call_session))
    as (changed & rt' & x' & E & Hres); try done.
  - eapply Forall_sublist; [apply filter_sublist|done].
  - apply filter_work.
  - by rewrite Hr.
  - exists changed, rt', x'. split; [by apply Hl|]. by apply hearing_result_sized.
Qed.

Lemma listen_first q c j rest :
  attends p mtu q -> q.(queue_) = [] -> Forall (genuine p mtu) (call_hears c) ->
  c.(call_now) < saturating_deadline c.(call_now) kReassemblyTimeoutTicks ->
  ready_for p (refresh q.(reassembler_) c.(call_now)) ->
  (j < fragments_of p mtu)%nat -> call_hears c = frame_bytes (fragment p mtu j) :: rest ->
  call_result (saturating_deadline c.(call_now) kReassemblyTimeoutTicks) c [] q.
Proof.
  intros Hat Hqueue Hgen Hnow Hready Hj Ehears.
  destruct (listen_once_queued q c Hat Hqueue Hgen) as (rt & Ha & Hr & Hq & Hl).
  assert (List.filter (sized mtu) (call_hears c) =
    frame_bytes (fragment p mtu j) :: List.filter (sized mtu) rest) as Ef.
  { rewrite Ehears. cbn [List.filter]. destruct (fragment_fits p mtu Hwf Hmtu j Hj) as [Hmin Hmax]. unfold sized at 1.
    by rewrite (proj2 (Nat.leb_le _ _) Hmin), (proj2 (Nat.leb_le _ _) Hmax). }
  pose proof (filter_work c) as Hwork. rewrite Ef in Hq, Hwork. cbn [length] in Hwork.
  assert (Forall (genuine p mtu) rest) as Hrest.
  { rewrite Ehears in Hgen. by apply Forall_cons in Hgen as [_ ?]. }
  change kMaximumRadioWorkPerPump with 4%nat in Hl, Hwork.
  destruct (hear_fragment 3 c.(call_now) (saturating_deadline c.(call_now) kReassemblyTimeoutTicks)
    (List.filter (sized mtu) rest) [] j) with (changed := false) (rt := rt) (x := c.(call_session))
    as (changed & rt' & x' & E & Hres); try done.
  - intros got'. apply hear_more; [|lia|done].
    eapply Forall_sublist; [apply filter_sublist|done].
  - intros Hall. specialize (Hall j Hj). by apply elem_of_nil in Hall.
  - apply ready_tuned; [done..|apply (at_inv _ _ _ Ha)| |by rewrite Hr].
    rewrite (qi_mtu _ (at_inv _ _ _ Ha)). apply Ha.
  - exists changed, rt', x'. split; [by apply Hl|]. rewrite <- Ef in Hres.
    by apply hearing_result_sized.
Qed.

(** A call that does not complete the post. *)
Lemma call_open deadline c got q :
  call_result deadline c got q -> ~ heard_whole p mtu (heard_of p mtu (call_hears c) ++ got) ->
  exists changed rt' t' x', listen_once q c = Some (changed, rt', t', x') /\
    attends p mtu rt'.(inbound_) /\ rt'.(inbound_).(queue_) = [] /\
    gathering p deadline (heard_of p mtu (call_hears c) ++ got) rt'.(inbound_).(reassembler_).
Proof.
  intros (changed & rt' & x' & E & [(ds1 & d & ds2 & pre & suf & Eds & _ & Hall & _)|(_ & ?)]) Hopen;
    [|do 4 eexists; by split].
  exfalso. apply Hopen. eapply whole_mono; [|exact Hall]. intros k. rewrite Eds, !heard_of_app.
  rewrite heard_of_cons. unfold heard_of at 2. cbn. destruct (fragment_of p mtu d); set_solver.
Qed.

Lemma listen_calls deadline calls : forall got q,
  attends p mtu q -> q.(queue_) = [] -> Forall (genuine p mtu) (flat_map call_hears calls) ->
  Forall (fun c => c.(call_now) < deadline) calls ->
  ~ heard_whole p mtu (heard_of p mtu (flat_map call_hears calls) ++ got) ->
  gathering p deadline got q.(reassembler_) ->
  exists q', listen q calls = Some q' /\ attends p mtu q' /\ q'.(queue_) = [] /\
    gathering p deadline (heard_of p mtu (flat_map call_hears calls) ++ got) q'.(reassembler_).
Proof.
  induction calls as [|c calls IH]; intros got q Hat Hqueue Hgen Hnow Hopen Hg; [by exists q|].
  cbn [flat_map listen] in *. apply Forall_app in Hgen as [Hgc Hgen].
  apply Forall_cons in Hnow as [Hc Hnow]. rewrite heard_of_app in Hopen |- *.
  assert (forall k, k ∈ heard_of p mtu (flat_map call_hears calls) ++ heard_of p mtu (call_hears c) ++ got
    <-> k ∈ (heard_of p mtu (call_hears c) ++ heard_of p mtu (flat_map call_hears calls)) ++ got) as Hsame
    by set_solver.
  assert (forall got', (forall k, k ∈ got' -> k ∈ (heard_of p mtu (call_hears c) ++
    heard_of p mtu (flat_map call_hears calls)) ++ got) -> ~ heard_whole p mtu got') as Hno.
  { intros got' Hsub Hall. apply Hopen. intros k Hk. by apply Hsub, Hall. }
  destruct (call_open deadline c got q) as (ch & rt & t & x & -> & Ha & Hq & Hg').
  { apply listen_more; [done..|apply Hno; set_solver|done]. }
  { apply Hno. set_solver. }
  cbn [mbind option_bind].
  destruct (IH (heard_of p mtu (call_hears c) ++ got) rt.(inbound_) Ha Hq Hgen Hnow)
    as (q' & -> & ? & ? & Hg2); [apply Hno; set_solver|done|].
  exists q'. split_and!; try done. by eapply gathering_same.
Qed.
End Listening.
Arguments Call : clear implicits.

(** ** The three compositions *)

Definition station_op_typed {T P} (op : SystemOp T P) : Prop :=
  match op with Sys_session op => op_typed op | _ => True end.

Lemma post_bytes_canonical post :
  PostPayload_wf post -> canonical_post_of (post_bytes post) post.
Proof.
  intros Hwf. split; [|by apply encode_post_layout].
  unfold decode_post_bytes. by apply decode_post_layout.
Qed.

(** The datagrams of a post are those the fragmenter makes. *)
Lemma frames_genuine p mtu frames d :
  PostPayload_wf p -> is_supported_mtu mtu = true -> fragment_post p mtu = success frames ->
  (forall f, decode_frame (Some d) mtu = success f -> frame_key f = post_key p -> d ∈ frames) ->
  genuine p mtu d.
Proof.
  intros Hwf Hm Hfr Hd f Hdec Hk. specialize (Hd f Hdec Hk).
  rewrite fragment_post_success in Hfr by done. injection Hfr as <-.
  apply list_elem_of_fmap in Hd as (j & -> & Hj%elem_of_seq).
  assert (j < fragments_of p mtu)%nat as Hlt by lia. exists j. split; [done|].
  rewrite (decode_fragment p mtu j Hwf Hm Hlt) in Hdec. congruence.
Qed.

Lemma heard_whole_frames p mtu frames ds :
  PostPayload_wf p -> is_supported_mtu mtu = true -> fragment_post p mtu = success frames ->
  Forall (genuine p mtu) ds ->
  heard_whole p mtu (heard_of p mtu ds) <-> (forall d, d ∈ frames -> d ∈ ds).
Proof.
  intros Hwf Hm Hfr Hgen. rewrite fragment_post_success in Hfr by done. injection Hfr as <-.
  split.
  - intros Hall d (k & -> & Hk%elem_of_seq)%list_elem_of_fmap.
    assert (k ∈ heard_of p mtu ds) as (d & Hd & Hf)%list_elem_of_omap by (apply Hall; lia).
    rewrite Forall_forall in Hgen.
    by destruct (fragment_of_Some p mtu Hwf Hm d k (Hgen d Hd) Hf) as [_ <-].
  - intros Hin k Hk. apply list_elem_of_omap. exists (frame_bytes (fragment p mtu k)).
    split; [|by apply fragment_of_fragment]. apply Hin, list_elem_of_fmap. exists k.
    split; [done|]. apply elem_of_seq. lia.
Qed.

(** What the inbox can answer to the bytes of a well-formed post. *)
Lemma canonical_outcome {W} `{ISessionFrames W} `{!IRandomBytesLaws W} `{!IWallClockLaws W}
    (x : Session * W) post status x' :
  PostPayload_wf post -> inbox_outcome x (post_bytes post) status x' ->
  status <> Inbound_Invalid /\ (is_open (fst x) = true -> status <> Inbound_NotReady) /\
  (status = Inbound_Accepted -> post_committed x (post_bytes post) post x').
Proof.
  intros Hwf. pose proof (post_bytes_canonical post Hwf) as Hcan.
  unfold inbox_outcome. destruct status; try done.
  - intros (q & [[Hq _] _] & Hcom & _). split_and!; try done. intros _.
    destruct Hcan as [Hp _]. by assert (q = post) as -> by congruence.
  - intros [_ Hno]. by destruct (Hno post).
  - intros [_ Hno]. split_and!; try done. congruence.
Qed.

(** Datagrams that are not of the post. *)
Definition others (frames ds : list bytes) : list bytes :=
  List.filter (fun d => negb (bool_decide (d ∈ frames))) ds.

Lemma others_count p mtu frames ds :
  PostPayload_wf p -> is_supported_mtu mtu = true -> fragment_post p mtu = success frames ->
  Forall (genuine p mtu) ds ->
  (length (heard_of p mtu ds) + length (others frames ds) = length ds)%nat.
Proof.
  intros Hwf Hm Hfr. rewrite fragment_post_success in Hfr by done. injection Hfr as <-.
  induction 1 as [|d ds Hd _ IH]; [done|]. rewrite heard_of_cons. unfold others in *. cbn [List.filter].
  assert (fragment_of p mtu d = None <-> d ∉ canonical_frames_of p mtu) as Hof.
  { split.
    - intros Hn (k & -> & Hk%elem_of_seq)%list_elem_of_fmap.
      by rewrite (fragment_of_fragment p mtu Hwf Hm k ltac:(lia)) in Hn.
    - intros Hno. destruct (fragment_of p mtu d) as [k|] eqn:Ef; [|done]. exfalso. apply Hno.
      destruct (fragment_of_Some p mtu Hwf Hm d k Hd Ef) as [Hk ->].
      apply list_elem_of_fmap. exists k. split; [done|]. apply elem_of_seq. lia. }
  case_bool_decide as Hin; cbn [negb]; destruct (fragment_of p mtu d) as [k|];
    unfold option_list; cbn [option_rect app length]; try lia.
  - by destruct (proj1 Hof eq_refl Hin).
  - by specialize (proj2 Hof Hin).
Qed.

(** Calls that hear a post: all but the last leave it open, the last offers it. *)
Lemma listen_offers {T W} `{IDatagramTransport T} `{ISessionFrames W} `{!IRandomBytesLaws W}
    `{!IWallClockLaws W} p mtu q0 (before : list (Call T W)) (last : Call T W) :
  let first := hd last before in
  let deadline := saturating_deadline first.(call_now) kReassemblyTimeoutTicks in
  PostPayload_wf p -> is_supported_mtu mtu = true -> attends p mtu q0 -> q0.(queue_) = [] ->
  ready_for p (refresh q0.(reassembler_) first.(call_now)) ->
  Forall (fun c => c.(call_now) < deadline) (before ++ [last]) ->
  Forall (genuine p mtu) (flat_map call_hears (before ++ [last])) ->
  (exists j rest, (j < fragments_of p mtu)%nat /\
     call_hears first = frame_bytes (fragment p mtu j) :: rest) ->
  ~ heard_whole p mtu (heard_of p mtu (flat_map call_hears before)) ->
  heard_whole p mtu (heard_of p mtu (flat_map call_hears (before ++ [last]))) ->
  exists q changed rt' ds1 d ds2 pre suf, listen q0 before = Some q /\
    call_hears last = ds1 ++ d :: ds2 /\
    ~ heard_whole p mtu (heard_of p mtu (flat_map call_hears before ++ ds1)) /\
    heard_whole p mtu (heard_of p mtu (flat_map call_hears before ++ ds1 ++ [d])) /\
    (length pre + length (heard_of p mtu ds1) <= length ds1)%nat /\
    (length suf <= length ds2)%nat /\
    listen_once q last =
      Some (changed, rt', (hears kMaximumRadioWorkPerPump last.(call_transport)).2,
        offer_all (accept_received_post (offer_all last.(call_session) pre) (post_bytes p)).2 suf).
Proof.
  intros first deadline Hwf Hm Hat Hqueue Hready Hnow Hgen (j & rest & Hj & Hfirst) Hopen Hall.
  rewrite flat_map_app in Hgen, Hall. cbn [flat_map] in Hgen, Hall. rewrite app_nil_r in Hgen, Hall.
  rewrite heard_of_app in Hall. apply Forall_app in Hgen as [Hgen Hglast].
  apply Forall_app in Hnow as [Hnow [Hlast _]%Forall_cons].
  assert (exists q got, listen q0 before = Some q /\ call_result p mtu deadline last got q /\
    (forall k, k ∈ got <-> k ∈ heard_of p mtu (flat_map call_hears before)))
    as (q & got & Hl & (ch & rt' & x' & E & Hres) & Hgot).
  { destruct before as [|c before]; cbn [hd] in first; subst first.
    { exists q0, []. split; [done|]. split; [by eapply listen_first|done]. }
    cbn [flat_map] in *. apply Forall_app in Hgen as [Hgc Hgen].
    rewrite heard_of_app in Hopen, Hall |- *. apply Forall_cons in Hnow as [Hc Hnow].
    assert (forall got', (forall k, k ∈ got' -> k ∈ heard_of p mtu (call_hears c) ++
      heard_of p mtu (flat_map call_hears before)) -> ~ heard_whole p mtu got') as Hno.
    { intros got' Hsub Hw. apply Hopen. by eapply whole_mono. }
    destruct (call_open p mtu Hwf Hm deadline c [] q0) as (ch & rt & t & x & E & Ha & Hq & Hg).
    { by eapply listen_first. }
    { apply Hno. set_solver. }
    destruct (listen_calls p mtu Hwf Hm deadline before (heard_of p mtu (call_hears c) ++ [])
      rt.(inbound_) Ha Hq Hgen Hnow) as (q & El & Ha' & Hq' & Hg'); [apply Hno; set_solver|done|].
    exists q, (heard_of p mtu (flat_map call_hears before) ++ heard_of p mtu (call_hears c) ++ []).
    split; [cbn [listen]; rewrite E; exact El|]. split; [|set_solver].
    apply listen_more; try done. apply Hno. set_solver. }
  destruct Hres as [(ds1 & d & ds2 & pre & suf & Eds & Hno & Hw & Hpre & Hsuf & ->)|(Hno & _)].
  - exists q, ch, rt', ds1, d, ds2, pre, suf. rewrite !heard_of_app in *. split_and!; try done.
    + intros Hw'. apply Hno. eapply whole_mono; [|exact Hw']. intros k. specialize (Hgot k). set_solver.
    + eapply whole_mono; [|exact Hw]. intros k. specialize (Hgot k). set_solver.
  - exfalso. apply Hno. eapply whole_mono; [|exact Hall]. intros k. specialize (Hgot k). set_solver.
Qed.

(** ** A station of the small machine *)

(** A transport that hands out the datagrams it holds and accepts every offer. *)
#[export] Instance mailbox_transport : IDatagramTransport (list bytes) := {
  maximum_datagram_size _ := 64%nat;
  try_send l _ := (SendStatus_Accepted, l);
  try_receive l _ :=
    match l with
    | [] => (mkDatagramReceiveResult ReceiveStatus_WouldBlock [], [])
    | d :: l => (mkDatagramReceiveResult ReceiveStatus_Received d, l)
    end;
  connected _ := true;
  closed _ := false;
  close l := []
}.

#[export] Instance mailbox_link : IFixedLink (list bytes).
Proof. split; by left. Qed.

Definition empty_log : Logged (list bytes) := ([], []).

Definition sample_station_ops : list (SystemOp (Logged (list bytes)) unit) :=
  [Sys_session (Op_compose hello_draft); Sys_pump 0; Sys_pump 300].

(** A station after some operations. *)
Definition station_after (start : option (System (Logged (list bytes)) unit Machine))
    (ops : list (SystemOp (Logged (list bytes)) unit))
  : option (System (Logged (list bytes)) unit Machine) :=
  y ← start; system_run y ops.

Lemma station_after_parts start ops y :
  station_after start ops = Some y ->
  exists y0, start = Some y0 /\ system_run y0 ops = Some y.
Proof. apply bind_Some. Qed.

Definition broadcast_ids (t : Timeline) : list MessageId :=
  map entry_id (List.filter
    (fun e => bool_decide (e.(entry_origin) = LocalDelivery Delivery_Broadcast)) t.(entries)).

Lemma broadcast_ids_shown t m : m ∈ broadcast_ids t <-> shown_broadcast m t.
Proof.
  unfold broadcast_ids, shown_broadcast. rewrite list_elem_of_fmap. split.
  - intros (e & -> & He). apply list_elem_of_In, filter_In in He as [He Ho].
    exists e. rewrite list_elem_of_In. apply bool_decide_eq_true in Ho. done.
  - intros (e & He & <- & Ho). exists e. split; [done|]. apply list_elem_of_In, filter_In.
    rewrite <- list_elem_of_In. split; [done|]. by apply bool_decide_eq_true.
Qed.

(** Whether one more pump of a station shows its first post as Broadcast. *)
Definition shows_next (station : option (System (Logged (list bytes)) unit Machine)) : bool :=
  match station with
  | Some y =>
      match runtime_pump 700 y.(sys_runtime) y.(sys_transport) y.(sys_policy) y.(sys_session) with
      | Some (_, _, _, _, x) =>
          match broadcast_ids (timeline_of y.(sys_session)), broadcast_ids (timeline_of x) with
          | [], [_] => true
          | _, _ => false
          end
      | None => false
      end
  | None => false
  end.

Lemma shows_next_inv station :
  shows_next station = true ->
  exists y changed rt t' p' x' m, station = Some y /\
    runtime_pump 700 y.(sys_runtime) y.(sys_transport) y.(sys_policy) y.(sys_session) =
      Some (changed, rt, t', p', x') /\
    shown_broadcast m (timeline_of x') /\ ~ shown_broadcast m (timeline_of y.(sys_session)).
Proof.
  unfold shows_next. destruct station as [y|]; [|done].
  destruct (runtime_pump 700 _ _ _ _) as [[[[[c rt] t'] p'] x']|] eqn:Ep; [|done].
  destruct (broadcast_ids (timeline_of (sys_session y))) as [|] eqn:E0; [|done].
  destruct (broadcast_ids (timeline_of x')) as [|m [|]] eqn:E1; try done. intros _.
  exists y, c, rt, t', p', x', m. split_and!; try done.
  - apply broadcast_ids_shown. rewrite E1. by left.
  - rewrite <- broadcast_ids_shown, E0. by intros ?%elem_of_nil.
Qed.

(** The next pump after the operations broadcasts the post. *)
Lemma sample_shows :
  shows_next (station_after (system_start empty_log tt fresh_machine) sample_station_ops) = true.
Proof. by vm_compute. Qed.

(** After one more pump, an entry the station did not start with is Broadcast. *)
Definition sample_long_ops : list (SystemOp (Logged (list bytes)) unit) :=
  sample_station_ops ++ [Sys_pump 700].

Definition shows_entry (start : option (System (Logged (list bytes)) unit Machine)) : bool :=
  match start with
  | Some y0 =>
      match system_run y0 sample_long_ops with
      | Some y =>
          match (timeline_of y0.(sys_session)).(entries), broadcast_ids (timeline_of y.(sys_session)) with
          | [], _ :: _ => true
          | _, _ => false
          end
      | None => false
      end
  | None => false
  end.

Lemma shows_entry_inv start :
  shows_entry start = true ->
  exists y0 y e, start = Some y0 /\ system_run y0 sample_long_ops = Some y /\
    (timeline_of y0.(sys_session)).(entries) = [] /\
    e ∈ (timeline_of y.(sys_session)).(entries) /\
    e.(entry_origin) = LocalDelivery Delivery_Broadcast.
Proof.
  unfold shows_entry. destruct start as [y0|]; [|done].
  destruct (system_run y0 sample_long_ops) as [y|] eqn:Er; [|done].
  destruct (entries (timeline_of (sys_session y0))) as [|] eqn:E0; [|done].
  destruct (broadcast_ids (timeline_of (sys_session y))) as [|m l] eqn:E1; [done|]. intros _.
  assert (shown_broadcast m (timeline_of (sys_session y))) as (e & He & _ & Ho).
  { apply broadcast_ids_shown. rewrite E1. by left. }
  by exists y0, y, e.
Qed.

Lemma sample_entry_shown : shows_entry (system_start empty_log tt fresh_machine) = true.
Proof. by vm_compute. Qed.

Lemma sample_steady : Forall ports_steady sample_long_ops.
Proof. repeat constructor. Qed.

Lemma hello_bytes_eq : hello_bytes = post_bytes golden_post.
Proof. by vm_compute. Qed.

Lemma fresh_open : started_open [] = true.
Proof. by vm_compute. Qed.

Lemma sample_station_typed : Forall station_op_typed sample_station_ops.
Proof. repeat constructor. Qed.

(** The golden post heard in two calls: its second fragment, a frame of another
    post, noise and the second fragment again; then its first fragment. *)
Definition golden_pair : list bytes :=
  match fragment_post golden_post 64 with success frames => frames | failure _ => [] end.

Definition other_bytes : bytes := frame_bytes other_frame.

Definition first_datagrams : list bytes :=
  let second := nth 1 golden_pair [] in [second; other_bytes; [x01]; second].

Definition golden_calls (x : Session * Machine) : list (Call (list bytes) Machine) :=
  [mkCall 5 (RadioRuntime_make ([] : list bytes)).1 first_datagrams x].

Definition golden_last (x : Session * Machine) : Call (list bytes) Machine :=
  mkCall 9 (RadioRuntime_make ([] : list bytes)).1 [nth 0 golden_pair []] x.

Lemma golden_pair_frames : fragment_post golden_post 64 = success golden_pair.
Proof. by vm_compute. Qed.

Lemma golden_post_encoding : encode_post golden_post = success (post_bytes golden_post).
Proof. by vm_compute. Qed.

(** What the calls hear, by computation. *)
Lemma golden_hears x :
  flat_map call_hears (golden_calls x) = first_datagrams /\
  call_hears (golden_last x) = [nth 0 golden_pair []].
Proof. by split; vm_compute. Qed.

Lemma golden_pair_two : exists a b, golden_pair = [a; b] /\ a <> b /\ a <> other_bytes /\ a <> [x01].
Proof. do 2 eexists. split; [vm_compute; reflexivity|]. split_and!; by vm_compute. Qed.

Lemma four_datagrams {A} (a b o n d : A) : d ∈ [b; o; n; b; a] -> d = o \/ d = n \/ d ∈ [a; b].
Proof. set_solver. Qed.

Lemma pair_heard {A} (a b o n : A) :
  a <> b -> a <> o -> a <> n ->
  b ∈ [a; b] /\ ~ (forall d, d ∈ [a; b] -> d ∈ [b; o; n; b]) /\
  (forall d, d ∈ [a; b] -> d ∈ [b; o; n; b; a]).
Proof.
  intros. split; [set_solver|]. split; [|set_solver].
  intros Hall. specialize (Hall a ltac:(set_solver)). set_solver.
Qed.

(** None of them forges the post's key. *)
Lemma golden_genuine d f :
  d ∈ first_datagrams ++ [nth 0 golden_pair []] -> decode_frame (Some d) 64 = success f ->
  frame_key f = post_key golden_post -> d ∈ golden_pair.
Proof.
  destruct golden_pair_two as (a & b & E & _). unfold first_datagrams. rewrite E. cbn [nth app].
  assert (forall f, decode_frame (Some other_bytes) 64 = success f ->
    frame_key f <> post_key golden_post) as Ho.
  { assert (value_of (decode_frame (Some other_bytes) 64) = Some other_frame) as Ho by by vm_compute.
    intros f' Hf'. rewrite Hf' in Ho. cbn [value_of] in Ho.
    assert (f' = other_frame) as -> by exact (f_equal (from_option id f') Ho). by vm_compute. }
  assert (forall f, decode_frame (Some [x01]) 64 <> success f) as Hn by by intros f'; vm_compute.
  intros [->|[->|Hd]]%four_datagrams Hf Hkey; [|by destruct (Hn f)|exact Hd].
  by destruct (Ho f Hf Hkey).
Qed.

(** ** Property theorems *)

(** C6: the station as a whole is defined and keeps its promises.  Start a session
    and a runtime on any world, transport and policy, and let the application
    pump, stop and use the session in any order while the ports change as they
    like: no step leaves an array of the scheduler or the reassembler, the
    scheduler's and the ingress queue's invariants hold, and as long as the
    session is open and ready its memory is what the stores hold. *)
Theorem station_safe {T P W} `{IDatagramTransport T} `{IRadioPolicy P} `{ISessionFrames W}
    `{!IRandomBytesLaws W} `{!IWallClockLaws W} (t : T) (p : P) (w : W) y0 ops :
  system_start t p w = Some y0 -> Forall station_op_typed ops ->
  exists y, system_run y0 ops = Some y /\
    Scheduler_inv y.(sys_runtime).(scheduler_) /\
    InboundQueue.queue_inv y.(sys_runtime).(inbound_) /\
    let (se, w') := y.(sys_session) in
    is_open se = true ->
    exists s, se.(settings) = Some s /\ settings_now w' = Some s /\
      se.(messenger).(ms_identity) = Some (identity_from s) /\
      history_now w' = Some (snapshot_of se.(messenger).(ms_timeline) se.(dedupe)).
Proof.
  intros Hy0 Hops. set (J := fun s (_ : T) => Scheduler_inv s).
  destruct (system_run_inv J (fun s t Hs => Hs)
    (fun s t x post mtu now err s' x' => scheduler_enqueue_inv s x post mtu now err s' x')
    (fun s t p now e s' t' p' => scheduler_pump_inv s t p now e s' t' p')
    (fun s t n r t' Hs _ => Hs) (fun s t => cancel_all_inv s) ops y0)
    as (y & Hrun & [[Hs Hq] Hx]).
  - eapply system_start_inv; [|exact Hy0]. intros. apply TransmissionScheduler_make_inv.
  - eapply Forall_impl; [exact Hops|]. intros []; cbn; auto.
  - exists y. split_and!; [done..|]. destruct (sys_session y) as [se w'].
    by apply open_session_stored.
Qed.

Lemma station_safe_witness :
  exists y0 y, system_start empty_log tt fresh_machine = Some y0 /\
    system_run y0 sample_station_ops = Some y /\
    Scheduler_inv y.(sys_runtime).(scheduler_) /\
    InboundQueue.queue_inv y.(sys_runtime).(inbound_).
Proof.
  destruct (shows_next_inv _ sample_shows) as (y' & _ & _ & _ & _ & _ & _ & Es & _).
  destruct (station_after_parts _ _ _ Es) as (y0 & E & _).
  destruct (station_safe empty_log tt fresh_machine y0 sample_station_ops E sample_station_typed)
    as (y & Hr & Hi & Hq & _).
  exists y0, y. exact (conj E (conj Hr (conj Hi Hq))).
Defined.

(** C7: a post shown as Broadcast was broadcast.  Start a station on a transport
    that has accepted nothing yet and use it in any way; its link has a fixed
    size, and only the radio runtime reports the outcome of posts.  Then every
    entry the timeline shows as Broadcast was among the entries at the start, or
    the fragments of that very entry's post, cut for the link, were accepted by
    the transport since the start, one after the other and all of them. *)
Theorem shown_broadcast_was_sent {T P W} `{IFixedLink T} `{IRadioPolicy P} `{ISessionFrames W}
    `{!IRandomBytesLaws W} `{!IWallClockLaws W} (t : T) (p : P) (w : W) y0 ops y e :
  system_start (t, []) p w = Some y0 -> Forall ports_steady ops -> system_run y0 ops = Some y ->
  e ∈ (timeline_of y.(sys_session)).(entries) ->
  e.(entry_origin) = LocalDelivery Delivery_Broadcast ->
  e ∈ (timeline_of y0.(sys_session)).(entries) \/
  exists fs pre suf, fragment_post e.(entry_post) (maximum_datagram_size t) = success fs /\
    snd y.(sys_transport) = pre ++ fs ++ suf.
Proof.
  intros Hy0 Hops Hrun He Hb.
  pose proof (system_start_inv logged_inv _ _ _ _ logged_start Hy0) as Hinv.
  pose proof (system_start_traced _ _ _ _ Hy0) as Htr.
  destruct (system_run_traced _ _ _ _ _ Hinv Htr Hops Hrun) as [_ Hs].
  exact (Hs e He Hb).
Qed.

Lemma shown_broadcast_was_sent_witness :
  exists y0 y e, system_start empty_log tt fresh_machine = Some y0 /\
    system_run y0 sample_long_ops = Some y /\
    e ∈ (timeline_of y.(sys_session)).(entries) /\
    e.(entry_origin) = LocalDelivery Delivery_Broadcast /\
    exists fs pre suf, fragment_post e.(entry_post) 64 = success fs /\
      snd y.(sys_transport) = pre ++ fs ++ suf.
Proof.
  destruct (shows_entry_inv _ sample_entry_shown) as (y0 & y & e & E & Er & E0 & He & Hb).
  destruct (shown_broadcast_was_sent ([] : list bytes) tt fresh_machine y0 sample_long_ops y e
    E sample_steady Er He Hb) as [Hin|Hsent].
  - exfalso. assert (e ∈ []) as Hnil by (rewrite <- E0; exact Hin). by apply elem_of_nil in Hnil.
  - exists y0, y, e. exact (conj E (conj Er (conj He (conj Hb Hsent)))).
Defined.

(** C8: a post that is heard is kept.  Let [pump_inbound] be called again and again,
    whatever the rest of the station is at each call, on a running ingress whose
    queue is empty, whose recent datagrams hold no fragment of the post and whose
    reassembler is ready for it.  Let the transport hand out a
    fragment of the post first and by the last call, before the deadline the
    first one sets, all of them, in any order, with repetitions and in the midst
    of any other traffic that does not forge the post's key.  Then the last call
    offers the session exactly the canonical bytes of the post when the fragment
    that completes it is processed: after at most as many other posts as it had
    heard other datagrams, and before at most as many posts as it heard
    datagrams after that.  The answer is never Invalid, it is NotReady only if
    the session is not open, and if it is Accepted, the post is the newest entry
    of the timeline and is saved with the window that remembers it. *)
Theorem heard_post_kept {T W} `{IDatagramTransport T} `{ISessionFrames W}
    `{!IRandomBytesLaws W} `{!IWallClockLaws W} q0 (before : list (Call T W)) (last : Call T W)
    post frames encoded :
  PostPayload_wf post -> Session_inv last.(call_session) ->
  InboundQueue.queue_inv q0 -> q0.(stopped_) = false -> q0.(queue_) = [] ->
  is_supported_mtu q0.(inbound_mtu) = true ->
  fragment_post post q0.(inbound_mtu) = success frames -> encode_post post = success encoded ->
  Forall (fun f => f.(recent_datagram) ∉ frames) q0.(recent_) ->
  ready_for post (refresh q0.(reassembler_) (hd last before).(call_now)) ->
  Forall (fun c => c.(call_now) <
      saturating_deadline (hd last before).(call_now) kReassemblyTimeoutTicks) (before ++ [last]) ->
  (forall d f, d ∈ flat_map call_hears (before ++ [last]) ->
     decode_frame (Some d) q0.(inbound_mtu) = success f -> frame_key f = post_key post ->
     d ∈ frames) ->
  (exists d rest, call_hears (hd last before) = d :: rest /\ d ∈ frames) ->
  ~ (forall d, d ∈ frames -> d ∈ flat_map call_hears before) ->
  (forall d, d ∈ frames -> d ∈ flat_map call_hears (before ++ [last])) ->
  exists q ds1 d ds2 pre status x2 suf changed rt',
    listen q0 before = Some q /\ call_hears last = ds1 ++ d :: ds2 /\
    ~ (forall d, d ∈ frames -> d ∈ flat_map call_hears before ++ ds1) /\
    (forall d', d' ∈ frames -> d' ∈ flat_map call_hears before ++ ds1 ++ [d]) /\
    (length pre <= length (others frames ds1))%nat /\ (length suf <= length ds2)%nat /\
    let x1 := offer_all last.(call_session) pre in
    accept_received_post x1 encoded = (status, x2) /\
    listen_once q last =
      Some (changed, rt', (hears kMaximumRadioWorkPerPump last.(call_transport)).2, offer_all x2 suf) /\
    status <> Inbound_Invalid /\ (is_open (fst x1) = true -> status <> Inbound_NotReady) /\
    (status = Inbound_Accepted -> post_committed x1 encoded post x2).
Proof.
  intros Hwf Hx Hq Hrun Hempty Hm Hfr Henc Hun Hready Hnow Hgen (d0 & rest & Hfirst & Hd0) Hopen Hall.
  set (mtu := q0.(inbound_mtu)) in *.
  assert (frames = canonical_frames_of post mtu) as Ef by (rewrite fragment_post_success in Hfr by done; congruence).
  assert (encoded = post_bytes post) as -> by (rewrite encode_post_layout in Henc by done; congruence).
  assert (Forall (genuine post mtu) (flat_map call_hears (before ++ [last]))) as Hgenuine.
  { apply Forall_forall. intros d Hd. apply (frames_genuine post mtu frames); try done.
    intros f. by apply Hgen. }
  pose proof Hgenuine as Hg. rewrite flat_map_app in Hg. apply Forall_app in Hg as [Hgb Hgl].
  cbn [flat_map] in Hgl. rewrite app_nil_r in Hgl.
  assert (forall k, (k < fragments_of post mtu)%nat -> frame_bytes (fragment post mtu k) ∈ frames) as Hin.
  { intros k Hk. rewrite Ef. apply list_elem_of_fmap. exists k. split; [done|]. apply elem_of_seq. lia. }
  destruct (listen_offers post mtu q0 before last) as
    (q & ch & rt' & ds1 & d & ds2 & pre & suf & Hl & Eds & Hno & Hwhole & Hpre & Hsuf & Hlast); try done.
  - split; [done..|]. eapply Forall_impl; [exact Hun|]. intros f Hf k Hk E. apply Hf. rewrite E. by apply Hin.
  - rewrite Ef in Hd0. apply list_elem_of_fmap in Hd0 as (j & -> & Hj%elem_of_seq).
    exists j, rest. split; [lia|done].
  - by rewrite heard_whole_frames.
  - by rewrite heard_whole_frames.
  - rewrite Eds in Hgl. apply Forall_app in Hgl as [Hg1 [Hgd _]%Forall_cons].
    pose proof (others_count post mtu frames ds1 Hwf Hm Hfr Hg1) as Hcount.
    pose proof (offer_all_inv pre _ Hx) as Hx1.
    destruct (accept_received_post (offer_all (call_session last) pre) (post_bytes post)) as [status x2] eqn:Ea.
    destruct (canonical_outcome _ post status x2 Hwf (accept_received_post_cases _ _ _ _ Hx1 Ea)) as (? & ? & ?).
    exists q, ds1, d, ds2, pre, status, x2, suf, ch, rt'.
    rewrite (heard_whole_frames post mtu frames) in Hno by (done || by apply Forall_app).
    rewrite (heard_whole_frames post mtu frames) in Hwhole
      by (done || (repeat (apply Forall_app; split); try done; by constructor)).
    split_and!; try done; lia.
Qed.

Lemma heard_post_kept_witness :
  exists x0 q ds1 d ds2 pre status x2 suf changed rt',
    session_start fresh_machine = Some x0 /\
    listen (InboundFrameQueue_make 64) (golden_calls x0) = Some q /\
    accept_received_post (offer_all x0 pre) (post_bytes golden_post) = (status, x2) /\
    listen_once q (golden_last x0) =
      Some (changed, rt', (hears 4 (golden_last x0).(call_transport)).2, offer_all x2 suf) /\
    call_hears (golden_last x0) = ds1 ++ d :: ds2 /\
    (length pre <= length (others golden_pair ds1))%nat /\ (length suf <= length ds2)%nat /\
    status <> Inbound_Invalid.
Proof.
  destruct (started_open_inv [] fresh_open) as (x0 & E & Hr & Hc).
  destruct (golden_hears x0) as [Eb El]. destruct golden_pair_two as (a & b & Ep & Hab & Hao & Han).
  destruct (pair_heard a b other_bytes [x01] Hab Hao Han) as (Hb & Hnot & Hall).
  destruct (heard_post_kept (InboundFrameQueue_make 64) (golden_calls x0) (golden_last x0) golden_post
    golden_pair (post_bytes golden_post))
    as (q & ds1 & d & ds2 & pre & status & x2 & suf & ch & rt' & Hl & Eds & _ & _ & Hpre & Hsuf & Ha & Hlast & Hne & _).
  - apply golden_post_wf.
  - exact (session_start_inv _ _ E).
  - apply make_queue_inv.
  - reflexivity.
  - reflexivity.
  - reflexivity.
  - exact golden_pair_frames.
  - exact golden_post_encoding.
  - constructor.
  - apply make_ready.
  - repeat constructor.
  - intros d f. rewrite flat_map_app, Eb. cbn [flat_map]. rewrite El. apply golden_genuine.
  - exists b, [other_bytes; [x01]; b]. rewrite Ep. split; [|exact Hb].
    change (call_hears (hd (golden_last x0) (golden_calls x0))) with first_datagrams.
    unfold first_datagrams. rewrite Ep. reflexivity.
  - rewrite Eb. unfold first_datagrams. rewrite Ep. exact Hnot.
  - rewrite flat_map_app, Eb. cbn [flat_map]. rewrite El. unfold first_datagrams. rewrite Ep.
    exact Hall.
  - exists x0, q, ds1, d, ds2, pre, status, x2, suf, ch, rt'.
    exact (conj E (conj Hl (conj Ha (conj Hlast (conj Eds (conj Hpre (conj Hsuf Hne))))))).
Defined.
