(* ===== verification/TextEditor.v ===== *)
(** * TextEditor: the one-line editor of the compose screen

    src/viewmodel/text_editor.cpp: a bounded UTF-8 text with a cursor at a byte
    offset.  [encode_utf8] of the same file is [Utf8.encode_utf8].  The theory
    compares the byte-level editor with a zipper over code points: the two give
    the same answers along any sequence of operations, so the cursor never
    stands inside an encoding and every deletion removes one whole character. *)
From S2P Require Import Prelude Utf8.

(** ** Definitions *)

Inductive EditorError :=
| EditorError_None
| EditorError_InvalidUtf8
| EditorError_InvalidCodepoint
| EditorError_TooLong.

#[global] Instance EditorError_eq_decision : EqDecision EditorError.
Proof. solve_decision. Defined.

Record TextEditor := mkTextEditor {
  maximum_bytes_ : nat;
  text_ : bytes;
  cursor_ : nat
}.

Definition TextEditor_make (maximum_bytes : nat) : TextEditor :=
  mkTextEditor maximum_bytes [] 0.

Definition is_continuation (value : byte) : bool := Z.land (bval value) 0xc0 =? 0x80.

(** [std::string::insert] and [std::string::erase] at an offset of the text. *)
Definition string_insert (text : bytes) (offset : nat) (insertion : bytes) : bytes :=
  take offset text ++ insertion ++ drop offset text.
Definition string_erase (text : bytes) (offset count : nat) : bytes :=
  take offset text ++ drop (offset + count) text.

Definition set_text (ed : TextEditor) (text : bytes) : EditorError * TextEditor :=
  if negb (is_valid_utf8 text) then (EditorError_InvalidUtf8, ed)
  else if (ed.(maximum_bytes_) <? length text)%nat then (EditorError_TooLong, ed)
  else (EditorError_None, mkTextEditor ed.(maximum_bytes_) text (length text)).

Definition insert (ed : TextEditor) (codepoint : Z) : EditorError * TextEditor :=
  let encoded := encode_utf8 codepoint in
  let size := length encoded in
  if (size =? 0)%nat then (EditorError_InvalidCodepoint, ed)
  else if (ed.(maximum_bytes_) <? length ed.(text_) + size)%nat then (EditorError_TooLong, ed)
  else
    (EditorError_None,
     mkTextEditor ed.(maximum_bytes_) (string_insert ed.(text_) ed.(cursor_) encoded)
       (ed.(cursor_) + size)).

Definition insert_utf8 (ed : TextEditor) (text : bytes) : EditorError * TextEditor :=
  if negb (is_valid_utf8 text) then (EditorError_InvalidUtf8, ed)
  else if (ed.(maximum_bytes_) <? length ed.(text_) + length text)%nat
  then (EditorError_TooLong, ed)
  else
    (EditorError_None,
     mkTextEditor ed.(maximum_bytes_) (string_insert ed.(text_) ed.(cursor_) text)
       (ed.(cursor_) + length text)).

(** The loop of [previous_boundary]. *)
Fixpoint skip_back (text : bytes) (offset : nat) : nat :=
  match offset with
  | O => O
  | S less => if is_continuation (byte_at text offset) then skip_back text less else offset
  end.

(** [--offset] first; the callers exclude 0. *)
Definition previous_boundary (ed : TextEditor) (offset : nat) : nat :=
  skip_back ed.(text_) (offset - 1).

(** The bytes the loop of [next_boundary] passes over. *)
Fixpoint continuation_run (rest : bytes) : nat :=
  match rest with
  | [] => O
  | b :: rest => if is_continuation b then S (continuation_run rest) else O
  end.

Definition next_boundary (ed : TextEditor) (offset : nat) : nat :=
  (S offset + continuation_run (drop (S offset) ed.(text_)))%nat.

Definition move_left (ed : TextEditor) : bool * TextEditor :=
  if (ed.(cursor_) =? 0)%nat then (false, ed)
  else (true, mkTextEditor ed.(maximum_bytes_) ed.(text_) (previous_boundary ed ed.(cursor_))).

Definition move_right (ed : TextEditor) : bool * TextEditor :=
  if (length ed.(text_) <=? ed.(cursor_))%nat then (false, ed)
  else (true, mkTextEditor ed.(maximum_bytes_) ed.(text_) (next_boundary ed ed.(cursor_))).

Definition backspace (ed : TextEditor) : bool * TextEditor :=
  if (ed.(cursor_) =? 0)%nat then (false, ed)
  else
    let previous := previous_boundary ed ed.(cursor_) in
    (true,
     mkTextEditor ed.(maximum_bytes_)
       (string_erase ed.(text_) previous (ed.(cursor_) - previous)) previous).

Definition delete_forward (ed : TextEditor) : bool * TextEditor :=
  if (length ed.(text_) <=? ed.(cursor_))%nat then (false, ed)
  else
    let next := next_boundary ed ed.(cursor_) in
    (true,
     mkTextEditor ed.(maximum_bytes_)
       (string_erase ed.(text_) ed.(cursor_) (next - ed.(cursor_))) ed.(cursor_)).

Definition clear (ed : TextEditor) : TextEditor := mkTextEditor ed.(maximum_bytes_) [] 0.

(** [std::size_t] subtraction wraps. *)
Definition remaining_bytes (ed : TextEditor) : Z :=
  u64 (Z.of_nat ed.(maximum_bytes_) - Z.of_nat (length ed.(text_))).

Definition editor_empty (ed : TextEditor) : bool := bool_decide (ed.(text_) = []).

(** ** Specification: a zipper over code points *)

Record Zipper := mkZipper { before : list Z; after : list Z }.

Definition scalarb (cp : Z) : bool :=
  (0 <=? cp) && (cp <=? 0x10ffff) && negb ((0xd800 <=? cp) && (cp <=? 0xdfff)).

Definition zipper_size (z : Zipper) : nat := length (utf8_text (z.(before) ++ z.(after))).

Inductive EditorOp :=
| Ed_set_text (text : bytes)
| Ed_insert (codepoint : Z)
| Ed_insert_utf8 (text : bytes)
| Ed_move_left
| Ed_move_right
| Ed_backspace
| Ed_delete_forward
| Ed_clear.

(** An answer: an error code, a flag, or nothing. *)
Inductive EditorAnswer :=
| Answer_error (e : EditorError)
| Answer_flag (changed : bool)
| Answer_none.

Definition editor_step (ed : TextEditor) (op : EditorOp) : EditorAnswer * TextEditor :=
  match op with
  | Ed_set_text text => let (e, ed) := set_text ed text in (Answer_error e, ed)
  | Ed_insert codepoint => let (e, ed) := insert ed codepoint in (Answer_error e, ed)
  | Ed_insert_utf8 text => let (e, ed) := insert_utf8 ed text in (Answer_error e, ed)
  | Ed_move_left => let (b, ed) := move_left ed in (Answer_flag b, ed)
  | Ed_move_right => let (b, ed) := move_right ed in (Answer_flag b, ed)
  | Ed_backspace => let (b, ed) := backspace ed in (Answer_flag b, ed)
  | Ed_delete_forward => let (b, ed) := delete_forward ed in (Answer_flag b, ed)
  | Ed_clear => (Answer_none, clear ed)
  end.

(** Inserting decoded text: too long is judged on the encoded size. *)
Definition zipper_insert (maximum : nat) (z : Zipper) (cps : list Z) : EditorAnswer * Zipper :=
  let z' := mkZipper (z.(before) ++ cps) z.(after) in
  if (maximum <? zipper_size z')%nat then (Answer_error EditorError_TooLong, z)
  else (Answer_error EditorError_None, z').

Definition zipper_step (maximum : nat) (z : Zipper) (op : EditorOp) : EditorAnswer * Zipper :=
  match op with
  | Ed_set_text text =>
      match utf8_decode text with
      | None => (Answer_error EditorError_InvalidUtf8, z)
      | Some cps =>
          match zipper_insert maximum (mkZipper [] []) cps with
          | (Answer_error EditorError_None, z') => (Answer_error EditorError_None, z')
          | (answer, _) => (answer, z)
          end
      end
  | Ed_insert codepoint =>
      if scalarb codepoint then zipper_insert maximum z [codepoint]
      else (Answer_error EditorError_InvalidCodepoint, z)
  | Ed_insert_utf8 text =>
      match utf8_decode text with
      | None => (Answer_error EditorError_InvalidUtf8, z)
      | Some cps => zipper_insert maximum z cps
      end
  | Ed_move_left =>
      match rev z.(before) with
      | [] => (Answer_flag false, z)
      | cp :: rest => (Answer_flag true, mkZipper (rev rest) (cp :: z.(after)))
      end
  | Ed_move_right =>
      match z.(after) with
      | [] => (Answer_flag false, z)
      | cp :: rest => (Answer_flag true, mkZipper (z.(before) ++ [cp]) rest)
      end
  | Ed_backspace =>
      match rev z.(before) with
      | [] => (Answer_flag false, z)
      | _ :: rest => (Answer_flag true, mkZipper (rev rest) z.(after))
      end
  | Ed_delete_forward =>
      match z.(after) with
      | [] => (Answer_flag false, z)
      | _ :: rest => (Answer_flag true, mkZipper z.(before) rest)
      end
  | Ed_clear => (Answer_none, mkZipper [] [])
  end.

(** The answers of a sequence of operations and the final state. *)
Fixpoint run_answers {St Op An} (step : St -> Op -> An * St) (s : St) (ops : list Op)
  : list An * St :=
  match ops with
  | [] => ([], s)
  | op :: ops =>
      let (answer, s) := step s op in
      let (answers, s) := run_answers step s ops in (answer :: answers, s)
  end.

(** The editor shows the zipper. *)
Record shows (ed : TextEditor) (z : Zipper) : Prop := {
  shows_before : Forall is_scalar z.(before);
  shows_after : Forall is_scalar z.(after);
  shows_text : ed.(text_) = utf8_text z.(before) ++ utf8_text z.(after);
  shows_cursor : ed.(cursor_) = length (utf8_text z.(before));
  shows_bound : (length ed.(text_) <= ed.(maximum_bytes_))%nat
}.

(** ** The shape of an encoding *)

Lemma scalarb_spec cp : scalarb cp = true <-> is_scalar cp.
Proof. unfold scalarb, is_scalar. rewrite !andb_true_iff, negb_true_iff, andb_false_iff. lia. Qed.

Lemma is_continuation_test b : is_continuation b = (128 <=? bval b) && (bval b <? 192).
Proof. apply continuation_test. Qed.

(** A lead byte, then continuation bytes; the lead byte determines their number. *)
Lemma encode_shape cp :
  is_scalar cp ->
  exists b rest, encode_utf8 cp = b :: rest /\ is_continuation b = false /\
    Forall (fun c => is_continuation c = true) rest /\
    (bval b <= 0x7f /\ length rest = 0%nat \/ 0x7f < bval b <= 0xdf /\ length rest = 1%nat \/
     0xdf < bval b <= 0xef /\ length rest = 2%nat \/ 0xef < bval b /\ length rest = 3%nat).
Proof.
  intros [Hr Hs].
  assert (0 <= cp <= 0x7f \/ 0x80 <= cp <= 0x7ff \/ 0x800 <= cp <= 0xffff \/
          0x10000 <= cp <= 0x10ffff) as Hcases by lia.
  destruct Hcases as [H|[H|[H|H]]];
    [open_encoding (encode_1 cp H)|open_encoding (encode_2 cp H)|
     open_encoding (encode_3 cp H Hs)|open_encoding (encode_4 cp H)];
    (eexists _, _; split; [done|]; rewrite is_continuation_test;
     split; [rewrite andb_false_iff; zdiv_lia|];
     split; [repeat constructor; rewrite is_continuation_test, andb_true_iff; zdiv_lia|];
     cbn [length]; zdiv_lia).
Qed.

Lemma encode_not_scalar cp : 0 <= cp -> encode_utf8 cp = [] <-> ~ is_scalar cp.
Proof.
  intros Hc. split.
  - intros He Hs. pose proof (encode_nonempty cp Hs). rewrite He in *. simpl in *. lia.
  - unfold is_scalar, encode_utf8. intros Hs. repeat split_if; reflect_bools; try done; lia.
Qed.

(** ** Boundaries *)

Lemma skip_back_run pre b conts rest k :
  is_continuation b = false -> Forall (fun c => is_continuation c = true) conts ->
  (k <= length conts)%nat ->
  skip_back (pre ++ b :: conts ++ rest) (length pre + k) = length pre.
Proof.
  intros Hb Hc. induction k as [|k IH]; intros Hk.
  - rewrite Nat.add_0_r. destruct (length pre) as [|n] eqn:E; [done|]. cbn [skip_back].
    rewrite <- E, <- (Nat.add_0_r (length pre)), (byte_at_app_r _ _ _ _ eq_refl). cbn. by rewrite Hb.
  - rewrite Nat.add_succ_r. cbn [skip_back].
    rewrite <- Nat.add_succ_r, (byte_at_app_r _ _ _ _ eq_refl).
    change (byte_at (b :: conts ++ rest) (S k)) with (byte_at (conts ++ rest) k).
    unfold byte_at. rewrite app_nth1 by lia.
    rewrite (proj1 (Forall_nth _ x00 conts) Hc k) by lia. apply IH. lia.
Qed.

Lemma continuation_run_stop conts rest :
  Forall (fun c => is_continuation c = true) conts ->
  match rest with [] => True | b :: _ => is_continuation b = false end ->
  continuation_run (conts ++ rest) = length conts.
Proof.
  intros Hc Hr. induction Hc as [|c conts Hc _ IH]; cbn.
  - destruct rest as [|b rest]; [done|]. cbn. by rewrite Hr.
  - by rewrite Hc, IH.
Qed.

Lemma text_starts cps :
  Forall is_scalar cps ->
  match utf8_text cps with [] => True | b :: _ => is_continuation b = false end.
Proof.
  intros [|cp rest Hcp _]; [done|].
  destruct (encode_shape cp Hcp) as (b & conts & E & Hb & _).
  unfold utf8_text. cbn [map concat]. by rewrite E.
Qed.

Lemma utf8_text_cons cp cps : utf8_text (cp :: cps) = encode_utf8 cp ++ utf8_text cps.
Proof. done. Qed.

Lemma utf8_text_snoc cps cp : utf8_text (cps ++ [cp]) = utf8_text cps ++ encode_utf8 cp.
Proof. rewrite utf8_text_app. f_equal. apply app_nil_r. Qed.

(** One character back, one character forward. *)
Lemma previous_boundary_spec ed l cp r :
  is_scalar cp -> ed.(text_) = utf8_text l ++ encode_utf8 cp ++ r ->
  previous_boundary ed (length (utf8_text l) + length (encode_utf8 cp)) = length (utf8_text l).
Proof.
  intros Hcp Ht. unfold previous_boundary. rewrite Ht.
  destruct (encode_shape cp Hcp) as (b & conts & E & Hb & Hc & _). rewrite E.
  cbn [length app]. rewrite Nat.add_succ_r, Nat.sub_succ, Nat.sub_0_r. by apply skip_back_run.
Qed.

Lemma next_boundary_spec ed l cp r :
  is_scalar cp -> Forall is_scalar r ->
  ed.(text_) = l ++ encode_utf8 cp ++ utf8_text r ->
  next_boundary ed (length l) = (length l + length (encode_utf8 cp))%nat.
Proof.
  intros Hcp Hr Ht. unfold next_boundary. rewrite Ht.
  destruct (encode_shape cp Hcp) as (b & conts & E & Hb & Hc & _). rewrite E.
  replace (S (length l)) with (length l + 1)%nat by lia.
  rewrite drop_app_add. cbn [app drop]. rewrite drop_0, continuation_run_stop
    by (done || by apply text_starts). cbn [length]. lia.
Qed.

(** ** One operation *)

Ltac solve_shows := constructor; cbn [text_ cursor_ maximum_bytes_ before after];
  rewrite ?utf8_text_snoc, ?utf8_text_app, ?utf8_text_cons, ?length_app in *;
  rewrite ?Forall_app, ?Forall_cons in *; try done; try tauto; try lia.

Lemma insert_app (l r s : bytes) : string_insert (l ++ r) (length l) s = l ++ s ++ r.
Proof. unfold string_insert. by rewrite take_app_length, drop_app_length. Qed.

Lemma erase_app (l m r : bytes) : string_erase (l ++ m ++ r) (length l) (length m) = l ++ r.
Proof.
  unfold string_erase. rewrite take_app_length, drop_app_add. by rewrite drop_app_length.
Qed.

(** The three insertions are one. *)
Lemma insert_shows ed z cps :
  shows ed z -> Forall is_scalar cps ->
  exists z',
    zipper_insert ed.(maximum_bytes_) z cps =
      (Answer_error
         (if (ed.(maximum_bytes_) <? length ed.(text_) + length (utf8_text cps))%nat
          then EditorError_TooLong else EditorError_None), z') /\
    shows
      (if (ed.(maximum_bytes_) <? length ed.(text_) + length (utf8_text cps))%nat then ed
       else mkTextEditor ed.(maximum_bytes_)
              (string_insert ed.(text_) ed.(cursor_) (utf8_text cps))
              (ed.(cursor_) + length (utf8_text cps))) z'.
Proof.
  intros [Hb Ha Ht Hc Hm] Hs. unfold zipper_insert, zipper_size. cbn [before after].
  replace (length (utf8_text ((before z ++ cps) ++ after z)))
    with (length (text_ ed) + length (utf8_text cps))%nat
    by (rewrite Ht, !utf8_text_app, !length_app; lia).
  destruct (_ <? _)%nat eqn:E; (eexists; split; [done|]); reflect_bools; [by constructor|].
  constructor; cbn [text_ cursor_ maximum_bytes_ before after].
  - by apply Forall_app.
  - done.
  - rewrite Ht, Hc, insert_app, utf8_text_app. by rewrite <- app_assoc.
  - rewrite utf8_text_app, length_app. lia.
  - rewrite Ht, Hc, insert_app, !length_app. rewrite Ht, length_app in E. lia.
Qed.

Lemma valid_decode text :
  is_valid_utf8 text = match utf8_decode text with Some _ => true | None => false end.
Proof.
  destruct (utf8_decode text) as [cps|] eqn:E.
  - apply is_valid_utf8_valid. apply utf8_decode_Some in E. by exists cps.
  - apply not_true_is_false. intros (cps & H)%is_valid_utf8_valid.
    apply utf8_decode_Some in H. congruence.
Qed.

Definition editor_op_typed (op : EditorOp) : Prop :=
  match op with Ed_insert codepoint => 0 <= codepoint | _ => True end.

Lemma before_cases (l : list Z) :
  l = [] \/ exists l' cp, l = l' ++ [cp] /\ rev l = cp :: rev l'.
Proof.
  destruct l as [|cp l] using rev_ind; [by left|]. right. exists l, cp. by rewrite rev_unit.
Qed.

Section Step.
Variables (ed : TextEditor) (z : Zipper).
Hypothesis (Hshows : shows ed z).

Lemma insert_shows_answer cps :
  Forall is_scalar cps ->
  forall n,
  n = length (utf8_text cps) ->
  let (e, ed') :=
    if (ed.(maximum_bytes_) <? length ed.(text_) + n)%nat then (EditorError_TooLong, ed)
    else (EditorError_None,
          mkTextEditor ed.(maximum_bytes_)
            (string_insert ed.(text_) ed.(cursor_) (utf8_text cps)) (ed.(cursor_) + n)) in
  let (a, z') := zipper_insert ed.(maximum_bytes_) z cps in
  Answer_error e = a /\ shows ed' z' /\ maximum_bytes_ ed' = maximum_bytes_ ed.
Proof.
  intros Hs n ->. destruct (insert_shows ed z cps Hshows Hs) as (z' & -> & H).
  revert H. by case_match.
Qed.

(** Both deletions and both moves, from a text cut around one character. *)
Lemma left_shows l cp :
  z.(before) = l ++ [cp] ->
  shows (snd (move_left ed)) (mkZipper l (cp :: z.(after))) /\
  shows (snd (backspace ed)) (mkZipper l z.(after)).
Proof.
  destruct Hshows as [Hb Ha Ht Hc Hm]. intros E. rewrite E in *.
  apply Forall_app in Hb as [Hl [Hcp _]%Forall_cons].
  rewrite utf8_text_snoc in *. rewrite <- app_assoc in Ht. rewrite length_app in Hc.
  pose proof (encode_nonempty cp Hcp).
  unfold move_left, backspace. rewrite (proj2 (Nat.eqb_neq _ _)) by lia. cbn [snd].
  rewrite Hc, (previous_boundary_spec _ _ _ _ Hcp Ht).
  replace (length (utf8_text l) + length (encode_utf8 cp) - length (utf8_text l))%nat
    with (length (encode_utf8 cp)) by lia.
  rewrite Ht, erase_app. rewrite Ht, !length_app in Hm. split; solve_shows.
Qed.

Lemma right_shows cp r :
  z.(after) = cp :: r ->
  shows (snd (move_right ed)) (mkZipper (z.(before) ++ [cp]) r) /\
  shows (snd (delete_forward ed)) (mkZipper z.(before) r).
Proof.
  destruct Hshows as [Hb Ha Ht Hc Hm]. intros E. rewrite E in *.
  apply Forall_cons in Ha as [Hcp Hr]. rewrite utf8_text_cons in Ht.
  pose proof (encode_nonempty cp Hcp).
  unfold move_right, delete_forward.
  rewrite (proj2 (Nat.leb_gt _ _)) by (rewrite Ht, Hc, !length_app; lia). cbn [snd].
  rewrite Hc, (next_boundary_spec _ _ _ _ Hcp Hr Ht).
  replace (length (utf8_text (before z)) + length (encode_utf8 cp) - length (utf8_text (before z)))%nat
    with (length (encode_utf8 cp)) by lia.
  rewrite Ht, erase_app. rewrite Ht, !length_app in Hm. split; solve_shows.
  rewrite <- app_assoc. done.
Qed.

Lemma at_start : z.(before) = [] -> ed.(cursor_) = 0%nat.
Proof. intros E. by rewrite (shows_cursor _ _ Hshows), E. Qed.

Lemma at_end : z.(after) = [] -> length ed.(text_) = ed.(cursor_).
Proof.
  intros E. by rewrite (shows_text _ _ Hshows), (shows_cursor _ _ Hshows), E, app_nil_r.
Qed.

Lemma not_at_end cp r : z.(after) = cp :: r -> (ed.(cursor_) < length ed.(text_))%nat.
Proof.
  intros E. rewrite (shows_text _ _ Hshows), (shows_cursor _ _ Hshows), E, utf8_text_cons, !length_app.
  pose proof (shows_after _ _ Hshows) as Ha. rewrite E in Ha. apply Forall_cons in Ha as [Hcp _].
  pose proof (encode_nonempty cp Hcp). lia.
Qed.

Lemma not_at_start l cp : z.(before) = l ++ [cp] -> (0 < ed.(cursor_))%nat.
Proof.
  intros E. rewrite (shows_cursor _ _ Hshows), E, utf8_text_snoc, length_app.
  pose proof (shows_before _ _ Hshows) as Ha. rewrite E in Ha.
  apply Forall_app in Ha as [_ [Hcp _]%Forall_cons]. pose proof (encode_nonempty cp Hcp). lia.
Qed.

Lemma editor_step_shows op :
  editor_op_typed op ->
  let (a, ed') := editor_step ed op in
  let (a', z') := zipper_step ed.(maximum_bytes_) z op in
  a = a' /\ shows ed' z' /\ ed'.(maximum_bytes_) = ed.(maximum_bytes_).
Proof.
  intros Hop. destruct op; cbn [editor_step zipper_step].
  - unfold set_text. rewrite valid_decode. destruct (utf8_decode text) as [cps|] eqn:E; [|done].
    apply utf8_decode_Some in E as [Hs ->]. cbn [negb]. unfold zipper_insert, zipper_size.
    cbn [before after app]. rewrite app_nil_r. destruct (_ <? _)%nat eqn:El; [done|].
    reflect_bools. split; [done|]. split; [|done]. solve_shows. by rewrite app_nil_r.
  - unfold insert. destruct (scalarb codepoint) eqn:Es.
    + apply scalarb_spec in Es. pose proof (encode_nonempty _ Es).
      rewrite (proj2 (Nat.eqb_neq _ _)) by lia.
      pose proof (insert_shows_answer [codepoint] ltac:(by constructor)
        (length (encode_utf8 codepoint))) as Hi.
      replace (utf8_text [codepoint]) with (encode_utf8 codepoint) in Hi
        by (symmetry; apply app_nil_r).
      specialize (Hi eq_refl). destruct (_ <? _)%nat; exact Hi.
    + assert (encode_utf8 codepoint = []) as ->; [|done].
      apply encode_not_scalar; [done|]. rewrite <- scalarb_spec. by rewrite Es.
  - unfold insert_utf8. rewrite valid_decode. destruct (utf8_decode text) as [cps|] eqn:E; [|done].
    apply utf8_decode_Some in E as [Hs ->]. cbn [negb].
    pose proof (insert_shows_answer cps Hs _ eq_refl) as Hi.
    destruct (_ <? _)%nat; exact Hi.
  - destruct (before_cases (before z)) as [E|(l & cp & E & ->)].
    + unfold move_left. rewrite (at_start E). by rewrite E.
    + pose proof (proj1 (left_shows l cp E)) as Hs. rewrite rev_involutive. revert Hs.
      pose proof (not_at_start _ _ E). unfold move_left.
      by rewrite (proj2 (Nat.eqb_neq _ _)) by lia.
  - destruct (after z) as [|cp r] eqn:E.
    + unfold move_right. rewrite (at_end E), Nat.leb_refl. done.
    + pose proof (proj1 (right_shows cp r E)) as Hs. revert Hs.
      pose proof (not_at_end _ _ E). unfold move_right.
      by rewrite (proj2 (Nat.leb_gt _ _)) by lia.
  - destruct (before_cases (before z)) as [E|(l & cp & E & ->)].
    + unfold backspace. rewrite (at_start E). by rewrite E.
    + pose proof (proj2 (left_shows l cp E)) as Hs. rewrite rev_involutive. revert Hs.
      pose proof (not_at_start _ _ E). unfold backspace.
      by rewrite (proj2 (Nat.eqb_neq _ _)) by lia.
  - destruct (after z) as [|cp r] eqn:E.
    + unfold delete_forward. rewrite (at_end E), Nat.leb_refl. done.
    + pose proof (proj2 (right_shows cp r E)) as Hs. revert Hs.
      pose proof (not_at_end _ _ E). unfold delete_forward.
      by rewrite (proj2 (Nat.leb_gt _ _)) by lia.
  - split; [done|]. split; [|done]. solve_shows. cbn. lia.
Qed.
End Step.

Lemma editor_run_shows ops : forall ed z,
  shows ed z -> Forall editor_op_typed ops ->
  let (answers, ed') := run_answers editor_step ed ops in
  let (answers', z') := run_answers (zipper_step ed.(maximum_bytes_)) z ops in
  answers = answers' /\ shows ed' z' /\ maximum_bytes_ ed' = maximum_bytes_ ed.
Proof.
  induction ops as [|op ops IH]; intros ed z Hs Hops; [done|].
  apply Forall_cons in Hops as [Hop Hops]. cbn [run_answers].
  pose proof (editor_step_shows ed z Hs op Hop) as Hstep.
  destruct (editor_step ed op) as [a ed'], (zipper_step (maximum_bytes_ ed) z op) as [a' z'].
  destruct Hstep as (-> & Hs' & Hm). pose proof (IH ed' z' Hs' Hops) as Hrun. rewrite Hm in Hrun.
  destruct (run_answers editor_step ed' ops), (run_answers (zipper_step _) z' ops).
  destruct Hrun as (-> & ? & ?). done.
Qed.

Lemma make_shows maximum : shows (TextEditor_make maximum) (mkZipper [] []).
Proof. constructor; cbn; try done; lia. Qed.

(** ** What the view model uses *)

(** Some zipper shows the text: valid, bounded, the cursor between characters. *)
Definition editor_inv (ed : TextEditor) : Prop := exists z, shows ed z.

Lemma make_editor_inv maximum : editor_inv (TextEditor_make maximum).
Proof. eexists. apply make_shows. Qed.

Lemma editor_step_inv ed op :
  editor_inv ed -> editor_op_typed op ->
  editor_inv (editor_step ed op).2 /\
  (editor_step ed op).2.(maximum_bytes_) = ed.(maximum_bytes_).
Proof.
  intros [z Hs] Hop. pose proof (editor_step_shows ed z Hs op Hop) as H.
  destruct (editor_step ed op) as [a ed'], (zipper_step _ z op) as [a' z'].
  destruct H as (_ & H & Hm). split; [by exists z'|done].
Qed.

Lemma editor_inv_text ed :
  editor_inv ed -> is_valid_utf8 ed.(text_) = true /\ (length ed.(text_) <= ed.(maximum_bytes_))%nat /\
    (ed.(cursor_) <= length ed.(text_))%nat.
Proof.
  intros [z [Hb Ha Ht Hc Hm]]. split_and!; [|done|].
  - apply is_valid_utf8_valid. exists (before z ++ after z). by rewrite Forall_app, utf8_text_app.
  - rewrite Ht, Hc, length_app. lia.
Qed.

(** ** Property theorems *)

(** C21: the byte-level editor is the code-point editor.  Along any sequence of
    operations on an editor of any capacity, every answer - the error codes of
    the insertions and the flags of the moves and deletions - is that of a
    zipper over code points that knows nothing of bytes beyond the size limit;
    and at the end the text is the encoding of the code points before and after
    the cursor, within the capacity, [remaining_bytes] being what is left of
    it. *)
Theorem text_editor_refines_zipper maximum ops :
  Forall editor_op_typed ops -> Z.of_nat maximum <= UINT64_MAX ->
  let (answers, ed) := run_answers editor_step (TextEditor_make maximum) ops in
  let (answers', z) := run_answers (zipper_step maximum) (mkZipper [] []) ops in
  answers = answers' /\
  ed.(text_) = utf8_text (z.(before) ++ z.(after)) /\
  ed.(cursor_) = length (utf8_text z.(before)) /\
  Forall is_scalar (z.(before) ++ z.(after)) /\
  remaining_bytes ed + Z.of_nat (length ed.(text_)) = Z.of_nat maximum.
Proof.
  intros Hops Hmax. pose proof (editor_run_shows ops _ _ (make_shows maximum) Hops) as H.
  change (maximum_bytes_ (TextEditor_make maximum)) with maximum in H.
  destruct (run_answers editor_step _ ops) as [answers ed], (run_answers (zipper_step _) _ ops) as [? z].
  destruct H as (-> & [Hb Ha Ht Hc Hm] & Hmm).
  rewrite utf8_text_app, Forall_app. split_and!; [done..|].
  unfold remaining_bytes, u64, UINT64_MAX in *. rewrite Hmm in *. rewrite Z.mod_small by lia. lia.
Qed.

(** Type "aé", step back over the two-byte letter, insert, delete forward. *)
Definition sample_editor_ops : list EditorOp :=
  [Ed_insert 0x61; Ed_insert 0xe9; Ed_move_left; Ed_insert 0x1f600; Ed_delete_forward;
   Ed_insert 0xd800; Ed_insert_utf8 [to_u8 0xff]; Ed_insert_utf8 (str "xyz"); Ed_backspace].

Lemma text_editor_refines_zipper_witness :
  let (answers, ed) := run_answers editor_step (TextEditor_make 6) sample_editor_ops in
  let (answers', z) := run_answers (zipper_step 6) (mkZipper [] []) sample_editor_ops in
  answers = answers' /\ z = mkZipper [0x61; 0x78; 0x79] [] /\
  remaining_bytes ed + Z.of_nat (length ed.(text_)) = 6.
Proof.
  pose proof (text_editor_refines_zipper 6 sample_editor_ops
    ltac:(repeat constructor; cbn; lia) ltac:(cbn; unfold UINT64_MAX; lia)) as H.
  assert ((run_answers (zipper_step 6) (mkZipper [] []) sample_editor_ops).2 = mkZipper [0x61; 0x78; 0x79] [])
    as Hz by (vm_compute; reflexivity).
  destruct (run_answers editor_step _ _), (run_answers (zipper_step 6) _ _).
  destruct H as (-> & _ & _ & _ & Hr). exact (conj eq_refl (conj Hz Hr)).
Defined.
