(* ===== verification/I18n.v ===== *)
(** * I18n: the translated texts

    src/viewmodel/i18n.{h,cpp}: the three locales, the identifiers of the texts,
    the translation tables and the text of every command error.  The enumerators
    [Count] of the two enumerations are values of them, as in C++; other integers
    of the underlying type are not modelled, the program makes none. *)
From S2P Require Import Prelude Utf8 Text Uuid Identity Post Timeline MessengerState.

(** ** Definitions *)

Inductive Locale :=
| Locale_English
| Locale_Japanese
| Locale_SimplifiedChinese
| Locale_Count.

#[global] Instance Locale_eq_decision : EqDecision Locale.
Proof. solve_decision. Defined.

Inductive StringId :=
| StringId_AppTitle
| StringId_TimelineTitle
| StringId_DetailTitle
| StringId_ComposeTitle
| StringId_MentionsTitle
| StringId_SettingsTitle
| StringId_TimelineEmpty
| StringId_NoPeers
| StringId_SettingsUserId
| StringId_SettingsLanguage
| StringId_SettingsSavedLocally
| StringId_RadioDisabled
| StringId_RadioReady
| StringId_StatusTitle
| StringId_ErrorTitle
| StringId_StatusQueued
| StringId_StatusQueuedForRadio
| StringId_StatusPostUnavailable
| StringId_ConfirmDiscardTitle
| StringId_ConfirmDiscardMessage
| StringId_ConfirmExitTitle
| StringId_ConfirmExitMessage
| StringId_ButtonCancel
| StringId_ButtonDiscard
| StringId_ButtonExit
| StringId_BadgeReceived
| StringId_BadgeQueued
| StringId_BadgeBroadcast
| StringId_BadgeFailed
| StringId_BadgeUnknown
| StringId_ReplyOriginalUnavailable
| StringId_MentionLimitReached
| StringId_LocalDemo
| StringId_HeaderDemoExit
| StringId_HeaderRadioExit
| StringId_RadioNoDelivery
| StringId_RadioReadyNoDelivery
| StringId_BytesRemaining
| StringId_ReplyContext
| StringId_MentionedYou
| StringId_SettingsIdentity
| StringId_FooterTimeline
| StringId_FooterDetail
| StringId_FooterCompose
| StringId_FooterMentions
| StringId_FooterSettings
| StringId_ConfirmDeleteTitle
| StringId_ConfirmDeleteMessage
| StringId_RecoveryTitle
| StringId_RecoveryMessage
| StringId_ButtonDelete
| StringId_ErrorPersistenceUnavailable
| StringId_ErrorNone
| StringId_ErrorNotInitialized
| StringId_ErrorAlreadyInitialized
| StringId_ErrorInvalidUserId
| StringId_ErrorInvalidBody
| StringId_ErrorTooManyMentions
| StringId_ErrorDuplicateMention
| StringId_ErrorReplyParentUnavailable
| StringId_ErrorQueueFull
| StringId_ErrorTimelineFull
| StringId_ErrorSequenceExhausted
| StringId_ErrorOrderExhausted
| StringId_ErrorRandomUnavailable
| StringId_ErrorMessageIdCollision
| StringId_ErrorInvalidPost
| StringId_ErrorDuplicatePost
| StringId_ErrorConflictingPost
| StringId_ErrorMessageNotFound
| StringId_ErrorNotLocalPost
| StringId_ErrorInvalidTransition
| StringId_ErrorInvalidCharacter
| StringId_UnknownError
| StringId_LanReady
| StringId_StatusQueuedForLan
| StringId_HeaderLanExit
| StringId_LanReadyNoDelivery
| StringId_MenuTalk
| StringId_MenuSettings
| StringId_SettingsSkipTitle
| StringId_ToggleOn
| StringId_ToggleOff
| StringId_FooterMenu
| StringId_Count.

(** [static_cast<std::size_t>]: the enumerators in order. *)
Definition locale_index (locale : Locale) : nat :=
  match locale with
  | Locale_English => 0
  | Locale_Japanese => 1
  | Locale_SimplifiedChinese => 2
  | Locale_Count => 3
  end.

Definition string_index (id : StringId) : nat :=
  match id with
  | StringId_AppTitle => 0
  | StringId_TimelineTitle => 1
  | StringId_DetailTitle => 2
  | StringId_ComposeTitle => 3
  | StringId_MentionsTitle => 4
  | StringId_SettingsTitle => 5
  | StringId_TimelineEmpty => 6
  | StringId_NoPeers => 7
  | StringId_SettingsUserId => 8
  | StringId_SettingsLanguage => 9
  | StringId_SettingsSavedLocally => 10
  | StringId_RadioDisabled => 11
  | StringId_RadioReady => 12
  | StringId_StatusTitle => 13
  | StringId_ErrorTitle => 14
  | StringId_StatusQueued => 15
  | StringId_StatusQueuedForRadio => 16
  | StringId_StatusPostUnavailable => 17
  | StringId_ConfirmDiscardTitle => 18
  | StringId_ConfirmDiscardMessage => 19
  | StringId_ConfirmExitTitle => 20
  | StringId_ConfirmExitMessage => 21
  | StringId_ButtonCancel => 22
  | StringId_ButtonDiscard => 23
  | StringId_ButtonExit => 24
  | StringId_BadgeReceived => 25
  | StringId_BadgeQueued => 26
  | StringId_BadgeBroadcast => 27
  | StringId_BadgeFailed => 28
  | StringId_BadgeUnknown => 29
  | StringId_ReplyOriginalUnavailable => 30
  | StringId_MentionLimitReached => 31
  | StringId_LocalDemo => 32
  | StringId_HeaderDemoExit => 33
  | StringId_HeaderRadioExit => 34
  | StringId_RadioNoDelivery => 35
  | StringId_RadioReadyNoDelivery => 36
  | StringId_BytesRemaining => 37
  | StringId_ReplyContext => 38
  | StringId_MentionedYou => 39
  | StringId_SettingsIdentity => 40
  | StringId_FooterTimeline => 41
  | StringId_FooterDetail => 42
  | StringId_FooterCompose => 43
  | StringId_FooterMentions => 44
  | StringId_FooterSettings => 45
  | StringId_ConfirmDeleteTitle => 46
  | StringId_ConfirmDeleteMessage => 47
  | StringId_RecoveryTitle => 48
  | StringId_RecoveryMessage => 49
  | StringId_ButtonDelete => 50
  | StringId_ErrorPersistenceUnavailable => 51
  | StringId_ErrorNone => 52
  | StringId_ErrorNotInitialized => 53
  | StringId_ErrorAlreadyInitialized => 54
  | StringId_ErrorInvalidUserId => 55
  | StringId_ErrorInvalidBody => 56
  | StringId_ErrorTooManyMentions => 57
  | StringId_ErrorDuplicateMention => 58
  | StringId_ErrorReplyParentUnavailable => 59
  | StringId_ErrorQueueFull => 60
  | StringId_ErrorTimelineFull => 61
  | StringId_ErrorSequenceExhausted => 62
  | StringId_ErrorOrderExhausted => 63
  | StringId_ErrorRandomUnavailable => 64
  | StringId_ErrorMessageIdCollision => 65
  | StringId_ErrorInvalidPost => 66
  | StringId_ErrorDuplicatePost => 67
  | StringId_ErrorConflictingPost => 68
  | StringId_ErrorMessageNotFound => 69
  | StringId_ErrorNotLocalPost => 70
  | StringId_ErrorInvalidTransition => 71
  | StringId_ErrorInvalidCharacter => 72
  | StringId_UnknownError => 73
  | StringId_LanReady => 74
  | StringId_StatusQueuedForLan => 75
  | StringId_HeaderLanExit => 76
  | StringId_LanReadyNoDelivery => 77
  | StringId_MenuTalk => 78
  | StringId_MenuSettings => 79
  | StringId_SettingsSkipTitle => 80
  | StringId_ToggleOn => 81
  | StringId_ToggleOff => 82
  | StringId_FooterMenu => 83
  | StringId_Count => 84
  end.

Definition kLocaleCount : nat := locale_index Locale_Count.
Definition kStringIdCount : nat := string_index StringId_Count.

Definition kSupportedLocales : list Locale :=
  [Locale_English; Locale_Japanese; Locale_SimplifiedChinese].

Definition kEnglish : list bytes :=
  [str "LoRa Messenger";
   str "Timeline";
   str "Post detail";
   str "New post";
   str "Mentions";
   str "Settings";
   str "No messages yet";
   str "No people in local history";
   str "User ID";
   str "Language";
   str "Saved locally";
   str "Radio disabled";
   str "JP LoRa ready";
   str "Status";
   str "Error";
   str "Saved locally as queued. Radio is disabled; delivery is unconfirmed.";
   str "Queued for JP LoRa broadcast. Peer delivery is unconfirmed.";
   str "That post is no longer in local history.";
   str "Discard draft?";
   str "The unsent draft will be lost.";
   str "Exit LoRa Messenger?";
   str "Local settings and history will remain.";
   str "Cancel";
   str "Discard";
   str "Exit";
   str "Received";
   str "Queued";
   str "Broadcast";
   str "Failed";
   str "Unknown";
   str "Original post unavailable";
   str "A post can mention at most 4 people.";
   str "LOCAL";
   str "LOCAL / H Exit";
   str "JP LORA / H Exit";
   str "Radio disabled / no delivery confirmation";
   str "JP LoRa ready / no peer delivery confirmation";
   str "Bytes remaining";
   str "Reply";
   str "Mentioned you";
   str "Identity";
   str "^v Sel  Ent Open  N New  R Reply  M @  S Set";
   str "Up/Down Scroll  R Reply  M @  Esc Back";
   str "Type  Enter Send  Tab @  Esc Back";
   str "Up/Down Select  Enter Toggle  Esc Done";
   str "^v Select  <> Change  D Delete  Esc Back";
   str "Delete local data?";
   str "Settings and history will be removed, then the app will exit.";
   str "Recovery required";
   str "Local data cannot be opened. Exit without changes or delete all?";
   str "Delete";
   str "Local storage could not be saved.";
   str "No error";
   str "The messenger is not initialized.";
   str "The messenger is already initialized.";
   str "The user ID is invalid.";
   str "The post body is invalid.";
   str "Too many mentions.";
   str "The same person is mentioned more than once.";
   str "The reply target is no longer available.";
   str "The outbound queue is full.";
   str "The local timeline is full.";
   str "The sender sequence is exhausted.";
   str "The local timeline order is exhausted.";
   str "Secure random data is unavailable.";
   str "The generated message ID already exists.";
   str "The post is invalid.";
   str "This post is already in the timeline.";
   str "A different post uses the same message ID.";
   str "The requested post was not found.";
   str "The requested post is not a local post.";
   str "That status change is not allowed.";
   str "That character cannot be inserted.";
   str "An unknown error occurred.";
   str "Wi-Fi LAN ready";
   str "Queued for Wi-Fi LAN broadcast. Peer delivery is unconfirmed.";
   str "WIFI LAN / H Exit";
   str "Wi-Fi LAN ready / no peer delivery confirmation";
   str "Talk";
   str "Settings";
   str "Skip title on startup";
   str "ON";
   str "OFF";
   str "Up/Down Select  Enter Open  H Exit"].

Definition kJapanese : list bytes :=
  [str "LoRa Messenger";
   str "タイムライン";
   str "投稿の詳細";
   str "新しい投稿";
   str "メンション";
   str "設定";
   str "まだメッセージはありません";
   str "ローカル履歴にユーザーがいません";
   str "ユーザーID";
   str "言語";
   str "ローカルに保存済み";
   str "無線は無効です";
   str "日本LoRa使用可";
   str "状態";
   str "エラー";
   str "ローカル保存済みです。無線は無効で、配信確認はありません。";
   str "日本LoRa送信待ちです。配信確認はありません。";
   str "その投稿はローカル履歴にありません。";
   str "下書きを破棄しますか？";
   str "未送信の下書きは失われます。";
   str "LoRa Messengerを終了しますか？";
   str "ローカル設定と履歴は残ります。";
   str "キャンセル";
   str "破棄";
   str "終了";
   str "受信";
   str "送信待ち";
   str "送信済み";
   str "失敗";
   str "不明";
   str "元の投稿はありません";
   str "メンションは4人までです。";
   str "ローカル";
   str "ローカル / H 終了";
   str "日本LoRa / H 終了";
   str "無線無効 / 配信確認なし";
   str "日本LoRa使用可 / 配信確認なし";
   str "残りバイト";
   str "返信";
   str "あなた宛て";
   str "識別子";
   str "上下 選択  Ent 開く  N 新規  R 返信  M @  S 設定";
   str "上下 移動  R 返信  M @  Esc 戻る";
   str "入力  Enter 送信  Tab @  Esc 戻る";
   str "上下 選択  Enter 切替  Esc 完了";
   str "上下 選択  左右 切替  D 削除  Esc 戻る";
   str "ローカルデータを削除？";
   str "設定と履歴を削除して、アプリを終了します。";
   str "復旧が必要です";
   str "ローカルデータを開けません。変更せず終了、または全削除します。";
   str "削除";
   str "ローカル保存に失敗しました。";
   str "エラーはありません";
   str "メッセンジャーが初期化されていません。";
   str "メッセンジャーはすでに初期化されています。";
   str "ユーザーIDが無効です。";
   str "投稿本文が無効です。";
   str "メンションが多すぎます。";
   str "同じユーザーが重複しています。";
   str "返信先は利用できません。";
   str "送信待ちキューが満杯です。";
   str "ローカルタイムラインが満杯です。";
   str "送信シーケンスを発行できません。";
   str "ローカル順序を発行できません。";
   str "安全な乱数を利用できません。";
   str "生成したメッセージIDがすでに存在します。";
   str "投稿が無効です。";
   str "この投稿はすでにタイムラインにあります。";
   str "同じメッセージIDの異なる投稿があります。";
   str "指定した投稿が見つかりません。";
   str "指定した投稿はローカル投稿ではありません。";
   str "その状態変更は許可されていません。";
   str "その文字は入力できません。";
   str "不明なエラーが発生しました。";
   str "Wi-Fi LAN使用可";
   str "Wi-Fi LAN送信待ちです。配信確認はありません。";
   str "WIFI LAN / H 終了";
   str "Wi-Fi LAN使用可 / 配信確認なし";
   str "Talk";
   str "設定";
   str "Skip title";
   str "ON";
   str "OFF";
   str "上下 選択  Enter 開く  H 終了"].

Definition kSimplifiedChinese : list bytes :=
  [str "LoRa Messenger";
   str "时间线";
   str "帖子详情";
   str "新帖子";
   str "提及";
   str "设置";
   str "还没有消息";
   str "本地历史中没有用户";
   str "用户ID";
   str "语言";
   str "已保存到本地";
   str "无线电已禁用";
   str "日本LoRa可用";
   str "状态";
   str "错误";
   str "已在本地排队。无线电已禁用，也没有送达确认。";
   str "已在日本LoRa排队。没有送达确认。";
   str "该帖子已不在本地历史中。";
   str "放弃草稿？";
   str "未发送的草稿将丢失。";
   str "退出LoRa Messenger？";
   str "本地设置和历史记录会保留。";
   str "取消";
   str "放弃";
   str "退出";
   str "已接收";
   str "排队中";
   str "已广播";
   str "失败";
   str "未知";
   str "原帖子不可用";
   str "一条帖子最多可提及4人。";
   str "本地";
   str "本地 / H 退出";
   str "日本LoRa / H 退出";
   str "无线电已禁用 / 无送达确认";
   str "日本LoRa可用 / 无送达确认";
   str "剩余字节";
   str "回复";
   str "提及了你";
   str "身份标识";
   str "上下 选择  Ent 打开  N 新建  R 回复  M @  S 设置";
   str "上下 移动  R 回复  M @  Esc 返回";
   str "输入  Enter 发送  Tab @  Esc 返回";
   str "上下 选择  Enter 切换  Esc 完成";
   str "上下 选择  左右 切换  D 删除  Esc 返回";
   str "删除本地数据？";
   str "设置和历史记录将被删除，然后应用会退出。";
   str "需要恢复";
   str "无法打开本地数据。退出且不更改，或全部删除？";
   str "删除";
   str "无法保存本地数据。";
   str "没有错误";
   str "消息程序尚未初始化。";
   str "消息程序已经初始化。";
   str "用户ID无效。";
   str "帖子正文无效。";
   str "提及人数过多。";
   str "同一用户被重复提及。";
   str "回复目标已不可用。";
   str "发送队列已满。";
   str "本地时间线已满。";
   str "发送序号已耗尽。";
   str "本地时间线顺序已耗尽。";
   str "无法取得安全随机数据。";
   str "生成的消息ID已经存在。";
   str "帖子无效。";
   str "该帖子已在时间线中。";
   str "另一个帖子使用了相同的消息ID。";
   str "找不到指定的帖子。";
   str "指定的帖子不是本地帖子。";
   str "不允许该状态变更。";
   str "无法插入该字符。";
   str "发生未知错误。";
   str "Wi-Fi LAN可用";
   str "已在Wi-Fi LAN排队。没有送达确认。";
   str "WIFI LAN / H 退出";
   str "Wi-Fi LAN可用 / 无送达确认";
   str "Talk";
   str "设置";
   str "Skip title";
   str "ON";
   str "OFF";
   str "上下 选择  Enter 打开  H 退出"].

Definition kTranslations : list (list bytes) := [kEnglish; kJapanese; kSimplifiedChinese].

Definition kLocaleCodes : list bytes := [str "en"; str "ja"; str "zh-Hans"].
Definition kLocaleNames : list bytes := [str "English"; str "日本語"; str "简体中文"].

(** An element of an array; every index in the code is guarded. *)
Definition text_at (table : list bytes) (i : nat) : bytes := nth i table [].

Definition locale_code (locale : Locale) : bytes :=
  if (locale_index locale <? kLocaleCount)%nat then text_at kLocaleCodes (locale_index locale)
  else text_at kLocaleCodes (locale_index Locale_English).

Definition locale_display_name (locale : Locale) : bytes :=
  if (locale_index locale <? kLocaleCount)%nat then text_at kLocaleNames (locale_index locale)
  else text_at kLocaleNames (locale_index Locale_English).

Definition translate (locale : Locale) (id : StringId) : bytes :=
  let id_index := string_index id in
  if (kStringIdCount <=? id_index)%nat then text_at kEnglish (string_index StringId_UnknownError)
  else
    let i := locale_index locale in
    if (i <? kLocaleCount)%nat then
      let translated := text_at (nth i kTranslations []) id_index in
      if negb (bool_decide (translated = [])) then translated
      else text_at kEnglish id_index
    else text_at kEnglish id_index.

Definition translations_complete : bool :=
  forallb (forallb (fun value => negb (bool_decide (value = [])))) kTranslations.

Definition command_error_string_id (error : CommandError) : StringId :=
  match error with
  | CommandError_None => StringId_ErrorNone
  | CommandError_NotInitialized => StringId_ErrorNotInitialized
  | CommandError_AlreadyInitialized => StringId_ErrorAlreadyInitialized
  | CommandError_InvalidUserId => StringId_ErrorInvalidUserId
  | CommandError_InvalidBody => StringId_ErrorInvalidBody
  | CommandError_TooManyMentions => StringId_ErrorTooManyMentions
  | CommandError_DuplicateMention => StringId_ErrorDuplicateMention
  | CommandError_ReplyParentUnavailable => StringId_ErrorReplyParentUnavailable
  | CommandError_QueueFull => StringId_ErrorQueueFull
  | CommandError_TimelineFull => StringId_ErrorTimelineFull
  | CommandError_SequenceExhausted => StringId_ErrorSequenceExhausted
  | CommandError_OrderExhausted => StringId_ErrorOrderExhausted
  | CommandError_RandomUnavailable => StringId_ErrorRandomUnavailable
  | CommandError_MessageIdCollision => StringId_ErrorMessageIdCollision
  | CommandError_InvalidPost => StringId_ErrorInvalidPost
  | CommandError_DuplicatePost => StringId_ErrorDuplicatePost
  | CommandError_ConflictingPost => StringId_ErrorConflictingPost
  | CommandError_MessageNotFound => StringId_ErrorMessageNotFound
  | CommandError_NotLocalPost => StringId_ErrorNotLocalPost
  | CommandError_InvalidTransition => StringId_ErrorInvalidTransition
  | CommandError_PersistenceUnavailable => StringId_ErrorPersistenceUnavailable
  end.

(** ** The texts *)

(** The tables are as long as the enumeration. *)
Lemma tables_length :
  length kEnglish = kStringIdCount /\ length kJapanese = kStringIdCount /\
  length kSimplifiedChinese = kStringIdCount.
Proof. done. Qed.

Lemma tables_complete : translations_complete = true.
Proof. vm_compute. reflexivity. Qed.

(** Every text the program can show is not empty and is valid UTF-8. *)
Lemma translate_valid locale id :
  is_valid_utf8 (translate locale id) = true /\ translate locale id <> [].
Proof.
  assert (forallb (forallb (fun t => is_valid_utf8 t && negb (bool_decide (t = [])))) kTranslations = true)
    as H by (vm_compute; reflexivity).
  assert (forall table i, table ∈ kTranslations -> (i < kStringIdCount)%nat ->
    is_valid_utf8 (text_at table i) = true /\ text_at table i <> []) as Hall.
  { intros table i Ht Hi. apply forallb_Forall, (proj1 (Forall_forall _ _)) with (x := table) in H; [|done].
    apply forallb_Forall in H. unfold text_at.
    assert (length table = kStringIdCount) as Hl.
    { apply list_elem_of_In in Ht. by destruct Ht as [<-|[<-|[<-|[]]]]. }
    pose proof (proj1 (Forall_nth _ [] table) H i ltac:(rewrite Hl; exact Hi)) as Hi'. cbn beta in Hi'.
    reflect_bools. done. }
  assert (kEnglish ∈ kTranslations) as HE by by left.
  unfold translate. destruct (kStringIdCount <=? string_index id)%nat eqn:Ei; reflect_bools.
  { apply Hall; [done|]. vm_compute. lia. }
  destruct (locale_index locale <? kLocaleCount)%nat eqn:El; reflect_bools; [|by apply Hall].
  assert (nth (locale_index locale) kTranslations [] ∈ kTranslations) as Hn
    by by apply list_elem_of_In, nth_In.
  case_bool_decide; cbn [negb]; by apply Hall.
Qed.

Lemma locale_display_name_valid locale : is_valid_utf8 (locale_display_name locale) = true.
Proof. by destruct locale; vm_compute. Qed.
