(* ===== verification/ViewText.v ===== *)
(** * ViewText: the texts of the view model

    The local functions of src/viewmodel/messenger_view_model.cpp that work on
    texts: shortcuts, truncated previews, the wrapping of a post into the lines
    of the detail screen and the window of lines it shows.  The theory gives the
    wrapping loop a grammar over code points: a wrapped text is the text again,
    cut only at its newlines, at the last space of a full row, or, where a full
    row has no space, after thirteen characters. *)
From S2P Require Import Prelude Utf8 Uuid TextEditor.

(** ** Definitions *)

Definition kVisibleTimelineRows : nat := 2.
Definition kVisibleMentionRows : nat := 3.
Definition kTimelinePreviewBytes : nat := 72.
Definition kDetailLineColumns : nat := 26.
Definition kVisibleDetailLines : nat := 2.

Definition is_editable_scalar (codepoint : Z) : bool :=
  if (codepoint =? 0) || (0x10ffff <? codepoint) ||
     ((0xd800 <=? codepoint) && (codepoint <=? 0xdfff))
  then false
  else (0x20 <=? codepoint) && negb ((0x7f <=? codepoint) && (codepoint <=? 0x9f)).

(** The loop that backs up to a boundary is that of the editor. *)
Definition truncated_utf8 (value : bytes) (maximum_bytes : nat) : bytes :=
  if (length value <=? maximum_bytes)%nat then value
  else if (maximum_bytes <=? 3)%nat then repeat (to_u8 0x2e) maximum_bytes
  else take (skip_back value (maximum_bytes - 3)) value ++ str "...".

Definition utf8_scalar_length (lead : byte) : nat :=
  if bval lead <=? 0x7f then 1
  else if bval lead <=? 0xdf then 2
  else if bval lead <=? 0xef then 3
  else 4.

(** The loop of [detail_columns]; every iteration moves the offset forward. *)
Fixpoint columns_loop (fuel : nat) (rest : bytes) (columns : nat) : nat :=
  match fuel, rest with
  | S fuel, lead :: _ =>
      columns_loop fuel (drop (utf8_scalar_length lead) rest) (columns + 2)
  | _, _ => columns
  end.

Definition detail_columns (line : bytes) : nat := columns_loop (length line) line 0.

(** [std::string::find_last_of], [None] for [npos]. *)
Fixpoint find_last_of (c : byte) (line : bytes) : option nat :=
  match line with
  | [] => None
  | b :: line =>
      match find_last_of c line with
      | Some i => Some (S i)
      | None => if bool_decide (b = c) then Some O else None
      end
  end.

Definition newline_char : byte := to_u8 0x0a.
Definition space_char : byte := to_u8 0x20.

(** The locals of the wrapping loop; [wrapped.lines] is [done_lines] and then
    [current], its [back()]. *)
Record WrapState := mkWrapState {
  done_lines : list bytes;
  current : bytes;
  columns : nat;
  last_space : option nat
}.

Definition scalar_columns : nat := 2.

(** One iteration at the rest of the body: the new locals, and the bytes read. *)
Definition wrap_step (st : WrapState) (rest : bytes) (lead : byte) : WrapState * nat :=
  if bool_decide (lead = newline_char)
  then (mkWrapState (st.(done_lines) ++ [st.(current)]) [] 0 None, 1%nat)
  else
    let scalar_bytes := utf8_scalar_length lead in
    if (0 <? st.(columns))%nat && (kDetailLineColumns <? st.(columns) + scalar_columns)%nat
    then
      (match st.(last_space) with
       | Some space =>
           let carry := drop (S space) st.(current) in
           mkWrapState (st.(done_lines) ++ [take space st.(current)]) carry
             (detail_columns carry) (find_last_of space_char carry)
       | None => mkWrapState (st.(done_lines) ++ [st.(current)]) [] 0 None
       end, 0%nat)
    else
      let space :=
        if bool_decide (lead = space_char) then Some (length st.(current))
        else st.(last_space) in
      (mkWrapState st.(done_lines) (st.(current) ++ take scalar_bytes rest)
         (st.(columns) + scalar_columns) space, scalar_bytes).

Fixpoint wrap_loop (fuel : nat) (rest : bytes) (st : WrapState) : WrapState :=
  match fuel, rest with
  | S fuel, lead :: _ =>
      let (st, read) := wrap_step st rest lead in wrap_loop fuel (drop read rest) st
  | _, _ => st
  end.

Record WrappedDetailBody := mkWrappedDetailBody {
  lines : list bytes;
  maximum_scroll_line : nat
}.

(** A step that reads nothing is followed by one that does, so twice the length
    of the body is enough fuel. *)
Definition wrap_detail_body (body : bytes) : WrappedDetailBody :=
  let st := wrap_loop (S (2 * length body)) body (mkWrapState [] [] 0 None) in
  let lines := st.(done_lines) ++ [st.(current)] in
  mkWrappedDetailBody lines
    (if (kVisibleDetailLines <? length lines)%nat then length lines - kVisibleDetailLines
     else 0).

Fixpoint join_lines (ls : list bytes) : bytes :=
  match ls with
  | [] => []
  | [l] => l
  | l :: ls => l ++ [newline_char] ++ join_lines ls
  end.

Definition detail_window (wrapped : WrappedDetailBody) (scroll_line : nat) : bytes :=
  if bool_decide (wrapped.(lines) = []) then []
  else
    let first := Nat.min scroll_line wrapped.(maximum_scroll_line) in
    let last := Nat.min (length wrapped.(lines)) (first + kVisibleDetailLines) in
    join_lines (take (last - first) (drop first wrapped.(lines))).

Definition kSuffixLength : nat := 4.

Definition id_suffix (install_id : InstallId) : bytes :=
  let value := Uuid_to_string install_id.(InstallId_uuid) in
  if (length value <=? kSuffixLength)%nat then value
  else drop (length value - kSuffixLength) value.

(** ** Specification: wrapping code points *)

Definition kRow : nat := 13.

(** [Wrapped cps rows]: the text [cps] shown as [rows]. *)
Inductive Wrapped : list Z -> list (list Z) -> Prop :=
| Wrapped_last row : (length row <= kRow)%nat -> 0x0a ∉ row -> Wrapped row [row]
| Wrapped_newline row cps rows :
    (length row <= kRow)%nat -> 0x0a ∉ row -> Wrapped cps rows ->
    Wrapped (row ++ 0x0a :: cps) (row :: rows)
| Wrapped_space row word cps rows :
    (length row + 1 + length word = kRow)%nat -> 0x0a ∉ row -> 0x20 ∉ word ->
    Wrapped (word ++ cps) rows -> cps <> [] ->
    Wrapped (row ++ 0x20 :: word ++ cps) (row :: rows)
| Wrapped_full row cps rows :
    length row = kRow -> 0x0a ∉ row -> 0x20 ∉ row -> cps <> [] -> Wrapped cps rows ->
    Wrapped (row ++ cps) (row :: rows).

(** ** Characters and bytes *)

Lemma scalar_length_encode cp rest :
  is_scalar cp ->
  match encode_utf8 cp ++ rest with
  | [] => False
  | lead :: _ => utf8_scalar_length lead = length (encode_utf8 cp)
  end.
Proof.
  intros Hcp. destruct (encode_shape cp Hcp) as (b & conts & -> & _ & _ & H).
  cbn [app length]. unfold utf8_scalar_length. repeat split_if; reflect_bools; lia.
Qed.

Lemma columns_loop_text cps : forall fuel n,
  Forall is_scalar cps -> (length (utf8_text cps) <= fuel)%nat ->
  columns_loop fuel (utf8_text cps) n = (n + 2 * length cps)%nat.
Proof.
  induction cps as [|cp cps IH]; intros fuel n Hs Hf.
  { cbn. destruct fuel; cbn; lia. }
  apply Forall_cons in Hs as [Hcp Hs]. pose proof (encode_nonempty cp Hcp).
  rewrite utf8_text_cons, length_app in Hf.
  pose proof (scalar_length_encode cp (utf8_text cps) Hcp) as Hl. rewrite <- utf8_text_cons in Hl.
  destruct fuel as [|fuel]; [lia|]. cbn [columns_loop].
  destruct (utf8_text (cp :: cps)) as [|lead rest] eqn:E; [done|].
  rewrite Hl, <- E, utf8_text_cons, drop_app_length, IH by (done || lia). cbn [length]. lia.
Qed.

Lemma detail_columns_text cps :
  Forall is_scalar cps -> detail_columns (utf8_text cps) = (2 * length cps)%nat.
Proof. intros. unfold detail_columns. by rewrite columns_loop_text. Qed.

(** An ASCII character is one byte, and no other encoding contains it. *)
Lemma encode_ascii c : 0 <= c <= 0x7f -> encode_utf8 c = [to_u8 c].
Proof. intros. unfold encode_utf8. by rewrite (proj2 (Z.leb_le _ _)) by lia. Qed.

Lemma ascii_in_encode c cp :
  0 <= c <= 0x7f -> is_scalar cp -> to_u8 c ∈ encode_utf8 cp -> cp = c.
Proof.
  intros Hc [Hr Hs] Hin.
  assert (0 <= cp <= 0x7f \/ 0x80 <= cp <= 0x7ff \/ 0x800 <= cp <= 0xffff \/
          0x10000 <= cp <= 0x10ffff) as Hcases by lia.
  assert (c ∈ map bval (encode_utf8 cp)) as Hm.
  { rewrite <- (bval_to_u8_small c) by lia. by apply (list_elem_of_fmap_2 bval). }
  destruct Hcases as [H|[H|[H|H]]];
    [rewrite (encode_1 cp H) in Hm|rewrite (encode_2 cp H) in Hm|
     rewrite (encode_3 cp H Hs) in Hm|rewrite (encode_4 cp H) in Hm];
    rewrite !elem_of_cons, elem_of_nil in Hm; zdiv_lia.
Qed.

Lemma encode_lead_ascii c cp rest lead tl :
  0 <= c <= 0x7f -> is_scalar cp -> encode_utf8 cp ++ rest = lead :: tl ->
  lead = to_u8 c <-> cp = c.
Proof.
  intros Hc Hcp E. pose proof (encode_nonempty cp Hcp).
  destruct (encode_utf8 cp) as [|b conts] eqn:Ee; [simpl in *; lia|]. injection E as <- _.
  split; [|intros ->; rewrite encode_ascii in Ee by done; by injection Ee].
  intros ->. apply (ascii_in_encode c cp Hc Hcp). rewrite Ee. by left.
Qed.

(** The last space of a text, in characters and in bytes. *)
Lemma find_last_of_app c l l' :
  find_last_of c (l ++ l') =
  match find_last_of c l' with
  | Some i => Some (length l + i)%nat
  | None => find_last_of c l
  end.
Proof.
  induction l as [|b l IH]; cbn; [by destruct (find_last_of c l')|].
  rewrite IH. destruct (find_last_of c l'); done.
Qed.

Lemma find_last_of_None c l : c ∉ l -> find_last_of c l = None.
Proof.
  induction l as [|b l IH]; [done|]. rewrite not_elem_of_cons. intros [Hne Hl]. cbn.
  rewrite IH by done. by rewrite bool_decide_eq_false_2 by done.
Qed.

Lemma ascii_in_text c cps :
  0 <= c <= 0x7f -> Forall is_scalar cps -> to_u8 c ∈ utf8_text cps -> c ∈ cps.
Proof.
  intros Hc Hs Hin. induction Hs as [|cp cps Hcp Hs IH]; [by apply elem_of_nil in Hin|].
  rewrite utf8_text_cons in Hin. apply elem_of_app in Hin as [Hin|Hin].
  - apply ascii_in_encode in Hin as ->; [by left|done..].
  - right. by apply IH.
Qed.

Lemma last_space_cases cps :
  Forall is_scalar cps ->
  ((0x20 ∉ cps) /\ find_last_of space_char (utf8_text cps) = None) \/
  (exists row word, cps = row ++ 0x20 :: word /\ (0x20 ∉ word) /\
    find_last_of space_char (utf8_text cps) = Some (length (utf8_text row))).
Proof.
  intros Hs. destruct (decide (0x20 ∈ cps)) as [Hin|Hnin].
  - right. apply list_elem_of_split_r in Hin as (row & word & -> & Hw).
    exists row, word. split_and!; [done..|].
    apply Forall_app in Hs as [_ [_ Hword]%Forall_cons].
    rewrite utf8_text_app, find_last_of_app, utf8_text_cons, find_last_of_app.
    rewrite (find_last_of_None _ (utf8_text word)).
    + change (encode_utf8 0x20) with [space_char]. cbn. f_equal. lia.
    + intros Hin. apply (ascii_in_text 0x20) in Hin; [done|lia|done].
  - left. split; [done|]. apply find_last_of_None.
    intros Hin. apply (ascii_in_text 0x20) in Hin; [done|lia|done].
Qed.

(** ** The wrapping loop *)

(** The locals when the rows [fin] are complete and [cur] is being filled. *)
Definition wrap_state (fin : list (list Z)) (cur : list Z) : WrapState :=
  mkWrapState (map utf8_text fin) (utf8_text cur) (2 * length cur)
    (find_last_of space_char (utf8_text cur)).

Lemma wrap_step_spec fin cur cp cps lead tl :
  Forall is_scalar cur -> is_scalar cp -> (length cur <= kRow)%nat ->
  utf8_text (cp :: cps) = lead :: tl ->
  wrap_step (wrap_state fin cur) (lead :: tl) lead =
  if bool_decide (cp = 0x0a) then (wrap_state (fin ++ [cur]) [], 1%nat)
  else if bool_decide (length cur = kRow) then
    (match find_last_of space_char (utf8_text cur) with
     | Some space =>
         let carry := drop (S space) (utf8_text cur) in
         mkWrapState (map utf8_text fin ++ [take space (utf8_text cur)]) carry
           (detail_columns carry) (find_last_of space_char carry)
     | None => wrap_state (fin ++ [cur]) []
     end, 0%nat)
  else (wrap_state fin (cur ++ [cp]), length (encode_utf8 cp)).
Proof.
  intros Hcur Hcp Hlen E. unfold wrap_step.
  pose proof (scalar_length_encode cp (utf8_text cps) Hcp) as Hl.
  rewrite utf8_text_cons in E. rewrite E in Hl.
  pose proof (encode_lead_ascii 0x0a cp _ _ _ ltac:(lia) Hcp E) as Hnl.
  pose proof (encode_lead_ascii 0x20 cp _ _ _ ltac:(lia) Hcp E) as Hsp.
  cbn [done_lines current columns last_space wrap_state].
  rewrite (bool_decide_ext _ _ Hnl). case_bool_decide; [by unfold wrap_state; rewrite map_app|].
  replace ((0 <? 2 * length cur)%nat && (kDetailLineColumns <? 2 * length cur + scalar_columns)%nat)
    with (bool_decide (length cur = kRow)).
  2: { unfold kDetailLineColumns, scalar_columns, kRow in *.
       case_bool_decide; symmetry; [apply andb_true_iff|apply andb_false_iff];
         rewrite ?Nat.ltb_lt, ?Nat.ltb_ge; lia. }
  case_bool_decide.
  - f_equal. destruct (find_last_of space_char (utf8_text cur)); [done|].
    unfold wrap_state. by rewrite map_app.
  - rewrite (bool_decide_ext _ _ Hsp), Hl, <- E, take_app_length, <- utf8_text_snoc.
    unfold wrap_state. f_equal. f_equal.
    + rewrite length_app. unfold scalar_columns. cbn. lia.
    + rewrite utf8_text_snoc, find_last_of_app. case_bool_decide as Hs.
      * subst cp. change (encode_utf8 0x20) with [space_char]. cbn. f_equal. lia.
      * rewrite (find_last_of_None _ (encode_utf8 cp)); [done|].
        intros Hin. apply Hs. apply (ascii_in_encode 0x20); [lia|done..].
Qed.

Lemma row_not_full {A} (row : list A) :
  (length row < kRow)%nat -> (if bool_decide (length row = kRow) then 1 else 0)%nat = 0%nat.
Proof. intros. by rewrite bool_decide_eq_false_2 by lia. Qed.

Lemma wrap_loop_spec fuel : forall cps fin cur,
  Forall is_scalar cur -> Forall is_scalar cps -> (length cur <= kRow)%nat -> 0x0a ∉ cur ->
  (2 * length cps + (if bool_decide (length cur = kRow) then 1 else 0) < fuel)%nat ->
  exists rows st, wrap_loop fuel (utf8_text cps) (wrap_state fin cur) = st /\
    st.(done_lines) ++ [st.(current)] = map utf8_text (fin ++ rows) /\
    Wrapped (cur ++ cps) rows.
Proof.
  induction fuel as [|fuel IH]; intros cps fin cur Hcur Hcps Hlen Hnl Hf; [lia|].
  destruct cps as [|cp cps].
  { exists [cur], (wrap_state fin cur). split; [done|]. cbn [done_lines current wrap_state].
    rewrite map_app, app_nil_r. split; [done|]. by constructor. }
  apply Forall_cons in Hcps as [Hcp Hcps]. pose proof (encode_nonempty cp Hcp).
  destruct (utf8_text (cp :: cps)) as [|lead tl] eqn:E.
  { apply (f_equal length) in E. rewrite utf8_text_cons, length_app in E. cbn in E. lia. }
  cbn [wrap_loop]. rewrite (wrap_step_spec fin cur cp cps lead tl) by done.
  cbn [length] in Hf.
  assert (2 * length cps + 1 < fuel)%nat as Hf1 by (revert Hf; case_bool_decide; lia).
  destruct (decide (cp = 0x0a)) as [->|Hn];
    [rewrite bool_decide_eq_true_2 by done|rewrite bool_decide_eq_false_2 by done].
  { rewrite <- E, utf8_text_cons. change (drop 1 _) with (utf8_text cps).
    destruct (IH cps (fin ++ [cur]) []) as (rows & st & Hrun & Hd & Hw); try done.
    { cbn. unfold kRow. lia. } { apply not_elem_of_nil. } { rewrite row_not_full; [lia|cbn; unfold kRow; lia]. }
    exists (cur :: rows), st. split; [done|]. rewrite Hd, <- app_assoc. split; [done|].
    by constructor. }
  destruct (decide (length cur = kRow)) as [Hfull|Hfull].
  - rewrite (bool_decide_eq_true_2 (length cur = kRow)) in * by done.
    rewrite drop_0, <- E.
    destruct (last_space_cases cur Hcur) as [[Hns ->]|(row & word & -> & Hw & ->)].
    + destruct (IH (cp :: cps) (fin ++ [cur]) []) as (rows & st & Hrun & Hd & Hw);
        [done|by constructor| | | |].
      { cbn. unfold kRow. lia. } { apply not_elem_of_nil. } { rewrite row_not_full; [cbn [length]; lia|cbn; unfold kRow; lia]. }
      exists (cur :: rows), st. split; [done|]. rewrite Hd, <- app_assoc. split; [done|].
      by apply Wrapped_full.
    + apply Forall_app in Hcur as [Hrow [_ Hword]%Forall_cons].
      rewrite length_app in Hfull. cbn [length] in Hfull.
      rewrite utf8_text_app, take_app_length.
      replace (S (length (utf8_text row))) with (length (utf8_text row) + 1)%nat by lia.
      rewrite drop_app_add. change (drop 1 (utf8_text (0x20 :: word))) with (utf8_text word).
      cbv zeta. rewrite detail_columns_text by done.
      apply not_elem_of_app in Hnl as [Hr [_ Hwn]%not_elem_of_cons].
      destruct (IH (cp :: cps) (fin ++ [row]) word) as (rows & st & Hrun & Hd & Hwr);
        [done|by constructor|lia|done| |].
      { rewrite row_not_full by lia. cbn [length]. lia. }
      unfold wrap_state at 1 in Hrun. rewrite map_app in Hrun.
      exists (row :: rows), st. split; [done|]. rewrite Hd, <- app_assoc. split; [done|].
      rewrite <- app_assoc. cbn [app]. apply Wrapped_space; try done. lia.
  - rewrite (bool_decide_eq_false_2 (length cur = kRow)) in * by done.
    rewrite <- E, utf8_text_cons, drop_app_length.
    destruct (IH cps fin (cur ++ [cp])) as (rows & st & Hrun & Hd & Hw).
    { apply Forall_app. split; [done|by constructor]. } { done. } { rewrite length_app. cbn. lia. }
    { apply not_elem_of_app. split; [done|]. apply not_elem_of_cons. split; [done|apply not_elem_of_nil]. }
    { case_bool_decide; lia. }
    exists rows, st. split; [done|]. split; [done|]. by rewrite <- app_assoc in Hw.
Qed.

Lemma length_text_bound cps : Forall is_scalar cps -> (length cps <= length (utf8_text cps))%nat.
Proof.
  induction 1 as [|cp cps Hcp _ IH]; [done|]. pose proof (encode_nonempty cp Hcp).
  rewrite utf8_text_cons, length_app. cbn [length]. lia.
Qed.

Lemma wrap_detail_body_wrapped cps :
  Forall is_scalar cps ->
  exists rows, (wrap_detail_body (utf8_text cps)).(lines) = map utf8_text rows /\ Wrapped cps rows.
Proof.
  intros Hs. unfold wrap_detail_body. pose proof (length_text_bound cps Hs).
  destruct (wrap_loop_spec (S (2 * length (utf8_text cps))) cps [] [])
    as (rows & st & Hrun & Hd & Hw);
    [done|done|cbn; unfold kRow; lia|apply not_elem_of_nil|rewrite row_not_full by (cbn; unfold kRow; lia); lia|].
  change (wrap_state [] []) with (mkWrapState [] [] 0 None) in Hrun. rewrite Hrun.
  by exists rows.
Qed.

(** ** Windows *)

Lemma wrapped_rows cps rows :
  Wrapped cps rows -> Forall is_scalar cps ->
  rows <> [] /\ Forall (fun row => Forall is_scalar row /\ (length row <= kRow)%nat /\ (0x0a ∉ row)) rows.
Proof.
  induction 1 as [row Hl Hn|row cps rows Hl Hn _ IH|row word cps rows Hl Hn _ _ IH _|
                  row cps rows Hl Hn _ _ _ IH];
    intros Hs; (split; [done|]); rewrite ?Forall_app, ?Forall_cons, ?Forall_app in *; [done|..];
    (split; [|apply IH; tauto]); (split; [tauto|]); (split; [lia|done]).
Qed.

(** What the detail screen shows at a scroll position. *)
Lemma detail_window_rows body rows scroll :
  (wrap_detail_body body).(lines) = map utf8_text rows -> rows <> [] ->
  let wrapped := wrap_detail_body body in
  wrapped.(maximum_scroll_line) = (length rows - kVisibleDetailLines)%nat /\
  detail_window wrapped scroll =
    join_lines (map utf8_text
      (take kVisibleDetailLines (drop (Nat.min scroll wrapped.(maximum_scroll_line)) rows))).
Proof.
  intros E Hne wrapped.
  assert (wrapped.(maximum_scroll_line) = (length rows - kVisibleDetailLines)%nat) as Hm.
  { unfold wrapped. revert E. unfold wrap_detail_body. cbn [lines maximum_scroll_line]. intros ->.
    rewrite length_map. destruct (_ <? _)%nat eqn:El; reflect_bools; unfold kVisibleDetailLines in *; lia. }
  split; [done|]. unfold detail_window, wrapped. rewrite E.
  rewrite bool_decide_eq_false_2 by (intros [=H%map_eq_nil]; done).
  fold wrapped. rewrite Hm, length_map, <- fmap_drop, <- fmap_take.
  unfold kVisibleDetailLines. f_equal. f_equal.
  set (first := Nat.min scroll (length rows - 2)).
  destruct (decide (length rows <= 2)%nat).
  - assert (first = 0%nat) as -> by (unfold first; lia). 
    rewrite drop_0, !take_ge by lia. done.
  - f_equal. unfold first. lia.
Qed.

(** Every row is in some window. *)
Lemma row_in_window (n i : nat) :
  (i < n)%nat ->
  exists scroll, (scroll <= n - kVisibleDetailLines /\ scroll <= i < scroll + kVisibleDetailLines)%nat.
Proof.
  unfold kVisibleDetailLines. intros. exists (Nat.min i (n - 2)). lia.
Qed.

(** ** Truncation *)

(** The character an offset falls into. *)
Lemma cut_at cps : forall n,
  Forall is_scalar cps -> (n < length (utf8_text cps))%nat ->
  exists l cp r, cps = l ++ cp :: r /\
    (length (utf8_text l) <= n < length (utf8_text l) + length (encode_utf8 cp))%nat.
Proof.
  induction cps as [|cp cps IH]; intros n Hs Hn; [cbn in Hn; lia|].
  apply Forall_cons in Hs as [Hcp Hs]. rewrite utf8_text_cons, length_app in Hn.
  destruct (decide (n < length (encode_utf8 cp))%nat) as [Hlt|Hge].
  { exists [], cp, cps. split; [done|]. cbn. lia. }
  destruct (IH (n - length (encode_utf8 cp))%nat Hs ltac:(lia)) as (l & c & r & -> & H).
  exists (cp :: l), c, r. split; [done|]. rewrite utf8_text_cons, length_app. lia.
Qed.

Lemma skip_back_cut cps n :
  Forall is_scalar cps -> (n < length (utf8_text cps))%nat ->
  exists l cp r, cps = l ++ cp :: r /\ skip_back (utf8_text cps) n = length (utf8_text l) /\
    (length (utf8_text l) <= n < length (utf8_text l) + length (encode_utf8 cp))%nat.
Proof.
  intros Hs Hn. destruct (cut_at cps n Hs Hn) as (l & cp & r & -> & H).
  exists l, cp, r. split; [done|]. split; [|done].
  apply Forall_app in Hs as [_ [Hcp _]%Forall_cons].
  destruct (encode_shape cp Hcp) as (b & conts & E & Hb & Hc & _).
  rewrite utf8_text_app, utf8_text_cons, E. rewrite E in H. cbn [length] in H. cbn [app].
  replace n with (length (utf8_text l) + (n - length (utf8_text l)))%nat by lia.
  apply skip_back_run; [done..|lia].
Qed.

(** The longest prefix of whole characters that leaves room for the dots. *)
Lemma truncated_utf8_spec cps n :
  Forall is_scalar cps -> (3 < n)%nat -> (n < length (utf8_text cps))%nat ->
  exists l cp r, cps = l ++ cp :: r /\ truncated_utf8 (utf8_text cps) n = utf8_text l ++ str "..." /\
    (length (utf8_text l) + 3 <= n < length (utf8_text l) + length (encode_utf8 cp) + 3)%nat.
Proof.
  intros Hs H3 Hn. unfold truncated_utf8.
  rewrite (proj2 (Nat.leb_gt _ _)), (proj2 (Nat.leb_gt _ _)) by done.
  destruct (skip_back_cut cps (n - 3) Hs ltac:(lia)) as (l & cp & r & E & -> & H).
  exists l, cp, r. split; [done|]. split; [|lia]. by rewrite E, utf8_text_app, take_app_length.
Qed.

Lemma valid_text cps : Forall is_scalar cps -> is_valid_utf8 (utf8_text cps) = true.
Proof. intros. apply is_valid_utf8_valid. by exists cps. Qed.

Lemma valid_app s t :
  is_valid_utf8 s = true -> is_valid_utf8 t = true -> is_valid_utf8 (s ++ t) = true.
Proof.
  intros (a & Ha & ->)%is_valid_utf8_valid (b & Hb & ->)%is_valid_utf8_valid.
  rewrite <- utf8_text_app. apply valid_text. by apply Forall_app.
Qed.

Lemma truncated_valid s n :
  is_valid_utf8 s = true -> (3 < n)%nat ->
  is_valid_utf8 (truncated_utf8 s n) = true /\ (length (truncated_utf8 s n) <= n)%nat.
Proof.
  intros (cps & Hs & ->)%is_valid_utf8_valid Hn.
  destruct (decide (n < length (utf8_text cps))%nat) as [Hlt|Hge].
  - destruct (truncated_utf8_spec cps n Hs Hn Hlt) as (l & cp & r & -> & -> & Hb).
    apply Forall_app in Hs as [Hl _]. split.
    + apply valid_app; [by apply valid_text|done].
    + rewrite length_app. cbn [length str]. cbn. lia.
  - unfold truncated_utf8. rewrite (proj2 (Nat.leb_le _ _)) by lia. split; [by apply valid_text|lia].
Qed.

Lemma join_valid rows :
  Forall (Forall is_scalar) rows -> is_valid_utf8 (join_lines (map utf8_text rows)) = true.
Proof.
  induction 1 as [|row rows Hrow _ IH]; [done|]. cbn [map join_lines].
  destruct rows as [|row' rows]; [by apply valid_text|].
  apply valid_app; [by apply valid_text|]. by apply valid_app.
Qed.

Lemma detail_window_valid body scroll :
  is_valid_utf8 body = true -> is_valid_utf8 (detail_window (wrap_detail_body body) scroll) = true.
Proof.
  intros (cps & Hs & ->)%is_valid_utf8_valid.
  destruct (wrap_detail_body_wrapped cps Hs) as (rows & E & Hw).
  destruct (wrapped_rows _ _ Hw Hs) as [Hne Hrows].
  destruct (detail_window_rows _ _ scroll E Hne) as [_ ->].
  apply join_valid. apply Forall_take, Forall_drop.
  eapply Forall_impl; [exact Hrows|]. by intros row [? _].
Qed.

(** ** Property theorems *)

(** The detail screen shows the whole post.  For every valid body the
    wrapping loop ends, its rows are the body again cut as [Wrapped] says - at
    newlines, at the last space of a full row, or after thirteen characters
    where there is none - so nothing but those spaces and newlines is left out
    and no row has more than the 26 columns; each scroll position shows two
    consecutive rows, and every row is shown at some position up to
    [maximum_scroll_line]. *)
Theorem wrap_detail_body_faithful body :
  is_valid_utf8 body = true ->
  let wrapped := wrap_detail_body body in
  exists cps rows,
    body = utf8_text cps /\ wrapped.(lines) = map utf8_text rows /\ Wrapped cps rows /\
    Forall (fun row => (scalar_columns * length row <= kDetailLineColumns)%nat) rows /\
    (forall scroll, (scroll <= wrapped.(maximum_scroll_line))%nat ->
       detail_window wrapped scroll =
         join_lines (map utf8_text (take kVisibleDetailLines (drop scroll rows)))) /\
    (forall i, (i < length rows)%nat ->
       exists scroll, (scroll <= wrapped.(maximum_scroll_line))%nat /\
         (scroll <= i < scroll + kVisibleDetailLines)%nat).
Proof.
  intros (cps & Hs & ->)%is_valid_utf8_valid wrapped.
  destruct (wrap_detail_body_wrapped cps Hs) as (rows & E & Hw).
  destruct (wrapped_rows _ _ Hw Hs) as [Hne Hrows].
  destruct (detail_window_rows _ _ 0 E Hne) as [Hm _]. fold wrapped in Hm.
  exists cps, rows. split_and!; [done..| | |].
  - eapply Forall_impl; [exact Hrows|]. intros row (_ & Hl & _).
    unfold scalar_columns, kDetailLineColumns, kRow in *. lia.
  - intros scroll Hscroll. destruct (detail_window_rows _ _ scroll E Hne) as [_ Hd].
    fold wrapped in Hd. by rewrite Hd, Nat.min_l.
  - intros i Hi. rewrite Hm. by apply row_in_window.
Qed.

Definition sample_body : bytes := str "the quick brown fox".

Lemma wrap_detail_body_faithful_witness :
  is_valid_utf8 sample_body = true /\
  (wrap_detail_body sample_body).(lines) = [str "the quick"; str "brown fox"] /\
  exists cps rows, sample_body = utf8_text cps /\ Wrapped cps rows /\ length rows = 2%nat.
Proof.
  assert ((wrap_detail_body sample_body).(lines) = [str "the quick"; str "brown fox"]) as E
    by (vm_compute; reflexivity).
  split; [vm_compute; reflexivity|]. split; [exact E|].
  destruct (wrap_detail_body_faithful sample_body ltac:(vm_compute; reflexivity))
    as (cps & rows & Hb & Hl & Hw & _).
  exists cps, rows. split; [exact Hb|]. split; [exact Hw|].
  rewrite <- (length_map utf8_text), <- Hl, E. reflexivity.
Defined.
