(* ===== verification/ViewModel.v ===== *)
(** * ViewModel: the state machine of the user interface

    src/viewmodel/messenger_view_model.cpp: six screens, seven modals, a draft
    and the keys that move between them.  The view model holds references to the
    messenger and to the settings port; here they are one world [X] that every
    operation is given and returns, behind the two interfaces below.  An
    operation answers [None] where the code would dereference a null entry,
    which [ViewModelTheory] excludes. *)
From S2P Require Import Prelude Utf8 Text Uuid Identity Post Timeline MessengerState TextEditor I18n ViewText.

(** ** Definitions *)

(** *** The interfaces *)

(** [application::MessengerState], as the view model uses it. *)
Class IMessenger (X : Type) := {
  messenger_of : X -> MessengerState;
  compose_post_draft : X -> PostDraft -> CommandResult * X
}.

Class IUiSettingsCommit (X : Type) := {
  persist_locale : X -> Locale -> bool * X;
  persist_skip_title : X -> bool -> bool * X
}.

(** *** The data *)

Inductive ScreenId :=
| Screen_Menu
| Screen_Timeline
| Screen_Detail
| Screen_Compose
| Screen_Mentions
| Screen_Settings.

Inductive ModalId :=
| Modal_None
| Modal_Status
| Modal_Error
| Modal_Discard
| Modal_Exit
| Modal_DeleteData
| Modal_Recovery.

Inductive UiKey :=
| Key_Character
| Key_Up
| Key_Down
| Key_Left
| Key_Right
| Key_Enter
| Key_Escape
| Key_Home
| Key_Backspace
| Key_Delete
| Key_Tab.

Inductive MenuItem := Menu_Talk | Menu_Settings.
Inductive SettingsItem := Settings_Language | Settings_SkipTitle.
Inductive TransportStatus := Transport_Offline | Transport_LoRa | Transport_WifiLan.

#[global] Instance ScreenId_eq_decision : EqDecision ScreenId.
Proof. solve_decision. Defined.
#[global] Instance ModalId_eq_decision : EqDecision ModalId.
Proof. solve_decision. Defined.
#[global] Instance UiKey_eq_decision : EqDecision UiKey.
Proof. solve_decision. Defined.
#[global] Instance SettingsItem_eq_decision : EqDecision SettingsItem.
Proof. solve_decision. Defined.
#[global] Instance TransportStatus_eq_decision : EqDecision TransportStatus.
Proof. solve_decision. Defined.

Record KeyEvent := mkKeyEvent {
  key : UiKey;
  character : Z
}.

Record UiAction := mkUiAction {
  render_required : bool;
  exit_approved : bool;
  delete_data_approved : bool
}.

(** [{}], [{true, false}] and [{b, false}]. *)
Definition no_action : UiAction := mkUiAction false false false.
Definition render : UiAction := mkUiAction true false false.
Definition render_if (changed : bool) : UiAction := mkUiAction changed false false.

Record Draft := mkDraft {
  draft_editor : TextEditor;
  draft_people : list InstallId;
  draft_parent : option MessageId
}.

Definition Draft_make : Draft := mkDraft (TextEditor_make kMaxPostBodyBytes) [] None.

Definition draft_dirty (d : Draft) : bool :=
  negb (editor_empty d.(draft_editor)) || negb (bool_decide (d.(draft_people) = [])).

Definition draft_reset (d : Draft) : Draft := mkDraft (clear d.(draft_editor)) [] None.

Record ActiveModal := mkActiveModal {
  modal_id : ModalId;
  modal_message : StringId;
  modal_confirm_selected : bool
}.

(** [ActiveModal{}]. *)
Definition no_modal : ActiveModal := mkActiveModal Modal_None StringId_UnknownError false.

Record MessengerViewModel := mkMessengerViewModel {
  locale_ : Locale;
  settings_commit_ : bool;
  radio_ready_ : bool;
  transport_status_ : TransportStatus;
  screen_ : ScreenId;
  compose_return_screen_ : ScreenId;
  settings_return_screen_ : ScreenId;
  active_modal_ : ActiveModal;
  selected_message_id_ : option MessageId;
  detail_message_id_ : option MessageId;
  detail_scroll_line_ : nat;
  draft_ : Draft;
  peers_ : list InstallId;
  peer_cursor_ : nat;
  menu_item_ : MenuItem;
  settings_item_ : SettingsItem;
  skip_title_ : bool
}.

(** Assignments to the members. *)
Definition set_locale (v : Locale) (vm : MessengerViewModel) : MessengerViewModel :=
  mkMessengerViewModel v vm.(settings_commit_) vm.(radio_ready_) vm.(transport_status_)
    vm.(screen_) vm.(compose_return_screen_) vm.(settings_return_screen_) vm.(active_modal_)
    vm.(selected_message_id_) vm.(detail_message_id_) vm.(detail_scroll_line_) vm.(draft_)
    vm.(peers_) vm.(peer_cursor_) vm.(menu_item_) vm.(settings_item_) vm.(skip_title_).
Definition set_settings_commit (v : bool) (vm : MessengerViewModel) : MessengerViewModel :=
  mkMessengerViewModel vm.(locale_) v vm.(radio_ready_) vm.(transport_status_) vm.(screen_)
    vm.(compose_return_screen_) vm.(settings_return_screen_) vm.(active_modal_)
    vm.(selected_message_id_) vm.(detail_message_id_) vm.(detail_scroll_line_) vm.(draft_)
    vm.(peers_) vm.(peer_cursor_) vm.(menu_item_) vm.(settings_item_) vm.(skip_title_).
Definition set_radio_ready (v : bool) (vm : MessengerViewModel) : MessengerViewModel :=
  mkMessengerViewModel vm.(locale_) vm.(settings_commit_) v vm.(transport_status_)
    vm.(screen_) vm.(compose_return_screen_) vm.(settings_return_screen_) vm.(active_modal_)
    vm.(selected_message_id_) vm.(detail_message_id_) vm.(detail_scroll_line_) vm.(draft_)
    vm.(peers_) vm.(peer_cursor_) vm.(menu_item_) vm.(settings_item_) vm.(skip_title_).
Definition set_transport_status (v : TransportStatus) (vm : MessengerViewModel) : MessengerViewModel :=
  mkMessengerViewModel vm.(locale_) vm.(settings_commit_) vm.(radio_ready_) v vm.(screen_)
    vm.(compose_return_screen_) vm.(settings_return_screen_) vm.(active_modal_)
    vm.(selected_message_id_) vm.(detail_message_id_) vm.(detail_scroll_line_) vm.(draft_)
    vm.(peers_) vm.(peer_cursor_) vm.(menu_item_) vm.(settings_item_) vm.(skip_title_).
Definition set_screen (v : ScreenId) (vm : MessengerViewModel) : MessengerViewModel :=
  mkMessengerViewModel vm.(locale_) vm.(settings_commit_) vm.(radio_ready_)
    vm.(transport_status_) v vm.(compose_return_screen_) vm.(settings_return_screen_)
    vm.(active_modal_) vm.(selected_message_id_) vm.(detail_message_id_)
    vm.(detail_scroll_line_) vm.(draft_) vm.(peers_) vm.(peer_cursor_) vm.(menu_item_)
    vm.(settings_item_) vm.(skip_title_).
Definition set_compose_return_screen (v : ScreenId) (vm : MessengerViewModel) : MessengerViewModel :=
  mkMessengerViewModel vm.(locale_) vm.(settings_commit_) vm.(radio_ready_)
    vm.(transport_status_) vm.(screen_) v vm.(settings_return_screen_) vm.(active_modal_)
    vm.(selected_message_id_) vm.(detail_message_id_) vm.(detail_scroll_line_) vm.(draft_)
    vm.(peers_) vm.(peer_cursor_) vm.(menu_item_) vm.(settings_item_) vm.(skip_title_).
Definition set_settings_return_screen (v : ScreenId) (vm : MessengerViewModel) : MessengerViewModel :=
  mkMessengerViewModel vm.(locale_) vm.(settings_commit_) vm.(radio_ready_)
    vm.(transport_status_) vm.(screen_) vm.(compose_return_screen_) v vm.(active_modal_)
    vm.(selected_message_id_) vm.(detail_message_id_) vm.(detail_scroll_line_) vm.(draft_)
    vm.(peers_) vm.(peer_cursor_) vm.(menu_item_) vm.(settings_item_) vm.(skip_title_).
Definition set_active_modal (v : ActiveModal) (vm : MessengerViewModel) : MessengerViewModel :=
  mkMessengerViewModel vm.(locale_) vm.(settings_commit_) vm.(radio_ready_)
    vm.(transport_status_) vm.(screen_) vm.(compose_return_screen_)
    vm.(settings_return_screen_) v vm.(selected_message_id_) vm.(detail_message_id_)
    vm.(detail_scroll_line_) vm.(draft_) vm.(peers_) vm.(peer_cursor_) vm.(menu_item_)
    vm.(settings_item_) vm.(skip_title_).
Definition set_selected_message_id (v : option MessageId) (vm : MessengerViewModel) : MessengerViewModel :=
  mkMessengerViewModel vm.(locale_) vm.(settings_commit_) vm.(radio_ready_)
    vm.(transport_status_) vm.(screen_) vm.(compose_return_screen_)
    vm.(settings_return_screen_) vm.(active_modal_) v vm.(detail_message_id_)
    vm.(detail_scroll_line_) vm.(draft_) vm.(peers_) vm.(peer_cursor_) vm.(menu_item_)
    vm.(settings_item_) vm.(skip_title_).
Definition set_detail_message_id (v : option MessageId) (vm : MessengerViewModel) : MessengerViewModel :=
  mkMessengerViewModel vm.(locale_) vm.(settings_commit_) vm.(radio_ready_)
    vm.(transport_status_) vm.(screen_) vm.(compose_return_screen_)
    vm.(settings_return_screen_) vm.(active_modal_) vm.(selected_message_id_) v
    vm.(detail_scroll_line_) vm.(draft_) vm.(peers_) vm.(peer_cursor_) vm.(menu_item_)
    vm.(settings_item_) vm.(skip_title_).
Definition set_detail_scroll_line (v : nat) (vm : MessengerViewModel) : MessengerViewModel :=
  mkMessengerViewModel vm.(locale_) vm.(settings_commit_) vm.(radio_ready_)
    vm.(transport_status_) vm.(screen_) vm.(compose_return_screen_)
    vm.(settings_return_screen_) vm.(active_modal_) vm.(selected_message_id_)
    vm.(detail_message_id_) v vm.(draft_) vm.(peers_) vm.(peer_cursor_) vm.(menu_item_)
    vm.(settings_item_) vm.(skip_title_).
Definition set_draft (v : Draft) (vm : MessengerViewModel) : MessengerViewModel :=
  mkMessengerViewModel vm.(locale_) vm.(settings_commit_) vm.(radio_ready_)
    vm.(transport_status_) vm.(screen_) vm.(compose_return_screen_)
    vm.(settings_return_screen_) vm.(active_modal_) vm.(selected_message_id_)
    vm.(detail_message_id_) vm.(detail_scroll_line_) v vm.(peers_) vm.(peer_cursor_)
    vm.(menu_item_) vm.(settings_item_) vm.(skip_title_).
Definition set_peers (v : list InstallId) (vm : MessengerViewModel) : MessengerViewModel :=
  mkMessengerViewModel vm.(locale_) vm.(settings_commit_) vm.(radio_ready_)
    vm.(transport_status_) vm.(screen_) vm.(compose_return_screen_)
    vm.(settings_return_screen_) vm.(active_modal_) vm.(selected_message_id_)
    vm.(detail_message_id_) vm.(detail_scroll_line_) vm.(draft_) v vm.(peer_cursor_)
    vm.(menu_item_) vm.(settings_item_) vm.(skip_title_).
Definition set_peer_cursor (v : nat) (vm : MessengerViewModel) : MessengerViewModel :=
  mkMessengerViewModel vm.(locale_) vm.(settings_commit_) vm.(radio_ready_)
    vm.(transport_status_) vm.(screen_) vm.(compose_return_screen_)
    vm.(settings_return_screen_) vm.(active_modal_) vm.(selected_message_id_)
    vm.(detail_message_id_) vm.(detail_scroll_line_) vm.(draft_) vm.(peers_) v vm.(menu_item_)
    vm.(settings_item_) vm.(skip_title_).
Definition set_menu_item (v : MenuItem) (vm : MessengerViewModel) : MessengerViewModel :=
  mkMessengerViewModel vm.(locale_) vm.(settings_commit_) vm.(radio_ready_)
    vm.(transport_status_) vm.(screen_) vm.(compose_return_screen_)
    vm.(settings_return_screen_) vm.(active_modal_) vm.(selected_message_id_)
    vm.(detail_message_id_) vm.(detail_scroll_line_) vm.(draft_) vm.(peers_) vm.(peer_cursor_)
    v vm.(settings_item_) vm.(skip_title_).
Definition set_settings_item (v : SettingsItem) (vm : MessengerViewModel) : MessengerViewModel :=
  mkMessengerViewModel vm.(locale_) vm.(settings_commit_) vm.(radio_ready_)
    vm.(transport_status_) vm.(screen_) vm.(compose_return_screen_)
    vm.(settings_return_screen_) vm.(active_modal_) vm.(selected_message_id_)
    vm.(detail_message_id_) vm.(detail_scroll_line_) vm.(draft_) vm.(peers_) vm.(peer_cursor_)
    vm.(menu_item_) v vm.(skip_title_).
Definition set_skip_title (v : bool) (vm : MessengerViewModel) : MessengerViewModel :=
  mkMessengerViewModel vm.(locale_) vm.(settings_commit_) vm.(radio_ready_)
    vm.(transport_status_) vm.(screen_) vm.(compose_return_screen_)
    vm.(settings_return_screen_) vm.(active_modal_) vm.(selected_message_id_)
    vm.(detail_message_id_) vm.(detail_scroll_line_) vm.(draft_) vm.(peers_) vm.(peer_cursor_)
    vm.(menu_item_) vm.(settings_item_) v.

(** *** The timeline, newest first *)

(** The loops over [newest_at]: the first index whose entry satisfies [p]. *)
Definition first_newest (t : Timeline) (p : TimelineEntry -> bool) : option nat :=
  List.find
    (fun index => match newest_at t index with Some entry => p entry | None => false end)
    (seq 0 (length t.(entries))).

Definition newest_index (t : Timeline) (m : MessageId) : option nat :=
  first_newest t (fun entry => bool_decide (entry.(entry_post).(message_id) = m)).

Definition entry_of (t : Timeline) (m : option MessageId) : option TimelineEntry :=
  match m with
  | Some m => Timeline_find t m
  | None => None
  end.

Definition peer_label (locale : Locale) (t : Timeline) (install_id : InstallId) : bytes :=
  match first_newest t
          (fun entry => bool_decide (entry.(entry_post).(sender_id) = install_id)) with
  | Some index =>
      match newest_at t index with
      | Some entry =>
          entry.(entry_post).(sender_user_id).(UserId_value) ++ str " #" ++ id_suffix install_id
      | None => translate locale StringId_BadgeUnknown ++ str " #" ++ id_suffix install_id
      end
  | None => translate locale StringId_BadgeUnknown ++ str " #" ++ id_suffix install_id
  end.

(** *** Operations *)

Definition is_shortcut (event : KeyEvent) (lower_case : Z) : bool :=
  if negb (bool_decide (event.(key) = Key_Character)) then false
  else (event.(character) =? lower_case) || (event.(character) =? lower_case - 0x61 + 0x41).

Definition is_key (event : KeyEvent) (k : UiKey) : bool := bool_decide (event.(key) = k).

Definition show_status (message : StringId) : MessengerViewModel -> MessengerViewModel :=
  set_active_modal (mkActiveModal Modal_Status message false).
Definition show_error (message : StringId) : MessengerViewModel -> MessengerViewModel :=
  set_active_modal (mkActiveModal Modal_Error message false).
Definition show_command_error (error : CommandError) : MessengerViewModel -> MessengerViewModel :=
  show_error (command_error_string_id error).
Definition show_exit_confirmation : MessengerViewModel -> MessengerViewModel :=
  set_active_modal (mkActiveModal Modal_Exit StringId_ConfirmExitMessage false).
Definition show_delete_confirmation : MessengerViewModel -> MessengerViewModel :=
  set_active_modal (mkActiveModal Modal_DeleteData StringId_ConfirmDeleteMessage false).
Definition report_storage_failure : MessengerViewModel -> MessengerViewModel :=
  show_error StringId_ErrorPersistenceUnavailable.

Definition set_transport (status : TransportStatus) (vm : MessengerViewModel)
  : MessengerViewModel :=
  set_radio_ready (negb (bool_decide (status = Transport_Offline)))
    (set_transport_status status vm).

Definition set_radio (ready : bool) (vm : MessengerViewModel) : MessengerViewModel :=
  set_transport_status (if ready then Transport_LoRa else Transport_Offline)
    (set_radio_ready ready vm).

Definition ensure_timeline_selection (t : Timeline) (vm : MessengerViewModel)
  : MessengerViewModel :=
  match entry_of t vm.(selected_message_id_) with
  | Some _ => vm
  | None =>
      set_selected_message_id
        (match newest_at t 0 with
         | Some newest => Some newest.(entry_post).(message_id)
         | None => None
         end) vm
  end.

(** The two loops of [refresh_peers]. *)
Definition timeline_peers (identity : option Identity) (t : Timeline) : list InstallId :=
  foldl
    (fun peers index =>
       match newest_at t index with
       | None => peers
       | Some entry =>
           let sender := entry.(entry_post).(sender_id) in
           if bool_decide (Some sender = Identity_install_id <$> identity) then peers
           else if bool_decide (sender ∈ peers) then peers
           else peers ++ [sender]
       end) [] (seq 0 (length t.(entries))).

Definition add_selected_peers (identity : option Identity) (selected peers : list InstallId)
  : list InstallId :=
  foldl
    (fun peers selected =>
       if negb (bool_decide (Some selected = Identity_install_id <$> identity)) &&
          negb (bool_decide (selected ∈ peers))
       then peers ++ [selected] else peers) peers selected.

Definition refresh_peers (s : MessengerState) (vm : MessengerViewModel) : MessengerViewModel :=
  let old_cursor := vm.(peers_) !! vm.(peer_cursor_) in
  let peers :=
    add_selected_peers s.(ms_identity) vm.(draft_).(draft_people)
      (timeline_peers s.(ms_identity) s.(ms_timeline)) in
  let cursor :=
    match old_cursor with
    | Some old => default 0%nat (find_index (fun p => bool_decide (p = old)) peers)
    | None => 0%nat
    end in
  let cursor :=
    if negb (bool_decide (peers = [])) && (length peers <=? cursor)%nat
    then (length peers - 1)%nat else cursor in
  set_peer_cursor cursor (set_peers peers vm).

Definition reconcile_model (s : MessengerState) (vm : MessengerViewModel)
  : MessengerViewModel :=
  let vm := ensure_timeline_selection s.(ms_timeline) vm in
  let vm :=
    if bool_decide (vm.(screen_) = Screen_Detail) &&
       bool_decide (entry_of s.(ms_timeline) vm.(detail_message_id_) = None)
    then
      let vm := set_screen Screen_Timeline (set_detail_scroll_line 0 (set_detail_message_id None vm)) in
      if bool_decide (vm.(active_modal_).(modal_id) = Modal_None)
      then show_status StringId_StatusPostUnavailable vm else vm
    else vm in
  if bool_decide (vm.(screen_) = Screen_Mentions) then refresh_peers s vm else vm.

Definition MessengerViewModel_make (s : MessengerState) (locale : Locale)
    (settings_commit recovery_required skip_title : bool) : MessengerViewModel :=
  let start := if skip_title then Screen_Timeline else Screen_Menu in
  let vm :=
    mkMessengerViewModel
      (if (locale_index locale <? kLocaleCount)%nat then locale else Locale_English)
      settings_commit false Transport_Offline start Screen_Timeline start no_modal None None 0
      Draft_make [] 0 Menu_Talk Settings_Language skip_title in
  let vm := ensure_timeline_selection s.(ms_timeline) vm in
  if recovery_required
  then set_active_modal (mkActiveModal Modal_Recovery StringId_RecoveryMessage false) vm
  else vm.

Definition open_detail (t : Timeline) (vm : MessengerViewModel) : MessengerViewModel :=
  match entry_of t vm.(selected_message_id_) with
  | None => vm
  | Some _ =>
      set_screen Screen_Detail
        (set_detail_scroll_line 0 (set_detail_message_id vm.(selected_message_id_) vm))
  end.

Definition open_compose (s : MessengerState) (parent : option MessageId)
    (initial_mention : option InstallId) (return_screen : ScreenId) (vm : MessengerViewModel)
  : MessengerViewModel :=
  let d := draft_reset vm.(draft_) in
  let people :=
    match initial_mention with
    | Some person =>
        if bool_decide (Some person = Identity_install_id <$> s.(ms_identity)) then []
        else [person]
    | None => []
    end in
  set_screen Screen_Compose
    (set_compose_return_screen return_screen
       (set_draft (mkDraft d.(draft_editor) people parent) vm)).

Definition close_compose (t : Timeline) (vm : MessengerViewModel) : MessengerViewModel :=
  let vm := set_draft (draft_reset vm.(draft_)) vm in
  if bool_decide (vm.(compose_return_screen_) = Screen_Detail) &&
     negb (bool_decide (entry_of t vm.(detail_message_id_) = None))
  then set_screen Screen_Detail vm
  else if bool_decide (vm.(compose_return_screen_) = Screen_Settings)
  then set_screen Screen_Settings vm
  else set_screen Screen_Timeline vm.

(** *** The handlers *)

Definition select_confirm (confirm : bool) (vm : MessengerViewModel) : MessengerViewModel :=
  set_active_modal
    (mkActiveModal vm.(active_modal_).(modal_id) vm.(active_modal_).(modal_message) confirm) vm.

Definition handle_modal (event : KeyEvent) (t : Timeline) (vm : MessengerViewModel)
  : UiAction * MessengerViewModel :=
  let id := vm.(active_modal_).(modal_id) in
  if is_key event Key_Home && negb (bool_decide (id = Modal_Exit)) &&
     negb (bool_decide (id = Modal_Recovery))
  then (render, show_exit_confirmation vm)
  else
  match id with
  | Modal_None => (no_action, vm)
  | Modal_Status | Modal_Error =>
      if is_key event Key_Escape || is_key event Key_Enter
      then (render, set_active_modal no_modal vm)
      else (no_action, vm)
  | Modal_Discard | Modal_Exit | Modal_DeleteData | Modal_Recovery =>
      if is_key event Key_Escape then
        if bool_decide (id = Modal_Recovery) then (mkUiAction false true false, vm)
        else (render, set_active_modal no_modal vm)
      else if is_key event Key_Left then (render, select_confirm false vm)
      else if is_key event Key_Right then (render, select_confirm true vm)
      else if is_key event Key_Enter then
        if negb vm.(active_modal_).(modal_confirm_selected) then
          if bool_decide (id = Modal_Recovery) then (mkUiAction false true false, vm)
          else (render, set_active_modal no_modal vm)
        else
          let vm := set_active_modal no_modal vm in
          match id with
          | Modal_Discard => (render, close_compose t vm)
          | Modal_DeleteData | Modal_Recovery => (mkUiAction false false true, vm)
          | _ => (mkUiAction false true false, vm)
          end
      else (no_action, vm)
  end.

(** [None] where the shortcut is not handled: the action is then [{}]. *)
Definition handle_global_shortcut (event : KeyEvent) (s : MessengerState)
    (vm : MessengerViewModel) : option MessengerViewModel :=
  match vm.(screen_) with
  | Screen_Compose | Screen_Mentions => None
  | Screen_Menu =>
      if is_shortcut event 0x73
      then Some (set_settings_item Settings_Language
                   (set_screen Screen_Settings (set_settings_return_screen Screen_Menu vm)))
      else None
  | return_screen =>
      let target_id :=
        if bool_decide (return_screen = Screen_Detail) then vm.(detail_message_id_)
        else vm.(selected_message_id_) in
      let target := entry_of s.(ms_timeline) target_id in
      if is_shortcut event 0x6e then Some (open_compose s None None return_screen vm)
      else if is_shortcut event 0x72 && negb (bool_decide (target_id = None))
      then Some (open_compose s target_id None return_screen vm)
      else if is_shortcut event 0x6d
      then Some (open_compose s None ((fun e => e.(entry_post).(sender_id)) <$> target)
                   return_screen vm)
      else if is_shortcut event 0x73 && negb (bool_decide (return_screen = Screen_Settings))
      then Some (set_settings_item Settings_Language
                   (set_screen Screen_Settings (set_settings_return_screen return_screen vm)))
      else None
  end.

Definition handle_menu (event : KeyEvent) (vm : MessengerViewModel)
  : UiAction * MessengerViewModel :=
  if is_key event Key_Up || is_key event Key_Down
  then (render, set_menu_item
                  (match vm.(menu_item_) with
                   | Menu_Talk => Menu_Settings
                   | Menu_Settings => Menu_Talk
                   end) vm)
  else if is_key event Key_Enter then
    match vm.(menu_item_) with
    | Menu_Talk => (render, set_screen Screen_Timeline vm)
    | Menu_Settings =>
        (render, set_screen Screen_Settings
                   (set_settings_item Settings_Language (set_settings_return_screen Screen_Menu vm)))
    end
  else (no_action, vm).

Definition handle_timeline (event : KeyEvent) (t : Timeline) (vm : MessengerViewModel)
  : option (UiAction * MessengerViewModel) :=
  if is_key event Key_Escape then Some (render, set_screen Screen_Menu vm)
  else
    let selected_index :=
      match vm.(selected_message_id_) with Some m => newest_index t m | None => None end in
    let select index :=
      entry ← newest_at t index;
      Some (render, set_selected_message_id (Some entry.(entry_post).(message_id)) vm) in
    match selected_index with
    | Some i =>
        if is_key event Key_Up && (0 <? i)%nat then select (i - 1)%nat
        else if is_key event Key_Down && (i + 1 <? length t.(entries))%nat then select (i + 1)%nat
        else if is_key event Key_Enter then
          let vm' := open_detail t vm in
          Some (render_if (negb (bool_decide (vm'.(screen_) = vm.(screen_)))), vm')
        else Some (no_action, vm)
    | None =>
        if is_key event Key_Enter then
          let vm' := open_detail t vm in
          Some (render_if (negb (bool_decide (vm'.(screen_) = vm.(screen_)))), vm')
        else Some (no_action, vm)
    end.

Definition handle_detail (event : KeyEvent) (t : Timeline) (vm : MessengerViewModel)
  : UiAction * MessengerViewModel :=
  if is_key event Key_Escape
  then (render, set_detail_scroll_line 0 (set_screen Screen_Timeline vm))
  else if is_key event Key_Up && (0 <? vm.(detail_scroll_line_))%nat
  then (render, set_detail_scroll_line (vm.(detail_scroll_line_) - 1) vm)
  else
    let maximum :=
      match entry_of t vm.(detail_message_id_) with
      | Some entry =>
          (wrap_detail_body entry.(entry_post).(body).(PostBody_value)).(maximum_scroll_line)
      | None => 0%nat
      end in
    if is_key event Key_Down && (vm.(detail_scroll_line_) <? maximum)%nat
    then (render, set_detail_scroll_line (vm.(detail_scroll_line_) + 1) vm)
    else (no_action, vm).

Definition set_editor (ed : TextEditor) (vm : MessengerViewModel) : MessengerViewModel :=
  set_draft (mkDraft ed vm.(draft_).(draft_people) vm.(draft_).(draft_parent)) vm.

Definition set_people (people : list InstallId) (vm : MessengerViewModel) : MessengerViewModel :=
  set_draft (mkDraft vm.(draft_).(draft_editor) people vm.(draft_).(draft_parent)) vm.

(** A move or a deletion in the draft. *)
Definition edit (f : TextEditor -> bool * TextEditor) (vm : MessengerViewModel)
  : UiAction * MessengerViewModel :=
  let (changed, ed) := f vm.(draft_).(draft_editor) in (render_if changed, set_editor ed vm).

Section Handlers.
Context {X : Type} `{IMessenger X} `{IUiSettingsCommit X}.

Definition insert_character (codepoint : Z) (vm : MessengerViewModel) : MessengerViewModel :=
  if negb (is_editable_scalar codepoint) then show_error StringId_ErrorInvalidCharacter vm
  else
    let (error, ed) := TextEditor.insert vm.(draft_).(draft_editor) codepoint in
    let vm := set_editor ed vm in
    match error with
    | EditorError_None => vm
    | EditorError_TooLong => show_error StringId_ErrorInvalidBody vm
    | _ => show_error StringId_ErrorInvalidCharacter vm
    end.

(** The post a draft stands for. *)
Definition draft_post (d : Draft) : PostDraft :=
  mkPostDraft d.(draft_editor).(text_) d.(draft_people) d.(draft_parent).

Definition send_draft (vm : MessengerViewModel) (x : X) : MessengerViewModel * X :=
  let (result, x) := compose_post_draft x (draft_post vm.(draft_)) in
  if negb (CommandResult_ok result) then (show_command_error result.(command_error) vm, x)
  else
    let vm := set_selected_message_id result.(command_message_id) vm in
    let vm := set_detail_scroll_line 0 (set_detail_message_id None vm) in
    let vm := set_draft (draft_reset vm.(draft_)) vm in
    let vm := ensure_timeline_selection (messenger_of x).(ms_timeline) (set_screen Screen_Timeline vm) in
    (show_status
       (if bool_decide (vm.(transport_status_) = Transport_WifiLan) then StringId_StatusQueuedForLan
        else if vm.(radio_ready_) then StringId_StatusQueuedForRadio else StringId_StatusQueued) vm,
     x).

Definition handle_compose (event : KeyEvent) (vm : MessengerViewModel) (x : X)
  : UiAction * MessengerViewModel * X :=
  let s := messenger_of x in
  match event.(key) with
  | Key_Character => (render, insert_character event.(character) vm, x)
  | Key_Left => (edit move_left vm, x)
  | Key_Right => (edit move_right vm, x)
  | Key_Backspace => (edit backspace vm, x)
  | Key_Delete => (edit delete_forward vm, x)
  | Key_Tab => (render, set_screen Screen_Mentions (refresh_peers s vm), x)
  | Key_Escape =>
      if draft_dirty vm.(draft_)
      then (render,
            set_active_modal (mkActiveModal Modal_Discard StringId_ConfirmDiscardMessage false) vm, x)
      else (render, close_compose s.(ms_timeline) vm, x)
  | Key_Enter => let (vm, x) := send_draft vm x in (render, vm, x)
  | _ => (no_action, vm, x)
  end.

(** [std::vector::erase] of the first equal element. *)
Fixpoint erase_first (person : InstallId) (people : list InstallId) : list InstallId :=
  match people with
  | [] => []
  | p :: people => if bool_decide (p = person) then people else p :: erase_first person people
  end.

Definition toggle_mention (person : InstallId) (vm : MessengerViewModel) : MessengerViewModel :=
  let people := vm.(draft_).(draft_people) in
  if bool_decide (person ∈ people) then set_people (erase_first person people) vm
  else if (kMaxMentions <=? length people)%nat then show_error StringId_MentionLimitReached vm
  else set_people (people ++ [person]) vm.

Definition handle_mentions (event : KeyEvent) (s : MessengerState) (vm : MessengerViewModel)
  : UiAction * MessengerViewModel :=
  let vm := refresh_peers s vm in
  if is_key event Key_Escape || is_key event Key_Tab then (render, set_screen Screen_Compose vm)
  else if is_key event Key_Up && (0 <? vm.(peer_cursor_))%nat
  then (render, set_peer_cursor (vm.(peer_cursor_) - 1) vm)
  else if is_key event Key_Down && (vm.(peer_cursor_) + 1 <? length vm.(peers_))%nat
  then (render, set_peer_cursor (vm.(peer_cursor_) + 1) vm)
  else if is_key event Key_Enter then
    match vm.(peers_) !! vm.(peer_cursor_) with
    | Some person => (render, toggle_mention person vm)
    | None => (no_action, vm)
    end
  else (no_action, vm).

(** A setting is changed only after the port, if there is one, has kept it. *)
Definition commit_setting (persist : X -> bool * X) (change : MessengerViewModel -> MessengerViewModel)
    (vm : MessengerViewModel) (x : X) : UiAction * MessengerViewModel * X :=
  let (kept, x) := if vm.(settings_commit_) then persist x else (true, x) in
  if kept then (render, change vm, x)
  else (render, show_error StringId_ErrorPersistenceUnavailable vm, x).

Definition locale_step (delta : nat) (vm : MessengerViewModel) : Locale :=
  nth ((locale_index vm.(locale_) + delta) mod kLocaleCount) kSupportedLocales Locale_English.

Definition commit_locale (candidate : Locale) (vm : MessengerViewModel) (x : X) :=
  commit_setting (fun x => persist_locale x candidate) (set_locale candidate) vm x.

Definition handle_settings (event : KeyEvent) (vm : MessengerViewModel) (x : X)
  : UiAction * MessengerViewModel * X :=
  let t := (messenger_of x).(ms_timeline) in
  if is_shortcut event 0x64 then (render, show_delete_confirmation vm, x)
  else if is_key event Key_Escape then
    if bool_decide (vm.(settings_return_screen_) = Screen_Detail) &&
       negb (bool_decide (entry_of t vm.(detail_message_id_) = None))
    then (render, set_screen Screen_Detail vm, x)
    else
      (render,
       set_screen
         (if bool_decide (vm.(settings_return_screen_) = Screen_Settings) then Screen_Timeline
          else vm.(settings_return_screen_)) vm, x)
  else if is_key event Key_Up || is_key event Key_Down
  then
    (render,
     set_settings_item
       (if bool_decide (vm.(settings_item_) = Settings_Language) then Settings_SkipTitle
        else Settings_Language) vm, x)
  else if bool_decide (vm.(settings_item_) = Settings_SkipTitle) &&
          (is_key event Key_Left || is_key event Key_Right || is_key event Key_Enter)
  then
    let candidate := negb vm.(skip_title_) in
    commit_setting (fun x => persist_skip_title x candidate) (set_skip_title candidate) vm x
  else if bool_decide (vm.(settings_item_) = Settings_Language) && is_key event Key_Left
  then commit_locale (locale_step (kLocaleCount - 1) vm) vm x
  else if bool_decide (vm.(settings_item_) = Settings_Language) &&
          (is_key event Key_Right || is_key event Key_Enter)
  then commit_locale (locale_step 1 vm) vm x
  else (no_action, vm, x).

Definition handle (event : KeyEvent) (vm : MessengerViewModel) (x : X)
  : option (UiAction * MessengerViewModel * X) :=
  let s := messenger_of x in
  let t := s.(ms_timeline) in
  let vm := reconcile_model s vm in
  if negb (bool_decide (vm.(active_modal_).(modal_id) = Modal_None))
  then Some (handle_modal event t vm, x)
  else if is_key event Key_Home then Some (render, show_exit_confirmation vm, x)
  else
    match handle_global_shortcut event s vm with
    | Some vm => Some (render, vm, x)
    | None =>
        match vm.(screen_) with
        | Screen_Menu => Some (handle_menu event vm, x)
        | Screen_Timeline => '(action, vm) ← handle_timeline event t vm; Some (action, vm, x)
        | Screen_Detail => Some (handle_detail event t vm, x)
        | Screen_Compose => Some (handle_compose event vm x)
        | Screen_Mentions => Some (handle_mentions event s vm, x)
        | Screen_Settings => Some (handle_settings event vm x)
        end
    end.
End Handlers.

(** *** Snapshots: what the view draws *)

Inductive DeliveryBadge :=
| Badge_Received
| Badge_Queued
| Badge_Broadcast
| Badge_Failed
| Badge_Unknown.

Inductive ReplyAvailability :=
| Reply_NotReply
| Reply_Available
| Reply_Unavailable.

Record TimelineRowSnapshot := mkTimelineRowSnapshot {
  row_message_id : MessageId;
  row_sender : bytes;
  row_sender_suffix : bytes;
  row_body_preview : bytes;
  row_delivery : DeliveryBadge;
  row_show_sender_suffix : bool;
  row_is_reply : bool;
  row_mentions_me : bool;
  row_selected : bool
}.

Record TimelineSnapshot := mkTimelineSnapshot {
  snap_rows : list TimelineRowSnapshot;
  snap_total_rows : nat;
  snap_selected_message_id : option MessageId
}.

(** [MentionLabelSnapshot]: an install id and its label. *)
Definition MentionLabelSnapshot : Type := InstallId * bytes.

Record DetailSnapshot := mkDetailSnapshot {
  detail_snap_id : option MessageId;
  detail_sender : bytes;
  detail_sender_suffix : bytes;
  detail_body : bytes;
  detail_visible_body : bytes;
  detail_delivery : DeliveryBadge;
  detail_reply : ReplyAvailability;
  detail_reply_preview : bytes;
  detail_mentions : list MentionLabelSnapshot;
  detail_mentions_me : bool;
  detail_scroll : nat;
  detail_maximum_scroll : nat
}.

Record ComposeSnapshot := mkComposeSnapshot {
  compose_body : bytes;
  compose_cursor : nat;
  compose_remaining_bytes : Z;
  compose_reply_to : option MessageId;
  compose_mentions : list MentionLabelSnapshot;
  compose_dirty : bool
}.

Record MentionOptionSnapshot := mkMentionOptionSnapshot {
  option_install_id : InstallId;
  option_label : bytes;
  option_selected : bool;
  option_cursor : bool
}.

Record MentionsSnapshot := mkMentionsSnapshot {
  snap_options : list MentionOptionSnapshot;
  snap_total_options : nat;
  snap_selected_count : nat
}.

Record SettingsSnapshot := mkSettingsSnapshot {
  snap_user_id : bytes;
  snap_install_suffix : bytes;
  snap_locale_name : bytes;
  snap_session_notice : bytes;
  snap_radio_status : bytes;
  snap_skip_title : bool;
  snap_settings_selected : SettingsItem
}.

Inductive PageSnapshot :=
| Page_Menu (selected : MenuItem)
| Page_Timeline (page : TimelineSnapshot)
| Page_Detail (page : DetailSnapshot)
| Page_Compose (page : ComposeSnapshot)
| Page_Mentions (page : MentionsSnapshot)
| Page_Settings (page : SettingsSnapshot).

Record ModalSnapshot := mkModalSnapshot {
  modal_snap_id : ModalId;
  modal_title : bytes;
  modal_text : bytes;
  modal_cancel_label : bytes;
  modal_confirm_label : bytes;
  modal_snap_confirm_selected : bool
}.

Record ViewSnapshot := mkViewSnapshot {
  view_screen : ScreenId;
  view_locale : Locale;
  view_radio_ready : bool;
  view_transport_status : TransportStatus;
  view_title : bytes;
  view_footer : bytes;
  view_page : PageSnapshot;
  view_modal : ModalSnapshot
}.

Definition delivery_badge (entry : TimelineEntry) : DeliveryBadge :=
  match entry.(entry_origin) with
  | ReceivedOrigin => Badge_Received
  | LocalDelivery Delivery_Queued => Badge_Queued
  | LocalDelivery Delivery_Broadcast => Badge_Broadcast
  | LocalDelivery Delivery_Failed => Badge_Failed
  | LocalDelivery Delivery_Unknown => Badge_Unknown
  end.

Definition screen_title (screen : ScreenId) : StringId :=
  match screen with
  | Screen_Menu => StringId_AppTitle
  | Screen_Timeline => StringId_TimelineTitle
  | Screen_Detail => StringId_DetailTitle
  | Screen_Compose => StringId_ComposeTitle
  | Screen_Mentions => StringId_MentionsTitle
  | Screen_Settings => StringId_SettingsTitle
  end.

Definition screen_footer (screen : ScreenId) : StringId :=
  match screen with
  | Screen_Menu => StringId_FooterMenu
  | Screen_Timeline => StringId_FooterTimeline
  | Screen_Detail => StringId_FooterDetail
  | Screen_Compose => StringId_FooterCompose
  | Screen_Mentions => StringId_FooterMentions
  | Screen_Settings => StringId_FooterSettings
  end.

(** The first row of a window of [visible] rows with [index] in it. *)
Definition window_first (index visible total : nat) : nat :=
  if (total <? index + visible)%nat
  then (if (visible <? total)%nat then (total - visible)%nat else 0%nat)
  else index.

Definition mentions_identity (s : MessengerState) (entry : TimelineEntry) : bool :=
  match s.(ms_identity) with
  | Some identity => Timeline_mentions entry identity.(Identity_install_id)
  | None => false
  end.

(** Somebody else uses the same name. *)
Definition duplicate_name (t : Timeline) (entry : TimelineEntry) : bool :=
  existsb
    (fun candidate =>
       negb (bool_decide (candidate.(entry_post).(sender_id) = entry.(entry_post).(sender_id))) &&
       bool_decide (candidate.(entry_post).(sender_user_id) = entry.(entry_post).(sender_user_id)))
    t.(entries).

Definition timeline_row (s : MessengerState) (vm : MessengerViewModel) (entry : TimelineEntry)
  : TimelineRowSnapshot :=
  let post := entry.(entry_post) in
  mkTimelineRowSnapshot post.(message_id) post.(sender_user_id).(UserId_value)
    (id_suffix post.(sender_id))
    (truncated_utf8 post.(body).(PostBody_value) kTimelinePreviewBytes)
    (delivery_badge entry) (duplicate_name s.(ms_timeline) entry)
    (negb (bool_decide (post.(reply_to) = None))) (mentions_identity s entry)
    (bool_decide (vm.(selected_message_id_) = Some post.(message_id))).

Definition timeline_snapshot (s : MessengerState) (vm : MessengerViewModel) : TimelineSnapshot :=
  let t := s.(ms_timeline) in
  let total := length t.(entries) in
  if (total =? 0)%nat then mkTimelineSnapshot [] total vm.(selected_message_id_)
  else
    let selected_index :=
      match vm.(selected_message_id_) with
      | Some m => default 0%nat (newest_index t m)
      | None => 0%nat
      end in
    let first := window_first selected_index kVisibleTimelineRows total in
    let last := Nat.min total (first + kVisibleTimelineRows) in
    mkTimelineSnapshot
      (omap (fun index => timeline_row s vm <$> newest_at t index) (seq first (last - first)))
      total vm.(selected_message_id_).

Definition detail_snapshot (s : MessengerState) (vm : MessengerViewModel) : DetailSnapshot :=
  let t := s.(ms_timeline) in
  match entry_of t vm.(detail_message_id_) with
  | None =>
      mkDetailSnapshot None [] [] [] [] Badge_Unknown Reply_NotReply [] [] false 0 0
  | Some entry =>
      let post := entry.(entry_post) in
      let text := post.(body).(PostBody_value) in
      let wrapped := wrap_detail_body text in
      let scroll := Nat.min vm.(detail_scroll_line_) wrapped.(maximum_scroll_line) in
      let (reply, preview) :=
        match reply_state t entry with
        | ReplyState_NotReply => (Reply_NotReply, [])
        | ReplyState_ParentAvailable =>
            (Reply_Available,
             match entry_of t post.(reply_to) with
             | Some parent =>
                 truncated_utf8 parent.(entry_post).(body).(PostBody_value) kTimelinePreviewBytes
             | None => []
             end)
        | ReplyState_ParentUnavailable =>
            (Reply_Unavailable, translate vm.(locale_) StringId_ReplyOriginalUnavailable)
        end in
      mkDetailSnapshot (Some post.(message_id)) post.(sender_user_id).(UserId_value)
        (id_suffix post.(sender_id)) text (detail_window wrapped scroll) (delivery_badge entry)
        reply preview
        (map (fun mention => (mention, peer_label vm.(locale_) t mention)) post.(mentions))
        (mentions_identity s entry) scroll wrapped.(maximum_scroll_line)
  end.

Definition compose_snapshot (s : MessengerState) (vm : MessengerViewModel) : ComposeSnapshot :=
  let d := vm.(draft_) in
  mkComposeSnapshot d.(draft_editor).(text_) d.(draft_editor).(cursor_)
    (remaining_bytes d.(draft_editor)) d.(draft_parent)
    (map (fun mention => (mention, peer_label vm.(locale_) s.(ms_timeline) mention)) d.(draft_people))
    (draft_dirty d).

(** The page after [refresh_peers]. *)
Definition mentions_snapshot (s : MessengerState) (vm : MessengerViewModel) : MentionsSnapshot :=
  let people := vm.(draft_).(draft_people) in
  let total := length vm.(peers_) in
  let first := window_first vm.(peer_cursor_) kVisibleMentionRows total in
  let last := Nat.min total (first + kVisibleMentionRows) in
  mkMentionsSnapshot
    (omap
       (fun index =>
          (fun peer =>
             mkMentionOptionSnapshot peer (peer_label vm.(locale_) s.(ms_timeline) peer)
               (bool_decide (peer ∈ people)) (index =? vm.(peer_cursor_))%nat)
          <$> vm.(peers_) !! index)
       (seq first (last - first)))
    total (length people).

Definition settings_snapshot (s : MessengerState) (vm : MessengerViewModel) : SettingsSnapshot :=
  mkSettingsSnapshot
    (match s.(ms_identity) with Some i => i.(Identity_user_id).(UserId_value) | None => [] end)
    (match s.(ms_identity) with Some i => id_suffix i.(Identity_install_id) | None => [] end)
    (locale_display_name vm.(locale_)) (translate vm.(locale_) StringId_SettingsSavedLocally)
    (translate vm.(locale_)
       (if bool_decide (vm.(transport_status_) = Transport_WifiLan) then StringId_LanReadyNoDelivery
        else if vm.(radio_ready_) then StringId_RadioReadyNoDelivery else StringId_RadioNoDelivery))
    vm.(skip_title_) vm.(settings_item_).

(** Title, cancel label and confirm label of a modal. *)
Definition modal_labels (locale : Locale) (id : ModalId) : bytes * bytes * bytes :=
  match id with
  | Modal_None => ([], [], [])
  | Modal_Status => (translate locale StringId_StatusTitle, [], [])
  | Modal_Error => (translate locale StringId_ErrorTitle, [], [])
  | Modal_Discard =>
      (translate locale StringId_ConfirmDiscardTitle, translate locale StringId_ButtonCancel,
       translate locale StringId_ButtonDiscard)
  | Modal_Exit =>
      (translate locale StringId_ConfirmExitTitle, translate locale StringId_ButtonCancel,
       translate locale StringId_ButtonExit)
  | Modal_DeleteData =>
      (translate locale StringId_ConfirmDeleteTitle, translate locale StringId_ButtonCancel,
       translate locale StringId_ButtonDelete)
  | Modal_Recovery =>
      (translate locale StringId_RecoveryTitle, translate locale StringId_ButtonExit,
       translate locale StringId_ButtonDelete)
  end.

Definition modal_snapshot (vm : MessengerViewModel) : ModalSnapshot :=
  let m := vm.(active_modal_) in
  let '(title, cancel, confirm) := modal_labels vm.(locale_) m.(modal_id) in
  mkModalSnapshot m.(modal_id) title
    (if bool_decide (m.(modal_id) = Modal_None) then []
     else translate vm.(locale_) m.(modal_message))
    cancel confirm m.(modal_confirm_selected).

Definition snapshot (s : MessengerState) (vm : MessengerViewModel)
  : ViewSnapshot * MessengerViewModel :=
  let vm := reconcile_model s vm in
  let (page, vm) :=
    match vm.(screen_) with
    | Screen_Menu => (Page_Menu vm.(menu_item_), vm)
    | Screen_Timeline => (Page_Timeline (timeline_snapshot s vm), vm)
    | Screen_Detail => (Page_Detail (detail_snapshot s vm), vm)
    | Screen_Compose => (Page_Compose (compose_snapshot s vm), vm)
    | Screen_Mentions =>
        let vm := refresh_peers s vm in (Page_Mentions (mentions_snapshot s vm), vm)
    | Screen_Settings => (Page_Settings (settings_snapshot s vm), vm)
    end in
  (mkViewSnapshot vm.(screen_) vm.(locale_) vm.(radio_ready_) vm.(transport_status_)
     (translate vm.(locale_) (screen_title vm.(screen_)))
     (translate vm.(locale_) (screen_footer vm.(screen_))) page (modal_snapshot vm), vm).
