(* ===== verification/ViewModelTheory.v ===== *)
(** * ViewModelTheory: what the user interface promises

    The theory of [ViewModel].  [vm_inv] is the invariant of the view model: the
    draft is a valid bounded text with at most four distinct people, and is empty
    on every screen that does not show it; the peer list has no repetitions and
    its cursor is in it.  The client side of the interfaces is [IMessengerLaws]:
    what the messenger's [compose] and the settings port promise the view model;
    [AppTheory] discharges it for the durable session. *)
From S2P Require Import Prelude Ports Utf8 Text Uuid Identity Post Timeline MessengerState TextEditor I18n ViewText ViewModel.

(** ** Specification vocabulary *)

(** The newest entry is the post of the draft, queued. *)
Definition newest_is_draft (t : Timeline) (d : PostDraft) (m : option MessageId) : Prop :=
  exists entry, newest_at t 0 = Some entry /\ m = Some (entry_id entry) /\
    entry.(entry_origin) = LocalDelivery Delivery_Queued /\
    entry.(entry_post).(body) = mkPostBody d.(draft_body) /\
    entry.(entry_post).(mentions) = d.(draft_mentions) /\
    entry.(entry_post).(reply_to) = d.(draft_reply_to).

(** What [compose] promises: the post is the newest entry, or the timeline is
    as it was and the error is not one the mentions do not give cause for. *)
Definition compose_promise (s : MessengerState) (d : PostDraft) (r : CommandResult)
    (s' : MessengerState) : Prop :=
  if CommandResult_ok r then newest_is_draft s'.(ms_timeline) d r.(command_message_id)
  else
    s'.(ms_timeline) = s.(ms_timeline) /\
    (r.(command_error) = CommandError_TooManyMentions ->
     (kMaxMentions < length d.(draft_mentions))%nat) /\
    (r.(command_error) = CommandError_DuplicateMention -> ~ NoDup d.(draft_mentions)).

Class IMessengerLaws (X : Type) `{IMessenger X} `{IUiSettingsCommit X} := {
  compose_keeps x d r x' :
    MessengerState_inv (messenger_of x) -> Forall InstallId_wf d.(draft_mentions) ->
    compose_post_draft x d = (r, x') ->
    MessengerState_inv (messenger_of x') /\ compose_promise (messenger_of x) d r (messenger_of x');
  persist_locale_frame x locale b x' :
    persist_locale x locale = (b, x') -> messenger_of x' = messenger_of x;
  persist_skip_title_frame x skip b x' :
    persist_skip_title x skip = (b, x') -> messenger_of x' = messenger_of x
}.

Definition is_confirmation (id : ModalId) : bool :=
  match id with
  | Modal_Discard | Modal_Exit | Modal_DeleteData | Modal_Recovery => true
  | _ => false
  end.

Record draft_inv (d : Draft) : Prop := {
  draft_editor_inv : editor_inv d.(draft_editor);
  draft_capacity : d.(draft_editor).(maximum_bytes_) = kMaxPostBodyBytes;
  draft_people_length : (length d.(draft_people) <= kMaxMentions)%nat;
  draft_people_NoDup : NoDup d.(draft_people);
  draft_people_wf : Forall InstallId_wf d.(draft_people)
}.

Record peers_inv (peers : list InstallId) (cursor : nat) : Prop := {
  peers_NoDup : NoDup peers;
  peers_wf : Forall InstallId_wf peers;
  peers_cursor : (cursor < length peers)%nat \/ (peers = [] /\ cursor = 0%nat)
}.

Record nav_inv (screen : ScreenId) (m : ActiveModal) (d : Draft)
    (compose_return settings_return : ScreenId) : Prop := {
  nav_clean : screen <> Screen_Compose -> screen <> Screen_Mentions -> d = Draft_make;
  nav_discard : m.(modal_id) = Modal_Discard -> screen = Screen_Compose;
  nav_compose_return :
    compose_return = Screen_Timeline \/ compose_return = Screen_Detail \/
    compose_return = Screen_Settings;
  nav_settings_return :
    settings_return = Screen_Menu \/ settings_return = Screen_Timeline \/
    settings_return = Screen_Detail;
  nav_confirm : m.(modal_confirm_selected) = true -> is_confirmation m.(modal_id) = true
}.

Record vm_inv (vm : MessengerViewModel) : Prop := {
  vm_draft : draft_inv vm.(draft_);
  vm_peers : peers_inv vm.(peers_) vm.(peer_cursor_);
  vm_nav : nav_inv vm.(screen_) vm.(active_modal_) vm.(draft_)
             vm.(compose_return_screen_) vm.(settings_return_screen_)
}.

(** ** The timeline, newest first *)

Lemma newest_at_Some t i e :
  newest_at t i = Some e -> e ∈ t.(entries) /\ (i < length t.(entries))%nat.
Proof.
  unfold newest_at. destruct (_ <=? _)%nat eqn:E; [done|]. reflect_bools.
  intros H. split; [by eapply list_elem_of_lookup_2|done].
Qed.

Lemma newest_at_is_Some t i : (i < length t.(entries))%nat -> is_Some (newest_at t i).
Proof.
  intros Hi. unfold newest_at. rewrite (proj2 (Nat.leb_gt _ _)) by done.
  apply lookup_lt_is_Some_2. lia.
Qed.

Lemma entry_newest t e : e ∈ t.(entries) -> exists i, newest_at t i = Some e.
Proof.
  intros (j & Hj)%list_elem_of_lookup. pose proof (lookup_lt_Some _ _ _ Hj).
  exists (length t.(entries) - 1 - j)%nat. unfold newest_at.
  rewrite (proj2 (Nat.leb_gt _ _)) by lia.
  by replace (length (entries t) - 1 - (length (entries t) - 1 - j))%nat with j by lia.
Qed.

Lemma first_newest_Some t p i :
  first_newest t p = Some i -> exists e, newest_at t i = Some e /\ p e = true.
Proof.
  unfold first_newest. intros [_ H]%List.find_some. case_match; [by eexists|done].
Qed.

Lemma first_newest_is_Some t p e :
  e ∈ t.(entries) -> p e = true -> is_Some (first_newest t p).
Proof.
  intros He Hp. destruct (first_newest t p) as [i|] eqn:E; [by eexists|].
  apply entry_newest in He as (i & Hi).
  pose proof (List.find_none _ _ E i) as Hn. cbn beta in Hn. rewrite Hi in Hn.
  rewrite Hn in Hp; [done|]. apply in_seq. apply newest_at_Some in Hi as [_ ?]. lia.
Qed.

Lemma newest_index_Some t m i :
  newest_index t m = Some i ->
  exists e, newest_at t i = Some e /\ entry_id e = m /\ (i < length t.(entries))%nat.
Proof.
  intros (e & He & Hm%bool_decide_eq_true)%first_newest_Some. exists e.
  split; [done|]. split; [done|]. by apply newest_at_Some in He as [_ ?].
Qed.

Lemma newest_index_find t m e :
  Timeline_find t m = Some e -> is_Some (newest_index t m).
Proof.
  intros [He Hm]%find_Some_ids. apply (first_newest_is_Some _ _ e); [done|].
  by apply bool_decide_eq_true.
Qed.

Lemma entry_of_elem t m e : entry_of t m = Some e -> e ∈ t.(entries) /\ m = Some (entry_id e).
Proof. destruct m; [|done]. intros [? <-]%find_Some_ids. done. Qed.

Lemma posts_wf s e :
  MessengerState_inv s -> e ∈ s.(ms_timeline).(entries) -> PostPayload_wf e.(entry_post).
Proof. intros Hs He. by eapply (proj1 (Forall_forall _ _) (ms_inv_posts s Hs)). Qed.

(** ** The peers *)

(** Both loops append what they have not met. *)
Lemma foldl_inv {A B} (P : B -> Prop) (f : B -> A -> B) l b :
  P b -> (forall b a, P b -> a ∈ l -> P (f b a)) -> P (foldl f b l).
Proof.
  revert b. induction l as [|a l IH]; intros b Hb Hf; [done|]. cbn. apply IH.
  - apply Hf; [done|by left].
  - intros b' a' Hb' Ha'. apply Hf; [done|by right].
Qed.

Definition people_ok (people : list InstallId) : Prop := NoDup people /\ Forall InstallId_wf people.

Lemma people_ok_snoc people p :
  people_ok people -> InstallId_wf p -> p ∉ people -> people_ok (people ++ [p]).
Proof.
  intros [Hn Hw] Hp Hin. split.
  - apply NoDup_app. split; [done|]. split; [|apply NoDup_singleton].
    intros q Hq Hq'%list_elem_of_singleton. by subst q.
  - apply Forall_app. split; [done|by constructor].
Qed.

Lemma timeline_peers_ok s :
  MessengerState_inv s -> people_ok (timeline_peers s.(ms_identity) s.(ms_timeline)).
Proof.
  intros Hs. unfold timeline_peers. apply foldl_inv; [by split; constructor|].
  intros people i Hp _. destruct (newest_at _ i) as [e|] eqn:E; [|done].
  apply newest_at_Some in E as [He _]. pose proof (wf_sender_id _ (posts_wf s e Hs He)).
  repeat case_bool_decide; [done..|]. by apply people_ok_snoc.
Qed.

Lemma add_selected_ok identity selected people :
  Forall InstallId_wf selected -> people_ok people ->
  people_ok (add_selected_peers identity selected people).
Proof.
  intros Hsel Hp. unfold add_selected_peers. apply foldl_inv; [done|].
  intros people' p Hp' Hin. destruct (_ && _) eqn:E; [|done]. reflect_bools.
  apply people_ok_snoc; [done| |done]. by eapply (proj1 (Forall_forall _ _) Hsel).
Qed.

Lemma refresh_peers_inv s vm :
  MessengerState_inv s -> draft_inv vm.(draft_) ->
  peers_inv (refresh_peers s vm).(peers_) (refresh_peers s vm).(peer_cursor_).
Proof.
  intros Hs Hd. unfold refresh_peers. cbn [peers_ peer_cursor_ set_peers set_peer_cursor].
  set (peers := add_selected_peers _ _ _).
  assert (people_ok peers) as [Hn Hw].
  { apply add_selected_ok; [apply draft_people_wf, Hd|by apply timeline_peers_ok]. }
  constructor; [done..|].
  set (cursor := match _ with Some _ => _ | None => _ end).
  assert (peers = [] -> cursor = 0%nat) as H0.
  { intros E. unfold cursor. rewrite E. by destruct (_ !! _). }
  destruct peers as [|p peers']; [right; split; [done|]; by apply H0|].
  left. rewrite bool_decide_eq_false_2 by done. cbn [negb andb].
  destruct (_ <=? _)%nat eqn:El; reflect_bools; cbn [length] in *; lia.
Qed.

(** ** Preservation of the invariant *)

Lemma Draft_make_inv : draft_inv Draft_make.
Proof. constructor; cbn; [apply make_editor_inv|done|lia|constructor..]. Qed.

Lemma with_people_inv d people parent :
  draft_inv d -> people_ok people -> (length people <= kMaxMentions)%nat ->
  draft_inv (mkDraft d.(draft_editor) people parent).
Proof. by intros [He Hc _ _ _] [Hn Hw] Hl; constructor. Qed.

Lemma people_ok_nil : people_ok [].
Proof. by split; constructor. Qed.

Lemma people_ok_one p : InstallId_wf p -> people_ok [p].
Proof. intros. apply (people_ok_snoc []); [apply people_ok_nil|done|apply not_elem_of_nil]. Qed.

Lemma draft_reset_make d : draft_inv d -> draft_reset d = Draft_make.
Proof. intros [_ Hc _ _ _]. unfold draft_reset, clear. by rewrite Hc. Qed.

(** A change that leaves the peers alone. *)
Lemma vm_inv_intro vm vm' :
  vm_inv vm -> vm'.(peers_) = vm.(peers_) -> vm'.(peer_cursor_) = vm.(peer_cursor_) ->
  draft_inv vm'.(draft_) ->
  nav_inv vm'.(screen_) vm'.(active_modal_) vm'.(draft_) vm'.(compose_return_screen_)
    vm'.(settings_return_screen_) ->
  vm_inv vm'.
Proof. intros [_ Hp _] E1 E2 Hd Hn. constructor; [done| |done]. by rewrite E1, E2. Qed.

(** Open the invariant of [vm] and split that of the goal. *)
Ltac vm_split H :=
  destruct H as [Hd Hp [Hclean Hdisc Hcret Hsret Hconf]];
  constructor; cbn; [try done..|constructor; cbn; try done; try tauto].

Lemma set_modal_inv m vm :
  vm_inv vm -> m.(modal_id) <> Modal_Discard ->
  (m.(modal_confirm_selected) = true -> is_confirmation m.(modal_id) = true) ->
  vm_inv (set_active_modal m vm).
Proof. intros H Hm Hc. vm_split H. Qed.

Lemma set_screen_inv screen vm :
  vm_inv vm -> vm.(draft_) = Draft_make -> vm.(active_modal_).(modal_id) <> Modal_Discard ->
  vm_inv (set_screen screen vm).
Proof. intros H Hdr Hm. vm_split H. Qed.

Lemma set_detail_inv scroll id vm :
  vm_inv vm -> vm_inv (set_detail_scroll_line scroll (set_detail_message_id id vm)).
Proof. intros H. vm_split H. Qed.

Lemma set_scroll_inv scroll vm : vm_inv vm -> vm_inv (set_detail_scroll_line scroll vm).
Proof. intros H. vm_split H. Qed.

Lemma set_selected_inv id vm : vm_inv vm -> vm_inv (set_selected_message_id id vm).
Proof. intros H. vm_split H. Qed.

Lemma set_settings_item_inv i vm : vm_inv vm -> vm_inv (set_settings_item i vm).
Proof. intros H. vm_split H. Qed.

Lemma set_menu_item_inv i vm : vm_inv vm -> vm_inv (set_menu_item i vm).
Proof. intros H. vm_split H. Qed.

Lemma set_settings_return_inv r vm :
  vm_inv vm -> r = Screen_Menu \/ r = Screen_Timeline \/ r = Screen_Detail ->
  vm_inv (set_settings_return_screen r vm).
Proof. intros H Hr. vm_split H. Qed.

Lemma view_locale_inv l vm : vm_inv vm -> vm_inv (set_locale l vm).
Proof. intros H. vm_split H. Qed.

Lemma view_skip_title_inv b vm : vm_inv vm -> vm_inv (set_skip_title b vm).
Proof. intros H. vm_split H. Qed.

Lemma set_transport_inv status vm : vm_inv vm -> vm_inv (set_transport status vm).
Proof. intros H. vm_split H. Qed.

Lemma set_radio_inv ready vm : vm_inv vm -> vm_inv (set_radio ready vm).
Proof. intros H. vm_split H. Qed.

Lemma show_error_inv message vm : vm_inv vm -> vm_inv (show_error message vm).
Proof. intros. by apply set_modal_inv. Qed.

Lemma show_status_inv message vm : vm_inv vm -> vm_inv (show_status message vm).
Proof. intros. by apply set_modal_inv. Qed.

Lemma close_modal_inv vm : vm_inv vm -> vm_inv (set_active_modal no_modal vm).
Proof. intros. by apply set_modal_inv. Qed.

Lemma set_draft_inv d vm :
  vm_inv vm -> draft_inv d ->
  vm.(screen_) = Screen_Compose \/ vm.(screen_) = Screen_Mentions ->
  vm_inv (set_draft d vm).
Proof. intros H Hd' Hs. vm_split H. Qed.

Lemma set_cursor_inv cursor vm :
  vm_inv vm -> (cursor < length vm.(peers_))%nat -> vm_inv (set_peer_cursor cursor vm).
Proof.
  intros H Hc. pose proof H as [_ [Hn Hw _] _]. vm_split H. constructor; [done..|by left].
Qed.

Create HintDb vm.
#[local] Hint Resolve set_modal_inv set_detail_inv set_scroll_inv set_selected_inv
  set_settings_item_inv set_menu_item_inv set_settings_return_inv view_locale_inv
  view_skip_title_inv set_transport_inv set_radio_inv show_error_inv show_status_inv
  close_modal_inv set_draft_inv set_cursor_inv Draft_make_inv : vm.

(** Off the two screens of the draft it is empty and no Discard is asked. *)
Definition at_rest (vm : MessengerViewModel) : Prop :=
  vm.(draft_) = Draft_make /\ vm.(active_modal_).(modal_id) <> Modal_Discard.

Lemma off_compose vm :
  vm_inv vm -> vm.(screen_) <> Screen_Compose -> vm.(screen_) <> Screen_Mentions -> at_rest vm.
Proof. intros [_ _ [Hc Hd _ _ _]] H1 H2. split; [by apply Hc|]. intros H. by apply H1, Hd. Qed.

Lemma selection_inv t vm : vm_inv vm -> vm_inv (ensure_timeline_selection t vm).
Proof. intros H. unfold ensure_timeline_selection. destruct (entry_of _ _); auto with vm. Qed.

Lemma refresh_peers_keeps s vm : MessengerState_inv s -> vm_inv vm -> vm_inv (refresh_peers s vm).
Proof.
  intros Hs H. pose proof (refresh_peers_inv s vm Hs (vm_draft vm H)) as Hp'.
  unfold refresh_peers in *. by vm_split H.
Qed.

(** What [reconcile_model] leaves alone, and when it leaves a screen. *)
Lemma reconcile_cases s vm :
  let vm' := reconcile_model s vm in
  vm'.(draft_) = vm.(draft_) /\
  (vm'.(screen_) = vm.(screen_) /\ vm'.(active_modal_) = vm.(active_modal_) \/
   vm.(screen_) = Screen_Detail /\ vm'.(screen_) = Screen_Timeline /\
   (vm'.(active_modal_) = vm.(active_modal_) /\ vm.(active_modal_).(modal_id) <> Modal_None \/
    vm.(active_modal_).(modal_id) = Modal_None /\
    vm'.(active_modal_) = mkActiveModal Modal_Status StringId_StatusPostUnavailable false)).
Proof.
  unfold reconcile_model.
  set (vm1 := ensure_timeline_selection _ _).
  assert (vm1.(draft_) = vm.(draft_) /\ vm1.(screen_) = vm.(screen_) /\
          vm1.(active_modal_) = vm.(active_modal_)) as (E1 & E2 & E3).
  { unfold vm1, ensure_timeline_selection. by destruct (entry_of _ _). }
  set (vm2 := if bool_decide (screen_ vm1 = Screen_Detail) && _ then _ else _).
  assert (forall v, v = vm2 \/ v = refresh_peers s vm2 ->
    v.(draft_) = vm2.(draft_) /\ v.(screen_) = vm2.(screen_) /\
    v.(active_modal_) = vm2.(active_modal_)) as Hv by by intros v [-> | ->].
  destruct (Hv (if bool_decide (screen_ vm2 = Screen_Mentions) then refresh_peers s vm2 else vm2))
    as (-> & -> & ->); [case_bool_decide; tauto|].
  unfold vm2. destruct (bool_decide (screen_ vm1 = Screen_Detail) && _) eqn:Ed.
  - apply andb_true_iff in Ed as [Ed%bool_decide_eq_true _].
    rewrite E2 in Ed. cbn [active_modal_ set_screen set_detail_scroll_line set_detail_message_id].
    rewrite E3. case_bool_decide as Hm; cbn; rewrite ?E1, ?E3;
      (split; [done|]); right; (split; [done|]); (split; [done|]); [right|left]; done.
  - rewrite E1, E2, E3. split; [done|]. by left.
Qed.

Lemma reconcile_inv s vm : MessengerState_inv s -> vm_inv vm -> vm_inv (reconcile_model s vm).
Proof.
  intros Hs H. unfold reconcile_model. apply (selection_inv (ms_timeline s)) in H.
  revert H. generalize (ensure_timeline_selection (ms_timeline s) vm). clear vm. intros vm H.
  match goal with |- vm_inv (if _ then refresh_peers s ?v else ?v) => assert (vm_inv v) as Hv end.
  - destruct (_ && _) eqn:Ed; [|done].
    apply andb_true_iff in Ed as [Ed%bool_decide_eq_true _].
    destruct (off_compose vm H) as [Hdr Hm]; [by rewrite Ed..|].
    assert (vm_inv (set_screen Screen_Timeline (set_detail_scroll_line 0 (set_detail_message_id None vm))))
      by (apply set_screen_inv; auto with vm).
    case_bool_decide; auto with vm.
  - revert Hv. match goal with |- vm_inv ?v -> _ => generalize v end. intros v Hv.
    case_bool_decide; [by apply refresh_peers_keeps|done].
Qed.

Lemma make_inv s locale commit recovery skip :
  vm_inv (MessengerViewModel_make s locale commit recovery skip).
Proof.
  unfold MessengerViewModel_make.
  match goal with |- context [ensure_timeline_selection _ ?v] => assert (vm_inv v) as Hv end.
  { constructor; cbn; [apply Draft_make_inv| |].
    - constructor; [constructor..|by right].
    - constructor; cbn; try done; [by left|]. destruct skip; tauto. }
  apply (selection_inv (ms_timeline s)) in Hv. destruct recovery; [|done].
  by apply set_modal_inv.
Qed.

Lemma close_compose_inv t vm :
  vm_inv vm -> vm.(active_modal_).(modal_id) <> Modal_Discard -> vm_inv (close_compose t vm).
Proof.
  intros H Hm. unfold close_compose. rewrite (draft_reset_make _ (vm_draft vm H)).
  repeat case_match; vm_split H; by apply Draft_make_inv.
Qed.

Lemma open_compose_inv s parent person return_screen vm :
  vm_inv vm -> vm.(active_modal_).(modal_id) = Modal_None ->
  return_screen = Screen_Timeline \/ return_screen = Screen_Detail \/
  return_screen = Screen_Settings ->
  (forall p, person = Some p -> InstallId_wf p) ->
  vm_inv (open_compose s parent person return_screen vm).
Proof.
  intros H Hm Hr Hw. unfold open_compose. rewrite (draft_reset_make _ (vm_draft vm H)).
  vm_split H.
  destruct person as [p|]; [|apply (with_people_inv Draft_make); [|apply people_ok_nil|cbn; lia]].
  2: apply Draft_make_inv.
  pose proof (Hw p eq_refl) as Hwf. pose proof (people_ok_one p Hwf). pose proof people_ok_nil.
  case_bool_decide; (apply (with_people_inv Draft_make); [apply Draft_make_inv|done|cbn; unfold kMaxMentions; lia]).
Qed.

(** *** The handlers *)

Lemma handle_modal_inv event t vm :
  vm_inv vm -> vm_inv (handle_modal event t vm).2.
Proof.
  intros H. unfold handle_modal. pose proof (close_modal_inv vm H) as Hc.
  pose proof (close_compose_inv t _ Hc ltac:(done)) as Hcc.
  assert (forall b, is_confirmation vm.(active_modal_).(modal_id) = true ->
    vm_inv (select_confirm b vm)) as Hs.
  { intros b Hi. unfold select_confirm. vm_split H. }
  assert (vm_inv (show_exit_confirmation vm)) by by apply set_modal_inv.
  split_if; [done|].
  destruct (modal_id (active_modal_ vm)) eqn:Em; repeat split_if; try done; by apply Hs.
Qed.

Lemma global_inv event s vm vm' :
  MessengerState_inv s -> vm_inv vm -> vm.(active_modal_).(modal_id) = Modal_None ->
  handle_global_shortcut event s vm = Some vm' -> vm_inv vm'.
Proof.
  intros Hs H Hm. unfold handle_global_shortcut.
  assert (forall p e m, (fun e => e.(entry_post).(sender_id)) <$> entry_of s.(ms_timeline) m = Some p ->
    e = p -> InstallId_wf e) as Hw.
  { intros p e m (e' & He & ->)%fmap_Some ->. apply entry_of_elem in He as [He _].
    by apply wf_sender_id, (posts_wf s). }
  assert (forall r, vm.(screen_) <> Screen_Compose -> vm.(screen_) <> Screen_Mentions ->
    r = Screen_Menu \/ r = Screen_Timeline \/ r = Screen_Detail ->
    vm_inv (set_settings_item Settings_Language
      (set_screen Screen_Settings (set_settings_return_screen r vm)))) as Hset.
  { intros r H1 H2 Hr. destruct (off_compose vm H H1 H2) as [? ?].
    apply set_settings_item_inv, set_screen_inv; [auto with vm|done..]. }
  destruct (screen_ vm) eqn:Es; try done;
    repeat split_if; reflect_bools; try done; intros [= <-];
    try (apply open_compose_inv; [done..|tauto|]; intros; by eauto);
    apply Hset; try done; tauto.
Qed.

Lemma handle_menu_inv event vm :
  vm_inv vm -> at_rest vm -> vm_inv (handle_menu event vm).2.
Proof.
  intros H [Hdr Hm]. unfold handle_menu.
  repeat split_if; cbn [snd]; auto with vm; apply set_screen_inv; try done.
  apply set_settings_item_inv, set_settings_return_inv; [done|tauto].
Qed.

Lemma handle_timeline_inv event t vm :
  vm_inv vm -> at_rest vm ->
  exists a vm', handle_timeline event t vm = Some (a, vm') /\ vm_inv vm' /\
    vm'.(draft_) = vm.(draft_) /\ vm'.(active_modal_) = vm.(active_modal_) /\
    a.(exit_approved) = false /\ a.(delete_data_approved) = false.
Proof.
  intros H [Hdr Hm]. unfold handle_timeline.
  assert (vm_inv (open_detail t vm) /\ (open_detail t vm).(draft_) = vm.(draft_) /\
          (open_detail t vm).(active_modal_) = vm.(active_modal_)) as (Ho & Ho1 & Ho2).
  { unfold open_detail. destruct (entry_of _ _); [|done].
    split; [|done]. apply set_screen_inv; auto with vm. }
  split_if; [do 2 eexists; split; [done|]; split; [by apply set_screen_inv|done]|].
  destruct (match selected_message_id_ vm with Some m => newest_index t m | None => None end)
    as [i|] eqn:Ei.
  - assert (i < length (entries t))%nat as Hi.
    { destruct (selected_message_id_ vm); [|done]. by apply newest_index_Some in Ei as (? & ? & ? & ?). }
    split_if.
    { destruct (newest_at_is_Some t (i - 1) ltac:(lia)) as [e ->]. cbn.
      do 2 eexists. split; [done|]. split; [by apply set_selected_inv|done]. }
    split_if; reflect_bools.
    { destruct (newest_at_is_Some t (i + 1) ltac:(lia)) as [e ->]. cbn.
      do 2 eexists. split; [done|]. split; [by apply set_selected_inv|done]. }
    split_if; (do 2 eexists; split; [done|]; done).
  - split_if; (do 2 eexists; split; [done|]; done).
Qed.

Lemma handle_detail_inv event t vm :
  vm_inv vm -> at_rest vm -> vm_inv (handle_detail event t vm).2.
Proof.
  intros H [Hdr Hm]. unfold handle_detail. repeat split_if; cbn [snd]; auto with vm.
  apply set_scroll_inv. by apply set_screen_inv.
Qed.

(** The editing keys are operations of the editor. *)
Definition edit_op (event : KeyEvent) : option EditorOp :=
  match event.(key) with
  | Key_Character => if is_editable_scalar event.(character) then Some (Ed_insert event.(character)) else None
  | Key_Left => Some Ed_move_left
  | Key_Right => Some Ed_move_right
  | Key_Backspace => Some Ed_backspace
  | Key_Delete => Some Ed_delete_forward
  | _ => None
  end.

(** The draft after an operation of its editor. *)
Definition edited (d : Draft) (op : EditorOp) : Draft :=
  mkDraft (editor_step d.(draft_editor) op).2 d.(draft_people) d.(draft_parent).

Lemma edited_inv d op : draft_inv d -> editor_op_typed op -> draft_inv (edited d op).
Proof.
  intros [He Hc Hl Hn Hw] Hop. destruct (editor_step_inv _ op He Hop) as [He' Hc'].
  constructor; cbn; try done. by rewrite Hc'.
Qed.

Lemma editable_typed event op : edit_op event = Some op -> editor_op_typed op.
Proof.
  unfold edit_op. repeat case_match; intros [= <-]; try done. cbn.
  unfold is_editable_scalar in *. repeat case_match; reflect_bools; try done. lia.
Qed.

Lemma insert_character_draft c vm :
  (insert_character c vm).(draft_) =
  if is_editable_scalar c then edited vm.(draft_) (Ed_insert c) else vm.(draft_).
Proof.
  unfold insert_character, edited. destruct (is_editable_scalar c); [|done]. cbn.
  by destruct (TextEditor.insert _ c) as [[] ed].
Qed.

Lemma insert_character_inv c vm :
  vm_inv vm -> vm.(screen_) = Screen_Compose -> vm_inv (insert_character c vm).
Proof.
  intros H Hs. unfold insert_character. destruct (is_editable_scalar c) eqn:Ec; [|by apply show_error_inv].
  cbn [negb].
  pose proof (edited_inv vm.(draft_) (Ed_insert c) (vm_draft vm H)
    (editable_typed (mkKeyEvent Key_Character c) _ ltac:(by unfold edit_op; cbn; rewrite Ec))) as Hd.
  unfold edited in Hd. cbn [editor_step] in Hd.
  destruct (TextEditor.insert _ c) as [error ed]. cbn [snd] in Hd.
  assert (vm_inv (set_editor ed vm)) by (apply set_draft_inv; auto).
  destruct error; auto with vm.
Qed.

Lemma edit_inv op f vm :
  vm_inv vm -> vm.(screen_) = Screen_Compose -> editor_op_typed op ->
  (editor_step vm.(draft_).(draft_editor) op).2 = (f vm.(draft_).(draft_editor)).2 ->
  vm_inv (edit f vm).2 /\ (edit f vm).2.(draft_) = edited vm.(draft_) op.
Proof.
  intros H Hs Hop Hf. pose proof (edited_inv _ _ (vm_draft vm H) Hop) as Hd.
  unfold edited, edit in *. rewrite Hf in *. destruct (f _) as [b ed]. cbn [snd] in *.
  split; [|done]. by apply set_draft_inv; [|done|left].
Qed.

(** *** Handlers that use the messenger *)

Definition no_modal_open (vm : MessengerViewModel) : Prop :=
  vm.(active_modal_).(modal_id) = Modal_None.

(** The people after Enter on a person of the list. *)
Definition toggled (person : InstallId) (people : list InstallId) : list InstallId :=
  if bool_decide (person ∈ people) then erase_first person people
  else if (kMaxMentions <=? length people)%nat then people
  else people ++ [person].

(** Everything that can happen to the draft of [vm] at a key; [x] and [x'] are
    the worlds before and after. *)
Inductive DraftChange {X} `{IMessenger X} (vm : MessengerViewModel) (event : KeyEvent) (x x' : X)
  : Draft -> Prop :=
| Draft_kept : DraftChange vm event x x' vm.(draft_)
| Draft_edited op :
    vm.(screen_) = Screen_Compose -> no_modal_open vm -> edit_op event = Some op ->
    DraftChange vm event x x' (edited vm.(draft_) op)
| Draft_toggled person :
    vm.(screen_) = Screen_Mentions -> no_modal_open vm -> event.(key) = Key_Enter ->
    InstallId_wf person ->
    DraftChange vm event x x'
      (mkDraft vm.(draft_).(draft_editor) (toggled person vm.(draft_).(draft_people))
         vm.(draft_).(draft_parent))
| Draft_sent m :
    vm.(screen_) = Screen_Compose -> no_modal_open vm -> event.(key) = Key_Enter ->
    newest_is_draft (messenger_of x').(ms_timeline) (draft_post vm.(draft_)) m ->
    DraftChange vm event x x' Draft_make
| Draft_left :
    vm.(screen_) = Screen_Compose -> no_modal_open vm -> event.(key) = Key_Escape ->
    draft_dirty vm.(draft_) = false ->
    DraftChange vm event x x' Draft_make
| Draft_discarded :
    vm.(active_modal_).(modal_id) = Modal_Discard ->
    vm.(active_modal_).(modal_confirm_selected) = true -> event.(key) = Key_Enter ->
    DraftChange vm event x x' Draft_make
| Draft_opened people parent :
    vm.(draft_) = Draft_make -> no_modal_open vm ->
    is_shortcut event 0x6e || is_shortcut event 0x72 || is_shortcut event 0x6d = true ->
    DraftChange vm event x x' (mkDraft (TextEditor_make kMaxPostBodyBytes) people parent).

(** The modals the handlers of the screens open. *)
Definition harmless (id : ModalId) : Prop :=
  id = Modal_None \/ id = Modal_Status \/ id = Modal_Error \/ id = Modal_Discard.

Definition plain (a : UiAction) : Prop := a.(exit_approved) = false /\ a.(delete_data_approved) = false.

Lemma erase_first_sublist person people : sublist (erase_first person people) people.
Proof.
  induction people as [|p people IH]; cbn; [constructor|].
  case_bool_decide; [apply sublist_cons|apply sublist_skip]; done.
Qed.

Lemma toggled_ok person people :
  people_ok people -> (length people <= kMaxMentions)%nat -> InstallId_wf person ->
  people_ok (toggled person people) /\ (length (toggled person people) <= kMaxMentions)%nat.
Proof.
  intros [Hn Hw] Hl Hp. unfold toggled. case_bool_decide.
  - pose proof (erase_first_sublist person people) as Hs.
    split; [split|]; [by eapply sublist_NoDup| |].
    + apply Forall_forall. intros p Hin. eapply (proj1 (Forall_forall _ _) Hw), elem_of_sublist; done.
    + apply sublist_length in Hs. lia.
  - destruct (_ <=? _)%nat eqn:E; reflect_bools; [done|].
    split; [by apply people_ok_snoc|]. rewrite length_app. cbn. lia.
Qed.

(** Decide the equations between enumerators. *)
Ltac decide_enums :=
  repeat first [rewrite bool_decide_eq_true_2 by done | rewrite bool_decide_eq_false_2 by done].

(** The draft is the one before, up to computation. *)
Ltac keep_draft :=
  match goal with |- DraftChange ?vm ?event ?x ?x' _ => exact (Draft_kept vm event x x') end.

Section Handle.
Context {X : Type} `{IMessengerLaws X}.
Implicit Types (x : X) (vm : MessengerViewModel) (event : KeyEvent).

(** The outcome of a handler of a screen, no modal being open. *)
Record handled vm event x (a : UiAction) vm' x' : Prop := {
  handled_inv : vm_inv vm';
  handled_messenger : MessengerState_inv (messenger_of x');
  handled_draft : DraftChange vm event x x' vm'.(draft_);
  handled_plain : plain a
}.

Lemma send_draft_spec vm x vm' x' :
  vm_inv vm -> MessengerState_inv (messenger_of x) ->
  vm.(screen_) = Screen_Compose -> no_modal_open vm ->
  send_draft vm x = (vm', x') ->
  exists r, compose_post_draft x (draft_post vm.(draft_)) = (r, x') /\
    MessengerState_inv (messenger_of x') /\ vm_inv vm' /\
    compose_promise (messenger_of x) (draft_post vm.(draft_)) r (messenger_of x') /\
    (if CommandResult_ok r then
       vm'.(draft_) = Draft_make /\ vm'.(screen_) = Screen_Timeline /\
       vm'.(active_modal_).(modal_id) = Modal_Status /\
       vm'.(selected_message_id_) = r.(command_message_id)
     else vm' = show_command_error r.(command_error) vm).
Proof.
  intros Hvm Hx Hs Hm. unfold send_draft.
  destruct (compose_post_draft x _) as [r x1] eqn:Ec.
  pose proof (vm_draft vm Hvm) as Hdv.
  destruct (compose_keeps x (draft_post (draft_ vm)) r x1 Hx (draft_people_wf _ Hdv) Ec) as [Hx1 Hp].
  intros E. exists r. assert (x' = x1) as -> by (by destruct (negb _); injection E).
  split; [done|]. split; [done|]. unfold compose_promise in *.
  destruct (CommandResult_ok r) eqn:Er; cbn [negb] in E; injection E as <-.
  - rewrite (draft_reset_make _ Hdv).
    destruct Hp as (entry & Hnew & Hid & Hrest).
    assert (entry_of (ms_timeline (messenger_of x1)) (command_message_id r) <> None) as Hfind.
    { rewrite Hid. cbn. rewrite find_None_ids. intros Hn. apply Hn.
      apply newest_at_Some in Hnew as [Hin _]. by apply list_elem_of_fmap_2. }
    unfold ensure_timeline_selection. cbn [selected_message_id_ set_screen set_draft
      set_detail_scroll_line set_detail_message_id set_selected_message_id].
    destruct (entry_of _ (command_message_id r)); [|done].
    split_and!; [|by exists entry|done..].
    apply show_status_inv. vm_split Hvm; [by apply Draft_make_inv|]. by rewrite Hm.
  - split; [by apply show_error_inv|]. done.
Qed.

Lemma handle_compose_spec event vm x a vm' x' :
  vm_inv vm -> MessengerState_inv (messenger_of x) ->
  vm.(screen_) = Screen_Compose -> no_modal_open vm ->
  handle_compose event vm x = (a, vm', x') ->
  handled vm event x a vm' x' /\ harmless vm'.(active_modal_).(modal_id).
Proof.
  intros Hvm Hx Hs Hm. unfold handle_compose.
  assert (harmless vm.(active_modal_).(modal_id)) as Hh by (left; done).
  assert (forall op f, edit_op event = Some op ->
    (editor_step vm.(draft_).(draft_editor) op).2 = (f vm.(draft_).(draft_editor)).2 ->
    (edit f vm, x) = (a, vm', x') ->
    handled vm event x a vm' x' /\ harmless vm'.(active_modal_).(modal_id)) as Hedit.
  { intros op f Hop Hf E.
    destruct (edit_inv op f vm Hvm Hs (editable_typed _ _ Hop) Hf) as [Hi Hd].
    unfold edit in *. destruct (f _) as [b ed]. injection E as <- <- <-. cbn [snd] in *.
    split; [constructor; [done..| |done]|done].
    rewrite Hd. by apply Draft_edited. }
  destruct (key event) eqn:Ek; try (intros [= <- <- <-]; split; [|done];
    by constructor; [..|keep_draft|]).
  - intros [= <- <- <-]. split.
    + constructor; [by apply insert_character_inv|done| |done].
      rewrite insert_character_draft. destruct (is_editable_scalar _) eqn:Ec; [|keep_draft].
      apply Draft_edited; [done..|]. unfold edit_op. by rewrite Ek, Ec.
    + unfold insert_character. destruct (is_editable_scalar _); [|by right; right; left].
      cbn [negb]. destruct (TextEditor.insert _ _) as [[] ed]; cbn; unfold harmless; tauto.
  - intros E. by apply (Hedit Ed_move_left move_left); [unfold edit_op; rewrite Ek|cbn; destruct (move_left _)|].
  - intros E. by apply (Hedit Ed_move_right move_right); [unfold edit_op; rewrite Ek|cbn; destruct (move_right _)|].
  - destruct (send_draft vm x) as [vm1 x1] eqn:E. intros [= <- <- <-].
    destruct (send_draft_spec _ _ _ _ Hvm Hx Hs Hm E) as (r & Hc & Hx1 & Hvm1 & Hp & Hr).
    unfold compose_promise in Hp. destruct (CommandResult_ok r).
    + destruct Hr as (Hd & _ & Hst & _). split; [|right; left; exact Hst].
      constructor; [done..| |done]. rewrite Hd. by eapply Draft_sent.
    + subst vm1. split; [|by right; right; left]. constructor; [done..|keep_draft|done].
  - destruct (draft_dirty _) eqn:Ed; intros [= <- <- <-].
    + split; [|by right; right; right]. constructor; [|done|keep_draft|done].
      vm_split Hvm.
    + split; [|unfold close_compose; by repeat case_match].
      constructor; [apply close_compose_inv; [done|by rewrite Hm]|done| |done].
      replace ((close_compose _ vm).(draft_)) with Draft_make; [by apply Draft_left|].
      unfold close_compose. rewrite (draft_reset_make _ (vm_draft vm Hvm)).
      by repeat case_match.
  - intros E. by apply (Hedit Ed_backspace backspace); [unfold edit_op; rewrite Ek|cbn; destruct (backspace _)|].
  - intros E. by apply (Hedit Ed_delete_forward delete_forward); [unfold edit_op; rewrite Ek|cbn; destruct (delete_forward _)|].
  - intros [= <- <- <-]. pose proof (refresh_peers_keeps _ vm Hx Hvm) as Hr.
    split; [|done]. constructor; [|done|keep_draft|done].
    unfold refresh_peers in *. destruct Hr as [Hd Hp [? ? ? ? ?]]. constructor; [done..|].
    constructor; cbn in *; try done. by rewrite Hm.
Qed.

Lemma handle_mentions_spec event vm x :
  vm_inv vm -> MessengerState_inv (messenger_of x) ->
  vm.(screen_) = Screen_Mentions -> no_modal_open vm ->
  let (a, vm') := handle_mentions event (messenger_of x) vm in
  handled vm event x a vm' x /\ harmless vm'.(active_modal_).(modal_id).
Proof.
  intros Hvm Hx Hs Hm. unfold handle_mentions.
  pose proof (refresh_peers_keeps _ vm Hx Hvm) as Hr.
  set (vm1 := refresh_peers (messenger_of x) vm) in *.
  assert (vm1.(draft_) = vm.(draft_) /\ vm1.(screen_) = vm.(screen_) /\
          vm1.(active_modal_) = vm.(active_modal_)) as (E1 & E2 & E3) by done.
  assert (harmless vm1.(active_modal_).(modal_id)) as Hh by (left; by rewrite E3).
  assert (DraftChange vm event x x vm1.(draft_)) as Hk by (rewrite E1; keep_draft).
  split_if.
  { split; [|done]. constructor; [|done|keep_draft|done]. vm_split Hr. }
  split_if; reflect_bools.
  { split; [|done]. constructor; [|done|keep_draft|done]. apply set_cursor_inv; [done|].
    destruct (peers_cursor _ _ (vm_peers vm1 Hr)) as [?|[_ ?]]; lia. }
  split_if; reflect_bools.
  { split; [|done]. constructor; [|done|keep_draft|done]. apply set_cursor_inv; [done|]. lia. }
  destruct (is_key event Key_Enter) eqn:Ek; [|split; [by constructor|done]].
  apply bool_decide_eq_true in Ek.
  destruct (peers_ vm1 !! peer_cursor_ vm1) as [person|] eqn:Ep; [|split; [by constructor|done]].
  assert (InstallId_wf person) as Hp.
  { eapply (proj1 (Forall_forall _ _) (peers_wf _ _ (vm_peers vm1 Hr))), list_elem_of_lookup_2, Ep. }
  pose proof (vm_draft vm1 Hr) as Hd. pose proof Hd as [_ _ Hl Hn Hw].
  pose proof (Draft_toggled vm event x x person Hs Hm Ek Hp) as Hc. rewrite <- E1 in Hc.
  destruct (toggled_ok person _ (conj Hn Hw) Hl Hp) as [Ht Htl].
  pose proof (with_people_inv _ _ vm1.(draft_).(draft_parent) Hd Ht Htl) as Hdt.
  unfold toggle_mention, toggled in *.
  repeat split_if; (split; [constructor; [|done| |done]|done || by right; right; left]);
    try done; try (apply set_draft_inv; [done..|by right; rewrite E2]); by apply show_error_inv.
Qed.

Lemma commit_setting_spec event persist change vm x a vm' x' :
  (forall b x1, persist x = (b, x1) -> messenger_of x1 = messenger_of x) ->
  vm_inv vm -> MessengerState_inv (messenger_of x) -> no_modal_open vm ->
  vm_inv (change vm) -> (change vm).(draft_) = vm.(draft_) ->
  (change vm).(active_modal_) = vm.(active_modal_) ->
  commit_setting persist change vm x = (a, vm', x') ->
  handled vm event x a vm' x' /\ harmless vm'.(active_modal_).(modal_id).
Proof.
  intros Hframe Hvm Hx Hm Hi Hd Ha. unfold commit_setting.
  assert (exists b x1, (if settings_commit_ vm then persist x else (true, x)) = (b, x1) /\
    messenger_of x1 = messenger_of x) as (b & x1 & -> & Hx1).
  { destruct (settings_commit_ vm); [|by do 2 eexists].
    destruct (persist x) as [b x1] eqn:E. do 2 eexists. split; [done|]. by eapply Hframe. }
  destruct b; intros [= <- <- <-]; (split; [constructor; [|by rewrite Hx1| |done]|]).
  - done.
  - rewrite Hd. keep_draft.
  - left. by rewrite Ha.
  - by apply show_error_inv.
  - keep_draft.
  - by right; right; left.
Qed.

Lemma handle_settings_spec event vm x a vm' x' :
  vm_inv vm -> MessengerState_inv (messenger_of x) ->
  vm.(screen_) = Screen_Settings -> no_modal_open vm ->
  handle_settings event vm x = (a, vm', x') ->
  handled vm event x a vm' x' /\
  (harmless vm'.(active_modal_).(modal_id) \/
   is_shortcut event 0x64 = true /\ vm'.(active_modal_).(modal_id) = Modal_DeleteData /\
   vm'.(active_modal_).(modal_confirm_selected) = false).
Proof.
  intros Hvm Hx Hs Hm. unfold handle_settings, commit_locale.
  destruct (off_compose vm Hvm) as [Hdr Hmd]; [by rewrite Hs..|].
  split_if.
  { intros [= <- <- <-]. split; [|by right].
    constructor; [by apply set_modal_inv|done|keep_draft|done]. }
  intros E. cut (handled vm event x a vm' x' /\ harmless vm'.(active_modal_).(modal_id)); [tauto|].
  revert E.
  assert (harmless vm.(active_modal_).(modal_id)) by (left; done).
  repeat split_if;
    try (intros [= <- <- <-]; (split; [constructor; [|done|keep_draft|done]|done]);
         solve [by apply set_screen_inv | by apply set_settings_item_inv | done]);
    apply commit_setting_spec; try done;
    try (intros; by eapply persist_skip_title_frame); try (intros; by eapply persist_locale_frame);
    auto with vm.
Qed.

(** Left and Right choose the button of a confirmation. *)
Definition arrow event (confirm : bool) : bool :=
  match event.(key) with
  | Key_Left => false
  | Key_Right => true
  | _ => confirm
  end.

(** What a key can do to the modal [m] of the view model, and what it approves. *)
Record ModalChange event (screen : ScreenId) (m m' : ActiveModal) (a : UiAction) : Prop := {
  change_exit_approved :
    a.(exit_approved) = true ->
    m.(modal_id) = Modal_Recovery \/
    event.(key) = Key_Enter /\ m.(modal_id) = Modal_Exit /\ m.(modal_confirm_selected) = true;
  change_delete_approved :
    a.(delete_data_approved) = true ->
    event.(key) = Key_Enter /\ m.(modal_confirm_selected) = true /\
    (m.(modal_id) = Modal_DeleteData \/ m.(modal_id) = Modal_Recovery);
  change_to_exit :
    m'.(modal_id) = Modal_Exit ->
    event.(key) = Key_Home /\ m'.(modal_confirm_selected) = false \/
    m.(modal_id) = Modal_Exit /\ event.(key) <> Key_Enter /\ event.(key) <> Key_Escape /\
    m'.(modal_confirm_selected) = arrow event m.(modal_confirm_selected);
  change_to_delete :
    m'.(modal_id) = Modal_DeleteData ->
    m.(modal_id) = Modal_None /\ screen = Screen_Settings /\ is_shortcut event 0x64 = true /\
    m'.(modal_confirm_selected) = false \/
    m.(modal_id) = Modal_DeleteData /\ event.(key) <> Key_Enter /\
    event.(key) <> Key_Escape /\ event.(key) <> Key_Home /\
    m'.(modal_confirm_selected) = arrow event m.(modal_confirm_selected);
  change_to_recovery :
    m'.(modal_id) = Modal_Recovery ->
    m.(modal_id) = Modal_Recovery /\ (event.(key) = Key_Enter -> m.(modal_confirm_selected) = false) /\
    m'.(modal_confirm_selected) = arrow event m.(modal_confirm_selected)
}.

Lemma harmless_change event screen m m' a :
  harmless m'.(modal_id) -> plain a -> ModalChange event screen m m' a.
Proof.
  intros Hh [He Hd]. constructor; intros E; exfalso;
    destruct Hh as [Hh|[Hh|[Hh|Hh]]]; congruence.
Qed.

Lemma close_compose_modal t vm : (close_compose t vm).(active_modal_) = vm.(active_modal_).
Proof. unfold close_compose. by repeat case_match. Qed.

Lemma close_compose_draft t vm :
  draft_inv vm.(draft_) -> (close_compose t vm).(draft_) = Draft_make.
Proof.
  intros Hd. unfold close_compose. rewrite (draft_reset_make _ Hd). by repeat case_match.
Qed.

Lemma handle_modal_change event t vm :
  vm.(active_modal_).(modal_id) <> Modal_None ->
  let (a, vm') := handle_modal event t vm in
  ModalChange event vm.(screen_) vm.(active_modal_) vm'.(active_modal_) a.
Proof.
  intros Hm. unfold handle_modal, is_key.
  destruct (modal_id (active_modal_ vm)) eqn:Em; [done|..];
    destruct (key event) eqn:Ek; cbn -[close_compose];
    decide_enums; cbn -[close_compose]; repeat split_if;
    cbn -[close_compose]; rewrite ?close_compose_modal; reflect_bools;
    constructor; unfold arrow; cbn; rewrite ?Em, ?Ek; try done; try tauto; intros; intuition congruence.
Qed.

Lemma handle_modal_draft event t vm x :
  draft_inv vm.(draft_) ->
  DraftChange vm event x x (handle_modal event t vm).2.(draft_).
Proof.
  intros Hd. unfold handle_modal, is_key.
  split_if; [keep_draft|].
  destruct (modal_id (active_modal_ vm)) eqn:Em; repeat split_if; cbn [snd]; reflect_bools;
    try keep_draft; try done.
  rewrite close_compose_draft by done. by apply Draft_discarded.
Qed.

Lemma global_spec event vm vm' x :
  vm_inv vm -> MessengerState_inv (messenger_of x) -> no_modal_open vm ->
  handle_global_shortcut event (messenger_of x) vm = Some vm' ->
  handled vm event x render vm' x /\ vm'.(active_modal_) = vm.(active_modal_).
Proof.
  intros Hvm Hx Hm E. pose proof (global_inv event _ _ _ Hx Hvm Hm E) as Hi.
  assert (forall parent person r, vm' = open_compose (messenger_of x) parent person r vm ->
    vm.(screen_) <> Screen_Compose -> vm.(screen_) <> Screen_Mentions ->
    is_shortcut event 0x6e || is_shortcut event 0x72 || is_shortcut event 0x6d = true ->
    DraftChange vm event x x vm'.(draft_)) as Ho.
  { intros parent person r -> Hn1 Hn2 Hk. destruct (off_compose vm Hvm Hn1 Hn2) as [Hd _].
    unfold open_compose. rewrite Hd. cbn. by apply Draft_opened. }
  assert (DraftChange vm event x x vm'.(draft_) /\ vm'.(active_modal_) = vm.(active_modal_)) as [??].
  2: { split; [by constructor|done]. }
  revert E. unfold handle_global_shortcut.
  destruct (screen_ vm) eqn:Es; try done; repeat split_if; try done; intros [= E]; subst vm';
    (split; [|done]); try keep_draft; eapply Ho; try done;
    reflect_bools; repeat match goal with H : is_shortcut _ _ = true |- _ => rewrite H; clear H | H : _ /\ _ |- _ => destruct H end;
    by rewrite ?orb_true_r.
Qed.

(** One key. *)
Lemma handle_spec event vm x :
  vm_inv vm -> MessengerState_inv (messenger_of x) ->
  let vm0 := reconcile_model (messenger_of x) vm in
  exists a vm' x', handle event vm x = Some (a, vm', x') /\
    vm_inv vm' /\ MessengerState_inv (messenger_of x') /\
    DraftChange vm0 event x x' vm'.(draft_) /\
    ModalChange event vm0.(screen_) vm0.(active_modal_) vm'.(active_modal_) a.
Proof.
  intros Hvm Hx vm0. unfold handle. fold vm0.
  pose proof (reconcile_inv _ vm Hx Hvm) as Hvm0. fold vm0 in Hvm0. clearbody vm0.
  destruct (decide (modal_id (active_modal_ vm0) = Modal_None)) as [Hm|Hm].
  2: { rewrite bool_decide_eq_false_2 by done. cbn [negb].
       pose proof (handle_modal_inv event (ms_timeline (messenger_of x)) _ Hvm0) as Hi.
       pose proof (handle_modal_change event (ms_timeline (messenger_of x)) _ Hm) as Hc.
       pose proof (handle_modal_draft event (ms_timeline (messenger_of x)) vm0 x (vm_draft _ Hvm0)) as Hd.
       destruct (handle_modal _ _ vm0) as [a vm']. by exists a, vm', x. }
  rewrite bool_decide_eq_true_2 by done. cbn [negb].
  assert (harmless vm0.(active_modal_).(modal_id)) as Hh by by left.
  destruct (is_key event Key_Home) eqn:Eh.
  { apply bool_decide_eq_true in Eh.
    do 3 eexists. split; [done|]. split; [by apply set_modal_inv|]. split; [done|].
    split; [keep_draft|]. constructor; cbn; try done. intros _. by left. }
  destruct (handle_global_shortcut event _ vm0) as [vm'|] eqn:Eg.
  { destruct (global_spec _ _ _ _ Hvm0 Hx Hm Eg) as [[? ? ? ?] Ea].
    do 3 eexists. split; [done|]. split_and!; [done..|]. apply harmless_change; [|done].
    by rewrite Ea. }
  destruct (screen_ vm0) eqn:Es.
  - destruct (off_compose vm0 Hvm0) as [? ?]; [by rewrite Es..|].
    pose proof (handle_menu_inv event vm0 Hvm0 ltac:(done)) as Hi.
    assert (plain (handle_menu event vm0).1 /\ (handle_menu event vm0).2.(draft_) = vm0.(draft_) /\
            (handle_menu event vm0).2.(active_modal_) = vm0.(active_modal_)) as (? & Ed & Ea).
    { unfold handle_menu. by repeat split_if. }
    destruct (handle_menu event vm0) as [a vm']. cbn [fst snd] in *.
    do 3 eexists. split; [done|]. split_and!; [done..| |].
    + rewrite Ed. keep_draft.
    + apply harmless_change; [by rewrite Ea|done].
  - destruct (off_compose vm0 Hvm0) as [? ?]; [by rewrite Es..|].
    destruct (handle_timeline_inv event (ms_timeline (messenger_of x)) vm0 Hvm0 ltac:(done))
      as (a & vm' & -> & Hi & Ed & Ea & ?). cbn.
    do 3 eexists. split; [done|]. split_and!; [done..| |].
    + rewrite Ed. keep_draft.
    + apply harmless_change; [by rewrite Ea|done].
  - destruct (off_compose vm0 Hvm0) as [? ?]; [by rewrite Es..|].
    pose proof (handle_detail_inv event (ms_timeline (messenger_of x)) vm0 Hvm0 ltac:(done)) as Hi.
    assert (plain (handle_detail event (ms_timeline (messenger_of x)) vm0).1 /\
            (handle_detail event (ms_timeline (messenger_of x)) vm0).2.(draft_) = vm0.(draft_) /\
            (handle_detail event (ms_timeline (messenger_of x)) vm0).2.(active_modal_) = vm0.(active_modal_))
      as (? & Ed & Ea).
    { unfold handle_detail. by repeat split_if. }
    destruct (handle_detail _ _ vm0) as [a vm']. cbn [fst snd] in *.
    do 3 eexists. split; [done|]. split_and!; [done..| |].
    + rewrite Ed. keep_draft.
    + apply harmless_change; [by rewrite Ea|done].
  - destruct (handle_compose event vm0 x) as [[a vm'] x'] eqn:E.
    destruct (handle_compose_spec _ _ _ _ _ _ Hvm0 Hx Es Hm E) as [[? ? ? ?] ?].
    do 3 eexists. split; [done|]. split_and!; [done..|]. by apply harmless_change.
  - pose proof (handle_mentions_spec event vm0 x Hvm0 Hx Es Hm) as E.
    destruct (handle_mentions _ _ vm0) as [a vm']. destruct E as [[? ? ? ?] ?].
    do 3 eexists. split; [done|]. split_and!; [done..|]. by apply harmless_change.
  - destruct (handle_settings event vm0 x) as [[a vm'] x'] eqn:E.
    destruct (handle_settings_spec _ _ _ _ _ _ Hvm0 Hx Es Hm E) as [[? ? ? [? ?]] Hc].
    do 3 eexists. split; [done|]. split_and!; [done..|].
    destruct Hc as [Hc|(Hk & Hid & Hcf)]; [by apply harmless_change|].
    constructor; rewrite ?Hid; try done; try congruence. intros _. by left.
Qed.
End Handle.

(** ** Uses of the view model *)

(** What the application does with it; [Ui_world] is everything that happens to
    the messenger between two calls. *)
Inductive UiOp (X : Type) :=
| Ui_key (event : KeyEvent)
| Ui_snapshot
| Ui_refresh
| Ui_transport (status : TransportStatus)
| Ui_radio (ready : bool)
| Ui_storage_failure
| Ui_world (x : X).
Arguments Ui_key {X} _.
Arguments Ui_snapshot {X}.
Arguments Ui_refresh {X}.
Arguments Ui_transport {X} _.
Arguments Ui_radio {X} _.
Arguments Ui_storage_failure {X}.
Arguments Ui_world {X} _.

Definition ui_step {X} `{IMessenger X} `{IUiSettingsCommit X} (y : MessengerViewModel * X)
    (op : UiOp X) : option (UiAction * (MessengerViewModel * X)) :=
  let (vm, x) := y in
  match op with
  | Ui_key event => '(a, vm, x) ← handle event vm x; Some (a, (vm, x))
  | Ui_snapshot => Some (no_action, ((snapshot (messenger_of x) vm).2, x))
  | Ui_refresh => Some (no_action, (reconcile_model (messenger_of x) vm, x))
  | Ui_transport status => Some (no_action, (set_transport status vm, x))
  | Ui_radio ready => Some (no_action, (set_radio ready vm, x))
  | Ui_storage_failure => Some (no_action, (report_storage_failure vm, x))
  | Ui_world x => Some (no_action, (vm, x))
  end.

Definition ui_run {X} `{IMessenger X} `{IUiSettingsCommit X} (y : MessengerViewModel * X)
    (ops : list (UiOp X)) : option (MessengerViewModel * X) :=
  foldl (fun o op => y ← o; '(_, y) ← ui_step y op; Some y) (Some y) ops.

Definition ui_op_typed {X} `{IMessenger X} (op : UiOp X) : Prop :=
  match op with Ui_world x => MessengerState_inv (messenger_of x) | _ => True end.

(** A view model just made. *)
Definition ui_start {X} `{IMessenger X} (x : X) (locale : Locale) (commit recovery skip : bool)
  : MessengerViewModel * X :=
  (MessengerViewModel_make (messenger_of x) locale commit recovery skip, x).

Lemma snapshot_cases s vm :
  (snapshot s vm).2 = reconcile_model s vm \/
  (snapshot s vm).2 = refresh_peers s (reconcile_model s vm).
Proof. unfold snapshot. destruct (screen_ (reconcile_model s vm)); auto. Qed.

Section Run.
Context {X : Type} `{IMessengerLaws X}.

Lemma ui_run_snoc y ops op :
  ui_run y (ops ++ [op]) = (y ← ui_run y ops; '(_, y) ← ui_step y op; Some y).
Proof. unfold ui_run. by rewrite foldl_app. Qed.

(** One operation: the invariant, the draft and the modal. *)
Lemma ui_step_spec vm (x : X) op :
  vm_inv vm -> MessengerState_inv (messenger_of x) -> ui_op_typed op ->
  exists a vm' x', ui_step (vm, x) op = Some (a, (vm', x')) /\
    vm_inv vm' /\ MessengerState_inv (messenger_of x') /\
    match op with
    | Ui_key event =>
        let vm0 := reconcile_model (messenger_of x) vm in
        DraftChange vm0 event x x' vm'.(draft_) /\
        ModalChange event vm0.(screen_) vm0.(active_modal_) vm'.(active_modal_) a
    | Ui_storage_failure =>
        vm'.(draft_) = vm.(draft_) /\ plain a /\ vm'.(active_modal_).(modal_id) = Modal_Error
    | _ =>
        vm'.(draft_) = vm.(draft_) /\ plain a /\
        (vm'.(active_modal_) = vm.(active_modal_) \/ vm'.(active_modal_).(modal_id) = Modal_Status)
    end.
Proof.
  intros Hvm Hx Hop. destruct op as [event| | |status|ready| |x']; cbn [ui_step].
  - destruct (handle_spec event vm x Hvm Hx) as (a & vm' & x' & -> & Hi & Hx' & Hd & Hm).
    cbn. by exists a, vm', x'.
  - pose proof (reconcile_inv _ vm Hx Hvm) as Hr.
    do 3 eexists. split; [done|].
    destruct (reconcile_cases (messenger_of x) vm) as [Hd Hc].
    assert ((reconcile_model (messenger_of x) vm).(active_modal_) = vm.(active_modal_) \/
      (reconcile_model (messenger_of x) vm).(active_modal_).(modal_id) = Modal_Status) as Ha.
    { destruct Hc as [[_ ?]|(_ & _ & [[? _]|[_ E]])]; [by left|by left|right; by rewrite E]. }
    split; [destruct (snapshot_cases (messenger_of x) vm) as [-> | ->]; [done|by apply refresh_peers_keeps]|].
    split; [done|].
    destruct (snapshot_cases (messenger_of x) vm) as [-> | ->]; done.
  - pose proof (reconcile_inv _ vm Hx Hvm) as Hr.
    do 3 eexists. split; [done|]. split_and!; [done..| |done|].
    + apply reconcile_cases.
    + destruct (reconcile_cases (messenger_of x) vm) as [_ [[_ ?]|(_ & _ & [[? _]|[_ E]])]];
        [by left|by left|right; by rewrite E].
  - do 3 eexists. split; [done|]. split_and!; [by apply set_transport_inv|done..|by left].
  - do 3 eexists. split; [done|]. split_and!; [by apply set_radio_inv|done..|by left].
  - do 3 eexists. split; [done|]. split_and!; [by apply show_error_inv|done..].
  - do 3 eexists. split; [done|]. split_and!; [done..|by left].
Qed.

Lemma ui_run_inv y ops :
  vm_inv y.1 -> MessengerState_inv (messenger_of y.2) -> Forall ui_op_typed ops ->
  exists vm x, ui_run y ops = Some (vm, x) /\ vm_inv vm /\ MessengerState_inv (messenger_of x).
Proof.
  intros Hvm Hx. induction ops as [|op ops IH] using rev_ind; intros Hops.
  { destruct y as [vm x]. by exists vm, x. }
  apply Forall_app in Hops as [Hops [Hop _]%Forall_cons].
  destruct (IH Hops) as (vm & x & Hrun & Hi & Hx1).
  destruct (ui_step_spec vm x op Hi Hx1 Hop) as (a & vm' & x' & Hstep & Hi' & Hx' & _).
  exists vm', x'. rewrite ui_run_snoc, Hrun. cbn [mbind option_bind]. by rewrite Hstep.
Qed.

(** *** How a confirmation came to be on the screen *)

(** The button chosen after some operations in a confirmation just opened. *)
Definition armed (mid : list (UiOp X)) : bool :=
  foldl (fun b op => match op with Ui_key event => arrow event b | _ => b end) false mid.

(** Operations that leave the confirmation [id] open. *)
Definition leaves_open (id : ModalId) (op : UiOp X) : Prop :=
  match op with
  | Ui_key event =>
      event.(key) <> Key_Enter /\ event.(key) <> Key_Escape /\
      (id = Modal_DeleteData -> event.(key) <> Key_Home)
  | Ui_storage_failure => False
  | _ => True
  end.

(** The confirmation [id] was opened by a key, has stayed open since, and the
    last of the arrow keys pressed since chose [confirm]. *)
Definition opened (y0 : MessengerViewModel * X) (ops : list (UiOp X)) (id : ModalId)
    (confirm : bool) : Prop :=
  exists pre event mid vm x,
    ops = pre ++ Ui_key event :: mid /\ ui_run y0 pre = Some (vm, x) /\
    (id = Modal_Exit /\ event.(key) = Key_Home \/
     id = Modal_DeleteData /\ is_shortcut event 0x64 = true /\ vm.(screen_) = Screen_Settings) /\
    Forall (leaves_open id) mid /\ armed mid = confirm.

Lemma opened_snoc y0 ops id confirm op :
  opened y0 ops id confirm -> leaves_open id op ->
  opened y0 (ops ++ [op]) id
    (match op with Ui_key event => arrow event confirm | _ => confirm end).
Proof.
  intros (pre & event & mid & vm & x & -> & Hrun & Hk & Hmid & Harm) Hop.
  exists pre, event, (mid ++ [op]), vm, x. rewrite <- app_assoc. split; [done|].
  split; [done|]. split; [done|]. split; [apply Forall_app; split; [done|by constructor]|].
  unfold armed in *. rewrite foldl_app. cbn. by rewrite Harm.
Qed.

Lemma opened_now y0 pre event vm x id :
  ui_run y0 pre = Some (vm, x) ->
  (id = Modal_Exit /\ event.(key) = Key_Home \/
   id = Modal_DeleteData /\ is_shortcut event 0x64 = true /\ vm.(screen_) = Screen_Settings) ->
  opened y0 (pre ++ [Ui_key event]) id false.
Proof. intros Hrun Hk. exists pre, event, [], vm, x. split_and!; done. Qed.

(** The recovery notice [y0] began with is still on the screen: no storage failure
    took its place, no Enter confirmed it, and the last of the arrow keys chose
    [confirm]. *)
Definition noticed (y0 : MessengerViewModel * X) (ops : list (UiOp X)) (confirm : bool) : Prop :=
  y0.1.(active_modal_).(modal_id) = Modal_Recovery /\
  Forall (fun op => op <> Ui_storage_failure) ops /\
  (forall pre event post, ops = pre ++ Ui_key event :: post -> event.(key) = Key_Enter ->
     armed pre = false) /\
  armed ops = confirm.

Lemma armed_snoc ops op :
  armed (ops ++ [op]) = match op with Ui_key event => arrow event (armed ops) | _ => armed ops end.
Proof. unfold armed. by rewrite foldl_app. Qed.

Lemma noticed_snoc y0 ops confirm op :
  noticed y0 ops confirm -> op <> Ui_storage_failure ->
  (forall event, op = Ui_key event -> event.(key) = Key_Enter -> confirm = false) ->
  noticed y0 (ops ++ [op]) (match op with Ui_key event => arrow event confirm | _ => confirm end).
Proof.
  intros (Hid & Hops & Henter & <-) Hop Hk. split; [done|].
  split; [apply Forall_app; split; [done|by constructor]|]. split; [|apply armed_snoc].
  intros pre event post E He. destruct post as [|x post _] using rev_ind.
  - apply app_inj_tail in E as [<- ->]. by apply (Hk event).
  - rewrite app_comm_cons, app_assoc in E. apply app_inj_tail in E as [-> _].
    by apply (Henter pre event post).
Qed.

(** Every confirmation on the screen is explained so. *)
Definition explained (y0 : MessengerViewModel * X) (ops : list (UiOp X)) (m : ActiveModal) : Prop :=
  (m.(modal_id) = Modal_Recovery -> noticed y0 ops m.(modal_confirm_selected)) /\
  (m.(modal_id) = Modal_Exit \/ m.(modal_id) = Modal_DeleteData ->
   opened y0 ops m.(modal_id) m.(modal_confirm_selected)).

(** Reconciling opens no confirmation and never leaves the settings. *)
Lemma reconcile_modal s vm :
  let m := (reconcile_model s vm).(active_modal_) in
  (m = vm.(active_modal_) \/ m.(modal_id) = Modal_Status) /\
  ((reconcile_model s vm).(screen_) = Screen_Settings -> vm.(screen_) = Screen_Settings).
Proof.
  destruct (reconcile_cases s vm) as [_ [[Es Ea]|(_ & Es & [[Ea _]|[_ Ea]])]]; cbn; rewrite Es, Ea;
    (split; [by auto|done]).
Qed.

Lemma explained_kept y0 ops op m m' :
  explained y0 ops m -> m' = m \/ m'.(modal_id) = Modal_Status \/ m'.(modal_id) = Modal_Error ->
  leaves_open m.(modal_id) op -> (forall event, op <> Ui_key event) ->
  explained y0 (ops ++ [op]) m'.
Proof.
  intros [Hr He] [-> | Hm] Hop Hk.
  - split; intros Hid.
    + specialize (Hr Hid).
      assert (noticed y0 (ops ++ [op]) (match op with Ui_key event => arrow event m.(modal_confirm_selected) | _ => m.(modal_confirm_selected) end)) as Hn.
      { apply noticed_snoc; [done| |by intros event ?; destruct (Hk event)].
        intros ->. exact Hop. }
      destruct op; try done. by destruct (Hk event).
    + specialize (He Hid).
      pose proof (opened_snoc _ _ _ _ op He Hop). destruct op; try done. by destruct (Hk event).
  - split; destruct Hm as [-> | ->]; try done; intros [?|?]; done.
Qed.

Lemma key_explained y0 ops vm (x : X) event a m' :
  ui_run y0 ops = Some (vm, x) -> explained y0 ops vm.(active_modal_) ->
  (let vm0 := reconcile_model (messenger_of x) vm in
   ModalChange event vm0.(screen_) vm0.(active_modal_) m' a) ->
  explained y0 (ops ++ [Ui_key event]) m'.
Proof.
  intros Hrun [Hr He] [_ _ Hexit Hdel Hrec].
  destruct (reconcile_modal (messenger_of x) vm) as [Hm Hscr].
  set (m := active_modal_ (reconcile_model (messenger_of x) vm)) in *.
  split.
  { intros E. destruct (Hrec E) as (Hid & Hne & ->). destruct Hm as [Hm|Hm]; [|congruence].
    rewrite Hm in *.
    apply (noticed_snoc _ _ _ (Ui_key event) (Hr Hid)); [done|]. by intros ? [= <-]. }
  intros [E|E]; rewrite E.
  - destruct (Hexit E) as [[Hk ->]|(Hid & Hne & Hns & ->)].
    + eapply opened_now; [done|by left].
    + destruct Hm as [Hm|Hm]; [|congruence]. rewrite Hm in *.
      pose proof (He (or_introl Hid)) as Ho. rewrite Hid in Ho.
      by apply (opened_snoc _ _ _ _ (Ui_key event) Ho).
  - destruct (Hdel E) as [(_ & Hs & Hk & ->)|(Hid & Hne & Hns & Hnh & ->)].
    + eapply opened_now; [done|]. right. split; [done|]. split; [done|]. by apply Hscr.
    + destruct Hm as [Hm|Hm]; [|congruence]. rewrite Hm in *.
      pose proof (He (or_intror Hid)) as Ho. rewrite Hid in Ho.
      by apply (opened_snoc _ _ _ _ (Ui_key event) Ho).
Qed.

(** What a view model asks when it is made: nothing, or the recovery notice. *)
Definition just_made (m : ActiveModal) : Prop :=
  harmless m.(modal_id) \/ m.(modal_id) = Modal_Recovery /\ m.(modal_confirm_selected) = false.

Lemma run_explained y0 ops :
  vm_inv y0.1 -> MessengerState_inv (messenger_of y0.2) ->
  just_made y0.1.(active_modal_) -> Forall ui_op_typed ops ->
  exists vm x, ui_run y0 ops = Some (vm, x) /\ vm_inv vm /\ MessengerState_inv (messenger_of x) /\
    explained y0 ops vm.(active_modal_).
Proof.
  intros Hvm Hx Hh. induction ops as [|op ops IH] using rev_ind; intros Hops.
  { destruct y0 as [vm x]. exists vm, x. split; [done|]. split; [done|]. split; [done|]. cbn [fst] in Hh.
    destruct Hh as [Hh|[Hid Hc]].
    - split; [intros E|intros [E|E]]; exfalso; destruct Hh as [Hh|[Hh|[Hh|Hh]]]; congruence.
    - split; [|intros [E|E]; congruence]. intros _. split; [done|]. split; [constructor|].
      split; [|by rewrite Hc]. by intros [|] ? ?. }
  apply Forall_app in Hops as [Hops [Hop _]%Forall_cons].
  destruct (IH Hops) as (vm & x & Hrun & Hi & Hx1 & He).
  destruct (ui_step_spec vm x op Hi Hx1 Hop) as (a & vm' & x' & Hstep & Hi' & Hx' & Hm).
  exists vm', x'. rewrite ui_run_snoc, Hrun. cbn [mbind option_bind]. rewrite Hstep. cbn.
  split_and!; try done.
  destruct op; try (destruct Hm as (_ & _ & Hm); eapply explained_kept; [done|tauto|done|done]).
  - destruct Hm as [_ Hm]. by eapply key_explained.
  - destruct Hm as (_ & _ & Hm). split; rewrite Hm; [by intros ?|]. by intros [?|?].
Qed.

Lemma start_just_made (x : X) locale commit recovery skip :
  just_made (ui_start x locale commit recovery skip).1.(active_modal_).
Proof.
  unfold ui_start, MessengerViewModel_make, ensure_timeline_selection. cbn -[entry_of].
  destruct recovery; [right|left; left]; by destruct (entry_of _ _).
Qed.

Lemma start_noticed (x : X) locale commit recovery skip ops confirm :
  noticed (ui_start x locale commit recovery skip) ops confirm -> recovery = true.
Proof.
  intros [E _]. revert E. unfold ui_start, MessengerViewModel_make, ensure_timeline_selection.
  cbn -[entry_of]. by destruct recovery, (entry_of _ _).
Qed.

(** A view model made without a recovery notice asks nothing. *)
Lemma start_harmless (x : X) locale commit skip :
  harmless (ui_start x locale commit false skip).1.(active_modal_).(modal_id).
Proof.
  left. unfold ui_start, MessengerViewModel_make, ensure_timeline_selection. cbn -[entry_of].
  by destruct (entry_of _ _).
Qed.

(** An approval answers a question opened before, or the recovery notice. *)
Lemma approval_explained y0 ops vm x1 event a y :
  vm_inv y0.1 -> MessengerState_inv (messenger_of y0.2) ->
  just_made y0.1.(active_modal_) -> Forall ui_op_typed ops ->
  ui_run y0 ops = Some (vm, x1) -> ui_step (vm, x1) (Ui_key event) = Some (a, y) ->
  (a.(exit_approved) = true ->
   event.(key) = Key_Enter /\ opened y0 ops Modal_Exit true \/ exists b, noticed y0 ops b) /\
  (a.(delete_data_approved) = true ->
   event.(key) = Key_Enter /\ (opened y0 ops Modal_DeleteData true \/ noticed y0 ops true)).
Proof.
  intros Hvm Hx Hh Hops Hrun Hstep.
  destruct (run_explained y0 ops Hvm Hx Hh Hops) as (vm0 & x0 & Hrun0 & Hi & Hx1 & Hr & He).
  rewrite Hrun in Hrun0. injection Hrun0 as <- <-.
  destruct (ui_step_spec vm x1 (Ui_key event) Hi Hx1 I) as (a' & vm' & x' & Hstep' & _ & _ & _ & Hm).
  rewrite Hstep in Hstep'. injection Hstep' as <- _. destruct Hm as [Hexit Hdel _ _ _].
  destruct (reconcile_modal (messenger_of x1) vm) as [Hm _].
  split; intros Ha.
  - destruct (Hexit Ha) as [E|(Hk & E & Hc)];
      (destruct Hm as [Hm|Hm]; [rewrite Hm in *|congruence]); [right; eexists; by apply Hr|left].
    split; [done|]. rewrite <- E, <- Hc. by apply He; left.
  - destruct (Hdel Ha) as (Hk & Hc & [E|E]);
      (destruct Hm as [Hm|Hm]; [rewrite Hm in *|congruence]); (split; [done|]).
    + left. rewrite <- E, <- Hc. by apply He; right.
    + right. rewrite <- Hc. by apply Hr.
Qed.

Lemma approval_opened y0 ops vm x1 event a y :
  vm_inv y0.1 -> MessengerState_inv (messenger_of y0.2) ->
  harmless y0.1.(active_modal_).(modal_id) -> Forall ui_op_typed ops ->
  ui_run y0 ops = Some (vm, x1) -> ui_step (vm, x1) (Ui_key event) = Some (a, y) ->
  (a.(exit_approved) = true -> event.(key) = Key_Enter /\ opened y0 ops Modal_Exit true) /\
  (a.(delete_data_approved) = true ->
   event.(key) = Key_Enter /\ opened y0 ops Modal_DeleteData true).
Proof.
  intros Hvm Hx Hh Hops Hrun Hstep.
  assert (forall b, ~ noticed y0 ops b) as Hno.
  { intros b [E _]. destruct Hh as [Hh|[Hh|[Hh|Hh]]]; congruence. }
  destruct (approval_explained y0 ops vm x1 event a y Hvm Hx (or_introl Hh) Hops Hrun Hstep)
    as [Hexit Hdel].
  split; intros Ha.
  - destruct (Hexit Ha) as [?|[b Hb]]; [done|by destruct (Hno b)].
  - destruct (Hdel Ha) as [? [?|Hb]]; [done|by destruct (Hno true)].
Qed.
End Run.

(** ** A messenger over its ports *)

(** The promise of [compose], from the branches of its specification. *)
Lemma compose_branch_promise {W} `{IRandomBytes W} s (w : W) d r s' :
  compose_branch s w d r s' -> compose_promise s d r s'.
Proof.
  unfold compose_branch, compose_promise, CommandResult_ok.
  destruct (command_error r) eqn:Er.
  1: { intros (i & m & now & evicted & kept & _ & _ & _ & _ & _ & -> & ->).
       rewrite bool_decide_eq_true_2 by done. cbn [ms_timeline command_message_id].
       eexists. split.
       - unfold newest_at. cbn [entries]. rewrite length_app, Nat.sub_0_r, Nat.add_sub. cbn [length].
         rewrite (proj2 (Nat.leb_gt _ _)) by lia. by rewrite lookup_app_r, Nat.sub_diag by lia.
       - split_and!; done. }
  all: rewrite bool_decide_eq_false_2 by done.
  20: { intros (_ & [-> | (i & _ & _ & ->)]); done. }
  all: intros (-> & _ & Hcase); split_and!; try done; intros [=]; exact Hcase.
Qed.

#[global] Instance messenger_over {W} `{IRandomBytes W} `{IWallClock W} `{IStateCommit W}
  : IMessenger (MessengerState * W) := {
  messenger_of := fst;
  compose_post_draft x d := let '(r, s, w) := compose x.1 x.2 d in (r, (s, w))
}.

(** No settings port: the view model is made with [settings_commit_] false. *)
#[global] Instance no_settings {W} : IUiSettingsCommit (MessengerState * W) := {
  persist_locale x _ := (true, x);
  persist_skip_title x _ := (true, x)
}.

#[global] Instance messenger_over_laws {W} `{IRandomBytesLaws W} `{IWallClockLaws W} `{IStateCommit W}
  : IMessengerLaws (MessengerState * W).
Proof.
  constructor.
  - intros [s w] d r x' Hs Hd E. cbn in *. destruct (compose s w d) as [[r1 s1] w1] eqn:Ec.
    injection E as <- <-. destruct (compose_branches s w d r1 s1 w1 Hs Hd Ec) as [Hi Hb].
    split; [done|]. by eapply compose_branch_promise.
  - by intros x l b x' [= _ <-].
  - by intros x l b x' [= _ <-].
Qed.

(** Samples: a fresh messenger, and a draft typed on the compose screen. *)
Definition sample_messenger : MessengerState * ScriptedPorts :=
  ((ready_run []).1.2, (ready_run []).2).
Definition char_key (c : Z) : UiOp (MessengerState * ScriptedPorts) :=
  Ui_key (mkKeyEvent Key_Character c).
Definition plain_key (k : UiKey) : UiOp (MessengerState * ScriptedPorts) := Ui_key (mkKeyEvent k 0).

Lemma sample_messenger_inv : MessengerState_inv (messenger_of sample_messenger).
Proof.
  unfold sample_messenger, ready_run.
  destruct (initialize_new fresh_state (fresh_world []) (str "Mika")) as [[r s] w] eqn:E.
  exact (initialize_new_inv _ _ _ _ _ _ fresh_state_inv E).
Qed.

Definition sample_start : MessengerViewModel * (MessengerState * ScriptedPorts) :=
  ui_start sample_messenger Locale_English false false true.

Definition sample_typing : list (UiOp (MessengerState * ScriptedPorts)) :=
  [char_key 0x6e; char_key 0x68; char_key 0x69].

Lemma sample_start_inv : vm_inv sample_start.1.
Proof. apply make_inv. Qed.

Lemma sample_start_messenger : sample_start.2 = sample_messenger.
Proof. reflexivity. Qed.

Lemma sample_run ops :
  Forall ui_op_typed ops ->
  exists vm x, ui_run sample_start ops = Some (vm, x) /\ vm_inv vm /\
    MessengerState_inv (messenger_of x).
Proof.
  apply (ui_run_inv sample_start ops sample_start_inv).
  rewrite sample_start_messenger. apply sample_messenger_inv.
Qed.

Lemma sample_typing_typed : Forall ui_op_typed sample_typing.
Proof. unfold sample_typing. repeat constructor. Qed.

(** ** Property theorems *)

(** The view model is never undefined and keeps its invariant.  Make it over
    any messenger, in any locale, with or without a settings port, a recovery
    notice and the title screen, and let the application press keys, take
    snapshots, refresh, report the transport and storage failures while the
    messenger changes between the calls: every operation answers, the draft
    stays a valid text of at most 160 bytes with at most four distinct people
    and is empty on every screen that does not show it, the cursor of the peer
    list stays in it, and Discard is asked on the compose screen only. *)
Theorem view_model_safe {X} `{IMessengerLaws X} (x : X) locale commit recovery skip ops :
  MessengerState_inv (messenger_of x) -> Forall ui_op_typed ops ->
  exists vm x', ui_run (ui_start x locale commit recovery skip) ops = Some (vm, x') /\
    MessengerState_inv (messenger_of x') /\
    is_valid_utf8 vm.(draft_).(draft_editor).(text_) = true /\
    (length vm.(draft_).(draft_editor).(text_) <= kMaxPostBodyBytes)%nat /\
    (length vm.(draft_).(draft_people) <= kMaxMentions)%nat /\ NoDup vm.(draft_).(draft_people) /\
    (vm.(screen_) <> Screen_Compose -> vm.(screen_) <> Screen_Mentions -> vm.(draft_) = Draft_make) /\
    NoDup vm.(peers_) /\
    ((vm.(peer_cursor_) < length vm.(peers_))%nat \/ vm.(peers_) = [] /\ vm.(peer_cursor_) = 0%nat) /\
    (vm.(active_modal_).(modal_id) = Modal_Discard -> vm.(screen_) = Screen_Compose).
Proof.
  intros Hx Hops.
  destruct (ui_run_inv (ui_start x locale commit recovery skip) ops
    (make_inv (messenger_of x) locale commit recovery skip) Hx Hops)
    as (vm & x' & Hrun & [[He Hc Hl Hn _] [Hpn _ Hpc] [Hcl Hdi _ _ _]] & Hx').
  destruct (editor_inv_text _ He) as (Hv & Hb & _). rewrite Hc in Hb.
  exists vm, x'. split_and!; done.
Qed.

Lemma view_model_safe_witness :
  exists vm x',
    ui_run sample_start (sample_typing ++ [plain_key Key_Enter; Ui_snapshot]) = Some (vm, x') /\
    MessengerState_inv (messenger_of x') /\
    (length vm.(draft_).(draft_editor).(text_) <= kMaxPostBodyBytes)%nat.
Proof.
  destruct (view_model_safe sample_messenger Locale_English false false true
    (sample_typing ++ [plain_key Key_Enter; Ui_snapshot]) sample_messenger_inv
    ltac:(repeat constructor)) as (vm & x' & Hrun & Hx & _ & Hb & _).
  exists vm, x'. exact (conj Hrun (conj Hx Hb)).
Defined.

(** Nothing is deleted and the program does not exit without a
    confirmation.  In any use of a view model made without a recovery notice, a
    key that approves the exit is Enter, after a Home key that opened the
    question; a key that approves deleting the local data is Enter, after a d
    or D pressed on the settings screen that opened the question.  In between
    the question stayed open - no Enter, no Escape, no storage failure - and
    the last arrow key chose the confirming button. *)
Theorem approval_needs_confirmation {X} `{IMessengerLaws X} (x : X) locale commit skip ops
    vm x1 event a y :
  MessengerState_inv (messenger_of x) -> Forall ui_op_typed ops ->
  ui_run (ui_start x locale commit false skip) ops = Some (vm, x1) ->
  ui_step (vm, x1) (Ui_key event) = Some (a, y) ->
  (a.(exit_approved) = true ->
   event.(key) = Key_Enter /\
   opened (ui_start x locale commit false skip) ops Modal_Exit true) /\
  (a.(delete_data_approved) = true ->
   event.(key) = Key_Enter /\
   opened (ui_start x locale commit false skip) ops Modal_DeleteData true).
Proof.
  intros Hx Hops Hrun Hstep.
  exact (approval_opened (ui_start x locale commit false skip) ops vm x1 event a y (make_inv (messenger_of x) locale commit false skip)
    Hx (start_harmless _ _ _ _) Hops Hrun Hstep).
Qed.

(** Two runs of the samples, computed. *)
Lemma sample_exit :
  match ui_run sample_start [plain_key Key_Home; plain_key Key_Right] with
  | Some y =>
      match ui_step y (plain_key Key_Enter) with
      | Some (a, _) => a.(exit_approved)
      | None => false
      end
  | None => false
  end = true.
Proof. vm_compute. reflexivity. Qed.

Lemma sample_exit_parts :
  exists vm x a y,
    ui_run sample_start [plain_key Key_Home; plain_key Key_Right] = Some (vm, x) /\
    ui_step (vm, x) (plain_key Key_Enter) = Some (a, y) /\ a.(exit_approved) = true.
Proof.
  pose proof sample_exit as H. revert H.
  generalize (ui_run sample_start [plain_key Key_Home; plain_key Key_Right]).
  intros [[vm x]|] H; [|done]. destruct (ui_step (vm, x) _) as [[a y]|] eqn:E; [|done].
  by exists vm, x, a, y.
Qed.

Lemma approval_needs_confirmation_witness :
  exists vm x a y,
    ui_run sample_start [plain_key Key_Home; plain_key Key_Right] = Some (vm, x) /\
    ui_step (vm, x) (plain_key Key_Enter) = Some (a, y) /\
    opened sample_start [plain_key Key_Home; plain_key Key_Right] Modal_Exit true.
Proof.
  destruct sample_exit_parts as (vm & x & a & y & Hrun & Hstep & Ha).
  exists vm, x, a, y. split; [exact Hrun|]. split; [exact Hstep|].
  exact (proj2 (proj1 (approval_needs_confirmation sample_messenger Locale_English false true
    [plain_key Key_Home; plain_key Key_Right] vm x (mkKeyEvent Key_Enter 0) a y
    sample_messenger_inv ltac:(repeat constructor) Hrun Hstep) Ha)).
Defined.

(** C19: a draft is never lost.  Whatever a key does in a state that satisfies
    the invariant, the draft afterwards is the draft before; or that draft after
    one operation of its editor, for the editing keys of the compose screen; or
    with one person added or removed, for Enter on the people screen; or a new
    one, where there was none; or it is gone because the post made of it is now
    the newest entry of the timeline, because it was empty and left with
    Escape, or because the question whether to discard it was confirmed.  The
    other operations leave it alone. *)
Theorem draft_never_lost {X} `{IMessengerLaws X} vm (x : X) op a vm' x' :
  vm_inv vm -> MessengerState_inv (messenger_of x) -> ui_op_typed op ->
  ui_step (vm, x) op = Some (a, (vm', x')) ->
  match op with
  | Ui_key event => DraftChange (reconcile_model (messenger_of x) vm) event x x' vm'.(draft_)
  | _ => vm'.(draft_) = vm.(draft_)
  end.
Proof.
  intros Hvm Hx Hop Hstep.
  destruct (ui_step_spec vm x op Hvm Hx Hop) as (a1 & vm1 & x1 & Hstep1 & _ & _ & Hd).
  rewrite Hstep in Hstep1. injection Hstep1 as <- <- <-. by destruct op; destruct Hd.
Qed.

Lemma draft_never_lost_witness :
  exists a vm' x',
    ui_step sample_start (plain_key Key_Down) = Some (a, (vm', x')) /\
    DraftChange (reconcile_model (messenger_of sample_messenger) sample_start.1)
      (mkKeyEvent Key_Down 0) sample_messenger x' vm'.(draft_).
Proof.
  destruct (ui_step_spec sample_start.1 sample_messenger (plain_key Key_Down) sample_start_inv
    sample_messenger_inv I) as (a & vm' & x' & Hstep & _).
  exists a, vm', x'. split; [exact Hstep|].
  exact (draft_never_lost sample_start.1 sample_messenger (plain_key Key_Down) a vm' x'
    sample_start_inv sample_messenger_inv I Hstep).
Defined.

(** C20: Enter sends the draft.  On the compose screen, with no modal open, Enter
    runs the compose command on exactly the draft.  If it succeeds the post is
    the newest entry of the timeline, queued, with the text, the people and the
    parent of the draft; the draft is empty, the timeline is shown with that
    post selected, and the status tells it.  If it fails the timeline is as it
    was, the draft and the screen are kept and the error is shown; and the
    error is never one about the mentions. *)
Theorem enter_sends_draft {X} `{IMessengerLaws X} vm (x : X) event :
  vm_inv vm -> MessengerState_inv (messenger_of x) ->
  (reconcile_model (messenger_of x) vm).(screen_) = Screen_Compose ->
  no_modal_open (reconcile_model (messenger_of x) vm) -> event.(key) = Key_Enter ->
  exists r vm' x', compose_post_draft x (draft_post vm.(draft_)) = (r, x') /\
    handle event vm x = Some (render, vm', x') /\
    if CommandResult_ok r then
      newest_is_draft (messenger_of x').(ms_timeline) (draft_post vm.(draft_)) vm'.(selected_message_id_) /\
      vm'.(draft_) = Draft_make /\ vm'.(screen_) = Screen_Timeline /\
      vm'.(active_modal_).(modal_id) = Modal_Status
    else
      (messenger_of x').(ms_timeline) = (messenger_of x).(ms_timeline) /\
      vm'.(draft_) = vm.(draft_) /\ vm'.(screen_) = Screen_Compose /\
      vm'.(active_modal_) =
        mkActiveModal Modal_Error (command_error_string_id r.(command_error)) false /\
      r.(command_error) <> CommandError_TooManyMentions /\
      r.(command_error) <> CommandError_DuplicateMention.
Proof.
  intros Hvm Hx Hs Hm Hk. pose proof (reconcile_inv _ vm Hx Hvm) as Hr.
  destruct (reconcile_cases (messenger_of x) vm) as [Ed _]. rewrite <- Ed.
  unfold handle. set (vm0 := reconcile_model (messenger_of x) vm) in *.
  rewrite (bool_decide_eq_true_2 (modal_id (active_modal_ vm0) = Modal_None)) by exact Hm.
  unfold is_key, handle_global_shortcut, handle_compose. rewrite Hs, Hk. cbn [negb].
  rewrite bool_decide_eq_false_2 by done.
  destruct (send_draft vm0 x) as [vm' x'] eqn:E.
  destruct (send_draft_spec vm0 x vm' x' Hr Hx Hs Hm E) as (r & Hc & _ & _ & Hp & Hcase).
  exists r, vm', x'. split; [done|]. split; [done|]. unfold compose_promise in Hp.
  destruct (CommandResult_ok r).
  - destruct Hcase as (? & ? & ? & ->). done.
  - subst vm'. destruct Hp as (Ht & H4 & Hn). pose proof (vm_draft vm0 Hr) as [_ _ Hl Hnd _].
    split_and!; try done.
    + intros E'. specialize (H4 E'). cbn in H4. lia.
    + intros E'. by apply (Hn E').
Qed.

Lemma sample_typed :
  match ui_run sample_start sample_typing with
  | Some (vm, x) =>
      let vm0 := reconcile_model (messenger_of x) vm in
      bool_decide (vm0.(screen_) = Screen_Compose) &&
      bool_decide (vm0.(active_modal_).(modal_id) = Modal_None) &&
      bool_decide (vm.(draft_).(draft_editor).(text_) = str "hi") &&
      CommandResult_ok (compose_post_draft x (draft_post vm.(draft_))).1
  | None => false
  end = true.
Proof. vm_compute. reflexivity. Qed.

Lemma sample_typed_parts :
  exists vm x, ui_run sample_start sample_typing = Some (vm, x) /\
    (reconcile_model (messenger_of x) vm).(screen_) = Screen_Compose /\
    no_modal_open (reconcile_model (messenger_of x) vm) /\
    vm.(draft_).(draft_editor).(text_) = str "hi" /\
    CommandResult_ok (compose_post_draft x (draft_post vm.(draft_))).1 = true.
Proof.
  pose proof sample_typed as H. revert H. generalize (ui_run sample_start sample_typing).
  intros [[vm x]|]; [|done]. intros H. exists vm, x. cbv zeta in H.
  rewrite !andb_true_iff, !bool_decide_eq_true in H. destruct H as [[[? ?] ?] ?]. done.
Qed.

Lemma enter_sends_draft_witness :
  exists vm x vm' x', ui_run sample_start sample_typing = Some (vm, x) /\
    handle (mkKeyEvent Key_Enter 0) vm x = Some (render, vm', x') /\
    newest_is_draft (messenger_of x').(ms_timeline) (mkPostDraft (str "hi") vm.(draft_).(draft_people)
      vm.(draft_).(draft_parent)) vm'.(selected_message_id_).
Proof.
  destruct sample_typed_parts as (vm & x & Hrun & Hs & Hm & Ht & Hok).
  destruct (sample_run sample_typing sample_typing_typed) as (vm1 & x1 & Hrun1 & Hi & Hx).
  rewrite Hrun in Hrun1. injection Hrun1 as <- <-.
  destruct (enter_sends_draft vm x (mkKeyEvent Key_Enter 0) Hi Hx Hs Hm eq_refl)
    as (r & vm' & x' & Hc & Hh & Hcase).
  rewrite Hc in Hok. cbn [fst] in Hok. rewrite Hok in Hcase. destruct Hcase as (Hn & _).
  unfold draft_post in Hn. rewrite Ht in Hn.
  exists vm, x, vm', x'. exact (conj Hrun (conj Hh Hn)).
Defined.

(** C23: the user can always leave.  In every state that satisfies the invariant
    the recovery notice is left with Escape, and from everywhere else Home,
    Right and Enter approve the exit; no data is deleted on the way and the
    messenger is not touched. *)
Theorem exit_reachable {X} `{IMessengerLaws X} vm (x : X) :
  vm_inv vm -> MessengerState_inv (messenger_of x) ->
  let vm0 := reconcile_model (messenger_of x) vm in
  if bool_decide (vm0.(active_modal_).(modal_id) = Modal_Recovery) then
    exists vm', handle (mkKeyEvent Key_Escape 0) vm x = Some (mkUiAction false true false, vm', x)
  else
    exists a1 vm1 vm2 vm3,
      handle (mkKeyEvent Key_Home 0) vm x = Some (a1, vm1, x) /\
      a1.(delete_data_approved) = false /\
      handle (mkKeyEvent Key_Right 0) vm1 x = Some (render, vm2, x) /\
      handle (mkKeyEvent Key_Enter 0) vm2 x = Some (mkUiAction false true false, vm3, x).
Proof.
  intros Hvm Hx vm0. case_bool_decide as Hr.
  { unfold handle. fold vm0. rewrite bool_decide_eq_false_2 by congruence. cbn [negb].
    unfold handle_modal, is_key. rewrite Hr. cbn [key]. decide_enums. cbn. by eexists. }
  assert (exists a1 vm1, handle (mkKeyEvent Key_Home 0) vm x = Some (a1, vm1, x) /\
    a1.(delete_data_approved) = false /\ vm1.(active_modal_).(modal_id) = Modal_Exit)
    as (a1 & vm1 & Hhome & Ha1 & Hm1).
  { unfold handle. fold vm0. case_bool_decide as Hn; cbn [negb].
    { unfold is_key. cbn [key]. decide_enums. by do 2 eexists. }
    unfold handle_modal, is_key. cbn [key].
    destruct (modal_id (active_modal_ vm0)) eqn:Em; try done; decide_enums; cbn;
      (do 2 eexists; split; [done|]); split; done. }
  assert (forall v, v.(active_modal_).(modal_id) = Modal_Exit ->
    (reconcile_model (messenger_of x) v).(active_modal_) = v.(active_modal_)) as Hrec.
  { intros v Hv. destruct (reconcile_cases (messenger_of x) v) as [_ [[_ ?]|(_ & _ & [[? _]|[Hn _]])]];
      [done|done|congruence]. }
  set (vm2 := select_confirm true (reconcile_model (messenger_of x) vm1)).
  assert (vm2.(active_modal_) = mkActiveModal Modal_Exit vm1.(active_modal_).(modal_message) true) as Hm2.
  { unfold vm2, select_confirm. cbn. by rewrite (Hrec vm1 Hm1), Hm1. }
  exists a1, vm1, vm2. eexists. split; [done|]. split; [done|].
  split; unfold handle, handle_modal, is_key.
  - rewrite (Hrec vm1 Hm1), Hm1. cbn [key]. decide_enums. cbn [negb andb]. done.
  - rewrite (Hrec vm2) by (by rewrite Hm2). rewrite Hm2. cbn [key modal_id modal_confirm_selected].
    decide_enums. cbn [negb andb]. done.
Qed.

Lemma sample_no_recovery :
  (reconcile_model (messenger_of sample_messenger) sample_start.1).(active_modal_).(modal_id)
    <> Modal_Recovery.
Proof. vm_compute. discriminate. Qed.

Lemma exit_reachable_witness :
  exists a1 vm1 vm2 vm3,
    handle (mkKeyEvent Key_Home 0) sample_start.1 sample_messenger = Some (a1, vm1, sample_messenger) /\
    handle (mkKeyEvent Key_Right 0) vm1 sample_messenger = Some (render, vm2, sample_messenger) /\
    handle (mkKeyEvent Key_Enter 0) vm2 sample_messenger =
      Some (mkUiAction false true false, vm3, sample_messenger).
Proof.
  pose proof (exit_reachable sample_start.1 sample_messenger sample_start_inv sample_messenger_inv) as H.
  revert H. cbv zeta. case_bool_decide as E; [destruct (sample_no_recovery E)|]. intros H.
  destruct H as (a1 & vm1 & vm2 & vm3 & H1 & _ & H2 & H3).
  exists a1, vm1, vm2, vm3. exact (conj H1 (conj H2 H3)).
Defined.
