(* ===== verification/ViewSnapshots.v ===== *)
(** * ViewSnapshots: what the user sees

    The theory of [snapshot] of [ViewModel]: every text handed to the view is
    valid UTF-8, the lists fit the screen and the selected row is always in the
    window. *)
From S2P Require Import Prelude Ports Utf8 Text Uuid Identity Post Timeline MessengerState TextEditor I18n ViewText ViewModel ViewModelTheory.

(** ** Specification vocabulary *)

Definition row_texts (row : TimelineRowSnapshot) : list bytes :=
  [row.(row_sender); row.(row_sender_suffix); row.(row_body_preview)].

(** Every text of a page. *)
Definition page_texts (page : PageSnapshot) : list bytes :=
  match page with
  | Page_Menu _ => []
  | Page_Timeline p => concat (map row_texts p.(snap_rows))
  | Page_Detail p =>
      [p.(detail_sender); p.(detail_sender_suffix); p.(detail_body); p.(detail_visible_body);
       p.(detail_reply_preview)] ++ map snd p.(detail_mentions)
  | Page_Compose p => p.(compose_body) :: map snd p.(compose_mentions)
  | Page_Mentions p => map option_label p.(snap_options)
  | Page_Settings p =>
      [p.(snap_user_id); p.(snap_install_suffix); p.(snap_locale_name); p.(snap_session_notice);
       p.(snap_radio_status)]
  end.

Definition view_texts (v : ViewSnapshot) : list bytes :=
  [v.(view_title); v.(view_footer); v.(view_modal).(modal_title); v.(view_modal).(modal_text);
   v.(view_modal).(modal_cancel_label); v.(view_modal).(modal_confirm_label)] ++
  page_texts v.(view_page).

Definition valid (s : bytes) : Prop := is_valid_utf8 s = true.

(** ** Valid texts *)

Lemma ascii_valid l : Forall (fun b => bval b <= 0x7f) l -> valid l.
Proof.
  intros Hl. apply is_valid_utf8_valid. exists (map bval l). split.
  - apply Forall_fmap. eapply Forall_impl; [exact Hl|]. intros b Hb. cbn beta in *. pose proof (bval_range b).
    change (is_scalar (bval b)). unfold is_scalar. lia.
  - induction Hl as [|b l Hb _ IH]; [done|]. cbn [map]. rewrite utf8_text_cons, <- IH.
    byte_ranges. rewrite encode_ascii by lia. by rewrite to_u8_bval.
Qed.

Lemma to_string_ascii index bs : forall output,
  Forall (fun b => bval b <= 0x7f) output ->
  Forall (fun b => bval b <= 0x7f) (Uuid_to_string_loop index bs output).
Proof.
  revert index. induction bs as [|b bs IH]; intros index output Ho; [done|].
  cbn [Uuid_to_string_loop]. apply IH.
  assert (bval (hex_high b) <= 0x7f /\ bval (hex_low b) <= 0x7f) as [Hh Hl] by by destruct b.
  rewrite !Forall_app, !Forall_singleton. split_and!; try done.
  split_if; [|done]. apply Forall_app. split; [done|]. by constructor.
Qed.

Lemma id_suffix_valid id : valid (id_suffix id).
Proof.
  apply ascii_valid. unfold id_suffix, Uuid_to_string.
  pose proof (to_string_ascii 0 (Uuid_bytes (InstallId_uuid id)) [] (List.Forall_nil _)).
  split_if; [done|]. by apply Forall_drop.
Qed.

Lemma validated_valid value n user_id : validate_text value n user_id = TextError_None -> valid value.
Proof.
  intros [_ (cps & Hd & _)]%validate_text_None. apply utf8_decode_Some in Hd as [Hs ->].
  by apply valid_text.
Qed.

Lemma user_id_valid u : UserId_wf u -> valid u.(UserId_value).
Proof. apply validated_valid. Qed.

Lemma post_body_valid b : PostBody_wf b -> valid b.(PostBody_value).
Proof. apply validated_valid. Qed.

Lemma translate_is_valid locale id : valid (translate locale id).
Proof. apply translate_valid. Qed.

Section Snapshot.
Context (s : MessengerState) (Hs : MessengerState_inv s).

Lemma entry_texts e :
  e ∈ s.(ms_timeline).(entries) ->
  valid e.(entry_post).(sender_user_id).(UserId_value) /\ valid e.(entry_post).(body).(PostBody_value).
Proof.
  intros He. pose proof (posts_wf s e Hs He) as Hp.
  split; [by apply user_id_valid, wf_sender_user_id|by apply post_body_valid, wf_body].
Qed.

Lemma peer_label_valid locale person : valid (peer_label locale s.(ms_timeline) person).
Proof.
  assert (forall t, valid t -> valid (t ++ str " #" ++ id_suffix person)) as Happ.
  { intros t Ht. apply valid_app; [done|]. apply valid_app; [done|apply id_suffix_valid]. }
  unfold peer_label. destruct (first_newest _ _) as [i|]; [|apply Happ, translate_is_valid].
  destruct (newest_at _ i) as [e|] eqn:E; [|apply Happ, translate_is_valid].
  apply newest_at_Some in E as [He _]. apply Happ. by apply entry_texts.
Qed.

Lemma labels_valid locale people :
  Forall valid (map snd (map (fun p => (p, peer_label locale s.(ms_timeline) p)) people)).
Proof. rewrite map_map. cbn. apply Forall_fmap, Forall_true. intros p. apply peer_label_valid. Qed.

Lemma preview_valid t :
  valid t -> valid (truncated_utf8 t kTimelinePreviewBytes) /\
    (length (truncated_utf8 t kTimelinePreviewBytes) <= kTimelinePreviewBytes)%nat.
Proof. intros Ht. apply truncated_valid; [done|]. unfold kTimelinePreviewBytes. lia. Qed.

(** The rows of a window and what they show. *)
Lemma rows_of vm first n row :
  row ∈ omap (fun index => timeline_row s vm <$> newest_at s.(ms_timeline) index) (seq first n) <->
  exists i e, (first <= i < first + n)%nat /\ newest_at s.(ms_timeline) i = Some e /\
    row = timeline_row s vm e.
Proof.
  rewrite list_elem_of_omap. split.
  - intros (i & Hi%list_elem_of_In%in_seq & (e & He & Hr)%fmap_Some). by exists i, e.
  - intros (i & e & Hi & He & ->). exists i. split; [by apply list_elem_of_In, in_seq|].
    by rewrite He.
Qed.

Lemma timeline_texts_valid vm :
  Forall valid (concat (map row_texts (timeline_snapshot s vm).(snap_rows))).
Proof.
  unfold timeline_snapshot. split_if; [constructor|]. cbn [snap_rows].
  apply Forall_concat, Forall_fmap, Forall_forall. intros row (i & e & _ & He & ->)%rows_of.
  apply newest_at_Some in He as [He _]. destruct (entry_texts e He) as [Hu Hb].
  unfold row_texts. cbn. constructor; [done|]. constructor; [apply id_suffix_valid|].
  constructor; [by apply preview_valid|constructor].
Qed.

Lemma detail_texts_valid vm : Forall valid (page_texts (Page_Detail (detail_snapshot s vm))).
Proof.
  unfold detail_snapshot. destruct (entry_of _ _) as [e|] eqn:E; [|by repeat constructor].
  apply entry_of_elem in E as [He _]. destruct (entry_texts e He) as [Hu Hb].
  set (rp := match reply_state _ e with ReplyState_NotReply => _ | _ => _ end).
  assert (valid rp.2) as Hr.
  { unfold rp. destruct (reply_state _ e); [done| |apply translate_is_valid]. cbn.
    destruct (entry_of _ (reply_to _)) as [p|] eqn:Ep; [|done].
    apply entry_of_elem in Ep as [Hp _]. by apply preview_valid, entry_texts. }
  destruct rp as [reply preview]. cbn in Hr. cbn [page_texts detail_sender detail_sender_suffix
    detail_body detail_visible_body detail_reply_preview detail_mentions].
  apply Forall_app. split; [|apply labels_valid].
  repeat (constructor; [first [done|apply id_suffix_valid|by apply detail_window_valid]|]). constructor.
Qed.

Lemma page_texts_valid vm :
  draft_inv vm.(draft_) ->
  Forall valid (page_texts (Page_Timeline (timeline_snapshot s vm))) /\
  Forall valid (page_texts (Page_Detail (detail_snapshot s vm))) /\
  Forall valid (page_texts (Page_Compose (compose_snapshot s vm))) /\
  Forall valid (page_texts (Page_Mentions (mentions_snapshot s vm))) /\
  Forall valid (page_texts (Page_Settings (settings_snapshot s vm))).
Proof.
  intros Hd. split_and!.
  - apply timeline_texts_valid.
  - apply detail_texts_valid.
  - cbn [page_texts compose_snapshot compose_body compose_mentions]. constructor; [|apply labels_valid].
    by destruct (editor_inv_text _ (draft_editor_inv _ Hd)).
  - cbn [page_texts mentions_snapshot snap_options]. apply Forall_fmap, Forall_forall.
    intros o (i & _ & (p & _ & ->)%fmap_Some)%list_elem_of_omap. cbn. apply peer_label_valid.
  - apply List.Forall_cons; [|apply List.Forall_cons; [|repeat apply List.Forall_cons]].
    + cbn [snap_user_id settings_snapshot]. destruct (ms_identity s) as [i|] eqn:Ei; [|done].
      pose proof (ms_inv_identity s Hs i Ei) as (_ & Hu & _). by apply user_id_valid.
    + cbn [snap_install_suffix settings_snapshot]. destruct (ms_identity s); [apply id_suffix_valid|done].
    + apply locale_display_name_valid.
    + apply translate_is_valid.
    + apply translate_is_valid.
    + constructor.
Qed.
End Snapshot.

Lemma modal_texts_valid vm :
  let m := modal_snapshot vm in
  valid m.(modal_title) /\ valid m.(modal_text) /\ valid m.(modal_cancel_label) /\
  valid m.(modal_confirm_label).
Proof.
  unfold modal_snapshot, modal_labels.
  destruct (modal_id (active_modal_ vm));
    cbn [modal_title modal_text modal_cancel_label modal_confirm_label]; split_and!;
    try case_bool_decide; done || apply translate_is_valid.
Qed.

(** ** Windows *)

Lemma window_covers index visible total :
  (0 < visible)%nat -> (index < total)%nat ->
  let first := window_first index visible total in
  (first <= index < Nat.min total (first + visible))%nat.
Proof.
  intros Hv Hi. unfold window_first. repeat split_if; reflect_bools; lia.
Qed.

Lemma window_size index visible total :
  let first := window_first index visible total in
  (Nat.min total (first + visible) - first <= visible)%nat.
Proof. cbn. lia. Qed.

Lemma omap_length {A B} (f : A -> option B) l : (length (omap f l) <= length l)%nat.
Proof. induction l as [|a l IH]; cbn; [lia|]. destruct (f a); cbn; lia. Qed.

(** After [reconcile_model] the selection is an entry, if there is one. *)
Lemma selection_valid t vm :
  t.(entries) <> [] ->
  exists m, (ensure_timeline_selection t vm).(selected_message_id_) = Some m /\
    is_Some (Timeline_find t m).
Proof.
  intros Hne. unfold ensure_timeline_selection.
  destruct (entry_of t (selected_message_id_ vm)) as [e|] eqn:E.
  - unfold entry_of in E. destruct (selected_message_id_ vm) as [m|]; [|done]. by exists m.
  - destruct (newest_at_is_Some t 0) as [e He]; [destruct (entries t); [done|cbn; lia]|].
    rewrite He. cbn. eexists. split; [done|].
    destruct (Timeline_find t _) as [e'|] eqn:Ef; [by eexists|].
    apply find_None_ids in Ef. exfalso. apply Ef. apply newest_at_Some in He as [He _].
    change (entry_id e ∈ map entry_id (entries t)). by apply list_elem_of_fmap_2.
Qed.

Lemma reconcile_selection s vm :
  (reconcile_model s vm).(selected_message_id_) =
  (ensure_timeline_selection s.(ms_timeline) vm).(selected_message_id_).
Proof.
  unfold reconcile_model. set (vm1 := ensure_timeline_selection _ _).
  repeat (split_if || case_bool_decide); unfold refresh_peers; cbn; repeat split_if; done.
Qed.

(** The selected row is shown. *)
Lemma selected_shown s vm m :
  vm.(selected_message_id_) = Some m -> is_Some (Timeline_find s.(ms_timeline) m) ->
  Exists (fun row => row.(row_selected) = true /\ row.(row_message_id) = m)
    (timeline_snapshot s vm).(snap_rows).
Proof.
  intros Em [e Hf]. destruct (newest_index_find _ _ _ Hf) as [i Hi].
  destruct (newest_index_Some _ _ _ Hi) as (e' & He & Hid & Hlt).
  unfold timeline_snapshot. rewrite (proj2 (Nat.eqb_neq _ _)) by lia. rewrite Em, Hi. cbn [default snap_rows].
  apply Exists_exists. exists (timeline_row s vm e'). split.
  - apply rows_of. exists i, e'. split; [|done].
    pose proof (window_covers i kVisibleTimelineRows (length (entries (ms_timeline s)))) as Hw.
    unfold kVisibleTimelineRows in *. specialize (Hw ltac:(lia) Hlt). cbv zeta in Hw. change (id i) with i. lia.
  - cbn. rewrite Em. unfold entry_id in Hid. rewrite Hid. by rewrite bool_decide_eq_true_2.
Qed.

(** ** Property theorems *)

(** C22: what the view is given to draw.  In every state that satisfies the
    invariant, every text of the snapshot - titles, names, suffixes, bodies,
    previews, labels, messages - is valid UTF-8.  The timeline page has at most
    two rows with previews of at most 72 bytes, and unless the history is empty
    one of them is the selected entry, which is an entry of the timeline; the
    people page has at most three options and, unless there is nobody, the one
    under the cursor is among them. *)
Theorem snapshot_well_formed {X} `{IMessengerLaws X} vm (x : X) :
  vm_inv vm -> MessengerState_inv (messenger_of x) ->
  let (v, vm') := snapshot (messenger_of x) vm in
  Forall (fun text => is_valid_utf8 text = true) (view_texts v) /\
  match v.(view_page) with
  | Page_Timeline p =>
      (length p.(snap_rows) <= kVisibleTimelineRows)%nat /\
      Forall (fun row => (length row.(row_body_preview) <= kTimelinePreviewBytes)%nat) p.(snap_rows) /\
      ((messenger_of x).(ms_timeline).(entries) <> [] ->
       exists m, vm'.(selected_message_id_) = Some m /\
         is_Some (Timeline_find (messenger_of x).(ms_timeline) m) /\
         Exists (fun row => row.(row_selected) = true /\ row.(row_message_id) = m) p.(snap_rows))
  | Page_Mentions p =>
      (length p.(snap_options) <= kVisibleMentionRows)%nat /\
      (vm'.(peers_) <> [] -> Exists (fun o => o.(option_cursor) = true) p.(snap_options))
  | _ => True
  end.
Proof.
  intros Hvm Hx. unfold snapshot.
  pose proof (reconcile_inv _ vm Hx Hvm) as Hr.
  pose proof (reconcile_selection (messenger_of x) vm) as Hsel.
  pose proof (selection_valid (messenger_of x).(ms_timeline) vm) as Hval. rewrite <- Hsel in Hval.
  set (vm0 := reconcile_model (messenger_of x) vm) in *. clearbody vm0. clear Hsel.
  pose proof (refresh_peers_keeps _ vm0 Hx Hr) as Hr1.
  assert (forall vm page, vm_inv vm -> Forall valid (page_texts page) ->
    Forall valid (view_texts (mkViewSnapshot vm.(screen_) vm.(locale_) vm.(radio_ready_)
      vm.(transport_status_) (translate vm.(locale_) (screen_title vm.(screen_)))
      (translate vm.(locale_) (screen_footer vm.(screen_))) page (modal_snapshot vm)))) as Hall.
  { intros vm1 page _ Hp. destruct (modal_texts_valid vm1) as (? & ? & ? & ?).
    apply Forall_app. split; [|done].
    repeat (apply List.Forall_cons; [done || apply translate_is_valid|]). constructor. }
  destruct (page_texts_valid (messenger_of x) Hx vm0 (vm_draft _ Hr)) as (Ht & Hd & Hc & _ & Hst).
  destruct (page_texts_valid (messenger_of x) Hx (refresh_peers (messenger_of x) vm0) (vm_draft _ Hr1))
    as (_ & _ & _ & Hm & _).
  destruct (screen_ vm0) eqn:Es; (split; [apply Hall; [done|try done; constructor]|]);
    cbn [view_page]; try exact I.
  - pose proof (selected_shown (messenger_of x) vm0) as Hshown.
    unfold timeline_snapshot in *. split_if; cbn [snap_rows] in *.
    + reflect_bools. split; [cbn; lia|]. split; [constructor|]. intros Hne.
      destruct (entries _); [done|discriminate].
    + split; [|split].
      * etrans; [apply omap_length|]. rewrite length_seq. apply window_size.
      * apply Forall_forall. intros row (i & e & _ & He & ->)%rows_of.
        apply newest_at_Some in He as [He _]. cbn.
        by apply preview_valid, (entry_texts (messenger_of x) Hx e He).
      * intros Hne. destruct (Hval Hne) as (m & Em & Hf). exists m. split; [done|]. split; [done|].
        by apply Hshown.
  - set (vm1 := refresh_peers (messenger_of x) vm0) in *.
    pose proof (window_size vm1.(peer_cursor_) kVisibleMentionRows (length vm1.(peers_))) as Hsz.
    cbn [snap_options mentions_snapshot]. split.
    + etrans; [apply omap_length|]. rewrite length_seq. exact Hsz.
    + intros Hne. destruct (peers_cursor _ _ (vm_peers vm1 Hr1)) as [Hlt|[? _]]; [|done].
      pose proof (window_covers vm1.(peer_cursor_) kVisibleMentionRows (length vm1.(peers_))) as Hw.
      unfold kVisibleMentionRows in *. specialize (Hw ltac:(lia) Hlt). cbv zeta in Hw.
      destruct (lookup_lt_is_Some_2 _ _ Hlt) as [p Hp].
      apply Exists_exists. eexists. split.
      * apply list_elem_of_omap. exists vm1.(peer_cursor_). split; [apply list_elem_of_In, in_seq; lia|].
        rewrite Hp. reflexivity.
      * cbn. apply Nat.eqb_refl.
Qed.

Lemma snapshot_well_formed_witness :
  Forall (fun text => is_valid_utf8 text = true)
    (view_texts (snapshot (messenger_of sample_messenger) sample_start.1).1).
Proof.
  pose proof (snapshot_well_formed sample_start.1 sample_messenger sample_start_inv
    sample_messenger_inv) as H.
  destruct (snapshot (messenger_of sample_messenger) sample_start.1) as [v vm'].
  exact (proj1 H).
Defined.
