(* ===== verification/App.v ===== *)
(** * App: the program

    src/app/app.cpp: the durable session, the radio runtime and the view model
    under one loop.  A key goes through the view model, whose action renders the
    view, deletes the local data or stops the program; the loop tests whether the
    program still runs, and an iteration then handles keys, pumps the runtime and
    refreshes the view, to its end.  LVGL, the display and the screen
    object that draws a snapshot are interfaces.  The theory relates a run of the
    program to one run of the station of [RadioRuntime] and one use of the view
    model of [ViewModelTheory], which is how their theorems reach the program. *)
From S2P Require Import Prelude Ports Utf8 Text Uuid Identity Post Timeline Limits PostCodec FrameCodec Fragmenter Reassembler InboundQueue DedupeWindow MessengerState TransmissionScheduler Json Decimal SettingsJson SettingsStore HistoryRecord PersistentSession DurableSession RadioRuntime TextEditor I18n ViewText ViewModel ViewModelTheory ViewSnapshots.

(** ** Definitions *)

(** *** The session behind the interfaces of the view model *)

Definition view_locale (locale : StoredLocale) : Locale :=
  match locale with
  | SettingsJson.Locale_English => I18n.Locale_English
  | SettingsJson.Locale_Japanese => I18n.Locale_Japanese
  | SettingsJson.Locale_SimplifiedChinese => I18n.Locale_SimplifiedChinese
  end.

Definition stored_locale (locale : Locale) : StoredLocale :=
  match locale with
  | I18n.Locale_English => SettingsJson.Locale_English
  | I18n.Locale_Japanese => SettingsJson.Locale_Japanese
  | I18n.Locale_SimplifiedChinese => SettingsJson.Locale_SimplifiedChinese
  | I18n.Locale_Count => SettingsJson.Locale_English
  end.

#[export] Instance session_messenger {W} `{IRandomBytes W} `{IWallClock W} `{ISettingsStore W}
  `{IHistoryStore W} `{ISessionEnvironment W} : IMessenger (Session * W) := {
  messenger_of x := (fst x).(messenger);
  compose_post_draft x draft := run_messenger (fun m x => compose m x draft) x
}.

(** [UiSettingsCommitAdapter]. *)
#[export] Instance session_ui_settings {W} `{IRandomBytes W} `{IWallClock W} `{ISettingsStore W}
  `{IHistoryStore W} `{ISessionEnvironment W} : IUiSettingsCommit (Session * W) := {
  persist_locale x locale := PersistentSession.set_locale x (stored_locale locale);
  persist_skip_title x skip_title := PersistentSession.set_skip_title x skip_title
}.

Definition recovery_required (se : Session) : bool :=
  bool_decide (se.(startup_status) = Session_RecoveryRequired).

(** *** The keys of LVGL *)

Record LvKeys := mkLvKeys {
  LV_KEY_UP : Z;
  LV_KEY_DOWN : Z;
  LV_KEY_LEFT : Z;
  LV_KEY_RIGHT : Z;
  LV_KEY_ENTER : Z;
  LV_KEY_ESC : Z;
  LV_KEY_HOME : Z;
  LV_KEY_BACKSPACE : Z;
  LV_KEY_DEL : Z;
  LV_KEY_NEXT : Z
}.

Definition semantic_key (k : LvKeys) (code : Z) : KeyEvent :=
  if code =? k.(LV_KEY_UP) then mkKeyEvent Key_Up 0
  else if code =? k.(LV_KEY_DOWN) then mkKeyEvent Key_Down 0
  else if code =? k.(LV_KEY_LEFT) then mkKeyEvent Key_Left 0
  else if code =? k.(LV_KEY_RIGHT) then mkKeyEvent Key_Right 0
  else if code =? k.(LV_KEY_ENTER) then mkKeyEvent Key_Enter 0
  else if code =? k.(LV_KEY_ESC) then mkKeyEvent Key_Escape 0
  else if code =? k.(LV_KEY_HOME) then mkKeyEvent Key_Home 0
  else if code =? k.(LV_KEY_BACKSPACE) then mkKeyEvent Key_Backspace 0
  else if code =? k.(LV_KEY_DEL) then mkKeyEvent Key_Delete 0
  else if code =? k.(LV_KEY_NEXT) then mkKeyEvent Key_Tab 0
  else mkKeyEvent Key_Character code.

(** *** The probes of the scripted input *)

Definition screen_probe (screen : ScreenId) : bytes :=
  match screen with
  | Screen_Menu => str "menu"
  | Screen_Timeline => str "timeline"
  | Screen_Detail => str "detail"
  | Screen_Compose => str "compose"
  | Screen_Mentions => str "mentions"
  | Screen_Settings => str "settings"
  end.

Definition modal_probe (modal : ModalId) : bytes :=
  match modal with
  | Modal_None => str "none"
  | Modal_Status => str "status"
  | Modal_Error => str "error"
  | Modal_Discard => str "discard"
  | Modal_Exit => str "exit"
  | Modal_DeleteData => str "delete-data"
  | Modal_Recovery => str "recovery"
  end.

Definition focus_probe (v : ViewSnapshot) : bytes :=
  match v.(view_modal).(modal_snap_id) with
  | Modal_Discard | Modal_Exit | Modal_DeleteData | Modal_Recovery =>
      if v.(view_modal).(modal_snap_confirm_selected) then str "modal.confirm"
      else str "modal.cancel"
  | Modal_Status | Modal_Error => str "modal.dismiss"
  | Modal_None =>
      match v.(view_screen) with
      | Screen_Menu =>
          match v.(view_page) with
          | Page_Menu Menu_Settings => str "menu.settings"
          | _ => str "menu.talk"
          end
      | Screen_Timeline =>
          match v.(view_page) with
          | Page_Timeline p =>
              if bool_decide (p.(snap_rows) = []) then str "timeline.empty" else str "timeline.row"
          | _ => str "timeline.row"
          end
      | Screen_Detail => str "detail.body"
      | Screen_Compose => str "compose.body"
      | Screen_Mentions =>
          match v.(view_page) with
          | Page_Mentions p =>
              if bool_decide (p.(snap_options) = []) then str "mentions.empty"
              else str "mentions.option"
          | _ => str "mentions.option"
          end
      | Screen_Settings =>
          match v.(view_page) with
          | Page_Settings p =>
              if bool_decide (p.(snap_settings_selected) = Settings_SkipTitle)
              then str "settings.skip-title" else str "settings.language"
          | _ => str "settings.language"
          end
      end
  end.

Definition newest_state_probe (s : MessengerState) : bytes :=
  match newest_at s.(ms_timeline) 0 with
  | None => str "empty"
  | Some entry =>
      match entry.(entry_origin) with
      | ReceivedOrigin => str "received"
      | LocalDelivery Delivery_Queued => str "queued"
      | LocalDelivery Delivery_Broadcast => str "broadcast"
      | LocalDelivery Delivery_Failed => str "failed"
      | LocalDelivery Delivery_Unknown => str "unknown"
      end
  end.

(** *** The state of the program *)

(** [MessengerScreen]: it draws a snapshot, or fails. *)
Class IMessengerScreen (R : Type) := {
  screen_show : R -> ViewSnapshot -> bool * R;
  screen_render : R -> ViewSnapshot -> bool * R
}.

(** [app_has_radio] says that [radio_runtime] is engaged, [app_looping] that the
    last test of the loop's condition held. *)
Record Application (T P W R : Type) := mkApplication {
  app_running : bool;
  app_exit_code : Z;
  app_view : MessengerViewModel;
  app_station : System T P W;
  app_screen : R;
  app_has_radio : bool;
  app_transport_status : TransportStatus;
  app_reported_ready : bool;
  app_looping : bool
}.
Arguments mkApplication {T P W R} _ _ _ _ _ _ _ _ _.
Arguments app_running {T P W R} _.
Arguments app_exit_code {T P W R} _.
Arguments app_view {T P W R} _.
Arguments app_station {T P W R} _.
Arguments app_screen {T P W R} _.
Arguments app_has_radio {T P W R} _.
Arguments app_transport_status {T P W R} _.
Arguments app_reported_ready {T P W R} _.
Arguments app_looping {T P W R} _.

Section Application.
Context {T P W R : Type} `{IDatagramTransport T} `{IRadioPolicy P} `{IRandomBytes W}
  `{IWallClock W} `{ISettingsStore W} `{IHistoryStore W} `{ISessionEnvironment W}
  `{IMessengerScreen R}.

Abbreviation AppState := (Application T P W R).

Definition app_session (a : AppState) : Session * W := a.(app_station).(sys_session).

Definition with_view (vm : MessengerViewModel) (a : AppState) : AppState :=
  mkApplication a.(app_running) a.(app_exit_code) vm a.(app_station) a.(app_screen)
    a.(app_has_radio) a.(app_transport_status) a.(app_reported_ready)
    a.(app_looping).
Definition with_station (y : System T P W) (a : AppState) : AppState :=
  mkApplication a.(app_running) a.(app_exit_code) a.(app_view) y a.(app_screen)
    a.(app_has_radio) a.(app_transport_status) a.(app_reported_ready)
    a.(app_looping).
Definition with_session (x : Session * W) (a : AppState) : AppState :=
  with_station (mkSystem a.(app_station).(sys_runtime) a.(app_station).(sys_transport)
                  a.(app_station).(sys_policy) x) a.
Definition with_screen (r : R) (a : AppState) : AppState :=
  mkApplication a.(app_running) a.(app_exit_code) a.(app_view) a.(app_station) r
    a.(app_has_radio) a.(app_transport_status) a.(app_reported_ready)
    a.(app_looping).
Definition with_reported (ready : bool) (a : AppState) : AppState :=
  mkApplication a.(app_running) a.(app_exit_code) a.(app_view) a.(app_station) a.(app_screen)
    a.(app_has_radio) a.(app_transport_status) ready a.(app_looping).

(** [while (state.running && ...)] *)
Definition test_loop (a : AppState) : AppState :=
  mkApplication a.(app_running) a.(app_exit_code) a.(app_view) a.(app_station) a.(app_screen)
    a.(app_has_radio) a.(app_transport_status) a.(app_reported_ready) a.(app_running).

Definition request_stop (a : AppState) : AppState :=
  mkApplication false a.(app_exit_code) a.(app_view) a.(app_station) a.(app_screen)
    a.(app_has_radio) a.(app_transport_status) a.(app_reported_ready)
    a.(app_looping).
Definition request_failure (a : AppState) : AppState :=
  mkApplication false 1 a.(app_view) a.(app_station) a.(app_screen)
    a.(app_has_radio) a.(app_transport_status) a.(app_reported_ready)
    a.(app_looping).

(** [messenger_screen.render(view_model.snapshot())], or [show]. *)
Definition draw (f : R -> ViewSnapshot -> bool * R) (a : AppState) : bool * AppState :=
  let (v, vm) := snapshot (messenger_of (app_session a)) a.(app_view) in
  let (drawn, r) := f a.(app_screen) v in
  (drawn, with_screen r (with_view vm a)).

Definition render_or_fail (a : AppState) : AppState :=
  let (drawn, a) := draw screen_render a in if drawn then a else request_failure a.

(** The beginning of [run]: the fonts, the session and its recovery notice, the
    view model and the first picture.  [radio] says whether a transport was set
    up, [status] how it is announced. *)
Definition app_start (fonts_complete radio : bool) (status : TransportStatus)
    (y : System T P W) (r : R) : AppState :=
  let se := fst y.(sys_session) in
  let vm :=
    MessengerViewModel_make se.(messenger) (view_locale (session_locale se)) true
      (recovery_required se) (session_skip_title se) in
  let reported := radio && runtime_ready y.(sys_runtime) y.(sys_transport) in
  let vm := set_transport (if reported then status else Transport_Offline) vm in
  let a := mkApplication true 0 vm y r radio status reported false in
  let a := if fonts_complete then a else request_failure a in
  let a := if negb (is_ready se) && negb (recovery_required se) then request_failure a else a in
  if a.(app_running) then
    let (drawn, a) := draw screen_show a in if drawn then a else request_failure a
  else a.

(** The key handler. *)
Definition key_pressed (k : LvKeys) (code : Z) (a : AppState) : option AppState :=
  if negb a.(app_running) then Some a
  else
    '(action, vm, x) ← handle (semantic_key k code) a.(app_view) (app_session a);
    let a := with_session x (with_view vm a) in
    if action.(delete_data_approved) then
      let (deleted, x) := delete_all (app_session a) in
      let a := with_session x a in
      if deleted then Some (request_stop a)
      else Some (render_or_fail (with_view (report_storage_failure a.(app_view)) a))
    else
      let (drawn, a) :=
        if action.(render_required) then draw screen_render a else (true, a) in
      if negb drawn then Some (request_failure a)
      else if action.(exit_approved) then Some (request_stop a) else Some a.

(** The body of the loop, after [lv_timer_handler] has run the key handler; it runs
    to its end in the iteration in which a key stops the program. *)
Definition loop_body (now : Z) (script_failed : bool) (a : AppState) : option AppState :=
  a ← (if a.(app_has_radio) then
         let y := a.(app_station) in
         '(changed, rt, t, p, x) ←
           runtime_pump now y.(sys_runtime) y.(sys_transport) y.(sys_policy) y.(sys_session);
         let a := with_station (mkSystem rt t p x) a in
         let ready := runtime_ready rt t in
         if negb (bool_decide (ready = a.(app_reported_ready))) then
           let status := if ready then a.(app_transport_status) else Transport_Offline in
           Some (render_or_fail (with_view (set_transport status a.(app_view)) (with_reported ready a)))
         else if (changed : bool) then
           Some (render_or_fail (with_view (reconcile_model (messenger_of x) a.(app_view)) a))
         else Some a
       else Some a);
  Some (if script_failed then request_failure a else a).

(** The end of [run]. *)
Definition app_finish (script_pending : bool) (a : AppState) : AppState :=
  let a := if script_pending then request_failure a else a in
  let y := a.(app_station) in
  let (rt, t) :=
    if a.(app_has_radio) then runtime_stop y.(sys_runtime) y.(sys_transport)
    else (y.(sys_runtime), y.(sys_transport)) in
  with_station (mkSystem rt t y.(sys_policy) (shutdown y.(sys_session))) a.

(** What [start_app_script]'s probe answers; asking for the focus makes a snapshot. *)
Definition app_probe (a : AppState) (field : bytes) : option bytes * AppState :=
  if bool_decide (field = str "screen") then (Some (screen_probe a.(app_view).(screen_)), a)
  else if bool_decide (field = str "modal") then
    (Some (modal_probe a.(app_view).(active_modal_).(modal_id)), a)
  else if bool_decide (field = str "locale") then
    (if bool_decide (a.(app_view).(locale_) = I18n.Locale_SimplifiedChinese)
     then Some (str "zh-hans") else Some (locale_code a.(app_view).(locale_)), a)
  else if bool_decide (field = str "focus") then
    let (v, vm) := snapshot (messenger_of (app_session a)) a.(app_view) in
    (Some (focus_probe v), with_view vm a)
  else if bool_decide (field = str "status") then
    (if bool_decide (a.(app_view).(active_modal_).(modal_id) = Modal_Status)
     then Some (str "queued") else Some (str "idle"), a)
  else if bool_decide (field = str "count") then
    (Some (to_string (Z.of_nat (length (messenger_of (app_session a)).(ms_timeline).(entries)))), a)
  else if bool_decide (field = str "persistence") then
    (if is_ready (fst (app_session a)) then Some (str "ready") else Some (str "recovery"), a)
  else if bool_decide (field = str "newest-state") then
    (Some (newest_state_probe (messenger_of (app_session a))), a)
  else (None, a).
End Application.

(** *** Runs of the program *)

Inductive AppOp (T P : Type) :=
| App_test
| App_key (code : Z)
| App_loop (now : Z) (script_failed : bool)
| App_probe (field : bytes)
| App_display_deleted
| App_ports (live : T -> T) (p : P).
Arguments App_test {T P}.
Arguments App_key {T P} _.
Arguments App_loop {T P} _ _.
Arguments App_probe {T P} _.
Arguments App_display_deleted {T P}.
Arguments App_ports {T P} _ _.

Section Run.
Context {T P W R : Type} `{IDatagramTransport T} `{IRadioPolicy P} `{IRandomBytes W}
  `{IWallClock W} `{ISettingsStore W} `{IHistoryStore W} `{ISessionEnvironment W}
  `{IMessengerScreen R}.

(** An iteration is the test of [running], the keys and probes that
    [lv_timer_handler] delivers, and the body.  A test that fails ends the loop.
    Between two calls the ports live on. *)
Definition app_step (k : LvKeys) (a : Application T P W R) (op : AppOp T P)
  : option (Application T P W R) :=
  match op with
  | App_test => Some (test_loop a)
  | App_key code => if a.(app_looping) then key_pressed k code a else Some a
  | App_loop now script_failed =>
      if a.(app_looping) then loop_body now script_failed a else Some a
  | App_probe field => Some (app_probe a field).2
  | App_display_deleted => Some (request_stop a)
  | App_ports live p =>
      let y := a.(app_station) in
      Some (with_station (mkSystem y.(sys_runtime) (live y.(sys_transport)) p y.(sys_session)) a)
  end.

Definition app_run (k : LvKeys) (a : Application T P W R) (ops : list (AppOp T P))
  : option (Application T P W R) :=
  foldl (fun o op => a ← o; app_step k a op) (Some a) ops.
End Run.
