(* ===== verification/AppTheory.v ===== *)
(** * AppTheory: what the program promises

    The theory of [App]: the durable session keeps the promises the view model
    relies on; every run of the program is a run of the station and a use of the
    view model; so the station's and the view model's invariants hold of the
    program, and the local data is deleted only when the user has confirmed it, on
    the settings screen or at the notice of a session that needs recovery. *)
From S2P Require Import Prelude Ports Utf8 Text Uuid Identity Post Timeline Limits PostCodec FrameCodec Fragmenter Reassembler InboundQueue DedupeWindow MessengerState TransmissionScheduler Json Decimal SettingsJson SettingsStore HistoryRecord PersistentSession DurableSession RadioRuntime TextEditor I18n ViewText ViewModel ViewModelTheory ViewSnapshots App.

(** ** The session keeps the promises of the view model's interfaces *)

Section SessionUi.
Context {W : Type} `{ISessionFrames W} `{!IRandomBytesLaws W} `{!IWallClockLaws W}.
Implicit Types (x : Session * W).

Lemma save_candidate_messenger x s b x' :
  save_candidate x s = (b, x') -> (fst x').(messenger) = (fst x).(messenger).
Proof.
  destruct x as [se w]. unfold save_candidate.
  destruct (settings_save w s) as [[?|e] w']; [by intros [= _ <-]|].
  intros [= _ <-]. by destruct (store_final_replaced e).
Qed.

#[export] Instance session_messenger_laws : IMessengerLaws (Session * W).
Proof.
  constructor.
  - intros x d r x' Hs Hd. cbn [compose_post_draft messenger_of session_messenger]. unfold run_messenger.
    destruct (compose (fst x).(messenger) x d) as [[r1 m] [se w]] eqn:Ec. intros [= <- <-].
    destruct (compose_branches _ x d r1 m (se, w) Hs Hd Ec) as [Hi Hb].
    split; [done|]. exact (compose_branch_promise _ x d r1 m Hb).
  - intros x l b x'. cbn. unfold PersistentSession.set_locale.
    destruct (writable_settings (fst x)); [|by intros [= _ <-]].
    case_bool_decide; [by intros [= _ <-]|]. apply save_candidate_messenger.
  - intros x l b x'. cbn. unfold PersistentSession.set_skip_title.
    destruct (writable_settings (fst x)); [|by intros [= _ <-]].
    split_if; [by intros [= _ <-]|]. apply save_candidate_messenger.
Qed.

Lemma session_messenger_inv x : Session_inv x -> MessengerState_inv (messenger_of x).
Proof. by intros [? _]. Qed.
End SessionUi.

(** ** What a key does to the world *)

Section World.
Context {X : Type} `{IMessengerLaws X}.

Local Ltac same_world :=
  let E := fresh in intros E; injection E as; subst; by left.

(** At most one call of a port. *)
Definition one_call (vm : MessengerViewModel) (x x' : X) : Prop :=
  x' = x \/ x' = (compose_post_draft x (draft_post vm.(draft_))).2 \/
  (exists locale, x' = (persist_locale x locale).2) \/
  (exists skip, x' = (persist_skip_title x skip).2).

Lemma commit_setting_world persist change vm (x : X) a vm' x' :
  commit_setting persist change vm x = (a, vm', x') -> x' = x \/ x' = (persist x).2.
Proof.
  unfold commit_setting. destruct (settings_commit_ vm).
  - destruct (persist x) as [[] x1]; intros ?; simplify_eq; by right.
  - intros ?; simplify_eq. by left.
Qed.

Lemma handle_world event vm (x : X) a vm' x' :
  handle event vm x = Some (a, vm', x') -> one_call (reconcile_model (messenger_of x) vm) x x'.
Proof.
  unfold handle. set (vm0 := reconcile_model _ vm).
  split_if; [same_world|]. split_if; [same_world|].
  destruct (handle_global_shortcut event _ vm0); [same_world|].
  destruct (screen_ vm0); try (same_world).
  - destruct (handle_timeline _ _ vm0) as [[a1 v1]|]; [|done]. cbn. intros ?; simplify_eq. by left.
  - unfold handle_compose. destruct (key event); try (intros [= E]; by left);
      try (destruct (draft_dirty _); same_world).
    unfold send_draft. destruct (compose_post_draft x _) as [r x1] eqn:Ec.
    intros E. right; left. rewrite Ec. by destruct (negb (CommandResult_ok r)); injection E as; subst.
  - unfold handle_settings, commit_locale.
    repeat (split_if; [try (same_world)|]); try (same_world).
    + intros [= [E|E]%commit_setting_world]; [by left|right; right; right; by eexists].
    + intros [= [E|E]%commit_setting_world]; [by left|right; right; left; by eexists].
    + intros [= [E|E]%commit_setting_world]; [by left|right; right; left; by eexists].
Qed.
End World.

(** Operations of the session other than the deletion of the local data. *)
Definition keeps_data (op : SessionOp) : Prop :=
  match op with Op_delete_all_local_data => False | _ => True end.

(** A key is at most one operation of the session. *)
Lemma handle_session {W} `{ISessionFrames W} `{!IRandomBytesLaws W} `{!IWallClockLaws W}
    event vm (x : Session * W) a vm' x' :
  vm_inv vm -> Session_inv x -> handle event vm x = Some (a, vm', x') ->
  exists ops, Forall op_typed ops /\ x' = run_ops x ops /\ Forall keeps_data ops.
Proof.
  intros Hvm Hx Hh.
  assert (forall op, op_typed op -> keeps_data op -> x' = run_op x op ->
    exists ops, Forall op_typed ops /\ x' = run_ops x ops /\ Forall keeps_data ops) as Hone.
  { intros op Ht Hne ->. exists [op]. split; [by constructor|]. split; [done|]. by constructor. }
  pose proof (reconcile_inv _ vm (session_messenger_inv x Hx) Hvm) as Hr.
  destruct (handle_world event vm x a vm' x' Hh) as [->|[E|[[l E]|[b E]]]].
  - by exists [].
  - apply (Hone (Op_compose (draft_post (reconcile_model (messenger_of x) vm).(draft_)))); try done.
    apply draft_people_wf, (vm_draft _ Hr).
  - by apply (Hone (Op_persist_locale (stored_locale l))).
  - by apply (Hone (Op_persist_skip_title b)).
Qed.

(** ** Runs in pieces *)

Lemma foldl_none {A B} (f : A -> B -> option A) ops :
  foldl (fun o op => a ← o; f a op) None ops = None.
Proof. by induction ops. Qed.

Lemma ui_run_app {X} `{IMessenger X} `{IUiSettingsCommit X} y (ops ops' : list (UiOp X)) :
  ui_run y (ops ++ ops') = (y ← ui_run y ops; ui_run y ops').
Proof.
  unfold ui_run. rewrite foldl_app. destruct (foldl _ (Some y) ops) as [y'|]; [done|].
  apply foldl_none.
Qed.

Lemma system_run_app {T P W} `{IDatagramTransport T} `{IRadioPolicy P} `{IRandomBytes W}
    `{IWallClock W} `{ISettingsStore W} `{IHistoryStore W} `{ISessionEnvironment W}
    (ops ops' : list (SystemOp T P)) : forall y : System T P W,
  system_run y (ops ++ ops') = (y ← system_run y ops; system_run y ops').
Proof.
  induction ops as [|op ops IH]; intros y; cbn [app system_run]; [done|].
  destruct (system_step y op) as [y1|]; [|done]. apply IH.
Qed.

Lemma system_run_session {T P W} `{IDatagramTransport T} `{IRadioPolicy P} `{IRandomBytes W}
    `{IWallClock W} `{ISettingsStore W} `{IHistoryStore W} `{ISessionEnvironment W}
    (ops : list SessionOp) : forall y : System T P W,
  system_run y (map Sys_session ops) =
  Some (mkSystem y.(sys_runtime) y.(sys_transport) y.(sys_policy) (run_ops y.(sys_session) ops)).
Proof. induction ops as [|op ops IH]; intros []; cbn; [done|]. by rewrite IH. Qed.

(** ** The program as a run of the station and a use of the view model *)

Section Simulation.
Context {T P W R : Type} `{IDatagramTransport T} `{IRadioPolicy P} `{ISessionFrames W}
  `{!IRandomBytesLaws W} `{!IWallClockLaws W} `{IMessengerScreen R}.
Implicit Types (a : Application T P W R) (k : LvKeys).

Definition app_ui a : MessengerViewModel * (Session * W) := (a.(app_view), app_session a).

Definition station_inv (y : System T P W) : Prop :=
  system_inv (fun s (_ : T) => Scheduler_inv s) y.

Definition app_inv a : Prop := station_inv a.(app_station) /\ vm_inv a.(app_view).

(** Operations of the station that do not delete the local data. *)
Definition keeps_local_data (op : SystemOp T P) : Prop :=
  match op with Sys_session op => keeps_data op | _ => True end.

Definition ui_keys (uops : list (UiOp (Session * W))) : list KeyEvent :=
  omap (fun op => match op with Ui_key event => Some event | _ => None end) uops.

Definition app_keys k (ops : list (AppOp T P)) : list KeyEvent :=
  omap (fun op => match op with App_key code => Some (semantic_key k code) | _ => None end) ops.

(** From [a] to [a']: what the station and the view model did meanwhile. *)
Record moves a a' (sops : list (SystemOp T P)) (uops : list (UiOp (Session * W))) : Prop := {
  moves_station : system_run a.(app_station) sops = Some a'.(app_station);
  moves_view : ui_run (app_ui a) uops = Some (app_ui a');
  moves_station_typed : Forall station_op_typed sops;
  moves_view_typed : Forall ui_op_typed uops
}.

Lemma station_run_inv y ops :
  station_inv y -> Forall station_op_typed ops ->
  exists y', system_run y ops = Some y' /\ station_inv y'.
Proof.
  intros Hy Hops.
  refine (system_run_inv (fun s (_ : T) => Scheduler_inv s) (fun s t Hs => Hs)
    (fun s t x post mtu now err s' x' => scheduler_enqueue_inv s x post mtu now err s' x')
    (fun s t p now e s' t' p' => scheduler_pump_inv s t p now e s' t' p')
    (fun s t n r t' Hs _ => Hs) (fun s t => cancel_all_inv s) ops y Hy _).
  eapply Forall_impl; [exact Hops|]. intros []; cbn; auto.
Qed.

Lemma app_messenger_inv a : app_inv a -> MessengerState_inv (messenger_of (app_session a)).
Proof. intros [[_ Hx] _]. by apply session_messenger_inv. Qed.

Lemma moves_inv a a' sops uops : app_inv a -> moves a a' sops uops -> app_inv a'.
Proof.
  intros Ha [Hs Hu Hst Hut]. pose proof (app_messenger_inv a Ha) as Hm. destruct Ha as [Hy Hv].
  destruct (station_run_inv _ _ Hy Hst) as (y' & Hr & Hy').
  destruct (ui_run_inv (app_ui a) uops Hv Hm Hut) as (vm & x & Hr' & Hvm & _).
  split; [by simplify_eq|]. rewrite Hu in Hr'. by injection Hr' as <-.
Qed.

Lemma moves_nil a a' : a.(app_station) = a'.(app_station) -> a.(app_view) = a'.(app_view) ->
  moves a a' [] [].
Proof. intros Es Ev. constructor; try done; cbn; unfold app_ui, app_session; by rewrite Es, ?Ev. Qed.

Lemma moves_app a a1 a' sops sops' uops uops' :
  moves a a1 sops uops -> moves a1 a' sops' uops' -> moves a a' (sops ++ sops') (uops ++ uops').
Proof.
  intros [? Hu ? ?] [? Hu' ? ?]. constructor; try (by apply Forall_app).
  - rewrite system_run_app. by simplify_option_eq.
  - rewrite ui_run_app, Hu. exact Hu'.
Qed.

(** The rest of the state does not matter. *)
Lemma moves_stay a a1 a' sops uops :
  moves a a1 sops uops -> a1.(app_station) = a'.(app_station) -> a1.(app_view) = a'.(app_view) ->
  moves a a' sops uops.
Proof.
  intros Hm Es Ev. rewrite <- (app_nil_r sops), <- (app_nil_r uops).
  eapply moves_app; [exact Hm|by apply moves_nil].
Qed.

(** An operation on the view alone. *)
Lemma moves_ui a a' op act vm :
  a'.(app_station) = a.(app_station) -> a'.(app_view) = vm -> ui_op_typed op ->
  ui_step (app_ui a) op = Some (act, (vm, app_session a)) ->
  moves a a' [] [op].
Proof.
  intros Es Ev Ht Hop. constructor; [by rewrite Es|..|done|by constructor].
  unfold ui_run. cbn [foldl mbind option_bind]. rewrite Hop. cbn. unfold app_ui, app_session.
  by rewrite Es, Ev.
Qed.

Lemma moves_draw f a : moves a (draw f a).2 [] [Ui_snapshot].
Proof.
  unfold draw. destruct (snapshot _ _) as [v vm] eqn:E. destruct (f _ v) as [b r].
  apply (moves_ui _ _ _ no_action vm); try done. unfold ui_step, app_ui. by rewrite E.
Qed.

Lemma draw_rest f a : (draw f a).2.(app_running) = a.(app_running).
Proof. unfold draw. by repeat case_match. Qed.

Lemma moves_render a : moves a (render_or_fail a) [] [Ui_snapshot].
Proof.
  unfold render_or_fail. pose proof (moves_draw screen_render a) as Hd.
  destruct (draw screen_render a) as [[] a1]; [exact Hd|].
  by eapply moves_stay.
Qed.

(** An operation on the view, and a picture of it. *)
Lemma moves_show a a1 a2 op act vm sops uops :
  moves a a1 sops uops -> ui_op_typed op ->
  ui_step (app_ui a1) op = Some (act, (vm, app_session a1)) ->
  a2.(app_station) = a1.(app_station) -> a2.(app_view) = vm ->
  moves a (render_or_fail a2) sops (uops ++ [op; Ui_snapshot]).
Proof.
  intros Hm Ht Hop Es Ev. rewrite <- (app_nil_r sops). eapply moves_app; [exact Hm|].
  apply (moves_app a1 a2 _ [] [] [op] [Ui_snapshot]); [by eapply moves_ui|apply moves_render].
Qed.

Lemma moves_failing a a' sops uops (b : bool) :
  moves a a' sops uops -> moves a (if b then request_failure a' else a') sops uops.
Proof. intros Hm. destruct b; [by eapply moves_stay|done]. Qed.

(** The session goes through [ops], and the view sees what became of it. *)
Lemma moves_session a ops :
  app_inv a -> Forall op_typed ops ->
  moves a (with_session (run_ops (app_session a) ops) a) (map Sys_session ops)
    [Ui_world (run_ops (app_session a) ops)].
Proof.
  intros [[_ Hx] _] Hops. pose proof (run_ops_inv ops _ Hx Hops) as Hx'.
  constructor; [by rewrite system_run_session|done|by apply Forall_map|].
  constructor; [|done]. by apply session_messenger_inv.
Qed.

(** A key the view model handles. *)
Lemma moves_key event a act vm x :
  app_inv a -> handle event a.(app_view) (app_session a) = Some (act, vm, x) ->
  exists sops, Forall keeps_local_data sops /\
    moves a (with_session x (with_view vm a)) sops [Ui_key event].
Proof.
  intros Ha Hh. destruct (handle_session event _ _ _ _ _ (proj2 Ha) (proj2 (proj1 Ha)) Hh)
    as (ops & Hty & -> & Hkeep).
  exists (map Sys_session ops). split; [by apply Forall_map|].
  constructor; [by rewrite system_run_session| |by apply Forall_map|by constructor].
  unfold ui_run, app_ui. cbn [foldl mbind option_bind ui_step]. by rewrite Hh.
Qed.

(** The keys of a step: those the user pressed. *)
Definition op_keys k (op : AppOp T P) : list KeyEvent := app_keys k [op].

Definition approves k a (op : AppOp T P) : Prop :=
  exists code act vm x, op = App_key code /\
    handle (semantic_key k code) a.(app_view) (app_session a) = Some (act, vm, x) /\
    act.(delete_data_approved) = true.

Lemma key_pressed_moves k code a :
  app_inv a ->
  exists a' sops uops, key_pressed k code a = Some a' /\ moves a a' sops uops /\
    sublist (ui_keys uops) [semantic_key k code] /\
    (Forall keeps_local_data sops \/ approves k a (App_key code)).
Proof.
  intros Ha. unfold key_pressed.
  destruct (app_running a); cbn [negb].
  2: { exists a, [], []. split_and!; [done|by apply moves_nil|apply sublist_nil_l|by left]. }
  destruct (handle_spec (semantic_key k code) a.(app_view) (app_session a) (proj2 Ha)
    (app_messenger_inv a Ha)) as (act & vm & x & Hh & _).
  destruct (moves_key _ _ _ _ _ Ha Hh) as (sops & Hkeep & Hk).
  rewrite Hh. cbn [mbind option_bind].
  set (a1 := with_session x (with_view vm a)) in *.
  destruct (delete_data_approved act) eqn:Ed.
  - destruct (delete_all (app_session a1)) as [deleted x1] eqn:Edel.
    pose proof (moves_session a1 [Op_delete_all_local_data] (moves_inv _ _ _ _ Ha Hk)
      ltac:(by constructor)) as Hs.
    unfold run_ops in Hs. cbn [fold_left run_op map] in Hs. rewrite Edel in Hs. cbn [snd] in Hs.
    pose proof (moves_app _ _ _ _ _ _ _ Hk Hs) as Hks.
    assert (approves k a (App_key code)) as Happ by by exists code, act, vm, x.
    destruct deleted.
    + do 3 eexists. split; [done|]. split.
      { by eapply moves_stay. }
      split; [done|by right].
    + do 3 eexists. split; [done|]. split.
      { by eapply (moves_show _ _ _ Ui_storage_failure). }
      split; [done|by right].
  - destruct (if render_required act then _ else _) as [drawn a2] eqn:E2.
    assert (exists uops, moves a1 a2 [] uops /\ ui_keys uops = []) as (uops & Hd & Hnk).
    { destruct (render_required act).
      - exists [Ui_snapshot]. split; [|done]. pose proof (moves_draw screen_render a1) as Hd.
        by rewrite E2 in Hd.
      - injection E2 as; subst. exists []. split; [by apply moves_nil|done]. }
    pose proof (moves_app _ _ _ _ _ _ _ Hk Hd) as Hkd. rewrite app_nil_r in Hkd.
    exists (if negb drawn then request_failure a2 else if exit_approved act then request_stop a2 else a2),
      sops, ([Ui_key (semantic_key k code)] ++ uops).
    split; [by repeat case_match|]. split.
    { eapply moves_stay; [exact Hkd|by repeat case_match..]. }
    split; [|by left]. unfold ui_keys in *. cbn. by rewrite Hnk.
Qed.

Lemma loop_body_moves now script_failed a :
  app_inv a ->
  exists a' sops uops, loop_body now script_failed a = Some a' /\ moves a a' sops uops /\
    ui_keys uops = [] /\ Forall keeps_local_data sops.
Proof.
  intros Ha. unfold loop_body. destruct (app_has_radio a).
  2: { do 3 eexists. split; [done|]. split; [by apply moves_failing, moves_nil|done]. }
  destruct (station_run_inv _ [Sys_pump now] (proj1 Ha) ltac:(by constructor)) as (y & Hrun & Hy).
  cbn [system_run system_step] in Hrun.
  destruct (runtime_pump now _ _ _ _) as [[[[[changed rt] t] p] x]|] eqn:Ep; [|done].
  cbn [mbind option_bind] in *. injection Hrun as <-.
  set (a1 := with_station (mkSystem rt t p x) a).
  assert (moves a a1 [Sys_pump now] [Ui_world x]) as H1a.
  { constructor; [|done|by constructor|].
    - cbn [system_run system_step]. by rewrite Ep.
    - constructor; [|done]. apply session_messenger_inv, Hy. }
  case_bool_decide; cbn [negb]; [destruct changed|]; cbn [mbind option_bind];
    do 3 eexists; (split; [done|]); split.
  - apply moves_failing. by eapply (moves_show _ _ _ Ui_refresh).
  - split; [done|by constructor].
  - by apply moves_failing.
  - split; [done|by constructor].
  - apply moves_failing. by eapply (moves_show _ _ _ (Ui_transport _)).
  - split; [done|by constructor].
Qed.

Lemma app_probe_moves field a :
  exists uops, moves a (app_probe a field).2 [] uops /\ ui_keys uops = [].
Proof.
  unfold app_probe. repeat (case_bool_decide; [try (exists []; by split; [apply moves_nil|])|]).
  - exists [Ui_snapshot]. split; [|done]. destruct (snapshot _ _) as [v vm] eqn:E.
    apply (moves_ui _ _ _ no_action vm); try done. unfold ui_step, app_ui. by rewrite E.
  - exists []. by split; [apply moves_nil|].
Qed.

(** One step of the program. *)
Lemma app_step_moves k a op :
  app_inv a ->
  exists a' sops uops, app_step k a op = Some a' /\ moves a a' sops uops /\
    sublist (ui_keys uops) (app_keys k [op]) /\
    (Forall keeps_local_data sops \/ approves k a op).
Proof.
  intros Ha. destruct op as [|code|now script_failed|field| |live p]; cbn [app_step].
  - exists (test_loop a), [], []. split_and!; [done|by apply moves_nil|done|by left].
  - destruct (app_looping a); [by apply key_pressed_moves|].
    exists a, [], []. split_and!; [done|by apply moves_nil|apply sublist_nil_l|by left].
  - destruct (app_looping a).
    + destruct (loop_body_moves now script_failed a Ha) as (a' & sops & uops & ? & ? & E & ?).
      exists a', sops, uops. rewrite E. split_and!; [done..|by left].
    + exists a, [], []. split_and!; [done|by apply moves_nil|done|by left].
  - destruct (app_probe_moves field a) as (uops & Hm & E).
    exists (app_probe a field).2, [], uops. rewrite E. split_and!; [done..|by left].
  - exists (request_stop a), [], []. split_and!; [done|by apply moves_nil|done|by left].
  - eexists _, [Sys_ports live p], []. split; [reflexivity|]. split.
    + by constructor; [..|repeat constructor|].
    + split; [done|left; by constructor].
Qed.

Lemma app_run_snoc k a ops op :
  app_run k a (ops ++ [op]) = (a ← app_run k a ops; app_step k a op).
Proof. unfold app_run. by rewrite foldl_app. Qed.

Lemma ui_keys_app uops uops' : ui_keys (uops ++ uops') = ui_keys uops ++ ui_keys uops'.
Proof. apply omap_app. Qed.

(** A run of the program: it is defined, and it is a run of the station and a
    use of the view model with the keys of the user. *)
Lemma app_run_moves k a ops :
  app_inv a ->
  exists a' sops uops, app_run k a ops = Some a' /\ app_inv a' /\ moves a a' sops uops /\
    sublist (ui_keys uops) (app_keys k ops).
Proof.
  intros Ha. induction ops as [|op ops IH] using rev_ind.
  { exists a, [], []. split_and!; [done..|by apply moves_nil|done]. }
  destruct IH as (a1 & sops & uops & Hrun & Ha1 & Hm & Hk).
  destruct (app_step_moves k a1 op Ha1) as (a2 & sops' & uops' & Hstep & Hm' & Hk' & _).
  exists a2, (sops ++ sops'), (uops ++ uops'). rewrite app_run_snoc, Hrun. cbn [mbind option_bind].
  split; [done|]. split; [by eapply moves_inv|]. split; [by eapply moves_app|].
  unfold app_keys. rewrite ui_keys_app, omap_app. by apply sublist_app.
Qed.

(** The start of the program. *)
Lemma app_start_moves fonts radio status y r :
  let se := fst y.(sys_session) in
  let a := app_start fonts radio status y r in
  a.(app_station) = y /\
  exists uops, ui_keys uops = [] /\ Forall ui_op_typed uops /\
    ui_run (ui_start y.(sys_session) (view_locale (session_locale se)) true (recovery_required se)
              (session_skip_title se)) uops = Some (app_ui a).
Proof.
  intros se a. unfold a, app_start. fold se.
  set (reported := radio && _). set (st := if reported then status else Transport_Offline).
  set (vm := MessengerViewModel_make _ _ _ _ _).
  set (a0 := mkApplication true 0 (set_transport st vm) y r radio status reported false).
  set (a1 := if negb _ && negb _ then _ else _).
  assert (a1.(app_station) = y /\ a1.(app_view) = set_transport st vm) as [Es Ev].
  { unfold a1. by repeat case_match. }
  assert (ui_run (vm, sys_session y) [Ui_transport st] = Some (app_ui a1)) as Ht.
  { unfold app_ui, app_session. by rewrite Es, Ev. }
  destruct (app_running a1).
  - pose proof (moves_draw screen_show a1) as [Hy Hu _ _].
    destruct (draw screen_show a1) as [drawn a2]. cbn [snd] in *. injection Hy as Hy.
    split; [rewrite <- Es, Hy; by case_match|].
    exists ([Ui_transport st] ++ [Ui_snapshot]). split; [done|]. split; [by repeat constructor|].
    rewrite ui_run_app. change (ui_start _ _ _ _ _) with (vm, sys_session y). rewrite Ht. cbn [mbind option_bind]. rewrite Hu.
    by case_match.
  - split; [done|]. exists [Ui_transport st]. split; [done|]. split; [by repeat constructor|done].
Qed.

(** A program just started. *)
Lemma app_start_inv (t : T) (p : P) (w : W) y fonts radio status (r : R) :
  system_start t p w = Some y -> app_inv (app_start fonts radio status y r).
Proof.
  intros Hy. assert (station_inv y) as Hinv.
  { eapply system_start_inv; [|exact Hy]. intros. apply TransmissionScheduler_make_inv. }
  destruct (app_start_moves fonts radio status y r) as (Es & uops & _ & Ht & Hu).
  split; [by rewrite Es|].
  destruct (ui_run_inv (ui_start y.(sys_session) (view_locale (session_locale (fst y.(sys_session)))) true
      (recovery_required (fst y.(sys_session))) (session_skip_title (fst y.(sys_session)))) uops (make_inv _ _ _ _ _) (session_messenger_inv _ (proj2 Hinv)) Ht)
    as (vm & x & Hu' & Hvm & _).
  rewrite Hu in Hu'. by injection Hu' as <- _.
Qed.
End Simulation.

(** ** A program of the small machine *)

#[export] Instance plain_screen : IMessengerScreen unit := {
  screen_show _ _ := (true, tt);
  screen_render _ _ := (true, tt)
}.

Definition sample_keys : LvKeys := mkLvKeys 17 18 20 19 10 27 2 8 127 9.

Definition sample_program (y : System (Logged (list bytes)) unit Machine)
  : Application (Logged (list bytes)) unit Machine unit :=
  app_start true true Transport_LoRa y tt.

(** The settings screen, d, Right: only Enter is missing. *)
Definition sample_deletion : list (AppOp (Logged (list bytes)) unit) :=
  [App_test; App_key 18; App_key 10; App_key 0x64; App_loop 0 false; App_test;
   App_probe (str "focus"); App_key 19].

(** Whether the key after it deletes, in a program without a recovery notice. *)
Definition deletes_next (start : option (System (Logged (list bytes)) unit Machine)) : bool :=
  match start with
  | Some y =>
      match app_run sample_keys (sample_program y) sample_deletion with
      | Some a =>
          match app_step sample_keys a (App_key 10) with
          | Some a' => negb (recovery_required (fst y.(sys_session))) && negb a'.(app_running)
          | None => false
          end
      | None => false
      end
  | None => false
  end.

Lemma deletes_next_inv start :
  deletes_next start = true ->
  exists y a a', start = Some y /\ recovery_required (fst y.(sys_session)) = false /\
    app_run sample_keys (sample_program y) sample_deletion = Some a /\
    app_step sample_keys a (App_key 10) = Some a'.
Proof.
  unfold deletes_next. destruct start as [y|]; [|done].
  destruct (app_run _ _ _) as [a|] eqn:Ea; [|done].
  destruct (app_step _ a _) as [a'|] eqn:Ea'; [|done]. intros [Hr _]%andb_true_iff.
  exists y, a, a'. split_and!; try done. by apply negb_true_iff.
Qed.

Lemma sample_deletes : deletes_next (system_start empty_log tt fresh_machine) = true.
Proof. by vm_compute. Qed.

(** ** Property theorems *)

(** C1: the program is its parts, and they keep their promises.  Start it on any
    world, transport, policy and screen, and let keys, iterations of the loop,
    probes and the ports come in any order: no step is undefined; the station has made
    a run of its own operations and the view model has been used only through
    its interface, with no key but those pressed, in their order; the
    invariants of the scheduler, the ingress queue and the view model hold, and
    as long as the session is open its memory is what the stores hold. *)
Theorem application_safe {T P W R} `{IDatagramTransport T} `{IRadioPolicy P} `{ISessionFrames W}
    `{!IRandomBytesLaws W} `{!IWallClockLaws W} `{IMessengerScreen R} (k : LvKeys)
    (t : T) (p : P) (w : W) (r : R) y0 fonts radio status ops :
  system_start t p w = Some y0 ->
  exists a sops uops, app_run k (app_start fonts radio status y0 r) ops = Some a /\
    system_run y0 sops = Some a.(app_station) /\
    ui_run (ui_start y0.(sys_session) (view_locale (session_locale (fst y0.(sys_session)))) true
              (recovery_required (fst y0.(sys_session)))
              (session_skip_title (fst y0.(sys_session)))) uops =
      Some (a.(app_view), app_session a) /\
    sublist (ui_keys uops) (app_keys k ops) /\
    Scheduler_inv a.(app_station).(sys_runtime).(scheduler_) /\
    InboundQueue.queue_inv a.(app_station).(sys_runtime).(inbound_) /\
    vm_inv a.(app_view) /\
    let (se, w') := app_session a in
    is_open se = true ->
    exists s, se.(settings) = Some s /\ settings_now w' = Some s /\
      se.(messenger).(ms_identity) = Some (identity_from s) /\
      history_now w' = Some (snapshot_of se.(messenger).(ms_timeline) se.(dedupe)).
Proof.
  intros Hy0. destruct (app_start_moves fonts radio status y0 r) as (Es & u0 & Hk0 & _ & Hu0).
  destruct (app_run_moves k (app_start fonts radio status y0 r) ops) as
    (a & sops & uops & Hrun & [[[Hs Hq] Hx] Hvm] & [Hsys Hui _ _] & Hk); [by eapply app_start_inv|].
  exists a, sops, (u0 ++ uops). rewrite Es in Hsys.
  split; [done|]. split; [done|]. split; [by rewrite ui_run_app, Hu0|].
  split; [by rewrite ui_keys_app, Hk0|]. split_and!; [done..|].
  unfold app_session. destruct (sys_session (app_station a)) as [se w']. by apply open_session_stored.
Qed.

Lemma application_safe_witness :
  exists y0 a, system_start empty_log tt fresh_machine = Some y0 /\
    app_run sample_keys (sample_program y0) sample_deletion = Some a /\
    Scheduler_inv a.(app_station).(sys_runtime).(scheduler_) /\ vm_inv a.(app_view).
Proof.
  destruct (deletes_next_inv _ sample_deletes) as (y0 & _ & _ & E & _).
  destruct (application_safe sample_keys empty_log tt fresh_machine tt y0 true true Transport_LoRa
    sample_deletion E) as (a & _ & _ & Hrun & _ & _ & _ & Hs & _ & Hvm & _).
  exists y0, a. exact (conj E (conj Hrun (conj Hs Hvm))).
Defined.

(** C2: the local data is deleted only when the user has confirmed it.  Start the
    program on any session and run it in any way.  A step of it does to the
    station what operations other than the deletion do, or it is the key Enter
    and the keys pressed before either opened the question whether to delete, by
    d or D on the settings screen, left it open, and chose the confirming button
    last; or, the session needing recovery, the notice the program began with was
    never left and the confirming button was chosen last. *)
Theorem deletion_needs_confirmation {T P W R} `{IDatagramTransport T} `{IRadioPolicy P}
    `{ISessionFrames W} `{!IRandomBytesLaws W} `{!IWallClockLaws W} `{IMessengerScreen R}
    (k : LvKeys) (t : T) (p : P) (w : W) (r : R) y0 fonts radio status ops a op a' :
  system_start t p w = Some y0 ->
  app_run k (app_start fonts radio status y0 r) ops = Some a -> app_step k a op = Some a' ->
  (exists sops, Forall keeps_local_data sops /\
     system_run a.(app_station) sops = Some a'.(app_station)) \/
  (exists code uops, op = App_key code /\ (semantic_key k code).(key) = Key_Enter /\
     sublist (ui_keys uops) (app_keys k ops) /\
     let start := ui_start y0.(sys_session) (view_locale (session_locale (fst y0.(sys_session))))
                    true (recovery_required (fst y0.(sys_session)))
                    (session_skip_title (fst y0.(sys_session))) in
     ui_run start uops = Some (a.(app_view), app_session a) /\
     (opened start uops Modal_DeleteData true \/
      recovery_required (fst y0.(sys_session)) = true /\ noticed start uops true)).
Proof.
  intros Hy0 Hrun Hstep. pose proof (app_start_inv t p w y0 fonts radio status r Hy0) as Ha0.
  destruct (app_start_moves fonts radio status y0 r) as (Es & u0 & Hk0 & Ht0 & Hu0).
  destruct (app_run_moves k _ ops Ha0) as (a1 & sops & uops & Hr1 & Ha & [_ Hu _ Ht] & Hk).
  rewrite Hrun in Hr1. injection Hr1 as <-.
  destruct (app_step_moves k a op Ha) as (a2 & sops' & _ & Hs2 & [Hsys _ _ _] & _ & Hcase).
  rewrite Hstep in Hs2. injection Hs2 as <-.
  destruct Hcase as [Hkeep|(code & act & vm & x & -> & Hh & Hdel)]; [left; by exists sops'|right].
  pose proof Ha0 as [[_ Hx0] _]. rewrite Es in Hx0.
  set (start := ui_start _ _ _ _ _) in *.
  assert (ui_run start (u0 ++ uops) = Some (app_ui a)) as Hall by by rewrite ui_run_app, Hu0.
  destruct (approval_explained start (u0 ++ uops) a.(app_view) (app_session a) (semantic_key k code)
    act (vm, x)) as [_ Hopen]; try done.
  - apply make_inv.
  - by apply session_messenger_inv.
  - apply start_just_made.
  - by apply Forall_app.
  - cbn [ui_step]. by rewrite Hh.
  - destruct (Hopen Hdel) as [Henter Ho]. exists code, (u0 ++ uops). split; [done|]. split; [done|].
    split; [by rewrite ui_keys_app, Hk0|]. cbv zeta. split; [exact Hall|].
    destruct Ho as [Ho|Ho]; [by left|right]. split; [exact (start_noticed _ _ _ _ _ _ _ Ho)|done].
Qed.

Lemma deletion_needs_confirmation_witness :
  exists y0 a a', system_start empty_log tt fresh_machine = Some y0 /\
    app_run sample_keys (sample_program y0) sample_deletion = Some a /\
    app_step sample_keys a (App_key 10) = Some a' /\
    ((exists sops, Forall keeps_local_data sops /\
        system_run a.(app_station) sops = Some a'.(app_station)) \/
     (exists code uops, App_key (T := Logged (list bytes)) (P := unit) 10 = App_key code /\
        (semantic_key sample_keys code).(key) = Key_Enter /\
        sublist (ui_keys uops) (app_keys sample_keys sample_deletion) /\
        let start := ui_start y0.(sys_session)
                       (view_locale (session_locale (fst y0.(sys_session))))
                       true (recovery_required (fst y0.(sys_session)))
                       (session_skip_title (fst y0.(sys_session))) in
        ui_run start uops = Some (a.(app_view), app_session a) /\
        (opened start uops Modal_DeleteData true \/
         recovery_required (fst y0.(sys_session)) = true /\ noticed start uops true))).
Proof.
  destruct (deletes_next_inv _ sample_deletes) as (y0 & a & a' & E & Hr & Hrun & Hstep).
  pose proof (deletion_needs_confirmation sample_keys empty_log tt fresh_machine tt y0 true true
    Transport_LoRa sample_deletion a (App_key 10) a' E Hrun Hstep) as Hthm.
  exists y0, a, a'. exact (conj E (conj Hrun (conj Hstep Hthm))).
Defined.
