(* ===== verification/UdpSocket.v ===== *)
(** * UdpSocket: the UDP socket of the LAN transport

    src/adapters/network/posix_udp_broadcast_socket.cpp and its header: the
    [IUdpBroadcastSocket] over the socket calls and the list of the network
    interfaces.  Every system call is a [NetCall] the world answers.  With a log of
    the calls ([INetworkLaws]): what the transport hands out came from the subnet of
    the selected interface, and what it accepted was broadcast there. *)
From S2P Require Import Prelude Ports Transports.

(** ** Definitions *)

(** *** System calls *)

(** Addresses are the four bytes as a number, ports are numbers: the conversions
    of byte order are made on both sides of every comparison. *)
Record SockAddr := mkSockAddr { sin_family : Z; sin_addr : Z }.

Record Interface := mkInterface {
  ifa_name : option bytes;
  ifa_addr : option SockAddr;
  ifa_netmask : option SockAddr;
  ifa_flags : Z;
  ifa_broadaddr : option SockAddr
}.

(** A datagram with its source; [source_size] is the length of the address given. *)
Record Arrival := mkArrival {
  arrival_data : bytes;
  source_size : Z;
  source_addr : SockAddr;
  source_port : Z
}.

Inductive NetCall : Type -> Type :=
| Net_socket : NetCall Z
| Net_getfl (descriptor : Z) : NetCall Z
| Net_setfl (descriptor flags : Z) : NetCall Z
| Net_setsockopt (descriptor name : Z) : NetCall Z
| Net_bind (descriptor address port : Z) : NetCall Z
| Net_close (descriptor : Z) : NetCall Z
| Net_interfaces : NetCall (option (list Interface))
| Net_sendto (descriptor : Z) (data : bytes) (address port : Z) : NetCall (Result Z Z)
| Net_recvfrom (descriptor : Z) (capacity : nat) : NetCall (Result Arrival Z)
| Net_steady_now : NetCall Z.

Class INetwork (W : Type) := { net_call : forall {A}, NetCall A -> W -> A * W }.

Definition AF_INET : Z := 2.
Definition INADDR_ANY : Z := 0.
Definition IFF_UP : Z := 1.
Definition IFF_BROADCAST : Z := 2.
Definition IFNAMSIZ : nat := 16.
Definition O_NONBLOCK : Z := 2048.
Definition SO_REUSEADDR : Z := 2.
Definition SO_BROADCAST : Z := 6.
Definition sizeof_sockaddr_in : Z := 16.
Definition EINTR : Z := 4.
Definition EAGAIN : Z := 11.
Definition EADDRNOTAVAIL : Z := 99.
Definition ENETDOWN : Z := 100.
Definition ENETUNREACH : Z := 101.
Definition EHOSTDOWN : Z := 112.
Definition EHOSTUNREACH : Z := 113.
Definition kMillisecond : Z := 1000000.

(** *** Interfaces *)

Definition kMaximumFilteredReceivesPerCall : nat := 4.

Record InterfaceIpv4 := mkInterfaceIpv4 {
  ipv4_address : Z;
  ipv4_netmask : Z;
  ipv4_broadcast : Z
}.

(** One step of the loop of [find_interface_ipv4]: [None] goes on. *)
Definition interface_ipv4 (name : bytes) (current : Interface) : option InterfaceIpv4 :=
  match current.(ifa_name), current.(ifa_addr), current.(ifa_netmask) with
  | Some current_name, Some address, Some netmask =>
      if negb (address.(sin_family) =? AF_INET) ||
         negb (bool_decide (name = current_name)) ||
         (Z.land current.(ifa_flags) IFF_UP =? 0) ||
         (Z.land current.(ifa_flags) IFF_BROADCAST =? 0)
      then None
      else
        match current.(ifa_broadaddr) with
        | None => None
        | Some broadcast =>
            if (address.(sin_addr) =? INADDR_ANY) || (netmask.(sin_addr) =? INADDR_ANY) ||
               (broadcast.(sin_addr) =? INADDR_ANY)
            then None
            else Some (mkInterfaceIpv4 address.(sin_addr) netmask.(sin_addr) broadcast.(sin_addr))
        end
  | _, _, _ => None
  end.

Fixpoint first_interface (name : bytes) (interfaces : list Interface) : option InterfaceIpv4 :=
  match interfaces with
  | [] => None
  | current :: interfaces =>
      match interface_ipv4 name current with
      | Some result => Some result
      | None => first_interface name interfaces
      end
  end.

Definition same_subnet (left right netmask : Z) : bool :=
  Z.land left netmask =? Z.land right netmask.

Definition is_temporary_socket_error (error : Z) : bool := (error =? EAGAIN) || (error =? EINTR).

Definition is_disconnected_socket_error (error : Z) : bool :=
  (error =? ENETDOWN) || (error =? ENETUNREACH) || (error =? EHOSTDOWN) ||
  (error =? EHOSTUNREACH) || (error =? EADDRNOTAVAIL).

(** *** The state *)

Definition kDefaultLanBroadcastPort : Z := 42425.

Record PosixUdpBroadcastConfig := mkPosixUdpBroadcastConfig {
  interface_name : bytes;
  lan_port : Z;
  receive_local_datagrams : bool
}.

Definition PosixUdpBroadcastConfig_default : PosixUdpBroadcastConfig :=
  mkPosixUdpBroadcastConfig (str "wlan0") kDefaultLanBroadcastPort false.

Definition PosixUdpBroadcastConfig_valid (c : PosixUdpBroadcastConfig) : bool :=
  negb (length c.(interface_name) =? 0)%nat && (length c.(interface_name) <? IFNAMSIZ)%nat &&
  (1024 <=? c.(lan_port)).

Record SocketImpl := mkSocketImpl {
  lan_config : PosixUdpBroadcastConfig;
  lan_descriptor : Z;
  last_interface_check : Z;
  interface_check_started : bool;
  interface_connected : bool
}.

Definition new_socket (c : PosixUdpBroadcastConfig) : SocketImpl :=
  mkSocketImpl c (-1) 0 false false.

Definition set_descriptor (descriptor : Z) (s : SocketImpl) : SocketImpl :=
  mkSocketImpl s.(lan_config) descriptor s.(last_interface_check) s.(interface_check_started)
    s.(interface_connected).

Definition set_interface (connected : bool) (now : Z) (s : SocketImpl) : SocketImpl :=
  mkSocketImpl s.(lan_config) s.(lan_descriptor) now true connected.

Definition lan_ready (s : SocketImpl) : bool := 0 <=? s.(lan_descriptor).

Section Socket.
Context {W : Type} `{INetwork W}.

(** *** Operations *)

Definition Sock (A : Type) : Type := SocketImpl * W -> A * (SocketImpl * W).

#[export] Instance sock_ret : MRet Sock := fun A a s => (a, s).
#[export] Instance sock_bind : MBind Sock := fun A B f m s => let (a, s) := m s in f a s.

Definition net {A} (c : NetCall A) : Sock A :=
  fun s => let '(a, w) := net_call c s.2 in (a, (s.1, w)).
Definition this : Sock SocketImpl := fun s => (s.1, s).
Definition modify (f : SocketImpl -> SocketImpl) : Sock unit := fun s => (tt, (f s.1, s.2)).

Definition find_interface_ipv4 (name : bytes) : Sock (option InterfaceIpv4) :=
  interfaces ← net Net_interfaces;
  mret (match interfaces with
        | None => None
        | Some interfaces => first_interface name interfaces
        end).

(** The interface is found to be gone. *)
Definition note_disconnected : Sock unit :=
  now ← net Net_steady_now; modify (set_interface false now).

Definition socket_open : Sock unit :=
  s ← this;
  if negb (PosixUdpBroadcastConfig_valid s.(lan_config)) then mret tt
  else
    descriptor ← net Net_socket;
    if descriptor <? 0 then mret tt
    else
      existing_flags ← net (Net_getfl descriptor);
      ok ← (if existing_flags <? 0 then mret false
            else
              set ← net (Net_setfl descriptor (Z.lor existing_flags O_NONBLOCK));
              if set <? 0 then mret false
              else
                reuse ← net (Net_setsockopt descriptor SO_REUSEADDR);
                if negb (reuse =? 0) then mret false
                else
                  broadcast ← net (Net_setsockopt descriptor SO_BROADCAST);
                  mret (broadcast =? 0));
      if negb ok then (_ ← net (Net_close descriptor); mret tt)
      else
        bound ← net (Net_bind descriptor INADDR_ANY s.(lan_config).(lan_port));
        if negb (bound =? 0) then (_ ← net (Net_close descriptor); mret tt)
        else modify (set_descriptor descriptor).

Definition lan_connected : Sock bool :=
  s ← this;
  if negb (lan_ready s) then mret false
  else
    now ← net Net_steady_now;
    if s.(interface_check_started) && (now - s.(last_interface_check) <? 500 * kMillisecond)
    then mret s.(interface_connected)
    else
      interface ← find_interface_ipv4 s.(lan_config).(interface_name);
      let found := match interface with Some _ => true | None => false end in
      _ ← modify (set_interface found now);
      mret found.

Definition lan_try_send (data : bytes) : Sock UdpSocketSendStatus :=
  s ← this;
  if negb (lan_ready s) || (length data =? 0)%nat || (kMaximumDatagramBytes <? length data)%nat
  then mret UdpSend_Failed
  else
    interface ← find_interface_ipv4 s.(lan_config).(interface_name);
    match interface with
    | None => _ ← note_disconnected; mret UdpSend_Disconnected
    | Some interface =>
        sent ← net (Net_sendto s.(lan_descriptor) data interface.(ipv4_broadcast)
                      s.(lan_config).(lan_port));
        match sent with
        | success sent =>
            mret (if sent =? Z.of_nat (length data) then UdpSend_Sent else UdpSend_Failed)
        | failure error =>
            if is_temporary_socket_error error then mret UdpSend_WouldBlock
            else if is_disconnected_socket_error error then
              _ ← note_disconnected; mret UdpSend_Disconnected
            else mret UdpSend_Failed
        end
    end.

Definition lan_received (status : UdpSocketReceiveStatus) (size : nat) (destination : bytes)
  : UdpSocketReceiveResult * bytes := (mkUdpSocketReceiveResult status size, destination).

(** The loop with [attempts] left; [destination] is the buffer as it is. *)
Fixpoint receive_loop (attempts : nat) (destination : bytes)
  : Sock (UdpSocketReceiveResult * bytes) :=
  match attempts with
  | O => mret (lan_received UdpReceive_WouldBlock 0 destination)
  | S attempts =>
      s ← this;
      let c := s.(lan_config) in
      let capacity := length destination in
      received ← net (Net_recvfrom s.(lan_descriptor) capacity);
      match received with
      | failure error =>
          if is_temporary_socket_error error
          then mret (lan_received UdpReceive_WouldBlock 0 destination)
          else if is_disconnected_socket_error error then
            _ ← note_disconnected; mret (lan_received UdpReceive_Disconnected 0 destination)
          else mret (lan_received UdpReceive_Failed 0 destination)
      | success arrival =>
          let received_size := length arrival.(arrival_data) in
          let destination :=
            take capacity arrival.(arrival_data) ++ drop received_size destination in
          if (capacity <? received_size)%nat
          then mret (lan_received UdpReceive_Truncated capacity destination)
          else if (arrival.(source_size) <? sizeof_sockaddr_in) ||
                  negb (arrival.(source_addr).(sin_family) =? AF_INET) ||
                  negb (arrival.(source_port) =? c.(lan_port))
          then receive_loop attempts destination
          else
            interface ← find_interface_ipv4 c.(interface_name);
            match interface with
            | None =>
                _ ← note_disconnected; mret (lan_received UdpReceive_Disconnected 0 destination)
            | Some interface =>
                if negb (same_subnet arrival.(source_addr).(sin_addr) interface.(ipv4_address)
                           interface.(ipv4_netmask)) ||
                   (negb c.(receive_local_datagrams) &&
                    (arrival.(source_addr).(sin_addr) =? interface.(ipv4_address)))
                then receive_loop attempts destination
                else mret (lan_received UdpReceive_Received received_size destination)
            end
      end
  end.

Definition lan_try_receive (destination : bytes) : Sock (UdpSocketReceiveResult * bytes) :=
  s ← this;
  if negb (lan_ready s) || (length destination =? 0)%nat
  then mret (lan_received UdpReceive_Failed 0 destination)
  else receive_loop kMaximumFilteredReceivesPerCall destination.

Definition lan_close : Sock unit :=
  s ← this;
  if s.(lan_descriptor) <? 0 then mret tt
  else (_ ← net (Net_close s.(lan_descriptor)); modify (set_descriptor (-1))).

Definition PosixUdpBroadcastSocket (c : PosixUdpBroadcastConfig) (w : W) : SocketImpl * W :=
  (socket_open (new_socket c, w)).2.

(** The socket as the transport's interface, whose [connected] gives the answer
    alone: the time of the check is kept by the operations that send and receive. *)
#[export] Instance lan_socket : IUdpBroadcastSocket (SocketImpl * W) := {
  socket_ready s := lan_ready s.1;
  socket_connected s := (lan_connected s).1;
  socket_try_send s data := lan_try_send data s;
  socket_try_receive s capacity := lan_try_receive (replicate capacity x00) s;
  socket_close s := (lan_close s).2
}.
End Socket.

(** ** What the socket does to the network *)

Inductive NetEvent := net_event (A : Type) (c : NetCall A) (answer : A).
Arguments net_event {A} _ _.

Class INetworkLaws (W : Type) `{INetwork W} := {
  net_log : W -> list NetEvent;
  net_call_law {A} (c : NetCall A) w answer w' :
    net_call c w = (answer, w') -> net_log w' = net_log w ++ [net_event c answer]
}.

(** The selected interface in a list of them. *)
Definition lan_at (c : PosixUdpBroadcastConfig) (interfaces : option (list Interface))
  : option InterfaceIpv4 := interfaces ≫= first_interface c.(interface_name).

(** A datagram from the port of the LAN, out of the subnet of the interface, and
    not this host's own unless these are wanted. *)
Definition admitted (c : PosixUdpBroadcastConfig) (a : Arrival) (i : InterfaceIpv4) : Prop :=
  sizeof_sockaddr_in <= a.(source_size) /\ a.(source_addr).(sin_family) = AF_INET /\
  a.(source_port) = c.(lan_port) /\
  Z.land a.(source_addr).(sin_addr) i.(ipv4_netmask) = Z.land i.(ipv4_address) i.(ipv4_netmask) /\
  (c.(receive_local_datagrams) = false -> a.(source_addr).(sin_addr) <> i.(ipv4_address)).

(** Among the events is the reception of [d], admitted by the interface as it was
    listed next. *)
Definition heard_on_lan (c : PosixUdpBroadcastConfig) (es : list NetEvent) (d : bytes) : Prop :=
  exists before fd capacity a l i after,
    es = before ++ [net_event (Net_recvfrom fd capacity) (success a); net_event Net_interfaces l]
           ++ after /\
    lan_at c l = Some i /\ admitted c a i /\ a.(arrival_data) = d.

(** Among the events is the broadcast of all of [d] on the interface as it was
    listed before. *)
Definition sent_on_lan (c : PosixUdpBroadcastConfig) (es : list NetEvent) (d : bytes) : Prop :=
  exists before l i fd after,
    es = before ++ [net_event Net_interfaces l;
                    net_event (Net_sendto fd d i.(ipv4_broadcast) c.(lan_port))
                      (success (Z.of_nat (length d)))] ++ after /\
    lan_at c l = Some i.

(** Whatever is sent is one of [datagrams], to the broadcast address of the
    interface as it was listed just before, and to the port of the LAN. *)
Definition only_sends (c : PosixUdpBroadcastConfig) (datagrams : list bytes)
    (es : list NetEvent) : Prop :=
  forall before fd d address port a after,
    es = before ++ net_event (Net_sendto fd d address port) a :: after ->
    d ∈ datagrams /\ (0 < length d <= kMaximumDatagramBytes)%nat /\ port = c.(lan_port) /\
    exists before' l i, before = before' ++ [net_event Net_interfaces l] /\
      lan_at c l = Some i /\ address = i.(ipv4_broadcast).

Definition no_send (e : NetEvent) : Prop :=
  match e with net_event (Net_sendto _ _ _ _) _ => False | _ => True end.

Lemma heard_on_lan_more c es1 es es2 d : heard_on_lan c es d -> heard_on_lan c (es1 ++ es ++ es2) d.
Proof.
  intros (b & fd & k & a & l & i & af & -> & Hrest).
  exists (es1 ++ b), fd, k, a, l, i, (af ++ es2). by rewrite <- !app_assoc.
Qed.

Lemma sent_on_lan_more c es1 es es2 d : sent_on_lan c es d -> sent_on_lan c (es1 ++ es ++ es2) d.
Proof.
  intros (b & l & i & fd & af & -> & Hl).
  exists (es1 ++ b), l, i, fd, (af ++ es2). by rewrite <- !app_assoc.
Qed.

Lemma only_sends_none c ds es : Forall no_send es -> only_sends c ds es.
Proof. intros Hn b fd d ad p a af ->. by apply Forall_app in Hn as [_ [Hn _]%Forall_cons]. Qed.

Lemma only_sends_app c ds es1 es2 :
  only_sends c ds es1 -> only_sends c ds es2 -> only_sends c ds (es1 ++ es2).
Proof.
  intros H1s H2s b fd d ad p a af Heq.
  apply app_eq_inv in Heq as [(k & -> & Hk)|(k & -> & ->)].
  - destruct k as [|e k].
    + cbn in Hk. destruct (H2s [] fd d ad p a af (eq_sym Hk)) as (_ & _ & _ & b' & l & i & Hb & _).
      by destruct b'.
    + cbn in Hk. injection Hk as <- ->. by eapply H1s.
  - destruct (H2s k fd d ad p a af eq_refl) as (Hd & Hn & Hp & b' & l & i & -> & Hl).
    split; [done|]. split; [done|]. split; [done|]. exists (es1 ++ b'), l, i.
    by rewrite app_assoc.
Qed.

Section Trace.
Context {W : Type} `{INetworkLaws W}.

(** [m] from a socket in state [s] adds the events [es], answers [a] and ends in
    state [s'] only as [P] says. *)
Definition runs {A} (m : Sock A) (P : SocketImpl -> list NetEvent -> A -> SocketImpl -> Prop)
  : Prop :=
  forall s w a s' w', m (s, w) = (a, (s', w')) ->
    exists es, net_log w' = net_log w ++ es /\ P s es a s'.

Lemma runs_ret {A} (a : A) (P : SocketImpl -> list NetEvent -> A -> SocketImpl -> Prop) :
  (forall s, P s [] a s) -> runs (mret a) P.
Proof. intros HP s w a' s' w' [= <- <- <-]. exists []. by rewrite app_nil_r. Qed.

Lemma runs_bind {A B} (m : Sock A) (k : A -> Sock B)
    (P : SocketImpl -> list NetEvent -> A -> SocketImpl -> Prop)
    (R : SocketImpl -> list NetEvent -> B -> SocketImpl -> Prop) :
  runs m P ->
  (forall s es1 a s1, P s es1 a s1 -> forall w b s2 w2, k a (s1, w) = (b, (s2, w2)) ->
     exists es2, net_log w2 = net_log w ++ es2 /\ R s (es1 ++ es2) b s2) ->
  runs (m ≫= k) R.
Proof.
  intros Hm Hk s w b s2 w2. unfold mbind, sock_bind. destruct (m (s, w)) as [a [s1 w1]] eqn:E.
  intros E2. apply Hm in E as (es1 & Hl1 & HP).
  destruct (Hk s es1 a s1 HP w1 b s2 w2 E2) as (es2 & Hl2 & HR).
  exists (es1 ++ es2). by rewrite Hl2, Hl1, app_assoc.
Qed.

Lemma runs_weaken {A} (m : Sock A) (P Q : SocketImpl -> list NetEvent -> A -> SocketImpl -> Prop) :
  runs m P -> (forall s es a s', P s es a s' -> Q s es a s') -> runs m Q.
Proof. intros Hm HPQ s w a s' w' (es & Hl & HP)%Hm. eauto. Qed.

Lemma runs_net {A} (c : NetCall A) :
  runs (net c) (fun s es a s' => s' = s /\ es = [net_event c a]).
Proof.
  intros s w a s' w'. unfold net. cbn [fst snd]. destruct (net_call c w) as [b w1] eqn:E.
  intros [= <- <- <-]. apply net_call_law in E. eauto.
Qed.

(** A call, and what comes after it. *)
Lemma runs_call {A B} (c : NetCall A) (k : A -> Sock B)
    (P : SocketImpl -> list NetEvent -> B -> SocketImpl -> Prop) :
  (forall a, runs (k a) (fun s es b s' => P s (net_event c a :: es) b s')) -> runs (net c ≫= k) P.
Proof.
  intros Hk. eapply runs_bind; [apply runs_net|]. intros s es1 a s1 [-> ->] w b s2 w2 E.
  apply Hk in E as (es2 & ? & ?). by exists es2.
Qed.

Lemma runs_this {B} (k : SocketImpl -> Sock B)
    (P : SocketImpl -> list NetEvent -> B -> SocketImpl -> Prop) :
  (forall s0, runs (k s0) (fun s es b s' => s = s0 -> P s es b s')) -> runs (this ≫= k) P.
Proof.
  intros Hk s w b s2 w2 E. unfold mbind, sock_bind, this in E. cbn in E.
  destruct (Hk s _ _ _ _ _ E) as (es & Hl & HP). eauto.
Qed.

Lemma runs_find {B} name (k : option InterfaceIpv4 -> Sock B)
    (P : SocketImpl -> list NetEvent -> B -> SocketImpl -> Prop) :
  (forall l, runs (k (l ≫= first_interface name))
     (fun s es b s' => P s (net_event Net_interfaces l :: es) b s')) ->
  runs (find_interface_ipv4 name ≫= k) P.
Proof.
  intros Hk s w b s2 w2. unfold find_interface_ipv4, mbind, sock_bind, net, mret, sock_ret.
  cbn [fst snd]. destruct (net_call Net_interfaces w) as [l w1] eqn:E. cbn [fst snd].
  intros E2. apply net_call_law in E.
  destruct (Hk l s w1 b s2 w2) as (es & Hl & HP); [by destruct l|].
  exists (net_event Net_interfaces l :: es). split; [by rewrite Hl, E, <- app_assoc|done].
Qed.

(** Actions that send nothing and keep the configuration. *)
Definition quiet {A} (m : Sock A) : Prop :=
  runs m (fun s es _ s' => Forall no_send es /\ s'.(lan_config) = s.(lan_config)).

Lemma quiet_ret {A} (a : A) : quiet (mret a).
Proof. by apply runs_ret. Qed.

Lemma quiet_bind {A B} (m : Sock A) (k : A -> Sock B) :
  quiet m -> (forall a, quiet (k a)) -> quiet (m ≫= k).
Proof.
  intros Hm Hk. eapply runs_bind; [exact Hm|]. intros s es1 a s1 [Hn1 Hc1] w b s2 w2 E.
  apply Hk in E as (es2 & Hl & Hn2 & Hc2). exists es2. split; [done|].
  split; [by apply Forall_app|congruence].
Qed.

Lemma quiet_net {A} (c : NetCall A) : (forall a, no_send (net_event c a)) -> quiet (net c).
Proof. intros Hc. eapply runs_weaken; [apply runs_net|]. intros s es a s' [-> ->]. auto. Qed.

Lemma quiet_this : quiet this.
Proof. intros s w a s' w' [= <- <- <-]. exists []. by rewrite app_nil_r. Qed.

Lemma quiet_modify f : (forall s, (f s).(lan_config) = s.(lan_config)) -> quiet (modify f).
Proof. intros Hf s w a s' w' [= <- <- <-]. exists []. rewrite app_nil_r. auto. Qed.

Ltac be_quiet :=
  repeat first
    [ apply quiet_ret | apply quiet_this | apply quiet_net; done | apply quiet_modify; done
    | apply quiet_bind; [|intros ?] | case_match ].

Lemma socket_open_quiet : quiet socket_open.
Proof. unfold socket_open. be_quiet. Qed.

Lemma lan_close_quiet : quiet lan_close.
Proof. unfold lan_close. be_quiet. Qed.

Lemma note_disconnected_quiet : quiet note_disconnected.
Proof. unfold note_disconnected. be_quiet. Qed.

(** [note_disconnected] and an answer. *)
Lemma disconnected_quiet {A} (a : A) :
  runs (_ ← note_disconnected; mret a) (fun s es b s' =>
    Forall no_send es /\ s'.(lan_config) = s.(lan_config) /\ b = a).
Proof.
  eapply runs_bind; [apply note_disconnected_quiet|].
  intros s es1 _ s1 [Hn Hc] w b s2 w2 [= <- <- <-]. exists []. by rewrite !app_nil_r.
Qed.

(** ** Sending *)

Lemma only_sends_one c l i fd d a :
  lan_at c l = Some i -> (0 < length d <= kMaximumDatagramBytes)%nat ->
  forall es, Forall no_send es ->
  only_sends c [d] (net_event Net_interfaces l ::
    net_event (Net_sendto fd d i.(ipv4_broadcast) c.(lan_port)) a :: es).
Proof.
  intros Hl Hd es Hes b fd' d' ad p a' af Heq.
  destruct b as [|e b]; [discriminate Heq|]. injection Heq as <- Heq.
  destruct b as [|e b].
  - cbn in Heq. injection Heq as -> -> <- <- _ _. split; [by left|]. split; [done|].
    split; [done|]. exists [], l, i. done.
  - injection Heq as <- ->. by apply Forall_app in Hes as [_ [Hbad _]%Forall_cons].
Qed.

Lemma lan_try_send_runs data :
  runs (lan_try_send data) (fun s es a s' => s'.(lan_config) = s.(lan_config) /\
    only_sends s.(lan_config) [data] es /\
    (a = UdpSend_Sent -> sent_on_lan s.(lan_config) es data)).
Proof.
  unfold lan_try_send. apply runs_this. intros s0.
  destruct (_ || (kMaximumDatagramBytes <? length data)%nat) eqn:Ed.
  { apply runs_ret. intros s ->. split; [done|]. split; [by apply only_sends_none|done]. }
  reflect_bools. apply runs_find. intros l. fold (lan_at s0.(lan_config) l).
  destruct (lan_at (lan_config s0) l) as [i|] eqn:El.
  2:{ eapply runs_weaken; [apply disconnected_quiet|]. cbn beta.
      intros s es a s' (Hn & Hc & ->) ->. split; [done|].
      split; [|done]. apply only_sends_none. by constructor. }
  apply runs_call. intros sent.
  assert (forall es, Forall no_send es -> only_sends s0.(lan_config) [data]
    (net_event Net_interfaces l ::
     net_event (Net_sendto (lan_descriptor s0) data (ipv4_broadcast i) (lan_port (lan_config s0)))
       sent :: es)) as Hone.
  { intros es. apply only_sends_one; [done|]. lia. }
  destruct sent as [sent|error].
  - apply runs_ret. intros s ->. split; [done|]. split; [by apply Hone|].
    destruct (Z.eqb_spec sent (Z.of_nat (length data))) as [->|]; [|done]. intros _.
    exists [], l, i, (lan_descriptor s0), []. done.
  - destruct (is_temporary_socket_error error).
    { apply runs_ret. intros s ->. split; [done|]. split; [by apply Hone|done]. }
    destruct (is_disconnected_socket_error error).
    { eapply runs_weaken; [apply disconnected_quiet|]. cbn beta.
      intros s es a s' (Hn & Hc & ->) ->. split; [done|]. split; [by apply Hone|done]. }
    apply runs_ret. intros s ->. split; [done|]. split; [by apply Hone|done].
Qed.

(** ** Receiving *)

Lemma admitted_spec c a i :
  (a.(source_size) <? sizeof_sockaddr_in) || negb (a.(source_addr).(sin_family) =? AF_INET) ||
    negb (a.(source_port) =? c.(lan_port)) = false ->
  negb (same_subnet a.(source_addr).(sin_addr) i.(ipv4_address) i.(ipv4_netmask)) ||
    (negb c.(receive_local_datagrams) && (a.(source_addr).(sin_addr) =? i.(ipv4_address))) = false ->
  admitted c a i.
Proof.
  intros [[H1s H2s]%orb_false_iff H3s]%orb_false_iff [H4s H5s]%orb_false_iff.
  apply Z.ltb_ge in H1s. apply negb_false_iff, Z.eqb_eq in H2s, H3s, H4s.
  split; [done|]. split; [done|]. split; [done|]. split; [done|].
  intros Hlocal Heq. rewrite Hlocal, Heq, Z.eqb_refl in H5s. done.
Qed.

Lemma receive_loop_runs attempts destination :
  runs (receive_loop attempts destination) (fun s es a s' =>
    s'.(lan_config) = s.(lan_config) /\ Forall no_send es /\ length a.2 = length destination /\
    (a.1.(udp_status) = UdpReceive_Received -> (a.1.(udp_size) <= length a.2)%nat /\
       heard_on_lan s.(lan_config) es (take a.1.(udp_size) a.2))).
Proof.
  revert destination. induction attempts as [|attempts IH]; intros destination; cbn [receive_loop].
  { by apply runs_ret. }
  apply runs_this. intros s0. apply runs_call. intros [a|error].
  2:{ case_match; [by apply runs_ret; intros s ->; repeat constructor|].
      case_match; [|by apply runs_ret; intros s ->; repeat constructor].
      eapply runs_weaken; [apply disconnected_quiet|]. cbn beta.
      intros s es b s' (Hn & Hc & ->) ->. split; [done|]. split; [by constructor|done]. }
  set (buffer := take (length destination) (arrival_data a) ++
                 drop (length (arrival_data a)) destination).
  assert (length buffer = length destination) as Hlen.
  { unfold buffer. rewrite length_app, length_take, length_drop. lia. }
  destruct (length destination <? length (arrival_data a))%nat eqn:Et.
  { apply runs_ret. intros s ->. split; [done|]. split; [by repeat constructor|]. done. }
  apply Nat.ltb_ge in Et.
  destruct (_ || negb (source_port a =? _)) eqn:Es.
  { eapply runs_weaken; [apply IH|]. cbn beta. intros s es b s' (Hc & Hn & Hl & Hr) ->.
    split; [done|]. split; [by constructor|]. split; [congruence|]. intros Hrec.
    destruct (Hr Hrec) as [Hle Hh]. split; [done|].
    pose proof (heard_on_lan_more _ [net_event (Net_recvfrom (lan_descriptor s0) (length destination))
      (success a)] _ [] _ Hh) as Hm. by rewrite app_nil_r in Hm. }
  apply runs_find. intros l. fold (lan_at s0.(lan_config) l).
  destruct (lan_at (lan_config s0) l) as [i|] eqn:El.
  2:{ eapply runs_weaken; [apply disconnected_quiet|]. cbn beta.
      intros s es b s' (Hn & Hc & ->) ->. split; [done|]. split; [by repeat constructor|done]. }
  destruct (_ || _ && _) eqn:Ei.
  { eapply runs_weaken; [apply IH|]. cbn beta. intros s es b s' (Hc & Hn & Hl & Hr) ->.
    split; [done|]. split; [by repeat constructor|]. split; [congruence|]. intros Hrec.
    destruct (Hr Hrec) as [Hle Hh]. split; [done|].
    pose proof (heard_on_lan_more _ [net_event (Net_recvfrom (lan_descriptor s0) (length destination))
      (success a); net_event Net_interfaces l] _ [] _ Hh) as Hm. by rewrite app_nil_r in Hm. }
  apply runs_ret. intros s ->. split; [done|]. split; [by repeat constructor|].
  split; [done|]. intros _. cbn [fst snd lan_received udp_size]. split; [by rewrite Hlen|].
  exists [], (lan_descriptor s0), (length destination), a, l, i, [].
  split; [done|]. split; [done|]. split; [by apply admitted_spec|].
  unfold buffer. rewrite take_app_le by (rewrite length_take; lia).
  by rewrite take_take, Nat.min_l, firstn_all by lia.
Qed.

Lemma lan_try_receive_runs destination :
  runs (lan_try_receive destination) (fun s es a s' =>
    s'.(lan_config) = s.(lan_config) /\ Forall no_send es /\ length a.2 = length destination /\
    (a.1.(udp_status) = UdpReceive_Received -> (a.1.(udp_size) <= length a.2)%nat /\
       heard_on_lan s.(lan_config) es (take a.1.(udp_size) a.2))).
Proof.
  unfold lan_try_receive. apply runs_this. intros s0.
  case_match; [by apply runs_ret|]. eapply runs_weaken; [apply receive_loop_runs|]. auto.
Qed.

#[export] Instance lan_socket_laws : IUdpBroadcastSocketLaws (SocketImpl * W).
Proof.
  split. intros [s w] capacity r d [s' w'] E. cbn [socket_try_receive lan_socket] in E.
  apply lan_try_receive_runs in E as (es & _ & _ & _ & Hl & _). cbn [snd] in Hl.
  by rewrite Hl, length_replicate.
Qed.
End Trace.

(** ** The transport over the socket *)

Definition handed_to (op : TransportOp) : list bytes :=
  match op with Transport_send data => [data] | _ => [] end.

(** The datagrams a use of the transport asks to send. *)
Definition transport_data (ops : list TransportOp) : list bytes := concat (handed_to <$> ops).

Lemma elem_of_transport_data data ops : Transport_send data ∈ ops -> data ∈ transport_data ops.
Proof.
  intros Hin. unfold transport_data. apply list_elem_of_In, in_concat. exists [data].
  split; [|by left]. apply list_elem_of_In, list_elem_of_fmap. by exists (Transport_send data).
Qed.

Section OverTransport.
Context {W : Type} `{INetworkLaws W}.
Context (c : PosixUdpBroadcastConfig) (ops : list TransportOp) (w0 : W).
Implicit Types t : UdpBroadcastTransport (SocketImpl * W).

(** The socket after the events [es], with the traffic of its transport. *)
Record lan_books (s : SocketImpl * W) (tr : Traffic) : Prop := {
  books_config : s.1.(lan_config) = c;
  books_events : exists es, net_log s.2 = net_log w0 ++ es /\
    only_sends c (transport_data ops) es /\
    Forall (sent_on_lan c es) tr.(accepted) /\ Forall (heard_on_lan c es) tr.(handed)
}.

Lemma lan_books_step s tr s' es sent received :
  lan_books s tr -> s'.1.(lan_config) = s.1.(lan_config) -> net_log s'.2 = net_log s.2 ++ es ->
  only_sends c (transport_data ops) es -> Forall (sent_on_lan c es) sent ->
  Forall (heard_on_lan c es) received ->
  lan_books s' (mkTraffic (tr.(accepted) ++ sent) (tr.(handed) ++ received)).
Proof.
  intros [Hc (es0 & Hl & Ho & Ha & Hh)] Hc' Hl' Ho' Hs Hr. split; [congruence|].
  exists (es0 ++ es). split; [by rewrite Hl', Hl, app_assoc|].
  split; [by apply only_sends_app|]. cbn [accepted handed].
  split; apply Forall_app; (split; eapply Forall_impl; [done| |done|]); cbn beta; intros d Hd.
  - exact (sent_on_lan_more c [] es0 es d Hd).
  - pose proof (sent_on_lan_more c es0 es [] d Hd) as Hm. by rewrite app_nil_r in Hm.
  - exact (heard_on_lan_more c [] es0 es d Hd).
  - pose proof (heard_on_lan_more c es0 es [] d Hd) as Hm. by rewrite app_nil_r in Hm.
Qed.

Lemma lan_books_quiet {A} (m : Sock A) s tr :
  quiet m -> lan_books s tr -> lan_books (m s).2 tr.
Proof.
  intros Hm Hb. destruct s as [s w]. destruct (m (s, w)) as [a [s' w']] eqn:E.
  apply Hm in E as (es & Hl & Hn & Hc).
  pose proof (lan_books_step (s, w) tr (s', w') es [] [] Hb Hc Hl (only_sends_none _ _ _ Hn)
    (Forall_nil_2 _) (Forall_nil_2 _)) as Hstep.
  rewrite !app_nil_r in Hstep. by destruct tr.
Qed.

Lemma only_sends_weaken ds ds' es : only_sends c ds es -> ds ⊆ ds' -> only_sends c ds' es.
Proof. intros Ho Hsub b fd d ad p a af Heq. destruct (Ho _ _ _ _ _ _ _ Heq) as (? & ?). auto. Qed.

Lemma lan_books_send s tr data :
  Transport_send data ∈ ops -> lan_books s tr ->
  let (status, s') := lan_try_send data s in
  lan_books s' (mkTraffic (tr.(accepted) ++ match status with UdpSend_Sent => [data] | _ => [] end)
                  tr.(handed)).
Proof.
  intros Hin Hb. destruct s as [s w]. destruct (lan_try_send data (s, w)) as [status [s' w']] eqn:E.
  apply lan_try_send_runs in E as (es & Hl & Hc & Ho & Hs).
  pose proof (books_config _ _ Hb) as Hcfg. cbn [fst] in Hcfg. rewrite Hcfg in Ho, Hs.
  rewrite <- (app_nil_r tr.(handed)).
  eapply (lan_books_step (s, w)); [done|done|done| | |constructor].
  - eapply only_sends_weaken; [exact Ho|]. intros d Hd%list_elem_of_singleton. subst d.
    by apply elem_of_transport_data.
  - destruct status; constructor; auto.
Qed.

Lemma lan_books_receive s tr capacity :
  lan_books s tr ->
  let (r, s') := lan_try_receive (replicate capacity x00) s in
  lan_books s' tr /\
  (r.1.(udp_status) = UdpReceive_Received ->
   lan_books s' (mkTraffic tr.(accepted) (tr.(handed) ++ [take r.1.(udp_size) r.2]))).
Proof.
  intros Hb. destruct s as [s w].
  destruct (lan_try_receive (replicate capacity x00) (s, w)) as [r [s' w']] eqn:E.
  apply lan_try_receive_runs in E as (es & Hl & Hc & Hn & _ & Hr).
  pose proof (books_config _ _ Hb) as Hcfg. cbn [fst] in Hcfg. rewrite Hcfg in Hr.
  pose proof (fun sent received => lan_books_step (s, w) tr (s', w') es sent received Hb Hc Hl
    (only_sends_none _ _ _ Hn)) as Hstep.
  split.
  - specialize (Hstep [] [] (Forall_nil_2 _) (Forall_nil_2 _)). rewrite !app_nil_r in Hstep.
    by destruct tr.
  - intros [_ Hh]%Hr. specialize (Hstep [] [take r.1.(udp_size) r.2] (Forall_nil_2 _)).
    rewrite app_nil_r in Hstep. apply Hstep. by constructor.
Qed.

Lemma lan_transport_step op y :
  op ∈ ops -> lan_books y.2.(udp_socket) y.1 ->
  lan_books (transport_step y op).2.(udp_socket) (transport_step y op).1.
Proof.
  intros Hin Hb. destruct y as [tr t]. cbn [fst snd] in Hb.
  assert (mkTraffic (tr.(accepted) ++ []) (tr.(handed) ++ []) = tr) as Htr
    by (rewrite !app_nil_r; by destruct tr).
  assert (forall s, udp_socket (udp_fail_closed (with_udp_socket s t)) = (lan_close s).2 \/
                    udp_socket (udp_fail_closed (with_udp_socket s t)) = s) as Hfail.
  { intros s. unfold udp_fail_closed. cbn. case_match; auto. }
  destruct op as [data|capacity|]; cbn [transport_step].
  - pose proof (lan_books_send t.(udp_socket) tr data Hin Hb) as Hs.
    cbn [try_send udp_transport]. unfold udp_try_send.
    rewrite !app_nil_r in Htr.
    destruct (udp_closed t); [by cbn; rewrite app_nil_r; destruct tr|].
    destruct (_ || _); [by cbn; rewrite app_nil_r; destruct tr|].
    cbn [socket_try_send lan_socket]. destruct (lan_try_send data (udp_socket t)) as [status s].
    destruct status; cbn [fst snd]; try exact Hs. cbn in Hs.
    destruct (Hfail s) as [-> | ->]; [|exact Hs]. by apply lan_books_quiet; [apply lan_close_quiet|].
  - pose proof (lan_books_receive t.(udp_socket) tr capacity Hb) as Hs.
    cbn [try_receive udp_transport]. unfold udp_try_receive.
    destruct (udp_closed t); [by cbn; rewrite app_nil_r; destruct tr|].
    destruct (capacity =? 0)%nat; [by cbn; rewrite app_nil_r; destruct tr|].
    cbn [socket_try_receive lan_socket].
    destruct (lan_try_receive _ (udp_socket t)) as [[r d] s]. destruct Hs as [Hq Hs].
    cbn [fst snd] in Hs.
    destruct (udp_status r) eqn:Er; cbn [fst snd]; try (cbn; rewrite app_nil_r; by destruct tr).
    + destruct (_ || _); cbn [fst snd]; [cbn; rewrite app_nil_r; by destruct tr|]. by apply Hs.
    + cbn [receive_status nothing]. rewrite app_nil_r.
      destruct (Hfail s) as [-> | ->]; [|by destruct tr].
      apply lan_books_quiet; [apply lan_close_quiet|]. by destruct tr.
  - cbn [close udp_transport]. unfold udp_close. case_match; [done|]. cbn [udp_socket snd fst].
    by apply lan_books_quiet; [apply lan_close_quiet|].
Qed.

Lemma lan_transport_run t ops' :
  ops' ⊆ ops -> lan_books t.(udp_socket) (mkTraffic [] []) ->
  lan_books (transport_run t ops').2.(udp_socket) (transport_run t ops').1.
Proof.
  induction ops' as [|op ops' IH] using rev_ind; intros Hsub Hb; [done|].
  rewrite transport_run_snoc. apply lan_transport_step; [set_solver|]. apply IH; [set_solver|done].
Qed.

Lemma lan_make_books mtu :
  lan_books (UdpBroadcastTransport_make (PosixUdpBroadcastSocket c w0) mtu).(udp_socket)
    (mkTraffic [] []).
Proof.
  assert (lan_books (PosixUdpBroadcastSocket c w0) (mkTraffic [] [])) as Hb.
  { unfold PosixUdpBroadcastSocket. apply lan_books_quiet; [apply socket_open_quiet|].
    split; [done|]. exists []. rewrite app_nil_r. split; [done|].
    split; [by apply only_sends_none|]. by split. }
  unfold UdpBroadcastTransport_make. case_match; [done|].
  by apply lan_books_quiet; [apply lan_close_quiet|].
Qed.
End OverTransport.

(** ** A network for the witnesses *)

(** One interface, and the datagrams that wait at the port. *)
Record TestNet := mkTestNet { waiting : list Arrival; test_log : list NetEvent }.

Definition test_interface : Interface :=
  mkInterface (Some (str "wlan0")) (Some (mkSockAddr AF_INET 0xc0a80105))
    (Some (mkSockAddr AF_INET 0xffffff00)) (IFF_UP + IFF_BROADCAST)
    (Some (mkSockAddr AF_INET 0xc0a801ff)).

Definition test_answer {A} (c : NetCall A) (n : TestNet) : A * list Arrival :=
  match c in NetCall A return A * list Arrival with
  | Net_socket => (5, n.(waiting))
  | Net_getfl _ | Net_setfl _ _ | Net_setsockopt _ _ | Net_bind _ _ _ | Net_close _ =>
      (0, n.(waiting))
  | Net_interfaces => (Some [test_interface], n.(waiting))
  | Net_sendto _ data _ _ => (success (Z.of_nat (length data)), n.(waiting))
  | Net_recvfrom _ _ =>
      match n.(waiting) with
      | [] => (failure EAGAIN, [])
      | a :: rest => (success a, rest)
      end
  | Net_steady_now => (0, n.(waiting))
  end.

#[export] Instance test_network : INetwork TestNet := {
  net_call A c n :=
    let (answer, rest) := test_answer c n in
    (answer, mkTestNet rest (n.(test_log) ++ [net_event c answer]))
}.

#[export] Instance test_network_laws : INetworkLaws TestNet.
Proof.
  refine {| net_log := test_log |}. intros A c n answer n'. cbn.
  destruct (test_answer c n). by intros [= <- <-].
Defined.

Definition arrival_from (address port : Z) (data : bytes) : Arrival :=
  mkArrival data sizeof_sockaddr_in (mkSockAddr AF_INET address) port.

(** A neighbour's datagram behind one of this host's own, one from elsewhere and one
    from another port. *)
Definition test_net : TestNet :=
  mkTestNet [arrival_from 0xc0a80105 42425 [x01]; arrival_from 0x08080808 42425 [x02];
             arrival_from 0xc0a80107 42424 [x03]; arrival_from 0xc0a80107 42425 [x04; x05]] [].

(** ** Property theorems *)

(** C35: the LAN transport speaks and listens only on its own subnet.  Make the UDP
    transport over the socket and call it in any way, whatever the network answers.
    Every datagram it hands out was received from the port of the LAN and from an
    address in the subnet of the selected interface, as that was listed just after,
    and is not this host's own unless these are wanted; every datagram it accepted
    was sent whole to the broadcast address of that interface, as it was listed just
    before; and nothing is sent but datagrams it was given, of 1 to 255 bytes, to
    that address and port. *)
Theorem lan_stays_on_subnet {W} `{INetworkLaws W} c mtu ops (w : W) :
  let (tr, t) :=
    transport_run (UdpBroadcastTransport_make (PosixUdpBroadcastSocket c w) mtu) ops in
  exists events, net_log t.(udp_socket).2 = net_log w ++ events /\
    Forall (heard_on_lan c events) tr.(handed) /\ Forall (sent_on_lan c events) tr.(accepted) /\
    only_sends c (transport_data ops) events.
Proof.
  pose proof (lan_transport_run c ops w _ ops ltac:(done) (lan_make_books c ops w mtu)) as Hb.
  destruct (transport_run _ ops) as [tr t]. destruct Hb as [_ (es & Hl & Ho & Ha & Hh)].
  by exists es.
Qed.

(** The filter passes the neighbour's datagram, the fourth looked at, alone. *)
Lemma lan_stays_on_subnet_example :
  (transport_run
     (UdpBroadcastTransport_make (PosixUdpBroadcastSocket PosixUdpBroadcastConfig_default test_net) 255)
     [Transport_send [x09]; Transport_receive 255]).1 = mkTraffic [[x09]] [[x04; x05]].
Proof. vm_compute. reflexivity. Qed.
