(* ===== verification/ScriptRunner.v ===== *)
(** * ScriptRunner: the runner of the scripted input

    src/platform/app_script.cpp: the script is parsed once and then performed one
    action per tick of a timer, between which anything may happen.  The runner is
    an interpreter of the list of actions that always ends with a verdict. *)
From S2P Require Import Prelude Decimal AppScript App.

(** ** Definitions *)

(** The functions the runner calls.  A call that throws is [None] or [false];
    [probe_field] answers [Some None] for a field that is not available. *)
Class IScriptWorld (W : Type) := {
  script_keys : LvKeys;
  route_key : Z -> W -> bool * W;
  capture_screenshot : bytes -> W -> option bool * W;
  probe_field : bytes -> W -> option (option bytes) * W;
  push_window_close : W -> bool * W
}.

Definition kMaximumAwaitTicks : Z := 50.

Record ScriptState := mkScriptState {
  state_actions : list Action;
  state_next : nat;
  state_await_ticks : Z;
  state_has_probe : bool
}.

(** The variables of the file; the timer lives exactly as long as the state. *)
Record ScriptGlobals := mkScriptGlobals {
  script_state : option ScriptState;
  script_failed : bool
}.

Definition release_script (g : ScriptGlobals) : ScriptGlobals :=
  mkScriptGlobals None g.(script_failed).

Definition fail_script (g : ScriptGlobals) : ScriptGlobals := mkScriptGlobals None true.

Definition complete_script (g : ScriptGlobals) : ScriptGlobals := release_script g.

Definition with_state (s : ScriptState) (g : ScriptGlobals) : ScriptGlobals :=
  mkScriptGlobals (Some s) g.(script_failed).

(** [++next; await_ticks = 0;] *)
Definition next_action (s : ScriptState) : ScriptState :=
  mkScriptState s.(state_actions) (S s.(state_next)) 0 s.(state_has_probe).

Definition count_await (s : ScriptState) : ScriptState :=
  mkScriptState s.(state_actions) s.(state_next) (u32 (s.(state_await_ticks) + 1))
    s.(state_has_probe).

Inductive ProbeResult := Probe_Match | Probe_Mismatch | Probe_Failure.

Section Runner.
Context {W : Type} `{IScriptWorld W}.

Definition route_value (action : Action) : Z :=
  match action.(action_named_key) with
  | Key_Home => script_keys.(LV_KEY_HOME)
  | Key_Escape => script_keys.(LV_KEY_ESC)
  | Key_Up => script_keys.(LV_KEY_UP)
  | Key_Down => script_keys.(LV_KEY_DOWN)
  | Key_Left => script_keys.(LV_KEY_LEFT)
  | Key_Right => script_keys.(LV_KEY_RIGHT)
  | Key_Enter => script_keys.(LV_KEY_ENTER)
  | Key_Backspace => script_keys.(LV_KEY_BACKSPACE)
  | Key_Tab => script_keys.(LV_KEY_NEXT)
  | Key_None => action.(action_scalar)
  end.

Definition evaluate_probe (has_probe : bool) (action : Action) (w : W) : ProbeResult * W :=
  if negb has_probe then (Probe_Failure, w)
  else
    let (current, w) := probe_field action.(action_field) w in
    match current with
    | None | Some None => (Probe_Failure, w)
    | Some (Some current) =>
        (if bool_decide (current = action.(action_value)) then Probe_Match else Probe_Mismatch, w)
    end.

(** [complete_script] when the action done was the last. *)
Definition step_done (s : ScriptState) (g : ScriptGlobals) : ScriptGlobals :=
  if (length s.(state_actions) <=? s.(state_next))%nat then complete_script g
  else with_state s g.

Definition run_script_action (g : ScriptGlobals) (w : W) : ScriptGlobals * W :=
  match g.(script_state) with
  | None => (complete_script g, w)
  | Some s =>
      match s.(state_actions) !! s.(state_next) with
      | None => (complete_script g, w)
      | Some action =>
          match action.(action_type) with
          | Action_Key =>
              let (returned, w) := route_key (route_value action) w in
              (if (returned : bool) then step_done (next_action s) g else fail_script g, w)
          | Action_Wait => (step_done (next_action s) g, w)
          | Action_Screenshot =>
              let (captured, w) := capture_screenshot action.(action_value) w in
              (match captured with
               | Some true => step_done (next_action s) g
               | _ => fail_script g
               end, w)
          | Action_Expect =>
              let (evaluation, w) := evaluate_probe s.(state_has_probe) action w in
              (match evaluation with
               | Probe_Match => step_done (next_action s) g
               | _ => fail_script g
               end, w)
          | Action_Await =>
              let (evaluation, w) := evaluate_probe s.(state_has_probe) action w in
              (match evaluation with
               | Probe_Failure => fail_script g
               | Probe_Mismatch =>
                   let s := count_await s in
                   if kMaximumAwaitTicks <=? s.(state_await_ticks) then fail_script g
                   else with_state s g
               | Probe_Match => step_done (next_action s) g
               end, w)
          | Action_CloseWindow =>
              let (pushed, w) := push_window_close w in
              (if (pushed : bool) then complete_script g else fail_script g, w)
          end
      end
  end.

(** [start_app_script] for the two variables of the environment; [timer] says that
    the timer could be made. *)
Definition start_app_script (value interval : option bytes) (timer has_probe : bool)
    (g : ScriptGlobals) : option ScriptGlobals :=
  let g := mkScriptGlobals None false in
  match value with
  | None | Some [] => Some g
  | Some source =>
      if (kMaximumSourceBytes <? length source)%nat then Some (mkScriptGlobals None true)
      else
        match script_parse source with
        | None => None
        | Some parsed =>
            if negb (bool_decide (parsed.(script_error) = ParseError_None))
            then Some (mkScriptGlobals None true)
            else if (length parsed.(script_actions) =? 0)%nat
            then Some (mkScriptGlobals None true)
            else if negb (parse_interval interval).(interval_valid)
            then Some (mkScriptGlobals None true)
            else if negb timer then Some (mkScriptGlobals None true)
            else Some (with_state (mkScriptState parsed.(script_actions) 0 0 has_probe) g)
        end
  end.

Definition stop_app_script (g : ScriptGlobals) : ScriptGlobals := release_script g.
Definition app_script_failed (g : ScriptGlobals) : bool := g.(script_failed).
Definition app_script_pending (g : ScriptGlobals) : bool :=
  match g.(script_state) with Some _ => true | None => false end.

(** The timer fires after the world has changed in any way; once the script is
    over there is no timer. *)
Definition tick (between : W -> W) (x : ScriptGlobals * W) : ScriptGlobals * W :=
  let (g, w) := x in
  match g.(script_state) with
  | Some _ => run_script_action g (between w)
  | None => (g, between w)
  end.
End Runner.

(** ** The script as a program *)

Section Interpreter.
Context {W : Type} `{IScriptWorld W}.

(** [n] firings of the timer, from the [i]th on. *)
Fixpoint run_ticks (between : nat -> W -> W) (i n : nat) (x : ScriptGlobals * W)
  : ScriptGlobals * W :=
  match n with
  | O => x
  | S n => run_ticks between (S i) n (tick (between i) x)
  end.

(** Ask up to [tries] times, once a tick, until the field has the value. *)
Fixpoint await_value (between : nat -> W -> W) (has_probe : bool) (action : Action)
    (tries i : nat) (w : W) : bool * nat * W :=
  match tries with
  | O => (false, i, w)
  | S tries =>
      let (evaluation, w) := evaluate_probe has_probe action (between i w) in
      match evaluation with
      | Probe_Match => (true, S i, w)
      | Probe_Failure => (false, S i, w)
      | Probe_Mismatch => await_value between has_probe action tries (S i) w
      end
  end.

(** One action from tick [i] on: whether it succeeds, and the tick after it. *)
Definition perform (between : nat -> W -> W) (has_probe : bool) (action : Action) (i : nat) (w : W)
  : bool * nat * W :=
  match action.(action_type) with
  | Action_Key => let (ok, w) := route_key (route_value action) (between i w) in (ok, S i, w)
  | Action_Wait => (true, S i, between i w)
  | Action_Screenshot =>
      let (captured, w) := capture_screenshot action.(action_value) (between i w) in
      (bool_decide (captured = Some true), S i, w)
  | Action_Expect => await_value between has_probe action 1 i w
  | Action_Await => await_value between has_probe action (Z.to_nat kMaximumAwaitTicks) i w
  | Action_CloseWindow => let (ok, w) := push_window_close (between i w) in (ok, S i, w)
  end.

(** One action after the other, until one fails or closes the window. *)
Fixpoint interpret (between : nat -> W -> W) (has_probe : bool) (actions : list Action) (i : nat)
    (w : W) : bool * nat * W :=
  match actions with
  | [] => (true, i, w)
  | action :: rest =>
      let '(ok, i, w) := perform between has_probe action i w in
      if ok && negb (bool_decide (action.(action_type) = Action_CloseWindow))
      then interpret between has_probe rest i w
      else (ok, i, w)
  end.

(** The ticks an action may take. *)
Definition action_ticks (action : Action) : nat :=
  match action.(action_type) with
  | Action_Await => Z.to_nat kMaximumAwaitTicks
  | _ => 1
  end.

(** ** The runner is that interpreter *)

(** From tick [i] to tick [j] the script is pending and then [x'] is reached. *)
Inductive pending_until (between : nat -> W -> W)
  : nat -> ScriptGlobals * W -> nat -> ScriptGlobals * W -> Prop :=
| pending_now i x : pending_until between i x i x
| pending_tick i x j x' :
    app_script_pending x.1 = true -> pending_until between (S i) (tick (between i) x) j x' ->
    pending_until between i x j x'.

Lemma pending_trans between i x j x' k x'' :
  pending_until between i x j x' -> pending_until between j x' k x'' ->
  pending_until between i x k x''.
Proof. induction 1; [done|]. intros. econstructor; eauto. Qed.

Lemma pending_run between i x j x' :
  pending_until between i x j x' ->
  (i <= j)%nat /\ run_ticks between i (j - i) x = x' /\
  forall k, (k < j - i)%nat -> app_script_pending (run_ticks between i k x).1 = true.
Proof.
  induction 1 as [i x|i x j x' Hp _ (Hle & Hrun & Hpend)].
  - rewrite Nat.sub_diag. split; [done|]. split; [done|lia].
  - split; [lia|]. replace (j - i)%nat with (S (j - S i)) by lia. split; [exact Hrun|].
    intros [|k] Hk; [exact Hp|]. apply Hpend. lia.
Qed.

(** The runner at the action after [pre], asked [n] times already. *)
Definition at_action (pre rest : list Action) (n : Z) (has_probe : bool) : ScriptGlobals :=
  mkScriptGlobals (Some (mkScriptState (pre ++ rest) (length pre) n has_probe)) false.

Definition after_action (pre : list Action) (action : Action) (rest : list Action)
    (has_probe ok : bool) : ScriptGlobals :=
  if ok && negb (bool_decide (action.(action_type) = Action_CloseWindow)) &&
     negb (length rest =? 0)%nat
  then at_action (pre ++ [action]) rest 0 has_probe
  else mkScriptGlobals None (negb ok).

Lemma tick_at_action pre action rest n has_probe f (w : W) :
  tick f (at_action pre (action :: rest) n has_probe, w) =
  run_script_action (at_action pre (action :: rest) n has_probe) (f w).
Proof. done. Qed.

Lemma step_done_after pre action rest n has_probe :
  action.(action_type) <> Action_CloseWindow ->
  step_done (next_action (mkScriptState (pre ++ action :: rest) (length pre) n has_probe))
    (at_action pre (action :: rest) n has_probe) = after_action pre action rest has_probe true.
Proof.
  intros Hc. unfold step_done, after_action, next_action. cbn [state_actions state_next].
  rewrite bool_decide_eq_false_2 by done. rewrite length_app. cbn [length negb andb].
  destruct rest as [|b rest].
  - rewrite (proj2 (Nat.leb_le _ _)) by (cbn; lia). done.
  - rewrite (proj2 (Nat.leb_gt _ _)) by (cbn; lia). cbn [length Nat.eqb negb].
    unfold with_state, at_action. rewrite <- app_assoc, length_app. cbn [app length].
    by rewrite Nat.add_1_r.
Qed.

Lemma lookup_action (pre : list Action) action rest : (pre ++ action :: rest) !! length pre = Some action.
Proof. by rewrite lookup_app_r, Nat.sub_diag by lia. Qed.

Lemma pending_one between i pre action rest n has_probe (w : W) g w' :
  run_script_action (at_action pre (action :: rest) n has_probe) (between i w) = (g, w') ->
  pending_until between i (at_action pre (action :: rest) n has_probe, w) (S i) (g, w').
Proof. intros E. apply pending_tick; [done|]. rewrite tick_at_action, E. apply pending_now. Qed.

(** An [Await] asked [50 - tries] times. *)
Lemma await_pending between pre action rest has_probe tries i (w : W) ok j w' :
  action.(action_type) = Action_Await -> (0 < tries <= Z.to_nat kMaximumAwaitTicks)%nat ->
  await_value between has_probe action tries i w = (ok, j, w') ->
  pending_until between i
    (at_action pre (action :: rest) (kMaximumAwaitTicks - Z.of_nat tries) has_probe, w)
    j (after_action pre action rest has_probe ok, w').
Proof.
  intros Ht. revert i w. induction tries as [|tries IH]; [lia|]. intros i w Hl. cbn [await_value].
  assert (run_script_action
    (at_action pre (action :: rest) (kMaximumAwaitTicks - Z.of_nat (S tries)) has_probe) (between i w) =
    let (evaluation, w) := evaluate_probe has_probe action (between i w) in
    (match evaluation with
     | Probe_Failure => mkScriptGlobals None true
     | Probe_Mismatch =>
         if (tries =? 0)%nat then mkScriptGlobals None true
         else at_action pre (action :: rest) (kMaximumAwaitTicks - Z.of_nat tries) has_probe
     | Probe_Match => after_action pre action rest has_probe true
     end, w)) as Hrun.
  { unfold run_script_action. cbn [script_state at_action state_actions state_next].
    rewrite lookup_action, Ht. cbn [state_has_probe].
    destruct (evaluate_probe _ _ _) as [[] w1]; [| |done].
    - f_equal. apply step_done_after. congruence.
    - f_equal. unfold count_await. cbn [state_await_ticks].
      replace (u32 (kMaximumAwaitTicks - Z.of_nat (S tries) + 1))
        with (kMaximumAwaitTicks - Z.of_nat tries)
        by (unfold u32, kMaximumAwaitTicks in *; rewrite Z.mod_small; lia).
      destruct (Nat.eqb_spec tries 0) as [->|Hne].
      + by rewrite Z.sub_0_r.
      + by rewrite (proj2 (Z.leb_gt _ _)) by lia. }
  destruct (evaluate_probe has_probe action (between i w)) as [[] w1].
  - intros [= <- <- <-]. by apply pending_one.
  - destruct tries as [|tries]; intros E.
    + cbn in E. injection E as <- <- <-. by apply pending_one.
    + eapply pending_trans; [apply pending_one; exact Hrun|]. apply IH; [lia|exact E].
  - intros [= <- <- <-]. apply pending_one. by rewrite Hrun.
Qed.

Lemma perform_pending between pre action rest has_probe i (w : W) ok j w' :
  perform between has_probe action i w = (ok, j, w') ->
  pending_until between i (at_action pre (action :: rest) 0 has_probe, w)
    j (after_action pre action rest has_probe ok, w').
Proof.
  assert (Hrun : forall w1, run_script_action (at_action pre (action :: rest) 0 has_probe) w1 =
    match action.(action_type) with
    | Action_Key => let (ok, w) := route_key (route_value action) w1 in
        (after_action pre action rest has_probe ok, w)
    | Action_Wait => (after_action pre action rest has_probe true, w1)
    | Action_Screenshot => let (captured, w) := capture_screenshot action.(action_value) w1 in
        (after_action pre action rest has_probe (bool_decide (captured = Some true)), w)
    | Action_Expect => let (evaluation, w) := evaluate_probe has_probe action w1 in
        (after_action pre action rest has_probe
           (match evaluation with Probe_Match => true | _ => false end), w)
    | Action_Await => run_script_action (at_action pre (action :: rest) 0 has_probe) w1
    | Action_CloseWindow => let (ok, w) := push_window_close w1 in
        (after_action pre action rest has_probe ok, w)
    end).
  { intros w1. unfold run_script_action. cbn [script_state at_action state_actions state_next].
    rewrite lookup_action.
    assert (action_type action <> Action_CloseWindow -> step_done
      (next_action (mkScriptState (pre ++ action :: rest) (length pre) 0 has_probe))
      (at_action pre (action :: rest) 0 has_probe) = after_action pre action rest has_probe true)
      as Hdone by apply step_done_after.
    destruct (action_type action) eqn:Ht; cbn [state_has_probe].
    - destruct (route_key _ _) as [[] w2]; [|done]. by rewrite Hdone.
    - by rewrite Hdone.
    - destruct (capture_screenshot _ _) as [[[]|] w2]; [|done|done]. by rewrite Hdone.
    - destruct (evaluate_probe _ _ _) as [[] w2]; [|done|done]. by rewrite Hdone.
    - done.
    - destruct (push_window_close _) as [[] w2]; unfold after_action; rewrite Ht; done. }
  unfold perform. specialize (Hrun (between i w)). destruct (action_type action) eqn:Ht.
  - destruct (route_key _ _) as [b w2]. intros [= <- <- <-]. by apply pending_one.
  - intros [= <- <- <-]. by apply pending_one.
  - destruct (capture_screenshot _ _) as [b w2]. intros [= <- <- <-]. by apply pending_one.
  - cbn [await_value]. destruct (evaluate_probe _ _ _) as [[] w2]; intros [= <- <- <-];
      by apply pending_one.
  - intros E. apply (await_pending between pre action rest) in E; [|done|split; [|done]].
    + exact E.
    + unfold kMaximumAwaitTicks. lia.
  - destruct (push_window_close _) as [b w2]. intros [= <- <- <-]. by apply pending_one.
Qed.

Lemma interpret_pending between has_probe rest : forall pre action i (w : W) ok j w',
  interpret between has_probe (action :: rest) i w = (ok, j, w') ->
  pending_until between i (at_action pre (action :: rest) 0 has_probe, w)
    j (mkScriptGlobals None (negb ok), w').
Proof.
  induction rest as [|next rest IH]; intros pre action i w ok j w'; cbn [interpret];
    (destruct (perform between has_probe action i w) as [[ok1 i1] w1] eqn:E1); intros E;
    (eapply pending_trans; [exact (perform_pending _ pre _ _ _ _ _ _ _ _ E1)|]);
    unfold after_action; cbn [length Nat.eqb negb]; rewrite ?andb_false_r, ?andb_true_r.
  - assert ((ok1, i1, w1) = (ok, j, w')) as [= -> -> ->].
    { destruct (ok1 && _) eqn:Eb; [|done]. apply andb_true_iff in Eb as [-> _]. exact E. }
    apply pending_now.
  - destruct (ok1 && _).
    + exact (IH (pre ++ [action]) next i1 w1 ok j w' E).
    + injection E as -> -> ->. apply pending_now.
Qed.

Lemma await_ticks_bound between has_probe action tries : forall i (w : W) ok j w',
  await_value between has_probe action tries i w = (ok, j, w') -> (j <= i + tries)%nat.
Proof.
  induction tries as [|tries IH]; intros i w ok j w'; cbn [await_value].
  - intros [= _ <- _]. lia.
  - destruct (evaluate_probe _ _ _) as [[] w1]; [intros [= _ <- _]; lia| |intros [= _ <- _]; lia].
    intros Hj%IH. lia.
Qed.

Lemma interpret_bound between has_probe actions : forall i (w : W) ok j w',
  interpret between has_probe actions i w = (ok, j, w') ->
  (j <= i + sum_list (action_ticks <$> actions))%nat.
Proof.
  induction actions as [|action rest IH]; intros i w ok j w'; cbn [interpret].
  - intros [= _ <- _]. cbn. lia.
  - destruct (perform between has_probe action i w) as [[ok1 i1] w1] eqn:E1.
    assert (i1 <= i + action_ticks action)%nat as Hi.
    { unfold perform in E1. unfold action_ticks. destruct (action_type action).
      - destruct (route_key _ _). injection E1 as _ <- _. lia.
      - injection E1 as _ <- _. lia.
      - destruct (capture_screenshot _ _). injection E1 as _ <- _. lia.
      - by apply await_ticks_bound in E1.
      - by apply await_ticks_bound in E1.
      - destruct (push_window_close _). injection E1 as _ <- _. lia. }
    cbn [fmap list_fmap]. change (sum_list (action_ticks action :: (action_ticks <$> rest)))
      with (action_ticks action + sum_list (action_ticks <$> rest))%nat.
    destruct (ok1 && _).
    + intros Hj%IH. lia.
    + intros [= _ <- _]. lia.
Qed.
End Interpreter.

(** ** A world for the witness *)

(** The keys that came, and after how many of them the screen is the menu. *)
Record TestScreen := mkTestScreen { keys_seen : list Z; window_closed : bool }.

#[export] Instance test_script_world : IScriptWorld TestScreen := {
  script_keys := mkLvKeys 17 18 20 19 10 27 2 8 127 9;
  route_key key w := (true, mkTestScreen (w.(keys_seen) ++ [key]) w.(window_closed));
  capture_screenshot _ w := (Some true, w);
  probe_field field w :=
    (Some (if bool_decide (field = str "screen")
           then Some (if (2 <=? length w.(keys_seen))%nat then str "menu" else str "home")
           else None), w);
  push_window_close w := (true, mkTestScreen w.(keys_seen) true)
}.

Definition await_menu : Action := mkAction Action_Await Key_None 0 (str "screen") (str "menu").

(** A key, a wait for the menu, and the end; someone presses another key at the
    sixth tick. *)
Definition test_actions : list Action :=
  [mkAction Action_Key Key_Enter 0 [] []; await_menu; close_action].

Definition someone (i : nat) (w : TestScreen) : TestScreen :=
  if (i =? 5)%nat then mkTestScreen (w.(keys_seen) ++ [17]) w.(window_closed) else w.

(** ** Property theorems *)

(** C38: a script does what it says and always comes to a verdict.  Start the runner
    with the printed form of any list of well-formed actions that fits a source, an
    accepted interval and a timer, and let anything happen between the ticks.  The
    runner performs the actions one after the other, each once and in order, asking
    for an awaited value at most fifty times, until one fails or the window is
    closed: it ends in the world that this sequence leads to, with a failure exactly
    when an action failed, after at most one tick for an action and fifty for an
    [AWAIT]; and until then it is pending. *)
Theorem script_performed {W} `{IScriptWorld W} actions interval has_probe g0
    (between : nat -> W -> W) (w : W) :
  script_wf actions -> (length (print_script actions) <= kMaximumSourceBytes)%nat ->
  actions <> [] -> (parse_interval interval).(interval_valid) = true ->
  exists g, start_app_script (Some (print_script actions)) interval true has_probe g0 = Some g /\
    let '(ok, j, w') := interpret between has_probe actions 0 w in
    run_ticks between 0 j (g, w) = (mkScriptGlobals None (negb ok), w') /\
    (j <= sum_list (action_ticks <$> actions))%nat /\
    forall k, (k < j)%nat -> app_script_pending (run_ticks between 0 k (g, w)).1 = true.
Proof.
  intros Hwf Hlen Hne Hint.
  pose proof (script_print_parse actions Hwf Hlen) as Hparse.
  destruct actions as [|action rest]; [done|].
  exists (at_action [] (action :: rest) 0 has_probe). split.
  - unfold start_app_script. rewrite (proj2 (Nat.ltb_ge _ _)) by done. rewrite Hparse, Hint.
    destruct (print_script (action :: rest)) eqn:Ep; [|done].
    by vm_compute in Hparse.
  - destruct (interpret between has_probe (action :: rest) 0 w) as [[ok j] w'] eqn:E.
    pose proof (interpret_bound _ _ _ _ _ _ _ _ E) as Hb.
    apply (interpret_pending _ _ _ []) in E as (_ & Hr & Hp)%pending_run.
    rewrite Nat.sub_0_r in *. done.
Qed.

Lemma script_performed_witness :
  let w := mkTestScreen [] false in
  interpret someone true test_actions 0 w = (true, 7%nat, mkTestScreen [10; 17] true) /\
  exists g, start_app_script (Some (print_script test_actions)) None true true
              (mkScriptGlobals None true) = Some g /\
    let '(ok, j, w') := interpret someone true test_actions 0 w in
    run_ticks someone 0 j (g, w) = (mkScriptGlobals None (negb ok), w') /\
    (j <= sum_list (action_ticks <$> test_actions))%nat /\
    forall k, (k < j)%nat -> app_script_pending (run_ticks someone 0 k (g, w)).1 = true.
Proof.
  intros w. split; [vm_compute; reflexivity|].
  apply (script_performed test_actions None true (mkScriptGlobals None true) someone w).
  - split; [cbn; unfold kMaximumActions; lia|].
    exists (take 2 test_actions), [close_action]. split_and!; [done| |by right].
    repeat (apply Forall_cons; split; [|]); [..|by apply Forall_nil].
    + by apply wf_named.
    + apply wf_await. split; [|done]. apply (bool_decide_unpack _). by vm_compute.
  - cbn. unfold kMaximumSourceBytes. lia.
  - done.
  - reflexivity.
Defined.
