(* ===== verification/KeyInput.v ===== *)
(** * KeyInput: the keys of the keyboard

    src/platform/linux_input.cpp and key_codec.h: the layout of the keyboard and its
    modifiers, the callback that reads the events of the input device, the code
    points that LVGL packs into a key, and the router that passes each press on. *)
From S2P Require Import Prelude Utf8 AppScript App.

(** ** Definitions *)

(** *** Packed characters (key_codec.h) *)

Definition kUnsupportedInput : Z := 0x25a1.

(** Byte [index] of a key. *)
Definition key_byte (key : Z) (index : Z) : Z := Z.land (Z.shiftr key (8 * index)) 0xff.

Fixpoint decode_continuation (key codepoint : Z) (index : Z) (count : nat) : Z :=
  match count with
  | O => codepoint
  | S count =>
      let b := key_byte key index in
      if negb (Z.land b 0xc0 =? 0x80) then kUnsupportedInput
      else decode_continuation key (Z.lor (u32 (Z.shiftl codepoint 6)) (Z.land b 0x3f))
             (index + 1) count
  end.

Definition decode_packed_utf8_key (key : Z) : Z :=
  let lead := key_byte key 0 in
  if Z.land lead 0x80 =? 0 then lead
  else if Z.land lead 0xe0 =? 0xc0 then decode_continuation key (Z.land lead 0x1f) 1 1
  else if Z.land lead 0xf0 =? 0xe0 then decode_continuation key (Z.land lead 0x0f) 1 2
  else if Z.land lead 0xf8 =? 0xf0 then decode_continuation key (Z.land lead 0x07) 1 3
  else kUnsupportedInput.

(** *** The layout (linux_input.cpp) *)

(** The codes of linux/input-event-codes.h. *)
Definition KEY_LEFTSHIFT : Z := 42.
Definition KEY_RIGHTSHIFT : Z := 54.
Definition KEY_CAPSLOCK : Z := 58.
Definition KEY_HOME : Z := 102.
Definition KEY_ESC : Z := 1.
Definition KEY_N : Z := 49.
Definition EV_KEY : Z := 1.

Definition ascii_key (character : byte) : Z := bval character.

Definition shifted_letter (letter : byte) (shift caps_lock : bool) : byte :=
  if negb (Bool.eqb shift caps_lock) then to_u8 (bval letter - (bval "a" - bval "A")) else letter.

(** The cases of a switch, in order. *)
Fixpoint find_case {A} (code : Z) (cases : list (Z * A)) : option A :=
  match cases with
  | [] => None
  | (c, a) :: cases => if code =? c then Some a else find_case code cases
  end.

Definition letter_cases : list (Z * byte) :=
  [(30, "a"); (48, "b"); (46, "c"); (32, "d"); (18, "e"); (33, "f"); (34, "g"); (35, "h");
   (23, "i"); (36, "j"); (37, "k"); (38, "l"); (50, "m"); (49, "n"); (24, "o"); (25, "p");
   (16, "q"); (19, "r"); (31, "s"); (20, "t"); (22, "u"); (47, "v"); (17, "w"); (45, "x");
   (21, "y"); (44, "z")]%byte.

Definition map_letter (code : Z) (shift caps_lock : bool) : Z :=
  match find_case code letter_cases with
  | None => 0
  | Some letter => ascii_key (shifted_letter letter shift caps_lock)
  end.

(** The character with shift, and without. *)
Definition number_cases : list (Z * (byte * byte)) :=
  [(2, ("!", "1")); (3, ("@", "2")); (4, ("#", "3")); (5, ("$", "4")); (6, ("%", "5"));
   (7, ("^", "6")); (8, ("&", "7")); (9, ("*", "8")); (10, ("(", "9")); (11, (")", "0"))]%byte.

Definition pick_shift (cases : list (Z * (byte * byte))) (code : Z) (shift : bool) : Z :=
  match find_case code cases with
  | None => 0
  | Some (shifted, plain) => ascii_key (if shift then shifted else plain)
  end.

Definition map_number (code : Z) (shift : bool) : Z := pick_shift number_cases code shift.

Definition named_cases (k : LvKeys) : list (Z * Z) :=
  [(KEY_HOME, k.(LV_KEY_HOME)); (KEY_ESC, k.(LV_KEY_ESC)); (28, k.(LV_KEY_ENTER));
   (103, k.(LV_KEY_UP)); (108, k.(LV_KEY_DOWN)); (105, k.(LV_KEY_LEFT));
   (106, k.(LV_KEY_RIGHT)); (14, k.(LV_KEY_BACKSPACE)); (111, k.(LV_KEY_DEL));
   (15, k.(LV_KEY_NEXT))].

(** The space needs no shift; the double quote is byte 34. *)
Definition sign_cases : list (Z * (byte * byte)) :=
  [(57, (" ", " ")); (12, ("_", "-")); (13, ("+", "=")); (26, ("{", "[")); (27, ("}", "]"));
   (43, ("|", "\")); (39, (":", ";")); (40, (x22, "'")); (41, ("~", "`")); (51, ("<", ","));
   (52, (">", ".")); (53, ("?", "/"))]%byte.

Definition map_evdev_key (k : LvKeys) (code : Z) (shift caps_lock : bool) : Z :=
  let letter := map_letter code shift caps_lock in
  if negb (letter =? 0) then letter
  else
    let number := map_number code shift in
    if negb (number =? 0) then number
    else
      match find_case code (named_cases k) with
      | Some key => key
      | None => pick_shift sign_cases code shift
      end.

(** *** Reading the device *)

Record InputEvent := mkInputEvent { event_type : Z; event_code : Z; event_value : Z }.

Record EvdevKeypad := mkEvdevKeypad {
  pad_pressed : bool;
  pad_key : Z;
  left_shift : bool;
  right_shift : bool;
  caps_lock : bool
}.

Definition new_keypad : EvdevKeypad := mkEvdevKeypad false 0 false false false.

(** [None] is the answer [false]. *)
Definition update_modifier (pad : EvdevKeypad) (event : InputEvent) : option EvdevKeypad :=
  let pressed := negb (event.(event_value) =? 0) in
  if event.(event_code) =? KEY_LEFTSHIFT then
    Some (mkEvdevKeypad pad.(pad_pressed) pad.(pad_key) pressed pad.(right_shift) pad.(caps_lock))
  else if event.(event_code) =? KEY_RIGHTSHIFT then
    Some (mkEvdevKeypad pad.(pad_pressed) pad.(pad_key) pad.(left_shift) pressed pad.(caps_lock))
  else if event.(event_code) =? KEY_CAPSLOCK then
    Some (mkEvdevKeypad pad.(pad_pressed) pad.(pad_key) pad.(left_shift) pad.(right_shift)
            (if event.(event_value) =? 1 then negb pad.(caps_lock) else pad.(caps_lock)))
  else None.

Definition with_key (pad : EvdevKeypad) (key : Z) (pressed : bool) : EvdevKeypad :=
  mkEvdevKeypad pressed key pad.(left_shift) pad.(right_shift) pad.(caps_lock).

(** [has_key] of the words that EVIOCGBIT filled. *)
Definition has_key_bit (bits : list Z) (code : nat) : bool :=
  Z.testbit (nth (code / 64) bits 0) (Z.of_nat (code mod 64)).

(** [None] is a failed ioctl. *)
Definition supports_keyboard_keys (bits : option (list Z)) : bool :=
  match bits with
  | None => false
  | Some bits =>
      has_key_bit bits (Z.to_nat KEY_HOME) || has_key_bit bits (Z.to_nat KEY_ESC) ||
      has_key_bit bits (Z.to_nat KEY_N)
  end.

Record IndevData := mkIndevData { data_key : Z; data_pressed : bool; continue_reading : bool }.

(** The loop over the events the device has: the keypad, the events left, and
    whether to go on reading. *)
Fixpoint read_loop (k : LvKeys) (pad : EvdevKeypad) (events : list InputEvent) (go_on : bool)
  : EvdevKeypad * list InputEvent * bool :=
  match events with
  | [] => (pad, [], go_on)
  | event :: events =>
      if negb (event.(event_type) =? EV_KEY) then read_loop k pad events go_on
      else
        match update_modifier pad event with
        | Some pad => read_loop k pad events true
        | None =>
            if event.(event_value) =? 2 then read_loop k pad events go_on
            else
              let shift := pad.(left_shift) || pad.(right_shift) in
              let key := map_evdev_key k event.(event_code) shift pad.(caps_lock) in
              if key =? 0 then read_loop k pad events go_on
              else (with_key pad key (negb (event.(event_value) =? 0)), events, true)
        end
  end.

Definition evdev_read_cb (k : LvKeys) (pad : EvdevKeypad) (events : list InputEvent)
  : IndevData * EvdevKeypad * list InputEvent :=
  let '(pad, events, go_on) := read_loop k pad events false in
  (mkIndevData pad.(pad_key) pad.(pad_pressed) go_on, pad, events).

(** *** Routing *)

Record KeyRouter := mkKeyRouter { last_key : Z; last_key_pressed : bool }.

Definition set_key_handler : KeyRouter := mkKeyRouter 0 false.

(** [indev] is the active input device's key and whether it is pressed; the answer
    is the key that is routed. *)
Definition key_event_cb (r : KeyRouter) (indev : option (Z * bool)) : option Z * KeyRouter :=
  match indev with
  | None => (None, r)
  | Some (packed, pressed) =>
      let key := decode_packed_utf8_key packed in
      (if pressed && (negb r.(last_key_pressed) || negb (r.(last_key) =? key)) then Some key
       else None, mkKeyRouter key pressed)
  end.

(** ** What a character becomes *)

(** The bytes of a character, packed from the low end. *)
Fixpoint pack_key (bs : bytes) : Z :=
  match bs with
  | [] => 0
  | b :: bs => bval b + 256 * pack_key bs
  end.

Lemma pack_key_nonneg bs : 0 <= pack_key bs.
Proof. induction bs as [|b bs IH]; cbn [pack_key]; [lia|]. pose proof (bval_range b). lia. Qed.

Lemma key_byte_pack bs i :
  key_byte (pack_key bs) (Z.of_nat i) = match bs !! i with Some b => bval b | None => 0 end.
Proof.
  unfold key_byte. revert i. induction bs as [|b bs IH]; intros i; cbn [pack_key].
  - by rewrite Z.shiftr_0_l.
  - pose proof (bval_range b). pose proof (pack_key_nonneg bs). rewrite lookup_cons.
    destruct i as [|i].
    + rewrite Z.shiftr_0_r. change 0xff with (Z.ones 8). rewrite Z.land_ones by lia.
      change (2 ^ 8) with 256. zdiv_lia.
    + rewrite <- (IH i). f_equal. rewrite !Z.shiftr_div_pow2 by lia.
      replace (8 * Z.of_nat (S i)) with (8 + 8 * Z.of_nat i) by lia.
      rewrite Z.pow_add_r, <- Z.div_div by lia. f_equal. change (2 ^ 8) with 256. zdiv_lia.
Qed.

Lemma decode_continuation_nil key cp i : decode_continuation key cp i 0 = cp.
Proof. done. Qed.

(** A continuation byte adds its six bits. *)
Lemma decode_continuation_step key cp i count v :
  key_byte key i = 128 + v -> 0 <= v < 64 -> 0 <= cp < 2 ^ 26 ->
  decode_continuation key cp i (S count) = decode_continuation key (cp * 64 + v) (i + 1) count.
Proof.
  intros Hk Hv Hcp. cbn [decode_continuation]. rewrite Hk.
  assert (forall w, 0 <= w < 64 -> Z.land (128 + w) 0xc0 = 0x80 /\ Z.land (128 + w) 0x3f = w) as Hbits.
  { intros w Hw. assert (forallb (fun n => (Z.land (128 + Z.of_nat n) 0xc0 =? 0x80) &&
      (Z.land (128 + Z.of_nat n) 0x3f =? Z.of_nat n)) (seq 0 64) = true) as Hall by (vm_compute; done).
    rewrite forallb_forall in Hall. specialize (Hall (Z.to_nat w) ltac:(apply in_seq; lia)).
    rewrite Z2Nat.id in Hall by lia. apply andb_true_iff in Hall as [H1w H2w].
    apply Z.eqb_eq in H1w, H2w. done. }
  destruct (Hbits v Hv) as [-> ->]. cbn [Z.eqb Pos.eqb negb]. f_equal.
  unfold u32. rewrite Z.shiftl_mul_pow2 by lia. rewrite Z.mod_small by lia.
  rewrite <- Z.add_lor_land. change (2 ^ 6) with 64.
  replace (Z.land (cp * 64) v) with 0; [lia|].
  apply Z.bits_inj'. intros n Hn. rewrite Z.land_spec, Z.bits_0.
  change 64 with (2 ^ 6). destruct (Z.lt_ge_cases n 6) as [Hlt|Hge].
  - by rewrite Z.mul_pow2_bits_low.
  - rewrite (Z.bits_above_log2 v n), andb_false_r; [done|lia|].
    destruct (Z.eq_dec v 0) as [->|]; [cbn; lia|]. apply Z.log2_lt_pow2; [lia|].
    apply Z.lt_le_trans with (2 ^ 6); [lia|]. apply Z.pow_le_mono_r; lia.
Qed.

(** What the bits of a lead byte say, for all bytes. *)
Definition lead_count (lead : Z) : nat :=
  if lead <? 0x80 then 0 else if lead <? 0xe0 then 1 else if lead <? 0xf0 then 2 else 3.

Lemma lead_decode key lead :
  key_byte key 0 = lead -> 0 <= lead < 0x80 \/ 0xc0 <= lead < 0xf8 ->
  decode_packed_utf8_key key =
  decode_continuation key
    (lead - match lead_count lead with 0%nat => 0 | 1%nat => 0xc0 | 2%nat => 0xe0 | _ => 0xf0 end)
    1 (lead_count lead).
Proof.
  intros Hk Hl. unfold decode_packed_utf8_key. rewrite Hk.
  assert (forallb (fun n => let lead := Z.of_nat n in
    if (lead <? 0x80) || (0xc0 <=? lead) && (lead <? 0xf8) then
      match lead_count lead with
      | 0%nat => Z.land lead 0x80 =? 0
      | 1%nat => negb (Z.land lead 0x80 =? 0) && (Z.land lead 0xe0 =? 0xc0) &&
                 (Z.land lead 0x1f =? lead - 0xc0)
      | 2%nat => negb (Z.land lead 0x80 =? 0) && negb (Z.land lead 0xe0 =? 0xc0) &&
                 (Z.land lead 0xf0 =? 0xe0) && (Z.land lead 0x0f =? lead - 0xe0)
      | _ => negb (Z.land lead 0x80 =? 0) && negb (Z.land lead 0xe0 =? 0xc0) &&
             negb (Z.land lead 0xf0 =? 0xe0) && (Z.land lead 0xf8 =? 0xf0) &&
             (Z.land lead 0x07 =? lead - 0xf0)
      end
    else true) (seq 0 256) = true) as Hall by (vm_compute; done).
  rewrite forallb_forall in Hall. specialize (Hall (Z.to_nat lead) ltac:(apply in_seq; lia)).
  rewrite Z2Nat.id in Hall by lia. cbv zeta in Hall.
  replace ((lead <? 0x80) || (0xc0 <=? lead) && (lead <? 0xf8)) with true in Hall by lia.
  unfold lead_count in *.
  destruct (Z.land lead 0x80 =? 0), (Z.land lead 0xe0 =? 0xc0), (Z.land lead 0xf0 =? 0xe0),
    (Z.land lead 0xf8 =? 0xf0), (lead <? 0x80), (lead <? 0xe0), (lead <? 0xf0);
    cbn [negb andb] in Hall; try discriminate Hall; try (apply Z.eqb_eq in Hall; by rewrite Hall);
    by rewrite decode_continuation_nil, Z.sub_0_r.
Qed.

(** Packing and decoding a character gives the character back. *)
Lemma decode_packed_encoded cp :
  is_scalar cp -> decode_packed_utf8_key (pack_key (encode_utf8 cp)) = cp.
Proof.
  intros [Hcp Hsur].
  assert (Hbyte : forall i b, map bval (encode_utf8 cp) !! i = Some b ->
    key_byte (pack_key (encode_utf8 cp)) (Z.of_nat i) = b).
  { intros i b Hi. rewrite key_byte_pack. rewrite list_lookup_fmap in Hi.
    destruct (encode_utf8 cp !! i); [by injection Hi|done]. }
  revert Hbyte. generalize (pack_key (encode_utf8 cp)). intros key.
  destruct (Z.le_gt_cases cp 0x7f) as [H1r|H1r];
    [|destruct (Z.le_gt_cases cp 0x7ff) as [H2r|H2r];
      [|destruct (Z.le_gt_cases cp 0xffff) as [H3r|H3r]]].
  - rewrite encode_1 by lia. intros Hbyte. rewrite (lead_decode _ _ (Hbyte 0%nat _ eq_refl)) by lia.
    unfold lead_count. rewrite (proj2 (Z.ltb_lt _ _)) by lia. cbn. lia.
  - rewrite encode_2 by lia. intros Hbyte.
    rewrite (lead_decode _ _ (Hbyte 0%nat _ eq_refl)) by zdiv_lia. unfold lead_count.
    rewrite (proj2 (Z.ltb_ge _ 0x80)), (proj2 (Z.ltb_lt _ 0xe0)) by zdiv_lia.
    rewrite (decode_continuation_step _ _ 1 _ _ (Hbyte 1%nat _ eq_refl)) by zdiv_lia.
    rewrite decode_continuation_nil. zdiv_lia.
  - rewrite encode_3 by lia. intros Hbyte.
    rewrite (lead_decode _ _ (Hbyte 0%nat _ eq_refl)) by zdiv_lia. unfold lead_count.
    rewrite (proj2 (Z.ltb_ge _ 0x80)), (proj2 (Z.ltb_ge _ 0xe0)), (proj2 (Z.ltb_lt _ 0xf0)) by zdiv_lia.
    rewrite (decode_continuation_step _ _ 1 _ _ (Hbyte 1%nat _ eq_refl)) by zdiv_lia.
    rewrite (decode_continuation_step _ _ (1 + 1) _ _ (Hbyte 2%nat _ eq_refl)) by zdiv_lia.
    rewrite decode_continuation_nil. zdiv_lia.
  - rewrite encode_4 by lia. intros Hbyte.
    rewrite (lead_decode _ _ (Hbyte 0%nat _ eq_refl)) by zdiv_lia. unfold lead_count.
    rewrite (proj2 (Z.ltb_ge _ 0x80)), (proj2 (Z.ltb_ge _ 0xe0)), (proj2 (Z.ltb_ge _ 0xf0)) by zdiv_lia.
    rewrite (decode_continuation_step _ _ 1 _ _ (Hbyte 1%nat _ eq_refl)) by zdiv_lia.
    rewrite (decode_continuation_step _ _ (1 + 1) _ _ (Hbyte 2%nat _ eq_refl)) by zdiv_lia.
    rewrite (decode_continuation_step _ _ (1 + 1 + 1) _ _ (Hbyte 3%nat _ eq_refl)) by zdiv_lia.
    rewrite decode_continuation_nil. zdiv_lia.
Qed.

(** ** The layout *)

(** The character of a key that is not one of LVGL's, or 0. *)
Definition character_of (code : Z) (shift caps : bool) : Z :=
  let letter := map_letter code shift caps in
  if negb (letter =? 0) then letter
  else
    let number := map_number code shift in
    if negb (number =? 0) then number else pick_shift sign_cases code shift.

Definition named_codes : list Z := [102; 1; 28; 103; 108; 105; 106; 14; 111; 15].

Lemma find_named k code : code ∉ named_codes -> find_case code (named_cases k) = None.
Proof.
  unfold named_codes, named_cases, KEY_HOME, KEY_ESC. rewrite !not_elem_of_cons.
  intros Hn. cbn [find_case]. repeat (rewrite (proj2 (Z.eqb_neq _ _)) by tauto). done.
Qed.

Lemma map_character k code shift caps :
  code ∉ named_codes -> map_evdev_key k code shift caps = character_of code shift caps.
Proof. intros Hn. unfold map_evdev_key, character_of. by rewrite find_named. Qed.

(** Every printable character can be typed. *)
Lemma every_character_typed k c :
  32 <= c <= 126 -> exists code shift, map_evdev_key k code shift false = c.
Proof.
  intros Hc.
  assert (forallb (fun n => existsb (fun code =>
    bool_decide (Z.of_nat code ∉ named_codes) &&
    ((character_of (Z.of_nat code) false false =? Z.of_nat n) ||
     (character_of (Z.of_nat code) true false =? Z.of_nat n))) (seq 0 128)) (seq 32 95) = true)
    as Hall by (vm_compute; done).
  rewrite forallb_forall in Hall. specialize (Hall (Z.to_nat c) ltac:(apply in_seq; lia)).
  apply existsb_exists in Hall as (code & _ & [Hn Hb]%andb_true_iff).
  rewrite Z2Nat.id in Hb by lia. apply bool_decide_eq_true in Hn.
  exists (Z.of_nat code). apply orb_true_iff in Hb as [Hb|Hb]; apply Z.eqb_eq in Hb.
  - exists false. by rewrite map_character.
  - exists true. by rewrite map_character.
Qed.

(** ** Reading in batches *)

(** One event: the keypad after it, and whether a key went down or up. *)
Definition one_event (k : LvKeys) (pad : EvdevKeypad) (event : InputEvent) : EvdevKeypad * bool :=
  if negb (event.(event_type) =? EV_KEY) then (pad, false)
  else
    match update_modifier pad event with
    | Some pad => (pad, false)
    | None =>
        let key := map_evdev_key k event.(event_code) (pad.(left_shift) || pad.(right_shift))
                     pad.(caps_lock) in
        if (event.(event_value) =? 2) || (key =? 0) then (pad, false)
        else (with_key pad key (negb (event.(event_value) =? 0)), true)
    end.

(** The strokes of the events, each with its key, in order. *)
Fixpoint strokes (k : LvKeys) (pad : EvdevKeypad) (events : list InputEvent)
  : list (Z * bool) * EvdevKeypad :=
  match events with
  | [] => ([], pad)
  | event :: events =>
      let (pad, stroke) := one_event k pad event in
      let (rest, last) := strokes k pad events in
      ((if (stroke : bool) then [(pad.(pad_key), pad.(pad_pressed))] else []) ++ rest, last)
  end.

(** What LVGL is told while it is asked to go on reading; [n] calls at most. *)
Fixpoint drain (k : LvKeys) (n : nat) (pad : EvdevKeypad) (events : list InputEvent)
  : list (Z * bool) * EvdevKeypad :=
  match n with
  | O => ([], pad)
  | S n =>
      let '(data, pad, events) := evdev_read_cb k pad events in
      let report := (data.(data_key), data.(data_pressed)) in
      if data.(continue_reading) then let (rest, last) := drain k n pad events in (report :: rest, last)
      else ([report], pad)
  end.

Lemma read_loop_strokes k events : forall pad go_on pad' rest go_on',
  read_loop k pad events go_on = (pad', rest, go_on') ->
  (rest = [] /\ strokes k pad events = ([], pad')) \/
  (go_on' = true /\ (length rest < length events)%nat /\
   strokes k pad events =
     ((pad'.(pad_key), pad'.(pad_pressed)) :: (strokes k pad' rest).1, (strokes k pad' rest).2)).
Proof.
  induction events as [|event events IH]; intros pad go_on pad' rest go_on'.
  { intros [= <- <- <-]. by left. }
  cbn [read_loop strokes]. unfold one_event.
  assert (forall pad go_on, read_loop k pad events go_on = (pad', rest, go_on') ->
    (rest = [] /\ (let (rest, last) := strokes k pad events in ([] ++ rest, last)) = ([], pad')) \/
    (go_on' = true /\ (length rest < length (event :: events))%nat /\
     (let (rest, last) := strokes k pad events in ([] ++ rest, last)) =
     ((pad'.(pad_key), pad'.(pad_pressed)) :: (strokes k pad' rest).1, (strokes k pad' rest).2)))
    as Hgo.
  { intros pad1 go1 [[-> ->]|(-> & Hl & ->)]%IH; [by left|]. right. cbn [length]. split; [done|].
    split; [lia|done]. }
  destruct (negb (event_type event =? EV_KEY)); [apply Hgo|].
  destruct (update_modifier pad event) as [pad1|]; [apply Hgo|].
  destruct (event_value event =? 2); cbn [orb]; [apply Hgo|].
  destruct (map_evdev_key _ _ _ _ =? 0); [apply Hgo|].
  intros [= <- <- <-]. right. cbn [length]. split; [done|]. split; [lia|].
  by destruct (strokes k _ events).
Qed.

Lemma drain_strokes k n : forall pad events, (length events + 1 < n)%nat ->
  exists m, (1 <= m <= 2)%nat /\
    drain k n pad events =
      (let (told, last) := strokes k pad events in
       (told ++ replicate m (last.(pad_key), last.(pad_pressed)), last)).
Proof.
  induction n as [|n IH]; intros pad events Hn; [lia|]. cbn [drain]. unfold evdev_read_cb.
  destruct (read_loop k pad events false) as [[pad' rest] go_on] eqn:E.
  apply read_loop_strokes in E as [[-> Hs]|(-> & Hl & Hs)]; cbn [data_key data_pressed continue_reading].
  - rewrite Hs. destruct go_on; [|by exists 1%nat; split; [lia|]].
    exists 2%nat. split; [lia|]. destruct n as [|n]; [lia|]. done.
  - destruct (IH pad' rest ltac:(lia)) as (m & Hm & ->). exists m. split; [done|]. rewrite Hs.
    by destruct (strokes k pad' rest).
Qed.

(** ** Typing *)

(** What is typed is what arrives.  A character that the input method delivers,
    packed into a key, is decoded to that character; every printable ASCII
    character is the key of some code of the keyboard, with shift held or not; and
    the callback, called as long as it asks for it, tells LVGL exactly the strokes
    of the pending events, in order, each with the modifiers that were down at it -
    none is lost or made up, only the last is told once or twice more -, after a
    number of calls bounded by that of the events. *)
Theorem typed_is_heard k :
  (forall cp, is_scalar cp -> decode_packed_utf8_key (pack_key (encode_utf8 cp)) = cp) /\
  (forall c, 32 <= c <= 126 -> exists code shift, map_evdev_key k code shift false = c) /\
  (forall pad events, exists m, (1 <= m <= 2)%nat /\
     drain k (length events + 2) pad events =
       (let (told, last) := strokes k pad events in
        (told ++ replicate m (last.(pad_key), last.(pad_pressed)), last))).
Proof.
  split; [exact decode_packed_encoded|]. split; [apply every_character_typed|].
  intros pad events. apply drain_strokes. lia.
Qed.

(** Shift and a, released again, then a Japanese letter of the input method. *)
Lemma typed_is_heard_witness :
  let k := mkLvKeys 17 18 20 19 10 27 2 8 127 9 in
  let events := [mkInputEvent 1 42 1; mkInputEvent 1 30 1; mkInputEvent 0 0 0;
                 mkInputEvent 1 30 0; mkInputEvent 1 42 0] in
  (is_scalar 0x3042 /\ decode_packed_utf8_key (pack_key (encode_utf8 0x3042)) = 0x3042) /\
  (exists code shift, map_evdev_key k code shift false = 126) /\
  (drain k 7 new_keypad events).1 = [(65, true); (65, false); (65, false); (65, false)] /\
  exists m, (1 <= m <= 2)%nat /\
     drain k (length events + 2) new_keypad events =
       (let (told, last) := strokes k new_keypad events in
        (told ++ replicate m (last.(pad_key), last.(pad_pressed)), last)).
Proof.
  intros k events. destruct (typed_is_heard k) as (Hc & Ht & Hd).
  assert (is_scalar 0x3042) as Hs by (unfold is_scalar; lia).
  split; [split; [exact Hs|exact (Hc 0x3042 Hs)]|]. split; [apply Ht; lia|].
  split; [vm_compute; reflexivity|]. apply Hd.
Defined.
