(* ===== verification/Startup.v ===== *)
(** * Startup: how the program starts

    The beginning of [Application::run] in src/app/app.cpp - which radio is set up,
    on which devices - and the demonstration history of src/app/demo_scenario.cpp
    that it may seed. *)
From S2P Require Import Prelude Ports Uuid Text Post Timeline Identity MessengerState Japan920Policy.
From S2P Require Import LanPolicy Transports LinuxRadio RadioTrace RadioSafety RadioPromises UdpSocket.
From S2P Require Import TransmissionScheduler InboundQueue PersistentSession RadioRuntime ViewModel.

(** ** Definitions *)

(** *** The environment *)

(** [getenv]: [None] for a variable that is not set. *)
Definition Environment : Type := bytes -> option bytes.

Definition variable_is_one (env : Environment) (name : bytes) : bool :=
  bool_decide (env name = Some (str "1")).

Definition demo_seed_requested (env : Environment) : bool :=
  variable_is_one env (str "LORA_MESSENGER_SEED_DEMO").
Definition env_antenna_confirmed (env : Environment) : bool :=
  variable_is_one env (str "LORA_MESSENGER_ANTENNA_ATTACHED").
Definition wifi_broadcast_enabled (env : Environment) : bool :=
  variable_is_one env (str "LORA_MESSENGER_WIFI_BROADCAST").

Definition apply_device_path (env : Environment) (variable destination : bytes) : bytes :=
  match env variable with
  | None | Some [] => destination
  | Some value => value
  end.

(** The milliseconds of the steady clock, given in nanoseconds. *)
Definition monotonic_milliseconds (elapsed : Z) : Z :=
  let milliseconds := Z.quot elapsed 1000000 in if milliseconds <? 0 then 0 else milliseconds.

(** *** The radio *)

Definition start_lan_config (env : Environment) : PosixUdpBroadcastConfig :=
  let c := PosixUdpBroadcastConfig_default in
  mkPosixUdpBroadcastConfig
    (apply_device_path env (str "LORA_MESSENGER_WIFI_INTERFACE") c.(interface_name))
    c.(lan_port) c.(receive_local_datagrams).

Definition start_radio_config (env : Environment) : LinuxCapLora1262Config :=
  let c := LinuxCapLora1262Config_default in
  mkLinuxCapLora1262Config
    (apply_device_path env (str "LORA_MESSENGER_SPI_DEVICE") c.(spi_device))
    (apply_device_path env (str "LORA_MESSENGER_GPIO_CHIP") c.(gpio_chip))
    (apply_device_path env (str "LORA_MESSENGER_I2C_DEVICE") c.(i2c_device))
    c.(reset_gpio) c.(irq_gpio) c.(busy_gpio) c.(spi_speed_hz)
    c.(listen_before_talk_threshold_dbm) true c.(radio_profile).

Section Start.
Context {N D : Type} `{INetwork N} `{ILinuxDevices D}.

(** Which runtime was made, over which transport and policy, and the world of the
    devices that it does not use. *)
Inductive StartedRadio :=
| Started_none (n : N) (d : D)
| Started_lan (t : UdpBroadcastTransport (SocketImpl * N)) (p : LanBroadcastPolicy)
    (rt : RadioRuntime) (d : D)
| Started_lora (t : CapLora1262Transport (RadioImpl * D)) (p : Japan920RadioPolicy)
    (rt : RadioRuntime) (n : N).

(** The LoRa radio, when no runtime was made before. *)
Definition start_lora (fuel : nat) (env : Environment) (usable : bool) (n : N) (d : D)
  : option (StartedRadio * TransportStatus) :=
  if negb (usable && env_antenna_confirmed env) then Some (Started_none n d, Transport_Offline)
  else
    match LinuxCapLora1262Radio fuel (start_radio_config env) d with
    | None => None
    | Some s =>
        let radio := linux_radio fuel in
        if negb (radio_ready s) then Some (Started_none n s.2, Transport_Offline)
        else
          let (rt, t) := RadioRuntime_make (CapLora1262Transport_make s kMaximumDatagramBytes) in
          Some (Started_lora t (Japan920RadioPolicy_make Japan920PolicyConfig_default) rt n,
                if runtime_ready rt t then Transport_LoRa else Transport_Offline)
    end.

(** [usable]: the program still runs and the session is ready. *)
Definition start_radio (fuel : nat) (env : Environment) (usable : bool) (n : N) (d : D)
  : option (StartedRadio * TransportStatus) :=
  if usable && wifi_broadcast_enabled env then
    let s := PosixUdpBroadcastSocket (start_lan_config env) n in
    if socket_ready s then
      let (rt, t) := RadioRuntime_make (UdpBroadcastTransport_make s kMaximumDatagramBytes) in
      Some (Started_lan t (LanBroadcastPolicy_make LanBroadcastPolicyConfig_default) rt d,
            Transport_WifiLan)
    else start_lora fuel env usable s.2 d
  else start_lora fuel env usable n d.
End Start.
Arguments StartedRadio _ _ : clear implicits.

(** ** What is started *)

Section Started.
Context {N D : Type} `{INetworkLaws N} `{ILinuxDevicesLaws D} `{!ISteadyDevices D}.

Lemma runtime_make_transport {T} `{IDatagramTransport T} (t : T) :
  (RadioRuntime_make t).2 = t \/ (RadioRuntime_make t).2 = close t.
Proof. unfold RadioRuntime_make. case_match; auto. Qed.

Lemma radio_constructed fuel c (d : D) :
  fuel_enough fuel (device_interrupts d) -> exists s, LinuxCapLora1262Radio fuel c d = Some s.
Proof.
  intros Hf. destruct (initialize_ends fuel _ Hf (new_impl c) d) as (u & r & d' & E & _); [done|].
  exists (r, d'). unfold LinuxCapLora1262Radio. by rewrite E.
Qed.

(** The device world of a started radio, and a use of its transport. *)
Definition lawful_use (fuel : nat) (env : Environment) (ops : list TransportOp) (n : N) (d : D)
    (st : StartedRadio N D) : Prop :=
  match st with
  | Started_none n' d' =>
      exists events, device_log d' = device_log d ++ events /\
        guarded (start_radio_config env) [] (effects events) /\
        (env_antenna_confirmed env = false -> d' = d)
  | Started_lan t _ _ d' =>
      wifi_broadcast_enabled env = true /\ d' = d /\
      let (tr, t') := transport_run t ops in
      exists events, net_log t'.(udp_socket).2 = net_log n ++ events /\
        Forall (heard_on_lan (start_lan_config env) events) tr.(handed) /\
        Forall (sent_on_lan (start_lan_config env) events) tr.(accepted) /\
        only_sends (start_lan_config env) (transport_data ops) events
  | Started_lora t _ _ _ =>
      env_antenna_confirmed env = true /\
      let radio := linux_radio fuel in
      let (r, d') := (transport_run t ops).2.(cap_radio) in
      exists events, device_log d' = device_log d ++ events /\
        guarded (start_radio_config env) (transport_asks ops) (effects events)
  end.

Lemma start_lora_lawful fuel env ops usable (n n' : N) (d : D) :
  fuel_enough fuel (device_interrupts d) ->
  exists st status, start_lora fuel env usable n' d = Some (st, status) /\
    lawful_use fuel env ops n d st.
Proof.
  intros Hf. unfold start_lora.
  destruct (env_antenna_confirmed env) eqn:Hant; [|rewrite andb_false_r]; cbn [negb].
  2:{ do 2 eexists. split; [done|]. exists []. rewrite app_nil_r. split; [done|]. split; [|done].
      intros before arguments receive after Heq. by destruct before. }
  rewrite andb_true_r. destruct usable; cbn [negb].
  2:{ do 2 eexists. split; [done|]. exists []. rewrite app_nil_r. split; [done|].
      split; [|done]. intros before arguments receive after Heq. by destruct before. }
  destruct (radio_constructed fuel (start_radio_config env) d Hf) as [s Es]. rewrite Es.
  unfold LinuxCapLora1262Radio in Es. apply fmap_Some in Es as ([u [r d1]] & Ei & ->).
  destruct (radio_ready _).
  - set (t := CapLora1262Transport_make _ _).
    pose proof (make_good fuel (start_radio_config env) ops d (r, d1) kMaximumDatagramBytes) as Hm.
    pose proof (@runtime_make_transport _ (@cap_transport _ (linux_radio fuel)) t) as Ht.
    destruct (RadioRuntime_make t) as [rt t'] eqn:Er. cbn [snd] in Ht.
    do 2 eexists. split; [done|]. split; [done|].
    apply (initialize_inv fuel (start_radio_config env) (transport_asks ops)) in Ei
      as (ev & Hl & Hinv).
    specialize (Hm ltac:(by exists ev)).
    assert (radio_since (start_radio_config env) (transport_asks ops) d t'.(cap_radio)) as Ht'.
    { destruct Ht as [-> | ->]; [exact Hm|]. by apply (cap_close_good fuel _ ops). }
    pose proof (transport_run_good fuel (start_radio_config env) ops d t' ops ltac:(done) Ht') as Hg.
    cbv zeta. match goal with |- let (_, _) := ?x in _ =>
      change (radio_since (start_radio_config env) (transport_asks ops) d x) in Hg;
      destruct x as [r2 d2] end.
    destruct Hg as (ev1 & Hl1 & [_ Hg _]). eauto.
  - apply (initialize_inv fuel (start_radio_config env) []) in Ei as (ev & Hl & [_ Hg _]).
    do 2 eexists. split; [done|]. exists ev. cbn [snd]. rewrite Hant. done.
Qed.

Lemma start_radio_lawful fuel env ops usable (n : N) (d : D) :
  fuel_enough fuel (device_interrupts d) ->
  exists st status, start_radio fuel env usable n d = Some (st, status) /\
    lawful_use fuel env ops n d st.
Proof.
  intros Hf. unfold start_radio.
  destruct (usable && wifi_broadcast_enabled env) eqn:Hw; [|by apply start_lora_lawful].
  apply andb_true_iff in Hw as [_ Hw].
  destruct (socket_ready _); [|by apply start_lora_lawful].
  set (t := UdpBroadcastTransport_make _ _).
  pose proof (lan_make_books (start_lan_config env) ops n kMaximumDatagramBytes) as Hb.
  fold t in Hb. pose proof (runtime_make_transport t) as Ht.
  destruct (RadioRuntime_make t) as [rt t']. cbn [snd] in Ht.
  do 2 eexists. split; [done|]. split; [done|]. split; [done|].
  assert (lan_books (start_lan_config env) ops n t'.(udp_socket) (mkTraffic [] [])) as Hb'.
  { destruct Ht as [-> | ->]; [exact Hb|]. unfold close; cbn. unfold udp_close.
    destruct (udp_closed t); [exact Hb|]. by apply lan_books_quiet; [apply lan_close_quiet|]. }
  pose proof (lan_transport_run (start_lan_config env) ops n t' ops ltac:(done) Hb') as Hr.
  destruct (transport_run t' ops) as [tr t2]. destruct Hr as [_ (es & Hl & Ho & Ha & Hh)].
  by exists es.
Qed.
End Started.

(** *** The demonstration history *)

(** [DemoRandom]: the number of requests so far. *)
Record DemoRandom := mkDemoRandom { request_ : Z }.

#[export] Instance demo_random : IRandomBytes DemoRandom := {
  fill w size :=
    if negb (size =? 16)%nat then (None, w)
    else
      let request := u8 (w.(request_) + 1) in
      (Some (map (fun index => to_u8 (u8 (request * 29) + Z.of_nat index)) (seq 0 size)),
       mkDemoRandom request)
}.

(** [DemoClock]. *)
#[export] Instance demo_clock : IWallClock DemoRandom := { now_unix_seconds w := (None, w) }.

(** The demonstration's messenger has no commit port; it is never called. *)
#[export] Instance demo_commit : IStateCommit DemoRandom := {
  persist_identity w _ := (true, w);
  persist_timeline w _ := (true, w)
}.

Definition demo_uuid (seed : Z) : Uuid :=
  let bytes := map (fun index => to_u8 (seed + Z.of_nat index)) (seq 0 16) in
  let bytes := <[6%nat := to_u8 (Z.lor (Z.land (bval (byte_at bytes 6)) 0x0f) 0x40)]> bytes in
  let bytes := <[8%nat := to_u8 (Z.lor (Z.land (bval (byte_at bytes 8)) 0x3f) 0x80)]> bytes in
  Uuid_from_bytes bytes.

Definition post_input (message_seed sender_seed sender_sequence : Z) (sender body : bytes)
    (mentions : list Uuid) (reply_to : option Uuid) : PostPayloadInput :=
  mkPostPayloadInput (demo_uuid message_seed) (demo_uuid sender_seed) sender_sequence sender body
    mentions reply_to None.

(** A post made and kept, or the failure. *)
Definition demo_insert (input : PostPayloadInput) (s : MessengerState) (w : DemoRandom)
  : option (PostPayload * MessengerState * DemoRandom) :=
  match PostPayload_create input with
  | failure _ => None
  | success post =>
      let '(result, s, w) := accept_received s w post in
      if CommandResult_ok result then Some (post, s, w) else None
  end.

(** [DemoScenario]: its messenger, or [None] when it is not ready. *)
Definition DemoScenario : option MessengerState :=
  s ← MessengerState_make kMaxTimelineEntries 0 false;
  let '(identity, s, w) := initialize_new s (mkDemoRandom 0) (str "Mika") in
  if negb (CommandResult_ok identity) then None
  else
    '(first, s, w) ← demo_insert
      (post_input 0x41 0x81 1 (str "Sora") (str "Sunset meetup at the west gate.") [] None) s w;
    i ← s.(ms_identity);
    '(_, s, w) ← demo_insert
      (post_input 0x51 0x91 1 (str "Lin") (str "Local demo: radio remains disabled.")
         [i.(Identity_install_id).(InstallId_uuid)] None) s w;
    '(_, s, w) ← demo_insert
      (post_input 0x61 0x81 2 (str "Sora")
         (str "Signal check 🔒 stays local. This longer test post verifies keyboard scrolling; there is no radio or delivery confirmation.")
         [] (Some first.(message_id).(MessageId_uuid))) s w;
    Some s.

Section Seeding.
Context {W : Type} `{IRandomBytes W} `{IWallClock W} `{ISettingsStore W} `{IHistoryStore W}
  `{ISessionEnvironment W}.

(** Into the session's messenger, which saves each post. *)
Fixpoint seed_posts (posts : list TimelineEntry) (x : Session * W) : bool * (Session * W) :=
  match posts with
  | [] => (true, x)
  | entry :: posts =>
      let (result, x) := run_messenger (fun m x => accept_received m x entry.(entry_post)) x in
      if negb (CommandResult_ok result) then (false, x) else seed_posts posts x
  end.

Definition seed_demo_history (env : Environment) (x : Session * W) : bool * (Session * W) :=
  let se := x.1 in
  if negb (demo_seed_requested env) || negb (is_ready se) ||
     negb (length se.(messenger).(ms_timeline).(entries) =? 0)%nat
  then (true, x)
  else
    match DemoScenario with
    | None => (false, x)
    | Some fixture => seed_posts fixture.(ms_timeline).(entries) x
    end.
End Seeding.

(** The demonstration is made: three posts, the last a reply to the first. *)
Lemma DemoScenario_ready :
  exists s, DemoScenario = Some s /\ length s.(ms_timeline).(entries) = 3%nat /\
    (fun e => e.(entry_post).(reply_to)) <$> head (rev s.(ms_timeline).(entries)) =
    (fun e => Some e.(entry_post).(message_id)) <$> head s.(ms_timeline).(entries).
Proof.
  assert (match DemoScenario with
    | Some s => length s.(ms_timeline).(entries) = 3%nat /\
        (fun e => e.(entry_post).(reply_to)) <$> head (rev s.(ms_timeline).(entries)) =
        (fun e => Some e.(entry_post).(message_id)) <$> head s.(ms_timeline).(entries)
    | None => False
    end) as Hd by (vm_compute; done).
  destruct DemoScenario as [s|]; [by exists s|done].
Qed.

(** ** The start is lawful *)

(** The program transmits only where it was told it may.  Start the radio of the
    program in any environment, over any network and any devices, and use what was
    started in any way through its transport.  The start always returns.  Without
    the confirmation of the antenna in the environment the devices of the LoRa radio
    are not touched at all; with it, whatever is transmitted is guarded: the antenna
    switched on, a channel in the band found quiet, and a datagram that was handed
    to the transport.  Over the LAN - only when that was asked for, and then the
    LoRa devices are left alone - the datagrams come from and go to the subnet of
    the selected interface. *)
Theorem started_radio_lawful {N D} `{INetworkLaws N} `{ILinuxDevicesLaws D} `{!ISteadyDevices D}
    fuel env usable ops (n : N) (d : D) :
  fuel_enough fuel (device_interrupts d) ->
  exists st status, start_radio fuel env usable n d = Some (st, status) /\
    lawful_use fuel env ops n d st.
Proof. apply start_radio_lawful. Qed.

Definition test_environment (variable : bytes) : option bytes :=
  if bool_decide (variable = str "LORA_MESSENGER_ANTENNA_ATTACHED") then Some (str "1") else None.

Lemma started_radio_lawful_witness :
  let ops := [Transport_send bench_call; Transport_receive 255] in
  let air := bench_with [(kIrqRxDone, [x09; x08])] in
  match start_radio kWaitPolls test_environment true test_net air with
  | Some (Started_lora t _ _ _, status) =>
      let radio := linux_radio kWaitPolls in
      status = Transport_LoRa /\
      (transport_run t ops).1 = mkTraffic [bench_call] [[x09; x08]]
  | _ => False
  end /\
  exists st status,
    start_radio kWaitPolls test_environment true test_net air = Some (st, status) /\
    lawful_use kWaitPolls test_environment ops test_net air st.
Proof.
  intros ops air. split; [vm_compute; split; reflexivity|].
  apply (started_radio_lawful kWaitPolls test_environment true ops test_net air).
  split; [done|]. cbn. unfold kWaitPolls. lia.
Defined.
